(* ===== verification/_CoqProject ===== *)
-Q . S2P
Prelude.v
Pmm.v
Paging.v
Heap.v
Memory.v
Scheduler.v
Threads.v
Sync.v
ProcTable.v
Ipc.v
Process.v
ProcessSpec.v
ProcMem.v
UserMem.v
Events.v
Modules.v
Mount.v
Vfs.v
VfsPath.v
VfsSpec.v
Mem.v
Font.v
Console.v
ConsoleSpec.v
Input.v
InputSpec.v
Parser.v
ParserSpec.v
Commands.v
CommandSpec.v
Shell.v
ShellSpec.v
Window.v
Apps.v
Packages.v
PackageSpec.v
PackageInstall.v
Disk.v
Fat32.v
FatVolume.v
FatDir.v
FatSpec.v
FatMain.v
Gpt.v
Elf.v
Syscall.v
SyscallSpec.v
SyscallMain.v
