(* ===== verification/Prelude.v ===== *)
(** * NexusOS kernel: verification library (root file)

    NexusOS is a freestanding x86-64 kernel written in C.  This library models
    the parts of it that carry state of their own - memory, threads, locks,
    processes, messages, events, modules, file systems, the console, the input
    drivers, the shell and the package manager - as executable functions on
    records, and proves what those parts promise to each other.
    Names of types, fields, constants and functions are the names of the C
    sources.

    ** The program and its parts

    The boot loader hands a memory map to the kernel.  [pmm.c] turns it into a
    bitmap of page frames; [paging.c] builds four-level page tables in such
    frames; [vmm.c] is the thin front end over both; [heap.c] maps pages of a
    fixed arena on demand and serves [kmalloc]/[kfree] from them.  On top of
    the heap, [scheduler.c] keeps thread control blocks in a ready queue, a
    sorted sleep queue and wait queues; [sync.c] builds spin locks, mutexes
    and semaphores from those; [process.c] is a table of eight processes with
    address spaces, user pages, file descriptors, environment and
    capabilities; [ipc.c] is a table of bidirectional channels between them.
    Interrupt handlers push into [event_queue.c]; [kernel_events.c] drains it
    in the main loop, dispatches to the drivers, wakes the waiting threads and
    feeds [watchdog.c].  [module.c] starts drivers and services in dependency
    order.  [mount.c] and [fs.c] choose a file system for a path; [vfs.c] is
    the RAM file system and the front end of the path operations; [fat32.c]
    is the driver for the volume that [gpt.c] finds on the disk.
    [elf_loader.c] reads a program from it into a process, and [syscall.c] is
    the gate through which that process reaches everything above.
    [keyboard.c] and [mouse.c] turn the bytes of the controller into keys and
    movements; the keys reach [shell.c], which edits a line, splits it with
    [parser.c], looks the commands up in [command_registry.c] and runs them over
    the RAM file system and the console ([console.c]), whose output it can
    capture for pipelines and redirections.  [app_manager.c] and
    [package_manager.c] register and install applications.

    ** Files of the library

    - [Prelude]: record update, machine-width arithmetic, bounded searches,
      function update, C strings, ring-buffer lemmas, shared automation.
    - [Pmm]: [src/kernel/mm/pmm.c].
    - [Paging]: [src/kernel/mm/paging.c], over a word-addressed physical
      memory; frames come from [Pmm].
    - [Heap]: [src/kernel/mm/heap.c] against the class [VmBackend] with [VmBackendLaws];
      block headers are kept in a map from addresses to records.
    - [Memory]: [src/kernel/mm/vmm.c]; the instance of the heap's interface by
      [Paging] and [Pmm], and the theorems about the three together.
    - [Scheduler], [Threads]: [src/kernel/core/scheduler/scheduler.c];
      the operations and their queue lemmas in the first file, the whole
      machine (a step relation over all entry points) in the second.
    - [Sync]: [src/kernel/core/sync/sync.c] over the scheduler.
    - [ProcTable], [Process], [ProcessSpec]: [src/kernel/core/process/]: the
      table, its operations, and their specifications.  Memory, ticks and the
      file system are reached through the class [MemEnv]/[FileEnv].
    - [Ipc]: [src/kernel/core/ipc/ipc.c].
    - [ProcMem]: the instance of the process table's interface by [Paging];
      [UserMem]: memory as the user's address space sees it ([MemLaws]), and
      what the copy loops leave in it.
    - [Events]: [event_queue.c], [watchdog.c], [kernel_events.c] (Modules
      [EventQueue], [Watchdog], [KernelEvents]).
    - [Modules]: [src/kernel/core/module/module.c].
    - [Mount]: [mount.c] and the registry [fs.c].
    - [Vfs], [VfsPath], [VfsSpec]: [src/fs/vfs/core/vfs.c]: the operations,
      path normalisation, and the specifications.
    - [Mem]: [src/lib/memory/mem.c]; [Font]: [src/drivers/graphics/font.c].
    - [Console], [ConsoleSpec]: [framebuffer/console.c] over a word memory of
      the framebuffer.
    - [Input], [InputSpec]: [src/drivers/input/]: keyboard, mouse and their
      event counters; ports and receivers of keys are the class [InputEnv].
    - [Parser], [ParserSpec]: [src/shell/core/parser.c].
    - [Commands], [CommandSpec]: the text, arithmetic and file commands of
      [src/shell/commands/], over any console that obeys [OutputLaws].
    - [Shell], [ShellSpec]: [shell.c] and [command_registry.c]; other devices are
      the class [ShellDev], and the shell is itself an [InputEnv]
      ([shell_input_env]), so that the two theories compose.
    - [Window]: [src/gui/window/window.c].
    - [Apps]: [app_manager.c], [state.c], [system.c], [power.c].
    - [Packages], [PackageSpec], [PackageInstall]: [package_manifest.c],
      [package_manager.c]; FAT32 is the class [PackageFs] with
      [PackageFsLaws], a contract that [MiniFs] implements.
    - [Disk]: the interface of a sector device ([ahci.h]) with its laws, the
      little-endian fields, a RAM disk that implements the interface.
    - [Fat32]: [src/fs/fat32.c], the whole driver; [FatVolume], [FatDir] and
      [FatSpec] relate its primitives, its directory walks and its file
      operations to the table and the clusters of the volume; [FatMain] has
      the theorems and a volume they run on.
    - [Gpt]: [src/fs/gpt/gpt.c].
    - [Elf]: [src/kernel/core/elf_loader.c] over [Process].
    - [Syscall]: [syscall.c], [usermode_prepare] of [usermode.c] and
      [runtime.c] over the process table, the channels and the loader;
      [SyscallSpec] bounds the effect of every call by one relation;
      [SyscallMain] has the theorems.


    ** How the code is represented

    - A C integer of width [w] is a [Z]; [u8], [u16], [u32], [u64] write the
      reduction modulo [2^w] where the C type performs it.
    - The static variables of a translation unit are the fields of one record;
      a function is a state transformer, a failing function returns the C
      status code, and a result [None] of type [option] stands for a loop that
      does not come back within its fuel or (in [Vfs] and [VfsPath]) for a
      store outside a buffer, as the comment at each definition says.
    - C strings are lists of bytes without the terminator ([cstr]); an
      optional string is a pointer that may be null.
    - Fixed arrays are functions on indices or lists of fixed length; a
      pointer into a static array is the index.
    - Calls to another component go through a class (its operations) with a
      class of laws; each has an instance by the component that implements it,
      or by a small concrete machine that the witnesses run.
    - Locking: the operations of [process.c] and [ipc.c] run between
      [irq_save] and [irq_restore] and are taken as atomic; in the scheduler,
      the heap and the locks the interrupt flag is part of the state.  The
      event queue is also modelled access by access, since its producer runs
      in interrupt context without a lock.

    ** What the theorems show

    - Memory: [kernel_heap_safe] composes heap, paging and frame allocator:
      whatever sequence of [kmalloc] and [kfree] runs, live blocks are
      disjoint, inside the arena and backed by frames of their own.
      [pmm_refines_set] and [pmm_init_free_safe] relate the bitmap to a set of
      frames; [paging_map_page_isolated] and its companion for unmapping show
      that one page changes and no other translation does.
    - Threads: [scheduler_reachable_safe] is the invariant of the queues over
      every reachable state; [scheduler_process_round_robin] and
      [wait_queue_fifo] give the order of execution; the theorems of [Sync]
      give mutual exclusion and hand-off.
    - Processes: [process_table_invariant], [process_create_correct], the user
      range check against a reference, capabilities and environment; channels
      refine FIFO queues ([ipc_channels_fifo]).
    - Events: the ring buffer refines a queue under interleaving with the
      interrupt handler, the drain loop terminates within its budget, the
      watchdog trips exactly after its limit.
    - Modules: every registered module ends loaded or failed, every initialiser
      finds the modules its own depends on initialised, and loading terminates.
    - Files: longest-prefix mounting, canonical paths, the tree invariant of
      the RAM file system, write/read round trip.
    - FAT32: writing and reading a file of the root directory is a round trip,
      keeps the volume well formed and leaves the entries, chains and contents of
      the other files alone, a write on a full volume gives back what it took, removal
      and directory creation do what they say - on every device that obeys
      [DiskLaws] and every volume whose chains end; on a cyclic chain a lookup
      never returns.
    - GPT: the scan finds exactly the used entries of the table.
    - ELF: what passes the checks lies inside the file and inside user space;
      loading builds the whole image, byte for byte, or leaves no page.
    - System calls: no call gives a capability or touches another process
      beyond channel handles, memory is written only on writable pages of the
      caller; what a missing capability protects - named by the resource, not by
      the call - is out of reach along every history; the gate opens exactly for
      the frames of a running user process whose pages pass its checks; exit
      codes reach the waiter, whatever runs in between.
    - Console: the screen shows the end of the scrollback pixel by pixel, captured
      output is what was printed.
    - Input: text typed on a US keyboard, whose layout is stated apart from the
      driver's tables, arrives as it was typed; a stream of mouse packets with
      noise moves the pointer as reported and keeps it on the screen.
    - Shell: parsing ends and stays in the buffer, quoting round trips, the line
      editor refines an editor over lists, a line typed at the keyboard runs its
      command, pipes pass the output on as an argument of the next command; the arithmetic commands compute, the file
      commands do to the RAM file system what they say.
    - Applications and packages: the application table refines a list of distinct
      identifiers; manifests are read back; discovery registers what a fold over
      the directory finds, in its order; installation is all or nothing on every
      file system with the laws of [PackageFsLaws].
    - Windows: every window stays on the screen, one has the focus, a dragged one
      follows the pointer.
    - Defects: theorems that exhibit a defect of the code on a concrete state
      are kept beside the component (for example
      [map_user_page_success_inverted], [vfs_write_path_overflows],
      [module_duplicate_name_hangs], [scheduler_dead_process_corrupts_queue],
      [ipc_exit_leaks_channels]).

    ** Bounds and fuel

    - Heap walks have the fuel [walk_fuel] = 1000002, the block count at which
      [heap_validate] itself gives up; the specifications show it is enough
      for every heap that passes validation.
    - [LOAD_FUEL] = 33: the dependency stack holds at most
      [NEXUS_MODULE_MAX] = 32 modules.
    - [UNDER_FUEL] = 49: a path to the root visits at most the 48 nodes.
    - The event drain loop has the budget of the code (128 events).
    - Path loops take the length of the remaining string as fuel.
    - Chain walks of FAT32 that the code leaves unguarded take fuel; the
      theorems ask for fuel of at least [g_max_cluster], which is enough for
      every chain without a cycle, and the result [None] means a walk that has
      not ended.
    - The parser's loops take fuel, the length of the line plus two is enough
      ([shell_parse_line_safe]); the trial division of [isprime] needs the square
      root of its argument; waiting for the keyboard controller has the bound of
      the code ([POLL_ROUNDS]).

    ** Not modelled

    - Control-register writes, TLB flushes, descriptor tables, port and MMIO
      accesses: they have no state a theorem here could speak about.
    - The drivers of storage, network, USB, PCI and graphics devices and the boot
      loader: their behaviour is the hardware's; where a modelled component
      calls one it does so through an interface class.
    - The graphical interface but for its windows: drawing.
    - The shell commands of [src/shell/commands/system]: they print what device
      drivers report, and are operations of the class [ShellDev].
    - Interfaces without an implementation in the library: the files, the
      console and the page counters of the system calls ([SysEnv]), the image
      files of the loader ([ElfFiles]), the FAT32 calls of the RAM file system
      ([VfsEnv]) and those of the package manager ([PackageFs]) are small
      concrete machines in the witnesses; that the driver of [Fat32] keeps the
      laws of [PackageFsLaws] is not proved.
*)

From Stdlib Require Import Lia ZArith Bool.
From stdpp Require Import base list gmap numbers strings.

Local Open Scope Z_scope.

(** ** Record update

    [r <| f := v |>] is the record [r] with field [f] set to [v]; it is how
    the models write the C assignments to struct members and to the static
    variables of a translation unit. *)

Class Setter {R T : Type} (getter : R → T) := set_field : (T → T) → R → R.
Arguments set_field {R T} getter {_} _ _.

(** One eta expansion per record; the setters are computed from it. *)
Class Eta (R : Type) := eta : R → R.

Ltac solve_setter :=
  match goal with
  | |- @Setter ?R ?T ?g =>
     let H := constr:(_ : Eta R) in
     let body := eval hnf in H in
     exact (fun (h : T → T) (r : R) => ltac:(
        let b := eval cbv beta in (body r) in
        let p := eval pattern (g r) in b in
        match p with
        | ?F _ => let res := eval cbv beta in (F (h (g r))) in exact res
        end))
  end.

#[global] Hint Extern 1 (@Setter _ _ _) => solve_setter : typeclass_instances.

Declare Scope nexus_scope.
Delimit Scope nexus_scope with nexus.

Notation "r <| f := v |>" := (set_field f (λ _, v) r)
  (at level 1, left associativity, f at next level, v at level 200,
   format "r  <| f  :=  v |>") : nexus_scope.
Notation "r <| f ::= h |>" := (set_field f h r)
  (at level 1, left associativity, f at next level, h at level 200,
   format "r  <| f  ::=  h |>") : nexus_scope.

Open Scope nexus_scope.

(** ** Machine integers

    A C integer of width [w] is a [Z]; the conversions below write out the
    reduction modulo [2^w] that unsigned arithmetic performs. *)

Definition u8 (x : Z) : Z := x mod 2 ^ 8.
Definition u16 (x : Z) : Z := x mod 2 ^ 16.
Definition u32 (x : Z) : Z := x mod 2 ^ 32.
Definition u64 (x : Z) : Z := x mod 2 ^ 64.

Definition UINT64_MAX : Z := 2 ^ 64 - 1.

(** Two's complement readings of an unsigned value: [(int8_t)x],
    [(int32_t)x], [(int64_t)x]. *)
Definition to_signed (w : Z) (x : Z) : Z :=
  let y := x mod 2 ^ w in if y <? 2 ^ (w - 1) then y else y - 2 ^ w.
Definition i8 (x : Z) : Z := to_signed 8 x.
Definition i32 (x : Z) : Z := to_signed 32 x.
Definition i64 (x : Z) : Z := to_signed 64 x.

(** [~x] on 64 bits. *)
Definition not64 (x : Z) : Z := u64 (Z.lnot x).

(** [(x & m) != 0]. *)
Definition has_bits (x m : Z) : bool := negb (Z.land x m =? 0).

(** ** C strings

    A string is the list of its bytes, without the terminator. *)

Definition cstr : Type := list Z.

(** A string literal. *)
Definition lit (s : string) : cstr := map (λ c, Z.of_N (Ascii.N_of_ascii c)) (String.list_ascii_of_string s).

(** [strcmp(a, b) == 0]. *)
Definition str_eqb (a b : cstr) : bool := bool_decide (a = b).

Lemma str_eqb_true a b : str_eqb a b = true ↔ a = b.
Proof. apply bool_decide_eq_true. Qed.

(** The bounded copy loops: at most [max - 1] bytes, then the terminator. *)
Definition str_trunc (src : cstr) (max : Z) : cstr := take (Z.to_nat (max - 1)) src.

(** ** Arrays as functions *)

Definition upd {A : Type} (f : Z → A) (i : Z) (v : A) : Z → A :=
  λ j, if j =? i then v else f j.

Section upd.
Context {A : Type}.
Implicit Types (f : Z → A) (v : A).

Lemma upd_eq f i v : upd f i v i = v.
Proof. unfold upd. by rewrite Z.eqb_refl. Qed.

Lemma upd_ne f i j v : j ≠ i → upd f i v j = f j.
Proof. intros H. unfold upd. by rewrite (proj2 (Z.eqb_neq j i) H). Qed.
End upd.

(** ** Tactics *)

(** Case analysis on every boolean test and [match] of the goal, with the
    contradictory branches closed by linear arithmetic. *)
Ltac branch := repeat (case_match; try (exfalso; lia)).

(** Branch on the conditionals of a hypothesis, keep the consistent ones. *)
Ltac branch_in H :=
  repeat match type of H with
  | context [if ?b then _ else _] => destruct b eqn:?; try discriminate
  end; try (exfalso; lia).

(** ** First index of a range that satisfies a test

    The scan [for (i = start; i < start + len; ++i) if (p(i)) return i;]. *)

Fixpoint first_index (p : nat → bool) (start len : nat) : option nat :=
  match len with
  | O => None
  | S k => if p start then Some start else first_index p (S start) k
  end.

Section first_index.
Implicit Types (p : nat → bool) (start len i j : nat).
Local Open Scope nat_scope.

Lemma first_index_Some p start len i :
  first_index p start len = Some i →
  start ≤ i < start + len ∧ p i = true ∧
  ∀ j, start ≤ j < i → p j = false.
Proof.
  revert start. induction len as [|len IH]; intros start H; simpl in H; [done|].
  destruct (p start) eqn:Hp.
  - injection H as <-. split; [lia|]. split; [done|]. lia.
  - apply IH in H as (? & ? & Hlow). split; [lia|]. split; [done|].
    intros j ?. destruct (decide (j = start)) as [->|]; [done|].
    apply Hlow. lia.
Qed.

Lemma first_index_None p start len :
  first_index p start len = None ↔ ∀ j, start ≤ j < start + len → p j = false.
Proof.
  revert start. induction len as [|len IH]; intros start; simpl.
  - split; [lia|done].
  - destruct (p start) eqn:Hp.
    + split; [done|]. intros H. rewrite H in Hp; [done|lia].
    + rewrite IH. split; intros H j ?.
      * destruct (decide (j = start)) as [->|]; [done|]. apply H. lia.
      * apply H. lia.
Qed.

Lemma first_index_found p start len i :
  start ≤ i < start + len → p i = true →
  ∃ j, first_index p start len = Some j ∧ j ≤ i.
Proof.
  intros Hi Hp. destruct (first_index p start len) as [j|] eqn:E.
  - exists j. split; [done|]. apply first_index_Some in E as (_ & _ & Hlow).
    destruct (decide (j ≤ i)); [done|]. rewrite Hlow in Hp; [done|lia].
  - rewrite first_index_None in E. rewrite E in Hp; [done|lia].
Qed.

(** A scan of two adjacent ranges. *)
Lemma first_index_app p start n m :
  first_index p start (n + m) =
  match first_index p start n with Some i => Some i | None => first_index p (start + n) m end.
Proof.
  revert start. induction n as [|n IH]; intros start; simpl; [by rewrite Nat.add_0_r|].
  destruct (p start); [done|]. rewrite IH. by replace (S start + n) with (start + S n) by lia.
Qed.

(** The scan only reads the test on the range. *)
Lemma first_index_ext p q start len :
  (∀ j, start ≤ j < start + len → p j = q j) →
  first_index p start len = first_index q start len.
Proof.
  revert start. induction len as [|len IH]; intros start H; simpl; [done|].
  rewrite (H start) by lia. destruct (q start); [done|].
  apply IH. intros j ?. apply H. lia.
Qed.
End first_index.

(** ** Bit-level facts shared by the components *)

Lemma u64_range x : 0 ≤ u64 x < 2 ^ 64.
Proof. unfold u64. apply Z.mod_pos_bound. lia. Qed.

Lemma u64_small x : 0 ≤ x < 2 ^ 64 → u64 x = x.
Proof. intros H. unfold u64. by apply Z.mod_small. Qed.

Lemma u32_range x : 0 ≤ u32 x < 2 ^ 32.
Proof. unfold u32. apply Z.mod_pos_bound. lia. Qed.

Lemma u32_small x : 0 ≤ x < 2 ^ 32 → u32 x = x.
Proof. intros H. unfold u32. by apply Z.mod_small. Qed.

(** [x & (2^k - 1)] is the remainder, [x & ~(2^k - 1)] rounds down. *)
Lemma land_low_mask x k : 0 ≤ k → Z.land x (2 ^ k - 1) = x mod 2 ^ k.
Proof. intros H. rewrite <- Z.land_ones by lia. f_equal. rewrite Z.ones_equiv. lia. Qed.

Lemma land_not64_mask x k :
  0 ≤ x < 2 ^ 64 → 0 ≤ k ≤ 64 → Z.land x (not64 (2 ^ k - 1)) = x - x mod 2 ^ k.
Proof.
  intros Hx Hk. rewrite <- land_low_mask by lia.
  assert (Z.land x (not64 (2 ^ k - 1)) = Z.ldiff x (Z.ones k)) as ->.
  { unfold not64, u64. rewrite <- Z.land_ones by lia. apply Z.bits_inj'. intros n Hn.
    rewrite Z.land_spec, Z.land_spec, Z.ldiff_spec, Z.lnot_spec by lia.
    replace (2 ^ k - 1) with (Z.ones k) by (rewrite Z.ones_equiv; lia).
    destruct (Z.ltb_spec n 64).
    - rewrite (Z.ones_spec_low 64) by lia. by rewrite andb_true_r.
    - rewrite (Z.ones_spec_high 64) by lia. rewrite andb_false_r, andb_false_r.
      replace x with (x mod 2 ^ 64) by (apply Z.mod_small; lia).
      by rewrite Z.mod_pow2_bits_high by lia. }
  replace (2 ^ k - 1) with (Z.ones k) by (rewrite Z.ones_equiv; lia).
  rewrite Z.sub_nocarry_ldiff.
  - apply Z.bits_inj'. intros n Hn.
    rewrite !Z.ldiff_spec, Z.land_spec. destruct (Z.testbit x n), (Z.testbit (Z.ones k) n); done.
  - apply Z.bits_inj'. intros n Hn. rewrite Z.ldiff_spec, Z.land_spec, Z.bits_0.
    destruct (Z.testbit x n), (Z.testbit (Z.ones k) n); done.
Qed.

(** [(x & (1 << k)) != 0] is bit [k] of [x]. *)
Lemma has_bits_testbit x k : 0 ≤ k → has_bits x (2 ^ k) = Z.testbit x k.
Proof.
  intros Hk. unfold has_bits. destruct (Z.eqb_spec (Z.land x (2 ^ k)) 0) as [E|E]; simpl.
  - assert (Z.testbit (Z.land x (2 ^ k)) k = false) as H by (by rewrite E, Z.bits_0).
    rewrite Z.land_spec, Z.pow2_bits_true, andb_true_r in H by lia. done.
  - destruct (Z.testbit x k) eqn:T; [done|]. destruct E.
    apply Z.bits_inj'. intros n Hn. rewrite Z.land_spec, Z.pow2_bits_eqb, Z.bits_0 by lia.
    destruct (Z.eqb_spec k n) as [->|]; [by rewrite T|]. apply andb_false_r.
Qed.

Lemma testbit_range x k n : 0 ≤ x < 2 ^ k → 0 ≤ k ≤ n → Z.testbit x n = false.
Proof.
  intros Hx Hk. rewrite <- (Z.mod_small x (2 ^ k)) by done.
  apply Z.mod_pow2_bits_high. lia.
Qed.

(** Disjoint values: [|] is addition. *)
Lemma lor_add_low a b k :
  0 ≤ k → 0 ≤ b < 2 ^ k → a mod 2 ^ k = 0 → Z.lor a b = a + b.
Proof.
  intros Hk Hb Ha. symmetry. rewrite <- Z.lxor_lor; [apply Z.add_nocarry_lxor|].
  all: apply Z.bits_inj'; intros n Hn; rewrite Z.land_spec, Z.bits_0;
    destruct (Z.ltb_spec n k).
  all: try (rewrite (testbit_range b k n) by lia; apply andb_false_r).
  all: rewrite <- (Z.mod_pow2_bits_low a k n), Ha, Z.bits_0 by lia; done.
Qed.

Create HintDb nexus.
Create Rewrite HintDb nexus.
#[export] Hint Resolve u64_range u32_range : nexus.

(** ** Counting *)

Lemma filter_ext_on {A} (P Q : A → Prop) `{∀ x, Decision (P x), ∀ x, Decision (Q x)}
    (l : list A) :
  (∀ x, x ∈ l → P x ↔ Q x) → filter P l = filter Q l.
Proof.
  induction l as [|x l IH]; intros HPQ; [done|]. rewrite !filter_cons.
  rewrite (decide_ext (P x) (Q x)) by (apply HPQ; left).
  rewrite IH by (intros y ?; apply HPQ; by right). done.
Qed.

(** A predicate that loses exactly one member of a duplicate-free list
    loses one in the count. *)
Lemma length_filter_remove {A} (P Q : A → Prop) `{∀ x, Decision (P x), ∀ x, Decision (Q x)}
    (l : list A) (i : A) :
  NoDup l → i ∈ l → P i → (∀ j, j ∈ l → Q j ↔ P j ∧ j ≠ i) →
  length (filter P l) = S (length (filter Q l)).
Proof.
  induction l as [|x l IH]; intros Hnd Hi HP HQ; [by apply elem_of_nil in Hi|].
  apply list.NoDup_cons in Hnd as [Hx Hnd].
  assert (∀ j, j ∈ l → Q j ↔ P j ∧ j ≠ i) as HQ' by (intros j ?; apply HQ; by right).
  pose proof (HQ x (list_elem_of_here x l)) as Hhd.
  rewrite !filter_cons. apply elem_of_cons in Hi as [->|Hi].
  - rewrite decide_True by done. rewrite decide_False by tauto.
    simpl. f_equal. f_equal. apply filter_ext_on.
    intros y Hy. pose proof (HQ' y Hy). assert (y ≠ x) by (by intros ->). tauto.
  - assert (x ≠ i) by (by intros ->).
    specialize (IH Hnd Hi HP HQ').
    rewrite (decide_ext (Q x) (P x)) by tauto.
    destruct (decide (P x)); simpl; lia.
Qed.

(** ** Rings

    A ring buffer of [d] cells that starts at [h] and holds [n] elements, as
    the list of its elements, oldest first. *)

Definition ring {A} (d : Z) (f : Z → A) (h n : Z) : list A :=
  map (λ k, f ((h + k) mod d)) (seqZ 0 n).

Lemma ring_length {A} d (f : Z → A) h n : 0 ≤ n → Z.of_nat (length (ring d f h n)) = n.
Proof. intros Hn. unfold ring. rewrite length_map, length_seqZ. lia. Qed.

Lemma ring_ext {A} d (f g : Z → A) h n :
  (∀ k, 0 ≤ k < n → f ((h + k) mod d) = g ((h + k) mod d)) → ring d f h n = ring d g h n.
Proof.
  intros Hfg. unfold ring. apply list_fmap_ext. intros i k Hk. apply Hfg.
  apply lookup_seqZ in Hk as [-> Hk]. lia.
Qed.

(** Distinct offsets below the size are distinct cells. *)
Lemma ring_cell_inj d h i j :
  0 < d → 0 ≤ i < d → 0 ≤ j < d → (h + i) mod d = (h + j) mod d → i = j.
Proof.
  intros Hd Hi Hj He. assert ((i - j) mod d = 0) as Hm.
  { replace (i - j) with ((h + i) - (h + j)) by lia. rewrite Zminus_mod, He, Z.sub_diag. done. }
  apply Z.mod_divide in Hm as [q Hq]; [|lia].
  assert (q = 0) as -> by (destruct (Z.lt_trichotomy q 0) as [|[|]]; nia). lia.
Qed.

Lemma ring_push {A} d (f : Z → A) h n x :
  0 < d → 0 ≤ n < d → ring d (upd f ((h + n) mod d) x) h (n + 1) = ring d f h n ++ [x].
Proof.
  intros Hd Hn. unfold ring. rewrite (seqZ_app 0 n 1) by lia.
  rewrite map_app. f_equal.
  - apply ring_ext. intros k Hk. apply upd_ne. intros He. apply ring_cell_inj in He; lia.
  - rewrite seqZ_cons, seqZ_nil, Z.add_0_l by lia. cbn. by rewrite upd_eq.
Qed.

Lemma ring_pop {A} d (f : Z → A) h n :
  0 < d → 0 ≤ h < d → 0 < n → ring d f h n = f h :: ring d f ((h + 1) mod d) (n - 1).
Proof.
  intros Hd Hh Hn. unfold ring. rewrite seqZ_cons by lia. cbn. f_equal.
  - by rewrite Z.add_0_r, Z.mod_small.
  - replace (Z.pred n) with (n - 1) by lia. change (Z.succ 0) with (1 + 0).
    rewrite <- (fmap_add_seqZ 1 0 (n - 1)). unfold fmap. rewrite map_map.
    apply map_ext. intros k. rewrite Zplus_mod_idemp_l. f_equal. f_equal. lia.
Qed.
