(* ===== verification/Pmm.v ===== *)
(** * Physical memory manager (src/kernel/mm/pmm.c)

    The bitmap allocator of 4 KiB physical pages: initialisation from the
    EFI memory map, allocation of the lowest free page, release of a page. *)

From Stdlib Require Import Lia ZArith Bool.
From stdpp Require Import base list gmap sets numbers.
From S2P Require Import Prelude.

Local Open Scope Z_scope.

(** ** Constants and data *)

Definition PAGE_SIZE : Z := 4096.
Definition PMM_MAX_PHYS : Z := 64 * 1024 * 1024 * 1024.
Definition PMM_MAX_PAGES : Z := PMM_MAX_PHYS / PAGE_SIZE.
Definition PMM_BITMAP_BYTES : Z := (PMM_MAX_PAGES + 7) / 8.

(** The static variables of pmm.c. The byte array [g_bitmap] is a function
    from byte index to byte. *)
Record pmm := mkPmm {
  g_bitmap : Z → Z;
  g_total_pages : Z;
  g_free_pages : Z;
  g_max_physical_address : Z;
  pmm_ready : bool;
}.

#[export] Instance eta_pmm : Eta pmm := λ r,
  mkPmm (g_bitmap r) (g_total_pages r) (g_free_pages r)
        (g_max_physical_address r) (pmm_ready r).

(** One EFI memory descriptor, the members pmm.c and paging.c read. *)
Record nexus_efi_mmap_entry_t := mkEntry {
  e_type : Z;
  e_physical_start : Z;
  e_number_of_pages : Z;
}.

(** The boot contract: the members the memory managers read. [bi_addr] is
    the address of the structure itself. *)
Record nexus_boot_info_t := mkBootInfo {
  bi_addr : Z;
  fb_base : Z;
  fb_size : Z;
  map_base : Z;
  map_size : Z;
  descriptor_size : Z;
  kernel_phys_base : Z;
  kernel_phys_end : Z;
}.

Definition SIZEOF_EFI_ENTRY : Z := 40.
Definition SIZEOF_BOOT_INFO : Z := 368.
Definition NEXUS_MEM_CONVENTIONAL : Z := 7.

(** ** Bitmap primitives *)

Definition bitmap_set (page : Z) (s : pmm) : pmm :=
  let i := Z.shiftr page 3 in
  s <| g_bitmap := upd (g_bitmap s) i
         (u8 (Z.lor (g_bitmap s i) (u8 (Z.shiftl 1 (Z.land page 7))))) |>.

Definition bitmap_clear (page : Z) (s : pmm) : pmm :=
  let i := Z.shiftr page 3 in
  s <| g_bitmap := upd (g_bitmap s) i
         (u8 (Z.land (g_bitmap s i) (u8 (Z.lnot (Z.shiftl 1 (Z.land page 7)))))) |>.

Definition bitmap_test (s : pmm) (page : Z) : bool :=
  negb (Z.land (g_bitmap s (Z.shiftr page 3)) (u8 (Z.shiftl 1 (Z.land page 7))) =? 0).

Definition align_down (value : Z) : Z := Z.land value (not64 (PAGE_SIZE - 1)).

Definition align_up (value : Z) : Z :=
  if value >? UINT64_MAX - (PAGE_SIZE - 1)
  then Z.land UINT64_MAX (not64 (PAGE_SIZE - 1))
  else Z.land (u64 (value + PAGE_SIZE - 1)) (not64 (PAGE_SIZE - 1)).

(** ** Reserving and releasing ranges

    The loops run over page-aligned addresses below
    [g_max_physical_address]; [n] is the number of iterations left. *)

Fixpoint reserve_loop (n : nat) (addr end_ : Z) (s : pmm) : pmm :=
  match n with
  | O => s
  | S n =>
     if addr <? end_ then
       let page := addr / PAGE_SIZE in
       if page >=? PMM_MAX_PAGES then s
       else
         let s := if negb (bitmap_test s page) then
                    let s := bitmap_set page s in
                    if negb (g_free_pages s =? 0)
                    then s <| g_free_pages := u64 (g_free_pages s - 1) |> else s
                  else s in
         reserve_loop n (u64 (addr + PAGE_SIZE)) end_ s
     else s
  end.

Fixpoint release_loop (n : nat) (addr end_ : Z) (s : pmm) : pmm :=
  match n with
  | O => s
  | S n =>
     if addr <? end_ then
       let page := addr / PAGE_SIZE in
       if page >=? PMM_MAX_PAGES then s
       else
         let s := if bitmap_test s page then
                    let s := bitmap_clear page s in
                    s <| g_free_pages := u64 (g_free_pages s + 1) |>
                  else s in
         release_loop n (u64 (addr + PAGE_SIZE)) end_ s
     else s
  end.

(** Enough iterations for a range of addresses that starts at [start] and
    ends before [end_]. *)
Definition range_fuel (start end_ : Z) : nat :=
  Z.to_nat ((end_ - start) / PAGE_SIZE + 1).

Definition reserve_range (start end_ : Z) (s : pmm) : pmm :=
  if (end_ <=? start) || (g_max_physical_address s =? 0) then s
  else
    let start := align_down start in
    let end_ := align_up end_ in
    if start >=? g_max_physical_address s then s
    else
      let end_ := if end_ >? g_max_physical_address s
                  then g_max_physical_address s else end_ in
      reserve_loop (range_fuel start end_) start end_ s.

Definition release_range (start end_ : Z) (s : pmm) : pmm :=
  if (end_ <=? start) || (g_max_physical_address s =? 0) then s
  else
    let start := align_up start in
    let end_ := align_down end_ in
    if start >=? g_max_physical_address s then s
    else
      let end_ := if end_ >? g_max_physical_address s
                  then g_max_physical_address s else end_ in
      release_loop (range_fuel start end_) start end_ s.

(** ** Initialisation *)

(** The NULL test of the source is on the address of an array element,
    which is never NULL. *)
Definition consider_max (e : nexus_efi_mmap_entry_t) (s : pmm) : pmm :=
  if e_number_of_pages e =? 0 then s
  else if e_physical_start e >=? PMM_MAX_PHYS then s
  else
    let bytes := u64 (e_number_of_pages e * PAGE_SIZE) in
    let bytes := if e_number_of_pages e >? UINT64_MAX / PAGE_SIZE
                 then UINT64_MAX else bytes in
    let end_ := u64 (e_physical_start e + bytes) in
    let end_ := if (end_ <? e_physical_start e) || (end_ >? PMM_MAX_PHYS)
                then PMM_MAX_PHYS else end_ in
    if end_ >? g_max_physical_address s
    then s <| g_max_physical_address := end_ |> else s.

(** The second pass's body: release a conventional-memory descriptor. *)
Definition release_conventional (e : nexus_efi_mmap_entry_t) (s : pmm) : pmm :=
  if negb (e_type e =? NEXUS_MEM_CONVENTIONAL) then s
  else
    let bytes := u64 (e_number_of_pages e * PAGE_SIZE) in
    let bytes := if e_number_of_pages e >? UINT64_MAX / PAGE_SIZE
                 then UINT64_MAX else bytes in
    let end_ := u64 (e_physical_start e + bytes) in
    let end_ := if end_ <? e_physical_start e then UINT64_MAX else end_ in
    release_range (e_physical_start e) end_ s.

(** The descriptors the two passes visit, in order: the [i]-th is read at
    [base + i * stride]. [mem] gives the descriptor stored at an address. *)
Definition mmap_entries (mem : Z → nexus_efi_mmap_entry_t) (bi : nexus_boot_info_t)
    : list nexus_efi_mmap_entry_t :=
  let count := Z.to_nat (map_size bi / descriptor_size bi) in
  (λ i : nat, mem (u64 (map_base bi + u64 (Z.of_nat i * descriptor_size bi)))) <$> seq 0 count.

Definition count_free (s : pmm) : Z :=
  Z.of_nat (length (filter (λ i : nat, bitmap_test s (Z.of_nat i) = false)
                           (seq 0 (Z.to_nat (g_total_pages s))))).

(** Every static variable is assigned first, so the state before the call
    does not matter. *)
Definition pmm_init (mem : Z → nexus_efi_mmap_entry_t) (boot_info : option nexus_boot_info_t)
    : pmm :=
  let s := mkPmm (λ _, 0xFF) 0 0 0 false in
  match boot_info with
  | None => s
  | Some bi =>
     if (map_base bi =? 0) || (map_size bi =? 0) || (descriptor_size bi <? SIZEOF_EFI_ENTRY)
     then s
     else
       let entries := mmap_entries mem bi in
       let s := foldl (λ s e, consider_max e s) s entries in
       let s := s <| g_total_pages := g_max_physical_address s / PAGE_SIZE |> in
       let s := if g_total_pages s >? PMM_MAX_PAGES
                then s <| g_total_pages := PMM_MAX_PAGES |> else s in
       let s := foldl (λ s e, release_conventional e s) s entries in
       let s := reserve_range 0 0x200000 s in
       let s := if kernel_phys_end bi >? kernel_phys_base bi
                then reserve_range (kernel_phys_base bi) (kernel_phys_end bi) s else s in
       let s := reserve_range (bi_addr bi) (u64 (bi_addr bi + SIZEOF_BOOT_INFO)) s in
       let s := reserve_range (map_base bi) (u64 (map_base bi + map_size bi)) s in
       let s := if negb (fb_base bi =? 0) && negb (fb_size bi =? 0)
                then reserve_range (fb_base bi) (u64 (fb_base bi + fb_size bi)) s else s in
       let s := s <| g_free_pages := count_free s |> in
       s <| pmm_ready := true |>
  end.

(** ** Allocation and release *)

Definition pmm_alloc_page (s : pmm) : Z * pmm :=
  if negb (pmm_ready s) then (0, s)
  else
    match first_index (λ i, negb (bitmap_test s (Z.of_nat i))) 0 (Z.to_nat (g_total_pages s)) with
    | Some i =>
       let page := Z.of_nat i in
       let s := bitmap_set page s in
       let s := if negb (g_free_pages s =? 0)
                then s <| g_free_pages := u64 (g_free_pages s - 1) |> else s in
       (page * PAGE_SIZE, s)
    | None => (0, s)
    end.

Definition pmm_free_page (physical_address : Z) (s : pmm) : pmm :=
  if negb (pmm_ready s) || negb (Z.land physical_address (PAGE_SIZE - 1) =? 0) then s
  else
    let page := physical_address / PAGE_SIZE in
    if (page >=? g_total_pages s) || (page >=? PMM_MAX_PAGES) then s
    else if bitmap_test s page then
      let s := bitmap_clear page s in
      s <| g_free_pages := u64 (g_free_pages s + 1) |>
    else s.

Definition pmm_used_pages (s : pmm) : Z := u64 (g_total_pages s - g_free_pages s).

Definition pmm_is_page_free (physical_address : Z) (s : pmm) : bool :=
  if negb (pmm_ready s) || negb (Z.land physical_address (PAGE_SIZE - 1) =? 0) then false
  else
    let page := physical_address / PAGE_SIZE in
    if (page >=? g_total_pages s) || (page >=? PMM_MAX_PAGES) then false
    else negb (bitmap_test s page).

(** ** Lemmas on the bitmap *)

Lemma bitmap_test_testbit s p : bitmap_test s p = Z.testbit (g_bitmap s (p / 8)) (p mod 8).
Proof.
  unfold bitmap_test. change 7 with (2 ^ 3 - 1). rewrite land_low_mask by lia.
  rewrite Z.shiftr_div_pow2, Z.shiftl_1_l by lia. change (2 ^ 3) with 8.
  assert (0 ≤ p mod 8 < 8) as Hk by (apply Z.mod_pos_bound; lia).
  unfold u8. rewrite Z.mod_small.
  - exact (has_bits_testbit _ _ (proj1 Hk)).
  - split; [apply Z.pow_nonneg; lia|]. apply Z.pow_lt_mono_r; lia.
Qed.

(** Two pages with the same byte and bit are the same page. *)
Lemma page_split p q : p / 8 = q / 8 → p mod 8 = q mod 8 → p = q.
Proof. intros H1 H2. rewrite (Z.div_mod p 8), (Z.div_mod q 8) by lia. by rewrite H1, H2. Qed.

Lemma bitmap_test_set s p q :
  bitmap_test (bitmap_set p s) q = (q =? p) || bitmap_test s q.
Proof.
  rewrite !bitmap_test_testbit. unfold bitmap_set. simpl.
  change 7 with (2 ^ 3 - 1). rewrite land_low_mask by lia.
  rewrite Z.shiftr_div_pow2, Z.shiftl_1_l by lia. change (2 ^ 3) with 8.
  assert (0 ≤ p mod 8 < 8) by (apply Z.mod_pos_bound; lia).
  assert (0 ≤ q mod 8 < 8) by (apply Z.mod_pos_bound; lia).
  unfold upd. destruct (Z.eqb_spec (q / 8) (p / 8)) as [E|E].
  - unfold u8. rewrite Z.mod_pow2_bits_low, Z.lor_spec, Z.mod_pow2_bits_low by lia.
    rewrite Z.pow2_bits_eqb by lia. rewrite E, orb_comm. f_equal.
    destruct (Z.eqb_spec q p) as [->|Hne]; [by rewrite Z.eqb_refl|].
    apply Z.eqb_neq. intros Hk. apply Hne, page_split; lia.
  - destruct (Z.eqb_spec q p) as [->|]; [done|]. done.
Qed.

Lemma bitmap_test_clear s p q :
  bitmap_test (bitmap_clear p s) q = bitmap_test s q && negb (q =? p).
Proof.
  rewrite !bitmap_test_testbit. unfold bitmap_clear. simpl.
  change 7 with (2 ^ 3 - 1). rewrite land_low_mask by lia.
  rewrite Z.shiftr_div_pow2, Z.shiftl_1_l by lia. change (2 ^ 3) with 8.
  assert (0 ≤ p mod 8 < 8) by (apply Z.mod_pos_bound; lia).
  assert (0 ≤ q mod 8 < 8) by (apply Z.mod_pos_bound; lia).
  unfold upd. destruct (Z.eqb_spec (q / 8) (p / 8)) as [E|E].
  - unfold u8. rewrite Z.mod_pow2_bits_low, Z.land_spec, Z.mod_pow2_bits_low by lia.
    rewrite Z.lnot_spec, Z.pow2_bits_eqb by lia. rewrite E. f_equal. f_equal.
    destruct (Z.eqb_spec q p) as [->|Hne]; [by rewrite Z.eqb_refl|].
    apply Z.eqb_neq. intros Hk. apply Hne, page_split; lia.
  - destruct (Z.eqb_spec q p) as [->|]; [done|]. by rewrite andb_true_r.
Qed.

(** Setting the free-page counter does not touch the bitmap. *)
Lemma bitmap_test_free s v q : bitmap_test (s <| g_free_pages := v |>) q = bitmap_test s q.
Proof. done. Qed.

#[export] Hint Rewrite bitmap_test_set bitmap_test_clear bitmap_test_free : nexus.

Lemma align_down_spec v : 0 ≤ v < 2 ^ 64 → align_down v = v - v mod PAGE_SIZE.
Proof. intros H. exact (land_not64_mask v 12 H ltac:(lia)). Qed.

Lemma align_up_spec v :
  0 ≤ v < 2 ^ 64 →
  align_up v mod PAGE_SIZE = 0 ∧ 0 ≤ align_up v < 2 ^ 64 ∧
  ((v ≤ align_up v ∧ align_up v < v + PAGE_SIZE) ∨ align_up v = 2 ^ 64 - PAGE_SIZE).
Proof.
  intros H. unfold align_up. destruct (Z.gtb_spec v (UINT64_MAX - (PAGE_SIZE - 1))) as [C|C].
  - replace (Z.land UINT64_MAX (not64 (PAGE_SIZE - 1))) with (2 ^ 64 - PAGE_SIZE) by reflexivity.
    split; [reflexivity|]. unfold PAGE_SIZE. split; [lia|]. by right.
  - unfold UINT64_MAX, PAGE_SIZE in *. rewrite u64_small by lia.
    change (4096 - 1) with (2 ^ 12 - 1). rewrite land_not64_mask by lia.
    change (2 ^ 12) with 4096. Z.div_mod_to_equations. lia.
Qed.

(** ** The range loops *)

(** What the loops leave alone. *)
Lemma reserve_loop_frame n addr end_ s :
  let s' := reserve_loop n addr end_ s in
  g_total_pages s' = g_total_pages s ∧ g_max_physical_address s' = g_max_physical_address s ∧
  pmm_ready s' = pmm_ready s.
Proof.
  revert addr s. induction n as [|n IH]; intros addr s; simpl; [done|].
  destruct (addr <? end_); [|done]. destruct (_ >=? _); [done|].
  edestruct IH as (-> & -> & ->).
  destruct (bitmap_test s _); simpl; [done|]. by destruct (negb _).
Qed.

Lemma release_loop_frame n addr end_ s :
  let s' := release_loop n addr end_ s in
  g_total_pages s' = g_total_pages s ∧ g_max_physical_address s' = g_max_physical_address s ∧
  pmm_ready s' = pmm_ready s.
Proof.
  revert addr s. induction n as [|n IH]; intros addr s; simpl; [done|].
  destruct (addr <? end_); [|done]. destruct (_ >=? _); [done|].
  edestruct IH as (-> & -> & ->). by destruct (bitmap_test s _).
Qed.

(** The pages a loop over [addr .. end_) visits. *)
Definition in_pages (addr end_ q : Z) : bool :=
  (addr <=? q * PAGE_SIZE) && (q * PAGE_SIZE <? end_).

Lemma in_pages_step addr end_ q :
  addr mod PAGE_SIZE = 0 → addr < end_ →
  in_pages addr end_ q = (q =? addr / PAGE_SIZE) || in_pages (addr + PAGE_SIZE) end_ q.
Proof.
  unfold in_pages, PAGE_SIZE. intros Ha Hlt.
  destruct (Z.eqb_spec q (addr / 4096)); Z.div_mod_to_equations; lia.
Qed.

Section loops.
Context (end_ : Z) (Hend : end_ ≤ PMM_MAX_PHYS).

Lemma loop_page_bound addr : 0 ≤ addr < end_ → (addr / PAGE_SIZE >=? PMM_MAX_PAGES) = false.
Proof using Hend.
  unfold PMM_MAX_PAGES, PMM_MAX_PHYS, PAGE_SIZE in *. intros H.
  rewrite Z.geb_leb. apply Z.leb_gt. Z.div_mod_to_equations. lia.
Qed.

Lemma loop_next addr : 0 ≤ addr < end_ → u64 (addr + PAGE_SIZE) = addr + PAGE_SIZE.
Proof using Hend. unfold PMM_MAX_PHYS, PAGE_SIZE in *. intros H. apply u64_small. lia. Qed.

Lemma reserve_loop_test n addr s q :
  0 ≤ addr → addr mod PAGE_SIZE = 0 → (end_ - addr) / PAGE_SIZE < Z.of_nat n →
  bitmap_test (reserve_loop n addr end_ s) q = bitmap_test s q || in_pages addr end_ q.
Proof using Hend.
  revert addr s. induction n as [|n IH]; intros addr s H0 Ha Hn; simpl.
  - unfold in_pages, PAGE_SIZE in *. Z.div_mod_to_equations.
    assert ((addr <=? q * 4096) && (q * 4096 <? end_) = false) as -> by lia.
    by rewrite orb_false_r.
  - destruct (Z.ltb_spec addr end_) as [Hlt|Hge].
    + rewrite loop_page_bound, loop_next, in_pages_step by (done || lia).
      rewrite IH by (unfold PAGE_SIZE in *; Z.div_mod_to_equations; lia).
      rewrite orb_assoc. f_equal.
      destruct (bitmap_test s (addr / PAGE_SIZE)) eqn:T; simpl.
      * destruct (Z.eqb_spec q (addr / PAGE_SIZE)) as [->|]; [by rewrite T|].
        by rewrite orb_false_r.
      * destruct (negb _); autorewrite with nexus; apply orb_comm.
    + unfold in_pages. assert ((addr <=? q * PAGE_SIZE) && (q * PAGE_SIZE <? end_) = false)
        as -> by lia. by rewrite orb_false_r.
Qed.

Lemma release_loop_test n addr s q :
  0 ≤ addr → addr mod PAGE_SIZE = 0 → (end_ - addr) / PAGE_SIZE < Z.of_nat n →
  bitmap_test (release_loop n addr end_ s) q = bitmap_test s q && negb (in_pages addr end_ q).
Proof using Hend.
  revert addr s. induction n as [|n IH]; intros addr s H0 Ha Hn; simpl.
  - unfold in_pages, PAGE_SIZE in *. Z.div_mod_to_equations.
    assert ((addr <=? q * 4096) && (q * 4096 <? end_) = false) as -> by lia.
    by rewrite andb_true_r.
  - destruct (Z.ltb_spec addr end_) as [Hlt|Hge].
    + rewrite loop_page_bound, loop_next, in_pages_step by (done || lia).
      rewrite IH by (unfold PAGE_SIZE in *; Z.div_mod_to_equations; lia).
      rewrite negb_orb, andb_assoc. f_equal.
      destruct (bitmap_test s (addr / PAGE_SIZE)) eqn:T; simpl.
      * autorewrite with nexus. done.
      * destruct (Z.eqb_spec q (addr / PAGE_SIZE)) as [->|]; [by rewrite T|].
        by rewrite andb_true_r.
    + unfold in_pages. assert ((addr <=? q * PAGE_SIZE) && (q * PAGE_SIZE <? end_) = false)
        as -> by lia. by rewrite andb_true_r.
Qed.
End loops.

Lemma reserve_loop_mono n addr end_ s q :
  bitmap_test s q = true → bitmap_test (reserve_loop n addr end_ s) q = true.
Proof.
  revert addr s. induction n as [|n IH]; intros addr s H; simpl; [done|].
  destruct (addr <? end_); [|done]. destruct (_ >=? _); [done|]. apply IH.
  destruct (bitmap_test s (addr / PAGE_SIZE)); simpl; [done|].
  destruct (negb _); autorewrite with nexus; rewrite H; apply orb_true_r.
Qed.

(** ** Ranges *)

Lemma range_fuel_enough a b : (b - a) / PAGE_SIZE < Z.of_nat (range_fuel a b) ∨ b < a.
Proof. unfold range_fuel, PAGE_SIZE. Z.div_mod_to_equations. lia. Qed.

Lemma reserve_range_frame a b s :
  let s' := reserve_range a b s in
  g_total_pages s' = g_total_pages s ∧ g_max_physical_address s' = g_max_physical_address s ∧
  pmm_ready s' = pmm_ready s.
Proof.
  unfold reserve_range. destruct (_ || _); [done|]. destruct (_ >=? _); [done|].
  apply reserve_loop_frame.
Qed.

Lemma release_range_frame a b s :
  let s' := release_range a b s in
  g_total_pages s' = g_total_pages s ∧ g_max_physical_address s' = g_max_physical_address s ∧
  pmm_ready s' = pmm_ready s.
Proof.
  unfold release_range. destruct (_ || _); [done|]. destruct (_ >=? _); [done|].
  apply release_loop_frame.
Qed.

Lemma reserve_range_mono a b s q :
  bitmap_test s q = true → bitmap_test (reserve_range a b s) q = true.
Proof.
  unfold reserve_range. intros H. destruct (_ || _); [done|]. destruct (_ >=? _); [done|].
  by apply reserve_loop_mono.
Qed.

(** Page [q] meets the byte range [a .. b). *)
Definition overlaps (q a b : Z) : Prop := a < b ∧ a < (q + 1) * PAGE_SIZE ∧ q * PAGE_SIZE < b.

(** Page [q] is inside the byte range [a .. b). *)
Definition contained (q a b : Z) : Prop := a ≤ q * PAGE_SIZE ∧ (q + 1) * PAGE_SIZE ≤ b.

Lemma reserve_range_covers a b s q :
  0 ≤ a < 2 ^ 64 → 0 ≤ b < 2 ^ 64 → g_max_physical_address s ≤ PMM_MAX_PHYS →
  0 ≤ q → (q + 1) * PAGE_SIZE ≤ g_max_physical_address s → overlaps q a b →
  bitmap_test (reserve_range a b s) q = true.
Proof.
  intros Ha Hb Hmax Hq Hqm (Hab & Haq & Hqb). unfold reserve_range.
  rewrite (proj2 (Z.leb_gt _ _)) by lia.
  rewrite (proj2 (Z.eqb_neq _ _)) by (unfold PAGE_SIZE in *; lia). simpl.
  pose proof (align_down_spec a Ha) as Hd. pose proof (align_up_spec b Hb) as (Hu1 & Hu2 & Hu3).
  set (a' := align_down a) in *. set (b' := align_up b) in *.
  assert (0 ≤ a' ≤ q * PAGE_SIZE ∧ a' mod PAGE_SIZE = 0) as (? & ?).
  { unfold PAGE_SIZE in *. Z.div_mod_to_equations. lia. }
  rewrite Z.geb_leb, (proj2 (Z.leb_gt _ _)) by (unfold PAGE_SIZE in *; lia).
  set (e := if b' >? _ then _ else _).
  assert (q * PAGE_SIZE < e ∧ e ≤ PMM_MAX_PHYS) as [].
  { subst e. unfold PMM_MAX_PHYS, PAGE_SIZE in *. destruct (Z.gtb_spec b' (g_max_physical_address s)); lia. }
  rewrite reserve_loop_test; [|done|lia|done|].
  - unfold in_pages. rewrite orb_true_iff. right. lia.
  - destruct (range_fuel_enough a' e); lia.
Qed.

Lemma release_range_sound a b s q :
  0 ≤ a < 2 ^ 64 → 0 ≤ b < 2 ^ 64 → g_max_physical_address s ≤ PMM_MAX_PHYS →
  bitmap_test (release_range a b s) q = false →
  bitmap_test s q = false ∨ contained q a b.
Proof.
  intros Ha Hb Hmax. unfold release_range. destruct (_ || _); [by left|].
  pose proof (align_down_spec b Hb) as Hd. pose proof (align_up_spec a Ha) as (Hu1 & Hu2 & Hu3).
  set (a' := align_up a) in *. set (b' := align_down b) in *.
  destruct (Z.geb_spec a' (g_max_physical_address s)) as [|Hlt]; [by left|].
  set (e := if b' >? _ then _ else _).
  assert (e ≤ b' ∧ e ≤ PMM_MAX_PHYS) as [].
  { subst e. destruct (Z.gtb_spec b' (g_max_physical_address s)); lia. }
  destruct (range_fuel_enough a' e) as [Hf|Hf].
  - rewrite release_loop_test by (done || lia).
    intros [?|Hin]%andb_false_iff; [by left|]. right.
    unfold in_pages, contained, PMM_MAX_PHYS, PAGE_SIZE in *. Z.div_mod_to_equations. lia.
  - left. destruct (range_fuel a' e); simpl in *; [done|].
    rewrite (proj2 (Z.ltb_ge a' e)) in * by lia. done.
Qed.

(** ** Initialisation *)

(** A page of the represented range that is not marked used. *)
Definition page_free (s : pmm) (q : Z) : Prop :=
  0 ≤ q < g_total_pages s ∧ bitmap_test s q = false.

(** The members of a descriptor are 64-bit values. *)
Definition entry_ok (e : nexus_efi_mmap_entry_t) : Prop :=
  0 ≤ e_physical_start e < 2 ^ 64 ∧ 0 ≤ e_number_of_pages e < 2 ^ 64.

(** The boot structure holds 64-bit values and its ranges do not wrap. *)
Definition boot_info_ok (bi : nexus_boot_info_t) : Prop :=
  0 ≤ kernel_phys_base bi < 2 ^ 64 ∧ 0 ≤ kernel_phys_end bi < 2 ^ 64 ∧
  0 ≤ bi_addr bi ∧ bi_addr bi + SIZEOF_BOOT_INFO < 2 ^ 64 ∧
  0 ≤ map_base bi ∧ 0 ≤ map_size bi ∧ map_base bi + map_size bi < 2 ^ 64 ∧
  0 ≤ fb_base bi ∧ 0 ≤ fb_size bi ∧ fb_base bi + fb_size bi < 2 ^ 64.

Lemma foldl_consider_max es s :
  Forall entry_ok es → 0 ≤ g_max_physical_address s ≤ PMM_MAX_PHYS →
  let s' := foldl (λ s e, consider_max e s) s es in
  0 ≤ g_max_physical_address s' ≤ PMM_MAX_PHYS ∧ g_bitmap s' = g_bitmap s.
Proof.
  revert s. induction es as [|e es IH]; intros s Hes Hm; simpl; [done|].
  inversion Hes as [|? ? He Hes' ]; subst.
  assert (0 ≤ g_max_physical_address (consider_max e s) ≤ PMM_MAX_PHYS
          ∧ g_bitmap (consider_max e s) = g_bitmap s) as [? Hb].
  { unfold consider_max. destruct (_ =? 0); [done|]. destruct (_ >=? _); [done|].
    set (en := if _ || _ then _ else _).
    assert (0 ≤ en ≤ PMM_MAX_PHYS).
    { subst en. pose proof (u64_range (e_physical_start e +
        (if e_number_of_pages e >? UINT64_MAX / PAGE_SIZE then UINT64_MAX
         else u64 (e_number_of_pages e * PAGE_SIZE)))).
      destruct (_ || _) eqn:E; [unfold PMM_MAX_PHYS; lia|].
      apply orb_false_iff in E as [? ?]. lia. }
    clearbody en. by destruct (en >? _). }
  rewrite <- Hb. by apply IH.
Qed.

Lemma foldl_release_sound es s q :
  Forall entry_ok es → g_max_physical_address s ≤ PMM_MAX_PHYS →
  (q + 1) * PAGE_SIZE ≤ PMM_MAX_PHYS →
  let s' := foldl (λ s e, release_conventional e s) s es in
  g_total_pages s' = g_total_pages s ∧
  g_max_physical_address s' = g_max_physical_address s ∧
  (bitmap_test s' q = false →
   bitmap_test s q = false ∨
   ∃ e, e ∈ es ∧ e_type e = NEXUS_MEM_CONVENTIONAL ∧
     contained q (e_physical_start e) (e_physical_start e + e_number_of_pages e * PAGE_SIZE)).
Proof.
  revert s. induction es as [|e es IH]; intros s Hes Hm Hq; simpl; [auto|].
  inversion Hes as [|? ? [He1 He2] Hes' ]; subst.
  set (s1 := release_conventional e s).
  assert (g_total_pages s1 = g_total_pages s ∧
          g_max_physical_address s1 = g_max_physical_address s) as [Ht Hx].
  { subst s1. unfold release_conventional. destruct (negb _); [done|].
    edestruct release_range_frame as (? & ? & ?); by split. }
  destruct (IH s1) as (H1 & H2 & H3); [done|lia|done|].
  split; [congruence|]. split; [congruence|]. intros Hf.
  destruct (H3 Hf) as [Hf1|(e' & ? & ? & ?)]; [|right; exists e'; by rewrite elem_of_cons; auto].
  subst s1. unfold release_conventional in Hf1.
  destruct (Z.eqb_spec (e_type e) NEXUS_MEM_CONVENTIONAL) as [Hc|]; simpl in Hf1; [|by left].
  apply release_range_sound in Hf1 as [?|Hin]; [by left| |done| |done].
  - right. exists e. split; [by left|]. split; [done|].
    unfold contained, UINT64_MAX, u64, PMM_MAX_PHYS, PAGE_SIZE in *. branch_in Hin; try lia.
    all: revert Hin; repeat case_match; intros; Z.div_mod_to_equations; lia.
  - unfold UINT64_MAX, u64. branch; Z.div_mod_to_equations; lia.
Qed.

(** The counters and flags written at the end of [pmm_init] leave the bitmap
    and the represented range as the passes built them. *)
Lemma page_free_finish s v b q :
  page_free ((s <| g_free_pages := v |>) <| pmm_ready := b |>) q ↔ page_free s q.
Proof. done. Qed.

Lemma page_free_reserve a b s q :
  0 ≤ a < 2 ^ 64 → 0 ≤ b < 2 ^ 64 → g_max_physical_address s ≤ PMM_MAX_PHYS →
  g_total_pages s * PAGE_SIZE ≤ g_max_physical_address s →
  page_free (reserve_range a b s) q → page_free s q ∧ ¬ overlaps q a b.
Proof.
  intros Ha Hb Hm Ht [Hq Hf].
  destruct (reserve_range_frame a b s) as (Et & _ & _). rewrite Et in Hq.
  assert (bitmap_test s q = false) as Hs.
  { destruct (bitmap_test s q) eqn:T; [|done].
    by rewrite (reserve_range_mono a b s q T) in Hf. }
  split; [by split|]. intros Ho.
  rewrite (reserve_range_covers a b s q) in Hf; try done; unfold PAGE_SIZE in *; lia.
Qed.

(** The state between the passes: the represented range is bounded. *)
Definition init_ok (s : pmm) : Prop :=
  g_max_physical_address s ≤ PMM_MAX_PHYS ∧
  g_total_pages s * PAGE_SIZE ≤ g_max_physical_address s.

Lemma init_ok_reserve a b s : init_ok s → init_ok (reserve_range a b s).
Proof.
  unfold init_ok. destruct (reserve_range_frame a b s) as (-> & -> & _). done.
Qed.

#[export] Hint Resolve init_ok_reserve : nexus.

Lemma page_free_reserve_ok a b s q :
  page_free (reserve_range a b s) q → init_ok s → 0 ≤ a < 2 ^ 64 → 0 ≤ b < 2 ^ 64 →
  page_free s q ∧ ¬ overlaps q a b.
Proof. intros ? [] ? ?. by apply page_free_reserve. Qed.

(** The passes of [pmm_init] before the reservations. *)
Definition pmm_init_scanned (mem : Z → nexus_efi_mmap_entry_t) (bi : nexus_boot_info_t) : pmm :=
  let s := foldl (λ s e, consider_max e s) (mkPmm (λ _, 0xFF) 0 0 0 false) (mmap_entries mem bi) in
  let s := s <| g_total_pages := g_max_physical_address s / PAGE_SIZE |> in
  let s := if g_total_pages s >? PMM_MAX_PAGES
           then s <| g_total_pages := PMM_MAX_PAGES |> else s in
  foldl (λ s e, release_conventional e s) s (mmap_entries mem bi).

Lemma mmap_entries_ok mem bi :
  (∀ a, entry_ok (mem a)) → Forall entry_ok (mmap_entries mem bi).
Proof.
  intros H. unfold mmap_entries. apply list.Forall_forall.
  intros e (i & -> & _)%list_elem_of_fmap. apply H.
Qed.

Lemma pmm_init_scanned_spec mem bi :
  (∀ a, entry_ok (mem a)) →
  (init_ok (pmm_init_scanned mem bi) ∧
   0 ≤ g_total_pages (pmm_init_scanned mem bi) ≤ PMM_MAX_PAGES) ∧
  ∀ q, page_free (pmm_init_scanned mem bi) q →
    ∃ e, e ∈ mmap_entries mem bi ∧ e_type e = NEXUS_MEM_CONVENTIONAL ∧
      contained q (e_physical_start e) (e_physical_start e + e_number_of_pages e * PAGE_SIZE).
Proof.
  intros Hmem. pose proof (mmap_entries_ok mem bi Hmem) as Hes.
  unfold pmm_init_scanned. set (es := mmap_entries mem bi) in *.
  set (s0 := mkPmm (λ _, 0xFF) 0 0 0 false).
  destruct (foldl_consider_max es s0 Hes) as [Hm Hb]; [unfold PMM_MAX_PHYS; simpl; lia|].
  set (s1 := foldl (λ s e, consider_max e s) s0 es) in *.
  set (s2 := s1 <| g_total_pages := _ |>).
  set (s3 := if g_total_pages s2 >? PMM_MAX_PAGES then _ else _).
  assert (init_ok s3 ∧ 0 ≤ g_total_pages s3 ≤ PMM_MAX_PAGES ∧ g_bitmap s3 = g_bitmap s0) as (Hi & Ht & Hb3).
  { subst s3 s2. unfold init_ok, PMM_MAX_PAGES, PMM_MAX_PHYS, PAGE_SIZE in *. simpl.
    destruct (Z.gtb_spec (g_max_physical_address s1 / 4096) ((64 * 1024 * 1024 * 1024) / 4096));
      simpl; split; try (split; [|done]); Z.div_mod_to_equations; lia. }
  clearbody s3. split.
  - destruct (foldl_release_sound es s3 0 Hes) as (E1 & E2 & _);
      [apply Hi|unfold PMM_MAX_PHYS, PAGE_SIZE; lia|].
    unfold init_ok in *. by rewrite E1, E2.
  - intros q [Hq Hf]. destruct (foldl_release_sound es s3 q Hes) as (E1 & E2 & H).
    + apply Hi.
    + destruct (foldl_release_sound es s3 0 Hes) as (E1 & _ & _);
        [apply Hi|unfold PMM_MAX_PHYS, PAGE_SIZE; lia|].
      rewrite E1 in Hq. change PMM_MAX_PAGES with 16777216 in *.
      unfold PMM_MAX_PHYS, PAGE_SIZE in *. lia.
    + destruct (H Hf) as [Hx|]; [|done]. exfalso. rewrite bitmap_test_testbit, Hb3 in Hx.
      simpl in Hx. assert (0 ≤ q mod 8 < 8) by (apply Z.mod_pos_bound; lia).
      change 255 with (Z.ones 8) in Hx. by rewrite Z.ones_spec_low in Hx by lia.
Qed.

(** C23: what [pmm_init] makes allocatable. *)
Theorem pmm_init_free_safe mem bi q :
  (∀ a, entry_ok (mem a)) → boot_info_ok bi →
  page_free (pmm_init mem (Some bi)) q →
  0x200000 ≤ q * PAGE_SIZE ∧
  (∃ e, e ∈ mmap_entries mem bi ∧ e_type e = NEXUS_MEM_CONVENTIONAL ∧
     contained q (e_physical_start e) (e_physical_start e + e_number_of_pages e * PAGE_SIZE)) ∧
  ¬ overlaps q (kernel_phys_base bi) (kernel_phys_end bi) ∧
  ¬ overlaps q (bi_addr bi) (bi_addr bi + SIZEOF_BOOT_INFO) ∧
  ¬ overlaps q (map_base bi) (map_base bi + map_size bi) ∧
  (fb_base bi ≠ 0 → ¬ overlaps q (fb_base bi) (fb_base bi + fb_size bi)).
Proof.
  intros Hmem (Hk1 & Hk2 & Hb1 & Hb2 & Hm1 & Hm2 & Hm3 & Hf1 & Hf2 & Hf3) Hq.
  unfold SIZEOF_BOOT_INFO in *. unfold pmm_init in Hq.
  destruct (_ || _); [destruct Hq as [Hq _]; simpl in Hq; lia|].
  cbv zeta in Hq. fold (pmm_init_scanned mem bi) in Hq.
  destruct (pmm_init_scanned_spec mem bi Hmem) as [[Hi _] Hconv].
  set (s1 := pmm_init_scanned mem bi) in *. clearbody s1.
  apply (proj1 (page_free_finish _ _ _ _)) in Hq. unfold SIZEOF_BOOT_INFO in *.
  rewrite !u64_small in Hq by lia.
  set (s2 := reserve_range 0 0x200000 s1) in *.
  set (s3 := if kernel_phys_end bi >? _ then _ else s2) in *.
  set (s4 := reserve_range (bi_addr bi) _ s3) in *.
  set (s5 := reserve_range (map_base bi) _ s4) in *.
  assert (init_ok s2) as Hi2 by (subst s2; auto with nexus).
  assert (init_ok s3) as Hi3 by (subst s3; destruct (_ >? _); auto with nexus).
  assert (init_ok s4) as Hi4 by (subst s4; auto with nexus).
  assert (init_ok s5) as Hi5 by (subst s5; auto with nexus).
  assert (page_free s5 q ∧ (fb_base bi ≠ 0 → ¬ overlaps q (fb_base bi) (fb_base bi + fb_size bi)))
    as [Hq5 ?].
  { destruct (Z.eqb_spec (fb_base bi) 0); simpl in Hq; [done|].
    destruct (Z.eqb_spec (fb_size bi) 0); simpl in Hq.
    - split; [done|]. unfold overlaps. lia.
    - apply page_free_reserve_ok in Hq as []; [done|done|lia|lia]. }
  apply page_free_reserve_ok in Hq5 as [Hq4 ?]; [|done|lia|lia].
  apply page_free_reserve_ok in Hq4 as [Hq3 ?]; [|done|lia|lia].
  assert (page_free s2 q ∧ ¬ overlaps q (kernel_phys_base bi) (kernel_phys_end bi)) as [Hq2 ?].
  { subst s3. destruct (Z.gtb_spec (kernel_phys_end bi) (kernel_phys_base bi)).
    - apply page_free_reserve_ok in Hq3 as []; [done|done|lia|lia].
    - split; [done|]. unfold overlaps. lia. }
  apply page_free_reserve_ok in Hq2 as [Hq1 Hlow]; [|done|lia|lia].
  split; [|auto]. unfold overlaps, PAGE_SIZE in *. destruct Hq1. lia.
Qed.

(** ** The allocator's invariant and its abstract specification

    Abstractly the allocator is a finite set of free page numbers. *)

Definition pmm_wf (s : pmm) : Prop :=
  pmm_ready s = true ∧ 0 ≤ g_total_pages s ≤ PMM_MAX_PAGES ∧ g_free_pages s = count_free s.

Definition pmm_rep (s : pmm) (F : gset Z) : Prop :=
  pmm_wf s ∧ ∀ q, q ∈ F ↔ page_free s q.

(** The set a state represents, computed. *)
Definition free_set (s : pmm) : gset Z :=
  list_to_set (Z.of_nat <$> filter (λ i : nat, bitmap_test s (Z.of_nat i) = false)
                                   (seq 0 (Z.to_nat (g_total_pages s)))).

Lemma elem_of_free_set s q : q ∈ free_set s ↔ page_free s q.
Proof.
  unfold free_set, page_free. rewrite elem_of_list_to_set, list_elem_of_fmap. split.
  - intros (i & -> & [Hf Hi]%list_elem_of_filter). apply elem_of_seq in Hi. split; [lia|done].
  - intros [Hq Hf]. exists (Z.to_nat q). rewrite list_elem_of_filter, elem_of_seq, Z2Nat.id by lia.
    split; [done|]. split; [done|lia].
Qed.

Lemma pmm_rep_free_set s : pmm_wf s → pmm_rep s (free_set s).
Proof. intros H. split; [done|]. apply elem_of_free_set. Qed.

Lemma count_free_bound s : 0 ≤ count_free s ≤ Z.max 0 (g_total_pages s).
Proof.
  unfold count_free. split; [lia|].
  pose proof (length_filter (λ i : nat, bitmap_test s (Z.of_nat i) = false)
                            (seq 0 (Z.to_nat (g_total_pages s)))) as H.
  rewrite length_seq in H. lia.
Qed.

(** The counter is the size of the represented set. *)
Lemma pmm_rep_size s F : pmm_rep s F → g_free_pages s = Z.of_nat (size F).
Proof.
  intros [(_ & Ht & ->) HF]. assert (F = free_set s) as ->.
  { apply set_eq. intros q. by rewrite HF, elem_of_free_set. }
  unfold count_free, free_set. rewrite size_list_to_set; [by rewrite length_fmap|].
  apply NoDup_fmap_2; [apply _|]. apply list.NoDup_filter, NoDup_seq.
Qed.

Lemma count_free_change s s' p :
  g_total_pages s' = g_total_pages s → 0 ≤ p < g_total_pages s → bitmap_test s p = false →
  (∀ q, bitmap_test s' q = (q =? p) || bitmap_test s q) →
  count_free s = count_free s' + 1.
Proof.
  intros Ht Hp Hf Hs'. unfold count_free. rewrite Ht.
  rewrite (length_filter_remove (λ i : nat, bitmap_test s (Z.of_nat i) = false)
             (λ i : nat, bitmap_test s' (Z.of_nat i) = false) _ (Z.to_nat p)); [lia|..].
  - apply NoDup_seq.
  - apply elem_of_seq. lia.
  - by rewrite Z2Nat.id by lia.
  - intros j _. rewrite Hs', orb_false_iff, Z.eqb_neq. split; intros []; split; (done || lia).
Qed.

(** Allocation takes the lowest free page, and fails only when there is none. *)
Lemma pmm_alloc_rep s F :
  pmm_rep s F →
  let '(r, s') := pmm_alloc_page s in
  (F = ∅ ∧ r = 0 ∧ s' = s) ∨
  (∃ q, q ∈ F ∧ (∀ q', q' ∈ F → q ≤ q') ∧ r = q * PAGE_SIZE ∧ pmm_rep s' (F ∖ {[q]})).
Proof.
  intros [(Hr & Ht & Hc) HF]. unfold pmm_alloc_page. rewrite Hr. simpl.
  destruct (first_index _ _ _) as [i|] eqn:E.
  - right. apply first_index_Some in E as (Hi & Hp & Hlow).
    apply negb_true_iff in Hp. exists (Z.of_nat i).
    assert (page_free s (Z.of_nat i)) as Hfree by (split; [lia|done]).
    split; [by apply HF|]. split; [|split; [done|]].
    + intros q' [Hq' Hf']%HF. destruct (Z.le_gt_cases (Z.of_nat i) q') as [|Hlt]; [done|].
      specialize (Hlow (Z.to_nat q')). rewrite Z2Nat.id, Hf' in Hlow by lia.
      discriminate Hlow. lia.
    + set (s1 := bitmap_set (Z.of_nat i) s).
      assert (count_free s = count_free s1 + 1) as Hc1.
      { apply (count_free_change s s1 (Z.of_nat i)); [done|lia|done|].
        intros q. apply bitmap_test_set. }
      pose proof (count_free_bound s) as Hb. pose proof (count_free_bound s1) as Hb1.
      rewrite (proj2 (Z.eqb_neq _ _)) by lia. simpl.
      change PMM_MAX_PAGES with 16777216 in *. rewrite u64_small by lia. split.
      * split; [done|]. split; [done|]. simpl. change (g_free_pages s - 1 = count_free s1). lia.
      * intros q. rewrite elem_of_difference, elem_of_singleton, HF. unfold page_free. simpl.
        rewrite bitmap_test_free. subst s1. rewrite bitmap_test_set, orb_false_iff, Z.eqb_neq. tauto.
  - left. rewrite first_index_None in E. split; [|done]. apply elem_of_equiv_empty_L.
    intros q [Hq Hf]%HF. specialize (E (Z.to_nat q)). rewrite Z2Nat.id, Hf in E by lia.
    discriminate E. lia.
Qed.

(** The page a call to [pmm_free_page] releases, when it does. *)
Definition free_target (s : pmm) (a : Z) : gset Z :=
  if (a mod PAGE_SIZE =? 0) && (a / PAGE_SIZE <? g_total_pages s)
  then {[ a / PAGE_SIZE ]} else ∅.

(** Release adds exactly the page of an aligned, represented address. *)
Lemma pmm_free_rep s F a :
  pmm_rep s F → 0 ≤ a → pmm_rep (pmm_free_page a s) (F ∪ free_target s a).
Proof.
  intros [(Hr & Ht & Hc) HF] Ha. unfold pmm_free_page, free_target. rewrite Hr.
  change (PAGE_SIZE - 1) with (2 ^ 12 - 1). rewrite land_low_mask by lia.
  change (2 ^ 12) with PAGE_SIZE. simpl.
  destruct (Z.eqb_spec (a mod PAGE_SIZE) 0) as [Hal|]; simpl; [|by rewrite union_empty_r_L].
  set (p := a / PAGE_SIZE).
  assert (0 ≤ p) by (apply Z.div_pos; unfold PAGE_SIZE; lia).
  destruct (Z.geb_spec p (g_total_pages s)) as [|Hlt]; simpl.
  { rewrite (proj2 (Z.ltb_ge _ _)) by lia. by rewrite union_empty_r_L. }
  rewrite (proj2 (Z.ltb_lt _ _)) by lia.
  rewrite Z.geb_leb, (proj2 (Z.leb_gt _ _)) by lia.
  destruct (bitmap_test s p) eqn:T.
  - set (s1 := bitmap_clear p s).
    assert (count_free s1 = count_free s + 1) as Hc1.
    { apply (count_free_change s1 s p); [done|simpl; lia| |].
      - subst s1. rewrite bitmap_test_clear, Z.eqb_refl. apply andb_false_r.
      - intros q. subst s1. rewrite bitmap_test_clear.
        destruct (Z.eqb_spec q p) as [->|]; [done|]. by rewrite andb_true_r. }
    pose proof (count_free_bound s1). change PMM_MAX_PAGES with 16777216 in *.
    assert (g_total_pages s1 = g_total_pages s) by done.
    split.
    + split; [done|]. split; [done|]. simpl. rewrite u64_small by lia.
      change (g_free_pages s + 1 = count_free s1). lia.
    + intros q. rewrite elem_of_union, elem_of_singleton, HF. unfold page_free. simpl.
      rewrite bitmap_test_free. subst s1. rewrite bitmap_test_clear, andb_false_iff, negb_false_iff, Z.eqb_eq.
      split; [intros [[]|]; subst; auto with lia|tauto].
  - assert (p ∈ F) by (apply HF; split; [lia|done]).
    rewrite (union_comm_L F), subseteq_union_1_L by set_solver. done.
Qed.

(** [pmm_init] establishes the invariant whenever it reports ready. *)
Lemma pmm_is_page_free_rep s F a :
  pmm_rep s F → 0 ≤ a →
  pmm_is_page_free a s = true ↔ a mod PAGE_SIZE = 0 ∧ a / PAGE_SIZE ∈ F.
Proof.
  intros [(Hr & Ht & Hc) HF] Ha. unfold pmm_is_page_free. rewrite Hr.
  change (PAGE_SIZE - 1) with (2 ^ 12 - 1). rewrite land_low_mask by lia.
  change (2 ^ 12) with PAGE_SIZE. simpl. rewrite HF. unfold page_free.
  assert (0 ≤ a / PAGE_SIZE) by (apply Z.div_pos; unfold PAGE_SIZE; lia).
  destruct (Z.eqb_spec (a mod PAGE_SIZE) 0) as [Hal|]; simpl; [|naive_solver].
  rewrite !Z.geb_leb. destruct (Z.leb_spec (g_total_pages s) (a / PAGE_SIZE)); simpl.
  { split; [done|]. intros (_ & ? & _). lia. }
  rewrite (proj2 (Z.leb_gt _ _)) by lia. rewrite negb_true_iff. intuition lia.
Qed.

Lemma pmm_init_wf mem bi :
  (∀ a, entry_ok (mem a)) → pmm_ready (pmm_init mem (Some bi)) = true →
  pmm_wf (pmm_init mem (Some bi)).
Proof.
  intros Hmem Hr. split; [done|]. revert Hr. unfold pmm_init.
  destruct (_ || _); [done|]. cbv zeta. fold (pmm_init_scanned mem bi).
  destruct (pmm_init_scanned_spec mem bi Hmem) as [[_ Ht] _].
  set (s1 := pmm_init_scanned mem bi) in *. clearbody s1. intros _.
  match goal with |- _ ≤ g_total_pages ((?s <| _ := _ |>) <| _ := _ |>) ≤ _ ∧ _ => set (s2 := s) end.
  assert (g_total_pages s2 = g_total_pages s1) as E.
  { subst s2. destruct (_ && _); [rewrite (proj1 (reserve_range_frame _ _ _))|];
    rewrite !(proj1 (reserve_range_frame _ _ _));
    (destruct (_ >? _); [rewrite (proj1 (reserve_range_frame _ _ _))|]);
    by rewrite !(proj1 (reserve_range_frame _ _ _)). }
  clearbody s2. split; [simpl; lia|done].
Qed.

(** C22: on a well-formed state the allocator is the abstract set [F] of free page numbers:
    allocation returns the lowest member of [F] and removes it, and returns 0 without a
    change exactly when [F] is empty; release adds the page of an aligned address inside
    the managed range and ignores any other address; [pmm_is_page_free] is membership
    and [pmm_used_pages] the size of the complement. *)
Theorem pmm_refines_set s F :
  pmm_rep s F →
  (let '(r, s') := pmm_alloc_page s in
   (F = ∅ ∧ r = 0 ∧ s' = s) ∨
   (∃ q, q ∈ F ∧ (∀ q', q' ∈ F → q ≤ q') ∧ r = q * PAGE_SIZE ∧ pmm_rep s' (F ∖ {[q]}))) ∧
  (∀ a, 0 ≤ a → pmm_rep (pmm_free_page a s) (F ∪ free_target s a)) ∧
  (∀ a, 0 ≤ a → pmm_is_page_free a s = true ↔ a mod PAGE_SIZE = 0 ∧ a / PAGE_SIZE ∈ F) ∧
  pmm_used_pages s = g_total_pages s - Z.of_nat (size F).
Proof.
  intros HF. split; [by apply pmm_alloc_rep|]. split; [intros a; by apply pmm_free_rep|].
  split; [intros a Ha; by apply pmm_is_page_free_rep|].
  pose proof (pmm_rep_size s F HF). destruct HF as [(_ & Ht & Hc) _].
  pose proof (count_free_bound s). change PMM_MAX_PAGES with 16777216 in *.
  unfold pmm_used_pages. rewrite u64_small; lia.
Qed.

(** ** Clients

    A run of the allocator together with the set of addresses its clients
    hold: they release only what they hold. *)
Inductive pmm_step : pmm * gset Z → pmm * gset Z → Prop :=
| step_alloc s O r s' :
   pmm_alloc_page s = (r, s') → r ≠ 0 → pmm_step (s, O) (s', {[r]} ∪ O)
| step_alloc_fail s O s' :
   pmm_alloc_page s = (0, s') → pmm_step (s, O) (s', O)
| step_free s O a :
   a ∈ O → pmm_step (s, O) (pmm_free_page a s, O ∖ {[a]}).

(** Held addresses are aligned pages of the initial set [F0], and not free. *)
Definition run_inv (F0 : gset Z) (c : pmm * gset Z) : Prop :=
  ∃ F, pmm_rep c.1 F ∧ F ⊆ F0 ∧
    ∀ a, a ∈ c.2 → 0 ≤ a ∧ a mod PAGE_SIZE = 0 ∧ a / PAGE_SIZE ∈ F0 ∧ a / PAGE_SIZE ∉ F.

Lemma page_addr q : (q * PAGE_SIZE) mod PAGE_SIZE = 0 ∧ q * PAGE_SIZE / PAGE_SIZE = q.
Proof. unfold PAGE_SIZE. split; [apply Z.mod_mul|apply Z.div_mul]; lia. Qed.

Lemma run_inv_step F0 c c' : 0 ∉ F0 → run_inv F0 c → pmm_step c c' → run_inv F0 c'.
Proof.
  intros H0 (F & HF & Hsub & Hown) Hstep.
  destruct Hstep as [s O r s' Ha Hr|s O s' Ha|s O a Ha]; simpl in *.
  - pose proof (pmm_alloc_rep s F HF) as H. rewrite Ha in H.
    destruct H as [(_ & -> & _)|(q & Hq & Hmin & -> & HF')]; [done|].
    destruct (page_addr q) as [E1 E2].
    exists (F ∖ {[q]}). split; [done|]. split; [set_solver|]. simpl.
    intros a [->%elem_of_singleton|Hin]%elem_of_union.
    + rewrite E1, E2. apply HF in Hq as Hpf. destruct Hpf as [Hq0 _].
      split; [unfold PAGE_SIZE; lia|]. set_solver.
    + destruct (Hown a Hin) as (? & ? & ? & ?). set_solver.
  - pose proof (pmm_alloc_rep s F HF) as H. rewrite Ha in H.
    destruct H as [(_ & _ & ->)|(q & Hq & _ & E & _)]; [by exists F|].
    assert (q = 0) as -> by (unfold PAGE_SIZE in E; lia). set_solver.
  - destruct (Hown a Ha) as (Ha0 & Hal & Hin & Hnin).
    exists (F ∪ free_target s a). split; [by apply pmm_free_rep|].
    unfold free_target. split; [destruct (_ && _); set_solver|]. simpl.
    intros b [Hb Hne]%elem_of_difference. destruct (Hown b Hb) as (? & Hbl & ? & ?).
    repeat (split; [done|]). destruct (_ && _); [|set_solver].
    assert (b / PAGE_SIZE ≠ a / PAGE_SIZE); [|set_solver].
    intros E. apply Hne, elem_of_singleton. unfold PAGE_SIZE in *.
    rewrite (Z.div_mod a 4096), (Z.div_mod b 4096) by lia. lia.
Qed.

(** No page is handed out twice, and only pages of the initial set are. *)
Theorem pmm_run_exclusive s0 F0 s O r s' :
  pmm_rep s0 F0 → 0 ∉ F0 → rtc pmm_step (s0, ∅) (s, O) →
  pmm_alloc_page s = (r, s') → r ≠ 0 →
  (r ∉ O) ∧ r mod PAGE_SIZE = 0 ∧ (r / PAGE_SIZE) ∈ F0.
Proof.
  intros Hrep H0 Hrun Ha Hr.
  assert (run_inv F0 (s, O)) as (F & HF & Hsub & Hown).
  { revert Hrun. apply (rtc_ind_r (R := pmm_step) (run_inv F0)); [|intros; by eapply run_inv_step].
    exists F0. split; [done|]. split; [done|]. simpl. set_solver. }
  pose proof (pmm_alloc_rep s F HF) as H. rewrite Ha in H.
  destruct H as [(_ & -> & _)|(q & Hq & _ & -> & _)]; [done|].
  destruct (page_addr q) as [E1 E2]. rewrite E1, E2.
  split; [|split; [done|set_solver]]. intros Hin%Hown. rewrite E2 in Hin. simpl in Hin. tauto.
Qed.

(** ** Witnesses: a machine with one conventional region of 544 pages *)

Definition demo_entry : nexus_efi_mmap_entry_t := mkEntry NEXUS_MEM_CONVENTIONAL 0x100000 544.
Definition demo_bi : nexus_boot_info_t :=
  mkBootInfo 0x210000 0 0 0x211000 48 48 0x200000 0x205000.
Definition demo_pmm : pmm :=
  pmm_init (λ _, demo_entry) (Some demo_bi).

Lemma demo_entry_ok (a : Z) : entry_ok ((λ _ : Z, demo_entry) a).
Proof. unfold entry_ok. simpl. lia. Qed.

Lemma demo_pmm_wf : pmm_wf demo_pmm.
Proof. apply pmm_init_wf; [apply demo_entry_ok|]. vm_compute. reflexivity. Qed.

(** The first page after the kernel image is free and [pmm_init] is justified there. *)
Lemma pmm_init_free_safe_witness :
  page_free demo_pmm 0x205 ∧ 0x200000 ≤ 0x205 * PAGE_SIZE.
Proof.
  assert (page_free demo_pmm 0x205) as H.
  { split; [vm_compute; split; [discriminate|reflexivity]|vm_compute; reflexivity]. }
  split; [exact H|].
  refine (proj1 (pmm_init_free_safe (λ _, demo_entry) demo_bi 0x205 demo_entry_ok _ H)).
  repeat split; vm_compute; (reflexivity || discriminate).
Defined.

Lemma pmm_refines_set_witness :
  pmm_rep demo_pmm (free_set demo_pmm) ∧ (pmm_alloc_page demo_pmm).1 = 0x205000 ∧
  pmm_used_pages demo_pmm = g_total_pages demo_pmm - Z.of_nat (size (free_set demo_pmm)).
Proof.
  pose proof (pmm_rep_free_set _ demo_pmm_wf) as H.
  split; [exact H|]. split; [vm_compute; reflexivity|].
  destruct (pmm_refines_set demo_pmm (free_set demo_pmm) H) as (_ & _ & _ & Hu). exact Hu.
Defined.

Lemma pmm_run_exclusive_witness :
  ∃ s' : pmm, pmm_alloc_page demo_pmm = (0x205000, s') ∧ (0x205000 / PAGE_SIZE) ∈ free_set demo_pmm.
Proof.
  assert ((pmm_alloc_page demo_pmm).1 = 0x205000) as E by (vm_compute; reflexivity).
  destruct (pmm_alloc_page demo_pmm) as [r s'] eqn:Ea. simpl in E. subst r.
  exists s'. split; [reflexivity|].
  refine (proj2 (proj2 (pmm_run_exclusive demo_pmm _ demo_pmm ∅ 0x205000 s'
            (pmm_rep_free_set _ demo_pmm_wf) _ (rtc_refl _ _) Ea _))).
  - rewrite elem_of_free_set. intros [_ H]. vm_compute in H. discriminate H.
  - discriminate.
Defined.
