(* ===== verification/Paging.v ===== *)
(** * Page tables and virtual memory (src/kernel/mm/paging.c, src/kernel/mm/vmm.c)

    The four-level x86_64 page tables: the boot identity map of 2 MiB
    pages, 4 KiB mapping, unmapping and translation in any address space,
    cloning and destroying a hierarchy, and the VMM wrapper. *)

From Stdlib Require Import Lia ZArith Bool.
From stdpp Require Import base list gmap sets numbers.
From S2P Require Import Prelude Pmm.

Local Open Scope Z_scope.

(** ** Constants *)

Definition PTE_PRESENT : Z := 0x001.
Definition PTE_WRITABLE : Z := 0x002.
Definition PTE_USER : Z := 0x004.
Definition PTE_PWT : Z := 0x008.
Definition PTE_PCD : Z := 0x010.
Definition PTE_HUGE : Z := 0x080.
Definition PTE_NX : Z := 2 ^ 63.
Definition ENTRIES_PER_TABLE : nat := 512.
Definition PAGE_2M : Z := 2 * 1024 * 1024.
Definition PAGE_1G : Z := 1024 * 1024 * 1024.
Definition BASE_IDENTITY_GIB : Z := 4.
Definition EXTRA_PD_SLOTS : Z := 512.
Definition PT_INDEX_MASK : Z := 0x1FF.

(** ** State

    [phys_mem] holds the 64-bit words of physical memory at 8-byte aligned
    addresses (the kernel reaches page tables through the identity map);
    [cpu_cr3] is the CR3 register. The addresses of the static tables are
    fixed by the linker and loader: [layout]. *)
Record paging := mkPaging {
  phys_mem : gmap Z Z;
  pg_pmm : pmm;
  extra_slot_owner : Z → Z;
  extra_slots_used : Z;
  cpu_cr3 : Z;
}.

#[export] Instance eta_paging : Eta paging := λ r,
  mkPaging (phys_mem r) (pg_pmm r) (extra_slot_owner r) (extra_slots_used r) (cpu_cr3 r).

Record paging_layout := mkLayout {
  pml4 : Z;
  pdpt : Z;
  pd_base : Z → Z;
  pd_extra : Z → Z;
}.

(** [table[i]] read and written. *)
Definition rd (m : gmap Z Z) (t i : Z) : Z := default 0 (m !! (t + 8 * i)).
Definition wr (t i v : Z) (s : paging) : paging :=
  s <| phys_mem := <[t + 8 * i := v]> (phys_mem s) |>.

(** Operations that may return NULL (or 0) after changing the state. *)
Definition PM (A : Type) : Type := paging → option A * paging.
#[export] Instance pm_ret : MRet PM := λ A a s, (Some a, s).
#[export] Instance pm_bind : MBind PM := λ A B f m s,
  match m s with (Some a, s') => f a s' | (None, s') => (None, s') end.
Definition pm_fail {A} : PM A := λ s, (None, s).
Definition pm_lift {A} (o : option A) : PM A := λ s, (o, s).

Definition zero_table (t : Z) (s : paging) : paging :=
  foldl (λ s i, wr t (Z.of_nat i) 0 s) s (seq 0 ENTRIES_PER_TABLE).

Arguments zero_table _ _ : simpl never.

(** ** The boot-time identity map *)

Section identity.
Context (L : paging_layout).

Definition pd_table_for (phys : Z) (s : paging) : option Z * paging :=
  let pdpt_idx := Z.land (phys / PAGE_1G) 0x1FF in
  if pdpt_idx <? BASE_IDENTITY_GIB then
    let s := if negb (has_bits (rd (phys_mem s) (pdpt L) pdpt_idx) PTE_PRESENT)
             then wr (pdpt L) pdpt_idx
                     (Z.lor (Z.lor (pd_base L pdpt_idx) PTE_PRESENT) PTE_WRITABLE) s
             else s in
    (Some (pd_base L pdpt_idx), s)
  else
    match first_index (λ i, extra_slot_owner s (Z.of_nat i) =? pdpt_idx) 0
                      (Z.to_nat (extra_slots_used s)) with
    | Some i => (Some (pd_extra L (Z.of_nat i)), s)
    | None =>
       if extra_slots_used s >=? EXTRA_PD_SLOTS then (None, s)
       else
         let slot := extra_slots_used s in
         let s := s <| extra_slots_used := extra_slots_used s + 1 |> in
         let s := s <| extra_slot_owner := upd (extra_slot_owner s) slot pdpt_idx |> in
         let s := zero_table (pd_extra L slot) s in
         let s := wr (pdpt L) pdpt_idx
                     (Z.lor (Z.lor (pd_extra L slot) PTE_PRESENT) PTE_WRITABLE) s in
         (Some (pd_extra L slot), s)
    end.

Definition map_2m_page (phys extra_flags : Z) (s : paging) : paging :=
  match pd_table_for phys s with
  | (None, s) => s
  | (Some pd, s) =>
     let pd_idx := Z.land (phys / PAGE_2M) 0x1FF in
     wr pd pd_idx (Z.lor (Z.lor (Z.lor (Z.lor phys PTE_PRESENT) PTE_WRITABLE) PTE_HUGE)
                         extra_flags) s
  end.

Fixpoint map_region_loop (n : nat) (phys end_ extra_flags : Z) (s : paging) : paging :=
  match n with
  | O => s
  | S n =>
     if phys <? end_
     then map_region_loop n (u64 (phys + PAGE_2M)) end_ extra_flags
            (map_2m_page phys extra_flags s)
     else s
  end.

Definition map_region (start end_ extra_flags : Z) (s : paging) : paging :=
  if end_ <=? start then s
  else
    let aligned_start := Z.land start (not64 (PAGE_2M - 1)) in
    let aligned_end := Z.land (u64 (end_ + PAGE_2M - 1)) (not64 (PAGE_2M - 1)) in
    map_region_loop (Z.to_nat ((aligned_end - aligned_start) / PAGE_2M + 1))
      aligned_start aligned_end extra_flags s.

Definition paging_init (mem : Z → nexus_efi_mmap_entry_t) (bi : option nexus_boot_info_t)
    (s : paging) : paging :=
  let s := zero_table (pml4 L) s in
  let s := zero_table (pdpt L) s in
  let s := foldl (λ s i, zero_table (pd_base L (Z.of_nat i)) s) s
                 (seq 0 (Z.to_nat BASE_IDENTITY_GIB)) in
  let s := s <| extra_slots_used := 0 |> in
  let s := wr (pml4 L) 0 (Z.lor (Z.lor (pdpt L) PTE_PRESENT) PTE_WRITABLE) s in
  let s := map_region 0 (BASE_IDENTITY_GIB * PAGE_1G) 0 s in
  let s := match bi with
           | Some b =>
              if negb (descriptor_size b =? 0) && negb (map_base b =? 0)
              then foldl (λ s e, map_region (e_physical_start e)
                             (u64 (e_physical_start e + u64 (e_number_of_pages e * 4096))) 0 s)
                         s (mmap_entries mem b)
              else s
           | None => s
           end in
  let s := match bi with
           | Some b => if negb (fb_base b =? 0) && negb (fb_size b =? 0)
                       then map_region (fb_base b) (u64 (fb_base b + fb_size b)) 0 s else s
           | None => s
           end in
  s <| cpu_cr3 := pml4 L |>.

Definition paging_map_region (start end_ : Z) (s : paging) : paging :=
  map_region start end_ (Z.lor PTE_PCD PTE_PWT) s.
End identity.

(** ** 4 KiB mappings *)

Definition table_from_phys (phys : Z) : option Z :=
  if phys >=? 0x100000000 then None else Some phys.

(** [pmm_alloc_page] and [pmm_free_page] on the manager inside the state. *)
Definition pg_alloc_page (s : paging) : Z * paging :=
  let '(phys, p) := pmm_alloc_page (pg_pmm s) in (phys, s <| pg_pmm := p |>).
Definition pg_free_page (phys : Z) (s : paging) : paging :=
  s <| pg_pmm := pmm_free_page phys (pg_pmm s) |>.

Definition alloc_table_page : PM Z := λ s,
  let '(phys, s) := pg_alloc_page s in
  if (phys =? 0) || (phys >=? 0x100000000) then
    (None, if negb (phys =? 0) then pg_free_page phys s else s)
  else
    match table_from_phys phys with
    | None => (None, pg_free_page phys s)
    | Some table => (Some phys, zero_table table s)
    end.

Definition pml4_index (va : Z) : Z := Z.land (Z.shiftr va 39) PT_INDEX_MASK.
Definition pdpt_index (va : Z) : Z := Z.land (Z.shiftr va 30) PT_INDEX_MASK.
Definition pd_index (va : Z) : Z := Z.land (Z.shiftr va 21) PT_INDEX_MASK.
Definition pt_index (va : Z) : Z := Z.land (Z.shiftr va 12) PT_INDEX_MASK.

(** [entry & ~0xFFF]. *)
Definition entry_addr (e : Z) : Z := Z.land e (not64 0xFFF).

(** [table[i] = v; entry = table[i];]. *)
Definition wr_entry (table index v : Z) : PM Z := λ s,
  let s := wr table index v s in (Some (rd (phys_mem s) table index), s).

(** The block each level of [walk_create_root] repeats: read the entry, and
    when it is not present install a fresh table (or give up). *)
Definition ensure_entry (table index : Z) (create : bool) : PM Z := λ s,
  let entry := rd (phys_mem s) table index in
  if negb (has_bits entry PTE_PRESENT) then
    if negb create then (None, s)
    else
      (phys ← alloc_table_page;
       wr_entry table index (Z.lor (Z.lor phys PTE_PRESENT) PTE_WRITABLE)) s
  else (Some entry, s).

(** The 512 leaves that replace a 2 MiB entry. *)
Definition split_huge (pt base leaf_flags : Z) : PM unit := λ s,
  (Some tt,
   foldl (λ s i, wr pt (Z.of_nat i) (Z.lor (base + Z.of_nat i * PAGE_SIZE) leaf_flags) s)
         s (seq 0 ENTRIES_PER_TABLE)).

(** The 2 MiB case of the page-directory level. *)
Definition ensure_split (pd_table index entry : Z) (create : bool) : PM Z := λ s,
  if has_bits entry PTE_HUGE then
    if negb create then (None, s)
    else
      (pt_phys ← alloc_table_page;
       pt ← pm_lift (table_from_phys pt_phys);
       let base := Z.land entry 0xFFFFFFE00000 in
       let leaf_flags := Z.land (Z.land entry 0xFFF) (not64 PTE_HUGE) in
       _ ← split_huge pt base leaf_flags;
       wr_entry pd_table index (Z.lor (Z.lor pt_phys PTE_PRESENT) PTE_WRITABLE)) s
  else (Some entry, s).

Definition walk_create_root (root_phys virtual_address : Z) (create : bool) : PM Z :=
  pml4_table ← pm_lift (table_from_phys root_phys);
  entry ← ensure_entry pml4_table (pml4_index virtual_address) create;
  pdpt_table ← pm_lift (table_from_phys (entry_addr entry));
  entry ← ensure_entry pdpt_table (pdpt_index virtual_address) create;
  if has_bits entry PTE_HUGE then pm_fail
  else
    pd_table ← pm_lift (table_from_phys (entry_addr entry));
    entry ← ensure_entry pd_table (pd_index virtual_address) create;
    entry ← ensure_split pd_table (pd_index virtual_address) entry create;
    pm_lift (table_from_phys (entry_addr entry)).

Definition map_page_root (root_phys virtual_address physical_address flags : Z) (s : paging)
    : Z * paging :=
  if negb (Z.land virtual_address 0xFFF =? 0) || negb (Z.land physical_address 0xFFF =? 0)
  then (-1, s)
  else
    match walk_create_root root_phys virtual_address true s with
    | (None, s) => (-1, s)
    | (Some pt, s) =>
       let index := pt_index virtual_address in
       if has_bits (rd (phys_mem s) pt index) PTE_PRESENT then (1, s)
       else (0, wr pt index (Z.lor (Z.lor (entry_addr physical_address) flags) PTE_PRESENT) s)
    end.

Definition unmap_page_root (root_phys virtual_address : Z) (s : paging) : Z * paging :=
  if negb (Z.land virtual_address 0xFFF =? 0) then (0, s)
  else
    match walk_create_root root_phys virtual_address false s with
    | (None, s) => (0, s)
    | (Some pt, s) =>
       let index := pt_index virtual_address in
       if negb (has_bits (rd (phys_mem s) pt index) PTE_PRESENT) then (0, s)
       else (1, wr pt index 0 s)
    end.

Definition virt_to_phys_root (m : gmap Z Z) (root_phys virtual_address : Z) : Z :=
  match table_from_phys root_phys with
  | None => 0
  | Some pml4_table =>
     let entry := rd m pml4_table (pml4_index virtual_address) in
     if negb (has_bits entry PTE_PRESENT) then 0 else
     match table_from_phys (entry_addr entry) with
     | None => 0
     | Some pdpt_table =>
        let entry := rd m pdpt_table (pdpt_index virtual_address) in
        if negb (has_bits entry PTE_PRESENT) then 0 else
        if has_bits entry PTE_HUGE
        then Z.lor (Z.land entry 0xFFFFFC0000000) (Z.land virtual_address 0x3FFFFFFF) else
        match table_from_phys (entry_addr entry) with
        | None => 0
        | Some pd_table =>
           let entry := rd m pd_table (pd_index virtual_address) in
           if negb (has_bits entry PTE_PRESENT) then 0 else
           if has_bits entry PTE_HUGE
           then Z.lor (Z.land entry 0xFFFFFFE00000) (Z.land virtual_address 0x1FFFFF) else
           match table_from_phys (entry_addr entry) with
           | None => 0
           | Some pt =>
              let entry := rd m pt (pt_index virtual_address) in
              if negb (has_bits entry PTE_PRESENT) then 0
              else Z.lor (entry_addr entry) (Z.land virtual_address 0xFFF)
           end
        end
     end
  end.

(** ** Cloning and destroying a hierarchy *)

(** [*ok] is 0 exactly when the result is [None]. *)
Fixpoint clone_table (level : nat) (src_phys : Z) : PM Z :=
  match level with
  | O => pm_fail
  | S level' =>
     src ← pm_lift (table_from_phys src_phys);
     dst_phys ← alloc_table_page;
     match table_from_phys dst_phys with
     | None => (λ s, (None, pg_free_page dst_phys s)) : PM Z
     | Some dst =>
        (fix loop (l : list nat) : PM Z := λ s,
           match l with
           | [] => (Some dst_phys, s)
           | i :: l =>
              let e := rd (phys_mem s) src (Z.of_nat i) in
              if negb (has_bits e PTE_PRESENT) then loop l s
              else if (level =? 2)%nat && has_bits e PTE_HUGE
              then loop l (wr dst (Z.of_nat i) e s)
              else if (level =? 1)%nat then loop l (wr dst (Z.of_nat i) e s)
              else
                match clone_table level' (entry_addr e) s with
                | (None, s) => (None, pg_free_page dst_phys s)
                | (Some child, s) =>
                   loop l (wr dst (Z.of_nat i) (Z.lor child (Z.land e 0xFFF)) s)
                end
           end) (seq 0 ENTRIES_PER_TABLE)
     end
  end.

Fixpoint destroy_table (level : nat) (phys : Z) (s : paging) : paging :=
  match table_from_phys phys with
  | None => s
  | Some table =>
     let s :=
       match level with
       | S (S _ as level') =>
          foldl (λ s i,
                   let e := rd (phys_mem s) table (Z.of_nat i) in
                   if negb (has_bits e PTE_PRESENT) || ((level =? 2)%nat && has_bits e PTE_HUGE)
                   then s else destroy_table level' (entry_addr e) s)
                s (seq 0 ENTRIES_PER_TABLE)
       | _ => s
       end in
     pg_free_page phys s
  end.

(** ** Public entry points *)

Section api.
Context (L : paging_layout).

(** TLB invalidation has no effect on the modelled state. *)
Definition paging_map_page (virtual_address physical_address flags : Z) (s : paging) : Z * paging :=
  map_page_root (pml4 L) virtual_address physical_address flags s.
Definition paging_unmap_page (virtual_address : Z) (s : paging) : Z * paging :=
  unmap_page_root (pml4 L) virtual_address s.
Definition paging_kernel_cr3 : Z := pml4 L.

Definition paging_create_address_space (s : paging) : Z * paging :=
  match clone_table 4 (pml4 L) s with
  | (Some root, s) => (root, s)
  | (None, s) => (0, s)
  end.

Definition paging_destroy_address_space (cr3 : Z) (s : paging) : paging :=
  if (cr3 =? 0) || (cr3 =? pml4 L) then s else destroy_table 4 cr3 s.

Definition paging_virt_to_phys (virtual_address : Z) (s : paging) : Z :=
  virt_to_phys_root (phys_mem s) (pml4 L) virtual_address.
End api.

Definition paging_switch_cr3 (cr3 : Z) (s : paging) : bool * paging :=
  if (cr3 =? 0) || negb (bool_decide (is_Some (table_from_phys cr3))) then (false, s)
  else (true, s <| cpu_cr3 := cr3 |>).

Definition paging_map_page_in_cr3 (cr3 virtual_address physical_address flags : Z) (s : paging)
    : Z * paging := map_page_root cr3 virtual_address physical_address flags s.
Definition paging_unmap_page_in_cr3 (cr3 virtual_address : Z) (s : paging) : Z * paging :=
  unmap_page_root cr3 virtual_address s.
Definition paging_virt_to_phys_in_cr3 (cr3 virtual_address : Z) (s : paging) : Z :=
  virt_to_phys_root (phys_mem s) cr3 virtual_address.

(** ** vmm.c *)

Record vmm := mkVmm { vmm_ready : bool; g_mapped_pages : Z; vmm_paging : paging }.
#[export] Instance eta_vmm : Eta vmm := λ r,
  mkVmm (vmm_ready r) (g_mapped_pages r) (vmm_paging r).

Definition VMM_PAGE_SIZE : Z := 4096.
Definition VMM_PAGE_PRESENT : Z := 0x001.
Definition VMM_PAGE_WRITABLE : Z := 0x002.
Definition VMM_PAGE_USER : Z := 0x004.
Definition VMM_PAGE_NX : Z := 2 ^ 63.

Section vmm.
Context (L : paging_layout).

Definition vmm_init (s : vmm) : vmm := (s <| vmm_ready := true |>) <| g_mapped_pages := 0 |>.

Definition vmm_map_page (virtual_address physical_address flags : Z) (s : vmm) : Z * vmm :=
  if negb (vmm_ready s) then (0, s)
  else if negb (Z.land virtual_address (VMM_PAGE_SIZE - 1) =? 0) then (0, s)
  else if negb (Z.land physical_address (VMM_PAGE_SIZE - 1) =? 0) then (0, s)
  else
    let '(r, p) := paging_map_page L virtual_address physical_address flags (vmm_paging s) in
    let s := s <| vmm_paging := p |> in
    if negb (r =? 0) then (0, s)
    else (1, s <| g_mapped_pages := u64 (g_mapped_pages s + 1) |>).

Definition vmm_unmap_page (virtual_address : Z) (s : vmm) : Z * vmm :=
  if negb (vmm_ready s) || negb (Z.land virtual_address (VMM_PAGE_SIZE - 1) =? 0) then (0, s)
  else
    let '(r, p) := paging_unmap_page L virtual_address (vmm_paging s) in
    let s := s <| vmm_paging := p |> in
    (r, if (r =? 1) && negb (g_mapped_pages s =? 0)
        then s <| g_mapped_pages := u64 (g_mapped_pages s - 1) |> else s).

Definition vmm_virt_to_phys (virtual_address : Z) (s : vmm) : Z :=
  if negb (vmm_ready s) then 0 else paging_virt_to_phys L virtual_address (vmm_paging s).

Definition vmm_is_mapped (virtual_address : Z) (s : vmm) : bool :=
  if negb (vmm_ready s) then false
  else negb (paging_virt_to_phys L virtual_address (vmm_paging s) =? 0).
End vmm.

(** ** Entries *)

Lemma PAGE_SIZE_val : PAGE_SIZE = 4096.
Proof. reflexivity. Qed.

(** A table pointer [n | PRESENT | WRITABLE] with [n] page-aligned. *)
Definition table_entry (n : Z) : Z := Z.lor (Z.lor n PTE_PRESENT) PTE_WRITABLE.

Lemma table_entry_val n : n mod 4096 = 0 → table_entry n = n + 3.
Proof.
  intros Hn. unfold table_entry, PTE_PRESENT, PTE_WRITABLE. rewrite <- Z.lor_assoc.
  change (Z.lor 1 2) with 3. rewrite (lor_add_low n 3 12) by (lia || done). done.
Qed.

Lemma testbit_add_low n b k j :
  0 ≤ j < k → n mod 2 ^ k = 0 → Z.testbit (n + b) j = Z.testbit b j.
Proof.
  intros Hj Hn. rewrite <- (Z.mod_pow2_bits_low (n + b) k j) by lia.
  rewrite Z.add_mod, Hn, Z.add_0_l, Z.mod_mod by lia. apply Z.mod_pow2_bits_low. lia.
Qed.

Lemma present_bit e : has_bits e PTE_PRESENT = Z.testbit e 0.
Proof. exact (has_bits_testbit e 0 ltac:(lia)). Qed.
Lemma huge_bit e : has_bits e PTE_HUGE = Z.testbit e 7.
Proof. exact (has_bits_testbit e 7 ltac:(lia)). Qed.

Lemma table_entry_present n : n mod 4096 = 0 → has_bits (table_entry n) PTE_PRESENT = true.
Proof. intros Hn. rewrite present_bit, table_entry_val by done. by rewrite (testbit_add_low n 3 12). Qed.
Lemma table_entry_huge n : n mod 4096 = 0 → has_bits (table_entry n) PTE_HUGE = false.
Proof. intros Hn. rewrite huge_bit, table_entry_val by done. by rewrite (testbit_add_low n 3 12). Qed.

Lemma entry_addr_spec e : 0 ≤ e < 2 ^ 64 → entry_addr e = e - e mod 4096.
Proof. intros He. exact (land_not64_mask e 12 He ltac:(lia)). Qed.

Lemma table_entry_addr n : n mod 4096 = 0 → 0 ≤ n < 2 ^ 32 → entry_addr (table_entry n) = n.
Proof.
  intros Hn Hr. rewrite table_entry_val, entry_addr_spec by lia. Z.div_mod_to_equations. lia.
Qed.

#[export] Hint Rewrite table_entry_present table_entry_huge table_entry_addr
  using (first [done | lia]) : nexus.

(** ** Words and tables *)

Lemma table_word_inj t t' i i' :
  t mod 4096 = 0 → t' mod 4096 = 0 → 0 ≤ i < 512 → 0 ≤ i' < 512 →
  t + 8 * i = t' + 8 * i' → t = t' ∧ i = i'.
Proof. intros. Z.div_mod_to_equations. lia. Qed.

Lemma rd_wr_eq t i v s : rd (phys_mem (wr t i v s)) t i = v.
Proof. unfold rd, wr. simpl. by rewrite lookup_insert_eq. Qed.

Lemma rd_wr_ne t i v s t' i' :
  t + 8 * i ≠ t' + 8 * i' → rd (phys_mem (wr t i v s)) t' i' = rd (phys_mem s) t' i'.
Proof. intros H. unfold rd, wr. simpl. by rewrite lookup_insert_ne. Qed.

Lemma rd_wr_table t i v s t' j :
  t mod 4096 = 0 → t' mod 4096 = 0 → t' ≠ t → 0 ≤ i < 512 → 0 ≤ j < 512 →
  rd (phys_mem (wr t i v s)) t' j = rd (phys_mem s) t' j.
Proof.
  intros Ht Ht' Hne Hi Hj. apply rd_wr_ne. intros E.
  destruct (table_word_inj t t' i j); congruence.
Qed.

(** A loop that writes [f i] into every entry of a table. *)
Definition fill (t : Z) (f : nat → Z) (l : list nat) (s : paging) : paging :=
  foldl (λ s i, wr t (Z.of_nat i) (f i) s) s l.

Lemma fill_cons t f i l s : fill t f (i :: l) s = fill t f l (wr t (Z.of_nat i) (f i) s).
Proof. done. Qed.

Lemma fill_other t f l s a :
  (∀ i, i ∈ l → a ≠ t + 8 * Z.of_nat i) → phys_mem (fill t f l s) !! a = phys_mem s !! a.
Proof.
  revert s. induction l as [|i l IH]; intros s H; [done|].
  rewrite fill_cons, IH by (intros j ?; apply H; by right). simpl.
  apply lookup_insert_ne. intros E. apply (H i); [by left|]. done.
Qed.

Lemma fill_at t f l s i :
  NoDup l → i ∈ l → rd (phys_mem (fill t f l s)) t (Z.of_nat i) = f i.
Proof.
  revert s. induction l as [|j l IH]; intros s Hnd Hi; [by apply elem_of_nil in Hi|].
  apply list.NoDup_cons in Hnd as [Hj Hnd]. rewrite fill_cons.
  apply elem_of_cons in Hi as [->|Hi]; [|by apply IH].
  unfold rd. rewrite (fill_other t f l) by (intros k Hk E; assert (k = j) by lia; congruence).
  simpl. by rewrite lookup_insert_eq.
Qed.

Lemma fill_pmm t f l s : pg_pmm (fill t f l s) = pg_pmm s.
Proof. unfold fill. revert s. induction l as [|i l IH]; intros s; [done|]. simpl. by rewrite IH. Qed.

Lemma zero_table_fill t s : zero_table t s = fill t (λ _, 0) (seq 0 ENTRIES_PER_TABLE) s.
Proof. reflexivity. Qed.

Lemma zero_table_pmm t s : pg_pmm (zero_table t s) = pg_pmm s.
Proof. rewrite zero_table_fill. apply fill_pmm. Qed.

Section fill512.
Context (t : Z) (f : nat → Z) (s : paging) (Ht : t mod 4096 = 0).
Let s' := fill t f (seq 0 ENTRIES_PER_TABLE) s.

Lemma fill512_at i : 0 ≤ i < 512 → rd (phys_mem s') t i = f (Z.to_nat i).
Proof.
  intros Hi. rewrite <- (Z2Nat.id i) at 1 by lia. apply fill_at.
  - apply NoDup_seq.
  - apply elem_of_seq. unfold ENTRIES_PER_TABLE. lia.
Qed.

Lemma fill512_ne t' i :
  t' mod 4096 = 0 → t' ≠ t → 0 ≤ i < 512 → rd (phys_mem s') t' i = rd (phys_mem s) t' i.
Proof using Ht.
  intros Ht' Hne Hi. unfold rd, s'. rewrite fill_other; [done|].
  intros j Hj%elem_of_seq E. unfold ENTRIES_PER_TABLE in Hj.
  destruct (table_word_inj t' t i (Z.of_nat j)); (done || lia).
Qed.
End fill512.

Lemma split_huge_fill pt base fl s :
  split_huge pt base fl s =
  (Some tt, fill pt (λ i, Z.lor (base + Z.of_nat i * PAGE_SIZE) fl) (seq 0 ENTRIES_PER_TABLE) s).
Proof. reflexivity. Qed.

#[local] Opaque fill.

(** ** Allocating a table *)

Lemma pg_alloc_free_frame s phys s' :
  pg_alloc_page s = (phys, s') → phys_mem s' = phys_mem s.
Proof. unfold pg_alloc_page. destruct (pmm_alloc_page _). by intros [= _ <-]. Qed.

(** What [alloc_table_page] guarantees: a zeroed, aligned page below 4 GiB
    that was free before and is not any more; on failure, no change of the
    memory nor of the free set. *)
Lemma alloc_table_page_spec s o s' :
  pmm_wf (pg_pmm s) → alloc_table_page s = (o, s') →
  pmm_wf (pg_pmm s') ∧
  match o with
  | Some n =>
     n mod 4096 = 0 ∧ 0 < n < 2 ^ 32 ∧ page_free (pg_pmm s) (n / 4096) ∧
     (∀ q, page_free (pg_pmm s') q ↔ page_free (pg_pmm s) q ∧ q ≠ n / 4096) ∧
     s' = zero_table n (s <| pg_pmm := pg_pmm s' |>)
  | None => phys_mem s' = phys_mem s ∧ ∀ q, page_free (pg_pmm s') q → page_free (pg_pmm s) q
  end.
Proof.
  intros Hwf. pose proof (pmm_rep_free_set _ Hwf) as Hrep.
  pose proof (pmm_alloc_rep _ _ Hrep) as Ha. unfold alloc_table_page, pg_alloc_page.
  destruct (pmm_alloc_page (pg_pmm s)) as [phys p] eqn:E.
  destruct Ha as [(_ & -> & ->)|(q & Hq & _ & -> & Hrep')].
  { simpl. intros [= <- <-]. simpl. done. }
  apply elem_of_free_set in Hq as Hfree. destruct (page_addr q) as [Hal Hdiv].
  rewrite PAGE_SIZE_val in *.
  assert (∀ q', page_free p q' ↔ page_free (pg_pmm s) q' ∧ q' ≠ q) as Hp.
  { intros q'. rewrite <- (proj2 Hrep' q'), elem_of_difference, elem_of_singleton, elem_of_free_set.
    done. }
  destruct (Z.eqb_spec (q * 4096) 0) as [E0|E0]; simpl.
  { intros [= <- <-]. simpl. split; [apply Hrep'|]. split; [done|]. intros q' ?%Hp. tauto. }
  assert (0 < q * 4096) by (destruct Hfree; lia).
  rewrite Z.geb_leb. destruct (Z.leb_spec 0x100000000 (q * 4096)) as [Hge|Hlt]; simpl.
  { intros [= <- <-]. simpl.
    destruct (pmm_free_rep p _ (q * 4096) Hrep' ltac:(lia)) as [Hwf' HF].
    split; [done|]. split; [done|]. intros q' Hq'. apply HF in Hq'.
    apply elem_of_union in Hq' as [Hq'|Hq'].
    - apply elem_of_difference in Hq' as [Hq' _]. by apply elem_of_free_set.
    - unfold free_target in Hq'. rewrite PAGE_SIZE_val, Hdiv in Hq'.
      destruct (_ && _); set_solver. }
  unfold table_from_phys. rewrite Z.geb_leb, (proj2 (Z.leb_gt _ _)) by lia.
  intros E'. injection E' as <- <-. rewrite Hdiv, zero_table_pmm.
  split; [apply Hrep'|]. split; [done|]. split; [lia|]. split; [done|]. by split.
Qed.

(** ** Translation by levels

    [virt_to_phys_root] as one recursion over the levels 4 to 1. *)

Definition level_index (l : nat) (va : Z) : Z :=
  Z.land (Z.shiftr va (12 + 9 * (Z.of_nat l - 1))) PT_INDEX_MASK.

Lemma level_index_range l va : 0 ≤ level_index l va < 512.
Proof.
  unfold level_index, PT_INDEX_MASK. change 0x1FF with (2 ^ 9 - 1).
  rewrite land_low_mask by lia. apply Z.mod_pos_bound. lia.
Qed.
#[export] Hint Resolve level_index_range : nexus.

Fixpoint xlate (m : gmap Z Z) (l : nat) (t va : Z) : Z :=
  let e := rd m t (level_index l va) in
  if negb (has_bits e PTE_PRESENT) then 0
  else
    match l with
    | O => 0
    | S O => Z.lor (entry_addr e) (Z.land va 0xFFF)
    | S l' =>
       if (l =? 3)%nat && has_bits e PTE_HUGE
       then Z.lor (Z.land e 0xFFFFFC0000000) (Z.land va 0x3FFFFFFF)
       else if (l =? 2)%nat && has_bits e PTE_HUGE
       then Z.lor (Z.land e 0xFFFFFFE00000) (Z.land va 0x1FFFFF)
       else match table_from_phys (entry_addr e) with
            | None => 0
            | Some t' => xlate m l' t' va
            end
    end.

Lemma virt_to_phys_xlate m root va :
  virt_to_phys_root m root va =
  match table_from_phys root with None => 0 | Some t => xlate m 4 t va end.
Proof. reflexivity. Qed.

(** The table an entry of a level-[l] table points to. *)
Definition link (l : nat) (e : Z) : option Z :=
  if has_bits e PTE_PRESENT && negb ((l =? 2)%nat && has_bits e PTE_HUGE)
  then Some (entry_addr e) else None.

(** ** The well-formedness invariant of the page tables

    [T] records the level of every page used as a table. Tables are aligned
    pages below 4 GiB that the PMM does not consider free; the entries of a
    table of level [l >= 2] point to tables of level [l - 1]; no table is
    pointed to from two places. *)
Record tables_ok (s : paging) (T : gmap Z nat) : Prop := {
  tok_pmm : pmm_wf (pg_pmm s);
  tok_table : ∀ t l, T !! t = Some l →
    (1 ≤ l ≤ 4)%nat ∧ t mod 4096 = 0 ∧ 0 ≤ t < 2 ^ 32 ∧ ¬ page_free (pg_pmm s) (t / 4096);
  tok_child : ∀ t l i c, T !! t = Some (S l) → (1 ≤ l)%nat → 0 ≤ i < 512 →
    link (S l) (rd (phys_mem s) t i) = Some c → T !! c = Some l;
  tok_no_1g : ∀ t i, T !! t = Some 3%nat → 0 ≤ i < 512 →
    has_bits (rd (phys_mem s) t i) PTE_PRESENT = true →
    has_bits (rd (phys_mem s) t i) PTE_HUGE = false;
  tok_unique : ∀ t1 t2 l1 l2 i1 i2 c, T !! t1 = Some l1 → T !! t2 = Some l2 →
    (2 ≤ l1)%nat → (2 ≤ l2)%nat → 0 ≤ i1 < 512 → 0 ≤ i2 < 512 →
    link l1 (rd (phys_mem s) t1 i1) = Some c → link l2 (rd (phys_mem s) t2 i2) = Some c →
    t1 = t2 ∧ i1 = i2;
}.

Lemma table_from_phys_ok t : 0 ≤ t < 2 ^ 32 → table_from_phys t = Some t.
Proof. intros H. unfold table_from_phys. rewrite Z.geb_leb, (proj2 (Z.leb_gt _ _)) by lia. done. Qed.

Lemma tables_ok_from_phys s T t l :
  tables_ok s T → T !! t = Some l → table_from_phys t = Some t.
Proof. intros Hok Ht. apply table_from_phys_ok, (tok_table _ _ Hok t l Ht). Qed.

Lemma xlate_absent m l t va :
  has_bits (rd m t (level_index l va)) PTE_PRESENT = false → xlate m l t va = 0.
Proof. intros H. destruct l; cbn [xlate]; by rewrite H. Qed.

(** One step of the translation along a link. *)
Lemma xlate_link s T l t va c :
  tables_ok s T → T !! t = Some (S l) → (1 ≤ l)%nat →
  link (S l) (rd (phys_mem s) t (level_index (S l) va)) = Some c →
  xlate (phys_mem s) (S l) t va = xlate (phys_mem s) l c va.
Proof.
  intros Hok Ht Hl Hlk. pose proof (level_index_range (S l) va) as Hi.
  pose proof (tok_child _ _ Hok _ _ _ _ Ht Hl Hi Hlk) as Hc.
  unfold link in Hlk. destruct l as [|l]; [lia|]. cbn [xlate].
  set (e := rd (phys_mem s) t (level_index (S (S l)) va)) in *.
  destruct (has_bits e PTE_PRESENT) eqn:Hp; [|done]. simpl in Hlk. simpl.
  destruct (_ && has_bits e PTE_HUGE) eqn:Hh in Hlk; [done|]. simpl in Hlk. injection Hlk as <-.
  destruct ((S (S l) =? 3)%nat && has_bits e PTE_HUGE) eqn:H3.
  { apply andb_true_iff in H3 as [H3 Hg]. apply Nat.eqb_eq in H3. assert (l = 1%nat) as -> by lia.
    pose proof (tok_no_1g _ _ Hok t _ Ht Hi Hp). subst e. congruence. }
  simpl in H3. rewrite H3. simpl in Hh. rewrite Hh.
  by rewrite (tables_ok_from_phys _ _ _ _ Hok Hc).
Qed.

(** ** Walks *)

(** The walk of [va] from the level-[k] table [r] goes through the
    level-[l] table [t]. *)
Fixpoint reach (m : gmap Z Z) (k : nat) (r va : Z) (l : nat) (t : Z) : Prop :=
  (k = l ∧ r = t) ∨
  match k with
  | O => False
  | S k' => (1 ≤ k')%nat ∧ ∃ c, link k (rd m r (level_index k va)) = Some c ∧ reach m k' c va l t
  end.

Lemma reach_level m k r va l t : reach m k r va l t → (l ≤ k)%nat.
Proof.
  revert r. induction k as [|k IH]; intros r; simpl; [intros [[]|[]]; lia|].
  intros [[]|(_ & c & _ & H)]; [lia|]. apply IH in H. lia.
Qed.

Lemma reach_table s T k r va l t :
  tables_ok s T → T !! r = Some k → reach (phys_mem s) k r va l t → T !! t = Some l.
Proof.
  intros Hok. revert r. induction k as [|k IH]; intros r Hr; simpl.
  { intros [[<- <-]|[]]. done. }
  intros [[<- ->]|(Hk & c & Hlk & H)]; [done|]. eapply IH; [|done].
  eapply tok_child; eauto with nexus.
Qed.

(** Along a walk the translation does not change. *)
Lemma reach_xlate s T k r va l t :
  tables_ok s T → T !! r = Some k → reach (phys_mem s) k r va l t →
  xlate (phys_mem s) k r va = xlate (phys_mem s) l t va.
Proof.
  intros Hok. revert r. induction k as [|k IH]; intros r Hr; simpl.
  { intros [[<- <-]|[]]. done. }
  intros [[<- ->]|(Hk & c & Hlk & H)]; [done|].
  rewrite <- (IH c); [|eapply tok_child; eauto with nexus|done].
  by eapply xlate_link.
Qed.

(** A table is reached along one path only. *)
Lemma reach_unique s T k r1 r2 va1 va2 l t :
  tables_ok s T → T !! r1 = Some k → T !! r2 = Some k →
  reach (phys_mem s) k r1 va1 l t → reach (phys_mem s) k r2 va2 l t →
  r1 = r2 ∧ ∀ j, (l < j ≤ k)%nat → level_index j va1 = level_index j va2.
Proof.
  intros Hok. revert r1 r2. induction k as [|k IH]; intros r1 r2 H1 H2.
  { intros [[<- ->]|[]] [[_ ->]|[]]. split; [done|lia]. }
  intros [[<- ->]|(Hk & c1 & L1 & R1)] [[E ->]|(Hk' & c2 & L2 & R2)].
  - split; [done|lia].
  - apply reach_level in R2. lia.
  - apply reach_level in R1. lia.
  - pose proof (level_index_range (S k) va1) as I1. pose proof (level_index_range (S k) va2) as I2.
    destruct (IH c1 c2) as [-> Hj]; [exact (tok_child _ _ Hok _ _ _ _ H1 Hk I1 L1)
      |exact (tok_child _ _ Hok _ _ _ _ H2 Hk I2 L2)|done|done|].
    destruct (tok_unique _ _ Hok _ _ _ _ _ _ _ H1 H2 ltac:(lia) ltac:(lia) I1 I2 L1 L2) as [-> Hi].
    split; [done|]. intros j Hlt. destruct (decide (j = S k)) as [->|]; [done|]. apply Hj. lia.
Qed.

(** ** One change of the tables *)

(** [m'] has the words of [m] on the tables of [T], except at [(t0, i0)]. *)
Definition agree_but (T : gmap Z nat) (m m' : gmap Z Z) (t0 i0 : Z) : Prop :=
  ∀ t l i, T !! t = Some l → 0 ≤ i < 512 → (t, i) ≠ (t0, i0) → rd m' t i = rd m t i.

(** A walk either avoids the changed word, and translates as before, or goes
    through it in both memories. *)
Lemma xlate_change s T m' k r va l0 t0 i0 :
  tables_ok s T → T !! r = Some k → T !! t0 = Some l0 → agree_but T (phys_mem s) m' t0 i0 →
  (∀ va, level_index l0 va = i0 → xlate m' l0 t0 va = xlate (phys_mem s) l0 t0 va) →
  xlate m' k r va = xlate (phys_mem s) k r va.
Proof.
  intros Hok Hr Ht0 Hag Hloc. revert r Hr. induction k as [|k IH]; intros r Hr.
  { pose proof (tok_table _ _ Hok _ _ Hr). lia. }
  pose proof (level_index_range (S k) va) as Hi.
  destruct (decide ((r, level_index (S k) va) = (t0, i0))) as [[= -> E]|Hne].
  { assert (l0 = S k) as -> by congruence. by apply Hloc. }
  pose proof (Hag r (S k) _ Hr Hi Hne) as Ew.
  cbn [xlate]. rewrite Ew. destruct (has_bits _ PTE_PRESENT) eqn:Hp; simpl; [|done].
  destruct k as [|k]; [done|].
  set (e := rd (phys_mem s) r (level_index (S (S k)) va)) in *.
  destruct (_ && has_bits e PTE_HUGE); [done|].
  destruct (_ && has_bits e PTE_HUGE) eqn:Hh; [done|].
  assert (link (S (S k)) e = Some (entry_addr e)) as Hlk.
  { unfold link. rewrite Hp. simpl. simpl in Hh. by rewrite Hh. }
  pose proof (tok_child _ _ Hok _ _ _ _ Hr ltac:(lia) Hi Hlk) as Hc.
  rewrite (tables_ok_from_phys _ _ _ _ Hok Hc). apply IH; done.
Qed.

(** ** Growing the tables *)

(** [s'] has all the tables of [s] and possibly more, every translation of
    [s], and the same links. *)
Record extends (s s' : paging) (T T' : gmap Z nat) : Prop := {
  ext_ok : tables_ok s' T';
  ext_sub : T ⊆ T';
  ext_xlate : ∀ r k va, T !! r = Some k →
    xlate (phys_mem s') k r va = xlate (phys_mem s) k r va;
  ext_link : ∀ t l i c, T !! t = Some l → 0 ≤ i < 512 →
    link l (rd (phys_mem s) t i) = Some c → rd (phys_mem s') t i = rd (phys_mem s) t i;
  ext_free : ∀ q, page_free (pg_pmm s') q → page_free (pg_pmm s) q;
  ext_new : ∀ t, is_Some (T' !! t) → T !! t = None → page_free (pg_pmm s) (t / 4096);
}.

Lemma extends_refl s T : tables_ok s T → extends s s T T.
Proof. split; try done. intros t [? ?] ?. congruence. Qed.

Lemma extends_trans s1 s2 s3 T1 T2 T3 :
  extends s1 s2 T1 T2 → extends s2 s3 T2 T3 → extends s1 s3 T1 T3.
Proof.
  intros [O1 S1 X1 L1 F1 N1] [O2 S2 X2 L2 F2 N2]. split; [done|by etrans|..].
  - intros r k va Hr. rewrite X2 by (by eapply lookup_weaken). by apply X1.
  - intros t l i c Ht Hi Hlk. pose proof (L1 t l i c Ht Hi Hlk) as E.
    rewrite (L2 t l i c); [done|by eapply lookup_weaken|done|by rewrite E].
  - auto.
  - intros t Ht Hn. destruct (T2 !! t) eqn:E; [apply N1; [by eexists|done]|]. by apply F1, N2.
Qed.

(** Losing free pages, or keeping them, without touching the memory. *)
Lemma extends_pmm s s' T :
  tables_ok s T → phys_mem s' = phys_mem s → pmm_wf (pg_pmm s') →
  (∀ q, page_free (pg_pmm s') q → page_free (pg_pmm s) q) → extends s s' T T.
Proof.
  intros Hok Hm Hwf Hf. split; rewrite ?Hm; [|done..|intros t [? ?] ?; congruence]. destruct Hok as [_ H1 H2 H3 H4].
  split; rewrite ?Hm; [done| |done..]. intros t l Ht.
  destruct (H1 t l Ht) as (? & ? & ? & Hn). repeat (split; [done|]).
  intros Hp. by apply Hn, Hf.
Qed.

Lemma link_zero l : link l 0 = None.
Proof. reflexivity. Qed.

Lemma link_table_entry l n : n mod 4096 = 0 → 0 ≤ n < 2 ^ 32 → link l (table_entry n) = Some n.
Proof. intros Hn Hr. unfold link. autorewrite with nexus. simpl. by rewrite andb_false_r. Qed.

Section install.
Context (s s1 : paging) (T : gmap Z nat) (t i n : Z) (l : nat).
Context (Hok : tables_ok s T) (Ht : T !! t = Some (S l)) (Hl : (1 ≤ l)%nat) (Hi : 0 ≤ i < 512).
Context (Hnone : link (S l) (rd (phys_mem s) t i) = None).
Context (Hal : n mod 4096 = 0) (Hn : 0 < n < 2 ^ 32) (Hfresh : T !! n = None).
Context (Hwf : pmm_wf (pg_pmm s1)) (Hfn : page_free (pg_pmm s) (n / 4096)).
Context (Hfree : ∀ q, page_free (pg_pmm s1) q → page_free (pg_pmm s) q ∧ q ≠ n / 4096).
Context (Hagree : ∀ t' l' i', T !! t' = Some l' → 0 ≤ i' < 512 →
  rd (phys_mem s1) t' i' = rd (phys_mem s) t' i').
Context (Hzero : (2 ≤ l)%nat → ∀ j, 0 ≤ j < 512 → rd (phys_mem s1) n j = 0).
Let s' := wr t i (table_entry n) s1.
Let T' := <[n := l]> T.

Lemma install_word t' l' j :
  T !! t' = Some l' → 0 ≤ j < 512 → (t', j) ≠ (t, i) →
  rd (phys_mem s') t' j = rd (phys_mem s) t' j.
Proof using All.
  intros Ht' Hj Hne. unfold s'. rewrite rd_wr_ne; [by eapply Hagree|].
  intros E. apply Hne.
  destruct (table_word_inj t t' i j) as [-> ->]; try done.
  - apply (tok_table _ _ Hok _ _ Ht).
  - apply (tok_table _ _ Hok _ _ Ht').
Qed.

Lemma install_new j : 0 ≤ j < 512 → rd (phys_mem s') n j = rd (phys_mem s1) n j.
Proof using All.
  intros Hj. apply rd_wr_table; try done; [|congruence].
  apply (tok_table _ _ Hok _ _ Ht).
Qed.

Lemma install_at : rd (phys_mem s') t i = table_entry n.
Proof. apply rd_wr_eq. Qed.

(** The links of the new tables: the old ones and the installed one. *)
Lemma install_links t' l' j c :
  T' !! t' = Some l' → (2 ≤ l')%nat → 0 ≤ j < 512 → link l' (rd (phys_mem s') t' j) = Some c →
  ((t', j) = (t, i) ∧ c = n ∧ l' = S l) ∨
  (T !! t' = Some l' ∧ (t', j) ≠ (t, i) ∧ link l' (rd (phys_mem s) t' j) = Some c ∧ c ≠ n).
Proof using All.
  intros Ht' Hl' Hj Hlk. unfold T' in Ht'.
  apply lookup_insert_Some in Ht' as [[<- <-]|[Hne Ht']].
  { by rewrite install_new, Hzero, link_zero in Hlk. }
  destruct (decide ((t', j) = (t, i))) as [[= -> ->]|Hd].
  - left. rewrite install_at, link_table_entry in Hlk by (done || lia).
    split; [done|]. split; congruence.
  - right. rewrite (install_word t' l' j) in Hlk by done. repeat (split; [done|]).
    intros ->. destruct l' as [|l']; [lia|].
    pose proof (tok_child _ _ Hok _ _ _ _ Ht' ltac:(lia) Hj Hlk). congruence.
Qed.

Lemma install_ok : tables_ok s' T'.
Proof using All.
  split.
  - done.
  - intros t' l' Ht'. unfold T' in Ht'. apply lookup_insert_Some in Ht' as [[<- <-]|[Hne Ht']].
    + pose proof (tok_table _ _ Hok _ _ Ht) as (? & _). split; [lia|]. split; [done|].
      split; [lia|]. intros Hp%Hfree. tauto.
    + destruct (tok_table _ _ Hok _ _ Ht') as (? & ? & ? & Hp). repeat (split; [done|]).
      intros Hp'%Hfree. tauto.
  - intros t' l' j c Ht' Hl' Hj Hlk.
    destruct (install_links t' (S l') j c) as [([= -> ->] & -> & [= ->])|(H1 & H2 & H3 & H4)];
      try done; [lia|unfold T'; by rewrite lookup_insert_eq|].
    unfold T'. rewrite lookup_insert_ne by done. by eapply tok_child.
  - intros t' j Ht' Hj. unfold T' in Ht'. apply lookup_insert_Some in Ht' as [[<- El]|[Hne Ht']].
    + rewrite install_new, Hzero by (done || lia). done.
    + destruct (decide ((t', j) = (t, i))) as [[= -> ->]|Hd].
      * rewrite install_at. by autorewrite with nexus.
      * rewrite (install_word t' 3 j) by done. by apply (tok_no_1g _ _ Hok).
  - intros t1 t2 l1 l2 i1 i2 c H1 H2 L1 L2 I1 I2 K1 K2.
    destruct (install_links t1 l1 i1 c) as [([= -> ->] & -> & _)|(A1 & A2 & A3 & A4)]; try done;
    destruct (install_links t2 l2 i2 _ H2 L2 I2 K2) as [([= -> ->] & E & _)|(B1 & B2 & B3 & B4)];
      try done.
    by apply (tok_unique _ _ Hok t1 t2 l1 l2 i1 i2 c).
Qed.

(** The translation through the installed table. *)
Lemma install_xlate va :
  level_index (S l) va = i → xlate (phys_mem s') (S l) t va = xlate (phys_mem s') l n va.
Proof using All.
  intros E. eapply (xlate_link s' T'); [apply install_ok| |done|].
  - unfold T'. rewrite lookup_insert_ne; [done|]. intros ->. congruence.
  - rewrite E, install_at. apply link_table_entry; [done|lia].
Qed.

Lemma install_extends :
  (∀ va, level_index (S l) va = i →
     xlate (phys_mem s') l n va = xlate (phys_mem s) (S l) t va) →
  extends s s' T T'.
Proof using All.
  intros Hloc. split.
  - apply install_ok.
  - by apply insert_subseteq.
  - intros r k va Hr. eapply xlate_change; [done|done|exact Ht| |].
    + intros t' l' j Ht' Hj Hd. by eapply install_word.
    + intros va' E. rewrite install_xlate by done. by apply Hloc.
  - intros t' l' j c Ht' Hj Hlk. eapply install_word; [done|done|].
    intros [= -> ->]. assert (l' = S l) as -> by congruence. congruence.
  - intros q Hq. by apply Hfree.
  - intros t' Ht' Hn'. unfold T' in Ht'. destruct (decide (t' = n)) as [->|];
      [exact Hfn|]. rewrite lookup_insert_ne in Ht' by done. destruct Ht'. congruence.
Qed.
End install.

Lemma wr_entry_run t i v s : wr_entry t i v s = (Some v, wr t i v s).
Proof. unfold wr_entry. by rewrite rd_wr_eq. Qed.

(** ** The walk creates what is missing and changes no translation *)

Lemma tables_ok_fresh s T n l :
  tables_ok s T → page_free (pg_pmm s) (n / 4096) → T !! n = Some l → False.
Proof. intros Hok Hf Hn. by apply (tok_table _ _ Hok _ _ Hn). Qed.

Lemma zero_table_agree s T n s1 :
  tables_ok s T → n mod 4096 = 0 → T !! n = None → phys_mem s1 = phys_mem s →
  ∀ t l i, T !! t = Some l → 0 ≤ i < 512 → ∀ f,
    rd (phys_mem (fill n f (seq 0 ENTRIES_PER_TABLE) s1)) t i = rd (phys_mem s) t i.
Proof.
  intros Hok Hal Hn Hm t l i Ht Hi f. rewrite fill512_ne; [by rewrite Hm|done| |congruence|done].
  apply (tok_table _ _ Hok _ _ Ht).
Qed.

(** *** Splitting a 2 MiB page *)

Lemma land_base e : 0 ≤ Z.land e 0xFFFFFFE00000 < 2 ^ 48 ∧ Z.land e 0xFFFFFFE00000 mod 2 ^ 21 = 0.
Proof.
  split.
  - replace (Z.land e 0xFFFFFFE00000) with (Z.land (Z.land e 0xFFFFFFE00000) (2 ^ 48 - 1)).
    + rewrite land_low_mask by lia. apply Z.mod_pos_bound. lia.
    + rewrite <- Z.land_assoc. done.
  - rewrite <- land_low_mask by lia. rewrite <- Z.land_assoc. apply Z.land_0_r.
Qed.

Lemma leaf_flags_range e : 0 ≤ Z.land (Z.land e 0xFFF) (not64 PTE_HUGE) < 4096.
Proof.
  replace (Z.land (Z.land e 0xFFF) (not64 PTE_HUGE)) with
    (Z.land (Z.land e (Z.land 0xFFF (not64 PTE_HUGE))) (2 ^ 12 - 1)).
  - rewrite land_low_mask by lia. apply Z.mod_pos_bound. lia.
  - rewrite <- !Z.land_assoc. done.
Qed.

Lemma leaf_flags_present e :
  Z.testbit (Z.land (Z.land e 0xFFF) (not64 PTE_HUGE)) 0 = Z.testbit e 0.
Proof. rewrite !Z.land_spec. change (Z.testbit 0xFFF 0) with true.
  change (Z.testbit (not64 PTE_HUGE) 0) with true. by rewrite !andb_true_r. Qed.

Lemma level_index_val l va :
  level_index (S l) va = (va / 4096 / 2 ^ (9 * Z.of_nat l)) mod 512.
Proof.
  unfold level_index, PT_INDEX_MASK. change 0x1FF with (2 ^ 9 - 1).
  rewrite land_low_mask, Z.shiftr_div_pow2 by lia.
  replace (12 + 9 * (Z.of_nat (S l) - 1)) with (12 + 9 * Z.of_nat l) by lia.
  rewrite Z.pow_add_r by lia. by rewrite Z.div_div by lia.
Qed.

(** The leaf written for [va] translates [va] as the 2 MiB entry did. *)
Lemma split_leaf_xlate e va (j := level_index 1 va) :
  has_bits e PTE_PRESENT = true →
  let leaf := Z.lor (Z.land e 0xFFFFFFE00000 + j * PAGE_SIZE)
                    (Z.land (Z.land e 0xFFF) (not64 PTE_HUGE)) in
  has_bits leaf PTE_PRESENT = true ∧
  Z.lor (entry_addr leaf) (Z.land va 0xFFF) =
  Z.lor (Z.land e 0xFFFFFFE00000) (Z.land va 0x1FFFFF).
Proof.
  intros Hp leaf. pose proof (land_base e) as [Hb Hb']. pose proof (leaf_flags_range e) as Hf.
  pose proof (level_index_val 0 va) as Hj. fold j in Hj. change (2 ^ (9 * Z.of_nat 0)) with 1 in Hj.
  rewrite Z.div_1_r in Hj. rewrite present_bit in Hp.
  set (fl := Z.land (Z.land e 0xFFF) (not64 PTE_HUGE)) in *.
  assert (Z.testbit fl 0 = true) as Hfl by (unfold fl; by rewrite leaf_flags_present).
  set (base := Z.land e 0xFFFFFFE00000) in *.
  assert ((base + j * 4096) mod 4096 = 0) as Ha by (Z.div_mod_to_equations; lia).
  assert (leaf = (base + j * 4096) + fl) as ->.
  { apply (lor_add_low _ _ 12); [lia|done|]. done. }
  rewrite present_bit, (testbit_add_low _ _ 12) by (done || lia). split; [done|].
  change 0xFFF with (2 ^ 12 - 1). change 0x1FFFFF with (2 ^ 21 - 1).
  rewrite !land_low_mask by lia.
  assert (0 ≤ j < 512) by (unfold j; auto with nexus).
  rewrite entry_addr_spec by lia.
  rewrite (lor_add_low base _ 21) by (try done; Z.div_mod_to_equations; lia).
  rewrite (lor_add_low _ _ 12); [Z.div_mod_to_equations; lia|lia|Z.div_mod_to_equations; lia|].
  Z.div_mod_to_equations; lia.
Qed.

Section walk.
Context (s : paging) (T : gmap Z nat) (Hok : tables_ok s T).

Lemma ensure_entry_spec t l i create o s' :
  T !! t = Some (S l) → (1 ≤ l)%nat → 0 ≤ i < 512 →
  ensure_entry t i create s = (o, s') →
  ∃ T', extends s s' T T' ∧ (create = false → s' = s) ∧
    ∀ e, o = Some e → rd (phys_mem s') t i = e ∧ has_bits e PTE_PRESENT = true.
Proof using Hok.
  intros Ht Hl Hi. unfold ensure_entry. set (e0 := rd (phys_mem s) t i).
  destruct (has_bits e0 PTE_PRESENT) eqn:Hp; simpl.
  { intros [= <- <-]. exists T. split; [by apply extends_refl|]. split; [done|]. by intros e [= <-]. }
  destruct create; simpl; cycle 1.
  { intros [= <- <-]. exists T. split; [by apply extends_refl|]. by split. }
  unfold mbind, pm_bind. destruct (alloc_table_page s) as [[n|] s1] eqn:Ea.
  all: pose proof (alloc_table_page_spec _ _ _ (tok_pmm _ _ Hok) Ea) as [Hwf Hsp].
  2: { intros [= <- <-]. destruct Hsp. exists T. split; [by apply extends_pmm|]. by split. }
  destruct Hsp as (Hal & Hn & Hf & Hf' & Es1). rewrite wr_entry_run. intros [= <- <-].
  assert (T !! n = None) as HTn.
  { destruct (T !! n) as [k|] eqn:E; [|done]. by destruct (tables_ok_fresh s T n k). }
  exists (<[n := l]> T). split; [|split; [done|]]; cycle 1.
  { intros e [= <-]. rewrite rd_wr_eq. split; [done|]. by apply table_entry_present. }
  rewrite Es1, zero_table_fill. fold (table_entry n).
  apply install_extends; rewrite ?fill_pmm; try assumption; try lia.
  - unfold link. subst e0. by rewrite Hp.
  - intros q. simpl. apply Hf'.
  - intros t' l' i' Ht' Hi'. eapply (zero_table_agree s T n); done.
  - intros _ j Hj. by rewrite fill512_at.
  - intros va Hva. rewrite (xlate_absent (phys_mem s)) by (by rewrite Hva).
    apply xlate_absent. pose proof (tok_table _ _ Hok _ _ Ht) as (_ & ? & _).
    rewrite rd_wr_table, fill512_at by (congruence || auto with nexus). done.
Qed.

Lemma ensure_split_spec t i e create o s' :
  T !! t = Some 2%nat → 0 ≤ i < 512 → rd (phys_mem s) t i = e → has_bits e PTE_PRESENT = true →
  ensure_split t i e create s = (o, s') →
  ∃ T', extends s s' T T' ∧ (create = false → s' = s) ∧
    ∀ e', o = Some e' → rd (phys_mem s') t i = e' ∧ link 2 e' = Some (entry_addr e').
Proof using Hok.
  intros Ht Hi He Hp. unfold ensure_split.
  destruct (has_bits e PTE_HUGE) eqn:Hh; cycle 1.
  { intros [= <- <-]. exists T. split; [by apply extends_refl|]. split; [done|].
    intros e' [= <-]. split; [done|]. unfold link. by rewrite Hp, Hh. }
  destruct create; simpl; cycle 1.
  { intros [= <- <-]. exists T. split; [by apply extends_refl|]. by split. }
  unfold mbind, pm_bind. destruct (alloc_table_page s) as [[n|] s1] eqn:Ea.
  all: pose proof (alloc_table_page_spec _ _ _ (tok_pmm _ _ Hok) Ea) as [Hwf Hsp].
  2: { intros [= <- <-]. destruct Hsp. exists T. split; [by apply extends_pmm|]. by split. }
  destruct Hsp as (Hal & Hn & Hf & Hf' & Es1). unfold pm_lift.
  rewrite table_from_phys_ok, split_huge_fill, wr_entry_run by lia. intros [= <- <-].
  assert (T !! n = None) as HTn.
  { destruct (T !! n) as [k|] eqn:E; [|done]. by destruct (tables_ok_fresh s T n k). }
  exists (<[n := 1%nat]> T). fold (table_entry n). split; [|split; [done|]]; cycle 1.
  { intros e' [= <-]. rewrite rd_wr_eq, link_table_entry, table_entry_addr by (done || lia). done. }
  apply install_extends; rewrite ?fill_pmm; try assumption; try lia.
  - unfold link. by rewrite He, Hp, Hh.
  - intros q. apply Hf'.
  - intros t' l' i' Ht' Hi'. rewrite Es1, fill512_ne; try done; [|by apply (tok_table _ _ Hok _ _ Ht')
      |congruence]. rewrite zero_table_fill. eapply (zero_table_agree s T n); done.
  - intros va Hva. pose proof (tok_table _ _ Hok _ _ Ht) as (_ & ? & _).
    destruct (split_leaf_xlate e va Hp) as [Hp' Hx].
    cbn [xlate]. rewrite rd_wr_table, fill512_at by (congruence || auto with nexus).
    rewrite Z2Nat.id, Hva, He, Hp, Hp', Hh by (apply level_index_range). exact Hx.
Qed.
End walk.

Lemma reach_extends s s' T T' k r va l t :
  tables_ok s T → extends s s' T T' → T !! r = Some k →
  reach (phys_mem s) k r va l t → reach (phys_mem s') k r va l t.
Proof.
  intros Hok Hx. revert r. induction k as [|k IH]; intros r Hr; simpl; [done|].
  intros [?|(Hk & c & Hlk & H)]; [by left|right]. split; [done|]. exists c.
  pose proof (level_index_range (S k) va) as Hi.
  rewrite (ext_link _ _ _ _ Hx r (S k) _ c) by done. split; [done|].
  apply IH; [|done]. exact (tok_child _ _ Hok _ _ _ _ Hr Hk Hi Hlk).
Qed.

Lemma reach_snoc m k r va l t c :
  reach m k r va (S l) t → (1 ≤ l)%nat →
  link (S l) (rd m t (level_index (S l) va)) = Some c → reach m k r va l c.
Proof.
  revert r. induction k as [|k IH]; intros r; simpl; [intros [[]|[]]; lia|].
  intros [[[= ->] ->]|(Hk & c' & Hlk & H)] Hl Hc; right.
  - split; [done|]. exists c. split; [done|]. destruct l; by left.
  - split; [done|]. exists c'. split; [done|]. by apply IH.
Qed.

Lemma pm_bind_run {A B} (m : PM A) (f : A → PM B) s :
  (m ≫= f) s = match m s with (Some a, s') => f a s' | (None, s') => (None, s') end.
Proof. reflexivity. Qed.

(** What each stage of the walk establishes, from the state before the walk. *)
Definition walk_inv (s : paging) (T : gmap Z nat) (create : bool) (root va : Z) (l : nat) (t : Z)
    (s' : paging) (T' : gmap Z nat) : Prop :=
  extends s s' T T' ∧ (create = false → s' = s) ∧ reach (phys_mem s') 4 root va l t.

Lemma walk_inv_step s T create root va l t s1 T1 s2 T2 :
  tables_ok s T → T !! root = Some 4%nat →
  walk_inv s T create root va (S l) t s1 T1 → extends s1 s2 T1 T2 → (create = false → s2 = s1) →
  extends s s2 T T2 ∧ (create = false → s2 = s) ∧ reach (phys_mem s2) 4 root va (S l) t.
Proof.
  intros Hok Hr (Hx & Hc & Hre) Hx2 Hc2. split; [by eapply extends_trans|].
  split; [intros E; rewrite Hc2, Hc; done|].
  eapply reach_extends; [apply (ext_ok _ _ _ _ Hx)|done| |done].
  eapply lookup_weaken; [done|apply (ext_sub _ _ _ _ Hx)].
Qed.

(** A level of the walk above the page directory. *)
Lemma walk_level s T create root va l t s1 T1 o s2 :
  tables_ok s T → T !! root = Some 4%nat → (2 ≤ l)%nat →
  walk_inv s T create root va (S l) t s1 T1 →
  ensure_entry t (level_index (S l) va) create s1 = (o, s2) →
  ∃ T2, extends s s2 T T2 ∧ (create = false → s2 = s) ∧
    ∀ e, o = Some e →
      rd (phys_mem s2) t (level_index (S l) va) = e ∧ has_bits e PTE_PRESENT = true ∧
      table_from_phys (entry_addr e) = Some (entry_addr e) ∧
      T2 !! t = Some (S l) ∧ walk_inv s T create root va l (entry_addr e) s2 T2.
Proof.
  intros Hok Hr Hl Hw He. pose proof Hw as (Hx & _ & Hre).
  pose proof (level_index_range (S l) va) as Hi.
  assert (T1 !! root = Some 4%nat) as Hr1 by (eapply lookup_weaken; [done|apply (ext_sub _ _ _ _ Hx)]).
  pose proof (reach_table _ _ _ _ _ _ _ (ext_ok _ _ _ _ Hx) Hr1 Hre) as Ht.
  destruct (ensure_entry_spec s1 T1 (ext_ok _ _ _ _ Hx) _ _ _ _ _ _ Ht ltac:(lia) Hi He)
    as (T2 & Hx2 & Hc2 & Hsp).
  destruct (walk_inv_step _ _ _ _ _ _ _ _ _ _ _ Hok Hr Hw Hx2 Hc2) as (Hx' & Hc' & Hre').
  exists T2. split; [done|]. split; [done|]. intros e He'. destruct (Hsp e He') as [Hrd Hp].
  assert (T2 !! t = Some (S l)) as Ht2 by (eapply lookup_weaken; [done|apply (ext_sub _ _ _ _ Hx2)]).
  assert (link (S l) (rd (phys_mem s2) t (level_index (S l) va)) = Some (entry_addr e)) as Hlk.
  { rewrite Hrd. unfold link. rewrite Hp. destruct l as [|[|l]]; [lia|lia|]. done. }
  pose proof (tok_child _ _ (ext_ok _ _ _ _ Hx2) _ _ _ _ Ht2 ltac:(lia) Hi Hlk) as Hc.
  repeat (split; [done|]). split; [by eapply tables_ok_from_phys; [apply (ext_ok _ _ _ _ Hx2)|]|].
  split; [done|]. split; [done|]. split; [done|]. eapply reach_snoc; [done|lia|done].
Qed.

(** The page-directory level, with the split of a 2 MiB page. *)
Lemma walk_pd s T create root va t s1 T1 o s' :
  tables_ok s T → T !! root = Some 4%nat → walk_inv s T create root va 2 t s1 T1 →
  (ensure_entry t (pd_index va) create ≫= λ e,
   ensure_split t (pd_index va) e create ≫= λ e, pm_lift (table_from_phys (entry_addr e))) s1
  = (o, s') →
  ∃ T', extends s s' T T' ∧ (create = false → s' = s) ∧
    ∀ pt, o = Some pt → reach (phys_mem s') 4 root va 1 pt.
Proof.
  intros Hok Hr Hw. pose proof Hw as (Hx & _ & Hre). rewrite pm_bind_run.
  pose proof (level_index_range 2 va) as Hi. change (pd_index va) with (level_index 2 va).
  assert (T1 !! root = Some 4%nat) as Hr1 by (eapply lookup_weaken; [done|apply (ext_sub _ _ _ _ Hx)]).
  pose proof (reach_table _ _ _ _ _ _ _ (ext_ok _ _ _ _ Hx) Hr1 Hre) as Ht.
  destruct (ensure_entry t (level_index 2 va) create s1) as [o2 s2] eqn:E2.
  destruct (ensure_entry_spec s1 T1 (ext_ok _ _ _ _ Hx) _ _ _ _ _ _ Ht ltac:(lia) Hi E2)
    as (T2 & Hx2 & Hc2 & Hsp).
  pose proof (walk_inv_step _ _ _ _ _ _ _ _ _ _ _ Hok Hr Hw Hx2 Hc2) as Hw2.
  destruct o2 as [e|]; [|intros [= <- <-]; exists T2; destruct Hw2 as (? & ? & ?); done].
  destruct (Hsp e eq_refl) as [Hrd Hp]. rewrite pm_bind_run.
  destruct (ensure_split t (level_index 2 va) e create s2) as [o3 s3] eqn:E3.
  assert (T2 !! t = Some 2%nat) as Ht2 by (eapply lookup_weaken; [done|apply (ext_sub _ _ _ _ Hx2)]).
  destruct (ensure_split_spec s2 T2 (ext_ok _ _ _ _ Hx2) _ _ _ _ _ _ Ht2 Hi Hrd Hp E3)
    as (T3 & Hx3 & Hc3 & Hsp3).
  destruct (walk_inv_step _ _ _ _ _ _ _ _ _ _ _ Hok Hr Hw2 Hx3 Hc3) as (X3 & C3 & R3).
  destruct o3 as [e3|]; intros [= <- <-]; exists T3; (split; [done|]); (split; [done|]); [|done].
  destruct (Hsp3 e3 eq_refl) as [Hrd3 Hlk3].
  assert (T3 !! t = Some 2%nat) as Ht3 by (eapply lookup_weaken; [done|apply (ext_sub _ _ _ _ Hx3)]).
  rewrite <- Hrd3 in Hlk3.
  pose proof (tok_child _ _ (ext_ok _ _ _ _ Hx3) _ _ _ _ Ht3 ltac:(lia) Hi Hlk3) as Hc.
  rewrite Hrd3 in *.
  rewrite (tables_ok_from_phys _ _ _ _ (ext_ok _ _ _ _ Hx3) Hc). intros pt [= <-].
  eapply reach_snoc; [done|lia|]. by rewrite Hrd3.
Qed.

(** The whole walk: it only extends the tables, changes nothing when it may
    not create, and ends at the level-1 table of [va]. *)
Lemma walk_create_root_spec s T root va create o s' :
  tables_ok s T → T !! root = Some 4%nat →
  walk_create_root root va create s = (o, s') →
  ∃ T', extends s s' T T' ∧ (create = false → s' = s) ∧
    ∀ pt, o = Some pt → reach (phys_mem s') 4 root va 1 pt.
Proof.
  intros Hok Hr. unfold walk_create_root. rewrite pm_bind_run.
  unfold pm_lift at 1. rewrite (tables_ok_from_phys _ _ _ _ Hok Hr). rewrite pm_bind_run.
  assert (walk_inv s T create root va 4 root s T) as W0.
  { split; [by apply extends_refl|]. split; [done|]. by left. }
  destruct (ensure_entry root (pml4_index va) create s) as [o1 s1] eqn:E1.
  destruct (walk_level _ _ _ _ _ 3 _ _ _ _ _ Hok Hr ltac:(lia) W0 E1) as (T1 & X1 & C1 & K1).
  destruct o1 as [e1|]; [|intros [= <- <-]; by exists T1].
  destruct (K1 e1 eq_refl) as (_ & _ & F1 & _ & W1). rewrite pm_bind_run. unfold pm_lift at 1.
  rewrite F1, pm_bind_run.
  destruct (ensure_entry (entry_addr e1) (pdpt_index va) create s1) as [o2 s2] eqn:E2.
  destruct (walk_level _ _ _ _ _ 2 _ _ _ _ _ Hok Hr ltac:(lia) W1 E2) as (T2 & X2 & C2 & K2).
  destruct o2 as [e2|]; [|intros [= <- <-]; by exists T2].
  destruct (K2 e2 eq_refl) as (_ & _ & F2 & _ & W2).
  destruct (has_bits e2 PTE_HUGE); [intros [= <- <-]; by exists T2|].
  rewrite pm_bind_run. unfold pm_lift at 1. rewrite F2. by apply (walk_pd s T create root va _ s2 T2).
Qed.

(** ** Writing a leaf *)

Lemma leaf_write_ok s T pt i v :
  tables_ok s T → T !! pt = Some 1%nat → 0 ≤ i < 512 → tables_ok (wr pt i v s) T.
Proof.
  intros Hok Hpt Hi. assert (∀ t l j, T !! t = Some (S (S l)) → 0 ≤ j < 512 →
    rd (phys_mem (wr pt i v s)) t j = rd (phys_mem s) t j) as Hrd.
  { intros t l j Ht Hj. apply rd_wr_table; try done.
    - apply (tok_table _ _ Hok _ _ Hpt).
    - apply (tok_table _ _ Hok _ _ Ht).
    - congruence. }
  destruct Hok as [H1 H2 H3 H4 H5]. split; [done|done|..].
  - intros t l j c Ht Hl Hj. destruct l as [|l]; [lia|]. rewrite (Hrd t l j) by done. by apply H3.
  - intros t j Ht Hj. rewrite (Hrd t _ j) by done. by apply H4.
  - intros t1 t2 l1 l2 i1 i2 c T1 T2 L1 L2 I1 I2.
    destruct l1 as [|[|l1]]; [lia..|]. destruct l2 as [|[|l2]]; [lia..|].
    rewrite (Hrd t1 l1 i1), (Hrd t2 l2 i2) by done. by apply H5.
Qed.

(** A leaf write only matters to the walks that end at that leaf. *)
Lemma leaf_write_xlate s T pt i v k r va :
  tables_ok s T → T !! pt = Some 1%nat → 0 ≤ i < 512 → T !! r = Some k →
  (reach (phys_mem s) k r va 1 pt → level_index 1 va ≠ i) →
  xlate (phys_mem (wr pt i v s)) k r va = xlate (phys_mem s) k r va.
Proof.
  intros Hok Hpt Hi. revert r. induction k as [|k IH]; intros r Hr Hne.
  { pose proof (tok_table _ _ Hok _ _ Hr). lia. }
  pose proof (level_index_range (S k) va) as Hj.
  assert (rd (phys_mem (wr pt i v s)) r (level_index (S k) va) =
          rd (phys_mem s) r (level_index (S k) va)) as E.
  { destruct (decide (r = pt)) as [->|Hd].
    - assert (k = 0%nat) as -> by congruence. apply rd_wr_ne.
      specialize (Hne ltac:(by left)). lia.
    - apply rd_wr_table; try done; [apply (tok_table _ _ Hok _ _ Hpt)|apply (tok_table _ _ Hok _ _ Hr)]. }
  cbn [xlate]. rewrite E. destruct (has_bits _ PTE_PRESENT) eqn:Hp; simpl; [|done].
  destruct k as [|k]; [done|].
  set (e := rd (phys_mem s) r (level_index (S (S k)) va)) in *.
  destruct (_ && has_bits e PTE_HUGE); [done|].
  destruct (_ && has_bits e PTE_HUGE) eqn:Hh; [done|].
  assert (link (S (S k)) e = Some (entry_addr e)) as Hlk.
  { unfold link. rewrite Hp. simpl. simpl in Hh. by rewrite Hh. }
  pose proof (tok_child _ _ Hok _ _ _ _ Hr ltac:(lia) Hj Hlk) as Hc.
  rewrite (tables_ok_from_phys _ _ _ _ Hok Hc). apply IH; [done|].
  intros Hre. apply Hne. right. split; [lia|]. by exists (entry_addr e).
Qed.

(** The 48-bit virtual page of an address: the four indices. *)
Definition page_of (va : Z) : Z := (va / 4096) mod 2 ^ 36.

Lemma page_of_indices va1 va2 :
  page_of va1 = page_of va2 ↔ ∀ j, (1 ≤ j ≤ 4)%nat → level_index j va1 = level_index j va2.
Proof.
  assert (∀ va j, (j ≤ 3)%nat → level_index (S j) va = (page_of va / 2 ^ (9 * Z.of_nat j)) mod 512) as H.
  { intros va j Hj. rewrite level_index_val. unfold page_of.
    destruct j as [|[|[|[|]]]]; [..|lia]; simpl; Z.div_mod_to_equations; lia. }
  split.
  - intros E j Hj. destruct j as [|j]; [lia|]. by rewrite !H, E by lia.
  - intros E. assert (0 ≤ page_of va1 < 2 ^ 36 ∧ 0 ≤ page_of va2 < 2 ^ 36) by
      (unfold page_of; split; apply Z.mod_pos_bound; lia).
    pose proof (E 1%nat) as E1. pose proof (E 2%nat) as E2. pose proof (E 3%nat) as E3.
    pose proof (E 4%nat) as E4. rewrite !H in E1, E2, E3, E4 by lia.
    specialize (E1 ltac:(lia)). specialize (E2 ltac:(lia)). specialize (E3 ltac:(lia)).
    specialize (E4 ltac:(lia)). simpl in E1, E2, E3, E4. Z.div_mod_to_equations. lia.
Qed.

Lemma level_index_offset j va : (1 ≤ j)%nat → level_index j va = level_index j (va - va mod 4096).
Proof.
  intros Hj. destruct j as [|j]; [lia|]. rewrite !level_index_val.
  replace ((va - va mod 4096) / 4096) with (va / 4096) by (Z.div_mod_to_equations; lia). done.
Qed.

(** ** Mapping and unmapping *)

Lemma leaf_entry_present pa flags :
  has_bits (Z.lor (Z.lor (entry_addr pa) flags) PTE_PRESENT) PTE_PRESENT = true.
Proof. rewrite present_bit, !Z.lor_spec. change (Z.testbit PTE_PRESENT 0) with true. by rewrite orb_true_r. Qed.

Lemma leaf_entry_addr pa flags :
  entry_addr (Z.lor (Z.lor (entry_addr pa) flags) PTE_PRESENT) =
  Z.lor (entry_addr pa) (entry_addr flags).
Proof.
  unfold entry_addr. rewrite !Z.land_lor_distr_l, <- Z.land_assoc, Z.land_diag.
  change (Z.land PTE_PRESENT _) with 0. by rewrite Z.lor_0_r.
Qed.

Lemma virt_to_phys_root_table s T root va :
  tables_ok s T → T !! root = Some 4%nat →
  virt_to_phys_root (phys_mem s) root va = xlate (phys_mem s) 4 root va.
Proof. intros Hok Hr. rewrite virt_to_phys_xlate. by rewrite (tables_ok_from_phys _ _ _ _ Hok Hr). Qed.

Lemma extends_virt_to_phys s s' T T' root va :
  tables_ok s T → extends s s' T T' → T !! root = Some 4%nat →
  virt_to_phys_root (phys_mem s') root va = virt_to_phys_root (phys_mem s) root va.
Proof.
  intros Hok Hx Hr. rewrite (virt_to_phys_root_table s T) by done.
  rewrite (virt_to_phys_root_table s' T').
  - by apply (ext_xlate _ _ _ _ Hx).
  - apply (ext_ok _ _ _ _ Hx).
  - eapply lookup_weaken; [done|apply (ext_sub _ _ _ _ Hx)].
Qed.

(** A walk reads only the tables above its end and the indices of the address. *)
Lemma reach_frame s T m' k r va va' l t :
  tables_ok s T → T !! r = Some k →
  (∀ t l i, T !! t = Some (S (S l)) → 0 ≤ i < 512 → rd m' t i = rd (phys_mem s) t i) →
  (∀ j, (1 ≤ j ≤ 4)%nat → level_index j va' = level_index j va) →
  reach (phys_mem s) k r va l t → reach m' k r va' l t.
Proof.
  intros Hok Hr Hm Hj. revert r Hr. induction k as [|k IH]; intros r Hr; simpl; [done|].
  intros [?|(Hk & c & Hlk & H)]; [by left|right]. split; [done|]. exists c.
  pose proof (tok_table _ _ Hok _ _ Hr) as [? _].
  pose proof (level_index_range (S k) va) as Hi. rewrite Hj by lia.
  destruct k as [|k]; [lia|]. rewrite (Hm r k) by done. split; [done|].
  apply IH; [|done]. exact (tok_child _ _ Hok _ _ _ _ Hr Hk Hi Hlk).
Qed.

(** Writing the leaf a walk of [va] ends at: the page of [va] translates
    through the new entry, every other page of every address space as before. *)
Lemma leaf_write_translation s T root va pt v (s' := wr pt (pt_index va) v s) :
  tables_ok s T → T !! root = Some 4%nat → reach (phys_mem s) 4 root va 1 pt →
  tables_ok s' T ∧
  (∀ va', page_of va' = page_of va →
     virt_to_phys_root (phys_mem s) root va' =
       (let e := rd (phys_mem s) pt (pt_index va) in
        if has_bits e PTE_PRESENT then Z.lor (entry_addr e) (Z.land va' 0xFFF) else 0) ∧
     virt_to_phys_root (phys_mem s') root va' =
       (if has_bits v PTE_PRESENT then Z.lor (entry_addr v) (Z.land va' 0xFFF) else 0)) ∧
  (∀ root' va', T !! root' = Some 4%nat → root' ≠ root ∨ page_of va' ≠ page_of va →
     virt_to_phys_root (phys_mem s') root' va' = virt_to_phys_root (phys_mem s) root' va').
Proof.
  intros Hok Hr Hre. pose proof (reach_table _ _ _ _ _ _ _ Hok Hr Hre) as Hpt.
  pose proof (level_index_range 1 va) as Hi.
  assert (tables_ok s' T) as Hok' by (by apply leaf_write_ok).
  assert (∀ va', page_of va' = page_of va → reach (phys_mem s) 4 root va' 1 pt ∧
            level_index 1 va' = pt_index va) as Hsame.
  { intros va' E. pose proof (proj1 (page_of_indices _ _) E) as Hj.
    split; [|by apply (Hj 1%nat); lia]. by eapply (reach_frame s T). }
  split; [done|]. split.
  - intros va' E. destruct (Hsame va' E) as [Hre' Hidx].
    assert (reach (phys_mem s') 4 root va' 1 pt) as Hre2.
    { eapply (reach_frame s T (phys_mem s') 4 root va'); try done.
      intros t l i Ht Hi'. apply rd_wr_table; try done; [apply (tok_table _ _ Hok _ _ Hpt)
        |apply (tok_table _ _ Hok _ _ Ht)|congruence]. }
    rewrite (virt_to_phys_root_table s T), (virt_to_phys_root_table s' T) by done.
    rewrite (reach_xlate s T 4 root va' 1 pt), (reach_xlate s' T 4 root va' 1 pt) by done.
    cbn [xlate]. rewrite Hidx. unfold s' at 1 2. rewrite rd_wr_eq.
    split; [destruct (has_bits (rd _ _ _) _)|destruct (has_bits v _)]; done.
  - intros root' va' Hr' Hne.
    rewrite (virt_to_phys_root_table s T), (virt_to_phys_root_table s' T) by done.
    apply (leaf_write_xlate s T); try done. intros Hre' Hidx.
    destruct (reach_unique _ _ _ _ _ _ _ _ _ Hok Hr Hr' Hre Hre') as [<- Hj].
    destruct Hne as [|Hne]; [done|]. apply Hne, page_of_indices. intros j Hj'.
    destruct (decide (j = 1%nat)) as [->|]; [done|]. symmetry. apply Hj. lia.
Qed.

(** Pages leave the free set, and only free pages become tables. *)
Definition grows (s s' : paging) (T T' : gmap Z nat) : Prop :=
  (∀ q, page_free (pg_pmm s') q → page_free (pg_pmm s) q) ∧
  (∀ t, is_Some (T' !! t) → T !! t = None → page_free (pg_pmm s) (t / 4096)).

Lemma extends_grows s s' T T' : extends s s' T T' → grows s s' T T'.
Proof. by intros []. Qed.

Lemma grows_refl s T : grows s s T T.
Proof. split; [done|]. intros t [? ?] ?. congruence. Qed.

(** Every outcome of [map_page_root]: what each page of each address space
    translates to before and after. *)
Lemma map_page_root_spec s T root va pa flags r s' :
  tables_ok s T → T !! root = Some 4%nat → map_page_root root va pa flags s = (r, s') →
  (r = 0 ∨ r = 1 ∨ r = -1) ∧
  ∃ T', T ⊆ T' ∧ tables_ok s' T' ∧ grows s s' T T' ∧
  (∀ root' va', T !! root' = Some 4%nat → r ≠ 0 ∨ root' ≠ root ∨ page_of va' ≠ page_of va →
     virt_to_phys_root (phys_mem s') root' va' = virt_to_phys_root (phys_mem s) root' va') ∧
  (r = 0 → ∀ va', page_of va' = page_of va →
     virt_to_phys_root (phys_mem s) root va' = 0 ∧
     virt_to_phys_root (phys_mem s') root va' =
       Z.lor (Z.lor (entry_addr pa) (entry_addr flags)) (Z.land va' 0xFFF)).
Proof.
  intros Hok Hr. unfold map_page_root. destruct (_ || _).
  { intros [= <- <-]. split; [by right; right|]. exists T. pose proof (grows_refl s T). done. }
  destruct (walk_create_root root va true s) as [o s1] eqn:Ew.
  destruct (walk_create_root_spec _ _ _ _ _ _ _ Hok Hr Ew) as (T' & Hx & _ & Hre).
  assert (∀ root' va', T !! root' = Some 4%nat →
    virt_to_phys_root (phys_mem s1) root' va' = virt_to_phys_root (phys_mem s) root' va') as Hsame
    by (intros; by eapply extends_virt_to_phys).
  assert (∀ x, T !! x = Some 4%nat → T' !! x = Some 4%nat) as Hsub.
  { intros x Hx'. eapply lookup_weaken; [done|apply (ext_sub _ _ _ _ Hx)]. }
  pose proof (extends_grows _ _ _ _ Hx) as Hgr.
  pose proof (ext_ok _ _ _ _ Hx) as Hok1. pose proof (ext_sub _ _ _ _ Hx) as HT.
  destruct o as [pt|]; cycle 1.
  { intros [= <- <-]. split; [by right; right|]. exists T'. repeat (split; [done|]).
    split; [intros; by apply Hsame|done]. }
  specialize (Hre pt eq_refl). destruct (has_bits _ PTE_PRESENT) eqn:Hp.
  { intros [= <- <-]. split; [by right; left|]. exists T'. repeat (split; [done|]).
    split; [intros; by apply Hsame|done]. }
  intros [= <- <-]. split; [by left|].
  destruct (leaf_write_translation s1 T' root va pt
    (Z.lor (Z.lor (entry_addr pa) flags) PTE_PRESENT) Hok1 (Hsub _ Hr) Hre) as (Hok' & Hin & Hout).
  exists T'. split; [done|]. split; [done|]. split; [exact Hgr|]. split.
  - intros root' va' Hr' [?|Hne]; [done|]. rewrite Hout by auto. by apply Hsame.
  - intros _ va' E. destruct (Hin va' E) as [H1 H2].
    cbv zeta in H1. rewrite Hp, Hsame in H1 by done.
    rewrite H1, H2, leaf_entry_present, leaf_entry_addr. done.
Qed.

(** Writing a leaf keeps every walk. *)
Lemma leaf_write_reach s T pt i v root va t :
  tables_ok s T → T !! pt = Some 1%nat → 0 ≤ i < 512 → T !! root = Some 4%nat →
  reach (phys_mem s) 4 root va 1 t → reach (phys_mem (wr pt i v s)) 4 root va 1 t.
Proof.
  intros Hok Hpt Hi Hr. eapply (reach_frame s T); try done.
  intros t' l j Ht' Hj. apply rd_wr_table; try done; [apply (tok_table _ _ Hok _ _ Hpt)
    |apply (tok_table _ _ Hok _ _ Ht')|congruence].
Qed.

(** Mapping keeps every walk that ends at a leaf table, and creates one. *)
Lemma map_page_root_reach s T root va pa flags r s' :
  tables_ok s T → T !! root = Some 4%nat → map_page_root root va pa flags s = (r, s') →
  (∀ root' va' t, T !! root' = Some 4%nat →
     reach (phys_mem s) 4 root' va' 1 t → reach (phys_mem s') 4 root' va' 1 t) ∧
  (r = 0 → ∃ pt, reach (phys_mem s') 4 root va 1 pt).
Proof.
  intros Hok Hr. unfold map_page_root. destruct (_ || _); [by intros [= <- <-]|].
  destruct (walk_create_root root va true s) as [o s1] eqn:Ew.
  destruct (walk_create_root_spec _ _ _ _ _ _ _ Hok Hr Ew) as (T' & Hx & _ & Hre).
  assert (∀ x, T !! x = Some 4%nat → T' !! x = Some 4%nat) as Hsub.
  { intros x Hx'. eapply lookup_weaken; [done|apply (ext_sub _ _ _ _ Hx)]. }
  assert (∀ root' va' t, T !! root' = Some 4%nat →
     reach (phys_mem s) 4 root' va' 1 t → reach (phys_mem s1) 4 root' va' 1 t) as Hk
    by (intros; by eapply reach_extends).
  destruct o as [pt|]; [|by intros [= <- <-]].
  specialize (Hre pt eq_refl). pose proof (ext_ok _ _ _ _ Hx) as Hok1.
  pose proof (reach_table _ _ _ _ _ _ _ Hok1 (Hsub _ Hr) Hre) as Hpt.
  pose proof (level_index_range 1 va) as Hi.
  destruct (has_bits _ PTE_PRESENT); [by intros [= <- <-]|]. intros [= <- <-]. split.
  - intros root' va' t Hr' H. eapply leaf_write_reach; eauto.
  - intros _. exists pt. eapply leaf_write_reach; eauto.
Qed.

(** A walk to a leaf table is found without creating anything. *)
Lemma walk_find s T root va pt :
  tables_ok s T → T !! root = Some 4%nat → reach (phys_mem s) 4 root va 1 pt →
  walk_create_root root va false s = (Some pt, s).
Proof.
  intros Hok Hr Hre. unfold walk_create_root.
  assert (∀ l t c, T !! t = Some (S l) → (1 ≤ l)%nat →
    link (S l) (rd (phys_mem s) t (level_index (S l) va)) = Some c →
    T !! c = Some l ∧ has_bits (rd (phys_mem s) t (level_index (S l) va)) PTE_PRESENT = true ∧
    entry_addr (rd (phys_mem s) t (level_index (S l) va)) = c ∧ table_from_phys c = Some c) as Hstep.
  { intros l t c Ht Hl Hlk. pose proof (level_index_range (S l) va) as Hi.
    pose proof (tok_child _ _ Hok _ _ _ _ Ht Hl Hi Hlk) as Hc. split; [done|].
    unfold link in Hlk. destruct (has_bits _ PTE_PRESENT); [|done]. split; [done|].
    cbn [andb] in Hlk. destruct (negb _); [|done]. injection Hlk as <-. split; [done|].
    by eapply tables_ok_from_phys. }
  destruct Hre as [[? _]|(_ & c3 & L4 & [[? _]|(_ & c2 & L3 & [[? _]|(_ & c1 & L2 & [[_ <-]|(? & _)])])])];
    [done|done|done| |lia].
  destruct (Hstep 3%nat root c3 Hr ltac:(lia) L4) as (T3 & P4 & E4 & F3).
  destruct (Hstep 2%nat c3 c2 T3 ltac:(lia) L3) as (T2 & P3 & E3 & F2).
  destruct (Hstep 1%nat c2 c1 T2 ltac:(lia) L2) as (T1 & P2 & E2 & F1).
  unfold pm_lift, mbind, pm_bind. rewrite (tables_ok_from_phys _ _ _ _ Hok Hr).
  unfold ensure_entry. change (pml4_index va) with (level_index 4 va).
  change (pdpt_index va) with (level_index 3 va). change (pd_index va) with (level_index 2 va).
  rewrite P4. cbn [negb]. rewrite E4, F3, P3. cbn [negb].
  rewrite (tok_no_1g _ _ Hok c3) by (done || auto with nexus).
  rewrite E3, F2, P2. cbn [negb]. unfold ensure_split.
  unfold link in L2. rewrite P2 in L2. cbn in L2. destruct (has_bits _ PTE_HUGE); [done|].
  by rewrite E2, F1.
Qed.

Lemma unmap_page_root_spec s T root va r s' :
  tables_ok s T → T !! root = Some 4%nat → unmap_page_root root va s = (r, s') →
  tables_ok s' T ∧
  ((r = 0 ∧ s' = s) ∨
   (r = 1 ∧ (∀ va', page_of va' = page_of va → virt_to_phys_root (phys_mem s') root va' = 0))) ∧
  (∀ root' va', T !! root' = Some 4%nat → root' ≠ root ∨ page_of va' ≠ page_of va →
     virt_to_phys_root (phys_mem s') root' va' = virt_to_phys_root (phys_mem s) root' va').
Proof.
  intros Hok Hr. unfold unmap_page_root. destruct (negb _).
  { intros [= <- <-]. auto. }
  destruct (walk_create_root root va false s) as [o s1] eqn:Ew.
  destruct (walk_create_root_spec _ _ _ _ _ _ _ Hok Hr Ew) as (T' & Hx & -> & Hre); [|done].
  destruct o as [pt|]; [|intros [= <- <-]; auto].
  specialize (Hre pt eq_refl). destruct (negb _); [intros [= <- <-]; auto|].
  intros [= <- <-].
  destruct (leaf_write_translation s T root va pt 0 Hok Hr Hre) as (Hok' & Hin & Hout).
  split; [done|]. split; [|done]. right. split; [done|]. intros va' E. apply (Hin va' E).
Qed.

(** C5: mapping a page with [paging_map_page_in_cr3] on well-formed page tables keeps them
    well formed. When it reports success the page was unmapped before and now every address
    in it translates to the frame plus its offset, and every other page of that address
    space and every page of every other address space translates as before; when it reports
    a failure (-1) or an existing mapping (1), no translation in any address space changes. *)
Theorem paging_map_page_isolated s T root va pa flags r s' :
  tables_ok s T → T !! root = Some 4%nat → pa mod 4096 = 0 → 0 ≤ pa < 2 ^ 52 → 0 ≤ flags < 4096 →
  paging_map_page_in_cr3 root va pa flags s = (r, s') →
  (r = 0 ∨ r = 1 ∨ r = -1) ∧
  ∃ T', T ⊆ T' ∧ tables_ok s' T' ∧
  ∀ root' va', T !! root' = Some 4%nat →
    if decide (r = 0 ∧ root' = root ∧ page_of va' = page_of va)
    then paging_virt_to_phys_in_cr3 root' va' s = 0 ∧
         paging_virt_to_phys_in_cr3 root' va' s' = pa + va' mod 4096
    else paging_virt_to_phys_in_cr3 root' va' s' = paging_virt_to_phys_in_cr3 root' va' s.
Proof.
  intros Hok Hr Hpa Hpr Hfl Hm.
  destruct (map_page_root_spec _ _ _ _ _ _ _ _ Hok Hr Hm) as (Hres & T' & HT & Hok' & _ & Hout & Hin).
  split; [done|]. exists T'. split; [done|]. split; [done|]. intros root' va' Hr'.
  unfold paging_virt_to_phys_in_cr3. case_decide as Hd.
  - destruct Hd as (Hr0 & -> & Hpg). destruct (Hin Hr0 va' Hpg) as [H1 H2]. split; [done|].
    rewrite H2, !entry_addr_spec by lia. rewrite (Z.mod_small flags) by lia.
    rewrite Hpa, Z.sub_0_r, Z.sub_diag, Z.lor_0_r. change 0xFFF with (2 ^ 12 - 1).
    rewrite land_low_mask, (lor_add_low _ _ 12); try done. apply Z.mod_pos_bound. lia.
  - apply Hout; [done|]. destruct (decide (r = 0)) as [->|]; [right|by left].
    destruct (decide (root' = root)) as [->|]; [right|by left]. tauto.
Qed.

(** Unmapping a page with [paging_unmap_page_in_cr3] on well-formed page tables keeps
    them well formed and allocates nothing: it either reports 0 and changes nothing, or
    reports 1, after which no address of the page translates any more; in both cases every
    other page of the address space, and every other address space, translates as before. *)
Theorem paging_unmap_page_isolated s T root va r s' :
  tables_ok s T → T !! root = Some 4%nat → paging_unmap_page_in_cr3 root va s = (r, s') →
  tables_ok s' T ∧
  ((r = 0 ∧ s' = s) ∨
   (r = 1 ∧ ∀ va', page_of va' = page_of va → paging_virt_to_phys_in_cr3 root va' s' = 0)) ∧
  (∀ root' va', T !! root' = Some 4%nat → root' ≠ root ∨ page_of va' ≠ page_of va →
     paging_virt_to_phys_in_cr3 root' va' s' = paging_virt_to_phys_in_cr3 root' va' s).
Proof. apply unmap_page_root_spec. Qed.

(** The physical address reported for a page mapped with the no-execute flag is not the
    frame: bit 63 of the entry stays in the result, so [paging_virt_to_phys_in_cr3] returns
    the frame plus 2^63 plus the offset. *)
Theorem paging_virt_to_phys_keeps_nx s T root va pa flags s' :
  tables_ok s T → T !! root = Some 4%nat → pa mod 4096 = 0 → 0 ≤ pa < 2 ^ 52 → 0 ≤ flags < 4096 →
  paging_map_page_in_cr3 root va pa (Z.lor PTE_NX flags) s = (0, s') →
  paging_virt_to_phys_in_cr3 root va s' = 2 ^ 63 + pa + va mod 4096.
Proof.
  intros Hok Hr Hpa Hpr Hfl Hm.
  destruct (map_page_root_spec _ _ _ _ _ _ _ _ Hok Hr Hm) as (_ & T' & _ & _ & _ & _ & Hin).
  destruct (Hin eq_refl va eq_refl) as [_ H2]. unfold paging_virt_to_phys_in_cr3. rewrite H2.
  unfold PTE_NX. rewrite (lor_add_low (2 ^ 63) flags 12) by (done || lia).
  rewrite !entry_addr_spec by lia.
  rewrite Hpa, Z.sub_0_r. replace ((2 ^ 63 + flags) mod 4096) with flags by (Z.div_mod_to_equations; lia).
  rewrite Z.add_simpl_r, (Z.lor_comm pa), (lor_add_low (2 ^ 63) pa 52) by (done || lia).
  change 0xFFF with (2 ^ 12 - 1). rewrite land_low_mask by lia.
  change (2 ^ 12) with 4096. rewrite (lor_add_low _ _ 12); [done|lia|apply Z.mod_pos_bound; lia|Z.div_mod_to_equations; lia].
Qed.

(** ** Witnesses: one empty root table outside the free pages of [demo_pmm] *)

Definition demo_root : Z := 0x200000.
Definition demo_paging : paging := mkPaging ∅ demo_pmm (λ _, 0) 0 demo_root.
Definition demo_tables : gmap Z nat := {[ demo_root := 4%nat ]}.

Lemma demo_tables_ok : tables_ok demo_paging demo_tables.
Proof.
  unfold demo_tables. split.
  - apply demo_pmm_wf.
  - intros t l [<- <-]%lookup_singleton_Some. split; [lia|]. split; [done|]. split; [done|].
    intros [_ H]. vm_compute in H. done.
  - intros t l i c [<- [= <-]]%lookup_singleton_Some _ _. unfold rd. simpl. by rewrite lookup_empty.
  - intros t i [_ ?]%lookup_singleton_Some. done.
  - intros t1 t2 l1 l2 i1 i2 c [<- <-]%lookup_singleton_Some _ _ _ _ _.
    unfold rd. simpl. by rewrite lookup_empty.
Qed.

Lemma demo_root_level : demo_tables !! demo_root = Some 4%nat.
Proof. reflexivity. Qed.

Lemma paging_map_page_isolated_witness :
  ∃ s', paging_map_page_in_cr3 demo_root 0x40003000 0x700000 7 demo_paging = (0, s') ∧
  paging_virt_to_phys_in_cr3 demo_root 0x40003123 s' = 0x700123.
Proof.
  destruct (paging_map_page_in_cr3 demo_root 0x40003000 0x700000 7 demo_paging) as [r s'] eqn:E.
  assert (r = 0) as -> by (change r with (r, s').1; rewrite <- E; vm_compute; reflexivity).
  exists s'. split; [reflexivity|].
  destruct (paging_map_page_isolated demo_paging demo_tables demo_root 0x40003000 0x700000 7 0 s' demo_tables_ok demo_root_level
    eq_refl ltac:(lia) ltac:(lia) E) as (_ & T' & _ & _ & H).
  specialize (H demo_root 0x40003123 demo_root_level).
  rewrite decide_True in H by (split; [reflexivity|split; reflexivity]).
  exact (proj2 H).
Defined.

Lemma paging_unmap_page_isolated_witness :
  ∃ s', paging_unmap_page_in_cr3 demo_root 0x5000 demo_paging = (0, s') ∧ tables_ok s' demo_tables.
Proof.
  exists demo_paging. split; [vm_compute; reflexivity|].
  refine (proj1 (paging_unmap_page_isolated demo_paging demo_tables demo_root 0x5000 0 demo_paging
    demo_tables_ok demo_root_level _)).
  vm_compute; reflexivity.
Defined.

Lemma paging_virt_to_phys_keeps_nx_witness :
  ∃ s', paging_map_page_in_cr3 demo_root 0x40003000 0x700000 (Z.lor PTE_NX 7) demo_paging = (0, s') ∧
  paging_virt_to_phys_in_cr3 demo_root 0x40003000 s' = 2 ^ 63 + 0x700000 + 0.
Proof.
  destruct (paging_map_page_in_cr3 demo_root 0x40003000 0x700000 (Z.lor PTE_NX 7) demo_paging)
    as [r s'] eqn:E.
  assert (r = 0) as -> by (change r with (r, s').1; rewrite <- E; vm_compute; reflexivity).
  exists s'. split; [reflexivity|].
  exact (paging_virt_to_phys_keeps_nx demo_paging demo_tables demo_root 0x40003000 0x700000 7 s' demo_tables_ok demo_root_level
    eq_refl ltac:(lia) ltac:(lia) E).
Defined.
