(* ===== verification/Heap.v ===== *)
(** * The kernel heap (src/kernel/mm/heap.c)

    A first-fit allocator over a growing virtual arena: block headers are
    chained in address order, split on allocation and merged on release.
    The pages behind the arena come from an interface, [VmBackend], that
    states what the heap needs of the page allocator and the VMM. *)

From Stdlib Require Import Lia ZArith Bool.
From stdpp Require Import base list gmap sets numbers sorting.
From S2P Require Import Prelude.

Local Open Scope Z_scope.

Module Heap.

(** ** What the heap needs of physical and virtual memory *)

Class VmBackend (V : Type) := {
  vm_alloc_page : V → Z * V;               (* pmm_alloc_page *)
  vm_free_page : Z → V → V;                (* pmm_free_page *)
  vm_map_page : Z → Z → Z → V → bool * V;  (* vmm_map_page *)
  vm_unmap_page : Z → V → V;               (* vmm_unmap_page, its result ignored *)
  vm_virt_to_phys : Z → V → Z;             (* vmm_virt_to_phys *)
  vm_page_size : V → Z;                    (* vmm_page_size *)
  vm_total_pages : V → Z;                  (* pmm_total_pages *)
}.

Definition HEAP_BASE : Z := 0xFFFF800000000000.
Definition HEAP_LIMIT : Z := 0xFFFF900000000000.

Definition in_arena (va : Z) : Prop := HEAP_BASE ≤ va < HEAP_LIMIT.

(** [vm_inv v O]: the backend is in order and its client holds the frames [O];
    [vm_leaf v va]: the page of [va] has a leaf entry, so that it can be
    unmapped on its own. *)
Class VmBackendLaws (V : Type) `{VmBackend V} := {
  vm_inv : V → gset Z → Prop;
  vm_leaf : V → Z → Prop;
  vm_alloc_law v O : vm_inv v O → ∀ r v', vm_alloc_page v = (r, v') →
    (∀ va, vm_virt_to_phys va v' = vm_virt_to_phys va v) ∧
    (∀ va, vm_leaf v va → vm_leaf v' va) ∧
    (r = 0 → vm_inv v' O) ∧
    (r ≠ 0 → (r ∉ O) ∧ (0 < r < 2 ^ 52) ∧ r mod 4096 = 0 ∧ vm_inv v' ({[r]} ∪ O));
  vm_free_law v O a : vm_inv v O → a ∈ O →
    vm_inv (vm_free_page a v) (O ∖ {[a]}) ∧
    (∀ va, vm_leaf v va → vm_leaf (vm_free_page a v) va) ∧
    (∀ va, vm_virt_to_phys va (vm_free_page a v) = vm_virt_to_phys va v);
  vm_map_law v O va pa flags : vm_inv v O → pa ∈ O → va mod 4096 = 0 → in_arena va →
    0 ≤ flags < 4096 →
    ∀ ok v', vm_map_page va pa flags v = (ok, v') →
    vm_inv v' O ∧
    (∀ w, vm_leaf v w → vm_leaf v' w) ∧
    (ok = true → vm_leaf v' va ∧
       ∀ w, in_arena w → w - w mod 4096 = va → vm_virt_to_phys w v = 0) ∧
    (∀ w, in_arena w → vm_virt_to_phys w v' =
       if ok && (w - w mod 4096 =? va) then pa + w mod 4096 else vm_virt_to_phys w v);
  vm_unmap_law v O va : vm_inv v O → va mod 4096 = 0 → in_arena va →
    vm_leaf v va → vm_virt_to_phys va v ≠ 0 →
    vm_inv (vm_unmap_page va v) O ∧
    (∀ w, vm_leaf v w → vm_leaf (vm_unmap_page va v) w) ∧
    (∀ w, in_arena w → vm_virt_to_phys w (vm_unmap_page va v) =
       if w - w mod 4096 =? va then 0 else vm_virt_to_phys w v);
}.

(** ** Constants and state *)

Definition PAGE_SIZE : Z := 4096.
Definition HEAP_ALIGNMENT : Z := 16.
Definition BLOCK_MAGIC : Z := 0x4E58484C424C4B31.
Definition BLOCK_FREE : Z := 0x01.
Definition SIZE_MAX : Z := UINT64_MAX.
Definition VMM_PAGE_PRESENT : Z := 0x001.
Definition VMM_PAGE_WRITABLE : Z := 0x002.

(** Pointers to blocks are addresses; 0 is NULL. *)
Record heap_block_t := mkBlock {
  magic : Z;
  size : Z;
  capacity : Z;
  flags : Z;
  prev : Z;
  next : Z;
}.

#[export] Instance eta_block : Eta heap_block_t := λ r,
  mkBlock (magic r) (size r) (capacity r) (flags r) (prev r) (next r).

(** [sizeof(heap_block_t)] is 48. *)
Definition HEADER_SIZE : Z :=
  Z.land (48 + (HEAP_ALIGNMENT - 1)) (not64 (HEAP_ALIGNMENT - 1)).

(** The static variables of heap.c, the headers in the arena ([hmem]), the
    memory backend and the interrupt flag of RFLAGS. *)
Record heap {V : Type} := mkHeap {
  hmem : gmap Z heap_block_t;
  g_head : Z;
  g_heap_next : Z;
  g_heap_pages : Z;
  g_used_bytes : Z;
  g_free_bytes : Z;
  g_allocations : Z;
  g_corruption_count : Z;
  g_ready : bool;
  h_vm : V;
  rflags_if : bool;
}.
Arguments heap : clear implicits.
Arguments mkHeap {V}.

#[export] Instance eta_heap {V} : Eta (heap V) := λ r,
  mkHeap (hmem r) (g_head r) (g_heap_next r) (g_heap_pages r) (g_used_bytes r)
    (g_free_bytes r) (g_allocations r) (g_corruption_count r) (g_ready r) (h_vm r) (rflags_if r).

(** ** Arithmetic helpers *)

Definition align_up_u64 (value alignment : Z) : Z :=
  let mask := u64 (alignment - 1) in
  if value >? UINT64_MAX - mask then UINT64_MAX
  else Z.land (u64 (value + mask)) (not64 mask).

Definition align_size (size : Z) : Z :=
  let aligned := align_up_u64 size HEAP_ALIGNMENT in
  if (aligned =? UINT64_MAX) || (aligned >? SIZE_MAX) then 0 else aligned.

Definition pages_for_block (payload : Z) : Z :=
  let total := u64 (HEADER_SIZE + payload) in
  u64 (total + PAGE_SIZE - 1) / PAGE_SIZE.

(** The bound of [heap_validate]'s walk; every later walk of the same list is
    shorter. *)
Definition walk_fuel : nat := Z.to_nat 1000002.

Lemma walk_fuel_val : Z.of_nat walk_fuel = 1000002.
Proof. unfold walk_fuel. lia. Qed.

#[global] Opaque walk_fuel.

Section ops.
Context {V : Type} `{VmBackend V}.
Implicit Types (s : heap V).

Definition interrupts_were_enabled s : bool := rflags_if s.
Definition heap_lock s : heap V := s <| rflags_if := false |>.
Definition heap_unlock (restore_interrupts : bool) s : heap V :=
  if restore_interrupts then s <| rflags_if := true |> else s.

(** Header access. *)
Definition NO_BLOCK : heap_block_t := mkBlock 0 0 0 0 0 0.
Definition blk s (a : Z) : heap_block_t := default NO_BLOCK (hmem s !! a).
Definition set_blk (a : Z) (b : heap_block_t) s : heap V := s <| hmem := <[a := b]> (hmem s) |>.

(** The rollback loop of [map_new_pages], for [j] in the given list. *)
Definition unmap_pages (start : Z) (js : list nat) (v : V) : V :=
  foldl (λ v j,
           let va := u64 (start + Z.of_nat j * PAGE_SIZE) in
           let old_phys := vm_virt_to_phys va v in
           if negb (old_phys =? 0)
           then vm_free_page (Z.land old_phys (not64 (PAGE_SIZE - 1))) (vm_unmap_page va v)
           else v) v js.

(** Iterations [i, i + n) of the mapping loop. *)
Fixpoint map_pages_from (start : Z) (i n : nat) (v : V) : bool * V :=
  match n with
  | O => (true, v)
  | S n =>
     let '(phys, v) := vm_alloc_page v in
     if phys =? 0 then (false, unmap_pages start (seq 0 i) v)
     else
       let '(ok, v) := vm_map_page (u64 (start + Z.of_nat i * PAGE_SIZE)) phys
                         (Z.lor VMM_PAGE_PRESENT VMM_PAGE_WRITABLE) v in
       if negb ok then (false, unmap_pages start (seq 0 i) (vm_free_page phys v))
       else map_pages_from start (S i) n v
  end.

Definition map_new_pages (start pages : Z) (v : V) : bool * V :=
  map_pages_from start 0 (Z.to_nat pages) v.

Definition split_block (block requested : Z) s : heap V :=
  let remaining := u64 (capacity (blk s block) - requested) in
  if remaining <? HEADER_SIZE + HEAP_ALIGNMENT then
    set_blk block ((blk s block) <| size := capacity (blk s block) |>) s
  else
    let tail := u64 (block + HEADER_SIZE + requested) in
    let tsize := u64 (remaining - HEADER_SIZE) in
    let s := set_blk tail (mkBlock BLOCK_MAGIC tsize tsize BLOCK_FREE block
                             (next (blk s block))) s in
    let s := if negb (next (blk s tail) =? 0)
             then set_blk (next (blk s tail)) ((blk s (next (blk s tail))) <| prev := tail |>) s
             else s in
    let s := set_blk block ((blk s block) <| next := tail |>) s in
    let s := set_blk block (((blk s block) <| size := requested |>) <| capacity := requested |>) s in
    s <| g_free_bytes := u64 (g_free_bytes s + size (blk s tail)) |>.

Definition merge_with_next (block : Z) s : heap V :=
  let nx := next (blk s block) in
  if (nx =? 0) || negb (has_bits (flags (blk s nx)) BLOCK_FREE) then s
  else
    let s := set_blk block ((blk s block) <| capacity :=
               u64 (capacity (blk s block) + (HEADER_SIZE + capacity (blk s nx))) |>) s in
    let s := set_blk block ((blk s block) <| size := capacity (blk s block) |>) s in
    let s := s <| g_free_bytes := u64 (g_free_bytes s + HEADER_SIZE) |> in
    let s := set_blk block ((blk s block) <| next := next (blk s nx) |>) s in
    if negb (next (blk s block) =? 0)
    then set_blk (next (blk s block)) ((blk s (next (blk s block))) <| prev := block |>) s
    else s.

Definition ptr_in_heap (addr : Z) s : bool := (HEAP_BASE <=? addr) && (addr <? g_heap_next s).

Definition block_basic_valid (block : Z) s : bool :=
  if block =? 0 then false
  else if negb (ptr_in_heap block s) then false
  else
    let b := blk s block in
    if negb (magic b =? BLOCK_MAGIC) then false
    else if (capacity b =? 0) || (size b >? capacity b) then false
    else
      let end_ := u64 (block + HEADER_SIZE + capacity b) in
      if (end_ <? block) || (end_ >? g_heap_next s) then false
      else if negb (prev b =? 0) && negb (ptr_in_heap (prev b) s) then false
      else if negb (next b =? 0) && negb (ptr_in_heap (next b) s) then false
      else true.

(** The walk of [heap_validate]: [Some] of the verdict, [None] never in
    practice (the walk is bounded by [seen]). *)
Fixpoint validate_loop (fuel : nat) (seen : Z) (prv block : Z) s : option bool :=
  if block =? 0 then Some true
  else
    match fuel with
    | O => None
    | S fuel =>
       if seen >? 1000000 then Some false
       else
         let b := blk s block in
         if negb (block_basic_valid block s) || negb (prev b =? prv) then Some false
         else if negb (next b =? 0) && negb (prev (blk s (next b)) =? block) then Some false
         else if negb (Z.land (flags b) (u32 (Z.lnot BLOCK_FREE)) =? 0) then Some false
         else validate_loop fuel (seen + 1) block (next b) s
    end.

Definition corrupt s : heap V := s <| g_corruption_count := u64 (g_corruption_count s + 1) |>.

Definition heap_validate s : option (bool * heap V) :=
  if negb (g_ready s) then Some (false, s)
  else
    match validate_loop walk_fuel 0 0 (g_head s) s with
    | None => None
    | Some false => Some (false, corrupt s)
    | Some true =>
       if negb (g_head s =? 0) && negb (prev (blk s (g_head s)) =? 0)
       then Some (false, corrupt s)
       else Some (true, s)
    end.

Definition heap_init s : heap V :=
  mkHeap (hmem s) 0 HEAP_BASE 0 0 0 0 0
    ((vm_page_size (h_vm s) =? PAGE_SIZE) && negb (vm_total_pages (h_vm s) =? 0))
    (h_vm s) (rflags_if s).

(** First fit: the block found, or 0; [None] when the walk does not end. *)
Fixpoint first_fit (fuel : nat) (requested block : Z) s : option Z :=
  if block =? 0 then Some 0
  else
    match fuel with
    | O => None
    | S fuel =>
       let b := blk s block in
       if has_bits (flags b) BLOCK_FREE && (capacity b >=? requested) then Some block
       else first_fit fuel requested (next b) s
    end.

(** [while (tail->next != NULL) tail = tail->next;] *)
Fixpoint find_tail (fuel : nat) (tail : Z) s : option Z :=
  if next (blk s tail) =? 0 then Some tail
  else match fuel with O => None | S fuel => find_tail fuel (next (blk s tail)) s end.

(** The body of the first-fit loop for the block that fits. *)
Definition take_block (block requested : Z) s : heap V :=
  let s := s <| g_free_bytes := u64 (g_free_bytes s - capacity (blk s block)) |> in
  let s := set_blk block ((blk s block) <| flags :=
             Z.land (flags (blk s block)) (u32 (Z.lnot BLOCK_FREE)) |>) s in
  let s := set_blk block ((blk s block) <| size := requested |>) s in
  let s := split_block block requested s in
  let s := s <| g_used_bytes := u64 (g_used_bytes s + requested) |> in
  s <| g_allocations := u64 (g_allocations s + 1) |>.

(** The growth path of [kmalloc]: the address of the new block or 0. *)
Definition grow (requested : Z) s : option (Z * heap V) :=
  let pages := pages_for_block requested in
  let cap := u64 (pages * PAGE_SIZE - HEADER_SIZE) in
  if (pages =? 0) || (cap <? requested) || (g_heap_next s >? HEAP_LIMIT) ||
     (pages >? (HEAP_LIMIT - g_heap_next s) / PAGE_SIZE)
  then Some (0, s)
  else
    let block := g_heap_next s in
    let '(ok, v) := map_new_pages block pages (h_vm s) in
    let s := s <| h_vm := v |> in
    if negb ok then Some (0, s)
    else
      let s := set_blk block (mkBlock BLOCK_MAGIC requested cap 0 0 0) s in
      match (if g_head s =? 0 then Some (s <| g_head := block |>)
             else
               match find_tail walk_fuel (g_head s) s with
               | None => None
               | Some tail =>
                  let s := set_blk tail ((blk s tail) <| next := block |>) s in
                  Some (set_blk block ((blk s block) <| prev := tail |>) s)
               end) with
      | None => None
      | Some s =>
         let s := s <| g_heap_next := u64 (g_heap_next s + pages * PAGE_SIZE) |> in
         let s := s <| g_heap_pages := u64 (g_heap_pages s + pages) |> in
         let s := s <| g_used_bytes := u64 (g_used_bytes s + requested) |> in
         let s := s <| g_allocations := u64 (g_allocations s + 1) |> in
         Some (block, s)
      end.

(** [None]: the call does not return. *)
Definition kmalloc (sz : Z) s : option (Z * heap V) :=
  if negb (g_ready s) || (sz =? 0) then Some (0, s)
  else
    let requested := align_size sz in
    if requested =? 0 then Some (0, s)
    else
      let restore_if := interrupts_were_enabled s in
      let s := heap_lock s in
      match heap_validate s with
      | None => None
      | Some (false, s) => Some (0, heap_unlock restore_if s)
      | Some (true, s) =>
         match first_fit walk_fuel requested (g_head s) s with
         | None => None
         | Some block =>
            if negb (block =? 0) then
              Some (u64 (block + HEADER_SIZE),
                    heap_unlock restore_if (take_block block requested s))
            else
              match grow requested s with
              | None => None
              | Some (block, s) =>
                 Some (if block =? 0 then 0 else u64 (block + HEADER_SIZE),
                       heap_unlock restore_if s)
              end
         end
      end.

(** The update part of [kfree] for a block that passed the checks: the flag
    and the counters, then the two merges. *)
Definition mark_released (block : Z) s : heap V :=
  let s := set_blk block ((blk s block) <| flags := Z.lor (flags (blk s block)) BLOCK_FREE |>) s in
  let s := if g_used_bytes s >=? size (blk s block)
           then s <| g_used_bytes := u64 (g_used_bytes s - size (blk s block)) |> else s in
  let s := s <| g_free_bytes := u64 (g_free_bytes s + capacity (blk s block)) |> in
  if negb (g_allocations s =? 0)
  then s <| g_allocations := u64 (g_allocations s - 1) |> else s.

Definition release_block (block : Z) s : heap V :=
  let s := mark_released block s in
  let s := merge_with_next block s in
  let prv := prev (blk s block) in
  if negb (prv =? 0) && has_bits (flags (blk s prv)) BLOCK_FREE
  then merge_with_next prv s else s.

Definition kfree (ptr : Z) s : option (heap V) :=
  if negb (g_ready s) || (ptr =? 0) then Some s
  else if (ptr <? HEAP_BASE + HEADER_SIZE) || (ptr >=? g_heap_next s) then Some s
  else
    let block := ptr - HEADER_SIZE in
    let bad s := negb (magic (blk s block) =? BLOCK_MAGIC) ||
                 has_bits (flags (blk s block)) BLOCK_FREE in
    if bad s then Some s
    else
      let restore_if := interrupts_were_enabled s in
      let s := heap_lock s in
      match heap_validate s with
      | None => None
      | Some (false, s) => Some (heap_unlock restore_if s)
      | Some (true, s) =>
         if bad s then Some (heap_unlock restore_if s)
         else Some (heap_unlock restore_if (release_block block s))
      end.

Definition heap_is_ready s : bool := g_ready s.
Definition heap_virtual_end s : Z := g_heap_next s.
Definition heap_mapped_pages s : Z := g_heap_pages s.
Definition heap_used_bytes s : Z := g_used_bytes s.
Definition heap_free_bytes s : Z := g_free_bytes s.
Definition heap_allocations s : Z := g_allocations s.
Definition heap_corruption_count s : Z := g_corruption_count s.
End ops.

(** ** The block list

    Abstractly the arena is a list of blocks laid out from [HEAP_BASE]. *)

Record ablock := mkAblock { a_size : Z; a_cap : Z; a_free : bool }.

Definition ablock_ok (b : ablock) : Prop :=
  16 ≤ a_cap b ∧ a_cap b mod 16 = 0 ∧ 0 < a_size b ≤ a_cap b.

Definition hdr (p n : Z) (b : ablock) : heap_block_t :=
  mkBlock BLOCK_MAGIC (a_size b) (a_cap b) (if a_free b then 1 else 0) p n.

Definition span (l : list ablock) : Z := foldr (λ b n, 48 + a_cap b + n) 0 l.

(** The headers of [l] are laid out from address [a] to [fin]; the first
    block has [prev = p], the last one [next = q]. *)
Fixpoint seg (m : gmap Z heap_block_t) (p a : Z) (l : list ablock) (q fin : Z) : Prop :=
  match l with
  | [] => a = fin
  | b :: l' =>
     ablock_ok b ∧
     m !! a = Some (hdr p (match l' with [] => q | _ => a + 48 + a_cap b end) b) ∧
     seg m a (a + 48 + a_cap b) l' q fin
  end.

(** The address of the last block, [p] when there is none. *)
Fixpoint last_addr (p a : Z) (l : list ablock) : Z :=
  match l with [] => p | b :: l' => last_addr a (a + 48 + a_cap b) l' end.

Lemma seg_fin m p a l q fin : seg m p a l q fin → fin = a + span l.
Proof.
  revert p a. induction l as [|b l IH]; intros p a; simpl; [lia|].
  intros (_ & _ & H). apply IH in H. lia.
Qed.

Lemma seg_span m p a l q fin : seg m p a l q fin → 64 * Z.of_nat (length l) ≤ span l.
Proof.
  revert p a. induction l as [|b l IH]; intros p a; simpl; [lia|].
  intros ((? & _) & _ & Hs). apply IH in Hs. lia.
Qed.

Lemma seg_frame m m' p a l q fin :
  (∀ x, a ≤ x < fin → m' !! x = m !! x) → seg m p a l q fin → seg m' p a l q fin.
Proof.
  intros Hm Hs. revert p a Hm Hs. induction l as [|b l IH]; intros p a Hm; [done|].
  simpl. intros (Hb & Ha & Hs). pose proof (seg_fin _ _ _ _ _ _ Hs).
  pose proof (seg_span _ _ _ _ _ _ Hs). destruct Hb as (? & ? & ?).
  split; [done|]. split; [rewrite Hm; [done|lia]|]. apply IH; [|done]. intros x ?. apply Hm. lia.
Qed.

Lemma seg_app m p a l1 l2 q fin :
  seg m p a (l1 ++ l2) q fin ↔
  seg m p a l1 (match l2 with [] => q | _ => a + span l1 end) (a + span l1) ∧
  seg m (last_addr p a l1) (a + span l1) l2 q fin.
Proof.
  revert p a. induction l1 as [|b l1 IH]; intros p a; simpl.
  { rewrite Z.add_0_r. destruct l2; simpl; naive_solver. }
  replace (a + (48 + a_cap b + span l1)) with (a + 48 + a_cap b + span l1) by lia.
  rewrite IH. destruct l1 as [|b1 l1]; simpl; [|tauto].
  replace (a + 48 + a_cap b + 0) with (a + 48 + a_cap b) by lia. destruct l2; simpl; tauto.
Qed.

(** Changing the back pointer of the first block, and the forward pointer of
    the last one. *)
Lemma seg_set_prev m p p' a b l q fin :
  seg m p a (b :: l) q fin →
  seg (<[a := hdr p' (match l with [] => q | _ => a + 48 + a_cap b end) b]> m) p' a (b :: l) q fin.
Proof.
  simpl. intros (Hb & Ha & Hs). pose proof Hb as (? & _). split; [done|].
  split; [by rewrite lookup_insert_eq|]. eapply seg_frame; [|done].
  intros x ?. rewrite lookup_insert_ne; [done|lia].
Qed.

Lemma seg_last m p a l b q fin :
  seg m p a (l ++ [b]) q fin → m !! (a + span l) = Some (hdr (last_addr p a l) q b).
Proof. rewrite seg_app. simpl. tauto. Qed.

Lemma seg_set_next m p a l b q q' fin :
  seg m p a (l ++ [b]) q fin →
  seg (<[a + span l := hdr (last_addr p a l) q' b]> m) p a (l ++ [b]) q' fin.
Proof.
  rewrite !seg_app. simpl. intros (H1 & Hb & _ & Hf). split.
  - eapply seg_frame; [|done]. intros x ?. rewrite lookup_insert_ne; [done|lia].
  - by rewrite lookup_insert_eq.
Qed.

Lemma last_addr_app p a l b : last_addr p a (l ++ [b]) = a + span l.
Proof.
  revert p a. induction l as [|b' l IH]; intros p a; simpl; [lia|]. rewrite IH. lia.
Qed.

(** Accounting. *)
Definition free_bytes (l : list ablock) : Z :=
  foldr (λ b n, (if a_free b then a_cap b else 0) + n) 0 l.
Definition n_live (l : list ablock) : Z := foldr (λ b n, (if a_free b then 0 else 1) + n) 0 l.

(** No two neighbours are both free. *)
Definition head_free (l : list ablock) : bool := match l with b :: _ => a_free b | [] => false end.
Fixpoint last_free (l : list ablock) : bool :=
  match l with [] => false | [b] => a_free b | _ :: l' => last_free l' end.
Fixpoint no_adj (l : list ablock) : Prop :=
  match l with [] => True | b :: l' => a_free b && head_free l' = false ∧ no_adj l' end.

Lemma no_adj_app l1 l2 :
  no_adj (l1 ++ l2) ↔ no_adj l1 ∧ no_adj l2 ∧ last_free l1 && head_free l2 = false.
Proof.
  induction l1 as [|b l1 IH]; simpl; [tauto|]. rewrite IH.
  destruct l1 as [|b1 l1]; simpl; [rewrite andb_false_r|]; tauto.
Qed.

Lemma last_free_snoc l b : last_free (l ++ [b]) = a_free b.
Proof. induction l as [|b1 [|b2 l] IH]; done. Qed.

Lemma span_app l1 l2 : span (l1 ++ l2) = span l1 + span l2.
Proof. induction l1; simpl; lia. Qed.
Lemma free_bytes_app l1 l2 : free_bytes (l1 ++ l2) = free_bytes l1 + free_bytes l2.
Proof. induction l1; simpl; lia. Qed.
Lemma n_live_app l1 l2 : n_live (l1 ++ l2) = n_live l1 + n_live l2.
Proof. induction l1; simpl; lia. Qed.
Lemma n_live_bound l : 0 ≤ n_live l ≤ Z.of_nat (length l).
Proof. induction l as [|b l IH]; simpl; [lia|]. destruct (a_free b); lia. Qed.

Lemma free_bytes_bound m p a l q fin : seg m p a l q fin → 0 ≤ free_bytes l ≤ span l.
Proof.
  revert p a. induction l as [|b l IH]; intros p a; simpl; [lia|].
  intros ((? & _) & _ & Hs). apply IH in Hs. destruct (a_free b); lia.
Qed.

Lemma arena_bounds : HEAP_BASE = 0xFFFF800000000000 ∧ HEAP_LIMIT = 0xFFFF900000000000.
Proof. done. Qed.

Lemma HEADER_SIZE_val : HEADER_SIZE = 48.
Proof. reflexivity. Qed.

Section rep.
Context {V : Type} `{VmBackend V}.
Implicit Types (s : heap V) (l : list ablock).

Record heap_rep s l : Prop := {
  hr_ready : g_ready s = true;
  hr_seg : seg (hmem s) 0 HEAP_BASE l 0 (g_heap_next s);
  hr_head : g_head s = match l with [] => 0 | _ => HEAP_BASE end;
  hr_limit : g_heap_next s ≤ HEAP_LIMIT;
  hr_page : g_heap_next s mod 4096 = 0;
  hr_free : g_free_bytes s = free_bytes l;
  hr_allocs : g_allocations s = n_live l;
  hr_adj : no_adj l;
}.

(** *** Validation accepts every represented heap of at most 1000001 blocks *)

Lemma block_valid s p a b l n fin :
  HEAP_BASE ≤ a → g_heap_next s ≤ HEAP_LIMIT → fin ≤ g_heap_next s →
  (p = 0 ∨ HEAP_BASE ≤ p < a) → (n = 0 ∨ a < n < fin) →
  ablock_ok b → hmem s !! a = Some (hdr p n b) → a + 48 + a_cap b + span l = fin → 0 ≤ span l →
  block_basic_valid a s = true.
Proof.
  intros Ha Hl Hf Hp Hn (? & ? & ?) Hm Hfin Hsp. unfold HEAP_BASE, HEAP_LIMIT in *.
  unfold block_basic_valid, blk, ptr_in_heap, HEAP_BASE. rewrite Hm. simpl.
  rewrite HEADER_SIZE_val, u64_small by lia.
  branch; lia.
Qed.

Lemma validate_seg s fuel seen p a l :
  g_heap_next s ≤ HEAP_LIMIT → HEAP_BASE ≤ a → (p = 0 ∨ HEAP_BASE ≤ p < a) →
  seg (hmem s) p a l 0 (g_heap_next s) → seen + Z.of_nat fuel = 1000002 → 0 ≤ seen ≤ 1000001 →
  validate_loop fuel seen p (match l with [] => 0 | _ => a end) s =
  Some (seen + Z.of_nat (length l) <=? 1000001).
Proof.
  intros Hl. revert seen p a l. induction fuel as [|fuel IH]; intros seen p a l Ha Hp Hs Hf Hsn.
  { lia. }
  destruct l as [|b l]; simpl.
  { rewrite (proj2 (Z.leb_le _ _)) by lia. done. }
  rewrite (proj2 (Z.eqb_neq a 0)) by (unfold HEAP_BASE in *; lia).
  simpl in Hs. destruct Hs as (Hb & Hm & Hs).
  rewrite Z.gtb_ltb. destruct (Z.ltb_spec 1000000 seen).
  { by rewrite (proj2 (Z.leb_gt _ _)) by lia. }
  pose proof (seg_fin _ _ _ _ _ _ Hs) as Hfin. pose proof (seg_span _ _ _ _ _ _ Hs) as Hsp.
  pose proof Hb as (Hc & _). set (n := match l with [] => 0 | _ => _ end) in Hm.
  assert (n = 0 ∨ a < n < g_heap_next s) as Hn.
  { subst n. destruct l; [by left|right]. cbn [length] in Hsp. lia. }
  rewrite (block_valid s p a b l n (g_heap_next s)) by (done || lia).
  unfold blk. rewrite Hm. simpl. rewrite Z.eqb_refl. simpl.
  assert (negb (n =? 0) && negb (prev (default NO_BLOCK (hmem s !! n)) =? a) = false) as ->.
  { subst n. destruct l as [|b2 l]; [done|]. simpl in Hs. destruct Hs as (_ & -> & _).
    simpl. rewrite Z.eqb_refl. apply andb_false_r. }
  assert (Z.land (if a_free b then 1 else 0) (u32 (Z.lnot BLOCK_FREE)) = 0) as -> by (by destruct (a_free b)).
  simpl. replace (seen + Z.of_nat (S (length l))) with (seen + 1 + Z.of_nat (length l)) by lia.
  rewrite <- (IH (seen + 1) a (a + 48 + a_cap b) l) by (done || lia).
  subst n. by destruct l.
Qed.

Definition MAX_BLOCKS : Z := 1000001.

Lemma heap_validate_rep s l :
  heap_rep s l →
  heap_validate s = Some (if Z.of_nat (length l) <=? MAX_BLOCKS then (true, s) else (false, corrupt s)).
Proof.
  intros [Hr Hs Hh Hl _ _ _ _]. unfold heap_validate. rewrite Hr, Hh. pose proof walk_fuel_val.
  rewrite (validate_seg s walk_fuel 0 0 HEAP_BASE l) by (assumption || lia).
  rewrite Z.add_0_l. fold MAX_BLOCKS. destruct (_ <=? _); [|done].
  destruct l as [|b l]; [done|]. simpl in Hs. destruct Hs as (_ & Hm & _).
  unfold blk. by rewrite Hm.
Qed.

(** *** First fit *)

Definition fits (req : Z) (b : ablock) : bool := a_free b && (a_cap b >=? req).

(** The list split at the first block that fits. *)
Fixpoint split_fit (req : Z) l : option (list ablock * ablock * list ablock) :=
  match l with
  | [] => None
  | b :: l => if fits req b then Some ([], b, l)
              else match split_fit req l with
                   | Some (l1, b', l2) => Some (b :: l1, b', l2)
                   | None => None
                   end
  end.

Lemma split_fit_Some req l l1 b l2 :
  split_fit req l = Some (l1, b, l2) →
  l = l1 ++ b :: l2 ∧ fits req b = true ∧ Forall (λ b, fits req b = false) l1.
Proof.
  revert l1. induction l as [|b0 l IH]; intros l1; simpl; [done|].
  destruct (fits req b0) eqn:E; [by intros [= <- <- <-]|].
  destruct (split_fit req l) as [[[l1' b'] l2']|]; [|done]. intros [= <- -> ->].
  destruct (IH l1' eq_refl) as (-> & ? & ?). auto.
Qed.

Lemma split_fit_None req l : split_fit req l = None → Forall (λ b, fits req b = false) l.
Proof.
  induction l as [|b0 l IH]; simpl; [done|].
  destruct (fits req b0) eqn:E; [done|].
  destruct (split_fit req l) as [[[l1' b'] l2']|]; [done|]. auto.
Qed.

Lemma first_fit_seg s fuel req p a l fin :
  0 < a → seg (hmem s) p a l 0 fin → (length l ≤ fuel)%nat →
  first_fit fuel req (match l with [] => 0 | _ => a end) s =
  Some (match split_fit req l with Some (l1, _, _) => a + span l1 | None => 0 end).
Proof.
  revert p a l. induction fuel as [|fuel IH]; intros p a l Ha Hs Hf.
  { destruct l; [done|simpl in Hf; lia]. }
  destruct l as [|b l]; [done|]. simpl in Hs, Hf. destruct Hs as (Hb & Hm & Hs).
  cbn [first_fit]. rewrite (proj2 (Z.eqb_neq a 0)) by lia. unfold blk. rewrite Hm. simpl.
  assert (has_bits (if a_free b then 1 else 0) BLOCK_FREE = a_free b) as -> by (by destruct (a_free b)).
  fold (fits req b). destruct (fits req b); [simpl; f_equal; lia|].
  pose proof Hb as (? & _).
  rewrite (IH a (a + 48 + a_cap b) l) by (done || lia).
  destruct (split_fit req l) as [[[l1 b'] l2]|]; simpl; [f_equal; lia|done].
Qed.

Lemma find_tail_seg s fuel p a l b fin :
  0 < a → seg (hmem s) p a (l ++ [b]) 0 fin → (length l ≤ fuel)%nat →
  find_tail fuel a s = Some (a + span l).
Proof.
  revert p a l. induction fuel as [|fuel IH]; intros p a l Ha Hs Hf;
    destruct l as [|b1 l]; simpl in Hs, Hf; try lia; destruct Hs as (Hb & Hm & Hs);
    pose proof Hb as (? & _); cbn [find_tail]; unfold blk; rewrite Hm; simpl.
  1-2: f_equal; lia.
  assert ((match l ++ [b] with [] => 0 | _ => a + 48 + a_cap b1 end) = a + 48 + a_cap b1) as ->
    by (by destruct l).
  rewrite (proj2 (Z.eqb_neq _ 0)) by lia.
  rewrite (IH a (a + 48 + a_cap b1) l) by (done || lia). f_equal. lia.
Qed.

(** *** Taking a free block *)

Definition taken (req : Z) (b : ablock) : list ablock :=
  if a_cap b - req <? 64 then [mkAblock (a_cap b) (a_cap b) false]
  else [mkAblock req req false; mkAblock (a_cap b - req - 48) (a_cap b - req - 48) true].

Definition next_ptr (a : Z) (b : ablock) l : Z := match l with [] => 0 | _ => a + 48 + a_cap b end.

(** The part of the list that ends where the update starts is untouched. *)
Lemma seg_replace m m' p a l1 r r' fin :
  seg m p a (l1 ++ r) 0 fin → r ≠ [] → r' ≠ [] →
  (∀ x, a ≤ x < a + span l1 → m' !! x = m !! x) →
  seg m' (last_addr p a l1) (a + span l1) r' 0 fin → seg m' p a (l1 ++ r') 0 fin.
Proof.
  intros [H1 _]%seg_app Hr Hr' Hm H2. apply seg_app. split; [|done].
  destruct r, r'; try done. eapply seg_frame; done.
Qed.

Lemma taken_facts req b :
  a_free b = true → 16 ≤ req ≤ a_cap b → taken req b ≠ [] ∧ span (taken req b) = 48 + a_cap b ∧
  n_live (taken req b) = 1 ∧ last_free (taken req b) = (64 <=? a_cap b - req) ∧
  head_free (taken req b) = false ∧ no_adj (taken req b) ∧
  free_bytes (taken req b) = if a_cap b - req <? 64 then 0 else a_cap b - req - 48.
Proof.
  intros Hf Hr. unfold taken. destruct (Z.ltb_spec (a_cap b - req) 64); simpl.
  - rewrite (proj2 (Z.leb_gt _ _)) by lia. repeat split; lia || done.
  - rewrite (proj2 (Z.leb_le _ _)) by lia. repeat split; lia || done.
Qed.

Lemma blk_Some s a b : hmem s !! a = Some b → blk s a = b.
Proof. intros E. unfold blk. by rewrite E. Qed.
Lemma blk_set_eq s a b : blk (set_blk a b s) a = b.
Proof. unfold blk, set_blk. simpl. by rewrite lookup_insert_eq. Qed.
Lemma blk_set_ne s a a' b : a ≠ a' → blk (set_blk a b s) a' = blk s a'.
Proof. intros. unfold blk, set_blk. simpl. by rewrite lookup_insert_ne. Qed.
Lemma set_set s a b b' : set_blk a b (set_blk a b' s) = set_blk a b s.
Proof. unfold set_blk. simpl. unfold set_field. f_equal. apply insert_insert_eq. Qed.
Lemma set_comm s a a' b b' : a ≠ a' → set_blk a b (set_blk a' b' s) = set_blk a' b' (set_blk a b s).
Proof. intros. unfold set_blk. simpl. unfold set_field. f_equal. by apply insert_insert_ne. Qed.

(** The forward neighbour's back pointer is redirected to [t]. *)
Definition relink (t nx : Z) (l : list ablock) s : heap V :=
  match l with [] => s | b :: l => set_blk nx (hdr t (next_ptr nx b l) b) s end.

Lemma split_block_small s a b p n req :
  hmem s !! a = Some (hdr p n b) → 0 ≤ a_cap b - req < 64 →
  split_block a req s = set_blk a (hdr p n (mkAblock (a_cap b) (a_cap b) (a_free b))) s.
Proof.
  intros E%blk_Some Hc. unfold split_block. rewrite E. simpl.
  rewrite HEADER_SIZE_val, u64_small by lia. change (48 + HEAP_ALIGNMENT) with 64.
  by rewrite (proj2 (Z.ltb_lt _ _)) by lia.
Qed.

Lemma split_block_big s a b p l2 req fin (t := a + 48 + req) (nx := a + 48 + a_cap b) :
  0 < a → seg (hmem s) p a (b :: l2) 0 fin → fin ≤ HEAP_LIMIT → 0 ≤ req → 64 ≤ a_cap b - req →
  let sz := a_cap b - req - 48 in
  split_block a req s =
    (set_blk a (hdr p t (mkAblock req req (a_free b)))
      (relink t nx l2 (set_blk t (hdr a (next_ptr a b l2) (mkAblock sz sz true)) s)))
    <| g_free_bytes := u64 (g_free_bytes s + sz) |>.
Proof.
  intros Ha (Hb & Hm & Hs) Hfin Hr Hc sz. pose proof (seg_fin _ _ _ _ _ _ Hs).
  pose proof (seg_span _ _ _ _ _ _ Hs). unfold HEAP_LIMIT in *. pose proof Hb as (? & _).
  fold (next_ptr a b l2) in Hm. unfold split_block. rewrite (blk_Some _ _ _ Hm). simpl.
  rewrite HEADER_SIZE_val, (u64_small (a_cap b - req)) by lia.
  change (48 + HEAP_ALIGNMENT) with 64. rewrite (proj2 (Z.ltb_ge _ _)) by lia.
  rewrite (u64_small (a + 48 + req)), (u64_small (a_cap b - req - 48)) by lia. fold t sz.
  rewrite !blk_set_eq. simpl.
  set (s1 := set_blk t _ s).
  assert ((if negb (next_ptr a b l2 =? 0)
           then set_blk (next_ptr a b l2) ((blk s1 (next_ptr a b l2)) <| prev := t |>) s1
           else s1) = relink t nx l2 s1) as ->.
  { destruct l2 as [|b2 l2]; [done|]. simpl. fold nx. simpl in Hs. destruct Hs as (_ & Hm2 & _).
    rewrite (proj2 (Z.eqb_neq _ _)) by lia. simpl. f_equal. unfold s1.
    rewrite blk_set_ne by lia. fold nx in Hm2. by rewrite (blk_Some _ _ _ Hm2). }
  assert (blk (relink t nx l2 s1) a = hdr p (next_ptr a b l2) b) as Ea.
  { assert (blk s1 a = hdr p (next_ptr a b l2) b)
      by (unfold s1; rewrite blk_set_ne by lia; by apply blk_Some).
    destruct l2; simpl; [done|]. rewrite blk_set_ne by lia. done. }
  rewrite Ea. simpl. rewrite set_set, blk_set_ne by lia.
  assert (blk (relink t nx l2 s1) t = hdr a (next_ptr a b l2) (mkAblock sz sz true)) as Et.
  { destruct l2; simpl; [|rewrite blk_set_ne by lia]; unfold s1; by rewrite blk_set_eq. }
  rewrite Et. simpl. destruct l2; reflexivity.
Qed.

(** The list after a split. *)
Lemma seg_split s p a b l2 fin req (t := a + 48 + req) (sz := a_cap b - req - 48) :
  0 < a → seg (hmem s) p a (b :: l2) 0 fin → 16 ≤ req → req mod 16 = 0 → 64 ≤ a_cap b - req →
  seg (hmem (set_blk a (hdr p t (mkAblock req req false))
              (relink t (a + 48 + a_cap b) l2
                 (set_blk t (hdr a (next_ptr a b l2) (mkAblock sz sz true)) s))))
    p a (mkAblock req req false :: mkAblock sz sz true :: l2) 0 fin.
Proof.
  intros Ha (Hb & Hm & Hs) Hr Hr16 Hc. destruct Hb as (? & Hb16 & ?).
  split; [repeat split; simpl; (done || lia)|]. split; [by apply lookup_insert_eq|].
  split; [repeat split; simpl; try lia; subst sz; Z.div_mod_to_equations; lia|].
  cbn [a_cap]. replace (a + 48 + req + 48 + sz) with (a + 48 + a_cap b) by (subst sz; lia).
  destruct l2 as [|b3 l3]; simpl.
  - rewrite lookup_insert_ne by lia. split; [apply lookup_insert_eq|]. exact Hs.
  - rewrite !lookup_insert_ne by lia. split; [apply lookup_insert_eq|].
    eapply (seg_frame _ _ _ _ (b3 :: l3)); [|eapply (seg_set_prev _ _ t); exact Hs].
    intros x Hx. rewrite (lookup_insert_ne _ a) by lia. unfold next_ptr.
    destruct (decide (x = a + 48 + a_cap b)) as [->|]; [by rewrite !lookup_insert_eq|].
    by rewrite !lookup_insert_ne by lia.
Qed.

Lemma take_block_stage s a b p n req :
  hmem s !! a = Some (hdr p n b) → a_free b = true →
  take_block a req s =
  (let s1 := set_blk a (hdr p n (mkAblock req (a_cap b) false))
               (s <| g_free_bytes := u64 (g_free_bytes s - a_cap b) |>) in
   let s2 := split_block a req s1 in
   (s2 <| g_used_bytes := u64 (g_used_bytes s2 + req) |>)
     <| g_allocations := u64 (g_allocations s2 + 1) |>).
Proof.
  intros E%blk_Some Hf. unfold take_block. cbv zeta. rewrite E.
  set (s0 := s <| g_free_bytes := _ |>). assert (blk s0 a = hdr p n b) as -> by exact E.
  rewrite blk_set_eq, set_set. simpl. rewrite Hf. reflexivity.
Qed.

(** The memory after the first-fit branch. *)
Lemma take_block_seg s l1 b l2 req (a := HEAP_BASE + span l1) (s' := take_block a req s) :
  heap_rep s (l1 ++ b :: l2) → a_free b = true → 16 ≤ req ≤ a_cap b → req mod 16 = 0 →
  seg (hmem s') 0 HEAP_BASE (l1 ++ taken req b ++ l2) 0 (g_heap_next s) ∧
  g_free_bytes s' = u64 (u64 (g_free_bytes s - a_cap b) + free_bytes (taken req b)) ∧
  g_allocations s' = u64 (g_allocations s + 1) ∧ g_used_bytes s' = u64 (g_used_bytes s + req) ∧
  g_ready s' = g_ready s ∧ g_head s' = g_head s ∧ g_heap_next s' = g_heap_next s ∧
  h_vm s' = h_vm s ∧ rflags_if s' = rflags_if s.
Proof.
  intros [_ Hs _ Hl _ _ _ _] Hf Hr Hr16.
  pose proof Hs as [H1 H2]%seg_app. fold a in H1, H2. pose proof (seg_span _ _ _ _ _ _ H1).
  assert (0 < a) as Ha by (subst a; unfold HEAP_BASE; lia).
  pose proof H2 as (Hb & Hm & H3). fold (next_ptr a b l2) in Hm. pose proof Hb as (? & ? & ?).
  destruct (taken_facts req b Hf Hr) as (Hne & _ & _ & _ & _ & _ & Hfb).
  subst s'. rewrite (take_block_stage s a b _ _ req Hm Hf), Hfb. cbv zeta.
  set (s1 := set_blk a _ _). set (b1 := mkAblock req (a_cap b) false) in *.
  assert (hmem s1 !! a = Some (hdr (last_addr 0 HEAP_BASE l1) (next_ptr a b l2) b1)) as Hm1
    by (apply lookup_insert_eq).
  assert (∀ m', (∀ x, x < a → m' !! x = hmem s !! x) →
    seg m' (last_addr 0 HEAP_BASE l1) a (taken req b ++ l2) 0 (g_heap_next s) →
    seg m' 0 HEAP_BASE (l1 ++ taken req b ++ l2) 0 (g_heap_next s)) as Hglue.
  { intros m' Hm' Hs'. eapply seg_replace; [exact Hs|done|by destruct (taken req b)| |done]. intros x ?. apply Hm'. lia. }
  destruct (Z.ltb_spec (a_cap b - req) 64) as [Hlt|Hge].
  - rewrite (split_block_small s1 a b1 _ _ req Hm1) by (simpl; lia). simpl.
    rewrite Z.add_0_r. rewrite (u64_small (u64 _)) by apply u64_range. split; [|done].
    apply Hglue; [intros x ?; rewrite !lookup_insert_ne by lia; done|].
    unfold taken. rewrite (proj2 (Z.ltb_lt _ _)) by lia. simpl.
    split; [repeat split; simpl; lia|]. split; [by rewrite lookup_insert_eq|].
    eapply seg_frame; [|done]. intros x ?. by rewrite !lookup_insert_ne by lia.
  - assert (seg (hmem s1) (last_addr 0 HEAP_BASE l1) a (b1 :: l2) 0 (g_heap_next s)) as Hs1.
    { split; [repeat split; simpl; lia|]. split; [exact Hm1|].
      eapply seg_frame; [|exact H3]. intros x ?. simpl in *. by rewrite lookup_insert_ne by lia. }
    rewrite (split_block_big s1 a b1 _ l2 req _ Ha Hs1) by (simpl; lia). split; [|destruct l2; done].
    apply Hglue.
    + intros x ?. pose proof (seg_span _ _ _ _ _ _ H3).
      destruct l2; simpl; rewrite !lookup_insert_ne by lia; done.
    + unfold taken. rewrite (proj2 (Z.ltb_ge _ _)) by lia. apply (seg_split s1 _ a b1 l2); (done || simpl; lia).
Qed.

Lemma take_block_rep s l1 b l2 req (s' := take_block (HEAP_BASE + span l1) req s) :
  heap_rep s (l1 ++ b :: l2) → a_free b = true → 16 ≤ req ≤ a_cap b → req mod 16 = 0 →
  heap_rep s' (l1 ++ taken req b ++ l2) ∧ g_used_bytes s' = u64 (g_used_bytes s + req) ∧
  g_heap_next s' = g_heap_next s ∧ h_vm s' = h_vm s ∧ rflags_if s' = rflags_if s.
Proof.
  intros Hrep Hf Hr Hr16.
  destruct (take_block_seg s l1 b l2 req Hrep Hf Hr Hr16) as (Hs & Hfb & Hal & Hu & Hrd & Hh & Hn & Hv & Hif).
  fold s' in Hs, Hfb, Hal, Hu, Hrd, Hh, Hn, Hv, Hif. clearbody s'.
  destruct (taken_facts req b Hf Hr) as (Hne & Hsp & Hlv & Hlf & Hhf & Hadj & Hfr).
  split; [|auto]. destruct Hrep as [R1 R2 R3 R4 R5 R6 R7 R8].
  pose proof (seg_fin _ _ _ _ _ _ R2) as Hfin. pose proof (seg_span _ _ _ _ _ _ R2) as Hspan.
  pose proof (free_bytes_bound _ _ _ _ _ _ R2) as Hfbb.
  pose proof (free_bytes_bound _ _ _ _ _ _ Hs) as Hfbb'.
  pose proof (n_live_bound (l1 ++ b :: l2)) as Hnl. pose proof arena_bounds as [Eb El].
  split; try (rewrite ?Hn, ?Hrd; done).
  - rewrite Hh, R3. destruct l1, (taken req b); done.
  - rewrite Hfb, R6. rewrite !free_bytes_app in *. simpl in *. rewrite Hf in *.
    pose proof (seg_fin _ _ _ _ _ _ Hs) as Hfin'. rewrite !span_app in *. simpl in *.
    pose proof R2 as [A1 (_ & _ & A2)]%seg_app.
    apply free_bytes_bound in A1, A2. rewrite Hsp in *. clear Hfr.
    rewrite (u64_small (_ - _)) by lia. rewrite u64_small; lia.
  - rewrite Hal, R7, !n_live_app, Hlv. rewrite n_live_app in Hnl. simpl in *. rewrite Hf in Hnl |- *.
    rewrite u64_small; lia.
  - rewrite !no_adj_app in *. simpl in R8. rewrite Hf in R8.
    assert (head_free (taken req b ++ l2) = false) as -> by (by destruct (taken req b)).
    rewrite andb_false_r. destruct R8 as (? & (Hl2 & ?) & ?). simpl in Hl2. rewrite Hl2, andb_false_r.
    done.
Qed.

(** *** Merging and releasing *)

Definition merge2 (b n : ablock) : ablock :=
  mkAblock (a_cap b + 48 + a_cap n) (a_cap b + 48 + a_cap n) (a_free b).

Lemma relink_fields t nx l s :
  let s' := relink t nx l s in
  g_ready s' = g_ready s ∧ g_head s' = g_head s ∧ g_heap_next s' = g_heap_next s ∧
  g_free_bytes s' = g_free_bytes s ∧ g_allocations s' = g_allocations s ∧
  g_used_bytes s' = g_used_bytes s ∧ h_vm s' = h_vm s ∧ rflags_if s' = rflags_if s.
Proof. by destruct l. Qed.

Lemma blk_free s x a : blk (s <| g_free_bytes := x |>) a = blk s a.
Proof. done. Qed.
Lemma set_blk_free s x a b :
  set_blk a b (s <| g_free_bytes := x |>) = (set_blk a b s) <| g_free_bytes := x |>.
Proof. done. Qed.

Lemma merge_eq s a b n p l fin (nx := a + 48 + a_cap b) (nn := nx + 48 + a_cap n) :
  0 < a → seg (hmem s) p a (b :: n :: l) 0 fin → fin ≤ HEAP_LIMIT → a_free n = true →
  merge_with_next a s =
  relink a nn l
    (set_blk a (hdr p (next_ptr nx n l) (merge2 b n))
       (s <| g_free_bytes := u64 (g_free_bytes s + 48) |>)).
Proof.
  intros Ha (Hb & Hm & Hn & Hmn & Hs) Hfin Hf.
  pose proof (seg_fin _ _ _ _ _ _ Hs). pose proof (seg_span _ _ _ _ _ _ Hs).
  pose proof arena_bounds as [_ El]. pose proof Hb as (? & _). pose proof Hn as (? & _).
  fold nx in Hmn, Hm. fold (next_ptr nx n l) in Hmn. cbn [hdr] in Hm.
  unfold merge_with_next. rewrite (blk_Some _ _ _ Hm). cbn [next hdr].
  rewrite (proj2 (Z.eqb_neq nx 0)) by lia. rewrite (blk_Some _ _ _ Hmn).
  cbn [flags hdr]. rewrite Hf. cbn [orb negb has_bits].
  change (negb (has_bits 1 BLOCK_FREE)) with false. cbn iota.
  rewrite !blk_set_eq, !set_set. cbn [capacity hdr].
  rewrite (u64_small (a_cap b + _)) by (rewrite HEADER_SIZE_val; lia).
  rewrite HEADER_SIZE_val, !blk_free, blk_set_eq, !set_blk_free, !blk_free, set_set.
  rewrite (blk_set_ne _ a nx), (blk_Some _ _ _ Hmn) by lia.
  unfold merge2. replace (a_cap b + (48 + a_cap n)) with (a_cap b + 48 + a_cap n) by lia.
  cbn [next hdr set_field].
  set (s1 := set_blk a _ _).
  destruct l as [|c l]; [done|]. cbn [relink next_ptr]. fold nn.
  rewrite (proj2 (Z.eqb_neq nn 0)) by lia. simpl in Hs. destruct Hs as (_ & Hmc & _).
  cbn [negb]. fold nx nn in Hmc. by rewrite blk_set_ne, (blk_Some _ _ _ Hmc) by lia.
Qed.

Lemma merge_seg s l1 b n l2 fin (s' := merge_with_next (HEAP_BASE + span l1) s) :
  seg (hmem s) 0 HEAP_BASE (l1 ++ b :: n :: l2) 0 fin → fin ≤ HEAP_LIMIT → a_free n = true →
  seg (hmem s') 0 HEAP_BASE (l1 ++ merge2 b n :: l2) 0 fin ∧
  g_free_bytes s' = u64 (g_free_bytes s + 48) ∧
  g_ready s' = g_ready s ∧ g_head s' = g_head s ∧ g_heap_next s' = g_heap_next s ∧
  g_allocations s' = g_allocations s ∧ g_used_bytes s' = g_used_bytes s ∧
  h_vm s' = h_vm s ∧ rflags_if s' = rflags_if s.
Proof.
  intros Hs Hfin Hf. pose proof Hs as [H1 H2]%seg_app. pose proof (seg_span _ _ _ _ _ _ H1).
  pose proof arena_bounds as [Eb El]. set (a := HEAP_BASE + span l1) in *.
  assert (0 < a) as Ha by lia. subst s'. rewrite (merge_eq s a b n _ l2 fin Ha H2 Hfin Hf).
  set (s0 := set_blk a _ _). split; [|by destruct l2].
  pose proof H2 as (Hb & _ & Hn & _ & H3). destruct Hb as (? & ? & ?), Hn as (? & ? & ?).
  eapply seg_replace; [exact Hs|done|done| |].
  - intros x ?. pose proof (seg_span _ _ _ _ _ _ H3).
    destruct l2; simpl; rewrite !lookup_insert_ne by lia; done.
  - cbn [seg]. fold a. split; [split; [simpl; lia|split; [simpl; Z.div_mod_to_equations; lia|simpl; lia]]|].
    assert (a + 48 + a_cap (merge2 b n) = a + 48 + a_cap b + 48 + a_cap n) as -> by (simpl; lia).
    destruct l2 as [|c l2]; [split; [by apply lookup_insert_eq|exact H3]|]. split.
    { simpl. rewrite lookup_insert_ne by lia. rewrite lookup_insert_eq. done. }
    eapply seg_frame; [|eapply (seg_set_prev _ _ a); exact H3].
    intros x Hx. simpl. unfold next_ptr.
    destruct (decide (x = a + 48 + a_cap b + 48 + a_cap n)) as [->|]; [by rewrite !lookup_insert_eq|].
    by rewrite !lookup_insert_ne by lia.
Qed.

Lemma merge_none s l1 b l2 fin :
  seg (hmem s) 0 HEAP_BASE (l1 ++ b :: l2) 0 fin → head_free l2 = false →
  merge_with_next (HEAP_BASE + span l1) s = s.
Proof.
  intros [_ (Hb & Hm & Hs)]%seg_app Hf. unfold merge_with_next. rewrite (blk_Some _ _ _ Hm). simpl.
  destruct l2 as [|n l2]; [done|]. simpl in Hf, Hs. destruct Hs as (_ & Hmn & _).
  rewrite (blk_Some _ _ _ Hmn). simpl. rewrite Hf. by rewrite orb_true_r.
Qed.

(** The list after a release. *)
Definition freed (b : ablock) : ablock := mkAblock (a_size b) (a_cap b) true.
Definition merge_fwd (b : ablock) l : list ablock :=
  match l with
  | n :: l' => if a_free n then merge2 b n :: l' else b :: l
  | [] => [b]
  end.
Definition a_release l1 (b : ablock) l2 : list ablock :=
  match list.last l1 with
  | Some pb => if a_free pb then removelast l1 ++ merge_fwd pb (merge_fwd (freed b) l2)
               else l1 ++ merge_fwd (freed b) l2
  | None => merge_fwd (freed b) l2
  end.

(** [merge_with_next] is [merge_fwd]. *)
Lemma merge_fwd_seg s l1 b l2 fin (s' := merge_with_next (HEAP_BASE + span l1) s) :
  seg (hmem s) 0 HEAP_BASE (l1 ++ b :: l2) 0 fin → fin ≤ HEAP_LIMIT →
  seg (hmem s') 0 HEAP_BASE (l1 ++ merge_fwd b l2) 0 fin ∧
  g_free_bytes s' = (if head_free l2 then u64 (g_free_bytes s + 48) else g_free_bytes s) ∧
  g_ready s' = g_ready s ∧ g_head s' = g_head s ∧ g_heap_next s' = g_heap_next s ∧
  g_allocations s' = g_allocations s ∧ g_used_bytes s' = g_used_bytes s ∧
  h_vm s' = h_vm s ∧ rflags_if s' = rflags_if s.
Proof.
  intros Hs Hfin. destruct (head_free l2) eqn:Hf.
  - destruct l2 as [|n l2]; [done|]. simpl in Hf. simpl. rewrite Hf. by apply merge_seg.
  - subst s'. rewrite (merge_none s l1 b l2 fin Hs Hf). split; [|done].
    destruct l2 as [|n l2]; [done|]. simpl in *. by rewrite Hf.
Qed.

Lemma mark_released_spec s l1 b l2 fin (a := HEAP_BASE + span l1) (s' := mark_released a s) :
  seg (hmem s) 0 HEAP_BASE (l1 ++ b :: l2) 0 fin → a_free b = false →
  seg (hmem s') 0 HEAP_BASE (l1 ++ freed b :: l2) 0 fin ∧
  g_free_bytes s' = u64 (g_free_bytes s + a_cap b) ∧
  g_allocations s' = (if g_allocations s =? 0 then 0 else u64 (g_allocations s - 1)) ∧
  g_used_bytes s' = (if g_used_bytes s >=? a_size b then u64 (g_used_bytes s - a_size b)
                     else g_used_bytes s) ∧
  g_ready s' = g_ready s ∧ g_head s' = g_head s ∧ g_heap_next s' = g_heap_next s ∧
  h_vm s' = h_vm s ∧ rflags_if s' = rflags_if s.
Proof.
  intros Hs Hf. pose proof Hs as [H1 H2]%seg_app. fold a in H1, H2. pose proof H2 as (Hb & Hm & H3).
  assert (hmem s' = <[a := hdr (last_addr 0 HEAP_BASE l1) (next_ptr a b l2) (freed b)]> (hmem s) ∧
          g_free_bytes s' = u64 (g_free_bytes s + a_cap b)) as [-> ->].
  { subst s'. unfold mark_released. rewrite (blk_Some _ _ _ Hm). cbv zeta. rewrite !blk_set_eq.
    cbn [size set_field hdr]. destruct (_ >=? _).
    all: rewrite ?(blk_set_eq s); unfold blk; simpl; rewrite ?lookup_insert_eq; simpl;
      destruct (negb _); simpl; rewrite Hf; done. }
  split; [|subst s'; unfold mark_released; rewrite (blk_Some _ _ _ Hm)]; cycle 1.
  { cbv zeta. rewrite !blk_set_eq. cbn [size set_field hdr].
    destruct (_ >=? _) eqn:E1; simpl in *; destruct (_ =? 0) eqn:E0; simpl; rewrite ?E1; simpl;
      repeat split; try done; lia. }
  eapply seg_replace; [exact Hs|done|done| |].
  - intros x ?. rewrite lookup_insert_ne by lia. done.
  - fold a. split; [done|]. split; [by apply lookup_insert_eq|]. simpl.
    pose proof Hb as (? & _). eapply seg_frame; [|exact H3].
    intros x ?. by rewrite lookup_insert_ne by lia.
Qed.

(** Facts on the abstract release. *)
Lemma merge_fwd_facts b l :
  span (merge_fwd b l) = 48 + a_cap b + span l ∧
  n_live (merge_fwd b l) = n_live (b :: l) ∧
  (a_free b = true → free_bytes (merge_fwd b l) =
     a_cap b + free_bytes l + if head_free l then 48 else 0) ∧
  head_free (merge_fwd b l) = a_free b ∧ merge_fwd b l ≠ [] ∧
  (no_adj l → no_adj (merge_fwd b l)).
Proof.
  destruct l as [|n l]; simpl; [|destruct (a_free n) eqn:Hn; simpl; rewrite ?Hn; simpl].
  all: split_and!; try done; try lia; try (intros ->; lia).
  - intros [-> ?]. by rewrite andb_false_r.
  - intros [_ ?]. by rewrite andb_false_r.
Qed.

Lemma a_release_facts l1 b l2 :
  a_free b = false → no_adj (l1 ++ b :: l2) →
  let l := a_release l1 b l2 in
  l ≠ [] ∧ n_live l = n_live (l1 ++ b :: l2) - 1 ∧ no_adj l.
Proof.
  intros Hb Hadj. apply no_adj_app in Hadj as (A1 & [_ A2] & _).
  destruct (merge_fwd_facts (freed b) l2) as (_ & F2 & _ & F4 & F5 & F6).
  specialize (F6 A2). unfold a_release. destruct l1 as [|pb l1 _] using rev_ind; simpl.
  { split; [done|]. split; [rewrite F2; simpl; rewrite Hb; lia|done]. }
  rewrite last_snoc, removelast_last. apply no_adj_app in A1 as (B1 & _ & B3).
  destruct (a_free pb) eqn:Hp.
  - destruct (merge_fwd_facts pb (merge_fwd (freed b) l2)) as (_ & G2 & _ & G4 & G5 & G6).
    split; [destruct l1; [done|by intros ?]|]. split.
    + rewrite !n_live_app, G2. simpl. rewrite F2. simpl. rewrite Hb, Hp. lia.
    + apply no_adj_app. split; [done|]. split; [by apply G6|]. rewrite G4, Hp.
      simpl in B3. by rewrite Hp in B3.
  - split; [by destruct l1|]. split.
    + rewrite !n_live_app, F2. simpl. rewrite Hb. lia.
    + rewrite no_adj_app, last_free_snoc, Hp. split; [apply no_adj_app; simpl in *; rewrite ?Hp, ?andb_false_r in *; done|done].
Qed.

Lemma release_block_seg s l1 b l2 fin (a := HEAP_BASE + span l1) (s' := release_block a s) :
  seg (hmem s) 0 HEAP_BASE (l1 ++ b :: l2) 0 fin → fin ≤ HEAP_LIMIT → a_free b = false →
  g_free_bytes s = free_bytes (l1 ++ b :: l2) →
  seg (hmem s') 0 HEAP_BASE (a_release l1 b l2) 0 fin ∧
  g_free_bytes s' = free_bytes (a_release l1 b l2) ∧
  g_allocations s' = (if g_allocations s =? 0 then 0 else u64 (g_allocations s - 1)) ∧
  g_used_bytes s' = (if g_used_bytes s >=? a_size b then u64 (g_used_bytes s - a_size b)
                     else g_used_bytes s) ∧
  g_ready s' = g_ready s ∧ g_head s' = g_head s ∧ g_heap_next s' = g_heap_next s ∧
  h_vm s' = h_vm s ∧ rflags_if s' = rflags_if s.
Proof.
  intros Hs Hfin Hb Hfb. pose proof arena_bounds as [Eb El].
  destruct (mark_released_spec s l1 b l2 fin Hs Hb) as (S1 & F1 & Al & Us & R1 & H1 & N1 & V1 & I1).
  fold a in S1, F1, Al, Us, R1, H1, N1, V1, I1.
  subst s'. unfold release_block. cbv zeta. set (s1 := mark_released a s) in *. clearbody s1.
  destruct (merge_fwd_seg s1 l1 (freed b) l2 fin S1 Hfin) as (S2 & F2 & R2 & H2 & N2 & Al2 & Us2 & V2 & I2).
  fold a in S2, F2, R2, H2, N2, V2, I2, Al2, Us2. set (s2 := merge_with_next a s1) in *. clearbody s2.
  destruct (merge_fwd_facts (freed b) l2) as (P2 & _ & G2 & K2 & E2 & _). specialize (G2 eq_refl).
  pose proof (seg_fin _ _ _ _ _ _ S2) as Hf2. pose proof (free_bytes_bound _ _ _ _ _ _ S2) as Hb2.
  rewrite span_app in Hf2, Hb2. rewrite free_bytes_app in Hfb, Hb2. simpl in Hfb. rewrite Hb in Hfb.
  pose proof Hs as [W1 ((Hc & _) & _ & W2)]%seg_app. apply free_bytes_bound in W1, W2.
  change (a_cap (freed b)) with (a_cap b) in *.
  assert (g_free_bytes s2 = free_bytes l1 + free_bytes (merge_fwd (freed b) l2)) as Hfree.
  { rewrite F2, F1, Hfb, G2. rewrite (u64_small (_ + a_cap b)) by lia.
    destruct (head_free l2); [rewrite u64_small|]; lia. }
  assert (prev (blk s2 a) = last_addr 0 HEAP_BASE l1) as Hprev.
  { apply seg_app in S2 as [_ S2]. destruct (merge_fwd (freed b) l2) as [|c r]; [done|].
    destruct S2 as (_ & Hm & _). unfold a. by rewrite (blk_Some _ _ _ Hm). }
  rewrite Hprev. unfold a_release.
  destruct l1 as [|pb l1 _] using rev_ind.
  { simpl in *. rewrite Hfree. split_and!; try done; congruence. }
  rewrite last_addr_app, last_snoc, removelast_last.
  rewrite <- app_assoc in S2. pose proof S2 as [X1 (Xb & Xm & _)]%seg_app.
  pose proof (seg_span _ _ _ _ _ _ X1).
  rewrite (proj2 (Z.eqb_neq _ 0)) by lia. rewrite (blk_Some _ _ _ Xm). cbn [flags hdr negb andb].
  destruct (a_free pb) eqn:Hp; cycle 1.
  { change (has_bits 0 BLOCK_FREE) with false. cbn iota. rewrite <- app_assoc.
    rewrite Hfree, !free_bytes_app. simpl.
    split_and!; try done; try congruence. rewrite Hp. lia. }
  change (has_bits 1 BLOCK_FREE) with true. cbn iota.
  destruct (merge_fwd_seg s2 l1 pb _ fin S2 Hfin) as (S3 & F3 & R3 & H3 & N3 & Al3 & Us3 & V3 & I3).
  split; [exact S3|]. split; [|split_and!; congruence].
  rewrite F3, K2, Hfree, !free_bytes_app.
  destruct (merge_fwd_facts pb (merge_fwd (freed b) l2)) as (_ & _ & G3 & _). rewrite G3, K2 by done.
  pose proof (seg_fin _ _ _ _ _ _ S3) as Hf3. pose proof (free_bytes_bound _ _ _ _ _ _ S3) as Hb3.
  rewrite free_bytes_app, span_app, G3, K2 in Hb3 by done. rewrite span_app in Hf3.
  simpl in *. rewrite Hp. rewrite u64_small; lia.
Qed.
End rep.

(** ** Growing the arena *)

Section growth.
Context {V : Type} `{VmBackendLaws V}.
Implicit Types (v : V) (O : gset Z) (fs : list Z).

(** The translation of [w] when the frames [fs] back the pages from [start]
    and [d] is the translation elsewhere. *)
Fixpoint run fs (start w d : Z) : Z :=
  match fs with
  | [] => d
  | f :: fs => if w - w mod 4096 =? start then f + w mod 4096 else run fs (start + 4096) w d
  end.

Lemma run_snoc fs f start w d :
  run (fs ++ [f]) start w d =
  if w - w mod 4096 =? start + 4096 * Z.of_nat (length fs) then f + w mod 4096
  else run fs start w d.
Proof.
  revert start. induction fs as [|g fs IH]; intros start; simpl; [by rewrite Z.add_0_r|].
  rewrite IH. replace (start + 4096 + 4096 * Z.of_nat (length fs)) with
    (start + 4096 * Z.of_nat (S (length fs))) by lia.
  destruct (Z.eqb_spec (w - w mod 4096) start), (Z.eqb_spec (w - w mod 4096)
    (start + 4096 * Z.of_nat (S (length fs)))); (done || lia).
Qed.

Lemma run_outside fs start w d :
  w - w mod 4096 < start ∨ start + 4096 * Z.of_nat (length fs) ≤ w - w mod 4096 →
  run fs start w d = d.
Proof.
  revert start. induction fs as [|f fs IH]; intros start Hw; simpl in *; [done|].
  rewrite (proj2 (Z.eqb_neq _ _)) by lia. apply IH. lia.
Qed.

Lemma run_inside fs start w d :
  start mod 4096 = 0 → (∀ f, f ∈ fs → 0 < f) →
  start ≤ w - w mod 4096 < start + 4096 * Z.of_nat (length fs) → run fs start w d ≠ 0.
Proof.
  revert start. induction fs as [|f fs IH]; intros start Ha Hf Hw; simpl in *; [lia|].
  pose proof (Hf f ltac:(by left)) as Hr.
  destruct (Z.eqb_spec (w - w mod 4096) start) as [E|E].
  - pose proof (Z.mod_pos_bound w 4096). lia.
  - apply IH; [Z.div_mod_to_equations; lia|intros g ?; apply Hf; by right|].
    Z.div_mod_to_equations. lia.
Qed.

(** The pages from [start] are backed by [fs]; everything else is as in [v0]. *)
Record backed v0 O (start : Z) fs v : Prop := {
  bk_inv : vm_inv v (list_to_set fs ∪ O);
  bk_nodup : NoDup fs;
  bk_fresh : ∀ f, f ∈ fs → (f ∉ O) ∧ (0 < f < 2 ^ 52) ∧ f mod 4096 = 0;
  bk_was : ∀ w, in_arena w → start ≤ w - w mod 4096 < start + 4096 * Z.of_nat (length fs) →
    vm_virt_to_phys w v0 = 0;
  bk_leaf : ∀ j, (j < length fs)%nat → vm_leaf v (start + 4096 * Z.of_nat j);
  bk_xlate : ∀ w, in_arena w → vm_virt_to_phys w v = run fs start w (vm_virt_to_phys w v0);
}.

Definition page_range (start : Z) (n : nat) : Prop :=
  start mod 4096 = 0 ∧ HEAP_BASE ≤ start ∧ start + 4096 * Z.of_nat n ≤ HEAP_LIMIT.

Lemma page_va start n j :
  page_range start n → (j < n)%nat →
  u64 (start + Z.of_nat j * PAGE_SIZE) = start + 4096 * Z.of_nat j ∧
  in_arena (start + 4096 * Z.of_nat j) ∧ (start + 4096 * Z.of_nat j) mod 4096 = 0.
Proof.
  intros (Ha & Hb & Hl) Hj. pose proof arena_bounds as [Eb El]. unfold in_arena, PAGE_SIZE.
  rewrite u64_small by lia. split; [lia|]. split; [lia|]. Z.div_mod_to_equations. lia.
Qed.

Lemma unmap_pages_backed v0 O start N fs k v :
  page_range start N → (k + length fs ≤ N)%nat →
  backed v0 O (start + 4096 * Z.of_nat k) fs v →
  backed v0 O (start + 4096 * Z.of_nat (k + length fs)) [] (unmap_pages start (seq k (length fs)) v).
Proof.
  intros Hr. revert k v. induction fs as [|f fs IH]; intros k v Hk Hb.
  { simpl. by rewrite Nat.add_0_r. }
  simpl in Hk. destruct (page_va start N k Hr ltac:(lia)) as (Eva & Har & Hal).
  cbn [length seq]. unfold unmap_pages. cbn [foldl]. rewrite Eva.
  set (va := start + 4096 * Z.of_nat k) in *. destruct Hb as [B1 B2 B3 B4 B6 B5].
  destruct (B3 f ltac:(by left)) as (Hf & Hfr & Hfa).
  assert (vm_virt_to_phys va v = f) as ->.
  { rewrite (B5 va Har). simpl. rewrite Hal, Z.sub_0_r, Z.eqb_refl. lia. }
  rewrite (proj2 (Z.eqb_neq f 0)) by lia. cbn [negb].
  assert (Z.land f (not64 (PAGE_SIZE - 1)) = f) as ->.
  { change (PAGE_SIZE - 1) with (2 ^ 12 - 1). rewrite land_not64_mask by lia.
    change (2 ^ 12) with 4096. lia. }
  destruct (vm_unmap_law v _ va B1 Hal Har) as (U1 & U3 & U2).
  { specialize (B6 0%nat ltac:(simpl; lia)). by rewrite Z.add_0_r in B6. }
  { rewrite (B5 va Har). simpl. rewrite Hal, Z.sub_0_r, Z.eqb_refl. lia. }
  destruct (vm_free_law _ _ f U1 ltac:(set_solver)) as (G1 & G3 & G2).
  apply list.NoDup_cons in B2 as [Hnf B2].
  replace (k + S (length fs))%nat with (S k + length fs)%nat by lia.
  apply IH; [lia|]. replace (start + 4096 * Z.of_nat (S k)) with (va + 4096) by lia.
  split; try done.
  - replace (list_to_set fs ∪ O) with ((list_to_set (f :: fs) ∪ O) ∖ {[f]}); [done|].
    apply leibniz_equiv. set_solver.
  - intros g Hg. apply B3. by right.
  - intros w Hw Hwr. apply B4; [done|]. simpl. lia.
  - intros j Hj. apply G3, U3. specialize (B6 (S j) ltac:(simpl; lia)).
    by replace (va + 4096 + 4096 * Z.of_nat j) with (va + 4096 * Z.of_nat (S j)) by lia.
  - intros w Hw. rewrite G2, (U2 w Hw). destruct (Z.eqb_spec (w - w mod 4096) va) as [E|E].
    + rewrite run_outside by lia. symmetry. apply B4; [done|]. simpl. lia.
    + rewrite (B5 w Hw). simpl. by rewrite (proj2 (Z.eqb_neq _ _) E).
Qed.

(** One more page. *)
Lemma backed_snoc v0 O start N fs v r v1 ok v2 :
  page_range start N → (length fs < N)%nat → backed v0 O start fs v →
  vm_alloc_page v = (r, v1) → r ≠ 0 →
  vm_map_page (start + 4096 * Z.of_nat (length fs)) r 3 v1 = (ok, v2) →
  if ok then backed v0 O start (fs ++ [r]) v2 else backed v0 O start fs (vm_free_page r v2).
Proof.
  intros Hr Hl [B1 B2 B3 B4 B6 B5] Ea Hr0 Em.
  destruct (page_va start N _ Hr Hl) as (_ & Har & Hal). set (va := start + _) in *.
  destruct (vm_alloc_law v _ B1 r v1 Ea) as (A1 & A4 & _ & A2). destruct (A2 Hr0) as (Hn & Hrr & Hra & A3).
  destruct (vm_map_law v1 _ va r 3 A3 ltac:(set_solver) Hal Har ltac:(lia) ok v2 Em) as (M1 & M4 & M2 & M3).
  destruct ok.
  - split.
    + replace (list_to_set (fs ++ [r]) ∪ O) with ({[r]} ∪ (list_to_set fs ∪ O)); [done|].
      apply leibniz_equiv. set_solver.
    + apply list.NoDup_app. split; [done|]. split; [|apply NoDup_singleton]. set_solver.
    + intros f [Hf|Hf]%elem_of_app; [by apply B3|]. apply list_elem_of_singleton in Hf as ->. split; [set_solver|done].
    + intros w Hw Hwr. rewrite length_app in Hwr. simpl in Hwr.
      destruct (decide (w - w mod 4096 = va)) as [E|E].
      * rewrite <- (run_outside fs start w (vm_virt_to_phys w v0)) by lia. rewrite <- (B5 w Hw), <- A1. by apply M2.
      * apply B4; [done|]. subst va. destruct Hr as (? & _). Z.div_mod_to_equations. lia.
    + intros j Hj. rewrite length_app in Hj. simpl in Hj.
      destruct (decide (j = length fs)) as [->|]; [by apply M2|]. apply M4, A4, B6. lia.
    + intros w Hw. rewrite (M3 w Hw), run_snoc, A1, B5 by done. fold va. by destruct (_ =? va).
  - destruct (vm_free_law v2 _ r M1 ltac:(set_solver)) as (G1 & G3 & G2). split; try done.
    + replace (list_to_set fs ∪ O) with (({[r]} ∪ (list_to_set fs ∪ O)) ∖ {[r]}); [done|].
      apply leibniz_equiv. set_solver.
    + intros j Hj. by apply G3, M4, A4, B6.
    + intros w Hw. rewrite G2, (M3 w Hw), A1. simpl. by apply B5.
Qed.

Lemma map_pages_backed v0 O start N n fs v :
  page_range start N → (length fs + n = N)%nat → backed v0 O start fs v →
  let '(ok, v') := map_pages_from start (length fs) n v in
  if ok then ∃ fs', length fs' = N ∧ backed v0 O start fs' v'
  else vm_inv v' O ∧ ∀ w, in_arena w → vm_virt_to_phys w v' = vm_virt_to_phys w v0.
Proof.
  intros Hr. revert fs v. induction n as [|n IH]; intros fs v Hn Hb.
  { simpl. exists fs. split; [lia|done]. }
  assert (∀ v, backed v0 O start fs v →
    vm_inv (unmap_pages start (seq 0 (length fs)) v) O ∧
    ∀ w, in_arena w → vm_virt_to_phys w (unmap_pages start (seq 0 (length fs)) v) =
                      vm_virt_to_phys w v0) as Hroll.
  { intros v1 Hb1. replace start with (start + 4096 * Z.of_nat 0) in Hb1 by lia.
    destruct (unmap_pages_backed v0 O start N fs 0 v1 Hr ltac:(lia) Hb1) as [C1 _ _ _ _ C5].
    split; [|done]. simpl in C1. by rewrite union_empty_l_L in C1. }
  simpl. destruct (vm_alloc_page v) as [r v1] eqn:Ea.
  destruct (Z.eqb_spec r 0) as [->|Hr0].
  { apply Hroll. destruct Hb as [B1 B2 B3 B4 B6 B5].
    destruct (vm_alloc_law v _ B1 0 v1 Ea) as (A1 & A4 & A2 & _). split; try done; [by apply A2| |].
    { intros j Hj. by apply A4, B6. }
    intros w Hw. rewrite A1. by apply B5. }
  destruct (page_va start N (length fs) Hr ltac:(lia)) as (-> & _ & _).
  change (Z.lor VMM_PAGE_PRESENT VMM_PAGE_WRITABLE) with 3.
  destruct (vm_map_page _ r 3 v1) as [ok v2] eqn:Em.
  pose proof (backed_snoc v0 O start N fs v r v1 ok v2 Hr ltac:(lia) Hb Ea Hr0 Em) as Hs.
  destruct ok; simpl; [|by apply Hroll].
  replace (S (length fs)) with (length (fs ++ [r])) by (rewrite length_app; simpl; lia).
  apply IH; [rewrite length_app; simpl; lia|done].
Qed.

(** [map_new_pages] backs the whole range or leaves every translation and
    the held frames as they were. *)
Lemma map_new_pages_spec v O start n :
  page_range start n → vm_inv v O →
  let '(ok, v') := map_new_pages start (Z.of_nat n) v in
  if ok then ∃ fs, length fs = n ∧ backed v O start fs v'
  else vm_inv v' O ∧ ∀ w, in_arena w → vm_virt_to_phys w v' = vm_virt_to_phys w v.
Proof.
  intros Hr Hi. unfold map_new_pages. rewrite Nat2Z.id.
  apply (map_pages_backed v O start n n [] v Hr); [done|].
  split; simpl; try done; [by rewrite union_empty_l_L|apply NoDup_nil_2|intros f ?%elem_of_nil; done|lia|lia].
Qed.

(** *** The growth path of [kmalloc] *)

(** The represented heap with every byte of the arena mapped. *)
Definition heap_ok (s : heap V) (l : list ablock) : Prop :=
  heap_rep s l ∧ ∃ O, vm_inv (h_vm s) O ∧
  ∀ w, HEAP_BASE ≤ w < g_heap_next s → vm_virt_to_phys w (h_vm s) ≠ 0.

(** Linking the new block behind the last one. *)
Lemma link_block (s : heap V) l req cap (a := g_heap_next s)
    (s1 := set_blk a (mkBlock BLOCK_MAGIC req cap 0 0 0) s) :
  heap_rep s l → Z.of_nat (length l) ≤ MAX_BLOCKS → ablock_ok (mkAblock req cap false) →
  ∃ s2, (if g_head s1 =? 0 then Some (s1 <| g_head := a |>)
         else match find_tail walk_fuel (g_head s1) s1 with
              | None => None
              | Some tail =>
                 let s := set_blk tail ((blk s1 tail) <| next := a |>) s1 in
                 Some (set_blk a ((blk s a) <| prev := tail |>) s)
              end) = Some s2 ∧
  seg (hmem s2) 0 HEAP_BASE (l ++ [mkAblock req cap false]) 0 (a + 48 + cap) ∧
  s2 = s <| hmem := hmem s2 |> <| g_head := HEAP_BASE |>.
Proof.
  intros [Hr Hs Hh Hl _ _ _ _] Hlen Hok. pose proof walk_fuel_val as Hw.
  unfold MAX_BLOCKS in Hlen. pose proof arena_bounds as [Eb El].
  pose proof (seg_fin _ _ _ _ _ _ Hs) as Hfin. fold a in Hfin.
  assert (g_head s1 = g_head s) as -> by done. rewrite Hh.
  destruct l as [|b l _] using rev_ind.
  { simpl in Hfin. assert (a = HEAP_BASE) as Ea by lia. eexists. split; [done|].
    split; [|subst s1; unfold set_blk, set_field; cbn; f_equal; exact Ea].
    split; [exact Hok|]. split; [|cbn; lia]. cbn. rewrite Ea. apply lookup_insert_eq. }
  assert (seg (hmem s1) 0 HEAP_BASE (l ++ [b]) 0 a) as Hs1.
  { eapply seg_frame; [|exact Hs]. intros x ?. simpl. rewrite lookup_insert_ne; [done|].
    fold a in H1. lia. }
  assert ((match l ++ [b] with [] => 0 | _ => HEAP_BASE end) = HEAP_BASE) as -> by (by destruct l).
  rewrite (proj2 (Z.eqb_neq HEAP_BASE 0)) by lia.
  rewrite (find_tail_seg s1 walk_fuel 0 HEAP_BASE l b a);
    [|lia|exact Hs1|rewrite length_app in Hlen; simpl in Hlen; lia].
  pose proof (seg_last _ _ _ _ _ _ _ Hs1) as Hm. rewrite span_app in Hfin. simpl in Hfin.
  pose proof Hs1 as [_ ((Hc & _) & _ & _)]%seg_app. cbv zeta.
  rewrite (blk_Some s1 _ _ Hm), blk_set_ne by lia. unfold s1 at 1. rewrite blk_set_eq.
  eexists. split; [reflexivity|]. split;
    [|unfold s1, set_blk, set_field; cbn; f_equal; rewrite Hh; by destruct l].
  set (new := mkAblock req cap false) in *.
  assert (HEAP_BASE + span (l ++ [b]) = a) as Ea by (rewrite span_app; simpl; lia).
  apply seg_app. rewrite last_addr_app, Ea. split.
  - eapply seg_frame; [|eapply (seg_set_next (hmem s1) _ _ _ _ _ a); exact Hs1].
    intros x Hx. cbn. rewrite lookup_insert_ne by lia. done.
  - split; [exact Hok|]. split; [cbn; apply lookup_insert_eq|done].
Qed.

Lemma grow_spec (s : heap V) l req :
  heap_ok s l → Z.of_nat (length l) ≤ MAX_BLOCKS → 16 ≤ req < 2 ^ 64 → req mod 16 = 0 →
  ∃ r s', grow req s = Some (r, s') ∧ rflags_if s' = rflags_if s ∧
  ((r = 0 ∧ heap_ok s' l ∧ g_used_bytes s' = g_used_bytes s ∧ g_heap_next s' = g_heap_next s) ∨
   (∃ cap, r = g_heap_next s ∧ heap_ok s' (l ++ [mkAblock req cap false]) ∧
      g_used_bytes s' = u64 (g_used_bytes s + req))).
Proof.
  intros [Hrep (O & Hinv & Hmap)] Hlen Hreq H16. unfold grow.
  pose proof arena_bounds as [Eb El]. pose proof Hrep as [R1 R2 R3 R4 R5 R6 R7 R8].
  pose proof (seg_fin _ _ _ _ _ _ R2) as Hfin. pose proof (seg_span _ _ _ _ _ _ R2) as Hsp.
  set (pages := pages_for_block req). set (cap := u64 (pages * PAGE_SIZE - HEADER_SIZE)).
  destruct (_ || _) eqn:Hg.
  { exists 0, s. split; [done|]. split; [done|]. left. split; [done|]. split; [|done].
    split; [done|]. by exists O. }
  apply orb_false_iff in Hg as [Hg Hg4]. apply orb_false_iff in Hg as [Hg Hg3].
  apply orb_false_iff in Hg as [Hg1 Hg2].
  assert (0 ≤ pages) as Hp0 by (apply Z.div_pos; [apply u64_range|unfold PAGE_SIZE; lia]).
  assert (1 ≤ pages ≤ (HEAP_LIMIT - g_heap_next s) / 4096) as Hp by (unfold PAGE_SIZE in *; lia).
  assert (g_heap_next s + 4096 * pages ≤ HEAP_LIMIT) as Hlim by (Z.div_mod_to_equations; lia).
  assert (cap = 4096 * pages - 48) as Ecap.
  { subst cap. rewrite HEADER_SIZE_val. unfold PAGE_SIZE. rewrite u64_small; lia. }
  assert (ablock_ok (mkAblock req cap false)) as Hok.
  { split; [simpl; lia|]. split; simpl; [|lia]. rewrite Ecap. Z.div_mod_to_equations. lia. }
  pose proof (map_new_pages_spec (h_vm s) O (g_heap_next s) (Z.to_nat pages)) as Hm.
  rewrite Z2Nat.id in Hm by lia.
  specialize (Hm ltac:(split; [done|]; rewrite Z2Nat.id; lia) Hinv).
  destruct (map_new_pages (g_heap_next s) pages (h_vm s)) as [ok v'].
  destruct ok; cbn [negb]; cycle 1.
  { destruct Hm as [Hinv' Hx]. eexists 0, _. split; [done|]. split; [done|]. left.
    split; [done|]. split; [|done]. split; [by destruct Hrep|]. exists O. split; [done|].
    intros w Hw. simpl in *. rewrite Hx; [by apply Hmap|]. unfold in_arena. lia. }
  destruct Hm as (fs & Hfs & [B1 B2 B3 B4 _ B5]). set (s0 := s <| h_vm := v' |>).
  assert (heap_rep s0 l) as Hrep0 by (by destruct Hrep).
  destruct (link_block s0 l req cap Hrep0 Hlen Hok) as (s2 & E & Hs2 & Es2).
  change (g_heap_next s0) with (g_heap_next s) in E. cbv zeta in E |- *. rewrite E, Es2. eexists _, _. split; [reflexivity|].
  split; [reflexivity|]. right. exists cap. split; [reflexivity|].
  pose proof (n_live_bound l) as Hnl. unfold MAX_BLOCKS in Hlen. split; [|reflexivity].
  assert (u64 (g_heap_next s + pages * PAGE_SIZE) = g_heap_next s + 48 + cap) as Enext
    by (unfold PAGE_SIZE; rewrite u64_small; lia).
  split.
  - split; cbn; rewrite ?Enext.
    + done.
    + exact Hs2.
    + by destruct l.
    + lia.
    + rewrite Ecap. Z.div_mod_to_equations. lia.
    + rewrite free_bytes_app. simpl. lia.
    + rewrite n_live_app. simpl. rewrite u64_small; lia.
    + apply no_adj_app. split; [done|]. split; [done|]. apply andb_false_r.
  - exists (list_to_set fs ∪ O). cbn. split; [done|]. rewrite Enext. intros w Hw.
    rewrite B5 by (unfold in_arena; lia).
    destruct (decide (w < g_heap_next s)) as [Hlt|Hge].
    + rewrite run_outside; [apply Hmap; lia|]. left. Z.div_mod_to_equations. lia.
    + apply run_inside; [done|intros f ?; by apply B3|]. rewrite Hfs.
      Z.div_mod_to_equations. lia.
Qed.
End growth.

(** ** Live allocations *)

(** The payload address and capacity of every allocated block. *)
Fixpoint live (a : Z) (l : list ablock) : list (Z * Z) :=
  match l with
  | [] => []
  | b :: l' => (if a_free b then [] else [(a + 48, a_cap b)]) ++ live (a + 48 + a_cap b) l'
  end.

Definition live_blocks (l : list ablock) : list (Z * Z) := live HEAP_BASE l.

Lemma live_app a l1 l2 : live a (l1 ++ l2) = live a l1 ++ live (a + span l1) l2.
Proof.
  revert a. induction l1 as [|b l1 IH]; intros a; simpl; [by rewrite Z.add_0_r|].
  rewrite IH, <- app_assoc. do 3 f_equal. lia.
Qed.

(** What every pair of live blocks satisfies. *)
Definition before (x y : Z * Z) : Prop := x.1 + x.2 ≤ y.1.

Lemma live_bounds m p a l q fin x :
  seg m p a l q fin → a mod 16 = 0 → x ∈ live a l →
  a + 48 ≤ x.1 ∧ x.1 + x.2 ≤ fin ∧ x.1 mod 16 = 0 ∧ 16 ≤ x.2.
Proof.
  revert p a. induction l as [|b l IH]; intros p a; simpl; [by intros _ _ ?%elem_of_nil|].
  intros ((Hc & Hc16 & _) & _ & Hs) Ha. pose proof (seg_fin _ _ _ _ _ _ Hs).
  pose proof (seg_span _ _ _ _ _ _ Hs). intros [Hx|Hx]%elem_of_app.
  - destruct (a_free b); [by apply elem_of_nil in Hx|]. apply list_elem_of_singleton in Hx as ->.
    simpl. split_and!; try lia. Z.div_mod_to_equations. lia.
  - destruct (IH _ _ Hs) as (? & ? & ? & ?); [Z.div_mod_to_equations; lia|done|]. split_and!; (done || lia).
Qed.

Lemma live_sorted m p a l q fin :
  seg m p a l q fin → a mod 16 = 0 → StronglySorted before (live a l).
Proof.
  revert p a. induction l as [|b l IH]; intros p a; simpl; [constructor|].
  intros ((Hc & Hc16 & _) & _ & Hs) Ha.
  assert ((a + 48 + a_cap b) mod 16 = 0) as Ha' by (Z.div_mod_to_equations; lia).
  destruct (a_free b); simpl; [by eapply IH|]. constructor; [by eapply IH|].
  apply list.Forall_forall. intros x Hx. destruct (live_bounds _ _ _ _ _ _ _ Hs Ha' Hx).
  unfold before. simpl. lia.
Qed.

Lemma HEAP_BASE_16 : HEAP_BASE mod 16 = 0.
Proof. done. Qed.

Lemma live_taken a req b l :
  a_free b = true → 16 ≤ req ≤ a_cap b →
  ∃ c, req ≤ c ∧ live a (taken req b ++ l) = (a + 48, c) :: live a (b :: l).
Proof.
  intros Hf Hr. unfold taken. cbn [live]. rewrite Hf. destruct (Z.ltb_spec (a_cap b - req) 64); simpl.
  - exists (a_cap b). split; [lia|done].
  - exists req. split; [lia|]. do 2 f_equal. lia.
Qed.

Lemma live_merge_fwd a b l : a_free b = true → live a (merge_fwd b l) = live a (b :: l).
Proof.
  intros Hb. destruct l as [|n l]; [done|]. unfold merge_fwd. destruct (a_free n) eqn:Hn; [|done].
  cbn [live]. rewrite Hn. cbn [merge2 a_free a_cap app]. rewrite Hb. simpl. f_equal. lia.
Qed.

Lemma live_release a l1 b l2 :
  a_free b = false →
  live a (l1 ++ b :: l2) = live a l1 ++ (a + span l1 + 48, a_cap b) :: live (a + span l1 + 48 + a_cap b) l2 ∧
  live a (a_release l1 b l2) = live a l1 ++ live (a + span l1 + 48 + a_cap b) l2.
Proof.
  intros Hb. rewrite live_app. cbn [live]. rewrite Hb. split; [done|].
  assert (∀ x, live x (merge_fwd (freed b) l2) = live (x + 48 + a_cap b) l2) as Hfwd
    by (intros x; by rewrite live_merge_fwd).
  unfold a_release. destruct l1 as [|pb l1 _] using rev_ind.
  { simpl. rewrite Hfwd. do 2 f_equal. lia. }
  rewrite last_snoc, removelast_last. destruct (a_free pb) eqn:Hp.
  - rewrite !live_app, live_merge_fwd by done. cbn [live]. rewrite Hp, Hfwd, span_app. simpl.
    rewrite app_nil_r. do 2 f_equal. lia.
  - by rewrite live_app, Hfwd.
Qed.

(** ** The allocator's contract *)

Lemma align_size_spec sz :
  0 ≤ sz < 2 ^ 64 →
  0 ≤ align_size sz < 2 ^ 64 ∧ align_size sz mod 16 = 0 ∧
  (align_size sz ≠ 0 → sz ≤ align_size sz ∧ align_size sz < sz + 16).
Proof.
  intros Hs. unfold align_size, align_up_u64, HEAP_ALIGNMENT, SIZE_MAX, UINT64_MAX.
  change (u64 (16 - 1)) with (2 ^ 4 - 1). rewrite Z.gtb_ltb.
  destruct (Z.ltb_spec (2 ^ 64 - 1 - (2 ^ 4 - 1)) sz).
  { rewrite Z.eqb_refl. cbn [orb]. split; [lia|]. by split. }
  rewrite u64_small by lia. rewrite land_not64_mask by lia.
  destruct (_ || _); [split; [lia|]; by split|]. change (2 ^ 4) with 16.
  pose proof (Z.mod_pos_bound (sz + (16 - 1)) 16). split; [lia|].
  split; [Z.div_mod_to_equations; lia|]. lia.
Qed.

Lemma align_size_pos sz : 0 < sz ≤ 2 ^ 64 - 16 → 0 < align_size sz.
Proof.
  intros Hs. unfold align_size, align_up_u64, HEAP_ALIGNMENT, SIZE_MAX, UINT64_MAX.
  change (u64 (16 - 1)) with (2 ^ 4 - 1). rewrite Z.gtb_ltb, (proj2 (Z.ltb_ge _ _)) by lia.
  rewrite u64_small by lia. rewrite land_not64_mask by lia. change (2 ^ 4) with 16.
  destruct (_ || _) eqn:E; [|Z.div_mod_to_equations; lia].
  apply orb_true_iff in E as [E|E]; exfalso; [|Z.div_mod_to_equations; lia].
  apply Z.eqb_eq in E. Z.div_mod_to_equations. lia.
Qed.

Section contract.
Context {V : Type} `{VmBackendLaws V}.
Implicit Types (s : heap V) (l : list ablock).

(** Fields that the invariant does not mention may change freely. *)
Lemma heap_ok_frame s s' l :
  heap_ok s l → hmem s' = hmem s → g_head s' = g_head s → g_heap_next s' = g_heap_next s →
  g_free_bytes s' = g_free_bytes s → g_allocations s' = g_allocations s →
  g_ready s' = g_ready s → h_vm s' = h_vm s → heap_ok s' l.
Proof.
  intros [[R1 R2 R3 R4 R5 R6 R7 R8] HO] E1 E2 E3 E4 E5 E6 E7. unfold heap_ok.
  rewrite E3, E7. split; [|done]. split; congruence.
Qed.

Lemma heap_ok_unlock s l b : heap_ok s l → heap_ok (heap_unlock b s) l.
Proof. intros Hok. eapply heap_ok_frame; [exact Hok|by destruct b..]. Qed.

Lemma heap_ok_lock s l : heap_ok s l → heap_ok (heap_lock s) l.
Proof. intros Hok. by eapply heap_ok_frame. Qed.

Lemma unlock_next s b : g_heap_next (heap_unlock b s) = g_heap_next s.
Proof. by destruct b. Qed.

Lemma unlock_used s b : g_used_bytes (heap_unlock b s) = g_used_bytes s.
Proof. by destruct b. Qed.

(** Unlocking restores the interrupt flag saved before the lock. *)
Lemma unlock_if s s' : rflags_if s' = false → rflags_if (heap_unlock (rflags_if s) s') = rflags_if s.
Proof. intros E. destruct (rflags_if s) eqn:E'; simpl; congruence. Qed.

(** The first-fit branch, abstractly. *)
Lemma take_block_ok s l1 b l2 req :
  heap_ok s (l1 ++ b :: l2) → fits req b = true → 16 ≤ req → req mod 16 = 0 →
  let s' := take_block (HEAP_BASE + span l1) req s in
  heap_ok s' (l1 ++ taken req b ++ l2) ∧ g_heap_next s' = g_heap_next s ∧
  rflags_if s' = rflags_if s.
Proof.
  intros [Hrep (O & Hinv & Hmap)] [Hf Hc]%andb_true_iff Hr H16. cbv zeta.
  destruct (take_block_rep s l1 b l2 req Hrep Hf) as (Hrep' & _ & Hn & Hv & Hi); [lia|done|].
  split; [|done]. split; [done|]. exists O. rewrite Hv, Hn. done.
Qed.

(** The outcomes of [kmalloc] on the block list. *)
Inductive alloc_outcome (s : heap V) (l : list ablock) (req : Z) : Z → heap V → list ablock → Prop :=
| ao_null s' : g_heap_next s' = g_heap_next s → alloc_outcome s l req 0 s' l
| ao_fit s' l1 b l2 :
   16 ≤ req → l = l1 ++ b :: l2 → fits req b = true → Forall (λ b, fits req b = false) l1 →
   g_heap_next s' = g_heap_next s →
   alloc_outcome s l req (HEAP_BASE + span l1 + 48) s' (l1 ++ taken req b ++ l2)
| ao_grow s' cap :
   16 ≤ req → req ≤ cap → Forall (λ b, fits req b = false) l →
   alloc_outcome s l req (HEAP_BASE + span l + 48) s' (l ++ [mkAblock req cap false]).

(** The path of [kmalloc] to the first block that fits. *)
Lemma kmalloc_fit s l sz l1 b l2 (req := align_size sz) :
  heap_ok s l → Z.of_nat (length l) ≤ MAX_BLOCKS → sz ≠ 0 → req ≠ 0 →
  split_fit req l = Some (l1, b, l2) →
  kmalloc sz s = Some (HEAP_BASE + span l1 + 48,
    heap_unlock (rflags_if s) (take_block (HEAP_BASE + span l1) req (heap_lock s))).
Proof.
  intros [Hrep _] Hlen Hsz Hreq Ef. pose proof arena_bounds as [Eb El]. unfold kmalloc. fold req.
  rewrite (hr_ready _ _ Hrep), (proj2 (Z.eqb_neq sz 0)), (proj2 (Z.eqb_neq req 0)) by done.
  cbn [negb orb]. assert (heap_rep (heap_lock s) l) as Hrepl by (by destruct Hrep).
  rewrite (heap_validate_rep _ l Hrepl), (proj2 (Z.leb_le _ _) Hlen), (hr_head _ _ Hrepl).
  pose proof walk_fuel_val as Hwf. unfold MAX_BLOCKS in Hlen.
  rewrite (first_fit_seg (heap_lock s) walk_fuel req 0 HEAP_BASE l (g_heap_next s));
    [|lia|apply (hr_seg _ _ Hrepl)|lia].
  rewrite Ef. apply split_fit_Some in Ef as (-> & _ & _).
  pose proof (hr_seg _ _ Hrepl) as [Hs1 ((? & _) & _ & Hs2)]%seg_app.
  pose proof (seg_fin _ _ _ _ _ _ Hs2). pose proof (seg_span _ _ _ _ _ _ Hs1).
  pose proof (seg_span _ _ _ _ _ _ Hs2). pose proof (hr_limit _ _ Hrepl).
  rewrite (proj2 (Z.eqb_neq _ 0)) by lia. cbn [negb].
  rewrite HEADER_SIZE_val, u64_small by lia. reflexivity.
Qed.

Lemma kmalloc_outcome s l sz :
  heap_ok s l → 0 ≤ sz < 2 ^ 64 →
  ∃ r s' l', kmalloc sz s = Some (r, s') ∧ heap_ok s' l' ∧ rflags_if s' = rflags_if s ∧
    alloc_outcome s l (align_size sz) r s' l'.
Proof.
  intros Hok Hsz. pose proof Hok as [Hrep _]. pose proof arena_bounds as [Eb El].
  destruct (align_size_spec sz Hsz) as (Ha & Ha16 & Hage).
  set (req := align_size sz) in *.
  assert (∀ s', g_heap_next s' = g_heap_next s → alloc_outcome s l req 0 s' l) as Hnull
    by (intros; by constructor).
  destruct (decide (sz = 0)) as [->|Hsz0].
  { exists 0, s, l. unfold kmalloc. rewrite orb_true_r. auto 10. }
  destruct (decide (req = 0)) as [E0|E0].
  { exists 0, s, l. unfold kmalloc. fold req. rewrite (proj2 (Z.eqb_eq req 0)) by done. destruct (_ || _); auto 10. }
  assert (16 ≤ req) by (Z.div_mod_to_equations; lia).
  assert (heap_ok (heap_lock s) l) as Hokl by (by eapply heap_ok_frame).
  destruct (decide (Z.of_nat (length l) ≤ MAX_BLOCKS)) as [Hlen|Hlen]; cycle 1.
  { unfold kmalloc. rewrite (hr_ready _ _ Hrep), (proj2 (Z.eqb_neq sz 0)) by done. cbn [negb orb].
    fold req. rewrite (proj2 (Z.eqb_neq req 0)) by done. set (sl := heap_lock s) in *.
    rewrite (heap_validate_rep sl l), (proj2 (Z.leb_gt _ _)) by (apply Hokl || lia).
    eexists 0, _, l. split; [reflexivity|].
    split; [apply heap_ok_unlock; by eapply heap_ok_frame|].
    split; [by apply unlock_if|]. apply Hnull. by rewrite unlock_next. }
  destruct (split_fit req l) as [[[l1 b] l2]|] eqn:Ef.
  - pose proof (kmalloc_fit s l sz l1 b l2 Hok Hlen Hsz0 E0 Ef) as Ek. fold req in Ek.
    apply split_fit_Some in Ef as (-> & Hfit & Hno).
    destruct (take_block_ok (heap_lock s) l1 b l2 req Hokl Hfit ltac:(lia) Ha16) as (Hok' & Hn' & Hi').
    eexists _, _, _. split; [exact Ek|]. split; [by apply heap_ok_unlock|].
    split; [apply unlock_if; rewrite Hi'; reflexivity|].
    apply ao_fit; [lia|done|done|done|]. rewrite unlock_next. exact Hn'.
  - unfold kmalloc. rewrite (hr_ready _ _ Hrep), (proj2 (Z.eqb_neq sz 0)) by done. cbn [negb orb].
    fold req. rewrite (proj2 (Z.eqb_neq req 0)) by done. set (sl := heap_lock s) in *.
    pose proof Hokl as [Hrepl _]. pose proof walk_fuel_val as Hwf.
    rewrite (heap_validate_rep sl l), (proj2 (Z.leb_le _ _)), (hr_head _ _ Hrepl) by done.
    unfold MAX_BLOCKS in Hlen.
    rewrite (first_fit_seg sl walk_fuel req 0 HEAP_BASE l (g_heap_next s));
      [|lia|apply (hr_seg _ _ Hrepl)|lia]. rewrite Ef.
    apply split_fit_None in Ef. cbn [Z.eqb negb].
    destruct (grow_spec sl l req Hokl ltac:(unfold MAX_BLOCKS; lia) ltac:(lia) Ha16)
      as (r & s' & Eg & Hi' & Hcase). rewrite Eg.
    pose proof (seg_fin _ _ _ _ _ _ (hr_seg _ _ Hrepl)) as Hfin.
    pose proof (seg_span _ _ _ _ _ _ (hr_seg _ _ Hrepl)). pose proof (hr_limit _ _ Hrepl) as Hlim.
    change (g_heap_next sl) with (g_heap_next s) in *.
    destruct Hcase as [(-> & Hok' & _ & Hn')|(cap & -> & Hok' & _)].
    + rewrite Z.eqb_refl. eexists _, _, _. split; [reflexivity|].
      split; [by apply heap_ok_unlock|]. split; [apply unlock_if; by rewrite Hi'|].
      apply Hnull. rewrite unlock_next. exact Hn'.
    + eexists _, _, _. split; [reflexivity|]. split; [by apply heap_ok_unlock|]. split; [apply unlock_if; by rewrite Hi'|].
      rewrite (proj2 (Z.eqb_neq _ 0)) by lia.
      rewrite HEADER_SIZE_val, u64_small, Hfin by lia. apply ao_grow; [lia| |done].
      destruct Hok' as [[_ [_ ((_ & _ & Hcap) & _ & _)]%seg_app _ _ _ _ _ _] _]. simpl in Hcap. lia.
Qed.

Lemma kmalloc_contract s l sz :
  heap_ok s l → 0 ≤ sz < 2 ^ 64 →
  ∃ r s' l', kmalloc sz s = Some (r, s') ∧ heap_ok s' l' ∧ rflags_if s' = rflags_if s ∧
  StronglySorted before (live_blocks l') ∧
  ((r = 0 ∧ live_blocks l' = live_blocks l) ∨
   ∃ L1 L2 c, live_blocks l = L1 ++ L2 ∧ live_blocks l' = L1 ++ (r, c) :: L2 ∧
     sz ≤ c ∧ r mod 16 = 0 ∧
     (∀ w, r ≤ w < r + c → vm_virt_to_phys w (h_vm s') ≠ 0)).
Proof.
  intros Hok Hsz. destruct (kmalloc_outcome s l sz Hok Hsz) as (r & s' & l' & E & Hok' & Hi & Ho).
  exists r, s', l'. split; [done|]. split; [done|]. split; [done|].
  pose proof Hok' as [[_ Hseg _ _ _ _ _ _] (O & _ & Hmap)].
  split; [by eapply live_sorted|].
  assert (∀ L1 L2 c, live_blocks l' = L1 ++ (r, c) :: L2 → sz ≤ c → live_blocks l = L1 ++ L2 →
    ∃ L1 L2 c, live_blocks l = L1 ++ L2 ∧ live_blocks l' = L1 ++ (r, c) :: L2 ∧
     sz ≤ c ∧ r mod 16 = 0 ∧ (∀ w, r ≤ w < r + c → vm_virt_to_phys w (h_vm s') ≠ 0)) as Hfin.
  { intros L1 L2 c El Hc El'. exists L1, L2, c. split_and!; try done;
      destruct (live_bounds _ _ _ _ _ _ (r, c) Hseg HEAP_BASE_16) as (? & ? & ? & ?);
      try (fold (live_blocks l'); rewrite El; set_solver); [done|].
    simpl in *. intros w Hw. apply Hmap. lia. }
  destruct (align_size_spec sz Hsz) as (_ & _ & Hage).
  destruct Ho as [s'|s' l1 b l2 Hr -> Hfit _ Hn|s' cap Hr Hcap Hno].
  - by left.
  - right. apply andb_true_iff in Hfit as [Hf Hc].
    destruct (live_taken (HEAP_BASE + span l1) (align_size sz) b l2 Hf ltac:(lia)) as (c & Hc' & El).
    unfold live_blocks in *. eapply (Hfin (live HEAP_BASE l1) _ c).
    + rewrite live_app, El. reflexivity.
    + lia.
    + by rewrite live_app.
  - right. unfold live_blocks in *. eapply (Hfin (live HEAP_BASE l) [] cap).
    + by rewrite live_app.
    + lia.
    + by rewrite app_nil_r.
Qed.

(** On a well-formed heap [kmalloc] always returns, keeps the heap well formed (the
    blocks tile the mapped arena, no two neighbours are free, the free-byte and allocation
    counters are exact) and restores the interrupt flag. It returns NULL and leaves every
    live block alone, or returns the 16-byte aligned start of a new live block of at
    least the requested size: the other live blocks are unchanged, all live blocks are
    disjoint, and every byte of them is mapped. *)
Theorem kmalloc_correct s l sz :
  heap_ok s l → 0 ≤ sz < 2 ^ 64 →
  ∃ r s' l', kmalloc sz s = Some (r, s') ∧ heap_ok s' l' ∧ rflags_if s' = rflags_if s ∧
  StronglySorted before (live_blocks l') ∧
  ((r = 0 ∧ live_blocks l' = live_blocks l) ∨
   ∃ L1 L2 c, live_blocks l = L1 ++ L2 ∧ live_blocks l' = L1 ++ (r, c) :: L2 ∧
     sz ≤ c ∧ r mod 16 = 0 ∧
     (∀ w, r ≤ w < r + c → vm_virt_to_phys w (h_vm s') ≠ 0)).
Proof. apply kmalloc_contract. Qed.

Lemma live_elem a l x :
  x ∈ live a l → ∃ l1 b l2, l = l1 ++ b :: l2 ∧ a_free b = false ∧ x = (a + span l1 + 48, a_cap b).
Proof.
  revert a. induction l as [|b l IH]; intros a; simpl; [by intros ?%elem_of_nil|].
  intros [Hx|Hx]%elem_of_app.
  - destruct (a_free b) eqn:Hb; [by apply elem_of_nil in Hx|]. apply list_elem_of_singleton in Hx as ->.
    exists [], b, l. split_and!; [done|done|]. f_equal. simpl. lia.
  - destruct (IH _ Hx) as (l1 & b' & l2 & -> & Hb & ->). exists (b :: l1), b', l2.
    split_and!; [done|done|]. f_equal. simpl. lia.
Qed.

Lemma release_block_ok s l1 b l2 (s' := release_block (HEAP_BASE + span l1) s) :
  heap_ok s (l1 ++ b :: l2) → a_free b = false → Z.of_nat (length (l1 ++ b :: l2)) ≤ MAX_BLOCKS →
  heap_ok s' (a_release l1 b l2) ∧ rflags_if s' = rflags_if s ∧
  g_used_bytes s' = (if g_used_bytes s >=? a_size b then u64 (g_used_bytes s - a_size b)
                     else g_used_bytes s).
Proof.
  intros [[R1 R2 R3 R4 R5 R6 R7 R8] (O & Hinv & Hmap)] Hb Hlen.
  destruct (release_block_seg s l1 b l2 _ R2 R4 Hb R6)
    as (Hs & Hf & Hal & Hu & Hr & Hh & Hn & Hv & Hi).
  fold s' in Hs, Hf, Hal, Hu, Hr, Hh, Hn, Hv, Hi. clearbody s'.
  destruct (a_release_facts l1 b l2 Hb R8) as (Hne & Hnl & Hadj).
  split; [|done]. split; [|exists O; rewrite Hv, Hn; done].
  pose proof (n_live_bound (l1 ++ b :: l2)) as Hb1. pose proof (n_live_bound (a_release l1 b l2)).
  unfold MAX_BLOCKS in Hlen.
  split; rewrite ?Hn; try done; [congruence| |].
  - rewrite Hh, R3. destruct (a_release l1 b l2); [done|]. by destruct l1.
  - rewrite Hal, R7, Hnl in *. rewrite (proj2 (Z.eqb_neq _ 0)) by lia. rewrite u64_small; lia.
Qed.

(** The checks of [kfree] accept a live block. *)
Lemma kfree_live s l1 b l2 :
  heap_ok s (l1 ++ b :: l2) → a_free b = false → Z.of_nat (length (l1 ++ b :: l2)) ≤ MAX_BLOCKS →
  kfree (HEAP_BASE + span l1 + 48) s =
  Some (heap_unlock (rflags_if s) (release_block (HEAP_BASE + span l1) (heap_lock s))).
Proof.
  intros [Hrep _] Hb Hlen. pose proof Hrep as [R1 R2 R3 R4 R5 R6 R7 R8].
  pose proof R2 as [Hs1 ((? & _) & Hm & Hs2)]%seg_app.
  pose proof (seg_fin _ _ _ _ _ _ Hs2) as Hfin. pose proof (seg_span _ _ _ _ _ _ Hs1).
  pose proof (seg_span _ _ _ _ _ _ Hs2). pose proof arena_bounds as [Eb El].
  unfold kfree. rewrite R1, HEADER_SIZE_val. cbn [negb orb].
  rewrite (proj2 (Z.eqb_neq _ 0)) by lia. rewrite (proj2 (Z.ltb_ge _ _)) by lia.
  rewrite Z.geb_leb, (proj2 (Z.leb_gt _ _)) by lia. cbn [orb].
  replace (HEAP_BASE + span l1 + 48 - 48) with (HEAP_BASE + span l1) by lia.
  assert (heap_rep (heap_lock s) (l1 ++ b :: l2)) as Hrepl by (by destruct Hrep).
  rewrite (heap_validate_rep _ _ Hrepl), (proj2 (Z.leb_le _ _) Hlen).
  change (blk (heap_lock s) (HEAP_BASE + span l1)) with (blk s (HEAP_BASE + span l1)).
  rewrite (blk_Some _ _ _ Hm). cbn [magic flags hdr]. rewrite Hb. reflexivity.
Qed.

Lemma kfree_contract s l r c :
  heap_ok s l → Z.of_nat (length l) ≤ MAX_BLOCKS → (r, c) ∈ live_blocks l →
  ∃ s' l' L1 L2, kfree r s = Some s' ∧ heap_ok s' l' ∧ rflags_if s' = rflags_if s ∧
    live_blocks l = L1 ++ (r, c) :: L2 ∧ live_blocks l' = L1 ++ L2.
Proof.
  intros Hok Hlen (l1 & b & l2 & -> & Hb & [= -> ->])%live_elem.
  assert (heap_ok (heap_lock s) (l1 ++ b :: l2)) as Hokl by (by eapply heap_ok_frame).
  destruct (release_block_ok _ _ _ _ Hokl Hb Hlen) as (Hok' & Hi & _).
  destruct (live_release HEAP_BASE l1 b l2 Hb) as [E1 E2].
  rewrite (kfree_live s l1 b l2 Hok Hb Hlen).
  eexists _, _, _, _. split; [reflexivity|]. split; [by apply heap_ok_unlock|].
  split; [apply unlock_if; rewrite Hi; reflexivity|]. split; [exact E1|exact E2].
Qed.

(** On a well-formed heap [kfree] of a live block always returns, keeps the heap well
    formed (merging it with its free neighbours), restores the interrupt flag, and removes
    exactly that block from the live ones. *)
Theorem kfree_correct s l r c :
  heap_ok s l → Z.of_nat (length l) ≤ MAX_BLOCKS → (r, c) ∈ live_blocks l →
  ∃ s' l' L1 L2, kfree r s = Some s' ∧ heap_ok s' l' ∧ rflags_if s' = rflags_if s ∧
    live_blocks l = L1 ++ (r, c) :: L2 ∧ live_blocks l' = L1 ++ L2.
Proof. apply kfree_contract. Qed.

(** [kmalloc] is first fit: when some free block is large enough it takes the one at
    the lowest address, without growing the arena. *)
Theorem kmalloc_first_fit s l sz b :
  heap_ok s l → Z.of_nat (length l) ≤ MAX_BLOCKS → 0 < sz ≤ 2 ^ 64 - 16 →
  b ∈ l → a_free b = true → align_size sz ≤ a_cap b →
  ∃ s' l1 b1 l2, kmalloc sz s = Some (HEAP_BASE + span l1 + 48, s') ∧
    l = l1 ++ b1 :: l2 ∧ fits (align_size sz) b1 = true ∧
    Forall (λ b, fits (align_size sz) b = false) l1 ∧
    g_heap_next s' = g_heap_next s.
Proof.
  intros Hok Hlen Hsz Hb Hf Hc. pose proof (align_size_pos sz Hsz) as Hreq.
  destruct (align_size_spec sz ltac:(lia)) as (_ & H16 & _).
  destruct (split_fit (align_size sz) l) as [[[l1 b1] l2]|] eqn:Ef; cycle 1.
  { apply split_fit_None in Ef. apply list.Forall_forall with (x := b) in Ef; [|done].
    unfold fits in Ef. rewrite Hf in Ef. simpl in Ef. lia. }
  pose proof (kmalloc_fit s l sz l1 b1 l2 Hok Hlen ltac:(lia) ltac:(lia) Ef) as Ek.
  apply split_fit_Some in Ef as (-> & Hfit & Hno).
  assert (heap_ok (heap_lock s) (l1 ++ b1 :: l2)) as Hokl by (by eapply heap_ok_frame).
  destruct (take_block_ok _ l1 b1 l2 (align_size sz) Hokl Hfit) as (_ & Hn & _); [|done|].
  { Z.div_mod_to_equations. lia. }
  eexists _, l1, b1, l2. split; [exact Ek|]. split_and!; try done.
  rewrite unlock_next. exact Hn.
Qed.

(** [heap_validate] accepts a well-formed heap of at most 1000001 blocks, and rejects
    (counting a corruption that is not there) every well-formed heap with more. *)
Theorem heap_validate_wf s l :
  heap_ok s l →
  heap_validate s = Some (if Z.of_nat (length l) <=? 1000001 then (true, s)
                          else (false, s <| g_corruption_count := u64 (g_corruption_count s + 1) |>)).
Proof. intros [Hrep _]. apply (heap_validate_rep s l Hrep). Qed.

(** The used-byte counter drifts. When [kmalloc] takes a free block that is too small
    to split, it adds the requested size to the counter but records the whole capacity in
    the block, and the matching [kfree] does not subtract (or subtracts more than was added):
    starting with no used bytes, allocating and releasing the block leaves the counter at
    the requested size although exactly the initial blocks are live. *)
Theorem heap_used_bytes_drift s l l1 b l2 sz r s1 s2 :
  heap_ok s l → Z.of_nat (length l) ≤ MAX_BLOCKS → 0 < sz ≤ 2 ^ 64 - 16 →
  split_fit (align_size sz) l = Some (l1, b, l2) →
  align_size sz < a_cap b < align_size sz + 64 → g_used_bytes s = 0 →
  kmalloc sz s = Some (r, s1) → kfree r s1 = Some s2 →
  g_used_bytes s2 = align_size sz ∧ ∃ l', heap_ok s2 l' ∧ live_blocks l' = live_blocks l.
Proof.
  intros Hok Hlen Hsz Ef Hc Hu Ek Efr. pose proof (align_size_pos sz Hsz) as Hpos.
  destruct (align_size_spec sz ltac:(lia)) as (Hrange & H16 & _).
  assert (16 ≤ align_size sz) by (Z.div_mod_to_equations; lia).
  rewrite (kmalloc_fit s l sz l1 b l2 Hok Hlen ltac:(lia) ltac:(lia) Ef) in Ek.
  injection Ek as <- <-. apply split_fit_Some in Ef as (-> & Hfit & _).
  assert (heap_ok (heap_lock s) (l1 ++ b :: l2)) as Hokl by (by eapply heap_ok_frame).
  destruct (take_block_ok _ l1 b l2 _ Hokl Hfit ltac:(lia) H16) as (Hok1 & _).
  apply andb_true_iff in Hfit as [Hf _]. pose proof Hokl as [Hrepl _].
  destruct (take_block_rep _ l1 b l2 (align_size sz) Hrepl Hf ltac:(lia) H16) as (_ & Hu1 & _).
  change (g_used_bytes (heap_lock s)) with (g_used_bytes s) in Hu1.
  rewrite Hu, Z.add_0_l, u64_small in Hu1 by lia.
  unfold taken in Hok1. rewrite (proj2 (Z.ltb_lt _ _)) in Hok1 by lia. cbn [app] in Hok1.
  set (b' := mkAblock (a_cap b) (a_cap b) false) in *.
  set (s1 := heap_unlock (rflags_if s) (take_block _ _ _)) in *.
  assert (heap_ok s1 (l1 ++ b' :: l2)) as Hok1' by (by apply heap_ok_unlock).
  assert (g_used_bytes s1 = align_size sz) as Hu1' by (subst s1; rewrite unlock_used; exact Hu1).
  clearbody s1. rewrite length_app in Hlen. cbn [length] in Hlen.
  assert (Z.of_nat (length (l1 ++ b' :: l2)) ≤ MAX_BLOCKS) as Hlen' by (rewrite length_app; simpl; lia).
  rewrite (kfree_live s1 l1 b' l2 Hok1' eq_refl Hlen') in Efr. injection Efr as <-.
  assert (heap_ok (heap_lock s1) (l1 ++ b' :: l2)) as Hokl' by (by eapply heap_ok_frame).
  destruct (release_block_ok _ l1 b' l2 Hokl' eq_refl Hlen') as (Hok2 & _ & Hu2).
  change (g_used_bytes (heap_lock s1)) with (g_used_bytes s1) in Hu2.
  rewrite Hu1' in Hu2. cbn [a_size b'] in Hu2. rewrite Z.geb_leb, (proj2 (Z.leb_gt _ _)) in Hu2 by (simpl; lia).
  split; [rewrite unlock_used; exact Hu2|].
  exists (a_release l1 b' l2). split; [by apply heap_ok_unlock|].
  unfold live_blocks. rewrite (proj2 (live_release HEAP_BASE l1 b' l2 eq_refl)), live_app.
  cbn [live]. by rewrite Hf.
Qed.

(** *** Clients of the heap

    A run of [kmalloc] and [kfree] together with the pointers the clients
    hold and the sizes they asked for. *)
Inductive heap_step : heap V * gmap Z Z → heap V * gmap Z Z → Prop :=
| hs_alloc s hd sz r s' :
   0 ≤ sz < 2 ^ 64 → kmalloc sz s = Some (r, s') → r ≠ 0 → heap_step (s, hd) (s', <[r := sz]> hd)
| hs_fail s hd sz s' :
   0 ≤ sz < 2 ^ 64 → kmalloc sz s = Some (0, s') → heap_step (s, hd) (s', hd)
| hs_free s hd r z s' :
   hd !! r = Some z → kfree r s = Some s' → heap_step (s, hd) (s', delete r hd).

(** Held pointers are live blocks, large enough. *)
Definition client_inv (c : heap V * gmap Z Z) : Prop :=
  ∃ l, heap_ok c.1 l ∧
  ∀ r z, c.2 !! r = Some z → ∃ cap, (r, cap) ∈ live_blocks l ∧ z ≤ cap.

(** Beyond the validation bound a release does nothing. *)
Lemma kfree_full s l r c :
  heap_ok s l → MAX_BLOCKS < Z.of_nat (length l) → (r, c) ∈ live_blocks l →
  ∃ s', kfree r s = Some s' ∧ heap_ok s' l.
Proof.
  intros Hok Hlen (l1 & b & l2 & -> & Hb & [= -> ->])%live_elem.
  pose proof Hok as [Hrep _]. pose proof Hrep as [R1 R2 R3 R4 R5 R6 R7 R8].
  pose proof R2 as [Hs1 ((? & _) & Hm & Hs2)]%seg_app.
  pose proof (seg_fin _ _ _ _ _ _ Hs2) as Hfin. pose proof (seg_span _ _ _ _ _ _ Hs1).
  pose proof (seg_span _ _ _ _ _ _ Hs2). pose proof arena_bounds as [Eb El].
  unfold kfree. rewrite R1, HEADER_SIZE_val. cbn [negb orb].
  rewrite (proj2 (Z.eqb_neq _ 0)) by lia. rewrite (proj2 (Z.ltb_ge _ _)) by lia.
  rewrite Z.geb_leb, (proj2 (Z.leb_gt _ _)) by lia. cbn [orb].
  replace (HEAP_BASE + span l1 + 48 - 48) with (HEAP_BASE + span l1) by lia.
  assert (heap_rep (heap_lock s) (l1 ++ b :: l2)) as Hrepl by (by destruct Hrep).
  rewrite (heap_validate_rep _ _ Hrepl), (proj2 (Z.leb_gt _ _)) by lia.
  rewrite (blk_Some _ _ _ Hm). cbn [magic flags hdr]. rewrite Hb.
  eexists. split; [reflexivity|]. apply heap_ok_unlock. by eapply heap_ok_frame.
Qed.

(** The pointer of an outcome is new, and away from the live blocks. *)
Lemma live_insert_fresh L1 L2 r c x :
  StronglySorted before (L1 ++ (r, c) :: L2) → 0 ≤ c → 0 ≤ x.2 → x ∈ L1 ++ L2 →
  x.1 + x.2 ≤ r ∨ r + c ≤ x.1.
Proof.
  intros Hs Hc Hx. induction L1 as [|y L1 IH]; simpl in *.
  - intros Hin. apply StronglySorted_inv in Hs as [_ Hs]. apply list.Forall_forall with (x := x) in Hs; [|done].
    right. exact Hs.
  - apply StronglySorted_inv in Hs as [Hs Hy]. intros [->|Hin]%elem_of_cons; [|by apply IH].
    apply list.Forall_forall with (x := (r, c)) in Hy; [|set_solver]. left. exact Hy.
Qed.

Lemma heap_step_inv c c' : client_inv c → heap_step c c' → client_inv c'.
Proof.
  intros (l & Hok & HH) Hst. destruct Hst as [s H1 sz r s' Hsz E Hr|s H1 sz s' Hsz E|s H1 r z s' Hr E];
    simpl in *.
  - destruct (kmalloc_contract s l sz Hok Hsz) as (r' & s'' & l' & E' & Hok' & _ & Hs & Hc).
    rewrite E in E'. injection E' as <- <-. exists l'. split; [done|]. simpl.
    destruct Hc as [[-> _]|(L1 & L2 & c & E1 & E2 & Hc & _)]; [done|].
    intros r' z [[<- <-]|[Hne Hz]]%lookup_insert_Some.
    + exists c. rewrite E2. set_solver.
    + destruct (HH r' z Hz) as (cap & Hin & Hz'). exists cap. rewrite E1 in Hin. rewrite E2. set_solver.
  - destruct (kmalloc_contract s l sz Hok Hsz) as (r' & s'' & l' & E' & Hok' & _ & Hs & Hc).
    rewrite E in E'. injection E' as <- <-. exists l'. split; [done|]. simpl.
    destruct Hc as [[_ E2]|(L1 & L2 & c & E1 & E2 & Hc & _)]; [by rewrite E2|].
    intros r' z Hz. destruct (HH r' z Hz) as (cap & Hin & Hz'). exists cap.
    rewrite E1 in Hin. rewrite E2. set_solver.
  - destruct (HH r z Hr) as (cap & Hin & _).
    destruct (decide (Z.of_nat (length l) ≤ MAX_BLOCKS)) as [Hlen|Hlen].
    + destruct (kfree_contract s l r cap Hok Hlen Hin) as (s'' & l' & L1 & L2 & E' & Hok' & _ & E1 & E2).
      rewrite E in E'. injection E' as <-. exists l'. split; [done|]. simpl.
      intros r' z' [Hne Hz]%lookup_delete_Some. destruct (HH r' z' Hz) as (cap' & Hin' & Hz').
      exists cap'. rewrite E1 in Hin'. rewrite E2. split; [|done]. set_unfold. naive_solver.
    + destruct (kfree_full s l r cap Hok ltac:(lia) Hin) as (s'' & E' & Hok').
      rewrite E in E'. injection E' as <-. exists l. split; [done|]. simpl.
      intros r' z' [Hne Hz]%lookup_delete_Some. by apply HH.
Qed.

(** After any run, an allocation returns, and what it returns is mapped and
    away from everything the clients hold. *)
Lemma heap_run_safe s0 s hd sz :
  heap_ok s0 [] → rtc heap_step (s0, ∅) (s, hd) → 0 ≤ sz < 2 ^ 64 →
  ∃ r s', kmalloc sz s = Some (r, s') ∧
  (r ≠ 0 → r mod 16 = 0 ∧ (∀ w, r ≤ w < r + sz → vm_virt_to_phys w (h_vm s') ≠ 0) ∧
     ∀ r' z', hd !! r' = Some z' → r' + z' ≤ r ∨ r + sz ≤ r').
Proof.
  intros Hok0 Hrun Hsz. assert (client_inv (s, hd)) as (l & Hok & HH).
  { revert Hrun. apply (rtc_ind_r (R := heap_step) client_inv).
    - exists []. split; [done|]. simpl. intros r z Hz. by rewrite lookup_empty in Hz.
    - intros; by eapply heap_step_inv. }
  destruct (kmalloc_contract s l sz Hok Hsz) as (r & s' & l' & E' & Hok' & _ & Hs & Hc).
  exists r, s'. split; [done|]. intros Hr.
  destruct Hc as [[? _]|(L1 & L2 & c & E1 & E2 & Hc & Hal & Hm)]; [done|]. split; [done|].
  split; [intros w Hw; apply Hm; lia|]. intros r' z' Hz. simpl in HH.
  destruct (HH r' z' Hz) as (cap & Hin & Hz').
  pose proof Hok as [[_ Hseg _ _ _ _ _ _] _].
  destruct (live_bounds _ _ _ _ _ _ (r', cap) Hseg HEAP_BASE_16 Hin) as (_ & _ & _ & ?).
  rewrite E2 in Hs. rewrite E1 in Hin. simpl in *.
  destruct (live_insert_fresh L1 L2 r c (r', cap) Hs) as [Hd|Hd]; simpl in *; (done || lia).
Qed.
End contract.

End Heap.
