(* ===== verification/Memory.v ===== *)
(** * The heap over the page allocator and the VMM

    [pmm.c], [paging.c] and [vmm.c] implement the interface [Heap.VmBackend]
    that the kernel heap is verified against; the heap theorems therefore
    hold of the assembled memory subsystem. *)

From Stdlib Require Import Lia ZArith Bool.
From stdpp Require Import base list gmap sets numbers sorting.
From S2P Require Import Prelude Pmm Paging Heap.

Local Open Scope Z_scope.

Section instance.
Context (L : paging_layout).

(** The calls heap.c makes, on the VMM state. *)
#[local] Instance vmm_backend : Heap.VmBackend vmm := {|
  Heap.vm_alloc_page v :=
    let '(r, p) := pg_alloc_page (vmm_paging v) in (r, v <| vmm_paging := p |>);
  Heap.vm_free_page a v := v <| vmm_paging := pg_free_page a (vmm_paging v) |>;
  Heap.vm_map_page va pa flags v :=
    let '(r, v) := vmm_map_page L va pa flags v in (negb (r =? 0), v);
  Heap.vm_unmap_page va v := (vmm_unmap_page L va v).2;
  Heap.vm_virt_to_phys va v := vmm_virt_to_phys L va v;
  Heap.vm_page_size _ := VMM_PAGE_SIZE;
  Heap.vm_total_pages v := g_total_pages (pg_pmm (vmm_paging v));
|}.

(** A frame held by the client: allocated, and not used as a page table. *)
Definition held (p : paging) (T : gmap Z nat) (a : Z) : Prop :=
  (0 < a < 2 ^ 52) ∧ a mod 4096 = 0 ∧ ¬ page_free (pg_pmm p) (a / 4096) ∧ T !! a = None.

Definition vmm_inv (v : vmm) (O : gset Z) : Prop :=
  vmm_ready v = true ∧
  ∃ T, tables_ok (vmm_paging v) T ∧ T !! pml4 L = Some 4%nat ∧ ∀ a, a ∈ O → held (vmm_paging v) T a.

Lemma vmm_virt_to_phys_ready v va :
  vmm_ready v = true →
  vmm_virt_to_phys L va v = virt_to_phys_root (phys_mem (vmm_paging v)) (pml4 L) va.
Proof. intros E. unfold vmm_virt_to_phys. by rewrite E. Qed.

Lemma page_of_arena w va :
  Heap.in_arena w → Heap.in_arena va → va mod 4096 = 0 →
  page_of w = page_of va ↔ w - w mod 4096 = va.
Proof.
  unfold Heap.in_arena, Heap.HEAP_BASE, Heap.HEAP_LIMIT, page_of. intros Hw Hva Hal.
  assert (0xFFFF800000000 ≤ w / 4096 < 0xFFFF900000000) by (Z.div_mod_to_equations; lia).
  assert (0xFFFF800000000 ≤ va / 4096 < 0xFFFF900000000) by (Z.div_mod_to_equations; lia).
  assert (∀ x, 0xFFFF800000000 ≤ x < 0xFFFF900000000 → x mod 2 ^ 36 = x - 0xFFFF * 2 ^ 36) as Hx.
  { intros x Hx. change (2 ^ 36) with 68719476736. Z.div_mod_to_equations. lia. }
  rewrite !Hx by done. split; intros; Z.div_mod_to_equations; lia.
Qed.

Lemma tables_not_held s T t l a :
  tables_ok s T → T !! t = Some l → held s T a → t / 4096 ≠ a / 4096.
Proof.
  intros Hok Ht (_ & Ha & _ & Hn) E. destruct (tok_table _ _ Hok _ _ Ht) as (_ & Ht' & _).
  assert (t = a) by (Z.div_mod_to_equations; lia). congruence.
Qed.

(** Frames leaving the free set do not disturb the tables or the held frames. *)
Lemma inv_pmm v T (O : gset Z) p (v' := v <| vmm_paging := (vmm_paging v) <| pg_pmm := p |> |>) :
  tables_ok (vmm_paging v) T → (∀ a, a ∈ O → held (vmm_paging v) T a) → pmm_wf p →
  (∀ q, page_free p q → page_free (pg_pmm (vmm_paging v)) q) →
  tables_ok (vmm_paging v') T ∧ ∀ a, a ∈ O → held (vmm_paging v') T a.
Proof.
  intros Hok HO Hwf Hp. split.
  - by refine (ext_ok _ _ _ _ (extends_pmm _ _ _ Hok _ _ _)).
  - intros a Ha. destruct (HO a Ha) as (? & ? & Hn & ?). split_and!; try done; try lia.
    intros Hf. by apply Hn, Hp.
Qed.

Lemma vmm_alloc_law v O r v' :
  vmm_inv v O → Heap.vm_alloc_page v = (r, v') →
  (∀ va, Heap.vm_virt_to_phys va v' = Heap.vm_virt_to_phys va v) ∧
  (r = 0 → vmm_inv v' O) ∧
  (r ≠ 0 → (r ∉ O) ∧ (0 < r < 2 ^ 52) ∧ r mod 4096 = 0 ∧ vmm_inv v' ({[r]} ∪ O)).
Proof.
  intros (Hr & T & Hok & Hroot & HO). simpl. unfold pg_alloc_page.
  pose proof (tok_pmm _ _ Hok) as Hwf.
  pose proof (pmm_alloc_rep _ _ (pmm_rep_free_set _ Hwf)) as Ha.
  destruct (pmm_alloc_page (pg_pmm (vmm_paging v))) as [x p] eqn:E. intros [= <- <-].
  split; [done|].
  destruct Ha as [(_ & -> & ->)|(q & Hq & _ & -> & Hrep')].
  { split; [|done]. intros _. split; [done|]. exists T.
    destruct (inv_pmm v T O (pg_pmm (vmm_paging v))) as [? ?]; auto. }
  apply elem_of_free_set in Hq as Hfree. destruct (page_addr q) as [Hal Hdiv].
  rewrite PAGE_SIZE_val in *. pose proof Hfree as [Hq0 _]. pose proof Hwf as (_ & Htot & _).
  change PMM_MAX_PAGES with 16777216 in Htot.
  assert (∀ q', page_free p q' → page_free (pg_pmm (vmm_paging v)) q' ∧ q' ≠ q) as Hp.
  { intros q' Hq'%(proj2 Hrep'). apply elem_of_difference in Hq' as [Hq' Hn].
    apply elem_of_free_set in Hq'. set_solver. }
  destruct (inv_pmm v T O p Hok HO (proj1 Hrep')) as [Hok' HO'].
  { intros q' Hq'. by apply Hp. }
  split; [intros _; split; [done|]; by exists T|]. intros Hne.
  assert (T !! (q * 4096) = None) as HT.
  { destruct (T !! (q * 4096)) as [l|] eqn:Et; [|done].
    destruct (tok_table _ _ Hok _ _ Et) as (_ & _ & _ & Hn). by rewrite Hdiv in Hn. }
  split; [|split; [lia|split; [done|]]].
  - intros Ha. destruct (HO _ Ha) as (_ & _ & Hn & _). by rewrite Hdiv in Hn.
  - split; [done|]. exists T. split; [done|]. split; [done|].
    intros a [->%elem_of_singleton|Ha]%elem_of_union; [|by apply HO'].
    split_and!; [lia|lia|done| |done]. rewrite Hdiv. intros Hf%Hp. tauto.
Qed.

Lemma vmm_free_law v O a :
  vmm_inv v O → a ∈ O →
  vmm_inv (Heap.vm_free_page a v) (O ∖ {[a]}) ∧
  (∀ va, Heap.vm_virt_to_phys va (Heap.vm_free_page a v) = Heap.vm_virt_to_phys va v).
Proof.
  intros (Hr & T & Hok & Hroot & HO) Ha. simpl. split; [|done].
  destruct (HO a Ha) as (Ha0 & Hal & Hn & HT).
  destruct (pmm_free_rep _ _ a (pmm_rep_free_set _ (tok_pmm _ _ Hok)) ltac:(lia)) as [Hwf' HF].
  set (p' := pmm_free_page a (pg_pmm (vmm_paging v))) in *.
  assert (∀ q, page_free p' q → page_free (pg_pmm (vmm_paging v)) q ∨ q = a / 4096) as Hp.
  { intros q Hq%HF. apply elem_of_union in Hq as [Hq|Hq].
    - left. by apply elem_of_free_set.
    - right. unfold free_target in Hq. rewrite PAGE_SIZE_val in Hq. destruct (_ && _); set_solver. }
  split; [done|]. exists T. split; [|split; [done|]].
  - pose proof Hok as [H1 H2 H3 H4 H5]. split; try done.
    intros t l Ht. destruct (H2 t l Ht) as (? & ? & ? & Hnf). split_and!; try lia.
    intros [Hf|Hf]%Hp; [done|]. by apply (tables_not_held _ _ _ _ a Hok Ht (HO a Ha)).
  - intros b [Hb Hne]%elem_of_difference. destruct (HO b Hb) as (? & Hbl & Hnb & ?).
    split_and!; try done; try lia. intros [Hf|Hf]%Hp; [done|].
    apply Hne, elem_of_singleton. Z.div_mod_to_equations. lia.
Qed.

Lemma vmm_map_law v O va pa flags ok v' :
  vmm_inv v O → pa ∈ O → va mod 4096 = 0 → Heap.in_arena va → 0 ≤ flags < 4096 →
  Heap.vm_map_page va pa flags v = (ok, v') →
  vmm_inv v' O ∧
  (ok = true → ∀ w, Heap.in_arena w → w - w mod 4096 = va → Heap.vm_virt_to_phys w v = 0) ∧
  (∀ w, Heap.in_arena w → Heap.vm_virt_to_phys w v' =
     if ok && (w - w mod 4096 =? va) then pa + w mod 4096 else Heap.vm_virt_to_phys w v).
Proof.
  intros (Hr & T & Hok & Hroot & HO) Hpa Hal Har Hfl. cbn [Heap.vm_map_page vmm_backend].
  destruct (HO pa Hpa) as (Hpr & Hpal & _). unfold vmm_map_page. rewrite Hr. cbn [negb].
  change (VMM_PAGE_SIZE - 1) with (2 ^ 12 - 1). rewrite !land_low_mask by lia.
  change (2 ^ 12) with 4096. rewrite Hal, Hpal, Z.eqb_refl. cbn [negb]. unfold paging_map_page.
  destruct (map_page_root _ va pa flags (vmm_paging v)) as [r p'] eqn:Em.
  destruct (map_page_root_spec _ _ _ _ _ _ _ _ Hok Hroot Em) as (_ & T' & HT & Hok' & [Hg1 Hg2] & Hout & Hin).
  assert (∀ a, a ∈ O → held p' T' a) as HO'.
  { intros a Ha. destruct (HO a Ha) as (? & ? & Hn & HTa). split_and!; try done; try lia.
    - intros Hf. by apply Hn, Hg1.
    - destruct (T' !! a) eqn:E'; [|done]. destruct Hn. apply Hg2; [by eexists|done]. }
  assert (T' !! pml4 L = Some 4%nat) as Hroot' by (by eapply lookup_weaken).
  cbn [Heap.vm_virt_to_phys vmm_backend].
  destruct (Z.eqb_spec r 0) as [->|Hne]; cbn [negb]; intros [= <- <-]; cbn [negb Z.eqb andb].
  - split; [split; [done|]; by exists T'|]. split.
    + intros _ w Hw E. rewrite vmm_virt_to_phys_ready by done. apply Hin; [done|].
      by apply page_of_arena.
    + intros w Hw. rewrite !vmm_virt_to_phys_ready by done. cbn.
      destruct (Z.eqb_spec (w - w mod 4096) va) as [E|E].
      * rewrite (proj2 (Hin eq_refl w (proj2 (page_of_arena w va Hw Har Hal) E))).
        rewrite !entry_addr_spec by lia. rewrite (Z.mod_small flags), Z.sub_diag, Z.lor_0_r by lia.
        rewrite Hpal, Z.sub_0_r. change 0xFFF with (2 ^ 12 - 1).
        rewrite land_low_mask, (lor_add_low _ _ 12); try done; [apply Z.mod_pos_bound; lia].
      * apply Hout; [done|]. right. right. intros E'. apply E. by apply page_of_arena.
  - split; [split; [done|]; by exists T'|]. split; [done|].
    intros w Hw. rewrite !vmm_virt_to_phys_ready by done. apply Hout; [done|]. by left.
Qed.

(** The page of [va] has a page table of its own. *)
Definition vmm_leaf (v : vmm) (va : Z) : Prop :=
  ∃ pt, reach (phys_mem (vmm_paging v)) 4 (pml4 L) va 1 pt.

Lemma vmm_map_leaf v O va pa flags ok v' :
  vmm_inv v O → Heap.vm_map_page va pa flags v = (ok, v') →
  (∀ w, vmm_leaf v w → vmm_leaf v' w) ∧ (ok = true → vmm_leaf v' va).
Proof.
  intros (Hr & T & Hok & Hroot & _). cbn [Heap.vm_map_page vmm_backend].
  unfold vmm_map_page. rewrite Hr. cbn [negb].
  destruct (negb _); [by intros [= <- <-]|]. destruct (negb _); [by intros [= <- <-]|].
  unfold paging_map_page. destruct (map_page_root _ va pa flags (vmm_paging v)) as [r p'] eqn:Em.
  destruct (map_page_root_reach _ _ _ _ _ _ _ _ Hok Hroot Em) as [H1 H2].
  destruct (Z.eqb_spec r 0) as [->|Hne]; cbn [negb]; intros [= <- <-].
  - split; [|intros _; by apply H2]. intros w [pt Hpt]. exists pt. by apply H1.
  - split; [|done]. intros w [pt Hpt]. exists pt. by apply H1.
Qed.

Lemma vmm_unmap_law v O va :
  vmm_inv v O → va mod 4096 = 0 → Heap.in_arena va → vmm_leaf v va →
  Heap.vm_virt_to_phys va v ≠ 0 →
  vmm_inv (Heap.vm_unmap_page va v) O ∧
  (∀ w, vmm_leaf v w → vmm_leaf (Heap.vm_unmap_page va v) w) ∧
  (∀ w, Heap.in_arena w → Heap.vm_virt_to_phys w (Heap.vm_unmap_page va v) =
     if w - w mod 4096 =? va then 0 else Heap.vm_virt_to_phys w v).
Proof.
  intros (Hr & T & Hok & Hroot & HO) Hal Har [pt Hpt].
  cbn [Heap.vm_unmap_page Heap.vm_virt_to_phys vmm_backend]. rewrite vmm_virt_to_phys_ready by done.
  intros Hne. unfold vmm_unmap_page. rewrite Hr. cbn [negb orb].
  change (VMM_PAGE_SIZE - 1) with (2 ^ 12 - 1). rewrite !land_low_mask by lia.
  change (2 ^ 12) with 4096. rewrite Hal, Z.eqb_refl. cbn [negb]. unfold paging_unmap_page.
  assert (unmap_page_root (pml4 L) va (vmm_paging v) = (1, wr pt (pt_index va) 0 (vmm_paging v))) as Eu.
  { unfold unmap_page_root. change 0xFFF with (2 ^ 12 - 1). rewrite land_low_mask by lia.
    change (2 ^ 12) with 4096. rewrite Hal, Z.eqb_refl. cbn [negb].
    rewrite (walk_find _ _ _ _ _ Hok Hroot Hpt).
    rewrite (virt_to_phys_root_table _ _ _ _ Hok Hroot), (reach_xlate _ _ _ _ _ _ _ Hok Hroot Hpt) in Hne.
    destruct (has_bits _ PTE_PRESENT) eqn:Hp; [done|].
    destruct Hne. by apply xlate_absent. }
  destruct (unmap_page_root_spec _ _ _ _ _ _ Hok Hroot Eu) as (Hok' & Hcase & Hout).
  destruct Hcase as [[? _]|[_ Hin]]; [done|]. rewrite Eu.
  pose proof (reach_table _ _ _ _ _ _ _ Hok Hroot Hpt) as HTpt.
  pose proof (level_index_range 1 va) as Hidx.
  set (p' := wr pt (pt_index va) 0 (vmm_paging v)) in *.
  match goal with |- vmm_inv (?p.2) _ ∧ _ => set (v' := p.2) end.
  assert (vmm_ready v' = true ∧ vmm_paging v' = p') as [Hr' Ep] by (subst v'; cbn; by destruct (negb (g_mapped_pages v =? 0))).
  clearbody v'. split; [|split].
  - split; [done|]. exists T. rewrite Ep. split; [done|]. by split.
  - intros w [pt' Hw]. exists pt'. rewrite Ep. by eapply leaf_write_reach.
  - intros w Hw. rewrite !vmm_virt_to_phys_ready, Ep by done.
    destruct (Z.eqb_spec (w - w mod 4096) va) as [E|E].
    + apply Hin. by apply page_of_arena.
    + apply Hout; [done|]. right. intros E'. apply E. by apply page_of_arena.
Qed.

#[local] Instance vmm_backend_laws : Heap.VmBackendLaws vmm.
Proof.
  refine {| Heap.vm_inv := vmm_inv; Heap.vm_leaf := vmm_leaf |}.
  - intros v O Hi r v' E. destruct (vmm_alloc_law v O r v' Hi E) as (H1 & H2 & H3).
    split; [done|]. split; [|done]. intros va [pt Hpt]. exists pt.
    assert (phys_mem (vmm_paging v') = phys_mem (vmm_paging v)) as ->; [|done].
    simpl in E. unfold pg_alloc_page in E. destruct (pmm_alloc_page _). by injection E as <- <-.
  - intros v O a Hi Ha. destruct (vmm_free_law v O a Hi Ha). by split.
  - intros v O va pa flags Hi Hpa Hal Har Hfl ok v' E.
    destruct (vmm_map_law v O va pa flags ok v' Hi Hpa Hal Har Hfl E) as (H1 & H2 & H3).
    destruct (vmm_map_leaf v O va pa flags ok v' Hi E) as [H4 H5].
    split_and!; auto.
  - intros v O va. apply vmm_unmap_law.
Defined.
End instance.

(** ** The assembled kernel heap *)

#[export] Existing Instance vmm_backend.
#[export] Existing Instance vmm_backend_laws.

Lemma heap_init_ok L (s0 : Heap.heap vmm) O :
  vmm_inv L (Heap.h_vm s0) O → g_total_pages (pg_pmm (vmm_paging (Heap.h_vm s0))) ≠ 0 →
  Heap.heap_ok (H0 := vmm_backend_laws L) (Heap.heap_init (H := vmm_backend L) s0) [].
Proof.
  intros Hi Ht. split; [|exists O; split; [done|]; simpl; lia].
  split; simpl; try done. by rewrite (proj2 (Z.eqb_neq _ 0)).
Qed.

(** C1: on the memory subsystem assembled from the page allocator, the page tables, the VMM
    and the heap, and after any sequence of allocations and releases of held blocks since
    [heap_init]: [kmalloc] returns, and a non-NULL result is 16-byte aligned, every byte
    of the requested size translates through the kernel page tables, and the block is
    disjoint from every block a client still holds. *)
Theorem kernel_heap_safe L (s0 s : Heap.heap vmm) (held : gmap Z Z) sz O :
  vmm_inv L (Heap.h_vm s0) O → g_total_pages (pg_pmm (vmm_paging (Heap.h_vm s0))) ≠ 0 →
  rtc (Heap.heap_step (H := vmm_backend L)) (Heap.heap_init (H := vmm_backend L) s0, ∅) (s, held) →
  0 ≤ sz < 2 ^ 64 →
  ∃ r s', Heap.kmalloc (H := vmm_backend L) sz s = Some (r, s') ∧
  (r ≠ 0 → r mod 16 = 0 ∧
     (∀ w, r ≤ w < r + sz → vmm_virt_to_phys L w (Heap.h_vm s') ≠ 0) ∧
     ∀ r' z', held !! r' = Some z' → r' + z' ≤ r ∨ r + sz ≤ r').
Proof.
  intros Hi Ht Hrun Hsz.
  exact (Heap.heap_run_safe _ s held sz (heap_init_ok L s0 O Hi Ht) Hrun Hsz).
Qed.

(** ** Witnesses *)

Definition demo_layout : paging_layout :=
  mkLayout demo_root 0x201000 (λ i, 0x202000 + 4096 * i) (λ i, 0x206000 + 4096 * i).
Definition demo_vmm : vmm := mkVmm true 0 demo_paging.
Definition demo_heap0 : Heap.heap vmm := Heap.mkHeap ∅ 0 0 0 0 0 0 0 false demo_vmm true.
Definition demo_heap : Heap.heap vmm := Heap.heap_init (H := vmm_backend demo_layout) demo_heap0.

Lemma demo_vmm_inv : vmm_inv demo_layout demo_vmm ∅.
Proof.
  split; [done|]. exists demo_tables. split; [apply demo_tables_ok|]. split; [done|]. set_solver.
Qed.

Lemma demo_heap_ok : Heap.heap_ok (H0 := vmm_backend_laws demo_layout) demo_heap [].
Proof. apply (heap_init_ok demo_layout demo_heap0 ∅ demo_vmm_inv). vm_compute. discriminate. Qed.

(** The heap after one allocation, and after its release. *)
Definition demo_heap1 : Heap.heap vmm :=
  default demo_heap (snd <$> Heap.kmalloc (H := vmm_backend demo_layout) 100 demo_heap).
Definition demo_ptr : Z := 0xFFFF800000000030.
Definition demo_heap2 : Heap.heap vmm :=
  default demo_heap1 (Heap.kfree demo_ptr demo_heap1).

Definition demo_block : Heap.ablock := Heap.mkAblock 112 4048 false.

Lemma demo_kmalloc :
  Heap.kmalloc (H := vmm_backend demo_layout) 100 demo_heap = Some (demo_ptr, demo_heap1).
Proof.
  assert ((fst <$> Heap.kmalloc (H := vmm_backend demo_layout) 100 demo_heap) = Some demo_ptr) as E'
    by (vm_compute; reflexivity).
  unfold demo_heap1. destruct (Heap.kmalloc 100 demo_heap) as [[r s]|]; simpl in *; congruence.
Qed.

Lemma demo_ptr_nz : demo_ptr ≠ 0.
Proof. discriminate. Qed.

Lemma demo_capacity :
  Heap.capacity <$> (Heap.hmem demo_heap1 !! Heap.HEAP_BASE) = Some 4048.
Proof. vm_compute. reflexivity. Qed.

#[local] Opaque demo_heap1 demo_heap demo_ptr.

Lemma demo_heap1_ok : Heap.heap_ok (H0 := vmm_backend_laws demo_layout) demo_heap1 [demo_block].
Proof.
  destruct (Heap.kmalloc_outcome _ _ 100 demo_heap_ok ltac:(lia)) as (r & s' & l' & E & Hok & _ & Ho).
  rewrite demo_kmalloc in E. assert (s' = demo_heap1) as Es by congruence.
  assert (r = demo_ptr) as Er by congruence. clear E.
  destruct Ho as [s2 _|s2 l1 b l2 _ El|s2 cap _ _ _]; [|exfalso; clear Er Es; destruct l1; discriminate El|].
  - by destruct demo_ptr_nz.
  - subst s2. assert (cap = 4048) as ->; [|exact Hok]. pose proof demo_capacity as Hc.
    destruct Hok as [[_ (_ & Hm & _) _ _ _ _ _ _] _].
    rewrite Hm in Hc. simpl in Hc. by injection Hc.
Qed.

Lemma demo_live : (demo_ptr, 4048) ∈ Heap.live_blocks [demo_block].
Proof. left. Qed.

Lemma demo_len : Z.of_nat (length [demo_block]) ≤ Heap.MAX_BLOCKS.
Proof. vm_compute. discriminate. Qed.

Definition demo_free_block : Heap.ablock := Heap.mkAblock 112 4048 true.

Lemma demo_kfree :
  Heap.kfree demo_ptr demo_heap1 =
  Some (Heap.heap_unlock (Heap.rflags_if demo_heap1)
          (Heap.release_block (Heap.HEAP_BASE + Heap.span []) (Heap.heap_lock demo_heap1))).
Proof. exact (Heap.kfree_live demo_heap1 [] demo_block [] demo_heap1_ok eq_refl demo_len). Qed.

Lemma demo_heap2_ok : Heap.heap_ok (H0 := vmm_backend_laws demo_layout) demo_heap2 [demo_free_block].
Proof.
  unfold demo_heap2. rewrite demo_kfree. cbn [default]. apply Heap.heap_ok_unlock.
  exact (proj1 (Heap.release_block_ok (Heap.heap_lock demo_heap1) [] demo_block []
    (Heap.heap_ok_lock _ _ demo_heap1_ok) eq_refl demo_len)).
Qed.

Lemma kernel_heap_safe_witness :
  ∃ r s', Heap.kmalloc (H := vmm_backend demo_layout) 100 demo_heap = Some (r, s') ∧
  (r ≠ 0 → r mod 16 = 0).
Proof.
  destruct (kernel_heap_safe demo_layout demo_heap0 demo_heap ∅ 100 ∅ demo_vmm_inv) as (r & s' & E & H).
  - vm_compute. discriminate.
  - apply rtc_refl.
  - lia.
  - exists r, s'. split; [exact E|]. intros Hr. apply (H Hr).
Defined.

Lemma kmalloc_correct_witness :
  ∃ r s' l', Heap.kmalloc (H := vmm_backend demo_layout) 100 demo_heap = Some (r, s') ∧
  Heap.heap_ok (H0 := vmm_backend_laws demo_layout) s' l'.
Proof.
  destruct (Heap.kmalloc_correct demo_heap [] 100 demo_heap_ok ltac:(lia)) as (r & s' & l' & E & Hok & _).
  exists r, s', l'. split; [exact E|exact Hok].
Defined.

Lemma kfree_correct_witness :
  ∃ s' l', Heap.kfree demo_ptr demo_heap1 = Some s' ∧
  Heap.heap_ok (H0 := vmm_backend_laws demo_layout) s' l'.
Proof.
  destruct (Heap.kfree_correct demo_heap1 [demo_block] demo_ptr 4048 demo_heap1_ok demo_len demo_live)
    as (s' & l' & L1 & L2 & E & Hok & _).
  exists s', l'. split; [exact E|exact Hok].
Defined.

Lemma kmalloc_first_fit_witness :
  ∃ s' l1, Heap.kmalloc (H := vmm_backend demo_layout) 4000 demo_heap2 =
    Some (Heap.HEAP_BASE + Heap.span l1 + 48, s').
Proof.
  destruct (Heap.kmalloc_first_fit demo_heap2 [demo_free_block] 4000 demo_free_block demo_heap2_ok demo_len)
    as (s' & l1 & b1 & l2 & E & _).
  - lia.
  - left.
  - reflexivity.
  - vm_compute. discriminate.
  - exists s', l1. exact E.
Defined.

Lemma heap_validate_wf_witness :
  Heap.heap_validate demo_heap1 = Some (true, demo_heap1).
Proof. exact (Heap.heap_validate_wf demo_heap1 [demo_block] demo_heap1_ok). Defined.

(** The heap after taking the whole free block for 4000 bytes. *)
Definition demo_heap3 : Heap.heap vmm :=
  Heap.heap_unlock (Heap.rflags_if demo_heap2)
    (Heap.take_block (Heap.HEAP_BASE + Heap.span []) (Heap.align_size 4000) (Heap.heap_lock demo_heap2)).

Lemma demo_heap3_ok :
  Heap.heap_ok (H0 := vmm_backend_laws demo_layout) demo_heap3 [Heap.mkAblock 4048 4048 false].
Proof.
  apply Heap.heap_ok_unlock.
  refine (proj1 (Heap.take_block_ok (Heap.heap_lock demo_heap2) [] demo_free_block [] (Heap.align_size 4000)
    (Heap.heap_ok_lock _ _ demo_heap2_ok) eq_refl _ eq_refl)).
  vm_compute. discriminate.
Qed.

Lemma demo_used : Heap.g_used_bytes demo_heap2 = 0.
Proof. vm_compute. reflexivity. Qed.

Lemma heap_used_bytes_drift_witness :
  ∃ r s1 s2, Heap.kmalloc (H := vmm_backend demo_layout) 4000 demo_heap2 = Some (r, s1) ∧
  Heap.kfree r s1 = Some s2 ∧ Heap.g_used_bytes s2 = 4000.
Proof.
  pose proof (Heap.kmalloc_fit demo_heap2 [demo_free_block] 4000 [] demo_free_block [] demo_heap2_ok
    demo_len ltac:(discriminate) ltac:(discriminate) eq_refl) as E1.
  pose proof (Heap.kfree_live demo_heap3 [] (Heap.mkAblock 4048 4048 false) [] demo_heap3_ok
    eq_refl demo_len) as E2.
  eexists _, _, _. split; [exact E1|]. split; [exact E2|].
  refine (proj1 (Heap.heap_used_bytes_drift demo_heap2 [demo_free_block] [] demo_free_block [] 4000 _ _ _
    demo_heap2_ok demo_len _ eq_refl _ demo_used E1 E2)).
  - lia.
  - split; vm_compute; reflexivity.
Defined.
