(* ===== verification/Scheduler.v ===== *)
(** * The thread scheduler (src/kernel/core/scheduler/scheduler.c)

    The TCB table with its intrusive ready and sleep lists, the wait-queue
    ring, the timer tick, and the cooperative scheduling step. What the
    scheduler calls in other components is the interface [SchedEnv]. *)

From Stdlib Require Import Lia ZArith Bool.
From stdpp Require Import base list gmap sets numbers sorting functions.
From S2P Require Import Prelude.

Local Open Scope Z_scope.

Module Sched.

(** ** What the scheduler needs of the heap, the processes and the CPU *)

(** The fields of [nexus_process_t] the scheduler reads. *)
Record proc_view := mkProcView { pv_pid : Z; pv_zombie : bool; pv_cr3 : Z; pv_thread : Z }.

Class SchedEnv (E : Type) := {
  se_kmalloc : Z → E → Z * E;
  se_kfree : Z → E → E;
  se_heap_is_ready : E → bool;
  se_usermode_ready : E → bool;
  se_process_get : E → Z → option proc_view;
  se_process_attach : Z → Z → Z → E → E;  (* pid, kernel_stack, tid: the writes of thread_create_user_process *)
  se_process_reap : Z → Z → E → bool * E;
  se_process_account_cpu_tick : Z → E → E;
  se_process_set_current : Z → E → E;
  se_process_clear_current : E → E;
  se_paging_kernel_cr3 : E → Z;
  se_paging_switch_cr3 : Z → E → E;
  se_watchdog_timer_tick : E → E;
}.

(** ** Constants and state *)

Definition SCHED_MAX_THREADS : nat := 8.
Definition NEXUS_SCHEDULER_DEFAULT_QUANTUM_MS : Z := 100.
Definition SCHED_STACK_SIZE : Z := 16384.
Definition THREAD_MAGIC : Z := 0x4E58544852454144.
Definition THREAD_READY : Z := 0x01.
Definition THREAD_RUNNING : Z := 0x02.
Definition THREAD_SLEEPING : Z := 0x04.
Definition THREAD_BLOCKED : Z := 0x10.
Definition THREAD_ZOMBIE : Z := 0x08.

(** Pointers to TCBs are indices into [g_tcbs]; code pointers are addresses. *)
Record nexus_tcb_t := mkTcb {
  rsp : Z;
  stack_base : Z;
  stack_size : Z;
  id : Z;
  process_pid : Z;
  switches : Z;
  runtime_ticks : Z;
  wake_tick : Z;
  magic : Z;
  state : Z;
  flags : Z;
  entry : Z;
  arg : Z;
  next : option nat;
  wait_next : option nat;
}.

#[export] Instance eta_tcb : Eta nexus_tcb_t := λ r,
  mkTcb (rsp r) (stack_base r) (stack_size r) (id r) (process_pid r) (switches r)
    (runtime_ticks r) (wake_tick r) (magic r) (state r) (flags r) (entry r) (arg r)
    (next r) (wait_next r).

(** The static variables of scheduler.c, the stack pointer and interrupt flag
    of the CPU, the words of the thread stacks, and the environment. *)
Record sched {E : Type} := mkSched {
  g_ticks : Z;
  g_quantum_expirations : Z;
  g_context_switches : Z;
  g_quantum_ticks : Z;
  g_quantum_remaining : Z;
  g_timer_hz : Z;
  g_reschedule_pending : bool;
  g_wakeup_pending : bool;
  g_ready : bool;
  g_tcbs : nat → nexus_tcb_t;
  g_current : option nat;
  g_ready_head : option nat;
  g_ready_tail : option nat;
  g_sleep_head : option nat;
  g_thread_count : Z;
  g_ready_count : Z;
  g_sleeping_count : Z;
  g_next_tid : Z;
  cpu_rsp : Z;
  cpu_if : bool;
  stack_mem : gmap Z Z;
  env : E;
}.
Arguments sched : clear implicits.
Arguments mkSched {E}.

#[export] Instance eta_sched {E} : Eta (sched E) := λ r,
  mkSched (g_ticks r) (g_quantum_expirations r) (g_context_switches r) (g_quantum_ticks r)
    (g_quantum_remaining r) (g_timer_hz r) (g_reschedule_pending r) (g_wakeup_pending r)
    (g_ready r) (g_tcbs r) (g_current r) (g_ready_head r) (g_ready_tail r) (g_sleep_head r)
    (g_thread_count r) (g_ready_count r) (g_sleeping_count r) (g_next_tid r) (cpu_rsp r)
    (cpu_if r) (stack_mem r) (env r).

(** ** The wait queue: a ring of thread ids *)

Record nexus_wait_queue_t := mkWaitQueue { ids : nat → Z; head : Z; count : Z }.
#[export] Instance eta_wq : Eta nexus_wait_queue_t := λ r, mkWaitQueue (ids r) (head r) (count r).

Definition MAXT : Z := 8.

Definition scheduler_wait_queue_init (q : nexus_wait_queue_t) : nexus_wait_queue_t :=
  mkWaitQueue (λ i, if (i <? SCHED_MAX_THREADS)%nat then 0 else ids q i) 0 0.

Definition wq_pos (q : nexus_wait_queue_t) (i : Z) : nat := Z.to_nat (u32 (head q + i) mod MAXT).

Definition scheduler_wait_queue_contains (q : nexus_wait_queue_t) (id : Z) : bool :=
  if id =? 0 then false
  else existsb (λ i, ids q (wq_pos q (Z.of_nat i)) =? id) (seq 0 (Z.to_nat (count q))).

Definition scheduler_wait_queue_push_locked (id : Z) (q : nexus_wait_queue_t) : nexus_wait_queue_t :=
  if (id =? 0) || (count q >=? MAXT) || scheduler_wait_queue_contains q id then q
  else
    let q := q <| ids := <[wq_pos q (count q) := id]> (ids q) |> in
    q <| count := u32 (count q + 1) |>.

Definition scheduler_wait_queue_pop_locked (q : nexus_wait_queue_t) : Z * nexus_wait_queue_t :=
  if count q =? 0 then (0, q)
  else
    let h := Z.to_nat (head q) in
    let id := ids q h in
    let q := q <| ids := <[h := 0]> (ids q) |> in
    let q := q <| head := u32 (head q + 1) mod MAXT |> in
    (id, q <| count := u32 (count q - 1) |>).

(** ** Operations *)

Definition calculate_quantum_ticks (timer_hz : Z) : Z :=
  let ticks := u64 (timer_hz * NEXUS_SCHEDULER_DEFAULT_QUANTUM_MS) / 1000 in
  let ticks := if ticks =? 0 then 1 else ticks in
  let ticks := if ticks >? 0xFFFFFFFF then 0xFFFFFFFF else ticks in
  u32 ticks.

(** The cleared TCB of a reaped thread. *)
Definition dead_tcb (c : nexus_tcb_t) : nexus_tcb_t :=
  c <| stack_base := 0 |> <| stack_size := 0 |> <| rsp := 0 |> <| entry := 0 |> <| arg := 0 |>
    <| next := None |> <| wait_next := None |> <| wake_tick := 0 |> <| magic := 0 |> <| state := 0 |>.

(** What a call to [scheduler_process] does to the calling thread. *)
Inductive outcome :=
| Returned   (* it goes on in the caller *)
| Switched   (* another thread runs; the caller goes on when switched back *)
| Halted.    (* for (;;) cli; hlt *)

Section ops.
Context {E : Type} `{SchedEnv E}.
Context (thread_bootstrap user_process_bootstrap : Z).
Implicit Types (s : sched E).

Definition irq_save s : bool * sched E := (cpu_if s, s <| cpu_if := false |>).
Definition irq_restore (flags : bool) s : sched E := if flags then s <| cpu_if := true |> else s.

Definition tcb s (i : nat) : nexus_tcb_t := g_tcbs s i.
Definition set_tcb (i : nat) (f : nexus_tcb_t → nexus_tcb_t) s : sched E :=
  s <| g_tcbs := <[i := f (g_tcbs s i)]> (g_tcbs s) |>.

Definition ready_append (thread : option nat) s : sched E :=
  match thread with
  | None => s
  | Some t =>
     let s := set_tcb t (λ c, c <| next := None |>) s in
     let s :=
       match g_ready_tail s with
       | None => (s <| g_ready_head := Some t |>) <| g_ready_tail := Some t |>
       | Some tl => (set_tcb tl (λ c, c <| next := Some t |>) s) <| g_ready_tail := Some t |>
       end in
     s <| g_ready_count := u32 (g_ready_count s + 1) |>
  end.

Definition ready_pop s : option nat * sched E :=
  match g_ready_head s with
  | None => (None, s)
  | Some t =>
     let s := s <| g_ready_head := next (tcb s t) |> in
     let s := if bool_decide (g_ready_head s = None) then s <| g_ready_tail := None |> else s in
     let s := set_tcb t (λ c, c <| next := None |>) s in
     (Some t, if g_ready_count s >? 0
              then s <| g_ready_count := u32 (g_ready_count s - 1) |> else s)
  end.

(** The cursor of [sleep_insert]: the lists have at most one node per TCB. *)
Fixpoint sleep_cursor (fuel : nat) (cursor : nat) (wake : Z) s : nat :=
  match fuel with
  | O => cursor
  | S fuel =>
     match next (tcb s cursor) with
     | Some n => if wake_tick (tcb s n) <=? wake then sleep_cursor fuel n wake s else cursor
     | None => cursor
     end
  end.

Definition sleep_insert (thread : option nat) s : sched E :=
  match thread with
  | None => s
  | Some t =>
     let s := set_tcb t (λ c, c <| next := None |>) s in
     match g_sleep_head s with
     | Some h =>
        if wake_tick (tcb s t) <? wake_tick (tcb s h) then
          let s := set_tcb t (λ c, c <| next := g_sleep_head s |>) s in
          let s := s <| g_sleep_head := Some t |> in
          s <| g_sleeping_count := u32 (g_sleeping_count s + 1) |>
        else
          let cursor := sleep_cursor SCHED_MAX_THREADS h (wake_tick (tcb s t)) s in
          let s := set_tcb t (λ c, c <| next := next (tcb s cursor) |>) s in
          let s := set_tcb cursor (λ c, c <| next := Some t |>) s in
          s <| g_sleeping_count := u32 (g_sleeping_count s + 1) |>
     | None =>
        let s := set_tcb t (λ c, c <| next := g_sleep_head s |>) s in
        let s := s <| g_sleep_head := Some t |> in
        s <| g_sleeping_count := u32 (g_sleeping_count s + 1) |>
     end
  end.

Definition head_due s : bool :=
  match g_sleep_head s with Some h => wake_tick (tcb s h) <=? g_ticks s | None => false end.

Fixpoint wake_due_loop (fuel : nat) s : sched E :=
  match fuel with
  | O => s
  | S fuel =>
     match g_sleep_head s with
     | Some t =>
        if wake_tick (tcb s t) <=? g_ticks s then
          let s := s <| g_sleep_head := next (tcb s t) |> in
          let s := set_tcb t (λ c, c <| next := None |>) s in
          let s := if g_sleeping_count s >? 0
                   then s <| g_sleeping_count := u32 (g_sleeping_count s - 1) |> else s in
          let s := set_tcb t (λ c, c <| state := THREAD_READY |>) s in
          wake_due_loop fuel (ready_append (Some t) s)
        else s
     | None => s
     end
  end.

Definition wake_due_threads s : sched E :=
  let s := wake_due_loop SCHED_MAX_THREADS s in
  s <| g_wakeup_pending := head_due s |>.

(** The walk of the link pointer from [&g_sleep_head] until it holds [thread]
    or NULL: the node whose [next] field is the link, [None] for [g_sleep_head]. *)
Fixpoint find_link (fuel : nat) (link : option nat) (thread : nat) s : option nat :=
  let tgt := match link with None => g_sleep_head s | Some p => next (tcb s p) end in
  match fuel with
  | O => link
  | S fuel =>
     match tgt with
     | None => link
     | Some n => if (n =? thread)%nat then link else find_link fuel (Some n) thread s
     end
  end.

Definition wake_thread_locked (thread : option nat) s : sched E :=
  match thread with
  | None => s
  | Some t =>
     if negb (state (tcb s t) =? THREAD_SLEEPING) then s
     else
       let link := find_link SCHED_MAX_THREADS None t s in
       let tgt := match link with None => g_sleep_head s | Some p => next (tcb s p) end in
       if negb (bool_decide (tgt = Some t)) then s
       else
         let s := match link with
                  | None => s <| g_sleep_head := next (tcb s t) |>
                  | Some p => set_tcb p (λ c, c <| next := next (tcb s t) |>) s
                  end in
         let s := set_tcb t (λ c, c <| next := None |>) s in
         let s := if g_sleeping_count s >? 0
                  then s <| g_sleeping_count := u32 (g_sleeping_count s - 1) |> else s in
         let s := set_tcb t (λ c, c <| wake_tick := 0 |>) s in
         let s := set_tcb t (λ c, c <| state := THREAD_READY |>) s in
         ready_append (Some t) s
  end.

(** One iteration of [reap_zombies]. *)
Definition reap_one (i : nat) s : sched E :=
  let t := tcb s i in
  if bool_decide (g_current s = Some i) || negb (magic t =? THREAD_MAGIC) ||
     negb (state t =? THREAD_ZOMBIE) then s
  else
    let '(go, s) :=
      if negb (process_pid t =? 0) then
        let '(ok, e) := se_process_reap (process_pid t) (id t) (env s) in (ok, s <| env := e |>)
      else (true, s) in
    if negb go then s
    else
      let s := if negb (stack_base (tcb s i) =? 0)
               then s <| env := se_kfree (stack_base (tcb s i)) (env s) |> else s in
      set_tcb i dead_tcb s.

Definition reap_zombies s : sched E := foldl (λ s i, reap_one i s) s (seq 1 (SCHED_MAX_THREADS - 1)).

Definition pick_next s : option nat * sched E := ready_pop s.

Definition init_thread_stack (i : nat) s : sched E :=
  let t := tcb s i in
  let top := Z.land (u64 (stack_base t + stack_size t)) (not64 0xF) in
  let stack := top - 8 in
  let push (st : Z * gmap Z Z) (v : Z) := let '(p, m) := st in (p - 8, <[p - 8 := v]> m) in
  let st := push (stack, stack_mem s) thread_bootstrap in
  let st := push st 0 in
  let st := push st 0 in
  let st := push st 0 in
  let st := push st 0 in
  let st := push st 0 in
  let st := push st 0 in
  let s := s <| stack_mem := st.2 |> in
  set_tcb i (λ c, c <| rsp := st.1 |>) s.

Definition find_thread_by_id (tid : Z) s : option nat :=
  first_index (λ i, (magic (tcb s i) =? THREAD_MAGIC) && (id (tcb s i) =? tid)) 0 SCHED_MAX_THREADS.

Definition scheduler_wake_thread_locked (tid : Z) s : sched E :=
  match find_thread_by_id tid s with
  | None => s
  | Some t =>
     if negb (state (tcb s t) =? THREAD_BLOCKED) then s
     else
       let s := set_tcb t (λ c, c <| state := THREAD_READY |>) s in
       let s := ready_append (Some t) s in
       (s <| g_wakeup_pending := true |>) <| g_reschedule_pending := true |>
  end.

Definition scheduler_wake_thread (tid : Z) s : bool * sched E :=
  if negb (g_ready s) || (tid =? 0) then (false, s)
  else
    let '(flags, s) := irq_save s in
    match find_thread_by_id tid s with
    | None => (false, irq_restore flags s)
    | Some t =>
       if negb (state (tcb s t) =? THREAD_BLOCKED) then (false, irq_restore flags s)
       else (true, irq_restore flags (scheduler_wake_thread_locked tid s))
    end.

Definition scheduler_init (timer_hz : Z) s : sched E :=
  let hz := if timer_hz =? 0 then 100 else timer_hz in
  let q := calculate_quantum_ticks hz in
  let clear t := t <| magic := 0 |> <| state := 0 |> <| next := None |> <| wait_next := None |>
                   <| wake_tick := 0 |> in
  let tcbs := λ i, if (i <? SCHED_MAX_THREADS)%nat then clear (g_tcbs s i) else g_tcbs s i in
  let boot c :=
    c <| magic := THREAD_MAGIC |> <| id := 0 |> <| process_pid := 0 |> <| rsp := cpu_rsp s |>
      <| stack_base := 0 |> <| stack_size := 0 |> <| switches := 0 |> <| runtime_ticks := 0 |>
      <| wake_tick := 0 |> <| state := THREAD_RUNNING |> <| entry := 0 |> <| arg := 0 |>
      <| next := None |> <| wait_next := None |> in
  mkSched 0 0 0 q q hz false false true (<[0%nat := boot (tcbs 0%nat)]> tcbs) (Some 0%nat)
    None None None 1 0 0 1 (cpu_rsp s) (cpu_if s) (stack_mem s) (env s).

Definition scheduler_tick_irq s : sched E :=
  if negb (g_ready s) then s
  else
    let s := s <| g_ticks := u64 (g_ticks s + 1) |> in
    let s :=
      match g_current s with
      | None => s
      | Some c =>
         let s := set_tcb c (λ t, t <| runtime_ticks := u64 (runtime_ticks t + 1) |>) s in
         if negb (process_pid (tcb s c) =? 0)
         then s <| env := se_process_account_cpu_tick (process_pid (tcb s c)) (env s) |> else s
      end in
    let s := s <| env := se_watchdog_timer_tick (env s) |> in
    let s := if g_quantum_remaining s >? 0
             then s <| g_quantum_remaining := g_quantum_remaining s - 1 |> else s in
    let s := if g_quantum_remaining s =? 0
             then s <| g_quantum_expirations := u64 (g_quantum_expirations s + 1) |>
                    <| g_reschedule_pending := true |>
                    <| g_quantum_remaining := g_quantum_ticks s |>
             else s in
    if head_due s then (s <| g_wakeup_pending := true |>) <| g_reschedule_pending := true |> else s.

Definition scheduler_request_reschedule s : sched E :=
  if g_ready s then s <| g_reschedule_pending := true |> else s.

(** [arch_context_switch(&old->rsp, next->rsp)]: the callee-saved registers
    live on the stacks, so only the stack pointer is exchanged. *)
Definition arch_context_switch (old nxt : nat) s : sched E :=
  let r := rsp (tcb s nxt) in
  let s := set_tcb old (λ c, c <| rsp := cpu_rsp s |>) s in
  s <| cpu_rsp := r |>.

(** From the choice of the next thread to the end of [scheduler_process]. *)
Definition switch_to (flags : bool) (old nxt : nat) s : outcome * sched E :=
  let s := set_tcb nxt (λ c, c <| state := THREAD_RUNNING |>) s in
  let s := s <| g_current := Some nxt |> in
  let finish (next_cr3 : Z) s :=
    let s := s <| env := se_paging_switch_cr3 next_cr3 (env s) |> in
    let s := set_tcb old (λ c, c <| switches := u64 (switches c + 1) |>) s in
    let s := set_tcb nxt (λ c, c <| switches := u64 (switches c + 1) |>) s in
    let s := s <| g_context_switches := u64 (g_context_switches s + 1) |> in
    let s := s <| cpu_if := false |> in
    let s := arch_context_switch old nxt s in
    (Switched, s <| cpu_if := true |>) in
  let pid := process_pid (tcb s nxt) in
  if negb (pid =? 0) then
    let dead s :=
      let s := set_tcb nxt (λ c, c <| state := THREAD_ZOMBIE |>) s in
      let s := s <| g_current := Some old |> in
      let s := set_tcb old (λ c, c <| state := THREAD_RUNNING |>) s in
      (Returned, irq_restore flags s) in
    match se_process_get (env s) pid with
    | Some np =>
       if negb (pv_zombie np) && negb (pv_cr3 np =? 0)
       then finish (pv_cr3 np) (s <| env := se_process_set_current (pv_pid np) (env s) |>)
       else dead s
    | None => dead s
    end
  else
    let kcr3 := se_paging_kernel_cr3 (env s) in
    finish kcr3 (s <| env := se_process_clear_current (env s) |>).

Definition scheduler_process s : outcome * sched E :=
  if negb (g_ready s) then (Returned, s)
  else
    let '(flags, s) := irq_save s in
    let s := wake_due_threads s in
    let s := reap_zombies s in
    if negb (g_reschedule_pending s || g_wakeup_pending s) then (Returned, irq_restore flags s)
    else
      let s := (s <| g_reschedule_pending := false |>) <| g_wakeup_pending := false |> in
      match g_current s with
      | None => (Returned, irq_restore flags s)
      | Some old =>
         let s := if state (tcb s old) =? THREAD_RUNNING
                  then ready_append (Some old) (set_tcb old (λ c, c <| state := THREAD_READY |>) s)
                  else s in
         match pick_next s with
         | (None, s) =>
            if state (tcb s old) =? THREAD_READY
            then (Returned, irq_restore flags (set_tcb old (λ c, c <| state := THREAD_RUNNING |>) s))
            else (Halted, irq_restore flags s)
         | (Some nxt, s) =>
            if (nxt =? old)%nat
            then (Returned, irq_restore flags (set_tcb old (λ c, c <| state := THREAD_RUNNING |>) s))
            else switch_to flags old nxt s
         end
      end.

Definition thread_block_on_wait_queue (q : nexus_wait_queue_t) s
    : (bool * outcome) * nexus_wait_queue_t * sched E :=
  match g_current s with
  | None => ((false, Returned), q, s)
  | Some c =>
     if negb (g_ready s) || (id (tcb s c) =? 0) then ((false, Returned), q, s)
     else
       let '(flags, s) := irq_save s in
       let tid := id (tcb s c) in
       let q := if negb (scheduler_wait_queue_contains q tid)
                then scheduler_wait_queue_push_locked tid q else q in
       let s := set_tcb c (λ t, t <| state := THREAD_BLOCKED |>) s in
       let s := s <| g_reschedule_pending := true |> in
       let s := irq_restore flags s in
       let '(o, s) := scheduler_process s in
       ((true, o), q, s)
  end.

Definition thread_create (entry_ arg_ : Z) s : Z * sched E :=
  if negb (g_ready s) || (entry_ =? 0) || negb (se_heap_is_ready (env s)) then (0, s)
  else
    let '(flags, s) := irq_save s in
    match first_index (λ i, magic (tcb s i) =? 0) 1 (SCHED_MAX_THREADS - 1) with
    | None => (0, irq_restore flags s)
    | Some slot =>
       let '(stack, e) := se_kmalloc SCHED_STACK_SIZE (env s) in
       let s := s <| env := e |> in
       if stack =? 0 then (0, irq_restore flags s)
       else
         let tid := g_next_tid s in
         let s := set_tcb slot (λ c,
           c <| magic := THREAD_MAGIC |> <| id := tid |> <| process_pid := 0 |>
             <| stack_base := stack |> <| stack_size := SCHED_STACK_SIZE |> <| switches := 0 |>
             <| runtime_ticks := 0 |> <| wake_tick := 0 |> <| state := THREAD_READY |>
             <| entry := entry_ |> <| arg := arg_ |> <| next := None |> <| wait_next := None |>) s in
         let s := s <| g_next_tid := u64 (tid + 1) |> in
         let s := init_thread_stack slot s in
         let s := ready_append (Some slot) s in
         let s := s <| g_thread_count := u32 (g_thread_count s + 1) |> in
         (id (tcb s slot), irq_restore flags s)
    end.

Definition thread_create_user_process (pid : Z) s : Z * sched E :=
  if negb (g_ready s) || (pid =? 0) || negb (se_heap_is_ready (env s)) ||
     negb (se_usermode_ready (env s)) then (0, s)
  else
    match se_process_get (env s) pid with
    | None => (0, s)
    | Some p =>
       if pv_zombie p || negb (pv_thread p =? 0) then (0, s)
       else
         let '(tid, s) := thread_create user_process_bootstrap pid s in
         if tid =? 0 then (0, s)
         else
           match first_index (λ i, (magic (tcb s i) =? THREAD_MAGIC) && (id (tcb s i) =? tid)) 1
                             (SCHED_MAX_THREADS - 1) with
           | None => (0, s)
           | Some i =>
              let s := set_tcb i (λ c, c <| process_pid := pid |>) s in
              (tid, s <| env := se_process_attach pid (u64 (stack_base (tcb s i) + stack_size (tcb s i)))
                                  tid (env s) |>)
           end
    end.

Definition thread_yield s : outcome * sched E :=
  if negb (g_ready s) then (Returned, s)
  else scheduler_process (scheduler_request_reschedule s).

Definition thread_sleep_ms (milliseconds : Z) s : outcome * sched E :=
  match g_current s with
  | None => (Returned, s)
  | Some c =>
     if negb (g_ready s) || (id (tcb s c) =? 0) then (Returned, s)
     else
       let ticks := u64 (u64 (milliseconds * g_timer_hz s) + 999) / 1000 in
       let ticks := if ticks =? 0 then 1 else ticks in
       let '(flags, s) := irq_save s in
       let s := set_tcb c (λ t, t <| wake_tick := u64 (g_ticks s + ticks) |>) s in
       let s := set_tcb c (λ t, t <| state := THREAD_SLEEPING |>) s in
       let s := sleep_insert (Some c) s in
       let s := s <| g_reschedule_pending := true |> in
       scheduler_process (irq_restore flags s)
  end.

Definition thread_wakeup (tid : Z) s : bool * sched E :=
  if negb (g_ready s) then (false, s)
  else
    let '(flags, s) := irq_save s in
    match find_thread_by_id tid s with
    | None => (false, irq_restore flags s)
    | Some t =>
       if negb (state (tcb s t) =? THREAD_SLEEPING) then (false, irq_restore flags s)
       else
         let s := wake_thread_locked (Some t) s in
         let s := (s <| g_wakeup_pending := true |>) <| g_reschedule_pending := true |> in
         (true, irq_restore flags s)
    end.

(** After [scheduler_process] returns to an exited thread it halts. *)
Definition thread_exit s : outcome * sched E :=
  match g_current s with
  | None => (Returned, s)
  | Some c =>
     if negb (g_ready s) || (id (tcb s c) =? 0) then (Returned, s)
     else
       let s := set_tcb c (λ t, t <| state := THREAD_ZOMBIE |>) s in
       let s := if g_thread_count s >? 0
                then s <| g_thread_count := g_thread_count s - 1 |> else s in
       let s := s <| g_reschedule_pending := true |> in
       match scheduler_process s with
       | (Returned, s) => (Halted, s)
       | r => r
       end
  end.

Definition scheduler_is_ready s : bool := g_ready s.
Definition scheduler_elapsed_ms s : Z :=
  if negb (g_timer_hz s =? 0) then u64 (g_ticks s * 1000) / g_timer_hz s else 0.
Definition scheduler_current_thread_id s : Z :=
  match g_current s with Some c => id (tcb s c) | None => 0 end.
Definition scheduler_thread_switches (tid : Z) s : Z :=
  match find_thread_by_id tid s with Some i => switches (tcb s i) | None => 0 end.
Definition scheduler_thread_runtime_ticks (tid : Z) s : Z :=
  match find_thread_by_id tid s with Some i => runtime_ticks (tcb s i) | None => 0 end.
End ops.

(** ** Intrusive lists *)

(** Following [next] from [h] visits exactly [l]. *)
Fixpoint chain (t : nat → nexus_tcb_t) (h : option nat) (l : list nat) : Prop :=
  match l with
  | [] => h = None
  | i :: l' => h = Some i ∧ chain t (next (t i)) l'
  end.

Lemma chain_frame t t' h l :
  (∀ i, i ∈ l → next (t' i) = next (t i)) → chain t h l → chain t' h l.
Proof.
  revert h. induction l as [|i l IH]; intros h Hn; simpl; [done|]. intros [-> Hc]. split; [done|].
  rewrite Hn by left. apply IH; [|done]. intros j ?. apply Hn. by right.
Qed.

Lemma chain_det t h l l' : chain t h l → chain t h l' → l = l'.
Proof.
  revert h l'. induction l as [|i l IH]; intros h [|j l']; simpl; try done.
  - by intros -> [? _].
  - by intros [-> _] ?.
  - intros [-> H1] [[= <-] H2]. f_equal. by eapply IH.
Qed.

Lemma chain_snoc t t' h R x tl :
  chain t h R → list.last R = Some tl → NoDup R →
  (∀ i, i ∈ R → i ≠ tl → next (t' i) = next (t i)) → next (t' tl) = Some x → next (t' x) = None →
  chain t' h (R ++ [x]).
Proof.
  revert h. induction R as [|i R IH]; intros h; [done|]. intros [-> Hc] Hl Hnd Hf Htl Hx.
  apply list.NoDup_cons in Hnd as [Hi Hnd]. split; [done|]. destruct R as [|j R].
  - injection Hl as ->. simpl. by rewrite Htl, Hx.
  - change (list.last (i :: j :: R)) with (list.last (j :: R)) in Hl. rewrite Hf; [|left|].
    + apply IH; try done. intros k ?. apply Hf. by right.
    + intros ->. apply Hi. apply last_Some_elem_of. done.
Qed.

(** A new node after [c]. *)
Lemma chain_insert t t' h l c x l' :
  chain t h (l ++ c :: l') → NoDup (l ++ c :: l') →
  (∀ i, i ∈ l ++ l' → next (t' i) = next (t i)) →
  next (t' c) = Some x → next (t' x) = next (t c) → chain t' h (l ++ c :: x :: l').
Proof.
  revert h. induction l as [|i l IH]; intros h; simpl.
  - intros [-> Hc] [Hn Hnd]%list.NoDup_cons Hf Hcx Hx. split; [done|]. split; [done|].
    rewrite Hx. eapply chain_frame; [|done]. intros i ?. by apply Hf.
  - intros [-> Hc] [Hn Hnd]%list.NoDup_cons Hf Hcx Hx. split; [done|]. rewrite Hf by left.
    apply IH; try done. intros j ?. apply Hf. by right.
Qed.

(** Node [x] taken out behind [c]. *)
Lemma chain_remove t t' h l c x l' :
  chain t h (l ++ c :: x :: l') →
  (∀ i, i ∈ l ++ l' → next (t' i) = next (t i)) → next (t' c) = next (t x) →
  chain t' h (l ++ c :: l').
Proof.
  revert h. induction l as [|i l IH]; intros h; simpl.
  - intros (-> & Hc & Hx) Hf Hcx. split; [done|]. rewrite Hcx.
    eapply chain_frame; [|done]. intros i ?. by apply Hf.
  - intros [-> Hc] Hf Hcx. split; [done|]. rewrite Hf by left.
    apply IH; try done. intros j ?. apply Hf. by right.
Qed.

Lemma sorted_insert {A} (Rel : relation A) l1 x l2 :
  StronglySorted Rel (l1 ++ l2) → (∀ y, y ∈ l1 → Rel y x) → (∀ y, y ∈ l2 → Rel x y) →
  StronglySorted Rel (l1 ++ x :: l2).
Proof.
  rewrite !StronglySorted_app. intros (H1 & H2 & H3) Hx Hy. split_and!; [|done|].
  - intros y z Hy1 [->|Hz]%elem_of_cons; [by apply Hx|by apply H1].
  - constructor; [done|]. by apply list.Forall_forall.
Qed.

(** Equal up to the list links. *)
Definition same_but_next (c c' : nexus_tcb_t) : Prop := c' = c <| next := next c' |>.

Section lists.
Context {E : Type} `{SchedEnv E}.
Implicit Types (s : sched E) (R S : list nat).

Lemma tcb_set_eq i f s : tcb (set_tcb i f s) i = f (tcb s i).
Proof. unfold tcb, set_tcb. simpl. by rewrite fn_lookup_insert. Qed.
Lemma tcb_set_ne i j f s : i ≠ j → tcb (set_tcb i f s) j = tcb s j.
Proof. intros. unfold tcb, set_tcb. simpl. by rewrite fn_lookup_insert_ne. Qed.

(** Everything but the TCB table, the ready list and its count. *)
Definition rest s : Z * Z * Z * Z * Z * Z * (bool * bool * bool) * option nat * option nat *
    (Z * Z * Z) * (Z * bool * gmap Z Z * E) :=
  (g_ticks s, g_quantum_expirations s, g_context_switches s, g_quantum_ticks s,
   g_quantum_remaining s, g_timer_hz s, (g_reschedule_pending s, g_wakeup_pending s, g_ready s),
   g_current s, g_sleep_head s, (g_thread_count s, g_sleeping_count s, g_next_tid s),
   (cpu_rsp s, cpu_if s, stack_mem s, env s)).

Definition wakes s (i j : nat) : Prop := wake_tick (tcb s i) ≤ wake_tick (tcb s j).

(** The ready list holds [R] in order, the sleep list [S] in wake-up order. *)
Record lists s R S : Prop := {
  l_ready : chain (g_tcbs s) (g_ready_head s) R;
  l_tail : g_ready_tail s = list.last R;
  l_rcount : g_ready_count s = Z.of_nat (length R);
  l_sleep : chain (g_tcbs s) (g_sleep_head s) S;
  l_scount : g_sleeping_count s = Z.of_nat (length S);
  l_sorted : StronglySorted (wakes s) S;
  l_nodup : NoDup (R ++ S);
  l_bound : ∀ i, i ∈ R ++ S → (i < SCHED_MAX_THREADS)%nat;
}.

(** Duplicate-free lists of TCBs are short. *)
Lemma short_list l : NoDup l → (∀ i, i ∈ l → (i < SCHED_MAX_THREADS)%nat) → (length l ≤ 8)%nat.
Proof.
  intros Hnd Hb. transitivity (length (seq 0 8)); [|done]. apply submseteq_length.
  apply NoDup_submseteq; [done|]. intros i Hi. apply elem_of_seq. specialize (Hb i Hi).
  unfold SCHED_MAX_THREADS in Hb. lia.
Qed.

Lemma lists_short s R S : lists s R S → (length R + length S ≤ 8)%nat.
Proof. intros L. rewrite <- length_app. apply short_list; apply L. Qed.

Lemma sorted_wakes s s' S :
  (∀ i, i ∈ S → wake_tick (tcb s' i) = wake_tick (tcb s i)) →
  StronglySorted (wakes s) S → StronglySorted (wakes s') S.
Proof.
  intros Hj HS. induction HS as [|j S HS IH HF]; constructor.
  - apply IH. intros k ?. apply Hj. by right.
  - rewrite list.Forall_forall in *. intros k Hk. unfold wakes. rewrite !Hj by set_solver. by apply HF.
Qed.

(** Changing TCB fields other than the links of listed threads and the wake
    times of sleeping ones keeps the lists. *)
Lemma lists_set s R S i f :
  lists s R S → (i ∈ R ++ S → next (f (tcb s i)) = next (tcb s i)) →
  (i ∈ S → wake_tick (f (tcb s i)) = wake_tick (tcb s i)) → lists (set_tcb i f s) R S.
Proof.
  intros [L1 L2 L3 L4 L5 L6 L7 L8] Hn Hw. split; try done.
  - eapply chain_frame; [|exact L1]. intros j Hj. destruct (decide (i = j)) as [<-|Hne].
    + change (next (tcb (set_tcb i f s) i) = next (tcb s i)). rewrite tcb_set_eq. apply Hn. set_solver.
    + change (next (tcb (set_tcb i f s) j) = next (tcb s j)). by rewrite tcb_set_ne.
  - eapply chain_frame; [|exact L4]. intros j Hj. destruct (decide (i = j)) as [<-|Hne].
    + change (next (tcb (set_tcb i f s) i) = next (tcb s i)). rewrite tcb_set_eq. apply Hn. set_solver.
    + change (next (tcb (set_tcb i f s) j) = next (tcb s j)). by rewrite tcb_set_ne.
  - eapply sorted_wakes; [|exact L6]. intros j Hj.
    destruct (decide (i = j)) as [<-|Hne]; [rewrite tcb_set_eq; by apply Hw|]. by rewrite tcb_set_ne.
Qed.

Lemma same_refl c : same_but_next c c.
Proof. by destruct c. Qed.
Lemma same_next c n : same_but_next c (c <| next := n |>).
Proof. by destruct c. Qed.
Lemma same_trans c1 c2 c3 : same_but_next c1 c2 → same_but_next c2 c3 → same_but_next c1 c3.
Proof. unfold same_but_next. intros -> ->. by destruct c1. Qed.

Lemma ready_append_lists s R S t (s' := ready_append (Some t) s) :
  lists s R S → t ∉ R ++ S → (t < SCHED_MAX_THREADS)%nat →
  lists s' (R ++ [t]) S ∧ (∀ i, same_but_next (tcb s i) (tcb s' i)) ∧ rest s' = rest s.
Proof.
  intros L Ht Ht8. pose proof (lists_short _ _ _ L) as Hlen.
  set (s1 := set_tcb t (λ c, c <| next := None |>) s).
  assert (lists s1 R S) as L1 by (apply lists_set; [done|by intros ?|set_solver]).
  assert (∀ i, same_but_next (tcb s i) (tcb s1 i)) as Hs1.
  { intros i. unfold s1. destruct (decide (t = i)) as [<-|]; [rewrite tcb_set_eq; apply same_next|].
    rewrite tcb_set_ne by done. apply same_refl. }
  assert (next (tcb s1 t) = None) as Hnt by (unfold s1; by rewrite tcb_set_eq).
  assert (rest s1 = rest s) as Hr1 by done.
  subst s'. unfold ready_append. fold s1. clearbody s1.
  destruct L1 as [M1 M2 M3 M4 M5 M6 M7 M8]. apply list.NoDup_app in M7 as (N1 & N2 & N3).
  assert (NoDup ((R ++ [t]) ++ S)) as Hnd.
  { rewrite <- app_assoc. apply list.NoDup_app. split; [done|]. split; [set_solver|].
    apply list.NoDup_cons. set_solver. }
  assert (∀ i, i ∈ (R ++ [t]) ++ S → (i < SCHED_MAX_THREADS)%nat) as Hbd.
  { intros i [[Hi|Hi]%elem_of_app|Hi]%elem_of_app; [apply M8; set_solver| |apply M8; set_solver].
    apply list_elem_of_singleton in Hi as ->. done. }
  assert (u32 (g_ready_count s1 + 1) = Z.of_nat (length (R ++ [t]))) as Hcnt.
  { rewrite M3, length_app, u32_small by lia. simpl. lia. }
  rewrite M2. destruct (list.last R) as [tl|] eqn:El.
  - apply last_Some in El as [R' ->].
    assert ((tl ∉ S) ∧ tl ≠ t) as [HtS Htl] by set_solver.
    set (s2 := set_tcb tl _ s1).
    assert (∀ i, same_but_next (tcb s1 i) (tcb s2 i)) as Hs2.
    { intros i. unfold s2. destruct (decide (tl = i)) as [<-|]; [rewrite tcb_set_eq; apply same_next|].
      rewrite tcb_set_ne by done. apply same_refl. }
    split; [|split; [intros i; by eapply same_trans; [apply Hs1|apply Hs2]|done]].
    split; cbn; try done.
    + eapply (chain_snoc _ _ _ _ t tl); [exact M1|by rewrite last_snoc|done| | |].
      * intros i _ Hi. change (next (tcb s2 i) = next (tcb s1 i)). unfold s2. by rewrite tcb_set_ne.
      * change (next (tcb s2 tl) = Some t). unfold s2. by rewrite tcb_set_eq.
      * change (next (tcb s2 t) = None). unfold s2. by rewrite tcb_set_ne.
    + by rewrite last_snoc.
    + eapply chain_frame; [|exact M4]. intros i Hi. change (next (tcb s2 i) = next (tcb s1 i)).
      unfold s2. rewrite tcb_set_ne; [done|]. by intros ->.
    + eapply sorted_wakes; [|exact M6]. intros i _. change (wake_tick (tcb s2 i) = wake_tick (tcb s1 i)).
      by rewrite (Hs2 i).
  - apply last_None in El as ->. split; [|split; [intros i; apply Hs1|done]].
    split; cbn; try done.
Qed.

Lemma ready_pop_nil s S : lists s [] S → ready_pop s = (None, s).
Proof. intros [L1 _ _ _ _ _ _ _]. unfold ready_pop. simpl in L1. by rewrite L1. Qed.

Lemma ready_pop_lists s R S t :
  lists s (t :: R) S →
  ∃ s', ready_pop s = (Some t, s') ∧ lists s' R S ∧
    (∀ i, same_but_next (tcb s i) (tcb s' i)) ∧ rest s' = rest s.
Proof.
  intros L. pose proof (lists_short _ _ _ L) as Hlen. destruct L as [[L1 L1'] L2 L3 L4 L5 L6 L7 L8].
  pose proof L7 as [Ht L7']%list.NoDup_cons. simpl in Hlen, L3.
  unfold ready_pop. rewrite L1. cbv zeta. set (s0 := s <| g_ready_head := _ |>).
  set (s1 := if bool_decide (g_ready_head s0 = None) then _ else s0).
  assert (g_tcbs s1 = g_tcbs s ∧ g_ready_head s1 = next (tcb s t) ∧ g_ready_tail s1 = list.last R ∧
    g_ready_count s1 = g_ready_count s ∧ rest s1 = rest s) as (E1 & E2 & E3 & E4 & E5).
  { subst s1. destruct R as [|j R].
    - simpl in L1'. rewrite bool_decide_true by done. done.
    - destruct L1' as [L1' _]. rewrite bool_decide_false; [done|].
      intros E'. cbn in E'. unfold tcb in E'. congruence. }
  clearbody s1. clear s0. set (s2 := set_tcb t _ s1).
  assert (∀ i, same_but_next (tcb s i) (tcb s2 i)) as Hs2.
  { intros i. replace (tcb s i) with (tcb s1 i) by (unfold tcb; by rewrite E1).
    unfold s2. destruct (decide (t = i)) as [<-|]; [rewrite tcb_set_eq; apply same_next|].
    rewrite tcb_set_ne by done. apply same_refl. }
  assert ((g_ready_count s2 >? 0) = true) as -> by (change (g_ready_count s2) with (g_ready_count s1); lia).
  eexists. split; [done|].
  assert (∀ i, i ∈ R ++ S → next (g_tcbs s2 i) = next (g_tcbs s i)) as Hn.
  { intros i Hi. change (next (tcb s2 i) = next (tcb s i)). unfold s2. rewrite tcb_set_ne by set_solver.
    unfold tcb. by rewrite E1. }
  split; [|split; [done|exact E5]]. unfold rest in E5.
  injection E5 as ? ? ? ? ? ? ? ? ? ? Esl ? Esc ? ? ? ? ?.
  split; cbn -[u32]; try done.
  - rewrite E2. eapply chain_frame; [|exact L1']. intros i Hi. apply Hn. set_solver.
  - rewrite E4, L3, u32_small by lia. lia.
  - rewrite Esl. eapply chain_frame; [|exact L4]. intros i Hi. apply Hn. set_solver.
  - by rewrite Esc.
  - eapply sorted_wakes; [|exact L6]. intros i _. change (wake_tick (tcb s2 i) = wake_tick (tcb s i)).
    by rewrite (Hs2 i).
  - intros i Hi. apply L8. by right.
Qed.

(** *** Sleeping *)

Lemma sleep_cursor_spec s fuel h S w :
  chain (g_tcbs s) (Some h) (h :: S) → wake_tick (tcb s h) ≤ w → (length S ≤ fuel)%nat →
  ∃ S1 S2, h :: S = S1 ++ sleep_cursor fuel h w s :: S2 ∧
    (∀ i, i ∈ S1 ++ [sleep_cursor fuel h w s] → wake_tick (tcb s i) ≤ w) ∧
    match S2 with [] => True | x :: _ => w < wake_tick (tcb s x) end.
Proof.
  revert h S. induction fuel as [|fuel IH]; intros h S [_ Hc] Hw Hf.
  { destruct S; [|simpl in Hf; lia]. exists [], []. simpl. split_and!; try done.
    by intros i ->%list_elem_of_singleton. }
  simpl. fold (tcb s h) in *. destruct S as [|n S].
  { change (next (tcb s h) = None) in Hc. rewrite Hc. exists [], []. simpl. split_and!; try done.
    by intros i ->%list_elem_of_singleton. }
  destruct Hc as [Hn Hc]. change (next (tcb s h) = Some n) in Hn. rewrite Hn.
  destruct (Z.leb_spec (wake_tick (tcb s n)) w) as [Hle|Hgt].
  - destruct (IH n S) as (S1 & S2 & E1 & Hle1 & Hgt); [by split|done|simpl in Hf; lia|].
    exists (h :: S1), S2. rewrite E1. split; [done|]. split; [|done].
    intros i [->|Hi]%elem_of_cons; [done|by apply Hle1].
  - exists [], (n :: S). simpl. split_and!; try done. by intros i ->%list_elem_of_singleton.
Qed.

(** Everything but the TCB table, the sleep list and its count. *)
Definition rest_s s : Z * Z * Z * Z * Z * Z * (bool * bool * bool) * option nat * option nat *
    option nat * (Z * Z * Z) * (Z * bool * gmap Z Z * E) :=
  (g_ticks s, g_quantum_expirations s, g_context_switches s, g_quantum_ticks s,
   g_quantum_remaining s, g_timer_hz s, (g_reschedule_pending s, g_wakeup_pending s, g_ready s),
   g_current s, g_ready_head s, g_ready_tail s, (g_thread_count s, g_ready_count s, g_next_tid s),
   (cpu_rsp s, cpu_if s, stack_mem s, env s)).

(** Lists rebuilt after a change of the sleep list: the ready list is
    untouched because its links and anchors are. *)
Lemma lists_sleep s s' R S S' :
  lists s R S → rest_s s' = rest_s s → (∀ i, same_but_next (tcb s i) (tcb s' i)) →
  (∀ i, i ∈ R → next (tcb s' i) = next (tcb s i)) →
  chain (g_tcbs s') (g_sleep_head s') S' → g_sleeping_count s' = Z.of_nat (length S') →
  StronglySorted (wakes s) S' → NoDup (R ++ S') →
  (∀ i, i ∈ S' → (i < SCHED_MAX_THREADS)%nat) → lists s' R S'.
Proof.
  intros [L1 L2 L3 L4 L5 L6 L7 L8] E1 Hs Hn Hc Hcnt Hso Hnd Hb. unfold rest_s in E1.
  injection E1 as ? ? ? ? ? ? ? ? ? ? Eh Et ? Ec ? ? ? ? ?.
  split; try done.
  - rewrite Eh. eapply chain_frame; [|exact L1]. exact Hn.
  - congruence.
  - congruence.
  - eapply sorted_wakes; [|exact Hso]. intros i _. by rewrite (Hs i).
  - intros i [Hi|Hi]%elem_of_app; [apply L8; set_solver|by apply Hb].
Qed.

Lemma same_set i n s j : same_but_next (tcb s j) (tcb (set_tcb i (λ c, c <| next := n |>) s) j).
Proof.
  destruct (decide (i = j)) as [<-|]; [rewrite tcb_set_eq; apply same_next|].
  rewrite tcb_set_ne by done. apply same_refl.
Qed.

Lemma sleep_insert_lists s R S t (s' := sleep_insert (Some t) s) :
  lists s R S → t ∉ R ++ S → (t < SCHED_MAX_THREADS)%nat →
  (∃ S1 S2, S = S1 ++ S2 ∧ lists s' R (S1 ++ t :: S2)) ∧
  (∀ i, same_but_next (tcb s i) (tcb s' i)) ∧ rest_s s' = rest_s s.
Proof.
  intros L Ht Ht8. pose proof (lists_short _ _ _ L) as Hlen. pose proof L as [L1 L2 L3 L4 L5 L6 L7 L8].
  apply list.NoDup_app in L7 as (N1 & N2 & N3).
  set (s1 := set_tcb t (λ c, c <| next := None |>) s).
  assert (lists s1 R S) as LL1 by (apply lists_set; [done|by intros ?|set_solver]).
  assert (∀ i, same_but_next (tcb s i) (tcb s1 i)) as Hs1 by (intros i; apply same_set).
  assert (rest_s s1 = rest_s s ∧ g_sleep_head s1 = g_sleep_head s ∧
          g_sleeping_count s1 = g_sleeping_count s) as (Hr1 & Hh1 & Hc1) by done.
  assert (u32 (g_sleeping_count s + 1) = Z.of_nat (length (t :: S))) as Hcnt
    by (rewrite L5, u32_small; simpl; lia).
  subst s'. unfold sleep_insert. fold s1. clearbody s1. pose proof LL1 as [M1 M2 M3 M4 M5 M6 M7 M8].
  assert (∀ x, x = g_sleep_head s1 → (∀ i, i ∈ S → wake_tick (tcb s1 t) ≤ wake_tick (tcb s1 i)) →
    let s' := ((set_tcb t (λ c, c <| next := x |>) s1) <| g_sleep_head := Some t |>)
                <| g_sleeping_count := u32 (g_sleeping_count s1 + 1) |> in
    lists s' R (t :: S) ∧ (∀ i, same_but_next (tcb s1 i) (tcb s' i)) ∧ rest_s s' = rest_s s1) as Hfront.
  { intros x -> Hle. set (s2 := set_tcb t _ s1). cbv zeta.
    split; [|split; [intros i; apply (same_set t (g_sleep_head s1) s1 i)|done]].
    apply (lists_sleep s1 _ R S); try done.
    - intros i. apply (same_set t (g_sleep_head s1) s1 i).
    - intros i Hi. change (next (tcb s2 i) = next (tcb s1 i)). unfold s2. rewrite tcb_set_ne; [done|].
      intros ->. set_solver.
    - split; [done|]. change (chain (g_tcbs s2) (next (tcb s2 t)) S). unfold s2 at 2. rewrite tcb_set_eq.
      cbn. eapply chain_frame; [|exact M4]. intros i Hi. change (next (tcb s2 i) = next (tcb s1 i)).
      unfold s2. rewrite tcb_set_ne; [done|]. intros ->. set_solver.
    - cbn -[u32]. rewrite Hc1. exact Hcnt.
    - constructor; [done|]. apply list.Forall_forall. intros i Hi. by apply Hle.
    - apply list.NoDup_app. split; [done|]. split; [set_solver|]. apply list.NoDup_cons. set_solver.
    - intros i [->|Hi]%elem_of_cons; [done|]. apply M8. set_solver. }
  rewrite <- Hr1.
  destruct S as [|h S].
  { assert (g_sleep_head s1 = None) as Eh by exact M4. rewrite !Eh in *.
    destruct (Hfront None) as (F1 & F2 & F3); [done|by intros i ?%elem_of_nil|].
    split; [|split]; [exists [], []; split; [done|exact F1]|intros i; by eapply same_trans; [apply Hs1|]|done]. }
  pose proof M4 as [Eh _]. rewrite !Eh in *.
  destruct (Z.ltb_spec (wake_tick (tcb s1 t)) (wake_tick (tcb s1 h))) as [Hlt|Hge].
  { destruct (Hfront (Some h)) as (F1 & F2 & F3); [done| |].
    { intros i [->|Hi]%elem_of_cons; [lia|]. apply StronglySorted_inv in M6 as [_ HF].
      apply list.Forall_forall with (x := i) in HF; [|done]. unfold wakes in HF. lia. }
    split; [|split]; [exists [], (h :: S); split; [done|exact F1]|intros i; by eapply same_trans; [apply Hs1|]|done]. }
  destruct (sleep_cursor_spec s1 SCHED_MAX_THREADS h S (wake_tick (tcb s1 t)) M4) as (S1 & S2 & ES & Hle & Hgt);
    [done|simpl in Hlen; unfold SCHED_MAX_THREADS; lia|].
  set (c := sleep_cursor SCHED_MAX_THREADS h (wake_tick (tcb s1 t)) s1) in *. clearbody c.
  assert (c ≠ t) as Hct by (rewrite ES in Ht; set_solver).
  set (s2 := set_tcb t (λ c0, c0 <| next := next (tcb s1 c) |>) s1).
  set (s3 := set_tcb c (λ c0, c0 <| next := Some t |>) s2).
  assert (∀ i, same_but_next (tcb s1 i) (tcb s3 i)) as Hs3.
  { intros i. eapply same_trans; [apply (same_set t (next (tcb s1 c)) s1)|apply same_set]. }
  split; [|split; [intros i; eapply same_trans; [apply Hs1|apply Hs3]|done]].
  exists (S1 ++ [c]), S2. rewrite ES, <- app_assoc. split; [done|]. cbn [app].
  rewrite ES in *. clear ES Hfront.
  assert ((t ∉ S1 ++ c :: S2) ∧ (t ∉ R)) as [HtS HtR] by set_solver.
  assert (∀ i, i ∈ S2 → wake_tick (tcb s1 t) ≤ wake_tick (tcb s1 i)) as Hgt'.
  { apply StronglySorted_app in M6 as (_ & _ & M6). apply StronglySorted_inv in M6 as [M6 _].
    destruct S2 as [|x S2]; [by intros i ?%elem_of_nil|]. apply StronglySorted_inv in M6 as [_ HF].
    intros i [->|Hi]%elem_of_cons; [lia|]. apply list.Forall_forall with (x := i) in HF; [|done].
    unfold wakes in HF. lia. }
  assert (∀ i, i ≠ c → i ≠ t → next (tcb s3 i) = next (tcb s1 i)) as Hn.
  { intros i ? ?. unfold s3, s2. by rewrite !tcb_set_ne. }
  apply (lists_sleep s1 _ R (S1 ++ c :: S2)); try done.
  - intros i Hi. apply Hn; set_solver.
  - rewrite <- app_assoc. change (g_sleep_head (s3 <| g_sleeping_count := _ |>)) with (g_sleep_head s1).
    rewrite Eh. apply (chain_insert (g_tcbs s1)); [done|done| | |].
    + intros i Hi. apply Hn; [|set_solver]. intros ->. apply list.NoDup_app in N3 as (? & N3 & N4).
      apply list.NoDup_cons in N4 as [? _]. set_solver.
    + change (next (tcb s3 c) = Some t). unfold s3. by rewrite tcb_set_eq.
    + change (next (tcb s3 t) = next (tcb s1 c)). unfold s3. rewrite tcb_set_ne by done.
      unfold s2. by rewrite tcb_set_eq.
  - cbn -[u32]. rewrite Hc1, Hcnt. rewrite !length_app. simpl. rewrite length_app. simpl. lia.
  - apply sorted_insert; [by rewrite <- app_assoc|done|done].
  - assert (R ++ (S1 ++ [c]) ++ t :: S2 ≡ₚ t :: (R ++ S1 ++ c :: S2)) as -> by solve_Permutation.
    apply list.NoDup_cons. split; [set_solver|done].
  - intros i Hi. assert (i = t ∨ i ∈ R ++ S1 ++ c :: S2) as [->|Hi'] by set_solver; [done|by apply M8].
Qed.

(** Everything but the TCB table, the two lists and their counts. *)
Definition rest_l s : Z * Z * Z * Z * Z * Z * (bool * bool * bool) * option nat *
    (Z * Z) * (Z * bool * gmap Z Z * E) :=
  (g_ticks s, g_quantum_expirations s, g_context_switches s, g_quantum_ticks s,
   g_quantum_remaining s, g_timer_hz s, (g_reschedule_pending s, g_wakeup_pending s, g_ready s),
   g_current s, (g_thread_count s, g_next_tid s), (cpu_rsp s, cpu_if s, stack_mem s, env s)).

Lemma rest_rest_l s s' : rest s' = rest s → rest_l s' = rest_l s.
Proof. unfold rest, rest_l. congruence. Qed.
Lemma rest_s_rest_l s s' : rest_s s' = rest_s s → rest_l s' = rest_l s.
Proof. unfold rest_s, rest_l. congruence. Qed.

(** The thread [t] leaves the sleep list and joins the ready list. *)
Definition woken (c : nexus_tcb_t) : nexus_tcb_t := c <| state := THREAD_READY |>.

Lemma move_to_ready s s1 R S S' t f (s2 := set_tcb t f s1) (s' := ready_append (Some t) s2) :
  lists s1 R S' → t ∉ R ++ S' → (t < SCHED_MAX_THREADS)%nat →
  (∀ i, same_but_next (tcb s i) (tcb s1 i)) → rest_l s1 = rest_l s →
  (∀ c c', same_but_next c c' → same_but_next (f c) (f c')) →
  lists s' (R ++ [t]) S' ∧ rest_l s' = rest_l s ∧
  ∀ i, same_but_next (if decide (i = t) then f (tcb s i) else tcb s i) (tcb s' i).
Proof.
  intros L1 Ht Ht8 Hs1 Hr1 Hf.
  assert (lists s2 R S') as L2 by (apply lists_set; [done|set_solver..]).
  destruct (ready_append_lists s2 R S' t L2 Ht Ht8) as (L3 & Hs3 & Hr3). split; [done|].
  split; [etrans; [apply (rest_rest_l _ _ Hr3)|exact Hr1]|]. intros i.
  eapply same_trans; [|apply Hs3]. case_decide as Hd.
  - subst i. unfold s2. rewrite tcb_set_eq. by apply Hf.
  - unfold s2. rewrite tcb_set_ne by done. apply Hs1.
Qed.

(** Dropping the first sleeper. *)
Lemma sleep_pop_lists s R S t (s1 := set_tcb t (λ c, c <| next := None |>)
                                 (s <| g_sleep_head := next (tcb s t) |>)) :
  lists s R (t :: S) →
  lists (if g_sleeping_count s1 >? 0
         then s1 <| g_sleeping_count := u32 (g_sleeping_count s1 - 1) |> else s1) R S ∧
  (∀ i, same_but_next (tcb s i) (tcb s1 i)).
Proof.
  intros L. pose proof (lists_short _ _ _ L) as Hlen. pose proof L as [L1 L2 L3 [_ L4] L5 L6 L7 L8].
  simpl in Hlen, L5. change (g_sleeping_count s1) with (g_sleeping_count s).
  assert ((g_sleeping_count s >? 0) = true) as -> by lia.
  assert (∀ i, same_but_next (tcb s i) (tcb s1 i)) as Hs1.
  { intros i. subst s1. set (s0 := s <| g_sleep_head := _ |>).
    change (tcb s i) with (tcb s0 i). apply same_set. }
  split; [|done].
  assert ((t ∉ R ++ S) ∧ NoDup (R ++ S)) as [Ht Hnd].
  { assert (R ++ t :: S ≡ₚ t :: R ++ S) as E0 by solve_Permutation. rewrite E0 in L7.
    by apply list.NoDup_cons in L7. }
  assert (∀ i, i ∈ R ++ S → next (tcb s1 i) = next (tcb s i)) as Hn.
  { intros i Hi. unfold s1. rewrite tcb_set_ne; [done|]. by intros ->. }
  apply (lists_sleep s _ R (t :: S)); try done.
  - intros i Hi. apply Hn. set_solver.
  - eapply chain_frame; [|exact L4]. intros i Hi. apply Hn. set_solver.
  - cbn -[u32]. rewrite L5, u32_small by lia. lia.
  - by apply StronglySorted_inv in L6 as [? _].
  - intros i Hi. apply L8. set_solver.
Qed.

Lemma woken_same c c' : same_but_next c c' → same_but_next (woken c) (woken c').
Proof. unfold same_but_next. intros ->. by destruct c. Qed.

Lemma wake_due_loop_lists fuel s R S (s' := wake_due_loop fuel s) :
  lists s R S → (length S ≤ fuel)%nat →
  ∃ due S', S = due ++ S' ∧ lists s' (R ++ due) S' ∧ rest_l s' = rest_l s ∧
    (∀ i, same_but_next (if decide (i ∈ due) then woken (tcb s i) else tcb s i) (tcb s' i)) ∧
    (∀ i, i ∈ due → wake_tick (tcb s i) ≤ g_ticks s) ∧
    match S' with [] => True | x :: _ => g_ticks s < wake_tick (tcb s x) end.
Proof.
  assert (∀ s R S, lists s R S →
    match S with [] => True | x :: _ => g_ticks s < wake_tick (tcb s x) end →
    ∃ due S', S = due ++ S' ∧ lists s (R ++ due) S' ∧ rest_l s = rest_l s ∧
      (∀ i, same_but_next (if decide (i ∈ due) then woken (tcb s i) else tcb s i) (tcb s i)) ∧
      (∀ i, i ∈ due → wake_tick (tcb s i) ≤ g_ticks s) ∧
      match S' with [] => True | x :: _ => g_ticks s < wake_tick (tcb s x) end) as Hno.
  { intros s0 R0 S0 L0 Hd. exists [], S0. rewrite (app_nil_r R0). split_and!; try done; [|set_solver].
    intros i. rewrite decide_False by apply not_elem_of_nil. apply same_refl. }
  revert s R S s'. induction fuel as [|fuel IH]; intros s R S s' L Hf; subst s'.
  { destruct S; [|simpl in Hf; lia]. by apply Hno. }
  cbn [wake_due_loop]. pose proof L as [L1 L2 L3 L4 L5 L6 L7 L8].
  destruct S as [|t S]; cbn [chain] in L4; [rewrite L4; by apply Hno|].
  rewrite (proj1 L4). destruct (Z.leb_spec (wake_tick (tcb s t)) (g_ticks s)) as [Hle|Hgt]; [|by apply Hno].
  assert (t ∉ R ++ S) as Ht.
  { assert (R ++ t :: S ≡ₚ t :: R ++ S) as E0 by solve_Permutation. rewrite E0 in L7.
    by apply list.NoDup_cons in L7 as [? _]. }
  destruct (sleep_pop_lists s R S t L) as [LP HP]. cbv zeta.
  set (s1 := set_tcb t (λ c, c <| next := None |>) _) in *.
  set (s2 := if g_sleeping_count s1 >? 0 then _ else s1) in *.
  assert (∀ i, same_but_next (tcb s i) (tcb s2 i)) as HP2
    by (intros i; unfold s2; destruct (_ >? _); apply HP).
  assert (rest_l s2 = rest_l s) as HR by (unfold s2; by destruct (_ >? _)).
  destruct (move_to_ready s s2 R (t :: S) S t woken LP Ht (L8 t ltac:(set_solver)) HP2 HR woken_same)
    as (L9 & R9 & H9).
  fold (woken) in *. change (set_tcb t (λ c, c <| state := THREAD_READY |>) s2) with (set_tcb t woken s2).
  set (s3 := ready_append (Some t) (set_tcb t woken s2)) in *.
  destruct (IH s3 (R ++ [t]) S L9) as (due & S' & -> & L10 & R10 & H10 & D10 & N10); [simpl in Hf; lia|].
  assert (g_ticks s3 = g_ticks s) as Htk by (unfold rest_l in R9; congruence).
  assert (∀ i, wake_tick (tcb s3 i) = wake_tick (tcb s i)) as Hwk.
  { intros i. rewrite (H9 i). cbn. by case_decide. }
  exists (t :: due), S'. split; [done|]. rewrite <- app_assoc in L10. split; [exact L10|].
  split; [by rewrite R10|]. split_and!.
  - intros i. eapply same_trans; [|apply H10]. specialize (H9 i).
    destruct (decide (i ∈ due)) as [D1|D1].
    + rewrite decide_True by (by right). rewrite decide_False in H9; [by apply woken_same|].
      intros ->. apply Ht, elem_of_app. right. apply elem_of_app. by left.
    + destruct (decide (i = t)) as [->|D2]; [by rewrite decide_True by left|].
      rewrite decide_False; [done|]. by intros [?|?]%elem_of_cons.
  - intros i [->|Hi]%elem_of_cons; [done|]. rewrite <- Hwk, <- Htk. by apply D10.
  - destruct S'; [done|]. by rewrite <- Hwk, <- Htk.
Qed.

Lemma find_link_spec s fuel link t S1 S2 :
  chain (g_tcbs s) (match link with None => g_sleep_head s | Some p => next (tcb s p) end)
    (S1 ++ t :: S2) → t ∉ S1 → (length S1 ≤ fuel)%nat →
  find_link fuel link t s = match list.last S1 with None => link | Some p => Some p end.
Proof.
  revert link S1. induction fuel as [|fuel IH]; intros link S1 Hc Ht Hf.
  { destruct S1; [by destruct link|simpl in Hf; lia]. }
  cbn [find_link]. destruct S1 as [|n S1]; cbn [app chain] in Hc; destruct Hc as [-> Hc].
  { by rewrite Nat.eqb_refl. }
  rewrite (proj2 (Nat.eqb_neq n t)) by set_solver.
  rewrite (IH (Some n) S1 Hc); [|set_solver|simpl in Hf; lia]. destruct S1 as [|m S1]; [done|].
  change (list.last (n :: m :: S1)) with (list.last (m :: S1)).
  destruct (list.last (m :: S1)) eqn:El; [done|]. by apply last_None in El.
Qed.

Definition rewoken (c : nexus_tcb_t) : nexus_tcb_t := woken (c <| wake_tick := 0 |>).

(** Dropping a sleeper behind another one. *)
Lemma sleep_drop_lists s R S1 p t S2 (s1 := set_tcb t (λ c, c <| next := None |>)
    (set_tcb p (λ c, c <| next := next (tcb s t) |>) s)) :
  lists s R (S1 ++ p :: t :: S2) →
  lists (if g_sleeping_count s1 >? 0
         then s1 <| g_sleeping_count := u32 (g_sleeping_count s1 - 1) |> else s1) R (S1 ++ p :: S2) ∧
  (∀ i, same_but_next (tcb s i) (tcb s1 i)).
Proof.
  intros L. pose proof (lists_short _ _ _ L) as Hlen. pose proof L as [L1 L2 L3 L4 L5 L6 L7 L8].
  rewrite length_app in Hlen, L5. simpl in Hlen, L5.
  change (g_sleeping_count s1) with (g_sleeping_count s).
  assert ((g_sleeping_count s >? 0) = true) as -> by lia.
  assert (∀ i, same_but_next (tcb s i) (tcb s1 i)) as Hs1.
  { intros i. eapply same_trans; [apply (same_set p (next (tcb s t)) s)|apply same_set]. }
  split; [|done].
  assert ((t ∉ R ++ S1 ++ p :: S2) ∧ NoDup (R ++ S1 ++ p :: S2)) as [Ht Hnd].
  { assert (R ++ S1 ++ p :: t :: S2 ≡ₚ t :: R ++ S1 ++ p :: S2) as E0 by solve_Permutation.
    rewrite E0 in L7. by apply list.NoDup_cons in L7. }
  assert (p ∉ R ++ S1 ++ S2) as Hp.
  { assert (R ++ S1 ++ p :: S2 ≡ₚ p :: R ++ S1 ++ S2) as E0 by solve_Permutation.
    rewrite E0 in Hnd. by apply list.NoDup_cons in Hnd as [? _]. }
  assert (∀ i, i ∈ R ++ S1 ++ S2 → next (tcb s1 i) = next (tcb s i)) as Hn.
  { intros i Hi. unfold s1. rewrite !tcb_set_ne; [done|intros ->; set_solver..]. }
  apply (lists_sleep s _ R (S1 ++ p :: t :: S2)); try done.
  - intros i Hi. apply Hn. set_solver.
  - eapply chain_remove; [exact L4| |].
    + intros i Hi. apply Hn. set_solver.
    + change (next (tcb s1 p) = next (tcb s t)). unfold s1. rewrite tcb_set_ne by set_solver.
      by rewrite tcb_set_eq.
  - cbn -[u32]. rewrite L5, u32_small, length_app by lia. simpl. lia.
  - apply StronglySorted_app in L6 as (A1 & A2 & A3). apply StronglySorted_app. split_and!; [|done|].
    + intros x y Hx Hy. apply A1; set_solver.
    + apply StronglySorted_inv in A3 as [A3 A4]. apply StronglySorted_inv in A3 as [A3 _].
      constructor; [done|]. by apply list.Forall_cons in A4 as [_ ?].
  - intros i Hi. apply L8. set_solver.
Qed.

Lemma wake_thread_locked_lists s R S1 t S2 (s' := wake_thread_locked (Some t) s) :
  lists s R (S1 ++ t :: S2) → state (tcb s t) = THREAD_SLEEPING →
  lists s' (R ++ [t]) (S1 ++ S2) ∧ rest_l s' = rest_l s ∧
  ∀ i, same_but_next (if decide (i = t) then rewoken (tcb s i) else tcb s i) (tcb s' i).
Proof.
  intros L Hst. pose proof L as [L1 L2 L3 L4 L5 L6 L7 L8].
  assert (t ∉ R ++ S1 ++ S2) as Ht.
  { assert (R ++ S1 ++ t :: S2 ≡ₚ t :: R ++ S1 ++ S2) as E0 by solve_Permutation. rewrite E0 in L7.
    by apply list.NoDup_cons in L7 as [? _]. }
  pose proof (lists_short _ _ _ L) as Hlen. rewrite length_app in Hlen. simpl in Hlen.
  subst s'. unfold wake_thread_locked. rewrite Hst, Z.eqb_refl. cbn [negb].
  rewrite (find_link_spec s _ None t S1 S2 L4) by (unfold SCHED_MAX_THREADS; set_solver || lia).
  assert (∀ s1, lists (if g_sleeping_count s1 >? 0
       then s1 <| g_sleeping_count := u32 (g_sleeping_count s1 - 1) |> else s1) R (S1 ++ S2) →
    (∀ i, same_but_next (tcb s i) (tcb s1 i)) → rest_l s1 = rest_l s →
    let s2 := if g_sleeping_count s1 >? 0
       then s1 <| g_sleeping_count := u32 (g_sleeping_count s1 - 1) |> else s1 in
    let s' := ready_append (Some t) (set_tcb t (λ c, c <| state := THREAD_READY |>)
                (set_tcb t (λ c, c <| wake_tick := 0 |>) s2)) in
    lists s' (R ++ [t]) (S1 ++ S2) ∧ rest_l s' = rest_l s ∧
    ∀ i, same_but_next (if decide (i = t) then rewoken (tcb s i) else tcb s i) (tcb s' i)) as Hfin.
  { intros s1 LP HP HR s2. fold s2 in LP.
    assert (∀ i, same_but_next (tcb s i) (tcb s2 i)) as HP2
      by (intros i; unfold s2; destruct (_ >? _); apply HP).
    assert (rest_l s2 = rest_l s) as HR2 by (rewrite <- HR; unfold s2; by destruct (_ >? _)).
    clearbody s2. cbv zeta. set (s3 := set_tcb t (λ c, c <| wake_tick := 0 |>) s2).
    assert (lists s3 R (S1 ++ S2)) as L3' by (apply lists_set; [done|set_solver..]).
    set (s4 := set_tcb t (λ c, c <| state := THREAD_READY |>) s3).
    assert (lists s4 R (S1 ++ S2)) as L4' by (apply lists_set; [done|set_solver..]).
    destruct (ready_append_lists s4 R (S1 ++ S2) t L4' Ht (L8 t ltac:(set_solver))) as (L5' & H5 & R5).
    split; [done|]. split; [etrans; [apply (rest_rest_l _ _ R5)|exact HR2]|].
    intros i. eapply same_trans; [|apply H5]. unfold s4, s3. case_decide as Hd.
    - subst i. rewrite !tcb_set_eq. specialize (HP2 t). unfold same_but_next in *. rewrite HP2.
      by destruct (tcb s t).
    - rewrite !tcb_set_ne by done. apply HP2. }
  destruct S1 as [|p S1 _] using rev_ind.
  - simpl in L4. rewrite (proj1 L4). rewrite bool_decide_true by done. cbn [negb app] in *.
    destruct (sleep_pop_lists s R S2 t L) as [LP HP]. by apply Hfin.
  - rewrite last_snoc. rewrite <- app_assoc in L. cbn [app] in L.
    assert (next (tcb s p) = Some t) as Hpt.
    { clear -L. destruct L as [_ _ _ Hc _ _ _ _]. revert Hc. generalize (g_sleep_head s).
      induction S1 as [|x S1 IH]; intros h [_ Hc]; [apply Hc|]. by eapply IH. }
    rewrite Hpt, bool_decide_true by done. cbn [negb].
    destruct (sleep_drop_lists s R S1 p t S2 L) as [LP HP].
    apply Hfin; [by rewrite <- app_assoc|done|done].
Qed.
End lists.

#[local] Opaque wake_due_loop find_link sleep_cursor.

(** ** The scheduler invariant *)

Section invariant.
Context {E : Type} `{SchedEnv E}.
Implicit Types (s : sched E) (R S : list nat).

Definition valid s (i : nat) : Prop :=
  (i < SCHED_MAX_THREADS)%nat ∧ magic (tcb s i) = THREAD_MAGIC.

(** [c] is the current thread, [R] the ready queue, [S] the sleep queue: the
    queues hold exactly the READY and SLEEPING threads, only [c] can be
    RUNNING, the idle thread 0 is always runnable, and ids are unique. *)
Record wf s (c : nat) R S : Prop := {
  w_ready : g_ready s = true;
  w_cur : g_current s = Some c;
  w_valid : valid s c;
  w_lists : lists s R S;
  w_R : ∀ i, i ∈ R ↔ valid s i ∧ state (tcb s i) = THREAD_READY;
  w_S : ∀ i, i ∈ S ↔ valid s i ∧ state (tcb s i) = THREAD_SLEEPING;
  w_run : ∀ i, valid s i → state (tcb s i) = THREAD_RUNNING → i = c;
  w_idle : valid s 0 ∧ id (tcb s 0%nat) = 0 ∧ process_pid (tcb s 0%nat) = 0 ∧
    (state (tcb s 0%nat) = THREAD_READY ∨ state (tcb s 0%nat) = THREAD_RUNNING);
  w_ids : ∀ i j, valid s i → valid s j → id (tcb s i) = id (tcb s j) → i = j;
  w_tid : ∀ i, valid s i → 0 ≤ id (tcb s i) < g_next_tid s;
}.

(** The fields that identify a thread. *)
Definition ident s s' : Prop :=
  g_next_tid s' = g_next_tid s ∧
  ∀ i, magic (tcb s' i) = magic (tcb s i) ∧ id (tcb s' i) = id (tcb s i) ∧
       process_pid (tcb s' i) = process_pid (tcb s i).

Lemma ident_valid s s' i : ident s s' → valid s' i ↔ valid s i.
Proof. intros [_ Hi]. unfold valid. by rewrite (proj1 (Hi i)). Qed.

Lemma wf_restate s s' c c' R R' S S' :
  wf s c R S → ident s s' → g_ready s' = true → g_current s' = Some c' → valid s c' →
  lists s' R' S' →
  (∀ i, i ∈ R' ↔ valid s i ∧ state (tcb s' i) = THREAD_READY) →
  (∀ i, i ∈ S' ↔ valid s i ∧ state (tcb s' i) = THREAD_SLEEPING) →
  (∀ i, valid s i → state (tcb s' i) = THREAD_RUNNING → i = c') →
  (state (tcb s' 0%nat) = THREAD_READY ∨ state (tcb s' 0%nat) = THREAD_RUNNING) →
  wf s' c' R' S'.
Proof.
  intros W Hid Hr Hc Hv L HR HS Hrun Hidle. pose proof (λ i, ident_valid s s' i Hid) as Hval.
  destruct Hid as [Hnt Hid]. destruct W as [_ _ _ _ _ _ _ (V0 & I0 & P0 & _) Hids Htid].
  split; try done.
  - by apply Hval.
  - intros i. rewrite Hval. apply HR.
  - intros i. rewrite Hval. apply HS.
  - intros i Hi. apply Hrun. by apply Hval.
  - destruct (Hid 0%nat) as (_ & -> & ->). rewrite Hval. done.
  - intros i j Hi Hj. destruct (Hid i) as (_ & -> & _), (Hid j) as (_ & -> & _).
    apply Hids; by apply Hval.
  - intros i Hi. destruct (Hid i) as (_ & -> & _). rewrite Hnt. apply Htid. by apply Hval.
Qed.

(** States differ: the constants are distinct. *)
Lemma states_distinct :
  THREAD_READY ≠ THREAD_RUNNING ∧ THREAD_READY ≠ THREAD_SLEEPING ∧ THREAD_READY ≠ THREAD_BLOCKED ∧
  THREAD_READY ≠ THREAD_ZOMBIE ∧ THREAD_RUNNING ≠ THREAD_SLEEPING ∧ THREAD_RUNNING ≠ THREAD_BLOCKED ∧
  THREAD_RUNNING ≠ THREAD_ZOMBIE ∧ THREAD_SLEEPING ≠ THREAD_ZOMBIE ∧ THREAD_SLEEPING ≠ THREAD_BLOCKED.
Proof. done. Qed.

(** A field outside the lists and the identity of the threads. *)
Lemma wf_frame s s' c R S :
  wf s c R S → g_tcbs s' = g_tcbs s → g_ready s' = g_ready s → g_current s' = g_current s →
  g_next_tid s' = g_next_tid s → g_ready_head s' = g_ready_head s → g_ready_tail s' = g_ready_tail s →
  g_ready_count s' = g_ready_count s → g_sleep_head s' = g_sleep_head s →
  g_sleeping_count s' = g_sleeping_count s → wf s' c R S.
Proof.
  intros W Et Er Ec En E1 E2 E3 E4 E5.
  assert (∀ i, tcb s' i = tcb s i) as Ht by (intros i; unfold tcb; by rewrite Et).
  pose proof W as [W1 W2 W3 W4 W5 W6 W7 W8 W9 W10].
  apply (wf_restate s s' c c R R S S); try done; try congruence.
  - split; [congruence|]. intros i. by rewrite Ht.
  - destruct W4 as [L1 L2 L3 L4 L5 L6 L7 L8]. split; rewrite ?Et, ?E1, ?E2, ?E3, ?E4, ?E5; try done.
    eapply sorted_wakes; [|exact L6]. intros i _. by rewrite Ht.
  - intros i. rewrite Ht. apply W5.
  - intros i. rewrite Ht. apply W6.
  - intros i. rewrite Ht. apply W7.
  - rewrite Ht. apply W8.
Qed.

(** *** Waking the due sleepers *)

Lemma wake_due_aux s s1 c R due S' (s2 := s1 <| g_wakeup_pending := head_due s1 |>) :
  wf s c R (due ++ S') → lists s1 (R ++ due) S' → rest_l s1 = rest_l s →
  (∀ i, same_but_next (if decide (i ∈ due) then woken (tcb s i) else tcb s i) (tcb s1 i)) →
  match S' with [] => True | x :: _ => g_ticks s < wake_tick (tcb s x) end →
  wf s2 c (R ++ due) S' ∧
  (∀ i, i ∈ S' → g_ticks s < wake_tick (tcb s i)) ∧
  g_wakeup_pending s2 = false ∧ g_reschedule_pending s2 = g_reschedule_pending s ∧
  env s2 = env s ∧ cpu_if s2 = cpu_if s ∧
  (∀ i, i ∉ due → state (tcb s2 i) = state (tcb s i)).
Proof.
  intros W L Er Hs Hn. subst s2. pose proof W as [W1 W2 W3 W4 W5 W6 W7 W8 W9 W10].
  assert (∀ i, wake_tick (tcb s1 i) = wake_tick (tcb s i)) as Hwk.
  { intros i. rewrite (Hs i). cbn. by case_decide. }
  assert (∀ i, i ∈ S' → g_ticks s < wake_tick (tcb s i)) as Hall.
  { destruct L as [_ _ _ _ _ L6 _ _]. destruct S' as [|x S']; [by intros i ?%elem_of_nil|].
    apply StronglySorted_inv in L6 as [_ HF]. intros i [->|Hi]%elem_of_cons; [done|].
    apply list.Forall_forall with (x := i) in HF; [|done]. unfold wakes in HF. rewrite !Hwk in HF. lia. }
  assert (head_due s1 = false) as Hhd.
  { unfold head_due. destruct L as [_ _ _ L4 _ _ _ _]. destruct S' as [|x S']; [by rewrite L4|].
    rewrite (proj1 L4). unfold rest_l in Er. assert (g_ticks s1 = g_ticks s) as -> by congruence.
    rewrite Hwk. specialize (Hall x ltac:(left)). lia. }
  assert (NoDup (due ++ S')) as Hnd.
  { pose proof (l_nodup _ _ _ W4) as Hnd. apply list.NoDup_app in Hnd. tauto. }
  assert (∀ i, state (tcb s1 i) = if decide (i ∈ due) then THREAD_READY else state (tcb s i)) as Hst.
  { intros i. rewrite (Hs i). cbn. by case_decide. }
  unfold rest_l in Er. injection Er as ? ? ? ? ? ? ? ? ? ? ? Etid ? ? ? ?.
  split; [|split_and!; try done; cbn; try congruence].
  - apply (wf_restate s _ c c R _ (due ++ S') _); try done; try (cbn; congruence).
    + split; [done|]. intros i. change (tcb (s1 <| g_wakeup_pending := _ |>) i) with (tcb s1 i).
      rewrite (Hs i). by case_decide.
    + by destruct L.
    + intros i. change (tcb (s1 <| g_wakeup_pending := _ |>) i) with (tcb s1 i).
      rewrite Hst, elem_of_app, W5. case_decide as Hi; [|tauto].
      assert (i ∈ due ++ S') as Hi' by set_solver. apply W6 in Hi' as [? _]. tauto.
    + intros i. change (tcb (s1 <| g_wakeup_pending := _ |>) i) with (tcb s1 i).
      rewrite Hst. apply list.NoDup_app in Hnd as (_ & Hnd & _). case_decide as Hi.
      * split; [intros Hi'; by destruct (Hnd i)|by intros [_ ?]].
      * rewrite <- W6, elem_of_app. tauto.
    + intros i Hi. change (tcb (s1 <| g_wakeup_pending := _ |>) i) with (tcb s1 i).
      rewrite Hst. case_decide; [done|by apply W7].
    + change (tcb (s1 <| g_wakeup_pending := _ |>) 0%nat) with (tcb s1 0%nat).
      rewrite Hst. case_decide; [by left|]. apply W8.
  - intros i Hi. change (state (tcb s1 i) = state (tcb s i)). rewrite Hst. by rewrite decide_False.
Qed.

Lemma wake_due_wf s c R S :
  wf s c R S →
  ∃ due S', S = due ++ S' ∧ wf (wake_due_threads s) c (R ++ due) S' ∧
    (∀ i, i ∈ due → wake_tick (tcb s i) ≤ g_ticks s) ∧
    (∀ i, i ∈ S' → g_ticks s < wake_tick (tcb s i)) ∧
    g_wakeup_pending (wake_due_threads s) = false ∧
    g_reschedule_pending (wake_due_threads s) = g_reschedule_pending s ∧
    env (wake_due_threads s) = env s ∧ cpu_if (wake_due_threads s) = cpu_if s ∧
    (∀ i, i ∉ due → state (tcb (wake_due_threads s) i) = state (tcb s i)).
Proof.
  intros W. pose proof (w_lists _ _ _ _ W) as W4. pose proof (lists_short _ _ _ W4) as Hlen.
  destruct (wake_due_loop_lists SCHED_MAX_THREADS s R S W4) as (due & S' & -> & L & Er & Hs & Hd & Hn).
  { unfold SCHED_MAX_THREADS. lia. }
  exists due, S'. split; [done|].
  destruct (wake_due_aux s _ c R due S' W L Er Hs Hn) as (A1 & A2 & A3 & A4 & A5 & A6 & A7).
  split; [exact A1|]. split; [exact Hd|]. split; [exact A2|]. split; [exact A3|].
  split; [exact A4|]. split; [exact A5|]. split; [exact A6|]. exact A7.
Qed.

(** *** Reaping *)

(** Clearing the TCB of a thread in no queue. *)
Lemma clear_wf s c R S i :
  wf s c R S → state (tcb s i) = THREAD_ZOMBIE → i ≠ c → i ≠ 0%nat → valid s i →
  wf (set_tcb i dead_tcb s) c R S.
Proof.
  intros [W1 W2 W3 W4 W5 W6 W7 W8 W9 W10] Hz Hc H0 Hi.
  assert (i ∉ R) as HR by (rewrite W5, Hz; by intros [_ ?]).
  assert (i ∉ S) as HS by (rewrite W6, Hz; by intros [_ ?]).
  assert (∀ j, valid (set_tcb i dead_tcb s) j ↔ valid s j ∧ j ≠ i) as Hv.
  { intros j. unfold valid. destruct (decide (i = j)) as [<-|Hne].
    - rewrite tcb_set_eq. split; [by intros [_ ?]|tauto].
    - rewrite tcb_set_ne by done. intuition congruence. }
  assert (∀ j, j ≠ i → tcb (set_tcb i dead_tcb s) j = tcb s j) as Ht.
  { intros j ?. by rewrite tcb_set_ne. }
  split; try done.
  - apply Hv. done.
  - apply lists_set; [done|set_solver..].
  - intros j. rewrite Hv. destruct (decide (j = i)) as [->|Hne]; [tauto|]. rewrite Ht, W5 by done. tauto.
  - intros j. rewrite Hv. destruct (decide (j = i)) as [->|Hne]; [tauto|]. rewrite Ht, W6 by done. tauto.
  - intros j [Hj Hne]%Hv. rewrite Ht by done. by apply W7.
  - destruct W8 as (? & ? & ? & ?). rewrite Hv, !Ht by done. by split_and!.
  - intros j k [Hj Hne]%Hv [Hk Hne']%Hv. rewrite !Ht by done. by apply W9.
  - intros j [Hj Hne]%Hv. rewrite Ht by done. by apply W10.
Qed.

(** What reaping leaves alone. *)
Definition reap_frame s s' : Prop :=
  g_reschedule_pending s' = g_reschedule_pending s ∧ g_wakeup_pending s' = g_wakeup_pending s ∧
  cpu_if s' = cpu_if s ∧ g_ticks s' = g_ticks s ∧
  ∀ j, valid s' j ∨ state (tcb s j) ≠ THREAD_ZOMBIE → tcb s' j = tcb s j.

Lemma reap_one_wf s c R S i :
  wf s c R S → i ≠ 0%nat → (i < SCHED_MAX_THREADS)%nat →
  wf (reap_one i s) c R S ∧ reap_frame s (reap_one i s).
Proof.
  intros W H0 Hi8. pose proof (w_cur _ _ _ _ W) as Hcur. unfold reap_one. rewrite Hcur.
  destruct (_ || _) eqn:Hg; [by split|].
  apply orb_false_iff in Hg as [Hg Hz]. apply orb_false_iff in Hg as [Hc Hm].
  apply bool_decide_eq_false in Hc. apply negb_false_iff, Z.eqb_eq in Hz. apply negb_false_iff, Z.eqb_eq in Hm.
  set (r := if negb (process_pid (tcb s i) =? 0) then _ else (true, s)).
  assert (∃ e, r.2 = s <| env := e |>) as [e He].
  { subst r. destruct (negb _); [|exists (env s); by destruct s].
    destruct (se_process_reap _ _ _) as [ok e]. by exists e. }
  destruct r as [go s1]. simpl in He. subst s1.
  assert (∀ e, wf (s <| env := e |>) c R S) as We by (intros e'; by eapply wf_frame).
  destruct go; cbn [negb]; [|by split].
  set (s2 := if negb (stack_base _ =? 0) then _ else _).
  assert (∃ e', s2 = s <| env := e' |>) as [e' ->].
  { subst s2. destruct (negb _); [by eexists|]. by eexists. }
  split.
  - apply clear_wf; try done. congruence.
  - split_and!; try done. intros j Hj.
    assert (i ≠ j) as Hne.
    { intros <-. destruct Hj as [[_ Hj]|Hj]; [|done]. by rewrite tcb_set_eq in Hj. }
    by rewrite tcb_set_ne.
Qed.

Lemma reap_frame_trans s1 s2 s3 :
  reap_frame s1 s2 → reap_frame s2 s3 → reap_frame s1 s3.
Proof.
  intros (A1 & A2 & A3 & A4 & A5) (B1 & B2 & B3 & B4 & B5). split_and!; try congruence.
  intros j [Hj|Hj].
  - pose proof (B5 j (or_introl Hj)) as E3.
    assert (valid s2 j) by (destruct Hj as [? Hj]; split; [done|congruence]).
    rewrite E3. apply A5. by left.
  - pose proof (A5 j (or_intror Hj)) as E2. rewrite <- E2. apply B5. right. by rewrite E2.
Qed.

Lemma reap_zombies_wf s c R S :
  wf s c R S → wf (reap_zombies s) c R S ∧ reap_frame s (reap_zombies s).
Proof.
  intros W. unfold reap_zombies.
  assert (∀ l, (∀ i, i ∈ l → i ≠ 0%nat ∧ (i < SCHED_MAX_THREADS)%nat) → ∀ s0, wf s0 c R S →
    wf (foldl (λ s i, reap_one i s) s0 l) c R S ∧ reap_frame s0 (foldl (λ s i, reap_one i s) s0 l)) as Hl.
  { induction l as [|i l IH]; intros Hin s0 W0; [by split|]. cbn [foldl].
    destruct (Hin i ltac:(left)) as [? ?].
    destruct (reap_one_wf s0 c R S i W0) as [W1 F1]; [done|done|].
    destruct (IH ltac:(intros j ?; apply Hin; by right) _ W1) as [W2 F2].
    split; [done|]. by eapply reap_frame_trans. }
  apply Hl; [|done]. intros i Hi%elem_of_seq. unfold SCHED_MAX_THREADS in *. lia.
Qed.

#[local] Opaque wake_due_threads reap_zombies.

(** *** Dispatching *)

(** Updates that touch neither the links nor what the invariant reads. *)
Definition benign (f : nexus_tcb_t → nexus_tcb_t) : Prop := ∀ c,
  next (f c) = next c ∧ wake_tick (f c) = wake_tick c ∧ magic (f c) = magic c ∧ id (f c) = id c ∧
  process_pid (f c) = process_pid c ∧ state (f c) = state c.

Lemma wf_benign s c R S i f : wf s c R S → benign f → wf (set_tcb i f s) c R S.
Proof.
  intros W Hf. pose proof W as [W1 W2 W3 W4 W5 W6 W7 W8 W9 W10].
  assert (∀ j, state (tcb (set_tcb i f s) j) = state (tcb s j)) as Hst.
  { intros j. destruct (decide (i = j)) as [<-|]; [rewrite tcb_set_eq; apply Hf|by rewrite tcb_set_ne]. }
  apply (wf_restate s _ c c R R S S); try done.
  - split; [done|]. intros j. destruct (decide (i = j)) as [<-|]; [|by rewrite tcb_set_ne].
    rewrite tcb_set_eq. destruct (Hf (tcb s i)) as (_ & _ & ? & ? & ? & _). done.
  - apply lists_set; [done|intros _; apply Hf..].
  - intros j. rewrite Hst. apply W5.
  - intros j. rewrite Hst. apply W6.
  - intros j. rewrite Hst. apply W7.
  - rewrite Hst. apply W8.
Qed.

Definition set_state (st : Z) (c : nexus_tcb_t) : nexus_tcb_t := c <| state := st |>.

Lemma state_set i st s j :
  state (tcb (set_tcb i (set_state st) s) j) = if decide (j = i) then st else state (tcb s j).
Proof. case_decide as Hd; [subst; by rewrite tcb_set_eq|by rewrite tcb_set_ne]. Qed.

Lemma ident_set i st s : ident s (set_tcb i (set_state st) s).
Proof.
  split; [done|]. intros j. destruct (decide (i = j)) as [<-|]; [by rewrite tcb_set_eq|].
  by rewrite tcb_set_ne.
Qed.

(** A thread of no queue goes to the back of the ready queue. *)
Lemma enqueue_wf s c R S t (s' := ready_append (Some t) (set_tcb t (set_state THREAD_READY) s)) :
  wf s c R S → valid s t → state (tcb s t) ≠ THREAD_READY → state (tcb s t) ≠ THREAD_SLEEPING →
  wf s' c (R ++ [t]) S ∧ rest s' = rest s ∧ state (tcb s' t) = THREAD_READY ∧
  ∀ i, same_but_next (tcb (set_tcb t (set_state THREAD_READY) s) i) (tcb s' i).
Proof.
  intros W Ht Hnr Hns. pose proof W as [W1 W2 W3 W4 W5 W6 W7 W8 W9 W10].
  assert (t ∉ R ++ S) as Hn.
  { rewrite elem_of_app, W5, W6. intros [[_ ?]|[_ ?]]; done. }
  set (s1 := set_tcb t (set_state THREAD_READY) s).
  assert (lists s1 R S) as L1 by (apply lists_set; [done|set_solver..]).
  destruct (ready_append_lists s1 R S t L1 Hn (proj1 Ht)) as (L2 & Hs & Hr).
  change (ready_append (Some t) s1) with s' in L2, Hs, Hr. clearbody s'.
  assert (∀ i, state (tcb s' i) = if decide (i = t) then THREAD_READY else state (tcb s i)) as Hst.
  { intros i. rewrite (Hs i). change (state (tcb s1 i) = if decide (i = t) then THREAD_READY else state (tcb s i)).
    apply state_set. }
  split; [|split; [exact Hr|split; [by rewrite Hst, decide_True|exact Hs]]].
  assert (ident s s') as Hid.
  { destruct (ident_set t THREAD_READY s) as [I1 I2]. fold s1 in I1, I2. split.
    - unfold rest in Hr. congruence.
    - intros i. rewrite (Hs i). apply I2. }
  unfold rest in Hr. apply (wf_restate s s' c c R _ S S); try done; try congruence.
  - change (g_ready s1) with (g_ready s) in Hr. congruence.
  - change (g_current s1) with (g_current s) in Hr. congruence.
  - intros i. rewrite Hst, elem_of_app, W5, list_elem_of_singleton. case_decide as Hd; [|tauto].
    subst i. tauto.
  - intros i. rewrite Hst, W6. case_decide as Hd; [subst i|tauto].
    split; intros [_ ?]; done.
  - intros i Hi. rewrite Hst. case_decide; [done|by apply W7].
  - rewrite Hst. case_decide; [by left|apply W8].
Qed.

(** The first ready thread becomes the current one. *)
Lemma dispatch_wf s c n R S :
  wf s c (n :: R) S → state (tcb s c) ≠ THREAD_RUNNING →
  ∃ s1, ready_pop s = (Some n, s1) ∧
  wf ((set_tcb n (set_state THREAD_RUNNING) s1) <| g_current := Some n |>) n R S ∧ rest s1 = rest s ∧
  ∀ i, same_but_next (tcb s i) (tcb s1 i).
Proof.
  intros W Hc. pose proof W as [W1 W2 W3 W4 W5 W6 W7 W8 W9 W10].
  destruct (ready_pop_lists s R S n W4) as (s1 & Ep & L1 & Hs & Hr).
  exists s1. split; [done|]. split; [|done]. set (s2 := set_tcb n (set_state THREAD_RUNNING) s1).
  assert (n ∈ n :: R) as HnR by left. apply W5 in HnR as [Hnv Hnst].
  assert (∀ i, state (tcb s2 i) = if decide (i = n) then THREAD_RUNNING else state (tcb s i)) as Hst.
  { intros i. unfold s2. rewrite state_set. case_decide; [done|]. by rewrite (Hs i). }
  pose proof (l_nodup _ _ _ W4) as Hnd. simpl in Hnd. apply list.NoDup_cons in Hnd as [HnRS _].
  unfold rest in Hr.
  apply (wf_restate s _ c n (n :: R) R S S); try done.
  - split; [cbn; congruence|]. intros i. change (tcb (s2 <| g_current := _ |>) i) with (tcb s2 i).
    destruct (ident_set n THREAD_RUNNING s1) as [_ I2]. fold s2 in I2.
    destruct (I2 i) as (-> & -> & ->). by rewrite (Hs i).
  - cbn. congruence.
  - assert (lists s2 R S) as L2 by (apply lists_set; [done|set_solver..]). by destruct L2.
  - intros i. change (tcb (s2 <| g_current := _ |>) i) with (tcb s2 i). rewrite Hst.
    case_decide as Hd; [subst i; split; [set_solver|by intros [_ ?]]|].
    rewrite <- W5, elem_of_cons. tauto.
  - intros i. change (tcb (s2 <| g_current := _ |>) i) with (tcb s2 i). rewrite Hst.
    case_decide as Hd; [subst i; split; [set_solver|by intros [_ ?]]|]. apply W6.
  - intros i Hi. change (tcb (s2 <| g_current := _ |>) i) with (tcb s2 i). rewrite Hst.
    case_decide as Hd; [done|]. intros Hrun. specialize (W7 i Hi Hrun). by subst.
  - change (tcb (s2 <| g_current := _ |>) 0%nat) with (tcb s2 0%nat). rewrite Hst.
    case_decide; [by right|]. apply W8.
Qed.

(** *** The scheduling step *)

(** The process behind a thread can run (kernel threads always can). *)
Definition live (e : E) (t : nexus_tcb_t) : Prop :=
  process_pid t = 0 ∨
  ∃ np, se_process_get e (process_pid t) = Some np ∧ pv_zombie np = false ∧ pv_cr3 np ≠ 0.

(** The environment after a switch to a thread. *)
Definition switch_env (e : E) (t : nexus_tcb_t) : E :=
  if process_pid t =? 0
  then se_paging_switch_cr3 (se_paging_kernel_cr3 e) (se_process_clear_current e)
  else match se_process_get e (process_pid t) with
       | Some np => se_paging_switch_cr3 (pv_cr3 np) (se_process_set_current (pv_pid np) e)
       | None => e
       end.

Lemma benign_switches n : benign (λ c, c <| switches := n c |>).
Proof. by intros []. Qed.
Lemma benign_rsp n : benign (λ c, c <| rsp := n |>).
Proof. by intros []. Qed.

(** The end of [switch_to] for a live thread. *)
Lemma switch_to_live flags old n s1 R S :
  wf ((set_tcb n (set_state THREAD_RUNNING) s1) <| g_current := Some n |>) n R S →
  old ≠ n → live (env s1) (tcb s1 n) →
  ∃ s', switch_to flags old n s1 = (Switched, s') ∧ wf s' n R S ∧
    state (tcb s' n) = THREAD_RUNNING ∧ cpu_rsp s' = rsp (tcb s1 n) ∧ cpu_if s' = true ∧
    rsp (tcb s' old) = cpu_rsp s1 ∧ env s' = switch_env (env s1) (tcb s1 n).
Proof.
  intros W Hne Hlive. unfold switch_to. fold (set_state THREAD_RUNNING).
  set (sa := (set_tcb n (set_state THREAD_RUNNING) s1) <| g_current := Some n |>) in *.
  assert (tcb sa n = set_state THREAD_RUNNING (tcb s1 n)) as Et by exact (tcb_set_eq n _ s1).
  assert (env sa = env s1 ∧ cpu_rsp sa = cpu_rsp s1) as [Ee Er] by done. cbv zeta.
  change (process_pid (tcb sa n)) with (process_pid (tcb sa n)). rewrite Et.
  change (process_pid (set_state THREAD_RUNNING (tcb s1 n))) with (process_pid (tcb s1 n)).
  assert (∀ cr3 e, ∃ s', (let s := (sa <| env := e |>) <| env := se_paging_switch_cr3 cr3 e |> in
    let s := set_tcb old (λ c, c <| switches := u64 (switches c + 1) |>) s in
    let s := set_tcb n (λ c, c <| switches := u64 (switches c + 1) |>) s in
    let s := s <| g_context_switches := u64 (g_context_switches s + 1) |> in
    let s := s <| cpu_if := false |> in
    let s := arch_context_switch old n s in
    (Switched, s <| cpu_if := true |>)) = (Switched, s') ∧ wf s' n R S ∧
    state (tcb s' n) = THREAD_RUNNING ∧ cpu_rsp s' = rsp (tcb s1 n) ∧ cpu_if s' = true ∧
    rsp (tcb s' old) = cpu_rsp s1 ∧ env s' = se_paging_switch_cr3 cr3 e) as Hfin.
  { intros cr3 e. cbv zeta.
    set (sb := (sa <| env := e |>) <| env := _ |>).
    assert (wf sb n R S) as Wb by (by eapply wf_frame).
    assert (tcb sb = tcb sa) as Etb by done. assert (cpu_rsp sb = cpu_rsp s1) as Erb by done.
    assert (env sb = se_paging_switch_cr3 cr3 e) as Eeb by done. clearbody sb.
    set (sc := set_tcb old _ sb). set (sd := set_tcb n _ sc).
    assert (wf sc n R S) as Wc by (apply wf_benign; [done|apply benign_switches]).
    assert (wf sd n R S) as Wd by (apply wf_benign; [done|apply benign_switches]).
    unfold arch_context_switch. eexists. split; [reflexivity|].
    set (se := (sd <| g_context_switches := _ |>) <| cpu_if := false |>).
    assert (wf se n R S) as We by (by eapply wf_frame).
    assert (tcb se = tcb sd ∧ cpu_rsp se = cpu_rsp s1 ∧ env se = env sb) as (Ete & Ere & Eee) by done.
    clearbody se. set (sf := set_tcb old _ se).
    assert (wf sf n R S) as Wf by (apply wf_benign; [done|apply benign_rsp]).
    assert (tcb se n = (tcb sa n) <| switches := u64 (switches (tcb sa n) + 1) |>) as Hn.
    { rewrite Ete. unfold sd. rewrite tcb_set_eq. unfold sc. rewrite tcb_set_ne by done. by rewrite Etb. }
    split; [by eapply wf_frame|]. split.
    { change (state (tcb sf n) = THREAD_RUNNING). unfold sf. rewrite tcb_set_ne by done. rewrite Hn, Et. done. }
    split; [cbn; rewrite Hn, Et; done|]. split; [done|].
    split; [|cbn; congruence].
    change (rsp (tcb sf old) = cpu_rsp s1). unfold sf. rewrite tcb_set_eq. exact Ere. }
  unfold switch_env. destruct (Z.eqb_spec (process_pid (tcb s1 n)) 0) as [E0|E0]; cbn [negb].
  - rewrite Ee. apply Hfin.
  - destruct Hlive as [?|(np & Hnp & Hz & Hcr)]; [done|]. rewrite Ee, Hnp, Hz.
    rewrite (proj2 (Z.eqb_neq _ 0) Hcr). cbn [negb andb]. apply Hfin.
Qed.

(** The first part of [scheduler_process]. *)
Definition prologue s : sched E := reap_zombies (wake_due_threads (s <| cpu_if := false |>)).

Lemma irq_restore_wf s c R S b : wf s c R S → wf (irq_restore b s) c R S.
Proof. intros W. destruct b; [by eapply wf_frame|done]. Qed.

Lemma irq_restore_tcb s b i : tcb (irq_restore b s) i = tcb s i.
Proof. by destruct b. Qed.

(** Some thread is always runnable. *)
Lemma runnable_exists s c R S :
  wf s c R S → state (tcb s c) ≠ THREAD_RUNNING → R ≠ [].
Proof.
  intros [W1 W2 W3 W4 W5 W6 W7 (V0 & _ & _ & [H0|H0]) W9 W10] Hc ->.
  - assert (0%nat ∈ ([] : list nat)) as Hin by (apply W5; done). by apply elem_of_nil in Hin.
  - specialize (W7 _ V0 H0). by subst.
Qed.

Lemma prologue_wf s c R S :
  wf s c R S →
  ∃ due S', S = due ++ S' ∧ wf (prologue s) c (R ++ due) S' ∧
    (∀ i, i ∈ due → wake_tick (tcb s i) ≤ g_ticks s) ∧
    (∀ i, i ∈ S' → g_ticks s < wake_tick (tcb s i)) ∧
    g_wakeup_pending (prologue s) = false ∧
    g_reschedule_pending (prologue s) = g_reschedule_pending s ∧
    (c ∉ due → state (tcb (prologue s) c) = state (tcb s c)) ∧
    (c ∈ due → state (tcb (prologue s) c) = THREAD_READY).
Proof.
  intros W. unfold prologue.
  assert (wf (s <| cpu_if := false |>) c R S) as W0 by (by eapply wf_frame).
  destruct (wake_due_wf _ c R S W0) as (due & S' & -> & W1 & Hd & Hn & P1 & P2 & _ & _ & Hst).
  destruct (reap_zombies_wf _ _ _ _ W1) as [W2 (F1 & F2 & F3 & F4 & F5)].
  assert (tcb (reap_zombies (wake_due_threads (s <| cpu_if := false |>))) c =
          tcb (wake_due_threads (s <| cpu_if := false |>)) c) as Ec.
  { apply F5. left. apply (w_valid _ _ _ _ W2). }
  exists due, S'. split; [done|]. split; [done|]. split; [exact Hd|]. split; [exact Hn|].
  split; [by rewrite F2|]. split; [rewrite F1; exact P2|]. rewrite Ec. split; [intros Hc; by apply Hst|].
  intros Hc. apply (w_R _ _ _ _ W1). set_solver.
Qed.

(** The queue a scheduling step serves, in order. *)
Definition queue s (c : nat) R due : list nat :=
  R ++ due ++ if state (tcb s c) =? THREAD_RUNNING then [c] else [].

Lemma live_same e t t' : same_but_next t t' → live e t → live e t'.
Proof. intros Hs. unfold live. rewrite Hs. done. Qed.

(** The second part: the choice of the next thread and the switch to it. *)
Definition pick_and_run (flags : bool) (old : nat) s : outcome * sched E :=
  match pick_next s with
  | (None, s) =>
     if state (tcb s old) =? THREAD_READY
     then (Returned, irq_restore flags (set_tcb old (λ c, c <| state := THREAD_RUNNING |>) s))
     else (Halted, irq_restore flags s)
  | (Some nxt, s) =>
     if (nxt =? old)%nat
     then (Returned, irq_restore flags (set_tcb old (λ c, c <| state := THREAD_RUNNING |>) s))
     else switch_to flags old nxt s
  end.

Lemma pick_and_run_spec flags s c n R S :
  wf s c (n :: R) S → state (tcb s c) ≠ THREAD_RUNNING → (n ≠ c → live (env s) (tcb s n)) →
  ∃ o s', pick_and_run flags c s = (o, s') ∧ o ≠ Halted ∧ wf s' n R S ∧
    state (tcb s' n) = THREAD_RUNNING ∧ (o = Switched ↔ n ≠ c).
Proof.
  intros W Hc Hl. destruct (dispatch_wf s c n R S W Hc) as (s1 & Ep & W1 & Er & Hs).
  assert (env s1 = env s ∧ g_current s1 = g_current s) as [Ee Ec] by (unfold rest in Er; split; congruence).
  unfold pick_and_run, pick_next. rewrite Ep. fold (set_state THREAD_RUNNING).
  destruct (Nat.eqb_spec n c) as [->|Hne].
  - eexists _, _. split; [reflexivity|]. split; [done|]. split; [|split].
    + apply irq_restore_wf. eapply wf_frame; [exact W1|try done..]. cbn. rewrite Ec. apply W.
    + rewrite irq_restore_tcb, tcb_set_eq. done.
    + split; [done|by intros []].
  - destruct (switch_to_live flags c n s1 R S W1 ltac:(done)) as (s' & E1 & W2 & Hst & _).
    { rewrite Ee. eapply live_same; [apply Hs|by apply Hl]. }
    exists Switched, s'. done.
Qed.

(** [scheduler_process] after the wake-ups and the reaping. *)
Definition schedule_from (flags : bool) s : outcome * sched E :=
  if negb (g_reschedule_pending s || g_wakeup_pending s) then (Returned, irq_restore flags s)
  else
    let s := (s <| g_reschedule_pending := false |>) <| g_wakeup_pending := false |> in
    match g_current s with
    | None => (Returned, irq_restore flags s)
    | Some old =>
       pick_and_run flags old
         (if state (tcb s old) =? THREAD_RUNNING
          then ready_append (Some old) (set_tcb old (λ c, c <| state := THREAD_READY |>) s)
          else s)
    end.

Lemma scheduler_process_eq s :
  g_ready s = true → scheduler_process s = schedule_from (cpu_if s) (prologue s).
Proof. intros Hr. unfold scheduler_process. rewrite Hr. reflexivity. Qed.

Lemma schedule_from_spec flags s1 c R S :
  wf s1 c R S → g_reschedule_pending s1 || g_wakeup_pending s1 = true →
  (∀ i, valid s1 i → state (tcb s1 i) = THREAD_READY → live (env s1) (tcb s1 i)) →
  ∃ o s' c' R', schedule_from flags s1 = (o, s') ∧ o ≠ Halted ∧ wf s' c' R' S ∧
    state (tcb s' c') = THREAD_RUNNING ∧ (o = Switched ↔ c' ≠ c) ∧
    c' :: R' = R ++ if state (tcb s1 c) =? THREAD_RUNNING then [c] else [].
Proof.
  intros W1 Hp Hlive. unfold schedule_from. rewrite Hp. cbn [negb]. cbv zeta.
  set (s2 := (s1 <| g_reschedule_pending := false |>) <| g_wakeup_pending := false |>).
  assert (wf s2 c R S) as W2 by (by eapply wf_frame).
  assert (∀ i, tcb s2 i = tcb s1 i) as Et2 by done. assert (env s2 = env s1) as Ee2 by done.
  clearbody s2. rewrite (w_cur _ _ _ _ W2), Et2. fold (set_state THREAD_READY).
  assert (∀ n R2 s3, wf s3 c (n :: R2) S → state (tcb s3 c) ≠ THREAD_RUNNING →
    (n ≠ c → live (env s3) (tcb s3 n)) →
    ∃ o s' c' R', pick_and_run flags c s3 = (o, s') ∧ o ≠ Halted ∧ wf s' c' R' S ∧
      state (tcb s' c') = THREAD_RUNNING ∧ (o = Switched ↔ c' ≠ c) ∧ c' :: R' = n :: R2) as Hfin.
  { intros n R2 s3 W3 Hc3 Hl3.
    destruct (pick_and_run_spec flags s3 c n R2 S W3 Hc3 Hl3) as (o & s' & A1 & A2 & A3 & A4 & A5).
    exists o, s', n, R2. done. }
  destruct (Z.eqb_spec (state (tcb s1 c)) THREAD_RUNNING) as [Hc|Hc].
  - destruct (enqueue_wf s2 c R S c W2 (w_valid _ _ _ _ W2)) as (W3 & Er3 & Hc3 & Hs3);
      [by rewrite Et2, Hc..|].
    set (s3 := ready_append _ _) in *. clearbody s3.
    destruct (R ++ [c]) as [|n R2] eqn:Eq; [by destruct R|].
    apply (Hfin n R2 s3); [done|by rewrite Hc3|].
    intros Hne. assert (n ∈ R) as Hin.
    { destruct R as [|x l]; [by injection Eq as -> ->|]. injection Eq as -> _. left. }
    apply (w_R _ _ _ _ W1) in Hin as [Hv Hst]. specialize (Hlive n Hv Hst).
    assert (env s3 = env s2) as -> by (unfold rest in Er3; congruence). rewrite Ee2.
    eapply live_same; [apply Hs3|]. by rewrite tcb_set_ne, Et2.
  - assert (R ≠ []) as Hne by (eapply runnable_exists; [exact W1|done]).
    destruct R as [|n R2] eqn:Eq; [done|]. rewrite app_nil_r.
    apply (Hfin n R2 s2); [done|by rewrite Et2|].
    intros _. rewrite Ee2, Et2. assert (n ∈ n :: R2) as Hin by left.
    apply (w_R _ _ _ _ W1) in Hin as [Hv Hst]. by apply Hlive.
Qed.

(** The processes behind the runnable threads can run. *)
Definition all_live s : Prop :=
  ∀ i, valid s i → state (tcb s i) = THREAD_READY → live (env s) (tcb s i).

Lemma scheduler_process_spec s c R S :
  wf s c R S → all_live (prologue s) →
  ∃ due S' o s', S = due ++ S' ∧ scheduler_process s = (o, s') ∧ o ≠ Halted ∧
    (∀ i, i ∈ due → wake_tick (tcb s i) ≤ g_ticks s) ∧
    (∀ i, i ∈ S' → g_ticks s < wake_tick (tcb s i)) ∧
    if g_reschedule_pending s
    then ∃ c' R', wf s' c' R' S' ∧ state (tcb s' c') = THREAD_RUNNING ∧
           c' :: R' = queue s c R due ∧ (o = Switched ↔ c' ≠ c)
    else wf s' c (R ++ due) S' ∧ o = Returned ∧
         (c ∉ due → state (tcb s' c) = state (tcb s c)).
Proof.
  intros W Hlive. destruct (prologue_wf s c R S W) as (due & S' & -> & W1 & Hd & Hn & P1 & P2 & Hs1 & Hs2).
  rewrite (scheduler_process_eq s (w_ready _ _ _ _ W)). exists due, S'.
  generalize dependent (prologue s). intros s1 Hlive W1 P1 P2 Hs1 Hs2.
  destruct (g_reschedule_pending s) eqn:Hp.
  2: { eexists Returned, (irq_restore (cpu_if s) s1). split; [done|].
       unfold schedule_from. rewrite P1, P2. split; [reflexivity|]. split; [done|].
       split; [done|]. split; [done|]. split; [by apply irq_restore_wf|].
       split; [done|]. rewrite irq_restore_tcb. done. }
  destruct (schedule_from_spec (cpu_if s) s1 c _ _ W1) as (o & s' & c' & R' & A1 & A2 & A3 & A4 & A5 & A6);
    [by rewrite P2|done|].
  exists o, s'. split; [done|]. split; [exact A1|]. split; [exact A2|]. split; [exact Hd|].
  split; [exact Hn|]. exists c', R'. split; [exact A3|]. split; [exact A4|]. split; [|exact A5].
  rewrite A6, <- app_assoc. unfold queue. do 2 f_equal.
  destruct (decide (c ∈ due)) as [Hcd|Hcd]; [|by rewrite Hs1].
  rewrite Hs2 by done. assert (c ∈ due ++ S') as [_ Hsl]%(w_S _ _ _ _ W) by set_solver.
  by rewrite Hsl.
Qed.
End invariant.

End Sched.
