(* ===== verification/Threads.v ===== *)
(** * Thread life cycle over the scheduler invariant

    Every operation of src/kernel/core/scheduler/scheduler.c keeps the
    invariant [Sched.wf] of Scheduler.v: the timer tick, creation, sleeping,
    wake-ups, blocking and exit. The operations together with arbitrary
    changes of the environment form a step relation; along its runs the
    system never reaches the halt loop of [scheduler_process]. The second
    part relates the wait-queue ring to a FIFO list. *)

From Stdlib Require Import Lia ZArith Bool.
From stdpp Require Import base list gmap sets numbers sorting functions.
From S2P Require Import Prelude Scheduler.

Local Open Scope Z_scope.

Module Threads.
Import Sched.

#[local] Opaque wake_due_loop find_link sleep_cursor reap_zombies wake_due_threads.

Section ops.
Context {E : Type} `{SchedEnv E}.
Context (thread_bootstrap user_process_bootstrap : Z).
Implicit Types (s : sched E) (R S : list nat).

(** ** The current thread leaves the processor *)

Lemma leave_wf s c R S st :
  wf s c R S → c ≠ 0%nat → state (tcb s c) = THREAD_RUNNING →
  st ≠ THREAD_READY → st ≠ THREAD_SLEEPING →
  wf (set_tcb c (set_state st) s) c R S.
Proof.
  intros W Hc Hrun H1 H2. pose proof W as [W1 W2 W3 W4 W5 W6 W7 W8 W9 W10].
  assert (c ∉ R) as HR by (rewrite W5, Hrun; by intros [_ ?]).
  assert (c ∉ S) as HS by (rewrite W6, Hrun; by intros [_ ?]).
  apply (wf_restate s _ c c R R S S); try done.
  - apply ident_set.
  - apply lists_set; [done|set_solver..].
  - intros i. rewrite state_set. case_decide; [subst i; tauto|apply W5].
  - intros i. rewrite state_set. case_decide; [subst i; tauto|apply W6].
  - intros i Hi. rewrite state_set. case_decide; [done|]. by apply W7.
  - rewrite state_set. case_decide; [by subst c|apply W8].
Qed.

(** The current thread falls asleep. *)
Lemma sleep_wf s c R S w
    (s1 := set_tcb c (set_state THREAD_SLEEPING) (set_tcb c (λ t, t <| wake_tick := w |>) s))
    (s' := sleep_insert (Some c) s1) :
  wf s c R S → c ≠ 0%nat → state (tcb s c) = THREAD_RUNNING →
  (∃ S1 S2, S = S1 ++ S2 ∧ wf s' c R (S1 ++ c :: S2)) ∧
  (∀ i, same_but_next (tcb s1 i) (tcb s' i)) ∧ rest_s s' = rest_s s1.
Proof.
  intros W Hc Hrun. pose proof W as [W1 W2 W3 W4 W5 W6 W7 W8 W9 W10].
  assert (c ∉ R ++ S) as Hn.
  { rewrite elem_of_app, W5, W6, Hrun. intros [[_ ?]|[_ ?]]; done. }
  assert (lists s1 R S) as L1.
  { apply lists_set; [apply lists_set; [done|set_solver..]|set_solver..]. }
  assert (∀ i, state (tcb s1 i) = if decide (i = c) then THREAD_SLEEPING else state (tcb s i)) as Hst1.
  { intros i. unfold s1. rewrite state_set. case_decide; [done|]. by rewrite tcb_set_ne. }
  assert (ident s s1) as Hid1.
  { split; [done|]. intros i. unfold s1. destruct (decide (c = i)) as [<-|];
      [by rewrite !tcb_set_eq|by rewrite !tcb_set_ne]. }
  assert (g_ready s1 = true ∧ g_current s1 = Some c) as [Hg1 Hg2] by done.
  destruct (sleep_insert_lists s1 R S c L1 Hn (proj1 W3)) as ((S1 & S2 & -> & L2) & Hs & Hr).
  fold s' in L2, Hs, Hr. clearbody s1. clearbody s'. split; [|done].
  assert (∀ i, state (tcb s' i) = if decide (i = c) then THREAD_SLEEPING else state (tcb s i)) as Hst.
  { intros i. rewrite (Hs i). apply Hst1. }
  exists S1, S2. split; [done|]. unfold rest_s in Hr.
  apply (wf_restate s s' c c R R (S1 ++ S2) _); try done; try congruence.
  - destruct Hid1 as [I1 I2]. split; [congruence|]. intros i. rewrite (Hs i). apply I2.
  - intros i. rewrite Hst, W5. case_decide as Hd; [subst i; rewrite Hrun|tauto]. split; intros [_ ?]; done.
  - intros i. rewrite Hst. assert (i ∈ S1 ++ c :: S2 ↔ i = c ∨ i ∈ S1 ++ S2) as -> by set_solver.
    rewrite W6. case_decide; [subst i; tauto|tauto].
  - intros i Hi. rewrite Hst. case_decide; [done|by apply W7].
  - rewrite Hst. case_decide; [by subst c|apply W8].
Qed.

(** ** Wake-ups *)

Lemma wakeup_wf s c R S t :
  wf s c R S → valid s t → state (tcb s t) = THREAD_SLEEPING →
  ∃ S1 S2, S = S1 ++ t :: S2 ∧ wf (wake_thread_locked (Some t) s) c (R ++ [t]) (S1 ++ S2) ∧
    ∀ i, i ≠ t → state (tcb (wake_thread_locked (Some t) s) i) = state (tcb s i).
Proof.
  intros W Ht Hsl. pose proof W as [W1 W2 W3 W4 W5 W6 W7 W8 W9 W10].
  assert (t ∈ S) as (S1 & S2 & ->)%list_elem_of_split by (apply W6; done).
  destruct (wake_thread_locked_lists s R S1 t S2 W4 Hsl) as (L & Hr & Hs).
  set (s' := wake_thread_locked (Some t) s) in *. clearbody s'.
  exists S1, S2. split; [done|].
  assert (∀ i, state (tcb s' i) = if decide (i = t) then THREAD_READY else state (tcb s i)) as Hst.
  { intros i. rewrite (Hs i). cbn. by case_decide. }
  split; [|intros i Hi; by rewrite Hst, decide_False].
  pose proof (l_nodup _ _ _ W4) as Hnd.
  assert (t ∉ S1 ++ S2) as HtS.
  { assert (R ++ S1 ++ t :: S2 ≡ₚ t :: R ++ S1 ++ S2) as E0 by solve_Permutation. rewrite E0 in Hnd.
    apply list.NoDup_cons in Hnd as [? _]. set_solver. }
  unfold rest_l in Hr. injection Hr as ? ? ? ? ? ? ? ? ? ? ? ? ? ? ? ?.
  apply (wf_restate s s' c c R _ (S1 ++ t :: S2) _); try done; try congruence.
  - split; [congruence|]. intros i. rewrite (Hs i). by case_decide.
  - intros i. rewrite Hst, elem_of_app, list_elem_of_singleton, W5. case_decide; [subst i; tauto|tauto].
  - intros i. rewrite Hst. case_decide as Hd; [subst i; split; [tauto|by intros [_ ?]]|].
    rewrite <- W6. set_solver.
  - intros i Hi. rewrite Hst. case_decide; [done|by apply W7].
  - rewrite Hst. case_decide; [by left|apply W8].
Qed.

(** ** Creation *)

(** The lists only depend on the links of their members. *)
Lemma lists_ext s s1 R S :
  lists s R S → (∀ i, i ∈ R ++ S → tcb s1 i = tcb s i) →
  g_ready_head s1 = g_ready_head s → g_ready_tail s1 = g_ready_tail s →
  g_ready_count s1 = g_ready_count s → g_sleep_head s1 = g_sleep_head s →
  g_sleeping_count s1 = g_sleeping_count s → lists s1 R S.
Proof.
  intros [L1 L2 L3 L4 L5 L6 L7 L8] Ht E1 E2 E3 E4 E5. unfold tcb in Ht.
  split; rewrite ?E1, ?E2, ?E3, ?E4, ?E5; try done.
  - eapply chain_frame; [|exact L1]. intros j Hj. rewrite Ht; [done|set_solver].
  - eapply chain_frame; [|exact L4]. intros j Hj. rewrite Ht; [done|set_solver].
  - eapply sorted_wakes; [|exact L6]. intros j Hj. unfold tcb. rewrite Ht; [done|set_solver].
Qed.

Lemma create_wf s s1 c R S i (s' := ready_append (Some i) s1) :
  wf s c R S → (i < SCHED_MAX_THREADS)%nat → i ≠ 0%nat → magic (tcb s i) ≠ THREAD_MAGIC →
  magic (tcb s1 i) = THREAD_MAGIC → id (tcb s1 i) = g_next_tid s → state (tcb s1 i) = THREAD_READY →
  (∀ j, j ≠ i → tcb s1 j = tcb s j) → g_ready s1 = g_ready s → g_current s1 = g_current s →
  g_next_tid s1 = g_next_tid s + 1 →
  g_ready_head s1 = g_ready_head s → g_ready_tail s1 = g_ready_tail s →
  g_ready_count s1 = g_ready_count s → g_sleep_head s1 = g_sleep_head s →
  g_sleeping_count s1 = g_sleeping_count s →
  wf s' c (R ++ [i]) S ∧ (∀ j, same_but_next (tcb s1 j) (tcb s' j)) ∧ rest s' = rest s1.
Proof.
  intros W Hi Hi0 Hm Hmt Hid Hst0 Tj Hg1 Hg2 Hg3 ? ? ? ? ?.
  pose proof W as [W1 W2 W3 W4 W5 W6 W7 W8 W9 W10].
  assert (¬ valid s i) as Hnv by (by intros [_ ?]).
  assert (i ∉ R) as HR by (rewrite W5; tauto). assert (i ∉ S) as HS by (rewrite W6; tauto).
  assert (lists s1 R S) as L1.
  { apply (lists_ext s); try done. intros j Hj. apply Tj. set_solver. }
  destruct (ready_append_lists s1 R S i L1 ltac:(set_solver) Hi) as (L2 & Hs & Hr).
  change (ready_append (Some i) s1) with s' in L2, Hs, Hr. clearbody s'.
  assert (∀ j, magic (tcb s' j) = magic (tcb s1 j) ∧ id (tcb s' j) = id (tcb s1 j) ∧
    process_pid (tcb s' j) = process_pid (tcb s1 j) ∧ state (tcb s' j) = state (tcb s1 j)) as Hf.
  { intros j. by rewrite (Hs j). }
  assert (∀ j, valid s' j ↔ valid s j ∨ j = i) as Hv.
  { intros j. unfold valid. destruct (Hf j) as (-> & _). destruct (decide (j = i)) as [->|Hne].
    - tauto.
    - rewrite Tj by done. tauto. }
  split; [|split_and!].
  - unfold rest in Hr. split; try done; try congruence.
    + apply Hv. by left.
    + intros j. destruct (Hf j) as (_ & _ & _ & ->). rewrite elem_of_app, list_elem_of_singleton, Hv, W5.
      destruct (decide (j = i)) as [->|Hne]; [tauto|rewrite Tj by done; tauto].
    + intros j. destruct (Hf j) as (_ & _ & _ & ->). rewrite Hv, W6.
      destruct (decide (j = i)) as [->|Hne]; [|rewrite Tj by done; tauto].
      rewrite Hst0. split; [tauto|by intros [_ ?]].
    + intros j Hj%Hv. destruct (Hf j) as (_ & _ & _ & ->).
      destruct (decide (j = i)) as [->|Hne]; [by rewrite Hst0|].
      rewrite Tj by done. destruct Hj; [by apply W7|done].
    + destruct W8 as (V0 & I0 & P0 & S0). destruct (Hf 0%nat) as (_ & -> & -> & ->).
      rewrite Hv, Tj by done. tauto.
    + intros j k Hj%Hv Hk%Hv. destruct (Hf j) as (_ & -> & _), (Hf k) as (_ & -> & _).
      destruct (decide (j = i)) as [->|Hj'], (decide (k = i)) as [->|Hk']; try done.
      * rewrite (Tj k) by done. destruct Hk as [Hk|]; [|done]. specialize (W10 k Hk). lia.
      * rewrite (Tj j) by done. destruct Hj as [Hj|]; [|done]. specialize (W10 j Hj). lia.
      * rewrite (Tj j), (Tj k) by done. destruct Hj, Hk; try done. by apply W9.
    + intros j Hj%Hv. destruct (Hf j) as (_ & -> & _). replace (g_next_tid s') with (g_next_tid s + 1) by congruence.
      destruct (decide (j = i)) as [->|Hne].
      * pose proof (W10 _ (proj1 W8)). lia.
      * rewrite Tj by done. destruct Hj as [Hj|]; [|done]. specialize (W10 j Hj). lia.
  - exact Hs.
  - done.
Qed.
(** ** Consistent states *)

(** The invariant between two calls: the current thread is running. *)
Definition good s : Prop := ∃ c R S, wf s c R S ∧ state (tcb s c) = THREAD_RUNNING.

Lemma frame_good s s' :
  good s → g_tcbs s' = g_tcbs s → g_ready s' = g_ready s → g_current s' = g_current s →
  g_next_tid s' = g_next_tid s → g_ready_head s' = g_ready_head s → g_ready_tail s' = g_ready_tail s →
  g_ready_count s' = g_ready_count s → g_sleep_head s' = g_sleep_head s →
  g_sleeping_count s' = g_sleeping_count s → good s'.
Proof.
  intros (c & R & S & W & Hc) Et. intros. exists c, R, S. split; [by eapply wf_frame|].
  unfold tcb. rewrite Et. exact Hc.
Qed.

Lemma benign_good s i f : good s → benign f → good (set_tcb i f s).
Proof.
  intros (c & R & S & W & Hc) Hf. exists c, R, S. split; [by apply wf_benign|].
  destruct (decide (i = c)) as [->|]; [|by rewrite tcb_set_ne].
  rewrite tcb_set_eq. destruct (Hf (tcb s c)) as (_ & _ & _ & _ & _ & ->). done.
Qed.

Lemma irq_restore_good b s : good s → good (irq_restore b s).
Proof. intros G. destruct b; [by eapply frame_good|done]. Qed.

Lemma scheduler_init_good hz s : good (scheduler_init hz s).
Proof.
  exists 0%nat, [], []. split; [|done].
  assert (∀ i, valid (scheduler_init hz s) i → i = 0%nat) as Hv.
  { intros [|i] [Hi Hm]; [done|]. exfalso. revert Hi Hm. unfold scheduler_init, tcb. cbn [g_tcbs].
    intros Hi. rewrite fn_lookup_insert_ne by done. rewrite (proj2 (Nat.ltb_lt _ _) Hi). done. }
  assert (valid (scheduler_init hz s) 0) as V0 by (split; [unfold SCHED_MAX_THREADS; lia|done]).
  split; try done.
  - split; try done; [constructor|constructor|by intros i ?%elem_of_nil].
  - intros i. split; [by intros ?%elem_of_nil|]. by intros [->%Hv ?].
  - intros i. split; [by intros ?%elem_of_nil|]. by intros [->%Hv ?].
  - intros i ?%Hv. done.
  - split_and!; try done. by right.
  - intros i j ->%Hv ->%Hv. done.
  - intros i ->%Hv. done.
Qed.

Lemma scheduler_tick_good s : good s → good (scheduler_tick_irq s).
Proof.
  intros G. unfold scheduler_tick_irq. destruct (g_ready s); [|done]. cbn [negb]. cbv zeta.
  set (s1 := s <| g_ticks := u64 (g_ticks s + 1) |>).
  assert (good s1) as G1 by (by eapply frame_good). clearbody s1.
  set (s2 := match g_current s1 with Some c => _ | None => _ end).
  assert (good s2) as G2.
  { unfold s2. destruct (g_current s1) as [c|]; [|done].
    assert (good (set_tcb c (λ t, t <| runtime_ticks := u64 (runtime_ticks t + 1) |>) s1)) as G1'
      by (apply benign_good; [done|by intros []]).
    destruct (_ =? 0); [done|by eapply frame_good]. }
  clearbody s2. set (s3 := s2 <| env := _ |>).
  assert (good s3) as G3 by (by eapply frame_good). clearbody s3.
  set (s4 := if g_quantum_remaining s3 >? 0 then _ else _).
  assert (good s4) as G4 by (unfold s4; destruct (_ >? _); [by eapply frame_good|done]). clearbody s4.
  set (s5 := if g_quantum_remaining s4 =? 0 then _ else _).
  assert (good s5) as G5 by (unfold s5; destruct (_ =? _); [by eapply frame_good|done]). clearbody s5.
  destruct (head_due s5); [by eapply frame_good|done].
Qed.

(** ** Scheduling from a consistent state *)

(** With a reschedule pending the processor goes to a running thread, whatever
    the current one has become. *)
Lemma reschedule_good s c R S :
  wf s c R S → g_reschedule_pending s = true → all_live (prologue s) →
  ∃ o s', scheduler_process s = (o, s') ∧ o ≠ Halted ∧ good s' ∧
    (state (tcb s c) = THREAD_ZOMBIE → o = Switched).
Proof.
  intros W Hp Hl. destruct (scheduler_process_spec s c R S W Hl) as
    (due & S' & o & s' & -> & E1 & Ho & _ & _ & Hcase).
  rewrite Hp in Hcase. destruct Hcase as (c' & R' & W' & Hrun & Hq & Hsw).
  exists o, s'. split; [done|]. split; [done|]. split; [by exists c', R', S'|].
  intros Hz. apply Hsw. intros ->. unfold queue in Hq. rewrite Hz in Hq.
  assert (c ∈ R ++ due ++ []) as Hin by (change (if THREAD_ZOMBIE =? THREAD_RUNNING then [c] else []) with (@nil nat) in Hq;
    rewrite <- Hq; left).
  rewrite app_nil_r, elem_of_app in Hin. destruct Hin as [Hin|Hin].
  - apply (w_R _ _ _ _ W) in Hin as [_ Hst]. by rewrite Hz in Hst.
  - assert (c ∈ due ++ S') as [_ Hst]%(w_S _ _ _ _ W) by set_solver. by rewrite Hz in Hst.
Qed.

Lemma scheduler_process_good s :
  good s → all_live (prologue s) →
  ∃ o s', scheduler_process s = (o, s') ∧ o ≠ Halted ∧ good s'.
Proof.
  intros (c & R & S & W & Hc) Hl. destruct (g_reschedule_pending s) eqn:Hp.
  { destruct (reschedule_good s c R S W Hp Hl) as (o & s' & ? & ? & ? & _). by exists o, s'. }
  destruct (scheduler_process_spec s c R S W Hl) as (due & S' & o & s' & -> & E1 & Ho & _ & _ & Hcase).
  rewrite Hp in Hcase. destruct Hcase as (W' & _ & Hst). exists o, s'. split; [done|]. split; [done|].
  exists c, (R ++ due), S'. split; [done|]. rewrite Hst; [done|]. intros Hin.
  assert (c ∈ due ++ S') as [_ Hst']%(w_S _ _ _ _ W) by set_solver. by rewrite Hc in Hst'.
Qed.

(** The states in which [thread_yield], [thread_sleep_ms],
    [thread_block_on_wait_queue] and [thread_exit] call [scheduler_process]. *)
Definition sleep_ticks (ms : Z) s : Z :=
  let ticks := u64 (u64 (ms * g_timer_hz s) + 999) / 1000 in if ticks =? 0 then 1 else ticks.
Definition sleep_prep (ms : Z) (c : nat) s : sched E :=
  irq_restore (cpu_if s)
    ((sleep_insert (Some c)
       (set_tcb c (set_state THREAD_SLEEPING)
          (set_tcb c (λ t, t <| wake_tick := u64 (g_ticks s + sleep_ticks ms s) |>)
             (s <| cpu_if := false |>)))) <| g_reschedule_pending := true |>).
Definition block_prep (c : nat) s : sched E :=
  irq_restore (cpu_if s)
    ((set_tcb c (set_state THREAD_BLOCKED) (s <| cpu_if := false |>)) <| g_reschedule_pending := true |>).
Definition exit_prep (c : nat) s : sched E :=
  let s := set_tcb c (set_state THREAD_ZOMBIE) s in
  (if g_thread_count s >? 0 then s <| g_thread_count := g_thread_count s - 1 |> else s)
    <| g_reschedule_pending := true |>.

Lemma idle_id s c R S : wf s c R S → id (tcb s c) ≠ 0 → c ≠ 0%nat.
Proof. intros W Hid ->. by destruct W as [_ _ _ _ _ _ _ (_ & ? & _) _ _]. Qed.

Lemma sleep_prep_wf ms s c R S :
  wf s c R S → c ≠ 0%nat → state (tcb s c) = THREAD_RUNNING →
  (∃ S1 S2, S = S1 ++ S2 ∧ wf (sleep_prep ms c s) c R (S1 ++ c :: S2)) ∧
  g_reschedule_pending (sleep_prep ms c s) = true.
Proof.
  intros W Hc Hrun. unfold sleep_prep. set (s0 := s <| cpu_if := false |>).
  assert (wf s0 c R S) as W0 by (by eapply wf_frame).
  assert (state (tcb s0 c) = THREAD_RUNNING) as Hr0 by done. clearbody s0.
  destruct (sleep_wf s0 c R S (u64 (g_ticks s + sleep_ticks ms s)) W0 Hc Hr0) as ((S1 & S2 & -> & W1) & _ & _).
  set (s1 := sleep_insert _ _) in *. clearbody s1. split; [|by destruct (cpu_if s)].
  exists S1, S2. split; [done|]. apply irq_restore_wf. by eapply wf_frame.
Qed.

Lemma block_prep_wf s c R S :
  wf s c R S → c ≠ 0%nat → state (tcb s c) = THREAD_RUNNING →
  wf (block_prep c s) c R S ∧ g_reschedule_pending (block_prep c s) = true.
Proof.
  intros W Hc Hrun. unfold block_prep. split; [|by destruct (cpu_if s)]. apply irq_restore_wf.
  assert (wf (set_tcb c (set_state THREAD_BLOCKED) (s <| cpu_if := false |>)) c R S) as W1.
  { apply leave_wf; try done. by eapply wf_frame. }
  by eapply wf_frame.
Qed.

Lemma exit_prep_wf s c R S :
  wf s c R S → c ≠ 0%nat → state (tcb s c) = THREAD_RUNNING →
  wf (exit_prep c s) c R S ∧ g_reschedule_pending (exit_prep c s) = true ∧
  state (tcb (exit_prep c s) c) = THREAD_ZOMBIE.
Proof.
  intros W Hc Hrun. unfold exit_prep. cbv zeta.
  assert (wf (set_tcb c (set_state THREAD_ZOMBIE) s) c R S) as W1 by (by apply leave_wf).
  assert (state (tcb (set_tcb c (set_state THREAD_ZOMBIE) s) c) = THREAD_ZOMBIE) as Hz
    by (by rewrite tcb_set_eq).
  set (s1 := set_tcb c _ s) in *. clearbody s1. destruct (_ >? _); (split; [by eapply wf_frame|done]).
Qed.
(** ** Creating threads *)

(** [init_thread_stack] leaves the frame [arch_context_switch] pops: six zeroed
    callee-saved registers below the address of [thread_bootstrap]. *)
Record boot_frame s (t : nexus_tcb_t) : Prop := {
  bf_low : stack_base t + stack_size t - 80 < rsp t;
  bf_high : rsp t + 56 < stack_base t + stack_size t;
  bf_align : (rsp t + 56) mod 16 = 8;
  bf_regs : ∀ k, 0 ≤ k < 6 → stack_mem s !! (rsp t + 8 * k) = Some 0;
  bf_ret : stack_mem s !! (rsp t + 48) = Some thread_bootstrap;
}.

Lemma push_zero_spec (m : gmap Z Z) (p v : Z) :
  let m' := <[p - 56 := 0]> (<[p - 48 := 0]> (<[p - 40 := 0]> (<[p - 32 := 0]> (<[p - 24 := 0]>
              (<[p - 16 := 0]> (<[p - 8 := v]> m)))))) in
  (∀ k, 0 ≤ k < 6 → m' !! (p - 56 + 8 * k) = Some 0) ∧ m' !! (p - 8) = Some v.
Proof.
  cbv zeta. split.
  - intros k Hk. assert (k = 0 ∨ k = 1 ∨ k = 2 ∨ k = 3 ∨ k = 4 ∨ k = 5) as Hc by lia.
    destruct Hc as [->|[->|[->|[->|[->| ->]]]]]; simplify_map_eq; try done;
      repeat (rewrite lookup_insert_ne by lia); rewrite lookup_insert_eq || idtac;
      try (apply lookup_insert_Some; left; split; [lia|done]).
  - repeat (rewrite lookup_insert_ne by lia). by rewrite lookup_insert_eq.
Qed.

Lemma init_thread_stack_spec i s (s' := init_thread_stack thread_bootstrap i s) :
  0 ≤ stack_base (tcb s i) → 128 ≤ stack_size (tcb s i) →
  stack_base (tcb s i) + stack_size (tcb s i) < 2 ^ 64 →
  boot_frame s' (tcb s' i) ∧
  tcb s' i = (tcb s i) <| rsp := rsp (tcb s' i) |> ∧ (∀ j, j ≠ i → tcb s' j = tcb s j) ∧
  rest s' = rest (s <| stack_mem := stack_mem s' |>) ∧
  g_ready_head s' = g_ready_head s ∧ g_ready_tail s' = g_ready_tail s ∧
  g_ready_count s' = g_ready_count s.
Proof.
  intros Hb Hsz Hov. set (top := stack_base (tcb s i) + stack_size (tcb s i)) in *.
  set (tp := top - top mod 16).
  assert (Z.land (u64 top) (not64 0xF) = tp) as Htop.
  { rewrite u64_small by lia. change 0xF with (2 ^ 4 - 1). rewrite land_not64_mask by lia. done. }
  assert (top - 16 < tp ≤ top ∧ tp mod 16 = 0) as [Htp Hal].
  { unfold tp. pose proof (Z.mod_pos_bound top 16). split; [lia|].
    rewrite Zminus_mod, Z.mod_mod, Z.sub_diag by lia. done. }
  assert (tcb s' i = (tcb s i) <| rsp := tp - 64 |>) as Ti.
  { unfold s', init_thread_stack. rewrite tcb_set_eq. cbn -[Z.land u64 not64 Z.sub]. fold top.
    rewrite Htop. replace (tp - 8 - 8 - 8 - 8 - 8 - 8 - 8 - 8) with (tp - 64) by lia. done. }
  assert (stack_mem s' = let p := tp - 8 in
     <[p - 56 := 0]> (<[p - 48 := 0]> (<[p - 40 := 0]> (<[p - 32 := 0]> (<[p - 24 := 0]>
              (<[p - 16 := 0]> (<[p - 8 := thread_bootstrap]> (stack_mem s)))))))) as Hm.
  { unfold s', init_thread_stack. cbn -[Z.land u64 not64 Z.sub]. fold top. rewrite Htop.
    replace (tp - 8 - 8 - 8) with (tp - 8 - 16) by lia. replace (tp - 8 - 16 - 8) with (tp - 8 - 24) by lia.
    replace (tp - 8 - 24 - 8) with (tp - 8 - 32) by lia. replace (tp - 8 - 32 - 8) with (tp - 8 - 40) by lia.
    replace (tp - 8 - 40 - 8) with (tp - 8 - 48) by lia. replace (tp - 8 - 48 - 8) with (tp - 8 - 56) by lia.
    done. }
  destruct (push_zero_spec (stack_mem s) (tp - 8) thread_bootstrap) as [Hz Hr].
  assert (rsp (tcb s' i) = tp - 64 ∧ stack_base (tcb s' i) + stack_size (tcb s' i) = top) as [Er Eb]
    by (by rewrite Ti).
  split; [|split; [by rewrite Er, Ti|]].
  - split; rewrite ?Er, ?Eb; try lia.
    + replace (tp - 64 + 56) with (8 + tp + (-1) * 16) by lia. rewrite Z_mod_plus_full.
      rewrite Zplus_mod, Hal. done.
    + intros k Hk. rewrite Hm. cbv zeta. specialize (Hz k Hk). rewrite <- Hz. f_equal. lia.
    + rewrite Hm. cbv zeta. rewrite <- Hr. f_equal. lia.
  - split; [|done]. intros j Hj. unfold s', init_thread_stack. rewrite tcb_set_ne by done. done.
Qed.
(** The outcome of [thread_create]: nothing happened, or slot [i] holds a
    fresh thread at the end of the ready queue. *)
Definition create_failed s c R S tid s' : Prop :=
  tid = 0 ∧ wf s' c R S ∧ (∀ i, tcb s' i = tcb s i) ∧ rest s' = rest (s <| env := env s' |>).

Record created (entry_ arg_ : Z) s (i : nat) tid s' : Prop := {
  cr_slot : (0 < i < SCHED_MAX_THREADS)%nat;
  cr_was_free : magic (tcb s i) = 0;
  cr_tid : tid = g_next_tid s;
  cr_id : id (tcb s' i) = tid;
  cr_entry : entry (tcb s' i) = entry_ ∧ arg (tcb s' i) = arg_;
  cr_pid : process_pid (tcb s' i) = 0;
  cr_size : stack_size (tcb s' i) = SCHED_STACK_SIZE;
  cr_others : ∀ j, j ≠ i → same_but_next (tcb s j) (tcb s' j);
  cr_next : g_next_tid s' = g_next_tid s + 1;
}.

Lemma thread_create_spec entry_ arg_ s c R S :
  wf s c R S → g_next_tid s + 1 < 2 ^ 64 →
  (∀ p e', se_kmalloc SCHED_STACK_SIZE (env s) = (p, e') → 0 ≤ p ∧ p + SCHED_STACK_SIZE < 2 ^ 64) →
  ∃ tid s', thread_create thread_bootstrap entry_ arg_ s = (tid, s') ∧
    (create_failed s c R S tid s' ∨
     ∃ i, created entry_ arg_ s i tid s' ∧ wf s' c (R ++ [i]) S ∧ boot_frame s' (tcb s' i)).
Proof.
  intros W Htid Hk. unfold thread_create.
  destruct (negb (g_ready s) || (entry_ =? 0) || negb (se_heap_is_ready (env s))).
  { exists 0, s. split; [done|]. left. done. }
  cbn [irq_save]. set (s0 := s <| cpu_if := false |>).
  assert (wf s0 c R S) as W0 by (by eapply wf_frame).
  destruct (first_index _ 1 (SCHED_MAX_THREADS - 1)) as [i|] eqn:Ef.
  2: { eexists 0, _. split; [reflexivity|]. left. split; [done|]. split; [by apply irq_restore_wf|].
       split; [intros i; by rewrite irq_restore_tcb|]. unfold rest, irq_restore. by destruct s as [????????? ? ?????????[]]. }
  apply first_index_Some in Ef as (Hi & Hm & _). apply Z.eqb_eq in Hm.
  change (env s0) with (env s). destruct (se_kmalloc SCHED_STACK_SIZE (env s)) as [p e'] eqn:Ek.
  specialize (Hk p e' eq_refl). cbv zeta. set (s1 := s0 <| env := e' |>).
  assert (wf s1 c R S) as W1 by (by eapply wf_frame).
  assert ((∀ j, tcb s1 j = tcb s j) ∧ g_next_tid s1 = g_next_tid s ∧
     rest (irq_restore (cpu_if s) s1) = rest (s <| env := env (irq_restore (cpu_if s) s1) |>)) as (T1 & N1 & F1).
  { split; [done|]. split; [done|]. unfold s1, s0, irq_restore, rest. destruct (cpu_if s) eqn:Hif; cbn; by rewrite ?Hif. }
  change (tcb s0 i) with (tcb s i) in Hm. clearbody s1. clear W0. clearbody s0.
  destruct (Z.eqb_spec p 0) as [->|Hp0].
  { eexists 0, _. split; [reflexivity|]. left. split; [done|]. split; [by apply irq_restore_wf|].
    split; [intros j; by rewrite irq_restore_tcb|done]. }
  rewrite N1, u64_small by (pose proof (w_tid _ _ _ _ W 0%nat (proj1 (w_idle _ _ _ _ W))); lia).
  set (s2 := (set_tcb i _ s1) <| g_next_tid := _ |>).
  assert (∀ j, j ≠ i → tcb s2 j = tcb s1 j) as T2 by (intros j ?; unfold s2; exact (tcb_set_ne i j _ s1 ltac:(done))).
  assert (tcb s2 i = mkTcb (rsp (tcb s i)) p SCHED_STACK_SIZE (g_next_tid s) 0 0 0 0 THREAD_MAGIC THREAD_READY
     (flags (tcb s i)) entry_ arg_ None None) as Ti2.
  { etransitivity; [exact (tcb_set_eq i _ s1)|]. by rewrite T1. }
  assert (g_next_tid s2 = g_next_tid s1 + 1 ∧ g_ready s2 = g_ready s1 ∧ g_current s2 = g_current s1 ∧
    g_ready_head s2 = g_ready_head s1 ∧ g_ready_tail s2 = g_ready_tail s1 ∧
    g_ready_count s2 = g_ready_count s1 ∧ g_sleep_head s2 = g_sleep_head s1 ∧
    g_sleeping_count s2 = g_sleeping_count s1) as (N2 & G1 & G2 & G3 & G4 & G5 & G6 & G7).
  { split_and!; [|done..]. unfold s2. cbn. by rewrite N1. }
  clearbody s2. destruct (init_thread_stack_spec i s2) as (B3 & Ti3 & T3 & F3 & G8 & G9 & G10);
    try (rewrite Ti2; cbn; unfold SCHED_STACK_SIZE in *; lia).
  set (s3 := init_thread_stack thread_bootstrap i s2) in *. clearbody s3. unfold rest in F3. cbn in F3.
  destruct (create_wf s1 s3 c R S i) as (W4 & Hs4 & F4); try done; try congruence.
  - unfold SCHED_MAX_THREADS in *. lia.
  - lia.
  - by rewrite T1, Hm.
  - by rewrite Ti3, Ti2.
  - rewrite Ti3, Ti2. cbn. congruence.
  - by rewrite Ti3, Ti2.
  - intros j Hj. by rewrite T3, T2.
  - set (s4 := ready_append (Some i) s3) in *. clearbody s4.
    eexists _, _. split; [reflexivity|]. right. exists i. unfold rest in F4.
    assert (∀ j b n, tcb (irq_restore b (s4 <| g_thread_count := n |>)) j = tcb s4 j) as Tr
      by (intros j b n; by rewrite irq_restore_tcb).
    assert (tcb s4 i = (tcb s3 i) <| next := next (tcb s4 i) |>) as Ti4 by exact (Hs4 i).
    split; [|split].
    + split; rewrite ?Tr.
      * unfold SCHED_MAX_THREADS in *. lia.
      * done.
      * change (id (tcb s4 i) = g_next_tid s). by rewrite Ti4, Ti3, Ti2.
      * done.
      * by rewrite Ti4, Ti3, Ti2.
      * by rewrite Ti4, Ti3, Ti2.
      * by rewrite Ti4, Ti3, Ti2.
      * intros j Hj. rewrite Tr. rewrite <- (T1 j), <- T2, <- T3 by done. apply Hs4.
      * transitivity (g_next_tid s4); [by destruct (cpu_if s)|congruence].
    + apply irq_restore_wf. by eapply wf_frame.
    + rewrite Tr. destruct B3 as [B1 B2 B4 B5 B6].
      assert (stack_mem (irq_restore (cpu_if s) (s4 <| g_thread_count := u32 (g_thread_count s4 + 1) |>)) = stack_mem s3) as Em.
      { transitivity (stack_mem s4); [by destruct (cpu_if s)|congruence]. }
      split; rewrite ?Em, Ti4; done.
Qed.
Lemma state_same t t' : same_but_next t t' → state t' = state t.
Proof. intros Hs. by rewrite Hs. Qed.

(** The stacks the heap hands out lie in the address space. *)
Definition stack_ok s : Prop :=
  ∀ p e', se_kmalloc SCHED_STACK_SIZE (env s) = (p, e') → 0 ≤ p ∧ p + SCHED_STACK_SIZE < 2 ^ 64.

Lemma thread_create_good entry_ arg_ s tid s' :
  good s → g_next_tid s + 1 < 2 ^ 64 → stack_ok s →
  thread_create thread_bootstrap entry_ arg_ s = (tid, s') → good s'.
Proof.
  intros (c & R & S & W & Hc) Hn Hk E1.
  destruct (thread_create_spec entry_ arg_ s c R S W Hn Hk) as (tid' & s'' & E2 & Hcase).
  rewrite E1 in E2. injection E2 as <- <-. destruct Hcase as [(_ & W' & Ht & _)|(i & Cr & W' & _)].
  - exists c, R, S. by rewrite Ht.
  - exists c, (R ++ [i]), S. split; [done|]. destruct (decide (c = i)) as [<-|Hne].
    + destruct (w_valid _ _ _ _ W) as [_ Hm]. by rewrite (cr_was_free _ _ _ _ _ _ Cr) in Hm.
    + by rewrite (state_same _ _ (cr_others _ _ _ _ _ _ Cr c Hne)).
Qed.

(** The process id of a thread other than the idle one. *)
Lemma set_pid_good s i pid :
  good s → i ≠ 0%nat → good (set_tcb i (λ t, t <| process_pid := pid |>) s).
Proof.
  intros (c & R & S & W & Hc) Hi. set (s' := set_tcb i _ s).
  pose proof W as [W1 W2 W3 W4 W5 W6 W7 W8 W9 W10].
  assert (∀ j, magic (tcb s' j) = magic (tcb s j) ∧ id (tcb s' j) = id (tcb s j) ∧
    state (tcb s' j) = state (tcb s j)) as Hf.
  { intros j. unfold s'. destruct (decide (i = j)) as [<-|]; [by rewrite tcb_set_eq|by rewrite tcb_set_ne]. }
  assert (∀ j, valid s' j ↔ valid s j) as Hv by (intros j; unfold valid; by destruct (Hf j) as (-> & _)).
  exists c, R, S. split; [|by destruct (Hf c) as (_ & _ & ->)].
  split; try done.
  - by apply Hv.
  - by apply lists_set.
  - intros j. destruct (Hf j) as (_ & _ & ->). rewrite Hv. apply W5.
  - intros j. destruct (Hf j) as (_ & _ & ->). rewrite Hv. apply W6.
  - intros j Hj%Hv. destruct (Hf j) as (_ & _ & ->). by apply W7.
  - rewrite Hv. unfold s'. rewrite tcb_set_ne by done. done.
  - intros j k Hj%Hv Hk%Hv. destruct (Hf j) as (_ & -> & _), (Hf k) as (_ & -> & _). by apply W9.
  - intros j Hj%Hv. destruct (Hf j) as (_ & -> & _). by apply W10.
Qed.

Lemma thread_create_user_process_good pid s tid s' :
  good s → g_next_tid s + 1 < 2 ^ 64 → stack_ok s →
  thread_create_user_process thread_bootstrap user_process_bootstrap pid s = (tid, s') → good s'.
Proof.
  intros G Hn Hk. unfold thread_create_user_process. destruct (_ || _); [by intros [= <- <-]|].
  destruct (se_process_get (env s) pid) as [pv|]; [|by intros [= <- <-]].
  destruct (_ || _); [by intros [= <- <-]|].
  destruct (thread_create _ _ _ s) as [t s1] eqn:E1.
  assert (good s1) as G1 by (by eapply thread_create_good).
  destruct (t =? 0); [by intros [= <- <-]|].
  destruct (first_index _ 1 _) as [i|] eqn:Ef; [|by intros [= <- <-]].
  apply first_index_Some in Ef as (Hi & _ & _). cbv zeta. intros [= <- <-].
  assert (good (set_tcb i (λ c, c <| process_pid := pid |>) s1)) as G2 by (apply set_pid_good; [done|lia]).
  by eapply frame_good.
Qed.

Lemma find_thread_by_id_spec tid s i :
  find_thread_by_id tid s = Some i → valid s i ∧ id (tcb s i) = tid.
Proof.
  intros (Hi & Hp & _)%first_index_Some. apply andb_true_iff in Hp as [Hm Hid].
  apply Z.eqb_eq in Hm, Hid. split; [split; [lia|done]|done].
Qed.

Lemma wake_locked_good tid s : good s → good (scheduler_wake_thread_locked tid s).
Proof.
  intros (c & R & S & W & Hc). unfold scheduler_wake_thread_locked.
  destruct (find_thread_by_id tid s) as [t|] eqn:Ef; [|by exists c, R, S].
  apply find_thread_by_id_spec in Ef as [Ht _].
  destruct (Z.eqb_spec (state (tcb s t)) THREAD_BLOCKED) as [Hb|]; cbn [negb]; [|by exists c, R, S].
  destruct (enqueue_wf s c R S t W Ht) as (W' & Hr & Hst & Hs); [by rewrite Hb..|].
  fold (set_state THREAD_READY). cbv zeta. set (s1 := ready_append _ _) in *. clearbody s1.
  assert (c ≠ t) as Hne by (intros <-; by rewrite Hb in Hc).
  assert (good s1) as G1.
  { exists c, (R ++ [t]), S. split; [done|]. rewrite (state_same _ _ (Hs c)). by rewrite tcb_set_ne. }
  by eapply frame_good.
Qed.

Lemma scheduler_wake_thread_good tid s : good s → good (scheduler_wake_thread tid s).2.
Proof.
  intros G. unfold scheduler_wake_thread. destruct (_ || _); [done|]. cbn [irq_save].
  assert (good (s <| cpu_if := false |>)) as G0 by (by eapply frame_good).
  destruct (find_thread_by_id _ _) as [t|]; [|by apply irq_restore_good].
  destruct (negb _); [by apply irq_restore_good|]. by apply irq_restore_good, wake_locked_good.
Qed.

Lemma thread_wakeup_good tid s : good s → good (thread_wakeup tid s).2.
Proof.
  intros G. unfold thread_wakeup. destruct (negb _); [done|]. cbn [irq_save].
  set (s0 := s <| cpu_if := false |>). assert (good s0) as G0 by (by eapply frame_good). clearbody s0.
  destruct (find_thread_by_id tid s0) as [t|] eqn:Ef; [|by apply irq_restore_good].
  apply find_thread_by_id_spec in Ef as [Ht _].
  destruct (Z.eqb_spec (state (tcb s0 t)) THREAD_SLEEPING) as [Hsl|]; cbn [negb]; [|by apply irq_restore_good].
  cbv zeta. apply irq_restore_good. destruct G0 as (c & R & S & W & Hc).
  destruct (wakeup_wf s0 c R S t W Ht Hsl) as (S1 & S2 & -> & W' & Hst).
  set (s1 := wake_thread_locked (Some t) s0) in *. clearbody s1.
  assert (good s1) as G1.
  { exists c, (R ++ [t]), (S1 ++ S2). split; [done|]. rewrite Hst; [done|]. intros ->. by rewrite Hsl in Hc. }
  by eapply frame_good.
Qed.
(** ** The scheduler as a transition system *)

(** One call into the scheduler, or a change of the environment by the rest of
    the kernel. A call that schedules is made while the processes behind the
    runnable threads are alive; thread ids do not run out. *)
Inductive step : sched E → outcome → sched E → Prop :=
| step_env s e : step s Returned (s <| env := e |>)
| step_tick s : step s Returned (scheduler_tick_irq s)
| step_request s : step s Returned (scheduler_request_reschedule s)
| step_create s f a tid s' :
    g_next_tid s + 1 < 2 ^ 64 → stack_ok s →
    thread_create thread_bootstrap f a s = (tid, s') → step s Returned s'
| step_create_user s pid tid s' :
    g_next_tid s + 1 < 2 ^ 64 → stack_ok s →
    thread_create_user_process thread_bootstrap user_process_bootstrap pid s = (tid, s') →
    step s Returned s'
| step_wakeup s tid b s' : thread_wakeup tid s = (b, s') → step s Returned s'
| step_wake s tid b s' : scheduler_wake_thread tid s = (b, s') → step s Returned s'
| step_wake_locked s tid : step s Returned (scheduler_wake_thread_locked tid s)
| step_process s o s' : all_live (prologue s) → scheduler_process s = (o, s') → step s o s'
| step_yield s o s' :
    all_live (prologue (scheduler_request_reschedule s)) → thread_yield s = (o, s') → step s o s'
| step_sleep s ms o s' :
    (∀ c, g_current s = Some c → all_live (prologue (sleep_prep ms c s))) →
    thread_sleep_ms ms s = (o, s') → step s o s'
| step_block s q b o q' s' :
    (∀ c, g_current s = Some c → all_live (prologue (block_prep c s))) →
    thread_block_on_wait_queue q s = (b, o, q', s') → step s o s'
| step_exit s o s' :
    (∀ c, g_current s = Some c → id (tcb s c) ≠ 0 ∧ all_live (prologue (exit_prep c s))) →
    thread_exit s = (o, s') → step s o s'.

Lemma thread_sleep_good ms s o s' :
  good s → (∀ c, g_current s = Some c → all_live (prologue (sleep_prep ms c s))) →
  thread_sleep_ms ms s = (o, s') → o ≠ Halted ∧ good s'.
Proof.
  intros (c & R & S & W & Hc) Hl. unfold thread_sleep_ms.
  rewrite (w_cur _ _ _ _ W), (w_ready _ _ _ _ W). cbn [negb orb].
  destruct (Z.eqb_spec (id (tcb s c)) 0) as [|Hid]; [intros [= <- <-]; split; [done|by exists c, R, S]|].
  specialize (Hl c (w_cur _ _ _ _ W)). pose proof (idle_id _ _ _ _ W Hid) as Hc0.
  destruct (sleep_prep_wf ms s c R S W Hc0 Hc) as ((S1 & S2 & -> & W1) & Hp).
  destruct (reschedule_good _ _ _ _ W1 Hp Hl) as (o' & s'' & E1 & Ho & G & _).
  change (scheduler_process (sleep_prep ms c s) = (o, s') → o ≠ Halted ∧ good s').
  rewrite E1. by intros [= <- <-].
Qed.

Lemma thread_block_good q s b o q' s' :
  good s → (∀ c, g_current s = Some c → all_live (prologue (block_prep c s))) →
  thread_block_on_wait_queue q s = (b, o, q', s') → o ≠ Halted ∧ good s'.
Proof.
  intros (c & R & S & W & Hc) Hl. unfold thread_block_on_wait_queue.
  rewrite (w_cur _ _ _ _ W), (w_ready _ _ _ _ W). cbn [negb orb].
  destruct (Z.eqb_spec (id (tcb s c)) 0) as [|Hid]; [intros [= <- <- <- <-]; split; [done|by exists c, R, S]|].
  specialize (Hl c (w_cur _ _ _ _ W)). pose proof (idle_id _ _ _ _ W Hid) as Hc0.
  destruct (block_prep_wf s c R S W Hc0 Hc) as (W1 & Hp).
  destruct (reschedule_good _ _ _ _ W1 Hp Hl) as (o' & s'' & E1 & Ho & G & _).
  cbn [irq_save]. cbv zeta.
  match goal with |- context [scheduler_process ?x] => change x with (block_prep c s) end.
  rewrite E1. by intros [= <- <- <- <-].
Qed.

Lemma thread_exit_good s o s' :
  good s → (∀ c, g_current s = Some c → id (tcb s c) ≠ 0 ∧ all_live (prologue (exit_prep c s))) →
  thread_exit s = (o, s') → o = Switched ∧ good s'.
Proof.
  intros (c & R & S & W & Hc) Hl. unfold thread_exit.
  rewrite (w_cur _ _ _ _ W), (w_ready _ _ _ _ W). cbn [negb orb].
  destruct (Hl c (w_cur _ _ _ _ W)) as [Hid Hl']. rewrite (proj2 (Z.eqb_neq _ _) Hid).
  pose proof (idle_id _ _ _ _ W Hid) as Hc0.
  destruct (exit_prep_wf s c R S W Hc0 Hc) as (W1 & Hp & Hz).
  destruct (reschedule_good _ _ _ _ W1 Hp Hl') as (o' & s'' & E1 & Ho & G & Hsw).
  cbv zeta. match goal with |- context [scheduler_process ?x] => change x with (exit_prep c s) end.
  rewrite E1, (Hsw Hz). by intros [= <- <-].
Qed.

Lemma step_good s o s' : good s → step s o s' → o ≠ Halted ∧ good s'.
Proof.
  intros G Hstep. destruct Hstep as [s e|s|s|s f a tid s' Hn Hk E1|s pid tid s' Hn Hk E1|s tid b s' E1|
    s tid b s' E1|s tid|s o s' Hl E1|s o s' Hl E1|s ms o s' Hl E1|s q b o q' s' Hl E1|s o s' Hl E1].
  - split; [done|by eapply frame_good].
  - split; [done|by apply scheduler_tick_good].
  - split; [done|]. unfold scheduler_request_reschedule. destruct (g_ready s); [by eapply frame_good|done].
  - split; [done|by eapply thread_create_good].
  - split; [done|by eapply thread_create_user_process_good].
  - split; [done|]. pose proof (thread_wakeup_good tid s G) as G'. by rewrite E1 in G'.
  - split; [done|]. pose proof (scheduler_wake_thread_good tid s G) as G'. by rewrite E1 in G'.
  - split; [done|by apply wake_locked_good].
  - destruct (scheduler_process_good s G Hl) as (o' & s'' & E2 & Ho & G'). rewrite E1 in E2.
    by injection E2 as <- <-.
  - assert (good (scheduler_request_reschedule s)) as G0.
    { unfold scheduler_request_reschedule. destruct (g_ready s); [by eapply frame_good|done]. }
    destruct (scheduler_process_good _ G0 Hl) as (o' & s'' & E2 & Ho & G').
    unfold thread_yield in E1. destruct G as (c & R & S & W & _). rewrite (w_ready _ _ _ _ W) in E1.
    cbn [negb] in E1. rewrite E1 in E2. by injection E2 as <- <-.
  - by eapply thread_sleep_good.
  - by eapply thread_block_good.
  - destruct (thread_exit_good s o s' G Hl E1) as [-> G']. done.
Qed.

(** Runs of the scheduler. *)
Inductive steps : sched E → sched E → Prop :=
| steps_refl s : steps s s
| steps_next s1 s2 o s3 : steps s1 s2 → step s2 o s3 → steps s1 s3.

Lemma steps_good s s' : good s → steps s s' → good s'.
Proof. intros G. induction 1 as [|s1 s2 o s3 _ IH Hst]; [done|]. by destruct (step_good s2 o s3 (IH G) Hst). Qed.

(** The queues of a consistent state, spelled out. *)
Lemma good_facts s :
  good s → ∃ c R S, g_current s = Some c ∧
    (∀ i, valid s i → (state (tcb s i) = THREAD_RUNNING ↔ i = c)) ∧
    chain (g_tcbs s) (g_ready_head s) R ∧ chain (g_tcbs s) (g_sleep_head s) S ∧
    (∀ i, i ∈ R ↔ valid s i ∧ state (tcb s i) = THREAD_READY) ∧
    (∀ i, i ∈ S ↔ valid s i ∧ state (tcb s i) = THREAD_SLEEPING) ∧
    NoDup (R ++ S) ∧ StronglySorted (wakes s) S.
Proof.
  intros (c & R & S & W & Hc). destruct W as [W1 W2 W3 [L1 L2 L3 L4 L5 L6 L7 L8] W5 W6 W7 W8 W9 W10].
  exists c, R, S. split_and!; try done. intros i Hi. split; [by apply W7|by intros ->].
Qed.

(** C2: from [scheduler_init] on, along every sequence of ticks, creations,
    wake-ups, sleeps, blocks, exits and scheduling calls in which no queued
    thread belongs to a dead process when the scheduler chooses a thread,
    exactly the current thread is RUNNING, the ready list holds exactly the
    READY threads and the sleep list exactly the SLEEPING ones, in wake-up
    order and without duplicates; and no further such step reaches the halt
    loop. The steps also assume that the idle thread does not exit, that
    thread ids do not wrap and that kmalloc gives stacks inside the address
    space. The condition on dead processes can not be dropped: without it
    [scheduler_dead_process_corrupts_queue] shows the queue corrupted. *)
Theorem scheduler_reachable_safe hz s0 s :
  steps (scheduler_init hz s0) s →
  (∃ c R S, g_current s = Some c ∧
    (∀ i, valid s i → (state (tcb s i) = THREAD_RUNNING ↔ i = c)) ∧
    chain (g_tcbs s) (g_ready_head s) R ∧ chain (g_tcbs s) (g_sleep_head s) S ∧
    (∀ i, i ∈ R ↔ valid s i ∧ state (tcb s i) = THREAD_READY) ∧
    (∀ i, i ∈ S ↔ valid s i ∧ state (tcb s i) = THREAD_SLEEPING) ∧
    NoDup (R ++ S) ∧ StronglySorted (wakes s) S) ∧
  ∀ o s', step s o s' → o ≠ Halted.
Proof.
  intros Hs. assert (good s) as G by (eapply steps_good; [apply scheduler_init_good|done]).
  split; [by apply good_facts|]. intros o s' Hst. by destruct (step_good s o s' G Hst).
Qed.

(** C3: a scheduling call is round robin: the sleepers that are due are
    appended to the ready queue in wake-up order, then the current thread if
    it is still running; with a reschedule pending the head of that queue
    runs next, otherwise the current thread goes on. This holds of consistent
    queues none of whose threads belongs to a dead process; for the other case
    see [scheduler_dead_process_corrupts_queue]. *)
Theorem scheduler_process_round_robin s c R S :
  wf s c R S → all_live (prologue s) →
  ∃ due S' o s', S = due ++ S' ∧ scheduler_process s = (o, s') ∧ o ≠ Halted ∧
    (∀ i, i ∈ due → wake_tick (tcb s i) ≤ g_ticks s) ∧
    (∀ i, i ∈ S' → g_ticks s < wake_tick (tcb s i)) ∧
    if g_reschedule_pending s
    then ∃ c' R', wf s' c' R' S' ∧ state (tcb s' c') = THREAD_RUNNING ∧
           c' :: R' = R ++ due ++ (if state (tcb s c) =? THREAD_RUNNING then [c] else []) ∧
           (o = Switched ↔ c' ≠ c)
    else wf s' c (R ++ due) S' ∧ o = Returned ∧
         (c ∉ due → state (tcb s' c) = state (tcb s c)).
Proof. apply scheduler_process_spec. Qed.

(** [thread_create] either changes no thread and returns 0, or returns
    the next thread id, never used before, and puts the new thread, whose
    stack holds the frame the context switch pops (in bounds and aligned as
    the ABI asks at a function entry), last in the ready queue. *)
Theorem thread_create_correct entry_ arg_ s c R S :
  wf s c R S → g_next_tid s + 1 < 2 ^ 64 →
  (∀ p e', se_kmalloc SCHED_STACK_SIZE (env s) = (p, e') → 0 ≤ p ∧ p + SCHED_STACK_SIZE < 2 ^ 64) →
  ∃ tid s', thread_create thread_bootstrap entry_ arg_ s = (tid, s') ∧
    ((tid = 0 ∧ wf s' c R S ∧ ∀ i, tcb s' i = tcb s i) ∨
     ∃ i, created entry_ arg_ s i tid s' ∧ wf s' c (R ++ [i]) S ∧ boot_frame s' (tcb s' i) ∧
       ∀ j, valid s j → id (tcb s j) ≠ tid).
Proof.
  intros W Hn Hk. destruct (thread_create_spec entry_ arg_ s c R S W Hn Hk) as (tid & s' & E1 & Hcase).
  exists tid, s'. split; [done|]. destruct Hcase as [(? & ? & ? & _)|(i & Cr & W' & B)]; [by left|].
  right. exists i. split; [done|]. split; [done|]. split; [done|]. intros j Hj.
  rewrite (cr_tid _ _ _ _ _ _ Cr). pose proof (w_tid _ _ _ _ W j Hj). lia.
Qed.
End ops.

(** ** The wait queue is a FIFO *)

(** The ring [q] holds the ids [l], oldest first. *)
Record wq_rep (q : nexus_wait_queue_t) (l : list Z) : Prop := {
  wq_count : count q = Z.of_nat (length l);
  wq_cap : (length l ≤ 8)%nat;
  wq_head : 0 ≤ head q < MAXT;
  wq_nodup : NoDup l;
  wq_nonzero : 0 ∉ l;
  wq_cells : ∀ k x, l !! k = Some x → ids q (Z.to_nat ((head q + Z.of_nat k) mod MAXT)) = x;
}.

Lemma wq_pos_mod q l i : wq_rep q l → 0 ≤ i ≤ 8 → wq_pos q i = Z.to_nat ((head q + i) mod MAXT).
Proof. intros [] ?. unfold wq_pos, MAXT in *. rewrite u32_small by lia. done. Qed.

Lemma wq_contains_spec q l id :
  wq_rep q l → scheduler_wait_queue_contains q id = bool_decide (id ≠ 0 ∧ id ∈ l).
Proof.
  intros Q. unfold scheduler_wait_queue_contains. destruct (Z.eqb_spec id 0) as [->|Hid].
  { symmetry. apply bool_decide_false. tauto. }
  rewrite (wq_count _ _ Q), Nat2Z.id. symmetry.
  destruct (existsb _ _) eqn:Ex.
  - apply existsb_exists in Ex as (k & [_ Hk]%in_seq & Heq). apply Z.eqb_eq in Heq.
    apply bool_decide_true. split; [done|].
    destruct (lookup_lt_is_Some_2 l k) as [x Hx]; [lia|]. pose proof (wq_cap _ _ Q).
    rewrite (wq_pos_mod q l) in Heq by (done || lia). rewrite (wq_cells _ _ Q k x Hx) in Heq.
    subst x. by eapply list_elem_of_lookup_2.
  - apply bool_decide_false. intros [_ [k Hk]%list_elem_of_lookup_1].
    pose proof (lookup_lt_Some _ _ _ Hk). pose proof (wq_cap _ _ Q).
    apply not_true_iff_false in Ex. apply Ex, existsb_exists. exists k. split; [apply in_seq; lia|].
    rewrite (wq_pos_mod q l) by (done || lia). apply Z.eqb_eq. by apply (wq_cells _ _ Q).
Qed.

(** What the queue promises: no duplicates, at most eight waiters. *)
Definition wq_push (id : Z) (l : list Z) : list Z :=
  if decide (id = 0 ∨ (8 ≤ length l)%nat ∨ id ∈ l) then l else l ++ [id].

(** Distinct positions of the ring. *)
Lemma ring_pos_inj h i j :
  0 ≤ h < MAXT → 0 ≤ i < MAXT → 0 ≤ j < MAXT →
  Z.to_nat ((h + i) mod MAXT) = Z.to_nat ((h + j) mod MAXT) → i = j.
Proof.
  unfold MAXT. intros Hh Hi Hj Heq.
  assert ((h + i) mod 8 = (h + j) mod 8) as He
    by (pose proof (Z.mod_pos_bound (h + i) 8); pose proof (Z.mod_pos_bound (h + j) 8); lia).
  Z.to_euclidean_division_equations. lia.
Qed.

Lemma wq_push_rep q l id :
  wq_rep q l → wq_rep (scheduler_wait_queue_push_locked id q) (wq_push id l).
Proof.
  intros Q. pose proof Q as [Q1 Q2 Q3 Q4 Q5 Q6]. unfold scheduler_wait_queue_push_locked, wq_push.
  rewrite (wq_contains_spec q l id Q). case_decide as Hd.
  - assert ((id =? 0) || (count q >=? MAXT) || bool_decide (id ≠ 0 ∧ id ∈ l) = true) as ->; [|done].
    destruct (Z.eqb_spec id 0) as [->|Hid]; [done|]. cbn [orb].
    destruct Hd as [?|[Hd|Hd]]; [done| |].
    + unfold MAXT. rewrite Q1. replace (Z.of_nat (length l) >=? 8) with true by lia. done.
    + rewrite bool_decide_true by done. apply orb_true_r.
  - assert ((id =? 0) || (count q >=? MAXT) || bool_decide (id ≠ 0 ∧ id ∈ l) = false) as ->.
    { rewrite bool_decide_false by tauto. unfold MAXT. rewrite Q1.
      destruct (Z.eqb_spec id 0); [tauto|]. replace (Z.of_nat (length l) >=? 8) with false by lia. done. }
    cbv zeta. assert (id ≠ 0 ∧ (length l < 8)%nat ∧ id ∉ l) as (Hid & Hlen & Hin).
    { split; [tauto|]. split; [lia|tauto]. }
    split; cbn [count head ids]; rewrite ?length_app; cbn [length].
    + cbn. rewrite Q1, u32_small by lia. lia.
    + lia.
    + done.
    + apply list.NoDup_app. split; [done|]. split; [|by apply NoDup_singleton].
      intros x Hx ->%list_elem_of_singleton. done.
    + set_solver.
    + intros k x Hk. cbn. rewrite (wq_pos_mod q l) by (done || lia). rewrite Q1.
      apply lookup_app_Some in Hk as [Hk|[Hk1 Hk2]].
      * pose proof (lookup_lt_Some _ _ _ Hk). rewrite fn_lookup_insert_ne; [by apply Q6|].
        intros Heq. apply ring_pos_inj in Heq; unfold MAXT in *; lia.
      * apply list_lookup_singleton_Some in Hk2 as [Hk2 <-]. replace k with (length l) by lia.
        by rewrite fn_lookup_insert.
Qed.

Lemma wq_pop_rep q l :
  wq_rep q l → (scheduler_wait_queue_pop_locked q).1 = hd 0 l ∧
               wq_rep (scheduler_wait_queue_pop_locked q).2 (tl l).
Proof.
  intros Q. pose proof Q as [Q1 Q2 Q3 Q4 Q5 Q6]. unfold scheduler_wait_queue_pop_locked. rewrite Q1.
  destruct l as [|x l]; [done|]. cbn [length] in *.
  rewrite (proj2 (Z.eqb_neq _ 0)) by lia. cbn [fst snd list.tail hd].
  assert (ids q (Z.to_nat (head q)) = x) as Hx.
  { rewrite <- (Q6 0%nat x eq_refl). f_equal. unfold MAXT in *. rewrite Z.add_0_r, Z.mod_small by lia. done. }
  split; [done|]. apply list.NoDup_cons in Q4 as [Hxl Hnd]. unfold MAXT in *.
  split; cbn.
  - rewrite Q1, u32_small by lia. lia.
  - lia.
  - rewrite u32_small by lia. apply Z.mod_pos_bound. unfold MAXT. lia.
  - done.
  - set_solver.
  - intros k y Hk. pose proof (lookup_lt_Some _ _ _ Hk). rewrite u32_small by lia.
    specialize (Q6 (S k) y Hk). rewrite <- Q6. unfold MAXT.
    rewrite Zplus_mod_idemp_l. replace (head q + 1 + Z.of_nat k) with (head q + Z.of_nat (S k)) by lia.
    rewrite fn_lookup_insert_ne; [done|]. intros Heq.
    assert (Z.to_nat ((head q + 0) mod MAXT) = Z.to_nat ((head q + Z.of_nat (S k)) mod MAXT)) as Heq'.
    { unfold MAXT. rewrite Z.add_0_r, (Z.mod_small (head q)) by lia. done. }
    apply ring_pos_inj in Heq'; unfold MAXT; lia.
Qed.

Lemma wq_init_rep q : wq_rep (scheduler_wait_queue_init q) [].
Proof. split; cbn; try done; [lia|constructor|set_solver]. Qed.

(** The wait-queue ring implements a FIFO of at most eight distinct
    nonzero thread ids: it starts empty, [push] appends unless the id is 0,
    present or the ring full, [pop] takes the oldest id (0 when empty). *)
Theorem wait_queue_fifo q l id :
  wq_rep q l →
  wq_rep (scheduler_wait_queue_init q) [] ∧
  scheduler_wait_queue_contains q id = bool_decide (id ≠ 0 ∧ id ∈ l) ∧
  wq_rep (scheduler_wait_queue_push_locked id q) (wq_push id l) ∧
  (scheduler_wait_queue_pop_locked q).1 = hd 0 l ∧
  wq_rep (scheduler_wait_queue_pop_locked q).2 (tl l).
Proof.
  intros Q. split; [apply wq_init_rep|]. split; [by apply wq_contains_spec|].
  split; [by apply wq_push_rep|]. by apply wq_pop_rep.
Qed.

(** ** A small environment, for concrete runs *)

Record demo_env := mkDemoEnv { de_brk : Z; de_zombie : bool; de_attached : Z }.

(** A bump allocator and one process with pid 7. *)
#[export] Instance demo_sched_env : SchedEnv demo_env := {
  se_kmalloc n e := (de_brk e, mkDemoEnv (de_brk e + n) (de_zombie e) (de_attached e));
  se_kfree _ e := e;
  se_heap_is_ready _ := true;
  se_usermode_ready _ := true;
  se_process_get e pid :=
    if pid =? 7 then Some (mkProcView 7 (de_zombie e) 0x9000 (de_attached e)) else None;
  se_process_attach _ _ tid e := mkDemoEnv (de_brk e) (de_zombie e) tid;
  se_process_reap _ _ e := (true, e);
  se_process_account_cpu_tick _ e := e;
  se_process_set_current _ e := e;
  se_process_clear_current e := e;
  se_paging_kernel_cr3 _ := 0x1000;
  se_paging_switch_cr3 _ e := e;
  se_watchdog_timer_tick e := e;
}.

Definition zero_tcb : nexus_tcb_t := mkTcb 0 0 0 0 0 0 0 0 0 0 0 0 0 None None.
Definition demo_bss : sched demo_env :=
  mkSched 0 0 0 0 0 0 false false false (λ _, zero_tcb) None None None None 0 0 0 0 0x7FF0 true ∅
    (mkDemoEnv 0x100000 false 0).
Definition demo_boot : sched demo_env := scheduler_init 100 demo_bss.
Definition demo_two : sched demo_env := (thread_create 0x4000 0x5000 0 demo_boot).2.
Definition demo_user : sched demo_env := (thread_create_user_process 0x4000 0x4100 7 demo_boot).2.

Lemma demo_stack_ok s : 0 ≤ de_brk (env s) < 2 ^ 40 → stack_ok s.
Proof. intros Hb p e' [= <- <-]. unfold SCHED_STACK_SIZE. lia. Qed.

Lemma demo_two_steps : steps 0x4000 0x4100 demo_boot demo_two.
Proof.
  eapply steps_next; [apply steps_refl|]. eapply (step_create 0x4000 0x4100 demo_boot 0x5000 0 1).
  - done.
  - by apply demo_stack_ok.
  - vm_compute. reflexivity.
Qed.

Lemma demo_two_live : all_live (prologue (scheduler_request_reschedule demo_two)).
Proof.
  intros i [Hi _] _. left. unfold SCHED_MAX_THREADS in Hi.
  do 8 (destruct i as [|i]; [vm_compute; reflexivity|]). lia.
Qed.

Lemma scheduler_reachable_safe_witness :
  ∃ s, steps 0x4000 0x4100 demo_boot s ∧ g_current s = Some 1%nat ∧ ∀ o s', step 0x4000 0x4100 s o s' → o ≠ Halted.
Proof.
  exists (thread_yield demo_two).2.
  assert (steps 0x4000 0x4100 demo_boot (thread_yield demo_two).2) as Hs.
  { eapply steps_next; [apply demo_two_steps|]. apply (step_yield _ _ _ Switched); [apply demo_two_live|].
    vm_compute. reflexivity. }
  split; [exact Hs|]. split; [vm_compute; reflexivity|].
  exact (proj2 (scheduler_reachable_safe 0x4000 0x4100 100 demo_bss _ Hs)).
Defined.

(** The invariant of the two-thread state, with a reschedule pending. *)
Definition demo_pending : sched demo_env := scheduler_request_reschedule demo_two.

Lemma demo_pending_good : good demo_pending.
Proof.
  apply (steps_good 0x4000 0x4100 demo_boot); [apply (scheduler_init_good 100 demo_bss)|].
  exact (steps_next _ _ _ demo_two Returned demo_pending demo_two_steps (step_request _ _ demo_two)).
Qed.

Lemma scheduler_process_round_robin_witness :
  ∃ c R S, wf demo_pending c R S ∧ ∃ o s', scheduler_process demo_pending = (o, s') ∧ o ≠ Halted.
Proof.
  destruct demo_pending_good as (c & R & S & W & _). exists c, R, S. split; [exact W|].
  destruct (scheduler_process_round_robin demo_pending c R S W demo_two_live)
    as (due & S' & o & s' & _ & E1 & Ho & _). exists o, s'. split; [exact E1|exact Ho].
Defined.

Lemma thread_create_correct_witness :
  ∃ s', thread_create 0x4000 0x5000 3 demo_boot = (1, s') ∧ ∃ i, created 0x5000 3 demo_boot i 1 s'.
Proof.
  destruct (scheduler_init_good 100 demo_bss) as (c & R & S & W & _).
  destruct (thread_create_correct 0x4000 0x5000 3 demo_boot c R S W) as (tid & s' & E1 & Hcase).
  - vm_compute. reflexivity.
  - apply demo_stack_ok. vm_compute. split; [intros [=]|reflexivity].
  - assert (tid = 1) as ->.
    { transitivity (thread_create 0x4000 0x5000 3 demo_boot).1; [by rewrite E1|]. vm_compute. reflexivity. }
    exists s'. split; [exact E1|]. destruct Hcase as [[? _]|(i & Cr & _)]; [discriminate|].
    exists i. exact Cr.
Defined.

Lemma wait_queue_fifo_witness :
  wq_rep (scheduler_wait_queue_push_locked 4 (scheduler_wait_queue_init (mkWaitQueue (λ _, 9) 5 3)))
    [4].
Proof.
  exact (proj1 (proj2 (proj2 (wait_queue_fifo _ [] 4 (wq_init_rep (mkWaitQueue (λ _, 9) 5 3)))))).
Defined.

(** ** The dead-process path of [scheduler_process] *)

Definition demo_user_dead : sched demo_env :=
  scheduler_request_reschedule (demo_user <| env := mkDemoEnv 0x104000 true 1 |>).

Lemma demo_user_dead_good : good demo_user_dead.
Proof.
  apply (steps_good 0x4000 0x4100 demo_boot); [apply (scheduler_init_good 100 demo_bss)|].
  set (e := mkDemoEnv 0x104000 true 1).
  refine (steps_next _ _ _ (demo_user <| env := e |>) Returned demo_user_dead _ (step_request _ _ _)).
  refine (steps_next _ _ _ demo_user Returned _ _ (step_env _ _ demo_user e)).
  refine (steps_next _ _ _ demo_boot Returned _ (steps_refl _ _ _) (step_create_user _ _ demo_boot 7 1 _ _ _ _)).
  - vm_compute. reflexivity.
  - apply demo_stack_ok. vm_compute. split; [intros [=]|reflexivity].
  - vm_compute. reflexivity.
Qed.

(** When the process behind the chosen thread has died, [scheduler_process]
    gives the processor back to the old thread without taking it off the
    ready queue: from a consistent state the running thread ends up queued as
    ready, and the state is no longer consistent. *)
Theorem scheduler_dead_process_corrupts_queue :
  ∃ s s' : sched demo_env, good s ∧ scheduler_process s = (Returned, s') ∧
    g_current s' = Some 0%nat ∧ state (tcb s' 0) = THREAD_RUNNING ∧ g_ready_head s' = Some 0%nat ∧
    ¬ good s'.
Proof.
  exists demo_user_dead, (scheduler_process demo_user_dead).2.
  split; [exact demo_user_dead_good|]. split; [vm_compute; reflexivity|].
  split; [vm_compute; reflexivity|]. split; [vm_compute; reflexivity|]. split; [vm_compute; reflexivity|].
  assert (state (tcb (scheduler_process demo_user_dead).2 0) = THREAD_RUNNING ∧
    g_ready_head (scheduler_process demo_user_dead).2 = Some 0%nat) as [Hr Hh] by (vm_compute; done).
  revert Hr Hh. generalize ((scheduler_process demo_user_dead).2). intros s' Hr Hh (c & R & S & W & _).
  destruct W as [_ _ _ [L1 _ _ _ _ _ _ _] W5 _ _ _ _ _]. rewrite Hh in L1.
  destruct R as [|x R]; [discriminate|]. destruct L1 as [[= <-] _].
  assert (0%nat ∈ 0%nat :: R) as Hin by left. apply W5 in Hin as [_ Hin]. by rewrite Hr in Hin.
Qed.

End Threads.
