(* ===== verification/Sync.v ===== *)
(** * Locks (src/kernel/core/sync/sync.c)

    Spinlocks and mutexes. A mutex keeps its waiters in the wait-queue ring of
    the scheduler and hands ownership to the oldest waiter on unlock. The
    operations are interleaved at the points where the code can lose the
    processor: [mutex_lock] only inside [thread_block_on_wait_queue]. *)

From Stdlib Require Import Lia ZArith Bool.
From stdpp Require Import base list gmap sets numbers sorting functions.
From S2P Require Import Prelude Scheduler Threads.

Local Open Scope Z_scope.

Module Sync.
Import Sched Threads.

#[local] Opaque wake_due_loop find_link sleep_cursor reap_zombies wake_due_threads.

(** ** Spinlocks: the value of the lock word *)

Definition spinlock_init : Z := 0.

(** One compare-exchange of 0 by 1: the body of the loop of [spinlock_lock]
    and the whole of [spinlock_try_lock]. *)
Definition spinlock_try_lock (value : Z) : bool * Z :=
  if value =? 0 then (true, 1) else (false, value).

Definition spinlock_unlock (value : Z) : Z := 0.

(** ** Mutexes *)

Record nexus_mutex_t := mkMutex { owner : Z; locked : bool; waiters : nexus_wait_queue_t }.
#[export] Instance eta_mutex : Eta nexus_mutex_t := λ r, mkMutex (owner r) (locked r) (waiters r).

Definition mutex_init (m : nexus_mutex_t) : nexus_mutex_t :=
  mkMutex 0 false (scheduler_wait_queue_init (waiters m)).

(** How far a pass through the loop of [mutex_lock] gets. *)
Inductive lock_result :=
| Acquired   (* return with the mutex *)
| GivenUp    (* return without it: scheduler not ready or boot context *)
| Waits.     (* inside [thread_block_on_wait_queue] *)

Section mutex.
Context {E : Type} `{SchedEnv E}.
Implicit Types (s : sched E) (m : nexus_mutex_t).

Definition mutex_try_lock m s : bool * nexus_mutex_t * sched E :=
  if negb (scheduler_is_ready s) then (false, m, s)
  else
    let '(flags, s) := irq_save s in
    let tid := scheduler_current_thread_id s in
    if negb (locked m)
    then (true, m <| locked := true |> <| owner := tid |>, irq_restore flags s)
    else (false, m, irq_restore flags s).

(** One iteration of the loop of [mutex_lock], up to the switch to another
    thread. *)
Definition mutex_lock_pass m s : lock_result * nexus_mutex_t * sched E :=
  let '(got, m, s) := mutex_try_lock m s in
  if got then (Acquired, m, s)
  else
    let tid := scheduler_current_thread_id s in
    if tid =? 0 then (GivenUp, m, s)
    else
      let '(flags, s) := irq_save s in
      if negb (locked m)
      then (Acquired, m <| locked := true |> <| owner := tid |>, irq_restore flags s)
      else
        let m := if negb (scheduler_wait_queue_contains (waiters m) tid)
                 then m <| waiters := scheduler_wait_queue_push_locked tid (waiters m) |> else m in
        let s := irq_restore flags s in
        let '(_, _, q, s) := thread_block_on_wait_queue (waiters m) s in
        (Waits, m <| waiters := q |>, s).

Definition mutex_lock m s : lock_result * nexus_mutex_t * sched E :=
  if negb (scheduler_is_ready s) then (GivenUp, m, s) else mutex_lock_pass m s.

(** The end of the iteration, when the thread [tid] runs again. *)
Definition mutex_lock_resume (tid : Z) m s : lock_result * nexus_mutex_t * sched E :=
  if locked m && (owner m =? tid) then (Acquired, m, s) else mutex_lock_pass m s.

Definition mutex_unlock m s : nexus_mutex_t * sched E :=
  if negb (scheduler_is_ready s) then (m, s)
  else
    let '(flags, s) := irq_save s in
    let tid := scheduler_current_thread_id s in
    if negb (locked m) || negb (owner m =? tid) then (m, irq_restore flags s)
    else
      let '(next, q) := scheduler_wait_queue_pop_locked (waiters m) in
      let m := m <| waiters := q |> in
      if negb (next =? 0) then
        let m := m <| owner := next |> <| locked := true |> in
        (m, irq_restore flags (scheduler_wake_thread_locked next s))
      else (m <| owner := 0 |> <| locked := false |>, irq_restore flags s).

Definition mutex_is_locked m : bool := locked m.
Definition mutex_owner m : Z := owner m.

(** ** What each operation does to the mutex *)

(** [Some o]: held by thread [o] (or handed to it); [l]: the waiters. *)
Record mutex_rep m (o : option Z) (l : list Z) : Prop := {
  mr_waiters : wq_rep (waiters m) l;
  mr_locked : locked m = bool_decide (o ≠ None);
  mr_owner : owner m = default 0 o;
  mr_free : o = None → l = [];
  mr_fresh : ∀ t, o = Some t → t ∉ l;
}.

Lemma mutex_init_rep m : mutex_rep (mutex_init m) None [].
Proof. split; try done. apply wq_init_rep. Qed.

Lemma current_id_irq s b : scheduler_current_thread_id (irq_restore b s) = scheduler_current_thread_id s.
Proof. by destruct b. Qed.

Lemma mutex_try_lock_rep m s o l :
  mutex_rep m o l → scheduler_is_ready s = true →
  ∃ m' s', mutex_try_lock m s = (bool_decide (o = None), m', s') ∧
    mutex_rep m' (Some (default (scheduler_current_thread_id s) o)) l ∧
    s' = irq_restore (cpu_if s) (s <| cpu_if := false |>).
Proof.
  intros [Q1 Q2 Q3 Q4 Q5] Hr. unfold mutex_try_lock. rewrite Hr. cbn [negb irq_save].
  change (scheduler_current_thread_id (s <| cpu_if := false |>)) with (scheduler_current_thread_id s).
  destruct o as [t|]; rewrite Q2; cbn.
  - eexists _, _. split; [reflexivity|]. split; [by split|done].
  - eexists _, _. split; [reflexivity|]. split; [|done]. rewrite (Q4 eq_refl) in *.
    split; try done. intros t _. set_solver.
Qed.

(** The push of [mutex_lock] and that of [thread_block_on_wait_queue]. *)
Lemma wq_push_twice t l : wq_push t (wq_push t l) = wq_push t l.
Proof.
  unfold wq_push. destruct (decide (t = 0 ∨ (8 ≤ length l)%nat ∨ t ∈ l)) as [Hd|Hd];
    (rewrite decide_True; [done|]); [done|set_solver].
Qed.

Lemma push_if_absent_rep q l t :
  wq_rep q l →
  wq_rep (if negb (scheduler_wait_queue_contains q t)
          then scheduler_wait_queue_push_locked t q else q) (wq_push t l).
Proof.
  intros Q. rewrite (wq_contains_spec q l t Q). case_bool_decide as Hc; cbn [negb].
  - unfold wq_push. rewrite decide_True by tauto. done.
  - by apply wq_push_rep.
Qed.

Lemma block_waiters_rep q l s c :
  wq_rep q l → g_current s = Some c → g_ready s = true → id (tcb s c) ≠ 0 →
  wq_rep (thread_block_on_wait_queue q s).1.2 (wq_push (id (tcb s c)) l).
Proof.
  intros Q Hc Hr Hid. unfold thread_block_on_wait_queue.
  rewrite Hc, Hr, (proj2 (Z.eqb_neq _ _) Hid). cbn [negb orb irq_save]. cbv zeta.
  match goal with |- context [scheduler_process ?x] => destruct (scheduler_process x) as [o s'] end.
  cbn [fst snd]. by apply push_if_absent_rep.
Qed.

(** [mutex_lock] by the running thread [tid], any case. *)
Lemma mutex_lock_pass_rep m s o l c tid :
  mutex_rep m o l → scheduler_is_ready s = true → g_current s = Some c → tid = id (tcb s c) →
  (length l < 8)%nat → o ≠ Some tid →
  ∃ r m' s', mutex_lock_pass m s = (r, m', s') ∧
    match o with
    | None => r = Acquired ∧ mutex_rep m' (Some tid) []
    | Some t => if decide (tid = 0) then r = GivenUp ∧ mutex_rep m' o l
                else r = Waits ∧ mutex_rep m' o (if decide (tid ∈ l) then l else l ++ [tid])
    end.
Proof.
  intros M Hr Hc Htid Hlen Hnot. pose proof (mr_free _ _ _ M) as Hfree.
  assert (scheduler_current_thread_id s = tid) as Hcur
    by (unfold scheduler_current_thread_id; by rewrite Hc, <- Htid).
  destruct (mutex_try_lock_rep m s o l M Hr) as (m1 & s1 & E1 & M1 & Hs1).
  unfold mutex_lock_pass. rewrite E1. destruct o as [t|].
  2: { rewrite bool_decide_true by done. eexists _, _, _. split; [reflexivity|]. split; [done|].
       rewrite (Hfree eq_refl) in M1. cbn in M1. by rewrite Hcur in M1. }
  rewrite bool_decide_false by done. cbn [default] in M1.
  assert (scheduler_current_thread_id s1 = tid) as Hcur1 by (by rewrite Hs1, current_id_irq).
  rewrite Hcur1. destruct (Z.eqb_spec tid 0) as [Ht0|Ht0].
  { eexists _, _, _. split; [reflexivity|]. by destruct (decide (tid = 0)). }
  destruct (decide (tid = 0)) as [|_]; [done|]. cbn [irq_save].
  rewrite (mr_locked _ _ _ M1). rewrite bool_decide_true by done. cbn [negb]. cbv zeta.
  set (s2 := irq_restore (cpu_if s1) (s1 <| cpu_if := false |>)).
  assert (g_current s2 = Some c ∧ g_ready s2 = true ∧ tcb s2 c = tcb s c) as (G1 & G2 & G3).
  { unfold s2. rewrite Hs1. unfold scheduler_is_ready in Hr.
    destruct (cpu_if s), (cpu_if (irq_restore _ _)); done. }
  clearbody s2. set (m2 := if negb _ then _ else m1).
  assert (wq_rep (waiters m2) (wq_push tid l) ∧ locked m2 = locked m1 ∧ owner m2 = owner m1) as (P1 & P2 & P3).
  { pose proof (push_if_absent_rep (waiters m1) l tid (mr_waiters _ _ _ M1)) as P.
    unfold m2. destruct (negb _); done. }
  clearbody m2. assert (id (tcb s2 c) ≠ 0) as Hid by (rewrite G3; congruence).
  pose proof (block_waiters_rep (waiters m2) _ s2 c P1 G1 G2 Hid) as B.
  rewrite G3, <- Htid, wq_push_twice in B.
  destruct (thread_block_on_wait_queue (waiters m2) s2) as [[[b o'] q'] s3]. cbn [fst snd] in B.
  eexists _, _, _. split; [reflexivity|]. split; [done|].
  assert (wq_push tid l = if decide (tid ∈ l) then l else l ++ [tid]) as Hpush.
  { unfold wq_push. destruct (decide (tid ∈ l)); [by rewrite decide_True by tauto|].
    rewrite decide_False; [done|]. intros [?|[?|?]]; try tauto. lia. }
  rewrite <- Hpush. change (default (scheduler_current_thread_id s) (Some t)) with t in M1.
  destruct M1 as [N1 N2 N3 N4 N5]. split; cbn; try done; [by rewrite P2|by rewrite P3|].
  intros t' [= <-]. rewrite Hpush. specialize (N5 t eq_refl). assert (t ≠ tid) as Htt by congruence. clear -N5 Htt.
  case_decide; set_solver.
Qed.

Lemma mutex_unlock_rep m s o l :
  mutex_rep m o l → scheduler_is_ready s = true →
  mutex_rep (mutex_unlock m s).1
    (if decide (o = Some (scheduler_current_thread_id s)) then list.head l else o)
    (if decide (o = Some (scheduler_current_thread_id s)) then list.tail l else l).
Proof.
  intros M Hr. unfold mutex_unlock. rewrite Hr. cbn [negb irq_save].
  change (scheduler_current_thread_id (s <| cpu_if := false |>)) with (scheduler_current_thread_id s).
  set (tid := scheduler_current_thread_id s). pose proof M as [N1 N2 N3 N4 N5].
  rewrite N2, N3. destruct (decide (o = Some tid)) as [->|Hne].
  - cbn. rewrite Z.eqb_refl. cbn [negb orb].
    destruct (wq_pop_rep (waiters m) l N1) as [Hp Q'].
    destruct (scheduler_wait_queue_pop_locked (waiters m)) as [x q']. cbn [fst snd] in *. subst x.
    pose proof (wq_nonzero _ _ N1) as Hnz. pose proof (wq_nodup _ _ N1) as Hnd.
    destruct l as [|y l]; cbn in *.
    + split; cbn; done.
    + rewrite (proj2 (Z.eqb_neq y 0)) by set_solver. cbn.
      apply list.NoDup_cons in Hnd as [? ?]. split; cbn; try done. intros t [= <-]. done.
  - assert (negb (bool_decide (o ≠ None)) || negb (default 0 o =? tid) = true) as ->; [|done].
    destruct o as [t|]; [|done]. cbn. destruct (Z.eqb_spec t tid); [congruence|done].
Qed.
(** ** Interleavings *)

(** Where a thread stands with respect to the mutex. *)
Inductive lock_pc := Idle | Waiting | Holding.
Definition pc_of (r : lock_result) : lock_pc :=
  match r with Acquired => Holding | GivenUp => Idle | Waits => Waiting end.

(** One call by the running thread [tid], in any state of the scheduler.
    A thread waits or calls, it does not lock twice. *)
Inductive mutex_step (T : list Z) : nexus_mutex_t * (Z → lock_pc) → nexus_mutex_t * (Z → lock_pc) → Prop :=
| ms_try m pc s c got m' s' :
    scheduler_is_ready s = true → g_current s = Some c → id (tcb s c) ∈ T → pc (id (tcb s c)) = Idle →
    mutex_try_lock m s = (got, m', s') →
    mutex_step T (m, pc) (m', upd pc (id (tcb s c)) (if got then Holding else Idle))
| ms_lock m pc s c r m' s' :
    scheduler_is_ready s = true → g_current s = Some c → id (tcb s c) ∈ T → pc (id (tcb s c)) = Idle →
    mutex_lock m s = (r, m', s') → mutex_step T (m, pc) (m', upd pc (id (tcb s c)) (pc_of r))
| ms_resume m pc s c r m' s' :
    scheduler_is_ready s = true → g_current s = Some c → pc (id (tcb s c)) = Waiting →
    mutex_lock_resume (id (tcb s c)) m s = (r, m', s') →
    mutex_step T (m, pc) (m', upd pc (id (tcb s c)) (pc_of r))
| ms_unlock m pc s c m' s' :
    scheduler_is_ready s = true → g_current s = Some c → pc (id (tcb s c)) ≠ Waiting →
    mutex_unlock m s = (m', s') → mutex_step T (m, pc) (m', upd pc (id (tcb s c)) Idle).

Record mutex_inv (T : list Z) m (pc : Z → lock_pc) (o : option Z) (l : list Z) : Prop := {
  mi_rep : mutex_rep m o l;
  mi_hold : ∀ t, pc t = Holding → o = Some t;
  mi_queue : ∀ t, t ∈ l → pc t = Waiting;
  mi_wait : ∀ t, pc t = Waiting → t ∈ l ∨ o = Some t;
  mi_owner : ∀ t, o = Some t → pc t ≠ Idle;
  mi_known : ∀ t, pc t ≠ Idle → t ∈ T;
  mi_zero : pc 0 ≠ Waiting;
}.

Lemma inv_queue_short T m pc o l x :
  mutex_inv T m pc o l → (length T ≤ 8)%nat → x ∈ T → x ∉ l → (length l < 8)%nat.
Proof.
  intros [M _ I2 _ _ I5 _] HT Hx Hxl. assert (NoDup (x :: l)) as Hnd
    by (apply list.NoDup_cons; split; [done|apply (wq_nodup _ _ (mr_waiters _ _ _ M))]).
  assert (length (x :: l) ≤ length T)%nat as Hle.
  { apply submseteq_length, NoDup_submseteq; [done|]. intros y [->|Hy]%elem_of_cons; [done|].
    apply I5. rewrite (I2 y Hy). done. }
  cbn in Hle. lia.
Qed.

Lemma current_id s c : g_current s = Some c → scheduler_current_thread_id s = id (tcb s c).
Proof. intros Hc. unfold scheduler_current_thread_id. by rewrite Hc. Qed.

(** A pass of [mutex_lock] by a thread that does not have the mutex. *)
Lemma lock_pass_inv T m pc o l s c r m' s' (tid := id (tcb s c)) :
  mutex_inv T m pc o l → (length T ≤ 8)%nat → scheduler_is_ready s = true → g_current s = Some c →
  tid ∈ T → o ≠ Some tid → (pc tid = Idle ∨ pc tid = Waiting) →
  mutex_lock_pass m s = (r, m', s') → ∃ o' l', mutex_inv T m' (upd pc tid (pc_of r)) o' l'.
Proof.
  intros I HT Hr Hc HtT Ho Hpc E1. pose proof I as [M I1 I2 I3 I4 I5 I6].
  assert (length l < 8)%nat as Hlen.
  { destruct (decide (tid ∈ l)) as [Hin|Hin]; [|by eapply inv_queue_short].
    destruct o as [t|]; [|rewrite (mr_free _ _ _ M eq_refl); cbn; lia].
    eapply (inv_queue_short T m pc (Some t) l t); try done; [by apply I5, I4|by apply (mr_fresh _ _ _ M)]. }
  destruct (mutex_lock_pass_rep m s o l c tid M Hr Hc eq_refl Hlen Ho) as (r' & m'' & s'' & E2 & Hcase).
  rewrite E1 in E2. injection E2 as <- <- <-. clear E1. clearbody tid.
  destruct o as [t|].
  - assert (t ≠ tid) as Htt by congruence. destruct (decide (tid = 0)) as [Ht0|Ht0].
    + destruct Hcase as [-> M']. exists (Some t), l. cbn.
      assert (pc tid = Idle) as Hidle by (destruct Hpc as [|Hw]; [done|by rewrite Ht0 in Hw]).
      assert (∀ x, upd pc tid Idle x = pc x) as Hu.
      { intros x. unfold upd. destruct (Z.eqb_spec x tid); [by subst|done]. }
      split; [exact M'|intros x; rewrite Hu..|by rewrite Hu]; [apply I1|apply I2|apply I3|apply I4|apply I5].
    + destruct Hcase as [-> M']. cbn. eexists (Some t), _. split; [exact M'|..].
      * intros x. unfold upd. destruct (Z.eqb_spec x tid); [done|apply I1].
      * intros x. unfold upd. destruct (Z.eqb_spec x tid); [done|]. intros Hx. apply I2.
        case_decide; set_solver.
      * intros x. unfold upd. destruct (Z.eqb_spec x tid) as [->|]; [left; case_decide; set_solver|].
        intros Hx. destruct (I3 x Hx); [left; case_decide; set_solver|by right].
      * intros x [= <-]. unfold upd. rewrite (proj2 (Z.eqb_neq _ _) Htt). by apply I4.
      * intros x. unfold upd. destruct (Z.eqb_spec x tid) as [->|]; [done|apply I5].
      * unfold upd. destruct (Z.eqb_spec 0 tid); [congruence|done].
  - destruct Hcase as [-> M']. pose proof (mr_free _ _ _ M eq_refl) as ->. exists (Some tid), []. cbn. split; [exact M'|..].
    + intros x. unfold upd. destruct (Z.eqb_spec x tid) as [->|]; [done|]. intros Hx. by specialize (I1 x Hx).
    + intros x Hx. by apply elem_of_nil in Hx.
    + intros x. unfold upd. destruct (Z.eqb_spec x tid) as [->|]; [done|]. intros Hx.
      destruct (I3 x Hx) as [Hin|?]; [by apply elem_of_nil in Hin|done].
    + intros x [= <-]. unfold upd. by rewrite Z.eqb_refl.
    + intros x. unfold upd. destruct (Z.eqb_spec x tid) as [->|]; [done|apply I5].
    + unfold upd. destruct (Z.eqb_spec 0 tid); done.
Qed.

Lemma mutex_step_inv T m pc m' pc' :
  (length T ≤ 8)%nat → (∃ o l, mutex_inv T m pc o l) → mutex_step T (m, pc) (m', pc') →
  ∃ o l, mutex_inv T m' pc' o l.
Proof.
  intros HT (o & l & I) Hst. pose proof I as [M I1 I2 I3 I4 I5 I6]. inversion Hst as
    [? ? s c got ? s' Hr Hc HtT Hpc E1|? ? s c r ? s' Hr Hc HtT Hpc E1|? ? s c r ? s' Hr Hc Hpc E1|
     ? ? s c ? s' Hr Hc Hpc E1]; subst; clear Hst.
  - pose proof (current_id s c Hc) as Hcur. set (tid := id (tcb s c)) in *.
    destruct (mutex_try_lock_rep m s o l M Hr) as (m1 & s1 & E2 & M1 & _). rewrite E1 in E2.
    injection E2 as -> <- <-. rewrite Hcur in M1. clearbody tid. eexists _, l. split; [exact M1|..].
    + intros x. unfold upd. destruct (Z.eqb_spec x tid) as [->|].
      * destruct o; [by rewrite bool_decide_false|done].
      * intros Hx. by rewrite (I1 x Hx).
    + intros x Hx. pose proof (I2 x Hx). unfold upd. destruct (Z.eqb_spec x tid) as [->|]; [congruence|done].
    + intros x. unfold upd. destruct (Z.eqb_spec x tid) as [->|]; [by case_bool_decide|].
      intros Hx. destruct (I3 x Hx) as [|Ho]; [by left|right]. by rewrite Ho.
    + intros x [= <-]. unfold upd. destruct o as [t|]; cbn.
      * pose proof (I4 t eq_refl). destruct (Z.eqb_spec t tid) as [->|]; [congruence|done].
      * by rewrite Z.eqb_refl.
    + intros x. unfold upd. destruct (Z.eqb_spec x tid) as [->|]; [done|apply I5].
    + unfold upd. destruct (Z.eqb_spec 0 tid); [by case_bool_decide|done].
  - unfold mutex_lock in E1. rewrite Hr in E1. cbn [negb] in E1.
    eapply lock_pass_inv; try done; [|by left]. intros Ho. by destruct (I4 _ Ho).
  - set (tid := id (tcb s c)) in *. unfold mutex_lock_resume in E1.
    rewrite (mr_locked _ _ _ M), (mr_owner _ _ _ M) in E1.
    assert (tid ≠ 0) as Ht0 by (intros Ht0; by rewrite Ht0 in Hpc).
    destruct (decide (o = Some tid)) as [->|Hne].
    + cbn in E1. rewrite Z.eqb_refl in E1. injection E1 as <- <- <-. clearbody tid. exists (Some tid), l. cbn.
      split; [done|..].
      * intros x. unfold upd. destruct (Z.eqb_spec x tid) as [->|]; [done|apply I1].
      * intros x Hx. unfold upd. destruct (Z.eqb_spec x tid) as [->|]; [|by apply I2].
        by destruct (mr_fresh _ _ _ M tid eq_refl).
      * intros x. unfold upd. destruct (Z.eqb_spec x tid) as [->|]; [done|apply I3].
      * intros x [= <-]. unfold upd. by rewrite Z.eqb_refl.
      * intros x. unfold upd. destruct (Z.eqb_spec x tid) as [->|]; [|apply I5]. intros _. apply I5. by rewrite Hpc.
      * unfold upd. by destruct (Z.eqb_spec 0 tid).
    + assert (bool_decide (o ≠ None) && (default 0 o =? tid) = false) as Hf.
      { destruct o as [t|]; [|done]. cbn. apply Z.eqb_neq. congruence. }
      rewrite Hf in E1. eapply (lock_pass_inv T m pc o l s c); try done; [apply I5; fold tid; by rewrite Hpc|by right].
  - pose proof (current_id s c Hc) as Hcur. set (tid := id (tcb s c)) in *.
    pose proof (mutex_unlock_rep m s o l M Hr) as M1. rewrite E1, Hcur in M1. cbn [fst] in M1. clear E1. clearbody tid.
    destruct (decide (o = Some tid)) as [->|Hne]; eexists _, _; (split; [exact M1|..]).
    + intros x. unfold upd. destruct (Z.eqb_spec x tid) as [->|]; [done|]. intros Hx. specialize (I1 x Hx). congruence.
    + intros x Hx. assert (x ∈ l) as Hxl by (destruct l; [done|by right]). pose proof (I2 x Hxl).
      unfold upd. destruct (Z.eqb_spec x tid) as [->|]; [|done]. by destruct (mr_fresh _ _ _ M tid eq_refl).
    + intros x. unfold upd. destruct (Z.eqb_spec x tid) as [->|Hx]; [done|]. intros Hw.
      destruct (I3 x Hw) as [Hin|?]; [|congruence]. destruct l as [|y l]; [by apply elem_of_nil in Hin|].
      apply elem_of_cons in Hin as [->|Hin]; [by right|by left].
    + intros x Hx. destruct l as [|y l]; [done|]. injection Hx as <-. pose proof (I2 y ltac:(left)) as Hw.
      unfold upd. destruct (Z.eqb_spec y tid) as [->|]; [|congruence].
      destruct (mr_fresh _ _ _ M tid eq_refl). left.
    + intros x. unfold upd. destruct (Z.eqb_spec x tid); [done|apply I5].
    + unfold upd. by destruct (Z.eqb_spec 0 tid).
    + intros x. unfold upd. destruct (Z.eqb_spec x tid) as [->|]; [done|apply I1].
    + intros x Hx. unfold upd. destruct (Z.eqb_spec x tid) as [->|]; [by destruct Hpc; apply I2|by apply I2].
    + intros x. unfold upd. destruct (Z.eqb_spec x tid) as [->|]; [done|apply I3].
    + intros x Hx. unfold upd. destruct (Z.eqb_spec x tid) as [->|]; [done|by apply I4].
    + intros x. unfold upd. destruct (Z.eqb_spec x tid); [done|apply I5].
    + unfold upd. by destruct (Z.eqb_spec 0 tid).
Qed.

Lemma mutex_run_inv T p p' :
  (length T ≤ 8)%nat → rtc (mutex_step T) p p' → (∃ o l, mutex_inv T p.1 p.2 o l) →
  ∃ o l, mutex_inv T p'.1 p'.2 o l.
Proof.
  intros HT. induction 1 as [p|[m1 pc1] [m2 pc2] p3 Hst _ IH]; [done|]. intros I. apply IH.
  by eapply (mutex_step_inv T m1 pc1).
Qed.

(** C4: mutual exclusion. Along every interleaving of lock, try-lock, unlock
    and resumed waits of at most eight threads on a freshly initialised mutex,
    at most one thread holds it; a waiting thread is queued or has been handed
    the mutex (no wait is lost); and an unlocked mutex has no waiters. *)
Theorem mutex_mutual_exclusion T m0 m pc :
  (length T ≤ 8)%nat → rtc (mutex_step T) (mutex_init m0, λ _, Idle) (m, pc) →
  (∀ t1 t2, pc t1 = Holding → pc t2 = Holding → t1 = t2) ∧
  (∀ t, pc t = Holding → mutex_is_locked m = true ∧ mutex_owner m = t) ∧
  ∃ l, wq_rep (waiters m) l ∧
    (∀ t, pc t = Waiting → t ∈ l ∨ (mutex_is_locked m = true ∧ mutex_owner m = t)) ∧
    (mutex_is_locked m = false → l = []).
Proof.
  intros HT Hrun. destruct (mutex_run_inv T _ _ HT Hrun) as (o & l & [M I1 I2 I3 I4 I5 I6]).
  { exists None, []. split; try done; [apply mutex_init_rep|by intros t ?%elem_of_nil]. }
  cbn [fst snd] in *. destruct M as [N1 N2 N3 N4 N5].
  assert (∀ t, o = Some t → mutex_is_locked m = true ∧ mutex_owner m = t) as Ho.
  { intros t ->. unfold mutex_is_locked, mutex_owner. by rewrite N2, N3. }
  split; [intros t1 t2 H1%I1 H2%I1; congruence|]. split; [intros t ?%I1; by apply Ho|].
  exists l. split; [done|]. split.
  - intros t [?|?]%I3; [by left|right; by apply Ho].
  - intros Hl. apply N4. unfold mutex_is_locked in Hl. rewrite N2 in Hl. by destruct o.
Qed.

(** [mutex_unlock] by the owner hands the mutex to the oldest waiter, which
    becomes the owner and, when blocked, the last READY thread, or frees the
    mutex when nobody waits; by any other thread it changes nothing. The
    scheduler state stays consistent. *)
Theorem mutex_unlock_hands_off m s o l :
  mutex_rep m o l → good s →
  good (mutex_unlock m s).2 ∧
  if decide (o = Some (scheduler_current_thread_id s))
  then mutex_rep (mutex_unlock m s).1 (list.head l) (list.tail l) ∧
       ∀ w i, list.head l = Some w → find_thread_by_id w s = Some i →
         state (tcb s i) = THREAD_BLOCKED → state (tcb (mutex_unlock m s).2 i) = THREAD_READY
  else mutex_rep (mutex_unlock m s).1 o l.
Proof.
  intros M G. assert (scheduler_is_ready s = true) as Hr
    by (destruct G as (c & R & S & W & _); apply (w_ready _ _ _ _ W)).
  pose proof (mutex_unlock_rep m s o l M Hr) as M1.
  assert (good (s <| cpu_if := false |>)) as G0 by (by eapply frame_good).
  assert (good (mutex_unlock m s).2) as G1.
  { unfold mutex_unlock. rewrite Hr. cbn [negb irq_save]. destruct (_ || _); [by apply irq_restore_good|].
    destruct (scheduler_wait_queue_pop_locked _) as [x q]. destruct (negb _); cbn [snd];
      [by apply irq_restore_good, wake_locked_good|by apply irq_restore_good]. }
  split; [done|]. destruct (decide _) as [->|Hne]; [|done]. split; [done|].
  intros w i Hw Hf Hb. destruct l as [|y l]; [done|]. injection Hw as <-.
  unfold mutex_unlock. rewrite Hr. cbn [negb irq_save].
  rewrite (mr_locked _ _ _ M), (mr_owner _ _ _ M). cbn [default].
  change (scheduler_current_thread_id (s <| cpu_if := false |>)) with (scheduler_current_thread_id s).
  rewrite Z.eqb_refl. cbn.
  destruct (wq_pop_rep _ _ (mr_waiters _ _ _ M)) as [Hp _].
  destruct (scheduler_wait_queue_pop_locked (waiters m)) as [x q]. cbn [fst] in Hp. subst x. cbn [hd].
  pose proof (wq_nonzero _ _ (mr_waiters _ _ _ M)). rewrite (proj2 (Z.eqb_neq y 0)) by set_solver. cbn [negb snd].
  rewrite irq_restore_tcb. unfold scheduler_wake_thread_locked.
  change (find_thread_by_id y (s <| cpu_if := false |>)) with (find_thread_by_id y s). rewrite Hf.
  change (tcb (s <| cpu_if := false |>) i) with (tcb s i). rewrite Hb, Z.eqb_refl. cbn [negb].
  destruct G0 as (c & R & S & W & Hc). apply find_thread_by_id_spec in Hf as [Hv _].
  destruct (enqueue_wf _ c R S i W Hv) as (_ & _ & Hst & _); [cbn; unfold tcb in Hb; by rewrite Hb..|]. exact Hst.
Qed.
End mutex.

(** ** Concrete runs *)

(** Thread 1 of the two-thread system is running. *)
Definition demo_run : sched demo_env := (thread_yield demo_two).2.
Definition demo_mutex : nexus_mutex_t := mkMutex 3 true (mkWaitQueue (λ _, 5) 6 2).

Lemma demo_run_good : good demo_run.
Proof.
  apply (steps_good 0x4000 0x4100 demo_boot); [apply (scheduler_init_good 100 demo_bss)|].
  refine (steps_next _ _ _ demo_two Switched demo_run demo_two_steps (step_yield _ _ demo_two _ _ demo_two_live _)).
  vm_compute. reflexivity.
Qed.

Lemma mutex_mutual_exclusion_witness :
  ∃ m pc, rtc (mutex_step [1; 2]) (mutex_init demo_mutex, λ _, Idle) (m, pc) ∧ pc 1 = Holding ∧
    mutex_owner m = 1.
Proof.
  set (r := mutex_lock (mutex_init demo_mutex) demo_run).
  assert (rtc (mutex_step [1; 2]) (mutex_init demo_mutex, λ _, Idle)
            (r.1.2, upd (λ _, Idle) 1 (pc_of r.1.1))) as Hrun.
  { apply rtc_once.
    apply (ms_lock [1; 2] (mutex_init demo_mutex) (λ _, Idle) demo_run 1%nat r.1.1 r.1.2 r.2).
    - vm_compute. reflexivity.
    - vm_compute. reflexivity.
    - change (id (tcb demo_run 1)) with 1. left.
    - reflexivity.
    - fold r. by destruct r as [[]]. }
  assert (upd (λ _, Idle) 1 (pc_of r.1.1) 1 = Holding) as Hpc by (vm_compute; reflexivity).
  exists r.1.2, (upd (λ _, Idle) 1 (pc_of r.1.1)). split; [exact Hrun|]. split; [exact Hpc|].
  destruct (mutex_mutual_exclusion [1; 2] demo_mutex _ _ ltac:(cbn; lia) Hrun) as (_ & Ho & _).
  exact (proj2 (Ho 1 Hpc)).
Defined.

Definition demo_held : nexus_mutex_t :=
  mkMutex 1 true (scheduler_wait_queue_push_locked 2 (scheduler_wait_queue_init (mkWaitQueue (λ _, 5) 6 2))).

Lemma demo_held_rep : mutex_rep demo_held (Some 1) [2].
Proof.
  split; try done; [|intros t [= <-]; set_solver].
  exact (wq_push_rep _ [] 2 (wq_init_rep (mkWaitQueue (λ _, 5) 6 2))).
Qed.

Lemma mutex_unlock_hands_off_witness :
  mutex_rep (mutex_unlock demo_held demo_run).1 (Some 2) [] ∧ good (mutex_unlock demo_held demo_run).2.
Proof.
  assert (scheduler_current_thread_id demo_run = 1) as Hc by (vm_compute; reflexivity).
  destruct (mutex_unlock_hands_off demo_held demo_run (Some 1) [2] demo_held_rep demo_run_good) as [G Hcase].
  rewrite Hc in Hcase. rewrite decide_True in Hcase by reflexivity.
  split; [exact (proj1 Hcase)|exact G].
Defined.

(** ** Spinlocks exclude each other *)

(** A thread takes the lock when its compare-exchange succeeds; the holder
    releases it. *)
Inductive spin_step : Z * list Z → Z * list Z → Prop :=
| spin_try v hs t ok v' :
    spinlock_try_lock v = (ok, v') → spin_step (v, hs) (v', if ok : bool then t :: hs else hs)
| spin_release v t hs : spin_step (v, t :: hs) (spinlock_unlock v, hs).

Definition spin_inv (p : Z * list Z) : Prop := (p.1 = 0 ∧ p.2 = []) ∨ (p.1 = 1 ∧ ∃ t, p.2 = [t]).

Lemma spin_run_inv p p' : rtc spin_step p p' → spin_inv p → spin_inv p'.
Proof.
  induction 1 as [|p1 p2 p3 Hst _ IH]; [done|]. intros I. apply IH. clear IH. unfold spin_inv in *.
  destruct Hst as [v hs t ok v' E1|v t hs]; cbn in *.
  - unfold spinlock_try_lock in E1. destruct I as [[-> ->]|[-> [t' ->]]]; injection E1 as <- <-; right; eauto.
  - left. destruct I as [[_ ?]|[_ [t' ?]]]; [done|]. simplify_eq. done.
Qed.

(** However the compare-exchanges of the spinning threads interleave, at
    most one thread is inside the spinlock, and the lock word tells whether
    one is; [spinlock_try_lock] succeeds exactly when none is. *)
Theorem spinlock_mutual_exclusion v hs :
  rtc spin_step (spinlock_init, []) (v, hs) →
  (length hs ≤ 1)%nat ∧ (v = 0 ↔ hs = []) ∧ ((spinlock_try_lock v).1 = true ↔ hs = []).
Proof.
  intros Hrun. pose proof (spin_run_inv _ _ Hrun ltac:(by left)) as Hinv. unfold spin_inv in Hinv. cbn in Hinv.
  unfold spinlock_try_lock. destruct Hinv as [[-> ->]|[-> [t ->]]]; cbn; split_and!; try lia; done.
Qed.

Lemma spinlock_mutual_exclusion_witness :
  rtc spin_step (spinlock_init, []) (1, [7]) ∧ (length [7] ≤ 1)%nat.
Proof.
  assert (rtc spin_step (spinlock_init, []) (1, [7])) as Hrun
    by (apply rtc_once; exact (spin_try 0 [] 7 true 1 eq_refl)).
  split; [exact Hrun|]. exact (proj1 (spinlock_mutual_exclusion 1 [7] Hrun)).
Defined.
End Sync.
