(* ===== verification/ProcTable.v ===== *)
(** * The process table (src/kernel/core/process/process.h, process.c)

    The process object with every field of [nexus_process_t], the process and
    channel tables shared by process.c and ipc.c, and the lookup every
    operation starts with. The critical sections of both files run with
    interrupts off on the only processor and call nothing that takes the same
    lock or schedules, so the lock words and the interrupt flag, which each
    operation leaves as it found them, are not part of the state. *)

From Stdlib Require Import Lia ZArith Bool.
From stdpp Require Import base list gmap numbers functions.
From S2P Require Import Prelude.

Local Open Scope Z_scope.


Inductive process_fd_type_t :=
| PROCESS_FD_UNUSED
| PROCESS_FD_STDIN_CONSOLE
| PROCESS_FD_STDOUT_CONSOLE
| PROCESS_FD_STDERR_CONSOLE
| PROCESS_FD_VFS_FILE
| PROCESS_FD_VFS_DIR.
#[export] Instance fd_type_eq_dec : EqDecision process_fd_type_t.
Proof. solve_decision. Defined.

Record process_fd_t := mkFd {
  fd_type : process_fd_type_t;
  fd_flags : Z;
  fd_object : Z;
  fd_offset : Z;
  fd_path : cstr;
}.
#[export] Instance eta_fd : Eta process_fd_t := λ r,
  mkFd (fd_type r) (fd_flags r) (fd_object r) (fd_offset r) (fd_path r).

Inductive process_state_t := PROCESS_UNUSED | PROCESS_READY | PROCESS_RUNNING | PROCESS_ZOMBIE.
#[export] Instance process_state_eq_dec : EqDecision process_state_t.
Proof. solve_decision. Defined.

Definition PROCESS_MAX_COUNT : nat := 8.
Definition PROCESS_INVALID_PID : Z := 0.
Definition PROCESS_USER_BASE : Z := 0x400000.
Definition PROCESS_USER_LIMIT : Z := 0x7FFFFFFFF000.
Definition PROCESS_FLAG_USER_MEMORY : Z := 2.
Definition PROCESS_USER_MAX_PAGES : Z := 16.
Definition PROCESS_MAX_FDS : Z := 16.
Definition PROCESS_NAME_LEN : Z := 32.
Definition PROCESS_CWD_LEN : Z := 128.
Definition PROCESS_FD_PATH_LEN : Z := 128.
Definition PROCESS_ENV_COUNT : Z := 8.
Definition PROCESS_ENV_KEY_LEN : Z := 24.
Definition PROCESS_ENV_VALUE_LEN : Z := 64.
Definition PROCESS_MAX_CHANNELS : nat := 8.
Definition PROC_PAGE_SIZE : Z := 4096.

Record nexus_process_t := mkProcess {
  pid : Z;
  parent_pid : Z;
  address_space_cr3 : Z;
  capabilities : Z;
  start_tick : Z;
  cpu_ticks : Z;
  heap_base : Z;
  heap_end : Z;
  memory_limit_bytes : Z;
  priority : Z;
  env_count : Z;
  p_name : cstr;
  p_cwd : cstr;
  p_env : Z → cstr * cstr;
  user_entry : Z;
  user_stack_base : Z;
  user_stack_size : Z;
  user_pages_reserved : Z;
  user_page_base : Z;
  user_page_count : Z;
  user_page_phys : Z → Z;
  user_page_va : Z → Z;
  user_page_flags : Z → Z;
  kernel_stack : Z;
  scheduler_thread_id : Z;
  fds : Z → process_fd_t;
  ipc_handles : nat → Z;
  exit_code : Z;
  exit_reason : Z;
  p_state : process_state_t;
  p_flags : Z;
}.
#[export] Instance eta_process : Eta nexus_process_t := λ r,
  mkProcess (pid r) (parent_pid r) (address_space_cr3 r) (capabilities r) (start_tick r) (cpu_ticks r)
    (heap_base r) (heap_end r) (memory_limit_bytes r) (priority r) (env_count r) (p_name r) (p_cwd r)
    (p_env r) (user_entry r) (user_stack_base r) (user_stack_size r) (user_pages_reserved r)
    (user_page_base r) (user_page_count r) (user_page_phys r) (user_page_va r) (user_page_flags r)
    (kernel_stack r) (scheduler_thread_id r) (fds r) (ipc_handles r) (exit_code r) (exit_reason r)
    (p_state r) (p_flags r).

(** ** Channels (src/kernel/core/ipc/ipc.c) *)

Record ipc_message_t := mkMessage { m_size : Z; m_data : Z → Z }.
#[export] Instance eta_message : Eta ipc_message_t := λ r, mkMessage (m_size r) (m_data r).

(** The arrays of two are functions of the side, [false] for 0. *)
Record ipc_channel_t := mkChannel {
  active : bool;
  closed : bool → bool;
  ch_pid : bool → Z;
  queue_head : bool → Z;
  queue_count : bool → Z;
  queue : bool → Z → ipc_message_t;
}.
#[export] Instance eta_channel : Eta ipc_channel_t := λ r,
  mkChannel (active r) (closed r) (ch_pid r) (queue_head r) (queue_count r) (queue r).

(** ** The tables and counters of process.c and ipc.c *)

Record ptable := mkPtable {
  g_processes : nat → nexus_process_t;
  g_next_pid : Z;
  g_current_pid : Z;
  g_process_count : Z;
  g_zombie_count : Z;
  g_proc_ready : bool;
  g_channels : nat → ipc_channel_t;
  g_ipc_ready : bool;
}.
#[export] Instance eta_ptable : Eta ptable := λ r,
  mkPtable (g_processes r) (g_next_pid r) (g_current_pid r) (g_process_count r) (g_zombie_count r)
    (g_proc_ready r) (g_channels r) (g_ipc_ready r).

Definition proc (t : ptable) (i : nat) : nexus_process_t := g_processes t i.

Definition set_proc (i : nat) (f : nexus_process_t → nexus_process_t) (t : ptable) : ptable :=
  t <| g_processes := <[i := f (g_processes t i)]> (g_processes t) |>.

(** [process_get]: the index of the process, [None] for NULL. *)
Definition process_get (t : ptable) (p : Z) : option nat :=
  if negb (g_proc_ready t) || (p =? PROCESS_INVALID_PID) then None
  else first_index (λ i, negb (bool_decide (p_state (proc t i) = PROCESS_UNUSED)) && (pid (proc t i) =? p))
         0 PROCESS_MAX_COUNT.

(** ** Lookup lemmas *)

Definition used (t : ptable) (i : nat) : Prop :=
  (i < PROCESS_MAX_COUNT)%nat ∧ p_state (proc t i) ≠ PROCESS_UNUSED.

Lemma proc_set_eq i f t : proc (set_proc i f t) i = f (proc t i).
Proof. unfold proc, set_proc. cbn. by rewrite fn_lookup_insert. Qed.
Lemma proc_set_ne i j f t : i ≠ j → proc (set_proc i f t) j = proc t j.
Proof. intros. unfold proc, set_proc. cbn. by rewrite fn_lookup_insert_ne. Qed.

Lemma process_get_Some t p i :
  process_get t p = Some i → used t i ∧ pid (proc t i) = p ∧ p ≠ 0 ∧ g_proc_ready t = true.
Proof.
  unfold process_get, used, PROCESS_INVALID_PID. destruct (g_proc_ready t); [|done]. cbn [negb orb].
  destruct (Z.eqb_spec p 0) as [|Hp]; [done|]. intros (Hi & Ht & _)%first_index_Some.
  apply andb_true_iff in Ht as [Hu Hpid]. apply negb_true_iff, bool_decide_eq_false in Hu.
  apply Z.eqb_eq in Hpid. split_and!; try done. lia.
Qed.

(** Process ids are unique among the used slots. *)
Definition pids_unique (t : ptable) : Prop :=
  ∀ i j, used t i → used t j → pid (proc t i) = pid (proc t j) → i = j.

Lemma process_get_used t i :
  g_proc_ready t = true → pids_unique t → used t i → pid (proc t i) ≠ 0 →
  process_get t (pid (proc t i)) = Some i.
Proof.
  intros Hr Hu Hi Hp. unfold process_get, PROCESS_INVALID_PID. rewrite Hr, (proj2 (Z.eqb_neq _ 0) Hp). cbn [negb orb].
  destruct (first_index_found (λ j, negb (bool_decide (p_state (proc t j) = PROCESS_UNUSED)) &&
    (pid (proc t j) =? pid (proc t i))) 0 PROCESS_MAX_COUNT i) as (j & Ej & _).
  - destruct Hi. lia.
  - destruct Hi as [_ Hi]. rewrite bool_decide_false by done. by rewrite Z.eqb_refl.
  - rewrite Ej. f_equal. apply first_index_Some in Ej as (Hj & Ht & _).
    apply andb_true_iff in Ht as [Hju Hpid]. apply negb_true_iff, bool_decide_eq_false in Hju.
    apply Z.eqb_eq in Hpid. apply Hu; try done. split; [lia|done].
Qed.
