(* ===== verification/Ipc.v ===== *)
(** * Inter-process channels (src/kernel/core/ipc/ipc.c)

    Sixteen channels with a message ring per side; a process names a channel
    by a handle, the index of an entry of its [ipc_handles] plus one. *)

From Stdlib Require Import Lia ZArith Bool.
From stdpp Require Import base list gmap numbers functions.
From S2P Require Import Prelude ProcTable.

Local Open Scope Z_scope.

Module Ipc.

Definition IPC_MAX_CHANNELS : nat := 16.
Definition NEXUS_CHANNEL_MESSAGE_MAX : Z := 256.
Definition NEXUS_CHANNEL_QUEUE_DEPTH : Z := 8.
Definition NEXUS_PROCESS_CHANNELS : Z := 8.

Implicit Types (t : ptable) (ch : ipc_channel_t).

(** A side of a channel is a [bool], [None] stands for -1. *)
Definition find_side ch (p : Z) : option bool :=
  if negb (active ch) then None
  else if ch_pid ch false =? p then Some false
  else if ch_pid ch true =? p then Some true
  else None.

Definition set_side {A} (f : bool → A) (side : bool) (v : A) : bool → A :=
  λ b, if Bool.eqb b side then v else f b.

Definition chan t (c : nat) : ipc_channel_t := g_channels t c.
Definition set_chan (c : nat) (f : ipc_channel_t → ipc_channel_t) t : ptable :=
  t <| g_channels := <[c := f (g_channels t c)]> (g_channels t) |>.

(** [ipc_handles[handle - 1]], and its assignment. *)
Definition handle_of t (i : nat) (handle : Z) : Z := ipc_handles (proc t i) (Z.to_nat (handle - 1)).
Definition set_handle (i : nat) (h : nat) (v : Z) t : ptable :=
  set_proc i (λ p, p <| ipc_handles := <[h := v]> (ipc_handles p) |>) t.

Definition bad_channel_id (id : Z) : bool := (id =? 0) || (id >? Z.of_nat IPC_MAX_CHANNELS).

Definition find_channel_for_handle t (p : Z) (handle : Z) : option nat :=
  match process_get t p with
  | None => None
  | Some i =>
     if (handle =? 0) || (handle >? NEXUS_PROCESS_CHANNELS) then None
     else
       let channel_id := handle_of t i handle in
       if bad_channel_id channel_id then None
       else
         let c := Z.to_nat (channel_id - 1) in
         match find_side (chan t c) p with
         | None => None
         | Some side => if closed (chan t c) side then None else Some c
         end
  end.

Definition find_free_handle (p : nexus_process_t) : option nat :=
  first_index (λ i, ipc_handles p i =? 0) 0 (Z.to_nat NEXUS_PROCESS_CHANNELS).

Definition find_free_channel t : option nat :=
  first_index (λ c, negb (active (chan t c))) 0 IPC_MAX_CHANNELS.

Definition nexus_ipc_init t : ptable :=
  let reset c := c <| active := false |> <| closed := λ _, false |> in
  (t <| g_channels := λ c, if (c <? IPC_MAX_CHANNELS)%nat then reset (g_channels t c) else g_channels t c |>)
    <| g_ipc_ready := true |>.

Definition nexus_ipc_ready t : bool := g_ipc_ready t.

(** [Some h]: success with [*out_handle = h]. *)
Definition nexus_ipc_create (owner_pid peer_pid : Z) t : option Z * ptable :=
  if negb (g_ipc_ready t) || (owner_pid =? 0) || (peer_pid =? 0) || (owner_pid =? peer_pid) then (None, t)
  else
    match process_get t owner_pid, process_get t peer_pid with
    | Some owner, Some peer =>
       if bool_decide (p_state (proc t owner) = PROCESS_ZOMBIE) ||
          bool_decide (p_state (proc t peer) = PROCESS_ZOMBIE) then (None, t)
       else
         match find_free_handle (proc t owner), find_free_handle (proc t peer) with
         | Some owner_slot, Some peer_slot =>
            match find_free_channel t with
            | None => (None, t)
            | Some c =>
               let t := set_chan c (λ ch,
                 ch <| active := true |> <| closed := λ _, false |>
                    <| ch_pid := λ side, if side : bool then peer_pid else owner_pid |>
                    <| queue_head := λ _, 0 |> <| queue_count := λ _, 0 |>) t in
               let t := set_handle owner owner_slot (Z.of_nat c + 1) t in
               let t := set_handle peer peer_slot (Z.of_nat c + 1) t in
               (Some (Z.of_nat owner_slot + 1), t)
            end
         | _, _ => (None, t)
         end
    | _, _ => (None, t)
    end.

Definition nexus_ipc_close (p : Z) (handle : Z) t : bool * ptable :=
  match process_get t p with
  | None => (false, t)
  | Some i =>
     if (handle =? 0) || (handle >? NEXUS_PROCESS_CHANNELS) then (false, t)
     else
       let channel_id := handle_of t i handle in
       if bad_channel_id channel_id then (false, t)
       else
         let c := Z.to_nat (channel_id - 1) in
         match find_side (chan t c) p with
         | None => (false, t)
         | Some side =>
            let t := set_chan c (λ ch, ch <| closed := set_side (closed ch) side true |>) t in
            let t := set_handle i (Z.to_nat (handle - 1)) 0 t in
            let t := if closed (chan t c) false && closed (chan t c) true
                     then set_chan c (λ ch, ch <| active := false |>) t else t in
            (true, t)
         end
  end.

(** The loop [for (i = 0; i < n; ++i) dst[i] = src[i]]. *)
Definition copy_bytes (dst src : Z → Z) (n : Z) : Z → Z :=
  λ i, if (0 <=? i) && (i <? n) then src i else dst i.

(** [data = None] is the NULL pointer; the result is the number of bytes. *)
Definition nexus_ipc_send (p : Z) (handle : Z) (data : option (Z → Z)) (size : Z) t : Z * ptable :=
  match data with
  | None => (0, t)
  | Some src =>
     if (size =? 0) || (size >? NEXUS_CHANNEL_MESSAGE_MAX) then (0, t)
     else
       match process_get t p with
       | None => (0, t)
       | Some i =>
          if bool_decide (p_state (proc t i) = PROCESS_ZOMBIE) then (0, t)
          else
            match find_channel_for_handle t p handle with
            | None => (0, t)
            | Some c =>
               match find_side (chan t c) p with
               | None => (0, t)
               | Some side =>
                  let target := negb side in
                  let ch := chan t c in
                  if closed ch target || (queue_count ch target >=? NEXUS_CHANNEL_QUEUE_DEPTH) then (0, t)
                  else
                    let pos := u32 (queue_head ch target + queue_count ch target) mod NEXUS_CHANNEL_QUEUE_DEPTH in
                    let t := set_chan c (λ ch,
                      ch <| queue := set_side (queue ch) target
                              (upd (queue ch target) pos
                                 (mkMessage (u16 size) (copy_bytes (m_data (queue ch target pos)) src size))) |>
                         <| queue_count := set_side (queue_count ch) target (u32 (queue_count ch target + 1)) |>) t in
                    (size, t)
               end
            end
       end
  end.

(** [Some (bytes)]: result 1, [*out_size] and the bytes written to [data]. *)
Definition nexus_ipc_recv (p : Z) (handle : Z) (capacity : Z) t : option (list Z) * ptable :=
  if capacity =? 0 then (None, t)
  else
    match process_get t p with
    | None => (None, t)
    | Some i =>
       if bool_decide (p_state (proc t i) = PROCESS_ZOMBIE) then (None, t)
       else
         match find_channel_for_handle t p handle with
         | None => (None, t)
         | Some c =>
            match find_side (chan t c) p with
            | None => (None, t)
            | Some side =>
               let ch := chan t c in
               if queue_count ch side =? 0 then (None, t)
               else
                 let message := queue ch side (queue_head ch side) in
                 let copy_size := if m_size message <? capacity then m_size message else capacity in
                 let t := set_chan c (λ ch,
                   ch <| queue_head := set_side (queue_head ch) side
                           (u32 (queue_head ch side + 1) mod NEXUS_CHANNEL_QUEUE_DEPTH) |>
                      <| queue_count := set_side (queue_count ch) side (u32 (queue_count ch side - 1)) |>) t in
                 (Some (map (m_data message) (seqZ 0 copy_size)), t)
            end
         end
    end.

Definition nexus_ipc_poll (p : Z) (handle : Z) t : Z :=
  match find_channel_for_handle t p handle with
  | None => 0
  | Some c =>
     match find_side (chan t c) p with
     | None => 0
     | Some side => queue_count (chan t c) side
     end
  end.

(** The inner loop over the handles of the peer. *)
Definition drop_peer_handle (peer : nat) (channel_id : Z) t : ptable :=
  match first_index (λ h, ipc_handles (proc t peer) h =? channel_id) 0 (Z.to_nat NEXUS_PROCESS_CHANNELS) with
  | Some h => set_handle peer h 0 t
  | None => t
  end.

(** One iteration of the loop of [nexus_ipc_process_terminate]. *)
Definition terminate_handle (p : Z) (i : nat) t (h : nat) : ptable :=
  let channel_id := ipc_handles (proc t i) h in
  if bad_channel_id channel_id then t
  else
    let c := Z.to_nat (channel_id - 1) in
    match find_side (chan t c) p with
    | None => t
    | Some side =>
       let t := set_chan c (λ ch, ch <| closed := set_side (closed ch) side true |>) t in
       let t := set_handle i h 0 t in
       if closed (chan t c) false && closed (chan t c) true
       then set_chan c (λ ch, ch <| active := false |>) t
       else
         match process_get t (ch_pid (chan t c) (negb side)) with
         | Some peer => drop_peer_handle peer channel_id t
         | None => t
         end
    end.

Definition nexus_ipc_process_terminate (p : Z) t : ptable :=
  match process_get t p with
  | None => t
  | Some i => foldl (terminate_handle p i) t (seq 0 (Z.to_nat NEXUS_PROCESS_CHANNELS))
  end.

Definition nexus_ipc_open_count (p : Z) t : Z :=
  match process_get t p with
  | None => 0
  | Some i => Z.of_nat (length (filter (λ h, ipc_handles (proc t i) h ≠ 0)
                                  (seq 0 (Z.to_nat NEXUS_PROCESS_CHANNELS))))
  end.

(** ** What the channels promise: a bounded FIFO per direction *)

(** The bytes of a message, and the messages waiting on a side. *)
Definition bytes_of (m : ipc_message_t) : list Z := map (m_data m) (seqZ 0 (m_size m)).
Definition inbox ch (side : bool) : list (list Z) :=
  map bytes_of (ring NEXUS_CHANNEL_QUEUE_DEPTH (queue ch side) (queue_head ch side) (queue_count ch side)).

Definition chan_ok ch : Prop :=
  ∀ side, 0 ≤ queue_head ch side < NEXUS_CHANNEL_QUEUE_DEPTH ∧
          0 ≤ queue_count ch side ≤ NEXUS_CHANNEL_QUEUE_DEPTH.

(** Process [p] uses side [side] of channel [c] through [handle]. *)
Definition endpoint t (p handle : Z) (c : nat) (side : bool) : Prop :=
  find_channel_for_handle t p handle = Some c ∧ find_side (chan t c) p = Some side.

Lemma chan_set_eq c f t : chan (set_chan c f t) c = f (chan t c).
Proof. unfold chan, set_chan. cbn. by rewrite fn_lookup_insert. Qed.
Lemma chan_set_ne c c' f t : c ≠ c' → chan (set_chan c f t) c' = chan t c'.
Proof. intros. unfold chan, set_chan. cbn. by rewrite fn_lookup_insert_ne. Qed.

Lemma set_side_eq {A} (f : bool → A) side v : set_side f side v side = v.
Proof. unfold set_side. by rewrite Bool.eqb_reflx. Qed.
Lemma set_side_ne {A} (f : bool → A) side v : set_side f side v (negb side) = f (negb side).
Proof. by destruct side. Qed.
Lemma set_side_neg {A} (f : bool → A) side v : set_side f (negb side) v side = f side.
Proof. by destruct side. Qed.

Lemma find_channel_side t p handle c :
  find_channel_for_handle t p handle = Some c →
  ∃ i side, process_get t p = Some i ∧ find_side (chan t c) p = Some side ∧
    closed (chan t c) side = false ∧ (c < IPC_MAX_CHANNELS)%nat.
Proof.
  unfold find_channel_for_handle. destruct (process_get t p) as [i|]; [|done].
  destruct (_ || _); [done|]. cbv zeta. unfold bad_channel_id.
  destruct (Z.eqb_spec (handle_of t i handle) 0); [done|].
  destruct (handle_of t i handle >? _) eqn:Hgt; [done|]. cbn [orb].
  destruct (find_side _ p) as [side|] eqn:Hs; [|done].
  destruct (closed _ side) eqn:Hcl; [done|]. intros [= <-].
  exists i, side. split_and!; try done. rewrite Z.gtb_ltb in Hgt. apply Z.ltb_ge in Hgt. unfold IPC_MAX_CHANNELS in *. lia.
Qed.

(** The copied message holds the sent bytes. *)
Lemma copied_bytes dst src size :
  0 ≤ size < 2 ^ 16 → bytes_of (mkMessage (u16 size) (copy_bytes dst src size)) = map src (seqZ 0 size).
Proof.
  intros Hs. unfold bytes_of, u16. cbn. rewrite Z.mod_small by lia. apply list_fmap_ext.
  intros k x Hk. apply lookup_seqZ in Hk as [-> Hk]. unfold copy_bytes.
  destruct (Z.leb_spec 0 (0 + Z.of_nat k)), (Z.ltb_spec (0 + Z.of_nat k) size); try lia. done.
Qed.

(** *** Sending *)

Lemma send_spec t p handle src size i c side :
  process_get t p = Some i → p_state (proc t i) ≠ PROCESS_ZOMBIE → endpoint t p handle c side →
  chan_ok (chan t c) → 0 < size ≤ NEXUS_CHANNEL_MESSAGE_MAX →
  closed (chan t c) (negb side) = false → queue_count (chan t c) (negb side) < NEXUS_CHANNEL_QUEUE_DEPTH →
  ∃ t', nexus_ipc_send p handle (Some src) size t = (size, t') ∧
    g_processes t' = g_processes t ∧ (∀ c', c' ≠ c → chan t' c' = chan t c') ∧ chan_ok (chan t' c) ∧
    inbox (chan t' c) (negb side) = inbox (chan t c) (negb side) ++ [map src (seqZ 0 size)] ∧
    inbox (chan t' c) side = inbox (chan t c) side ∧ ch_pid (chan t' c) = ch_pid (chan t c) ∧
    closed (chan t' c) = closed (chan t c) ∧ active (chan t' c) = active (chan t c) ∧
    g_proc_ready t' = g_proc_ready t.
Proof.
  intros Hg Hz [Hc Hs] Hok Hsz Hcl Hq. unfold NEXUS_CHANNEL_MESSAGE_MAX in *.
  unfold nexus_ipc_send. assert ((size =? 0) || (size >? 256) = false) as E0 by lia. unfold NEXUS_CHANNEL_MESSAGE_MAX.
  rewrite E0, Hg, bool_decide_false, Hc, Hs by done. cbv zeta. rewrite Hcl. cbn [orb].
  destruct (Hok (negb side)) as [Hh Hn]. unfold NEXUS_CHANNEL_QUEUE_DEPTH in *.
  assert ((queue_count (chan t c) (negb side) >=? 8) = false) as -> by lia.
  rewrite u32_small by lia. set (pos := (queue_head _ _ + queue_count _ _) mod 8).
  eexists. split; [reflexivity|]. rewrite chan_set_eq. split; [done|].
  split; [intros c' Hc'; by rewrite chan_set_ne|]. split_and!; try done.
  - intros sd. cbn. destruct (Hok sd) as [Hh' Hn']. unfold set_side. destruct (Bool.eqb_spec sd (negb side)) as [->|].
    + rewrite u32_small by lia. unfold NEXUS_CHANNEL_QUEUE_DEPTH. lia.
    + done.
  - unfold inbox. cbn. rewrite !set_side_eq, u32_small by lia. unfold NEXUS_CHANNEL_QUEUE_DEPTH, pos.
    rewrite ring_push, map_app by lia. cbn [map]. rewrite copied_bytes by lia. done.
  - unfold inbox. cbn. by rewrite !set_side_neg.
Qed.

(** *** Receiving *)

Lemma recv_spec t p handle capacity i c side m rest :
  process_get t p = Some i → p_state (proc t i) ≠ PROCESS_ZOMBIE → endpoint t p handle c side →
  chan_ok (chan t c) → 0 < capacity → inbox (chan t c) side = m :: rest →
  ∃ t', nexus_ipc_recv p handle capacity t = (Some (take (Z.to_nat capacity) m), t') ∧
    g_processes t' = g_processes t ∧ (∀ c', c' ≠ c → chan t' c' = chan t c') ∧ chan_ok (chan t' c) ∧
    inbox (chan t' c) side = rest ∧ inbox (chan t' c) (negb side) = inbox (chan t c) (negb side) ∧
    ch_pid (chan t' c) = ch_pid (chan t c) ∧ closed (chan t' c) = closed (chan t c) ∧
    active (chan t' c) = active (chan t c) ∧ g_proc_ready t' = g_proc_ready t.
Proof.
  intros Hg Hz [Hc Hs] Hok Hcap Hin. unfold nexus_ipc_recv.
  rewrite (proj2 (Z.eqb_neq capacity 0)), Hg, bool_decide_false, Hc, Hs by (done || lia). cbv zeta.
  destruct (Hok side) as [Hh Hn]. unfold NEXUS_CHANNEL_QUEUE_DEPTH in *.
  destruct (Z.eqb_spec (queue_count (chan t c) side) 0) as [E0|Hn0].
  { unfold inbox in Hin. rewrite E0 in Hin. done. }
  unfold inbox in Hin. rewrite ring_pop in Hin by (unfold NEXUS_CHANNEL_QUEUE_DEPTH; lia). cbn [map] in Hin.
  injection Hin as Hm Hrest. unfold NEXUS_CHANNEL_QUEUE_DEPTH in Hrest.
  eexists. split.
  { f_equal. f_equal. rewrite <- Hm. unfold bytes_of. rewrite firstn_map. f_equal.
    destruct (Z.ltb_spec (m_size (queue (chan t c) side (queue_head (chan t c) side))) capacity) as [Hlt|Hge].
    - rewrite take_ge; [done|]. rewrite length_seqZ. lia.
    - set (sz := m_size _) in *. replace sz with (capacity + (sz - capacity)) by lia.
      rewrite seqZ_app by lia. rewrite take_app_length'; [done|]. rewrite length_seqZ. done. }
  rewrite chan_set_eq. split; [done|]. split; [intros c' Hc'; by rewrite chan_set_ne|].
  split_and!; try done.
  - intros sd. cbn. destruct (Hok sd) as [Hh' Hn']. unfold set_side. destruct (Bool.eqb_spec sd side) as [->|].
    + rewrite !u32_small by lia. unfold NEXUS_CHANNEL_QUEUE_DEPTH.
      pose proof (Z.mod_pos_bound (queue_head (chan t c) side + 1) 8). lia.
    + done.
  - unfold inbox. cbn. rewrite !set_side_eq, !u32_small by lia. exact Hrest.
  - unfold inbox. cbn. by rewrite !set_side_ne.
Qed.

(** Every other call leaves the state alone. *)
Lemma send_fail t p handle data size :
  (nexus_ipc_send p handle data size t).1 = 0 → (nexus_ipc_send p handle data size t).2 = t.
Proof.
  unfold nexus_ipc_send. destruct data as [src|]; [|done]. destruct (Z.eqb_spec size 0) as [->|Hs]; [done|].
  cbn [orb]. repeat case_match; try done.
Qed.

(** C12: a channel is a pair of FIFOs of at most eight messages. A successful
    send by an endpoint appends its bytes to the inbox of the other side and
    changes no other inbox, channel or process; it succeeds whenever the
    message has between 1 and 256 bytes, the other side is open and its inbox
    not full, and otherwise nothing changes. A receive removes the oldest
    message of the own inbox and delivers its first [capacity] bytes. *)
Theorem ipc_channels_fifo t p handle i c side :
  process_get t p = Some i → p_state (proc t i) ≠ PROCESS_ZOMBIE → endpoint t p handle c side →
  chan_ok (chan t c) →
  (∀ src size, 0 ≤ size →
     ∃ r t', nexus_ipc_send p handle (Some src) size t = (r, t') ∧ g_processes t' = g_processes t ∧
       (∀ c', c' ≠ c → chan t' c' = chan t c') ∧ chan_ok (chan t' c) ∧
       if decide (0 < size ≤ 256 ∧ closed (chan t c) (negb side) = false ∧
                  (length (inbox (chan t c) (negb side)) < 8)%nat)
       then r = size ∧ inbox (chan t' c) (negb side) = inbox (chan t c) (negb side) ++ [map src (seqZ 0 size)] ∧
            inbox (chan t' c) side = inbox (chan t c) side
       else r = 0 ∧ t' = t) ∧
  (∀ capacity, 0 < capacity →
     match inbox (chan t c) side with
     | [] => nexus_ipc_recv p handle capacity t = (None, t)
     | m :: rest =>
        ∃ t', nexus_ipc_recv p handle capacity t = (Some (take (Z.to_nat capacity) m), t') ∧
          g_processes t' = g_processes t ∧ (∀ c', c' ≠ c → chan t' c' = chan t c') ∧ chan_ok (chan t' c) ∧
          inbox (chan t' c) side = rest ∧ inbox (chan t' c) (negb side) = inbox (chan t c) (negb side)
     end).
Proof.
  intros Hg Hz He Hok. split.
  - intros src size Hs. assert (Z.of_nat (length (inbox (chan t c) (negb side))) = queue_count (chan t c) (negb side)) as Hlen.
    { unfold inbox. rewrite length_map, ring_length; [done|apply Hok]. }
    case_decide as Hd.
    + destruct Hd as (Hsz & Hcl & Hl). destruct (send_spec t p handle src size i c side) as
        (t' & E1 & A1 & A2 & A3 & A4 & A5 & _); try done; unfold NEXUS_CHANNEL_MESSAGE_MAX, NEXUS_CHANNEL_QUEUE_DEPTH; try lia.
      exists size, t'. done.
    + assert ((nexus_ipc_send p handle (Some src) size t).1 = 0) as Hr.
      { unfold nexus_ipc_send, NEXUS_CHANNEL_MESSAGE_MAX. destruct (Z.eqb_spec size 0) as [->|]; [done|]. cbn [orb].
        destruct (size >? 256) eqn:E1; [done|]. destruct He as [Hc Hs']. rewrite Hg, bool_decide_false, Hc, Hs' by done. cbv zeta.
        destruct (closed (chan t c) (negb side)) eqn:Hcl; [done|]. cbn [orb]. unfold NEXUS_CHANNEL_QUEUE_DEPTH.
        destruct (Z.geb_spec (queue_count (chan t c) (negb side)) 8); [done|]. destruct Hd.
        rewrite Z.gtb_ltb in E1. apply Z.ltb_ge in E1. split; [lia|]. split; [done|]. lia. }
      exists 0, t. split; [|done]. pose proof (send_fail _ _ _ _ _ Hr) as Hr2.
      destruct (nexus_ipc_send p handle (Some src) size t). by cbn in Hr, Hr2; subst.
  - intros capacity Hcap. destruct (inbox (chan t c) side) as [|m rest] eqn:Hin.
    + unfold nexus_ipc_recv. destruct He as [Hc Hs'].
      rewrite (proj2 (Z.eqb_neq capacity 0)), Hg, bool_decide_false, Hc, Hs' by (done || lia). cbv zeta.
      apply (f_equal length) in Hin. unfold inbox in Hin. rewrite length_map in Hin.
      pose proof (ring_length NEXUS_CHANNEL_QUEUE_DEPTH (queue (chan t c) side) (queue_head (chan t c) side)
        (queue_count (chan t c) side) ltac:(apply Hok)) as Hl. rewrite Hin in Hl. by rewrite <- Hl.
    + destruct (recv_spec t p handle capacity i c side m rest) as (t' & ? & ? & ? & ? & ? & ? & _); try done.
      by exists t'.
Qed.

(** Endpoints survive a send. *)
Lemma endpoint_frame t t' p handle c side :
  endpoint t p handle c side → g_processes t' = g_processes t → g_proc_ready t' = g_proc_ready t →
  ch_pid (chan t' c) = ch_pid (chan t c) → closed (chan t' c) = closed (chan t c) →
  active (chan t' c) = active (chan t c) → endpoint t' p handle c side.
Proof.
  intros [Hc Hs] E1 E2 E3 E4 E5.
  assert (∀ q, find_side (chan t' c) q = find_side (chan t c) q) as Hfs
    by (intros q; unfold find_side; by rewrite E3, E5).
  split; [|by rewrite Hfs]. unfold find_channel_for_handle in *.
  assert (process_get t' p = process_get t p) as ->
    by (unfold process_get, proc; by rewrite E1, E2).
  destruct (process_get t p) as [i|]; [|done]. destruct (_ || _); [done|].
  assert (handle_of t' i handle = handle_of t i handle) as -> by (unfold handle_of, proc; by rewrite E1).
  cbv zeta in *. destruct (bad_channel_id _); [done|].
  destruct (find_side (chan t (Z.to_nat (handle_of t i handle - 1))) p) as [sd|] eqn:Hsd; [|done].
  destruct (closed (chan t (Z.to_nat (handle_of t i handle - 1))) sd) eqn:Hcl; [done|].
  injection Hc as Hc. rewrite Hc in *. by rewrite Hfs, Hsd, E4, Hcl.
Qed.

(** Round trip: what one endpoint sends into an empty channel the other
    endpoint receives, byte for byte, when its buffer is large enough. *)
Theorem ipc_send_recv_roundtrip t p1 h1 p2 h2 i1 i2 c side src size capacity :
  process_get t p1 = Some i1 → p_state (proc t i1) ≠ PROCESS_ZOMBIE → endpoint t p1 h1 c side →
  process_get t p2 = Some i2 → p_state (proc t i2) ≠ PROCESS_ZOMBIE → endpoint t p2 h2 c (negb side) →
  chan_ok (chan t c) → inbox (chan t c) (negb side) = [] → 0 < size ≤ 256 → size ≤ capacity →
  ∃ t' t'', nexus_ipc_send p1 h1 (Some src) size t = (size, t') ∧
    nexus_ipc_recv p2 h2 capacity t' = (Some (map src (seqZ 0 size)), t'') ∧
    inbox (chan t'' c) (negb side) = [].
Proof.
  intros G1 Z1 E1 G2 Z2 E2 Hok Hin Hsz Hcap.
  assert (closed (chan t c) (negb side) = false) as Hcl.
  { destruct E2 as [Hc Hs]. destruct (find_channel_side _ _ _ _ Hc) as (? & sd & _ & Hs' & Hcl & _).
    rewrite Hs in Hs'. by injection Hs' as <-. }
  assert (queue_count (chan t c) (negb side) = 0) as Hq0.
  { apply (f_equal length) in Hin. unfold inbox in Hin. rewrite length_map in Hin.
    pose proof (ring_length NEXUS_CHANNEL_QUEUE_DEPTH (queue (chan t c) (negb side)) (queue_head (chan t c) (negb side))
      (queue_count (chan t c) (negb side)) ltac:(apply Hok)) as Hl. rewrite Hin in Hl. by rewrite <- Hl. }
  destruct (send_spec t p1 h1 src size i1 c side) as (t' & S1 & A1 & A2 & A3 & A4 & A5 & A6 & A7 & A8 & A9); try done.
  { rewrite Hq0. unfold NEXUS_CHANNEL_QUEUE_DEPTH. lia. }
  rewrite Hin in A4. cbn [app] in A4.
  destruct (recv_spec t' p2 h2 capacity i2 c (negb side) (map src (seqZ 0 size)) []) as (t'' & R1 & _ & _ & _ & R2 & _); try done.
  - unfold process_get, proc in *. by rewrite A1, A9.
  - unfold proc in *. by rewrite A1.
  - by eapply endpoint_frame.
  - lia.
  - exists t', t''. split; [done|]. split; [|done]. rewrite R1. rewrite take_ge; [done|].
    rewrite length_map, length_seqZ. lia.
Qed.

(** ** The invariant of the channel table *)

(** Active channels connect two distinct processes and have sane rings. *)
Definition ipc_wf t : Prop :=
  ∀ c, active (chan t c) = true → chan_ok (chan t c) ∧ ch_pid (chan t c) false ≠ ch_pid (chan t c) true.

Lemma ipc_wf_chan t c f :
  ipc_wf t →
  (active (f (chan t c)) = true → chan_ok (f (chan t c)) ∧ ch_pid (f (chan t c)) false ≠ ch_pid (f (chan t c)) true) →
  ipc_wf (set_chan c f t).
Proof.
  intros W Hf c'. destruct (decide (c = c')) as [<-|]; [by rewrite chan_set_eq|].
  rewrite chan_set_ne by done. apply W.
Qed.

Lemma ipc_wf_frame t t' : g_channels t' = g_channels t → ipc_wf t → ipc_wf t'.
Proof. intros E W c. unfold chan. rewrite E. apply W. Qed.

Lemma ipc_wf_close t c side : ipc_wf t → ipc_wf (set_chan c (λ ch, ch <| closed := set_side (closed ch) side true |>) t).
Proof. intros W. apply ipc_wf_chan; [done|]. apply W. Qed.

Lemma ipc_wf_deactivate t c : ipc_wf t → ipc_wf (set_chan c (λ ch, ch <| active := false |>) t).
Proof. intros W. by apply ipc_wf_chan. Qed.

Lemma terminate_handle_wf p i t h : ipc_wf t → ipc_wf (terminate_handle p i t h).
Proof.
  intros W. unfold terminate_handle. cbv zeta. destruct (bad_channel_id _); [done|].
  destruct (find_side _ p) as [side|]; [|done]. set (c := Z.to_nat _).
  assert (ipc_wf (set_handle i h 0 (set_chan c (λ ch, ch <| closed := set_side (closed ch) side true |>) t))) as W1.
  { eapply ipc_wf_frame; [|by apply ipc_wf_close]. done. }
  destruct (_ && _); [by apply ipc_wf_deactivate|].
  destruct (process_get _ _) as [peer|]; [|done]. unfold drop_peer_handle.
  destruct (first_index _ _ _); [|done]. by eapply ipc_wf_frame.
Qed.

Lemma terminate_wf p t : ipc_wf t → ipc_wf (nexus_ipc_process_terminate p t).
Proof.
  intros W. unfold nexus_ipc_process_terminate. destruct (process_get t p) as [i|]; [|done].
  generalize (seq 0 (Z.to_nat NEXUS_PROCESS_CHANNELS)). intros l. revert t W.
  induction l as [|h l IH]; intros t W; [done|]. by apply IH, terminate_handle_wf.
Qed.

Lemma create_ipc_wf o q t : ipc_wf t → ipc_wf (nexus_ipc_create o q t).2.
Proof.
  intros W. unfold nexus_ipc_create. destruct (Z.eqb_spec o q) as [|Hne].
  { rewrite orb_true_r. done. }
  destruct (_ || _); [done|]. destruct (process_get t o) as [i|]; [|done].
  destruct (process_get t q) as [j|]; [|done]. destruct (_ || _); [done|].
  destruct (find_free_handle _) as [hi|]; [|done]. destruct (find_free_handle _) as [hj|]; [|done].
  destruct (find_free_channel t) as [c|]; [|done]. cbn [snd].
  eapply ipc_wf_frame; [reflexivity|]. eapply ipc_wf_frame; [reflexivity|]. apply ipc_wf_chan; [done|].
  intros _. split; [|done]. intros side. cbn. unfold NEXUS_CHANNEL_QUEUE_DEPTH. lia.
Qed.

Lemma send_wf p h d n t : ipc_wf t → ipc_wf (nexus_ipc_send p h d n t).2.
Proof.
  intros W. unfold nexus_ipc_send. destruct d as [src|]; [|done]. destruct (_ || _); [done|].
  destruct (process_get t p) as [i|]; [|done]. destruct (bool_decide _); [done|].
  destruct (find_channel_for_handle t p h) as [c|] eqn:Hc; [|done].
  destruct (find_side (chan t c) p) as [side|] eqn:Hs; [|done]. cbv zeta.
  destruct (closed _ _ || _) eqn:Hf; [done|]. cbn [snd]. apply ipc_wf_chan; [done|]. cbn. intros Ha.
  destruct (W c Ha) as [Hok Hne]. split; [|done]. intros sd. cbn. destruct (Hok sd).
  apply orb_false_iff in Hf as [_ Hf]. rewrite Z.geb_leb in Hf. apply Z.leb_gt in Hf.
  unfold NEXUS_CHANNEL_QUEUE_DEPTH, set_side in *. destruct (Bool.eqb_spec sd (negb side)) as [->|]; [|done].
  rewrite u32_small by lia. lia.
Qed.

Lemma recv_wf p h n t : ipc_wf t → ipc_wf (nexus_ipc_recv p h n t).2.
Proof.
  intros W. unfold nexus_ipc_recv. destruct (_ =? 0); [done|].
  destruct (process_get t p) as [i|]; [|done]. destruct (bool_decide _); [done|].
  destruct (find_channel_for_handle t p h) as [c|] eqn:Hc; [|done].
  destruct (find_side (chan t c) p) as [side|] eqn:Hs; [|done]. cbv zeta.
  destruct (Z.eqb_spec (queue_count (chan t c) side) 0); [done|]. cbn [snd]. apply ipc_wf_chan; [done|]. cbn. intros Ha.
  destruct (W c Ha) as [Hok Hne]. split; [|done]. intros sd. cbn. destruct (Hok sd).
  unfold NEXUS_CHANNEL_QUEUE_DEPTH, set_side in *. destruct (Bool.eqb_spec sd side) as [->|]; [|done].
  rewrite !u32_small by lia. pose proof (Z.mod_pos_bound (queue_head (chan t c) side + 1) 8). lia.
Qed.

Lemma close_wf p h t : ipc_wf t → ipc_wf (nexus_ipc_close p h t).2.
Proof.
  intros W. unfold nexus_ipc_close. destruct (process_get t p) as [i|]; [|done]. destruct (_ || _); [done|].
  cbv zeta. destruct (bad_channel_id _); [done|]. destruct (find_side _ p) as [side|]; [|done]. cbn [snd].
  set (c := Z.to_nat (handle_of t i h - 1)). set (t1 := set_handle _ _ _ _).
  assert (ipc_wf t1) as W1 by (eapply ipc_wf_frame; [|by apply (ipc_wf_close t c side)]; done).
  destruct (_ && _); [by apply ipc_wf_deactivate|done].
Qed.

(** One operation on the channels, by whatever process. *)
Inductive ipc_step : ptable → ptable → Prop :=
| is_create t o q : ipc_step t (nexus_ipc_create o q t).2
| is_close t p h : ipc_step t (nexus_ipc_close p h t).2
| is_send t p h d n : ipc_step t (nexus_ipc_send p h d n t).2
| is_recv t p h n : ipc_step t (nexus_ipc_recv p h n t).2
| is_terminate t p : ipc_step t (nexus_ipc_process_terminate p t)
| is_process t t' : g_channels t' = g_channels t → ipc_step t t'.   (* process.c at work *)

Lemma ipc_step_wf t t' : ipc_wf t → ipc_step t t' → ipc_wf t'.
Proof.
  intros W Hst. destruct Hst; [by apply create_ipc_wf|by apply close_wf|by apply send_wf|by apply recv_wf|
    by apply terminate_wf|by eapply ipc_wf_frame].
Qed.

Lemma ipc_init_wf t : (∀ c, (IPC_MAX_CHANNELS ≤ c)%nat → active (chan t c) = false) → ipc_wf (nexus_ipc_init t).
Proof.
  intros Ht c Ha. exfalso. unfold nexus_ipc_init, chan in Ha. cbn -[Nat.ltb IPC_MAX_CHANNELS] in Ha.
  destruct (Nat.ltb_spec c IPC_MAX_CHANNELS); [done|]. specialize (Ht c ltac:(done)). unfold chan in Ht. congruence.
Qed.

(** From [nexus_ipc_init] on, whatever sequence of channel operations and
    process-table changes happens, every active channel joins two distinct
    processes and its message rings are in bounds: no send can write outside
    [queue] and no inbox exceeds eight messages. *)
Theorem ipc_reachable_wf t0 t :
  (∀ c, (IPC_MAX_CHANNELS ≤ c)%nat → active (chan t0 c) = false) → rtc ipc_step (nexus_ipc_init t0) t →
  ∀ c, active (chan t c) = true →
    chan_ok (chan t c) ∧ ch_pid (chan t c) false ≠ ch_pid (chan t c) true ∧
    ∀ side, (length (inbox (chan t c) side) ≤ 8)%nat.
Proof.
  intros Ht Hrun. assert (ipc_wf t) as W.
  { apply ipc_init_wf in Ht. revert Ht. generalize dependent (nexus_ipc_init t0). intros t1 Hrun.
    induction Hrun as [|t1 t2 t3 Hst _ IH]; [done|]. intros W. apply IH. by eapply ipc_step_wf. }
  intros c Ha. destruct (W c Ha) as [Hok Hne]. split_and!; try done. intros side. destruct (Hok side) as [_ Hn].
  unfold inbox. rewrite length_map. unfold NEXUS_CHANNEL_QUEUE_DEPTH in *.
  pose proof (ring_length 8 (queue (chan t c) side) (queue_head (chan t c) side) _ (proj1 Hn)). lia.
Qed.
End Ipc.
