(* ===== verification/Process.v ===== *)
(** * Processes and capabilities
      (src/kernel/core/process/process.c, capability.c)

    Life cycle, user memory, file descriptors, environment and capabilities of
    the processes of ProcTable.v. What process.c calls in the memory subsystem
    and the VFS are the interfaces [MemEnv] and [FileEnv]. *)

From Stdlib Require Import Lia ZArith Bool.
From stdpp Require Import base list gmap numbers functions.
From S2P Require Import Prelude ProcTable Ipc.

Local Open Scope Z_scope.

Module Process.
Import Ipc.

(** ** Capabilities *)

Definition NEXUS_CAP_ALL : Z := 0x7FF.

Definition nexus_capability_valid (capability : Z) : bool :=
  if (capability =? 0) || has_bits capability (capability - 1) then false
  else has_bits capability NEXUS_CAP_ALL.

(** ** The memory subsystem and the files, as process.c uses them *)

Class MemEnv (E : Type) := {
  me_scheduler_ticks : E → Z;
  me_create_address_space : E → Z * E;
  me_destroy_address_space : Z → E → E;
  me_alloc_page : E → Z * E;
  me_free_page : Z → E → E;
  me_map_page_in_cr3 : Z → Z → Z → Z → E → Z * E;   (* cr3, virtual, physical, flags *)
  me_unmap_page_in_cr3 : Z → Z → E → E;
  me_virt_to_phys_in_cr3 : E → Z → Z → Z;
  me_read8 : E → Z → Z;
  me_write8 : Z → Z → E → E;
}.

(** [None] is a negative result. *)
Class FileEnv (E : Type) := {
  fe_file_size_path : E → cstr → option Z;
  fe_read_path : E → cstr → Z → Z → option (list Z);               (* size, offset *)
  fe_write_path : cstr → list Z → Z → Z → E → option Z * E;      (* data, size, offset *)
}.

(** ** Strings *)

(** [local_copy] into a buffer of [cap] bytes; a NULL source is empty. *)
Definition local_copy (src : option cstr) (cap : Z) : cstr := take (Z.to_nat (cap - 1)) (default [] src).
Definition local_eq (a b : option cstr) : bool :=
  match a, b with Some a, Some b => bool_decide (a = b) | _, _ => false end.

Definition VMM_PAGE_PRESENT : Z := 1.
Definition VMM_PAGE_WRITABLE : Z := 2.
Definition VMM_PAGE_USER : Z := 4.
Definition VMM_PAGE_NX : Z := 2 ^ 63.

Definition page_mask (x : Z) : Z := Z.land x (PROC_PAGE_SIZE - 1).

Definition aligned_range (base size : Z) : bool :=
  if (size =? 0) || negb (page_mask base =? 0) || negb (page_mask size =? 0) then false
  else if (base <? PROCESS_USER_BASE) || (base >=? PROCESS_USER_LIMIT) then false
  else negb (size >? u64 (PROCESS_USER_LIMIT - base)).

(** ** Life cycle *)

Definition process_init (t : ptable) : ptable :=
  let clear p := p <| p_state := PROCESS_UNUSED |> in
  t <| g_processes := λ i, if (i <? PROCESS_MAX_COUNT)%nat then clear (g_processes t i) else g_processes t i |>
    <| g_next_pid := 1 |> <| g_current_pid := PROCESS_INVALID_PID |> <| g_process_count := 0 |>
    <| g_zombie_count := 0 |> <| g_proc_ready := true |>.

Definition process_is_ready (t : ptable) : bool := g_proc_ready t.

Definition clear_fd (f : process_fd_t) : process_fd_t :=
  f <| fd_type := PROCESS_FD_UNUSED |> <| fd_flags := 0 |> <| fd_object := 0 |> <| fd_offset := 0 |> <| fd_path := [] |>.
Definition clear_fds (f : Z → process_fd_t) : Z → process_fd_t :=
  λ j, if (0 <=? j) && (j <? PROCESS_MAX_FDS) then clear_fd (f j) else f j.
Definition zero_upto {A} (v : A) (n : Z) (f : Z → A) : Z → A :=
  λ j, if (0 <=? j) && (j <? n) then v else f j.
Definition clear_handles (f : nat → Z) : nat → Z :=
  λ j, if (j <? PROCESS_MAX_CHANNELS)%nat then 0 else f j.

(** The assignments of [process_create] before and after the address space. *)
Definition fresh_head (p parent caps tick : Z) (r : nexus_process_t) : nexus_process_t :=
  r <| pid := p |> <| parent_pid := parent |> <| capabilities := caps |> <| start_tick := tick |>
    <| cpu_ticks := 0 |> <| heap_base := 0x10000000 |> <| heap_end := 0x10000000 |>
    <| memory_limit_bytes := 0 |> <| priority := 16 |> <| env_count := 0 |> <| p_name := [] |>
    <| p_cwd := [47] |>.
Definition fresh_tail (r : nexus_process_t) : nexus_process_t :=
  r <| user_entry := 0 |> <| user_stack_base := 0 |> <| user_stack_size := 0 |> <| user_pages_reserved := 0 |>
    <| user_page_base := 0 |> <| user_page_count := 0 |>
    <| user_page_phys ::= zero_upto 0 PROCESS_USER_MAX_PAGES |>
    <| user_page_va ::= zero_upto 0 PROCESS_USER_MAX_PAGES |>
    <| user_page_flags ::= zero_upto 0 PROCESS_USER_MAX_PAGES |>
    <| kernel_stack := 0 |> <| scheduler_thread_id := 0 |> <| ipc_handles ::= clear_handles |>
    <| fds ::= λ f,
         let f := clear_fds f in
         let f := upd f 0 ((f 0) <| fd_type := PROCESS_FD_STDIN_CONSOLE |>) in
         let f := upd f 1 ((f 1) <| fd_type := PROCESS_FD_STDOUT_CONSOLE |>) in
         upd f 2 ((f 2) <| fd_type := PROCESS_FD_STDERR_CONSOLE |>) |>
    <| exit_code := 0 |> <| exit_reason := 0 |> <| p_flags := 0 |> <| p_state := PROCESS_READY |>.

Section life_cycle.
Context {E : Type} `{MemEnv E}.
Implicit Types (t : ptable) (e : E).

Definition process_create (parent : Z) t e : Z * ptable * E :=
  if negb (g_proc_ready t) then (PROCESS_INVALID_PID, t, e)
  else
    match first_index (λ i, bool_decide (p_state (proc t i) = PROCESS_UNUSED)) 0 PROCESS_MAX_COUNT with
    | None => (PROCESS_INVALID_PID, t, e)
    | Some i =>
       let p := g_next_pid t in
       let t := t <| g_next_pid := u64 (p + 1) |> in
       let '(p, t) := if p =? PROCESS_INVALID_PID
                      then (g_next_pid t, t <| g_next_pid := u64 (g_next_pid t + 1) |>) else (p, t) in
       let caps := match process_get t parent with
                   | Some j => capabilities (proc t j) | None => NEXUS_CAP_ALL end in
       let t := set_proc i (fresh_head p parent caps (me_scheduler_ticks e)) t in
       let '(cr3, e) := me_create_address_space e in
       let t := set_proc i (λ r, r <| address_space_cr3 := cr3 |>) t in
       if cr3 =? 0 then (PROCESS_INVALID_PID, set_proc i (λ r, r <| p_state := PROCESS_UNUSED |>) t, e)
       else
         let t := set_proc i fresh_tail t in
         (pid (proc t i), t <| g_process_count := u64 (g_process_count t + 1) |>, e)
    end.

Definition process_set_current (p : Z) t : bool * ptable :=
  match process_get t p with
  | None => (false, t)
  | Some nxt =>
     if negb (bool_decide (p_state (proc t nxt) = PROCESS_READY)) &&
        negb (bool_decide (p_state (proc t nxt) = PROCESS_RUNNING)) then (false, t)
     else
       let t := match process_get t (g_current_pid t) with
                | Some old =>
                   if negb (old =? nxt)%nat && bool_decide (p_state (proc t old) = PROCESS_RUNNING)
                   then set_proc old (λ r, r <| p_state := PROCESS_READY |>) t else t
                | None => t
                end in
       let t := set_proc nxt (λ r, r <| p_state := PROCESS_RUNNING |>) t in
       (true, t <| g_current_pid := p |>)
  end.

Definition process_current t : option nat := process_get t (g_current_pid t).

Definition process_clear_current t : ptable :=
  let t := match process_get t (g_current_pid t) with
           | Some old => if bool_decide (p_state (proc t old) = PROCESS_RUNNING)
                         then set_proc old (λ r, r <| p_state := PROCESS_READY |>) t else t
           | None => t
           end in
  t <| g_current_pid := PROCESS_INVALID_PID |>.

Definition process_exit_with_code (p code reason : Z) t : bool * ptable :=
  match process_get t p with
  | None => (false, t)
  | Some i =>
     if bool_decide (p_state (proc t i) = PROCESS_UNUSED) || bool_decide (p_state (proc t i) = PROCESS_ZOMBIE)
     then (false, t)
     else
       let t := nexus_ipc_process_terminate p t in
       let t := set_proc i (λ r, r <| exit_code := code |> <| exit_reason := reason |>
                                   <| p_state := PROCESS_ZOMBIE |>) t in
       let t := if negb (g_process_count t =? 0)
                then t <| g_process_count := g_process_count t - 1 |> else t in
       (true, t <| g_zombie_count := u64 (g_zombie_count t + 1) |>)
  end.

Definition process_exit (p : Z) t : bool * ptable := process_exit_with_code p 0 0 t.

(** ** User memory *)

(** One iteration of the loop of [process_unmap_user_memory]. *)
Definition unmap_slot (i : nat) (te : ptable * E) (k : Z) : ptable * E :=
  let '(t, e) := te in
  let r := proc t i in
  let va := user_page_va r k in
  let phys := user_page_phys r k in
  let e := if negb (address_space_cr3 r =? 0) && negb (va =? 0)
           then me_unmap_page_in_cr3 (address_space_cr3 r) va e else e in
  let e := if negb (phys =? 0) then me_free_page phys e else e in
  (set_proc i (λ r, r <| user_page_va := upd (user_page_va r) k 0 |>
                      <| user_page_phys := upd (user_page_phys r) k 0 |>
                      <| user_page_flags := upd (user_page_flags r) k 0 |>) t, e).

Definition process_unmap_user_memory (p : Z) t e : bool * ptable * E :=
  match process_get t p with
  | None => (false, t, e)
  | Some i =>
     let '(t, e) := foldl (unmap_slot i) (t, e) (seqZ 0 (user_page_count (proc t i))) in
     let t := set_proc i (λ r, r <| user_page_base := 0 |> <| user_page_count := 0 |>
                                 <| user_pages_reserved := 0 |>
                                 <| p_flags := Z.land (p_flags r) (Z.lnot PROCESS_FLAG_USER_MEMORY) |>) t in
     (true, t, e)
  end.

Definition process_ipc_reset_handles (p : Z) t : ptable :=
  match process_get t p with
  | None => t
  | Some i => set_proc i (λ r, r <| ipc_handles ::= clear_handles |>) t
  end.

Definition reaped (r : nexus_process_t) : nexus_process_t :=
  r <| kernel_stack := 0 |> <| scheduler_thread_id := 0 |> <| fds ::= clear_fds |>
    <| user_entry := 0 |> <| user_stack_base := 0 |> <| user_stack_size := 0 |> <| exit_code := 0 |>
    <| exit_reason := 0 |> <| parent_pid := 0 |> <| start_tick := 0 |> <| cpu_ticks := 0 |>
    <| heap_base := 0 |> <| heap_end := 0 |> <| memory_limit_bytes := 0 |> <| priority := 0 |>
    <| env_count := 0 |> <| p_name := [] |> <| p_cwd := [] |> <| pid := PROCESS_INVALID_PID |>
    <| p_flags := 0 |> <| p_state := PROCESS_UNUSED |>.

Definition process_reap (p thread : Z) t e : bool * ptable * E :=
  if p =? PROCESS_INVALID_PID then (false, t, e)
  else
    match process_get t p with
    | None => (false, t, e)
    | Some i =>
       let r := proc t i in
       if negb (bool_decide (p_state r = PROCESS_ZOMBIE)) ||
          (negb (thread =? 0) && negb (scheduler_thread_id r =? thread)) ||
          ((thread =? 0) && negb (scheduler_thread_id r =? 0)) then (false, t, e)
       else
         let '(_, t, e) := process_unmap_user_memory p t e in
         let cr3 := address_space_cr3 (proc t i) in
         let t := set_proc i (λ r, r <| address_space_cr3 := 0 |>) t in
         let e := if negb (cr3 =? 0) then me_destroy_address_space cr3 e else e in
         let t := process_ipc_reset_handles p t in
         let t := set_proc i reaped t in
         let t := if negb (g_zombie_count t =? 0)
                  then t <| g_zombie_count := g_zombie_count t - 1 |> else t in
         (true, t, e)
    end.

Definition process_count t : Z := g_process_count t.
Definition process_zombie_count t : Z := g_zombie_count t.

Definition process_reserve_user_range (p base size : Z) t : bool * ptable :=
  if negb (aligned_range base size) then (false, t)
  else
    match process_get t p with
    | None => (false, t)
    | Some i =>
       if bool_decide (p_state (proc t i) = PROCESS_ZOMBIE) || negb (user_pages_reserved (proc t i) =? 0)
       then (false, t)
       else (true, set_proc i (λ r, r <| user_stack_base := base |> <| user_stack_size := size |>
                                      <| user_pages_reserved := size / PROC_PAGE_SIZE |>) t)
    end.

(** The page initialisation loop, byte by byte. *)
Definition zero_page (phys : Z) e : E := foldl (λ e k, me_write8 (phys + k) 0 e) e (seqZ 0 PROC_PAGE_SIZE).

Definition process_map_user_page (p va flags : Z) t e : bool * ptable * E :=
  if negb (g_proc_ready t) || negb (page_mask va =? 0) || (va <? PROCESS_USER_BASE) || (va >=? PROCESS_USER_LIMIT)
  then (false, t, e)
  else
    match process_get t p with
    | None => (false, t, e)
    | Some i =>
       let r := proc t i in
       if bool_decide (p_state r = PROCESS_ZOMBIE) || (user_page_count r >=? PROCESS_USER_MAX_PAGES) then (false, t, e)
       else if existsb (λ k, user_page_va r k =? va) (seqZ 0 (user_page_count r)) then (false, t, e)
       else
         let '(phys, e) := me_alloc_page e in
         if phys =? 0 then (false, t, e)
         else
           let '(rc, e) := me_map_page_in_cr3 (address_space_cr3 r) va phys
                             (Z.lor (Z.lor VMM_PAGE_PRESENT VMM_PAGE_USER) flags) e in
           if rc =? 0 then (false, t, me_free_page phys e)
           else
             let e := zero_page phys e in
             let slot := user_page_count r in
             let t := set_proc i (λ r, r <| user_page_count := u64 (slot + 1) |>
                        <| user_page_va := upd (user_page_va r) slot va |>
                        <| user_page_phys := upd (user_page_phys r) slot phys |>
                        <| user_page_flags := upd (user_page_flags r) slot flags |>
                        <| p_flags := Z.lor (p_flags r) PROCESS_FLAG_USER_MEMORY |>) t in
             (true, t, e)
    end.

(** The page loop of [process_map_user_memory]: stops at the first failure. *)
Fixpoint map_pages_loop (fuel : nat) (p base flags i : Z) t e : bool * Z * ptable * E :=
  match fuel with
  | O => (true, i, t, e)
  | S fuel =>
     let '(ok, t, e) := process_map_user_page p (u64 (base + i * PROC_PAGE_SIZE)) flags t e in
     if ok : bool then map_pages_loop fuel p base flags (i + 1) t e else (false, i, t, e)
  end.

Definition process_map_user_memory (p base pages : Z) t e : bool * ptable * E :=
  if (pages =? 0) || (pages >? PROCESS_USER_MAX_PAGES) ||
     (pages >? u64 (PROCESS_USER_LIMIT - base) / PROC_PAGE_SIZE) || negb (page_mask base =? 0)
  then (false, t, e)
  else
    match process_get t p with
    | None => (false, t, e)
    | Some i =>
       if bool_decide (p_state (proc t i) = PROCESS_ZOMBIE) || negb (user_page_count (proc t i) =? 0)
       then (false, t, e)
       else
         let '(ok, _, t, e) := map_pages_loop (Z.to_nat pages) p base VMM_PAGE_WRITABLE 0 t e in
         if ok : bool then
           (true, set_proc i (λ r, r <| user_page_base := base |> <| user_pages_reserved := pages |>) t, e)
         else
           let '(_, t, e) := process_unmap_user_memory p t e in (false, t, e)
    end.

(** The page-wise loop shared by the user-memory accessors:
    [body off va chunk] handles the bytes [off, off + chunk). A [false] is
    the early [return 0]. An iteration ends a page, so a range of [size]
    bytes needs at most [size / 4096 + 2] of them. *)
Fixpoint chunk_loop {A} (fuel : nat) (body : Z → Z → Z → A → bool * A) (va size off : Z) (st : A) : bool * A :=
  if off <? size then
    match fuel with
    | O => (false, st)
    | S fuel =>
       let v := u64 (va + off) in
       let chunk := PROC_PAGE_SIZE - page_mask v in
       let chunk := if chunk >? size - off then size - off else chunk in
       match body off v chunk st with
       | (false, st) => (false, st)
       | (true, st) => chunk_loop fuel body va size (off + chunk) st
       end
    end
  else (true, st).

Definition chunk_fuel (size : Z) : nat := Z.to_nat (size / PROC_PAGE_SIZE + 2).

(** [(phys & ~0xFFF) + (va & 0xFFF)] *)
Definition byte_addr (phys v : Z) : Z := Z.land phys (not64 (PROC_PAGE_SIZE - 1)) + page_mask v.

Definition write_chunk (cr3 : Z) (src : Z → Z) (off v chunk : Z) (e : E) : bool * E :=
  let phys := me_virt_to_phys_in_cr3 e cr3 v in
  if phys =? 0 then (false, e)
  else (true, foldl (λ e k, me_write8 (byte_addr phys v + k) (src (off + k)) e) e (seqZ 0 chunk)).

Definition read_chunk (cr3 : Z) (e : E) (off v chunk : Z) (out : list Z) : bool * list Z :=
  let phys := me_virt_to_phys_in_cr3 e cr3 v in
  if phys =? 0 then (false, out)
  else (true, out ++ map (λ k, me_read8 e (byte_addr phys v + k)) (seqZ 0 chunk)).

Definition bad_user_range (va size : Z) : bool :=
  (size =? 0) || (va <? PROCESS_USER_BASE) || (size >? u64 (PROCESS_USER_LIMIT - va)).

(** [src = None] is NULL. *)
Definition process_user_copy (p va : Z) (src : option (Z → Z)) (size : Z) t e : bool * E :=
  match process_get t p, src with
  | Some i, Some src =>
     if bad_user_range va size then (false, e)
     else chunk_loop (chunk_fuel size) (write_chunk (address_space_cr3 (proc t i)) src) va size 0 e
  | _, _ => (false, e)
  end.

(** The entry of [user_page_va] that holds [page]. *)
Definition user_page_index (r : nexus_process_t) (page : Z) : option nat :=
  first_index (λ k, user_page_va r (Z.of_nat k) =? page) 0 (Z.to_nat (user_page_count r)).

(** One iteration of [process_user_range_valid]. *)
Definition page_allowed (r : nexus_process_t) (required v : Z) : bool :=
  match user_page_index r (Z.land v (not64 (PROC_PAGE_SIZE - 1))) with
  | None => false
  | Some k =>
     let fl := user_page_flags r (Z.of_nat k) in
     if has_bits required VMM_PAGE_WRITABLE && negb (has_bits fl VMM_PAGE_WRITABLE) then false
     else if has_bits required VMM_PAGE_NX && negb (has_bits fl VMM_PAGE_NX) then false
     else negb (negb (has_bits required VMM_PAGE_NX) && has_bits fl VMM_PAGE_NX)
  end.

Definition process_user_range_valid (p va size required : Z) t : bool :=
  match process_get t p with
  | None => false
  | Some i =>
     if bool_decide (p_state (proc t i) = PROCESS_ZOMBIE) || bad_user_range va size then false
     else (chunk_loop (chunk_fuel size) (λ _ v _ u, (page_allowed (proc t i) required v, u)) va size 0 tt).1
  end.

(** The result and the bytes written to [dst]. *)
Definition process_user_read (p va size : Z) t e : bool * list Z :=
  match process_get t p with
  | None => (false, [])
  | Some i =>
     if bool_decide (p_state (proc t i) = PROCESS_ZOMBIE) || bad_user_range va size ||
        negb (process_user_range_valid p va size 0 t) then (false, [])
     else chunk_loop (chunk_fuel size) (read_chunk (address_space_cr3 (proc t i)) e) va size 0 []
  end.

Definition process_user_write (p va : Z) (src : option (Z → Z)) (size : Z) t e : bool * E :=
  match process_get t p, src with
  | Some i, Some src =>
     if bool_decide (p_state (proc t i) = PROCESS_ZOMBIE) || bad_user_range va size ||
        negb (process_user_range_valid p va size VMM_PAGE_WRITABLE t) then (false, e)
     else chunk_loop (chunk_fuel size) (write_chunk (address_space_cr3 (proc t i)) src) va size 0 e
  | _, _ => (false, e)
  end.

Definition process_user_zero (p va size : Z) t e : bool * E :=
  match process_get t p with
  | Some i =>
     if bad_user_range va size then (false, e)
     else chunk_loop (chunk_fuel size) (write_chunk (address_space_cr3 (proc t i)) (λ _, 0)) va size 0 e
  | None => (false, e)
  end.

(** [process_unmap_user_range]: a hit moves the last entry into the hole and
    looks at the same index again. *)
Fixpoint unmap_range_loop (fuel : nat) (i : nat) (base en k : Z) t e : ptable * E :=
  match fuel with
  | O => (t, e)
  | S fuel =>
     let r := proc t i in
     if k <? user_page_count r then
       let va := user_page_va r k in
       if (va >=? base) && (va <? en) then
         let phys := user_page_phys r k in
         let e := if negb (address_space_cr3 r =? 0) then me_unmap_page_in_cr3 (address_space_cr3 r) va e else e in
         let e := if negb (phys =? 0) then me_free_page phys e else e in
         let t := set_proc i (λ r,
           let last := user_page_count r - 1 in
           r <| user_page_va := upd (user_page_va r) k (user_page_va r last) |>
             <| user_page_phys := upd (user_page_phys r) k (user_page_phys r last) |>
             <| user_page_flags := upd (user_page_flags r) k (user_page_flags r last) |>
             <| user_page_count := user_page_count r - 1 |>) t in
         unmap_range_loop fuel i base en k t e
       else unmap_range_loop fuel i base en (k + 1) t e
     else (t, e)
  end.

Definition process_unmap_user_range (p base size : Z) t e : bool * ptable * E :=
  match process_get t p with
  | None => (false, t, e)
  | Some i =>
     if (size =? 0) || negb (page_mask base =? 0) || negb (page_mask size =? 0) then (false, t, e)
     else
       let en := u64 (base + size) in
       if en <? base then (false, t, e)
       else
         let '(t, e) := unmap_range_loop (Z.to_nat (user_page_count (proc t i)) + 1) i base en 0 t e in
         (true, t, e)
  end.

Definition process_alloc_user_range (p pages flags : Z) t e : Z * ptable * E :=
  match process_get t p with
  | None => (0, t, e)
  | Some i =>
     let r := proc t i in
     if bool_decide (p_state r = PROCESS_ZOMBIE) || (pages =? 0) then (0, t, e)
     else if u64 (user_page_count r + pages) >? PROCESS_USER_MAX_PAGES then (0, t, e)
     else
       let base := heap_end r in
       let base := if (base <? PROCESS_USER_BASE) || (base >=? PROCESS_USER_LIMIT) then 0x10000000 else base in
       let bytes := u64 (pages * PROC_PAGE_SIZE) in
       if negb (bytes / pages =? PROC_PAGE_SIZE) || (base >? u64 (PROCESS_USER_LIMIT - bytes)) then (0, t, e)
       else
         let '(ok, k, t, e) := map_pages_loop (Z.to_nat pages) p base flags 0 t e in
         if ok : bool then (base, set_proc i (λ r, r <| heap_end := u64 (base + bytes) |>) t, e)
         else let '(_, t, e) := process_unmap_user_range p base (u64 (k * PROC_PAGE_SIZE)) t e in (0, t, e)
  end.
End life_cycle.

(** ** File descriptors *)

Section files.
Context {E : Type} `{FileEnv E}.
Implicit Types (t : ptable) (e : E).

Definition fd_of t (i : nat) (fd : Z) : process_fd_t := fds (proc t i) fd.
Definition set_fd (i : nat) (fd : Z) (f : process_fd_t → process_fd_t) t : ptable :=
  set_proc i (λ r, r <| fds := upd (fds r) fd (f (fds r fd)) |>) t.

Definition process_fd_is_valid (p fd : Z) t : bool :=
  match process_get t p with
  | None => false
  | Some i =>
     if bool_decide (p_state (proc t i) = PROCESS_ZOMBIE) || (fd >=? PROCESS_MAX_FDS) then false
     else negb (bool_decide (fd_type (fd_of t i fd) = PROCESS_FD_UNUSED))
  end.

Definition process_fd_is_writable (p fd : Z) t : bool :=
  match process_get t p with
  | None => false
  | Some i =>
     if bool_decide (p_state (proc t i) = PROCESS_ZOMBIE) || (fd >=? PROCESS_MAX_FDS) then false
     else bool_decide (fd_type (fd_of t i fd) = PROCESS_FD_STDOUT_CONSOLE) ||
          bool_decide (fd_type (fd_of t i fd) = PROCESS_FD_STDERR_CONSOLE)
  end.

Definition process_fd_close (p fd : Z) t : bool * ptable :=
  match process_get t p with
  | None => (false, t)
  | Some i =>
     if bool_decide (p_state (proc t i) = PROCESS_ZOMBIE) || (fd >=? PROCESS_MAX_FDS) ||
        bool_decide (fd_type (fd_of t i fd) = PROCESS_FD_UNUSED) then (false, t)
     else (true, set_fd i fd clear_fd t)
  end.

(** The file of [process_fd_open]: its size when it exists, created
    (flag 4) and truncated (flag 8) as asked; [None] is the failure. *)
Definition open_file (path : cstr) (flags : Z) e : option Z * E :=
  let size := fe_file_size_path e path in
  let '(ok, e) :=
    match size with
    | Some _ => (true, e)
    | None => if negb (has_bits flags 4) then (false, e)
              else match fe_write_path path [0] 0 0 e with (Some _, e) => (true, e) | (None, e) => (false, e) end
    end in
  if negb ok then (None, e)
  else if has_bits flags 8 then
    match fe_write_path path [0] 0 0 e with (Some _, e) => (Some 0, e) | (None, e) => (None, e) end
  else (Some (default 0 size), e).

(** The new descriptor, -1 on failure. *)
Definition process_fd_open (p : Z) (path : option cstr) (flags : Z) t e : Z * ptable * E :=
  match process_get t p, path with
  | Some i, Some path =>
     if bool_decide (p_state (proc t i) = PROCESS_ZOMBIE) || bool_decide (path = []) then (-1, t, e)
     else
       match first_index (λ k, bool_decide (fd_type (fd_of t i (Z.of_nat k)) = PROCESS_FD_UNUSED)) 0
               (Z.to_nat PROCESS_MAX_FDS) with
       | None => (-1, t, e)
       | Some k =>
          match open_file path flags e with
          | (None, e) => (-1, t, e)
          | (Some size, e) =>
             let t := set_fd i (Z.of_nat k) (λ f,
               f <| fd_type := PROCESS_FD_VFS_FILE |> <| fd_flags := flags |> <| fd_object := 0 |>
                 <| fd_offset := if has_bits flags 16 then size else 0 |>
                 <| fd_path := local_copy (Some path) PROCESS_FD_PATH_LEN |>) t in
             (Z.of_nat k, t, e)
          end
       end
  | _, _ => (-1, t, e)
  end.

(** The file of a valid descriptor. *)
Definition vfs_fd (p fd : Z) t : option nat :=
  match process_get t p with
  | None => None
  | Some i => if (fd >=? PROCESS_MAX_FDS) || negb (bool_decide (fd_type (fd_of t i fd) = PROCESS_FD_VFS_FILE))
              then None else Some i
  end.

(** Result, bytes read. *)
Definition process_fd_read (p fd size : Z) t e : Z * list Z * ptable :=
  match vfs_fd p fd t with
  | None => (-1, [], t)
  | Some i =>
     if size =? 0 then (-1, [], t)
     else
       let f := fd_of t i fd in
       match fe_read_path e (fd_path f) size (fd_offset f) with
       | None => (-1, [], t)
       | Some bytes =>
          let n := Z.of_nat (length bytes) in
          (i32 n, bytes, set_fd i fd (λ f, f <| fd_offset := u64 (fd_offset f + n) |>) t)
       end
  end.

Definition process_fd_write (p fd : Z) (data : option (list Z)) (size : Z) t e : Z * ptable * E :=
  match vfs_fd p fd t, data with
  | Some i, Some data =>
     let f := fd_of t i fd in
     if negb (has_bits (fd_flags f) 2) then (-1, t, e)
     else
       match fe_write_path (fd_path f) data size (fd_offset f) e with
       | (None, e) => (-1, t, e)
       | (Some n, e) => (i32 n, set_fd i fd (λ f, f <| fd_offset := u64 (fd_offset f + n) |>) t, e)
       end
  | _, _ => (-1, t, e)
  end.

(** [Some pos]: result 1 with [*out = pos]. *)
Definition process_fd_seek (p fd off whence : Z) t e : option Z * ptable :=
  match vfs_fd p fd t with
  | None => (None, t)
  | Some i =>
     let f := fd_of t i fd in
     match fe_file_size_path e (fd_path f) with
     | None => (None, t)
     | Some size =>
        let base := if whence =? 0 then 0 else if whence =? 1 then i64 (fd_offset f) else i64 size in
        let pos := i64 (base + off) in
        if pos <? 0 then (None, t)
        else (Some pos, set_fd i fd (λ f, f <| fd_offset := pos |>) t)
     end
  end.

Definition process_fd_tell (p fd : Z) t : option Z :=
  match vfs_fd p fd t with None => None | Some i => Some (fd_offset (fd_of t i fd)) end.
End files.

(** ** Names, priorities, capabilities, environment *)

Section metadata.
Implicit Types (t : ptable).

Definition live_index (p : Z) t : option nat :=
  match process_get t p with
  | Some i => if bool_decide (p_state (proc t i) = PROCESS_ZOMBIE) then None else Some i
  | None => None
  end.

Definition process_set_name (p : Z) (name : option cstr) t : bool * ptable :=
  match live_index p t, name with
  | Some i, Some name =>
     if bool_decide (name = []) then (false, t)
     else (true, set_proc i (λ r, r <| p_name := local_copy (Some name) PROCESS_NAME_LEN |>) t)
  | _, _ => (false, t)
  end.

Definition process_get_name (p size : Z) t : option cstr :=
  match process_get t p with
  | None => None
  | Some i => if size =? 0 then None else Some (local_copy (Some (p_name (proc t i))) size)
  end.

Definition process_has_capability (p capability : Z) t : bool :=
  match process_get t p with
  | None => false
  | Some i => nexus_capability_valid capability &&
              (Z.land (capabilities (proc t i)) capability =? capability)
  end.

Definition process_get_capabilities (p : Z) t : Z :=
  match process_get t p with Some i => capabilities (proc t i) | None => 0 end.

Definition process_drop_capability (p capability : Z) t : bool * ptable :=
  match process_get t p with
  | None => (false, t)
  | Some i => if negb (nexus_capability_valid capability) then (false, t)
              else (true, set_proc i (λ r, r <| capabilities := Z.land (capabilities r) (not64 capability) |>) t)
  end.

Definition process_grant_capability (p capability : Z) t : bool * ptable :=
  match process_get t p with
  | None => (false, t)
  | Some i => if negb (nexus_capability_valid capability) then (false, t)
              else (true, set_proc i (λ r, r <| capabilities := Z.lor (capabilities r) capability |>) t)
  end.

Definition process_set_priority (p prio : Z) t : bool * ptable :=
  match live_index p t with
  | None => (false, t)
  | Some i => if prio >? 31 then (false, t) else (true, set_proc i (λ r, r <| priority := prio |>) t)
  end.

Definition process_get_priority (p : Z) t : Z :=
  match process_get t p with Some i => priority (proc t i) | None => 0 end.

(** The index of [key] among the used environment entries. *)
Definition env_index (r : nexus_process_t) (key : cstr) : option nat :=
  first_index (λ k, local_eq (Some (p_env r (Z.of_nat k)).1) (Some key)) 0 (Z.to_nat (env_count r)).

Definition process_set_env (p : Z) (key value : option cstr) t : bool * ptable :=
  match live_index p t, key with
  | Some i, Some key =>
     if bool_decide (key = []) then (false, t)
     else
       let r := proc t i in
       let v := local_copy value PROCESS_ENV_VALUE_LEN in
       match env_index r key with
       | Some k => (true, set_proc i (λ r, r <| p_env := upd (p_env r) (Z.of_nat k) ((p_env r (Z.of_nat k)).1, v) |>) t)
       | None =>
          if env_count r >=? PROCESS_ENV_COUNT then (false, t)
          else (true, set_proc i (λ r,
                  r <| p_env := upd (p_env r) (env_count r) (local_copy (Some key) PROCESS_ENV_KEY_LEN, v) |>
                    <| env_count := u32 (env_count r + 1) |>) t)
       end
  | _, _ => (false, t)
  end.

(** The shift [env[j-1] = env[j]] for [j] from [k + 1] below [n]. *)
Definition env_shift (f : Z → cstr * cstr) (k n : Z) : Z → cstr * cstr :=
  λ j, if (k <=? j) && (j <? n - 1) then f (j + 1) else f j.

Definition process_unset_env (p : Z) (key : option cstr) t : bool * ptable :=
  match process_get t p, key with
  | Some i, Some key =>
     match env_index (proc t i) key with
     | Some k => (true, set_proc i (λ r, r <| p_env := env_shift (p_env r) (Z.of_nat k) (env_count r) |>
                                            <| env_count := env_count r - 1 |>) t)
     | None => (false, t)
     end
  | _, _ => (false, t)
  end.

(** Result and the string written to [out]; [None] when nothing is written. *)
Definition process_get_env (p : Z) (key : option cstr) (size : Z) t : bool * option cstr :=
  match process_get t p, key with
  | Some i, Some key =>
     if size =? 0 then (false, None)
     else
       match env_index (proc t i) key with
       | Some k => (true, Some (local_copy (Some (p_env (proc t i) (Z.of_nat k)).2) size))
       | None => (false, Some [])
       end
  | _, _ => (false, None)
  end.

Definition process_get_cwd (p size : Z) t : option cstr :=
  match process_get t p with
  | None => None
  | Some i => if size =? 0 then None else Some (local_copy (Some (p_cwd (proc t i))) size)
  end.

Definition process_set_cwd (p : Z) (cwd : option cstr) t : bool * ptable :=
  match live_index p t, cwd with
  | Some i, Some (47 :: rest) =>
     (true, set_proc i (λ r, r <| p_cwd := local_copy (Some (47 :: rest)) PROCESS_CWD_LEN |>) t)
  | _, _ => (false, t)
  end.

Definition process_account_cpu_tick (p : Z) t : ptable :=
  match process_get t p with
  | Some i => if bool_decide (p_state (proc t i) = PROCESS_RUNNING)
              then set_proc i (λ r, r <| cpu_ticks := u64 (cpu_ticks r + 1) |>) t else t
  | None => t
  end.

Definition process_cpu_ticks (p : Z) t : Z :=
  match process_get t p with Some i => cpu_ticks (proc t i) | None => 0 end.
Definition process_start_tick (p : Z) t : Z :=
  match process_get t p with Some i => start_tick (proc t i) | None => 0 end.
End metadata.
End Process.
