(* ===== verification/ProcessSpec.v ===== *)
(** * What the process table guarantees

    The invariant of the process table (unique ids, exact counters, one
    running process) along every sequence of operations of process.c and
    ipc.c, the checks of user ranges, capabilities and the environment. *)

From Stdlib Require Import Lia ZArith Bool.
From stdpp Require Import base list gmap numbers functions.
From S2P Require Import Prelude ProcTable Ipc Process.

Local Open Scope Z_scope.

Module ProcessSpec.
Import Ipc Process.
#[local] Opaque zero_page.
Implicit Types (t : ptable).

(** ** The invariant *)

Definition alive t (i : nat) : Prop :=
  p_state (proc t i) = PROCESS_READY ∨ p_state (proc t i) = PROCESS_RUNNING.
Definition zombie t (i : nat) : Prop := p_state (proc t i) = PROCESS_ZOMBIE.
#[export] Instance alive_dec t i : Decision (alive t i).
Proof. unfold alive. apply _. Defined.
#[export] Instance zombie_dec t i : Decision (zombie t i).
Proof. unfold zombie. apply _. Defined.

Definition slots : list nat := seq 0 PROCESS_MAX_COUNT.
Definition n_alive t : Z := Z.of_nat (length (filter (alive t) slots)).
Definition n_zombie t : Z := Z.of_nat (length (filter (zombie t) slots)).

Record pwf t : Prop := {
  pw_ready : g_proc_ready t = true;
  pw_pids : pids_unique t;
  pw_next : 0 < g_next_pid t < 2 ^ 64;
  pw_range : ∀ i, used t i → 0 < pid (proc t i) < g_next_pid t;
  pw_run : ∀ i, used t i → p_state (proc t i) = PROCESS_RUNNING → pid (proc t i) = g_current_pid t;
  pw_count : g_process_count t = n_alive t;
  pw_zombies : g_zombie_count t = n_zombie t;
  pw_pages : ∀ i, used t i → 0 ≤ user_page_count (proc t i) ≤ PROCESS_USER_MAX_PAGES;
  pw_env : ∀ i, used t i → 0 ≤ env_count (proc t i) ≤ PROCESS_ENV_COUNT;
}.

(** The fields the invariant reads, but the page and environment counts. *)
Definition same_core t t' : Prop :=
  (∀ i, p_state (proc t' i) = p_state (proc t i) ∧ pid (proc t' i) = pid (proc t i)) ∧
  g_next_pid t' = g_next_pid t ∧ g_current_pid t' = g_current_pid t ∧
  g_process_count t' = g_process_count t ∧ g_zombie_count t' = g_zombie_count t ∧
  g_proc_ready t' = g_proc_ready t.

Lemma same_core_refl t : same_core t t.
Proof. done. Qed.
Lemma same_core_trans t1 t2 t3 : same_core t1 t2 → same_core t2 t3 → same_core t1 t3.
Proof.
  intros (A1 & A2 & A3 & A4 & A5 & A6) (B1 & B2 & B3 & B4 & B5 & B6). split; [|split_and!; congruence].
  intros i. destruct (A1 i), (B1 i). split; congruence.
Qed.

Lemma same_core_used t t' i : same_core t t' → used t' i ↔ used t i.
Proof. intros [Hs _]. unfold used. by destruct (Hs i) as [-> _]. Qed.

Lemma same_core_get t t' p : same_core t t' → process_get t' p = process_get t p.
Proof.
  intros (Hs & _ & _ & _ & _ & Hr). unfold process_get. rewrite Hr. destruct (_ || _); [done|].
  apply first_index_ext. intros j _. by destruct (Hs j) as [-> ->].
Qed.

Lemma pwf_same t t' :
  pwf t → same_core t t' →
  (∀ i, used t i → 0 ≤ user_page_count (proc t' i) ≤ PROCESS_USER_MAX_PAGES) →
  (∀ i, used t i → 0 ≤ env_count (proc t' i) ≤ PROCESS_ENV_COUNT) → pwf t'.
Proof.
  intros [W1 W2 W3 W4 W5 W6 W7 W8 W9] Hc Hp He. pose proof (λ i, same_core_used t t' i Hc) as Hu.
  destruct Hc as (Hs & E1 & E2 & E3 & E4 & E5).
  split; rewrite ?E1, ?E2, ?E3, ?E4, ?E5; try done.
  - intros i j Hi%Hu Hj%Hu. destruct (Hs i) as [_ ->], (Hs j) as [_ ->]. by apply W2.
  - intros i Hi%Hu. destruct (Hs i) as [_ ->]. by apply W4.
  - intros i Hi%Hu. destruct (Hs i) as [-> ->]. by apply W5.
  - rewrite W6. unfold n_alive. do 2 f_equal. apply filter_ext_on. intros i _. unfold alive. by destruct (Hs i) as [-> _].
  - rewrite W7. unfold n_zombie. do 2 f_equal. apply filter_ext_on. intros i _. unfold zombie. by destruct (Hs i) as [-> _].
  - intros i Hi%Hu. by apply Hp.
  - intros i Hi%Hu. by apply He.
Qed.

(** An update of one process outside the fields of the invariant. *)
Definition quiet (f : nexus_process_t → nexus_process_t) : Prop := ∀ r,
  p_state (f r) = p_state r ∧ pid (f r) = pid r ∧ user_page_count (f r) = user_page_count r ∧
  env_count (f r) = env_count r.

Lemma set_proc_core t i f :
  (∀ r, p_state (f r) = p_state r ∧ pid (f r) = pid r) → same_core t (set_proc i f t).
Proof.
  intros Hf. split; [|done]. intros j. destruct (decide (i = j)) as [<-|]; [|by rewrite proc_set_ne].
  rewrite proc_set_eq. by destruct (Hf (proc t i)).
Qed.

Lemma pwf_quiet t i f : pwf t → quiet f → pwf (set_proc i f t).
Proof.
  intros W Hf. apply (pwf_same t); [done| | |].
  - apply set_proc_core. intros r. by destruct (Hf r) as (? & ? & _).
  - intros j Hj. destruct (decide (i = j)) as [<-|]; [|rewrite proc_set_ne by done; by apply W].
    rewrite proc_set_eq. destruct (Hf (proc t i)) as (_ & _ & -> & _). by apply W.
  - intros j Hj. destruct (decide (i = j)) as [<-|]; [|rewrite proc_set_ne by done; by apply W].
    rewrite proc_set_eq. destruct (Hf (proc t i)) as (_ & _ & _ & ->). by apply W.
Qed.

(** The channels are not part of it. *)
Lemma pwf_chan t t' : pwf t → g_processes t' = g_processes t → same_core t t' → pwf t'.
Proof. intros W Ep Hc. apply (pwf_same t); [done|done|..]; intros i Hi; unfold proc; rewrite Ep; by apply W. Qed.

(** ** Changing the state of one process *)

Lemma used_set_state t i st : st ≠ PROCESS_UNUSED → used t i → ∀ j,
  used (set_proc i (λ r, r <| p_state := st |>) t) j ↔ used t j.
Proof.
  intros Hst Hi j. unfold used. destruct (decide (i = j)) as [<-|]; [|by rewrite proc_set_ne].
  rewrite proc_set_eq. cbn. destruct Hi. tauto.
Qed.

Lemma slots_elem i : i ∈ slots ↔ (i < PROCESS_MAX_COUNT)%nat.
Proof. unfold slots. rewrite elem_of_seq. lia. Qed.
Lemma slots_nodup : NoDup slots.
Proof. apply NoDup_seq. Qed.

(** A slot enters or leaves a class of states. *)
Lemma count_leave (P Q : nat → Prop) `{∀ x, Decision (P x), ∀ x, Decision (Q x)} i :
  (i < PROCESS_MAX_COUNT)%nat → P i → (∀ j, Q j ↔ P j ∧ j ≠ i) →
  length (filter P slots) = S (length (filter Q slots)).
Proof.
  intros Hi HP HQ. apply (length_filter_remove P Q slots i); [apply slots_nodup|by apply slots_elem|done|].
  intros j _. apply HQ.
Qed.

Lemma count_same (P Q : nat → Prop) `{∀ x, Decision (P x), ∀ x, Decision (Q x)} :
  (∀ j, Q j ↔ P j) → length (filter Q slots) = length (filter P slots).
Proof. intros HQ. f_equal. apply filter_ext_on. intros j _. apply HQ. Qed.

(** READY and RUNNING are interchanged: the counters do not move. *)
Lemma pwf_alive_switch t i st cur :
  pwf t → used t i → alive t i → (st = PROCESS_READY ∨ st = PROCESS_RUNNING) →
  (∀ j, used t j → j ≠ i → p_state (proc t j) = PROCESS_RUNNING → pid (proc t j) = cur) →
  (st = PROCESS_RUNNING → pid (proc t i) = cur) →
  pwf ((set_proc i (λ r, r <| p_state := st |>) t) <| g_current_pid := cur |>).
Proof.
  intros [W1 W2 W3 W4 W5 W6 W7 W8 W9] Hi Ha Hst Hoth Hcur. set (t1 := set_proc i _ t).
  assert (st ≠ PROCESS_UNUSED) as Hstu by (by destruct Hst as [-> | ->]).
  assert (∀ j, used t1 j ↔ used t j) as Hu by (by apply used_set_state).
  assert (∀ j, j ≠ i → proc t1 j = proc t j) as Hj by (intros j ?; unfold t1; by rewrite proc_set_ne).
  assert (proc t1 i = (proc t i) <| p_state := st |>) as Hpi by (unfold t1; by rewrite proc_set_eq).
  assert (∀ j, pid (proc t1 j) = pid (proc t j) ∧ user_page_count (proc t1 j) = user_page_count (proc t j) ∧
     env_count (proc t1 j) = env_count (proc t j)) as Hf.
  { intros j. destruct (decide (j = i)) as [->|]; [by rewrite Hpi|by rewrite Hj]. }
  assert (n_alive t1 = n_alive t ∧ n_zombie t1 = n_zombie t) as [Ea Ez].
  { split; unfold n_alive, n_zombie; f_equal; apply count_same; intros j; unfold alive, zombie in *;
      (destruct (decide (j = i)) as [->|]; [rewrite Hpi; cbn; destruct Hst as [-> | ->], Ha as [E | E]; rewrite E; naive_solver|by rewrite Hj]). }
  split; cbn; try done.
  - intros a b Ha' Hb'. change (pid (proc t1 a) = pid (proc t1 b) → a = b).
    destruct (Hf a) as [-> _], (Hf b) as [-> _]. apply W2; by apply Hu.
  - intros j Hj'. change (0 < pid (proc t1 j) < g_next_pid t). destruct (Hf j) as [-> _]. apply W4. by apply Hu.
  - intros j Hj' Hr. change (pid (proc t1 j) = cur). change (p_state (proc t1 j) = PROCESS_RUNNING) in Hr.
    destruct (Hf j) as [-> _]. destruct (decide (j = i)) as [->|Hne].
    + rewrite Hpi in Hr. by apply Hcur.
    + rewrite Hj in Hr by done. apply Hoth; try done. by apply Hu.
  - change (g_process_count t = n_alive t1). by rewrite Ea.
  - change (g_zombie_count t = n_zombie t1). by rewrite Ez.
  - intros j Hj'. change (0 ≤ user_page_count (proc t1 j) ≤ PROCESS_USER_MAX_PAGES). destruct (Hf j) as (_ & -> & _). apply W8. by apply Hu.
  - intros j Hj'. change (0 ≤ env_count (proc t1 j) ≤ PROCESS_ENV_COUNT). destruct (Hf j) as (_ & _ & ->). apply W9. by apply Hu.
Qed.

Lemma get_self t i : pwf t → used t i → process_get t (pid (proc t i)) = Some i.
Proof. intros W Hi. apply process_get_used; try apply W; [done|]. pose proof (pw_range _ W i Hi). lia. Qed.

(** The running process is the current one. *)
Lemma running_current t i :
  pwf t → used t i → p_state (proc t i) = PROCESS_RUNNING → process_get t (g_current_pid t) = Some i.
Proof. intros W Hi Hr. rewrite <- (pw_run _ W i Hi Hr). by apply get_self. Qed.

Lemma process_set_current_wf p t : pwf t → pwf (process_set_current p t).2.
Proof.
  intros W. unfold process_set_current. destruct (process_get t p) as [n|] eqn:Hn; [|done].
  apply process_get_Some in Hn as (Hnu & Hnp & _ & _).
  destruct (_ && _) eqn:Hst; [done|]. cbn [snd].
  assert (alive t n) as Ha.
  { unfold alive. apply andb_false_iff in Hst as [Hst|Hst]; apply negb_false_iff, bool_decide_eq_true in Hst; tauto. }
  clear Hst. set (t1 := match process_get t (g_current_pid t) with Some _ => _ | None => _ end).
  assert (pwf t1 ∧ used t1 n ∧ alive t1 n ∧ pid (proc t1 n) = p ∧
    (∀ j, used t1 j → j ≠ n → p_state (proc t1 j) ≠ PROCESS_RUNNING)) as (W1 & A1 & A2 & A3 & A4).
  { unfold t1. destruct (process_get t (g_current_pid t)) as [old|] eqn:Ho.
    2: { split_and!; try done. intros j Hj _ Hr. rewrite (running_current t j W Hj Hr) in Ho. done. }
    pose proof (process_get_Some _ _ _ Ho) as (Hou & _).
    destruct (Nat.eqb_spec old n) as [->|Hne]; cbn [negb andb].
    { split_and!; try done. intros j Hj Hne Hr. rewrite (running_current t j W Hj Hr) in Ho. congruence. }
    case_bool_decide as Hr.
    - assert (pwf (set_proc old (λ r, r <| p_state := PROCESS_READY |>) t)) as W2.
      { apply (pwf_alive_switch t old PROCESS_READY (g_current_pid t)); try done; [by right|by left|].
        intros j Hj _ Hjr. by apply W. }
      assert (∀ j, used (set_proc old (λ r, r <| p_state := PROCESS_READY |>) t) j ↔ used t j) as Hu by (by apply used_set_state).
      split; [done|]. split; [by apply Hu|]. unfold alive. rewrite proc_set_ne by done. split; [done|]. split; [done|].
      intros j Hj%Hu Hjn. destruct (decide (old = j)) as [<-|Hoj]; [by rewrite proc_set_eq|].
      rewrite proc_set_ne by done. intros Hjr. rewrite (running_current t j W Hj Hjr) in Ho. congruence.
    - split_and!; try done. intros j Hj Hjn Hjr. rewrite (running_current t j W Hj Hjr) in Ho. congruence. }
  clearbody t1. apply pwf_alive_switch; try done; [by right|]. intros j Hj Hjn Hjr. by destruct (A4 j Hj Hjn).
Qed.

Lemma process_clear_current_wf t : pwf t → pwf (process_clear_current t).
Proof.
  intros W. unfold process_clear_current. destruct (process_get t (g_current_pid t)) as [old|] eqn:Ho.
  - pose proof (process_get_Some _ _ _ Ho) as (Hou & _). case_bool_decide as Hr.
    + apply pwf_alive_switch; try done; [by right|by left|]. intros j Hj Hne Hjr.
      rewrite (running_current t j W Hj Hjr) in Ho. congruence.
    + pose proof W as [W1 W2 W3 W4 W5 W6 W7 W8 W9]. split; try done. intros j Hj Hjr.
      pose proof (running_current t j W Hj Hjr) as Hc. rewrite Ho in Hc. injection Hc as <-. done.
  - pose proof W as [W1 W2 W3 W4 W5 W6 W7 W8 W9]. split; try done. intros j Hj Hjr.
    pose proof (running_current t j W Hj Hjr) as Hc. by rewrite Ho in Hc.
Qed.

(** *** Channel operations only touch handles and channels *)

(** A record up to its channel handles. *)
Definition same_but_handles (r r' : nexus_process_t) : Prop := ∃ h, r' = r <| ipc_handles := h |>.

Lemma same_but_handles_refl r : same_but_handles r r.
Proof. exists (ipc_handles r). by destruct r. Qed.
Lemma same_but_handles_trans r1 r2 r3 :
  same_but_handles r1 r2 → same_but_handles r2 r3 → same_but_handles r1 r3.
Proof. intros [h1 ->] [h2 ->]. by exists h2. Qed.

Definition handles_only t t' : Prop :=
  same_core t t' ∧ ∀ i, same_but_handles (proc t i) (proc t' i).

Lemma handles_only_refl t : handles_only t t.
Proof. split; [done|]. intros i. apply same_but_handles_refl. Qed.
Lemma handles_only_trans t1 t2 t3 : handles_only t1 t2 → handles_only t2 t3 → handles_only t1 t3.
Proof.
  intros [A1 A2] [B1 B2]. split; [by eapply same_core_trans|]. intros i. by eapply same_but_handles_trans.
Qed.
Lemma handles_only_wf t t' : pwf t → handles_only t t' → pwf t'.
Proof. intros W [Hc Hf]. apply (pwf_same t); [done|done|..]; intros i Hi; destruct (Hf i) as [h ->]; by apply W. Qed.
Lemma set_handle_only t i h v : handles_only t (set_handle i h v t).
Proof.
  split; [by apply set_proc_core|]. intros j. unfold set_handle.
  destruct (decide (i = j)) as [<-|]; [rewrite proc_set_eq; by eexists|].
  rewrite proc_set_ne by done. apply same_but_handles_refl.
Qed.
Lemma set_chan_only t c f : handles_only t (set_chan c f t).
Proof. split; [done|]. intros i. apply same_but_handles_refl. Qed.
#[local] Hint Resolve handles_only_refl set_handle_only set_chan_only : nexus.

Lemma terminate_handle_only p i t h : handles_only t (terminate_handle p i t h).
Proof.
  unfold terminate_handle. cbv zeta. destruct (bad_channel_id _); [auto with nexus|].
  destruct (find_side _ p) as [side|]; [|auto with nexus]. set (c := Z.to_nat _).
  set (t1 := set_handle i h 0 _). assert (handles_only t t1) as H1.
  { eapply handles_only_trans; [apply set_chan_only|apply set_handle_only]. }
  clearbody t1. destruct (_ && _); [by eapply handles_only_trans; [|apply set_chan_only]|].
  destruct (process_get _ _) as [peer|]; [|auto with nexus]. unfold drop_peer_handle.
  destruct (first_index _ _ _); [|auto with nexus]. by eapply handles_only_trans; [|apply set_handle_only].
Qed.

Lemma terminate_only p t : handles_only t (nexus_ipc_process_terminate p t).
Proof.
  unfold nexus_ipc_process_terminate. destruct (process_get t p) as [i|]; [|auto with nexus].
  generalize (seq 0 (Z.to_nat NEXUS_PROCESS_CHANNELS)). intros l. revert t.
  induction l as [|h l IH]; intros t; [auto with nexus|]. cbn. eapply handles_only_trans; [|apply IH]. apply terminate_handle_only.
Qed.

Lemma ipc_create_only o q t : handles_only t (nexus_ipc_create o q t).2.
Proof.
  unfold nexus_ipc_create. destruct (_ || _); [auto with nexus|]. repeat (case_match; try (cbn; solve [auto with nexus])). cbn [snd].
  eapply handles_only_trans; [|apply set_handle_only]. eapply handles_only_trans; [|apply set_handle_only]. apply set_chan_only.
Qed.

Lemma ipc_close_only p h t : handles_only t (nexus_ipc_close p h t).2.
Proof.
  unfold nexus_ipc_close. destruct (process_get t p) as [i|]; [|auto with nexus]. destruct (_ || _); [auto with nexus|]. cbv zeta.
  destruct (bad_channel_id _); [auto with nexus|]. destruct (find_side _ p) as [side|]; [|auto with nexus]. cbn [snd].
  set (t1 := set_handle _ _ _ _). assert (handles_only t t1) as H1.
  { eapply handles_only_trans; [apply set_chan_only|apply set_handle_only]. }
  clearbody t1. destruct (_ && _); [by eapply handles_only_trans; [|apply set_chan_only]|auto with nexus].
Qed.

Lemma ipc_send_only p h d n t : handles_only t (nexus_ipc_send p h d n t).2.
Proof. unfold nexus_ipc_send. repeat (case_match; try (cbn; solve [auto with nexus])). Qed.
Lemma ipc_recv_only p h n t : handles_only t (nexus_ipc_recv p h n t).2.
Proof. unfold nexus_ipc_recv. repeat (case_match; try (cbn; solve [auto with nexus])). Qed.

(** *** One slot changes its life-cycle state *)

Lemma count_change (P Q : nat → Prop) `{∀ x, Decision (P x), ∀ x, Decision (Q x)} i :
  (i < PROCESS_MAX_COUNT)%nat → (∀ j, j ≠ i → Q j ↔ P j) →
  Z.of_nat (length (filter Q slots)) =
    Z.of_nat (length (filter P slots)) - Z.b2z (bool_decide (P i)) + Z.b2z (bool_decide (Q i)).
Proof.
  intros Hi Hj. case_bool_decide as HP; case_bool_decide as HQ; cbn [Z.b2z].
  - rewrite (count_same P Q); [lia|]. intros j. destruct (decide (j = i)) as [->|]; [tauto|by apply Hj].
  - rewrite (count_leave P Q i); [lia|done|done|]. intros j. destruct (decide (j = i)) as [->|Hne]; [tauto|]. rewrite (Hj j Hne). tauto.
  - rewrite (count_leave Q P i); [lia|done|done|]. intros j. destruct (decide (j = i)) as [->|Hne]; [tauto|]. rewrite (Hj j Hne). tauto.
  - rewrite (count_same P Q); [lia|]. intros j. destruct (decide (j = i)) as [->|]; [tauto|by apply Hj].
Qed.

Lemma n_bounds t : 0 ≤ n_alive t ≤ 8 ∧ 0 ≤ n_zombie t ≤ 8.
Proof.
  unfold n_alive, n_zombie. pose proof (length_filter (zombie t) slots). pose proof (length_filter (alive t) slots).
  change (length slots) with 8%nat in *. lia.
Qed.

(** The record of slot [i] is sane. *)
Record slot_ok t (i : nat) : Prop := {
  so_range : 0 < pid (proc t i) < g_next_pid t;
  so_fresh : ∀ j, used t j → j ≠ i → pid (proc t j) ≠ pid (proc t i);
  so_run : p_state (proc t i) = PROCESS_RUNNING → pid (proc t i) = g_current_pid t;
  so_pages : 0 ≤ user_page_count (proc t i) ≤ PROCESS_USER_MAX_PAGES;
  so_env : 0 ≤ env_count (proc t i) ≤ PROCESS_ENV_COUNT;
}.

Lemma pwf_slot t t' i :
  pwf t → (i < PROCESS_MAX_COUNT)%nat → (∀ j, j ≠ i → proc t' j = proc t j) →
  g_proc_ready t' = true → g_next_pid t ≤ g_next_pid t' < 2 ^ 64 → g_current_pid t' = g_current_pid t →
  g_process_count t' = g_process_count t - Z.b2z (bool_decide (alive t i)) + Z.b2z (bool_decide (alive t' i)) →
  g_zombie_count t' = g_zombie_count t - Z.b2z (bool_decide (zombie t i)) + Z.b2z (bool_decide (zombie t' i)) →
  (p_state (proc t' i) ≠ PROCESS_UNUSED → slot_ok t' i) → pwf t'.
Proof.
  intros [W1 W2 W3 W4 W5 W6 W7 W8 W9] Hi Hj Er En Ecu Ec Ez Hs.
  assert (∀ j, j ≠ i → used t' j → used t j) as Hu by (intros j Hne; unfold used; by rewrite Hj).
  split; try done; try lia.
  - intros a b Ha Hb Hab. destruct (decide (a = i)) as [->|Hai], (decide (b = i)) as [->|Hbi]; try done.
    + exfalso. apply (so_fresh _ _ (Hs (proj2 Ha)) b Hb Hbi). done.
    + exfalso. apply (so_fresh _ _ (Hs (proj2 Hb)) a Ha Hai). done.
    + rewrite !Hj in Hab by done. apply W2; try done; by apply Hu.
  - intros j Hju. destruct (decide (j = i)) as [->|Hne]; [apply Hs; apply Hju|].
    rewrite Hj by done. pose proof (W4 j (Hu j Hne Hju)). lia.
  - intros j Hju Hr. destruct (decide (j = i)) as [->|Hne]; [by apply (so_run _ _ (Hs (proj2 Hju)))|].
    rewrite Ecu. rewrite Hj in Hr |- * by done. by apply W5; [apply Hu|].
  - rewrite Ec, W6. unfold n_alive. rewrite (count_change (alive t) (alive t') i); [done|done|].
    intros j Hne. unfold alive. by rewrite Hj.
  - rewrite Ez, W7. unfold n_zombie. rewrite (count_change (zombie t) (zombie t') i); [done|done|].
    intros j Hne. unfold zombie. by rewrite Hj.
  - intros j Hju. destruct (decide (j = i)) as [->|Hne]; [apply Hs; apply Hju|]. rewrite Hj by done. by apply W8, Hu.
  - intros j Hju. destruct (decide (j = i)) as [->|Hne]; [apply Hs; apply Hju|]. rewrite Hj by done. by apply W9, Hu.
Qed.

(** *** Exit *)

Lemma process_exit_wf p code reason t : pwf t → pwf (process_exit_with_code p code reason t).2.
Proof.
  intros W. unfold process_exit_with_code. destruct (process_get t p) as [i|] eqn:Hg; [|done].
  apply process_get_Some in Hg as (Hi & _). destruct (_ || _) eqn:Hst; [done|].
  apply orb_false_iff in Hst as [Hs1 Hs2]. apply bool_decide_eq_false in Hs1, Hs2.
  cbn [snd]. cbv zeta. pose proof (terminate_only p t) as Ho.
  assert (pwf (nexus_ipc_process_terminate p t)) as W1 by (by eapply handles_only_wf).
  assert (p_state (proc (nexus_ipc_process_terminate p t) i) = p_state (proc t i)) as Hs by apply Ho.
  assert (used (nexus_ipc_process_terminate p t) i) as Hi1 by (by apply (same_core_used t _ i (proj1 Ho))).
  generalize dependent (nexus_ipc_process_terminate p t). intros t1 Ho W1 Hs Hi1.
  assert (alive t1 i ∧ ¬ zombie t1 i) as [Ha Hz].
  { unfold alive, zombie. rewrite Hs. destruct (p_state (proc t i)); naive_solver. }
  pose proof (n_bounds t1) as [Hb1 Hb2]. pose proof (pw_count _ W1) as Hc1. pose proof (pw_zombies _ W1) as Hc2.
  assert (0 < n_alive t1) as Hpos.
  { unfold n_alive. rewrite (count_leave (alive t1) (λ j, alive t1 j ∧ j ≠ i) i); [lia|apply Hi1|done|done]. }
  set (t2 := set_proc i _ t1).
  assert (∀ j, j ≠ i → proc t2 j = proc t1 j) as Hj by (intros j ?; unfold t2; by rewrite proc_set_ne).
  assert (proc t2 i = (proc t1 i) <| exit_code := code |> <| exit_reason := reason |> <| p_state := PROCESS_ZOMBIE |>)
    as Hpi by (unfold t2; by rewrite proc_set_eq).
  assert (g_process_count t2 = g_process_count t1 ∧ g_zombie_count t2 = g_zombie_count t1 ∧ g_proc_ready t2 = g_proc_ready t1 ∧
    g_next_pid t2 = g_next_pid t1 ∧ g_current_pid t2 = g_current_pid t1) as (E1 & E2 & E3 & E4 & E5) by done.
  clearbody t2. rewrite E1, (proj2 (Z.eqb_neq _ 0)) by lia. cbn [negb].
  match goal with |- pwf ?x => set (t3 := x) end.
  assert (∀ j, proc t3 j = proc t2 j) as Hp3 by done.
  assert (g_process_count t3 = g_process_count t1 - 1 ∧ g_zombie_count t3 = g_zombie_count t1 + 1) as [F1 F2].
  { unfold t3. cbn. rewrite ?E1, E2, u64_small by lia. done. }
  assert (g_proc_ready t3 = g_proc_ready t1 ∧ g_next_pid t3 = g_next_pid t1 ∧ g_current_pid t3 = g_current_pid t1)
    as (F3 & F4 & F5) by done.
  clearbody t3. destruct W1 as [V1 V2 V3 V4 V5 V6 V7 V8 V9] eqn:EW. clear EW.
  apply (pwf_slot t1 t3 i).
  - by split.
  - apply Hi1.
  - intros j Hne. by rewrite Hp3, Hj.
  - by rewrite F3.
  - rewrite F4. lia.
  - by rewrite F5.
  - rewrite (bool_decide_true (alive t1 i)) by done. rewrite bool_decide_false; [cbn [Z.b2z]; lia|].
    unfold alive. rewrite Hp3, Hpi. cbn. naive_solver.
  - rewrite (bool_decide_false (zombie t1 i)) by done. rewrite bool_decide_true; [cbn [Z.b2z]; lia|].
    unfold zombie. by rewrite Hp3, Hpi.
  - intros _. split; rewrite ?Hp3, ?Hpi; cbn; try done.
    + rewrite F4. by apply V4.
    + intros j Hju Hne. rewrite Hp3, Hj by done. intros Heq. apply Hne. apply V2; try done.
      unfold used in *. by rewrite Hp3, Hj in Hju.
    + by apply V8.
    + by apply V9.
Qed.

(** ** Operations with memory effects *)

(** Only the record of slot [i] changed. *)
Definition globals t := (g_next_pid t, g_current_pid t, g_process_count t, g_zombie_count t, g_proc_ready t).
Definition only_slot (i : nat) t t' : Prop :=
  (∀ j, j ≠ i → proc t' j = proc t j) ∧ globals t' = globals t.

Lemma only_slot_refl i t : only_slot i t t.
Proof. done. Qed.
Lemma only_slot_trans i t1 t2 t3 : only_slot i t1 t2 → only_slot i t2 t3 → only_slot i t1 t3.
Proof. intros [A1 A2] [B1 B2]. split; [|congruence]. intros j Hj. by rewrite B1, A1. Qed.
Lemma only_slot_set i f t : only_slot i t (set_proc i f t).
Proof. split; [|done]. intros j Hj. by rewrite proc_set_ne. Qed.

Lemma only_slot_core i t t' :
  only_slot i t t' → p_state (proc t' i) = p_state (proc t i) → pid (proc t' i) = pid (proc t i) → same_core t t'.
Proof.
  intros [Hj Hg] Hs Hp. unfold globals in Hg. injection Hg as ? ? ? ? ?. split; [|split_and!; done].
  intros j. destruct (decide (j = i)) as [->|Hne]; [done|by rewrite Hj].
Qed.

Lemma only_slot_wf i t t' :
  pwf t → only_slot i t t' → p_state (proc t' i) = p_state (proc t i) → pid (proc t' i) = pid (proc t i) →
  (used t i → 0 ≤ user_page_count (proc t' i) ≤ PROCESS_USER_MAX_PAGES) →
  (used t i → 0 ≤ env_count (proc t' i) ≤ PROCESS_ENV_COUNT) → pwf t'.
Proof.
  intros W Ho Hs Hp Hpg He. apply (pwf_same t); [done|by eapply only_slot_core|..]; intros j Hj;
    (destruct (decide (j = i)) as [->|Hne]; [auto|rewrite (proj1 Ho) by done; by apply W]).
Qed.

Section memory.
Context {E : Type} `{MemEnv E}.
Implicit Types (e : E).

(** What the page operations keep of the record of slot [i]. *)
Definition page_op (i : nat) t t' : Prop :=
  only_slot i t t' ∧ p_state (proc t' i) = p_state (proc t i) ∧ pid (proc t' i) = pid (proc t i) ∧
  env_count (proc t' i) = env_count (proc t i) ∧ capabilities (proc t' i) = capabilities (proc t i) ∧
  parent_pid (proc t' i) = parent_pid (proc t i).

Lemma page_op_refl i t : page_op i t t.
Proof. done. Qed.
Lemma page_op_trans i t1 t2 t3 : page_op i t1 t2 → page_op i t2 t3 → page_op i t1 t3.
Proof.
  intros (A1 & A2 & A3 & A4 & A5 & A6) (B1 & B2 & B3 & B4 & B5 & B6).
  split; [by eapply only_slot_trans|split_and!; congruence].
Qed.
Lemma page_op_set i f t :
  (∀ r, p_state (f r) = p_state r ∧ pid (f r) = pid r ∧ env_count (f r) = env_count r ∧
        capabilities (f r) = capabilities r ∧ parent_pid (f r) = parent_pid r) → page_op i t (set_proc i f t).
Proof. intros Hf. split; [apply only_slot_set|]. rewrite proc_set_eq. apply Hf. Qed.

Lemma page_op_wf i t t' :
  pwf t → page_op i t t' → (used t i → 0 ≤ user_page_count (proc t' i) ≤ PROCESS_USER_MAX_PAGES) → pwf t'.
Proof.
  intros W (Ho & Hs & Hp & He & _) Hpg. apply (only_slot_wf i t); try done. intros Hu. rewrite He. by apply W.
Qed.

Lemma page_op_get i t t' p : page_op i t t' → process_get t' p = process_get t p.
Proof. intros (Ho & Hs & Hp & _). apply same_core_get. by eapply only_slot_core. Qed.

Lemma unmap_slots_op i l t e t' e' :
  foldl (unmap_slot i) (t, e) l = (t', e') → page_op i t t' ∧ user_page_count (proc t' i) = user_page_count (proc t i).
Proof.
  revert t e. induction l as [|k l IH]; intros t e; cbn [foldl]; [by intros [= <- <-]|].
  unfold unmap_slot at 2. intros Hf. apply IH in Hf as [Hop Hc]. rewrite Hc, proc_set_eq. split; [|done].
  eapply page_op_trans; [|exact Hop]. by apply page_op_set.
Qed.

Lemma process_unmap_user_memory_op p t e ok t' e' :
  process_unmap_user_memory p t e = (ok, t', e') →
  match process_get t p with
  | None => t' = t ∧ ok = false
  | Some i => page_op i t t' ∧ user_page_count (proc t' i) = 0 ∧ ok = true
  end.
Proof.
  unfold process_unmap_user_memory. destruct (process_get t p) as [i|]; [|by intros [= <- <- <-]].
  destruct (foldl (unmap_slot i) (t, e) _) as [t1 e1] eqn:Ef. apply unmap_slots_op in Ef as [Hop _].
  intros [= <- <- <-]. rewrite proc_set_eq. split; [|done]. eapply page_op_trans; [exact Hop|]. by apply page_op_set.
Qed.

Lemma process_unmap_user_memory_wf p t e : pwf t → pwf (process_unmap_user_memory p t e).1.2.
Proof.
  intros W. destruct (process_unmap_user_memory p t e) as [[ok t'] e'] eqn:E1. cbn.
  apply process_unmap_user_memory_op in E1. destruct (process_get t p) as [i|]; [|by destruct E1 as [-> _]].
  destruct E1 as (Hop & Hc & _). apply (page_op_wf i t); try done. rewrite Hc. unfold PROCESS_USER_MAX_PAGES. lia.
Qed.

Lemma process_map_user_page_op p va fl t e ok t' e' :
  pwf t → process_map_user_page p va fl t e = (ok, t', e') →
  pwf t' ∧ (∀ i, process_get t p = Some i → page_op i t t') ∧ (ok = false → t' = t).
Proof.
  intros W. unfold process_map_user_page. destruct (_ || _); [by intros [= <- <- <-]|].
  destruct (process_get t p) as [i|] eqn:Hg; [|by intros [= <- <- <-]]. cbv zeta.
  destruct (bool_decide _ || _) eqn:Hc; [by intros [= <- <- <-]|].
  destruct (existsb _ _); [by intros [= <- <- <-]|].
  destruct (me_alloc_page e) as [phys e1]. destruct (phys =? 0); [by intros [= <- <- <-]|].
  destruct (me_map_page_in_cr3 _ _ _ _ e1) as [rc e2]. destruct (rc =? 0); [by intros [= <- <- <-]|].
  generalize (zero_page phys e2). intros e3. match goal with |- (true, ?x, _) = _ → _ => set (t1 := x) end.
  intros [= <- <- <-]. apply orb_false_iff in Hc as [_ Hc].
  apply process_get_Some in Hg as (Hi & _). pose proof (pw_pages _ W i Hi) as Hpg.
  unfold PROCESS_USER_MAX_PAGES in *. rewrite Z.geb_leb in Hc. apply Z.leb_gt in Hc.
  assert (page_op i t t1) as Hop by (by apply page_op_set).
  split; [|split; [by intros j [= <-]|done]].
  apply (page_op_wf i t); try done. intros _. unfold t1. rewrite proc_set_eq. cbn. rewrite u64_small by lia.
  unfold PROCESS_USER_MAX_PAGES. lia.
Qed.

Lemma map_pages_loop_op fuel p base fl k t e ok k' t' e' i :
  pwf t → process_get t p = Some i → map_pages_loop fuel p base fl k t e = (ok, k', t', e') → pwf t' ∧ page_op i t t'.
Proof.
  intros W Hg. revert k t e W Hg. induction fuel as [|fuel IH]; intros k t e W Hg; cbn; [by intros [= <- <- <- <-]|].
  destruct (process_map_user_page _ _ fl t e) as [[ok1 t1] e1] eqn:E1.
  apply process_map_user_page_op in E1 as (W1 & Hop & _); [|done]. specialize (Hop i Hg).
  destruct ok1; [|by intros [= <- <- <- <-]]. intros Hf.
  apply IH in Hf as [W2 Hop2]; [|done|by rewrite (page_op_get i t)]. split; [done|by eapply page_op_trans].
Qed.

Lemma process_map_user_memory_wf p base pages t e : pwf t → pwf (process_map_user_memory p base pages t e).1.2.
Proof.
  intros W. unfold process_map_user_memory. destruct (_ || _); [done|].
  destruct (process_get t p) as [i|] eqn:Hg; [|done]. destruct (_ || _); [done|].
  destruct (map_pages_loop _ p base _ 0 t e) as [[[ok k] t1] e1] eqn:E1.
  apply (map_pages_loop_op _ _ _ _ _ _ _ _ _ _ _ i) in E1 as [W1 Hop]; [|done|done].
  destruct ok.
  - cbn. by apply pwf_quiet.
  - pose proof (process_unmap_user_memory_wf p t1 e1 W1). by destruct (process_unmap_user_memory p t1 e1) as [[]].
Qed.

Lemma unmap_range_loop_op fuel i base en k t e t' e' :
  pwf t → used t i → 0 ≤ k → unmap_range_loop fuel i base en k t e = (t', e') → pwf t' ∧ page_op i t t'.
Proof.
  revert k t e. induction fuel as [|fuel IH]; intros k t e W Hu Hk; cbn; [by intros [= <- <-]|].
  destruct (Z.ltb_spec k (user_page_count (proc t i))) as [Hlt|]; [|by intros [= <- <-]].
  destruct (_ && _).
  - intros Hf. match type of Hf with unmap_range_loop _ _ _ _ _ ?x _ = _ => set (t1 := x) in Hf end.
    assert (page_op i t t1) as Hop by (by apply page_op_set).
    assert (pwf t1) as W1.
    { apply (page_op_wf i t); try done. intros _. unfold t1. rewrite proc_set_eq. cbn.
      pose proof (pw_pages _ W i Hu). unfold PROCESS_USER_MAX_PAGES in *. lia. }
    apply IH in Hf as [W2 Hop2]; [|done| |done].
    + split; [done|by eapply page_op_trans].
    + destruct Hop as (? & Hs & _). unfold used in *. by rewrite Hs.
  - intros Hf. apply IH in Hf; [done|done|done|lia].
Qed.

Lemma process_unmap_user_range_wf p base size t e : pwf t → pwf (process_unmap_user_range p base size t e).1.2.
Proof.
  intros W. unfold process_unmap_user_range. destruct (process_get t p) as [i|] eqn:Hg; [|done].
  destruct (_ || _); [done|]. cbv zeta. destruct (_ <? _); [done|].
  destruct (unmap_range_loop _ i base _ 0 t e) as [t1 e1] eqn:E1. cbn.
  apply process_get_Some in Hg as (Hi & _). by apply unmap_range_loop_op in E1 as [? _].
Qed.

Lemma process_alloc_user_range_wf p pages fl t e : pwf t → pwf (process_alloc_user_range p pages fl t e).1.2.
Proof.
  intros W. unfold process_alloc_user_range. destruct (process_get t p) as [i|] eqn:Hg; [|done]. cbv zeta.
  destruct (_ || _); [done|]. destruct (_ >? _); [done|].
  match goal with |- context [if ?b then (0, t, e) else _] => destruct b; [done|] end.
  match goal with |- context [map_pages_loop ?f p ?b fl 0 t e] => destruct (map_pages_loop f p b fl 0 t e) as [[[ok k] t1] e1] eqn:E1; set (bs := b) in * end.
  apply (map_pages_loop_op _ _ _ _ _ _ _ _ _ _ _ i) in E1 as [W1 Hop]; [|done|done].
  destruct ok; [cbn; by apply pwf_quiet|].
  pose proof (process_unmap_user_range_wf p bs (u64 (k * PROC_PAGE_SIZE)) t1 e1 W1).
  by destruct (process_unmap_user_range p bs _ t1 e1) as [[]].
Qed.

(** *** Reaping *)

Lemma process_reap_wf p th t e : pwf t → pwf (process_reap p th t e).1.2.
Proof.
  intros W. unfold process_reap. destruct (p =? _); [done|].
  destruct (process_get t p) as [i|] eqn:Hg; [|done]. cbv zeta. destruct (_ || _) eqn:Hst; [done|].
  apply orb_false_iff in Hst as [Hst _]. apply orb_false_iff in Hst as [Hst _].
  apply negb_false_iff, bool_decide_eq_true in Hst.
  destruct (process_unmap_user_memory p t e) as [[ok t1] e1] eqn:E1.
  apply process_unmap_user_memory_op in E1. rewrite Hg in E1. destruct E1 as (Hop1 & _ & _).
  set (t2 := set_proc i (λ r, r <| address_space_cr3 := 0 |>) t1).
  assert (page_op i t t2) as Hop2 by (eapply page_op_trans; [exact Hop1|by apply page_op_set]). clearbody t2.
  assert (process_ipc_reset_handles p t2 = set_proc i (λ r, r <| ipc_handles ::= clear_handles |>) t2) as ->.
  { unfold process_ipc_reset_handles. by rewrite (page_op_get i t), Hg. }
  set (t3 := set_proc i reaped _).
  assert (only_slot i t t3) as Ho.
  { eapply only_slot_trans; [apply Hop2|]. eapply only_slot_trans; [apply only_slot_set|apply only_slot_set]. }
  assert (p_state (proc t3 i) = PROCESS_UNUSED) as Hs3 by (unfold t3; by rewrite proc_set_eq). clearbody t3. clear Hop1 Hop2.
  apply process_get_Some in Hg as (Hi & _). destruct Ho as [Hj Hgl]. unfold globals in Hgl. injection Hgl as E2 E3 E4 E5 E6.
  assert (zombie t i) as Hz by done.
  assert (0 < n_zombie t) as Hpos.
  { unfold n_zombie. rewrite (count_leave (zombie t) (λ j, zombie t j ∧ j ≠ i) i); [lia|apply Hi|done|done]. }
  pose proof (pw_zombies _ W) as Hzc. rewrite E5, (proj2 (Z.eqb_neq _ 0)) by lia. cbn [negb fst snd].
  apply (pwf_slot t _ i); try done; try (cbn; congruence).
  - apply Hi.
  - cbn. rewrite E6. apply W.
  - cbn. rewrite E2. pose proof (pw_next _ W). lia.
  - rewrite !bool_decide_false; [cbn; rewrite E4; lia|..].
    + unfold alive. change (proc (t3 <| g_zombie_count := _ |>) i) with (proc t3 i). rewrite Hs3. naive_solver.
    + unfold alive. rewrite Hst. naive_solver.
  - rewrite bool_decide_true by done. rewrite bool_decide_false; [cbn; lia|].
    unfold zombie. change (proc (t3 <| g_zombie_count := _ |>) i) with (proc t3 i). by rewrite Hs3.
Qed.

(** *** Creation *)

Record created_process (parent : Z) t (p : Z) t' : Prop := {
  cp_pid : p = g_next_pid t;
  cp_fresh : ∀ j, used t j → pid (proc t j) ≠ p;
  cp_get : ∃ i, process_get t' p = Some i ∧ ¬ used t i ∧ p_state (proc t' i) = PROCESS_READY ∧
    parent_pid (proc t' i) = parent ∧
    capabilities (proc t' i) = (match process_get t parent with
                                | Some j => capabilities (proc t j) | None => NEXUS_CAP_ALL end) ∧
    (∀ j, j ≠ i → proc t' j = proc t j);
}.

Lemma process_create_spec parent t e p t' e' :
  pwf t → g_next_pid t + 1 < 2 ^ 64 → process_create parent t e = (p, t', e') →
  pwf t' ∧ (p = 0 ∧ (∀ j, used t j → proc t' j = proc t j ∧ used t' j) ∧ g_process_count t' = g_process_count t
            ∨ p ≠ 0 ∧ created_process parent t p t').
Proof.
  intros W Hn. unfold process_create. rewrite (pw_ready _ W). cbn [negb].
  destruct (first_index _ 0 PROCESS_MAX_COUNT) as [i|] eqn:Ef; [|intros [= <- <- <-]; split; [done|by left]].
  apply first_index_Some in Ef as (Hi & Hun & _). apply bool_decide_eq_true in Hun.
  pose proof (pw_next _ W) as Hnx. unfold PROCESS_INVALID_PID. rewrite (proj2 (Z.eqb_neq _ 0)) by lia.
  rewrite u64_small by lia. set (t0 := t <| g_next_pid := g_next_pid t + 1 |>).
  assert (process_get t0 parent = process_get t parent) as -> by done.
  assert (∀ j, proc t0 j = proc t j) as Hp0 by done.
  set (caps := match process_get t parent with Some j => capabilities (proc t0 j) | None => NEXUS_CAP_ALL end).
  destruct (me_create_address_space e) as [cr3 e1].
  set (t2 := set_proc i (λ r, r <| address_space_cr3 := cr3 |>) _).
  assert (only_slot i t0 t2) as Ho by (eapply only_slot_trans; apply only_slot_set).
  assert (proc t2 i = (fresh_head (g_next_pid t) parent caps (me_scheduler_ticks e) (proc t i)) <| address_space_cr3 := cr3 |>)
    as Hp2 by (unfold t2; by rewrite !proc_set_eq).
  clearbody t2. destruct Ho as [Hj Hgl]. unfold globals in Hgl.
  assert (g_next_pid t2 = g_next_pid t + 1 ∧ g_current_pid t2 = g_current_pid t ∧ g_process_count t2 = g_process_count t ∧
     g_zombie_count t2 = g_zombie_count t ∧ g_proc_ready t2 = g_proc_ready t) as (E1 & E2 & E3 & E4 & E5).
  { unfold t0 in Hgl. cbn in Hgl. by injection Hgl as ? ? ? ? ?. }
  assert (¬ alive t i ∧ ¬ zombie t i ∧ ¬ used t i) as (Hna & Hnz & Hnu)
    by (unfold alive, zombie, used; rewrite Hun; naive_solver).
  clearbody t0. destruct (cr3 =? 0).
  - intros [= <- <- <-]. split.
    + apply (pwf_slot t _ i); try done.
      * lia.
      * intros j Hne. by rewrite proc_set_ne, Hj.
      * change (g_proc_ready t2 = true). rewrite E5. apply W.
      * change (g_next_pid t ≤ g_next_pid t2 < 2 ^ 64). lia.
      * change (g_process_count t2 = g_process_count t - Z.b2z (bool_decide (alive t i)) +
          Z.b2z (bool_decide (alive (set_proc i (λ r, r <| p_state := PROCESS_UNUSED |>) t2) i))).
        rewrite !bool_decide_false; [cbn; lia| |done]. unfold alive. rewrite proc_set_eq. naive_solver.
      * change (g_zombie_count t2 = g_zombie_count t - Z.b2z (bool_decide (zombie t i)) +
          Z.b2z (bool_decide (zombie (set_proc i (λ r, r <| p_state := PROCESS_UNUSED |>) t2) i))).
        rewrite !bool_decide_false; [cbn; lia| |done]. unfold zombie. by rewrite proc_set_eq.
      * by rewrite proc_set_eq.
    + left. split; [done|]. split; [|done]. intros j Hju. assert (i ≠ j) as Hne by (by intros ->).
      unfold used. rewrite !proc_set_ne by done. rewrite Hj, Hp0 by done. by destruct Hju.
  - set (t3 := set_proc i fresh_tail t2).
    assert (proc t3 i = fresh_tail (proc t2 i)) as Hp3 by (unfold t3; by rewrite proc_set_eq).
    assert (∀ j, j ≠ i → proc t3 j = proc t j) as Hj3 by (intros j Hne; unfold t3; by rewrite proc_set_ne, Hj).
    assert (g_next_pid t3 = g_next_pid t + 1 ∧ g_current_pid t3 = g_current_pid t ∧ g_process_count t3 = g_process_count t ∧
       g_zombie_count t3 = g_zombie_count t ∧ g_proc_ready t3 = g_proc_ready t) as (F1 & F2 & F3 & F4 & F5) by done.
    clearbody t3. assert (pid (proc t3 i) = g_next_pid t) as Hpid by (by rewrite Hp3, Hp2). rewrite Hpid.
    pose proof (n_bounds t) as [Hb _]. pose proof (pw_count _ W) as Hcnt. rewrite F3, u64_small by lia.
    intros [= <- <- <-]. set (t4 := t3 <| g_process_count := g_process_count t + 1 |>).
    assert (∀ j, proc t4 j = proc t3 j) as Hp4 by done.
    assert (g_next_pid t4 = g_next_pid t + 1 ∧ g_current_pid t4 = g_current_pid t ∧ g_process_count t4 = g_process_count t + 1 ∧
       g_zombie_count t4 = g_zombie_count t ∧ g_proc_ready t4 = g_proc_ready t) as (G1 & G2 & G3 & G4 & G5) by done.
    clearbody t4. assert (pwf t4) as W4.
    { apply (pwf_slot t t4 i); try done.
      - lia.
      - intros j Hne. by rewrite Hp4, Hj3.
      - rewrite G5. apply W.
      - lia.
      - rewrite (bool_decide_false (alive t i)) by done. rewrite bool_decide_true; [cbn [Z.b2z]; lia|].
        left. by rewrite Hp4, Hp3.
      - rewrite !bool_decide_false; [cbn [Z.b2z]; lia| |done]. unfold zombie. by rewrite Hp4, Hp3.
      - intros _. split; rewrite ?Hp4, ?Hpid, ?G1.
        + lia.
        + intros j Hju Hne. rewrite Hp4, Hj3 by done. unfold used in Hju. rewrite Hp4, Hj3 in Hju by done.
          pose proof (pw_range _ W j Hju). lia.
        + by rewrite Hp3.
        + rewrite Hp3. cbn. unfold PROCESS_USER_MAX_PAGES. lia.
        + rewrite Hp3, Hp2. cbn. unfold PROCESS_ENV_COUNT. lia. }
    split; [done|]. right. split; [lia|]. split; [done|..].
    + intros j Hju. pose proof (pw_range _ W j Hju). lia.
    + exists i. assert (used t4 i) as Hu4 by (split; [lia|by rewrite Hp4, Hp3]).
      split; [rewrite <- Hpid, <- Hp4; by apply get_self|]. split; [done|]. rewrite Hp4.
      split; [by rewrite Hp3|]. split; [by rewrite Hp3, Hp2|]. split.
      * rewrite Hp3, Hp2. cbn. unfold caps. destruct (process_get t parent); [by rewrite Hp0|done].
      * intros j Hne. by rewrite Hp4, Hj3.
Qed.

(** ** Every operation keeps the invariant *)

Lemma pwf_quiet_if t p f :
  pwf t → quiet f → pwf (match process_get t p with Some i => set_proc i f t | None => t end).
Proof. intros W Hf. destruct (process_get t p); [by apply pwf_quiet|done]. Qed.

Lemma env_wf t i f :
  pwf t → (∀ r, p_state (f r) = p_state r ∧ pid (f r) = pid r ∧ user_page_count (f r) = user_page_count r) →
  (used t i → 0 ≤ env_count (f (proc t i)) ≤ PROCESS_ENV_COUNT) → pwf (set_proc i f t).
Proof.
  intros W Hf He. destruct (Hf (proc t i)) as (A1 & A2 & A3).
  apply (only_slot_wf i t); try done; rewrite ?proc_set_eq; try done; [apply only_slot_set|].
  rewrite A3. apply W.
Qed.

Lemma live_index_get p t i : live_index p t = Some i → process_get t p = Some i.
Proof. unfold live_index. destruct (process_get t p); [|done]. by case_bool_decide. Qed.

Lemma process_set_env_wf p k v t : pwf t → pwf (process_set_env p k v t).2.
Proof.
  intros W. unfold process_set_env. destruct (live_index p t) as [i|] eqn:Hl; [|done]. destruct k as [k|]; [|done].
  case_bool_decide; [done|]. cbv zeta. destruct (env_index _ k) as [n|]; [by apply pwf_quiet|].
  destruct (Z.geb_spec (env_count (proc t i)) PROCESS_ENV_COUNT); [done|]. apply env_wf; [done|done|].
  intros Hu. cbn. pose proof (pw_env _ W i Hu). unfold PROCESS_ENV_COUNT in *. rewrite u32_small by lia. lia.
Qed.

Lemma process_unset_env_wf p k t : pwf t → pwf (process_unset_env p k t).2.
Proof.
  intros W. unfold process_unset_env. destruct (process_get t p) as [i|] eqn:Hg; [|done]. destruct k as [k|]; [|done].
  destruct (env_index (proc t i) k) as [n|] eqn:Hn; [|done]. apply env_wf; [done|done|].
  intros Hu. cbn. pose proof (pw_env _ W i Hu). apply first_index_Some in Hn as (Hn & _). unfold PROCESS_ENV_COUNT in *. lia.
Qed.

(** A call into process.c or ipc.c, or the attachment of a scheduler thread. *)
Inductive proc_step : ptable → ptable → Prop :=
| ps_create t parent e : g_next_pid t + 1 < 2 ^ 64 → proc_step t (process_create parent t e).1.2
| ps_set_current t p : proc_step t (process_set_current p t).2
| ps_clear_current t : proc_step t (process_clear_current t)
| ps_exit t p code reason : proc_step t (process_exit_with_code p code reason t).2
| ps_reap t p th e : proc_step t (process_reap p th t e).1.2
| ps_reserve t p b n : proc_step t (process_reserve_user_range p b n t).2
| ps_map_page t p va fl e : proc_step t (process_map_user_page p va fl t e).1.2
| ps_map t p b n e : proc_step t (process_map_user_memory p b n t e).1.2
| ps_unmap t p e : proc_step t (process_unmap_user_memory p t e).1.2
| ps_unmap_range t p b n e : proc_step t (process_unmap_user_range p b n t e).1.2
| ps_alloc t p n fl e : proc_step t (process_alloc_user_range p n fl t e).1.2
| ps_set_env t p k v : proc_step t (process_set_env p k v t).2
| ps_unset_env t p k : proc_step t (process_unset_env p k t).2
| ps_tick t p : proc_step t (process_account_cpu_tick p t)
| ps_drop t p c : proc_step t (process_drop_capability p c t).2
| ps_grant t p c : proc_step t (process_grant_capability p c t).2
| ps_ipc_create t o q : proc_step t (nexus_ipc_create o q t).2
| ps_ipc_close t p h : proc_step t (nexus_ipc_close p h t).2
| ps_ipc_send t p h d n : proc_step t (nexus_ipc_send p h d n t).2
| ps_ipc_recv t p h n : proc_step t (nexus_ipc_recv p h n t).2
| ps_quiet t i f : quiet f → proc_step t (set_proc i f t).   (* names, priorities, descriptors, threads *)

Lemma proc_step_wf t t' : pwf t → proc_step t t' → pwf t'.
Proof.
  intros W Hst. destruct Hst as [t parent e Hn|t p|t|t p code reason|t p th e|t p b n|t p va fl e|t p b n e|t p e|
    t p b n e|t p n fl e|t p k v|t p k|t p|t p c|t p c|t o q|t p h|t p h d n|t p h n|t i f Hf].
  - destruct (process_create parent t e) as [[q t'] e'] eqn:E1. by apply process_create_spec in E1 as [? _].
  - by apply process_set_current_wf.
  - by apply process_clear_current_wf.
  - by apply process_exit_wf.
  - by apply process_reap_wf.
  - unfold process_reserve_user_range. destruct (negb _); [done|]. destruct (process_get t p); [|done].
    destruct (_ || _); [done|]. by apply pwf_quiet.
  - destruct (process_map_user_page p va fl t e) as [[ok t'] e'] eqn:E1. by apply process_map_user_page_op in E1 as [? _].
  - by apply process_map_user_memory_wf.
  - by apply process_unmap_user_memory_wf.
  - by apply process_unmap_user_range_wf.
  - by apply process_alloc_user_range_wf.
  - by apply process_set_env_wf.
  - by apply process_unset_env_wf.
  - unfold process_account_cpu_tick. destruct (process_get t p); [|done]. case_bool_decide; [by apply pwf_quiet|done].
  - unfold process_drop_capability. destruct (process_get t p); [|done]. destruct (negb _); [done|by apply pwf_quiet].
  - unfold process_grant_capability. destruct (process_get t p); [|done]. destruct (negb _); [done|by apply pwf_quiet].
  - eapply handles_only_wf; [done|apply ipc_create_only].
  - eapply handles_only_wf; [done|apply ipc_close_only].
  - eapply handles_only_wf; [done|apply ipc_send_only].
  - eapply handles_only_wf; [done|apply ipc_recv_only].
  - by apply pwf_quiet.
Qed.

Lemma process_init_wf t : pwf (process_init t).
Proof.
  assert (∀ i, ¬ used (process_init t) i) as Hu.
  { intros i [Hi Hs]. apply Hs. unfold process_init, proc. cbn -[Nat.ltb]. by rewrite (proj2 (Nat.ltb_lt _ _) Hi). }
  split; try done; try (intros i Hi; by destruct (Hu i)).
  - intros i j Hi. by destruct (Hu i).
Qed.

(** C7: along every sequence of calls into process.c and ipc.c from
    [process_init] on, live processes have pairwise distinct nonzero ids, at
    most the current one is RUNNING, the two counters count exactly the live
    and the zombie processes, and the page and environment tables never
    overflow. *)
Theorem process_table_invariant t0 t :
  rtc proc_step (process_init t0) t →
  (∀ i j, used t i → used t j → pid (proc t i) = pid (proc t j) → i = j) ∧
  (∀ i, used t i → pid (proc t i) ≠ 0 ∧ process_get t (pid (proc t i)) = Some i) ∧
  (∀ i, used t i → p_state (proc t i) = PROCESS_RUNNING → process_current t = Some i) ∧
  process_count t = n_alive t ∧ process_zombie_count t = n_zombie t ∧
  (∀ i, used t i → 0 ≤ user_page_count (proc t i) ≤ 16 ∧ 0 ≤ env_count (proc t i) ≤ 8).
Proof.
  intros Hrun. assert (pwf t) as W.
  { pose proof (process_init_wf t0) as W0. induction Hrun as [|t1 t2 t3 Hst _ IH]; [done|]. apply IH. by eapply proc_step_wf. }
  split; [apply W|]. split.
  { intros i Hi. split; [pose proof (pw_range _ W i Hi); lia|by apply get_self]. }
  split; [intros i Hi Hr; by apply running_current|]. split; [apply W|]. split; [apply W|].
  intros i Hi. split; [apply (pw_pages _ W i Hi)|apply (pw_env _ W i Hi)].
Qed.

(** [process_create] returns a fresh id for a READY process in a free slot
    that has exactly the capabilities of its parent (all of them when the
    parent does not exist) and leaves every other process alone; when it
    fails it returns 0 and no existing process is touched. *)
Theorem process_create_correct parent t e p t' e' :
  pwf t → g_next_pid t + 1 < 2 ^ 64 → process_create parent t e = (p, t', e') →
  pwf t' ∧ (p = 0 ∧ (∀ j, used t j → proc t' j = proc t j ∧ used t' j) ∧ g_process_count t' = g_process_count t
            ∨ p ≠ 0 ∧ created_process parent t p t').
Proof. apply process_create_spec. Qed.
End memory.

(** ** User ranges *)

Definition page_base (v : Z) : Z := v - v mod PROC_PAGE_SIZE.

Lemma page_mask_mod v : page_mask v = v mod PROC_PAGE_SIZE.
Proof. unfold page_mask. change (PROC_PAGE_SIZE - 1) with (2 ^ 12 - 1). by rewrite land_low_mask. Qed.

(** Bytes up to the end of a page are on it. *)
Lemma same_page v d : 0 ≤ d → v mod PROC_PAGE_SIZE + d < PROC_PAGE_SIZE → page_base (v + d) = page_base v.
Proof.
  unfold page_base, PROC_PAGE_SIZE. intros Hd Hlt. pose proof (Z.mod_pos_bound v 4096).
  rewrite <- (Zplus_mod_idemp_l v d), (Z.mod_small (v mod 4096 + d)) by lia. lia.
Qed.

Lemma chunk_loop_pages (P : Z → bool) fuel va size off :
  (∀ v, 0 ≤ v < 2 ^ 64 → P v = P (page_base v)) → 0 ≤ va → va + size < 2 ^ 64 → 0 ≤ off →
  (off < size → size - off + (va + off) mod PROC_PAGE_SIZE ≤ PROC_PAGE_SIZE * Z.of_nat fuel) →
  (chunk_loop fuel (λ _ v _ (u : unit), (P v, u)) va size off tt).1 = true ↔
  ∀ b, off ≤ b < size → P (va + b) = true.
Proof.
  intros HP Hva Hov. unfold PROC_PAGE_SIZE in *. revert off. induction fuel as [|fuel IH]; intros off Hoff Hf.
  - cbn [chunk_loop]. pose proof (Z.mod_pos_bound (va + off) 4096). destruct (Z.ltb_spec off size) as [Hlt|]; [specialize (Hf Hlt); lia|].
    split; [intros _ b ?; lia|done].
  - cbn [chunk_loop]. destruct (Z.ltb_spec off size) as [Hlt|]; [|split; [intros _ b ?; lia|done]].
    specialize (Hf Hlt). rewrite u64_small, page_mask_mod by lia. unfold PROC_PAGE_SIZE.
    set (m := (va + off) mod 4096) in *. assert (0 ≤ m < 4096) as Hm by (apply Z.mod_pos_bound; lia).
    set (chunk := if 4096 - m >? size - off then size - off else 4096 - m).
    assert (0 < chunk ≤ 4096 - m ∧ chunk ≤ size - off) as Hc by (unfold chunk; destruct (Z.gtb_spec (4096 - m) (size - off)); lia).
    assert (∀ b, off ≤ b < off + chunk → P (va + b) = P (va + off)) as Hsame.
    { intros b Hb. rewrite HP, (HP (va + off)) by lia. f_equal. replace (va + b) with (va + off + (b - off)) by lia.
      apply same_page; unfold PROC_PAGE_SIZE; fold m; lia. }
    destruct (P (va + off)) eqn:HPo.
    + rewrite IH; [|lia|].
      * split; intros Hall b Hb; [|apply Hall; lia]. destruct (decide (b < off + chunk)); [apply Hsame; lia|apply Hall; lia].
      * assert (chunk = size - off ∨ chunk = 4096 - m) as [Hce|Hce] by (unfold chunk; destruct (_ >? _); auto).
        -- lia.
        -- assert ((va + (off + chunk)) mod 4096 = 0) as Hz.
           { rewrite Hce. replace (va + (off + (4096 - m))) with ((va + off - m) + 1 * 4096) by lia.
             rewrite Z_mod_plus_full. unfold m. rewrite Zminus_mod, Z.mod_mod, Z.sub_diag by lia. done. }
           rewrite Hz, Hce. lia.
    + cbn. split; [done|]. intros Hall. rewrite Hall in HPo; [done|lia].
Qed.

Lemma page_allowed_page r req v : 0 ≤ v < 2 ^ 64 → page_allowed r req v = page_allowed r req (page_base v).
Proof.
  intros Hv. unfold page_allowed, PROC_PAGE_SIZE. change (4096 - 1) with (2 ^ 12 - 1).
  assert (0 ≤ page_base v < 2 ^ 64) as Hb.
  { unfold page_base, PROC_PAGE_SIZE. pose proof (Z.mod_pos_bound v 4096). pose proof (Z.mod_le v 4096). lia. }
  rewrite !land_not64_mask by lia. change (2 ^ 12) with PROC_PAGE_SIZE. fold (page_base v).
  assert (page_base v mod PROC_PAGE_SIZE = 0) as ->; [|by rewrite Z.sub_0_r].
  unfold page_base, PROC_PAGE_SIZE. rewrite Zminus_mod, Z.mod_mod, Z.sub_diag by lia. done.
Qed.

(** The user pages of a process lie below the user limit. *)
Definition pages_below (r : nexus_process_t) : Prop :=
  ∀ k, 0 ≤ k < user_page_count r → user_page_va r k < PROCESS_USER_LIMIT.

Lemma page_allowed_below r req v :
  pages_below r → 0 ≤ v < 2 ^ 64 → page_allowed r req v = true → v < PROCESS_USER_LIMIT.
Proof.
  intros Hb Hv. unfold page_allowed. destruct (user_page_index r _) as [k|] eqn:Hk; [|done]. intros _.
  apply first_index_Some in Hk as (Hk & Heq & _). apply Z.eqb_eq in Heq.
  specialize (Hb (Z.of_nat k) ltac:(lia)). rewrite Heq in Hb. unfold PROC_PAGE_SIZE in Hb.
  change (4096 - 1) with (2 ^ 12 - 1) in Hb. rewrite land_not64_mask in Hb by lia.
  unfold PROCESS_USER_LIMIT in *. change (2 ^ 12) with 4096 in Hb. Z.to_euclidean_division_equations. lia.
Qed.

(** [process_user_range_valid] accepts a range exactly when the process is
    live, the range is not empty, lies between the user base and limit, and
    every one of its bytes is on a page of the process with the permissions
    asked for. *)
Theorem user_range_valid_correct t p i va size req :
  process_get t p = Some i → pages_below (proc t i) → 0 ≤ va < 2 ^ 64 → 0 ≤ size < 2 ^ 64 →
  process_user_range_valid p va size req t = true ↔
  p_state (proc t i) ≠ PROCESS_ZOMBIE ∧ 0 < size ∧ PROCESS_USER_BASE ≤ va ∧ va + size ≤ PROCESS_USER_LIMIT ∧
  ∀ a, va ≤ a < va + size → page_allowed (proc t i) req a = true.
Proof.
  intros Hg Hb Hva Hsz. unfold process_user_range_valid. rewrite Hg. case_bool_decide as Hz; [split; [done|tauto]|].
  cbn [orb]. unfold bad_user_range. destruct (Z.eqb_spec size 0) as [->|Hs0]; [split; [done|lia]|].
  destruct (Z.ltb_spec va PROCESS_USER_BASE); [split; [done|lia]|]. cbn [orb].
  destruct (decide (va ≤ PROCESS_USER_LIMIT)) as [Hle|Hgt].
  - rewrite u64_small by (unfold PROCESS_USER_LIMIT in *; lia).
    destruct (Z.gtb_spec size (PROCESS_USER_LIMIT - va)); [split; [done|lia]|].
    rewrite chunk_loop_pages.
    + split.
      * intros Hall. split_and!; try lia; try done. intros a Ha. specialize (Hall (a - va) ltac:(lia)).
        by replace (va + (a - va)) with a in Hall by lia.
      * intros (_ & _ & _ & _ & Hall) b Hb'. apply Hall. lia.
    + intros v Hv. by apply page_allowed_page.
    + lia.
    + unfold PROCESS_USER_LIMIT in *. lia.
    + lia.
    + intros _. unfold chunk_fuel, PROC_PAGE_SIZE. pose proof (Z.mod_pos_bound (va + 0) 4096).
      rewrite Z2Nat.id by (pose proof (Z.div_pos size 4096); lia). Z.to_euclidean_division_equations. lia.
  - split; [|lia]. destruct (size >? _); [done|].
    unfold chunk_fuel. assert (∃ f, Z.to_nat (size / PROC_PAGE_SIZE + 2) = S f) as [f ->].
    { exists (Z.to_nat (size / PROC_PAGE_SIZE + 1)). unfold PROC_PAGE_SIZE. pose proof (Z.div_pos size 4096). lia. }
    cbn [chunk_loop]. destruct (Z.ltb_spec 0 size); [|lia]. rewrite Z.add_0_r, u64_small by lia.
    destruct (page_allowed (proc t i) req va) eqn:Hpa; [|done].
    apply page_allowed_below in Hpa; [|done|lia]. lia.
Qed.

(** Asking for no flag makes [process_user_range_valid] refuse no-execute
    pages, so [process_user_read] cannot read from a page of the process that
    was mapped with the no-execute flag. *)
Theorem user_read_rejects_nx {E} `{MemEnv E} t (e : E) p i k va size :
  process_get t p = Some i → user_page_index (proc t i) (page_base va) = Some k →
  has_bits (user_page_flags (proc t i) (Z.of_nat k)) VMM_PAGE_NX = true →
  0 ≤ va < 2 ^ 64 → 0 < size < 2 ^ 64 →
  process_user_range_valid p va size 0 t = false ∧ process_user_read p va size t e = (false, []).
Proof.
  intros Hg Hk Hnx Hva Hsz.
  assert (process_user_range_valid p va size 0 t = false) as Hv.
  { unfold process_user_range_valid. rewrite Hg. destruct (_ || _); [done|].
    unfold chunk_fuel. assert (∃ f, Z.to_nat (size / PROC_PAGE_SIZE + 2) = S f) as [f ->].
    { exists (Z.to_nat (size / PROC_PAGE_SIZE + 1)). unfold PROC_PAGE_SIZE. pose proof (Z.div_pos size 4096). lia. }
    cbn [chunk_loop]. destruct (Z.ltb_spec 0 size); [|lia]. rewrite Z.add_0_r, u64_small by lia.
    assert (page_allowed (proc t i) 0 va = false) as ->; [|done].
    unfold page_allowed, PROC_PAGE_SIZE. change (4096 - 1) with (2 ^ 12 - 1). rewrite land_not64_mask by lia.
    change (2 ^ 12) with PROC_PAGE_SIZE. fold (page_base va). rewrite Hk, Hnx. done. }
  split; [done|]. unfold process_user_read. rewrite Hg, Hv. cbn [negb]. by rewrite orb_true_r.
Qed.

(** ** Capabilities *)

Lemma capability_valid_bit c :
  0 ≤ c → nexus_capability_valid c = true ↔ ∃ k, 0 ≤ k ≤ 10 ∧ c = 2 ^ k.
Proof.
  intros Hc. unfold nexus_capability_valid, NEXUS_CAP_ALL. split.
  - destruct (Z.eqb_spec c 0) as [|Hc0]; [done|]. cbn [orb]. destruct (has_bits c (c - 1)) eqn:Hp; [done|]. intros Hall.
    exists (Z.log2 c). pose proof (Z.log2_nonneg c) as Hl0. pose proof (Z.log2_spec c ltac:(lia)) as Hl. rewrite Z.pow_succ_r in Hl by done.
    assert (c = 2 ^ Z.log2 c) as Hpow.
    { destruct (decide (c = 2 ^ Z.log2 c)) as [|Hne]; [done|]. exfalso.
      unfold has_bits in Hp. apply negb_false_iff, Z.eqb_eq in Hp.
      assert (Z.testbit (Z.land c (c - 1)) (Z.log2 c) = true) as Hbit.
      { rewrite Z.land_spec, Z.bit_log2 by lia. cbn. rewrite <- (Z.log2_unique' (c - 1) (Z.log2 c) (c - 1 - 2 ^ Z.log2 c)) by lia.
        apply Z.bit_log2. pose proof (Z.pow_pos_nonneg 2 (Z.log2 c)). lia. }
      by rewrite Hp, Z.bits_0 in Hbit. }
    split; [|done]. split; [done|]. destruct (decide (Z.log2 c ≤ 10)) as [|Hgt]; [done|]. exfalso.
    unfold has_bits in Hall. apply negb_true_iff, Z.eqb_neq in Hall. apply Hall. apply Z.bits_inj'. intros n Hn.
    rewrite Z.land_spec, Z.bits_0, Hpow, Z.pow2_bits_eqb by lia. destruct (Z.eqb_spec (Z.log2 c) n) as [<-|]; [|done].
    cbn. apply (testbit_range 0x7FF 11); lia.
  - intros (k & Hk & ->). assert (k ∈ seqZ 0 11) as Hin by (apply elem_of_seqZ; lia).
    assert (Forall (λ k, (if (2 ^ k =? 0) || has_bits (2 ^ k) (2 ^ k - 1) then false else has_bits (2 ^ k) 0x7FF) = true) (seqZ 0 11)) as HF
      by (vm_compute; repeat constructor).
    rewrite Forall_forall in HF. apply HF. by apply list_elem_of_In.
Qed.

Lemma land_pow2 x k : 0 ≤ k → (Z.land x (2 ^ k) =? 2 ^ k) = Z.testbit x k.
Proof.
  intros Hk. rewrite <- (has_bits_testbit x k Hk). unfold has_bits.
  destruct (Z.eqb_spec (Z.land x (2 ^ k)) 0) as [E0|E0]; cbn.
  - rewrite E0. apply Z.eqb_neq. pose proof (Z.pow_pos_nonneg 2 k). lia.
  - apply Z.eqb_eq. apply Z.bits_inj'. intros n Hn. rewrite Z.land_spec, Z.pow2_bits_eqb by done.
    destruct (Z.eqb_spec k n) as [<-|]; [|apply andb_false_r]. rewrite andb_true_r.
    destruct (Z.testbit x k) eqn:T; [done|]. destruct E0. apply Z.bits_inj'. intros n' Hn'.
    rewrite Z.land_spec, Z.pow2_bits_eqb, Z.bits_0 by done. destruct (Z.eqb_spec k n') as [<-|]; [by rewrite T|apply andb_false_r].
Qed.

Lemma has_capability_bit t p i k :
  process_get t p = Some i → 0 ≤ k ≤ 10 → process_has_capability p (2 ^ k) t = Z.testbit (capabilities (proc t i)) k.
Proof.
  intros Hg Hk. unfold process_has_capability. rewrite Hg.
  rewrite (proj2 (capability_valid_bit (2 ^ k) ltac:(lia))) by eauto. cbn [andb]. apply land_pow2. lia.
Qed.

(** Dropping a capability takes exactly that one away from exactly that
    process, granting adds exactly that one; values that are not one of the
    eleven capability bits are refused without a change. *)
Theorem capability_drop_grant t p i c q j c' :
  process_get t p = Some i → process_get t q = Some j → 0 ≤ c < 2 ^ 64 → 0 ≤ c' →
  nexus_capability_valid c' = true →
  (nexus_capability_valid c = false →
     process_drop_capability p c t = (false, t) ∧ process_grant_capability p c t = (false, t)) ∧
  (nexus_capability_valid c = true →
     process_has_capability q c' (process_drop_capability p c t).2 =
       process_has_capability q c' t && negb ((i =? j)%nat && (c =? c')) ∧
     process_has_capability q c' (process_grant_capability p c t).2 =
       process_has_capability q c' t || ((i =? j)%nat && (c =? c'))).
Proof.
  intros Hp Hq Hc Hc' Hv'. unfold process_drop_capability, process_grant_capability. rewrite Hp.
  split; [intros ->; done|]. intros Hv. rewrite Hv. cbn [negb snd].
  apply capability_valid_bit in Hv as (k & Hk & ->); [|lia]. apply capability_valid_bit in Hv' as (k' & Hk' & ->); [|lia].
  assert (∀ f, (∀ r, p_state (f r) = p_state r ∧ pid (f r) = pid r) →
    process_has_capability q (2 ^ k') (set_proc i f t) = Z.testbit (capabilities (proc (set_proc i f t) j)) k') as Hset.
  { intros f Hf. apply has_capability_bit; [|done]. by rewrite (same_core_get t _ q (set_proc_core t i f Hf)). }
  rewrite !Hset by done. rewrite (has_capability_bit t q j k') by done.
  assert ((2 ^ k =? 2 ^ k') = (k =? k')) as Hkk.
  { destruct (Z.eqb_spec k k') as [->|Hne]; [apply Z.eqb_refl|]. apply Z.eqb_neq. intros He. apply Hne. apply (Z.pow_inj_r 2); lia. }
  rewrite Hkk. destruct (Nat.eqb_spec i j) as [<-|Hij].
  - rewrite !proc_set_eq. cbn [andb]. unfold set_field. cbn [capabilities].
    rewrite Z.land_spec, Z.lor_spec, Z.pow2_bits_eqb by lia. split; [|done]. f_equal.
    unfold not64, u64. rewrite Z.mod_pow2_bits_low, Z.lnot_spec, Z.pow2_bits_eqb by lia. done.
  - rewrite !proc_set_ne by done. cbn. by rewrite andb_true_r, orb_false_r.
Qed.

(** ** The environment *)

Lemma set_proc_get t i f p : (∀ r, p_state (f r) = p_state r ∧ pid (f r) = pid r) →
  process_get (set_proc i f t) p = process_get t p.
Proof. intros Hf. apply same_core_get. by apply set_proc_core. Qed.

Lemma local_eq_true a b : local_eq (Some a) (Some b) = true ↔ a = b.
Proof. unfold local_eq. apply bool_decide_eq_true. Qed.

(** Round trip: a variable that [process_set_env] accepts, with a key that
    fits its 24-byte field, is read back by [process_get_env] with its value
    cut to the 63 bytes of the table and the size of the caller's buffer; the
    other variables of the process keep their values. *)
Theorem env_set_get_roundtrip t p i k v t' size :
  process_get t p = Some i → (length k ≤ 23)%nat → 0 ≤ env_count (proc t i) ≤ 8 → 0 < size →
  process_set_env p (Some k) (Some v) t = (true, t') →
  process_get_env p (Some k) size t' = (true, Some (take (Z.to_nat (size - 1)) (take 63 v))) ∧
  ∀ k2, k2 ≠ k → process_get_env p (Some k2) size t' = process_get_env p (Some k2) size t.
Proof.
  intros Hg Hk Hn Hs. unfold process_set_env.
  destruct (live_index p t) as [i'|] eqn:Hl; [|done]. apply live_index_get in Hl. rewrite Hg in Hl. injection Hl as <-.
  case_bool_decide; [done|]. cbv zeta. unfold process_get_env.
  assert (local_copy (Some k) PROCESS_ENV_KEY_LEN = k) as Hcopy by (change (take 23 k = k); by apply take_ge).
  change (local_copy (Some v) PROCESS_ENV_VALUE_LEN) with (take 63 v).
  assert ((size =? 0) = false) as Es by lia.
  destruct (env_index (proc t i) k) as [n|] eqn:Hix.
  - intros [= <-]. rewrite set_proc_get, Hg, Es, !proc_set_eq by done.
    set (r' := (proc t i) <| p_env := _ |>).
    assert (∀ x, (p_env r' x).1 = (p_env (proc t i) x).1) as Hkeys.
    { intros x. unfold r'. cbn. unfold upd. by destruct (Z.eqb_spec x (Z.of_nat n)) as [->|]. }
    assert (∀ key, env_index r' key = env_index (proc t i) key) as Hidx.
    { intros key. unfold env_index. change (env_count r') with (env_count (proc t i)). apply first_index_ext. intros x _. by rewrite Hkeys. }
    rewrite Hidx, Hix. split.
    + unfold r'. cbn. by rewrite upd_eq.
    + intros k2 Hk2. rewrite Hidx. destruct (env_index (proc t i) k2) as [n2|] eqn:Hix2; [|done].
      assert (n2 ≠ n) as Hne.
      { intros ->. apply first_index_Some in Hix as (_ & H1 & _), Hix2 as (_ & H2 & _).
        apply local_eq_true in H1, H2. congruence. }
      unfold r'. cbn. rewrite upd_ne by lia. done.
  - destruct (Z.geb_spec (env_count (proc t i)) PROCESS_ENV_COUNT) as [|Hlt]; [done|]. unfold PROCESS_ENV_COUNT in Hlt.
    intros [= <-]. rewrite set_proc_get, Hg, Es, !proc_set_eq by done.
    set (r' := ((proc t i) <| p_env := _ |>) <| env_count := _ |>). set (n := env_count (proc t i)) in *.
    assert (env_count r' = n + 1) as Hcnt by (unfold r'; cbn; rewrite u32_small by lia; done).
    assert (∀ x, x ≠ n → p_env r' x = p_env (proc t i) x) as Hold by (intros x Hx; unfold r'; cbn; by rewrite upd_ne).
    assert (p_env r' n = (k, take 63 v)) as Hnew
      by (transitivity (local_copy (Some k) PROCESS_ENV_KEY_LEN, take 63 v); [unfold r'; cbn; by rewrite upd_eq|by rewrite Hcopy]).
    clearbody r'. assert (∀ key, env_index r' key =
      match env_index (proc t i) key with Some x => Some x | None => if bool_decide (k = key) then Some (Z.to_nat n) else None end) as Hidx.
    { intros key. unfold env_index. rewrite Hcnt. fold n. replace (Z.to_nat (n + 1)) with (Z.to_nat n + 1)%nat by lia.
      rewrite first_index_app. rewrite (first_index_ext _ (λ x, local_eq (Some (p_env (proc t i) (Z.of_nat x)).1) (Some key))).
      2: { intros x Hx. rewrite Hold by lia. done. }
      destruct (first_index _ 0 (Z.to_nat n)); [done|]. cbn [first_index]. rewrite Nat.add_0_l, Z2Nat.id, Hnew by lia. cbn [fst].
      unfold local_eq. done. }
    split.
    + rewrite Hidx, Hix, bool_decide_true by done. rewrite Z2Nat.id by lia. by rewrite Hnew.
    + intros k2 Hk2. rewrite Hidx. destruct (env_index (proc t i) k2) as [x|] eqn:Hix2.
      * apply first_index_Some in Hix2 as (Hx & _). rewrite Hold by lia. done.
      * by rewrite bool_decide_false by done.
Qed.
End ProcessSpec.
