(* ===== verification/ProcMem.v ===== *)
(** * Processes on the real memory subsystem, and concrete runs

    The memory interface of Process.v instantiated with the page tables and
    the page allocator of Paging.v and Pmm.v, what that shows about
    [process_map_user_page], and concrete process tables. *)

From Stdlib Require Import Lia ZArith Bool.
From stdpp Require Import base list gmap numbers functions.
From S2P Require Import Prelude Pmm Paging ProcTable Ipc Process ProcessSpec.

Local Open Scope Z_scope.

Module ProcMem.
Import Ipc Process ProcessSpec.

(** ** The kernel memory as [MemEnv] *)

Record kmem := mkKmem { km_paging : paging; km_bytes : gmap Z Z; km_ticks : Z }.
#[export] Instance eta_kmem : Eta kmem := λ r, mkKmem (km_paging r) (km_bytes r) (km_ticks r).

Section instance.
Context (L : paging_layout).

#[export] Instance kernel_mem : MemEnv kmem := {
  me_scheduler_ticks := km_ticks;
  me_create_address_space e :=
    let '(cr3, s) := paging_create_address_space L (km_paging e) in (cr3, e <| km_paging := s |>);
  me_destroy_address_space cr3 e := e <| km_paging := paging_destroy_address_space L cr3 (km_paging e) |>;
  me_alloc_page e := let '(phys, s) := pg_alloc_page (km_paging e) in (phys, e <| km_paging := s |>);
  me_free_page phys e := e <| km_paging := pg_free_page phys (km_paging e) |>;
  me_map_page_in_cr3 cr3 va pa flags e :=
    let '(r, s) := paging_map_page_in_cr3 cr3 va pa flags (km_paging e) in (r, e <| km_paging := s |>);
  me_unmap_page_in_cr3 cr3 va e := e <| km_paging := (paging_unmap_page_in_cr3 cr3 va (km_paging e)).2 |>;
  me_virt_to_phys_in_cr3 e cr3 va := paging_virt_to_phys_in_cr3 cr3 va (km_paging e);
  me_read8 e a := default 0 (km_bytes e !! a);
  me_write8 a v e := e <| km_bytes := <[a := v]> (km_bytes e) |>;
}.

(** [process_map_user_page] takes the success code 0 of
    [paging_map_page_in_cr3] for a failure: when the page tables accept the
    mapping, it reports failure and records no page, but the address now
    translates to the frame, and that frame has been given back to the
    allocator. *)
Theorem map_user_page_success_inverted t p i va flags e phys s1 s2 T :
  process_get t p = Some i → p_state (proc t i) ≠ PROCESS_ZOMBIE →
  va mod 4096 = 0 → PROCESS_USER_BASE ≤ va < PROCESS_USER_LIMIT →
  user_page_count (proc t i) < PROCESS_USER_MAX_PAGES →
  (∀ k, 0 ≤ k < user_page_count (proc t i) → user_page_va (proc t i) k ≠ va) →
  0 ≤ flags < 4096 → pg_alloc_page (km_paging e) = (phys, s1) → phys mod 4096 = 0 → 0 < phys < 2 ^ 52 →
  tables_ok s1 T → T !! address_space_cr3 (proc t i) = Some 4%nat →
  paging_map_page_in_cr3 (address_space_cr3 (proc t i)) va phys (Z.lor 5 flags) s1 = (0, s2) →
  ∃ e', process_map_user_page p va flags t e = (false, t, e') ∧
    paging_virt_to_phys_in_cr3 (address_space_cr3 (proc t i)) va (km_paging e') = phys ∧
    pg_pmm (km_paging e') = pmm_free_page phys (pg_pmm s2).
Proof.
  intros Hg Hz Hal Hva Hcnt Hnew Hfl Ha Hpa Hpr Hok Hroot Hmap.
  pose proof (process_get_Some _ _ _ Hg) as (_ & _ & _ & Hr).
  unfold process_map_user_page. rewrite Hr. cbn [negb orb].
  rewrite page_mask_mod. change PROC_PAGE_SIZE with 4096. rewrite Hal. cbn [Z.eqb negb orb].
  destruct (Z.ltb_spec va PROCESS_USER_BASE); [lia|]. destruct (Z.geb_spec va PROCESS_USER_LIMIT); [lia|]. cbn [orb].
  rewrite Hg. cbv zeta. rewrite bool_decide_false by done. cbn [orb].
  destruct (Z.geb_spec (user_page_count (proc t i)) PROCESS_USER_MAX_PAGES); [lia|].
  assert (existsb (λ k, user_page_va (proc t i) k =? va) (seqZ 0 (user_page_count (proc t i))) = false) as ->.
  { apply not_true_iff_false. intros (k & Hk & Heq)%existsb_exists. apply Z.eqb_eq in Heq.
    apply list_elem_of_In, elem_of_seqZ in Hk. apply (Hnew k); [lia|done]. }
  cbn [me_alloc_page kernel_mem]. rewrite Ha. rewrite (proj2 (Z.eqb_neq phys 0)) by lia.
  cbn [me_map_page_in_cr3 kernel_mem]. change (Z.lor VMM_PAGE_PRESENT VMM_PAGE_USER) with 5.
  change (km_paging (e <| km_paging := s1 |>)) with s1. rewrite Hmap. cbn [Z.eqb].
  eexists. split; [reflexivity|]. cbn [me_free_page kernel_mem]. split; [|done].
  unfold paging_virt_to_phys_in_cr3. cbn.
  destruct (map_page_root_spec _ _ _ _ _ _ _ _ Hok Hroot Hmap) as (_ & _ & _ & _ & _ & _ & Hin).
  destruct (Hin eq_refl va eq_refl) as [_ ->].
  assert (0 ≤ Z.lor 5 flags < 4096) as Hl.
  { split; [apply Z.lor_nonneg; lia|]. destruct (decide (Z.lor 5 flags = 0)) as [->|]; [lia|].
    apply Z.log2_lt_cancel. rewrite Z.log2_lor by lia. change (Z.log2 4096) with 12.
    assert (Z.log2 flags < 12); [|cbn; lia]. destruct (decide (flags = 0)) as [->|]; [cbn; lia|]. apply Z.log2_lt_pow2; lia. }
  rewrite !entry_addr_spec by lia. rewrite Hpa, (Z.mod_small (Z.lor 5 flags)) by lia.
  rewrite Z.sub_0_r, Z.sub_diag, Z.lor_0_r. change 0xFFF with (2 ^ 12 - 1). rewrite land_low_mask by lia.
  change (2 ^ 12) with 4096. by rewrite Hal, Z.lor_0_r.
Qed.
End instance.

(** ** Concrete process tables *)

(** An environment that hands out address spaces and frames by counting. *)
#[export] Instance demo_mem : MemEnv Z := {
  me_scheduler_ticks e := e;
  me_create_address_space e := (0x100000 + e * 4096, e + 1);
  me_destroy_address_space _ e := e;
  me_alloc_page e := (0x900000 + e * 4096, e + 1);
  me_free_page _ e := e;
  me_map_page_in_cr3 _ _ _ _ e := (1, e);
  me_unmap_page_in_cr3 _ _ e := e;
  me_virt_to_phys_in_cr3 _ _ va := va;
  me_read8 _ _ := 0;
  me_write8 _ _ e := e;
}.

Definition zero_fd : process_fd_t := mkFd PROCESS_FD_UNUSED 0 0 0 [].
Definition zero_process : nexus_process_t :=
  mkProcess 0 0 0 0 0 0 0 0 0 0 0 [] [] (λ _, ([], [])) 0 0 0 0 0 0 (λ _, 0) (λ _, 0) (λ _, 0) 0 0
    (λ _, zero_fd) (λ _, 0) 0 0 PROCESS_UNUSED 0.
Definition zero_channel : ipc_channel_t :=
  mkChannel false (λ _, false) (λ _, 0) (λ _, 0) (λ _, 0) (λ _ _, mkMessage 0 (λ _, 0)).
Definition demo_bss_tab : ptable := mkPtable (λ _, zero_process) 0 0 0 0 false (λ _, zero_channel) false.
Definition demo_tab0 : ptable := nexus_ipc_init (process_init demo_bss_tab).
Definition demo_tab1 : ptable := (process_create 0 demo_tab0 0).1.2.
Definition demo_tab2 : ptable := (process_create 1 demo_tab1 1).1.2.
(** Processes 1 and 2 share a channel: handle 1 of each. *)
Definition demo_tab3 : ptable := (nexus_ipc_create 1 2 demo_tab2).2.

Lemma demo_tab0_wf : pwf demo_tab0.
Proof.
  apply (handles_only_wf (process_init demo_bss_tab)); [apply process_init_wf|].
  split; [done|]. intros i. apply same_but_handles_refl.
Qed.

Lemma demo_run2 : rtc proc_step (process_init demo_bss_tab) (process_create 0 (process_init demo_bss_tab) 0).1.2.
Proof. apply rtc_once. apply ps_create. vm_compute. reflexivity. Qed.

Lemma process_table_invariant_witness :
  process_count (process_create 0 (process_init demo_bss_tab) 0).1.2 = 1 ∧
  n_alive (process_create 0 (process_init demo_bss_tab) 0).1.2 = 1.
Proof.
  destruct (process_table_invariant demo_bss_tab _ demo_run2) as (_ & _ & _ & Hc & _).
  split; [vm_compute; reflexivity|]. rewrite <- Hc. vm_compute. reflexivity.
Defined.

Lemma process_create_correct_witness :
  pwf demo_tab1 ∧ created_process 0 demo_tab0 1 demo_tab1.
Proof.
  destruct (process_create_correct 0 demo_tab0 0 1 demo_tab1 1 demo_tab0_wf) as [W Hcase].
  - vm_compute. reflexivity.
  - vm_compute. reflexivity.
  - split; [exact W|]. destruct Hcase as [[E0 _]|[_ Hc]]; [discriminate E0|exact Hc].
Defined.

(** Process 1 with one writable page and the variable "A". *)
Definition demo_tab4 : ptable := (process_map_user_page 1 0x400000 VMM_PAGE_WRITABLE demo_tab1 7).1.2.
Definition demo_tab5 : ptable := (process_map_user_page 1 0x401000 VMM_PAGE_NX demo_tab4 8).1.2.

Lemma user_range_valid_correct_witness :
  process_user_range_valid 1 0x400010 32 VMM_PAGE_WRITABLE demo_tab4 = true ∧
  ∀ a, 0x400010 ≤ a < 0x400010 + 32 → page_allowed (proc demo_tab4 0) VMM_PAGE_WRITABLE a = true.
Proof.
  assert (process_user_range_valid 1 0x400010 32 VMM_PAGE_WRITABLE demo_tab4 = true) as Hv by (vm_compute; reflexivity).
  split; [exact Hv|].
  refine (proj2 (proj2 (proj2 (proj2 (proj1 (user_range_valid_correct demo_tab4 1 0%nat 0x400010 32 VMM_PAGE_WRITABLE _ _ _ _) Hv))))).
  - vm_compute. reflexivity.
  - intros k Hk. assert (k = 0) as -> by (change (user_page_count (proc demo_tab4 0)) with 1 in Hk; lia). vm_compute. reflexivity.
  - lia.
  - lia.
Defined.

Lemma user_read_rejects_nx_witness : process_user_read 1 0x401008 4 demo_tab5 9 = (false, []).
Proof.
  refine (proj2 (user_read_rejects_nx demo_tab5 9 1 0%nat 1%nat 0x401008 4 _ _ _ _ _)).
  - vm_compute. reflexivity.
  - vm_compute. reflexivity.
  - vm_compute. reflexivity.
  - lia.
  - lia.
Defined.

Lemma capability_drop_grant_witness :
  process_has_capability 2 4 (process_drop_capability 2 4 demo_tab2).2 = false.
Proof.
  assert (nexus_capability_valid 4 = true) as Hv by reflexivity.
  destruct (capability_drop_grant demo_tab2 2 1%nat 4 2 1%nat 4 ltac:(vm_compute; reflexivity)
    ltac:(vm_compute; reflexivity) ltac:(lia) ltac:(lia) Hv) as [_ Hd].
  destruct (Hd Hv) as [-> _]. vm_compute. reflexivity.
Defined.

Lemma env_set_get_roundtrip_witness :
  process_get_env 1 (Some [65]) 64 (process_set_env 1 (Some [65]) (Some [120; 121]) demo_tab1).2 = (true, Some [120; 121]).
Proof.
  refine (proj1 (env_set_get_roundtrip demo_tab1 1 0%nat [65] [120; 121]
    (process_set_env 1 (Some [65]) (Some [120; 121]) demo_tab1).2 64 _ _ _ _ _)).
  - vm_compute. reflexivity.
  - cbn. lia.
  - change (env_count (proc demo_tab1 0)) with 0. lia.
  - lia.
  - vm_compute. reflexivity.
Defined.

(** *** A successful page mapping *)

Definition demo_layout_any : paging_layout := mkLayout demo_root 0 (λ _, 0) (λ _, 0).

Definition demo_e : kmem := mkKmem demo_paging ∅ 0.
Definition demo_s1 : paging := (pg_alloc_page demo_paging).2.
Definition demo_s2 : paging := (paging_map_page_in_cr3 demo_root 0x40000000 0x205000 (Z.lor 5 2) demo_s1).2.
Definition demo_tab6 : ptable := set_proc 0 (λ r, r <| address_space_cr3 := demo_root |>) demo_tab1.

Lemma pair_snd {A B} (x : A * B) a : x.1 = a → x = (a, x.2).
Proof. by destruct x; intros <-. Qed.

Lemma demo_alloc : pg_alloc_page demo_paging = (0x205000, demo_s1).
Proof. unfold demo_s1. exact (pair_snd (pg_alloc_page demo_paging) 0x205000 ltac:(vm_compute; reflexivity)). Qed.
Lemma demo_map : paging_map_page_in_cr3 demo_root 0x40000000 0x205000 (Z.lor 5 2) demo_s1 = (0, demo_s2).
Proof.
  unfold demo_s2.
  exact (pair_snd (paging_map_page_in_cr3 demo_root 0x40000000 0x205000 (Z.lor 5 2) demo_s1) 0 ltac:(vm_compute; reflexivity)).
Qed.

Lemma demo_s1_ok : tables_ok demo_s1 demo_tables.
Proof.
  assert (pmm_wf (pg_pmm demo_s1)) as Hwf.
  { pose proof (pmm_alloc_rep demo_pmm _ (pmm_rep_free_set _ demo_pmm_wf)) as Ha.
    assert (pg_pmm demo_s1 = (pmm_alloc_page demo_pmm).2) as ->
      by (unfold demo_s1, pg_alloc_page; cbn [demo_paging pg_pmm]; by destruct (pmm_alloc_page demo_pmm)).
    destruct (pmm_alloc_page demo_pmm) as [r s']. cbn [snd].
    destruct Ha as [(_ & _ & ->)|(q & _ & _ & _ & [Hw _])]; [apply demo_pmm_wf|exact Hw]. }
  assert (phys_mem demo_s1 = ∅) as Hm by (vm_compute; reflexivity).
  unfold demo_tables. split.
  - exact Hwf.
  - intros t l [<- <-]%lookup_singleton_Some. split; [lia|]. split; [reflexivity|]. split; [unfold demo_root; lia|].
    intros [_ Hf]. vm_compute in Hf. discriminate Hf.
  - intros t l i c [<- [= <-]]%lookup_singleton_Some _ _. unfold rd. rewrite Hm, lookup_empty. discriminate.
  - intros t i [_ Hl]%lookup_singleton_Some. discriminate Hl.
  - intros t1 t2 l1 l2 i1 i2 c [<- <-]%lookup_singleton_Some _ _ _ _ _. unfold rd. rewrite Hm, lookup_empty.
    cbn. discriminate.
Qed.

Lemma map_user_page_success_inverted_witness :
  ∃ e', process_map_user_page (H := kernel_mem demo_layout_any) 1 0x40000000 2 demo_tab6 demo_e = (false, demo_tab6, e') ∧
    paging_virt_to_phys_in_cr3 demo_root 0x40000000 (km_paging e') = 0x205000 ∧
    pmm_is_page_free 0x205000 (pg_pmm (km_paging e')) = true.
Proof.
  destruct (map_user_page_success_inverted demo_layout_any demo_tab6 1 0%nat 0x40000000 2 demo_e 0x205000 demo_s1 demo_s2 demo_tables
    ltac:(vm_compute; reflexivity) ltac:(vm_compute; discriminate) eq_refl
    ltac:(unfold PROCESS_USER_BASE, PROCESS_USER_LIMIT; lia) ltac:(vm_compute; reflexivity)
    ltac:(intros k Hk; change (user_page_count (proc demo_tab6 0)) with 0 in Hk; lia) ltac:(lia)
    demo_alloc eq_refl ltac:(lia) demo_s1_ok ltac:(vm_compute; reflexivity) demo_map) as (e' & E1 & E2 & E3).
  exists e'. split; [exact E1|]. split; [exact E2|]. rewrite E3. vm_compute. reflexivity.
Defined.

(** *** Channels *)

Lemma demo_chan_ok : chan_ok (chan demo_tab3 0).
Proof. intros side. vm_compute. split; split; congruence. Qed.

Lemma demo_endpoint1 : endpoint demo_tab3 1 1 0 false.
Proof. split; vm_compute; reflexivity. Qed.
Lemma demo_endpoint2 : endpoint demo_tab3 2 1 0 true.
Proof. split; vm_compute; reflexivity. Qed.

Lemma ipc_channels_fifo_witness :
  nexus_ipc_recv 2 1 16 demo_tab3 = (None, demo_tab3).
Proof.
  destruct (ipc_channels_fifo demo_tab3 2 1 1%nat 0%nat true) as [_ Hr].
  - vm_compute. reflexivity.
  - vm_compute. discriminate.
  - exact demo_endpoint2.
  - exact demo_chan_ok.
  - exact (Hr 16 ltac:(lia)).
Defined.

Lemma ipc_send_recv_roundtrip_witness :
  ∃ t' t'', nexus_ipc_send 1 1 (Some (λ k, 65 + k)) 3 demo_tab3 = (3, t') ∧
    nexus_ipc_recv 2 1 16 t' = (Some [65; 66; 67], t'').
Proof.
  destruct (ipc_send_recv_roundtrip demo_tab3 1 1 2 1 0%nat 1%nat 0%nat false (λ k, 65 + k) 3 16
    ltac:(vm_compute; reflexivity) ltac:(vm_compute; discriminate) demo_endpoint1
    ltac:(vm_compute; reflexivity) ltac:(vm_compute; discriminate) demo_endpoint2 demo_chan_ok
    ltac:(vm_compute; reflexivity) ltac:(lia) ltac:(lia)) as (t' & t'' & E1 & E2 & _).
  exists t', t''. split; [exact E1|exact E2].
Defined.

Lemma ipc_reachable_wf_witness :
  active (chan demo_tab3 0) = true ∧ ch_pid (chan demo_tab3 0) false ≠ ch_pid (chan demo_tab3 0) true.
Proof.
  assert (active (chan demo_tab3 0) = true) as Ha by (vm_compute; reflexivity). split; [exact Ha|].
  refine (proj1 (proj2 (ipc_reachable_wf (process_init demo_bss_tab) demo_tab3 _ _ 0%nat Ha))).
  - intros c _. reflexivity.
  - eapply rtc_l; [|eapply rtc_l; [|apply rtc_once; exact (is_create demo_tab2 1 2)]].
    + apply (is_process _ demo_tab1). reflexivity.
    + apply (is_process _ demo_tab2). reflexivity.
Defined.

(** *** Channels of processes that exit *)

(** One round: a process 2 opens a channel to process 1 and exits, is reaped. *)
Definition exit_round (t : ptable) : ptable :=
  let '(q, t, _) := process_create 0 t 0 in
  let '(_, t) := nexus_ipc_create q 1 t in
  let '(_, t) := process_exit q t in
  (process_reap q 0 t 0).1.2.

(** [nexus_ipc_process_terminate] drops the handles of both ends but leaves
    the channel active, so its slot is lost: after sixteen processes have
    opened a channel and exited, no channel can be created any more although
    no process holds a handle. *)
Theorem ipc_exit_leaks_channels :
  let t16 := Nat.iter 16 exit_round demo_tab1 in
  let t17 := (process_create 0 t16 0).1.2 in
  nexus_ipc_open_count 1 t16 = 0 ∧ process_count t16 = 1 ∧ process_zombie_count t16 = 0 ∧
  (∀ c, (c < 16)%nat → active (chan t16 c) = true) ∧
  process_get t17 18 = Some 1%nat ∧ (nexus_ipc_create 18 1 t17).1 = None.
Proof.
  cbv zeta. split; [vm_compute; reflexivity|]. split; [vm_compute; reflexivity|]. split; [vm_compute; reflexivity|].
  split; [|split; vm_compute; reflexivity]. intros c Hc.
  do 16 (destruct c as [|c]; [vm_compute; reflexivity|]). lia.
Qed.
End ProcMem.
