(* ===== verification/UserMem.v ===== *)
(** * User memory (src/kernel/core/process/process.c)

    What mapping a page and copying into user space do to the bytes of
    memory, over any memory that obeys [MemLaws]: a page that is mapped is
    zero, and a copy changes exactly the bytes it is given, through the
    translation of the process's address space. *)

From Stdlib Require Import Lia ZArith Bool.
From stdpp Require Import base list gmap numbers functions.
From S2P Require Import Prelude Paging ProcTable Process ProcessSpec ProcMem.

Local Open Scope Z_scope.
Import Process.

(** Memory as the process manager uses it: a byte that is stored is read back
    and changes no other byte and no translation; taking a page and mapping it
    changes no byte a process can read. *)
Class MemLaws (E : Type) `{MemEnv E} := {
  ml_read_write a v (e : E) b : me_read8 (me_write8 a v e) b = if b =? a then v else me_read8 e b;
  ml_virt_write a v (e : E) cr3 va : me_virt_to_phys_in_cr3 (me_write8 a v e) cr3 va = me_virt_to_phys_in_cr3 e cr3 va;
  ml_read_alloc (e : E) a : me_read8 (me_alloc_page e).2 a = me_read8 e a;
  ml_read_map cr3 va pa fl (e : E) a : me_read8 (me_map_page_in_cr3 cr3 va pa fl e).2 a = me_read8 e a;
}.

(** The page tables and the page allocator of the kernel. *)
#[export] Instance kernel_mem_laws (L : paging_layout) : @MemLaws ProcMem.kmem (ProcMem.kernel_mem L).
Proof.
  split.
  - intros a v e b. cbn. destruct (Z.eqb_spec b a) as [->|Hne]; [by rewrite lookup_insert_eq|by rewrite lookup_insert_ne].
  - done.
  - intros e a. cbn. by destruct (pg_alloc_page _).
  - intros cr3 va pa fl e a. cbn. by destruct (paging_map_page_in_cr3 _ _ _ _ _).
Qed.

Module UserMem.
Import ProcessSpec.

Section mem.
Context {E : Type} `{ML : MemLaws E}.
Implicit Types (t : ptable) (e : E).

(** ** Runs of stores *)

Definition store_run (a0 : Z) (f : Z → Z) (n : Z) e : E :=
  foldl (λ e k, me_write8 (a0 + k) (f k) e) e (seqZ 0 n).

Lemma store_run_read a0 f n e b :
  0 ≤ n → me_read8 (store_run a0 f n e) b = if decide (a0 ≤ b < a0 + n) then f (b - a0) else me_read8 e b.
Proof.
  intros Hn. unfold store_run. rewrite <- (Z2Nat.id n) by done. generalize (Z.to_nat n). clear n Hn. intros n.
  induction n as [|n IH]; [cbn; rewrite decide_False; [done|lia]|].
  rewrite seqZ_S, foldl_app. cbn [foldl]. rewrite ml_read_write, IH.
  destruct (Z.eqb_spec b (a0 + (0 + Z.of_nat n))) as [->|Hne].
  - rewrite decide_True by lia. f_equal. lia.
  - repeat case_decide; done || lia.
Qed.

Lemma store_run_virt a0 f n e cr3 va :
  me_virt_to_phys_in_cr3 (store_run a0 f n e) cr3 va = me_virt_to_phys_in_cr3 e cr3 va.
Proof.
  unfold store_run. generalize (seqZ 0 n). intros l. revert e.
  induction l as [|k l IH]; intros e; [done|]. cbn [foldl]. by rewrite IH, ml_virt_write.
Qed.

(** ** Zeroing *)

(** Every byte is as it was or 0. *)
Definition zeroes e e' : Prop := ∀ a, me_read8 e' a = me_read8 e a ∨ me_read8 e' a = 0.

Lemma zeroes_trans e1 e2 e3 : zeroes e1 e2 → zeroes e2 e3 → zeroes e1 e3.
Proof. intros H1 H2 a. destruct (H2 a) as [->|]; [apply H1|by right]. Qed.

Lemma store_run_zeroes a0 n e : zeroes e (store_run a0 (λ _, 0) n e).
Proof.
  unfold store_run. generalize (seqZ 0 n). intros l. revert e.
  induction l as [|k l IH]; intros e; [by left|]. cbn [foldl]. eapply zeroes_trans; [|apply IH].
  intros a. rewrite ml_read_write. destruct (a =? _); tauto.
Qed.

Lemma user_zero_zeroes p va size t e : zeroes e (process_user_zero p va size t e).2.
Proof.
  unfold process_user_zero. destruct (process_get t p) as [i|]; [|by left]. destruct (bad_user_range va size); [by left|].
  generalize 0 at 2. intros off. generalize (chunk_fuel size). intros fuel. revert off e.
  induction fuel as [|fuel IH]; intros off e; cbn [chunk_loop]; (destruct (off <? size); [|by left]); [by left|].
  cbv zeta. unfold write_chunk at 1. destruct (_ =? 0); [by left|]. eapply zeroes_trans; [|apply IH].
  apply (store_run_zeroes (byte_addr _ _)).
Qed.

(** The frames of all pages of slot [i] hold zeros. *)
Definition zeroed t (i : nat) e : Prop :=
  ∀ j k, 0 ≤ j < user_page_count (proc t i) → 0 ≤ k < PROC_PAGE_SIZE → me_read8 e (user_page_phys (proc t i) j + k) = 0.

Lemma zeroed_zeroes t i e e' : zeroed t i e → zeroes e e' → zeroed t i e'.
Proof. intros Hz Hw j k Hj Hk. destruct (Hw (user_page_phys (proc t i) j + k)) as [->|]; [by apply Hz|done]. Qed.

Lemma map_page_zeroed p i va fl t e t' e' :
  pwf t → process_get t p = Some i → zeroed t i e →
  process_map_user_page p va fl t e = (true, t', e') → zeroed t' i e'.
Proof.
  intros W Hg Hz. unfold process_map_user_page. destruct (_ || _); [done|]. rewrite Hg. cbv zeta.
  destruct (bool_decide _ || _); [done|]. destruct (existsb _ _); [done|].
  pose proof (λ a, ml_read_alloc e a) as Ha. destruct (me_alloc_page e) as [phys e1]. destruct (phys =? 0); [done|].
  set (fl' := Z.lor _ fl). pose proof (λ a, ml_read_map (address_space_cr3 (proc t i)) va phys fl' e1 a) as Hm.
  destruct (me_map_page_in_cr3 _ _ _ _ e1) as [rc e2]. destruct (rc =? 0); [done|]. cbn [snd] in *.
  change (zero_page phys e2) with (store_run phys (λ _, 0) PROC_PAGE_SIZE e2).
  assert (∀ b, me_read8 (store_run phys (λ _, 0) PROC_PAGE_SIZE e2) b =
    if decide (phys ≤ b < phys + PROC_PAGE_SIZE) then 0 else me_read8 e b) as Hread.
  { intros b. rewrite store_run_read by (unfold PROC_PAGE_SIZE; lia). by rewrite Hm, Ha. }
  revert Hread. generalize (store_run phys (λ _, 0) PROC_PAGE_SIZE e2). intros e3 Hread [= <- <-].
  apply process_get_Some in Hg as (Hi & _). pose proof (pw_pages _ W i Hi). unfold PROCESS_USER_MAX_PAGES in *.
  intros j k. rewrite proc_set_eq. cbn [user_page_count user_page_phys]. rewrite u64_small by lia. intros Hj Hk.
  rewrite Hread. case_decide as Hd; [done|]. destruct (decide (j = user_page_count (proc t i))) as [->|Hne].
  - cbn in Hd. rewrite upd_eq in Hd. lia.
  - cbn in Hj |- *. rewrite upd_ne by done. apply Hz; lia.
Qed.

(** ** Copying through a translation *)

Lemma chunk_loop_virt fuel cr3 src va size off e cr3' x :
  me_virt_to_phys_in_cr3 (chunk_loop fuel (write_chunk cr3 src) va size off e).2 cr3' x = me_virt_to_phys_in_cr3 e cr3' x.
Proof.
  revert off e. induction fuel as [|fuel IH]; intros off e; cbn [chunk_loop]; (destruct (off <? size); [|done]); [done|].
  cbv zeta. unfold write_chunk at 1. destruct (_ =? 0); [done|]. rewrite IH.
  apply (store_run_virt (byte_addr _ _) (λ k, src (off + k))).
Qed.

(** Where the byte at the virtual address [x] is, in an address space. *)
Definition phys_byte e cr3 (x : Z) : Z := byte_addr (me_virt_to_phys_in_cr3 e cr3 x) x.

(** [D] is a set of whole pages of user space that the translation [phi]
    takes to different bytes, page by page. *)
Record placed (phi : Z → Z) (D : Z → Prop) : Prop := {
  pl_page x k : D x → 0 ≤ k → x mod PROC_PAGE_SIZE + k < PROC_PAGE_SIZE → D (x + k) ∧ phi (x + k) = phi x + k;
  pl_inj x y : D x → D y → phi x = phi y → x = y;
}.

Section copy.
Context (cr3 : Z) (src : Z → Z) (va size : Z) (D : Z → Prop) (phi : Z → Z).
Context (Hva : 0 ≤ va) (Hsize : va + size < 2 ^ 64) (Hin : ∀ x, va ≤ x < va + size → D x) (P : placed phi D).

(** One chunk, of [chunk] bytes at [v], seen at the byte [y]. *)
Lemma chunk_read v chunk off e y :
  D v → 0 < chunk → v mod PROC_PAGE_SIZE + chunk ≤ PROC_PAGE_SIZE → D y →
  me_read8 (store_run (phi v) (λ k, src (off + k)) chunk e) (phi y) =
    if decide (v ≤ y < v + chunk) then src (off + (y - v)) else me_read8 e (phi y).
Proof.
  intros Dv Hc Hp Dy. rewrite store_run_read by lia. destruct (decide (v ≤ y < v + chunk)) as [Hy|Hy].
  - assert (phi y = phi v + (y - v)) as ->
      by (replace y with (v + (y - v)) at 1 by lia; apply (pl_page _ _ P); [done|lia..]).
    rewrite decide_True by lia. f_equal. lia.
  - apply decide_False. intros Hr. destruct (pl_page _ _ P v (phi y - phi v)) as [Dk Ek]; [done|lia..|].
    replace (phi v + (phi y - phi v)) with (phi y) in Ek by lia. apply (pl_inj _ _ P) in Ek; [lia|done..].
Qed.

Lemma copy_loop_read fuel off e e' :
  chunk_loop fuel (write_chunk cr3 src) va size off e = (true, e') → 0 ≤ off →
  (∀ x, D x → phys_byte e cr3 x = phi x) →
  ∀ y, D y → me_read8 e' (phi y) = if decide (va + off ≤ y < va + size) then src (y - va) else me_read8 e (phi y).
Proof.
  revert off e. induction fuel as [|fuel IH]; intros off e; cbn [chunk_loop];
    (destruct (Z.ltb_spec off size) as [Hlt|Hge];
     [|intros [= <-] Ho Ht y Dy; by rewrite decide_False by lia]); [done|].
  cbv zeta. intros Hl Ho Ht. revert Hl.
  rewrite (u64_small (va + off)) by lia. set (v := va + off) in *. rewrite page_mask_mod.
  set (chunk := if _ >? _ then _ else _). pose proof (Z.mod_pos_bound v PROC_PAGE_SIZE) as Hm.
  assert (0 < chunk ∧ chunk ≤ size - off ∧ v mod PROC_PAGE_SIZE + chunk ≤ PROC_PAGE_SIZE) as (Hc & Hc1 & Hc2).
  { unfold chunk, PROC_PAGE_SIZE in *. destruct (Z.gtb_spec (4096 - v mod 4096) (size - off)); lia. }
  clearbody chunk. unfold write_chunk at 1. destruct (_ =? 0); [done|].
  change (foldl _ e (seqZ 0 chunk)) with (store_run (phys_byte e cr3 v) (λ k, src (off + k)) chunk e).
  assert (D v) as Dv by (apply Hin; lia). rewrite (Ht v Dv). set (e1 := store_run _ _ _ e). intros Hl.
  intros y Dy. rewrite (IH (off + chunk) e1 Hl ltac:(lia)) with (y := y); [|intros x Dx|done].
  2: { unfold phys_byte, e1. rewrite store_run_virt. by apply Ht. }
  unfold e1. rewrite chunk_read by done. repeat case_decide; try lia; try done; f_equal; lia.
Qed.
End copy.
End mem.
End UserMem.
