(* ===== verification/Events.v ===== *)
(** * Interrupt events (src/kernel/core/events/, src/kernel/core/watchdog.c)

    [EventQueue]: the ring between the interrupt handlers (producers) and the
    main loop (consumer) of event_queue.c, with the consumer cut into its
    memory accesses so that interrupts can fall between them. [Watchdog]: the
    stall detector of watchdog.c. [KernelEvents]: the dispatcher of
    kernel_events.c, on top of both and of the scheduler's wait queues. *)

From Stdlib Require Import Lia ZArith Bool.
From stdpp Require Import base list gmap numbers functions relations.
From S2P Require Import Prelude Scheduler Threads.

Local Open Scope Z_scope.

Definition NEXUS_EVENT_NONE : Z := 0.
Definition NEXUS_EVENT_TIMER_TICK : Z := 1.
Definition NEXUS_EVENT_KEYBOARD_SCANCODE : Z := 2.
Definition NEXUS_EVENT_MOUSE_BYTE : Z := 3.
Definition NEXUS_EVENT_QUEUE_CAPACITY : Z := 256.

Record nexus_event_t := mkEvent { ev_type : Z; ev_source : Z; ev_data : Z }.

Module EventQueue.

Record event_queue := mkEventQueue {
  g_queue : Z → nexus_event_t;
  g_head : Z;
  g_tail : Z;
  g_pushed : Z;
  g_dropped : Z;
  g_popped : Z;
  g_ready : bool;
}.
#[export] Instance eta_event_queue : Eta event_queue := λ r,
  mkEventQueue (g_queue r) (g_head r) (g_tail r) (g_pushed r) (g_dropped r) (g_popped r) (g_ready r).

Implicit Types (q : event_queue) (e : nexus_event_t).

Definition event_queue_init q : event_queue :=
  mkEventQueue (g_queue q) 0 0 0 0 0 true.

(** The producer: its body runs with interrupts disabled, so it is one step
    of the machine. *)
Definition event_queue_push (type source data : Z) q : bool * event_queue :=
  if negb (g_ready q) || (type =? NEXUS_EVENT_NONE) then (false, q)
  else
    let head := g_head q in
    let next := u32 (head + 1) mod NEXUS_EVENT_QUEUE_CAPACITY in
    let tail := g_tail q in
    if next =? tail then (false, q <| g_dropped := u64 (g_dropped q + 1) |>)
    else
      let q := q <| g_queue := upd (g_queue q) head (mkEvent (u32 type) source data) |> in
      let q := q <| g_head := next |> in
      (true, q <| g_pushed := u64 (g_pushed q + 1) |>).

Definition event_queue_pop q : option nexus_event_t * event_queue :=
  if negb (g_ready q) then (None, q)
  else
    let tail := g_tail q in
    let head := g_head q in
    if tail =? head then (None, q)
    else
      let event := g_queue q tail in
      let q := q <| g_tail := u32 (tail + 1) mod NEXUS_EVENT_QUEUE_CAPACITY |> in
      (Some event, q <| g_popped := u64 (g_popped q + 1) |>).

Definition event_queue_count q : Z :=
  let head := g_head q in
  let tail := g_tail q in
  if head >=? tail then u32 (head - tail) else u32 (NEXUS_EVENT_QUEUE_CAPACITY - tail + head).

(** ** The consumer, one memory access at a time

    [event_queue_pop] does not disable interrupts: a handler can push between
    any two of its accesses to the ring. The event is copied member by member. *)

Inductive pop_pc :=
| PopIdle                                  (* not in [event_queue_pop] *)
| PopTail (tail : Z)                       (* [tail = g_tail] done *)
| PopFound (tail : Z)                      (* [head] read, [tail != head] *)
| PopType (tail type : Z)                  (* [event->type] copied *)
| PopSource (tail type source : Z)         (* [event->source] copied *)
| PopCopied (tail : Z) (e : nexus_event_t) (* [*event = g_queue[tail]] done *)
| PopMoved (e : nexus_event_t).            (* [g_tail] written *)

(** The next access: new program counter, new ring, and the event handed to
    the caller when the call returns with one. *)
Definition pop_access (pc : pop_pc) q : pop_pc * event_queue * option nexus_event_t :=
  match pc with
  | PopIdle => if negb (g_ready q) then (PopIdle, q, None) else (PopTail (g_tail q), q, None)
  | PopTail tail => if tail =? g_head q then (PopIdle, q, None) else (PopFound tail, q, None)
  | PopFound tail => (PopType tail (ev_type (g_queue q tail)), q, None)
  | PopType tail type => (PopSource tail type (ev_source (g_queue q tail)), q, None)
  | PopSource tail type source =>
     (PopCopied tail (mkEvent type source (ev_data (g_queue q tail))), q, None)
  | PopCopied tail e =>
     (PopMoved e, q <| g_tail := u32 (tail + 1) mod NEXUS_EVENT_QUEUE_CAPACITY |>, None)
  | PopMoved e => (PopIdle, q <| g_popped := u64 (g_popped q + 1) |>, Some e)
  end.

(** Without interrupts the accesses compose to [event_queue_pop]. *)
Fixpoint pop_run (fuel : nat) (pc : pop_pc) q : option nexus_event_t * event_queue :=
  match fuel with
  | O => (None, q)
  | S fuel =>
     match pop_access pc q with
     | (PopIdle, q, r) => (r, q)
     | (pc, q, _) => pop_run fuel pc q
     end
  end.

Lemma pop_run_event_queue_pop q : pop_run 7 PopIdle q = event_queue_pop q.
Proof.
  unfold event_queue_pop. cbn. destruct (g_ready q) eqn:Hr; cbn; [|done].
  destruct (g_tail q =? g_head q) eqn:Ht; cbn; [done|]. by destruct (g_queue q (g_tail q)).
Qed.

(** ** Interleavings

    The ring with the consumer's program counter and two logs: the events
    the producer was told were queued, and those handed to the consumer. *)

Record run := mkRun {
  r_queue : event_queue;
  r_pc : pop_pc;
  r_accepted : list nexus_event_t;
  r_received : list nexus_event_t;
}.

Inductive spsc_step : run → run → Prop :=
| spsc_push q pc acc rcv type source data :
    spsc_step (mkRun q pc acc rcv)
      (let '(ok, q') := event_queue_push type source data q in
       mkRun q' pc (if ok then acc ++ [mkEvent (u32 type) source data] else acc) rcv)
| spsc_pop q pc acc rcv :
    spsc_step (mkRun q pc acc rcv)
      (let '(pc', q', r) := pop_access pc q in
       mkRun q' pc' acc (match r with Some e => rcv ++ [e] | None => rcv end)).

Definition spsc_start q : run := mkRun (event_queue_init q) PopIdle [] [].

(** The queued events, oldest first. *)
Definition queued q : list nexus_event_t :=
  ring 256 (g_queue q) (g_tail q) ((g_head q - g_tail q) mod 256).

(** The event taken out of the ring by a call that has not returned yet. *)
Definition in_flight (pc : pop_pc) : list nexus_event_t :=
  match pc with PopMoved e => [e] | _ => [] end.

Definition pc_ok (pc : pop_pc) q : Prop :=
  match pc with
  | PopIdle => True
  | PopTail t => t = g_tail q
  | PopFound t => t = g_tail q ∧ g_tail q ≠ g_head q
  | PopType t ty => t = g_tail q ∧ g_tail q ≠ g_head q ∧ ty = ev_type (g_queue q t)
  | PopSource t ty src =>
     t = g_tail q ∧ g_tail q ≠ g_head q ∧ ty = ev_type (g_queue q t) ∧ src = ev_source (g_queue q t)
  | PopCopied t e => t = g_tail q ∧ g_tail q ≠ g_head q ∧ e = g_queue q t
  | PopMoved e => True
  end.

Record spsc_inv (r : run) : Prop := {
  si_head : 0 ≤ g_head (r_queue r) < 256;
  si_tail : 0 ≤ g_tail (r_queue r) < 256;
  si_ready : g_ready (r_queue r) = true;
  si_pc : pc_ok (r_pc r) (r_queue r);
  si_log : r_accepted r = r_received r ++ in_flight (r_pc r) ++ queued (r_queue r);
  si_pushed : g_pushed (r_queue r) = u64 (Z.of_nat (length (r_accepted r)));
  si_popped : g_popped (r_queue r) = u64 (Z.of_nat (length (r_received r)));
}.

Lemma u64_succ n : u64 (u64 n + 1) = u64 (n + 1).
Proof. unfold u64. by rewrite Zplus_mod_idemp_l. Qed.

Lemma next_index x : 0 ≤ x < 256 → u32 (x + 1) mod NEXUS_EVENT_QUEUE_CAPACITY = (x + 1) mod 256.
Proof. intros H. unfold NEXUS_EVENT_QUEUE_CAPACITY. by rewrite u32_small by lia. Qed.

(** The ring is full when advancing the head would reach the tail. *)
Lemma full_iff h t : 0 ≤ h < 256 → 0 ≤ t < 256 → (h + 1) mod 256 = t ↔ (h - t) mod 256 = 255.
Proof. intros. Z.to_euclidean_division_equations. lia. Qed.

Lemma empty_iff h t : 0 ≤ h < 256 → 0 ≤ t < 256 → h = t ↔ (h - t) mod 256 = 0.
Proof. intros. Z.to_euclidean_division_equations. lia. Qed.

Lemma queued_push q x :
  0 ≤ g_head q < 256 → 0 ≤ g_tail q < 256 → (g_head q + 1) mod 256 ≠ g_tail q →
  ring 256 (upd (g_queue q) (g_head q) x) (g_tail q) (((g_head q + 1) mod 256 - g_tail q) mod 256)
  = queued q ++ [x].
Proof.
  intros Hh Ht Hne. unfold queued. rewrite full_iff in Hne by done.
  set (n := (g_head q - g_tail q) mod 256) in *.
  pose proof (Z.mod_pos_bound (g_head q - g_tail q) 256).
  assert (((g_head q + 1) mod 256 - g_tail q) mod 256 = n + 1) as ->.
  { unfold n in *. Z.to_euclidean_division_equations. lia. }
  assert (g_head q = (g_tail q + n) mod 256) as Hhead.
  { unfold n in *. Z.to_euclidean_division_equations. lia. }
  rewrite Hhead at 1. apply ring_push; unfold n in *; lia.
Qed.

Lemma queued_pop q :
  0 ≤ g_head q < 256 → 0 ≤ g_tail q < 256 → g_tail q ≠ g_head q →
  queued q = g_queue q (g_tail q) ::
    ring 256 (g_queue q) ((g_tail q + 1) mod 256) ((g_head q - (g_tail q + 1) mod 256) mod 256).
Proof.
  intros Hh Ht Hne. unfold queued. pose proof (Z.mod_pos_bound (g_head q - g_tail q) 256).
  assert ((g_head q - g_tail q) mod 256 ≠ 0) by (rewrite <- empty_iff by done; congruence).
  rewrite ring_pop by lia. f_equal. f_equal. Z.to_euclidean_division_equations. lia.
Qed.

(** A push leaves the tail and the cell the consumer is reading alone. *)
Lemma pc_ok_push pc q x h' :
  (h' ≠ g_tail q) → pc_ok pc q → g_head q ≠ h' → 
  pc_ok pc (q <| g_queue := upd (g_queue q) (g_head q) x |> <| g_head := h' |>).
Proof.
  intros Hh' Hpc Hne. destruct pc; cbn in *; try done.
  - destruct Hpc. split; congruence.
  - destruct Hpc as (-> & Hth & ->). split; [done|]. split; [congruence|]. rewrite upd_ne by done. done.
  - destruct Hpc as (-> & Hth & -> & ->). split; [done|]. split; [congruence|]. rewrite upd_ne by done. done.
  - destruct Hpc as (-> & Hth & ->). split; [done|]. split; [congruence|]. rewrite upd_ne by done. done.
Qed.

Lemma spsc_push_inv q pc acc rcv type source data :
  spsc_inv (mkRun q pc acc rcv) →
  spsc_inv (let '(ok, q') := event_queue_push type source data q in
       mkRun q' pc (if ok then acc ++ [mkEvent (u32 type) source data] else acc) rcv).
Proof.
  intros Hinv. pose proof Hinv as [Hh Ht Hr Hpc Hlog Hpu Hpo]. cbn in *.
  unfold event_queue_push. rewrite Hr. cbn [negb orb].
  destruct (type =? NEXUS_EVENT_NONE); [done|]. rewrite next_index by done. cbv zeta.
  destruct (Z.eqb_spec ((g_head q + 1) mod 256) (g_tail q)) as [He|Hne].
  { split; cbn; try done. }
  split; cbn; try done.
  - apply Z.mod_pos_bound. lia.
  - assert (g_head q ≠ (g_head q + 1) mod 256) by (Z.to_euclidean_division_equations; lia).
    pose proof (pc_ok_push pc q (mkEvent (u32 type) source data) _ Hne Hpc H) as Hok.
    by destruct pc.
  - rewrite Hlog, <- !app_assoc. f_equal. f_equal. symmetry. exact (queued_push q _ Hh Ht Hne).
  - rewrite Hpu, u64_succ, length_app. f_equal. cbn. lia.
Qed.

Lemma spsc_pop_inv q pc acc rcv :
  spsc_inv (mkRun q pc acc rcv) →
  spsc_inv (let '(pc', q', r) := pop_access pc q in
       mkRun q' pc' acc (match r with Some e => rcv ++ [e] | None => rcv end)).
Proof.
  intros Hinv. pose proof Hinv as [Hh Ht Hr Hpc Hlog Hpu Hpo]. cbn in *.
  destruct pc as [|t|t|t ty|t ty src|t e|e]; cbn in *.
  - rewrite Hr. cbn. by split.
  - destruct (Z.eqb_spec t (g_head q)); [by split|]. split; cbn; try done. split; congruence.
  - destruct Hpc as [-> Hpc]. by split.
  - destruct Hpc as (-> & Hne & ->). by split.
  - destruct Hpc as (-> & Hne & -> & ->). split; cbn; try done. split_and!; [done..|].
    by destruct (g_queue q (g_tail q)).
  - destruct Hpc as (-> & Hne & ->). rewrite next_index by done. split; cbn; try done.
    + apply Z.mod_pos_bound. lia.
    + by rewrite Hlog, queued_pop.
  - split; cbn; try done.
    + by rewrite Hlog, <- app_assoc.
    + rewrite Hpo, u64_succ, length_app. f_equal. cbn. lia.
Qed.

Lemma spsc_reachable_inv q r : rtc spsc_step (spsc_start q) r → spsc_inv r.
Proof.
  intros Hsteps. assert (spsc_inv (spsc_start q)) as H0.
  { split; cbn; try done. }
  revert H0. induction Hsteps as [|r1 r2 r3 Hs _ IH]; [done|]. intros H1. apply IH.
  destruct Hs; [by apply spsc_push_inv|by apply spsc_pop_inv].
Qed.

Lemma queued_length q :
  Z.of_nat (length (queued q)) = (g_head q - g_tail q) mod 256.
Proof. unfold queued. apply ring_length. apply Z.mod_pos_bound. lia. Qed.

Lemma count_spec q :
  0 ≤ g_head q < 256 → 0 ≤ g_tail q < 256 → event_queue_count q = Z.of_nat (length (queued q)).
Proof.
  intros Hh Ht. rewrite queued_length. unfold event_queue_count, NEXUS_EVENT_QUEUE_CAPACITY.
  destruct (Z.geb_spec (g_head q) (g_tail q)); rewrite u32_small by lia.
  all: Z.to_euclidean_division_equations; lia.
Qed.

(** C8: the event ring between interrupt handlers and the main loop is a
    lossless FIFO of 255 events under every interleaving of the producer with
    the single memory accesses of the consumer: the events handed out, then
    the one in a call that has not returned, then the queued ones, are exactly
    the events whose push was accepted, in order; at most 255 are queued, a
    push is refused exactly then (or for type 0), and the accepted and handed-out
    counters are the lengths of those logs (modulo 2^64). *)
Theorem event_queue_spsc_fifo q r type source data :
  rtc spsc_step (spsc_start q) r →
  r_accepted r = r_received r ++ in_flight (r_pc r) ++ queued (r_queue r) ∧
  event_queue_count (r_queue r) = Z.of_nat (length (queued (r_queue r))) ∧
  (length (queued (r_queue r)) ≤ 255)%nat ∧
  (event_queue_push type source data (r_queue r)).1 =
    bool_decide (type ≠ NEXUS_EVENT_NONE ∧ length (queued (r_queue r)) ≠ 255%nat) ∧
  g_pushed (r_queue r) = u64 (Z.of_nat (length (r_accepted r))) ∧
  g_popped (r_queue r) = u64 (Z.of_nat (length (r_received r))).
Proof.
  intros [Hh Ht Hr _ Hlog Hpu Hpo]%spsc_reachable_inv.
  pose proof (queued_length (r_queue r)) as Hlen.
  pose proof (Z.mod_pos_bound (g_head (r_queue r) - g_tail (r_queue r)) 256).
  split_and!; [done|by apply count_spec|lia| |done|done].
  unfold event_queue_push. rewrite Hr, next_index by done. cbn [negb orb].
  destruct (Z.eqb_spec type NEXUS_EVENT_NONE) as [->|Hty].
  { symmetry. apply bool_decide_false. tauto. }
  cbv zeta. pose proof (full_iff _ _ Hh Ht) as Hfull.
  destruct (Z.eqb_spec ((g_head (r_queue r) + 1) mod 256) (g_tail (r_queue r))) as [He|He]; cbn [fst]; symmetry.
  - apply bool_decide_false. apply Hfull in He. lia.
  - apply bool_decide_true. split; [done|]. intros Hl. apply He, Hfull. lia.
Qed.

Definition bss : event_queue := mkEventQueue (λ _, mkEvent 0 0 0) 0 0 0 0 0 false.

(** A keyboard interrupt that falls inside the call that pops a timer tick. *)
Lemma event_queue_spsc_fifo_witness :
  ∃ r, r_received r = [mkEvent 1 0 7] ∧ queued (r_queue r) = [mkEvent 2 1 30] ∧
       r_accepted r = r_received r ++ in_flight (r_pc r) ++ queued (r_queue r).
Proof.
  pose (r := mkRun
    (mkEventQueue (upd (upd (g_queue bss) 0 (mkEvent 1 0 7)) 1 (mkEvent 2 1 30)) 2 1 2 0 1 true)
    PopIdle [mkEvent 1 0 7; mkEvent 2 1 30] [mkEvent 1 0 7]).
  assert (rtc spsc_step (spsc_start bss) r) as Hr.
  { eapply rtc_l; [apply (spsc_push _ _ _ _ 1 0 7)|]. do 4 (eapply rtc_l; [apply spsc_pop|]).
    eapply rtc_l; [apply (spsc_push _ _ _ _ 2 1 30)|]. do 3 (eapply rtc_l; [apply spsc_pop|]).
    apply rtc_refl. }
  exists r. split; [reflexivity|]. split; [reflexivity|].
  exact (proj1 (event_queue_spsc_fifo bss r 1 0 0 Hr)).
Defined.

End EventQueue.

(** ** The stall detector *)

Module Watchdog.

Definition WATCHDOG_TIMEOUT_MS : Z := 3000.

Record watchdog := mkWatchdog {
  g_tick : Z;
  g_last_heartbeat_tick : Z;
  g_heartbeats : Z;
  g_trips : Z;
  g_timer_hz : Z;
  g_ready : bool;
  g_trip_pending : bool;
}.
#[export] Instance eta_watchdog : Eta watchdog := λ r,
  mkWatchdog (g_tick r) (g_last_heartbeat_tick r) (g_heartbeats r) (g_trips r) (g_timer_hz r)
    (g_ready r) (g_trip_pending r).

Implicit Types w : watchdog.

Definition nexus_watchdog_init (timer_hz : Z) w : watchdog :=
  mkWatchdog 0 0 0 0 (if timer_hz =? 0 then 100 else timer_hz) true false.

Definition nexus_watchdog_heartbeat w : watchdog :=
  if negb (g_ready w) then w
  else w <| g_last_heartbeat_tick := g_tick w |> <| g_heartbeats := u64 (g_heartbeats w + 1) |>.

Definition timeout_ticks w : Z :=
  let t := u64 (g_timer_hz w * WATCHDOG_TIMEOUT_MS) / 1000 in if t =? 0 then 1 else t.

Definition nexus_watchdog_timer_tick w : watchdog :=
  if negb (g_ready w) then w
  else
    let w := w <| g_tick := u64 (g_tick w + 1) |> in
    let timeout := timeout_ticks w in
    if negb (g_trip_pending w) && (g_tick w >? u64 (g_last_heartbeat_tick w + timeout))
    then w <| g_trip_pending := true |> <| g_trips := u64 (g_trips w + 1) |>
    else w.

Definition nexus_watchdog_trip_pending w : bool := g_trip_pending w.
Definition nexus_watchdog_clear_trip w : watchdog := w <| g_trip_pending := false |>.

(** Timer interrupts, heartbeats of the main loop and its reaction to a
    trip. *)
Inductive wd_op := WdTick | WdHeartbeat | WdClear.
Definition wd_do (o : wd_op) w : watchdog :=
  match o with
  | WdTick => nexus_watchdog_timer_tick w
  | WdHeartbeat => nexus_watchdog_heartbeat w
  | WdClear => nexus_watchdog_clear_trip w
  end.
Definition wd_run (ops : list wd_op) w : watchdog := foldl (λ w o, wd_do o w) w ops.

(** Ticks since the last heartbeat of a history. *)
Definition silent (ops : list wd_op) : Z :=
  foldl (λ n o, match o with WdTick => n + 1 | WdHeartbeat => 0 | WdClear => n end) 0 ops.

(** The pending flag a history must leave behind: a tick raises it when more
    than [limit] ticks passed without a heartbeat, only clearing drops it. *)
Definition pending_spec (limit : Z) (ops : list wd_op) : bool :=
  (foldl (λ '(n, p) o, match o with
                       | WdTick => (n + 1, p || (n + 1 >? limit))
                       | WdHeartbeat => (0, p)
                       | WdClear => (n, false) end) (0, false) ops).2.

Definition ticks (ops : list wd_op) : Z :=
  foldl (λ n o, match o with WdTick => n + 1 | _ => n end) 0 ops.

Record wd_inv (hz : Z) (ops : list wd_op) w : Prop := {
  wi_hz : g_timer_hz w = hz;
  wi_ready : g_ready w = true;
  wi_tick : g_tick w = ticks ops;
  wi_last : g_last_heartbeat_tick w = ticks ops - silent ops;
  wi_silent : 0 ≤ silent ops ≤ ticks ops;
  wi_pending : g_trip_pending w = pending_spec (3 * hz) ops;
}.

Lemma timeout_value w : 0 < g_timer_hz w < 2 ^ 32 → timeout_ticks w = 3 * g_timer_hz w.
Proof.
  intros H. unfold timeout_ticks, WATCHDOG_TIMEOUT_MS. rewrite u64_small by lia.
  replace (g_timer_hz w * 3000) with (3 * g_timer_hz w * 1000) by lia.
  rewrite Z.div_mul by lia. rewrite (proj2 (Z.eqb_neq _ 0)) by lia. done.
Qed.

Lemma ticks_le ops o : ticks ops ≤ ticks (ops ++ [o]).
Proof. unfold ticks. rewrite foldl_snoc. destruct o; lia. Qed.

(** The first component of the specification's state is [silent]. *)
Lemma pending_spec_fold limit ops :
  (foldl (λ '(n, p) o, match o with
                       | WdTick => (n + 1, p || (n + 1 >? limit))
                       | WdHeartbeat => (0, p)
                       | WdClear => (n, false) end) (0, false) ops) = (silent ops, pending_spec limit ops).
Proof.
  unfold pending_spec, silent. induction ops as [|o ops IH] using rev_ind; [done|].
  rewrite !foldl_snoc, IH. cbn. by destruct o.
Qed.

Lemma pending_spec_snoc limit ops o :
  pending_spec limit (ops ++ [o]) =
  match o with
  | WdTick => pending_spec limit ops || (silent ops + 1 >? limit)
  | WdHeartbeat => pending_spec limit ops
  | WdClear => false
  end.
Proof.
  unfold pending_spec at 1. rewrite foldl_snoc, pending_spec_fold. by destruct o.
Qed.

Lemma wd_run_inv hz ops w0 :
  0 < hz < 2 ^ 32 → ticks ops + 3 * hz < 2 ^ 64 → wd_inv hz ops (wd_run ops (nexus_watchdog_init hz w0)).
Proof.
  intros Hhz. induction ops as [|o ops IH] using rev_ind; intros Hn.
  { split; cbn; try done; try lia. rewrite (proj2 (Z.eqb_neq hz 0)) by lia. done. }
  pose proof (ticks_le ops o). destruct IH as [I1 I2 I3 I4 I5 I6]; [lia|].
  unfold wd_run in *. rewrite foldl_snoc. set (w := foldl _ _ ops) in *. clearbody w.
  assert (silent (ops ++ [o]) = match o with WdTick => silent ops + 1 | WdHeartbeat => 0 | WdClear => silent ops end) as Es
    by (unfold silent; rewrite foldl_snoc; by destruct o).
  assert (ticks (ops ++ [o]) = match o with WdTick => ticks ops + 1 | _ => ticks ops end) as Et
    by (unfold ticks; rewrite foldl_snoc; by destruct o).
  pose proof (pending_spec_snoc (3 * hz) ops o) as Ep. rewrite Et in Hn.
  destruct o; cbn [wd_do].
  - unfold nexus_watchdog_timer_tick. rewrite I2. cbn [negb]. cbv zeta.
    rewrite timeout_value by (cbn; lia). cbn.
    rewrite I1, I3, I4, I6, (u64_small (ticks ops + 1)), (u64_small (_ + 3 * hz)) by lia.
    assert ((ticks ops + 1 >? ticks ops - silent ops + 3 * hz) = (silent ops + 1 >? 3 * hz)) as -> by lia.
    destruct (pending_spec (3 * hz) ops) eqn:Hp; cbn [negb andb orb] in *.
    + split; cbn; rewrite ?Es, ?Et, ?Ep, ?Hp; try done; lia.
    + destruct (silent ops + 1 >? 3 * hz) eqn:Hg; split; cbn; rewrite ?Es, ?Et, ?Ep; try done; try lia; congruence.
  - unfold nexus_watchdog_heartbeat. rewrite I2. cbn [negb].
    split; cbn; rewrite ?Es, ?Et, ?Ep; try done; lia.
  - split; cbn; rewrite ?Es, ?Et, ?Ep; try done; lia.
Qed.

(** The watchdog raises its trip exactly at the tick that makes the time
    without a heartbeat exceed three seconds ([3 * hz] ticks), keeps it raised
    until it is cleared, and not before: after any history of ticks, heartbeats
    and clears the pending flag is the one of that specification. *)
Theorem watchdog_trips_exactly hz ops w0 :
  0 < hz < 2 ^ 32 → ticks ops + 3 * hz < 2 ^ 64 →
  nexus_watchdog_trip_pending (wd_run ops (nexus_watchdog_init hz w0)) = pending_spec (3 * hz) ops.
Proof. intros Hhz Hn. exact (wi_pending _ _ _ (wd_run_inv hz ops w0 Hhz Hn)). Qed.

Definition wd_bss : watchdog := mkWatchdog 0 0 0 0 100 false false.

(** At 1 Hz: three silent ticks are tolerated, the fourth trips. *)
Lemma watchdog_trips_exactly_witness :
  nexus_watchdog_trip_pending
    (wd_run [WdHeartbeat; WdTick; WdTick; WdTick] (nexus_watchdog_init 1 wd_bss)) = false ∧
  nexus_watchdog_trip_pending
    (wd_run [WdHeartbeat; WdTick; WdTick; WdTick; WdTick] (nexus_watchdog_init 1 wd_bss)) = true.
Proof.
  split; (etransitivity; [apply (watchdog_trips_exactly 1); vm_compute; done|reflexivity]).
Defined.

End Watchdog.

(** ** The dispatcher *)

Module KernelEvents.
Import Sched Threads.

#[local] Opaque wake_due_loop find_link sleep_cursor reap_zombies wake_due_threads.

Definition KERNEL_EVENT_TYPE_COUNT : Z := 4.

(** What the dispatcher calls besides the scheduler: the drivers that
    interpret the events and the stall detector, all acting on the rest of the
    machine, which the scheduler state carries as its environment. *)
Class EventEnv (E : Type) := {
  ee_xhci_poll : E → E;
  ee_keyboard_process_scancode : Z → E → E;
  ee_mouse_process_byte : Z → E → E;
  ee_watchdog_heartbeat : E → E;
}.

Record kernel {E : Type} := mkKernel {
  k_queue : EventQueue.event_queue;
  g_processed : Z;
  g_sequence : Z → Z;
  g_waiters : Z → nexus_wait_queue_t;
  k_sched : sched E;
}.
Arguments kernel : clear implicits.
Arguments mkKernel {E}.
#[export] Instance eta_kernel {E} : Eta (kernel E) := λ r,
  mkKernel (k_queue r) (g_processed r) (g_sequence r) (g_waiters r) (k_sched r).

Definition valid_type (type : Z) : bool :=
  (u32 type <? KERNEL_EVENT_TYPE_COUNT) && negb (type =? NEXUS_EVENT_NONE).

Section ops.
Context {E : Type} `{SchedEnv E, EventEnv E}.
Implicit Types (k : kernel E) (s : sched E) (q : nexus_wait_queue_t).

(** The loop of [wake_event_waiters_locked]: it ends when the queue gives
    out 0; [None]: still running after [fuel] rounds. *)
Fixpoint wake_waiters_loop (fuel : nat) q s : option (nexus_wait_queue_t * sched E) :=
  match fuel with
  | O => None
  | S fuel =>
     let '(tid, q) := scheduler_wait_queue_pop_locked q in
     if tid =? 0 then Some (q, s)
     else wake_waiters_loop fuel q (scheduler_wake_thread_locked tid s)
  end.

Definition wake_event_waiters_locked (type : Z) k : option (kernel E) :=
  if negb (valid_type type) then Some k
  else
    match wake_waiters_loop (S SCHED_MAX_THREADS) (g_waiters k (u32 type)) (k_sched k) with
    | None => None
    | Some (q, s) => Some (k <| g_waiters := upd (g_waiters k) (u32 type) q |> <| k_sched := s |>)
    end.

Definition kernel_events_init k : kernel E :=
  let k := k <| g_processed := 0 |> in
  let k := foldl (λ k i,
    k <| g_sequence := upd (g_sequence k) i 0 |>
      <| g_waiters := upd (g_waiters k) i (scheduler_wait_queue_init (g_waiters k i)) |>)
    k (seqZ 0 KERNEL_EVENT_TYPE_COUNT) in
  k <| k_queue := EventQueue.event_queue_init (k_queue k) |>.

Definition on_env (f : E → E) k : kernel E := k <| k_sched := (k_sched k) <| env := f (env (k_sched k)) |> |>.

(** Interrupts and other threads run between the statements of the main loop:
    [others] is what they do until the main loop goes on, at the top of an
    iteration and after a switch to another thread. *)
Context (others : kernel E → kernel E).

(** The [switch] of [kernel_events_process]; [None]: the scheduler halts. *)
Definition dispatch (event : nexus_event_t) k : option (kernel E) :=
  if ev_type event =? NEXUS_EVENT_TIMER_TICK then
    let '(o, s) := scheduler_process (k_sched k) in
    let k := k <| k_sched := s |> in
    match o with
    | Returned => Some (on_env ee_xhci_poll k)
    | Switched => Some (on_env ee_xhci_poll (others k))
    | Halted => None
    end
  else if ev_type event =? NEXUS_EVENT_KEYBOARD_SCANCODE then
    Some (on_env (ee_keyboard_process_scancode (u8 (ev_data event))) k)
  else if ev_type event =? NEXUS_EVENT_MOUSE_BYTE then
    Some (on_env (ee_mouse_process_byte (u8 (ev_data event))) k)
  else Some k.

(** The sequence counter and the wake-ups of one event. *)
Definition notify (type : Z) k : option (kernel E) :=
  if (type <? KERNEL_EVENT_TYPE_COUNT) && negb (type =? NEXUS_EVENT_NONE) then
    let '(flags, s) := irq_save (k_sched k) in
    let k := k <| k_sched := s |> in
    let k := k <| g_sequence := upd (g_sequence k) type (u64 (g_sequence k type + 1)) |> in
    match wake_event_waiters_locked type k with
    | None => None
    | Some k => Some (k <| k_sched := irq_restore flags (k_sched k) |>)
    end
  else Some k.

Fixpoint process_loop (budget : nat) k : option (kernel E) :=
  match budget with
  | O => Some k
  | S budget =>
     let k := others k in
     match EventQueue.event_queue_pop (k_queue k) with
     | (None, q) => Some (k <| k_queue := q |>)
     | (Some event, q) =>
        match dispatch event (k <| k_queue := q |>) with
        | None => None
        | Some k =>
           match notify (ev_type event) k with
           | None => None
           | Some k => process_loop budget (k <| g_processed := u64 (g_processed k + 1) |>)
           end
        end
     end
  end.

Definition kernel_events_process k : option (kernel E) :=
  match process_loop 128 k with
  | None => None
  | Some k => Some (on_env ee_watchdog_heartbeat k)
  end.

Definition kernel_events_sequence (type : Z) k : Z :=
  if negb (valid_type type) then 0 else g_sequence k (u32 type).

Definition kernel_events_waiter_count (type : Z) k : Z :=
  if negb (valid_type type) then 0 else count (g_waiters k (u32 type)).

(** How far a pass through the loop of [kernel_events_wait] gets. *)
Inductive wait_result :=
| Observed             (* return 1 *)
| Unsupported          (* return 0 *)
| Blocks (before : Z). (* inside [thread_block_on_wait_queue] *)

Definition wait_pass (type : Z) k : wait_result * kernel E :=
  let index := u32 type in
  let before := kernel_events_sequence type k in
  let '(flags, s) := irq_save (k_sched k) in
  let k := k <| k_sched := s |> in
  if negb (g_sequence k index =? before)
  then (Observed, k <| k_sched := irq_restore flags (k_sched k) |>)
  else
    let tid := scheduler_current_thread_id (k_sched k) in
    let k := k <| g_waiters := upd (g_waiters k) index
                    (scheduler_wait_queue_push_locked tid (g_waiters k index)) |> in
    let k := k <| k_sched := irq_restore flags (k_sched k) |> in
    let '(b, _, q, s) := thread_block_on_wait_queue (g_waiters k index) (k_sched k) in
    let k := k <| g_waiters := upd (g_waiters k) index q |> <| k_sched := s |> in
    if b then (Blocks before, k) else (Unsupported, k).

Definition kernel_events_wait (type : Z) k : wait_result * kernel E :=
  if negb (valid_type type) || negb (scheduler_is_ready (k_sched k))
     || (scheduler_current_thread_id (k_sched k) =? 0) then (Unsupported, k)
  else wait_pass type k.

(** The rest of the iteration, when the blocked thread runs again. *)
Definition wait_resume (type before : Z) k : wait_result * kernel E :=
  if negb (kernel_events_sequence type k =? before) then (Observed, k) else wait_pass type k.

(** ** Broadcast *)

Lemma wake_waiters_spec q l s fuel :
  wq_rep q l → (length l < fuel)%nat →
  ∃ q', wake_waiters_loop fuel q s = Some (q', foldl (λ s t, scheduler_wake_thread_locked t s) s l) ∧
        wq_rep q' [].
Proof.
  revert q s fuel. induction l as [|t l IH]; intros q s fuel Q Hf; (destruct fuel as [|fuel]; [cbn in Hf; lia|]);
    pose proof (wq_pop_rep _ _ Q) as [Hp Q']; cbn [wake_waiters_loop];
    destruct (scheduler_wait_queue_pop_locked q) as [tid q1]; cbn [fst snd hd list.tail] in *; subst tid.
  { exists q1. done. }
  pose proof (wq_nonzero _ _ Q). rewrite (proj2 (Z.eqb_neq t 0)) by set_solver.
  apply IH; [done|cbn in Hf; lia].
Qed.

(** Waking one thread leaves the others alone. *)
Lemma wake_locked_frame tid s :
  good s →
  (∀ i, id (tcb (scheduler_wake_thread_locked tid s) i) = id (tcb s i) ∧
        magic (tcb (scheduler_wake_thread_locked tid s) i) = magic (tcb s i)) ∧
  (∀ i, state (tcb (scheduler_wake_thread_locked tid s) i) =
        if decide (find_thread_by_id tid s = Some i ∧ state (tcb s i) = THREAD_BLOCKED)
        then THREAD_READY else state (tcb s i)).
Proof.
  intros (c & R & S & W & Hc). unfold scheduler_wake_thread_locked.
  destruct (find_thread_by_id tid s) as [t|] eqn:Ef; [|split; [done|intros i; rewrite decide_False; naive_solver]].
  destruct (Z.eqb_spec (state (tcb s t)) THREAD_BLOCKED) as [Hb|Hb]; cbn [negb];
    [|split; [done|intros i; rewrite decide_False; naive_solver]].
  apply find_thread_by_id_spec in Ef as [Ht _].
  destruct (enqueue_wf s c R S t W Ht) as (_ & _ & Hst & Hs); [by rewrite Hb..|].
  fold (set_state THREAD_READY). cbv zeta. set (s1 := ready_append _ _) in *. clearbody s1.
  change (tcb (s1 <| g_wakeup_pending := true |> <| g_reschedule_pending := true |>)) with (tcb s1).
  split; intros i; rewrite (Hs i).
  - destruct (decide (i = t)) as [->|Hi]; [by rewrite tcb_set_eq|by rewrite tcb_set_ne].
  - match goal with |- ?x = _ => transitivity (state (tcb (set_tcb t (set_state THREAD_READY) s) i)); [done|] end.
    rewrite state_set. destruct (decide (i = t)) as [->|Hi]; symmetry.
    + by rewrite decide_True.
    + apply decide_False. naive_solver.
Qed.

Lemma find_thread_ext tid s s' :
  (∀ i, id (tcb s' i) = id (tcb s i) ∧ magic (tcb s' i) = magic (tcb s i)) →
  find_thread_by_id tid s' = find_thread_by_id tid s.
Proof. intros Hi. apply first_index_ext. intros j _. by destruct (Hi j) as [-> ->]. Qed.

(** Waking a list of threads: every blocked one becomes READY. *)
Lemma wake_all_spec l s :
  good s → let s' := foldl (λ s t, scheduler_wake_thread_locked t s) s l in
  good s' ∧
  (∀ i, id (tcb s' i) = id (tcb s i) ∧ magic (tcb s' i) = magic (tcb s i)) ∧
  ∀ i, state (tcb s' i) =
       if decide (Exists (λ t, find_thread_by_id t s = Some i ∧ state (tcb s i) = THREAD_BLOCKED) l)
       then THREAD_READY else state (tcb s i).
Proof.
  induction l as [|t l IH] using rev_ind; intros G.
  { split; [done|]. split; [done|]. intros i. rewrite decide_False; [done|]. by intros ?%Exists_nil. }
  destruct (IH G) as (G1 & F1 & S1). cbv zeta. rewrite foldl_snoc.
  set (s1 := foldl _ s l) in *. clearbody s1. destruct (wake_locked_frame t s1 G1) as [F2 S2].
  split; [by apply wake_locked_good|]. split; [intros i; destruct (F1 i), (F2 i); split; congruence|].
  intros i. rewrite S2, (find_thread_ext t s s1 F1), S1.
  destruct (decide (Exists _ l)) as [Hx|Hn1].
  - rewrite (decide_False (P := _ ∧ THREAD_READY = _)) by (intros [_ ?]; discriminate).
    symmetry. apply decide_True, Exists_app. by left.
  - apply decide_ext. rewrite Exists_app, Exists_cons, Exists_nil. tauto.
Qed.

(** ** The invariant of the event layer *)

Record kinv k : Prop := {
  ki_head : 0 ≤ EventQueue.g_head (k_queue k) < 256;
  ki_tail : 0 ≤ EventQueue.g_tail (k_queue k) < 256;
  ki_ready : EventQueue.g_ready (k_queue k) = true;
  ki_types : Forall (λ e, 0 ≤ ev_type e) (EventQueue.queued (k_queue k));
  ki_processed : 0 ≤ g_processed k < 2 ^ 64;
  ki_sequence : ∀ t, 1 ≤ t < 4 → 0 ≤ g_sequence k t < 2 ^ 64;
  ki_waiters : ∀ t, 1 ≤ t < 4 → ∃ l, wq_rep (g_waiters k t) l;
  ki_sched : good (k_sched k);
}.

Lemma valid_type_spec t : 0 ≤ t < 2 ^ 32 → valid_type t = bool_decide (1 ≤ t < 4).
Proof.
  intros Ht. unfold valid_type, KERNEL_EVENT_TYPE_COUNT, NEXUS_EVENT_NONE. rewrite u32_small by done.
  destruct (Z.eqb_spec t 0), (Z.ltb_spec t 4); symmetry; (apply bool_decide_true || apply bool_decide_false); lia.
Qed.

Lemma kernel_events_init_inv k : good (k_sched k) → kinv (kernel_events_init k).
Proof.
  intros G. split; cbn; try done.
  all: intros t Ht; assert (t = 1 ∨ t = 2 ∨ t = 3) as [->|[->| ->]] by lia; cbn; try done.
  all: exists []; apply wq_init_rep.
Qed.

(** Popping one event keeps the invariant of the ring. *)
Lemma pop_inv k :
  kinv k →
  match EventQueue.event_queue_pop (k_queue k) with
  | (None, q) => q = k_queue k ∧ EventQueue.queued (k_queue k) = []
  | (Some e, q) => kinv (k <| k_queue := q |>) ∧
                   EventQueue.queued (k_queue k) = e :: EventQueue.queued q
  end.
Proof.
  intros [K1 K2 K3 KT K4 K5 K6 K7]. unfold EventQueue.event_queue_pop. rewrite K3. cbn [negb]. cbv zeta.
  destruct (Z.eqb_spec (EventQueue.g_tail (k_queue k)) (EventQueue.g_head (k_queue k))) as [He|Hne].
  { split; [done|]. unfold EventQueue.queued. by rewrite He, Z.sub_diag. }
  rewrite EventQueue.next_index by done. split.
  - split; cbn; try done; [apply Z.mod_pos_bound; lia|].
    rewrite EventQueue.queued_pop in KT by done. by apply Forall_cons in KT as [_ KT].
  - rewrite EventQueue.queued_pop by done. done.
Qed.

Lemma notify_spec t k :
  kinv k → 1 ≤ t < 4 → ∃ k' l, notify t k = Some k' ∧ kinv k' ∧
    wq_rep (g_waiters k t) l ∧ wq_rep (g_waiters k' t) [] ∧ k_queue k' = k_queue k ∧
    g_processed k' = g_processed k ∧ g_sequence k' = upd (g_sequence k) t (u64 (g_sequence k t + 1)) ∧
    ∀ i, state (tcb (k_sched k') i) =
      if decide (Exists (λ w, find_thread_by_id w (k_sched k) = Some i ∧
                              state (tcb (k_sched k) i) = THREAD_BLOCKED) l)
      then THREAD_READY else state (tcb (k_sched k) i).
Proof.
  intros [K1 K2 K3 KT K4 K5 K6 K7] Ht. unfold notify, KERNEL_EVENT_TYPE_COUNT, NEXUS_EVENT_NONE.
  rewrite (proj2 (Z.ltb_lt t 4)), (proj2 (Z.eqb_neq t 0)) by lia. cbn [negb andb irq_save]. cbv zeta.
  unfold wake_event_waiters_locked. rewrite valid_type_spec, bool_decide_true by lia. cbn [negb].
  rewrite u32_small by lia. cbn [k_sched g_waiters]. destruct (K6 t Ht) as [l Q].
  destruct (wake_waiters_spec (g_waiters k t) l ((k_sched k) <| cpu_if := false |>) (S SCHED_MAX_THREADS) Q)
    as (q' & E1 & Q'); [pose proof (wq_cap _ _ Q); unfold SCHED_MAX_THREADS; lia|].
  assert (good ((k_sched k) <| cpu_if := false |>)) as G by (by eapply frame_good).
  destruct (wake_all_spec l _ G) as (G' & _ & Hst).
  match goal with |- context [wake_waiters_loop _ ?a ?b] =>
    change (wake_waiters_loop (S SCHED_MAX_THREADS) a b) with
      (wake_waiters_loop (S SCHED_MAX_THREADS) (g_waiters k t) ((k_sched k) <| cpu_if := false |>)) end.
  rewrite E1. set (s' := foldl _ _ l) in *. clearbody s'.
  eexists _, l. split; [reflexivity|]. split_and!; [|done|cbn; by rewrite upd_eq|done..|].
  - split; cbn; try done.
    + intros u Hu. destruct (decide (u = t)) as [->|]; [rewrite upd_eq; apply u64_range|rewrite upd_ne by done; by apply K5].
    + intros u Hu. destruct (decide (u = t)) as [->|]; [rewrite upd_eq; by exists []|rewrite upd_ne by done; by apply K6].
    + by apply irq_restore_good.
  - intros i. cbn [k_sched]. etransitivity; [|apply Hst]. by destruct (cpu_if (k_sched k)).
Qed.

(** ** What interrupts and other threads may do meanwhile *)

Section others.
Context (thread_bootstrap user_process_bootstrap : Z).

Unset Elimination Schemes.
Inductive other_step : kernel E → kernel E → Prop :=
| os_push type source data k ok (q : EventQueue.event_queue) :
    EventQueue.event_queue_push type source data (k_queue k) = (ok, q) → other_step k (k <| k_queue := q |>)
| os_sched k o s :
    step thread_bootstrap user_process_bootstrap (k_sched k) o s → other_step k (k <| k_sched := s |>)
| os_wait type k r k' :
    0 ≤ type < 2 ^ 32 →
    (∀ c, g_current (k_sched k) = Some c → all_live (prologue (block_prep c (k_sched k)))) →
    kernel_events_wait type k = (r, k') → other_step k k'.
Set Elimination Schemes.

Record by_others k k' (arrived : list nexus_event_t) : Prop := {
  bo_inv : kinv k';
  bo_queued : EventQueue.queued (k_queue k') = EventQueue.queued (k_queue k) ++ arrived;
  bo_processed : g_processed k' = g_processed k;
  bo_sequence : g_sequence k' = g_sequence k;
}.

Lemma irq_round_trip s : irq_restore (cpu_if s) (s <| cpu_if := false |>) = s.
Proof. by destruct s as [? ? ? ? ? ? ? ? ? ? ? ? ? ? ? ? ? ? ? [] ? ?]. Qed.

Lemma push_by_others type source data k :
  kinv k → ∃ arrived,
  by_others k (k <| k_queue := (EventQueue.event_queue_push type source data (k_queue k)).2 |>) arrived.
Proof.
  intros K. pose proof K as [K1 K2 K3 KT K4 K5 K6 K7]. unfold EventQueue.event_queue_push.
  rewrite K3. cbn [negb orb].
  destruct (type =? NEXUS_EVENT_NONE); [exists []; split; try done; by rewrite app_nil_r|].
  rewrite EventQueue.next_index by done. cbv zeta.
  destruct (Z.eqb_spec ((EventQueue.g_head (k_queue k) + 1) mod 256) (EventQueue.g_tail (k_queue k))) as [He|Hne].
  { exists []. split; [by split|cbn; by rewrite app_nil_r|done..]. }
  pose proof (EventQueue.queued_push _ (mkEvent (u32 type) source data) K1 K2 Hne) as Hq.
  exists [mkEvent (u32 type) source data]. split; [|exact Hq|done..].
  split; cbn; try done; [apply Z.mod_pos_bound; lia|].
  match goal with |- Forall _ ?l => replace l with (EventQueue.queued (k_queue k) ++ [mkEvent (u32 type) source data]) end.
  apply Forall_app. split; [done|]. apply Forall_singleton. cbn. apply u32_range.
Qed.

(** A pass that does not find a new event registers the thread and blocks. *)
Lemma wait_pass_eq type k :
  1 ≤ type < 4 →
  wait_pass type k =
    let q1 := scheduler_wait_queue_push_locked (scheduler_current_thread_id (k_sched k)) (g_waiters k type) in
    let '(b, _, q, s) := thread_block_on_wait_queue q1 (k_sched k) in
    (if b then Blocks (g_sequence k type) else Unsupported,
     k <| g_waiters := upd (upd (g_waiters k) type q1) type q |> <| k_sched := s |>).
Proof.
  intros Ht. unfold wait_pass, kernel_events_sequence.
  rewrite valid_type_spec, bool_decide_true, u32_small by lia. cbn [negb irq_save]. cbv zeta.
  destruct k as [kq kp ks kw s]. cbn -[Z.eqb upd irq_restore thread_block_on_wait_queue
    scheduler_wait_queue_push_locked scheduler_current_thread_id].
  rewrite Z.eqb_refl. cbn [negb].
  rewrite upd_eq. change (scheduler_current_thread_id _) with (scheduler_current_thread_id s).
  match goal with |- context [irq_restore (cpu_if s) ?x] =>
    replace (irq_restore (cpu_if s) x) with s by (symmetry; apply irq_round_trip) end.
  destruct (thread_block_on_wait_queue _ s) as [[[[] o] q] s']; done.
Qed.

Lemma wait_by_others type k :
  kinv k → 0 ≤ type < 2 ^ 32 →
  (∀ c, g_current (k_sched k) = Some c → all_live (prologue (block_prep c (k_sched k)))) →
  by_others k (kernel_events_wait type k).2 [].
Proof.
  intros K Ht Hl. pose proof K as [K1 K2 K3 KT K4 K5 K6 K7].
  assert (by_others k k []) as Hid by (split; [done|by rewrite app_nil_r|done..]).
  unfold kernel_events_wait. rewrite valid_type_spec by done. case_bool_decide as Hv; [|done]. cbn [negb orb].
  destruct (_ || _); [done|]. rewrite wait_pass_eq by done. cbv zeta.
  destruct (K6 type Hv) as [l Q].
  set (tid := scheduler_current_thread_id _). clearbody tid.
  assert (wq_rep (scheduler_wait_queue_push_locked tid (g_waiters k type)) (wq_push tid l)) as Q1 by (by apply wq_push_rep).
  set (q1 := scheduler_wait_queue_push_locked tid (g_waiters k type)) in *. clearbody q1.
  destruct (thread_block_on_wait_queue q1 (k_sched k)) as [[[b o] q2] s2] eqn:Eb.
  assert (∃ l2, wq_rep q2 l2) as [l2 Q2].
  { revert Eb. unfold thread_block_on_wait_queue. destruct (g_current (k_sched k)) as [c|];
      [|intros [= <- <- <- <-]; by eexists]. destruct (_ || _); [intros [= <- <- <- <-]; by eexists|].
    cbn [irq_save]. cbv zeta. destruct (scheduler_process _) as [o' s']. intros [= <- <- <- <-].
    destruct (negb _); [eexists; by apply wq_push_rep|by eexists]. }
  destruct (thread_block_good q1 (k_sched k) b o q2 s2 K7 Hl Eb) as [_ G2].
  assert (kinv (k <| g_waiters := upd (upd (g_waiters k) type q1) type q2 |> <| k_sched := s2 |>)) as K'.
  { split; cbn; try done. intros u Hu. destruct (decide (u = type)) as [->|]; [rewrite upd_eq; by exists l2|].
    rewrite !upd_ne by done. by apply K6. }
  split; [exact K'|cbn; by rewrite app_nil_r|done..].
Qed.

Lemma other_step_frame k k' : kinv k → other_step k k' → ∃ arrived, by_others k k' arrived.
Proof.
  intros K Hs. destruct Hs as [type source data k ok q Ep|k o s Hst|type k r k' Ht Hl Ew].
  - pose proof (push_by_others type source data k K) as Hp. by rewrite Ep in Hp.
  - exists []. pose proof K as [K1 K2 K3 KT K4 K5 K6 K7].
    destruct (step_good _ _ _ _ _ K7 Hst) as [_ G]. split; [|by rewrite app_nil_r|done..]. by split.
  - exists []. pose proof (wait_by_others type k K Ht Hl) as Hw. by rewrite Ew in Hw.
Qed.

Lemma others_frame k k' : kinv k → rtc other_step k k' → ∃ arrived, by_others k k' arrived.
Proof.
  intros K Hs. revert K. induction Hs as [k|k1 k2 k3 Hst _ IH]; intros K.
  { exists []. split; [done|by rewrite app_nil_r|done..]. }
  destruct (other_step_frame k1 k2 K Hst) as [a1 [B1 B2 B3 B4]].
  destruct (IH B1) as [a2 [C1 C2 C3 C4]]. exists (a1 ++ a2).
  split; [done|by rewrite C2, B2, app_assoc|congruence..].
Qed.

(** ** The main loop's drain *)

Context (Hothers : ∀ k, rtc other_step k (others k)).

(** Along the drain from [k]: whenever a timer event runs the scheduler, no
    queued thread belongs to a process that is dead. *)
Fixpoint ticks_live (budget : nat) k : Prop :=
  match budget with
  | O => True
  | S budget =>
     let k := others k in
     match EventQueue.event_queue_pop (k_queue k) with
     | (None, _) => True
     | (Some event, q) =>
        (ev_type event = NEXUS_EVENT_TIMER_TICK → all_live (prologue (k_sched k))) ∧
        match dispatch event (k <| k_queue := q |>) with
        | None => True
        | Some k =>
           match notify (ev_type event) k with
           | None => True
           | Some k => ticks_live budget (k <| g_processed := u64 (g_processed k + 1) |>)
           end
        end
     end
  end.

Lemma others_inv k : kinv k → ∃ arrived, by_others k (others k) arrived.
Proof. intros K. by apply others_frame. Qed.

Lemma on_env_others f k : kinv k → by_others k (on_env f k) [].
Proof.
  intros [K1 K2 K3 KT K4 K5 K6 K7]. split; [|cbn; by rewrite app_nil_r|done..].
  split; cbn; try done. by eapply frame_good.
Qed.

Lemma by_others_trans k1 k2 k3 a b : by_others k1 k2 a → by_others k2 k3 b → by_others k1 k3 (a ++ b).
Proof. intros [A1 A2 A3 A4] [B1 B2 B3 B4]. split; [done|by rewrite B2, A2, app_assoc|congruence..]. Qed.

(** Dispatching leaves the counters to [notify]; it cannot halt. *)
Lemma dispatch_spec e k :
  kinv k → (ev_type e = NEXUS_EVENT_TIMER_TICK → all_live (prologue (k_sched k))) → ∃ k' arrived, dispatch e k = Some k' ∧ by_others k k' arrived.
Proof.
  intros K Hl. unfold dispatch. destruct (Z.eqb_spec (ev_type e) NEXUS_EVENT_TIMER_TICK) as [Ht|_].
  - destruct (scheduler_process_good _ (ki_sched _ K) (Hl Ht)) as (o & s & -> & Ho & G).
    assert (by_others k (k <| k_sched := s |>) []) as B1.
    { destruct K. split; [by split|cbn; by rewrite app_nil_r|done..]. }
    destruct o; [| |done].
    + eexists _, _. split; [done|]. eapply by_others_trans; [exact B1|]. apply on_env_others, B1.
    + destruct (others_inv _ (bo_inv _ _ _ B1)) as [a B2]. eexists _, _. split; [done|].
      eapply by_others_trans; [exact B1|]. eapply by_others_trans; [exact B2|]. apply on_env_others, B2.
  - destruct (ev_type e =? NEXUS_EVENT_KEYBOARD_SCANCODE);
      [eexists _, _; split; [done|by apply on_env_others]|].
    destruct (ev_type e =? NEXUS_EVENT_MOUSE_BYTE); eexists _, _; (split; [done|]); [by apply on_env_others|].
    split; [done|by rewrite app_nil_r|done..].
Qed.

(** How many of [evs] have type [t]. *)
Definition of_type (t : Z) (evs : list nexus_event_t) : Z :=
  Z.of_nat (length (filter (λ e, ev_type e = t) evs)).

(** The effect on the counters of handling one event. *)
Lemma handle_one e k :
  kinv k → 0 ≤ ev_type e → (ev_type e = NEXUS_EVENT_TIMER_TICK → all_live (prologue (k_sched k))) →
  ∃ k1 k2 arrived, dispatch e k = Some k1 ∧ notify (ev_type e) k1 = Some k2 ∧ kinv k2 ∧
    EventQueue.queued (k_queue k2) = EventQueue.queued (k_queue k) ++ arrived ∧
    g_processed k2 = g_processed k ∧
    ∀ t, 1 ≤ t < 4 → g_sequence k2 t = u64 (g_sequence k t + of_type t [e]).
Proof.
  intros K He Hl. destruct (dispatch_spec e k K Hl) as (k1 & a & E1 & [B1 B2 B3 B4]). exists k1.
  destruct (decide (1 ≤ ev_type e < 4)) as [Ht|Ht].
  - destruct (notify_spec _ _ B1 Ht) as (k2 & l & E2 & K2 & _ & _ & Hq & Hp & Hs & _).
    exists k2, a. split_and!; [done..|by rewrite Hq|congruence|].
    intros t Hrange. rewrite Hs, B4. unfold of_type. rewrite filter_cons, filter_nil.
    case_decide as Hd; [subst t; by rewrite upd_eq|]. rewrite upd_ne by congruence. cbn [length].
    rewrite Z.add_0_r, u64_small; [done|]. by apply (ki_sequence _ K).
  - exists k1, a. split_and!; [done| |done..|].
    + unfold notify, KERNEL_EVENT_TYPE_COUNT, NEXUS_EVENT_NONE.
      destruct (Z.ltb_spec (ev_type e) 4), (Z.eqb_spec (ev_type e) 0); try done. exfalso. lia.
    + intros t Hrange. rewrite B4. unfold of_type. rewrite filter_cons, filter_nil, decide_False by (intros <-; done).
      cbn [length]. rewrite Z.add_0_r, u64_small; [done|]. by apply (ki_sequence _ K).
Qed.

(** What a bounded drain has done when it stops. *)
Record drained (budget : nat) k k' (evs arrived : list nexus_event_t) : Prop := {
  dr_inv : kinv k';
  dr_fifo : EventQueue.queued (k_queue k) ++ arrived = evs ++ EventQueue.queued (k_queue k');
  dr_bound : (length evs ≤ budget)%nat;
  dr_empty : (length evs < budget)%nat → EventQueue.queued (k_queue k') = [];
  dr_processed : g_processed k' = u64 (g_processed k + Z.of_nat (length evs));
  dr_sequence : ∀ t, 1 ≤ t < 4 → g_sequence k' t = u64 (g_sequence k t + of_type t evs);
}.

Lemma u64_add_assoc a b c : u64 (u64 (a + b) + c) = u64 (a + (b + c)).
Proof. unfold u64. rewrite Zplus_mod_idemp_l. f_equal. lia. Qed.

Lemma of_type_cons t e evs : of_type t (e :: evs) = of_type t [e] + of_type t evs.
Proof. unfold of_type. rewrite !filter_cons, filter_nil. case_decide; cbn [length]; lia. Qed.

Lemma process_loop_spec budget k :
  kinv k → ticks_live budget k → ∃ k' evs arrived, process_loop budget k = Some k' ∧ drained budget k k' evs arrived.
Proof.
  revert k. induction budget as [|budget IH]; intros k K L; cbn [process_loop]; cbn [ticks_live] in L.
  { exists k, [], []. split; [done|]. destruct K.
    split; cbn; try done; [by rewrite app_nil_r|lia|by rewrite Z.add_0_r, u64_small|].
    intros t Ht. unfold of_type. cbn. rewrite Z.add_0_r, u64_small by auto. done. }
  destruct (others_inv k K) as [a1 [B1 B2 B3 B4]]. set (k1 := others k) in *. clearbody k1. cbv zeta.
  pose proof (pop_inv k1 B1) as Hpop.
  destruct (EventQueue.event_queue_pop (k_queue k1)) as [[e|] q].
  - destruct L as [Hl L]. destruct Hpop as [K2 Hq]. pose proof (ki_types _ B1) as HT. rewrite Hq in HT.
    apply Forall_cons in HT as [He _].
    destruct (handle_one e _ K2 He Hl) as (k3 & k4 & a2 & E3 & E4 & K4 & Q4 & P4 & S4).
    rewrite E3, E4 in L |- *. set (k5 := k4 <| g_processed := u64 (g_processed k4 + 1) |>).
    assert (kinv k5) as K5 by (destruct K4; split; try done; apply u64_range).
    destruct (IH k5 K5 L) as (k' & evs & a3 & E5 & [D1 D2 D3 D4 D5 D6]).
    exists k', (e :: evs), (a1 ++ a2 ++ a3). split; [done|]. split; try done.
    + rewrite app_assoc, <- B2, Hq. cbn [app]. f_equal. rewrite <- D2, app_assoc. f_equal. symmetry. exact Q4.
    + cbn [length]. lia.
    + cbn [length]. intros ?. apply D4. lia.
    + rewrite D5. change (g_processed k5) with (u64 (g_processed k4 + 1)). rewrite u64_add_assoc, P4.
      change (g_processed (k1 <| k_queue := q |>)) with (g_processed k1). rewrite B3. f_equal. cbn [length]. lia.
    + intros t Ht. rewrite D6 by done. change (g_sequence k5 t) with (g_sequence k4 t). rewrite S4 by done.
      rewrite u64_add_assoc. change (g_sequence (k1 <| k_queue := q |>) t) with (g_sequence k1 t).
      by rewrite B4, <- of_type_cons.
  - destruct Hpop as [-> He]. exists (k1 <| k_queue := k_queue k1 |>), [], a1. split; [done|].
    rewrite He in B2. split; cbn; try done; [by split; destruct B1|by rewrite He, <- B2|lia| |].
    + rewrite B3, Z.add_0_r, u64_small; [done|]. apply (ki_processed _ K).
    + intros t Ht. rewrite B4. unfold of_type. cbn. rewrite Z.add_0_r, u64_small; [done|]. by apply (ki_sequence _ K).
Qed.

(** C13: the main loop's drain returns, whatever interrupts and other threads do
    between its steps (events pushed by interrupts, steps of the scheduler and
    threads that start to wait, as [other_step] has them), provided that no
    queued thread belongs to a dead process whenever a timer event of the drain
    runs the scheduler (the case left out is
    [Threads.scheduler_dead_process_corrupts_queue]). It handles at most 128
    events, in the order they were queued (those that arrive meanwhile
    included), leaves the rest queued (and nothing when it handled fewer than
    128), adds the number handled to [g_processed] and the number of each type
    to that type's sequence counter, keeps the invariants of the ring, the wait
    queues and the scheduler, and ends with a heartbeat. *)
Theorem kernel_events_process_drains k :
  kinv k → ticks_live 128 k → ∃ k1 evs arrived,
    kernel_events_process k = Some (on_env ee_watchdog_heartbeat k1) ∧ drained 128 k k1 evs arrived.
Proof.
  intros K L. destruct (process_loop_spec 128 k K L) as (k1 & evs & a & E1 & D). exists k1, evs, a.
  split; [|done]. unfold kernel_events_process. by rewrite E1.
Qed.
End others.

(** Handling an event of type [t] wakes every thread that waits for [t]:
    the sequence counter moves, the wait queue of [t] is empty afterwards, the
    waiters that were blocked are READY, no other thread changes state, and a
    waiter that blocked at the previous count returns from
    [kernel_events_wait]. *)
Theorem event_broadcast_wakes t k :
  kinv k → 1 ≤ t < 4 → ∃ k' l,
    notify t k = Some k' ∧ kinv k' ∧ wq_rep (g_waiters k t) l ∧
    kernel_events_waiter_count t k' = 0 ∧
    kernel_events_sequence t k' = u64 (kernel_events_sequence t k + 1) ∧
    (∀ i, state (tcb (k_sched k') i) =
      if decide (Exists (λ w, find_thread_by_id w (k_sched k) = Some i ∧
                              state (tcb (k_sched k) i) = THREAD_BLOCKED) l)
      then THREAD_READY else state (tcb (k_sched k) i)) ∧
    wait_resume t (kernel_events_sequence t k) k' = (Observed, k').
Proof.
  intros K Ht. destruct (notify_spec t k K Ht) as (k' & l & E1 & K' & Q & Q' & _ & _ & Hs & Hst).
  assert (∀ k0 : kernel E, kernel_events_sequence t k0 = g_sequence k0 t) as Hseq.
  { intros k0. unfold kernel_events_sequence. rewrite valid_type_spec, bool_decide_true, u32_small by lia. done. }
  exists k', l. split; [done|]. split; [done|]. split; [done|]. split.
  { unfold kernel_events_waiter_count. rewrite valid_type_spec, bool_decide_true, u32_small by lia. cbn [negb].
    by rewrite (wq_count _ _ Q'). }
  assert (g_sequence k' t = u64 (g_sequence k t + 1)) as Hn by (by rewrite Hs, upd_eq).
  rewrite !Hseq. split; [done|]. split; [done|].
  unfold wait_resume. rewrite Hseq, Hn. rewrite (proj2 (Z.eqb_neq _ _)); [done|].
  pose proof (ki_sequence _ K t Ht). unfold u64. destruct (decide (g_sequence k t + 1 < 2 ^ 64)).
  - rewrite Z.mod_small; lia.
  - replace (g_sequence k t + 1) with (2 ^ 64) by lia. rewrite Z.mod_same; lia.
Qed.
End ops.

(** ** A concrete machine *)

(** The watchdog, the scancodes the keyboard driver was given, the number of
    xHCI polls and a bump allocator for stacks; every process is alive. *)
Record machine := mkMachine { m_watchdog : Watchdog.watchdog; m_keys : list Z; m_polls : Z; m_brk : Z }.

#[export] Instance machine_sched_env : SchedEnv machine := {
  se_kmalloc n e := (m_brk e, mkMachine (m_watchdog e) (m_keys e) (m_polls e) (m_brk e + n));
  se_kfree _ e := e;
  se_heap_is_ready _ := true;
  se_usermode_ready _ := true;
  se_process_get e pid := Some (mkProcView pid false 0x9000 0);
  se_process_attach _ _ _ e := e;
  se_process_reap _ _ e := (true, e);
  se_process_account_cpu_tick _ e := e;
  se_process_set_current _ e := e;
  se_process_clear_current e := e;
  se_paging_kernel_cr3 _ := 0x1000;
  se_paging_switch_cr3 _ e := e;
  se_watchdog_timer_tick e :=
    mkMachine (Watchdog.nexus_watchdog_timer_tick (m_watchdog e)) (m_keys e) (m_polls e) (m_brk e);
}.

#[export] Instance machine_event_env : EventEnv machine := {
  ee_xhci_poll e := mkMachine (m_watchdog e) (m_keys e) (m_polls e + 1) (m_brk e);
  ee_keyboard_process_scancode c e := mkMachine (m_watchdog e) (m_keys e ++ [c]) (m_polls e) (m_brk e);
  ee_mouse_process_byte _ e := e;
  ee_watchdog_heartbeat e :=
    mkMachine (Watchdog.nexus_watchdog_heartbeat (m_watchdog e)) (m_keys e) (m_polls e) (m_brk e);
}.

Lemma machine_live (s : sched machine) : all_live (prologue s).
Proof. intros i _ _. right. eexists. split; [reflexivity|]. done. Qed.

Definition machine_bss : sched machine :=
  mkSched 0 0 0 0 0 0 false false false (λ _, zero_tcb) None None None None 0 0 0 0 0x7FF0 true ∅
    (mkMachine (Watchdog.nexus_watchdog_init 100 Watchdog.wd_bss) [] 0 0x100000).

(** After boot: one tick and one key press are queued. *)
Definition machine_up : kernel machine :=
  let k := kernel_events_init
    (mkKernel EventQueue.bss 9 (λ _, 9) (λ _, mkWaitQueue (λ _, 5) 6 2) (scheduler_init 100 machine_bss)) in
  let q := (EventQueue.event_queue_push NEXUS_EVENT_TIMER_TICK 0 1 (k_queue k)).2 in
  let q := (EventQueue.event_queue_push NEXUS_EVENT_KEYBOARD_SCANCODE 1 0x11E q).2 in
  k <| k_queue := q |>.

Lemma machine_up_inv : kinv machine_up.
Proof.
  assert (kinv (kernel_events_init
    (mkKernel EventQueue.bss 9 (λ _, 9) (λ _, mkWaitQueue (λ _, 5) 6 2) (scheduler_init 100 machine_bss)))) as K0
    by (apply kernel_events_init_inv, scheduler_init_good).
  destruct (push_by_others NEXUS_EVENT_TIMER_TICK 0 1 _ K0) as [a1 [K1 _ _ _]].
  destruct (push_by_others NEXUS_EVENT_KEYBOARD_SCANCODE 1 0x11E _ K1) as [a2 [K2 _ _ _]]. exact K2.
Qed.

(** Every process of the machine is alive. *)
Lemma machine_ticks_live others budget (k : kernel machine) : ticks_live others budget k.
Proof.
  revert k. induction budget as [|budget IH]; intros k; [done|]. cbn [ticks_live]. cbv zeta.
  destruct (EventQueue.event_queue_pop _) as [[e|] q]; [|done]. split; [intros _; apply machine_live|].
  destruct (dispatch _ _ _) as [k1|]; [|done]. destruct (notify _ k1) as [k2|]; [apply IH|done].
Qed.

Lemma kernel_events_process_drains_witness :
  ∃ k1 evs arrived,
    kernel_events_process (λ k : kernel machine, k) machine_up = Some (on_env ee_watchdog_heartbeat k1) ∧
    drained 128 machine_up k1 evs arrived.
Proof.
  apply (kernel_events_process_drains (λ k, k) 0 0 (λ k, rtc_refl _ k) machine_up machine_up_inv).
  apply machine_ticks_live.
Defined.

(** The run itself: the low byte of the scancode reaches the driver, the
    counters move. *)
Example machine_drain :
  option_map (λ k, (g_processed k, g_sequence k 1, g_sequence k 2, m_keys (env (k_sched k)), m_polls (env (k_sched k))))
    (kernel_events_process (λ k : kernel machine, k) machine_up) = Some (2, 1, 1, [0x1E], 1).
Proof. vm_compute. reflexivity. Qed.

Lemma event_broadcast_wakes_witness :
  ∃ k', notify NEXUS_EVENT_KEYBOARD_SCANCODE machine_up = Some k' ∧
        kernel_events_sequence NEXUS_EVENT_KEYBOARD_SCANCODE k' = 1.
Proof.
  destruct (event_broadcast_wakes NEXUS_EVENT_KEYBOARD_SCANCODE machine_up machine_up_inv)
    as (k' & l & E1 & _ & _ & _ & Hs & _); [unfold NEXUS_EVENT_KEYBOARD_SCANCODE; lia|].
  exists k'. split; [exact E1|]. rewrite Hs. reflexivity.
Defined.

End KernelEvents.
