(* ===== verification/Modules.v ===== *)
(** * The module manager (src/kernel/core/module/module.c)

    Drivers and services register descriptors in a linker section; the manager
    copies them, loads them in priority order and each one after the modules it
    depends on. The initialisers and the console act on the rest of the
    machine, the environment [E]. *)

From Stdlib Require Import Lia ZArith Bool.
From stdpp Require Import base list numbers strings.
From S2P Require Import Prelude.

Local Open Scope Z_scope.

Module Modules.

Definition NEXUS_MODULE_MAGIC : Z := 0x4D4F4458.
Definition NEXUS_MODULE_MAX : nat := 32.

Inductive nexus_module_type_t := NEXUS_MODULE_BUILTIN | NEXUS_MODULE_DRIVER | NEXUS_MODULE_SERVICE.
#[export] Instance module_type_eq_dec : EqDecision nexus_module_type_t.
Proof. solve_decision. Defined.

Inductive nexus_module_state_t :=
| NEXUS_MODULE_STATE_DECLARED
| NEXUS_MODULE_STATE_LOADING
| NEXUS_MODULE_STATE_LOADED
| NEXUS_MODULE_STATE_FAILED.
#[export] Instance module_state_eq_dec : EqDecision nexus_module_state_t.
Proof. solve_decision. Defined.

(** A descriptor; pointers that may be NULL are options. The initialiser
    returns a C [int]. *)
Record nexus_module_descriptor_t {E : Type} := mkDescriptor {
  magic : Z;
  name : option cstr;
  version : option cstr;
  type : nexus_module_type_t;
  priority : Z;
  init : option (E → Z * E);
  dependencies : list (option cstr);
}.
Arguments nexus_module_descriptor_t : clear implicits.
Arguments mkDescriptor {E}.

Record nexus_module_runtime_t {E : Type} := mkRuntime {
  descriptor : nexus_module_descriptor_t E;
  state : nexus_module_state_t;
  result : Z;
}.
Arguments nexus_module_runtime_t : clear implicits.
Arguments mkRuntime {E}.
#[export] Instance eta_runtime {E} : Eta (nexus_module_runtime_t E) := λ r,
  mkRuntime (descriptor r) (state r) (result r).

(** The first [g_count] entries of [g_runtime] as a list; the console's
    component status lines go through [me_component_status]. *)
Record manager {E : Type} := mkManager {
  g_runtime : list (nexus_module_runtime_t E);
  g_loaded : Z;
  g_failed : Z;
  g_dependency_stack : nat → bool;
  env : E;
}.
Arguments manager : clear implicits.
Arguments mkManager {E}.
#[export] Instance eta_manager {E} : Eta (manager E) := λ r,
  mkManager (g_runtime r) (g_loaded r) (g_failed r) (g_dependency_stack r) (env r).

Class ModuleEnv (E : Type) := {
  me_component_status : option cstr → cstr → cstr → bool → E → E;
}.

Definition name_equal (a b : option cstr) : bool :=
  match a, b with Some a, Some b => str_eqb a b | _, _ => false end.

Local Abbreviation DECLARED := NEXUS_MODULE_STATE_DECLARED.
Local Abbreviation LOADED := NEXUS_MODULE_STATE_LOADED.
Local Abbreviation FAILED := NEXUS_MODULE_STATE_FAILED.

Section ops.
Context {E : Type} `{ModuleEnv E}.
Implicit Types (s : manager E) (r : nexus_module_runtime_t E) (d : nexus_module_descriptor_t E).

Definition g_count s : nat := length (g_runtime s).

Definition registered d : bool :=
  (magic d =? NEXUS_MODULE_MAGIC) && bool_decide (is_Some (name d)) && bool_decide (is_Some (init d)).

(** The scan of the linker section [it .. end). *)
Fixpoint copy_loop (section : list (nexus_module_descriptor_t E)) (acc : list (nexus_module_runtime_t E))
    : list (nexus_module_runtime_t E) :=
  match section with
  | [] => acc
  | it :: rest =>
     if (length acc <? NEXUS_MODULE_MAX)%nat
     then copy_loop rest (if registered it then acc ++ [mkRuntime it NEXUS_MODULE_STATE_DECLARED 0] else acc)
     else acc
  end.

Definition copy_registered_modules (section : list (nexus_module_descriptor_t E)) s : manager E :=
  mkManager (copy_loop section []) 0 0 (g_dependency_stack s) (env s).

Definition module_manager_init (section : list (nexus_module_descriptor_t E)) s : manager E :=
  copy_registered_modules section s.

Definition module_index (nm : option cstr) s : option nat :=
  first_index (λ i, match g_runtime s !! i with
                    | Some r => name_equal (name (descriptor r)) nm
                    | None => false end) 0 (g_count s).

Definition find_runtime (nm : option cstr) s : option nat := module_index nm s.

Definition module_find (nm : option cstr) s : option (nexus_module_runtime_t E) :=
  match find_runtime nm s with Some i => g_runtime s !! i | None => None end.

(** Lowest priority value first, the earlier entry on a tie. *)
Fixpoint find_next (i : nat) (l : list (nexus_module_runtime_t E)) (best : option (nat * Z)) : option (nat * Z) :=
  match l with
  | [] => best
  | r :: l =>
     let best :=
       if negb (bool_decide (state r = NEXUS_MODULE_STATE_DECLARED)) then best
       else match best with
            | None => Some (i, priority (descriptor r))
            | Some (_, p) => if priority (descriptor r) <? p then Some (i, priority (descriptor r)) else best
            end in
     find_next (S i) l best
  end.

Definition find_next_declared s : option nat := fst <$> find_next 0 (g_runtime s) None.

Definition set_runtime (i : nat) (f : nexus_module_runtime_t E → nexus_module_runtime_t E) s : manager E :=
  s <| g_runtime := alter f i (g_runtime s) |>.
Definition set_stack (i : nat) (b : bool) s : manager E :=
  s <| g_dependency_stack := λ j, if (j =? i)%nat then b else g_dependency_stack s j |>.

Definition component_status (ok : bool) d s : manager E :=
  s <| env := me_component_status (name d)
        (if bool_decide (type d = NEXUS_MODULE_DRIVER) then lit "driver" else lit "service")
        (default (lit "unknown") (version d)) ok (env s) |>.

(** The branch of [module_load_index] for a dependency that cannot be loaded. *)
Definition load_failed (index : nat) d s : manager E :=
  let s := set_runtime index (λ r, r <| state := NEXUS_MODULE_STATE_FAILED |> <| result := 0 |>) s in
  let s := s <| g_failed := g_failed s + 1 |> in
  component_status false d (set_stack index false s).

(** Its tail, once the dependencies are loaded. *)
Definition load_init (index : nat) d s : bool * manager E :=
  let s := set_runtime index (λ r, r <| state := NEXUS_MODULE_STATE_LOADING |>) s in
  let '(rc, e) := match init d with Some f => f (env s) | None => (0, env s) end in
  let s := s <| env := e |> in
  let s := set_runtime index (λ r, r <| result := rc |>) s in
  let s := set_stack index false s in
  if negb (rc =? 0) then
    let s := set_runtime index (λ r, r <| state := NEXUS_MODULE_STATE_LOADED |>) s in
    (true, component_status true d (s <| g_loaded := g_loaded s + 1 |>))
  else
    let s := set_runtime index (λ r, r <| state := NEXUS_MODULE_STATE_FAILED |>) s in
    (false, component_status false d (s <| g_failed := g_failed s + 1 |>)).

(** The loop over the dependencies of module [index]; [load] is the recursive
    call. *)
Fixpoint load_deps (load : nat → manager E → option (bool * manager E)) (index : nat)
    (deps : list (option cstr)) s : option (bool * manager E) :=
  match deps with
  | [] => Some (true, s)
  | dep :: deps =>
     match dep, module_index dep s with
     | Some _, Some dep_index =>
        if (dep_index =? index)%nat || g_dependency_stack s dep_index then Some (false, s)
        else match load dep_index s with
             | None => None
             | Some (true, s) => load_deps load index deps s
             | Some (false, s) => Some (false, s)
             end
     | _, _ => Some (false, s)
     end
  end.

(** [None]: more than [fuel] calls deep. *)
Fixpoint module_load_index (fuel : nat) (index : nat) s : option (bool * manager E) :=
  match fuel with
  | O => None
  | S fuel =>
     match g_runtime s !! index with
     | None => Some (false, s)
     | Some r =>
        match state r with
        | NEXUS_MODULE_STATE_LOADED => Some (true, s)
        | NEXUS_MODULE_STATE_FAILED | NEXUS_MODULE_STATE_LOADING => Some (false, s)
        | NEXUS_MODULE_STATE_DECLARED =>
           let s := set_stack index true s in
           match load_deps (module_load_index fuel) index (dependencies (descriptor r)) s with
           | None => None
           | Some (false, s) => Some (false, load_failed index (descriptor r) s)
           | Some (true, s) => Some (load_init index (descriptor r) s)
           end
        end
     end
  end.

(** At most [NEXUS_MODULE_MAX] modules can be on the dependency stack. *)
Definition LOAD_FUEL : nat := S NEXUS_MODULE_MAX.

Definition module_load (nm : option cstr) s : option (bool * manager E) :=
  match find_runtime nm s with
  | None => Some (false, s)
  | Some i =>
     match g_runtime s !! i with
     | None => Some (false, s)
     | Some r =>
        match state r with
        | NEXUS_MODULE_STATE_LOADED => Some (true, s)
        | NEXUS_MODULE_STATE_LOADING => Some (false, s)
        | _ => module_load_index LOAD_FUEL i s
        end
     end
  end.

(** [None]: still looping after [rounds] rounds (or the recursion too deep). *)
Fixpoint load_all_loop (rounds : nat) (progress : bool) s : option (Z * manager E) :=
  match rounds with
  | O => None
  | S rounds =>
     match find_next_declared s with
     | None => Some (if progress then g_loaded s else 0, s)
     | Some i =>
        match g_runtime s !! i with
        | None => None
        | Some r =>
           match module_load (name (descriptor r)) s with
           | None => None
           | Some (_, s) => load_all_loop rounds true s
           end
        end
     end
  end.

Definition module_load_all (rounds : nat) s : option (Z * manager E) := load_all_loop rounds false s.

Definition module_is_loaded (nm : option cstr) s : bool :=
  match module_find nm s with
  | Some r => bool_decide (state r = NEXUS_MODULE_STATE_LOADED)
  | None => false
  end.

Definition module_dependency_count (nm : option cstr) s : Z :=
  match module_find nm s with Some r => Z.of_nat (length (dependencies (descriptor r))) | None => -1 end.

Definition module_dependency_failed (nm : option cstr) s : bool :=
  match module_find nm s with
  | None => true
  | Some r =>
     existsb (λ dep, match module_find dep s with
                     | None => true
                     | Some q => negb (bool_decide (state q = NEXUS_MODULE_STATE_LOADED))
                     end) (dependencies (descriptor r))
  end.

(** ** The invariant *)

(** The state of module [i], if there is one. *)
Definition st s (i : nat) : option nexus_module_state_t := state <$> g_runtime s !! i.
Definition descs s : list (nexus_module_descriptor_t E) := descriptor <$> g_runtime s.


(** A dependency that is loaded, and one that keeps module [i] from loading. *)
Definition dep_ok s (dep : option cstr) : Prop :=
  ∃ j, module_index dep s = Some j ∧ st s j = Some LOADED.
Definition dep_bad s (i : nat) (dep : option cstr) : Prop :=
  module_index dep s = None ∨
  ∃ j, module_index dep s = Some j ∧ (j = i ∨ st s j = Some FAILED ∨ g_dependency_stack s j = true).

(** What the initialisers may rely on: [I] is an invariant of the machine,
    [P j] holds of it once module [j] is initialised. *)
Context (I : E → Prop) (P : nat → E → Prop).

(** All dependencies of [d] are initialised in [e]. *)
Definition deps_ready s d (e : E) : Prop :=
  ∀ dep j, dep ∈ dependencies d → module_index dep s = Some j → P j e.

(** The contract of the initialisers: one that is called when everything its
    module depends on is initialised keeps the invariant and what is
    initialised, and makes its module initialised unless it returns 0. Nothing
    is said of an initialiser that is called earlier. *)
Record init_contract s : Prop := {
  ic_status : ∀ nm kind v ok e, I e → I (me_component_status nm kind v ok e);
  ic_status_ready : ∀ nm kind v ok e j, I e → P j e → P j (me_component_status nm kind v ok e);
  ic_init : ∀ i d f e, descs s !! i = Some d → init d = Some f → I e → deps_ready s d e →
    I (f e).2 ∧ (∀ j, P j e → P j (f e).2) ∧ ((f e).1 ≠ 0 → P i (f e).2);
}.

(** The initialiser of [d] returned [rc] when it was called, in a machine with
    all dependencies initialised. *)
Definition init_returned s d (rc : Z) : Prop :=
  ∃ f e, init d = Some f ∧ I e ∧ deps_ready s d e ∧ (f e).1 = rc.

Definition count_in (x : nexus_module_state_t) s : Z :=
  Z.of_nat (length (filter (λ r, state r = x) (g_runtime s))).

(** Why module [i] with descriptor [d] may have failed. *)
Definition fail_reason s (i : nat) d : Prop :=
  Exists (dep_bad s i) (dependencies d) ∨ Forall (dep_ok s) (dependencies d) ∧ init_returned s d 0.

Record minv s : Prop := {
  mi_loaded : ∀ i r, g_runtime s !! i = Some r → state r = LOADED →
    Forall (dep_ok s) (dependencies (descriptor r)) ∧ result r ≠ 0 ∧ init_returned s (descriptor r) (result r);
  mi_failed : ∀ i r, g_runtime s !! i = Some r → state r = FAILED →
    fail_reason s i (descriptor r);
  mi_stack : ∀ i, g_dependency_stack s i = true → st s i = Some DECLARED;
  mi_settled : ∀ i, st s i ≠ Some NEXUS_MODULE_STATE_LOADING;
  mi_n_loaded : g_loaded s = count_in LOADED s;
  mi_n_failed : g_failed s = count_in FAILED s;
  mi_init : Forall (λ r, is_Some (init (descriptor r))) (g_runtime s);
  mi_contract : init_contract s;
  mi_env : I (env s);
  mi_ready : ∀ i, st s i = Some LOADED → P i (env s);
}.

Lemma module_index_ext nm s s' : descs s' = descs s → module_index nm s' = module_index nm s.
Proof.
  intros Hd. assert (g_count s' = g_count s) as Hl.
  { unfold g_count. apply (f_equal length) in Hd. unfold descs in Hd. by rewrite !length_fmap in Hd. }
  unfold module_index. rewrite Hl. apply first_index_ext. intros j _.
  assert (descriptor <$> g_runtime s' !! j = descriptor <$> g_runtime s !! j) as Hj
    by (rewrite <- !list_lookup_fmap; by unfold descs in Hd; rewrite Hd).
  destruct (g_runtime s' !! j), (g_runtime s !! j); try done. cbn in Hj. injection Hj as ->. done.
Qed.

Lemma deps_ready_ext s s' d e : descs s' = descs s → deps_ready s d e → deps_ready s' d e.
Proof. intros Hd Hr dep j Hdep. rewrite (module_index_ext dep s s' Hd). by apply Hr. Qed.

Lemma init_contract_ext s s' : descs s' = descs s → init_contract s → init_contract s'.
Proof.
  intros Hd [C1 C2 C3]. split; [done..|]. intros i d f e. rewrite Hd. intros Hi Hf He Hr.
  apply (C3 i d f e Hi Hf He). by apply (deps_ready_ext s').
Qed.

Lemma init_returned_ext s s' d rc : descs s' = descs s → init_returned s d rc → init_returned s' d rc.
Proof.
  intros Hd (f & e & Hf & He & Hr & Hrc). exists f, e. split; [done|]. split; [done|]. split; [|done].
  by apply (deps_ready_ext s).
Qed.

(** Loaded dependencies are initialised ones. *)
Lemma deps_ok_ready s d :
  (∀ i, st s i = Some LOADED → P i (env s)) → Forall (dep_ok s) (dependencies d) → deps_ready s d (env s).
Proof.
  intros Hp Hall dep j Hdep Hj. rewrite Forall_forall in Hall. destruct (Hall dep Hdep) as (k & Hk & Hst).
  rewrite Hj in Hk. injection Hk as <-. by apply Hp.
Qed.

Lemma module_index_lt nm s i : module_index nm s = Some i → (i < g_count s)%nat.
Proof. intros (Hi & _)%first_index_Some. lia. Qed.

(** The steps of the loading procedure only ever settle modules. *)
Record settles s s' : Prop := {
  se_descs : descs s' = descs s;
  se_stack : ∀ j, g_dependency_stack s' j = g_dependency_stack s j;
  se_keep : ∀ j, st s j ≠ Some DECLARED → st s' j = st s j;
  se_wait : ∀ j, g_dependency_stack s j = true → st s' j = st s j;
}.

Lemma settles_refl s : settles s s.
Proof. by split. Qed.

Lemma settles_trans s1 s2 s3 : settles s1 s2 → settles s2 s3 → settles s1 s3.
Proof.
  intros [A1 A2 A3 A4] [B1 B2 B3 B4]. split.
  - congruence.
  - intros j. by rewrite B2.
  - intros j Hj. rewrite B3; [by apply A3|]. by rewrite A3.
  - intros j Hj. rewrite B4; [by apply A4|]. by rewrite A2.
Qed.

(** What keeps the reasons of the invariant valid: settled modules stay as
    they are, one that leaves the stack has failed. *)
Record grows s s' : Prop := {
  gr_descs : descs s' = descs s;
  gr_keep : ∀ j, st s j ≠ Some DECLARED → st s' j = st s j;
  gr_stack : ∀ j, g_dependency_stack s j = true → g_dependency_stack s' j = true ∨ st s' j = Some FAILED;
}.

Lemma settles_grows s s' : settles s s' → grows s s'.
Proof. intros [D1 D2 D3 D4]. split; [done..|]. intros j Hj. left. by rewrite D2. Qed.

Lemma dep_ok_keep s s' dep :
  descs s' = descs s → (∀ j, st s j ≠ Some DECLARED → st s' j = st s j) → dep_ok s dep → dep_ok s' dep.
Proof.
  intros D1 D3 (j & Hj & Hs). exists j. rewrite (module_index_ext dep s s' D1). split; [done|].
  rewrite D3; [done|]. by rewrite Hs.
Qed.

Lemma grows_dep_bad s s' i dep : grows s s' → dep_bad s i dep → dep_bad s' i dep.
Proof.
  intros [D1 D3 D2]. unfold dep_bad. rewrite (module_index_ext dep s s' D1).
  intros [?|(j & Hj & Hc)]; [by left|right]. exists j. split; [done|].
  destruct Hc as [?|[Hf|Hs]]; [by left| |right; destruct (D2 j Hs); tauto]. right; left. rewrite D3; [done|by rewrite Hf].
Qed.

Lemma grows_fail_reason s s' i d : grows s s' → fail_reason s i d → fail_reason s' i d.
Proof.
  intros Hg [Hb|[Ho Hi]]; [left|right; split; [|eapply init_returned_ext; [apply Hg|done]]].
  - eapply Exists_impl; [exact Hb|]. intros dep. by apply grows_dep_bad.
  - eapply Forall_impl; [exact Ho|]. intros dep. apply dep_ok_keep; apply Hg.
Qed.

(** ** One module changes *)

Lemma st_alter f i j s :
  st (set_runtime i f s) j = if decide (j = i) then state ∘ f <$> g_runtime s !! i else st s j.
Proof.
  unfold st, set_runtime. cbn. case_decide as Hd.
  - subst j. rewrite list_lookup_alter_eq. by destruct (g_runtime s !! i).
  - by rewrite list_lookup_alter_ne.
Qed.

Lemma count_alter x i r f (l : list (nexus_module_runtime_t E)) :
  l !! i = Some r → state r ≠ x →
  Z.of_nat (length (filter (λ r, state r = x) (alter f i l))) =
  Z.of_nat (length (filter (λ r, state r = x) l)) + (if decide (state (f r) = x) then 1 else 0).
Proof.
  intros Hi Hx. revert i Hi. induction l as [|y l IH]; intros i Hi; [done|]. destruct i as [|i]; cbn in Hi.
  - injection Hi as ->. cbn [alter list_alter]. rewrite !filter_cons. rewrite (decide_False (P := state r = x)) by done.
    case_decide; cbn [length]; lia.
  - cbn [alter list_alter]. rewrite !filter_cons. specialize (IH i Hi).
    change (list_alter f i l) with (alter f i l). destruct (decide (state y = x)); cbn [length]; lia.
Qed.

Lemma descs_alter f i s : (∀ r, descriptor (f r) = descriptor r) → descs (set_runtime i f s) = descs s.
Proof.
  intros Hf. unfold descs, set_runtime. cbn. apply list_eq. intros j. rewrite !list_lookup_fmap.
  destruct (decide (j = i)) as [->|]; [|by rewrite list_lookup_alter_ne].
  rewrite list_lookup_alter_eq. destruct (g_runtime s !! i); [cbn; by rewrite Hf|done].
Qed.

(** ** A module leaves the stack *)

(** How the machine may change: the invariant stays, and what is initialised. *)
Definition env_extends (e e' : E) : Prop := I e' ∧ ∀ j, P j e → P j e'.

Lemma env_extends_status s d ok e e' :
  init_contract s → env_extends e e' →
  env_extends e (me_component_status (name d)
    (if bool_decide (type d = NEXUS_MODULE_DRIVER) then lit "driver" else lit "service")
    (default (lit "unknown") (version d)) ok e').
Proof. intros C [He Hp]. split; [by apply C|]. intros j Hj. by apply C, Hp. Qed.

Record finishes (i : nat) (x : nexus_module_state_t) (rc : Z) s s' : Prop := {
  fi_runtime : g_runtime s' = alter (λ r, mkRuntime (descriptor r) x rc) i (g_runtime s);
  fi_stack : ∀ j, g_dependency_stack s' j = if (j =? i)%nat then false else g_dependency_stack s j;
  fi_loaded : g_loaded s' = g_loaded s + (if decide (x = LOADED) then 1 else 0);
  fi_failed : g_failed s' = g_failed s + (if decide (x = FAILED) then 1 else 0);
  fi_env : env_extends (env s) (env s');
  fi_ready : x = LOADED → P i (env s');
}.

Lemma load_failed_finishes i d s : init_contract s → I (env s) → finishes i FAILED 0 s (load_failed i d s).
Proof.
  intros C He. split; [done..|rewrite decide_False by done; cbn; lia|by rewrite decide_True| |done].
  by apply (env_extends_status s).
Qed.

Lemma load_init_finishes i d s f :
  init_contract s → I (env s) → deps_ready s d (env s) → descs s !! i = Some d → init d = Some f →
  let rc := (f (env s)).1 in
  ∃ s', load_init i d s = (negb (rc =? 0), s') ∧
        finishes i (if decide (rc = 0) then FAILED else LOADED) rc s s'.
Proof.
  intros C He Hr Hd Hf. pose proof (ic_init _ C i d f (env s) Hd Hf He Hr) as (Hi & Hp & Hl).
  unfold load_init. rewrite Hf. cbn. destruct (f (env s)) as [rc e]. cbn in *.
  assert (env_extends (env s) e) as Hx by done.
  destruct (Z.eqb_spec rc 0) as [->|Hrc]; cbn; eexists; (split; [reflexivity|]).
  - rewrite decide_True by done.
    split; [cbn; by rewrite !list_alter_alter_eq|done|rewrite decide_False by done; cbn; lia|by rewrite decide_True| |done].
    by apply (env_extends_status s).
  - rewrite decide_False by done.
    split; [cbn; by rewrite !list_alter_alter_eq|done|by rewrite decide_True|rewrite decide_False by done; cbn; lia|..].
    + by apply (env_extends_status s).
    + intros _. apply C; [done|by apply Hl].
Qed.

Section finishing.
Context (i : nat) (x : nexus_module_state_t) (rc : Z) (s s' : manager E).
Context (Hfin : finishes i x rc s s') (r : nexus_module_runtime_t E).
Context (Hr : g_runtime s !! i = Some r) (Hdecl : state r = DECLARED).

Lemma fin_descs : descs s' = descs s.
Proof.
  transitivity (descs (set_runtime i (λ r, mkRuntime (descriptor r) x rc) s)).
  - unfold descs. by rewrite (fi_runtime _ _ _ _ _ Hfin).
  - by apply descs_alter.
Qed.

Lemma fin_st j : st s' j = if decide (j = i) then Some x else st s j.
Proof.
  unfold st. rewrite (fi_runtime _ _ _ _ _ Hfin). case_decide as Hd.
  - subst j. rewrite list_lookup_alter_eq, Hr. done.
  - by rewrite list_lookup_alter_ne.
Qed.

Lemma fin_keep j : st s j ≠ Some DECLARED → st s' j = st s j.
Proof.
  intros Hj. rewrite fin_st. case_decide as Hd; [|done]. subst j. destruct Hj. unfold st. by rewrite Hr, <- Hdecl.
Qed.

Lemma fin_count y : y ≠ DECLARED → count_in y s' = count_in y s + (if decide (x = y) then 1 else 0).
Proof.
  intros Hy. unfold count_in. rewrite (fi_runtime _ _ _ _ _ Hfin).
  rewrite (count_alter y i r _ _ Hr) by congruence. done.
Qed.

Lemma fin_grows : x = FAILED → grows s s'.
Proof.
  intros Hx. split; [apply fin_descs|apply fin_keep|]. intros j Hj. rewrite (fi_stack _ _ _ _ _ Hfin), fin_st, Hx.
  destruct (Nat.eqb_spec j i) as [Heq|Hne]; [right; by rewrite decide_True|by left].
Qed.

Lemma fin_minv :
  minv s →
  (x = LOADED ∧ Forall (dep_ok s) (dependencies (descriptor r)) ∧ rc ≠ 0 ∧ init_returned s (descriptor r) rc ∨
   x = FAILED ∧ fail_reason s' i (descriptor r)) →
  (∀ j q, j ≠ i → g_runtime s !! j = Some q → state q = FAILED → fail_reason s' j (descriptor q)) →
  minv s'.
Proof.
  intros [M1 M2 M3 M4 M5 M6 M7 M8 M9 M10] Hx Hfail. pose proof (fi_env _ _ _ _ _ Hfin) as [He Hp]. pose proof fin_descs as Hds.
  assert (∀ dep, dep_ok s dep → dep_ok s' dep) as Hok
    by (intros dep; apply dep_ok_keep; [apply fin_descs|apply fin_keep]).
  pose proof fin_st as Hst. pose proof fin_count as Hcnt.
  assert (∀ j q, g_runtime s' !! j = Some q →
    (j = i ∧ q = mkRuntime (descriptor r) x rc) ∨ (j ≠ i ∧ g_runtime s !! j = Some q)) as Hlk.
  { intros j q Hq. rewrite (fi_runtime _ _ _ _ _ Hfin) in Hq. destruct (decide (j = i)) as [->|Hne].
    - rewrite list_lookup_alter_eq, Hr in Hq. injection Hq as <-. by left.
    - rewrite list_lookup_alter_ne in Hq by done. by right. }
  split.
  - intros j q [[-> ->]|[Hne Hq]]%Hlk Hl; cbn in *.
    + destruct Hx as [(-> & Ho & Hrc & Hi)|[-> _]]; [|done].
      split_and!; [by eapply Forall_impl|done|by apply (init_returned_ext s)].
    + destruct (M1 j q Hq Hl) as (Ho & ? & ?).
      split_and!; [by eapply Forall_impl|done|by apply (init_returned_ext s)].
  - intros j q [[-> ->]|[Hne Hq]]%Hlk Hl; cbn in *; [|by apply Hfail].
    destruct Hx as [(-> & _)|[_ Hx]]; done.
  - intros j Hj. rewrite (fi_stack _ _ _ _ _ Hfin) in Hj. destruct (Nat.eqb_spec j i) as [|Hne]; [done|].
    rewrite Hst, decide_False by done. by apply M3.
  - intros j. rewrite Hst. case_decide; [|apply M4]. destruct Hx as [(-> & _)|[-> _]]; done.
  - rewrite (fi_loaded _ _ _ _ _ Hfin), M5, Hcnt by done. done.
  - rewrite (fi_failed _ _ _ _ _ Hfin), M6, Hcnt by done. done.
  - rewrite (fi_runtime _ _ _ _ _ Hfin). apply Forall_lookup. intros j q. rewrite Forall_lookup in M7.
    destruct (decide (j = i)) as [->|Hne].
    + rewrite list_lookup_alter_eq, Hr. intros [= <-]. cbn. by apply (M7 i r).
    + rewrite list_lookup_alter_ne by done. apply M7.
  - by apply (init_contract_ext s).
  - done.
  - intros j. rewrite Hst. case_decide as Hd; [subst j; intros [= Hl]; by apply (fi_ready _ _ _ _ _ Hfin)|].
    intros Hl. by apply Hp, M10.
Qed.
End finishing.

(** ** The recursion *)

(** Modules not on the dependency stack: the recursion depth left. *)
Definition off_stack s : nat :=
  length (filter (λ j, g_dependency_stack s j = false) (seq 0 (g_count s))).

Lemma count_descs s s' : descs s' = descs s → g_count s' = g_count s.
Proof. intros Hd. apply (f_equal length) in Hd. unfold descs in Hd. by rewrite !length_fmap in Hd. Qed.

Lemma off_stack_settles s s' : settles s s' → off_stack s' = off_stack s.
Proof.
  intros [D1 D2 _ _]. unfold off_stack. rewrite (count_descs s s' D1). f_equal. apply filter_ext_on.
  intros j _. by rewrite D2.
Qed.

Lemma off_stack_push i s :
  (i < g_count s)%nat → g_dependency_stack s i = false → off_stack s = S (off_stack (set_stack i true s)).
Proof.
  intros Hi Hs. unfold off_stack. change (g_count (set_stack i true s)) with (g_count s).
  apply (length_filter_remove _ _ _ i); [apply NoDup_seq|apply elem_of_seq; lia|done|].
  intros j _. cbn. destruct (Nat.eqb_spec j i) as [->|Hne]; [naive_solver|tauto].
Qed.

Lemma grows_push i s : grows s (set_stack i true s).
Proof. split; [done..|]. intros j Hj. left. cbn. by destruct (j =? i)%nat. Qed.

Lemma minv_push i s : minv s → st s i = Some DECLARED → minv (set_stack i true s).
Proof.
  intros [M1 M2 M3 M4 M5 M6 M7 M8 M9 M10] Hi. split; try done.
  - intros j r Hj Hl. apply (grows_fail_reason s); [apply grows_push|by apply M2].
  - intros j. cbn. destruct (Nat.eqb_spec j i) as [->|Hne]; [done|by apply M3].
  - by apply (init_contract_ext s).
Qed.

(** A call that succeeds adds no failed module. *)
Definition no_new_failure s s' : Prop := ∀ j, st s' j = Some FAILED → st s j = Some FAILED.

Definition load_ok (load : nat → manager E → option (bool * manager E)) (i : nat) s : Prop :=
  ∃ b s', load i s = Some (b, s') ∧ minv s' ∧ settles s s' ∧
    st s' i = Some (if b then LOADED else FAILED) ∧ (b = true → no_new_failure s s').

Lemma load_deps_spec fuel i deps s :
  (∀ j s, minv s → (j < g_count s)%nat → g_dependency_stack s j = false → (off_stack s < fuel)%nat →
          load_ok (module_load_index fuel) j s) →
  minv s → (off_stack s < fuel)%nat →
  ∃ b s', load_deps (module_load_index fuel) i deps s = Some (b, s') ∧ minv s' ∧ settles s s' ∧
    (if b then Forall (dep_ok s') deps ∧ no_new_failure s s' else Exists (dep_bad s' i) deps).
Proof.
  intros IH. revert s. induction deps as [|dep deps IHd]; intros s M Hf; cbn [load_deps].
  { exists true, s. split; [done|]. split; [done|]. split; [apply settles_refl|]. split; [constructor|by intros j]. }
  assert (dep_bad s i dep → ∃ b s', Some (false, s) = Some (b, s') ∧ minv s' ∧ settles s s' ∧
    (if b then Forall (dep_ok s') (dep :: deps) ∧ no_new_failure s s' else Exists (dep_bad s' i) (dep :: deps))) as Hbad.
  { intros Hb. exists false, s. split; [done|]. split; [done|]. split; [apply settles_refl|]. by left. }
  destruct dep as [nm|].
  2: { apply Hbad. left. apply first_index_None. intros j _. destruct (g_runtime s !! j) as [q|]; [|done].
       unfold name_equal. by destruct (name (descriptor q)). }
  destruct (module_index (Some nm) s) as [j|] eqn:Ej; [|apply Hbad; by left].
  destruct (Nat.eqb_spec j i) as [->|Hne]; cbn [orb]; [apply Hbad; right; exists i; tauto|].
  destruct (g_dependency_stack s j) eqn:Hs; [apply Hbad; right; exists j; tauto|].
  destruct (IH j s M (module_index_lt _ _ _ Ej) Hs Hf) as (b & s1 & -> & M1 & D1 & Hst & Hnn).
  destruct b.
  - assert (off_stack s1 < fuel)%nat as Hf1 by (by rewrite (off_stack_settles s)).
    destruct (IHd s1 M1 Hf1) as (b & s2 & -> & M2 & D2 & Hcase). exists b, s2. split; [done|]. split; [done|].
    split; [by eapply settles_trans|]. destruct b; [|by right].
    destruct Hcase as [Hok Hnn2]. split; [|intros k Hk; by apply Hnn, Hnn2].
    constructor; [|done]. apply (dep_ok_keep s1); [apply D2..|]. exists j.
    by rewrite (module_index_ext _ s s1 (se_descs _ _ D1)).
  - exists false, s1. split; [done|]. split; [done|]. split; [done|]. left. right. exists j.
    rewrite (module_index_ext _ s s1 (se_descs _ _ D1)). tauto.
Qed.

(** Removing [i] from the stack again leaves the state settled. *)
Lemma finish_settles i x rc s s1 s2 r :
  g_runtime s !! i = Some r → state r = DECLARED → g_dependency_stack s i = false →
  settles (set_stack i true s) s1 → finishes i x rc s1 s2 → settles s s2.
Proof.
  intros Hr Hd Hs [D1 D2 D3 D4] Hfin.
  assert (∃ q, g_runtime s1 !! i = Some q ∧ state q = DECLARED) as (q & Hq1 & Hq2).
  { assert (st s1 i = Some DECLARED) as Hst.
    { rewrite D4; [unfold st; cbn; by rewrite Hr, <- Hd|]. cbn. by rewrite Nat.eqb_refl. }
    unfold st in Hst. destruct (g_runtime s1 !! i) as [q|]; [|done]. cbn in Hst. injection Hst as Hst. by exists q. }
  split.
  - rewrite (fin_descs i x rc s1 s2 Hfin). exact D1.
  - intros j. rewrite (fi_stack _ _ _ _ _ Hfin), D2. cbn. by destruct (Nat.eqb_spec j i) as [->|].
  - intros j Hj. rewrite (fin_keep i x rc s1 s2 Hfin q Hq1 Hq2); [by apply D3|]. by rewrite D3.
  - intros j Hj. assert (j ≠ i) by congruence.
    rewrite (fin_st i x rc s1 s2 Hfin q Hq1), decide_False by done.
    refine (D4 j _). cbn. by destruct (j =? i)%nat.
Qed.

(** Loading one module: the recursion ends, and either the module and all it
    needs are loaded or the module has failed. *)
Lemma load_index_spec fuel i s :
  minv s → (i < g_count s)%nat → g_dependency_stack s i = false → (off_stack s < fuel)%nat →
  load_ok (module_load_index fuel) i s.
Proof.
  revert i s. induction fuel as [|fuel IH]; intros i s M Hi Hs Hf; [lia|]. unfold load_ok. cbn [module_load_index].
  destruct (lookup_lt_is_Some_2 (g_runtime s) i Hi) as [r Hr]. rewrite Hr.
  assert (st s i = Some (state r)) as Hst by (unfold st; by rewrite Hr).
  pose proof (mi_settled _ M i) as Hset. rewrite Hst in Hset.
  destruct (state r) eqn:Hd; [|done|exists true, s|exists false, s];
    [|split_and!; [done|done|apply settles_refl|done|by intros _ j]..].
  rewrite (off_stack_push i s Hi Hs) in Hf.
  destruct (load_deps_spec fuel i (dependencies (descriptor r)) (set_stack i true s) IH (minv_push i s M Hst)
    ltac:(lia)) as (b & s1 & -> & M1 & D1 & Hcase).
  assert (g_dependency_stack s1 i = true) as Hs1 by (rewrite (se_stack _ _ D1); cbn; by rewrite Nat.eqb_refl).
  pose proof (mi_stack _ M1 i Hs1) as Hst1.
  assert (∃ q, g_runtime s1 !! i = Some q ∧ state q = DECLARED ∧ descriptor q = descriptor r) as (q & Hq & Hqd & Hqr).
  { unfold st in Hst1. destruct (g_runtime s1 !! i) as [q|] eqn:Hq; [|done]. exists q. split; [done|].
    cbn in Hst1. injection Hst1 as Hst1. split; [done|]. pose proof (se_descs _ _ D1) as Hde.
    assert (descs s1 !! i = descs s !! i) as He by (by rewrite Hde).
    unfold descs in He. rewrite !list_lookup_fmap, Hq, Hr in He. cbn in He. by injection He. }
  destruct b.
  - destruct Hcase as [Hok Hnn].
    assert (is_Some (init (descriptor r))) as [f Hinit].
    { pose proof (mi_init _ M) as Hall. rewrite Forall_lookup in Hall. by apply (Hall i). }
    assert (descs s1 !! i = Some (descriptor r)) as Hdi by (unfold descs; rewrite list_lookup_fmap, Hq; cbn; by rewrite Hqr).
    pose proof (deps_ok_ready s1 (descriptor r) (mi_ready _ M1) Hok) as Hready.
    destruct (load_init_finishes i (descriptor r) s1 f (mi_contract _ M1) (mi_env _ M1) Hready Hdi Hinit) as (s2 & -> & Hfin).
    set (rc := (f (env s1)).1) in *.
    assert (init_returned s1 (descriptor r) rc) as Hret
      by (exists f, (env s1); split; [done|]; split; [apply M1|done]).
    clearbody rc. rewrite <- Hqr in Hok, Hret.
    pose proof (finish_settles _ _ _ _ _ _ _ Hr Hd Hs D1 Hfin) as D2.
    destruct (Z.eqb_spec rc 0) as [->|Hrc]; cbn [negb].
    + rewrite decide_True in Hfin by done. pose proof (fin_grows _ _ _ _ _ Hfin q Hq Hqd eq_refl) as Hg.
      exists false, s2. split; [done|]. split; [|split; [done|split; [|done]]].
      * apply (fin_minv _ _ _ _ _ Hfin q Hq Hqd M1).
        -- right. split; [done|]. apply (grows_fail_reason s1); [done|]. by right.
        -- intros j q' _ Hj Hfj. apply (grows_fail_reason s1); [done|]. by apply (mi_failed _ M1).
      * by rewrite (fin_st _ _ _ _ _ Hfin q Hq), decide_True.
    + rewrite decide_False in Hfin by done. pose proof (fin_st _ _ _ _ _ Hfin q Hq) as Hst2.
      assert (no_new_failure s s2) as Hnn2.
      { intros j Hj. rewrite Hst2 in Hj. case_decide; [done|]. exact (Hnn j Hj). }
      exists true, s2. split; [done|]. split; [|split; [done|split; [by rewrite Hst2, decide_True|done]]].
      apply (fin_minv _ _ _ _ _ Hfin q Hq Hqd M1); [by left|].
      intros j q' Hne Hj Hfj. apply (grows_fail_reason s); [by apply settles_grows|].
      assert (st s j = Some FAILED) as Hsj by (apply (Hnn j); unfold st; by rewrite Hj, <- Hfj).
      unfold st in Hsj. destruct (g_runtime s !! j) as [p0|] eqn:Hp0; [|done]. cbn in Hsj. injection Hsj as Hsj.
      pose proof (mi_failed _ M j p0 Hp0 Hsj) as Hrs.
      assert (descs s1 !! j = descs s !! j) as He by (by rewrite (se_descs _ _ D1)).
      unfold descs in He. rewrite !list_lookup_fmap, Hj, Hp0 in He. cbn in He. injection He as ->. done.
  - pose proof (load_failed_finishes i (descriptor r) s1 (mi_contract _ M1) (mi_env _ M1)) as Hfin.
    pose proof (fin_grows _ _ _ _ _ Hfin q Hq Hqd eq_refl) as Hg.
    exists false, (load_failed i (descriptor r) s1). split; [done|].
    split; [|split; [exact (finish_settles _ _ _ _ _ _ _ Hr Hd Hs D1 Hfin)|split; [|done]]].
    + apply (fin_minv _ _ _ _ _ Hfin q Hq Hqd M1).
      * right. split; [done|]. apply (grows_fail_reason s1); [done|]. left. by rewrite Hqr.
      * intros j q' _ Hj Hfj. apply (grows_fail_reason s1); [done|]. by apply (mi_failed _ M1).
    + by rewrite (fin_st _ _ _ _ _ Hfin q Hq), decide_True.
Qed.

(** ** The priority scan *)

Lemma find_next_spec k l best :
  (∀ i p, best = Some (i, p) → (i < k)%nat) →
  match find_next k l best with
  | None => best = None ∧ ∀ j r, l !! j = Some r → state r ≠ DECLARED
  | Some (i, p) =>
     (best = Some (i, p) ∨ ∃ r, l !! (i - k)%nat = Some r ∧ (k ≤ i)%nat ∧ state r = DECLARED ∧ priority (descriptor r) = p) ∧
     (∀ j q, best = Some (j, q) → p ≤ q) ∧
     ∀ j r, l !! j = Some r → state r = DECLARED → p ≤ priority (descriptor r)
  end.
Proof.
  revert k best. induction l as [|r l IH]; intros k best Hb; cbn [find_next].
  { destruct best as [[i p]|]; [|done]. split; [by left|]. split; [intros j q [= <- <-]; lia|done]. }
  set (best' := if negb _ then best else _).
  assert (∀ i p, best' = Some (i, p) → best = Some (i, p) ∨
    i = k ∧ p = priority (descriptor r) ∧ state r = DECLARED) as Hb1.
  { intros i p. unfold best'. case_bool_decide as Hd; cbn [negb]; [|by left].
    destruct best as [[j q]|]; [|intros [= <- <-]; by right].
    destruct (_ <? q); [intros [= <- <-]; by right|by left]. }
  assert (∀ i p, best' = Some (i, p) → (i < S k)%nat) as Hb2.
  { intros i p [He|(-> & _)]%Hb1; [|lia]. specialize (Hb i p He). lia. }
  specialize (IH (S k) best' Hb2). destruct (find_next (S k) l best') as [[i p]|].
  - destruct IH as (I1 & I2 & I3). split.
    + destruct I1 as [[He|(-> & -> & Hd)]%Hb1|(q & Hq & Hk & Hd & Hp)]; [by left| |].
      * right. exists r. rewrite Nat.sub_diag. split; [done|]. split; [lia|done].
      * right. exists q. replace (i - k)%nat with (S (i - S k)) by lia. split; [done|]. split; [lia|done].
    + assert (∀ j q, best = Some (j, q) → ∃ j' q', best' = Some (j', q') ∧ q' ≤ q) as Hle.
      { intros j q ->. unfold best'. destruct (negb _); [exists j, q; split; [done|lia]|].
        destruct (Z.ltb_spec (priority (descriptor r)) q); eexists _, _; (split; [done|lia]). }
      split.
      * intros j q (j' & q' & Hj & Hl)%Hle. specialize (I2 j' q' Hj). lia.
      * intros j q Hj Hd. destruct j as [|j]; [|by apply (I3 j)]. injection Hj as <-.
        assert (∃ j' q', best' = Some (j', q') ∧ q' ≤ priority (descriptor r)) as (j' & q' & Hj & Hl).
        { unfold best'. rewrite bool_decide_true by done. cbn [negb]. destruct best as [[j q]|].
          - destruct (Z.ltb_spec (priority (descriptor r)) q); eexists _, _; (split; [done|lia]).
          - eexists _, _. split; [done|lia]. }
        specialize (I2 j' q' Hj). lia.
  - destruct IH as (I1 & I2). unfold best' in I1. case_bool_decide as Hd; cbn [negb] in I1.
    + destruct best as [[j q]|]; [|done]. by destruct (_ <? q).
    + split; [done|]. intros [|j] q Hj; [by injection Hj as <-|by apply (I2 j)].
Qed.

Lemma find_next_declared_Some s i :
  find_next_declared s = Some i →
  ∃ r, g_runtime s !! i = Some r ∧ state r = DECLARED ∧
    ∀ j q, g_runtime s !! j = Some q → state q = DECLARED → priority (descriptor r) ≤ priority (descriptor q).
Proof.
  unfold find_next_declared. pose proof (find_next_spec 0 (g_runtime s) None ltac:(done)) as Hs.
  destruct (find_next 0 (g_runtime s) None) as [[k p]|]; [|done]. intros [= ->]. destruct Hs as ([?|(r & Hr & _ & Hd & Hp)] & _ & Hmin); [done|].
  rewrite Nat.sub_0_r in Hr. exists r. split; [done|]. split; [done|]. intros j q Hj Hq. rewrite Hp. by apply (Hmin j).
Qed.

Lemma find_next_declared_None s j :
  find_next_declared s = None → st s j ≠ Some DECLARED.
Proof.
  unfold find_next_declared. pose proof (find_next_spec 0 (g_runtime s) None ltac:(done)) as Hs.
  destruct (find_next 0 (g_runtime s) None) as [[k p]|]; [done|]. intros _. destruct Hs as [_ Hs]. unfold st.
  destruct (g_runtime s !! j) as [r|] eqn:Hj; [|done]. cbn. intros [= Hd]. by apply (Hs j r).
Qed.

(** ** Loading everything *)

Definition names s : list (option cstr) := name <$> descs s.

Lemma module_index_own s i r nm :
  NoDup (names s) → g_runtime s !! i = Some r → name (descriptor r) = Some nm → module_index (Some nm) s = Some i.
Proof.
  intros Hnd Hr Hn. assert (i < g_count s)%nat as Hi by (by eapply lookup_lt_Some).
  destruct (first_index_found (λ i, match g_runtime s !! i with
    | Some r => name_equal (name (descriptor r)) (Some nm) | None => false end) 0 (g_count s) i) as (j & Hj & _).
  { lia. } { rewrite Hr, Hn. unfold name_equal. by apply str_eqb_true. }
  change (module_index (Some nm) s = Some j) in Hj. rewrite Hj. f_equal.
  apply first_index_Some in Hj as (_ & Hp & _). destruct (g_runtime s !! j) as [q|] eqn:Hq; [|done].
  destruct (name (descriptor q)) as [nq|] eqn:Hnq; [|done]. apply str_eqb_true in Hp as ->.
  apply (NoDup_lookup (names s) j i (Some nm) Hnd); unfold names, descs; rewrite !list_lookup_fmap; [rewrite Hq|rewrite Hr]; cbn; by f_equal.
Qed.

Definition declared s : list nat := filter (λ j, st s j = Some DECLARED) (seq 0 (g_count s)).

Lemma length_filter_strict {A} (Q1 Q2 : A → Prop) `{∀ x, Decision (Q1 x), ∀ x, Decision (Q2 x)} (l : list A) (x : A) :
  x ∈ l → (∀ y, Q1 y → Q2 y) → ¬ Q1 x → Q2 x → (length (filter Q1 l) < length (filter Q2 l))%nat.
Proof.
  intros Hx HPQ HP HQ. assert (∀ l : list A, (length (filter Q1 l) ≤ length (filter Q2 l))%nat) as Hle.
  { intros k. induction k as [|y k IH]; [done|]. rewrite !filter_cons. pose proof (HPQ y).
    repeat case_decide; cbn [length]; [lia|tauto|lia|lia]. }
  induction l as [|y l IH]; [by apply elem_of_nil in Hx|]. rewrite !filter_cons.
  apply elem_of_cons in Hx as [<-|Hx].
  - rewrite decide_False, decide_True by done. cbn [length]. specialize (Hle l). lia.
  - specialize (IH Hx). pose proof (HPQ y). repeat case_decide; cbn [length]; [lia|tauto|lia|lia].
Qed.

Lemma declared_decreases s s' i :
  settles s s' → st s i = Some DECLARED → st s' i ≠ Some DECLARED → (length (declared s') < length (declared s))%nat.
Proof.
  intros D Hi Hi'. unfold declared. rewrite (count_descs s s' (se_descs _ _ D)).
  assert (i < g_count s)%nat as Hlt.
  { unfold st in Hi. destruct (g_runtime s !! i) as [r|] eqn:Hr; [by eapply lookup_lt_Some|done]. }
  apply (length_filter_strict _ _ _ i); [apply elem_of_seq; lia| |done|done].
  intros j Hj. destruct (st s j) as [x|] eqn:Hs; [|].
  - destruct (decide (x = DECLARED)) as [->|Hx]; [done|]. pose proof (se_keep _ _ D j) as Hk. rewrite Hs in Hk.
    rewrite Hk in Hj by congruence. congruence.
  - pose proof (se_keep _ _ D j) as Hk. rewrite Hs in Hk. rewrite Hk in Hj by done. done.
Qed.

Definition stack_clear s : Prop := ∀ j, g_dependency_stack s j = false.

Lemma load_all_loop_spec rounds progress s :
  minv s → stack_clear s → NoDup (names s) → (g_count s ≤ NEXUS_MODULE_MAX)%nat →
  Forall (λ d, is_Some (name d)) (descs s) → (length (declared s) < rounds)%nat →
  (progress = false → g_loaded s = 0) →
  ∃ s', load_all_loop rounds progress s = Some (g_loaded s', s') ∧ minv s' ∧ settles s s' ∧
    ∀ j, st s' j ≠ Some DECLARED.
Proof.
  revert progress s. induction rounds as [|rounds IH]; intros progress s M Hc Hnd Hmax Hnm Hr Hp; [lia|].
  cbn [load_all_loop]. destruct (find_next_declared s) as [i|] eqn:Hf.
  2: { exists s. split; [destruct progress; [done|by rewrite Hp]|]. split; [done|]. split; [apply settles_refl|].
       intros j. by apply find_next_declared_None. }
  apply find_next_declared_Some in Hf as (r & Hi & Hd & _). rewrite Hi.
  assert (i < g_count s)%nat as Hlt by (by eapply lookup_lt_Some).
  assert (is_Some (name (descriptor r))) as [nm Hn].
  { rewrite Forall_lookup in Hnm. apply (Hnm i). unfold descs. by rewrite list_lookup_fmap, Hi. }
  unfold module_load, find_runtime. rewrite Hn, (module_index_own s i r nm Hnd Hi Hn), Hi, Hd.
  assert (off_stack s < LOAD_FUEL)%nat as Hfuel.
  { unfold off_stack, LOAD_FUEL. pose proof (length_filter (λ j, g_dependency_stack s j = false) (seq 0 (g_count s))) as Hl.
    rewrite length_seq in Hl. lia. }
  destruct (load_index_spec LOAD_FUEL i s M Hlt (Hc i) Hfuel) as (b & s1 & -> & M1 & D1 & Hst & _).
  assert (length (declared s1) < length (declared s))%nat.
  { apply (declared_decreases s s1 i D1); [unfold st; by rewrite Hi, <- Hd|rewrite Hst; by destruct b]. }
  pose proof (se_descs _ _ D1) as Hde. edestruct (IH true s1) as (s2 & E2 & M2 & D2 & Hall); [done| |..].
  - intros j. rewrite (se_stack _ _ D1). apply Hc.
  - unfold names. by rewrite Hde.
  - by rewrite (count_descs s s1 Hde).
  - by rewrite Hde.
  - lia.
  - done.
  - exists s2. split; [done|]. split; [done|]. split; [by eapply settles_trans|done].
Qed.

Lemma copy_loop_spec section acc :
  (length acc ≤ NEXUS_MODULE_MAX)%nat →
  Forall (λ r, state r = DECLARED ∧ registered (descriptor r) = true) acc →
  Forall (λ r, state r = DECLARED ∧ registered (descriptor r) = true) (copy_loop section acc) ∧
  (length (copy_loop section acc) ≤ NEXUS_MODULE_MAX)%nat.
Proof.
  revert acc. induction section as [|d section IH]; intros acc Hl Ha; cbn [copy_loop]; [done|].
  destruct (Nat.ltb_spec (length acc) NEXUS_MODULE_MAX) as [Hlt|]; [|done].
  destruct (registered d) eqn:Hd; [|by apply IH]. apply IH.
  - rewrite length_app. cbn. lia.
  - apply Forall_app. split; [done|]. by apply Forall_singleton.
Qed.

Lemma filter_none {A} (Q : A → Prop) `{∀ x, Decision (Q x)} (l : list A) :
  (∀ x, x ∈ l → ¬ Q x) → filter Q l = [].
Proof.
  induction l as [|y l IH]; intros Hn; [done|]. rewrite filter_cons_False by (apply Hn; left).
  apply IH. intros x Hx. apply Hn. by right.
Qed.

Lemma manager_init_inv section s0 :
  stack_clear s0 → I (env s0) → init_contract (module_manager_init section s0) →
  minv (module_manager_init section s0) ∧
  (g_count (module_manager_init section s0) ≤ NEXUS_MODULE_MAX)%nat ∧
  Forall (λ d, is_Some (name d)) (descs (module_manager_init section s0)).
Proof.
  intros Hc He C. set (s := module_manager_init section s0) in *.
  destruct (copy_loop_spec section []) as [Ha Hl]; [cbn; lia|constructor|].
  change (copy_loop section []) with (g_runtime s) in *.
  assert (∀ i r, g_runtime s !! i = Some r → state r = DECLARED ∧ registered (descriptor r) = true) as Hlk
    by (rewrite Forall_lookup in Ha; exact Ha).
  assert (∀ x, x ≠ DECLARED → count_in x s = 0) as Hcount.
  { intros x Hx. unfold count_in. rewrite filter_none; [done|]. intros r Hr Heq. subst x.
    apply list_elem_of_lookup_1 in Hr as [i Hi]. apply Hlk in Hi as [? _]. done. }
  split; [|split; [done|]].
  - split.
    + intros i r [Hd _]%Hlk. congruence.
    + intros i r [Hd _]%Hlk. congruence.
    + intros i Hi. change (g_dependency_stack s i) with (g_dependency_stack s0 i) in Hi. by rewrite Hc in Hi.
    + intros i. unfold st. destruct (g_runtime s !! i) as [r|] eqn:Hi; [|done]. cbn. apply Hlk in Hi as [-> _]. done.
    + by rewrite Hcount.
    + by rewrite Hcount.
    + eapply Forall_impl; [exact Ha|]. intros r [_ Hreg]. unfold registered in Hreg.
      apply andb_true_iff in Hreg as [_ Hreg]. by apply bool_decide_eq_true in Hreg.
    + done.
    + done.
    + intros i. unfold st. destruct (g_runtime s !! i) as [r|] eqn:Hi; [|done]. cbn. apply Hlk in Hi as [-> _]. done.
  - unfold descs. apply Forall_fmap. eapply Forall_impl; [exact Ha|]. intros r [_ Hreg]. cbn.
    unfold registered in Hreg. rewrite !andb_true_iff in Hreg. destruct Hreg as [[_ Hreg] _].
    by apply bool_decide_eq_true in Hreg.
Qed.

(** C11: loading all modules in dependency order. Assume that the registered
    names are distinct and that the initialisers keep their contract: one that
    is called in a machine where everything its module depends on is
    initialised leaves a machine where its module is initialised too, or
    returns 0; of one that is called any earlier nothing is known. Then loading
    ends (within as many rounds as there are modules, and recursing at most
    that deep), the invariant the initialisers share still holds and every
    loaded module is initialised, so every initialiser ran after those of all
    its dependencies. Every module is either loaded, with all its dependencies
    loaded and an initialiser that was called with its dependencies
    initialised and returned nonzero, or failed, because a dependency is not
    registered or has failed, or because its own initialiser, called with its
    dependencies initialised, returned 0. The result counts the loaded modules.
    Dependency cycles are cut, not followed. *)
Theorem module_load_all_correct section s0 rounds :
  stack_clear s0 → NoDup (names (module_manager_init section s0)) → (NEXUS_MODULE_MAX < rounds)%nat →
  I (env s0) → init_contract (module_manager_init section s0) →
  ∃ s, module_load_all rounds (module_manager_init section s0) = Some (g_loaded s, s) ∧
    g_loaded s = count_in LOADED s ∧ g_failed s = count_in FAILED s ∧ stack_clear s ∧
    descs s = descs (module_manager_init section s0) ∧
    I (env s) ∧ (∀ i, st s i = Some LOADED → P i (env s)) ∧
    ∀ i r, g_runtime s !! i = Some r →
      state r = LOADED ∧ Forall (dep_ok s) (dependencies (descriptor r)) ∧
        result r ≠ 0 ∧ init_returned s (descriptor r) (result r) ∨
      state r = FAILED ∧
        (Exists (λ dep, module_index dep s = None ∨ ∃ j, module_index dep s = Some j ∧ st s j = Some FAILED)
                (dependencies (descriptor r)) ∨
         Forall (dep_ok s) (dependencies (descriptor r)) ∧ init_returned s (descriptor r) 0).
Proof.
  intros Hc Hnd Hr He C. destruct (manager_init_inv section s0 Hc He C) as (M & Hmax & Hnm).
  set (s := module_manager_init section s0) in *.
  assert (length (declared s) < rounds)%nat as Hdecl.
  { unfold declared. pose proof (length_filter (λ j, st s j = Some DECLARED) (seq 0 (g_count s))) as Hl.
    rewrite length_seq in Hl. lia. }
  destruct (load_all_loop_spec rounds false s M Hc Hnd Hmax Hnm Hdecl ltac:(done)) as (s' & E1 & M' & D & Hall).
  exists s'. split; [done|]. split; [apply M'|]. split; [apply M'|].
  assert (stack_clear s') as Hc' by (intros j; rewrite (se_stack _ _ D); apply Hc).
  split; [done|]. split; [apply D|]. split; [apply M'|]. split; [apply M'|]. intros i r Hi.
  pose proof (Hall i) as Hne. pose proof (mi_settled _ M' i) as Hnl. unfold st in Hne, Hnl. rewrite Hi in Hne, Hnl.
  destruct (state r) eqn:Hst; [by destruct Hne; cbn; rewrite Hst|by destruct Hnl; cbn; rewrite Hst|left|right]; (split; [done|]).
  - by apply (mi_loaded _ M' i).
  - destruct (mi_failed _ M' i r Hi Hst) as [Hb|Ho]; [left|by right].
    eapply Exists_impl; [exact Hb|]. intros dep [?|(j & Hj & Hcase)]; [by left|right]. exists j. split; [done|].
    destruct Hcase as [->|[?|Hs]]; [unfold st; by rewrite Hi, <- Hst|done|by rewrite Hc' in Hs].
Qed.
End ops.

(** ** Concrete module sets *)

#[export] Instance unit_module_env : ModuleEnv (list cstr) := {
  me_component_status _ _ _ _ e := e;
}.

(** An initialiser that records its name. *)
Definition init_log (nm : string) (rc : Z) (e : list cstr) : Z * list cstr := (rc, e ++ [lit nm]).
Definition a_module (nm : string) (prio rc : Z) (deps : list string) : nexus_module_descriptor_t (list cstr) :=
  mkDescriptor NEXUS_MODULE_MAGIC (Some (lit nm)) (Some (lit "1.0")) NEXUS_MODULE_SERVICE prio
    (Some (init_log nm rc)) (map (λ d, Some (lit d)) deps).
Definition no_modules : manager (list cstr) := mkManager [] 0 0 (λ _, false) [].

(** A service with a lower priority value than what it depends on, a cycle,
    and a module whose initialiser fails. *)
Definition demo_section : list (nexus_module_descriptor_t (list cstr)) :=
  [a_module "runtime" 10 1 ["ipc"]; a_module "ipc" 520 1 []; a_module "left" 20 1 ["right"];
   a_module "right" 30 1 ["left"]; a_module "nvme" 310 0 []; a_module "store" 5 1 ["nvme"]]%string.

Example demo_load_order :
  option_map (λ '(n, s), (n, env s, state <$> g_runtime s))
    (module_load_all 33 (module_manager_init demo_section no_modules)) =
  Some (2, [lit "nvme"; lit "ipc"; lit "runtime"],
        [LOADED; LOADED; FAILED; FAILED; FAILED; FAILED]).
Proof. vm_compute. reflexivity. Qed.

(** The contract of these initialisers: the log holds no name before the names
    its module depends on; a module is initialised when its name is in the log. *)
Definition demo_names : list cstr :=
  [lit "runtime"; lit "ipc"; lit "left"; lit "right"; lit "nvme"; lit "store"].
Definition demo_deps (nm : cstr) : list cstr :=
  match list_find (λ d, name d = Some nm) demo_section with
  | Some (_, d) => omap id (dependencies d)
  | None => []
  end.
Definition logged (e : list cstr) (nm : cstr) : bool := existsb (str_eqb nm) e.
Fixpoint log_ordered (before e : list cstr) : bool :=
  match e with
  | [] => true
  | nm :: e => forallb (logged before) (demo_deps nm) && log_ordered (before ++ [nm]) e
  end.
Definition demo_ready (j : nat) (e : list cstr) : Prop :=
  match demo_names !! j with Some nm => logged e nm = true | None => True end.

Lemma log_ordered_app before e nm :
  log_ordered before (e ++ [nm]) = log_ordered before e && forallb (logged (before ++ e)) (demo_deps nm).
Proof.
  revert before. induction e as [|x e IH]; intros before; cbn [log_ordered app].
  - by rewrite app_nil_r, andb_true_r.
  - rewrite IH, <- app_assoc, <- andb_assoc. done.
Qed.

Lemma demo_init_ok i nm (rc : Z) e :
  demo_names !! i = Some (lit nm) → log_ordered [] e = true → forallb (logged e) (demo_deps (lit nm)) = true →
  log_ordered [] (init_log nm rc e).2 = true ∧
  (∀ j, demo_ready j e → demo_ready j (init_log nm rc e).2) ∧
  ((init_log nm rc e).1 ≠ 0 → demo_ready i (init_log nm rc e).2).
Proof.
  intros Hi He Hd. unfold init_log. cbn [fst snd]. rewrite log_ordered_app, He. split; [exact Hd|].
  unfold demo_ready, logged. split.
  - intros j. destruct (demo_names !! j); [|done]. intros Hj. by rewrite existsb_app, Hj.
  - intros _. rewrite Hi, existsb_app. cbn. rewrite (proj2 (str_eqb_true _ _) eq_refl). by rewrite orb_true_r.
Qed.

Lemma demo_one_dep dep nm e : demo_deps nm = [dep] → logged e dep = true → forallb (logged e) (demo_deps nm) = true.
Proof. intros -> Hl. cbn. by rewrite Hl. Qed.

Lemma demo_contract :
  init_contract (λ e, log_ordered [] e = true) demo_ready (module_manager_init demo_section no_modules).
Proof.
  split; [done..|]. intros i d f e. change (descs (module_manager_init demo_section no_modules)) with demo_section.
  set (m := module_manager_init demo_section no_modules). intros Hi Hf He Hr.
  assert (∀ nm j, Some (lit nm) ∈ dependencies d → module_index (Some (lit nm)) m = Some j → demo_ready j e) as Hdep
    by (intros nm j; apply Hr).
  destruct i as [|[|[|[|[|[|i]]]]]]; [injection Hi as <-; injection Hf as <-; apply demo_init_ok; [reflexivity|done|..]..|done].
  - apply (demo_one_dep (lit "ipc")); [by vm_compute|exact (Hdep "ipc"%string 1%nat ltac:(left) ltac:(by vm_compute))].
  - done.
  - apply (demo_one_dep (lit "right")); [by vm_compute|exact (Hdep "right"%string 3%nat ltac:(left) ltac:(by vm_compute))].
  - apply (demo_one_dep (lit "left")); [by vm_compute|exact (Hdep "left"%string 2%nat ltac:(left) ltac:(by vm_compute))].
  - done.
  - apply (demo_one_dep (lit "nvme")); [by vm_compute|exact (Hdep "nvme"%string 4%nat ltac:(left) ltac:(by vm_compute))].
Qed.

Lemma module_load_all_correct_witness :
  ∃ s, module_load_all 33 (module_manager_init demo_section no_modules) = Some (g_loaded s, s) ∧
       g_loaded s = count_in LOADED s ∧ log_ordered [] (env s) = true.
Proof.
  destruct (module_load_all_correct (λ e, log_ordered [] e = true) demo_ready demo_section no_modules 33)
    as (s & E1 & Hl & _ & _ & _ & Ho & _).
  - intros j. reflexivity.
  - apply (bool_decide_unpack (NoDup (names (module_manager_init demo_section no_modules)))). vm_compute. exact I.
  - unfold NEXUS_MODULE_MAX. lia.
  - reflexivity.
  - exact demo_contract.
  - exists s. split; [exact E1|]. split; [exact Hl|exact Ho].
Defined.

(** Two registrations under one name. *)
Definition twice : list (nexus_module_descriptor_t (list cstr)) :=
  [a_module "usb" 10 1 []; a_module "usb" 20 1 []].

Definition twice_stuck : manager (list cstr) :=
  mkManager [mkRuntime (a_module "usb" 10 1 []) LOADED 1; mkRuntime (a_module "usb" 20 1 []) DECLARED 0]
    1 0 (λ j, if (j =? 0)%nat then false else if (j =? 0)%nat then true else false) [lit "usb"].

Lemma twice_stuck_loops rounds : load_all_loop rounds true twice_stuck = None.
Proof. induction rounds as [|rounds IH]; [done|]. exact IH. Qed.

(** With two modules registered under one name, [module_load_all] never
    returns: the second one stays declared and is picked in every round, and
    loading it by name finds the first, already loaded one. *)
Theorem module_duplicate_name_hangs rounds :
  module_load_all rounds (module_manager_init twice no_modules) = None.
Proof. destruct rounds as [|rounds]; [done|]. exact (twice_stuck_loops rounds). Qed.
End Modules.
