(* ===== verification/Mount.v ===== *)
(** * Mount table and file system registry
    (src/fs/vfs/mount/mount.c, src/fs/vfs/registry/fs.c)

    [Mount]: the table of mount points and the resolution of a path to the
    mount that covers it. [Registry]: the list of file system drivers. *)

From Stdlib Require Import Lia ZArith Bool.
From stdpp Require Import base list numbers strings relations.
From S2P Require Import Prelude.

Local Open Scope Z_scope.

Module Mount.

Definition VFS_PATH_MAX : Z := 256.
Definition VFS_FSTYPE_MAX : Z := 16.
Definition VFS_MOUNT_MAX : nat := 32.
Definition VFS_MOUNT_RDONLY : Z := 1.
Definition VFS_MOUNT_NODEV : Z := 2.
Definition SLASH : Z := 47.

Record vfs_mount_t := mkMount {
  used : bool;
  source : cstr;
  target : cstr;
  fstype : cstr;
  flags : Z;
}.
#[export] Instance eta_mount : Eta vfs_mount_t := λ r,
  mkMount (used r) (source r) (target r) (fstype r) (flags r).

(** The static array [mounts]. *)
Definition mounts := nat → vfs_mount_t.
Implicit Types (m : mounts).

Definition str_eq (a b : cstr) : bool := str_eqb a b.
Definition str_copy (src : option cstr) (max : Z) : cstr := str_trunc (default [] src) max.

Definition set_mount (i : nat) (v : vfs_mount_t) m : mounts := λ j, if (j =? i)%nat then v else m j.

(** Slot of the mount at [tgt]. *)
Definition find_target (tgt : cstr) m : option nat :=
  first_index (λ i, used (m i) && str_eq (target (m i)) tgt) 0 VFS_MOUNT_MAX.

Definition vfs_mount (src tgt fst : option cstr) (fl : Z) m : Z * mounts :=
  match src, tgt, fst with
  | Some s, Some (c :: t), Some f =>
     match find_target (c :: t) m with
     | Some i =>
        (Z.of_nat i, set_mount i ((m i) <| source := str_copy src VFS_PATH_MAX |>
                                        <| fstype := str_copy fst VFS_FSTYPE_MAX |> <| flags := fl |>) m)
     | None =>
        match first_index (λ i, negb (used (m i))) 0 VFS_MOUNT_MAX with
        | Some i =>
           (Z.of_nat i, set_mount i (mkMount true (str_copy src VFS_PATH_MAX) (str_copy tgt VFS_PATH_MAX)
                                       (str_copy fst VFS_FSTYPE_MAX) fl) m)
        | None => (-2, m)
        end
     end
  | _, _, _ => (-1, m)
  end.

Definition vfs_mount_init m : mounts :=
  let m : mounts := λ i, if (i <? VFS_MOUNT_MAX)%nat then mkMount false [] [] [] 0 else m i in
  let m := (vfs_mount (Some (lit "rootfs")) (Some (lit "/")) (Some (lit "nexusfs")) 0 m).2 in
  let m := (vfs_mount (Some (lit "devfs")) (Some (lit "/dev")) (Some (lit "devfs")) 0 m).2 in
  let m := (vfs_mount (Some (lit "procfs")) (Some (lit "/proc")) (Some (lit "procfs")) VFS_MOUNT_NODEV m).2 in
  let m := (vfs_mount (Some (lit "sysfs")) (Some (lit "/sys")) (Some (lit "sysfs")) VFS_MOUNT_NODEV m).2 in
  (vfs_mount (Some (lit "tmpfs")) (Some (lit "/tmp")) (Some (lit "tmpfs")) 0 m).2.

Definition vfs_umount (tgt : option cstr) m : Z * mounts :=
  match tgt with
  | None => (-1, m)
  | Some tgt =>
     if str_eq tgt (lit "/") then (-2, m)
     else match find_target tgt m with
          | Some i => (0, set_mount i ((m i) <| used := false |>) m)
          | None => (-1, m)
          end
  end.

Definition vfs_mount_get (index : Z) m : option vfs_mount_t :=
  if (index <? 0) || (index >=? Z.of_nat VFS_MOUNT_MAX) || negb (used (m (Z.to_nat index)))
  then None else Some (m (Z.to_nat index)).

Definition vfs_mount_count m : Z :=
  Z.of_nat (length (filter (λ i, used (m i) = true) (seq 0 VFS_MOUNT_MAX))).

(** [path[j] == target[j]] for all [j < len], then the end or a slash. *)
Definition covers (tgt path : cstr) : bool :=
  bool_decide (take (length tgt) path = tgt) &&
  match path !! length tgt with None => true | Some c => c =? SLASH end.

(** The scan for the longest match: [best], [best_len]. *)
Fixpoint resolve_loop (slots : list nat) (path : cstr) (best best_len : Z) m : Z * Z :=
  match slots with
  | [] => (best, best_len)
  | i :: slots =>
     if negb (used (m i)) then resolve_loop slots path best best_len m
     else
       let len := Z.of_nat (length (target (m i))) in
       if (len >? best_len) && covers (target (m i)) path
       then resolve_loop slots path (Z.of_nat i) len m
       else resolve_loop slots path best best_len m
  end.

(** Result and the mount point written to [mountpoint_out]. *)
Definition vfs_mount_resolve (path : option cstr) (out_size : Z) m : Z * option cstr :=
  match path with
  | None => (-1, None)
  | Some path =>
     if out_size <=? 0 then (-1, None)
     else
       let best := (resolve_loop (seq 0 VFS_MOUNT_MAX) path (-1) (-1) m).1 in
       if best <? 0 then (-1, None)
       else (best, Some (str_copy (Some (target (m (Z.to_nat best)))) out_size))
  end.

(** The strings [vfs_mount_list] prints, in order. *)
Definition newline : Z := 10.
Definition vfs_mount_list m : list cstr :=
  ([newline] ++ lit "Mount points:" ++ [newline]) ::
  flat_map (λ i, if negb (used (m i)) then []
                 else [lit "  "; source (m i); lit " -> "; target (m i); lit " ["; fstype (m i); lit "]" ++ [newline]])
    (seq 0 VFS_MOUNT_MAX).

(** ** Resolution *)

(** A mount that covers [path]. *)
Definition candidate m (path : cstr) (i : nat) : Prop :=
  (i < VFS_MOUNT_MAX)%nat ∧ used (m i) = true ∧ covers (target (m i)) path = true.

(** State of the scan after the slots below [k]. *)
Definition best_below m path (k : nat) (best best_len : Z) : Prop :=
  (best = -1 ∧ best_len = -1 ∧ ∀ i, (i < k)%nat → ¬ candidate m path i) ∨
  ∃ b, best = Z.of_nat b ∧ (b < k)%nat ∧ candidate m path b ∧ best_len = Z.of_nat (length (target (m b))) ∧
    ∀ i, (i < k)%nat → candidate m path i →
      (length (target (m i)) < length (target (m b)))%nat ∨
      (length (target (m i)) = length (target (m b)) ∧ (b ≤ i)%nat).

Lemma resolve_loop_spec m path n k best best_len :
  (k + n = VFS_MOUNT_MAX)%nat → best_below m path k best best_len →
  let '(b, l) := resolve_loop (seq k n) path best best_len m in best_below m path VFS_MOUNT_MAX b l.
Proof.
  revert k best best_len. induction n as [|n IH]; intros k best best_len Hk Hb; cbn [seq resolve_loop].
  { replace k with VFS_MOUNT_MAX in Hb by lia. done. }
  (* slot [k] does not replace the best so far *)
  assert ((candidate m path k → best ≠ -1 ∧ Z.of_nat (length (target (m k))) ≤ best_len) →
          best_below m path (S k) best best_len) as Hskip.
  { intros Hno. destruct Hb as [(-> & -> & Hnone)|(b & -> & Hbk & Hc & -> & Hmax)].
    - left. split; [done|]. split; [done|]. intros i Hi Hci. destruct (decide (i = k)) as [->|].
      + by destruct (Hno Hci).
      + apply (Hnone i); [lia|done].
    - right. exists b. split; [done|]. split; [lia|]. split; [done|]. split; [done|]. intros i Hi Hci.
      destruct (decide (i = k)) as [->|]; [|apply Hmax; [lia|done]]. apply Hno in Hci as [_ ?]. lia. }
  destruct (used (m k)) eqn:Hu; cbn [negb].
  2: { apply IH; [lia|]. apply Hskip. intros (_ & Hu' & _). congruence. }
  cbv zeta. destruct (Z.gtb_spec (Z.of_nat (length (target (m k)))) best_len) as [Hl|Hl]; cbn [andb].
  2: { apply IH; [lia|]. apply Hskip. intros _. split; [|lia]. destruct Hb as [(_ & -> & _)|(b & -> & _)]; lia. }
  destruct (covers (target (m k)) path) eqn:Hcv.
  2: { apply IH; [lia|]. apply Hskip. intros (_ & _ & Hc'). congruence. }
  apply IH; [lia|]. right. exists k. split; [done|]. split; [lia|].
  split; [split; [lia|done]|]. split; [done|]. intros i Hi Hci. destruct (decide (i = k)) as [->|]; [right; lia|].
  left. destruct Hb as [(_ & _ & Hnone)|(b & -> & Hbk & Hc & -> & Hmax)].
  - destruct (Hnone i); [lia|done].
  - destruct (Hmax i) as [?|[? ?]]; [lia|done|lia|lia].
Qed.

Lemma resolve_spec m path :
  let b := (resolve_loop (seq 0 VFS_MOUNT_MAX) path (-1) (-1) m).1 in
  (b = -1 ∧ ∀ i, ¬ candidate m path i) ∨
  ∃ i, b = Z.of_nat i ∧ candidate m path i ∧ ∀ j, candidate m path j →
     (length (target (m j)) < length (target (m i)))%nat ∨
     (length (target (m j)) = length (target (m i)) ∧ (i ≤ j)%nat).
Proof.
  pose proof (resolve_loop_spec m path VFS_MOUNT_MAX 0 (-1) (-1) eq_refl) as H.
  destruct (resolve_loop _ _ _ _ _) as [b l]. cbn. destruct H as [(-> & _ & Hn)|(i & -> & _ & Hc & _ & Hm)].
  - left. split; [done|]. split; [done|]. lia.
  - left. split; [done|]. intros i Hc. apply (Hn i); [apply Hc|done].
  - right. exists i. split; [done|]. split; [done|]. intros j Hj. apply Hm; [apply Hj|done].
Qed.

(** [vfs_mount_resolve] returns the slot of the used mount with the longest
    target that covers the path (the whole path or up to a slash), and copies
    its target; it returns -1 exactly when no mount covers the path. *)
Theorem mount_resolve_longest m path out_size :
  0 < out_size →
  ((vfs_mount_resolve (Some path) out_size m).1 = -1 ↔ ∀ i, ¬ candidate m path i) ∧
  ∀ r, (vfs_mount_resolve (Some path) out_size m).1 = r → r ≠ -1 →
    ∃ i, r = Z.of_nat i ∧ candidate m path i ∧
      (vfs_mount_resolve (Some path) out_size m).2 = Some (str_trunc (target (m i)) out_size) ∧
      ∀ j, candidate m path j → (length (target (m j)) ≤ length (target (m i)))%nat.
Proof.
  intros Ho. unfold vfs_mount_resolve. rewrite (proj2 (Z.leb_gt out_size 0)) by lia.
  destruct (resolve_spec m path) as [[-> Hn]|(i & -> & Hc & Hm)].
  - cbn. split; [done|]. intros r <-. done.
  - rewrite (proj2 (Z.ltb_ge (Z.of_nat i) 0)) by lia. cbn [fst snd]. split.
    + split; [lia|]. intros Hn. by destruct (Hn i).
    + intros r <- _. exists i. split; [done|]. split; [done|]. rewrite Nat2Z.id. split; [done|].
      intros j Hj. destruct (Hm j Hj); lia.
Qed.

(** ** The table *)

(** Distinct targets that fit, and the root mounted. *)
Record minv m : Prop := {
  mi_root : ∃ i, (i < VFS_MOUNT_MAX)%nat ∧ used (m i) = true ∧ target (m i) = lit "/";
  mi_distinct : ∀ i j, (i < VFS_MOUNT_MAX)%nat → (j < VFS_MOUNT_MAX)%nat →
    used (m i) = true → used (m j) = true → target (m i) = target (m j) → i = j;
  mi_short : ∀ i, (i < VFS_MOUNT_MAX)%nat → used (m i) = true → (length (target (m i)) ≤ 255)%nat;
}.

Lemma find_target_Some tgt m i :
  find_target tgt m = Some i → (i < VFS_MOUNT_MAX)%nat ∧ used (m i) = true ∧ target (m i) = tgt.
Proof.
  intros (Hi & Hp & _)%first_index_Some. apply andb_true_iff in Hp as [Hu Ht]. apply str_eqb_true in Ht.
  split; [lia|done].
Qed.

Lemma find_target_None tgt m j :
  find_target tgt m = None → (j < VFS_MOUNT_MAX)%nat → used (m j) = true → target (m j) ≠ tgt.
Proof.
  intros Hn Hj Hu Ht.
  unfold find_target in Hn. rewrite first_index_None in Hn. specialize (Hn j ltac:(lia)). rewrite Hu in Hn.
  cbn [andb] in Hn. assert (str_eq (target (m j)) tgt = true) by (by apply str_eqb_true). congruence.
Qed.

(** The two ways [vfs_mount] succeeds. *)
Lemma vfs_mount_cases src c t fst fl m r m' :
  (length (c :: t) ≤ 255)%nat → vfs_mount (Some src) (Some (c :: t)) (Some fst) fl m = (r, m') →
  (r = -2 ∧ m' = m) ∨
  ∃ i, r = Z.of_nat i ∧ (i < VFS_MOUNT_MAX)%nat ∧
    m' = set_mount i (mkMount true (str_trunc src 256) (c :: t) (str_trunc fst 16) fl) m ∧
    ((used (m i) = true ∧ target (m i) = c :: t) ∨
     (used (m i) = false ∧ ∀ j, (j < VFS_MOUNT_MAX)%nat → used (m j) = true → target (m j) ≠ c :: t)).
Proof.
  intros Hl. unfold vfs_mount. destruct (find_target (c :: t) m) as [i|] eqn:Hf.
  - apply find_target_Some in Hf as (Hi & Hu & Ht). intros [= <- <-]. right. exists i. split_and!; [done|done| |by left].
    f_equal. destruct (m i); cbn in *. by subst.
  - destruct (first_index _ 0 VFS_MOUNT_MAX) as [i|] eqn:Hfree; intros [= <- <-]; [right|by left].
    apply first_index_Some in Hfree as (Hi & Hu & _). apply negb_true_iff in Hu. exists i.
    split; [done|]. split; [lia|]. split.
    + f_equal. f_equal. unfold str_copy, str_trunc. apply take_ge. exact Hl.
    + right. split; [done|]. intros j. by apply find_target_None.
Qed.

Lemma set_mount_eq i v m : set_mount i v m i = v.
Proof. unfold set_mount. by rewrite Nat.eqb_refl. Qed.
Lemma set_mount_ne i j v m : j ≠ i → set_mount i v m j = m j.
Proof. intros Hn. unfold set_mount. by rewrite (proj2 (Nat.eqb_neq j i) Hn). Qed.

Lemma set_mount_inv i v m :
  minv m → (i < VFS_MOUNT_MAX)%nat → used v = true → (length (target v) ≤ 255)%nat →
  ((used (m i) = true ∧ target (m i) = target v) ∨
   (used (m i) = false ∧ ∀ j, (j < VFS_MOUNT_MAX)%nat → used (m j) = true → target (m j) ≠ target v)) →
  minv (set_mount i v m).
Proof.
  intros [(k & Hk & Hku & Hkt) M2 M3] Hi Hu Hl Hc. split.
  - destruct (decide (k = i)) as [->|Hne]; [|exists k; by rewrite set_mount_ne].
    exists i. rewrite set_mount_eq. split; [done|]. split; [done|]. destruct Hc as [[_ <-]|[? _]]; congruence.
  - assert (∀ j, j ≠ i → (j < VFS_MOUNT_MAX)%nat → used (m j) = true → target (m j) ≠ target v) as Hd.
    { intros j Hj Hlt Huj Ht. destruct Hc as [[Hui Hti]|[_ Hc]]; [|by apply (Hc j)].
      apply Hj. apply M2; try done. congruence. }
    intros a b Ha Hb. destruct (decide (a = i)) as [->|Ha']; destruct (decide (b = i)) as [->|Hb'];
      rewrite ?set_mount_eq, ?set_mount_ne by done; intros Hua Hub Ht; [done| | |by apply M2].
    + symmetry in Ht. by destruct (Hd b Hb' Hb Hub).
    + by destruct (Hd a Ha' Ha Hua).
  - intros j Hj. destruct (decide (j = i)) as [->|Hne]; [by rewrite set_mount_eq|].
    rewrite set_mount_ne by done. by apply M3.
Qed.

Inductive mount_step : mounts → mounts → Prop :=
| step_mount m src tgt fst fl r m' :
    (length (default [] tgt) ≤ 255)%nat → vfs_mount src tgt fst fl m = (r, m') → mount_step m m'
| step_umount m tgt r m' : vfs_umount tgt m = (r, m') → mount_step m m'.

Lemma mount_step_inv m m' : mount_step m m' → minv m → minv m'.
Proof.
  intros Hs M. destruct Hs as [m src tgt fst fl r m' Hl E1|m tgt r m' E1].
  - destruct src as [src|]; [|by injection E1 as <- <-]. destruct tgt as [[|c t]|]; try (by injection E1 as <- <-).
    destruct fst as [fst|]; [|by injection E1 as <- <-].
    destruct (vfs_mount_cases src c t fst fl m r m' Hl E1) as [[_ ->]|(i & _ & Hi & -> & Hc)]; [done|].
    by apply set_mount_inv.
  - unfold vfs_umount in E1. destruct tgt as [tgt|]; [|by injection E1 as <- <-].
    destruct (str_eq tgt (lit "/")) eqn:Hroot; [by injection E1 as <- <-|].
    destruct (find_target tgt m) as [i|] eqn:Hf; [|by injection E1 as <- <-]. injection E1 as <- <-.
    apply find_target_Some in Hf as (Hi & Hu & Ht).
    assert (tgt ≠ lit "/") as Hne by (intros ->; rewrite (proj2 (str_eqb_true _ _)) in Hroot; done).
    destruct M as [(k & Hk & Hku & Hkt) M2 M3].
    assert (∀ j, used (set_mount i ((m i) <| used := false |>) m j) = true →
                 j ≠ i ∧ set_mount i ((m i) <| used := false |>) m j = m j) as Hj.
    { intros j. destruct (decide (j = i)) as [->|Hji]; [by rewrite set_mount_eq|by rewrite set_mount_ne]. }
    split.
    + exists k. rewrite set_mount_ne; [done|]. intros ->. congruence.
    + intros a b Ha Hb Hua Hub. destruct (Hj a Hua) as [_ Ea], (Hj b Hub) as [_ Eb]. rewrite Ea, Eb in *. by apply M2.
    + intros j Hlt Huj. destruct (Hj j Huj) as [_ Ej]. rewrite Ej in *. by apply M3.
Qed.

Lemma mount_init_inv m : minv (vfs_mount_init m).
Proof.
  (* the table after initialisation, slot by slot *)
  set (v := λ (s t f : string) n, mkMount true (lit s) (lit t) (lit f) n).
  assert (∀ i, (i < VFS_MOUNT_MAX)%nat → vfs_mount_init m i =
    match i with
    | 0%nat => v "rootfs" "/" "nexusfs" 0 | 1%nat => v "devfs" "/dev" "devfs" 0
    | 2%nat => v "procfs" "/proc" "procfs" 2 | 3%nat => v "sysfs" "/sys" "sysfs" 2
    | 4%nat => v "tmpfs" "/tmp" "tmpfs" 0 | _ => mkMount false [] [] [] 0 end) as Ht.
  { intros i Hi. unfold VFS_MOUNT_MAX in Hi. do 32 (destruct i as [|i]; [vm_compute; reflexivity|]). lia. }
  split.
  - exists 0%nat. rewrite Ht by (unfold VFS_MOUNT_MAX; lia). split; [unfold VFS_MOUNT_MAX; lia|done].
  - intros i j Hi Hj. rewrite !Ht by done.
    do 5 (destruct i as [|i]; [do 5 (destruct j as [|j]; [done|]); done|]). done.
  - intros i Hi. rewrite Ht by done. do 5 (destruct i as [|i]; [cbn; lia|]). done.
Qed.

Lemma mount_steps_inv m m' : rtc mount_step m m' → minv m → minv m'.
Proof. induction 1 as [|m1 m2 m3 Hs _ IH]; [done|]. intros M. apply IH. by eapply mount_step_inv. Qed.

Lemma covers_self t : covers t t = true.
Proof.
  unfold covers. apply andb_true_iff. split; [by apply bool_decide_eq_true, take_ge|].
  destruct (t !! length t) as [c|] eqn:E1; [|done]. apply lookup_lt_Some in E1. lia.
Qed.

(** A target that covers [t] and is as long as [t] is [t]. *)
Lemma covers_length a t : covers a t = true → (length a ≤ length t)%nat ∧ (length a = length t → a = t).
Proof.
  unfold covers. intros [Hp _]%andb_true_iff. apply bool_decide_eq_true in Hp. split.
  - rewrite <- Hp, length_take. lia.
  - intros He. rewrite <- Hp, He. by apply take_ge.
Qed.

(** Along every history of mounts (with targets that fit) and unmounts after
    [vfs_mount_init], the root stays mounted and no two used slots have the same
    target; a mount that succeeds is the one its target then resolves to, with
    its mount point, and its slot reads back the arguments. *)
Theorem mount_resolve_roundtrip m0 m src tgt fst fl r m' :
  rtc mount_step (vfs_mount_init m0) m → (0 < length tgt ≤ 255)%nat →
  vfs_mount (Some src) (Some tgt) (Some fst) fl m = (r, m') →
  minv m' ∧
  (r = -2 ∨ vfs_mount_resolve (Some tgt) VFS_PATH_MAX m' = (r, Some tgt) ∧
            vfs_mount_get r m' = Some (mkMount true (str_trunc src 256) tgt (str_trunc fst 16) fl)).
Proof.
  intros Hrun Hl E1. pose proof (mount_steps_inv _ _ Hrun (mount_init_inv m0)) as M.
  assert (minv m') as M' by (eapply mount_step_inv; [|exact M]; eapply step_mount; [|exact E1]; cbn; lia).
  split; [done|]. destruct tgt as [|c t]; [cbn in Hl; lia|].
  destruct (vfs_mount_cases src c t fst fl m r m' ltac:(lia) E1) as [[-> _]|(i & -> & Hi & Hm' & _)]; [by left|right].
  assert (m' i = mkMount true (str_trunc src 256) (c :: t) (str_trunc fst 16) fl) as Hmi by (rewrite Hm'; apply set_mount_eq).
  assert (candidate m' (c :: t) i) as Hc by (split; [done|]; rewrite Hmi; split; [done|apply covers_self]).
  split.
  - unfold vfs_mount_resolve. change (VFS_PATH_MAX <=? 0) with false. cbv iota.
    destruct (resolve_spec m' (c :: t)) as [[_ Hn]|(j & Hj & Hcj & Hmax)]; [by destruct (Hn i)|].
    cbv zeta in Hj. cbv zeta. rewrite Hj. rewrite (proj2 (Z.ltb_ge (Z.of_nat j) 0)) by lia.
    assert (j = i) as ->.
    { destruct Hcj as (Hj1 & Hj2 & Hj3). destruct (covers_length _ _ Hj3) as [Hle Heq].
      apply (mi_distinct _ M'); try done; [by rewrite Hmi|]. rewrite Hmi. cbn [target].
      apply Heq. destruct (Hmax i Hc) as [Hlt|[He _]]; rewrite Hmi in *; cbn [target] in *; lia. }
    rewrite Nat2Z.id, Hmi. f_equal. f_equal. unfold str_copy, str_trunc. apply take_ge. change (Z.to_nat (VFS_PATH_MAX - 1)) with 255%nat. cbn [target]. lia.
  - unfold vfs_mount_get. rewrite (proj2 (Z.ltb_ge _ _)) by lia.
    destruct (Z.geb_spec (Z.of_nat i) (Z.of_nat VFS_MOUNT_MAX)) as [Hge|_]; [lia|].
    by rewrite Nat2Z.id, Hmi.
Qed.

Definition no_mounts : mounts := λ _, mkMount false [] [] [] 0.

(** The disk the kernel mounts at boot. *)
Lemma mount_resolve_roundtrip_witness :
  vfs_mount_resolve (Some (lit "/mnt/disk0")) VFS_PATH_MAX
    (vfs_mount (Some (lit "ahci0p0")) (Some (lit "/mnt/disk0")) (Some (lit "fat32")) 0 (vfs_mount_init no_mounts)).2
  = (5, Some (lit "/mnt/disk0")).
Proof.
  destruct (mount_resolve_roundtrip no_mounts (vfs_mount_init no_mounts) (lit "ahci0p0") (lit "/mnt/disk0") (lit "fat32") 0
    5 (vfs_mount (Some (lit "ahci0p0")) (Some (lit "/mnt/disk0")) (Some (lit "fat32")) 0 (vfs_mount_init no_mounts)).2
    ltac:(apply rtc_refl) ltac:(cbn; lia) ltac:(reflexivity)) as [_ [Hf|[Hr _]]]; [discriminate|exact Hr].
Defined.

Lemma mount_resolve_longest_witness :
  (vfs_mount_resolve (Some (lit "/dev/null")) 256 (vfs_mount_init no_mounts)).1 ≠ -1 ∧
  ∃ i, 1 = Z.of_nat i ∧ candidate (vfs_mount_init no_mounts) (lit "/dev/null") i.
Proof.
  split; [vm_compute; discriminate|].
  destruct (proj2 (mount_resolve_longest (vfs_mount_init no_mounts) (lit "/dev/null") 256 ltac:(lia)) 1
    ltac:(vm_compute; reflexivity) ltac:(discriminate)) as (i & Hi & Hc & _).
  exists i. split; [exact Hi|exact Hc].
Defined.

End Mount.

(** ** File system drivers *)

Module Registry.

Definition NEXUS_FS_MAX : nat := 16.

(** A driver: its name ([None]: a NULL pointer) and an opaque handle for its
    function pointers. *)
Record nexus_fs_t := mkFs { name : option cstr; handle : Z }.

Definition registry := nat → option nexus_fs_t.
Implicit Types (r : registry).

Definition nexus_fs_init r : registry := λ i, if (i <? NEXUS_FS_MAX)%nat then None else r i.

Definition nexus_fs_register (fs : option nexus_fs_t) r : Z * registry :=
  match fs with
  | Some f =>
     match name f with
     | None => (-1, r)
     | Some _ =>
        match first_index (λ i, bool_decide (r i = None)) 0 NEXUS_FS_MAX with
        | Some i => (Z.of_nat i, λ j, if (j =? i)%nat then fs else r j)
        | None => (-2, r)
        end
     end
  | None => (-1, r)
  end.

Definition nexus_fs_find (nm : option cstr) r : option nexus_fs_t :=
  match nm with
  | None => None
  | Some n =>
     match first_index (λ i, match r i with
                             | Some f => bool_decide (name f = Some n)
                             | None => false end) 0 NEXUS_FS_MAX with
     | Some i => r i
     | None => None
     end
  end.

(** Registering a driver under a new name makes it the one found; other names
    are found as before. *)
Lemma fs_register_find f n r i r' k :
  name f = Some n → nexus_fs_find (Some n) r = None → nexus_fs_register (Some f) r = (Z.of_nat i, r') →
  nexus_fs_find (Some k) r' = if decide (k = n) then Some f else nexus_fs_find (Some k) r.
Proof.
  intros Hn Hnone. unfold nexus_fs_register. rewrite Hn.
  destruct (first_index _ 0 NEXUS_FS_MAX) as [j|] eqn:Hf; [|intros [= ? _]; lia].
  intros [= ? <-]. apply first_index_Some in Hf as (Hj & Hfree & _). apply bool_decide_eq_true in Hfree.
  set (r' := λ x, if (x =? j)%nat then Some f else r x).
  set (p := λ (r : registry) (k : cstr) (i : nat), match r i with Some f => bool_decide (name f = Some k) | None => false end).
  assert (∀ k x, p r' k x = if (x =? j)%nat then bool_decide (n = k) else p r k x) as Hp.
  { intros k0 x. unfold p, r'. destruct (x =? j)%nat; [|done]. rewrite Hn. apply bool_decide_ext. naive_solver. }
  assert (∀ x, (x < NEXUS_FS_MAX)%nat → p r n x = false) as Hnn.
  { intros x Hx. unfold nexus_fs_find in Hnone. destruct (first_index _ 0 NEXUS_FS_MAX) as [y|] eqn:Hy.
    - apply first_index_Some in Hy as (_ & Hy & _). rewrite Hnone in Hy. done.
    - rewrite first_index_None in Hy. apply Hy. lia. }
  unfold nexus_fs_find. case_decide as Hk.
  - subst k. destruct (first_index_found (p r' n) 0 NEXUS_FS_MAX j) as (x & Hx & _);
      [lia|rewrite Hp, Nat.eqb_refl; by apply bool_decide_true|].
    change (first_index _ 0 NEXUS_FS_MAX) with (first_index (p r' n) 0 NEXUS_FS_MAX). rewrite Hx.
    apply first_index_Some in Hx as (Hlt & Hpx & _). rewrite Hp in Hpx. unfold r'.
    destruct (x =? j)%nat; [done|]. rewrite Hnn in Hpx by lia. done.
  - assert (first_index (p r' k) 0 NEXUS_FS_MAX = first_index (p r k) 0 NEXUS_FS_MAX) as He.
    { apply first_index_ext. intros x _. rewrite Hp. destruct (Nat.eqb_spec x j) as [->|]; [|done].
      unfold p. rewrite Hfree. apply bool_decide_false. congruence. }
    change (match first_index (p r' k) 0 NEXUS_FS_MAX with Some i => r' i | None => None end =
            match first_index (p r k) 0 NEXUS_FS_MAX with Some i => r i | None => None end).
    rewrite He. destruct (first_index (p r k) 0 NEXUS_FS_MAX) as [x|] eqn:Hx; [|done].
    apply first_index_Some in Hx as (_ & Hpx & _). unfold r'. destruct (Nat.eqb_spec x j) as [->|]; [|done].
    unfold p in Hpx. by rewrite Hfree in Hpx.
Qed.
End Registry.
