(* ===== verification/Vfs.v ===== *)
(** * The RAM file system (src/fs/vfs/core/vfs.c)

    A fixed array of 48 nodes, each with the index of its parent, a current
    directory (index and path string), and forwarding of paths under a FAT32
    mount to the disk driver. The FAT32 driver and the console are the
    environment.

    Every operation returns an [option]: [None] is a store outside a buffer,
    after which the C program has no defined behaviour. *)

From Stdlib Require Import Lia ZArith Bool.
From stdpp Require Import base list numbers strings.
From S2P Require Import Prelude Mount.

Local Open Scope Z_scope.

Module Vfs.
Import Mount.

Definition VFS_MAX_NODES : nat := 48.
Definition VFS_NAME_LEN : Z := 24.
Definition VFS_CONTENT_LEN : Z := 200.

Inductive vfs_node_type_t := VFS_NODE_FREE | VFS_NODE_FILE | VFS_NODE_DIR.
#[export] Instance node_type_eq_dec : EqDecision vfs_node_type_t.
Proof. solve_decision. Defined.

Record vfs_node_t := mkNode {
  type : vfs_node_type_t;
  name : cstr;
  parent : Z;
  content : Z → Z;
  content_len : Z;
}.
#[export] Instance eta_node : Eta vfs_node_t := λ r,
  mkNode (type r) (name r) (parent r) (content r) (content_len r).

(** What the file system calls: the FAT32 driver and the console. Reading gives
    the bytes stored in the caller's buffer: every return of 0 in
    [fat32_read_file] (fat32.c, lines 382 to 386) comes before the first store,
    so a failure ([None]) stores nothing, and a cluster that can not be read
    ends the copy early with result 1 (a shorter list). *)
Class VfsEnv (F : Type) := {
  fat32_is_mounted : F → bool;
  fat32_is_directory : cstr → F → bool;
  fat32_mkdir : cstr → F → bool * F;
  fat32_read_file : cstr → Z → F → option (list Z);
  fat32_write_file : cstr → list Z → F → bool * F;
  fat32_list : cstr → F → F;
  console_print : cstr → F → F;
}.

Record vfs {F : Type} := mkVfs {
  g_nodes : nat → vfs_node_t;
  g_cwd : Z;
  g_cwd_path : cstr;
  v_mounts : mounts;
  write_temp : Z → Z;   (* the static buffer of [vfs_write_path] *)
  env : F;
}.
Arguments vfs : clear implicits.
Arguments mkVfs {F}.
#[export] Instance eta_vfs {F} : Eta (vfs F) := λ r,
  mkVfs (g_nodes r) (g_cwd r) (g_cwd_path r) (v_mounts r) (write_temp r) (env r).

(** ** Strings *)

(** Everything up to the first byte [c] and the rest, which starts with it. *)
Fixpoint span (c : Z) (s : cstr) : cstr * cstr :=
  match s with
  | [] => ([], [])
  | x :: r => if x =? c then ([], s) else let '(a, b) := span c r in (x :: a, b)
  end.

(** [while ( *p == c) p++]. *)
Fixpoint skip (c : Z) (s : cstr) : cstr :=
  match s with
  | x :: r => if x =? c then skip c r else s
  | [] => []
  end.

Definition until_nul (l : list Z) : cstr := (span 0 l).1.

Definition path_copy (src : cstr) : cstr := str_trunc src 256.
Definition copy_truncate (src : cstr) (max_len : Z) : cstr := str_trunc src max_len.

(** [None]: the terminator goes to [out[256]]. *)
Definition path_join (base nm : cstr) : option cstr :=
  if bool_decide (head nm = Some SLASH) then Some (path_copy nm)
  else
    let out := take 255 base in
    let out := if (length out =? 0)%nat then [SLASH] else out in
    let out := if (1 <? length out)%nat && negb (bool_decide (last out = Some SLASH))
               then out ++ [SLASH] else out in
    if (255 <? length out)%nat then None else Some (out ++ take (255 - length out) nm).

Definition fat_relative (full mountpoint : cstr) : option cstr :=
  let ml := length mountpoint in
  if str_eqb full mountpoint then Some (path_copy (lit "/"))
  else if (1 <? ml)%nat && bool_decide (full !! ml = Some SLASH) then Some (path_copy (drop ml full))
  else None.

Definition vfs_split_word (s : cstr) : cstr * cstr :=
  let '(w, rest) := span 32 s in (w, skip 32 rest).

(** ** Nodes *)

Section ops.
Context {F : Type} `{VfsEnv F}.
(** The bytes of an uninitialised [mountpoint] buffer, up to a zero byte. *)
Context (uninit : cstr).
Implicit Types (s : vfs F).

Definition node s (i : nat) : vfs_node_t := g_nodes s i.
Definition set_node (i : nat) (f : vfs_node_t → vfs_node_t) s : vfs F :=
  s <| g_nodes := λ j, if (j =? i)%nat then f (g_nodes s i) else g_nodes s j |>.

Definition used_node s (i : nat) : bool := negb (bool_decide (type (node s i) = VFS_NODE_FREE)).

Definition find_child (par : Z) (nm : cstr) s : option nat :=
  first_index (λ i, used_node s i && (parent (node s i) =? par) && str_eqb (name (node s i)) nm) 0 VFS_MAX_NODES.

Definition find_free_node s : option nat :=
  first_index (λ i, negb (used_node s i)) 1 (VFS_MAX_NODES - 1).

Definition has_children (par : Z) s : bool :=
  bool_decide (is_Some (first_index (λ i, used_node s i && (parent (node s i) =? par)) 0 VFS_MAX_NODES)).

Definition is_dir s (i : nat) : bool := bool_decide (type (node s i) = VFS_NODE_DIR).
Definition is_file s (i : nat) : bool := bool_decide (type (node s i) = VFS_NODE_FILE).

(** The stores that make node [i] a new child of [par]. *)
Definition make_node (i : nat) (ty : vfs_node_type_t) (par : Z) (nm : cstr) s : vfs F :=
  set_node i (λ n, n <| type := ty |> <| parent := par |> <| name := copy_truncate nm VFS_NAME_LEN |>) s.

(** [copy_truncate] into the content array: the bytes, a zero, the rest as it
    was. *)
Definition store_string (str : cstr) (f : Z → Z) : Z → Z :=
  λ j, if (0 <=? j) && (j <? Z.of_nat (length str)) then default 0 (str !! Z.to_nat j)
       else if j =? Z.of_nat (length str) then 0 else f j.

Definition content_bytes (n : vfs_node_t) : list Z := content n <$> seqZ 0 VFS_CONTENT_LEN.
Definition content_string (n : vfs_node_t) : cstr := until_nul (content_bytes n).

Definition vfs_init s : vfs F :=
  let s := s <| g_nodes := λ i, if (i <? VFS_MAX_NODES)%nat
                                then (g_nodes s i) <| type := VFS_NODE_FREE |> else g_nodes s i |> in
  let s := make_node 0 VFS_NODE_DIR (-1) (lit "/") s in
  let s := s <| g_cwd := 0 |> <| g_cwd_path := path_copy (lit "/") |> in
  let s := make_node 1 VFS_NODE_DIR 0 (lit "mnt") s in
  make_node 2 VFS_NODE_DIR 1 (lit "disk0") s.

(** ** Mounted paths *)

(** Result and the contents of the [mountpoint] buffer. *)
Definition path_is_mount (path : cstr) s : Z * cstr :=
  if vfs_mount_count (v_mounts s) <=? 0 then (0, uninit)
  else let '(r, mp) := vfs_mount_resolve (Some path) 256 (v_mounts s) in (r, default uninit mp).

(** [path_is_mount(..) && fat32_is_mounted() && fat_relative(..)], with the
    relative path. *)
Definition fat_path (path : cstr) s : option cstr :=
  let '(r, mp) := path_is_mount path s in
  if negb (r =? 0) && fat32_is_mounted (env s) then fat_relative path mp else None.

(** The same for the operations that write, which look at the mount itself. *)
Definition fat_write_path (path : cstr) s : option cstr :=
  let '(mi, mp) := path_is_mount path s in
  match (if mi >=? 0 then vfs_mount_get mi (v_mounts s) else None) with
  | None => None
  | Some m =>
     if str_eqb (fstype m) (lit "fat32") && fat32_is_mounted (env s) && negb (has_bits (flags m) VFS_MOUNT_RDONLY)
     then fat_relative path mp else None
  end.

Definition print (str : cstr) s : vfs F := s <| env := console_print str (env s) |>.
Definition print_all (l : list cstr) s : vfs F := foldl (λ s str, print str s) s l.

(** ** Operations on the current directory *)

Definition vfs_mkdir (nm : cstr) s : option (Z * vfs F) :=
  match path_join (g_cwd_path s) nm with
  | None => None
  | Some candidate =>
     match fat_write_path candidate s with
     | Some rel => let '(ok, e) := fat32_mkdir rel (env s) in
                   Some ((if ok : bool then 0 else -1), s <| env := e |>)
     | None =>
        if (g_cwd s <? 0) || bool_decide (nm = []) || bool_decide (is_Some (find_child (g_cwd s) nm s))
        then Some (-1, s)
        else match find_free_node s with
             | None => Some (-1, s)
             | Some idx => Some (0, make_node idx VFS_NODE_DIR (g_cwd s) nm s)
             end
     end
  end.

(** [content[0] = '\0'; content_len = 0]. *)
Definition clear_content (i : nat) s : vfs F :=
  set_node i (λ n, n <| content := upd (content n) 0 0 |> <| content_len := 0 |>) s.

Definition vfs_touch (nm : cstr) s : option (Z * vfs F) :=
  match path_join (g_cwd_path s) nm with
  | None => None
  | Some candidate =>
     match fat_write_path candidate s with
     | Some rel => let '(ok, e) := fat32_write_file rel [] (env s) in
                   Some ((if ok : bool then 0 else -1), s <| env := e |>)
     | None =>
        if (g_cwd s <? 0) || bool_decide (nm = []) || bool_decide (is_Some (find_child (g_cwd s) nm s))
        then Some (-1, s)
        else match find_free_node s with
             | None => Some (-1, s)
             | Some idx => Some (0, clear_content idx (make_node idx VFS_NODE_FILE (g_cwd s) nm s))
             end
     end
  end.

(** The namespace entries of the disk mount cannot be removed. *)
Definition protected (nm : cstr) s : bool :=
  ((g_cwd s =? 0) && str_eqb nm (lit "mnt")) || ((g_cwd s =? 1) && str_eqb nm (lit "disk0")).

Definition free_node (i : nat) s : vfs F := set_node i (λ n, n <| type := VFS_NODE_FREE |>) s.

Definition vfs_rm (nm : cstr) s : Z * vfs F :=
  if (g_cwd s <? 0) || protected nm s then (-1, s)
  else match find_child (g_cwd s) nm s with
       | None => (-1, s)
       | Some idx => if is_dir s idx && has_children (Z.of_nat idx) s then (-1, s) else (0, free_node idx s)
       end.

Definition vfs_rmdir (nm : cstr) s : Z * vfs F :=
  if (g_cwd s <? 0) || protected nm s then (-1, s)
  else match find_child (g_cwd s) nm s with
       | None => (-1, s)
       | Some idx => if negb (is_dir s idx) || has_children (Z.of_nat idx) s then (-1, s) else (0, free_node idx s)
       end.

(** The walk of [cd ..]: [idx] so far; [None]: a component is missing. *)
Fixpoint walk_up (fuel : nat) (part : cstr) (par : nat) s : option nat :=
  match fuel, part with
  | S fuel, _ :: _ =>
     let '(comp, rest) := span SLASH part in
     match find_child (Z.of_nat par) comp s with
     | None => None
     | Some next => match rest with [] => Some next | _ :: part => walk_up fuel part next s end
     end
  | _, _ => Some par
  end.

(** The walk of [cd /..]: every component must be a directory. *)
Fixpoint walk_dirs (fuel : nat) (part : cstr) (par : nat) s : option nat :=
  match fuel, part with
  | S fuel, _ :: _ =>
     let '(comp, rest) := span SLASH part in
     match find_child (Z.of_nat par) comp s with
     | None => None
     | Some next =>
        if negb (is_dir s next) then None
        else match rest with [] => Some next | _ :: part => walk_dirs fuel part next s end
     end
  | _, _ => Some par
  end.

(** [n] after [while (n > 1 && path[n-1] != '/') n--; if (n > 1) n--;]. *)
Fixpoint parent_len (path : cstr) (n : nat) : nat :=
  match n with
  | S (S k as n') => if bool_decide (path !! n' = Some SLASH) then n' else parent_len path n'
  | _ => n
  end.

Definition cd_up s : Z * vfs F :=
  if g_cwd s =? 0 then (0, s)
  else if negb (bool_decide (head (g_cwd_path s) = Some SLASH)) then (-1, s)
  else
    let path := take (parent_len (g_cwd_path s) (length (g_cwd_path s))) (g_cwd_path s) in
    let path := if bool_decide (path = []) then path_copy (lit "/") else path in
    let s := s <| g_cwd_path := path |> in
    let idx := if str_eqb path (lit "/") then Some 0%nat
               else walk_up (length path) (drop 1 (path_copy path)) 0 s in
    match idx with
    | None => (0, s)
    | Some i => (0, s <| g_cwd := Z.of_nat i |>)
    end.

Definition vfs_cd (nm : cstr) s : option (Z * vfs F) :=
  if str_eqb nm (lit ".") then Some (0, s)
  else if str_eqb nm (lit "..") then Some (cd_up s)
  else
    match path_join (g_cwd_path s) nm with
    | None => None
    | Some candidate =>
       let '(r, mp) := path_is_mount candidate s in
       if negb (r =? 0) && fat32_is_mounted (env s) then
         match fat_relative candidate mp with
         | None => Some (-1, s)
         | Some rel =>
            if negb (fat32_is_directory rel (env s)) then Some (-1, s)
            else Some (0, s <| g_cwd_path := path_copy candidate |> <| g_cwd := -1 |>)
         end
       else
         let idx :=
           if bool_decide (head nm = Some SLASH)
           then walk_dirs (length candidate) (drop 1 (path_copy candidate)) 0 s
           else match find_child (if g_cwd s <? 0 then 0 else g_cwd s) nm s with
                | None => None
                | Some i => if is_dir s i then Some i else None
                end in
         match idx with
         | None => Some (-1, s)
         | Some i => Some (0, s <| g_cwd := Z.of_nat i |> <| g_cwd_path := path_copy candidate |>)
         end
    end.

Definition vfs_ls s : vfs F :=
  match (if g_cwd s <? 0 then fat_path (g_cwd_path s) s else None) with
  | Some rel => s <| env := fat32_list rel (env s) |>
  | None =>
     let entries := filter (λ i, used_node s i && (parent (node s i) =? g_cwd s) = true) (seq 0 VFS_MAX_NODES) in
     let s' := print_all (flat_map (λ i, [name (node s i)] ++ (if is_dir s i then [lit "/"] else []) ++ [[newline]])
                                  entries) s in
     if bool_decide (entries = []) then print (lit "(empty)" ++ [newline]) s' else s'
  end.

(** The ancestors of [cur] below the root, nearest first. *)
Fixpoint path_stack (fuel : nat) (cur : Z) s : list nat :=
  match fuel with
  | O => []
  | S fuel => if cur =? 0 then [] else Z.to_nat cur :: path_stack fuel (parent (node s (Z.to_nat cur))) s
  end.

Fixpoint join_names (l : list nat) s : list cstr :=
  match l with
  | [] => []
  | [i] => [name (node s i)]
  | i :: l => name (node s i) :: lit "/" :: join_names l s
  end.

Definition print_path_of (idx : nat) s : vfs F :=
  print_all (lit "/" :: join_names (rev (path_stack VFS_MAX_NODES (Z.of_nat idx) s)) s) s.

Definition vfs_pwd s : vfs F := print_all [g_cwd_path s; [newline]] s.

(** The branch of [vfs_cat] that reads the disk. *)
Definition cat_fat (nm : cstr) s : option (option cstr) :=
  if (g_cwd s <? 0) || bool_decide (head nm = Some SLASH) then
    match path_join (g_cwd_path s) nm with
    | None => None
    | Some candidate =>
       Some (match fat_path candidate s with
             | None => None
             | Some rel => until_nul <$> fat32_read_file rel (64 * 1024 - 1) (env s)
             end)
    end
  else Some None.

Definition vfs_cat (nm : cstr) s : option (vfs F) :=
  match cat_fat nm s with
  | None => None
  | Some (Some text) => Some (print_all [text; [newline]] s)
  | Some None =>
     match find_child (g_cwd s) nm s with
     | Some idx => if is_file s idx then Some (print_all [content_string (node s idx); [newline]] s)
                   else Some (print_all [lit "cat: no such file: "; nm; [newline]] s)
     | None => Some (print_all [lit "cat: no such file: "; nm; [newline]] s)
     end
  end.

(** [copy_truncate(content, ..); content_len = strlen(content)]. *)
Definition set_content (i : nat) (str : cstr) s : vfs F :=
  let str := copy_truncate str VFS_CONTENT_LEN in
  set_node i (λ n, n <| content := store_string str (content n) |> <| content_len := Z.of_nat (length str) |>) s.

(** The node of file [nm] in directory [par], made when it is missing: [inl]
    is the failure return. *)
Definition open_node (par : Z) (nm : cstr) (fresh : nat → vfs F → vfs F) s : (Z + nat) * vfs F :=
  match find_child par nm s with
  | None =>
     match find_free_node s with
     | None => (inl (-1), s)
     | Some idx => (inr idx, fresh idx (make_node idx VFS_NODE_FILE par nm s))
     end
  | Some idx => if negb (is_file s idx) then (inl (-1), s) else (inr idx, s)
  end.

Definition vfs_write (nm : cstr) (text : option cstr) s : option (Z * vfs F) :=
  match path_join (g_cwd_path s) nm with
  | None => None
  | Some candidate =>
     match fat_write_path candidate s with
     | Some rel =>
        match text with
        | None => Some (-1, s)
        | Some text => let '(ok, e) := fat32_write_file rel text (env s) in
                       Some ((if ok : bool then 0 else -1), s <| env := e |>)
        end
     | None =>
        if g_cwd s <? 0 then Some (-1, s)
        else match open_node (g_cwd s) nm (λ _ s, s) s with
             | (inl rc, s) => Some (rc, s)
             | (inr idx, s) => text ← text; Some (0, set_content idx text s)
             end
     end
  end.

Definition vfs_append (nm : cstr) (text : cstr) s : Z * vfs F :=
  if g_cwd s <? 0 then (-1, s)
  else match open_node (g_cwd s) nm clear_content s with
       | (inl rc, s) => (rc, s)
       | (inr idx, s) =>
          let cur_len := content_len (node s idx) in
          let add := take (Z.to_nat (VFS_CONTENT_LEN - 1 - cur_len)) text in
          let len := cur_len + Z.of_nat (length add) in
          (0, set_node idx (λ n,
            n <| content := λ j, if (cur_len <=? j) && (j <? len) then default 0 (add !! Z.to_nat (j - cur_len))
                                 else if j =? len then 0 else content n j |>
              <| content_len := len |>) s)
       end.

Definition vfs_get_content (nm : cstr) s : option cstr :=
  match find_child (g_cwd s) nm s with
  | Some idx => if is_file s idx then Some (content_string (node s idx)) else None
  | None => None
  end.

(** Result and the string left in the buffer ([None]: nothing stored). *)
Definition vfs_read (nm : cstr) (buffer : bool) (capacity : Z) s : Z * option cstr :=
  if negb buffer || (capacity <=? 0) then (-1, None)
  else match vfs_get_content nm s with
       | None => (-1, Some [])
       | Some text => let str := str_trunc text capacity in (Z.of_nat (length str), Some str)
       end.

Definition vfs_cp (src dst : cstr) s : Z * vfs F :=
  if g_cwd s <? 0 then (-1, s)
  else match find_child (g_cwd s) src s with
       | None => (-1, s)
       | Some sidx =>
          if negb (is_file s sidx) || bool_decide (is_Some (find_child (g_cwd s) dst s)) then (-1, s)
          else match find_free_node s with
               | None => (-1, s)
               | Some didx =>
                  let s := make_node didx VFS_NODE_FILE (g_cwd s) dst s in
                  let str := copy_truncate (content_string (node s sidx)) VFS_CONTENT_LEN in
                  (0, set_node didx (λ n, n <| content := store_string str (content n) |>
                                            <| content_len := content_len (node s sidx) |>) s)
               end
       end.

Definition vfs_mv (src dst : cstr) s : Z * vfs F :=
  if g_cwd s <? 0 then (-1, s)
  else match find_child (g_cwd s) src s with
       | None => (-1, s)
       | Some idx =>
          if bool_decide (is_Some (find_child (g_cwd s) dst s)) then (-1, s)
          else (0, set_node idx (λ n, n <| name := copy_truncate dst VFS_NAME_LEN |>) s)
       end.

Definition vfs_find (nm : cstr) s : vfs F :=
  let hits := filter (λ i, used_node s i && str_eqb (name (node s i)) nm = true) (seq 0 VFS_MAX_NODES) in
  let s' := foldl (λ s i, print [newline] (print_path_of i s)) s hits in
  if bool_decide (hits = []) then print (lit "find: nothing found" ++ [newline]) s' else s'.

(** The loop of [is_under]; [None]: still running after [fuel] rounds. *)
Fixpoint under_loop (fuel : nat) (cur root : Z) s : option bool :=
  match fuel with
  | O => None
  | S fuel =>
     if cur =? -1 then Some false
     else if cur =? root then Some true
     else under_loop fuel (parent (node s (Z.to_nat cur))) root s
  end.

Definition is_under (fuel : nat) (idx : nat) (root : Z) s : option bool :=
  under_loop fuel (parent (node s idx)) root s.

(** Bytes and files below the current directory. *)
Definition vfs_du (fuel : nat) s : option (Z * Z) :=
  foldl (λ acc i, match acc with
                  | None => None
                  | Some (bytes, files) =>
                     if is_file s i then
                       match is_under fuel i (g_cwd s) s with
                       | None => None
                       | Some true => Some (u32 (bytes + u32 (content_len (node s i))), u32 (files + 1))
                       | Some false => Some (bytes, files)
                       end
                     else Some (bytes, files)
                  end) (Some (0, 0)) (seq 0 VFS_MAX_NODES).

Definition vfs_df s : Z * Z :=
  (Z.of_nat (length (filter (λ i, used_node s i = true) (seq 0 VFS_MAX_NODES))), Z.of_nat VFS_MAX_NODES).

Definition vfs_gui_list (max_entries : Z) s : list (cstr * bool) :=
  if (max_entries <=? 0) || (g_cwd s <? 0) then []
  else take (Z.to_nat max_entries)
         (map (λ i, (copy_truncate (name (node s i)) VFS_NAME_LEN, is_dir s i))
            (filter (λ i, used_node s i && (parent (node s i) =? g_cwd s) = true) (seq 0 VFS_MAX_NODES))).

Definition vfs_gui_getcwd (out_size : Z) s : option cstr :=
  if out_size <=? 0 then None else Some (str_trunc (g_cwd_path s) out_size).

(** ** Paths *)

Definition NORM_DEPTH : nat := 32.

(** The scan of [normalize_absolute]; [None]: more than 32 components. *)
Fixpoint norm_loop (fuel : nat) (p : cstr) (comps : list cstr) : option (list cstr) :=
  match fuel, p with
  | S fuel, _ :: _ =>
     let '(seg, p) := span SLASH (skip SLASH p) in
     let comp := take (Z.to_nat (VFS_NAME_LEN - 1)) seg in
     if bool_decide (comp = []) || str_eqb comp (lit ".") then norm_loop fuel p comps
     else if str_eqb comp (lit "..") then norm_loop fuel p (take (length comps - 1) comps)
     else if (NORM_DEPTH <=? length comps)%nat then None
     else norm_loop fuel p (comps ++ [comp])
  | _, _ => Some comps
  end.

(** The loop that writes the components to [out]. *)
Definition norm_emit (comps : list cstr) : cstr :=
  foldl (λ out comp,
    let out := if (1 <? length out)%nat && (length out <? 255)%nat then out ++ [SLASH] else out in
    out ++ take (255 - length out) comp) [SLASH] comps.

(** [None]: undefined; [Some None]: return 0; otherwise the normal form. *)
Definition normalize_absolute (path : option cstr) s : option (option cstr) :=
  match path with
  | None => Some None
  | Some path =>
     match (if bool_decide (head path = Some SLASH) then Some (copy_truncate path 256)
            else path_join (g_cwd_path s) path) with
     | None => None
     | Some combined => Some (norm_emit <$> norm_loop (length combined) combined [])
     end
  end.

Fixpoint resolve_walk (fuel : nat) (p : cstr) (par : nat) s : option nat :=
  match fuel, p with
  | S fuel, _ :: _ =>
     let '(seg, p) := span SLASH p in
     match find_child (Z.of_nat par) (take (Z.to_nat (VFS_NAME_LEN - 1)) seg) s with
     | None => None
     | Some idx => resolve_walk fuel (skip SLASH p) idx s
     end
  | _, _ => Some par
  end.

Definition resolve_ram_path (abs : cstr) s : option nat :=
  if negb (bool_decide (head abs = Some SLASH)) then None
  else if str_eqb abs (lit "/") then Some 0%nat
  else resolve_walk (length abs) (drop 1 abs) 0 s.

(** [n] bytes of [f] from [off]. *)
Definition bytes_at (f : Z → Z) (off n : Z) : list Z := f <$> seqZ off n.

(** Result and the bytes stored in the buffer ([*out_read] of them). *)
Definition vfs_read_path (path : option cstr) (buffer : bool) (capacity offset : Z) s : option (Z * list Z) :=
  if negb buffer || (capacity =? 0) then Some (-1, [])
  else
    match normalize_absolute path s with
    | None => None
    | Some None => Some (-1, [])
    | Some (Some abs) =>
       match fat_path abs s with
       | Some rel =>
          match fat32_read_file rel (64 * 1024) (env s) with
          | None => Some (-1, [])
          | Some data =>
             let size := Z.of_nat (length data) in
             if offset >=? size then Some (0, [])
             else let n := if capacity >? size - offset then size - offset else capacity in
                  Some (0, take (Z.to_nat n) (drop (Z.to_nat offset) data))
          end
       | None =>
          match resolve_ram_path abs s with
          | Some idx =>
             if negb (is_file s idx) then Some (-1, [])
             else
               let size := content_len (node s idx) in
               if offset >=? size then Some (0, [])
               else let n := if capacity >? size - offset then size - offset else capacity in
                    Some (0, bytes_at (content (node s idx)) offset n)
          | None => Some (-1, [])
          end
       end
    end.

Definition vfs_file_size_path (path : option cstr) s : option (Z * Z) :=
  match normalize_absolute path s with
  | None => None
  | Some None => Some (-1, 0)
  | Some (Some abs) =>
     match fat_path abs s with
     | Some rel =>
        match fat32_read_file rel (64 * 1024) (env s) with
        | None => Some (-1, 0)
        | Some data => Some (0, Z.of_nat (length data))
        end
     | None =>
        match resolve_ram_path abs s with
        | Some idx => if is_file s idx then Some (0, content_len (node s idx)) else Some (-1, 0)
        | None => Some (-1, 0)
        end
     end
  end.

Definition vfs_is_dir_path (path : option cstr) s : option bool :=
  match normalize_absolute path s with
  | None => None
  | Some None => Some false
  | Some (Some abs) =>
     if str_eqb abs (lit "/") then Some true
     else match fat_path abs s with
          | Some rel => Some (fat32_is_directory rel (env s))
          | None => match resolve_ram_path abs s with Some idx => Some (is_dir s idx) | None => Some false end
          end
  end.

(** The last slash of [parent + 1]: the part before it and the name after. *)
Fixpoint last_slash (k : nat) (p : cstr) : option nat :=
  match p with
  | [] => None
  | c :: p => match last_slash (S k) p with
              | Some i => Some i
              | None => if c =? SLASH then Some k else None
              end
  end.

Definition split_parent (abs : cstr) : option (cstr * cstr) :=
  match last_slash 1 (drop 1 abs) with
  | None => None
  | Some i => Some (take i abs, drop (S i) abs)
  end.

(** The directory a path names. *)
Definition resolve_dir (par : cstr) s : option nat :=
  match resolve_ram_path par s with
  | Some i => if is_dir s i then Some i else None
  | None => None
  end.

Definition vfs_mkdir_path (path : option cstr) s : option (Z * vfs F) :=
  match normalize_absolute path s with
  | None => None
  | Some None => Some (-1, s)
  | Some (Some abs) =>
     if str_eqb abs (lit "/") then Some (-1, s)
     else match split_parent abs with
          | None => vfs_mkdir (drop 1 abs) s
          | Some (par, nm) =>
             match resolve_dir par s with
             | None => Some (-1, s)
             | Some parent_idx =>
                if bool_decide (is_Some (find_child (Z.of_nat parent_idx) nm s)) then Some (-1, s)
                else match find_free_node s with
                     | None => Some (-1, s)
                     | Some idx => Some (0, make_node idx VFS_NODE_DIR (Z.of_nat parent_idx) nm s)
                     end
             end
          end
  end.

Definition vfs_unlink_path (path : option cstr) s : option (Z * vfs F) :=
  match normalize_absolute path s with
  | None => None
  | Some None => Some (-1, s)
  | Some (Some abs) =>
     match resolve_ram_path abs s with
     | None => Some (-1, s)
     | Some idx =>
        if (idx <=? 2)%nat || negb (used_node s idx) || (is_dir s idx && has_children (Z.of_nat idx) s)
        then Some (-1, s) else Some (0, free_node idx s)
     end
  end.

(** [buf[offset + i] = data[i]] for all of [data]. *)
Definition store_bytes (offset : Z) (data : list Z) (f : Z → Z) : Z → Z :=
  λ j, if (offset <=? j) && (j <? offset + Z.of_nat (length data)) then default 0 (data !! Z.to_nat (j - offset)) else f j.

(** The file a write goes to, made in an existing directory when missing. *)
Definition write_target (abs : cstr) s : option nat * vfs F :=
  match resolve_ram_path abs s with
  | Some idx => (Some idx, s)
  | None =>
     match split_parent abs with
     | None => (None, s)
     | Some (par, nm) =>
        match resolve_dir par s with
        | None => (None, s)
        | Some parent_idx =>
           match find_child (Z.of_nat parent_idx) nm s with
           | Some idx => (Some idx, s)
           | None =>
              match find_free_node s with
              | None => (None, s)
              | Some idx => (Some idx, clear_content idx (make_node idx VFS_NODE_FILE (Z.of_nat parent_idx) nm s))
              end
           end
        end
     end
  end.

(** The write into the content array of node [idx]; [None]: the terminator
    goes to [content[200]]. *)
Definition write_node (idx : nat) (data : list Z) (offset : Z) s : option (Z * Z * vfs F) :=
  if negb (is_file s idx) || (offset >=? VFS_CONTENT_LEN) then Some (-1, 0, s)
  else
    let size := Z.of_nat (length data) in
    let size := if size >? VFS_CONTENT_LEN - offset then VFS_CONTENT_LEN - offset else size in
    let data := take (Z.to_nat size) data in
    let fin := offset + size in
    let len := if fin >? content_len (node s idx) then fin else content_len (node s idx) in
    if len >=? VFS_CONTENT_LEN then None
    else Some (0, size, set_node idx (λ n, n <| content := upd (store_bytes offset data (content n)) len 0 |>
                                             <| content_len := len |>) s).

Definition TEMP_SIZE : Z := 64 * 1024.

(** The forwarding branch: read the file, patch it, write it back. *)
Definition write_fat (rel : cstr) (data : list Z) (offset : Z) s : Z * Z * vfs F :=
  let size := Z.of_nat (length data) in
  let old_data := default [] (fat32_read_file rel TEMP_SIZE (env s)) in
  let s := s <| write_temp := store_bytes 0 old_data (write_temp s) |> in
  let old := Z.of_nat (length old_data) in
  if (offset >? TEMP_SIZE) || (size >? TEMP_SIZE - offset) then (-1, 0, s)
  else
    let fin := offset + size in
    let old := if fin >? old then fin else old in
    let s := s <| write_temp := store_bytes offset data (write_temp s) |> in
    let '(ok, e) := fat32_write_file rel (bytes_at (write_temp s) 0 old) (env s) in
    let s := s <| env := e |> in
    if negb ok then (-1, 0, s) else (0, size, s).

(** Result, [*out_written], state. *)
Definition vfs_write_path (path : option cstr) (buffer : option (list Z)) (offset : Z) s : option (Z * Z * vfs F) :=
  match buffer with
  | None => Some (-1, 0, s)
  | Some data =>
     match normalize_absolute path s with
     | None => None
     | Some None => Some (-1, 0, s)
     | Some (Some abs) =>
        match fat_path abs s with
        | Some rel => Some (write_fat rel data offset s)
        | None =>
           match write_target abs s with
           | (None, s) => Some (-1, 0, s)
           | (Some idx, s) => write_node idx data offset s
           end
        end
     end
  end.

Definition vfs_rename_path (src dst : option cstr) s : option (Z * vfs F) :=
  match normalize_absolute src s, normalize_absolute dst s with
  | None, _ => None
  | Some None, _ => Some (-1, s)
  | Some (Some _), None => None
  | Some (Some _), Some None => Some (-1, s)
  | Some (Some a), Some (Some b) =>
     match resolve_ram_path a s with
     | None => Some (-1, s)
     | Some idx =>
        if (idx <=? 2)%nat then Some (-1, s)
        else match split_parent b with
             | None => Some (-1, s)
             | Some (par, nm) =>
                match resolve_dir par s with
                | None => Some (-1, s)
                | Some parent_idx =>
                   if bool_decide (is_Some (find_child (Z.of_nat parent_idx) nm s)) then Some (-1, s)
                   else Some (0, set_node idx (λ n, n <| parent := Z.of_nat parent_idx |>
                                                      <| name := copy_truncate nm VFS_NAME_LEN |>) s)
                end
             end
     end
  end.
End ops.
End Vfs.
