(* ===== verification/VfsPath.v ===== *)
(** * Paths of the RAM file system

    The string side of vfs.c: joining, normalising and splitting paths,
    independent of the nodes. *)

From Stdlib Require Import Lia ZArith Bool.
From stdpp Require Import base list sets numbers strings.
From S2P Require Import Prelude Mount Vfs.

Local Open Scope Z_scope.

Module VfsPath.
Import Mount Vfs.

(** ** Scanning *)

Lemma path_span_app c s : let '(a, b) := span c s in s = a ++ b ∧ (c ∉ a) ∧ (b = [] ∨ ∃ r, b = c :: r).
Proof.
  induction s as [|x r IH]; cbn; [split; [done|]; split; [set_solver|by left]|].
  destruct (Z.eqb_spec x c) as [->|Hne].
  - split; [done|]. split; [set_solver|]. right. by exists r.
  - destruct (span c r) as [a b]. destruct IH as (-> & Ha & Hb). split; [done|]. split; [|done].
    intros [->|?]%elem_of_cons; done.
Qed.

Lemma span_spec c a b : c ∉ a → span c (a ++ c :: b) = (a, c :: b).
Proof.
  induction a as [|x a IH]; intros Ha; cbn; [by rewrite Z.eqb_refl|].
  rewrite (proj2 (Z.eqb_neq x c)) by set_solver. rewrite IH by set_solver. done.
Qed.

Lemma span_none c a : c ∉ a → span c a = (a, []).
Proof.
  induction a as [|x a IH]; intros Ha; cbn; [done|].
  rewrite (proj2 (Z.eqb_neq x c)) by set_solver. rewrite IH by set_solver. done.
Qed.

Lemma skip_length c s : (length (skip c s) ≤ length s)%nat.
Proof. induction s as [|x s IH]; cbn; [lia|]. destruct (x =? c); cbn; lia. Qed.

Lemma skip_head c s : head (skip c s) ≠ Some c.
Proof. induction s as [|x s IH]; cbn; [done|]. destruct (Z.eqb_spec x c); [done|]. cbn. congruence. Qed.

(** ** Joining *)

Lemma path_join_spec base nm out :
  path_join base nm = Some out → (length out ≤ 255)%nat ∧ (head base = Some SLASH → head out = Some SLASH).
Proof.
  unfold path_join. case_bool_decide as Hs.
  { intros [= <-]. unfold path_copy, str_trunc. rewrite length_take. split; [change (Z.to_nat (256 - 1)) with 255%nat; lia|].
    intros _. by destruct nm. }
  cbv zeta. set (o1 := if (length (take 255 base) =? 0)%nat then _ else _).
  set (o2 := if _ && _ then _ else _).
  destruct (Nat.ltb_spec 255 (length o2)) as [|Hl]; [done|]. intros [= <-]. split.
  - rewrite length_app, length_take. lia.
  - intros Hb. destruct base as [|x base]; [done|]. cbn in Hb. injection Hb as ->.
    assert (∃ r, o2 = SLASH :: r) as [r ->]; [|done]. unfold o2, o1. cbn [take length Nat.eqb].
    destruct (_ && _); by eexists.
Qed.

(** The one way joining leaves the buffer. *)
Lemma path_join_None base nm :
  path_join base nm = None ↔
  head nm ≠ Some SLASH ∧ (255 ≤ length base)%nat ∧ last (take 255 base) ≠ Some SLASH.
Proof.
  unfold path_join. case_bool_decide as Hs; [split; [done|tauto]|]. cbv zeta.
  destruct (Nat.eqb_spec (length (take 255 base)) 0) as [E0|E0].
  { change (1 <? length [SLASH])%nat with false. cbn [andb]. change (255 <? length [SLASH])%nat with false.
    cbv iota. split; [done|]. rewrite length_take in E0. lia. }
  pose proof (length_take base 255) as Hlen.
  destruct ((1 <? length (take 255 base))%nat && negb (bool_decide (last (take 255 base) = Some SLASH))) eqn:Hc.
  - apply andb_true_iff in Hc as [Hc1 Hc2]. apply Nat.ltb_lt in Hc1. apply negb_true_iff, bool_decide_eq_false in Hc2.
    rewrite length_app. cbn [length]. destruct (Nat.ltb_spec 255 (length (take 255 base) + 1)) as [Hl|Hl].
    + split; [|done]. intros _. split; [done|]. split; [lia|done].
    + split; [done|]. lia.
  - destruct (Nat.ltb_spec 255 (length (take 255 base))) as [Hl|Hl]; [lia|]. split; [done|].
    intros (_ & Hb & Hla). apply andb_false_iff in Hc as [Hc|Hc]; [apply Nat.ltb_ge in Hc; lia|].
    apply negb_false_iff, bool_decide_eq_true in Hc. done.
Qed.

(** ** Normalising *)

(** A component of a normal form. *)
Definition comp_ok (c : cstr) : Prop :=
  c ≠ [] ∧ (SLASH ∉ c) ∧ (length c ≤ 23)%nat ∧ c ≠ lit "." ∧ c ≠ lit "..".

(** [/c1/c2/...]. *)
Definition render (comps : list cstr) : cstr := concat (map (cons SLASH) comps).
Definition render_root (comps : list cstr) : cstr := match comps with [] => [SLASH] | _ => render comps end.

Lemma render_app a b : render (a ++ b) = render a ++ render b.
Proof. unfold render. by rewrite map_app, concat_app. Qed.

Lemma render_cons c cs : render (c :: cs) = SLASH :: c ++ render cs.
Proof. done. Qed.

(** The reference: the segments between slashes, folded over a stack. *)
Fixpoint segments (fuel : nat) (p : cstr) : list cstr :=
  match fuel with
  | O => []
  | S fuel => let '(a, b) := span SLASH p in
              a :: match b with [] => [] | _ :: r => segments fuel r end
  end.

Definition push_comp (acc : option (list cstr)) (seg : cstr) : option (list cstr) :=
  match acc with
  | None => None
  | Some cs =>
     let c := take 23 seg in
     if decide (c = [] ∨ c = lit ".") then Some cs
     else if decide (c = lit "..") then Some (take (length cs - 1) cs)
     else if decide (32 ≤ length cs)%nat then None else Some (cs ++ [c])
  end.

Definition components (p : cstr) : option (list cstr) := foldl push_comp (Some []) (segments (S (length p)) p).

Lemma push_None l : foldl push_comp None l = None.
Proof. induction l; done. Qed.

Lemma segments_fuel f1 f2 p : (length p < f1)%nat → (length p < f2)%nat → segments f1 p = segments f2 p.
Proof.
  revert f2 p. induction f1 as [|f1 IH]; intros f2 p H1 H2; [lia|]. destruct f2 as [|f2]; [lia|]. cbn [segments].
  pose proof (path_span_app SLASH p) as Hs. destruct (span SLASH p) as [a b]. destruct Hs as (-> & _ & _).
  destruct b as [|x r]; [done|]. rewrite length_app in *. cbn in *. f_equal. apply IH; lia.
Qed.

(** A slash separates an empty segment. *)
Lemma push_slash f p acc :
  (length p < f)%nat → foldl push_comp acc (segments (S f) (SLASH :: p)) = foldl push_comp acc (segments f p).
Proof.
  intros Hf. cbn [segments span]. rewrite Z.eqb_refl. cbn [foldl]. destruct acc as [cs|]; [|by rewrite !push_None].
  cbn [push_comp take]. by rewrite decide_True by (by left).
Qed.

Lemma push_skip f p acc :
  (length p < f)%nat → foldl push_comp acc (segments f p) = foldl push_comp acc (segments f (skip SLASH p)).
Proof.
  revert f. induction p as [|x p IH]; intros f Hf; [done|]. cbn [skip]. destruct (Z.eqb_spec x SLASH) as [->|]; [|done].
  destruct f as [|f]; [lia|]. cbn in Hf. rewrite push_slash by lia. rewrite IH by lia.
  pose proof (skip_length SLASH p). rewrite (segments_fuel f (S f)) by lia. done.
Qed.

Lemma norm_loop_components fuel p cs :
  (length p ≤ fuel)%nat → norm_loop fuel p cs = foldl push_comp (Some cs) (segments (S (length p)) p).
Proof.
  revert p cs. induction fuel as [|fuel IH]; intros p cs Hf.
  { destruct p; [|cbn in Hf; lia]. cbn. by rewrite decide_True by (by left). }
  destruct p as [|x p]; [cbn; by rewrite decide_True by (by left)|].
  cbn [norm_loop]. rewrite push_skip by lia. pose proof (skip_length SLASH (x :: p)) as Hl.
  pose proof (skip_head SLASH (x :: p)) as Hh.
  set (p1 := skip SLASH (x :: p)) in *. clearbody p1. cbn [segments].
  pose proof (path_span_app SLASH p1) as Hs. destruct (span SLASH p1) as [seg p2]. destruct Hs as (-> & Hseg & Hp2).
  rewrite length_app in Hl.
  assert (length p2 ≤ fuel)%nat as Hl2.
  { destruct seg as [|y seg]; [|cbn in *; lia]. destruct Hp2 as [->|(r & ->)]; [cbn; lia|]. by destruct Hh. }
  assert (∀ acc, foldl push_comp acc (segments (S (length p2)) p2) =
                 foldl push_comp acc (match p2 with [] => [] | _ :: r => segments (length (x :: p)) r end)) as Hrest.
  { intros acc. destruct Hp2 as [->|(r & ->)].
    - cbn. destruct acc as [cs'|]; [|done]. cbn. by rewrite decide_True by (by left).
    - cbn [length] in Hl |- *. rewrite push_slash by lia. by rewrite (segments_fuel (S (length r)) (S (length p))) by lia. }
  cbn [foldl]. rewrite <- Hrest.
  change (Z.to_nat (VFS_NAME_LEN - 1)) with 23%nat. set (c := take 23 seg). cbn [push_comp]. fold c.
  destruct (decide (c = [] ∨ c = lit ".")) as [Hd|Hd].
  { assert (bool_decide (c = []) || str_eqb c (lit ".") = true) as ->; [|by apply IH].
    apply orb_true_iff. destruct Hd; [left; by apply bool_decide_eq_true|right; by apply str_eqb_true]. }
  assert (bool_decide (c = []) || str_eqb c (lit ".") = false) as ->.
  { apply orb_false_iff. split; [apply bool_decide_eq_false; tauto|]. apply not_true_iff_false.
    intros ?%str_eqb_true. tauto. }
  destruct (decide (c = lit "..")) as [Hdd|Hdd].
  { rewrite (proj2 (str_eqb_true _ _) Hdd). by apply IH. }
  assert (str_eqb c (lit "..") = false) as -> by (apply not_true_iff_false; by intros ?%str_eqb_true).
  unfold NORM_DEPTH. destruct (Nat.leb_spec 32 (length cs)) as [Hm|Hm].
  - rewrite decide_True by done. by rewrite push_None.
  - rewrite decide_False by lia. by apply IH.
Qed.

(** ** The normal form *)

Lemma segments_slash_free f p : Forall (λ a, SLASH ∉ a) (segments f p).
Proof.
  revert p. induction f as [|f IH]; intros p; [constructor|]. cbn [segments].
  pose proof (path_span_app SLASH p) as Hs. destruct (span SLASH p) as [a b]. destruct Hs as (_ & Ha & _).
  constructor; [done|]. destruct b; [constructor|apply IH].
Qed.

(** Joining the segments with slashes gives the string back. *)
Lemma segments_length f p :
  (length p < f)%nat → SLASH :: p = render (segments f p).
Proof.
  revert p. induction f as [|f IH]; intros p Hf; [lia|]. cbn [segments].
  pose proof (path_span_app SLASH p) as Hs. destruct (span SLASH p) as [a b]. destruct Hs as (-> & _ & Hb).
  rewrite render_cons. f_equal. f_equal. destruct Hb as [->|(r & ->)]; [done|].
  rewrite length_app in Hf. cbn in Hf. apply IH. lia.
Qed.

Lemma render_take n cs : (length (render (take n cs)) ≤ length (render cs))%nat.
Proof.
  revert n. induction cs as [|c cs IH]; intros n; [by rewrite take_nil|].
  destruct n as [|n]; [cbn; lia|]. cbn [take]. rewrite !render_cons. cbn [length]. rewrite !length_app.
  specialize (IH n). lia.
Qed.

Lemma push_comp_facts cs seg cs' :
  push_comp (Some cs) seg = Some cs' → Forall comp_ok cs → (SLASH ∉ seg) → (length cs ≤ 32)%nat →
  Forall comp_ok cs' ∧ (length cs' ≤ 32)%nat ∧ (length (render cs') ≤ length (render cs) + S (length seg))%nat.
Proof.
  intros Hp Hok Hs Hl. cbn in Hp. pose proof (render_take (length cs - 1) cs).
  case_decide as H1; [injection Hp as <-; split_and!; [done|done|lia]|].
  case_decide as H2; [injection Hp as <-; split_and!; [by apply Forall_take|rewrite length_take; lia|lia]|].
  case_decide as H3; [done|]. injection Hp as <-. split_and!.
  - apply Forall_app. split; [done|]. apply Forall_singleton. split_and!; [tauto| |rewrite length_take; lia|tauto|tauto].
    intros Hin. apply Hs. rewrite <- (take_drop 23 seg). apply elem_of_app. by left.
  - rewrite length_app. cbn. lia.
  - rewrite render_app, length_app, render_cons. cbn [length]. rewrite length_app, length_take. change (render []) with (@nil Z). cbn [length]. lia.
Qed.

Lemma push_fold_facts segs cs cs' :
  foldl push_comp (Some cs) segs = Some cs' → Forall comp_ok cs → Forall (λ a, SLASH ∉ a) segs → (length cs ≤ 32)%nat →
  Forall comp_ok cs' ∧ (length cs' ≤ 32)%nat ∧ (length (render cs') ≤ length (render cs) + length (render segs))%nat.
Proof.
  revert cs. induction segs as [|seg segs IH]; intros cs Hf Hok Hs Hl; cbn [foldl] in Hf.
  { injection Hf as <-. split_and!; [done|done|lia]. }
  apply Forall_cons in Hs as [Hseg Hs]. destruct (push_comp (Some cs) seg) as [cs1|] eqn:E1; [|by rewrite push_None in Hf].
  destruct (push_comp_facts cs seg cs1 E1 Hok Hseg Hl) as (Hok1 & Hl1 & Hr1).
  destruct (IH cs1 Hf Hok1 Hs Hl1) as (? & ? & ?). split_and!; [done|done|].
  rewrite render_cons. cbn [length]. rewrite length_app. lia.
Qed.

Lemma components_facts p cs :
  components p = Some cs → Forall comp_ok cs ∧ (length cs ≤ 32)%nat ∧
  (head p = Some SLASH → length (render cs) ≤ length p)%nat.
Proof.
  intros Hc. destruct (push_fold_facts _ _ _ Hc) as (H1 & H2 & _); [constructor|apply segments_slash_free|cbn; lia|].
  split_and!; [done..|]. intros Hh. destruct p as [|x p]; [done|]. cbn in Hh. injection Hh as ->.
  unfold components in Hc. rewrite push_slash in Hc by (cbn; lia).
  destruct (push_fold_facts _ _ _ Hc) as (_ & _ & Hr); [constructor|apply segments_slash_free|cbn; lia|].
  rewrite <- segments_length in Hr by (cbn; lia). exact Hr.
Qed.

(** The writer of the normal form, without truncation. *)
Lemma norm_emit_from cs out :
  (1 < length out)%nat → Forall comp_ok cs → (length out + length (render cs) ≤ 255)%nat →
  foldl (λ out comp,
    let out := if (1 <? length out)%nat && (length out <? 255)%nat then out ++ [SLASH] else out in
    out ++ take (255 - length out) comp) out cs = out ++ render cs.
Proof.
  revert out. induction cs as [|c cs IH]; intros out Ho Hok Hl; cbn [foldl]; [by rewrite app_nil_r|].
  apply Forall_cons in Hok as [Hc Hok]. rewrite render_cons in Hl. cbn [length] in Hl. rewrite length_app in Hl.
  rewrite (proj2 (Nat.ltb_lt 1 (length out))), (proj2 (Nat.ltb_lt (length out) 255)) by lia. cbn [andb]. cbv zeta.
  rewrite length_app. cbn [length]. rewrite take_ge by lia. rewrite IH.
  - rewrite render_cons. by rewrite <- !app_assoc.
  - rewrite !length_app. cbn. lia.
  - done.
  - rewrite !length_app. cbn. lia.
Qed.

Lemma norm_emit_render cs :
  Forall comp_ok cs → (length (render cs) ≤ 255)%nat → norm_emit cs = render_root cs.
Proof.
  intros Hok Hl. destruct cs as [|c cs]; [done|]. unfold norm_emit, render_root. cbn [foldl].
  apply Forall_cons in Hok as [Hc Hok]. change (1 <? length [SLASH])%nat with false. cbn [andb]. cbv zeta.
  rewrite render_cons in Hl |- *. cbn [length] in Hl |- *. rewrite length_app in Hl.
  rewrite take_ge by lia. rewrite norm_emit_from; [by rewrite <- app_assoc| |done|].
  - destruct Hc as [Hc _]. destruct c; [done|]. cbn. lia.
  - cbn. lia.
Qed.

(** A normal form is its own normal form. *)
Lemma components_render_from cs acc f :
  Forall comp_ok cs → (length acc + length cs ≤ 32)%nat → (length (render cs) < f)%nat →
  foldl push_comp (Some acc) (segments f (render cs)) = Some (acc ++ cs).
Proof.
  revert acc f. induction cs as [|c cs IH]; intros acc f Hok Hl Hf.
  { destruct f as [|f]; [cbn in Hf; lia|]. cbn. rewrite decide_True by (by left). by rewrite app_nil_r. }
  rewrite render_cons in Hf |- *. cbn [length] in Hf. destruct f as [|f]; [lia|]. rewrite push_slash by lia.
  apply Forall_cons in Hok as [Hc Hok]. pose proof Hc as (Hc1 & Hc2 & Hc3 & Hc4 & Hc5).
  destruct f as [|f]; [destruct c; [done|cbn in Hf; lia]|]. cbn [segments]. rewrite length_app in Hf. cbn [length] in Hl.
  assert (∀ rest, foldl push_comp (Some acc) (c :: rest) = foldl push_comp (Some (acc ++ [c])) rest) as Hpush.
  { intros rest. cbn [foldl push_comp]. rewrite take_ge by lia.
    rewrite decide_False by tauto. rewrite decide_False by tauto. rewrite decide_False by lia. done. }
  destruct cs as [|c2 cs].
  - cbn. rewrite app_nil_r, span_none by done. rewrite Hpush. done.
  - rewrite render_cons. rewrite span_spec by done. rewrite Hpush.
    assert (segments f (c2 ++ render cs) = segments (S f) (c2 ++ render cs)) as ->.
    { rewrite render_cons in Hf. cbn in Hf. destruct c; [done|]. cbn in Hf. apply segments_fuel; lia. }
    rewrite render_cons in Hf. cbn in Hf. destruct c as [|y c]; [done|]. cbn in Hf.
    rewrite <- push_slash by lia. change (SLASH :: c2 ++ render cs) with (render (c2 :: cs)).
    rewrite IH; [by rewrite <- app_assoc|done| |].
    + rewrite length_app. cbn in *. lia.
    + rewrite render_cons. cbn. lia.
Qed.

Lemma components_render cs : Forall comp_ok cs → (length cs ≤ 32)%nat → components (render_root cs) = Some cs.
Proof.
  intros Hok Hl. destruct cs as [|c cs]; [reflexivity|]. unfold components, render_root.
  rewrite components_render_from; [done|done|cbn in *; lia|lia].
Qed.

(** ** Splitting *)

Lemma last_slash_none k p : SLASH ∉ p → last_slash k p = None.
Proof.
  revert k. induction p as [|x p IH]; intros k Hp; [done|]. cbn. rewrite IH by set_solver.
  rewrite (proj2 (Z.eqb_neq x SLASH)) by set_solver. done.
Qed.

Lemma last_slash_app k a b : (SLASH ∉ b) → last_slash k (a ++ SLASH :: b) = Some (k + length a)%nat.
Proof.
  intros Hb. revert k. induction a as [|x a IH]; intros k; cbn.
  - rewrite last_slash_none by done. f_equal. lia.
  - rewrite IH. f_equal. lia.
Qed.

Lemma split_parent_one c : comp_ok c → split_parent (render_root [c]) = None.
Proof.
  intros (_ & Hs & _). unfold split_parent, render_root. rewrite render_cons. cbn [drop].
  rewrite app_nil_r, last_slash_none by done. done.
Qed.

Lemma split_parent_snoc cs c :
  cs ≠ [] → comp_ok c → split_parent (render_root (cs ++ [c])) = Some (render_root cs, c).
Proof.
  intros Hne (_ & Hs & _). destruct cs as [|c0 cs]; [done|]. unfold split_parent, render_root.
  cbn [app]. rewrite render_cons, render_app, (render_cons c []). change (render []) with (@nil Z).
  rewrite app_nil_r, app_assoc.
  match goal with |- context [drop 1 (SLASH :: ?x)] => change (drop 1 (SLASH :: x)) with x end.
  rewrite last_slash_app by done.
  rewrite render_cons. f_equal. f_equal.
  - cbn [take Nat.add]. f_equal. by rewrite take_app_length.
  - match goal with |- drop (S ?n) (SLASH :: ?x) = _ => change (drop (S n) (SLASH :: x)) with (drop n x) end.
    rewrite drop_app_ge by lia.
    replace (1 + length (c0 ++ render cs) - length (c0 ++ render cs))%nat with 1%nat by lia. done.
Qed.

(** ** [normalize_absolute] *)

Section normalize.
Context {F : Type}.
Implicit Types (s : vfs F).

(** The absolute path a caller's path stands for, before normalisation. *)
Definition absolute (path : cstr) s : option cstr :=
  if bool_decide (head path = Some SLASH) then Some (take 255 path) else path_join (g_cwd_path s) path.

Lemma absolute_facts path s p :
  head (g_cwd_path s) = Some SLASH → absolute path s = Some p → head p = Some SLASH ∧ (length p ≤ 255)%nat.
Proof.
  intros Hc. unfold absolute. case_bool_decide as Hh.
  - intros [= <-]. rewrite length_take. split; [|lia]. by destruct path.
  - intros Hj. apply path_join_spec in Hj as [? ?]. auto.
Qed.

Lemma normalize_spec path s :
  head (g_cwd_path s) = Some SLASH →
  normalize_absolute (Some path) s =
    match absolute path s with None => None | Some p => Some (render_root <$> components p) end.
Proof.
  intros Hc. unfold normalize_absolute.
  change (if bool_decide (head path = Some SLASH) then Some (copy_truncate path 256) else path_join (g_cwd_path s) path)
    with (absolute path s).
  destruct (absolute path s) as [p|] eqn:Ha; [|done]. destruct (absolute_facts path s p Hc Ha) as [Hh Hl].
  f_equal. rewrite norm_loop_components by lia. fold (components p).
  destruct (components p) as [cs|] eqn:Hcs; [|done]. cbn. f_equal.
  destruct (components_facts p cs Hcs) as (Hok & _ & Hr). specialize (Hr Hh). apply norm_emit_render; [done|lia].
Qed.

(** A successful normalisation, spelled out. *)
Lemma normalize_Some path s abs :
  head (g_cwd_path s) = Some SLASH → normalize_absolute (Some path) s = Some (Some abs) →
  ∃ p cs, absolute path s = Some p ∧ components p = Some cs ∧ abs = render_root cs ∧
    Forall comp_ok cs ∧ (length cs ≤ 32)%nat ∧ (length abs ≤ 255)%nat.
Proof.
  intros Hc. rewrite normalize_spec by done. destruct (absolute path s) as [p|] eqn:Ha; [|done].
  destruct (absolute_facts path s p Hc Ha) as [Hh Hl].
  destruct (components p) as [cs|] eqn:Hcs; [|done]. cbn. intros [= <-].
  destruct (components_facts p cs Hcs) as (Hok & Hn & Hr). specialize (Hr Hh). exists p, cs. split_and!; try done.
  destruct cs as [|c cs]; [cbn; lia|]. unfold render_root. lia.
Qed.

(** C24: [normalize_absolute] computes the canonical form of a path: the segments
    between slashes, cut to 23 bytes, empty and [.] segments dropped, [..]
    removing the previous one, joined with single slashes behind a leading one;
    it fails only beyond 32 components, never truncates the result, and a
    canonical path is its own canonical form. *)
Theorem normalize_absolute_canonical path s :
  head (g_cwd_path s) = Some SLASH →
  normalize_absolute (Some path) s =
    match absolute path s with None => None | Some p => Some (render_root <$> components p) end ∧
  ∀ abs, normalize_absolute (Some path) s = Some (Some abs) →
    (∃ cs, abs = render_root cs ∧ Forall comp_ok cs ∧ (length cs ≤ 32)%nat ∧ (length abs ≤ 255)%nat) ∧
    normalize_absolute (Some abs) s = Some (Some abs).
Proof.
  intros Hc. split; [by apply normalize_spec|]. intros abs Hn.
  destruct (normalize_Some path s abs Hc Hn) as (p & cs & _ & _ & -> & Hok & H32 & Hl).
  split; [by exists cs|]. rewrite normalize_spec by done.
  assert (head (render_root cs) = Some SLASH) as Hh by (by destruct cs).
  unfold absolute. rewrite bool_decide_true by done. rewrite take_ge by done.
  by rewrite components_render.
Qed.
End normalize.

Definition some_vfs : vfs unit :=
  mkVfs (λ _, mkNode VFS_NODE_FREE [] 0 (λ _, 0) 0) 0 (lit "/home") (λ _, mkMount false [] [] [] 0) (λ _, 0) tt.

Lemma normalize_absolute_canonical_witness :
  normalize_absolute (Some (lit "../a/./b//../c")) some_vfs = Some (Some (lit "/a/c")) ∧
  normalize_absolute (Some (lit "/a/c")) some_vfs = Some (Some (lit "/a/c")).
Proof.
  split; [vm_compute; reflexivity|].
  exact (proj2 (proj2 (normalize_absolute_canonical (lit "../a/./b//../c") some_vfs ltac:(reflexivity))
    (lit "/a/c") ltac:(vm_compute; reflexivity))).
Defined.
End VfsPath.
