(* ===== verification/VfsSpec.v ===== *)
(** * Correctness of the RAM file system

    The tree invariant and its preservation by every operation, lookup and
    path normalisation, reading back what was written, and the operations
    whose code leaves the invariant. *)

From Stdlib Require Import Lia ZArith Bool.
From stdpp Require Import base list sets numbers strings relations.
From S2P Require Import Prelude Mount Vfs VfsPath.

Local Open Scope Z_scope.

Module VfsSpec.
Import Mount Vfs VfsPath.

Section tree.
Context {F : Type} `{VfsEnv F}.
Context (uninit : cstr).
Implicit Types (s : vfs F).

(** ** The tree invariant *)

Definition live s (i : nat) : Prop := (i < VFS_MAX_NODES)%nat ∧ used_node s i = true.
Definition dir s (i : nat) : Prop := (i < VFS_MAX_NODES)%nat ∧ type (node s i) = VFS_NODE_DIR.

(** Following parents from [i] reaches the root. *)
Inductive rooted s : nat → Prop :=
| rooted_root : rooted s 0%nat
| rooted_up i p : live s i → i ≠ 0%nat → parent (node s i) = Z.of_nat p → rooted s p → rooted s i.

Record twf s : Prop := {
  t_root : type (node s 0) = VFS_NODE_DIR ∧ parent (node s 0) = -1;
  t_parent : ∀ i, live s i → i ≠ 0%nat → ∃ p, parent (node s i) = Z.of_nat p ∧ dir s p;
  t_rooted : ∀ i, live s i → rooted s i;
  t_name : ∀ i, live s i → (length (name (node s i)) ≤ 23)%nat;
  t_len : ∀ i, live s i → type (node s i) = VFS_NODE_FILE → 0 ≤ content_len (node s i) ≤ 199;
  t_cwd : g_cwd s = -1 ∨ ∃ c, g_cwd s = Z.of_nat c ∧ dir s c;
  t_path : (length (g_cwd_path s) ≤ 255)%nat ∧ head (g_cwd_path s) = Some SLASH;
}.

(** No two entries of a directory have the same name. *)
Definition distinct_names s : Prop :=
  ∀ i j, live s i → live s j → parent (node s i) = parent (node s j) → name (node s i) = name (node s j) → i = j.

Lemma used_type s i : used_node s i = true ↔ type (node s i) ≠ VFS_NODE_FREE.
Proof. unfold used_node. rewrite negb_true_iff, bool_decide_eq_false. done. Qed.

Lemma dir_live s i : dir s i → live s i.
Proof. intros [? Hd]. split; [done|]. apply used_type. by rewrite Hd. Qed.

Lemma is_dir_true s i : is_dir s i = true ↔ type (node s i) = VFS_NODE_DIR.
Proof. apply bool_decide_eq_true. Qed.
Lemma is_file_true s i : is_file s i = true ↔ type (node s i) = VFS_NODE_FILE.
Proof. apply bool_decide_eq_true. Qed.

Lemma root_live s : twf s → dir s 0%nat.
Proof. intros T. split; [unfold VFS_MAX_NODES; lia|apply T]. Qed.

(** ** Lookup *)

Lemma find_child_Some par nm s i :
  find_child par nm s = Some i → live s i ∧ parent (node s i) = par ∧ name (node s i) = nm.
Proof.
  intros (Hi & Hp & _)%first_index_Some. rewrite !andb_true_iff in Hp. destruct Hp as [[Hu Hpar] Hn].
  apply Z.eqb_eq in Hpar. apply str_eqb_true in Hn. split; [split; [lia|done]|done].
Qed.

Lemma find_child_None par nm s :
  find_child par nm s = None ↔ ∀ i, live s i → parent (node s i) = par → name (node s i) ≠ nm.
Proof.
  unfold find_child. rewrite first_index_None. split.
  - intros Hn i [Hi Hu] Hp Hnm. specialize (Hn i ltac:(lia)). rewrite Hu, Hp, Z.eqb_refl in Hn. cbn [andb] in Hn.
    rewrite (proj2 (str_eqb_true _ _) Hnm) in Hn. done.
  - intros Hn i Hi. destruct (used_node s i) eqn:Hu; [|done]. cbn [andb].
    destruct (Z.eqb_spec (parent (node s i)) par) as [Hp|]; [|done]. cbn [andb].
    apply not_true_iff_false. intros Hnm%str_eqb_true. apply (Hn i); [split; [lia|done]|done..].
Qed.

(** With distinct names, lookup finds exactly the entry with that name. *)
Lemma find_child_unique par nm s i :
  distinct_names s → live s i → parent (node s i) = par → name (node s i) = nm → find_child par nm s = Some i.
Proof.
  intros Hd Hi Hp Hn. destruct (find_child par nm s) as [j|] eqn:Hf.
  - apply find_child_Some in Hf as (Hj & Hpj & Hnj). f_equal. apply Hd; congruence.
  - rewrite find_child_None in Hf. by destruct (Hf i Hi Hp).
Qed.

Lemma find_free_Some s i : find_free_node s = Some i → (0 < i < VFS_MAX_NODES)%nat ∧ type (node s i) = VFS_NODE_FREE.
Proof.
  intros (Hi & Hu & _)%first_index_Some. split; [unfold VFS_MAX_NODES in *; lia|].
  unfold used_node in Hu. rewrite negb_involutive in Hu. by apply bool_decide_eq_true in Hu.
Qed.

Lemma has_children_false par s : has_children par s = false ↔ ∀ i, live s i → parent (node s i) ≠ par.
Proof.
  unfold has_children. rewrite bool_decide_eq_false, <- eq_None_not_Some, first_index_None. split.
  - intros Hn i [Hi Hu] Hp. specialize (Hn i ltac:(lia)). by rewrite Hu, Hp, Z.eqb_refl in Hn.
  - intros Hn i Hi. destruct (used_node s i) eqn:Hu; [|done]. cbn [andb]. apply Z.eqb_neq.
    apply Hn. split; [lia|done].
Qed.

#[local] Opaque find_child find_free_node has_children.

(** ** One node changes

    [s'] differs from [s] in node [i] only, and keeps the current directory. *)
Record one_node (i : nat) s s' : Prop := {
  on_other : ∀ j, j ≠ i → node s' j = node s j;
  on_cwd : g_cwd s' = g_cwd s;
  on_path : g_cwd_path s' = g_cwd_path s;
}.

Lemma one_node_set i f s : one_node i s (set_node i f s).
Proof. split; try done. intros j Hj. unfold node, set_node. cbn. by rewrite (proj2 (Nat.eqb_neq j i) Hj). Qed.

Lemma node_set i f s : node (set_node i f s) i = f (node s i).
Proof. unfold node, set_node. cbn. by rewrite Nat.eqb_refl. Qed.

Lemma one_node_trans i s1 s2 s3 : one_node i s1 s2 → one_node i s2 s3 → one_node i s1 s3.
Proof. intros [A1 A2 A3] [B1 B2 B3]. split; [|congruence..]. intros j Hj. rewrite B1 by done. by apply A1. Qed.

Lemma live_other i s s' j : one_node i s s' → j ≠ i → live s' j ↔ live s j.
Proof. intros O Hj. unfold live, used_node. by rewrite (on_other _ _ _ O j Hj). Qed.

Lemma dir_other i s s' j : one_node i s s' → j ≠ i → dir s' j ↔ dir s j.
Proof. intros O Hj. unfold dir. by rewrite (on_other _ _ _ O j Hj). Qed.

(** A free node becomes an entry of directory [p]. *)
Section add.
Context (i p : nat) (s s' : vfs F) (O : one_node i s s').
Context (Hi : (0 < i < VFS_MAX_NODES)%nat) (Hfree : type (node s i) = VFS_NODE_FREE) (Hp : dir s p).
Context (Hty : type (node s' i) ≠ VFS_NODE_FREE) (Hpar : parent (node s' i) = Z.of_nat p).

Lemma add_not_parent : p ≠ i.
Proof. intros ->. destruct Hp as [_ Hd]. congruence. Qed.

Lemma add_live : live s' i.
Proof. split; [lia|]. by apply used_type. Qed.

Lemma add_rooted j : twf s → rooted s j → rooted s' j.
Proof.
  intros T. induction 1 as [|j q Hj Hj0 Hq _ IH]; [constructor|].
  assert (j ≠ i) as Hne. { intros ->. destruct Hj as [_ Hj%used_type]. done. }
  apply (rooted_up _ _ q); [by apply (live_other i s s')|done|by rewrite (on_other _ _ _ O)|done].
Qed.

Lemma add_twf :
  twf s → (length (name (node s' i)) ≤ 23)%nat →
  (type (node s' i) = VFS_NODE_FILE → 0 ≤ content_len (node s' i) ≤ 199) → twf s'.
Proof.
  intros T Hn Hl. pose proof T as [T1 T2 T3 T4 T5 T6 T7]. pose proof add_not_parent as Hpi.
  assert (∀ q, dir s q → dir s' q) as Hdir.
  { intros q Hq. apply (dir_other i s s'); [done| |done]. intros ->. destruct Hq as [_ ?]. congruence. }
  split.
  - rewrite (on_other _ _ _ O) by lia. done.
  - intros j Hj Hj0. destruct (decide (j = i)) as [->|Hne]; [exists p; by split; [|apply Hdir]|].
    rewrite (on_other _ _ _ O) by done. apply (live_other i s s' j O Hne) in Hj.
    destruct (T2 j Hj Hj0) as (q & ? & ?). exists q. split; [done|by apply Hdir].
  - intros j Hj. destruct (decide (j = i)) as [->|Hne].
    + apply (rooted_up _ _ p); [done|lia|done|]. apply add_rooted; [done|]. by apply T3, dir_live.
    + apply (live_other i s s' j O Hne) in Hj. by apply add_rooted, T3.
  - intros j Hj. destruct (decide (j = i)) as [->|Hne]; [done|].
    rewrite (on_other _ _ _ O) by done. by apply T4, (live_other i s s' j O Hne).
  - intros j Hj. destruct (decide (j = i)) as [->|Hne]; [done|].
    rewrite (on_other _ _ _ O) by done. by apply T5, (live_other i s s' j O Hne).
  - rewrite (on_cwd _ _ _ O). destruct T6 as [?|(c & ? & ?)]; [by left|right]. exists c. split; [done|by apply Hdir].
  - by rewrite (on_path _ _ _ O).
Qed.

Lemma add_distinct :
  distinct_names s → find_child (Z.of_nat p) (name (node s' i)) s = None → distinct_names s'.
Proof.
  intros Hd Hnone a b Ha Hb. rewrite find_child_None in Hnone.
  assert (∀ x, x ≠ i → live s' x → parent (node s' x) = Z.of_nat p → name (node s' x) ≠ name (node s' i)) as Hx.
  { intros x Hx Hlx. rewrite (on_other _ _ _ O x Hx). apply Hnone. by apply (live_other i s s' x O Hx). }
  destruct (decide (a = i)) as [->|Hai], (decide (b = i)) as [->|Hbi]; [done|..].
  - rewrite Hpar. intros Hpb Hnb. by destruct (Hx b Hbi Hb).
  - rewrite Hpar. intros Hpa Hna. by destruct (Hx a Hai Ha).
  - rewrite !(on_other _ _ _ O) by done. apply Hd; by apply (live_other i s s').
Qed.
End add.

(** A node without entries is freed. *)
Lemma del_rooted i s s' j :
  one_node i s s' → i ≠ 0%nat → (∀ k, live s k → parent (node s k) ≠ Z.of_nat i) → rooted s j → j ≠ i → rooted s' j.
Proof.
  intros O Hi0 Hleaf. induction 1 as [|j q Hj Hj0 Hq _ IH]; intros Hne; [constructor|].
  apply (rooted_up _ _ q); [by apply (live_other i s s')|done|by rewrite (on_other _ _ _ O)|].
  apply IH. intros ->. by apply (Hleaf j).
Qed.

Lemma del_twf i s s' :
  twf s → one_node i s s' → i ≠ 0%nat → type (node s' i) = VFS_NODE_FREE →
  (∀ j, live s j → parent (node s j) ≠ Z.of_nat i) → g_cwd s ≠ Z.of_nat i → twf s'.
Proof.
  intros [T1 T2 T3 T4 T5 T6 T7] O Hi0 Hty Hleaf Hcwd.
  assert (∀ j, live s' j → j ≠ i ∧ live s j) as Hlive.
  { intros j Hj. destruct (decide (j = i)) as [->|Hne]; [|split; [done|by apply (live_other i s s')]].
    destruct Hj as [_ Hj%used_type]. done. }
  split.
  - by rewrite (on_other _ _ _ O).
  - intros j [Hne Hj]%Hlive Hj0. rewrite (on_other _ _ _ O) by done. destruct (T2 j Hj Hj0) as (q & Hq & Hd).
    exists q. split; [done|]. apply (dir_other i s s'); [done| |done]. intros ->. by apply (Hleaf j).
  - intros j [Hne Hj]%Hlive. apply (del_rooted i s); try done. by apply T3.
  - intros j [Hne Hj]%Hlive. rewrite (on_other _ _ _ O) by done. by apply T4.
  - intros j [Hne Hj]%Hlive. rewrite (on_other _ _ _ O) by done. by apply T5.
  - rewrite (on_cwd _ _ _ O). destruct T6 as [?|(c & Hc & Hd)]; [by left|right]. exists c. split; [done|].
    apply (dir_other i s s'); [done| |done]. intros ->. done.
  - by rewrite (on_path _ _ _ O).
Qed.

Lemma del_distinct i s s' :
  one_node i s s' → type (node s' i) = VFS_NODE_FREE → distinct_names s → distinct_names s'.
Proof.
  intros O Hty Hd a b Ha Hb.
  assert (∀ j, live s' j → j ≠ i ∧ live s j) as Hlive.
  { intros j Hj. destruct (decide (j = i)) as [->|Hne]; [|split; [done|by apply (live_other i s s')]].
    destruct Hj as [_ Hj%used_type]. done. }
  apply Hlive in Ha as [Hai Ha], Hb as [Hbi Hb]. rewrite !(on_other _ _ _ O) by done. by apply Hd.
Qed.

(** A node keeps its type and its parent. *)
Lemma upd_live i s s' j : one_node i s s' → type (node s' i) = type (node s i) → live s' j ↔ live s j.
Proof.
  intros O Hty. destruct (decide (j = i)) as [->|Hne]; [|by apply (live_other i s s')].
  unfold live. by rewrite !used_type, Hty.
Qed.

Lemma upd_dir i s s' j : one_node i s s' → type (node s' i) = type (node s i) → dir s' j ↔ dir s j.
Proof.
  intros O Hty. destruct (decide (j = i)) as [->|Hne]; [|by apply (dir_other i s s')]. unfold dir. by rewrite Hty.
Qed.

Lemma upd_parent i s s' j :
  one_node i s s' → parent (node s' i) = parent (node s i) → parent (node s' j) = parent (node s j).
Proof. intros O Hp. destruct (decide (j = i)) as [->|Hne]; [done|by rewrite (on_other _ _ _ O)]. Qed.

Lemma upd_twf i s s' :
  twf s → one_node i s s' → type (node s' i) = type (node s i) → parent (node s' i) = parent (node s i) →
  (length (name (node s' i)) ≤ 23)%nat →
  (type (node s' i) = VFS_NODE_FILE → 0 ≤ content_len (node s' i) ≤ 199) → twf s'.
Proof.
  intros [T1 T2 T3 T4 T5 T6 T7] O Hty Hpar Hn Hl.
  pose proof (λ j, upd_live i s s' j O Hty) as Hlive. pose proof (λ j, upd_dir i s s' j O Hty) as Hdir.
  pose proof (λ j, upd_parent i s s' j O Hpar) as Hp.
  split.
  - rewrite Hp. destruct (decide (0 = i)%nat) as [<-|Hne]; [by rewrite Hty|by rewrite (on_other _ _ _ O)].
  - intros j Hj%Hlive Hj0. rewrite Hp. destruct (T2 j Hj Hj0) as (q & ? & ?). exists q. by rewrite Hdir.
  - intros j Hj%Hlive. specialize (T3 j Hj). clear Hj. induction T3 as [|j q Hj Hj0 Hq _ IH]; [constructor|].
    apply (rooted_up _ _ q); [by apply Hlive|done|by rewrite Hp|done].
  - intros j Hj%Hlive. destruct (decide (j = i)) as [->|Hne]; [done|]. rewrite (on_other _ _ _ O) by done. by apply T4.
  - intros j Hj%Hlive. destruct (decide (j = i)) as [->|Hne]; [done|]. rewrite (on_other _ _ _ O) by done. by apply T5.
  - rewrite (on_cwd _ _ _ O). destruct T6 as [?|(c & ? & ?)]; [by left|right]. exists c. by rewrite Hdir.
  - by rewrite (on_path _ _ _ O).
Qed.

(** Renaming and moving keep names distinct when the target name is new. *)
Lemma rename_distinct i p s s' :
  distinct_names s → one_node i s s' → type (node s' i) = type (node s i) → live s i →
  parent (node s' i) = p → (find_child p (name (node s' i)) s = None ∨
    (parent (node s i) = p ∧ name (node s' i) = name (node s i))) → distinct_names s'.
Proof.
  intros Hd O Hty Hi Hpar Hnone a b Ha Hb.
  apply (upd_live i s s' _ O Hty) in Ha, Hb.
  assert (∀ x, x ≠ i → live s x → parent (node s x) = p → name (node s x) ≠ name (node s' i)) as Hx.
  { intros x Hx Hlx Hpx Hnx. destruct Hnone as [Hnone|[Hp Hn]].
    - rewrite find_child_None in Hnone. by apply (Hnone x).
    - apply Hx, Hd; congruence. }
  destruct (decide (a = i)) as [->|Hai], (decide (b = i)) as [->|Hbi]; [done|..].
  - rewrite Hpar, (on_other _ _ _ O b) by done. intros Hpb Hnb. by destruct (Hx b Hbi Hb).
  - rewrite Hpar, (on_other _ _ _ O a) by done. intros Hpa Hna. by destruct (Hx a Hai Ha).
  - rewrite !(on_other _ _ _ O) by done. by apply Hd.
Qed.

(** ** Ancestors *)

(** [a] is [i] or an ancestor of it. *)
Inductive on_way s (a : nat) : nat → Prop :=
| on_way_here : on_way s a a
| on_way_up i p : live s i → i ≠ 0%nat → parent (node s i) = Z.of_nat p → on_way s a p → on_way s a i.

(** A node moves to directory [p], which is not below it. *)
Lemma move_twf i p s s' :
  twf s → one_node i s s' → i ≠ 0%nat → live s i → type (node s' i) = type (node s i) →
  parent (node s' i) = Z.of_nat p → dir s p → ¬ on_way s i p → (length (name (node s' i)) ≤ 23)%nat →
  content_len (node s' i) = content_len (node s i) → twf s'.
Proof.
  intros [T1 T2 T3 T4 T5 T6 T7] O Hi0 Hi Hty Hpar Hp Hway Hn Hlen.
  pose proof (λ j, upd_live i s s' j O Hty) as Hlive. pose proof (λ j, upd_dir i s s' j O Hty) as Hdir.
  (* the old way from [p] up avoids [i] *)
  assert (∀ j, rooted s j → ¬ on_way s i j → rooted s' j) as Havoid.
  { induction 1 as [|j q Hj Hj0 Hq _ IH]; intros Hno; [constructor|].
    assert (j ≠ i) by (intros ->; apply Hno; constructor).
    apply (rooted_up _ _ q); [by apply Hlive|done|by rewrite (on_other _ _ _ O)|].
    apply IH. intros Hq'. apply Hno. by apply (on_way_up _ _ j q). }
  assert (rooted s' p) as Hrp by (apply Havoid; [by apply T3, dir_live|done]).
  split.
  - rewrite (on_other _ _ _ O) by done. done.
  - intros j Hj%Hlive Hj0. destruct (decide (j = i)) as [->|Hne]; [exists p; by rewrite Hdir|].
    rewrite (on_other _ _ _ O) by done. destruct (T2 j Hj Hj0) as (q & ? & ?). exists q. by rewrite Hdir.
  - intros j Hj%Hlive. specialize (T3 j Hj). clear Hj. induction T3 as [|j q Hj Hj0 Hq _ IH]; [constructor|].
    destruct (decide (j = i)) as [->|Hne]; [apply (rooted_up _ _ p); [by apply Hlive|done..]|].
    apply (rooted_up _ _ q); [by apply Hlive|done|by rewrite (on_other _ _ _ O)|done].
  - intros j Hj%Hlive. destruct (decide (j = i)) as [->|Hne]; [done|]. rewrite (on_other _ _ _ O) by done. by apply T4.
  - intros j Hj%Hlive. destruct (decide (j = i)) as [->|Hne].
    + rewrite Hty, Hlen. by apply T5.
    + rewrite (on_other _ _ _ O) by done. by apply T5.
  - rewrite (on_cwd _ _ _ O). destruct T6 as [?|(c & ? & ?)]; [by left|right]. exists c. by rewrite Hdir.
  - by rewrite (on_path _ _ _ O).
Qed.

(** An entry of a directory is not that directory. *)
Lemma child_not_self s i : twf s → live s i → i ≠ 0%nat → parent (node s i) ≠ Z.of_nat i.
Proof.
  intros T Hi. pose proof (t_rooted _ T i Hi) as Hr. induction Hr as [|i p Hl Hi0 Hp Hr IH]; [done|].
  intros _ Heq. assert (p = i) as -> by lia. by apply IH.
Qed.

(** ** The operations keep the invariant *)

Record fwf s : Prop := { f_tree : twf s; f_names : distinct_names s }.

(** The same nodes, another current directory. *)
Lemma relocate_fwf s s' :
  fwf s → g_nodes s' = g_nodes s → (g_cwd s' = -1 ∨ ∃ c, g_cwd s' = Z.of_nat c ∧ dir s c) →
  (length (g_cwd_path s') ≤ 255)%nat → head (g_cwd_path s') = Some SLASH → fwf s'.
Proof.
  intros [[T1 T2 T3 T4 T5 T6 T7] Hd] En Hc Hl Hh.
  assert (∀ j, node s' j = node s j) as Hnode by (intros j; unfold node; by rewrite En).
  assert (∀ j, live s' j ↔ live s j) as Hlive by (intros j; unfold live, used_node; by rewrite Hnode).
  assert (∀ j, dir s' j ↔ dir s j) as Hdir by (intros j; unfold dir; by rewrite Hnode).
  split; [split|].
  - by rewrite Hnode.
  - intros i Hi%Hlive Hi0. rewrite Hnode. destruct (T2 i Hi Hi0) as (p & ? & ?). exists p. by rewrite Hdir.
  - intros i Hi%Hlive. specialize (T3 i Hi). clear Hi. induction T3 as [|i p Hi Hi0 Hp _ IH]; [constructor|].
    apply (rooted_up _ _ p); [by apply Hlive|done|by rewrite Hnode|done].
  - intros i Hi%Hlive. rewrite Hnode. by apply T4.
  - intros i Hi%Hlive. rewrite Hnode. by apply T5.
  - destruct Hc as [?|(c & ? & ?)]; [by left|right]. exists c. by rewrite Hdir.
  - done.
  - intros i j Hi%Hlive Hj%Hlive. rewrite !Hnode. by apply Hd.
Qed.

(** Everything but the nodes and the current directory is irrelevant. *)
Lemma frame_fwf s s' :
  fwf s → g_nodes s' = g_nodes s → g_cwd s' = g_cwd s → g_cwd_path s' = g_cwd_path s → fwf s'.
Proof.
  intros W En Ec Ep. destruct (t_path _ (f_tree _ W)) as [Hl Hh].
  apply (relocate_fwf s); [done|done| |by rewrite Ep..]. rewrite Ec. apply (t_cwd _ (f_tree _ W)).
Qed.

Lemma copy_name nm : (length nm ≤ 23)%nat → copy_truncate nm VFS_NAME_LEN = nm.
Proof. intros Hn. apply take_ge. exact Hn. Qed.

Lemma copy_name_short nm : (length (copy_truncate nm VFS_NAME_LEN) ≤ 23)%nat.
Proof. unfold copy_truncate, str_trunc. rewrite length_take. change (Z.to_nat (VFS_NAME_LEN - 1)) with 23%nat. lia. Qed.

Lemma node_make i ty par nm s :
  node (make_node i ty par nm s) i =
  mkNode ty (copy_truncate nm VFS_NAME_LEN) par (content (node s i)) (content_len (node s i)).
Proof. unfold make_node. by rewrite node_set. Qed.

(** A new entry in directory [p]: [make_node], then the stores [g] to the same
    node. *)
Lemma make_fwf i p ty nm s s' :
  fwf s → find_free_node s = Some i → dir s p → (length nm ≤ 23)%nat → find_child (Z.of_nat p) nm s = None →
  one_node i s s' → type (node s' i) = ty → ty ≠ VFS_NODE_FREE → parent (node s' i) = Z.of_nat p →
  name (node s' i) = nm → (ty = VFS_NODE_FILE → 0 ≤ content_len (node s' i) ≤ 199) → fwf s'.
Proof.
  intros [T Hd] [Hi Hfree]%find_free_Some Hp Hn Hnone O Hty Hne Hpar Hnm Hl. subst ty. split.
  - apply (add_twf i p s s' O Hi Hfree Hp Hpar T); [by rewrite Hnm|exact Hl].
  - rewrite <- Hnm in Hnone. exact (add_distinct i p s s' O Hpar Hd Hnone).
Qed.

Lemma make_dir_fwf i p nm s :
  fwf s → find_free_node s = Some i → dir s p → (length nm ≤ 23)%nat → find_child (Z.of_nat p) nm s = None →
  fwf (make_node i VFS_NODE_DIR (Z.of_nat p) nm s).
Proof.
  intros W Hf Hp Hn Hnone. apply (make_fwf i p VFS_NODE_DIR nm s _ W Hf Hp Hn Hnone (one_node_set _ _ _));
    rewrite ?node_set; try done. by apply copy_name.
Qed.

Lemma make_file_fwf i p nm s g :
  fwf s → find_free_node s = Some i → dir s p → (length nm ≤ 23)%nat → find_child (Z.of_nat p) nm s = None →
  (∀ n, type (g n) = type n ∧ parent (g n) = parent n ∧ name (g n) = name n ∧ 0 ≤ content_len (g n) ≤ 199) →
  fwf (set_node i g (make_node i VFS_NODE_FILE (Z.of_nat p) nm s)).
Proof.
  intros W Hf Hp Hn Hnone Hg. pose proof (node_make i VFS_NODE_FILE (Z.of_nat p) nm s) as E1.
  pose proof (one_node_set i (λ n, n <| type := VFS_NODE_FILE |> <| parent := Z.of_nat p |>
    <| name := copy_truncate nm VFS_NAME_LEN |>) s) as O1. fold (make_node i VFS_NODE_FILE (Z.of_nat p) nm s) in O1.
  set (s1 := make_node i VFS_NODE_FILE (Z.of_nat p) nm s) in *. clearbody s1.
  destruct (Hg (node s1 i)) as (G1 & G2 & G3 & G4). rewrite E1 in G1, G2, G3. cbn in G1, G2, G3.
  apply (make_fwf i p VFS_NODE_FILE nm s _ W Hf Hp Hn Hnone (one_node_trans _ _ _ _ O1 (one_node_set i g s1)));
    rewrite ?node_set, ?E1; try done.
  - rewrite G3. by apply copy_name.
  - intros _. by rewrite <- E1.
Qed.

(** The content of a file changes. *)
Lemma content_fwf i g s :
  fwf s → live s i →
  (type (g (node s i)) = type (node s i) ∧ parent (g (node s i)) = parent (node s i) ∧
   name (g (node s i)) = name (node s i) ∧ 0 ≤ content_len (g (node s i)) ≤ 199) →
  fwf (set_node i g s).
Proof.
  intros [T Hd] Hi (G1 & G2 & G3 & G4). pose proof (one_node_set i g s) as O.
  assert (node (set_node i g s) i = g (node s i)) as E1 by apply node_set. split.
  - apply (upd_twf i s _ T O); rewrite E1; [done|done|rewrite G3; by apply T|done].
  - apply (rename_distinct i (parent (node s i)) s _ Hd O); rewrite ?E1; try done. right. by rewrite G3.
Qed.

Lemma cwd_dir s : fwf s → 0 ≤ g_cwd s → ∃ c, g_cwd s = Z.of_nat c ∧ dir s c.
Proof. intros [T _] Hc. destruct (t_cwd _ T) as [?|?]; [lia|done]. Qed.

Lemma free_fwf i s :
  fwf s → live s i → i ≠ 0%nat → (∀ j, live s j → parent (node s j) ≠ Z.of_nat i) → g_cwd s ≠ Z.of_nat i →
  fwf (free_node i s).
Proof.
  intros [T Hd] Hi Hi0 Hleaf Hc. pose proof (one_node_set i (λ n, n <| type := VFS_NODE_FREE |>) s) as O.
  split.
  - apply (del_twf i s); try done. unfold free_node. by rewrite node_set.
  - apply (del_distinct i s); try done. unfold free_node. by rewrite node_set.
Qed.

(** A file has no entries. *)
Lemma file_leaf s i j : twf s → live s j → type (node s i) = VFS_NODE_FILE → parent (node s j) ≠ Z.of_nat i.
Proof.
  intros T Hj Hf Hp. destruct (decide (j = 0%nat)) as [->|Hj0].
  - destruct (t_root _ T) as [_ Hr]. lia.
  - destruct (t_parent _ T j Hj Hj0) as (q & Hq & [_ Hd]). assert (q = i) as -> by lia. congruence.
Qed.

(** The test of the removing operations: a directory without entries or a
    file. *)
Lemma removable s i : twf s → live s i → is_dir s i && has_children (Z.of_nat i) s = false →
  ∀ j, live s j → parent (node s j) ≠ Z.of_nat i.
Proof.
  intros T [Hi Hu] Hc j Hj. apply used_type in Hu. apply andb_false_iff in Hc as [Hc|Hc].
  - apply file_leaf; try done. unfold is_dir in Hc. apply bool_decide_eq_false in Hc.
    by destruct (type (node s i)).
  - by apply (proj1 (has_children_false _ _) Hc).
Qed.

(** An entry of the current directory is neither it nor the root. *)
Lemma cwd_child s i :
  twf s → 0 ≤ g_cwd s → live s i → parent (node s i) = g_cwd s → i ≠ 0%nat ∧ g_cwd s ≠ Z.of_nat i.
Proof.
  intros T Hc Hi Hp. assert (i ≠ 0%nat) as Hi0 by (intros ->; destruct (t_root _ T) as [_ Hr]; lia).
  split; [done|]. rewrite <- Hp. by apply child_not_self.
Qed.

Ltac env_step W := intros [= <- <-]; by apply (frame_fwf _ _ W).

Lemma mkdir_fwf nm s r s' :
  fwf s → (length nm ≤ 23)%nat → vfs_mkdir uninit nm s = Some (r, s') → fwf s'.
Proof.
  intros W Hn. unfold vfs_mkdir. destruct (path_join (g_cwd_path s) nm) as [cand|]; [|done].
  destruct (fat_write_path uninit cand s) as [rel|].
  { destruct (fat32_mkdir rel (env s)) as [ok e]. env_step W. }
  destruct (Z.ltb_spec (g_cwd s) 0) as [|Hc]; cbn [orb]; [by intros [= <- <-]|].
  case_bool_decide as Hnil; cbn [orb]; [by intros [= <- <-]|].
  case_bool_decide as Hex; [by intros [= <- <-]|]. rewrite <- eq_None_not_Some in Hex.
  destruct (find_free_node s) as [i|] eqn:Hf; [|by intros [= <- <-]]. intros [= <- <-].
  destruct (cwd_dir s W Hc) as (c & Hcc & Hd). rewrite Hcc in *. by apply make_dir_fwf.
Qed.

Lemma touch_fwf nm s r s' :
  fwf s → (length nm ≤ 23)%nat → vfs_touch uninit nm s = Some (r, s') → fwf s'.
Proof.
  intros W Hn. unfold vfs_touch. destruct (path_join (g_cwd_path s) nm) as [cand|]; [|done].
  destruct (fat_write_path uninit cand s) as [rel|].
  { destruct (fat32_write_file rel [] (env s)) as [ok e]. env_step W. }
  destruct (Z.ltb_spec (g_cwd s) 0) as [|Hc]; cbn [orb]; [by intros [= <- <-]|].
  case_bool_decide as Hnil; cbn [orb]; [by intros [= <- <-]|].
  case_bool_decide as Hex; [by intros [= <- <-]|]. rewrite <- eq_None_not_Some in Hex.
  destruct (find_free_node s) as [i|] eqn:Hf; [|by intros [= <- <-]]. intros [= <- <-].
  destruct (cwd_dir s W Hc) as (c & Hcc & Hd). rewrite Hcc in *. apply make_file_fwf; try done.
Qed.

Lemma rm_fwf nm s r s' : fwf s → vfs_rm nm s = (r, s') → fwf s'.
Proof.
  intros W. unfold vfs_rm. destruct (Z.ltb_spec (g_cwd s) 0) as [|Hc]; cbn [orb]; [by intros [= <- <-]|].
  destruct (protected nm s); [by intros [= <- <-]|].
  destruct (find_child (g_cwd s) nm s) as [i|] eqn:Hf; [|by intros [= <- <-]].
  apply find_child_Some in Hf as (Hi & Hp & _).
  destruct (is_dir s i && has_children (Z.of_nat i) s) eqn:Hch; intros [= <- <-]; [done|].
  destruct (cwd_child s i (f_tree _ W) Hc Hi Hp) as [Hi0 Hcw].
  apply free_fwf; try done. by apply removable; [apply W|..].
Qed.

Lemma rmdir_fwf nm s r s' : fwf s → vfs_rmdir nm s = (r, s') → fwf s'.
Proof.
  intros W. unfold vfs_rmdir. destruct (Z.ltb_spec (g_cwd s) 0) as [|Hc]; cbn [orb]; [by intros [= <- <-]|].
  destruct (protected nm s); [by intros [= <- <-]|].
  destruct (find_child (g_cwd s) nm s) as [i|] eqn:Hf; [|by intros [= <- <-]].
  apply find_child_Some in Hf as (Hi & Hp & _).
  destruct (is_dir s i); cbn [negb orb]; [|by intros [= <- <-]].
  destruct (has_children (Z.of_nat i) s) eqn:Hch; intros [= <- <-]; [done|].
  destruct (cwd_child s i (f_tree _ W) Hc Hi Hp) as [Hi0 Hcw].
  apply free_fwf; try done. by apply has_children_false.
Qed.

(** ** Changing directory *)

Lemma walk_dirs_dir fuel part par s i : dir s par → walk_dirs fuel part par s = Some i → dir s i.
Proof.
  revert part par. induction fuel as [|fuel IH]; intros part par Hp; cbn [walk_dirs]; [by intros [= <-]|].
  destruct part as [|x part]; [by intros [= <-]|]. destruct (span SLASH (x :: part)) as [comp rest].
  destruct (find_child (Z.of_nat par) comp s) as [nx|] eqn:Hf; [|done].
  apply find_child_Some in Hf as ([Hlt _] & _).
  destruct (is_dir s nx) eqn:Hd; cbn [negb]; [|done]. apply is_dir_true in Hd.
  destruct rest as [|y rest]; [intros [= <-]; by split|]. apply IH. by split.
Qed.

Lemma cd_fwf nm s r s' :
  fwf s → nm ≠ lit ".." → vfs_cd uninit nm s = Some (r, s') → fwf s'.
Proof.
  intros W Hup. unfold vfs_cd. destruct (str_eqb nm (lit ".")); [by intros [= <- <-]|].
  assert (str_eqb nm (lit "..") = false) as -> by (apply not_true_iff_false; by intros ?%str_eqb_true).
  pose proof (t_path _ (f_tree _ W)) as [Hpl Hph].
  destruct (path_join (g_cwd_path s) nm) as [cand|] eqn:Hj; [|done].
  destruct (path_join_spec _ _ _ Hj) as [Hcl Hch]. specialize (Hch Hph).
  assert (path_copy cand = cand) as -> by (apply take_ge; exact Hcl).
  destruct (path_is_mount uninit cand s) as [ri mp]. destruct (negb (ri =? 0) && fat32_is_mounted (env s)).
  { destruct (fat_relative cand mp) as [rel|]; [|by intros [= <- <-]].
    destruct (negb (fat32_is_directory rel (env s))); intros [= <- <-]; [done|].
    apply (relocate_fwf s); try done. by left. }
  destruct (if bool_decide _ then _ else _) as [i|] eqn:Hi; intros [= <- <-]; [|done].
  apply (relocate_fwf s); try done. right. exists i. split; [done|]. revert Hi.
  case_bool_decide; [apply walk_dirs_dir, root_live, W|].
  destruct (find_child _ nm s) as [j|] eqn:Hf; [|done]. apply find_child_Some in Hf as ([Hlt _] & _).
  destruct (is_dir s j) eqn:Hd; [|done]. apply is_dir_true in Hd. intros [= <-]. by split.
Qed.

Lemma parent_len_pos path n : (0 < n)%nat → (0 < parent_len path n ≤ n)%nat.
Proof.
  induction n as [|n IH]; [lia|]. intros _. destruct n as [|n]; [cbn; lia|].
  change (parent_len path (S (S n))) with (if bool_decide (path !! S n = Some SLASH) then S n else parent_len path (S n)).
  case_bool_decide; [lia|]. specialize (IH ltac:(lia)). lia.
Qed.

(** [cd ..] keeps the invariant when the node found for the shortened path is
    a directory, which the code does not check. *)
Lemma cd_up_fwf s r s' :
  fwf s → cd_up s = (r, s') → (∀ i, g_cwd s' = Z.of_nat i → dir s i) → fwf s'.
Proof.
  intros W. unfold cd_up. destruct (g_cwd s =? 0); [by intros [= <- <-]|].
  pose proof (t_path _ (f_tree _ W)) as [Hpl Hph]. rewrite bool_decide_true by done. cbn [negb].
  set (path := take _ (g_cwd_path s)).
  assert ((length path ≤ 255)%nat ∧ head path = Some SLASH) as [Hl Hh].
  { unfold path. destruct (g_cwd_path s) as [|x q]; [done|]. cbn in Hph. injection Hph as ->.
    destruct (parent_len_pos (SLASH :: q) (length (SLASH :: q))) as [H0 H1]; [cbn; lia|].
    rewrite length_take. split; [lia|]. destruct (parent_len _ _); [lia|done]. }
  rewrite bool_decide_false by (intros ->; done).
  destruct (if str_eqb path (lit "/") then _ else _) as [i|]; intros [= <- <-] Hd.
  - apply (relocate_fwf s); try done. right. exists i. split; [done|]. by apply Hd.
  - apply (relocate_fwf s); try done. apply (t_cwd _ (f_tree _ W)).
Qed.

(** ** File contents *)

Lemma trunc_content str : (length (copy_truncate str VFS_CONTENT_LEN) ≤ 199)%nat.
Proof. unfold copy_truncate, str_trunc. rewrite length_take. change (Z.to_nat (VFS_CONTENT_LEN - 1)) with 199%nat. lia. Qed.

(** Storing a string in a file that is there or is made for it. *)
Lemma open_set_fwf p nm str s rc idx s1 :
  fwf s → dir s p → (length nm ≤ 23)%nat → open_node (Z.of_nat p) nm (λ _ s, s) s = (rc, s1) →
  (∀ r, rc = inl r → s1 = s) ∧ (rc = inr idx → fwf (set_content idx str s1)).
Proof.
  intros W Hp Hn. unfold open_node. destruct (find_child (Z.of_nat p) nm s) as [i|] eqn:Hf.
  - destruct (is_file s i) eqn:Hfile; cbn [negb]; intros [= <- <-]; [|done]. split; [done|]. intros [= ->].
    apply find_child_Some in Hf as (Hi & _). apply content_fwf; try done. cbn.
    pose proof (trunc_content str). split_and!; try done; lia.
  - destruct (find_free_node s) as [i|] eqn:Hfr; intros [= <- <-]; [|done]. split; [done|]. intros [= ->].
    apply make_file_fwf; try done. intros n. cbn. pose proof (trunc_content str). split_and!; try done; lia.
Qed.

Lemma write_fwf nm text s r s' :
  fwf s → (length nm ≤ 23)%nat → vfs_write uninit nm text s = Some (r, s') → fwf s'.
Proof.
  intros W Hn. unfold vfs_write. destruct (path_join (g_cwd_path s) nm) as [cand|]; [|done].
  destruct (fat_write_path uninit cand s) as [rel|].
  { destruct text as [text|]; [|by intros [= <- <-]].
    destruct (fat32_write_file rel text (env s)) as [ok e]. env_step W. }
  destruct (Z.ltb_spec (g_cwd s) 0) as [|Hc]; [by intros [= <- <-]|].
  destruct (cwd_dir s W Hc) as (c & Hcc & Hd). rewrite Hcc.
  destruct (open_node (Z.of_nat c) nm (λ _ s, s) s) as [[rc|idx] s1] eqn:Ho.
  - intros [= <- <-]. destruct (open_set_fwf c nm [] s (inl rc) 0 s1 W Hd Hn Ho) as [He _]. by rewrite (He rc).
  - destruct text as [text|]; [|done]. cbn. intros [= <- <-].
    by apply (open_set_fwf c nm text s (inr idx) idx s1 W Hd Hn Ho).
Qed.

(** The file an appending call works on. *)
Lemma open_clear_fwf p nm s rc s1 :
  fwf s → dir s p → (length nm ≤ 23)%nat → open_node (Z.of_nat p) nm clear_content s = (rc, s1) →
  fwf s1 ∧ ∀ idx, rc = inr idx → live s1 idx ∧ type (node s1 idx) = VFS_NODE_FILE.
Proof.
  intros W Hp Hn. unfold open_node. destruct (find_child (Z.of_nat p) nm s) as [i|] eqn:Hf.
  - destruct (is_file s i) eqn:Hfile; cbn [negb]; intros [= <- <-]; [|done]. split; [done|]. intros ? [= <-].
    apply find_child_Some in Hf as (Hi & _). split; [done|by apply is_file_true].
  - destruct (find_free_node s) as [i|] eqn:Hfr; intros [= <- <-]; [|done].
    assert (type (node (clear_content i (make_node i VFS_NODE_FILE (Z.of_nat p) nm s)) i) = VFS_NODE_FILE) as Hty.
    { unfold clear_content. rewrite node_set, node_make. done. }
    split; [by apply make_file_fwf|]. intros ? [= <-]. split; [|done]. apply find_free_Some in Hfr as [Hi _].
    split; [lia|]. apply used_type. by rewrite Hty.
Qed.

Lemma append_fwf nm text s r s' : fwf s → (length nm ≤ 23)%nat → vfs_append nm text s = (r, s') → fwf s'.
Proof.
  intros W Hn. unfold vfs_append. destruct (Z.ltb_spec (g_cwd s) 0) as [|Hc]; [by intros [= <- <-]|].
  destruct (cwd_dir s W Hc) as (c & Hcc & Hd). rewrite Hcc.
  destruct (open_node (Z.of_nat c) nm clear_content s) as [[rc|idx] s1] eqn:Ho;
    destruct (open_clear_fwf c nm s _ s1 W Hd Hn Ho) as [W1 Hf]; [by intros [= <- <-]|].
  intros [= <- <-]. destruct (Hf idx eq_refl) as [Hl Hty]. pose proof (t_len _ (f_tree _ W1) idx Hl Hty) as Hlen.
  apply content_fwf; try done. cbn. rewrite length_take. unfold VFS_CONTENT_LEN. split_and!; try done; lia.
Qed.

Lemma cp_fwf src dst s r s' : fwf s → (length dst ≤ 23)%nat → vfs_cp src dst s = (r, s') → fwf s'.
Proof.
  intros W Hn. unfold vfs_cp. destruct (Z.ltb_spec (g_cwd s) 0) as [|Hc]; [by intros [= <- <-]|].
  destruct (find_child (g_cwd s) src s) as [si|] eqn:Hs; [|by intros [= <- <-]].
  destruct (is_file s si) eqn:Hfile; cbn [negb orb]; [|by intros [= <- <-]].
  case_bool_decide as Hex; [by intros [= <- <-]|]. rewrite <- eq_None_not_Some in Hex.
  destruct (find_free_node s) as [i|] eqn:Hfr; [|by intros [= <- <-]]. intros [= <- <-].
  destruct (cwd_dir s W Hc) as (c & Hcc & Hd). rewrite Hcc in *. apply find_child_Some in Hs as (Hsl & _).
  apply is_file_true in Hfile. pose proof (t_len _ (f_tree _ W) si Hsl Hfile) as Hlen.
  assert (si ≠ i) as Hne. { intros ->. apply find_free_Some in Hfr as [_ ?]. congruence. }
  rewrite (proj2 (Nat.eqb_neq si i) Hne). apply make_file_fwf; try done.
Qed.

Lemma mv_fwf src dst s r s' : fwf s → (length dst ≤ 23)%nat → vfs_mv src dst s = (r, s') → fwf s'.
Proof.
  intros W Hn. unfold vfs_mv. destruct (Z.ltb_spec (g_cwd s) 0) as [|Hc]; [by intros [= <- <-]|].
  destruct (find_child (g_cwd s) src s) as [i|] eqn:Hs; [|by intros [= <- <-]].
  case_bool_decide as Hex; [by intros [= <- <-]|]. rewrite <- eq_None_not_Some in Hex. intros [= <- <-].
  apply find_child_Some in Hs as (Hi & Hp & _). destruct W as [T Hd].
  set (g := λ n, n <| name := copy_truncate dst VFS_NAME_LEN |>).
  pose proof (one_node_set i g s) as O. assert (node (set_node i g s) i = g (node s i)) as E1 by apply node_set. split.
  - apply (upd_twf i s _ T O); rewrite E1; [done|done|apply copy_name_short|]. cbn. by apply T.
  - apply (rename_distinct i (g_cwd s) s _ Hd O); rewrite ?E1; try done. left. cbn. rewrite copy_name by done. exact Hex.
Qed.

(** ** Operations on paths *)

(** The three shapes of a normal form. *)
Lemma normal_cases path s abs :
  fwf s → normalize_absolute path s = Some (Some abs) →
  (abs = lit "/" ∧ split_parent abs = None) ∨
  (∃ c, comp_ok c ∧ abs = SLASH :: c ∧ split_parent abs = None) ∨
  (∃ cs c, cs ≠ [] ∧ Forall comp_ok (cs ++ [c]) ∧ abs = render_root (cs ++ [c]) ∧
           split_parent abs = Some (render_root cs, c)).
Proof.
  intros W Hn. destruct path as [path|]; [|done].
  destruct (normalize_Some path s abs (proj2 (t_path _ (f_tree _ W))) Hn) as (p & cs & _ & _ & -> & Hok & _ & _).
  destruct cs as [|c cs _] using rev_ind; [by left|]. right.
  pose proof Hok as [Hcs Hc]%Forall_app. rewrite Forall_singleton in Hc. destruct cs as [|c0 cs].
  - left. exists c. split; [exact Hc|]. split; [cbn; by rewrite app_nil_r|]. by apply split_parent_one.
  - right. exists (c0 :: cs), c. split_and!; try done. by apply split_parent_snoc.
Qed.

Lemma resolve_walk_live fuel p par s i : live s par → resolve_walk fuel p par s = Some i → live s i.
Proof.
  revert p par. induction fuel as [|fuel IH]; intros p par Hp; cbn [resolve_walk]; [by intros [= <-]|].
  destruct p as [|x p]; [by intros [= <-]|]. destruct (span SLASH (x :: p)) as [seg rest].
  destruct (find_child (Z.of_nat par) _ s) as [j|] eqn:Hf; [|done]. apply IH. by apply find_child_Some in Hf as (? & _).
Qed.

Lemma resolve_live abs s i : twf s → resolve_ram_path abs s = Some i → live s i.
Proof.
  intros T. unfold resolve_ram_path. destruct (negb _); [done|].
  destruct (str_eqb abs (lit "/")); [intros [= <-]; by apply dir_live, root_live|].
  apply resolve_walk_live. by apply dir_live, root_live.
Qed.

Lemma resolve_dir_dir par s i : twf s → resolve_dir par s = Some i → dir s i.
Proof.
  intros T. unfold resolve_dir. destruct (resolve_ram_path par s) as [j|] eqn:Hr; [|done].
  destruct (is_dir s j) eqn:Hd; [|done]. intros [= <-]. apply resolve_live in Hr as [? _]; [|done].
  split; [done|by apply is_dir_true].
Qed.

Lemma mkdir_path_fwf path s r s' : fwf s → vfs_mkdir_path uninit path s = Some (r, s') → fwf s'.
Proof.
  intros W. unfold vfs_mkdir_path. destruct (normalize_absolute path s) as [[abs|]|] eqn:Hn; [|by intros [= <- <-]|done].
  destruct (str_eqb abs (lit "/")) eqn:Hroot; [by intros [= <- <-]|].
  destruct (normal_cases path s abs W Hn) as [[-> _]|[(c & Hc & -> & ->)|(cs & c & Hne & Hok & -> & ->)]]; [done| |].
  - apply mkdir_fwf; [done|]. apply Hc.
  - destruct (resolve_dir (render_root cs) s) as [p|] eqn:Hr; [|by intros [= <- <-]].
    case_bool_decide as Hex; [by intros [= <- <-]|]. rewrite <- eq_None_not_Some in Hex.
    destruct (find_free_node s) as [i|] eqn:Hfr; [|by intros [= <- <-]]. intros [= <- <-].
    apply Forall_app in Hok as [_ Hc]. rewrite Forall_singleton in Hc.
    apply make_dir_fwf; try done; [|apply Hc]. by apply (resolve_dir_dir (render_root cs)), Hr; apply W.
Qed.

(** Unlinking keeps the invariant unless it frees the current directory, which
    the code does not check. *)
Lemma unlink_path_fwf path s r s' :
  fwf s → vfs_unlink_path path s = Some (r, s') →
  (∀ abs i, normalize_absolute path s = Some (Some abs) → resolve_ram_path abs s = Some i → g_cwd s ≠ Z.of_nat i) →
  fwf s'.
Proof.
  intros W. unfold vfs_unlink_path. destruct (normalize_absolute path s) as [[abs|]|] eqn:Hn; [|by intros [= <- <-]|done].
  destruct (resolve_ram_path abs s) as [i|] eqn:Hr; [|by intros [= <- <-]].
  destruct (Nat.leb_spec i 2) as [|Hi]; cbn [orb]; [by intros [= <- <-]|].
  destruct (negb (used_node s i)); cbn [orb]; [by intros [= <- <-]|].
  destruct (is_dir s i && has_children (Z.of_nat i) s) eqn:Hch; intros [= <- <-] Hcwd; [done|].
  pose proof (resolve_live abs s i (f_tree _ W) Hr) as Hl.
  apply free_fwf; [done|done|lia| |by apply (Hcwd abs)]. by apply removable; [apply W|..].
Qed.

Lemma write_target_fwf abs path s idx s1 :
  fwf s → normalize_absolute path s = Some (Some abs) → write_target abs s = (idx, s1) →
  fwf s1 ∧ ∀ i, idx = Some i → live s1 i.
Proof.
  intros W Hn. unfold write_target. destruct (resolve_ram_path abs s) as [i|] eqn:Hr.
  { intros [= <- <-]. split; [done|]. intros ? [= <-]. apply (resolve_live abs); [apply W|done]. }
  destruct (normal_cases path s abs W Hn) as [[-> ->]|[(c & Hc & -> & ->)|(cs & c & Hne & Hok & -> & ->)]];
    [by intros [= <- <-]..|].
  destruct (resolve_dir (render_root cs) s) as [p|] eqn:Hd; [|by intros [= <- <-]].
  destruct (find_child (Z.of_nat p) c s) as [i|] eqn:Hf.
  { intros [= <- <-]. split; [done|]. intros ? [= <-]. by apply find_child_Some in Hf as (? & _). }
  destruct (find_free_node s) as [i|] eqn:Hfr; intros [= <- <-]; [|done].
  apply Forall_app in Hok as [_ Hc]. rewrite Forall_singleton in Hc. split.
  - apply make_file_fwf; try done; [|apply Hc]. by apply (resolve_dir_dir (render_root cs)), Hd; apply W.
  - intros ? [= <-]. apply find_free_Some in Hfr as [Hi _]. split; [lia|]. apply used_type.
    unfold clear_content. rewrite node_set, node_make. done.
Qed.

Lemma write_node_fwf i data offset s r n s' :
  fwf s → live s i → 0 ≤ offset → write_node i data offset s = Some (r, n, s') → fwf s'.
Proof.
  intros W Hi Ho. unfold write_node. destruct (is_file s i) eqn:Hf; cbn [negb orb]; [|by intros [= <- <- <-]].
  destruct (offset >=? VFS_CONTENT_LEN); [by intros [= <- <- <-]|]. apply is_file_true in Hf.
  pose proof (t_len _ (f_tree _ W) i Hi Hf) as Hlen. cbv zeta.
  set (size := if Z.of_nat _ >? _ then _ else _). set (len := if offset + size >? _ then _ else _).
  destruct (Z.geb_spec len VFS_CONTENT_LEN) as [|Hl]; [done|]. intros [= <- <- <-].
  apply content_fwf; try done. cbn. split_and!; try done.
  - unfold len. destruct (Z.gtb_spec (offset + size) (content_len (node s i))); lia.
  - unfold VFS_CONTENT_LEN in Hl. lia.
Qed.

Lemma write_path_fwf path data offset s r n s' :
  fwf s → 0 ≤ offset → vfs_write_path uninit path data offset s = Some (r, n, s') → fwf s'.
Proof.
  intros W Ho. unfold vfs_write_path. destruct data as [data|]; [|by intros [= <- <- <-]].
  destruct (normalize_absolute path s) as [[abs|]|] eqn:Hn; [|by intros [= <- <- <-]|done].
  destruct (fat_path uninit abs s) as [rel|].
  - intros [= Hw]. unfold write_fat in Hw. destruct (_ || _) in Hw; [injection Hw as <- <- <-; by apply (frame_fwf s)|].
    destruct (fat32_write_file _ _ _) as [ok e]. destruct ok; injection Hw as <- <- <-; by apply (frame_fwf s).
  - destruct (write_target abs s) as [[i|] s1] eqn:Ht; destruct (write_target_fwf abs path s _ s1 W Hn Ht) as [W1 Hl].
    + apply write_node_fwf; [done|by apply Hl|done].
    + by intros [= <- <- <-].
Qed.

(** Renaming keeps the invariant unless it moves a directory below itself,
    which the code does not check. *)
Lemma rename_path_fwf src dst s r s' :
  fwf s → vfs_rename_path src dst s = Some (r, s') →
  (∀ a b par nm i p, normalize_absolute src s = Some (Some a) → normalize_absolute dst s = Some (Some b) →
     resolve_ram_path a s = Some i → split_parent b = Some (par, nm) → resolve_dir par s = Some p → ¬ on_way s i p) →
  fwf s'.
Proof.
  intros W. unfold vfs_rename_path.
  destruct (normalize_absolute src s) as [[a|]|] eqn:Ha; [|by intros [= <- <-]|done].
  destruct (normalize_absolute dst s) as [[b|]|] eqn:Hb; [|by intros [= <- <-]|done].
  destruct (resolve_ram_path a s) as [i|] eqn:Hi; [|by intros [= <- <-]].
  destruct (Nat.leb_spec i 2) as [|Hi2]; [by intros [= <- <-]|].
  destruct (normal_cases dst s b W Hb) as [[-> Hsp]|[(c & Hc & -> & Hsp)|(cs & c & Hne & Hok & -> & Hsp)]]; rewrite Hsp;
    [by intros [= <- <-]..|].
  destruct (resolve_dir (render_root cs) s) as [p|] eqn:Hr; [|by intros [= <- <-]].
  case_bool_decide as Hex; [by intros [= <- <-]|]. rewrite <- eq_None_not_Some in Hex.
  intros [= <- <-] Hway. specialize (Hway a _ _ _ i p eq_refl eq_refl Hi Hsp Hr).
  pose proof (resolve_live a s i (f_tree _ W) Hi) as Hl. pose proof (resolve_dir_dir _ s p (f_tree _ W) Hr) as Hp.
  apply Forall_app in Hok as [_ Hc]. rewrite Forall_singleton in Hc. destruct Hc as (_ & _ & Hc & _).
  set (g := λ n, n <| parent := Z.of_nat p |> <| name := copy_truncate c VFS_NAME_LEN |>).
  pose proof (one_node_set i g s) as O. assert (node (set_node i g s) i = g (node s i)) as E1 by apply node_set.
  destruct W as [T Hd]. split.
  - apply (move_twf i p s _ T O); rewrite ?E1; try done; [lia|]. apply copy_name_short.
  - apply (rename_distinct i (Z.of_nat p) s _ Hd O); rewrite ?E1; try done. left. cbn. rewrite copy_name by done. exact Hex.
Qed.

(** ** Every history *)

Lemma vfs_init_node s i :
  node (vfs_init s) i =
  match i with
  | 0%nat => mkNode VFS_NODE_DIR (lit "/") (-1) (content (node s 0)) (content_len (node s 0))
  | 1%nat => mkNode VFS_NODE_DIR (lit "mnt") 0 (content (node s 1)) (content_len (node s 1))
  | 2%nat => mkNode VFS_NODE_DIR (lit "disk0") 1 (content (node s 2)) (content_len (node s 2))
  | _ => if (i <? VFS_MAX_NODES)%nat then (node s i) <| type := VFS_NODE_FREE |> else node s i
  end.
Proof. destruct i as [|[|[|i]]]; reflexivity. Qed.

Lemma vfs_init_fwf s : fwf (vfs_init s).
Proof.
  set (t := vfs_init s).
  assert (∀ i, live t i ↔ (i ≤ 2)%nat) as Hlive.
  { intros i. unfold live. rewrite used_type. unfold t. rewrite vfs_init_node. unfold VFS_MAX_NODES.
    destruct i as [|[|[|i]]]; cbn [type]; [split; [lia|split; [lia|done]]..|].
    destruct (Nat.ltb_spec (S (S (S i))) 48); (split; [intros [? ?]; done || lia|lia]). }
  assert (∀ i, (i ≤ 2)%nat → dir t i) as Hdir.
  { intros i Hi. unfold dir, t. rewrite vfs_init_node. unfold VFS_MAX_NODES.
    destruct i as [|[|[|i]]]; [split; [lia|done]..|lia]. }
  assert (rooted t 1%nat) as R1 by (apply (rooted_up _ _ 0); [by apply Hlive; lia|done|done|constructor]).
  split; [split|].
  - done.
  - intros i Hi%Hlive Hi0. destruct i as [|[|[|i]]]; [done| | |lia];
      [exists 0%nat|exists 1%nat]; (split; [done|apply Hdir; lia]).
  - intros i Hi%Hlive. destruct i as [|[|[|i]]]; [constructor|done| |lia].
    apply (rooted_up _ _ 1); [by apply Hlive|done|done|done].
  - intros i Hi%Hlive. unfold t. rewrite vfs_init_node. destruct i as [|[|[|i]]]; [vm_compute; lia..|lia].
  - intros i Hi%Hlive. destruct i as [|[|[|i]]]; [done..|lia].
  - right. exists 0%nat. split; [done|]. apply Hdir. lia.
  - split; [vm_compute; lia|done].
  - intros i j Hi%Hlive Hj%Hlive. destruct i as [|[|[|i]]], j as [|[|[|j]]]; done || lia.
Qed.

(** One operation of the file system; names given to the operations on the
    current directory fit into a node. The guards of [cd ..], [vfs_unlink_path]
    and [vfs_rename_path] are not in the code. *)
Inductive vstep : vfs F → vfs F → Prop :=
| vs_mkdir nm s r s' : (length nm ≤ 23)%nat → vfs_mkdir uninit nm s = Some (r, s') → vstep s s'
| vs_touch nm s r s' : (length nm ≤ 23)%nat → vfs_touch uninit nm s = Some (r, s') → vstep s s'
| vs_rm nm s r s' : vfs_rm nm s = (r, s') → vstep s s'
| vs_rmdir nm s r s' : vfs_rmdir nm s = (r, s') → vstep s s'
| vs_cd nm s r s' : nm ≠ lit ".." → vfs_cd uninit nm s = Some (r, s') → vstep s s'
| vs_cd_up s r s' : vfs_cd uninit (lit "..") s = Some (r, s') → (∀ i, g_cwd s' = Z.of_nat i → dir s i) → vstep s s'
| vs_write nm text s r s' : (length nm ≤ 23)%nat → vfs_write uninit nm text s = Some (r, s') → vstep s s'
| vs_append nm text s r s' : (length nm ≤ 23)%nat → vfs_append nm text s = (r, s') → vstep s s'
| vs_cp src dst s r s' : (length dst ≤ 23)%nat → vfs_cp src dst s = (r, s') → vstep s s'
| vs_mv src dst s r s' : (length dst ≤ 23)%nat → vfs_mv src dst s = (r, s') → vstep s s'
| vs_mkdir_path path s r s' : vfs_mkdir_path uninit path s = Some (r, s') → vstep s s'
| vs_write_path path data offset s r n s' :
    0 ≤ offset → vfs_write_path uninit path data offset s = Some (r, n, s') → vstep s s'
| vs_unlink_path path s r s' :
    vfs_unlink_path path s = Some (r, s') →
    (∀ abs i, normalize_absolute path s = Some (Some abs) → resolve_ram_path abs s = Some i → g_cwd s ≠ Z.of_nat i) →
    vstep s s'
| vs_rename_path src dst s r s' :
    vfs_rename_path src dst s = Some (r, s') →
    (∀ a b par nm i p, normalize_absolute src s = Some (Some a) → normalize_absolute dst s = Some (Some b) →
       resolve_ram_path a s = Some i → split_parent b = Some (par, nm) → resolve_dir par s = Some p → ¬ on_way s i p) →
    vstep s s'
| vs_other s e m t : vstep s (s <| env := e |> <| v_mounts := m |> <| write_temp := t |>).

Lemma vstep_fwf s s' : vstep s s' → fwf s → fwf s'.
Proof.
  intros Hs W. destruct Hs; [by eapply mkdir_fwf|by eapply touch_fwf|by eapply rm_fwf|by eapply rmdir_fwf|by eapply cd_fwf|
    |by eapply write_fwf|by eapply append_fwf|by eapply cp_fwf|by eapply mv_fwf|by eapply mkdir_path_fwf|
    by eapply write_path_fwf|by eapply unlink_path_fwf|by eapply rename_path_fwf|by apply (frame_fwf s)].
  assert (cd_up s = (r, s')) as Hup.
  { match goal with Hcd : vfs_cd _ _ _ = _ |- _ => by injection Hcd end. }
  by eapply cd_up_fwf.
Qed.

Lemma vsteps_fwf s s' : rtc vstep s s' → fwf s → fwf s'.
Proof. induction 1 as [|s1 s2 s3 Hs _ IH]; [done|]. intros W. apply IH. by eapply vstep_fwf. Qed.

(** C6: along every history of file system operations after [vfs_init] (with
    names that fit into a node, and not freeing or overwriting the place of the
    current directory nor moving a directory below itself), the nodes form a
    tree: every used node reaches the root through directories, no directory has
    two entries with one name, names and file lengths stay within their
    buffers, and the current directory is a directory. *)
Theorem vfs_tree_invariant s0 s :
  rtc vstep (vfs_init s0) s →
  (∀ i, live s i → i ≠ 0%nat → ∃ p, parent (node s i) = Z.of_nat p ∧ dir s p) ∧
  (∀ i, live s i → rooted s i) ∧ distinct_names s ∧
  (∀ i, live s i → (length (name (node s i)) ≤ 23)%nat ∧
     (type (node s i) = VFS_NODE_FILE → 0 ≤ content_len (node s i) ≤ 199)) ∧
  (g_cwd s = -1 ∨ ∃ c, g_cwd s = Z.of_nat c ∧ dir s c).
Proof.
  intros Hs. destruct (vsteps_fwf _ _ Hs (vfs_init_fwf s0)) as [[T1 T2 T3 T4 T5 T6 T7] Hd].
  split_and!; try done. intros i Hi. split; [by apply T4|by apply T5].
Qed.

(** ** Walks towards the root end *)

(** The nodes from [i] up to the root. *)
Inductive way s : nat → list nat → Prop :=
| way_root : way s 0%nat [0%nat]
| way_up i p l : live s i → i ≠ 0%nat → parent (node s i) = Z.of_nat p → way s p l → way s i (i :: l).

Lemma rooted_way s i : rooted s i → ∃ l, way s i l.
Proof. induction 1 as [|i p Hl Hi0 Hp _ [l IH]]; eexists; [constructor|by apply (way_up _ _ p)]. Qed.

Lemma way_unique s i l l' : way s i l → way s i l' → l = l'.
Proof.
  intros Hw. revert l'. induction Hw as [|i p l Hl Hi0 Hp _ IH]; intros l' Hw'; inversion Hw'; subst; try done.
  f_equal. apply IH. by assert (p = p0) as -> by lia.
Qed.

(** A suffix of a way is a way. *)
Lemma way_suffix s i l j : way s i l → j ∈ l → ∃ l', way s j l' ∧ (length l' ≤ length l)%nat ∧ ∀ x, x ∈ l' → x ∈ l.
Proof.
  induction 1 as [|i p l Hl Hi0 Hp Hw IH]; intros Hj.
  - apply list_elem_of_singleton in Hj as ->. exists [0%nat]. split; [constructor|]. split; [done|done].
  - apply elem_of_cons in Hj as [->|Hj]; [exists (i :: l); split; [by apply (way_up _ _ p)|done]|].
    destruct (IH Hj) as (l' & ? & ? & ?). exists l'. split; [done|]. split; [cbn; lia|]. intros x Hx. right. auto.
Qed.

Lemma way_NoDup s i l : way s i l → NoDup l.
Proof.
  induction 1 as [|i p l Hl Hi0 Hp Hw IH]; [apply NoDup_singleton|]. apply list.NoDup_cons. split; [|done].
  intros Hin. destruct (way_suffix s p l i Hw Hin) as (l' & Hw' & Hlen & _).
  assert (l' = i :: l) as -> by (eapply way_unique; [done|by apply (way_up _ _ p)]). cbn in Hlen. lia.
Qed.

Lemma way_bound s i l : twf s → way s i l → (length l ≤ VFS_MAX_NODES)%nat.
Proof.
  intros T Hw. rewrite <- (length_seq VFS_MAX_NODES 0). apply submseteq_length, NoDup_submseteq; [by eapply way_NoDup|].
  intros x Hx. destruct (way_suffix s i l x Hw Hx) as (l' & Hw' & _). apply elem_of_seq.
  destruct Hw' as [|? ? ? [? _] ? ? ?]; [unfold VFS_MAX_NODES; lia|lia].
Qed.

Lemma way_on_way s a i l : way s i l → a ∈ l ↔ on_way s a i.
Proof.
  intros Hw. split.
  - induction Hw as [|i p l Hl Hi0 Hp Hw IH].
    + intros ->%list_elem_of_singleton. constructor.
    + intros [->|Ha]%elem_of_cons; [constructor|by apply (on_way_up _ _ _ p), IH].
  - intros Ho. revert l Hw. induction Ho as [|i p Hl Hi0 Hp _ IH]; intros l Hw.
    + destruct Hw; left.
    + destruct Hw as [|i p' l Hl' Hi0' Hp' Hw]; [done|]. right. apply IH. by assert (p = p') as -> by lia.
Qed.

Lemma under_loop_spec s i l fuel root :
  twf s → way s i l → (length l < fuel)%nat →
  under_loop fuel (Z.of_nat i) root s = Some (bool_decide (Exists (λ a, root = Z.of_nat a) l)).
Proof.
  intros T Hw. revert fuel. induction Hw as [|i p l Hl Hi0 Hp Hw IH]; intros fuel Hf; (destruct fuel as [|fuel]; [cbn in Hf; lia|]);
    cbn [under_loop]; rewrite (proj2 (Z.eqb_neq (Z.of_nat _) (-1))) by lia.
  - destruct (Z.eqb_spec (Z.of_nat 0) root) as [<-|Hne].
    { rewrite bool_decide_true; [done|by left]. }
    rewrite Nat2Z.id, (proj2 (t_root _ T)). destruct fuel as [|fuel]; [cbn in Hf; lia|]. rewrite bool_decide_false; [done|].
    rewrite Exists_cons, Exists_nil. intros [->|?]; done.
  - destruct (Z.eqb_spec (Z.of_nat i) root) as [<-|Hne].
    { rewrite bool_decide_true; [done|by left]. }
    rewrite Nat2Z.id, Hp, IH by (cbn in Hf; lia). f_equal. apply bool_decide_ext. rewrite Exists_cons.
    split; [by right|]. intros [->|?]; done.
Qed.

(** File [i] lies somewhere below directory [root]. *)
Definition below s (root : Z) (i : nat) : Prop :=
  ∃ p a, parent (node s i) = Z.of_nat p ∧ root = Z.of_nat a ∧ on_way s a p.

Definition UNDER_FUEL : nat := S VFS_MAX_NODES.

Lemma is_under_spec s i root :
  twf s → live s i → type (node s i) = VFS_NODE_FILE →
  ∃ b, is_under UNDER_FUEL i root s = Some b ∧ (b = true ↔ below s root i).
Proof.
  intros T Hi Hf. assert (i ≠ 0%nat) as Hi0 by (intros ->; destruct (t_root _ T); congruence).
  destruct (t_parent _ T i Hi Hi0) as (p & Hp & Hd).
  destruct (rooted_way s p (t_rooted _ T p (dir_live _ _ Hd))) as [l Hw].
  unfold is_under. rewrite Hp, (under_loop_spec s p l) by (done || (pose proof (way_bound s p l T Hw); unfold UNDER_FUEL; lia)).
  eexists. split; [done|]. rewrite bool_decide_eq_true, Exists_exists. split.
  - intros (a & Ha & ->). exists p, a. split; [done|]. split; [done|]. by apply (way_on_way s a p l).
  - intros (p' & a & Hp' & -> & Ho). assert (p' = p) as -> by lia. exists a. split; [|done]. by apply (way_on_way s a p l).
Qed.

Definition sum_len s (l : list nat) : Z := foldr (λ i n, content_len (node s i) + n) 0 l.

Lemma sum_len_app s a b : sum_len s (a ++ b) = sum_len s a + sum_len s b.
Proof. unfold sum_len. induction a as [|x a IH]; cbn; lia. Qed.

(** On a well-formed tree [vfs_du] ends (a walk to the root visits at most
    48 nodes) and gives the number of files strictly below the current
    directory, at any depth, and the sum of their lengths. *)
Theorem vfs_du_correct s :
  twf s → ∃ L, NoDup L ∧
    (∀ i, i ∈ L ↔ live s i ∧ type (node s i) = VFS_NODE_FILE ∧ below s (g_cwd s) i) ∧
    vfs_du UNDER_FUEL s = Some (sum_len s L, Z.of_nat (length L)).
Proof.
  intros T. set (b := λ i, is_file s i && default false (is_under UNDER_FUEL i (g_cwd s) s)).
  assert (∀ i, (i < VFS_MAX_NODES)%nat → is_file s i = true →
    live s i ∧ type (node s i) = VFS_NODE_FILE ∧
    ∃ u, is_under UNDER_FUEL i (g_cwd s) s = Some u ∧ (u = true ↔ below s (g_cwd s) i)) as Hfile.
  { intros i Hi Hf%is_file_true. assert (live s i) as Hl by (split; [done|apply used_type; by rewrite Hf]).
    split; [done|]. split; [done|]. by apply is_under_spec. }
  exists (filter (λ i, b i = true) (seq 0 VFS_MAX_NODES)). split; [apply NoDup_filter, NoDup_seq|]. split.
  { intros i. rewrite list_elem_of_filter, elem_of_seq. unfold b. rewrite andb_true_iff. split.
    - intros [[Hf Hu] Hi]. destruct (Hfile i ltac:(lia) Hf) as (Hl & Hty & u & Eu & Hub). rewrite Eu in Hu. cbn in Hu.
      split; [done|]. split; [done|]. by apply Hub.
    - intros (Hl & Hty & Hb). destruct (Hfile i (proj1 Hl) (proj2 (is_file_true _ _) Hty)) as (_ & _ & u & Eu & Hub).
      rewrite Eu. cbn. split; [|destruct Hl; lia]. split; [by apply is_file_true|by apply Hub]. }
  (* the loop over the first [n] nodes *)
  assert (∀ n, (n ≤ VFS_MAX_NODES)%nat →
    let L := filter (λ i, b i = true) (seq 0 n) in
    foldl (λ acc i, match acc with
                  | None => None
                  | Some (bytes, files) =>
                     if is_file s i then
                       match is_under UNDER_FUEL i (g_cwd s) s with
                       | None => None
                       | Some true => Some (u32 (bytes + u32 (content_len (node s i))), u32 (files + 1))
                       | Some false => Some (bytes, files)
                       end
                     else Some (bytes, files)
                  end) (Some (0, 0)) (seq 0 n) = Some (sum_len s L, Z.of_nat (length L)) ∧
    0 ≤ sum_len s L ≤ 199 * Z.of_nat n ∧ (length L ≤ n)%nat) as Hloop.
  2: { by destruct (Hloop VFS_MAX_NODES). }
  induction n as [|n IH]; intros Hn; [cbn; split; [done|lia]|].
  destruct (IH ltac:(lia)) as (E1 & Hs & Hl). rewrite seq_S, foldl_snoc, E1. cbn [Nat.add]. cbv zeta.
  rewrite filter_app, filter_cons, filter_nil. unfold VFS_MAX_NODES in *.
  destruct (is_file s n) eqn:Hf.
  - destruct (Hfile n ltac:(lia) Hf) as (Hln & Hty & u & Eu & _). pose proof (t_len _ T n Hln Hty) as Hlen.
    assert (b n = u) as Hbn by (unfold b; by rewrite Hf, Eu). rewrite Eu, Hbn. destruct u.
    + rewrite decide_True by done. rewrite sum_len_app, length_app. cbn [sum_len foldr length].
      rewrite (u32_small (content_len _)), (u32_small (_ + content_len _)), (u32_small (_ + 1)) by lia.
      split; [f_equal; f_equal; lia|]. lia.
    + rewrite decide_False by done. rewrite app_nil_r. split; [done|]. lia.
  - rewrite decide_False; [|unfold b; by rewrite Hf]. rewrite app_nil_r. split; [done|]. lia.
Qed.

(** ** Lookup of normal paths *)

(** The reference: descend one component at a time. *)
Fixpoint walk (cs : list cstr) (par : nat) s : option nat :=
  match cs with
  | [] => Some par
  | c :: cs => match find_child (Z.of_nat par) c s with Some i => walk cs i s | None => None end
  end.

Lemma skip_comp c r : comp_ok c → skip SLASH (SLASH :: c ++ r) = c ++ r.
Proof.
  intros (Hne & Hs & _). destruct c as [|x c]; [done|]. cbn [skip app]. rewrite Z.eqb_refl.
  rewrite (proj2 (Z.eqb_neq x SLASH)) by set_solver. done.
Qed.

Lemma resolve_walk_render fuel c cs par s :
  Forall comp_ok (c :: cs) → (length (c ++ render cs) ≤ fuel)%nat →
  resolve_walk fuel (c ++ render cs) par s = walk (c :: cs) par s.
Proof.
  revert fuel c par. induction cs as [|c2 cs IH]; intros fuel c par Hok Hf.
  - apply Forall_cons in Hok as [(Hne & Hs & Hl & _) _]. change (render []) with (@nil Z) in *. rewrite app_nil_r in *.
    destruct c as [|x c]; [done|]. destruct fuel as [|fuel]; [cbn in Hf; lia|]. cbn [resolve_walk walk].
    rewrite span_none by done. change (Z.to_nat (VFS_NAME_LEN - 1)) with 23%nat. rewrite take_ge by done.
    destruct (find_child _ _ s) as [i|]; [|done]. cbn. by destruct fuel.
  - apply Forall_cons in Hok as [(Hne & Hs & Hl & _) Hok]. rewrite render_cons in *. rewrite length_app in Hf. cbn [length] in Hf.
    destruct c as [|x c]; [done|]. destruct fuel as [|fuel]; [cbn in Hf; lia|]. cbn [resolve_walk app].
    change (x :: c ++ SLASH :: c2 ++ render cs) with ((x :: c) ++ SLASH :: c2 ++ render cs).
    rewrite span_spec by done. change (Z.to_nat (VFS_NAME_LEN - 1)) with 23%nat. rewrite take_ge by done.
    change (walk ((x :: c) :: c2 :: cs) par s) with
      (match find_child (Z.of_nat par) (x :: c) s with Some i => walk (c2 :: cs) i s | None => None end).
    destruct (find_child (Z.of_nat par) (x :: c) s) as [i|]; [|done].
    rewrite skip_comp by (by apply Forall_cons in Hok as [? _]). apply IH; [done|]. cbn in Hf. lia.
Qed.

Lemma resolve_render cs s : Forall comp_ok cs → resolve_ram_path (render_root cs) s = walk cs 0 s.
Proof.
  intros Hok. destruct cs as [|c cs]; [done|]. unfold resolve_ram_path, render_root. rewrite render_cons.
  rewrite bool_decide_true by done. cbn [negb].
  assert (str_eqb (SLASH :: c ++ render cs) (lit "/") = false) as ->.
  { apply not_true_iff_false. intros He%str_eqb_true. apply Forall_cons in Hok as [[Hne _] _]. by destruct c. }
  change (drop 1 (SLASH :: c ++ render cs)) with (c ++ render cs). apply resolve_walk_render; [done|]. cbn [length]. lia.
Qed.

Lemma walk_app cs c par s :
  walk (cs ++ [c]) par s = match walk cs par s with Some i => find_child (Z.of_nat i) c s | None => None end.
Proof.
  revert par. induction cs as [|c0 cs IH]; intros par; cbn [app walk].
  - by destruct (find_child _ c s).
  - destruct (find_child (Z.of_nat par) c0 s); [apply IH|done].
Qed.

(** [s'] keeps every entry of [s]. *)
Definition keeps s s' : Prop :=
  ∀ j, live s j → live s' j ∧ parent (node s' j) = parent (node s j) ∧ name (node s' j) = name (node s j).

Lemma walk_keeps cs par s s' i : keeps s s' → distinct_names s' → walk cs par s = Some i → walk cs par s' = Some i.
Proof.
  intros Hk Hd. revert par. induction cs as [|c cs IH]; intros par; cbn [walk]; [done|].
  destruct (find_child (Z.of_nat par) c s) as [j|] eqn:Hf; [|done]. apply find_child_Some in Hf as (Hj & Hp & Hn).
  destruct (Hk j Hj) as (Hj' & Hp' & Hn'). rewrite (find_child_unique (Z.of_nat par) c s' j) by (done || congruence).
  apply IH.
Qed.

Lemma keeps_set i g s :
  (type (g (node s i)) = type (node s i) ∧ parent (g (node s i)) = parent (node s i) ∧ name (g (node s i)) = name (node s i)) →
  keeps s (set_node i g s).
Proof.
  intros (G1 & G2 & G3) j Hj. destruct (decide (j = i)) as [->|Hne].
  - unfold live. rewrite used_type, node_set. split; [|done]. destruct Hj as [? Hj%used_type]. split; [done|congruence].
  - rewrite (on_other _ _ _ (one_node_set i g s) j Hne). split; [|done]. by apply (live_other i s _ j (one_node_set i g s)).
Qed.

(** The node a write goes to is the one its path then resolves to. *)
Lemma write_target_resolves abs path s i s1 :
  fwf s → normalize_absolute path s = Some (Some abs) → write_target abs s = (Some i, s1) →
  resolve_ram_path abs s1 = Some i.
Proof.
  intros W Hn Ht. destruct (write_target_fwf abs path s _ s1 W Hn Ht) as [W1 Hl1]. revert Ht. unfold write_target.
  destruct (resolve_ram_path abs s) as [j|] eqn:Hr; [by intros [= <- <-]|].
  destruct (normal_cases path s abs W Hn) as [[-> ->]|[(c & Hc & -> & ->)|(cs & c & Hne & Hok & -> & ->)]]; [done..|].
  pose proof Hok as [Hcs _]%Forall_app.
  rewrite resolve_render, walk_app in Hr by done. unfold resolve_dir. rewrite resolve_render by done.
  destruct (walk cs 0 s) as [p|] eqn:Hw; [|done]. destruct (is_dir s p) eqn:Hd; [|done]. rewrite Hr.
  destruct (find_free_node s) as [k|] eqn:Hfr; [|done]. intros [= -> <-].
  apply find_free_Some in Hfr as [Hi Hfree].
  set (s1 := clear_content i (make_node i VFS_NODE_FILE (Z.of_nat p) c s)) in *.
  assert (node s1 i = mkNode VFS_NODE_FILE (copy_truncate c VFS_NAME_LEN) (Z.of_nat p) (upd (content (node s i)) 0 0) 0) as Ei.
  { unfold s1, clear_content. rewrite node_set, node_make. done. }
  assert (one_node i s s1) as O by (eapply one_node_trans; apply one_node_set).
  clearbody s1. rewrite resolve_render, walk_app by done. rewrite (walk_keeps cs 0 s s1 p); [|..|done].
  - apply Forall_app in Hok as [_ Hc]. rewrite Forall_singleton in Hc. destruct Hc as (_ & _ & Hc & _).
    apply find_child_unique; [apply W1|by apply Hl1|by rewrite Ei|rewrite Ei; by apply copy_name].
  - intros j Hj. assert (j ≠ i) as Hji by (intros ->; destruct Hj as [_ Hj%used_type]; done).
    rewrite (on_other _ _ _ O j Hji). split; [|done]. by apply (live_other i s s1 j O Hji).
  - apply W1.
Qed.

(** ** Reading back *)

Lemma bytes_at_take f off n m : 0 ≤ n ≤ m → take (Z.to_nat n) (bytes_at f off m) = bytes_at f off n.
Proof.
  intros Hn. unfold bytes_at. rewrite <- fmap_take. f_equal. replace m with (n + (m - n)) by lia.
  rewrite seqZ_app by lia. rewrite take_app_le by (rewrite length_seqZ; lia). rewrite take_ge; [done|]. rewrite length_seqZ. lia.
Qed.

(** The bytes just stored, under a terminator behind them. *)
Lemma bytes_at_stored f offset data len :
  0 ≤ offset → offset + Z.of_nat (length data) ≤ len →
  bytes_at (upd (store_bytes offset data f) len 0) offset (Z.of_nat (length data)) = data.
Proof.
  intros Ho Hl. unfold bytes_at. apply list_eq. intros k. rewrite list_lookup_fmap.
  destruct (decide (k < length data)%nat) as [Hk|Hk].
  - rewrite lookup_seqZ_lt by lia. cbn. rewrite upd_ne by lia. unfold store_bytes.
    replace ((offset <=? offset + Z.of_nat k) && (offset + Z.of_nat k <? offset + Z.of_nat (length data))) with true by lia.
    replace (Z.to_nat (offset + Z.of_nat k - offset)) with k by lia.
    destruct (lookup_lt_is_Some_2 data k Hk) as [x ->]. done.
  - rewrite lookup_seqZ_ge by lia. rewrite lookup_ge_None_2 by lia. done.
Qed.

(** What a successful write does to its file. *)
Lemma write_node_spec i data offset s n s' :
  fwf s → live s i → 0 ≤ offset → write_node i data offset s = Some (0, n, s') →
  ∃ g, s' = set_node i g s ∧ type (g (node s i)) = VFS_NODE_FILE ∧ type (node s i) = VFS_NODE_FILE ∧
    parent (g (node s i)) = parent (node s i) ∧
    name (g (node s i)) = name (node s i) ∧ n = Z.min (Z.of_nat (length data)) (200 - offset) ∧ 0 ≤ n ∧
    offset + n ≤ content_len (g (node s i)) ≤ 199 ∧
    bytes_at (content (g (node s i))) offset n = take (Z.to_nat n) data.
Proof.
  intros W Hi Ho. unfold write_node. destruct (is_file s i) eqn:Hf; cbn [negb orb]; [|done].
  destruct (Z.geb_spec offset VFS_CONTENT_LEN) as [|Hoff]; [done|]. apply is_file_true in Hf.
  pose proof (t_len _ (f_tree _ W) i Hi Hf) as Hlen. cbv zeta. unfold VFS_CONTENT_LEN in *.
  set (size := if Z.of_nat _ >? _ then _ else _).
  assert (size = Z.min (Z.of_nat (length data)) (200 - offset)) as Hsize
    by (unfold size; destruct (Z.gtb_spec (Z.of_nat (length data)) (200 - offset)); lia).
  clearbody size. set (len := if offset + size >? _ then _ else _).
  assert (offset + size ≤ len) as Hle by (unfold len; destruct (Z.gtb_spec (offset + size) (content_len (node s i))); lia).
  clearbody len. destruct (Z.geb_spec len 200) as [|Hl]; [done|]. intros [= <- <-]. eexists. split; [done|]. cbn.
  split_and!; try done; try lia.
  assert (Z.of_nat (length (take (Z.to_nat size) data)) = size) as Hts by (rewrite length_take; lia).
  rewrite <- Hts at 2. apply bytes_at_stored; lia.
Qed.

(** C14: a path write into the RAM file system that succeeds can be read back:
    the same path then reads, from the same offset, bytes that start with those
    written, and the count returned is the number of bytes given. The path is
    not one that is forwarded to a mounted FAT32 volume, and the write ends
    before byte 200 (one that reaches it overflows the array:
    [vfs_write_path_overflows]). *)
Theorem vfs_write_read_roundtrip path data offset capacity s n s' :
  fwf s → 0 ≤ offset → vfs_write_path uninit (Some path) (Some data) offset s = Some (0, n, s') →
  (∀ abs, normalize_absolute (Some path) s = Some (Some abs) → fat_path uninit abs s = None) →
  0 < n ≤ capacity →
  n = Z.min (Z.of_nat (length data)) (200 - offset) ∧
  ∃ bytes, vfs_read_path uninit (Some path) true capacity offset s' = Some (0, bytes) ∧
           take (Z.to_nat n) bytes = take (Z.to_nat n) data.
Proof.
  intros W Ho. unfold vfs_write_path.
  destruct (normalize_absolute (Some path) s) as [[abs|]|] eqn:Hn; [|done..]. intros Hw Hfat Hcap.
  specialize (Hfat abs eq_refl). rewrite Hfat in Hw.
  destruct (write_target abs s) as [[i|] s1] eqn:Ht; [|done].
  destruct (write_target_fwf abs (Some path) s _ s1 W Hn Ht) as [W1 Hl]. specialize (Hl i eq_refl).
  pose proof (write_target_resolves abs (Some path) s i s1 W Hn Ht) as Hres.
  assert (g_cwd_path s1 = g_cwd_path s ∧ v_mounts s1 = v_mounts s ∧ env s1 = env s) as (Ec & Em & Ee).
  { revert Ht. unfold write_target. repeat case_match; intros [= ? <-]; done. }
  destruct (write_node_spec i data offset s1 n s' W1 Hl Ho Hw)
    as (g & Es' & G1 & G0 & G2 & G3 & Hmin & Hn0 & Hlen & Hbytes).
  pose proof (write_node_fwf i data offset s1 0 n s' W1 Hl Ho Hw) as W'. split; [done|].
  assert (node s' i = g (node s1 i)) as Ei by (rewrite Es'; apply node_set).
  unfold vfs_read_path. cbn [negb orb]. rewrite (proj2 (Z.eqb_neq capacity 0)) by lia.
  assert (normalize_absolute (Some path) s' = Some (Some abs)) as ->.
  { rewrite <- Hn. unfold normalize_absolute. rewrite Es'. change (g_cwd_path (set_node i g s1)) with (g_cwd_path s1). by rewrite Ec. }
  assert (fat_path uninit abs s' = None) as ->.
  { rewrite <- Hfat. unfold fat_path, path_is_mount. rewrite Es'. change (v_mounts (set_node i g s1)) with (v_mounts s1).
    change (env (set_node i g s1)) with (env s1). by rewrite Em, Ee. }
  assert (resolve_ram_path abs s' = Some i) as ->.
  { destruct (normalize_Some path s abs (proj2 (t_path _ (f_tree _ W))) Hn) as (p & cs & _ & _ & -> & Hok & _).
    rewrite resolve_render in Hres |- * by done. apply (walk_keeps cs 0 s1); [|apply W'|done].
    rewrite Es'. apply keeps_set. split; [congruence|done]. }
  rewrite (proj2 (is_file_true s' i)) by (by rewrite Ei). cbn [negb]. rewrite Ei.
  destruct (Z.geb_spec offset (content_len (g (node s1 i)))) as [|Hlt]; [lia|]. eexists. split; [reflexivity|].
  rewrite bytes_at_take; [done|].
  destruct (Z.gtb_spec capacity (content_len (g (node s1 i)) - offset)); lia.
Qed.

(** ** Where the code leaves the invariant *)

(** A path write that reaches the end of the 200-byte content array stores
    its terminator outside the array: it never completes within bounds. *)
Theorem vfs_write_path_overflows i data offset s :
  type (node s i) = VFS_NODE_FILE → 0 ≤ offset < 200 → 200 ≤ offset + Z.of_nat (length data) →
  write_node i data offset s = None.
Proof.
  intros Hf Ho Hd. unfold write_node. rewrite (proj2 (is_file_true s i) Hf). cbn [negb orb]. unfold VFS_CONTENT_LEN.
  destruct (Z.geb_spec offset 200) as [|_]; [lia|]. cbv zeta.
  assert ((if Z.of_nat (length data) >? 200 - offset then 200 - offset else Z.of_nat (length data)) = 200 - offset) as ->
    by (destruct (Z.gtb_spec (Z.of_nat (length data)) (200 - offset)); lia).
  replace (offset + (200 - offset)) with 200 by lia.
  destruct (Z.gtb_spec 200 (content_len (node s i))) as [|Hlt]; cbv iota; [done|].
  by destruct (Z.geb_spec (content_len (node s i)) 200); [|lia].
Qed.

(** Once a FAT32 volume is mounted, [vfs_cd] can no longer enter a directory
    of the RAM tree that no mount covers: the "not a mount" result -1 is taken
    for a mount, and the call fails or goes to the disk with whatever the
    uninitialised mount point buffer holds. *)
Theorem vfs_cd_ram_blocked nm cand s r s' :
  nm ≠ lit "." → nm ≠ lit ".." → fat32_is_mounted (env s) = true → 0 < vfs_mount_count (v_mounts s) →
  path_join (g_cwd_path s) nm = Some cand → (∀ i, ¬ candidate (v_mounts s) cand i) →
  vfs_cd uninit nm s = Some (r, s') → (r = -1 ∧ s' = s) ∨ (r = 0 ∧ g_cwd s' = -1).
Proof.
  intros H1 H2 Hm Hc Hj Hno. unfold vfs_cd.
  assert (str_eqb nm (lit ".") = false) as -> by (apply not_true_iff_false; by intros ?%str_eqb_true).
  assert (str_eqb nm (lit "..") = false) as -> by (apply not_true_iff_false; by intros ?%str_eqb_true).
  rewrite Hj. unfold path_is_mount. rewrite (proj2 (Z.leb_gt _ _)) by done. unfold vfs_mount_resolve.
  change (256 <=? 0) with false. cbv iota zeta. destruct (resolve_spec (v_mounts s) cand) as [[Hb _]|(i & _ & Hci & _)];
    [|by destruct (Hno i)]. cbv zeta in Hb. rewrite Hb. cbn. rewrite Hm.
  destruct (fat_relative cand uninit) as [rel|]; [|intros [= <- <-]; by left].
  destruct (negb (fat32_is_directory rel (env s))); intros [= <- <-]; [by left|by right].
Qed.

(** A file whose walk to the root does not end stops the count. *)
Lemma du_stuck fuel i s :
  (i < VFS_MAX_NODES)%nat → is_file s i = true → is_under fuel i (g_cwd s) s = None → vfs_du fuel s = None.
Proof.
  intros Hi Hf Hu. unfold vfs_du. set (f := λ acc i, _).
  assert (∀ l, foldl f None l = None) as Hnone by (induction l; done).
  assert (seq 0 VFS_MAX_NODES = seq 0 i ++ i :: seq (S i) (VFS_MAX_NODES - S i)) as ->.
  { change (i :: seq (S i) (VFS_MAX_NODES - S i)) with (seq i (S (VFS_MAX_NODES - S i))).
    change i with (0 + i)%nat at 2. rewrite <- seq_app. f_equal. lia. }
  rewrite foldl_app. destruct (foldl f (Some (0, 0)) (seq 0 i)) as [[bytes files]|]; cbn [foldl]; [|apply Hnone].
  assert (f (Some (bytes, files)) i = None) as -> by (unfold f; by rewrite Hf, Hu). apply Hnone.
Qed.
End tree.

(** ** A concrete file system *)

(** A disk that holds nothing, mounted or not, and the console output. *)
Record disk := mkDisk { d_mounted : bool; d_console : list cstr }.
#[export] Instance disk_env : VfsEnv disk := {
  fat32_is_mounted := d_mounted;
  fat32_is_directory _ _ := false;
  fat32_mkdir _ e := (false, e);
  fat32_read_file _ _ _ := None;
  fat32_write_file _ _ e := (false, e);
  fat32_list _ e := e;
  console_print str e := mkDisk (d_mounted e) (d_console e ++ [str]);
}.

Definition vfs_bss (m : bool) : vfs disk :=
  mkVfs (λ _, mkNode VFS_NODE_FREE [] 0 (λ _, 0) 0) 0 [] (vfs_mount_init no_mounts) (λ _, 0) (mkDisk m []).
Definition fresh : vfs disk := vfs_init (vfs_bss false).

(** A history: each operation as a function on states. *)
Definition run (ops : list (vfs disk → option (Z * vfs disk))) (s : vfs disk) : option (vfs disk) :=
  foldl (λ acc op, match acc with None => None | Some s => option_map snd (op s) end) (Some s) ops.

Definition op_mkdir (nm : string) := vfs_mkdir (F := disk) [] (lit nm).
Definition op_touch (nm : string) := vfs_touch (F := disk) [] (lit nm).
Definition op_cd (nm : string) := vfs_cd (F := disk) [] (lit nm).
Definition op_unlink (path : string) := vfs_unlink_path (F := disk) (Some (lit path)).
Definition op_rename (src dst : string) := vfs_rename_path (F := disk) (Some (lit src)) (Some (lit dst)).
Definition op_mkdir_path (path : string) := vfs_mkdir_path (F := disk) [] (Some (lit path)).
Definition op_write (path : string) (data : list Z) (offset : Z) (s : vfs disk) : option (Z * vfs disk) :=
  option_map (λ '(r, _, s), (r, s)) (vfs_write_path [] (Some (lit path)) (Some data) offset s).

Definition home : vfs disk := make_node 3 VFS_NODE_DIR 0 (lit "home") fresh.

Lemma home_step : vstep [] fresh home.
Proof. apply (vs_mkdir [] (lit "home") fresh 0 home); [vm_compute; lia|reflexivity]. Qed.

Lemma vfs_tree_invariant_witness : rtc (vstep []) fresh home ∧ distinct_names home.
Proof.
  assert (rtc (vstep []) fresh home) as Hr by (apply rtc_once, home_step). split; [exact Hr|].
  exact (proj1 (proj2 (proj2 (vfs_tree_invariant [] (vfs_bss false) home Hr)))).
Defined.

Lemma home_fwf : fwf home.
Proof. apply (vstep_fwf [] fresh); [exact home_step|apply vfs_init_fwf]. Qed.

Lemma vfs_du_correct_witness : ∃ L, vfs_du UNDER_FUEL home = Some (sum_len home L, Z.of_nat (length L)).
Proof. destruct (vfs_du_correct home (f_tree _ home_fwf)) as (L & _ & _ & Hd). exists L. exact Hd. Defined.

(** Three bytes at offset 2 of a new file. *)
Lemma vfs_write_read_roundtrip_witness :
  ∃ s' bytes, vfs_write_path [] (Some (lit "/home/f")) (Some [7; 8; 9]) 2 home = Some (0, 3, s') ∧
    vfs_read_path [] (Some (lit "/home/f")) true 100 2 s' = Some (0, bytes) ∧ take 3 bytes = [7; 8; 9].
Proof.
  destruct (vfs_write_path [] (Some (lit "/home/f")) (Some [7; 8; 9]) 2 home) as [[[r n] s']|] eqn:E1;
    [|vm_compute in E1; discriminate].
  assert (option_map fst (vfs_write_path [] (Some (lit "/home/f")) (Some [7; 8; 9]) 2 home) = Some (0, 3)) as E2
    by (vm_compute; reflexivity).
  rewrite E1 in E2. injection E2 as -> ->.
  destruct (vfs_write_read_roundtrip [] (lit "/home/f") [7; 8; 9] 2 100 home 3 s' home_fwf ltac:(lia) E1) as [_ (bytes & Hr & Hb)].
  - intros abs Hn. assert (abs = lit "/home/f") as ->. { vm_compute in Hn. injection Hn as <-. reflexivity. }
    vm_compute. reflexivity.
  - lia.
  - exists s', bytes. split; [reflexivity|]. split; [exact Hr|exact Hb].
Defined.

Lemma vfs_write_path_overflows_witness :
  write_node 3 (replicate 200 65) 0 (make_node 3 VFS_NODE_FILE 0 (lit "f") fresh) = None.
Proof. apply vfs_write_path_overflows; [vm_compute; reflexivity|lia|vm_compute; discriminate]. Defined.

(** With the disk mounted as the kernel mounts it, [cd home] fails. *)
Definition home_mounted : vfs disk :=
  home <| env := mkDisk true [] |>
       <| v_mounts := (vfs_mount (Some (lit "ahci0p0")) (Some (lit "/mnt/disk0")) (Some (lit "fat32")) 0 (vfs_mount_init no_mounts)).2 |>.

Lemma vfs_cd_ram_blocked_witness :
  option_map fst (vfs_cd [] (lit "home") home) = Some 0 ∧
  ∃ s', vfs_cd [] (lit "home") home_mounted = Some (-1, s') ∧ ((-1 = -1 ∧ s' = home_mounted) ∨ (-1 = 0 ∧ g_cwd s' = -1)).
Proof.
  split; [vm_compute; reflexivity|]. exists home_mounted.
  assert (vfs_cd [] (lit "home") home_mounted = Some (-1, home_mounted)) as E1 by reflexivity. split; [exact E1|].
  assert (∀ i, ¬ candidate (v_mounts home_mounted) (lit "/home") i) as Hno.
  { intros i (Hi & Hu & Hc). unfold VFS_MOUNT_MAX in Hi.
    do 32 (destruct i as [|i]; [vm_compute in Hu, Hc; discriminate|]). lia. }
  exact (vfs_cd_ram_blocked [] (lit "home") (lit "/home") home_mounted (-1) home_mounted
    ltac:(discriminate) ltac:(discriminate) ltac:(reflexivity) ltac:(vm_compute; reflexivity) ltac:(vm_compute; reflexivity)
    Hno E1).
Defined.

(** ** Histories outside the guards of [vstep] *)

(** Unlink the current directory, then create a file in it. *)
Definition orphan_ops := [op_mkdir "a"; op_cd "a"; op_unlink "/a"; op_touch "b"; op_cd "/"].

(** Unlinking the current directory frees its node while it stays the
    current directory; a file created then takes that very node and becomes its
    own parent, and [vfs_du] never ends. *)
Theorem vfs_unlink_cwd_hangs_du :
  ∃ s, run orphan_ops fresh = Some s ∧ is_file s 3 = true ∧ parent (node s 3) = 3 ∧ ∀ fuel, vfs_du fuel s = None.
Proof.
  destruct (run orphan_ops fresh) as [s|] eqn:E1; [|vm_compute in E1; discriminate].
  assert (∀ {A} (f : vfs disk → A) x, option_map f (run orphan_ops fresh) = Some x → f s = x) as Hev.
  { intros A f x. rewrite E1. cbn. by intros [= ->]. }
  exists s. split; [reflexivity|].
  assert (is_file s 3 = true) as Hf by (apply (Hev _ (λ s, is_file s 3)); vm_compute; reflexivity).
  assert (parent (node s 3) = 3) as Hp by (apply (Hev _ (λ s, parent (node s 3))); vm_compute; reflexivity).
  assert (g_cwd s = 0) as Hc by (apply (Hev _ g_cwd); vm_compute; reflexivity).
  split; [done|]. split; [done|]. intros fuel. apply (du_stuck fuel 3); [unfold VFS_MAX_NODES; lia|done|].
  unfold is_under. rewrite Hp, Hc. clear -Hp. induction fuel as [|fuel IH]; [done|]. cbn [under_loop]. 
  change (Z.to_nat 3) with 3%nat. rewrite Hp. exact IH.
Qed.

(** [vfs_mkdir_path] of a path with one component makes the directory in the
    current directory, not in the root. *)
Theorem vfs_mkdir_path_wrong_place :
  option_map (λ s, (vfs_is_dir_path [] (Some (lit "/x")) s, vfs_is_dir_path [] (Some (lit "/home/x")) s))
    (run [op_mkdir "home"; op_cd "home"; op_mkdir_path "/x"] fresh) = Some (Some false, Some true).
Proof. vm_compute. reflexivity. Qed.

(** A name of 24 bytes or more is cut when stored but compared in full: it is
    created twice in one directory and found by neither name. *)
Theorem vfs_long_name_duplicates :
  let nm := "abcdefghijklmnopqrstuvwxyz"%string in
  option_map (λ s, (str_eqb (name (node s 3)) (name (node s 4)), parent (node s 3), parent (node s 4), find_child 0 (lit nm) s))
    (run [op_mkdir nm; op_mkdir nm] fresh) = Some (true, 0, 0, None).
Proof. vm_compute. reflexivity. Qed.

(** A write behind the end of a new file exposes what the node's previous file
    held. *)
Theorem vfs_write_exposes_old_bytes :
  option_map (λ s, vfs_read_path [] (Some (lit "/mnt/new")) true 100 0 s)
    (run [op_write "/mnt/old" (lit "secret") 0; op_unlink "/mnt/old"; op_write "/mnt/new" [33] 6] fresh) =
  Some (Some (0, 0 :: lit "ecret" ++ [33])).
Proof. vm_compute. reflexivity. Qed.

(** [cd ..] enters a file when the path of the current directory no longer
    names directories. *)
Theorem vfs_cd_up_enters_file :
  option_map (λ s, is_file s (Z.to_nat (g_cwd s)))
    (run [op_mkdir "x"; op_cd "x"; op_mkdir "a"; op_cd "a"; op_mkdir "b"; op_cd "b";
          op_rename "/x/a" "/x/z"; op_write "/x/a" [1] 0; op_cd ".."] fresh) = Some true.
Proof. vm_compute. reflexivity. Qed.
End VfsSpec.
