(* ===== verification/Mem.v ===== *)
(** * Memory and string primitives

    [src/lib/memory/mem.c]: the functions of [string.h] the kernel brings
    along, on a memory from addresses to bytes.  A pointer is an address; the
    objects are taken not to wrap around the end of the address space. *)

From Stdlib Require Import Lia ZArith Bool.
From stdpp Require Import base list numbers.
From S2P Require Import Prelude.

Local Open Scope Z_scope.

Module Mem.

Definition memory : Type := Z → Z.

(** ** Operations *)

Fixpoint copy_up (n : nat) (i d s : Z) (m : memory) : memory :=
  match n with
  | O => m
  | S n => copy_up n (i + 1) d s (upd m (d + i) (m (s + i)))
  end.

Fixpoint copy_down (i : nat) (d s : Z) (m : memory) : memory :=
  match i with
  | O => m
  | S i => copy_down i d s (upd m (d + Z.of_nat i) (m (s + Z.of_nat i)))
  end.

Definition memcpy (dest src n : Z) (m : memory) : Z * memory :=
  (dest, copy_up (Z.to_nat n) 0 dest src m).

Fixpoint fill_up (n : nat) (i d v : Z) (m : memory) : memory :=
  match n with
  | O => m
  | S n => fill_up n (i + 1) d v (upd m (d + i) v)
  end.

Definition memset (dest value n : Z) (m : memory) : Z * memory :=
  (dest, fill_up (Z.to_nat n) 0 dest (u8 value) m).

Definition memmove (dest src n : Z) (m : memory) : Z * memory :=
  (dest, if dest <? src then copy_up (Z.to_nat n) 0 dest src m else copy_down (Z.to_nat n) dest src m).

Fixpoint cmp_loop (n : nat) (i a b : Z) (m : memory) : Z :=
  match n with
  | O => 0
  | S n => if negb (m (a + i) =? m (b + i)) then m (a + i) - m (b + i) else cmp_loop n (i + 1) a b m
  end.

Definition memcmp (a b n : Z) (m : memory) : Z := cmp_loop (Z.to_nat n) 0 a b m.

(** The walks to a terminator; [None] when there is none within [fuel]. *)
Fixpoint strlen (fuel : nat) (s : Z) (m : memory) : option Z :=
  match fuel with
  | O => None
  | S fuel => if m s =? 0 then Some 0 else n ← strlen fuel (s + 1) m; Some (n + 1)
  end.

Fixpoint strcmp (fuel : nat) (a b : Z) (m : memory) : option Z :=
  match fuel with
  | O => None
  | S fuel =>
    if negb (m a =? 0) && (m a =? m b) then strcmp fuel (a + 1) (b + 1) m else Some (m a - m b)
  end.

Fixpoint strncmp (n : nat) (a b : Z) (m : memory) : Z :=
  match n with
  | O => 0
  | S n => if negb (m a =? 0) && (m a =? m b) then strncmp n (a + 1) (b + 1) m else m a - m b
  end.

(** ** What they compute *)

Lemma copy_up_spec n i d s m p :
  0 ≤ i → d ≤ s ∨ s + i + Z.of_nat n ≤ d + i →
  copy_up n i d s m p = if bool_decide (d + i ≤ p < d + i + Z.of_nat n) then m (p - d + s) else m p.
Proof.
  revert i m. induction n as [|n IH]; intros i m Hi Ho; cbn [copy_up].
  - rewrite bool_decide_false by lia. done.
  - rewrite IH by lia. repeat case_bool_decide; try lia.
    + rewrite upd_ne by lia. done.
    + assert (p = d + i) as -> by lia. rewrite upd_eq. f_equal. lia.
    + rewrite upd_ne by lia. done.
Qed.

Lemma copy_down_spec n d s m p :
  s ≤ d →
  copy_down n d s m p = if bool_decide (d ≤ p < d + Z.of_nat n) then m (p - d + s) else m p.
Proof.
  revert m. induction n as [|n IH]; intros m Ho; cbn [copy_down].
  - rewrite bool_decide_false by lia. done.
  - rewrite IH by lia. repeat case_bool_decide; try lia.
    + rewrite upd_ne by lia. done.
    + assert (p = d + Z.of_nat n) as -> by lia. rewrite upd_eq. f_equal. lia.
    + rewrite upd_ne by lia. done.
Qed.

(** Copying between ranges that overlap in any way. *)
Theorem memmove_correct dest src n m p :
  0 ≤ n →
  (memmove dest src n m).1 = dest ∧
  (memmove dest src n m).2 p = if bool_decide (dest ≤ p < dest + n) then m (p - dest + src) else m p.
Proof.
  intros Hn. split; [done|]. cbn [memmove snd].
  destruct (Z.ltb_spec dest src).
  - rewrite copy_up_spec by lia. repeat case_bool_decide; try lia; done.
  - rewrite copy_down_spec by lia. repeat case_bool_decide; try lia; done.
Qed.

Lemma memmove_at dest src n m p :
  0 ≤ n → (memmove dest src n m).2 p = if bool_decide (dest ≤ p < dest + n) then m (p - dest + src) else m p.
Proof.
  intros Hn. cbn [memmove snd]. destruct (Z.ltb_spec dest src).
  - rewrite copy_up_spec by lia. repeat case_bool_decide; try lia; done.
  - rewrite copy_down_spec by lia. repeat case_bool_decide; try lia; done.
Qed.

(** [memcpy] agrees with [memmove] unless the destination starts inside the
    source. *)
Theorem memcpy_correct dest src n m p :
  0 ≤ n → dest ≤ src ∨ src + n ≤ dest →
  (memcpy dest src n m).2 p = if bool_decide (dest ≤ p < dest + n) then m (p - dest + src) else m p.
Proof.
  intros Hn Ho. cbn [memcpy snd]. rewrite copy_up_spec by lia.
  repeat case_bool_decide; try lia; done.
Qed.

Theorem memset_correct dest value n m p :
  0 ≤ n →
  (memset dest value n m).2 p = if bool_decide (dest ≤ p < dest + n) then u8 value else m p.
Proof.
  intros Hn. cbn [memset snd]. generalize (u8 value) as v. intros v.
  assert (∀ k i m, 0 ≤ i → fill_up k i dest v m p =
    if bool_decide (dest + i ≤ p < dest + i + Z.of_nat k) then v else m p) as H.
  { induction k as [|k IH]; intros i m' Hi; cbn [fill_up].
    - rewrite bool_decide_false by lia. done.
    - rewrite IH by lia. repeat case_bool_decide; try lia; try done.
      + assert (p = dest + i) as -> by lia. apply upd_eq.
      + rewrite upd_ne by lia. done. }
  rewrite H by lia. repeat case_bool_decide; try lia; done.
Qed.

(** ** Strings in memory *)

(** [t] is the string at [a]. *)
Fixpoint cstr_at (m : memory) (a : Z) (t : cstr) : Prop :=
  match t with
  | [] => m a = 0
  | c :: t => m a = c ∧ c ≠ 0 ∧ cstr_at m (a + 1) t
  end.

(** The comparison of strings by their first difference, the terminator being
    smaller than every character. *)
Fixpoint str_order (s t : cstr) : Z :=
  match s, t with
  | [], [] => 0
  | c :: _, [] => c
  | [], d :: _ => - d
  | c :: s, d :: t => if c =? d then str_order s t else c - d
  end.

Lemma strlen_spec m a t fuel :
  cstr_at m a t → (length t < fuel)%nat → strlen fuel a m = Some (Z.of_nat (length t)).
Proof.
  revert a fuel. induction t as [|c t IH]; intros a [|fuel] H Hf; cbn in Hf; try lia.
  - cbn in *. rewrite H. done.
  - destruct H as (Hc & Hn & H). cbn [strlen]. rewrite Hc. destruct (Z.eqb_spec c 0); [done|].
    rewrite (IH (a + 1) fuel) by (done || lia). cbn. f_equal. lia.
Qed.

Lemma strcmp_spec m a b s t fuel :
  cstr_at m a s → cstr_at m b t → (length s < fuel)%nat → strcmp fuel a b m = Some (str_order s t).
Proof.
  revert a b t fuel. induction s as [|c s IH]; intros a b t [|fuel] Hs Ht Hf; cbn in Hf; try lia.
  - cbn in Hs. cbn [strcmp]. rewrite Hs. destruct t as [|d t].
    + cbn in Ht. rewrite Ht. done.
    + destruct Ht as (-> & _ & _). done.
  - destruct Hs as (Hc & Hn & Hs). cbn [strcmp]. rewrite Hc.
    destruct t as [|d t].
    + cbn in Ht. rewrite Ht. destruct (Z.eqb_spec c 0); [done|]. cbn. f_equal. lia.
    + destruct Ht as (Hd & Hnd & Ht). rewrite Hd. cbn [str_order].
      destruct (Z.eqb_spec c 0); [done|]. cbn. destruct (Z.eqb_spec c d); [|done].
      apply IH; [done|done|lia].
Qed.

Lemma str_order_0 s t : Forall (λ c, 0 < c) s → Forall (λ c, 0 < c) t → str_order s t = 0 ↔ s = t.
Proof.
  revert t. induction s as [|c s IH]; intros [|d t] Hs Ht; cbn.
  - done.
  - apply Forall_cons_1 in Ht as [? _]. split; [lia|done].
  - apply Forall_cons_1 in Hs as [? _]. split; [lia|done].
  - apply Forall_cons_1 in Hs as [? Hs]. apply Forall_cons_1 in Ht as [? Ht].
    destruct (Z.eqb_spec c d) as [->|].
    + rewrite (IH t Hs Ht). split; [by intros ->|intros E; by injection E].
    + split; [lia|intros E; by injection E].
Qed.

(** [strcmp] of two strings in memory returns, and what it returns is zero
    exactly when they are equal: the test [str_eqb] of the other files. *)
Theorem strcmp_equal m a b s t :
  cstr_at m a s → cstr_at m b t → Forall (λ c, 0 < c) s → Forall (λ c, 0 < c) t →
  ∃ r, strcmp (S (length s)) a b m = Some r ∧ (r =? 0) = str_eqb s t.
Proof.
  intros Ha Hb Hs Ht. exists (str_order s t). split; [apply strcmp_spec; (done || lia)|].
  pose proof (str_order_0 s t Hs Ht) as E. unfold str_eqb.
  destruct (Z.eqb_spec (str_order s t) 0); case_bool_decide; tauto.
Qed.

(** [memcmp] finds the first difference of two ranges. *)
Theorem memcmp_correct a b n m :
  0 ≤ n →
  let r := memcmp a b n m in
  (r = 0 ∧ ∀ i, 0 ≤ i < n → m (a + i) = m (b + i)) ∨
  ∃ i, 0 ≤ i < n ∧ (∀ j, 0 ≤ j < i → m (a + j) = m (b + j)) ∧ r = m (a + i) - m (b + i) ∧ r ≠ 0.
Proof.
  intros Hn r.
  assert (∀ k i, 0 ≤ i →
    (cmp_loop k i a b m = 0 ∧ ∀ j, i ≤ j < i + Z.of_nat k → m (a + j) = m (b + j)) ∨
    ∃ j, i ≤ j < i + Z.of_nat k ∧ (∀ h, i ≤ h < j → m (a + h) = m (b + h)) ∧
         cmp_loop k i a b m = m (a + j) - m (b + j) ∧ cmp_loop k i a b m ≠ 0) as H.
  { induction k as [|k IH]; intros i Hi; cbn [cmp_loop]; [left; split; [done|lia]|].
    destruct (Z.eqb_spec (m (a + i)) (m (b + i))) as [He|He]; cbn [negb].
    - destruct (IH (i + 1) ltac:(lia)) as [[-> H]|(j & Hj & Hb & -> & Hr)]; [left|right].
      + split; [done|]. intros j Hj. destruct (decide (j = i)) as [->|]; [done|]. apply H. lia.
      + exists j. split; [lia|]. split; [|split; [done|done]].
        intros h Hh. destruct (decide (h = i)) as [->|]; [done|]. apply Hb. lia.
    - right. exists i. split; [lia|]. split; [lia|]. split; [done|lia]. }
  destruct (H (Z.to_nat n) 0 ltac:(lia)) as [[Hr He]|(i & Hi & Hb & Hr & Hz)].
  - left. split; [done|]. intros i Hi. apply He. lia.
  - right. exists i. split; [lia|]. split; [|done]. intros j Hj. apply Hb. lia.
Qed.

End Mem.
