(* ===== verification/Font.v ===== *)
(** * The console font

    [src/assets/fonts/font8x16.h]: one row of sixteen bytes per printable
    character, a bit per pixel, the leftmost in bit 7. *)

From Stdlib Require Import ZArith.
From stdpp Require Import base list numbers.
From S2P Require Import Prelude.

Local Open Scope Z_scope.

Definition FONT_WIDTH : Z := 8.
Definition FONT_HEIGHT : Z := 16.
Definition FONT_FIRST_CHAR : Z := 32.
Definition FONT_LAST_CHAR : Z := 126.

Definition font8x16 : list (list Z) := [
  [0; 0; 0; 0; 0; 0; 0; 0; 0; 0; 0; 0; 0; 0; 0; 0];
  [0; 0; 0; 0; 24; 24; 24; 24; 24; 24; 0; 24; 24; 0; 0; 0];
  [0; 0; 0; 0; 102; 102; 102; 102; 0; 0; 0; 0; 0; 0; 0; 0];
  [0; 0; 0; 0; 0; 18; 22; 127; 52; 36; 254; 104; 72; 0; 0; 0];
  [0; 0; 0; 8; 8; 62; 106; 104; 62; 11; 11; 107; 62; 8; 8; 0];
  [0; 0; 0; 0; 96; 144; 144; 99; 28; 230; 9; 9; 6; 0; 0; 0];
  [0; 0; 0; 0; 28; 48; 48; 24; 57; 109; 103; 102; 63; 0; 0; 0];
  [0; 0; 0; 0; 24; 24; 24; 24; 0; 0; 0; 0; 0; 0; 0; 0];
  [0; 0; 8; 24; 16; 48; 48; 48; 48; 48; 48; 16; 24; 8; 0; 0];
  [0; 0; 16; 24; 8; 12; 12; 12; 12; 12; 12; 8; 24; 16; 0; 0];
  [0; 0; 0; 0; 16; 214; 124; 124; 214; 16; 0; 0; 0; 0; 0; 0];
  [0; 0; 0; 0; 0; 24; 24; 24; 255; 255; 24; 24; 24; 0; 0; 0];
  [0; 0; 0; 0; 0; 0; 0; 0; 0; 0; 0; 24; 24; 16; 32; 0];
  [0; 0; 0; 0; 0; 0; 0; 0; 60; 60; 0; 0; 0; 0; 0; 0];
  [0; 0; 0; 0; 0; 0; 0; 0; 0; 0; 0; 24; 24; 0; 0; 0];
  [0; 0; 0; 0; 2; 4; 4; 8; 8; 24; 16; 16; 32; 32; 64; 0];
  [0; 0; 0; 0; 28; 54; 99; 107; 107; 99; 99; 54; 28; 0; 0; 0];
  [0; 0; 0; 0; 120; 24; 24; 24; 24; 24; 24; 24; 126; 0; 0; 0];
  [0; 0; 0; 0; 124; 134; 6; 4; 12; 24; 48; 96; 254; 0; 0; 0];
  [0; 0; 0; 0; 62; 67; 3; 28; 7; 3; 3; 71; 62; 0; 0; 0];
  [0; 0; 0; 0; 14; 14; 30; 54; 102; 127; 6; 6; 6; 0; 0; 0];
  [0; 0; 0; 0; 126; 96; 96; 124; 71; 3; 3; 71; 60; 0; 0; 0];
  [0; 0; 0; 0; 28; 50; 96; 126; 99; 99; 99; 35; 30; 0; 0; 0];
  [0; 0; 0; 0; 127; 3; 6; 6; 12; 12; 24; 24; 48; 0; 0; 0];
  [0; 0; 0; 0; 62; 99; 99; 28; 99; 99; 99; 99; 62; 0; 0; 0];
  [0; 0; 0; 0; 60; 98; 99; 99; 99; 63; 3; 38; 28; 0; 0; 0];
  [0; 0; 0; 0; 0; 0; 24; 24; 0; 0; 0; 24; 24; 0; 0; 0];
  [0; 0; 0; 0; 0; 0; 24; 24; 0; 0; 0; 24; 24; 16; 32; 0];
  [0; 0; 0; 0; 0; 0; 1; 15; 60; 96; 60; 15; 1; 0; 0; 0];
  [0; 0; 0; 0; 0; 0; 0; 127; 127; 0; 127; 127; 0; 0; 0; 0];
  [0; 0; 0; 0; 0; 0; 64; 120; 30; 3; 30; 120; 64; 0; 0; 0];
  [0; 0; 0; 0; 28; 38; 6; 12; 24; 24; 0; 24; 24; 0; 0; 0];
  [0; 0; 0; 0; 60; 98; 94; 182; 162; 162; 162; 182; 94; 98; 62; 0];
  [0; 0; 0; 0; 28; 28; 20; 54; 54; 62; 54; 99; 99; 0; 0; 0];
  [0; 0; 0; 0; 126; 99; 99; 99; 124; 99; 99; 99; 126; 0; 0; 0];
  [0; 0; 0; 0; 30; 49; 96; 96; 96; 96; 96; 49; 30; 0; 0; 0];
  [0; 0; 0; 0; 124; 102; 99; 99; 99; 99; 99; 102; 124; 0; 0; 0];
  [0; 0; 0; 0; 127; 96; 96; 96; 126; 96; 96; 96; 127; 0; 0; 0];
  [0; 0; 0; 0; 127; 96; 96; 96; 126; 96; 96; 96; 96; 0; 0; 0];
  [0; 0; 0; 0; 30; 49; 96; 96; 103; 99; 99; 51; 31; 0; 0; 0];
  [0; 0; 0; 0; 99; 99; 99; 99; 127; 99; 99; 99; 99; 0; 0; 0];
  [0; 0; 0; 0; 126; 24; 24; 24; 24; 24; 24; 24; 126; 0; 0; 0];
  [0; 0; 0; 0; 15; 3; 3; 3; 3; 3; 3; 67; 62; 0; 0; 0];
  [0; 0; 0; 0; 198; 204; 216; 240; 248; 216; 204; 204; 198; 0; 0; 0];
  [0; 0; 0; 0; 96; 96; 96; 96; 96; 96; 96; 96; 127; 0; 0; 0];
  [0; 0; 0; 0; 119; 119; 119; 119; 127; 107; 99; 99; 99; 0; 0; 0];
  [0; 0; 0; 0; 115; 115; 115; 123; 107; 111; 103; 103; 103; 0; 0; 0];
  [0; 0; 0; 0; 28; 54; 99; 99; 99; 99; 99; 54; 28; 0; 0; 0];
  [0; 0; 0; 0; 126; 99; 99; 99; 99; 126; 96; 96; 96; 0; 0; 0];
  [0; 0; 0; 0; 28; 54; 99; 99; 99; 99; 99; 54; 30; 6; 2; 0];
  [0; 0; 0; 0; 252; 198; 198; 198; 198; 248; 204; 198; 195; 0; 0; 0];
  [0; 0; 0; 0; 62; 97; 96; 112; 62; 7; 3; 67; 62; 0; 0; 0];
  [0; 0; 0; 0; 126; 24; 24; 24; 24; 24; 24; 24; 24; 0; 0; 0];
  [0; 0; 0; 0; 99; 99; 99; 99; 99; 99; 99; 99; 62; 0; 0; 0];
  [0; 0; 0; 0; 99; 99; 34; 54; 54; 54; 20; 28; 28; 0; 0; 0];
  [0; 0; 0; 0; 195; 195; 219; 219; 90; 94; 102; 102; 102; 0; 0; 0];
  [0; 0; 0; 0; 99; 54; 54; 28; 8; 28; 54; 54; 99; 0; 0; 0];
  [0; 0; 0; 0; 195; 102; 102; 60; 60; 24; 24; 24; 24; 0; 0; 0];
  [0; 0; 0; 0; 127; 3; 6; 12; 28; 24; 48; 96; 127; 0; 0; 0];
  [0; 0; 30; 24; 24; 24; 24; 24; 24; 24; 24; 24; 24; 30; 0; 0];
  [0; 0; 0; 0; 96; 32; 32; 48; 16; 24; 8; 12; 4; 4; 6; 0];
  [0; 0; 56; 24; 24; 24; 24; 24; 24; 24; 24; 24; 24; 56; 0; 0];
  [0; 0; 0; 0; 56; 56; 108; 198; 0; 0; 0; 0; 0; 0; 0; 0];
  [0; 0; 0; 0; 0; 0; 0; 0; 0; 0; 0; 0; 0; 0; 0; 255];
  [0; 0; 0; 48; 24; 0; 0; 0; 0; 0; 0; 0; 0; 0; 0; 0];
  [0; 0; 0; 0; 0; 0; 28; 38; 6; 62; 102; 102; 62; 0; 0; 0];
  [0; 0; 96; 96; 96; 96; 124; 102; 102; 102; 102; 102; 124; 0; 0; 0];
  [0; 0; 0; 0; 0; 0; 28; 50; 96; 96; 96; 50; 28; 0; 0; 0];
  [0; 0; 6; 6; 6; 6; 62; 102; 102; 102; 102; 102; 62; 0; 0; 0];
  [0; 0; 0; 0; 0; 0; 60; 102; 102; 126; 96; 98; 60; 0; 0; 0];
  [0; 0; 14; 24; 24; 24; 126; 24; 24; 24; 24; 24; 24; 0; 0; 0];
  [0; 0; 0; 0; 0; 0; 62; 102; 102; 102; 102; 102; 62; 6; 6; 60];
  [0; 0; 96; 96; 96; 96; 124; 102; 102; 102; 102; 102; 102; 0; 0; 0];
  [0; 0; 24; 24; 0; 0; 120; 24; 24; 24; 24; 24; 126; 0; 0; 0];
  [0; 0; 12; 12; 0; 0; 60; 12; 12; 12; 12; 12; 12; 12; 12; 120];
  [0; 0; 96; 96; 96; 96; 100; 108; 120; 120; 108; 108; 102; 0; 0; 0];
  [0; 0; 240; 48; 48; 48; 48; 48; 48; 48; 48; 48; 30; 0; 0; 0];
  [0; 0; 0; 0; 0; 0; 255; 219; 219; 219; 219; 219; 219; 0; 0; 0];
  [0; 0; 0; 0; 0; 0; 124; 102; 102; 102; 102; 102; 102; 0; 0; 0];
  [0; 0; 0; 0; 0; 0; 60; 102; 102; 102; 102; 102; 60; 0; 0; 0];
  [0; 0; 0; 0; 0; 0; 124; 102; 102; 102; 102; 102; 124; 96; 96; 96];
  [0; 0; 0; 0; 0; 0; 62; 102; 102; 102; 102; 102; 62; 6; 6; 6];
  [0; 0; 0; 0; 0; 0; 62; 48; 48; 48; 48; 48; 48; 0; 0; 0];
  [0; 0; 0; 0; 0; 0; 60; 98; 112; 60; 6; 70; 60; 0; 0; 0];
  [0; 0; 0; 0; 24; 24; 126; 24; 24; 24; 24; 24; 14; 0; 0; 0];
  [0; 0; 0; 0; 0; 0; 102; 102; 102; 102; 102; 102; 62; 0; 0; 0];
  [0; 0; 0; 0; 0; 0; 102; 102; 36; 60; 60; 24; 24; 0; 0; 0];
  [0; 0; 0; 0; 0; 0; 195; 195; 219; 90; 90; 102; 102; 0; 0; 0];
  [0; 0; 0; 0; 0; 0; 102; 60; 24; 24; 60; 60; 102; 0; 0; 0];
  [0; 0; 0; 0; 0; 0; 102; 102; 44; 60; 60; 24; 24; 24; 48; 112];
  [0; 0; 0; 0; 0; 0; 126; 6; 12; 24; 48; 96; 126; 0; 0; 0];
  [0; 0; 14; 24; 24; 24; 24; 24; 96; 24; 24; 24; 24; 30; 0; 0];
  [0; 0; 16; 16; 16; 16; 16; 16; 16; 16; 16; 16; 16; 16; 16; 0];
  [0; 0; 112; 24; 24; 24; 24; 24; 6; 24; 24; 24; 24; 120; 0; 0];
  [0; 0; 0; 0; 0; 0; 0; 57; 70; 0; 0; 0; 0; 0; 0; 0]].

(** Bit [x] (from the left) of row [y] of glyph [i]. *)
Definition font_bit (i x y : Z) : bool :=
  Z.testbit (default 0 (default [] (font8x16 !! Z.to_nat i) !! Z.to_nat y)) (FONT_WIDTH - 1 - x).
