(* ===== verification/Console.v ===== *)
(** * The text console

    [src/drivers/graphics/framebuffer/console.c]: text on a linear framebuffer,
    with a scrollback ring of character cells, a blinking cursor and the
    capture of output for the shell.  The video memory is word-addressed from
    the base of the framebuffer. *)

From Stdlib Require Import Lia ZArith Bool.
From stdpp Require Import base list numbers strings.
From S2P Require Import Prelude Mem Font.

Local Open Scope Z_scope.

Module Console.

Definition NEXUS_PIXFMT_RGB : Z := 0.
Definition NEXUS_PIXFMT_BGR : Z := 1.
Definition COLOR_BLACK : Z := 0x000000.
Definition COLOR_WHITE : Z := 0xFFFFFF.
Definition COLOR_RED : Z := 0xFF3B30.
Definition COLOR_GREEN : Z := 0x30D158.
Definition COLOR_CYAN : Z := 0x32ADE6.
Definition COLOR_YELLOW : Z := 0xFFD60A.
Definition CONSOLE_CURSOR_BLINK_TICKS : Z := 50.
Definition MAX_COLS : Z := 256.
Definition SCROLLBACK_LINES : Z := 500.

(** The fields the console reads. *)
Record nexus_framebuffer_t := mkFb {
  width : Z;
  height : Z;
  pixels_per_scanline : Z;
  pixel_format : Z;
}.

Record console_cell_t := mkCell { ch : Z; fg : Z; bg : Z }.

(** [g_fb] is null before [console_init]; the functions that do not test it
    are not called before.  [g_video] is the memory of the framebuffer in words,
    [g_capture_buffer] the text that the caller's buffer holds, up to its
    terminator. *)
Record console := mkConsole {
  g_fb : option nexus_framebuffer_t;
  g_video : Z → Z;
  g_fg : Z;
  g_bg : Z;
  g_fg_packed : Z;
  g_bg_packed : Z;
  g_col : Z;
  g_row : Z;
  g_cols : Z;
  g_rows : Z;
  g_cursor_enabled : bool;
  g_cursor_visible : bool;
  g_cursor_last_tick : Z;
  g_capture_buffer : cstr;
  g_capture_capacity : Z;
  g_capture_length : Z;
  g_capture_active : bool;
  g_history : Z → Z → console_cell_t;
  g_total_lines : Z;
  g_scroll_offset : Z;
}.
#[export] Instance eta_console : Eta console := λ r,
  mkConsole (g_fb r) (g_video r) (g_fg r) (g_bg r) (g_fg_packed r) (g_bg_packed r) (g_col r)
    (g_row r) (g_cols r) (g_rows r) (g_cursor_enabled r) (g_cursor_visible r)
    (g_cursor_last_tick r) (g_capture_buffer r) (g_capture_capacity r) (g_capture_length r)
    (g_capture_active r) (g_history r) (g_total_lines r) (g_scroll_offset r).

Definition no_fb : nexus_framebuffer_t := mkFb 0 0 0 0.
Definition fb_of (s : console) : nexus_framebuffer_t := default no_fb (g_fb s).

(** ** Pixels *)

Definition pack_color (fb : nexus_framebuffer_t) (rgb : Z) : Z :=
  let r := Z.land (Z.shiftr rgb 16) 255 in
  let g := Z.land (Z.shiftr rgb 8) 255 in
  let b := Z.land rgb 255 in
  if pixel_format fb =? NEXUS_PIXFMT_BGR
  then Z.lor (Z.lor b (Z.shiftl g 8)) (Z.shiftl r 16)
  else Z.lor (Z.lor r (Z.shiftl g 8)) (Z.shiftl b 16).

Definition pixel_addr (fb : nexus_framebuffer_t) (x y : Z) : Z := y * pixels_per_scanline fb + x.

Definition put_pixel (fb : nexus_framebuffer_t) (x y color : Z) (v : Z → Z) : Z → Z :=
  if (width fb <=? x) || (height fb <=? y) then v else upd v (pixel_addr fb x y) color.

(** The loops over [y], and over [x] in each line. *)
Definition for_xy (xs ys : list Z) (f : Z → Z → (Z → Z) → Z → Z) (v : Z → Z) : Z → Z :=
  foldl (λ v y, foldl (λ v x, f x y v) v xs) v ys.

Definition glyph_index (c : Z) : Z :=
  if (FONT_FIRST_CHAR <=? c) && (c <=? FONT_LAST_CHAR) then c - FONT_FIRST_CHAR else 0.

Definition draw_glyph_raw (fb : nexus_framebuffer_t) (col row c fgc bgc : Z) (v : Z → Z) : Z → Z :=
  let px0 := u32 (col * FONT_WIDTH) in
  let py0 := u32 (row * FONT_HEIGHT) in
  for_xy (seqZ 0 FONT_WIDTH) (seqZ 0 FONT_HEIGHT)
    (λ x y, put_pixel fb (u32 (px0 + x)) (u32 (py0 + y)) (if font_bit (glyph_index c) x y then fgc else bgc)) v.

Definition draw_glyph (col row c : Z) (s : console) : console :=
  s <| g_video := draw_glyph_raw (fb_of s) col row c (g_fg_packed s) (g_bg_packed s) (g_video s) |>.

(** ** The cursor *)

Definition hist_slot (logical_line : Z) : Z := logical_line mod SCROLLBACK_LINES.

Definition cursor_draw_overlay (s : console) : console :=
  if negb (g_cursor_enabled s) || g_cursor_visible s || bool_decide (g_fb s = None) then s else
  if (g_rows s <=? g_row s) || (g_cols s <=? g_col s) then s else
  let fb := fb_of s in
  let px0 := u32 (g_col s * FONT_WIDTH) in
  let py0 := u32 (g_row s * FONT_HEIGHT) in
  let xs := filter (λ x, px0 + x < width fb) (seqZ 0 2) in
  s <| g_video := for_xy xs (seqZ 0 FONT_HEIGHT)
         (λ x y v, upd v (pixel_addr fb (px0 + x) (py0 + y)) (g_fg_packed s)) (g_video s) |>
    <| g_cursor_visible := true |>.

Definition cell_at (s : console) (line col : Z) : console_cell_t := g_history s (hist_slot line) col.

Definition cursor_restore_cell (s : console) : console :=
  if negb (g_cursor_visible s) || bool_decide (g_fb s = None) then s else
  if (g_rows s <=? g_row s) || (g_cols s <=? g_col s) then s <| g_cursor_visible := false |> else
  let s := if g_scroll_offset s =? 0 then
             let cell := cell_at s (g_total_lines s) (g_col s) in
             s <| g_video := draw_glyph_raw (fb_of s) (g_col s) (g_row s) (ch cell) (fg cell) (bg cell) (g_video s) |>
           else draw_glyph (g_col s) (g_row s) 32 s in
  s <| g_cursor_visible := false |>.

Definition console_cursor_show (s : console) : console :=
  if negb (g_cursor_enabled s) then s else
  if g_cursor_visible s then s else cursor_draw_overlay s.

Definition console_cursor_hide (s : console) : console := cursor_restore_cell s.

(** [now] is [pit_get_ticks()]. *)
Definition console_cursor_enable (now : Z) (s : console) : console :=
  console_cursor_show (s <| g_cursor_enabled := true |> <| g_cursor_visible := false |>
                         <| g_cursor_last_tick := now |>).

Definition console_cursor_disable (s : console) : console :=
  (cursor_restore_cell s) <| g_cursor_enabled := false |> <| g_cursor_last_tick := 0 |>.

Definition console_cursor_tick (now : Z) (s : console) : console :=
  if negb (g_cursor_enabled s) || bool_decide (g_fb s = None) then s else
  if now <? g_cursor_last_tick s then s <| g_cursor_last_tick := now |> else
  if now - g_cursor_last_tick s <? CONSOLE_CURSOR_BLINK_TICKS then s else
  let s := s <| g_cursor_last_tick := now |> in
  if g_cursor_visible s then cursor_restore_cell s else cursor_draw_overlay s.

(** ** The scrollback *)

Definition hist_clear_line (logical_line : Z) (s : console) : console :=
  let h := g_history s in
  s <| g_history := upd h (hist_slot logical_line)
         (λ x, if bool_decide (0 ≤ x < MAX_COLS) then mkCell 32 (g_fg_packed s) (g_bg_packed s)
               else h (hist_slot logical_line) x) |>.

Definition hist_put (col c : Z) (s : console) : console :=
  if MAX_COLS <=? col then s else
  let h := g_history s in
  let slot := hist_slot (g_total_lines s) in
  s <| g_history := upd h slot (upd (h slot) col (mkCell c (g_fg_packed s) (g_bg_packed s))) |>.

Definition hist_new_line (s : console) : console :=
  let s := s <| g_total_lines := u64 (g_total_lines s + 1) |> in
  hist_clear_line (g_total_lines s) s.

Definition render_history_row (screen_row logical_line : Z) (valid : bool) (s : console) : console :=
  s <| g_video := foldl (λ v x,
         if valid then
           let cell := cell_at s logical_line x in
           draw_glyph_raw (fb_of s) x screen_row (ch cell) (fg cell) (bg cell) v
         else draw_glyph_raw (fb_of s) x screen_row 32 (g_bg_packed s) (g_bg_packed s) v)
         (g_video s) (seqZ 0 (Z.min (g_cols s) MAX_COLS)) |>.

Definition console_redraw (s : console) : console :=
  foldl (λ s r,
    let logical := g_total_lines s - g_scroll_offset s - (g_rows s - 1 - r) in
    let valid := (0 <=? logical) && (g_total_lines s - logical <? SCROLLBACK_LINES) in
    render_history_row r (if valid then logical else 0) valid s) s (seqZ 0 (g_rows s)).

Definition console_scroll (delta : Z) (s : console) : console :=
  if bool_decide (g_fb s = None) then s else
  let new_offset := g_scroll_offset s + delta in
  let max_offset := if SCROLLBACK_LINES - 1 <? g_total_lines s then SCROLLBACK_LINES - 1 else g_total_lines s in
  let new_offset := if new_offset <? 0 then 0 else new_offset in
  let new_offset := if max_offset <? new_offset then max_offset else new_offset in
  if u32 new_offset =? g_scroll_offset s then s else
  let s := console_cursor_hide s in
  let s := s <| g_scroll_offset := u32 new_offset |> in
  console_cursor_show (console_redraw s).

(** ** Output *)

Definition fill_lines (fb : nexus_framebuffer_t) (y0 bgc : Z) (v : Z → Z) : Z → Z :=
  for_xy (seqZ 0 (width fb)) (seqZ y0 (height fb - y0)) (λ x y v, upd v (pixel_addr fb x y) bgc) v.

Definition console_clear (s : console) : console :=
  let s := console_cursor_hide s in
  let s := hist_new_line s in
  let s := s <| g_scroll_offset := 0 |> <| g_col := 0 |> <| g_row := 0 |> in
  let s := s <| g_video := fill_lines (fb_of s) 0 (g_bg_packed s) (g_video s) |> in
  console_cursor_show s.

Definition console_set_color (fgc bgc : Z) (s : console) : console :=
  s <| g_fg := fgc |> <| g_bg := bgc |>
    <| g_fg_packed := pack_color (fb_of s) fgc |> <| g_bg_packed := pack_color (fb_of s) bgc |>.

Definition console_init (fb : nexus_framebuffer_t) (s : console) : console :=
  let s := s <| g_fb := Some fb |> <| g_cols := width fb / FONT_WIDTH |>
             <| g_rows := height fb / FONT_HEIGHT |> in
  let s := s <| g_fg_packed := pack_color fb (g_fg s) |> <| g_bg_packed := pack_color fb (g_bg s) |> in
  let s := s <| g_total_lines := 0 |> <| g_scroll_offset := 0 |> <| g_cursor_enabled := false |>
             <| g_cursor_visible := false |> <| g_cursor_last_tick := 0 |> in
  let s := foldl (λ s i, hist_clear_line i s) s (seqZ 0 SCROLLBACK_LINES) in
  console_clear s.

(** The copy of [height - 16] lines, in words: the byte ranges are whole words. *)
Definition scroll_if_needed (s : console) : console :=
  if g_row s <? g_rows s then s else
  let fb := fb_of s in
  let line := pixels_per_scanline fb in
  let v := (Mem.memmove 0 (FONT_HEIGHT * line) (u32 (height fb - FONT_HEIGHT) * line) (g_video s)).2 in
  s <| g_video := fill_lines fb (u32 (height fb - FONT_HEIGHT)) (g_bg_packed s) v |>
    <| g_row := g_rows s - 1 |>.

Definition console_capture_begin (capacity : Z) (s : console) : console :=
  s <| g_capture_capacity := capacity |> <| g_capture_length := 0 |>
    <| g_capture_active := 0 <? capacity |> <| g_capture_buffer := [] |>.

(** With the text that the caller's buffer holds afterwards. *)
Definition console_capture_end (s : console) : Z * cstr * console :=
  (g_capture_length s, g_capture_buffer s,
   s <| g_capture_active := false |> <| g_capture_buffer := [] |> <| g_capture_capacity := 0 |>).

Definition console_capture_active (s : console) : bool := g_capture_active s.

Definition next_line (s : console) : console :=
  let s := hist_new_line s in
  let s := s <| g_col := 0 |> in
  let s := s <| g_row := g_row s + 1 |> in
  scroll_if_needed s.

Definition console_putchar (c : Z) (s : console) : console :=
  if g_capture_active s then
    if g_capture_length s + 1 <? g_capture_capacity s
    then s <| g_capture_buffer := g_capture_buffer s ++ [c] |> <| g_capture_length := g_capture_length s + 1 |> else s
  else
  let s := console_cursor_hide s in
  let s := if negb (g_scroll_offset s =? 0) then console_redraw (s <| g_scroll_offset := 0 |>) else s in
  if c =? 10 then console_cursor_show (next_line s) else
  if c =? 13 then s <| g_col := 0 |> else
  if c =? 8 then
    let s := if 0 <? g_col s then
               let s := s <| g_col := g_col s - 1 |> in
               hist_put (g_col s) 32 (draw_glyph (g_col s) (g_row s) 32 s)
             else s in
    console_cursor_show s
  else
  let s := draw_glyph (g_col s) (g_row s) c s in
  let s := hist_put (g_col s) c s in
  let s := s <| g_col := g_col s + 1 |> in
  let s := if g_cols s <=? g_col s then next_line s else s in
  console_cursor_show s.

Definition console_print (t : cstr) (s : console) : console := foldl (λ s c, console_putchar c s) s t.

(** ** Status lines *)

(** The loop [while (g_col < target_col) console_putchar(' ')]; [None] when it
    has not ended after [fuel] rounds. *)
Fixpoint pad_loop (fuel : nat) (target_col : Z) (s : console) : option console :=
  if g_col s <? target_col then
    match fuel with
    | O => None
    | S fuel => pad_loop fuel target_col (console_putchar 32 s)
    end
  else Some s.

Definition print_status (fuel : nat) (label : cstr) (color : Z) (s : console) : option console :=
  let status_width := Z.of_nat (length label) + 4 in
  let target_col := if status_width <? g_cols s then g_cols s - status_width else g_col s in
  let saved_fg := g_fg s in
  let saved_bg := g_bg s in
  let padded := if g_col s <? target_col then pad_loop fuel target_col (console_set_color saved_fg saved_bg s)
                else Some s in
  s ← padded;
  let s := console_set_color COLOR_WHITE saved_bg s in
  let s := console_putchar 32 (console_putchar 91 s) in
  let s := console_print label (console_set_color color saved_bg s) in
  let s := console_set_color COLOR_WHITE saved_bg s in
  let s := console_putchar 10 (console_putchar 93 (console_putchar 32 s)) in
  Some (console_set_color saved_fg saved_bg s).

Definition console_status_ok (fuel : nat) : console → option console := print_status fuel (lit "OK") COLOR_GREEN.
Definition console_status_fail (fuel : nat) : console → option console := print_status fuel (lit "FAIL") COLOR_RED.
Definition console_status_warn (fuel : nat) : console → option console := print_status fuel (lit "WARN") COLOR_YELLOW.

Definition console_component_status (name type version : option cstr) (ok : bool) (s : console) : console :=
  let saved_fg := g_fg s in
  let saved_bg := g_bg s in
  let safe_name := default (lit "component") name in
  let safe_type := default (lit "service") type in
  let safe_version := default (lit "unknown") version in
  let s := console_print safe_name (console_set_color COLOR_CYAN saved_bg s) in
  let s := console_putchar 32 (console_set_color COLOR_WHITE saved_bg s) in
  let s := console_putchar 32 (console_print safe_type s) in
  let s := console_putchar 32 (console_print safe_version s) in
  let s := console_print (lit "[ ") s in
  let s := console_set_color (if ok then COLOR_GREEN else COLOR_RED) saved_bg s in
  let s := console_print (if ok then lit " OK  " else lit " FAIL ") s in
  let s := console_print (lit "]") (console_set_color COLOR_WHITE saved_bg s) in
  let s := console_putchar 10 s in
  console_set_color saved_fg saved_bg s.

(** ** Numbers *)

Definition hex_digits : cstr := lit "0123456789ABCDEF".

(** [buf] from index [15 - i] on, after the rounds up to [i]. *)
Fixpoint hex_loop (n : nat) (value : Z) (buf : cstr) : cstr :=
  match n with
  | O => buf
  | S n => hex_loop n (Z.shiftr value 4) (default 0 (hex_digits !! Z.to_nat (Z.land value 15)) :: buf)
  end.

Definition console_print_hex (value : Z) (s : console) : console :=
  console_print (hex_loop 16 value []) (console_print (lit "0x") s).

(** The loop [while (value > 0)]; a 64-bit value has at most twenty digits. *)
Fixpoint dec_loop (fuel : nat) (value : Z) (buf : cstr) : cstr :=
  match fuel with
  | O => buf
  | S fuel => if 0 <? value then dec_loop fuel (value / 10) (48 + value mod 10 :: buf) else buf
  end.

Definition dec_text (value : Z) : cstr := if value =? 0 then [48] else dec_loop 20 value [].

Definition console_print_dec (value : Z) (s : console) : console := console_print (dec_text value) s.

Definition console_get_cols (s : console) : Z := g_cols s.
Definition console_get_rows (s : console) : Z := g_rows s.

End Console.
