(* ===== verification/ConsoleSpec.v ===== *)
(** * The text console: the screen and the history

    What the console draws against what it keeps: after any sequence of
    operations every cell of the screen shows the cell of the scrollback that
    belongs there.  Defects of the scrollback and of the status lines. *)

From Stdlib Require Import Lia ZArith Bool.
From stdpp Require Import base list numbers strings.
From S2P Require Import Prelude Mem Font Console.

Local Open Scope Z_scope.

Module ConsoleSpec.
Import Console.

(** ** Pixels *)

Section pixels.
Context (fb : nexus_framebuffer_t) (Hw : 0 < width fb ≤ pixels_per_scanline fb).
Implicit Types v : Z → Z.

Lemma pixel_addr_inj x y x' y' :
  0 ≤ x < pixels_per_scanline fb → 0 ≤ x' < pixels_per_scanline fb →
  pixel_addr fb x y = pixel_addr fb x' y' → x = x' ∧ y = y'.
Proof using Hw.
  unfold pixel_addr. intros Hx Hx' E.
  assert (y = y') as -> by nia. split; [lia|done].
Qed.

Lemma line_at xs px y C v x y' :
  (∀ a, a ∈ xs → 0 ≤ px + a < pixels_per_scanline fb) → 0 ≤ x < pixels_per_scanline fb →
  foldl (λ v a, upd v (pixel_addr fb (px + a) y) (C a)) v xs (pixel_addr fb x y') =
  if decide (x - px ∈ xs ∧ y = y') then C (x - px) else v (pixel_addr fb x y').
Proof using Hw.
  intros Hxs Hx. revert v. induction xs as [|a xs IH]; intros v; cbn [foldl].
  { rewrite decide_False; [done|]. intros [H _]. by apply not_elem_of_nil in H. }
  rewrite IH by (intros b Hb; apply Hxs; by right).
  destruct (decide (x - px ∈ xs ∧ y = y')) as [[H1 H2]|Hn].
  - rewrite decide_True; [done|]. split; [by right|done].
  - destruct (decide (x - px = a ∧ y = y')) as [[Ha ->]|Hn'].
    + rewrite decide_True; [|rewrite Ha; split; [by left|done]].
      replace (px + a) with x by lia. subst a. apply upd_eq.
    + assert (pixel_addr fb x y' ≠ pixel_addr fb (px + a) y) as Hne.
      { intros E. apply pixel_addr_inj in E as [-> ->]; [|done|apply Hxs; by left].
        apply Hn'. split; [lia|done]. }
      rewrite upd_ne by done. rewrite decide_False; [done|]. intros [H1 H2].
      apply elem_of_cons in H1 as [H1|H1]; [by apply Hn'|by apply Hn].
Qed.

Lemma for_xy_at xs ys px py C v x y :
  (∀ a, a ∈ xs → 0 ≤ px + a < pixels_per_scanline fb) → 0 ≤ x < pixels_per_scanline fb →
  for_xy xs ys (λ a b v, upd v (pixel_addr fb (px + a) (py + b)) (C a b)) v (pixel_addr fb x y) =
  if decide (x - px ∈ xs ∧ y - py ∈ ys) then C (x - px) (y - py) else v (pixel_addr fb x y).
Proof using Hw.
  intros Hxs Hx. unfold for_xy. revert v. induction ys as [|b ys IH]; intros v; cbn [foldl].
  { rewrite decide_False; [done|]. intros [_ H]. by apply not_elem_of_nil in H. }
  rewrite IH, (line_at xs px (py + b) (λ a, C a b)) by done.
  destruct (decide (x - px ∈ xs ∧ y - py ∈ ys)) as [[H1 H2]|Hn].
  - rewrite decide_True; [done|]. split; [done|by right].
  - destruct (decide (x - px ∈ xs ∧ py + b = y)) as [[H1 H2]|Hn'].
    + subst y. replace (py + b - py) with b by lia.
      rewrite decide_True; [done|]. split; [done|by left].
    + rewrite decide_False; [done|]. intros [H1 H2].
      apply elem_of_cons in H2 as [H2|H2]; [|by apply Hn]. apply Hn'. split; [done|lia].
Qed.

Lemma for_xy_ext xs ys f g v :
  (∀ a b v, a ∈ xs → b ∈ ys → f a b v = g a b v) → for_xy xs ys f v = for_xy xs ys g v.
Proof.
  intros H. unfold for_xy. revert v. induction ys as [|b ys IH]; intros v; cbn [foldl]; [done|].
  rewrite IH by (intros a b' v' ? ?; apply H; [done|by right]). f_equal.
  assert (∀ a v, a ∈ xs → f a b v = g a b v) as H' by (intros; apply H; [done|by left]).
  clear -H'. revert v. induction xs as [|a xs IH]; intros v; cbn [foldl]; [done|].
  rewrite H' by (by left). apply IH. intros a' v' Ha'. apply H'. by right.
Qed.

(** The pixel of a character in its cell. *)
Definition glyph_pixel (c fgc bgc x y : Z) : Z := if font_bit (glyph_index c) x y then fgc else bgc.

Definition in_cell (col row x y : Z) : Prop := col * 8 ≤ x < col * 8 + 8 ∧ row * 16 ≤ y < row * 16 + 16.
#[export] Instance in_cell_dec col row x y : Decision (in_cell col row x y) := ltac:(unfold in_cell; apply _).

Definition on_screen (col row : Z) : Prop :=
  0 ≤ col ∧ col * 8 + 8 ≤ width fb ∧ 0 ≤ row ∧ row * 16 + 16 ≤ height fb.

Context (Hbig : width fb < 2 ^ 31 ∧ height fb < 2 ^ 31).

Lemma draw_glyph_at col row c fgc bgc v x y :
  on_screen col row → 0 ≤ x < width fb →
  draw_glyph_raw fb col row c fgc bgc v (pixel_addr fb x y) =
  if decide (in_cell col row x y) then glyph_pixel c fgc bgc (x - col * 8) (y - row * 16)
  else v (pixel_addr fb x y).
Proof using Hw Hbig.
  intros (H1 & H2 & H3 & H4) Hx. unfold draw_glyph_raw, FONT_WIDTH, FONT_HEIGHT.
  rewrite (u32_small (col * 8)), (u32_small (row * 16)) by lia.
  rewrite (for_xy_ext _ _ _ (λ a b v, upd v (pixel_addr fb (col * 8 + a) (row * 16 + b)) (glyph_pixel c fgc bgc a b))).
  2:{ intros a b v' Ha Hb. apply elem_of_seqZ in Ha, Hb. rewrite !u32_small by lia. unfold put_pixel.
      destruct (Z.leb_spec (width fb) (col * 8 + a)); [lia|].
      destruct (Z.leb_spec (height fb) (row * 16 + b)); [lia|]. done. }
  rewrite for_xy_at by ((intros a Ha; apply elem_of_seqZ in Ha; lia) || lia).
  unfold in_cell. do 2 case_decide; rewrite ?elem_of_seqZ in *; try done; exfalso; lia.
Qed.

Lemma fill_lines_at y0 bgc v x y :
  0 ≤ x < width fb →
  fill_lines fb y0 bgc v (pixel_addr fb x y) = if decide (y0 ≤ y < height fb) then bgc else v (pixel_addr fb x y).
Proof using Hw.
  intros Hx. unfold fill_lines.
  rewrite (for_xy_ext _ _ _ (λ a b v, upd v (pixel_addr fb (0 + a) (0 + b)) bgc)) by (intros; done).
  rewrite for_xy_at by ((intros a Ha; apply elem_of_seqZ in Ha; lia) || lia).
  do 2 case_decide; rewrite ?elem_of_seqZ in *; try done; exfalso; lia.
Qed.

Lemma scroll_at v x y :
  0 ≤ x < width fb → 16 ≤ height fb → 0 ≤ y →
  (Mem.memmove 0 (FONT_HEIGHT * pixels_per_scanline fb)
     (u32 (height fb - FONT_HEIGHT) * pixels_per_scanline fb) v).2 (pixel_addr fb x y) =
  if decide (y < height fb - 16) then v (pixel_addr fb x (y + 16)) else v (pixel_addr fb x y).
Proof using Hw Hbig.
  intros Hx Hh Hy. unfold FONT_HEIGHT. rewrite u32_small by lia. rewrite Mem.memmove_at by nia.
  unfold pixel_addr. case_bool_decide; case_decide; try (exfalso; nia); [|done]. f_equal. nia.
Qed.

End pixels.

(** ** Screen and history *)

(** A framebuffer the console can serve: at least one cell, at most [MAX_COLS]
    columns and [SCROLLBACK_LINES] rows. *)
Record geometry (fb : nexus_framebuffer_t) : Prop := {
  geo_pitch : width fb ≤ pixels_per_scanline fb;
  geo_width : 8 ≤ width fb < (MAX_COLS + 1) * 8;
  geo_height : 16 ≤ height fb < (SCROLLBACK_LINES + 1) * 16;
}.

Section screen.
Context (fb : nexus_framebuffer_t) (HG : geometry fb) (B : Z).
Implicit Types (s : console) (v : Z → Z) (E : Z → Z → console_cell_t) (lo : Z → Z → Z).

Definition cols : Z := width fb / 8.
Definition rows : Z := height fb / 16.
Definition blank : console_cell_t := mkCell 32 B B.

(** The pixels of a cell from its column [lo] on. *)
Definition cell_shows v (lo c r : Z) (cell : console_cell_t) : Prop :=
  ∀ x y, c * 8 + lo ≤ x < c * 8 + 8 → r * 16 ≤ y < r * 16 + 16 →
    v (pixel_addr fb x y) = glyph_pixel (ch cell) (fg cell) (bg cell) (x - c * 8) (y - r * 16).

Definition shows v E lo : Prop :=
  ∀ c r, 0 ≤ c < cols → 0 ≤ r < rows → cell_shows v (lo c r) c r (E c r).

(** The lines below the last row of text. *)
Definition stripe v : Prop :=
  ∀ x y, 0 ≤ x < width fb → rows * 16 ≤ y < height fb → v (pixel_addr fb x y) = B.

(** The cell of the scrollback that belongs at column [c] of row [r]. *)
Definition expected s (c r : Z) : console_cell_t :=
  if g_scroll_offset s =? 0 then
    if r <=? g_row s then cell_at s (g_total_lines s - (g_row s - r)) c else blank
  else
    let line := g_total_lines s - g_scroll_offset s - (g_rows s - 1 - r) in
    if (0 <=? line) && (g_total_lines s - line <? SCROLLBACK_LINES) then cell_at s line c else blank.

(** The cell under the cursor may be covered: by the caret, which is two pixels
    wide, and in the scrolled view as a whole. *)
Definition covered s (c r : Z) : Z :=
  if (c =? g_col s) && (r =? g_row s) then
    if negb (g_scroll_offset s =? 0) then 8 else if g_cursor_visible s then 2 else 0
  else 0.

Record base s : Prop := {
  b_fb : g_fb s = Some fb;
  b_cols : g_cols s = cols;
  b_rows : g_rows s = rows;
  b_row : 0 ≤ g_row s < rows;
  b_total : g_row s ≤ g_total_lines s;
  b_bg : g_bg_packed s = B;
}.

Record inv s : Prop := {
  i_base : base s;
  i_col : 0 ≤ g_col s < cols;
  i_offset : 0 ≤ g_scroll_offset s;
  i_scrolled : g_scroll_offset s ≠ 0 → g_row s = rows - 1;
  i_shows : shows (g_video s) (expected s) (covered s);
  i_stripe : stripe (g_video s);
}.

(** No cursor, live view. *)
Record clean s : Prop := {
  c_base : base s;
  c_hidden : g_cursor_visible s = false;
  c_live : g_scroll_offset s = 0;
  c_shows : shows (g_video s) (expected s) (λ _ _, 0);
  c_stripe : stripe (g_video s);
}.

Lemma geo_bounds : 1 ≤ cols ≤ MAX_COLS ∧ 1 ≤ rows ≤ SCROLLBACK_LINES ∧ cols * 8 ≤ width fb ∧ rows * 16 ≤ height fb < rows * 16 + 16.
Proof using HG.
  destruct HG. unfold cols, rows, MAX_COLS, SCROLLBACK_LINES in *.
  pose proof (Z.div_mod (width fb) 8). pose proof (Z.mod_pos_bound (width fb) 8).
  pose proof (Z.div_mod (height fb) 16). pose proof (Z.mod_pos_bound (height fb) 16). lia.
Qed.

Lemma geo_pixels : (0 < width fb ≤ pixels_per_scanline fb) ∧ width fb < 2 ^ 31 ∧ height fb < 2 ^ 31.
Proof using HG. destruct HG. unfold MAX_COLS, SCROLLBACK_LINES in *. lia. Qed.

Lemma cell_on_screen c r : 0 ≤ c < cols → 0 ≤ r < rows → on_screen fb c r.
Proof using HG. pose proof geo_bounds. unfold on_screen. lia. Qed.

Lemma space_pixel f x y : 0 ≤ x < 8 → 0 ≤ y < 16 → glyph_pixel 32 f B x y = B.
Proof.
  intros Hx Hy. unfold glyph_pixel.
  assert (forallb (λ y, forallb (λ x, negb (font_bit (glyph_index 32) x y)) (seqZ 0 8)) (seqZ 0 16) = true) as H
    by (vm_compute; reflexivity).
  rewrite forallb_forall in H. specialize (H y). rewrite forallb_forall in H.
  assert (∀ a n, 0 ≤ a < n → In a (seqZ 0 n)) as Hin.
  { intros a n Ha. apply list_elem_of_In, elem_of_seqZ. lia. }
  specialize (H (Hin y 16 Hy) x (Hin x 8 Hx)). apply negb_true_iff in H. by rewrite H.
Qed.

(** Two cells with the same pixels. *)
Lemma cell_shows_space v (lo c r f : Z) : 0 ≤ lo → cell_shows v lo c r (mkCell 32 f B) ↔ cell_shows v lo c r blank.
Proof.
  intros Hlo. unfold cell_shows, blank; cbn [ch Console.fg Console.bg].
  split; intros H x y Hx Hy; rewrite H by done; rewrite !space_pixel by lia; done.
Qed.

Lemma draw_glyph_shows v E lo c r cell :
  0 ≤ c < cols → 0 ≤ r < rows → shows v E lo → stripe v → (∀ c r, 0 ≤ lo c r) →
  let v' := draw_glyph_raw fb c r (ch cell) (fg cell) (bg cell) v in
  shows v' (λ c' r', if bool_decide (c' = c ∧ r' = r) then cell else E c' r')
    (λ c' r', if bool_decide (c' = c ∧ r' = r) then 0 else lo c' r') ∧ stripe v'.
Proof using HG.
  intros Hc Hr Hs Hst Hlo v'. destruct geo_pixels as [Hp Hb]. pose proof geo_bounds as Hg.
  assert (∀ x y, 0 ≤ x < width fb → v' (pixel_addr fb x y) =
    if decide (in_cell c r x y) then glyph_pixel (ch cell) (fg cell) (bg cell) (x - c * 8) (y - r * 16)
    else v (pixel_addr fb x y)) as Hv.
  { intros x y Hx. apply draw_glyph_at; auto using cell_on_screen. }
  split.
  - intros c' r' Hc' Hr' x y Hx Hy. specialize (Hlo c' r').
    assert (0 ≤ x) by (case_bool_decide; lia). rewrite Hv by lia. unfold in_cell.
    case_bool_decide as Hd.
    + destruct Hd as [-> ->]. rewrite decide_True by lia. done.
    + rewrite decide_False by lia. by apply Hs.
  - intros x y Hx Hy. rewrite Hv by lia. rewrite decide_False; [by apply Hst|]. unfold in_cell. lia.
Qed.

Lemma shows_ext v E lo E' lo' :
  shows v E lo →
  (∀ c r, 0 ≤ c < cols → 0 ≤ r < rows → 8 ≤ lo' c r ∨ (E c r = E' c r ∧ lo c r ≤ lo' c r)) → shows v E' lo'.
Proof.
  intros H He c r Hc Hr x y Hx Hy. destruct (He c r Hc Hr) as [?|[<- Hl]]; [lia|]. apply H; try done. lia.
Qed.

Lemma covered_range s c r : 0 ≤ covered s c r.
Proof. unfold covered. repeat case_match; lia. Qed.

#[local] Opaque draw_glyph_raw for_xy fill_lines font_bit seqZ.

(** ** The cursor *)

Lemma video_same s : g_cursor_visible s = false → s <| g_video := g_video s |> <| g_cursor_visible := false |> = s.
Proof. destruct s; cbn. by intros ->. Qed.

Lemma draw_glyph_eq c r x s :
  g_fb s = Some fb →
  draw_glyph c r x s = s <| g_video := draw_glyph_raw fb c r x (g_fg_packed s) (g_bg_packed s) (g_video s) |>.
Proof. intros H. unfold draw_glyph, fb_of. rewrite H. reflexivity. Qed.

(** Redrawing the cell under the cursor uncovers it. *)
Lemma restore_inv s cell :
  inv s → g_cursor_visible s = true → (g_scroll_offset s = 0 → cell = expected s (g_col s) (g_row s)) →
  inv (s <| g_video := draw_glyph_raw fb (g_col s) (g_row s) (ch cell) (fg cell) (bg cell) (g_video s) |>
         <| g_cursor_visible := false |>).
Proof using HG.
  intros [Hb Hc Ho Hsc Hs Hst] Hv Hcell. pose proof Hb as [H1 H2 H3 H4 H5 H6].
  destruct (draw_glyph_shows (g_video s) (expected s) (covered s) (g_col s) (g_row s) cell) as [Hd Hd2];
    auto using covered_range.
  split; [by split|exact Hc|exact Ho|exact Hsc| |exact Hd2].
  eapply shows_ext; [exact Hd|]. intros c r _ _.
  change (8 ≤ covered (s <| g_cursor_visible := false |>) c r ∨ (if bool_decide (c = g_col s ∧ r = g_row s)
    then cell else expected s c r) = expected s c r ∧
    (if bool_decide (c = g_col s ∧ r = g_row s) then 0 else covered s c r)
      ≤ covered (s <| g_cursor_visible := false |>) c r).
  unfold covered at 1 3. cbn [g_col g_row g_scroll_offset g_cursor_visible set_field].
  case_bool_decide as Hd'.
  - destruct Hd' as [-> ->]. rewrite !Z.eqb_refl. cbn [andb].
    destruct (Z.eqb_spec (g_scroll_offset s) 0) as [E0|]; cbn [negb]; [right|left; lia].
    split; [by apply Hcell|lia].
  - right. split; [done|]. unfold covered.
    destruct (Z.eqb_spec c (g_col s)), (Z.eqb_spec r (g_row s)); cbn [andb]; try lia; by destruct Hd'.
Qed.

Lemma hide_spec s :
  inv s → ∃ v, let s' := s <| g_video := v |> <| g_cursor_visible := false |> in console_cursor_hide s = s' ∧ inv s'.
Proof using HG.
  intros [Hb Hc Ho Hsc Hs Hst]. pose proof Hb as [H1 H2 H3 H4 H5 H6].
  unfold console_cursor_hide, cursor_restore_cell. rewrite H1, H2, H3.
  rewrite bool_decide_false by done. rewrite orb_false_r.
  destruct (g_cursor_visible s) eqn:Hv; cbn [negb].
  2:{ exists (g_video s). cbv zeta. rewrite video_same by done. split; [done|by constructor]. }
  destruct (Z.leb_spec rows (g_row s)); [lia|]. destruct (Z.leb_spec cols (g_col s)); [lia|]. cbn [orb].
  destruct (Z.eqb_spec (g_scroll_offset s) 0) as [E0|E0].
  - unfold fb_of. rewrite H1. eexists. split; [reflexivity|]. apply restore_inv; [by split|done|].
    intros _. unfold expected. rewrite (proj2 (Z.eqb_eq _ _) E0), Z.leb_refl. f_equal. lia.
  - rewrite draw_glyph_eq by done. eexists. split; [reflexivity|].
    apply (restore_inv s (mkCell 32 (g_fg_packed s) (g_bg_packed s))); [by split|done|done].
Qed.

Lemma visible_inv s : inv s → inv (s <| g_cursor_visible := true |>).
Proof.
  intros [Hb Hc Ho Hsc Hs Hst]. split; [by destruct Hb; split|exact Hc|exact Ho|exact Hsc| |exact Hst].
  eapply shows_ext; [exact Hs|]. intros c r _ _. right. split; [done|].
  unfold covered; cbn. repeat case_match; lia.
Qed.

Lemma overlay_on s :
  inv (s <| g_cursor_visible := true |>) → g_cursor_visible s = false → g_cursor_enabled s = true →
  ∃ v, let s' := s <| g_video := v |> <| g_cursor_visible := true |> in cursor_draw_overlay s = s' ∧ inv s'.
Proof using HG.
  intros [Hb Hc Ho Hsc Hs Hst] Hv He. pose proof Hb as [H1 H2 H3 H4 H5 H6].
  cbn [g_fb g_cols g_rows g_col g_row g_scroll_offset g_video g_bg_packed g_total_lines set_field] in *.
  pose proof geo_bounds as Hg. destruct geo_pixels as [Hp Hbig]. unfold cursor_draw_overlay. rewrite H1, H2, H3, Hv, He.
  rewrite bool_decide_false by done. cbn [negb orb].
  destruct (Z.leb_spec rows (g_row s)); [lia|]. destruct (Z.leb_spec cols (g_col s)); [lia|]. cbn [orb].
  unfold fb_of. rewrite H1. cbn [default]. change (id fb) with fb. unfold FONT_WIDTH, FONT_HEIGHT.
  rewrite !u32_small by (destruct HG; unfold MAX_COLS, SCROLLBACK_LINES in *; lia).
  set (xs := filter _ _).
  assert (∀ a, a ∈ xs → 0 ≤ g_col s * 8 + a < pixels_per_scanline fb) as Hxs.
  { intros a [Ha1 Ha2]%list_elem_of_filter. apply elem_of_seqZ in Ha2. lia. }
  eexists. split; [reflexivity|].
  assert (∀ x y, 0 ≤ x < width fb → ¬ (in_cell (g_col s) (g_row s) x y ∧ x < g_col s * 8 + 2) →
    for_xy xs (seqZ 0 16) (λ a b v, upd v (pixel_addr fb (g_col s * 8 + a) (g_row s * 16 + b)) (g_fg_packed s))
      (g_video s) (pixel_addr fb x y) = g_video s (pixel_addr fb x y)) as Hpix.
  { intros x y Hx Hn. rewrite (for_xy_at fb Hp _ _ _ _ (λ _ _, g_fg_packed s)) by (auto; lia).
    rewrite decide_False; [done|]. intros [Ha Hy]. apply elem_of_seqZ in Hy. apply list_elem_of_filter in Ha as [_ Ha].
    apply elem_of_seqZ in Ha. apply Hn. unfold in_cell. lia. }
  split; [by destruct Hb; split|exact Hc|exact Ho|exact Hsc| |].
  - intros c r Hc' Hr x y Hx Hy. pose proof (covered_range (s <| g_cursor_visible := true |>) c r) as Hpos.
    change (covered (s <| g_video := _ |> <| g_cursor_visible := true |>) c r)
      with (covered (s <| g_cursor_visible := true |>) c r) in Hx.
    cbn [g_video set_field]. rewrite Hpix; [by apply Hs|lia|].
    intros [[Hin1 Hin2] Hx2]. assert (c = g_col s ∧ r = g_row s) as [-> ->] by lia.
    revert Hx. unfold covered; cbn. rewrite !Z.eqb_refl. cbn. case_match; cbn; lia.
  - intros x y Hx Hy. cbn. rewrite Hpix; [by apply Hst|done|]. unfold in_cell. lia.
Qed.

Lemma overlay_spec s :
  inv s → g_cursor_visible s = false →
  ∃ v b, let s' := s <| g_video := v |> <| g_cursor_visible := b |> in cursor_draw_overlay s = s' ∧ inv s'.
Proof using HG.
  intros Hi Hv. destruct (g_cursor_enabled s) eqn:He.
  - destruct (overlay_on s (visible_inv s Hi) Hv He) as (v & H). by exists v, true.
  - unfold cursor_draw_overlay. rewrite He. exists (g_video s), false. cbv zeta. by rewrite video_same.
Qed.

Lemma show_spec s :
  inv s → ∃ v b, let s' := s <| g_video := v |> <| g_cursor_visible := b |> in console_cursor_show s = s' ∧ inv s'.
Proof using HG.
  intros Hi. unfold console_cursor_show.
  assert (∃ v b, let s' := s <| g_video := v |> <| g_cursor_visible := b |> in s = s' ∧ inv s') as Hsame.
  { exists (g_video s), (g_cursor_visible s). destruct s; done. }
  destruct (g_cursor_enabled s); cbn; [|exact Hsame]. destruct (g_cursor_visible s) eqn:Hv; [exact Hsame|].
  by apply overlay_spec.
Qed.

(** ** Redrawing *)

Lemma draw_row E r cs v lo (cell : Z → console_cell_t) :
  0 ≤ r < rows → (∀ c, c ∈ cs → 0 ≤ c < cols) → (∀ c, c ∈ cs → cell c = E c r) → (∀ c r, 0 ≤ lo c r) →
  shows v E lo → stripe v →
  let v' := foldl (λ v c, draw_glyph_raw fb c r (ch (cell c)) (fg (cell c)) (bg (cell c)) v) v cs in
  shows v' E (λ c' r', if bool_decide (r' = r ∧ c' ∈ cs) then 0 else lo c' r') ∧ stripe v'.
Proof using HG.
  intros Hr. revert v lo. induction cs as [|c cs IH]; intros v lo Hcs Hcell Hlo Hs Hst; cbn [foldl].
  { split; [|done]. eapply shows_ext; [exact Hs|]. intros c' r' _ _. right. split; [done|].
    rewrite bool_decide_false; [done|]. intros [_ H]. by apply not_elem_of_nil in H. }
  destruct (draw_glyph_shows v E lo c r (cell c)) as [H1 H2]; [apply Hcs; by left|done..|].
  destruct (IH (draw_glyph_raw fb c r (ch (cell c)) (fg (cell c)) (bg (cell c)) v)
    (λ c' r', if bool_decide (c' = c ∧ r' = r) then 0 else lo c' r')) as [H3 H4].
  - intros c' Hc'. apply Hcs. by right.
  - intros c' Hc'. apply Hcell. by right.
  - intros c' r'. case_bool_decide; [done|apply Hlo].
  - eapply shows_ext; [exact H1|]. intros c' r' _ _. right. split; [|done].
    case_bool_decide as Hd; [|done]. destruct Hd as [-> ->]. apply Hcell. by left.
  - exact H2.
  - split; [|exact H4]. eapply shows_ext; [exact H3|]. intros c' r' _ _. right. split; [done|]. cbv beta.
    specialize (Hlo c' r').
    destruct (decide (r' = r)) as [->|]; [|rewrite !bool_decide_false by tauto; done].
    destruct (decide (c' ∈ cs)); [rewrite !bool_decide_true by (split; [done|]; (done || by right)); done|].
    destruct (decide (c' = c)) as [->|Hne].
    + rewrite (bool_decide_true (r = r ∧ c ∈ c :: cs)) by (split; [done|by left]).
      rewrite (bool_decide_true (c = c ∧ r = r)) by done. case_bool_decide; lia.
    + rewrite (bool_decide_false (c' = c ∧ r = r)) by tauto.
      rewrite (bool_decide_false (r = r ∧ c' ∈ cs)) by tauto.
      rewrite bool_decide_false; [done|]. intros [_ [?|?]%elem_of_cons]; done.
Qed.

(** What [console_redraw] puts at column [c] of row [r]. *)
Definition redrawn s (c r : Z) : console_cell_t :=
  let line := g_total_lines s - g_scroll_offset s - (g_rows s - 1 - r) in
  if (0 <=? line) && (g_total_lines s - line <? SCROLLBACK_LINES) then cell_at s line c else blank.

Lemma render_row_spec s r :
  base s → 0 ≤ r < rows →
  let line := g_total_lines s - g_scroll_offset s - (g_rows s - 1 - r) in
  let valid := (0 <=? line) && (g_total_lines s - line <? SCROLLBACK_LINES) in
  render_history_row r (if valid then line else 0) valid s =
  s <| g_video := foldl (λ v c, let cell := redrawn s c r in
         draw_glyph_raw fb c r (ch cell) (fg cell) (bg cell) v) (g_video s) (seqZ 0 cols) |>.
Proof using HG.
  intros [H1 H2 H3 H4 H5 H6] Hr line valid. pose proof geo_bounds. unfold render_history_row, fb_of.
  rewrite H1, H2, H6. cbn [default]. rewrite Z.min_l by lia. unfold redrawn. subst valid line.
  destruct (_ && _); reflexivity.
Qed.

Lemma redraw_rows s rs :
  base s → stripe (g_video s) → (∀ r, r ∈ rs → 0 ≤ r < rows) →
  ∀ v lo, shows v (redrawn s) lo → stripe v → (∀ c r, 0 ≤ lo c r) →
  ∃ v', foldl (λ s r,
      let logical := g_total_lines s - g_scroll_offset s - (g_rows s - 1 - r) in
      let valid := (0 <=? logical) && (g_total_lines s - logical <? SCROLLBACK_LINES) in
      render_history_row r (if valid then logical else 0) valid s) (s <| g_video := v |>) rs
      = s <| g_video := v' |> ∧ stripe v' ∧
    shows v' (redrawn s) (λ c r, if bool_decide (r ∈ rs) then 0 else lo c r).
Proof using HG.
  intros Hb Hst. induction rs as [|r rs IH]; intros Hrs v lo Hs Hv Hlo; cbn [foldl].
  { exists v. split; [done|]. split; [done|]. eapply shows_ext; [exact Hs|]. intros c r _ _. right.
    split; [done|]. rewrite bool_decide_false by apply not_elem_of_nil. done. }
  assert (0 ≤ r < rows) as Hr by (apply Hrs; by left).
  cbv zeta. rewrite (render_row_spec (s <| g_video := v |>) r) by (try (destruct Hb; by split); done).
  destruct (draw_row (redrawn s) r (seqZ 0 cols) v lo (λ c, redrawn s c r)) as [H1 H2]; try done.
  { intros c Hc. apply elem_of_seqZ in Hc. lia. }
  destruct (λ Hrs', IH Hrs' _ _ H1 H2) as (v' & Hv' & Hst' & Hs').
  { intros r' Hr'. apply Hrs. by right. }
  { intros c' r'. case_bool_decide; [done|apply Hlo]. }
  exists v'. split; [exact Hv'|]. split; [exact Hst'|].
  eapply shows_ext; [exact Hs'|]. intros c' r' Hc' _. right. split; [done|]. cbv beta.
  destruct (decide (r' ∈ rs)); [rewrite !bool_decide_true by (done || by right); done|].
  rewrite (bool_decide_false (r' ∈ rs)) by done.
  destruct (decide (r' = r)) as [->|].
  - rewrite !bool_decide_true by ((by left) || (split; [done|apply elem_of_seqZ; lia])). done.
  - rewrite bool_decide_false by tauto. rewrite bool_decide_false; [done|].
    intros [?|?]%elem_of_cons; done.
Qed.

Lemma redraw_spec s :
  base s → stripe (g_video s) →
  ∃ v, console_redraw s = s <| g_video := v |> ∧ stripe v ∧ shows v (redrawn s) (λ _ _, 0).
Proof using HG.
  intros Hb Hst. pose proof (b_rows _ Hb) as Hrows.
  destruct (redraw_rows s (seqZ 0 rows) Hb Hst) with (v := g_video s) (lo := λ _ _ : Z, 8)
    as (v & Hv & Hst' & Hs); try done.
  { intros r Hr. apply elem_of_seqZ in Hr. lia. }
  { intros c r _ _ x y Hx. lia. }
  exists v. split; [|split; [done|]].
  - unfold console_redraw. rewrite Hrows. replace s with (s <| g_video := g_video s |>) at 1 by by destruct s.
    rewrite <- Hv. reflexivity.
  - eapply shows_ext; [exact Hs|]. intros c r _ Hr. right. split; [done|]. cbv beta.
    rewrite bool_decide_true by (apply elem_of_seqZ; lia). done.
Qed.

Lemma redrawn_scrolled s c r : g_scroll_offset s ≠ 0 → redrawn s c r = expected s c r.
Proof. intros H. unfold expected. destruct (Z.eqb_spec (g_scroll_offset s) 0); done. Qed.

Lemma redrawn_live s c r :
  base s → g_scroll_offset s = 0 → g_row s = rows - 1 → 0 ≤ r < rows → redrawn s c r = expected s c r.
Proof using HG.
  intros [H1 H2 H3 H4 H5 H6] Ho Hr Hrr. pose proof geo_bounds. unfold expected, redrawn.
  rewrite (proj2 (Z.eqb_eq _ _) Ho), Ho, H3, Hr.
  destruct (Z.leb_spec r (rows - 1)); [|lia].
  destruct (Z.leb_spec 0 (g_total_lines s - 0 - (rows - 1 - r))); [|lia].
  destruct (Z.ltb_spec (g_total_lines s - (g_total_lines s - 0 - (rows - 1 - r))) SCROLLBACK_LINES); [|lia].
  cbn [andb]. f_equal. lia.
Qed.

(** ** History *)

Lemma hist_slot_ne l l' : 0 < Z.abs (l - l') < SCROLLBACK_LINES → hist_slot l ≠ hist_slot l'.
Proof.
  unfold hist_slot, SCROLLBACK_LINES. intros H E.
  pose proof (Z.div_mod l 500 ltac:(lia)). pose proof (Z.div_mod l' 500 ltac:(lia)). lia.
Qed.

(** A new line is blank and the lines before it stay. *)
Lemma new_line_spec s :
  base s → g_total_lines s + 1 < 2 ^ 64 →
  ∃ h f, hist_new_line s = s <| g_total_lines := g_total_lines s + 1 |> <| g_history := h |> ∧
    (∀ c, 0 ≤ c < cols → h (hist_slot (g_total_lines s + 1)) c = mkCell 32 f B) ∧
    (∀ l c, 0 < g_total_lines s + 1 - l < SCROLLBACK_LINES → h (hist_slot l) c = cell_at s l c).
Proof using HG.
  intros [H1 H2 H3 H4 H5 H6] Ht. pose proof geo_bounds. unfold hist_new_line.
  rewrite u64_small by lia. unfold hist_clear_line. cbn [g_total_lines g_history g_fg_packed g_bg_packed set_field].
  eexists _, (g_fg_packed s). split; [reflexivity|]. split.
  - intros c Hc. cbn. rewrite upd_eq, bool_decide_true by lia. by rewrite H6.
  - intros l c Hl. cbn. rewrite upd_ne; [done|]. apply hist_slot_ne. lia.
Qed.

Lemma put_spec s c x :
  base s → 0 ≤ c < cols →
  ∃ h, hist_put c x s = s <| g_history := h |> ∧
    h (hist_slot (g_total_lines s)) c = mkCell x (g_fg_packed s) B ∧
    (∀ c', c' ≠ c → h (hist_slot (g_total_lines s)) c' = cell_at s (g_total_lines s) c') ∧
    (∀ l c', 0 < g_total_lines s - l < SCROLLBACK_LINES → h (hist_slot l) c' = cell_at s l c').
Proof using HG.
  intros [H1 H2 H3 H4 H5 H6] Hc. pose proof geo_bounds. unfold hist_put.
  destruct (Z.leb_spec MAX_COLS c); [lia|]. eexists. split; [reflexivity|]. split; [|split].
  - rewrite upd_eq, upd_eq. by rewrite H6.
  - intros c' Hc'. rewrite upd_eq, upd_ne by done. done.
  - intros l c' Hl. rewrite upd_ne; [done|]. apply hist_slot_ne. lia.
Qed.

(** ** Text *)

Lemma next_line_clean s :
  clean s → g_total_lines s + 1 < 2 ^ 64 →
  clean (next_line s) ∧ g_col (next_line s) = 0 ∧ g_total_lines (next_line s) = g_total_lines s + 1.
Proof using HG.
  intros [Hb Hv Hl Hs Hst] Ht. pose proof Hb as [H1 H2 H3 H4 H5 H6]. pose proof geo_bounds as Hg.
  destruct geo_pixels as [Hp Hbig]. unfold next_line.
  destruct (new_line_spec s Hb Ht) as (h & f & -> & Hnew & Hold).
  unfold scroll_if_needed. cbn [g_row g_rows g_col set_field].
  assert (∀ r c, 0 ≤ r ≤ g_row s → 0 ≤ c < cols → expected s c r = cell_at s (g_total_lines s - (g_row s - r)) c) as Hexp.
  { intros r c Hr Hc. unfold expected. rewrite (proj2 (Z.eqb_eq _ _) Hl). destruct (Z.leb_spec r (g_row s)); [done|lia]. }
  destruct (Z.ltb_spec (g_row s + 1) (g_rows s)) as [Hlt|Hge].
  - split; [|split; reflexivity].
    split; [split; cbn; (done || lia)|done|done| |exact Hst].
    eapply shows_ext with (E := λ c r, if bool_decide (r = g_row s + 1) then mkCell 32 f B else expected s c r).
    + intros c r Hc Hr. case_bool_decide as Hd; [|by apply Hs].
      apply cell_shows_space; [done|]. replace blank with (expected s c r); [by apply Hs|].
      unfold expected. rewrite (proj2 (Z.eqb_eq _ _) Hl). destruct (Z.leb_spec r (g_row s)); [lia|done].
    + intros c r Hc Hr. right. split; [|done]. unfold expected at 2. cbn.
      rewrite (proj2 (Z.eqb_eq _ _) Hl). unfold cell_at; cbn. case_bool_decide as Hd.
      * subst r. rewrite Z.leb_refl. rewrite <- (Hnew c Hc). f_equal. f_equal. lia.
      * destruct (Z.leb_spec r (g_row s + 1)).
        -- rewrite Hexp by lia. rewrite Hold by lia. f_equal. lia.
        -- unfold expected. rewrite (proj2 (Z.eqb_eq _ _) Hl). destruct (Z.leb_spec r (g_row s)); [lia|done].
  - split; [|split; reflexivity].
    assert (g_row s = rows - 1) as Hrow by lia.
    unfold fb_of; cbn [g_fb set_field]. rewrite H1. cbn [default g_video g_bg_packed g_rows set_field]. change (id fb) with fb.
    rewrite H6, H3. set (v' := fill_lines _ _ _ _).
    assert (∀ x y, 0 ≤ x < width fb → 0 ≤ y → v' (pixel_addr fb x y) =
      if decide (height fb - 16 ≤ y < height fb) then B else if decide (y < height fb - 16) then g_video s (pixel_addr fb x (y + 16))
      else g_video s (pixel_addr fb x y)) as Hv'.
    { intros x y Hx Hy. subst v'. unfold FONT_HEIGHT. rewrite (fill_lines_at fb Hp) by done.
      rewrite (u32_small (height fb - 16)) by lia. case_decide; [done|].
      pose proof (scroll_at fb Hp Hbig (g_video s) x y Hx) as Hsc. unfold FONT_HEIGHT in Hsc.
      rewrite u32_small in Hsc by lia. apply Hsc; lia. }
    clearbody v'.
    split; [split; cbn; (done || lia)|done|done| |].
    + intros c r Hc Hr x y Hx Hy. cbn [g_video set_field]. rewrite Hv' by lia.
      unfold expected; cbn. rewrite (proj2 (Z.eqb_eq _ _) Hl). destruct (Z.leb_spec r (rows - 1)); [|lia].
      unfold cell_at; cbn. destruct (decide (r = rows - 1)) as [->|].
      * replace (g_total_lines s + 1 - (rows - 1 - (rows - 1))) with (g_total_lines s + 1) by lia.
        rewrite (Hnew c Hc). cbn. rewrite space_pixel by lia. case_decide; [done|]. case_decide; [|lia].
        apply Hst; lia.
      * rewrite decide_False, decide_True by lia.
        specialize (Hs c (r + 1) Hc ltac:(lia)). rewrite Hs by lia.
        rewrite Hexp by lia. rewrite Hold by lia.
        replace (g_total_lines s - (g_row s - (r + 1))) with (g_total_lines s + 1 - (rows - 1 - r)) by lia.
        f_equal; lia.
    + intros x y Hx Hy. cbn [g_video set_field]. rewrite Hv' by lia. rewrite decide_True by lia. done.
Qed.

Lemma write_clean s x :
  clean s → 0 ≤ g_col s < cols →
  let s' := hist_put (g_col s) x (draw_glyph (g_col s) (g_row s) x s) in
  clean s' ∧ g_col s' = g_col s ∧ g_total_lines s' = g_total_lines s ∧ g_cols s' = g_cols s ∧ g_row s' = g_row s ∧
  cell_at s' (g_total_lines s) (g_col s) = mkCell x (g_fg_packed s) B ∧
  ∀ c, c ≠ g_col s → cell_at s' (g_total_lines s) c = cell_at s (g_total_lines s) c.
Proof using HG.
  intros [Hb Hv Hl Hs Hst] Hc. pose proof Hb as [H1 H2 H3 H4 H5 H6]. pose proof geo_bounds as Hg.
  rewrite draw_glyph_eq by done. rewrite H6.
  set (s1 := s <| g_video := _ |>).
  assert (base s1) as Hb1 by (by split).
  destruct (put_spec s1 (g_col s) x Hb1 Hc) as (h & Hh & Hnew & Hold1 & Hold). cbv zeta. rewrite Hh.
  split; [|split; [done|split; [done|split; [done|split; [done|split; [exact Hnew|exact Hold1]]]]]].
  destruct (draw_glyph_shows (g_video s) (expected s) (λ _ _, 0) (g_col s) (g_row s) (mkCell x (g_fg_packed s) B))
    as [Hd1 Hd2]; try done.
  split; [by split|done|done| |exact Hd2].
  eapply shows_ext; [exact Hd1|]. intros c r Hc' Hr. right. split; [|by case_bool_decide].
  unfold expected at 2. cbn. rewrite (proj2 (Z.eqb_eq _ _) Hl). unfold cell_at; cbn. case_bool_decide as Hd.
  - destruct Hd as [-> ->]. rewrite Z.leb_refl. etransitivity; [symmetry; exact Hnew|]. f_equal. f_equal. cbn. lia.
  - unfold expected. rewrite (proj2 (Z.eqb_eq _ _) Hl). destruct (Z.leb_spec r (g_row s)); [|done].
    destruct (decide (r = g_row s)) as [->|].
    + replace (g_total_lines s - (g_row s - g_row s)) with (g_total_lines s) by lia.
      symmetry. apply Hold1. intros ->. by destruct Hd.
    + symmetry. apply (Hold (g_total_lines s - (g_row s - r)) c). cbn. lia.
Qed.

(** ** Operations *)

Lemma clean_inv s : clean s → 0 ≤ g_col s < cols → inv s.
Proof.
  intros [Hb Hv Hl Hs Hst] Hc. split; [done|done|lia|by rewrite Hl| |done].
  eapply shows_ext; [exact Hs|]. intros c r _ _. right. split; [done|apply covered_range].
Qed.

Lemma inv_clean s : inv s → g_cursor_visible s = false → g_scroll_offset s = 0 → clean s.
Proof.
  intros [Hb Hc Ho Hsc Hs Hst] Hv Hl. split; try done.
  eapply shows_ext; [exact Hs|]. intros c r _ _. right. split; [done|].
  unfold covered. rewrite Hv, Hl. cbn. by case_match.
Qed.

(** Output starts by hiding the cursor and returning to the live view. *)
Lemma prepared s :
  inv s →
  let s1 := console_cursor_hide s in
  let s2 := if negb (g_scroll_offset s1 =? 0) then console_redraw (s1 <| g_scroll_offset := 0 |>) else s1 in
  clean s2 ∧ g_col s2 = g_col s ∧ g_total_lines s2 = g_total_lines s ∧ g_row s2 = g_row s ∧
  g_fg_packed s2 = g_fg_packed s ∧ g_history s2 = g_history s ∧ g_capture_active s2 = g_capture_active s.
Proof using HG.
  intros Hi. cbv zeta. destruct (hide_spec s Hi) as (v & -> & Hi'). cbn [g_scroll_offset set_field].
  destruct (Z.eqb_spec (g_scroll_offset s) 0) as [E|E]; cbn [negb].
  - split; [by apply inv_clean|done].
  - destruct Hi' as [Hb' Hc' Ho' Hsc' Hs' Hst']. set (s1 := s <| g_video := v |> <| g_cursor_visible := false |> <| g_scroll_offset := 0 |>).
    assert (base s1) as Hb1 by (destruct Hb'; by split).
    destruct (redraw_spec s1 Hb1 Hst') as (v' & -> & Hst2 & Hs2). split; [|done].
    split; [by destruct Hb1; split|done|done| |exact Hst2].
    eapply shows_ext; [exact Hs2|]. intros c r Hc Hr. right. split; [|done].
    apply (redrawn_live s1); [done|done|by apply Hsc'|done].
Qed.

Lemma showing s : clean s → 0 ≤ g_col s < cols → inv (console_cursor_show s) ∧ g_total_lines (console_cursor_show s) = g_total_lines s.
Proof using HG. intros Hc Hcol. destruct (show_spec s (clean_inv s Hc Hcol)) as (v & b & -> & Hi). done. Qed.

Lemma putchar_inv c s :
  inv s → g_total_lines s + 1 < 2 ^ 64 →
  inv (console_putchar c s) ∧ g_total_lines (console_putchar c s) ≤ g_total_lines s + 1.
Proof using HG.
  intros Hi Ht. pose proof geo_bounds as Hg. unfold console_putchar.
  destruct (g_capture_active s) eqn:Hcap.
  { case_match; [|split; [done|lia]]. split; [|cbn; lia]. destruct Hi as [[] ? ? ? ? ?]. split; [split|..]; done. }
  pose proof (prepared s Hi) as Hprep. cbv zeta in Hprep.
  set (s2 := if negb _ then _ else _) in *. clearbody s2. destruct Hprep as (Hcl & Hcol & Htot & Hrow & _).
  pose proof (i_col _ Hi) as Hc. assert (0 ≤ g_col s2 < cols) as Hc2 by (by rewrite Hcol).
  assert (g_total_lines s2 + 1 < 2 ^ 64) as Ht2 by lia.
  destruct (c =? 10).
  { destruct (next_line_clean s2 Hcl Ht2) as (Hn & Hn2 & Hn3).
    destruct (showing (next_line s2) Hn) as [? ->]; [lia|]. split; [done|lia]. }
  destruct (c =? 13).
  { split; [|cbn; lia]. apply clean_inv; [|cbn; lia]. destruct Hcl as [[] ? ? ? ?]. split; [split|..]; done. }
  destruct (c =? 8).
  { destruct (Z.ltb_spec 0 (g_col s2)); [|destruct (showing s2 Hcl Hc2) as [? ->]; split; [done|lia]].
    assert (clean (s2 <| g_col := g_col s2 - 1 |>)) as Hcl' by (destruct Hcl as [[] ? ? ? ?]; split; [split|..]; done).
    destruct (write_clean _ 32 Hcl') as (Hw & Hw2 & Hw3 & _); [cbn; lia|].
    destruct (showing _ Hw) as [? ->]; [rewrite Hw2; cbn; lia|]. split; [done|]. rewrite Hw3. cbn. lia. }
  destruct (write_clean s2 c Hcl Hc2) as (Hw & Hw2 & Hw3 & Hw4 & _). cbv zeta in *.
  rewrite (draw_glyph_eq (g_col s2) (g_row s2) c s2) in * by apply Hcl.
  cbn [g_col set_field] in *.
  set (s3 := hist_put _ _ _) in *. clearbody s3.
  assert (clean (s3 <| g_col := g_col s3 + 1 |>)) as Hcl' by (destruct Hw as [[] ? ? ? ?]; split; [split|..]; done).
  assert (g_cols s2 = cols) as Hcols by apply Hcl.
  cbn [g_cols g_col set_field]. rewrite Hw4, Hcols.
  destruct (Z.leb_spec cols (g_col s3 + 1)).
  - destruct (next_line_clean _ Hcl') as (Hn & Hn2 & Hn3); [cbn; lia|].
    destruct (showing _ Hn) as [? ->]; [lia|]. split; [done|]. rewrite Hn3. cbn. lia.
  - destruct (showing _ Hcl') as [? ->]; [cbn; lia|]. split; [done|]. cbn. lia.
Qed.

Lemma clear_inv s :
  g_fb s = Some fb → g_cols s = cols → g_rows s = rows → g_bg_packed s = B → 0 ≤ g_total_lines s →
  g_cursor_visible s = false ∨ inv s → g_total_lines s + 1 < 2 ^ 64 →
  inv (console_clear s) ∧ g_total_lines (console_clear s) = g_total_lines s + 1.
Proof using HG.
  intros H1 H2 H3 H6 Hpos Hi Ht. pose proof geo_bounds as Hg. destruct geo_pixels as [Hp Hbig]. unfold console_clear.
  assert (∃ v, console_cursor_hide s = s <| g_video := v |> <| g_cursor_visible := false |>) as (v & ->).
  { destruct Hi as [Hv|Hi].
    - exists (g_video s). rewrite video_same by done. unfold console_cursor_hide, cursor_restore_cell. by rewrite Hv.
    - destruct (hide_spec s Hi) as (v & -> & _). by exists v. }
  unfold hist_new_line. cbn [g_total_lines set_field]. rewrite u64_small by lia.
  unfold hist_clear_line, fb_of. cbn [g_total_lines g_history g_fg_packed g_bg_packed g_fb g_video set_field].
  rewrite H1, H6. cbn [default]. change (id fb) with fb.
  match goal with |- context [console_cursor_show ?x] => set (s' := x) end.
  assert (∀ x y, 0 ≤ x < width fb → 0 ≤ y < height fb → g_video s' (pixel_addr fb x y) = B) as Hall.
  { intros x y Hx Hy. subst s'. cbn [g_video set_field]. rewrite (fill_lines_at fb Hp) by done. by rewrite decide_True by lia. }
  assert (clean s' ∧ g_col s' = 0 ∧ g_total_lines s' = g_total_lines s + 1) as (Hcl & Hcol & Htot).
  { split; [|done]. split; [split; cbn; (done || lia)|done|done| |intros x y Hx Hy; apply Hall; lia].
    intros c r Hc Hr x y Hx Hy. rewrite Hall by lia. unfold expected; cbn.
    destruct (Z.leb_spec r 0); [|symmetry; apply space_pixel; lia].
    unfold cell_at; cbn. assert (r = 0) as -> by lia. rewrite Z.sub_diag, Z.sub_0_r, upd_eq.
    rewrite bool_decide_true by lia. cbn. symmetry. apply space_pixel; lia. }
  clearbody s'. destruct (showing s' Hcl) as [? ->]; [lia|]. done.
Qed.

Lemma scroll_inv d s :
  inv s → g_row s = rows - 1 → inv (console_scroll d s) ∧ g_total_lines (console_scroll d s) = g_total_lines s.
Proof using HG.
  intros Hi Hrow. unfold console_scroll. rewrite bool_decide_false by (by rewrite (b_fb _ (i_base _ Hi))).
  match goal with |- context [u32 ?x] => set (off := x) end.
  assert (0 ≤ off < 500) as Hoff.
  { pose proof (b_total _ (i_base _ Hi)). pose proof (b_row _ (i_base _ Hi)). subst off. unfold SCROLLBACK_LINES.
    repeat case_match; lia. }
  clearbody off. rewrite u32_small by lia. destruct (off =? g_scroll_offset s); [done|].
  destruct (hide_spec s Hi) as (v & -> & Hi').
  set (s1 := s <| g_video := v |> <| g_cursor_visible := false |> <| g_scroll_offset := off |>).
  destruct Hi' as [Hb' Hc' Ho' Hsc' Hs' Hst'].
  assert (base s1) as Hb1 by (destruct Hb'; by split).
  destruct (redraw_spec s1 Hb1 Hst') as (v' & Hv' & Hst2 & Hs2). rewrite Hv'.
  assert (inv (s1 <| g_video := v' |>)) as Hi1.
  { split; [by destruct Hb1; split|exact Hc'|cbn; lia|done| |exact Hst2].
    eapply shows_ext; [exact Hs2|]. intros c r Hc Hr. right. split; [|apply covered_range].
    destruct (decide (off = 0)); [by apply (redrawn_live s1)|by apply (redrawn_scrolled s1)]. }
  destruct (show_spec _ Hi1) as (v2 & b & -> & Hi2). done.
Qed.

(** A printable character in the middle of a line. *)
Lemma putchar_text c s :
  inv s → g_capture_active s = false → 13 < c → g_col s + 1 < cols →
  let s' := console_putchar c s in
  inv s' ∧ g_capture_active s' = false ∧ g_scroll_offset s' = 0 ∧ g_row s' = g_row s ∧ g_col s' = g_col s + 1 ∧
  g_total_lines s' = g_total_lines s ∧ g_fg_packed s' = g_fg_packed s ∧
  cell_at s' (g_total_lines s) (g_col s) = mkCell c (g_fg_packed s) B ∧
  ∀ c', c' ≠ g_col s → cell_at s' (g_total_lines s) c' = cell_at s (g_total_lines s) c'.
Proof using HG.
  intros Hi Hcap Hc Hcol. unfold console_putchar. rewrite Hcap.
  pose proof (prepared s Hi) as Hprep. cbv zeta in Hprep.
  set (s2 := if negb _ then _ else _) in *. clearbody s2.
  destruct Hprep as (Hcl & Hcol2 & Htot & Hrow & Hfg & Hhist & Hcap2).
  pose proof (i_col _ Hi) as Hr. assert (0 ≤ g_col s2 < cols) as Hc2 by (by rewrite Hcol2).
  destruct (Z.eqb_spec c 10); [lia|]. destruct (Z.eqb_spec c 13); [lia|]. destruct (Z.eqb_spec c 8); [lia|].
  destruct (write_clean s2 c Hcl Hc2) as (Hw & Hw2 & Hw3 & Hw4 & Hw5 & Hw6 & Hw7). cbv zeta in *.
  assert (g_capture_active (hist_put (g_col s2) c (draw_glyph (g_col s2) (g_row s2) c s2)) = false ∧
    g_fg_packed (hist_put (g_col s2) c (draw_glyph (g_col s2) (g_row s2) c s2)) = g_fg_packed s) as [Hw8 Hw9].
  { rewrite <- Hfg, <- Hcap, <- Hcap2. unfold hist_put. case_match; done. }
  rewrite (draw_glyph_eq (g_col s2) (g_row s2) c s2) in * by apply Hcl.
  cbn [g_col set_field] in *.
  set (s3 := hist_put _ _ _) in *. clearbody s3.
  assert (clean (s3 <| g_col := g_col s3 + 1 |>)) as Hcl' by (destruct Hw as [[] ? ? ? ?]; split; [split|..]; done).
  assert (g_cols s2 = cols) as Hcols by apply Hcl.
  cbn [g_cols g_col set_field]. rewrite Hw4, Hcols.
  destruct (Z.leb_spec cols (g_col s3 + 1)); [lia|].
  destruct (show_spec _ (clean_inv _ Hcl' ltac:(cbn; lia))) as (v & b & -> & Hi').
  unfold cell_at in *. cbn [g_history set_field] in *. rewrite Htot, Hcol2, Hhist, Hfg in *.
  split; [exact Hi'|]. repeat (split; [first [done|cbn; lia|apply Hw|by rewrite <- Hcol2]|]).
  intros c' Hc'. by apply Hw7.
Qed.

Lemma print_text t s :
  inv s → g_capture_active s = false → Forall (λ c, 13 < c) t → g_col s + Z.of_nat (length t) < cols →
  let s' := console_print t s in
  inv s' ∧ (t ≠ [] → g_scroll_offset s' = 0) ∧ g_row s' = g_row s ∧ g_col s' = g_col s + Z.of_nat (length t) ∧
  g_total_lines s' = g_total_lines s ∧
  (∀ i c, t !! i = Some c → cell_at s' (g_total_lines s) (g_col s + Z.of_nat i) = mkCell c (g_fg_packed s) B) ∧
  ∀ c', c' < g_col s → cell_at s' (g_total_lines s) c' = cell_at s (g_total_lines s) c'.
Proof using HG.
  revert s. induction t as [|c t IH]; intros s Hi Hcap Ht Hcol; cbn [console_print foldl].
  { cbn [length] in *. split_and!; try (done || lia). }
  apply Forall_cons_1 in Ht as [Hc Ht]. cbn [length] in Hcol.
  destruct (putchar_text c s Hi Hcap Hc ltac:(lia)) as (H1 & H2 & H3 & H4 & H5 & H6 & H7 & H8 & H9).
  cbv zeta in *. set (s1 := console_putchar c s) in *. clearbody s1.
  destruct (IH s1 H1 H2 Ht ltac:(lia)) as (G1 & G2 & G3 & G4 & G5 & G6 & G7).
  fold (console_print t s1). set (s2 := console_print t s1) in *.
  cbn [length]. rewrite H5, H6 in *. split_and!; try (done || congruence || lia).
  - intros _. destruct t; [by subst s2|by apply G2].
  - intros [|i] d Hd; cbn in Hd.
    + injection Hd as <-. rewrite Z.add_0_r, G7 by lia. done.
    + rewrite <- H7, <- (G6 i d Hd). f_equal. lia.
  - intros c' Hc'. rewrite G7 by lia. apply H9. lia.
Qed.

End screen.

(** ** Histories of operations *)

(** Every operation that touches the screen; all colours are set on the
    background [bgc]. *)
Inductive op :=
  | OpPutchar (c : Z)
  | OpClear
  | OpColor (fgc : Z)
  | OpCursorEnable (now : Z)
  | OpCursorDisable
  | OpCursorTick (now : Z)
  | OpCursorShow
  | OpCursorHide
  | OpScroll (delta : Z)
  | OpCaptureBegin (capacity : Z)
  | OpCaptureEnd.

Definition exec (bgc : Z) (o : op) (s : console) : console :=
  match o with
  | OpPutchar c => console_putchar c s
  | OpClear => console_clear s
  | OpColor fgc => console_set_color fgc bgc s
  | OpCursorEnable now => console_cursor_enable now s
  | OpCursorDisable => console_cursor_disable s
  | OpCursorTick now => console_cursor_tick now s
  | OpCursorShow => console_cursor_show s
  | OpCursorHide => console_cursor_hide s
  | OpScroll delta => console_scroll delta s
  | OpCaptureBegin capacity => console_capture_begin capacity s
  | OpCaptureEnd => (console_capture_end s).2
  end.

Definition run (bgc : Z) (ops : list op) (s : console) : console := foldl (λ s o, exec bgc o s) s ops.

(** The view is scrolled only when the text has reached the last row. *)
Fixpoint guarded (bgc : Z) (ops : list op) (s : console) : Prop :=
  match ops with
  | [] => True
  | o :: ops =>
    match o with OpScroll _ => g_row s = g_rows s - 1 | _ => True end ∧ guarded bgc ops (exec bgc o s)
  end.

Section histories.
Context (fb : nexus_framebuffer_t) (HG : geometry fb) (bgc : Z).
Notation B := (pack_color fb bgc).
Implicit Types s : console.

Lemma exec_inv o s :
  inv fb B s → g_total_lines s + 1 < 2 ^ 64 →
  match o with OpScroll _ => g_row s = g_rows s - 1 | _ => True end →
  inv fb B (exec bgc o s) ∧ g_total_lines (exec bgc o s) ≤ g_total_lines s + 1.
Proof using HG.
  intros Hi Ht Hg. pose proof Hi as [Hb Hcol Hoff Hsc Hs Hst]. pose proof Hb as [H1 H2 H3 H4 H5 H6].
  destruct o as [c| |fgc|now| |now| | |d|cap| ]; cbn [exec].
  - by apply putchar_inv.
  - destruct (clear_inv fb HG B s) as [? ->]; auto; [lia|]. split; [done|lia].
  - split; [|cbn; lia]. unfold console_set_color, fb_of. rewrite H1. split; [split|..]; done.
  - unfold console_cursor_enable, console_cursor_show. cbn [g_cursor_enabled g_cursor_visible set_field negb].
    set (s1 := s <| g_cursor_enabled := true |> <| g_cursor_visible := false |> <| g_cursor_last_tick := now |>).
    destruct (overlay_on fb HG B s1) as (v & -> & Hi1); [|done..|split; [done|cbn; lia]].
    pose proof (visible_inv fb B s Hi) as [[] ? ? ? ? ?]. split; [split|..]; done.
  - unfold console_cursor_disable. destruct (hide_spec fb HG B s Hi) as (v & E & [[] ? ? ? ? ?]).
    unfold console_cursor_hide in E. rewrite E. split; [|cbn; lia]. split; [split|..]; done.
  - unfold console_cursor_tick. assert (inv fb B (s <| g_cursor_last_tick := now |>)) as Hi1 by (split; [split|..]; done).
    repeat case_match; try (split; [done|cbn; lia]).
    + destruct (hide_spec fb HG B _ Hi1) as (v & E & Hi2). unfold console_cursor_hide in E. rewrite E. split; [done|cbn; lia].
    + destruct (overlay_spec fb HG B _ Hi1) as (v & b & -> & Hi2); [done|]. split; [done|cbn; lia].
  - destruct (show_spec fb HG B s Hi) as (v & b & -> & Hi1). split; [done|cbn; lia].
  - destruct (hide_spec fb HG B s Hi) as (v & -> & Hi1). split; [done|cbn; lia].
  - destruct (scroll_inv fb HG B d s Hi) as [? ->]; [lia|]. split; [done|lia].
  - split; [split; [split|..]; done|cbn; lia].
  - split; [split; [split|..]; done|cbn; lia].
Qed.

Lemma run_inv ops s :
  inv fb B s → g_total_lines s + Z.of_nat (length ops) < 2 ^ 64 → guarded bgc ops s →
  inv fb B (run bgc ops s).
Proof using HG.
  revert s. induction ops as [|o ops IH]; intros s Hi Ht Hg; [done|].
  cbn [length] in Ht. destruct Hg as [Ho Hg]. destruct (exec_inv o s Hi ltac:(lia) Ho) as [Hi' Hle].
  apply IH; [done|lia|done].
Qed.

Lemma clear_lines_eq ls s : ∃ h, foldl (λ s i, hist_clear_line i s) s ls = s <| g_history := h |>.
Proof.
  revert s. induction ls as [|l ls IH]; intros s; cbn [foldl]; [by exists (g_history s); destruct s|].
  destruct (IH (hist_clear_line l s)) as (h & ->). exists h. reflexivity.
Qed.

Lemma init_inv s : g_bg s = bgc → inv fb B (console_init fb s) ∧ g_total_lines (console_init fb s) = 1.
Proof using HG.
  intros Hbg. unfold console_init. destruct (clear_lines_eq (seqZ 0 SCROLLBACK_LINES)
    (s <| g_fb := Some fb |> <| g_cols := width fb / FONT_WIDTH |> <| g_rows := height fb / FONT_HEIGHT |>
      <| g_fg_packed := pack_color fb (g_fg s) |> <| g_bg_packed := pack_color fb (g_bg s) |>
      <| g_total_lines := 0 |> <| g_scroll_offset := 0 |> <| g_cursor_enabled := false |>
      <| g_cursor_visible := false |> <| g_cursor_last_tick := 0 |>)) as (h & Hh).
  cbn [g_fg g_bg set_field] in *. cbv zeta. rewrite Hh.
  set (s1 := set_field g_history _ _).
  assert (g_fb s1 = Some fb ∧ g_cols s1 = cols fb ∧ g_rows s1 = rows fb ∧ g_bg_packed s1 = B ∧ g_total_lines s1 = 0 ∧
    g_cursor_visible s1 = false) as (H1 & H2 & H3 & H4 & H5 & H6).
  { split_and!; try reflexivity. cbn. by rewrite Hbg. }
  clearbody s1. clear Hh.
  destruct (clear_inv fb HG B s1 H1 H2 H3 H4 ltac:(lia) (or_introl H6) ltac:(lia)) as [Hi ->].
  split; [exact Hi|lia].
Qed.

End histories.

(** ** The properties *)

(** C28: The screen of a console shows the text of its history, whatever was printed:
    after [console_init] and any sequence of operations with one background
    colour, which scroll back only when the text has reached the last row, every
    cell of the screen shows the character and the colours of the cell of the
    scrollback that belongs there, pixel by pixel; the cell under the cursor does
    so up to the caret. *)
Theorem console_screen_shows_history fb s0 ops :
  geometry fb → Z.of_nat (length ops) < 2 ^ 63 → guarded (g_bg s0) ops (console_init fb s0) →
  let s := run (g_bg s0) ops (console_init fb s0) in
  (0 ≤ g_col s < g_cols s ∧ 0 ≤ g_row s < g_rows s) ∧
  ∀ c r, 0 ≤ c < g_cols s → 0 ≤ r < g_rows s →
    cell_shows fb (g_video s) (covered s c r) c r (expected (pack_color fb (g_bg s0)) s c r).
Proof.
  intros HG Hlen Hg s. destruct (init_inv fb HG (g_bg s0) s0 eq_refl) as [Hi Ht].
  pose proof (run_inv fb HG (g_bg s0) ops _ Hi ltac:(rewrite Ht; lia) Hg) as Hinv. fold s in Hinv. clearbody s.
  destruct Hinv as [Hb Hcol Hoff Hsc Hs Hst]. pose proof Hb as [H1 H2 H3 H4 H5 H6].
  rewrite H2, H3. split; [split; assumption|]. intros c r. apply Hs.
Qed.

(** Text printed in the middle of a line appears on the screen where the cursor
    was, in the current colours, and moves the cursor behind it. *)
Theorem console_print_appears fb s0 ops t :
  geometry fb → Z.of_nat (length ops) < 2 ^ 63 → guarded (g_bg s0) ops (console_init fb s0) →
  let s := run (g_bg s0) ops (console_init fb s0) in
  g_capture_active s = false → Forall (λ c, 13 < c) t → t ≠ [] → g_col s + Z.of_nat (length t) < g_cols s →
  let s' := console_print t s in
  g_col s' = g_col s + Z.of_nat (length t) ∧ g_row s' = g_row s ∧
  ∀ i c, t !! i = Some c →
    cell_shows fb (g_video s') 0 (g_col s + Z.of_nat i) (g_row s)
      (mkCell c (g_fg_packed s) (pack_color fb (g_bg s0))).
Proof.
  intros HG Hlen Hg s Hcap Ht Hne Hroom s'. destruct (init_inv fb HG (g_bg s0) s0 eq_refl) as [Hi0 Htot].
  pose proof (run_inv fb HG (g_bg s0) ops _ Hi0 ltac:(rewrite Htot; lia) Hg) as Hi. fold s in Hi.
  rewrite (b_cols _ _ _ (i_base _ _ _ Hi)) in Hroom.
  destruct (print_text fb HG _ t s Hi Hcap Ht Hroom) as (H1 & H2 & H3 & H4 & H5 & H6 & H7).
  fold s' in H1, H2, H3, H4, H5, H6. split; [done|]. split; [done|]. intros i c Hc.
  pose proof (lookup_lt_Some _ _ _ Hc) as Hlt.
  pose proof (i_col _ _ _ Hi) as Hcol. pose proof (b_row _ _ _ (i_base _ _ _ Hi)) as Hrow.
  pose proof (i_shows _ _ _ H1 (g_col s + Z.of_nat i) (g_row s) ltac:(lia) Hrow) as Hs.
  unfold covered, expected in Hs. rewrite H2 in Hs by done. rewrite H3, H4, H5, Z.leb_refl, Z.sub_diag, Z.sub_0_r in Hs.
  cbn [Z.eqb] in Hs. rewrite (H6 i c Hc) in Hs.
  destruct (Z.eqb_spec (g_col s + Z.of_nat i) (g_col s + Z.of_nat (length t))); [lia|]. exact Hs.
Qed.

(** ** Numbers *)

(** The value of a string of decimal digits. *)
Definition dec_value (t : cstr) : Z := foldl (λ a c, 10 * a + (c - 48)) 0 t.
Definition is_digit (c : Z) : Prop := 48 ≤ c ≤ 57.

Lemma dec_value_app t u : dec_value (t ++ u) = dec_value t * 10 ^ Z.of_nat (length u) + dec_value u.
Proof.
  unfold dec_value. rewrite foldl_app. generalize (foldl (λ a c, 10 * a + (c - 48)) 0 t) as a.
  assert (∀ u a, foldl (λ a c, 10 * a + (c - 48)) a u =
    a * 10 ^ Z.of_nat (length u) + foldl (λ a c, 10 * a + (c - 48)) 0 u) as H.
  { clear. induction u as [|c u IH]; intros a; cbn [foldl length]; [cbn; lia|].
    rewrite (IH (10 * a + (c - 48))), (IH (10 * 0 + (c - 48))), Nat2Z.inj_succ, Z.pow_succ_r by lia. lia. }
  intros a. apply H.
Qed.

Lemma dec_loop_spec n v buf :
  0 ≤ v < 10 ^ Z.of_nat n → Forall is_digit buf →
  ∃ t, dec_loop n v buf = t ++ buf ∧ dec_value t = v ∧ Forall is_digit (t ++ buf) ∧ (length t ≤ n)%nat ∧
    (v = 0 → t = []) ∧ (0 < v → head t ≠ Some 48 ∧ t ≠ []).
Proof.
  revert v buf. induction n as [|n IH]; intros v buf Hv Hb; cbn [dec_loop].
  { exists []. change (10 ^ Z.of_nat 0) with 1 in Hv. split_and!; try done; cbn; lia. }
  rewrite Nat2Z.inj_succ, Z.pow_succ_r in Hv by lia.
  destruct (Z.ltb_spec 0 v); [|exists []; split_and!; try done; cbn; lia].
  pose proof (Z.div_mod v 10 ltac:(lia)) as Hdm. pose proof (Z.mod_pos_bound v 10 ltac:(lia)) as Hm.
  destruct (IH (v / 10) (48 + v mod 10 :: buf)) as (t & -> & Ht & Hd & Hl & Hz & Hh); [lia| |].
  { constructor; [unfold is_digit; lia|done]. }
  exists (t ++ [48 + v mod 10]). rewrite <- app_assoc. split_and!; try done.
  - rewrite dec_value_app, Ht. cbn. lia.
  - rewrite length_app. cbn. lia.
  - lia.
  - intros _. split; [|by destruct t]. destruct (decide (0 < v / 10)) as [Hpos|Hn].
    + destruct (Hh Hpos) as [? ?]. by destruct t.
    + rewrite Hz by lia. cbn. intros [=]. lia.
Qed.

Lemma dec_text_spec v :
  0 ≤ v < 2 ^ 64 →
  dec_value (dec_text v) = v ∧ Forall is_digit (dec_text v) ∧ (1 ≤ length (dec_text v) ≤ 20)%nat ∧
  (0 < v → head (dec_text v) ≠ Some 48).
Proof.
  intros Hv. unfold dec_text. destruct (Z.eqb_spec v 0) as [->|Hne].
  { split_and!; try done; cbn; try lia. constructor; [unfold is_digit; lia|done]. }
  destruct (dec_loop_spec 20 v []) as (t & E & Ht & Hd & Hl & _ & Hh); [lia|done|].
  rewrite app_nil_r in *. rewrite E. destruct (Hh ltac:(lia)). split_and!; try done; try lia.
  destruct t; [done|cbn; lia].
Qed.

(** ** Capture *)

Lemma captured_print t s :
  g_capture_active s = true → 0 ≤ g_capture_length s < g_capture_capacity s →
  let t' := take (Z.to_nat (g_capture_capacity s - 1 - g_capture_length s)) t in
  console_print t s = s <| g_capture_buffer := g_capture_buffer s ++ t' |>
                        <| g_capture_length := g_capture_length s + Z.of_nat (length t') |>.
Proof.
  revert s. induction t as [|c t IH]; intros s Ha Hl; cbv zeta.
  { rewrite take_nil, app_nil_r. cbn [console_print foldl length]. rewrite Z.add_0_r. by destruct s. }
  cbn [console_print foldl]. fold (console_print t (console_putchar c s)). unfold console_putchar. rewrite Ha.
  destruct (Z.ltb_spec (g_capture_length s + 1) (g_capture_capacity s)).
  - rewrite IH by (cbn; (done || lia)). cbn [g_capture_buffer g_capture_length g_capture_capacity set_field].
    replace (Z.to_nat (g_capture_capacity s - 1 - g_capture_length s))
      with (S (Z.to_nat (g_capture_capacity s - 1 - (g_capture_length s + 1)))) by lia.
    cbn [take length]. rewrite <- app_assoc. cbn [app]. destruct s; cbn. unfold set_field; cbn. f_equal. lia.
  - rewrite (IH s Ha Hl). replace (Z.to_nat (g_capture_capacity s - 1 - g_capture_length s)) with 0%nat by lia.
    rewrite !take_0. done.
Qed.

Lemma captured_text capacity t s :
  0 < capacity → g_capture_active s = false →
  console_capture_end (console_print t (console_capture_begin capacity s)) =
    (Z.of_nat (length (take (Z.to_nat (capacity - 1)) t)), take (Z.to_nat (capacity - 1)) t,
     s <| g_capture_buffer := [] |> <| g_capture_capacity := 0 |>
       <| g_capture_length := Z.of_nat (length (take (Z.to_nat (capacity - 1)) t)) |>).
Proof.
  intros Hc Ha. unfold console_capture_begin. rewrite captured_print; cbn [g_capture_active g_capture_length g_capture_capacity set_field];
    [|by apply Z.ltb_lt|lia].
  rewrite Z.sub_0_r. cbn [console_capture_end g_capture_length g_capture_buffer set_field app].
  destruct s; cbn in Ha. rewrite Ha. reflexivity.
Qed.

(** While output is captured nothing reaches the screen: the buffer holds what
    was printed, cut to one byte less than its capacity, and the console is as
    before. *)
Theorem console_capture_collects capacity t s :
  0 < capacity → g_capture_active s = false →
  let '(length', text, s') := console_capture_end (console_print t (console_capture_begin capacity s)) in
  text = take (Z.to_nat (capacity - 1)) t ∧ length' = Z.of_nat (length text) ∧ length' < capacity ∧
  s' = s <| g_capture_buffer := [] |> <| g_capture_capacity := 0 |> <| g_capture_length := length' |>.
Proof.
  intros Hc Ha. rewrite captured_text by done. split_and!; [done|done| |done]. rewrite length_take. lia.
Qed.

(** A number that a command prints is read back from the captured text. *)
Theorem console_dec_roundtrip v capacity s :
  0 ≤ v < 2 ^ 64 → 20 < capacity → g_capture_active s = false →
  let text := (console_capture_end (console_print_dec v (console_capture_begin capacity s))).1.2 in
  dec_value text = v ∧ Forall is_digit text ∧ (0 < v → head text ≠ Some 48).
Proof.
  intros Hv Hc Ha. destruct (dec_text_spec v Hv) as (H1 & H2 & H3 & H4).
  unfold console_print_dec, console_capture_begin.
  rewrite captured_print; cbn [g_capture_active g_capture_length g_capture_capacity set_field];
    [|by apply Z.ltb_lt; lia|lia].
  cbn [console_capture_end g_capture_buffer set_field fst snd app]. rewrite take_ge by lia. done.
Qed.

(** ** Concrete consoles and defects *)

Definition cell_check fb (v : Z → Z) (lo c r : Z) (cell : console_cell_t) : bool :=
  forallb (λ x, forallb (λ y,
    v (pixel_addr fb x y) =? glyph_pixel (ch cell) (fg cell) (bg cell) (x - c * 8) (y - r * 16))
    (seqZ (r * 16) 16)) (seqZ (c * 8 + lo) (8 - lo)).

Lemma cell_check_spec fb v lo c r cell : cell_check fb v lo c r cell = true ↔ cell_shows fb v lo c r cell.
Proof.
  unfold cell_check, cell_shows. rewrite forallb_forall. setoid_rewrite forallb_forall.
  setoid_rewrite Z.eqb_eq. setoid_rewrite <- list_elem_of_In. setoid_rewrite elem_of_seqZ.
  split; intros H x; intros; apply H; lia.
Qed.

Definition reset_console : console :=
  mkConsole None (λ _, 0) COLOR_WHITE COLOR_BLACK COLOR_WHITE COLOR_BLACK 0 0 0 0 false false 0 [] 0 0 false
    (λ _ _, mkCell 0 0 0) 0 0.
Definition small_fb : nexus_framebuffer_t := mkFb 96 48 100 1.
Definition demo_ops : list op :=
  [OpPutchar 65; OpCursorEnable 7; OpPutchar 10; OpPutchar 66; OpPutchar 10; OpScroll 1; OpCursorTick 99; OpScroll (-1)].

Lemma small_fb_ok : geometry small_fb.
Proof. split; cbn; unfold MAX_COLS, SCROLLBACK_LINES; lia. Qed.

Lemma demo_guarded : guarded (g_bg reset_console) demo_ops (console_init small_fb reset_console).
Proof. vm_compute. repeat split. Qed.

Lemma console_screen_shows_history_witness :
  cell_shows small_fb (g_video (run COLOR_BLACK demo_ops (console_init small_fb reset_console))) 0 0 0
    (mkCell 65 COLOR_WHITE COLOR_BLACK).
Proof.
  pose proof (console_screen_shows_history small_fb reset_console demo_ops small_fb_ok ltac:(cbn; lia) demo_guarded)
    as [_ H].
  exact (H 0 0 ltac:(vm_compute; split; [discriminate|reflexivity]) ltac:(vm_compute; split; [discriminate|reflexivity])).
Defined.

Lemma console_print_appears_witness :
  let s := run COLOR_BLACK demo_ops (console_init small_fb reset_console) in
  cell_shows small_fb (g_video (console_print (lit "ok") s)) 0 1 2 (mkCell 107 COLOR_WHITE COLOR_BLACK).
Proof.
  pose proof (console_print_appears small_fb reset_console demo_ops (lit "ok") small_fb_ok ltac:(cbn; lia) demo_guarded
    ltac:(vm_compute; reflexivity) ltac:(repeat constructor; cbn; lia) ltac:(discriminate) ltac:(vm_compute; reflexivity))
    as (_ & _ & H).
  exact (H 1%nat 107 ltac:(reflexivity)).
Defined.

Lemma console_capture_collects_witness :
  (console_capture_end (console_print (lit "hello") (console_capture_begin 4 reset_console))).1 = (3, lit "hel").
Proof.
  pose proof (console_capture_collects 4 (lit "hello") reset_console ltac:(lia) eq_refl) as H.
  destruct (console_capture_end _) as [[n t] s] in H |- *. destruct H as (-> & -> & _). reflexivity.
Defined.

Lemma console_dec_roundtrip_witness :
  dec_value (console_capture_end (console_print_dec 18446744073709551615 (console_capture_begin 32 reset_console))).1.2
  = 18446744073709551615.
Proof.
  exact (proj1 (console_dec_roundtrip 18446744073709551615 32 reset_console ltac:(lia) ltac:(lia) eq_refl)).
Defined.

(** Scrolling back and forth before the text has reached the last row leaves
    the text on the wrong row: the line the cursor is on is drawn on the last
    row of the screen, and the next character appears on another one. *)
Theorem console_scroll_misplaces_text :
  let s := run COLOR_BLACK [OpPutchar 65; OpScroll 1; OpScroll (-1); OpPutchar 66] (console_init small_fb reset_console) in
  g_scroll_offset s = 0 ∧ g_row s = 0 ∧ g_col s = 2 ∧
  (cell_at s (g_total_lines s) 0, cell_at s (g_total_lines s) 1) =
    (mkCell 65 COLOR_WHITE COLOR_BLACK, mkCell 66 COLOR_WHITE COLOR_BLACK) ∧
  cell_shows small_fb (g_video s) 0 1 0 (mkCell 66 COLOR_WHITE COLOR_BLACK) ∧
  ¬ cell_shows small_fb (g_video s) 0 0 0 (mkCell 65 COLOR_WHITE COLOR_BLACK) ∧
  cell_shows small_fb (g_video s) 0 0 2 (mkCell 65 COLOR_WHITE COLOR_BLACK).
Proof.
  cbv zeta. rewrite <- !cell_check_spec. vm_compute. repeat split; discriminate.
Qed.

(** A status is set at the right edge, so that the text wraps before the line
    feed that follows it: every status line is followed by an empty one. *)
Theorem console_status_skips_line :
  option_map (λ s, (g_row s, g_col s, g_total_lines s)) (console_status_ok 20 (console_init small_fb reset_console))
  = Some (2, 0, 3).
Proof. vm_compute. reflexivity. Qed.

(** A status line while output is captured never comes to an end: the column it
    waits for does not change. *)
Theorem console_status_hangs_in_capture fuel s :
  g_capture_active s = true → 0 ≤ g_col s < g_cols s - 6 → console_status_ok fuel s = None.
Proof.
  intros Ha Hc.
  assert (∀ fuel s target, g_capture_active s = true → g_col s < target → pad_loop fuel target s = None) as H.
  { clear. induction fuel as [|fuel IH]; intros s target Ha Hc; cbn [pad_loop];
      (destruct (Z.ltb_spec (g_col s) target); [|lia]); [done|].
    apply IH; unfold console_putchar; rewrite Ha; by case_match. }
  unfold console_status_ok, print_status. change (Z.of_nat (length (lit "OK")) + 4) with 6. cbv zeta.
  destruct (Z.ltb_spec 6 (g_cols s)); [|lia].
  destruct (Z.ltb_spec (g_col s) (g_cols s - 6)); [|lia]. rewrite H; [done|done|cbn; lia].
Qed.

End ConsoleSpec.
