(* ===== verification/Input.v ===== *)
(** * Keyboard and mouse

    [src/drivers/input/]: the event counters of [input.c], the PS/2 keyboard
    ([keyboard.c]: controller set-up, scancodes to characters, dispatch to the
    shell or the desktop) and the PS/2 and USB mouse ([mouse.c]: set-up,
    packets, screen position).  Ports and the consumers of the keys are
    reached through [InputEnv]; the interrupt handlers push into the queue of
    [Events]. *)

From Stdlib Require Import Lia ZArith Bool.
From stdpp Require Import base list numbers.
From S2P Require Import Prelude Events.

Local Open Scope Z_scope.

Module Input.

(** ** The environment *)

Class InputEnv (E : Type) := {
  ie_inb : Z → E → Z * E;
  ie_outb : Z → Z → E → E;
  ie_gui_is_active : E → bool;
  ie_gui_handle_key : Z → E → E;
  ie_console_scroll : Z → E → E;
  ie_shell_history_prev : E → E;
  ie_shell_history_next : E → E;
  ie_shell_input_char : Z → E → E;
  ie_shell_return_from_desktop : E → E;
}.

(** ** Sources and counters *)

Inductive nexus_input_source_t := NEXUS_INPUT_SOURCE_PS2 | NEXUS_INPUT_SOURCE_USB.
Inductive nexus_input_device_t := NEXUS_INPUT_DEVICE_KEYBOARD | NEXUS_INPUT_DEVICE_MOUSE.

Definition source_index (s : nexus_input_source_t) : Z :=
  match s with NEXUS_INPUT_SOURCE_PS2 => 1 | NEXUS_INPUT_SOURCE_USB => 2 end.
Definition device_index (d : nexus_input_device_t) : Z :=
  match d with NEXUS_INPUT_DEVICE_KEYBOARD => 1 | NEXUS_INPUT_DEVICE_MOUSE => 2 end.

Record counters := mkCounters {
  g_keyboard_events : Z → Z;
  g_mouse_events : Z → Z;
  g_present : Z → Z → bool;
}.
#[export] Instance eta_counters : Eta counters := λ r,
  mkCounters (g_keyboard_events r) (g_mouse_events r) (g_present r).

Definition input_init (c : counters) : counters :=
  let zero (f : Z → Z) := λ i, if bool_decide (0 ≤ i < 3) then 0 else f i in
  mkCounters (zero (g_keyboard_events c)) (zero (g_mouse_events c))
    (λ s d, if bool_decide (0 ≤ s < 3 ∧ 0 ≤ d < 3) then false else g_present c s d).

(** The arguments the functions ignore are left out. *)
Definition input_record_keyboard (source : Z) (c : counters) : counters :=
  if u32 source <? 3 then c <| g_keyboard_events := upd (g_keyboard_events c) source (u64 (g_keyboard_events c source + 1)) |>
  else c.
Definition input_record_mouse (source : Z) (c : counters) : counters :=
  if u32 source <? 3 then c <| g_mouse_events := upd (g_mouse_events c) source (u64 (g_mouse_events c source + 1)) |>
  else c.
Definition input_keyboard_events (source : Z) (c : counters) : Z :=
  if u32 source <? 3 then g_keyboard_events c source else 0.
Definition input_mouse_events (source : Z) (c : counters) : Z :=
  if u32 source <? 3 then g_mouse_events c source else 0.
Definition input_source_present (source device : Z) (c : counters) : bool :=
  if (u32 source <? 3) && (u32 device <? 3) then g_present c source device else false.
Definition input_set_present (source device : Z) (present : bool) (c : counters) : counters :=
  if (u32 source <? 3) && (u32 device <? 3)
  then c <| g_present := upd (g_present c) source (upd (g_present c source) device present) |> else c.

(** ** The i8042 controller *)

Definition KBD_DATA_PORT : Z := 0x60.
Definition KBD_STATUS_PORT : Z := 0x64.
Definition KBD_CMD_PORT : Z := 0x64.
Definition KBD_STATUS_OBF : Z := 1.
Definition KBD_STATUS_IBF : Z := 2.
Definition ST_AUX : Z := 0x20.
Definition MOUSE_ACK : Z := 0xFA.
Definition MOUSE_RESEND : Z := 0xFE.
Definition MOUSE_ID_STD : Z := 0.
Definition MOUSE_ID_WHEEL : Z := 3.

Section ports.
Context {E : Type} `{InputEnv E}.
Implicit Types e : E.

(** The polling loops of both drivers, which give up after 100000 rounds. *)
Definition POLL_ROUNDS : nat := Z.to_nat 100000.

Fixpoint poll_input_clear (n : nat) e : E :=
  match n with
  | O => e
  | S n => let '(v, e) := ie_inb KBD_STATUS_PORT e in
           if negb (has_bits v KBD_STATUS_IBF) then e else poll_input_clear n e
  end.

Fixpoint poll_output_full (n : nat) e : option Z * E :=
  match n with
  | O => (None, e)
  | S n => let '(v, e) := ie_inb KBD_STATUS_PORT e in
           if has_bits v KBD_STATUS_OBF then
             let '(d, e) := ie_inb KBD_DATA_PORT e in (Some d, e)
           else poll_output_full n e
  end.

Definition wait_input_clear e : E := poll_input_clear POLL_ROUNDS e.
Definition wait_output_full e : option Z * E := poll_output_full POLL_ROUNDS e.

Fixpoint flush_loop (n : nat) e : E :=
  match n with
  | O => e
  | S n => let '(v, e) := ie_inb KBD_STATUS_PORT e in
           if negb (has_bits v KBD_STATUS_OBF) then e else flush_loop n (ie_inb KBD_DATA_PORT e).2
  end.

Definition flush_output_buffer e : E := flush_loop 32 e.

(** Wait until the controller takes a byte, then send it to [port]. *)
Definition send (port value : Z) e : E := ie_outb port value (wait_input_clear e).

Fixpoint send_loop (retries : nat) (command : Z) e : bool * E :=
  match retries with
  | O => (false, e)
  | S retries =>
    let e := send KBD_DATA_PORT command e in
    match wait_output_full e with
    | (None, e) => (false, e)
    | (Some reply, e) =>
      if reply =? 0xFA then (true, e) else
      if negb (reply =? 0xFE) then (false, e) else send_loop retries command e
    end
  end.

Definition keyboard_send (command : Z) e : bool * E := send_loop 3 command e.

Fixpoint mouse_write_loop (retries : nat) (value : Z) e : bool * E :=
  match retries with
  | O => (false, e)
  | S retries =>
    let e := send KBD_DATA_PORT value (send KBD_CMD_PORT 0xD4 e) in
    match wait_output_full e with
    | (None, e) => (false, e)
    | (Some reply, e) =>
      if reply =? MOUSE_ACK then (true, e) else
      if negb (reply =? MOUSE_RESEND) then (false, e) else mouse_write_loop retries value e
    end
  end.

Definition mouse_write_byte (value : Z) e : bool * E := mouse_write_loop 3 value e.

Definition mouse_command_with_reply (command : Z) e : option Z * E :=
  wait_output_full (send KBD_DATA_PORT command (send KBD_CMD_PORT 0xD4 e)).

Definition mouse_set_sample_rate (rate : Z) e : bool * E :=
  let '(ok, e) := mouse_write_byte 0xF3 e in
  if negb ok then (false, e) else mouse_write_byte rate e.

Definition mouse_identify e : option Z * E :=
  match mouse_command_with_reply 0xF2 e with
  | (Some reply, e) => if negb (reply =? MOUSE_ACK) then (None, e) else wait_output_full e
  | (None, e) => (None, e)
  end.

End ports.

(** ** The keyboard *)

Definition SC_LSHIFT : Z := 0x2A.
Definition SC_RSHIFT : Z := 0x36.
Definition SC_LCTRL : Z := 0x1D.
Definition SC_LALT : Z := 0x38.
Definition SC_CAPS : Z := 0x3A.
Definition SC_NUM : Z := 0x45.
Definition SC_SCROLL : Z := 0x46.
Definition SC_EXTENDED : Z := 0xE0.
Definition SC_RELEASE : Z := 0x80.
Definition GUI_KEY_LEFT : Z := 0x81.
Definition GUI_KEY_RIGHT : Z := 0x82.
Definition GUI_KEY_UP : Z := 0x83.
Definition GUI_KEY_DOWN : Z := 0x84.

Definition scancode_ascii : list Z :=
  [0; 27; 49; 50; 51; 52; 53; 54; 55; 56; 57; 48; 45; 61; 8; 9;
   113; 119; 101; 114; 116; 121; 117; 105; 111; 112; 91; 93; 10; 0; 97; 115;
   100; 102; 103; 104; 106; 107; 108; 59; 39; 96; 0; 92; 122; 120; 99; 118;
   98; 110; 109; 44; 46; 47; 0; 42; 0; 32; 0; 0; 0; 0; 0; 0;
   0; 0; 0; 0; 0; 0; 0; 0; 0; 0; 0; 0; 0; 0; 0; 0;
   0; 0; 0; 0; 0; 0; 0; 0; 0; 0; 0; 0; 0; 0; 0; 0;
   0; 0; 0; 0; 0; 0].

Definition scancode_shift : list Z :=
  [0; 27; 33; 64; 35; 36; 37; 94; 38; 42; 40; 41; 95; 43; 8; 9;
   81; 87; 69; 82; 84; 89; 85; 73; 79; 80; 123; 125; 10; 0; 65; 83;
   68; 70; 71; 72; 74; 75; 76; 58; 34; 126; 0; 124; 90; 88; 67; 86;
   66; 78; 77; 60; 62; 63; 0; 42; 0; 32; 0; 0; 0; 0; 0; 0;
   0; 0; 0; 0; 0; 0; 0; 0; 0; 0; 0; 0; 0; 0; 0; 0;
   0; 0; 0; 0; 0; 0; 0; 0; 0; 0; 0; 0; 0; 0; 0; 0;
   0; 0; 0; 0; 0; 0].

(** The rest of the 128 entries is zero. *)
Definition ascii_of (sc : Z) : Z := default 0 (scancode_ascii !! Z.to_nat sc).
Definition shift_of (sc : Z) : Z := default 0 (scancode_shift !! Z.to_nat sc).

Record keyboard := mkKeyboard {
  g_shift : bool;
  g_ctrl : bool;
  g_alt : bool;
  g_caps : bool;
  g_num : bool;
  g_scroll : bool;
  kb_present : bool;
  g_extended : bool;
}.
#[export] Instance eta_keyboard : Eta keyboard := λ r,
  mkKeyboard (g_shift r) (g_ctrl r) (g_alt r) (g_caps r) (g_num r) (g_scroll r) (kb_present r) (g_extended r).

(** ** The mouse *)

Record mouse := mkMouse {
  ms_present : bool;
  g_moved : bool;
  g_x : Z;
  g_y : Z;
  g_buttons : Z;
  g_wheel : Z;
  g_w : Z;
  g_h : Z;
  g_packet : list Z;
  g_packet_index : Z;
  g_packet_len : Z;
  g_device_id : Z;
}.
#[export] Instance eta_mouse : Eta mouse := λ r,
  mkMouse (ms_present r) (g_moved r) (g_x r) (g_y r) (g_buttons r) (g_wheel r) (g_w r) (g_h r) (g_packet r)
    (g_packet_index r) (g_packet_len r) (g_device_id r).

(** The drivers together with their environment. *)
Record inp {E : Type} := mkInp {
  cnt : counters;
  kb : keyboard;
  ms : mouse;
  hw : E;
}.
Arguments inp : clear implicits.
Arguments mkInp {E}.
#[export] Instance eta_inp {E} : Eta (inp E) := λ r, mkInp (cnt r) (kb r) (ms r) (hw r).

Section drivers.
Context {E : Type} `{InputEnv E}.
Implicit Types (s : inp E).

Definition set_kb (f : keyboard → keyboard) s : inp E := s <| kb := f (kb s) |>.
Definition set_hw (f : E → E) s : inp E := s <| hw := f (hw s) |>.

Definition keyboard_set_leds s : inp E :=
  let k := kb s in
  let leds := Z.lor (Z.lor (if g_scroll k then 1 else 0) (if g_num k then 2 else 0)) (if g_caps k then 4 else 0) in
  let '(ok, e) := keyboard_send 0xED (hw s) in
  if negb ok then s <| hw := e |> else s <| hw := (keyboard_send leds e).2 |>.

Definition keyboard_init s : inp E :=
  let s := s <| kb := mkKeyboard false false false false false false false false |> in
  let s := set_hw (λ e, flush_output_buffer (send KBD_CMD_PORT 0xA7 (send KBD_CMD_PORT 0xAD e))) s in
  match wait_output_full (send KBD_CMD_PORT 0x20 (hw s)) with
  | (None, e) => s <| hw := e |>
  | (Some config, e) =>
    let config := Z.lor config 1 in
    let config := Z.land config (u8 (Z.lnot 2)) in
    let config := Z.land config (u8 (Z.lnot 16)) in
    let config := Z.lor config 64 in
    let e := send KBD_DATA_PORT config (send KBD_CMD_PORT 0x60 e) in
    let e := flush_output_buffer (send KBD_CMD_PORT 0xAE e) in
    let '(ok, e) := keyboard_send 0xF4 e in
    let s := s <| hw := e |> in
    if negb ok then s else
    let s := set_hw flush_output_buffer (keyboard_set_leds s) in
    let s := set_kb (λ k, k <| kb_present := true |>) s in
    s <| cnt := input_set_present (source_index NEXUS_INPUT_SOURCE_PS2) (device_index NEXUS_INPUT_DEVICE_KEYBOARD)
                  true (cnt s) |>
  end.

Definition dispatch_special (sc : Z) (released : bool) s : inp E :=
  if released then s else
  if negb (ie_gui_is_active (hw s)) then
    if g_ctrl (kb s) && (sc =? 0x48) then set_hw (ie_console_scroll 1) s else
    if g_ctrl (kb s) && (sc =? 0x50) then set_hw (ie_console_scroll (-1)) s else
    if sc =? 0x49 then set_hw (ie_console_scroll 1) s else
    if sc =? 0x51 then set_hw (ie_console_scroll (-1)) s else
    if sc =? 0x48 then set_hw ie_shell_history_prev s else
    if sc =? 0x50 then set_hw ie_shell_history_next s else s
  else
    if sc =? 0x48 then set_hw (ie_gui_handle_key GUI_KEY_UP) s else
    if sc =? 0x50 then set_hw (ie_gui_handle_key GUI_KEY_DOWN) s else
    if sc =? 0x4B then set_hw (ie_gui_handle_key GUI_KEY_LEFT) s else
    if sc =? 0x4D then set_hw (ie_gui_handle_key GUI_KEY_RIGHT) s else s.

Definition is_alpha (sc : Z) : bool :=
  ((0x10 <=? sc) && (sc <=? 0x19)) || ((0x1E <=? sc) && (sc <=? 0x26)) || ((0x2C <=? sc) && (sc <=? 0x32)).

Definition char_of (k : keyboard) (sc : Z) : Z :=
  if is_alpha sc && g_caps k then (if g_shift k then ascii_of sc else shift_of sc)
  else (if g_shift k then shift_of sc else ascii_of sc).

(** Give a character to the desktop or to the shell. *)
Definition deliver_char (c : Z) s : inp E :=
  let s := s <| cnt := input_record_keyboard (source_index NEXUS_INPUT_SOURCE_PS2) (cnt s) |> in
  if ie_gui_is_active (hw s) then
    let s := set_hw (ie_gui_handle_key c) s in
    if negb (ie_gui_is_active (hw s)) then set_hw ie_shell_return_from_desktop s else s
  else set_hw (ie_shell_input_char c) s.

Definition keyboard_process_scancode (sc : Z) s : inp E :=
  if sc =? SC_EXTENDED then set_kb (λ k, k <| g_extended := true |>) s else
  let released := has_bits sc SC_RELEASE in
  let sc := Z.land sc 0x7F in
  if g_extended (kb s) then
    let s := set_kb (λ k, k <| g_extended := false |>) s in
    if sc =? SC_LCTRL then set_kb (λ k, k <| g_ctrl := negb released |>) s else
    if sc =? SC_LALT then set_kb (λ k, k <| g_alt := negb released |>) s else
    dispatch_special sc released s
  else
  if (sc =? SC_LSHIFT) || (sc =? SC_RSHIFT) then set_kb (λ k, k <| g_shift := negb released |>) s else
  if sc =? SC_LCTRL then set_kb (λ k, k <| g_ctrl := negb released |>) s else
  if sc =? SC_LALT then set_kb (λ k, k <| g_alt := negb released |>) s else
  if (sc =? SC_CAPS) && negb released then keyboard_set_leds (set_kb (λ k, k <| g_caps := negb (g_caps k) |>) s) else
  if (sc =? SC_NUM) && negb released then keyboard_set_leds (set_kb (λ k, k <| g_num := negb (g_num k) |>) s) else
  if (sc =? SC_SCROLL) && negb released then
    keyboard_set_leds (set_kb (λ k, k <| g_scroll := negb (g_scroll k) |>) s) else
  if released || (128 <=? sc) then s else
  let c := if sc <? 128 then char_of (kb s) sc else 0 in
  if c =? 0 then s else deliver_char c s.

Fixpoint kb_irq_loop (n : nat) (q : EventQueue.event_queue) s : EventQueue.event_queue * inp E :=
  match n with
  | O => (q, s)
  | S n =>
    let '(v, e) := ie_inb KBD_STATUS_PORT (hw s) in
    if negb (has_bits v KBD_STATUS_OBF) then (q, s <| hw := e |>) else
    let '(d, e) := ie_inb KBD_DATA_PORT e in
    kb_irq_loop n (EventQueue.event_queue_push NEXUS_EVENT_KEYBOARD_SCANCODE 1 d q).2 (s <| hw := e |>)
  end.

Definition keyboard_handle_irq (q : EventQueue.event_queue) s : EventQueue.event_queue * inp E := kb_irq_loop 16 q s.

Definition keyboard_is_present s : bool := kb_present (kb s).
Definition keyboard_shift_down s : bool := g_shift (kb s).
Definition keyboard_ctrl_down s : bool := g_ctrl (kb s).
Definition keyboard_alt_down s : bool := g_alt (kb s).
Definition keyboard_caps_lock s : bool := g_caps (kb s).
Definition keyboard_num_lock s : bool := g_num (kb s).
Definition keyboard_scroll_lock s : bool := g_scroll (kb s).

(** *** Mouse operations *)

Definition set_ms (f : mouse → mouse) s : inp E := s <| ms := f (ms s) |>.

(** [value] is a 64-bit sum; a limit above [2^31] does not occur. *)
Definition clamp_coord (value limit : Z) : Z :=
  if limit <=? 1 then 0 else
  if value <? 0 then 0 else
  if limit <=? value then i32 (i32 limit - 1) else i32 value.

Definition mouse_reset (m : mouse) : mouse :=
  mkMouse false false 0 0 0 0 (g_w m) (g_h m) (g_packet m) 0 3 MOUSE_ID_STD.

Definition mouse_init s : inp E :=
  let s := set_ms mouse_reset s in
  let s := set_hw (λ e, flush_output_buffer (send KBD_CMD_PORT 0xA7 e)) s in
  match wait_output_full (send KBD_CMD_PORT 0x20 (hw s)) with
  | (None, e) => s <| hw := e |>
  | (Some config, e) =>
    let config := Z.lor config 2 in
    let config := Z.land config (u8 (Z.lnot 32)) in
    let e := send KBD_DATA_PORT config (send KBD_CMD_PORT 0x60 e) in
    let e := flush_output_buffer (send KBD_CMD_PORT 0xA8 e) in
    let '(ok, e) := mouse_write_byte 0xF6 e in
    if negb ok then s <| hw := e |> else
    let e := (mouse_write_byte 0xE6 e).2 in
    let e := (mouse_write_byte 0xE8 e).2 in
    let e := (mouse_write_byte 0x02 e).2 in
    let e := (mouse_set_sample_rate 100 e).2 in
    let e := (mouse_set_sample_rate 200 e).2 in
    let e := (mouse_set_sample_rate 100 e).2 in
    let e := (mouse_set_sample_rate 80 e).2 in
    let '(id, e) := mouse_identify e in
    let s := match id with
             | Some id => set_ms (λ m, let m := m <| g_device_id := id |> in
                            if id =? MOUSE_ID_WHEEL then m <| g_packet_len := 4 |> else m) s
             | None => s
             end in
    let '(ok, e) := mouse_write_byte 0xF4 e in
    let s := s <| hw := e |> in
    if negb ok then s else
    let s := set_ms (λ m, m <| ms_present := true |> <| g_x := i32 (g_w m / 2) |> <| g_y := i32 (g_h m / 2) |>
                            <| g_packet_index := 0 |>) s in
    let s := s <| cnt := input_set_present (source_index NEXUS_INPUT_SOURCE_PS2) (device_index NEXUS_INPUT_DEVICE_MOUSE)
                           true (cnt s) |> in
    set_hw flush_output_buffer s
  end.

Definition mouse_set_screen_size (width height : Z) s : inp E :=
  let width := if width =? 0 then 1 else width in
  let height := if height =? 0 then 1 else height in
  set_ms (λ m, m <| g_w := width |> <| g_h := height |> <| g_x := clamp_coord (g_x m) width |>
                 <| g_y := clamp_coord (g_y m) height |>) s.

(** The signed wheel movement in the low half of the fourth byte. *)
Definition wheel_of (b : Z) : Z :=
  let wheel := i8 (Z.land b 0x0F) in
  if has_bits wheel 0x08 then i8 (Z.lor wheel 0xF0) else wheel.

(** Movement and buttons of a report: the position on the screen, and whether
    something changed. *)
Definition mouse_update (dx dy new_buttons : Z) (m : mouse) : mouse :=
  let nx := clamp_coord (g_x m + dx) (g_w m) in
  let ny := clamp_coord (g_y m - dy) (g_h m) in
  let m := if negb (nx =? g_x m) || negb (ny =? g_y m) || negb (g_buttons m =? new_buttons)
           then m <| g_moved := true |> else m in
  m <| g_x := nx |> <| g_y := ny |> <| g_buttons := new_buttons |>.

Definition packet_byte (m : mouse) (i : nat) : Z := default 0 (g_packet m !! i).

Definition decode_packet (m : mouse) : mouse :=
  let status := packet_byte m 0 in
  let dx := i8 (packet_byte m 1) in
  let dy := i8 (packet_byte m 2) in
  let new_buttons := Z.land status 0x07 in
  let wheeled := g_packet_len m =? 4 in
  let wheel := wheel_of (packet_byte m 3) in
  let m := if wheeled && negb (wheel =? 0) then m <| g_wheel := i8 (g_wheel m + wheel) |> else m in
  let new_buttons := if wheeled then Z.lor new_buttons (Z.land (packet_byte m 3) 0x30) else new_buttons in
  mouse_update dx dy new_buttons m.

Definition mouse_process_byte (b : Z) s : Z * inp E :=
  let m := ms s in
  if g_packet_index m =? 0 then
    if negb (has_bits b 0x08) then (0, s) else
    (0, set_ms (λ m, m <| g_packet := <[0%nat := b]> (g_packet m) |> <| g_packet_index := 1 |>) s)
  else
  let m := m <| g_packet := <[Z.to_nat (g_packet_index m) := b]> (g_packet m) |>
             <| g_packet_index := u8 (g_packet_index m + 1) |> in
  if negb (g_packet_index m =? g_packet_len m) then (0, s <| ms := m |>) else
  let m := m <| g_packet_index := 0 |> in
  if has_bits (packet_byte m 0) 0xC0 then (0, s <| ms := m |>) else
  (1, s <| ms := decode_packet m |>
        <| cnt := input_record_mouse (source_index NEXUS_INPUT_SOURCE_PS2) (cnt s) |>).

Fixpoint ms_irq_loop (n : nat) (q : EventQueue.event_queue) s : EventQueue.event_queue * inp E :=
  match n with
  | O => (q, s)
  | S n =>
    let '(v, e) := ie_inb KBD_STATUS_PORT (hw s) in
    if negb (has_bits v KBD_STATUS_OBF) || negb (has_bits v ST_AUX) then (q, s <| hw := e |>) else
    let '(d, e) := ie_inb KBD_DATA_PORT e in
    ms_irq_loop n (EventQueue.event_queue_push NEXUS_EVENT_MOUSE_BYTE 2 d q).2 (s <| hw := e |>)
  end.

Definition mouse_handle_irq (q : EventQueue.event_queue) s : EventQueue.event_queue * inp E := ms_irq_loop 16 q s.

Fixpoint poll_loop (n : nat) (packets : Z) s : Z * inp E :=
  match n with
  | O => (packets, s)
  | S n =>
    let '(v, e) := ie_inb KBD_STATUS_PORT (hw s) in
    if negb (has_bits v KBD_STATUS_OBF) || negb (has_bits v ST_AUX) then (packets, s <| hw := e |>) else
    let '(d, e) := ie_inb KBD_DATA_PORT e in
    let '(r, s) := mouse_process_byte d (s <| hw := e |>) in
    poll_loop n (Z.lor packets r) s
  end.

Definition mouse_poll s : Z * inp E := poll_loop 8 0 s.

Definition mouse_is_present s : bool := ms_present (ms s).
Definition mouse_has_moved s : bool := g_moved (ms s).
Definition mouse_get_x s : Z := g_x (ms s).
Definition mouse_get_y s : Z := g_y (ms s).
Definition mouse_get_buttons s : Z := g_buttons (ms s).
Definition mouse_get_wheel s : Z := g_wheel (ms s).
Definition mouse_has_wheel s : bool := g_packet_len (ms s) =? 4.
Definition mouse_clear_moved s : inp E := set_ms (λ m, m <| g_moved := false |>) s.
Definition mouse_clear_wheel s : inp E := set_ms (λ m, m <| g_wheel := 0 |>) s.

(** [report] are the [length] bytes of the report. *)
Definition mouse_process_usb_report (report : option (list Z)) (length : Z) s : inp E :=
  match report with
  | None => s
  | Some r =>
    if length <? 3 then s else
    let byte i := default 0 (r !! i) in
    let buttons := Z.land (byte 0%nat) 0x07 in
    let dx := i8 (byte 1%nat) in
    let dy := i8 (byte 2%nat) in
    let wheel := if 4 <=? length then i8 (byte 3%nat) else 0 in
    let m := mouse_update dx dy buttons (ms s) in
    let m := if negb (wheel =? 0) then m <| g_wheel := i8 (g_wheel m + wheel) |> else m in
    let m := m <| ms_present := true |> in
    let c := input_set_present (source_index NEXUS_INPUT_SOURCE_USB) (device_index NEXUS_INPUT_DEVICE_MOUSE)
               true (cnt s) in
    s <| ms := m |> <| cnt := input_record_mouse (source_index NEXUS_INPUT_SOURCE_USB) c |>
  end.

End drivers.

(** The drivers as the handlers that [KernelEvents] dispatches to. *)
Definition input_event_env {E} `{InputEnv E} (xhci_poll heartbeat : inp E → inp E) : KernelEvents.EventEnv (inp E) := {|
  KernelEvents.ee_xhci_poll := xhci_poll;
  KernelEvents.ee_keyboard_process_scancode := keyboard_process_scancode;
  KernelEvents.ee_mouse_process_byte := λ b s, (mouse_process_byte b s).2;
  KernelEvents.ee_watchdog_heartbeat := heartbeat;
|}.

End Input.
