(* ===== verification/InputSpec.v ===== *)
(** * Keyboard and mouse: properties

    Typed text reaches the shell character by character, mouse packets are
    decoded after any noise, the pointer stays on the screen; and what the
    drivers get wrong. *)

From Stdlib Require Import Lia ZArith Bool.
From stdpp Require Import base list numbers strings.
From S2P Require Import Prelude Events Input.

Local Open Scope Z_scope.

Module InputSpec.
Import Input.

(** ** Bytes and signs *)

Lemma i8_range x : -128 ≤ i8 x < 128.
Proof. unfold i8, to_signed. pose proof (Z.mod_pos_bound x (2 ^ 8)). case_match; lia. Qed.

Lemma i8_u8 x : -128 ≤ x < 128 → i8 (u8 x) = x.
Proof.
  intros Hx. unfold i8, to_signed, u8. rewrite Zmod_mod.
  destruct (Z.ltb_spec (x mod 2 ^ 8) (2 ^ (8 - 1))) as [H|H];
    pose proof (Z.div_mod x (2 ^ 8)); pose proof (Z.mod_pos_bound x (2 ^ 8)); nia.
Qed.

Lemma i32_small x : - 2 ^ 31 ≤ x < 2 ^ 31 → i32 x = x.
Proof.
  intros Hx. unfold i32, to_signed.
  destruct (Z.ltb_spec (x mod 2 ^ 32) (2 ^ (32 - 1))) as [H|H];
    pose proof (Z.div_mod x (2 ^ 32)); pose proof (Z.mod_pos_bound x (2 ^ 32)); nia.
Qed.

(** ** The pointer *)

(** The nearest coordinate on a screen of [limit] pixels. *)
Definition nearest (limit v : Z) : Z := Z.max 0 (Z.min (limit - 1) v).

Lemma clamp_coord_nearest v limit : 1 ≤ limit < 2 ^ 31 → clamp_coord v limit = nearest limit v.
Proof.
  intros Hl. unfold clamp_coord, nearest.
  destruct (Z.leb_spec limit 1); [lia|]. destruct (Z.ltb_spec v 0); [lia|].
  destruct (Z.leb_spec limit v); rewrite ?(i32_small limit), i32_small by lia; lia.
Qed.

Record mouse_ok (m : mouse) : Prop := {
  mo_w : 1 ≤ g_w m < 2 ^ 31;
  mo_h : 1 ≤ g_h m < 2 ^ 31;
  mo_x : 0 ≤ g_x m < g_w m;
  mo_y : 0 ≤ g_y m < g_h m;
  mo_wheel : -128 ≤ g_wheel m < 128;
  mo_len : g_packet_len m = 3 ∨ g_packet_len m = 4;
  mo_index : 0 ≤ g_packet_index m < g_packet_len m;
  mo_packet : length (g_packet m) = 4%nat;
}.

Lemma mouse_update_eq dx dy b m :
  1 ≤ g_w m < 2 ^ 31 → 1 ≤ g_h m < 2 ^ 31 →
  ∃ moved, mouse_update dx dy b m =
    m <| g_moved := moved |> <| g_x := nearest (g_w m) (g_x m + dx) |>
      <| g_y := nearest (g_h m) (g_y m - dy) |> <| g_buttons := b |>.
Proof.
  intros Hw Hh. unfold mouse_update. rewrite !clamp_coord_nearest by done.
  case_match; [by exists true|exists (g_moved m); by destruct m].
Qed.

Lemma update_ok dx dy b m : mouse_ok m → mouse_ok (mouse_update dx dy b m).
Proof.
  intros [Hw Hh Hx Hy Hwh Hl Hi Hp]. destruct (mouse_update_eq dx dy b m Hw Hh) as (mv & ->).
  split; try done; cbn; unfold nearest; lia.
Qed.

Lemma wheel_ok v m : mouse_ok m → mouse_ok (m <| g_wheel := i8 v |>).
Proof. intros []. split; try done. apply i8_range. Qed.

Lemma decode_ok m : mouse_ok m → mouse_ok (decode_packet m).
Proof. intros Hm. apply update_ok. case_match; [by apply wheel_ok|done]. Qed.

Lemma index_ok i m : mouse_ok m → 0 ≤ i < g_packet_len m → mouse_ok (m <| g_packet_index := i |>).
Proof. intros [] ?. by split. Qed.

Lemma packet_ok i b m : mouse_ok m → mouse_ok (m <| g_packet := <[i := b]> (g_packet m) |>).
Proof. intros []. split; try done. cbn. by rewrite length_insert. Qed.

(** Everything that reaches the mouse driver. *)
Inductive mouse_event :=
  | MouseByte (b : Z)
  | MouseReport (report : option (list Z)) (length : Z)
  | MouseScreen (width height : Z)
  | MouseClearMoved
  | MouseClearWheel
  | MouseInit.

Section driver.
Context {E : Type} `{InputEnv E}.
Implicit Types s : inp E.

Definition mouse_exec (ev : mouse_event) s : inp E :=
  match ev with
  | MouseByte b => (mouse_process_byte b s).2
  | MouseReport r n => mouse_process_usb_report r n s
  | MouseScreen w h => mouse_set_screen_size w h s
  | MouseClearMoved => mouse_clear_moved s
  | MouseClearWheel => mouse_clear_wheel s
  | MouseInit => mouse_init s
  end.

Definition mouse_run (evs : list mouse_event) s : inp E := foldl (λ s ev, mouse_exec ev s) s evs.

Lemma process_byte_ok b s : mouse_ok (ms s) → mouse_ok (ms (mouse_process_byte b s).2).
Proof.
  intros Hm. pose proof (mo_index _ Hm) as Hi. pose proof (mo_len _ Hm) as Hl. unfold mouse_process_byte.
  destruct (Z.eqb_spec (g_packet_index (ms s)) 0).
  { destruct (negb _); [done|]. cbn. apply index_ok; [by apply packet_ok|cbn; lia]. }
  cbn [g_packet_index set_field]. unfold u8. rewrite Z.mod_small by lia.
  set (m1 := (ms s) <| g_packet := _ |>).
  assert (mouse_ok m1) as Hm1 by (by apply packet_ok).
  match goal with |- context [_ =? g_packet_len ?x] => change (g_packet_len x) with (g_packet_len (ms s)) end.
  destruct (Z.eqb_spec (g_packet_index (ms s) + 1) (g_packet_len (ms s))) as [Heq|Hne]; cbn [negb].
  - destruct (has_bits _ _).
    + apply (index_ok 0 _ Hm1). cbn. lia.
    + apply decode_ok. apply (index_ok 0 _ Hm1). cbn. lia.
  - apply (index_ok _ _ Hm1). cbn in *. lia.
Qed.

Lemma reset_ok s : mouse_ok (ms s) → mouse_ok (mouse_reset (ms s)).
Proof. intros []. split; cbn; (done || lia). Qed.

Lemma mouse_init_ok s : mouse_ok (ms s) → mouse_ok (ms (mouse_init s)).
Proof.
  intros Hm%reset_ok. unfold mouse_init.
  destruct (wait_output_full _) as [[config|] e]; [|exact Hm].
  destruct (mouse_write_byte 0xF6 _) as [[] e1]; cbn [negb]; [|exact Hm].
  destruct (mouse_identify _) as [id e2].
  set (s1 := match id with Some _ => _ | None => _ end).
  assert (mouse_ok (ms s1) ∧ g_w (ms s1) = g_w (ms s) ∧ g_h (ms s1) = g_h (ms s)) as (Hm1 & Hw & Hh).
  { subst s1. destruct id as [id|]; [|done]. cbn. case_match; [|split; [|done]; destruct Hm; by split].
    split; [|done]. destruct Hm. split; try done; cbn in *; lia. }
  clearbody s1. destruct (mouse_write_byte 0xF4 _) as [[] e3]; cbn [negb]; [|exact Hm1].
  cbn. destruct Hm1. split; cbn; try done; try lia.
  - rewrite i32_small; pose proof (Z.div_mod (g_w (ms s1)) 2); pose proof (Z.mod_pos_bound (g_w (ms s1)) 2); lia.
  - rewrite i32_small; pose proof (Z.div_mod (g_h (ms s1)) 2); pose proof (Z.mod_pos_bound (g_h (ms s1)) 2); lia.
Qed.

Definition event_ok (ev : mouse_event) : Prop :=
  match ev with MouseScreen w h => 0 ≤ w < 2 ^ 31 ∧ 0 ≤ h < 2 ^ 31 | _ => True end.

Lemma mouse_exec_ok ev s : event_ok ev → mouse_ok (ms s) → mouse_ok (ms (mouse_exec ev s)).
Proof.
  intros He Hm. destruct ev as [b|r n|w h| | |]; cbn [mouse_exec].
  - by apply process_byte_ok.
  - destruct r as [r|]; [|done]. unfold mouse_process_usb_report. case_match; [done|]. cbn.
    assert (mouse_ok (mouse_update (i8 (default 0 (r !! 1%nat))) (i8 (default 0 (r !! 2%nat)))
      (Z.land (default 0 (r !! 0%nat)) 7) (ms s))) as Hu by (by apply update_ok).
    assert (∀ m, mouse_ok m → mouse_ok (m <| ms_present := true |>)) as Hp by (intros m []; by split).
    apply Hp. case_match; [by apply wheel_ok|done].
  - destruct He as [Hw Hh]. destruct Hm as [? ? Hx Hy ? ? ? ?].
    unfold mouse_set_screen_size. split; cbn; try done; repeat case_match; try lia;
      rewrite clamp_coord_nearest by lia; unfold nearest; lia.
  - destruct Hm. by split.
  - destruct Hm. split; cbn; (done || lia).
  - by apply mouse_init_ok.
Qed.

(** The pointer never leaves the screen: whatever bytes, reports and screen
    sizes reach the driver, in any order and with any initialisations between,
    the position stays inside the current screen, the packet index inside the
    packet and the wheel counter inside its byte. *)
Theorem mouse_stays_on_screen evs s :
  mouse_ok (ms s) → Forall event_ok evs →
  let m := ms (mouse_run evs s) in
  0 ≤ g_x m < g_w m ∧ 0 ≤ g_y m < g_h m ∧ 0 ≤ g_packet_index m < g_packet_len m ∧ g_packet_len m ≤ 4 ∧ -128 ≤ g_wheel m < 128.
Proof.
  intros Hm Hev m.
  assert (mouse_ok m) as [].
  { subst m. revert s Hm. induction Hev as [|ev evs He _ IH]; intros s Hm; [done|].
    apply IH. by apply mouse_exec_ok. }
  split_and!; lia.
Qed.

(** ** Packets *)

(** A movement as the device reports it. *)
Record packet := mkPacket { p_dx : Z; p_dy : Z; p_buttons : Z; p_wheel : Z; p_extra : Z }.

Definition packet_valid (p : packet) : Prop :=
  -128 ≤ p_dx p < 128 ∧ -128 ≤ p_dy p < 128 ∧ 0 ≤ p_buttons p < 8 ∧ -8 ≤ p_wheel p < 8 ∧ 0 ≤ p_extra p < 4.

(** The bytes of a packet; [wheeled] is the four-byte format. *)
Definition packet_bytes (wheeled : bool) (p : packet) : list Z :=
  let sign v := if v <? 0 then 1 else 0 in
  [8 + p_buttons p + 16 * sign (p_dx p) + 32 * sign (p_dy p); u8 (p_dx p); u8 (p_dy p)] ++
  if wheeled then [p_wheel p mod 16 + 16 * p_extra p] else [].

(** What a movement means for the pointer. *)
Definition apply_packet (wheeled : bool) (m : Z * Z * Z * Z) (w h : Z) (p : packet) : Z * Z * Z * Z :=
  let '(x, y, _, wheel) := m in
  (nearest w (x + p_dx p), nearest h (y - p_dy p),
   p_buttons p + (if wheeled then 16 * p_extra p else 0),
   if wheeled then i8 (wheel + p_wheel p) else wheel).

Definition pointer (m : mouse) : Z * Z * Z * Z := (g_x m, g_y m, g_buttons m, g_wheel m).

Definition feed (bytes : list Z) s : inp E := foldl (λ s b, (mouse_process_byte b s).2) s bytes.

(** A statement about small numbers, by evaluation. *)
Lemma checked (f : Z → bool) lo n x : forallb f (seqZ lo n) = true → lo ≤ x < lo + n → f x = true.
Proof. intros Hf Hx. rewrite forallb_forall in Hf. apply Hf, list_elem_of_In, elem_of_seqZ. lia. Qed.

Lemma status_bits (b sx sy : Z) :
  0 ≤ b < 8 → 0 ≤ sx < 2 → 0 ≤ sy < 2 →
  has_bits (8 + b + 16 * sx + 32 * sy) 8 = true ∧ has_bits (8 + b + 16 * sx + 32 * sy) 0xC0 = false ∧
  Z.land (8 + b + 16 * sx + 32 * sy) 7 = b.
Proof.
  intros Hb Hx Hy.
  assert (forallb (λ b, forallb (λ sx, forallb (λ sy, has_bits (8 + b + 16 * sx + 32 * sy) 8 &&
    negb (has_bits (8 + b + 16 * sx + 32 * sy) 0xC0) && (Z.land (8 + b + 16 * sx + 32 * sy) 7 =? b))
    (seqZ 0 2)) (seqZ 0 2)) (seqZ 0 8) = true) as Hall by (vm_compute; reflexivity).
  apply (checked _ _ _ b) in Hall; [|lia]. apply (checked _ _ _ sx) in Hall; [|lia].
  apply (checked _ _ _ sy) in Hall; [|lia]. rewrite !andb_true_iff, negb_true_iff, Z.eqb_eq in Hall. tauto.
Qed.

Lemma wheel_bits w x :
  -8 ≤ w < 8 → 0 ≤ x < 4 → wheel_of (w mod 16 + 16 * x) = w ∧ Z.land (w mod 16 + 16 * x) 0x30 = 16 * x.
Proof.
  intros Hw Hx.
  assert (forallb (λ w, forallb (λ x, (wheel_of (w mod 16 + 16 * x) =? w) && (Z.land (w mod 16 + 16 * x) 0x30 =? 16 * x))
    (seqZ 0 4)) (seqZ (-8) 16) = true) as Hall by (vm_compute; reflexivity).
  apply (checked _ _ _ w) in Hall; [|lia]. apply (checked _ _ _ x) in Hall; [|lia].
  rewrite andb_true_iff, !Z.eqb_eq in Hall. tauto.
Qed.

Lemma lor_buttons b x : 0 ≤ b < 8 → 0 ≤ x < 4 → Z.lor b (16 * x) = b + 16 * x.
Proof.
  intros Hb Hx.
  assert (forallb (λ b, forallb (λ x, Z.lor b (16 * x) =? b + 16 * x) (seqZ 0 4)) (seqZ 0 8) = true) as Hall
    by (vm_compute; reflexivity).
  apply (checked _ _ _ b) in Hall; [|lia]. apply (checked _ _ _ x) in Hall; [|lia]. by apply Z.eqb_eq.
Qed.

(** The decoder between two packets. *)
Record aligned (wheeled : bool) (m : mouse) : Prop := {
  al_ok : mouse_ok m;
  al_index : g_packet_index m = 0;
  al_len : g_packet_len m = if wheeled then 4 else 3;
}.

Lemma feed_app a b s : feed (a ++ b) s = feed b (feed a s).
Proof. apply foldl_app. Qed.

(** Bytes that cannot start a packet are skipped. *)
Lemma feed_noise wheeled noise s :
  aligned wheeled (ms s) → Forall (λ b, has_bits b 8 = false) noise → feed noise s = s.
Proof.
  intros Ha Hn. induction Hn as [|b noise Hb _ IH]; [done|]. cbn [feed foldl].
  replace ((mouse_process_byte b s).2) with s; [exact IH|].
  unfold mouse_process_byte. rewrite (al_index _ _ Ha). cbn. by rewrite Hb.
Qed.

Lemma step_first b s :
  g_packet_index (ms s) = 0 → has_bits b 8 = true →
  (mouse_process_byte b s).2 = set_ms (λ m, m <| g_packet := <[0%nat := b]> (g_packet m) |> <| g_packet_index := 1 |>) s.
Proof. intros Hi Hb. unfold mouse_process_byte. rewrite Hi, Hb. done. Qed.

Lemma step_next b s i :
  g_packet_index (ms s) = i → 0 < i → i + 1 < g_packet_len (ms s) ≤ 4 →
  (mouse_process_byte b s).2 =
    set_ms (λ m, m <| g_packet := <[Z.to_nat i := b]> (g_packet m) |> <| g_packet_index := i + 1 |>) s.
Proof.
  intros Hi Hp Hl. unfold mouse_process_byte. rewrite Hi. destruct (Z.eqb_spec i 0); [lia|].
  cbn [g_packet_index g_packet_len set_field]. unfold u8. rewrite Z.mod_small by lia.
  destruct (Z.eqb_spec (i + 1) (g_packet_len (ms s))); [lia|]. done.
Qed.

Lemma step_last b s i :
  g_packet_index (ms s) = i → 0 < i → i + 1 = g_packet_len (ms s) → i + 1 ≤ 4 →
  let m := (ms s) <| g_packet := <[Z.to_nat i := b]> (g_packet (ms s)) |> <| g_packet_index := 0 |> in
  has_bits (packet_byte m 0) 0xC0 = false →
  (mouse_process_byte b s).2 = s <| ms := decode_packet m |> <| cnt := input_record_mouse 1 (cnt s) |>.
Proof.
  intros Hi Hp Hl H4 m Hb. unfold mouse_process_byte. rewrite Hi. destruct (Z.eqb_spec i 0); [lia|].
  cbn [g_packet_index g_packet_len set_field]. unfold u8. rewrite Z.mod_small by lia.
  destruct (Z.eqb_spec (i + 1) (g_packet_len (ms s))); [|lia]. cbn [negb].
  change (packet_byte _ 0) with (packet_byte m 0). rewrite Hb. reflexivity.
Qed.

Lemma decode_aligned (wheeled : bool) m p :
  packet_valid p → mouse_ok m → g_packet_index m = 0 → g_packet_len m = (if wheeled then 4 else 3) →
  (∃ rest, g_packet m = packet_bytes wheeled p ++ rest) →
  aligned wheeled (decode_packet m) ∧ g_w (decode_packet m) = g_w m ∧ g_h (decode_packet m) = g_h m ∧
  pointer (decode_packet m) = apply_packet wheeled (pointer m) (g_w m) (g_h m) p.
Proof.
  intros (Hdx & Hdy & Hb & Hw & Hx) Hm Hi Hl (rest & Hp). pose proof (decode_ok m Hm) as Hok.
  assert (packet_byte m 1 = u8 (p_dx p) ∧ packet_byte m 2 = u8 (p_dy p) ∧
    packet_byte m 0 = 8 + p_buttons p + 16 * (if p_dx p <? 0 then 1 else 0) + 32 * (if p_dy p <? 0 then 1 else 0) ∧
    (wheeled = true → packet_byte m 3 = p_wheel p mod 16 + 16 * p_extra p)) as (H1 & H2 & H0 & H3).
  { unfold packet_byte. rewrite Hp. destruct wheeled; done. }
  destruct (status_bits (p_buttons p) (if p_dx p <? 0 then 1 else 0) (if p_dy p <? 0 then 1 else 0)) as (_ & _ & Hs);
    [done|by destruct (p_dx p <? 0)|by destruct (p_dy p <? 0)|].
  destruct (wheel_bits (p_wheel p) (p_extra p) Hw Hx) as [Hwh Hex].
  unfold decode_packet in *. rewrite H0, H1, H2, Hs, !i8_u8, Hl in Hok |- * by done.
  match goal with |- context [mouse_update _ _ _ ?x] => set (m1 := x) in * end.
  assert (g_packet_index m1 = 0 ∧ g_packet_len m1 = g_packet_len m ∧ g_w m1 = g_w m ∧ g_h m1 = g_h m ∧
    packet_byte m1 3 = packet_byte m 3 ∧ g_x m1 = g_x m ∧ g_y m1 = g_y m ∧ g_wheel m1 = if wheeled then i8 (g_wheel m + p_wheel p) else g_wheel m)
    as (I1 & I2 & I3 & I4 & I8 & I5 & I6 & I7).
  { subst m1. destruct wheeled; cbn [Z.eqb andb]; [|split_and!; done].
    change ((4 =? 4) && negb (wheel_of (packet_byte m 3) =? 0)) with (negb (wheel_of (packet_byte m 3) =? 0)).
    assert (wheel_of (packet_byte m 3) = p_wheel p) as -> by (by rewrite H3).
    destruct (Z.eqb_spec (p_wheel p) 0) as [->|]; cbn; split_and!; try done.
    rewrite Z.add_0_r. destruct Hm. clear -mo_wheel0. symmetry. rewrite <- (i8_u8 (g_wheel m)) at 2 by done.
    unfold i8, to_signed, u8. by rewrite Zmod_mod. }
  clearbody m1. rewrite I8 in Hok |- *.
  destruct (mouse_update_eq (p_dx p) (p_dy p)
    (if (if wheeled then 4 else 3) =? 4 then Z.lor (p_buttons p) (Z.land (packet_byte m 3) 48) else p_buttons p) m1)
    as (mv & Hup); [rewrite I3; apply Hm|rewrite I4; apply Hm|]. rewrite Hup in Hok |- *.
  split; [split; [done|exact I1|cbn; congruence]|]. split; [done|]. split; [done|].
  unfold pointer, apply_packet; cbn. rewrite I3, I4, I5, I6, I7. f_equal. f_equal.
  destruct wheeled; cbn; [|lia]. rewrite H3, Hex by done. by apply lor_buttons.
Qed.

Lemma feed_packet wheeled p s :
  aligned wheeled (ms s) → packet_valid p →
  let s' := feed (packet_bytes wheeled p) s in
  aligned wheeled (ms s') ∧ g_w (ms s') = g_w (ms s) ∧ g_h (ms s') = g_h (ms s) ∧
  pointer (ms s') = apply_packet wheeled (pointer (ms s)) (g_w (ms s)) (g_h (ms s)) p.
Proof.
  intros [Hok Hi Hl] Hp. pose proof Hp as (Hdx & Hdy & Hb & Hw & Hx).
  destruct (status_bits (p_buttons p) (if p_dx p <? 0 then 1 else 0) (if p_dy p <? 0 then 1 else 0)) as (Hs1 & Hs2 & _);
    [done|by destruct (p_dx p <? 0)|by destruct (p_dy p <? 0)|].
  pose proof (mo_packet _ Hok) as Hlen.
  destruct (g_packet (ms s)) as [|q0 [|q1 [|q2 [|q3 [|]]]]] eqn:Hq; try done. clear Hlen.
  unfold packet_bytes. set (st := 8 + _ + _ + _) in *.
  destruct wheeled; cbn [app feed foldl]; cbv zeta.
  - rewrite (step_first st s Hi Hs1).
    erewrite (step_next (u8 (p_dx p)) _ 1); [|reflexivity|lia|cbn; lia].
    erewrite (step_next (u8 (p_dy p)) _ 2); [|reflexivity|lia|cbn; lia].
    erewrite (step_last _ _ 3); [|reflexivity|lia|cbn; lia|lia|cbn; rewrite Hq; exact Hs2].
    cbn [ms set_field]. match goal with |- context [decode_packet ?x] => set (m2 := x) end.
    assert (mouse_ok m2) as Hm2 by (destruct Hok; split; cbn; (done || lia || by rewrite Hq)).
    destruct (decode_aligned true m2 p Hp Hm2) as (A1 & A2 & A3 & A4);
      [reflexivity|exact Hl|exists []; cbn; by rewrite Hq|].
    split; [exact A1|]. split; [exact A2|]. split; [exact A3|exact A4].
  - rewrite (step_first st s Hi Hs1).
    erewrite (step_next (u8 (p_dx p)) _ 1); [|reflexivity|lia|cbn; lia].
    erewrite (step_last _ _ 2); [|reflexivity|lia|cbn; lia|lia|cbn; rewrite Hq; exact Hs2].
    cbn [ms set_field]. match goal with |- context [decode_packet ?x] => set (m2 := x) end.
    assert (mouse_ok m2) as Hm2 by (destruct Hok; split; cbn; (done || lia || by rewrite Hq)).
    destruct (decode_aligned false m2 p Hp Hm2) as (A1 & A2 & A3 & A4);
      [reflexivity|exact Hl|exists [q3]; cbn; by rewrite Hq|].
    split; [exact A1|]. split; [exact A2|]. split; [exact A3|exact A4].
Qed.

(** A stream of packets, each behind bytes that cannot start one. *)
Definition stream (wheeled : bool) (l : list (list Z * packet)) : list Z :=
  concat (map (λ '(noise, p), noise ++ packet_bytes wheeled p) l).


(** ** Typing *)

Definition type_keys (codes : list Z) s : inp E := foldl (λ s sc, keyboard_process_scancode sc s) s codes.

(** Codes of keys that are neither modifiers nor locks. *)
Definition plain (i : Z) : bool :=
  (0 <=? i) && (i <? 128) && negb (i =? 0x60) &&
  forallb (λ k, negb (i =? k)) [SC_LSHIFT; SC_RSHIFT; SC_LCTRL; SC_LALT; SC_CAPS; SC_NUM; SC_SCROLL].

(** A US keyboard, scancode set 1: the rows of keys that have consecutive
    codes, by the first code, with what is printed on the keys without and with
    the shift key. *)
Definition us_rows : list (Z * list Z * list Z) :=
  [(0x02, lit "1234567890-=", lit "!@#$%^&*()_+");
   (0x10, lit "qwertyuiop[]", lit "QWERTYUIOP{}");
   (0x1E, lit "asdfghjkl;'`", lit "ASDFGHJKL:" ++ [34] ++ lit "~");
   (0x2B, lit "\zxcvbnm,./", lit "|ZXCVBNM<>?");
   (0x39, lit " ", [])].

(** Escape, backspace, tab, enter. *)
Definition us_controls : list (Z * Z) := [(0x01, 27); (0x0E, 8); (0x0F, 9); (0x1C, 10)].

Definition on_row (first : Z) (shifted : bool) (chars : list Z) : list (Z * Z * bool) :=
  imap (λ k c, (c, first + Z.of_nat k, shifted)) chars.

(** Character, code of the key, shift or not. *)
Definition us_layout : list (Z * Z * bool) :=
  map (λ '(code, c), (c, code, false)) us_controls ++
  concat (map (λ '(first, lower, upper), on_row first false lower ++ on_row first true upper) us_rows).

(** The codes the keyboard sends for a character: make and break, inside those
    of the left shift key (0x2A) where it is needed. *)
Definition key_codes (c : Z) : list Z :=
  match list_find (λ k, k.1.1 = c) us_layout with
  | Some (_, (_, code, shifted)) =>
     if shifted : bool then [0x2A; code; code + 128; 0x2A + 128] else [code; code + 128]
  | None => []
  end.

Definition typable (c : Z) : Prop := c ∈ us_layout.*1.*1.
#[export] Instance typable_dec c : Decision (typable c).
Proof. unfold typable. apply _. Defined.

(** All printable characters can be typed. *)
Lemma printable_typable c : 32 ≤ c < 127 → typable c.
Proof.
  intros Hc. assert (forallb (λ c, bool_decide (typable c)) (seqZ 32 95) = true) as Hall by (vm_compute; reflexivity).
  rewrite forallb_forall in Hall. apply (bool_decide_eq_true (typable c)), Hall, list_elem_of_In, elem_of_seqZ. lia.
Qed.

Lemma plain_codes i :
  plain i = true →
  has_bits i SC_RELEASE = false ∧ has_bits (i + 128) SC_RELEASE = true ∧ Z.land i 0x7F = i ∧ Z.land (i + 128) 0x7F = i.
Proof.
  intros Hp. assert (0 ≤ i < 128) as Hi by (unfold plain in Hp; rewrite !andb_true_iff in Hp; lia).
  assert (forallb (λ i, negb (has_bits i SC_RELEASE) && has_bits (i + 128) SC_RELEASE && (Z.land i 0x7F =? i) &&
    (Z.land (i + 128) 0x7F =? i)) (seqZ 0 128) = true) as Hall by (vm_compute; reflexivity).
  apply (checked _ _ _ i) in Hall; [|lia]. rewrite !andb_true_iff, negb_true_iff, !Z.eqb_eq in Hall. tauto.
Qed.

Lemma plain_press i s :
  plain i = true → g_extended (kb s) = false →
  keyboard_process_scancode i s = (if char_of (kb s) i =? 0 then s else deliver_char (char_of (kb s) i) s) ∧
  keyboard_process_scancode (i + 128) s = s.
Proof.
  intros Hp Hx. destruct (plain_codes i Hp) as (H1 & H2 & H3 & H4).
  unfold plain in Hp. cbn [forallb] in Hp. rewrite !andb_true_iff, !negb_true_iff, !Z.eqb_neq in Hp.
  unfold SC_LSHIFT, SC_RSHIFT, SC_LCTRL, SC_LALT, SC_CAPS, SC_NUM, SC_SCROLL in Hp.
  unfold keyboard_process_scancode. rewrite H1, H2, H3, H4, Hx.
  unfold SC_EXTENDED, SC_LSHIFT, SC_RSHIFT, SC_LCTRL, SC_LALT, SC_CAPS, SC_NUM, SC_SCROLL.
  split; repeat (case_match; try (exfalso; lia); try done).
Qed.

Lemma shift_press s :
  g_extended (kb s) = false →
  keyboard_process_scancode SC_LSHIFT s = set_kb (λ k, k <| g_shift := true |>) s ∧
  keyboard_process_scancode (SC_LSHIFT + 128) s = set_kb (λ k, k <| g_shift := false |>) s.
Proof. intros Hx. unfold keyboard_process_scancode. rewrite Hx. split; reflexivity. Qed.

(** The driver's tables give the character that is printed on the key. *)
Lemma layout_codes c i (shifted : bool) :
  (c, i, shifted) ∈ us_layout → plain i = true ∧ (if shifted then shift_of i else ascii_of i) = c ∧ c ≠ 0.
Proof.
  assert (forallb (λ '(c, i, sh), plain i && ((if sh : bool then shift_of i else ascii_of i) =? c) && negb (c =? 0))
    us_layout = true) as Hall by (vm_compute; reflexivity).
  rewrite forallb_forall in Hall. intros Hin%list_elem_of_In. specialize (Hall _ Hin). cbn beta iota in Hall.
  rewrite !andb_true_iff, negb_true_iff, Z.eqb_eq, Z.eqb_neq in Hall. by destruct Hall as [[? ?] ?].
Qed.

Lemma key_codes_typable c :
  typable c → ∃ i shifted, (c, i, shifted) ∈ us_layout ∧
    key_codes c = if shifted : bool then [SC_LSHIFT; i; i + 128; SC_LSHIFT + 128] else [i; i + 128].
Proof.
  unfold typable, key_codes. intros ([c' i'] & -> & Hin)%list_elem_of_fmap.
  apply list_elem_of_fmap in Hin as ([[c i] sh] & [= -> ->] & Hin). cbn [fst].
  destruct (list_find (λ k, k.1.1 = c) us_layout) as [[j [[c2 i2] sh2]]|] eqn:Hf.
  - apply list_find_Some in Hf as (Hl & Hc2 & _). cbn in Hc2. subst c2. exists i2, sh2. split; [|done].
    by eapply list_elem_of_lookup_2.
  - apply list_find_None in Hf. rewrite Forall_forall in Hf. by destruct (Hf _ Hin).
Qed.

Lemma typable_pos c : typable c → c ≠ 0.
Proof. intros (i & sh & Hin & _)%key_codes_typable. by apply layout_codes in Hin as (_ & _ & ?). Qed.

(** The keyboard at rest: no shift, no caps lock, no prefix pending. *)
Definition at_rest (k : keyboard) : Prop := g_shift k = false ∧ g_caps k = false ∧ g_extended k = false.

Definition shell_only : Prop :=
  ∀ c (e : E), ie_gui_is_active e = false → ie_gui_is_active (ie_shell_input_char c e) = false.

Lemma char_plain k i : g_caps k = false → char_of k i = if g_shift k then shift_of i else ascii_of i.
Proof. intros Hc. unfold char_of. by rewrite Hc, andb_false_r. Qed.

Lemma deliver_shell c s :
  ie_gui_is_active (hw s) = false →
  deliver_char c s = mkInp (input_record_keyboard 1 (cnt s)) (kb s) (ms s) (ie_shell_input_char c (hw s)).
Proof. intros Hg. unfold deliver_char. cbn [hw set_field]. rewrite Hg. reflexivity. Qed.

Lemma type_char c s :
  shell_only → typable c → at_rest (kb s) → ie_gui_is_active (hw s) = false →
  type_keys (key_codes c) s =
    mkInp (input_record_keyboard 1 (cnt s)) (kb s) (ms s) (ie_shell_input_char c (hw s)).
Proof.
  intros Hsh Ht (Hs & Hcaps & Hx) Hg. destruct (key_codes_typable c Ht) as (i & shifted & Hin & ->).
  destruct (layout_codes c i shifted Hin) as (Hp & Hch & Hc). destruct shifted; cbn [type_keys foldl].
  - destruct (shift_press s Hx) as [-> _].
    set (s1 := set_kb (λ k, k <| g_shift := true |>) s).
    destruct (plain_press i s1 Hp Hx) as [-> _].
    rewrite (char_plain (kb s1)) by done. change (g_shift (kb s1)) with true. rewrite Hch, (proj2 (Z.eqb_neq c 0) Hc).
    rewrite (deliver_shell c s1) by done. set (s2 := mkInp _ _ _ _).
    destruct (plain_press i s2 Hp Hx) as [_ ->].
    destruct (shift_press s2 Hx) as [_ ->]. subst s1 s2. destruct s as [c0 [] m e]. cbn in *. by subst.
  - destruct (plain_press i s Hp Hx) as [-> _]. rewrite char_plain, Hs, Hch, (proj2 (Z.eqb_neq c 0) Hc) by done.
    rewrite deliver_shell by done. by apply plain_press.
Qed.

Lemma type_text t s :
  shell_only → Forall typable t → at_rest (kb s) → ie_gui_is_active (hw s) = false →
  let s' := type_keys (concat (map key_codes t)) s in
  hw s' = foldl (λ e c, ie_shell_input_char c e) (hw s) t ∧ kb s' = kb s ∧ ms s' = ms s ∧
  g_keyboard_events (cnt s') 1 = (if decide (t = []) then g_keyboard_events (cnt s) 1
    else u64 (g_keyboard_events (cnt s) 1 + Z.of_nat (length t))).
Proof.
  intros Hsh Ht. cbv zeta. revert s. induction Ht as [|c t Hc Ht IH]; intros s Hr Hg; [done|].
  cbn [map concat]. unfold type_keys. rewrite foldl_app. fold (type_keys (key_codes c) s).
  rewrite (type_char c s Hsh Hc Hr Hg). set (s1 := mkInp _ _ _ _).
  destruct (IH s1 Hr) as (H1 & H2 & H3 & H4); [by apply Hsh|]. unfold type_keys in *.
  rewrite H1, H2, H3, H4. split_and!; try done.
  rewrite (decide_False (P := c :: t = [])) by done.
  assert (g_keyboard_events (cnt s1) 1 = u64 (g_keyboard_events (cnt s) 1 + 1)) as -> by reflexivity.
  destruct (decide (t = [])) as [->|]; cbn [length]; [done|].
  unfold u64. rewrite Zplus_mod_idemp_l. f_equal. lia.
Qed.

(** C29: Typing a text delivers the text: with the shell in front, no modifier
    held and caps lock off, the scancodes (set 1) that a US keyboard sends for
    printable characters, enter, tab, backspace and escape, in any order, reach
    the shell as exactly those characters, one call each; the keyboard is at
    rest again and every character is counted.  The codes come from the layout
    [us_layout], not from the tables of the driver. *)
Theorem keyboard_types_text t s :
  shell_only → Forall typable t → at_rest (kb s) → ie_gui_is_active (hw s) = false →
  let s' := type_keys (concat (map key_codes t)) s in
  hw s' = foldl (λ e c, ie_shell_input_char c e) (hw s) t ∧ kb s' = kb s ∧ ms s' = ms s ∧
  g_keyboard_events (cnt s') 1 = (if decide (t = []) then g_keyboard_events (cnt s) 1
    else u64 (g_keyboard_events (cnt s) 1 + Z.of_nat (length t))).
Proof. exact (type_text t s). Qed.

End driver.

(** ** A small machine *)

(** Pending bytes of the controller, with the mark of the mouse port; what the
    shell has received; whether the desktop is active. *)
Record pc := mkPc { pc_bytes : list (Z * bool); pc_typed : list Z; pc_gui : bool }.

#[export] Instance pc_env : InputEnv pc := {
  ie_inb port e :=
    match pc_bytes e with
    | [] => (0, e)
    | (b, aux) :: rest =>
      if port =? KBD_STATUS_PORT then ((if aux then 0x21 else 1), e) else (b, mkPc rest (pc_typed e) (pc_gui e))
    end;
  ie_outb _ _ e := e;
  ie_gui_is_active := pc_gui;
  ie_gui_handle_key _ e := e;
  ie_console_scroll _ e := e;
  ie_shell_history_prev e := e;
  ie_shell_history_next e := e;
  ie_shell_input_char c e := mkPc (pc_bytes e) (pc_typed e ++ [c]) (pc_gui e);
  ie_shell_return_from_desktop e := e;
}.

Definition idle_mouse : mouse := mkMouse true false 512 384 0 0 1024 768 [0; 0; 0; 0] 0 4 MOUSE_ID_WHEEL.
Definition idle_keyboard : keyboard := mkKeyboard false false false false false false true false.
Definition idle : inp pc :=
  mkInp (mkCounters (λ _, 0) (λ _, 0) (λ _ _, false)) idle_keyboard idle_mouse (mkPc [] [] false).

Lemma idle_mouse_ok : mouse_ok idle_mouse.
Proof. split; cbn; (done || lia || by right). Qed.

Lemma mouse_stays_on_screen_witness :
  let m := ms (mouse_run [MouseScreen 640 480; MouseByte 0x08; MouseByte 0x7F; MouseByte 0x81; MouseByte 0x0F;
                          MouseReport (Some [1; 127; 0]) 3; MouseScreen 0 0; MouseInit] idle) in
  (g_x m, g_w m) = (0, 1) ∧ 0 ≤ g_x m < g_w m.
Proof.
  refine (conj _ (proj1 (mouse_stays_on_screen _ idle idle_mouse_ok _))); [vm_compute; reflexivity|].
  repeat constructor; cbn; lia.
Defined.

Definition demo_packets : list (list Z * packet) :=
  [([0x07], mkPacket (-10) 10 1 (-1) 0); ([], mkPacket 3 0 0 1 2)].

Lemma demo_stream : stream true demo_packets = [0x07; 0x19; 0xF6; 0x0A; 0x0F; 0x08; 3; 0; 0x21].
Proof. vm_compute. reflexivity. Qed.


Lemma keyboard_types_text_witness :
  pc_typed (hw (type_keys (concat (map key_codes (lit "Hi, 2*x!"))) idle)) = lit "Hi, 2*x!".
Proof.
  assert (Forall typable (lit "Hi, 2*x!")) as Ht by (apply (bool_decide_unpack _); vm_compute; exact I).
  destruct (keyboard_types_text (lit "Hi, 2*x!") idle) as [-> _]; [by intros c e|exact Ht|by repeat split|reflexivity|].
  vm_compute. reflexivity.
Defined.

(** ** Defects *)

(** A PS/2 mouse reports movements of nine bits; the decoder drops the sign bit
    of the status byte and takes the low byte as signed: a movement of 200 to the
    right moves the pointer 56 to the left. *)
Theorem mouse_fast_motion_reversed :
  g_x (ms (feed [0x08; 200; 0; 0] idle)) = 512 - 56 ∧ has_bits 0x08 0x10 = false.
Proof. split; vm_compute; reflexivity. Qed.

(** Both shift keys share one flag: releasing the right one while the left one
    is held gives lower-case letters. *)
Theorem keyboard_shift_keys_share_flag :
  pc_typed (hw (type_keys [SC_LSHIFT; SC_RSHIFT; SC_RSHIFT + 128; 0x1E] idle)) = lit "a".
Proof. vm_compute. reflexivity. Qed.

(** The keyboard interrupt takes whatever the controller holds: a byte of the
    mouse becomes a scancode event. *)
Theorem keyboard_irq_takes_mouse_byte q :
  EventQueue.g_ready q = true →
  let '(q', s') := keyboard_handle_irq q (idle <| hw := mkPc [(0x1E, true)] [] false |>) in
  q' = (EventQueue.event_queue_push NEXUS_EVENT_KEYBOARD_SCANCODE 1 0x1E q).2 ∧ pc_bytes (hw s') = [].
Proof. intros _. split; reflexivity. Qed.

End InputSpec.
