(* ===== verification/Parser.v ===== *)
(** * The command-line parser

    [src/shell/core/parser.c]: [shell_parse_line] splits a line in place into
    commands; quotes and escapes are removed by moving the bytes to the left.
    The buffer is a memory with the line at address 0, an argument is the
    address where it starts.  A loop that has not ended after [fuel] rounds gives
    [None]. *)

From Stdlib Require Import Lia ZArith Bool.
From stdpp Require Import base list numbers strings.
From S2P Require Import Prelude Mem.

Local Open Scope Z_scope.

Module Parser.

Definition SHELL_MAX_TOKENS : Z := 32.
Definition SHELL_MAX_COMMANDS : Z := 8.

Inductive shell_op_t := SHELL_OP_END | SHELL_OP_SEQ | SHELL_OP_AND | SHELL_OP_PIPE.

(** [argc] is the length of [argv]; the null pointer behind the last argument is
    left out. *)
Record shell_parsed_command_t := mkCommand {
  argv : list Z;
  next : shell_op_t;
  redirect_in : option Z;
  redirect_out : option Z;
  append : bool;
}.
#[export] Instance eta_command : Eta shell_parsed_command_t := λ r,
  mkCommand (argv r) (next r) (redirect_in r) (redirect_out r) (append r).

Definition argc (c : shell_parsed_command_t) : Z := Z.of_nat (length (argv c)).

Definition buffer : Type := Z → Z.
Implicit Types b : buffer.

Definition space (c : Z) : bool := (c =? 32) || (c =? 9).
Definition SEMI : Z := 59.
Definition AMP : Z := 38.
Definition BAR : Z := 124.
Definition LESS : Z := 60.
Definition GREATER : Z := 62.
Definition BACKSLASH : Z := 92.
Definition QUOTE : Z := 39.
Definition DQUOTE : Z := 34.

Fixpoint skip (fuel : nat) (f : Z → bool) b (p : Z) : option Z :=
  match fuel with
  | O => None
  | S fuel => if f (b p) then skip fuel f b (p + 1) else Some p
  end.

Definition break_char b (p : Z) : bool :=
  space (b p) || (b p =? SEMI) || (b p =? BAR) || ((b p =? AMP) && (b (p + 1) =? AMP)).

(** The bytes of a word: [w] is where the next byte goes, [quote] the open quote
    or 0. *)
Fixpoint word_loop (fuel : nat) (quote p w : Z) b : option (Z * Z * Z * buffer) :=
  if b p =? 0 then Some (quote, p, w, b) else
  match fuel with
  | O => None
  | S fuel =>
    let copy p := word_loop fuel quote (p + 1) (w + 1) (upd b w (b p)) in
    let escaped := (b p =? BACKSLASH) && negb (b (p + 1) =? 0) in
    if negb (quote =? 0) then
      if b p =? quote then word_loop fuel 0 (p + 1) w b else
      if escaped then copy (p + 1) else copy p
    else
    if (b p =? QUOTE) || (b p =? DQUOTE) then word_loop fuel (b p) (p + 1) w b else
    if escaped then copy (p + 1) else
    if break_char b p then Some (quote, p, w, b) else copy p
  end.

Inductive word_result :=
  | WordError (code : Z)
  | WordNext (p : Z) (b : buffer) (c : shell_parsed_command_t).

(** One word or redirection, from the first byte that is no separator. *)
Definition parse_word (fuel : nat) (p : Z) b (c : shell_parsed_command_t) : option word_result :=
  let redir := if (b p =? LESS) || (b p =? GREATER) then b p else 0 in
  let append := (redir =? GREATER) && (b (p + 1) =? GREATER) in
  p ← (if redir =? 0 then Some p else skip fuel space b (if append then p + 2 else p + 1));
  '(quote, p', w, b) ← word_loop fuel 0 p p b;
  if negb (quote =? 0) then Some (WordError (-2)) else
  let b := upd b w 0 in
  if negb (redir =? 0) then
    if b p =? 0 then Some (WordError (-3)) else
    if redir =? LESS then Some (WordNext p' b (c <| redirect_in := Some p |>))
    else Some (WordNext p' b (c <| redirect_out := Some p |> <| Parser.append := append |>))
  else if SHELL_MAX_TOKENS - 1 <=? argc c then Some (WordError (-1))
  else Some (WordNext p' b (c <| argv := argv c ++ [p] |>)).

(** The words of one command, up to the operator that ends it. *)
Fixpoint command_loop (fuel : nat) (p : Z) b (c : shell_parsed_command_t) : option word_result :=
  match fuel with
  | O => None
  | S fuel' =>
    if b p =? 0 then Some (WordNext p b c) else
    p ← skip fuel space b p;
    if b p =? 0 then Some (WordNext p b c) else
    if b p =? SEMI then Some (WordNext (p + 1) b (c <| next := SHELL_OP_SEQ |>)) else
    if (b p =? AMP) && (b (p + 1) =? AMP) then Some (WordNext (p + 2) b (c <| next := SHELL_OP_AND |>)) else
    if b p =? BAR then Some (WordNext (p + 1) b (c <| next := SHELL_OP_PIPE |>)) else
    r ← parse_word fuel p b c;
    match r with
    | WordError code => Some (WordError code)
    | WordNext p b c => command_loop fuel' p b c
    end
  end.

Definition no_command : shell_parsed_command_t := mkCommand [] SHELL_OP_END None None false.

(** The commands found so far are [out]; the result is their number or an error,
    with the buffer. *)
Fixpoint line_loop (fuel : nat) (p : Z) b (max : Z) (out : list shell_parsed_command_t) :
    option (Z * buffer * list shell_parsed_command_t) :=
  match fuel with
  | O => None
  | S fuel' =>
    let n := Z.of_nat (length out) in
    if b p =? 0 then Some (n, b, out) else
    p ← skip fuel (λ c, space c || (c =? SEMI)) b p;
    if b p =? 0 then Some (n, b, out) else
    if max <=? n then Some (-1, b, out) else
    r ← command_loop fuel p b no_command;
    match r with
    | WordError code => Some (code, b, out)
    | WordNext p b c =>
      if (argc c =? 0) && bool_decide (redirect_in c = None) && bool_decide (redirect_out c = None)
      then Some (-3, b, out)
      else line_loop fuel' p b max (out ++ [c])
    end
  end.

Definition shell_parse_line (fuel : nat) (line : buffer) (max : Z) : option (Z * buffer * list shell_parsed_command_t) :=
  line_loop fuel 0 line max [].

(** The string at an address, of at most [fuel] bytes. *)
Fixpoint text_at (fuel : nat) b (p : Z) : cstr :=
  match fuel with
  | O => []
  | S fuel => if b p =? 0 then [] else b p :: text_at fuel b (p + 1)
  end.

(** A line in a buffer. *)
Definition line_buffer (t : cstr) : buffer := λ i, if 0 <=? i then default 0 (t !! Z.to_nat i) else 0.

End Parser.
