(* ===== verification/ParserSpec.v ===== *)
(** * The command-line parser: properties

    The parser ends on every line and stays inside its buffer; quoted words come
    back as they were; and the words of an unquoted line are lost behind the
    first one. *)

From Stdlib Require Import Lia ZArith Bool.
From stdpp Require Import base list numbers strings.
From S2P Require Import Prelude Mem Parser.

Local Open Scope Z_scope.

Module ParserSpec.
Import Parser.
Implicit Types (b : buffer) (c : shell_parsed_command_t).

(** ** Loops *)

Lemma skip_spec fuel f b p L :
  f 0 = false → b L = 0 → p ≤ L → (Z.to_nat (L - p) < fuel)%nat →
  ∃ p', skip fuel f b p = Some p' ∧ p ≤ p' ≤ L ∧ f (b p') = false ∧ ∀ j, p ≤ j < p' → f (b j) = true.
Proof.
  intros H0 HL. revert p. induction fuel as [|fuel IH]; intros p Hp Hf; [lia|]. cbn [skip].
  destruct (f (b p)) eqn:Hfp.
  - assert (p ≠ L) by (intros ->; congruence).
    destruct (IH (p + 1)) as (p' & -> & Hp' & Hn & Hall); [lia|lia|].
    exists p'. split; [done|]. split; [lia|]. split; [done|]. intros j Hj.
    destruct (decide (j = p)) as [->|]; [done|]. apply Hall. lia.
  - exists p. split; [done|]. split; [lia|]. split; [done|]. lia.
Qed.

(** [b'] differs from [b] at most between [lo] and [hi]. *)
Definition differs_in (lo hi : Z) b b' : Prop := ∀ j, j < lo ∨ hi ≤ j → b' j = b j.

Lemma differs_in_trans lo1 hi1 lo2 hi2 lo hi b1 b2 b3 :
  differs_in lo1 hi1 b1 b2 → differs_in lo2 hi2 b2 b3 → lo ≤ lo1 → lo ≤ lo2 → hi1 ≤ hi → hi2 ≤ hi →
  differs_in lo hi b1 b3.
Proof. intros H1 H2 ? ? ? ? j Hj. rewrite H2, H1; [done|lia|lia]. Qed.

Lemma differs_in_upd w v b : differs_in w (w + 1) b (upd b w v).
Proof. intros j Hj. apply upd_ne. lia. Qed.

Lemma word_loop_spec fuel q p w b L :
  b L = 0 → w ≤ p ≤ L → (Z.to_nat (L - p) ≤ fuel)%nat →
  ∃ q' p' w' b', word_loop fuel q p w b = Some (q', p', w', b') ∧
    p ≤ p' ≤ L ∧ w ≤ w' ≤ p' ∧ differs_in w w' b b' ∧
    (q = 0 → b p ≠ 0 → break_char b p = false → p < p') ∧
    (q' = 0 → b' p' = 0 ∨ break_char b' p' = true).
Proof.
  intros HL. revert q p w b HL. induction fuel as [|fuel IH]; intros q p w b HL Hw Hf.
  { assert (p = L) as -> by lia. exists q, L, w, b. cbn [word_loop]. rewrite HL.
    split; [done|]. split; [lia|]. split; [lia|]. split; [done|]. split; [done|by left]. }
  cbn [word_loop]. destruct (Z.eqb_spec (b p) 0) as [Hz|Hz].
  { exists q, p, w, b. split; [done|]. split; [lia|]. split; [lia|]. split; [done|]. split; [done|by left]. }
  assert (p < L) as HpL by (assert (p ≠ L) by (intros ->; congruence); lia).
  assert (∀ q' p0, p ≤ p0 < L → ∃ q'' p' w' b',
    word_loop fuel q' (p0 + 1) (w + 1) (upd b w (b p0)) = Some (q'', p', w', b') ∧
    p ≤ p' ≤ L ∧ w ≤ w' ≤ p' ∧ differs_in w w' b b' ∧ p < p' ∧ (q'' = 0 → b' p' = 0 ∨ break_char b' p' = true)) as Hcopy.
  { intros q' p0 Hp0. destruct (IH q' (p0 + 1) (w + 1) (upd b w (b p0))) as (q'' & p' & w' & b' & -> & H1 & H2 & H3 & _ & H5).
    - rewrite upd_ne by lia. done.
    - lia.
    - lia.
    - exists q'', p', w', b'. split; [done|]. split; [lia|]. split; [lia|]. split; [|split; [lia|done]].
      eapply differs_in_trans; [apply differs_in_upd|exact H3|lia..]. }
  assert (∀ q', ∃ q'' p' w' b', word_loop fuel q' (p + 1) w b = Some (q'', p', w', b') ∧
    p ≤ p' ≤ L ∧ w ≤ w' ≤ p' ∧ differs_in w w' b b' ∧ p < p' ∧ (q'' = 0 → b' p' = 0 ∨ break_char b' p' = true)) as Hskip.
  { intros q'. destruct (IH q' (p + 1) w b HL) as (q'' & p' & w' & b' & -> & H1 & H2 & H3 & _ & H5); [lia|lia|].
    exists q'', p', w', b'. split; [done|]. split; [lia|]. split; [lia|]. split; [done|]. split; [lia|done]. }
  assert (∀ o, (∃ q'' p' w' b', o = Some (q'', p', w', b') ∧
    p ≤ p' ≤ L ∧ w ≤ w' ≤ p' ∧ differs_in w w' b b' ∧ p < p' ∧ (q'' = 0 → b' p' = 0 ∨ break_char b' p' = true)) →
    ∃ q' p' w' b', o = Some (q', p', w', b') ∧ p ≤ p' ≤ L ∧ w ≤ w' ≤ p' ∧ differs_in w w' b b' ∧
      (q = 0 → b p ≠ 0 → break_char b p = false → p < p') ∧ (q' = 0 → b' p' = 0 ∨ break_char b' p' = true)) as Hweak.
  { intros o (q'' & p' & w' & b' & ? & ? & ? & ? & ? & ?). exists q'', p', w', b'. tauto. }
  assert ((b p =? BACKSLASH) && negb (b (p + 1) =? 0) = true → p + 1 < L) as Hesc.
  { intros He. assert (p + 1 ≠ L); [|lia]. intros E. rewrite E, HL in He. by rewrite andb_false_r in He. }
  repeat case_match; try (apply Hweak; (apply Hskip || (apply Hcopy; (specialize (Hesc eq_refl) || idtac); lia))).
  exists q, p, w, b. split; [done|]. split; [lia|]. split; [lia|]. split; [done|]. split; [congruence|by right].
Qed.

(** An argument or a file name inside the line. *)
Definition inside (L p : Z) : Prop := 0 ≤ p ≤ L.
Record command_ok (L : Z) c : Prop := {
  co_argv : Forall (inside L) (argv c);
  co_argc : argc c ≤ SHELL_MAX_TOKENS - 1;
  co_in : ∀ p, redirect_in c = Some p → inside L p;
  co_out : ∀ p, redirect_out c = Some p → inside L p;
}.

Lemma parse_word_spec fuel p b c L :
  b L = 0 → 0 ≤ p < L → (Z.to_nat (L - p) < fuel)%nat → b p ≠ 0 → break_char b p = false → command_ok L c →
  (∃ code, parse_word fuel p b c = Some (WordError code) ∧ (code = -1 ∨ code = -2 ∨ code = -3)) ∨
  ∃ p' b' c', parse_word fuel p b c = Some (WordNext p' b' c') ∧ p < p' ≤ L ∧ differs_in p (p' + 1) b b' ∧ b' L = 0 ∧
    command_ok L c'.
Proof.
  intros HL Hp Hf Hz Hbr Hc. unfold parse_word.
  set (redir := if (b p =? LESS) || (b p =? GREATER) then b p else 0).
  assert (redir = 0 ∨ redir ≠ 0 ∧ redir = b p) as Hredir.
  { subst redir. destruct ((b p =? LESS) || (b p =? GREATER)); [right|by left]. done. }
  set (app := (redir =? GREATER) && (b (p + 1) =? GREATER)).
  assert (app = true → p + 1 < L) as Happ.
  { intros [_ He]%andb_true_iff. apply Z.eqb_eq in He. assert (p + 1 ≠ L); [|lia]. intros E. rewrite E in He. rewrite HL in He. done. }
  assert (∃ p1, (if redir =? 0 then Some p else skip fuel space b (if app then p + 2 else p + 1)) = Some p1 ∧
    p ≤ p1 ≤ L ∧ (redir = 0 → p1 = p) ∧ (redir ≠ 0 → p < p1)) as (p1 & -> & Hp1 & Hr0 & Hr1).
  { destruct (Z.eqb_spec redir 0); [exists p; split; [done|]; split; [lia|]; split; [done|lia]|].
    destruct (skip_spec fuel space b (if app then p + 2 else p + 1) L) as (p1 & -> & Hp1 & _);
      [done|done|destruct app; [specialize (Happ eq_refl)|]; lia|destruct app; lia|].
    exists p1. split; [done|]. destruct app; (split; [lia|]; split; [done|lia]). }
  cbn [mbind option_bind].
  destruct (word_loop_spec fuel 0 p1 p1 b L HL) as (q & p2 & w & b1 & -> & H2 & Hw & Hd & Hprog & _); [lia|lia|].
  cbn [mbind option_bind]. destruct (negb (q =? 0)); [left; eexists; split; [done|lia]|].
  set (b2 := upd b1 w 0).
  assert (differs_in p (p2 + 1) b b2) as Hd2.
  { eapply differs_in_trans; [exact Hd|apply differs_in_upd|lia..]. }
  assert (b2 L = 0) as HL2.
  { subst b2. destruct (decide (w = L)) as [->|]; [apply upd_eq|]. rewrite upd_ne by done. rewrite Hd by lia. done. }
  destruct Hc as [Hc1 Hc2 Hc3 Hc4].
  destruct (Z.eqb_spec redir 0) as [E|E]; cbn [negb].
  - rewrite (Hr0 E) in *. specialize (Hprog eq_refl Hz Hbr).
    destruct (Z.leb_spec (SHELL_MAX_TOKENS - 1) (argc c)); [left; eexists; split; [done|lia]|].
    right. exists p2, b2. eexists. split; [done|]. split; [lia|]. split; [done|]. split; [done|].
    split; cbn; [|unfold argc; cbn; rewrite length_app; cbn; unfold argc in *; lia|done|done].
    apply Forall_app. split; [done|]. constructor; [unfold inside; lia|done].
  - specialize (Hr1 E). destruct (b2 p1 =? 0); [left; eexists; split; [done|lia]|].
    destruct (redir =? LESS); right; exists p2, b2; eexists; (split; [done|]; split; [lia|]; split; [done|]; split; [done|]);
      (split; cbn; [done|done| |]); (intros x [= <-]; unfold inside; lia) || done.
Qed.

Lemma not_break b p :
  space (b p) = false → (b p =? SEMI) = false → (b p =? AMP) && (b (p + 1) =? AMP) = false → (b p =? BAR) = false →
  break_char b p = false.
Proof. unfold break_char. by intros -> -> -> ->. Qed.

Lemma set_next_ok L c o : command_ok L c → command_ok L (c <| next := o |>).
Proof. intros []. by split. Qed.

Lemma command_loop_spec fuel p b c L :
  b L = 0 → 0 ≤ p ≤ L → (Z.to_nat (L - p) < fuel)%nat → command_ok L c →
  (∃ code, command_loop fuel p b c = Some (WordError code) ∧ (code = -1 ∨ code = -2 ∨ code = -3)) ∨
  ∃ p' b' c', command_loop fuel p b c = Some (WordNext p' b' c') ∧ p ≤ p' ≤ L ∧ (b p ≠ 0 → p < p') ∧
    differs_in p (L + 1) b b' ∧ b' L = 0 ∧ command_ok L c'.
Proof.
  intros HL. revert p b c HL. induction fuel as [|fuel IH]; intros p b c HL Hp Hf Hc; [lia|]. cbn [command_loop].
  assert (∀ p' o, p < p' ≤ L → ∃ p'' b' c', Some (WordNext p' b (c <| next := o |>)) = Some (WordNext p'' b' c') ∧
    p ≤ p'' ≤ L ∧ (b p ≠ 0 → p < p'') ∧ differs_in p (L + 1) b b' ∧ b' L = 0 ∧ command_ok L c') as Hend.
  { intros p' o Hp'. eexists _, _, _. split; [done|]. split; [lia|]. split; [lia|]. split; [done|].
    split; [done|by apply set_next_ok]. }
  destruct (Z.eqb_spec (b p) 0) as [Hz|Hz].
  { right. exists p, b, c. split; [done|]. split; [lia|]. split; [done|]. done. }
  destruct (skip_spec (S fuel) space b p L) as (p1 & -> & Hp1 & Hsp & Hbetween); [done|done|lia|lia|]. cbn [mbind option_bind].
  destruct (Z.eqb_spec (b p1) 0) as [Hz1|Hz1].
  { right. exists p1, b, c. split; [done|]. split; [lia|]. split; [|done]. intros _.
    assert (p ≠ p1) by (intros ->; done). lia. }
  assert (p1 < L) as HpL by (assert (p1 ≠ L) by (intros ->; congruence); lia).
  destruct (b p1 =? SEMI) eqn:Hs1; [right; apply Hend; lia|].
  destruct ((b p1 =? AMP) && (b (p1 + 1) =? AMP)) eqn:Hs2.
  { right. apply Hend. apply andb_true_iff in Hs2 as [_ He]. apply Z.eqb_eq in He.
    assert (p1 + 1 ≠ L); [|lia]. intros E. rewrite E, HL in He. done. }
  destruct (b p1 =? BAR) eqn:Hs3; [right; apply Hend; lia|].
  destruct (parse_word_spec (S fuel) p1 b c L HL ltac:(lia) ltac:(lia) Hz1 (not_break b p1 Hsp Hs1 Hs2 Hs3) Hc)
    as [(code & -> & Hcode)|(p2 & b2 & c2 & -> & Hp2 & Hd2 & HL2 & Hc2)]; cbn [mbind option_bind].
  { left. by exists code. }
  destruct (IH p2 b2 c2 HL2) as [?|(p' & b' & c' & -> & Hp' & _ & Hd' & HL' & Hc')]; [lia|lia|done|by left|].
  right. exists p', b', c'. split; [done|]. split; [lia|]. split; [lia|]. split; [|done].
  eapply differs_in_trans; [exact Hd2|exact Hd'|lia..].
Qed.

Lemma line_loop_spec fuel p b max out L :
  b L = 0 → 0 ≤ p ≤ L → (Z.to_nat (L - p) < fuel)%nat → Forall (command_ok L) out → Z.of_nat (length out) ≤ max →
  ∃ code b' out', line_loop fuel p b max out = Some (code, b', out') ∧
    (code = Z.of_nat (length out') ∨ code = -1 ∨ code = -2 ∨ code = -3) ∧ differs_in p (L + 1) b b' ∧
    Forall (command_ok L) out' ∧ Z.of_nat (length out') ≤ max.
Proof.
  intros HL. revert p b out HL. induction fuel as [|fuel IH]; intros p b out HL Hp Hf Hout Hmax; [lia|]. cbn [line_loop].
  destruct (Z.eqb_spec (b p) 0) as [Hz|Hz]; [eexists _, _, _; split; [done|]; split; [by left|done]|].
  destruct (skip_spec (S fuel) (λ c : Z, space c || (c =? SEMI)) b p L) as (p1 & -> & Hp1 & Hsp & _); [done|done|lia|lia|].
  cbn [mbind option_bind].
  destruct (Z.eqb_spec (b p1) 0) as [Hz1|Hz1]; [eexists _, _, _; split; [done|]; split; [by left|done]|].
  assert (p1 < L) as HpL by (assert (p1 ≠ L) by (intros ->; congruence); lia).
  destruct (Z.leb_spec max (Z.of_nat (length out))); [eexists _, _, _; split; [done|]; split; [lia|done]|].
  destruct (command_loop_spec (S fuel) p1 b no_command L HL ltac:(lia) ltac:(lia))
    as [(code & -> & Hcode)|(p2 & b2 & c2 & -> & Hp2 & Hprog & Hd2 & HL2 & Hc2)]; cbn [mbind option_bind].
  { split; cbn; [constructor|unfold argc, SHELL_MAX_TOKENS; cbn; lia|done|done]. }
  { eexists _, _, _; split; [done|]; split; [lia|done]. }
  specialize (Hprog Hz1).
  assert (differs_in p (L + 1) b b2) as Hd by (intros j Hj; apply Hd2; lia).
  destruct (_ && _); [eexists _, _, _; split; [done|]; split; [lia|done]|].
  destruct (IH p2 b2 (out ++ [c2]) HL2) as (code & b' & out' & -> & Hcode & Hd' & Hout' & Hmax');
    [lia|lia|apply Forall_app; split; [done|by constructor]|rewrite length_app; cbn; lia|].
  eexists _, _, _. split; [done|]. split; [done|]. split; [|done].
  eapply differs_in_trans; [exact Hd|exact Hd'|lia..].
Qed.

(** C31: The parser ends on every line, and stays inside it: with a terminator at [L]
    it returns the number of commands or one of its three error codes, changes no
    byte outside [0..L], stores at most [max] commands of at most 31 arguments,
    and every argument and file name starts inside the line. *)
Theorem shell_parse_line_safe b L max :
  b L = 0 → 0 ≤ L → 0 ≤ max →
  ∃ code b' out, shell_parse_line (S (Z.to_nat L)) b max = Some (code, b', out) ∧
    (code = Z.of_nat (length out) ∨ code = -1 ∨ code = -2 ∨ code = -3) ∧
    (∀ j, j < 0 ∨ L < j → b' j = b j) ∧ Z.of_nat (length out) ≤ max ∧ Forall (command_ok L) out.
Proof.
  intros HL Hpos Hmax. unfold shell_parse_line.
  destruct (line_loop_spec (S (Z.to_nat L)) 0 b max [] L HL) as (code & b' & out & -> & H1 & H2 & H3 & H4);
    [lia|lia|constructor|cbn; lia|].
  exists code, b', out. split; [done|]. split; [done|]. split; [|done]. intros j Hj. apply H2. lia.
Qed.

(** ** Text in the buffer *)

Definition holds b (p : Z) (t : cstr) : Prop := ∀ i x, t !! i = Some x → b (p + Z.of_nat i) = x.

Lemma holds_cons b p x t : holds b p (x :: t) ↔ b p = x ∧ holds b (p + 1) t.
Proof.
  split.
  - intros H. split; [specialize (H 0%nat x eq_refl); by rewrite Z.add_0_r in H|].
    intros i y Hy. specialize (H (S i) y Hy). rewrite <- H. f_equal. lia.
  - intros [Hx Ht] [|i] y Hy; cbn in Hy; [injection Hy as <-; by rewrite Z.add_0_r|].
    rewrite <- (Ht i y Hy). f_equal. lia.
Qed.

Lemma holds_app b p t u : holds b p (t ++ u) ↔ holds b p t ∧ holds b (p + Z.of_nat (length t)) u.
Proof.
  revert p. induction t as [|x t IH]; intros p; cbn [app length].
  - rewrite Z.add_0_r. split; [intros H; split; [by intros i y|done]|by intros [_ H]].
  - rewrite !holds_cons, IH. rewrite Nat2Z.inj_succ. replace (p + 1 + Z.of_nat (length t)) with (p + Z.succ (Z.of_nat (length t))) by lia. tauto.
Qed.

Lemma holds_differs b b' p t lo hi :
  holds b p t → differs_in lo hi b b' → hi ≤ p ∨ p + Z.of_nat (length t) ≤ lo → holds b' p t.
Proof.
  intros H Hd Ho i x Hx. pose proof (lookup_lt_Some _ _ _ Hx). rewrite Hd by lia. by apply H.
Qed.

Lemma holds_line t u : holds (line_buffer (t ++ u)) 0 t.
Proof.
  intros i x Hx. unfold line_buffer. destruct (Z.leb_spec 0 (0 + Z.of_nat i)); [|lia].
  replace (Z.to_nat (0 + Z.of_nat i)) with i by lia. unfold cstr in *.
  rewrite lookup_app_l by (by eapply lookup_lt_Some). by rewrite Hx.
Qed.

Lemma text_at_holds fuel b p t :
  holds b p (t ++ [0]) → Forall (λ x, x ≠ 0) t → (length t ≤ fuel)%nat → text_at fuel b p = t.
Proof.
  revert p fuel. induction t as [|x t IH]; intros p fuel H Hn Hf; cbn [app] in H; apply holds_cons in H as [Hx H].
  - destruct fuel; cbn [text_at]; [done|]. by rewrite Hx.
  - destruct fuel as [|fuel]; cbn in Hf; [lia|]. apply Forall_cons_1 in Hn as [Hnx Hn]. cbn [text_at]. rewrite Hx.
    destruct (Z.eqb_spec x 0); [done|]. by rewrite IH by (done || lia).
Qed.

(** ** Quoted words *)

Definition escape (x : Z) : cstr := if (x =? QUOTE) || (x =? BACKSLASH) then [BACKSLASH; x] else [x].
Definition quote_word (w : cstr) : cstr := QUOTE :: concat (map escape w) ++ [QUOTE].
Definition quote_line (ws : list cstr) : cstr := concat (map (λ w, 32 :: quote_word w) ws).

Lemma quoted_body w fuel p x b :
  holds b p (concat (map escape w) ++ [QUOTE]) → x < p → Forall (λ x, x ≠ 0) w → (length w < fuel)%nat →
  ∃ b' fuel', word_loop fuel QUOTE p x b =
      word_loop fuel' 0 (p + Z.of_nat (length (concat (map escape w))) + 1) (x + Z.of_nat (length w)) b' ∧
    (fuel = fuel' + S (length w))%nat ∧ holds b' x w ∧ differs_in x (x + Z.of_nat (length w)) b b'.
Proof.
  revert fuel p x b. induction w as [|c w IH]; intros fuel p x b H Hx Hn Hf; (destruct fuel as [|fuel]; [lia|]).
  { cbn [map concat app] in H. apply holds_cons in H as [Hp _]. exists b, fuel. cbn [word_loop]. rewrite Hp.
    split; [cbn; f_equal; lia|]. cbn [length]. split; [lia|]. split; [by intros i y Hy|by intros j Hj]. }
  apply Forall_cons_1 in Hn as [Hc Hn]. cbn [map concat] in *. rewrite <- app_assoc in H.
  cbn [length] in Hf.
  assert (∀ p', p < p' → holds b p' (concat (map escape w) ++ [QUOTE]) →
    length (escape c ++ concat (map escape w)) = (Z.to_nat (p' - p) + length (concat (map escape w)))%nat →
    word_loop (S fuel) QUOTE p x b = word_loop fuel QUOTE p' (x + 1) (upd b x c) →
    ∃ b' fuel', word_loop (S fuel) QUOTE p x b =
      word_loop fuel' 0 (p + Z.of_nat (length (escape c ++ concat (map escape w))) + 1) (x + Z.of_nat (length (c :: w))) b' ∧
    (S fuel = fuel' + S (length (c :: w)))%nat ∧ holds b' x (c :: w) ∧ differs_in x (x + Z.of_nat (length (c :: w))) b b') as Hstep.
  { intros p' Hp' Hh Hlen ->.
    destruct (IH fuel p' (x + 1) (upd b x c)) as (b' & fuel' & -> & Hfu & Hb' & Hd); [|lia|done|lia|].
    { eapply holds_differs; [exact Hh|apply differs_in_upd|lia]. }
    exists b', fuel'. cbn [length]. split; [rewrite Hlen; f_equal; lia|]. split; [lia|]. split.
    - apply holds_cons. split; [|done]. rewrite Hd by lia. apply upd_eq.
    - eapply differs_in_trans; [apply differs_in_upd|exact Hd|lia..]. }
  unfold escape in H at 1. destruct (Z.eqb_spec c QUOTE) as [Eq|Eq]; [|destruct (Z.eqb_spec c BACKSLASH) as [Eb|Eb]];
    cbn [orb app] in H; apply holds_cons in H as [Hp H].
  - apply holds_cons in H as [Hp1 H]. apply (Hstep (p + 1 + 1)); [lia|done| |].
    + unfold escape at 1. rewrite Eq. cbn [Z.eqb orb app length]. cbn. lia.
    + cbn [word_loop]. rewrite Hp, Hp1. destruct (Z.eqb_spec c 0); [done|]. cbn. done.
  - apply holds_cons in H as [Hp1 H]. apply (Hstep (p + 1 + 1)); [lia|done| |].
    + unfold escape at 1. rewrite Eb. cbn. lia.
    + cbn [word_loop]. rewrite Hp, Hp1. destruct (Z.eqb_spec c 0); [done|]. cbn. done.
  - apply (Hstep (p + 1)); [lia|done| |].
    + unfold escape at 1. destruct (Z.eqb_spec c QUOTE); [done|]. destruct (Z.eqb_spec c BACKSLASH); [done|].
      rewrite length_app. cbn. lia.
    + cbn [word_loop]. rewrite Hp. destruct (Z.eqb_spec c 0); [done|]. destruct (Z.eqb_spec c QUOTE); [done|].
      destruct (Z.eqb_spec c BACKSLASH); [done|]. done.
Qed.

Lemma word_loop_stop fuel p w b : b p = 0 ∨ b p = 32 → (0 < fuel)%nat → word_loop fuel 0 p w b = Some (0, p, w, b).
Proof.
  intros [H|H] Hf; (destruct fuel as [|fuel]; [lia|]); cbn [word_loop]; rewrite H; [done|].
  unfold break_char. rewrite H. done.
Qed.

Lemma escape_length w : (length w ≤ length (concat (map escape w)))%nat.
Proof.
  induction w as [|x w IH]; cbn; [lia|]. rewrite length_app.
  assert (1 ≤ length (escape x))%nat by (unfold escape; case_match; cbn; lia). lia.
Qed.

(** A quoted word is read back, in front of what follows it. *)
Lemma parse_quoted fuel p b c w after :
  holds b p (quote_word w ++ [after]) → after = 0 ∨ after = 32 → Forall (λ x, x ≠ 0) w →
  (length w + 2 < fuel)%nat → argc c < SHELL_MAX_TOKENS - 1 →
  ∃ b', parse_word fuel p b c = Some (WordNext (p + Z.of_nat (length (quote_word w))) b' (c <| argv := argv c ++ [p] |>)) ∧
    holds b' p (w ++ [0]) ∧ differs_in p (p + Z.of_nat (length (quote_word w))) b b'.
Proof.
  intros H Ha Hn Hf Hc. unfold quote_word in *. cbn [app length] in *. apply holds_cons in H as [Hp H].
  apply holds_app in H as [Hbody Hafter]. rewrite length_app in *. cbn [length] in *.
  apply holds_cons in Hafter as [Hafter _].
  unfold parse_word. rewrite Hp. change ((QUOTE =? LESS) || (QUOTE =? GREATER)) with false. cbv beta iota zeta.
  change (0 =? 0) with true. cbn [negb andb mbind option_bind].
  destruct fuel as [|fuel]; [lia|]. cbn [word_loop]. rewrite Hp.
  change (QUOTE =? 0) with false. change (QUOTE =? QUOTE) with true. cbn [negb orb].
  destruct (quoted_body w fuel (p + 1) p b Hbody ltac:(lia) Hn ltac:(lia)) as (b1 & fuel' & Hq & Hfu & Hb1 & Hd1).
  change (negb (0 =? 0)) with false. cbv iota. rewrite Hq.
  pose proof (escape_length w) as Hle.
  assert (b (p + 1 + Z.of_nat (length (concat (map escape w))) + 1) = after) as Hlast by (rewrite <- Hafter; f_equal; lia).
  rewrite word_loop_stop; [|rewrite Hd1, Hlast by lia; exact Ha|lia].
  cbn [mbind option_bind Z.eqb negb].
  destruct (Z.leb_spec (SHELL_MAX_TOKENS - 1) (argc c)); [lia|].
  replace (p + 1 + Z.of_nat (length (concat (map escape w))) + 1)
    with (p + Z.of_nat (S (length (concat (map escape w)) + 1))) by lia.
  eexists. split; [reflexivity|]. split.
  - apply holds_app. split; [eapply holds_differs; [exact Hb1|apply differs_in_upd|lia]|].
    apply holds_cons. split; [apply upd_eq|by intros i y Hy].
  - eapply differs_in_trans; [exact Hd1|apply differs_in_upd|lia..].
Qed.

Lemma skip_one fuel f b p : (0 < fuel)%nat → f (b p) = false → skip fuel f b p = Some p.
Proof. intros Hf H. destruct fuel; [lia|]. cbn [skip]. by rewrite H. Qed.

Lemma skip_space fuel f b p :
  (1 < fuel)%nat → f (b p) = true → f (b (p + 1)) = false → skip fuel f b p = Some (p + 1).
Proof. intros Hf H1 H2. destruct fuel as [|[|]]; [lia|lia|]. cbn [skip]. by rewrite H1, H2. Qed.

(** The words of a command, the first one without the space in front of it. *)
Definition quoted_from (skipped : bool) (ws : list cstr) : cstr := if skipped then drop 1 (quote_line ws) else quote_line ws.

Lemma texts_at n b ps ws :
  Forall2 (λ q w, holds b q (w ++ [0])) ps ws → Forall (Forall (λ x, x ≠ 0)) ws →
  Forall (λ w, length w ≤ n)%nat ws → map (text_at n b) ps = ws.
Proof.
  induction 1 as [|q w ps ws Hq _ IH]; intros Hn Hl; [done|]. cbn [map].
  apply Forall_cons_1 in Hn as [Hw Hn]. apply Forall_cons_1 in Hl as [Hwl Hl].
  by rewrite (text_at_holds n b q w Hq Hw Hwl), IH.
Qed.

Lemma quote_line_length w ws : w ∈ ws → (length w ≤ length (quote_line ws))%nat.
Proof.
  induction 1 as [w ws|w v ws _ IH]; unfold quote_line in *; cbn [map concat]; rewrite length_app; cbn [length].
  - unfold quote_word. cbn [length]. rewrite length_app. pose proof (escape_length w). lia.
  - lia.
Qed.

Lemma holds_quote b p w t : holds b p (quote_word w ++ t) → b p = QUOTE.
Proof. intros H. by apply holds_cons in H as [? _]. Qed.

Lemma quoted_start skipped w ws fuel p b t :
  holds b p (quoted_from skipped (w :: ws) ++ t) → (1 < fuel)%nat →
  ∃ p1, b p ≠ 0 ∧ skip fuel space b p = Some p1 ∧ p ≤ p1 ∧ holds b p1 (quote_word w ++ quote_line ws ++ t).
Proof.
  unfold quoted_from. assert (quote_line (w :: ws) = 32 :: quote_word w ++ quote_line ws) as -> by done.
  intros H Hf. destruct skipped; cbn [app drop] in H.
  - rewrite drop_0, <- app_assoc in H. exists p. pose proof (holds_quote _ _ _ _ H) as Hq. rewrite Hq.
    split; [done|]. rewrite skip_one; [|lia|by rewrite Hq]. split; [done|]. split; [lia|done].
  - apply holds_cons in H as [Hsp H]. rewrite <- app_assoc in H. exists (p + 1).
    pose proof (holds_quote _ _ _ _ H) as Hq. rewrite Hsp. split; [done|].
    rewrite skip_space; [|lia|by rewrite Hsp|by rewrite Hq]. split; [done|]. split; [lia|done].
Qed.

Lemma command_quoted ws fuel p b c skipped :
  holds b p (quoted_from skipped ws ++ [0]) → Forall (Forall (λ x, x ≠ 0)) ws →
  argc c + Z.of_nat (length ws) ≤ SHELL_MAX_TOKENS - 1 → (length (quote_line ws) + 1 < fuel)%nat →
  ∃ p' b' ps, command_loop fuel p b c = Some (WordNext p' b' (c <| argv := argv c ++ ps |>)) ∧ b' p' = 0 ∧
    Forall2 (λ q w, holds b' q (w ++ [0])) ps ws ∧ (∀ j, j < p → b' j = b j).
Proof.
  revert fuel p b c skipped. induction ws as [|w ws IH]; intros fuel p b c skipped H Hn Hc Hf;
    (destruct fuel as [|fuel]; [lia|]); cbn [command_loop].
  { assert (b p = 0) as Hz. { destruct skipped; cbn in H; apply holds_cons in H as [? _]; done. }
    rewrite Hz. exists p, b, []. split; [by destruct c; cbn; rewrite app_nil_r|]. split; [done|]. split; [constructor|done]. }
  apply Forall_cons_1 in Hn as [Hw Hn]. cbn [length] in Hc.
  assert (length (quote_line (w :: ws)) = length w + 3 + length (quote_line ws) +
    (length (concat (map escape w)) - length w) ∧ length w ≤ length (concat (map escape w)))%nat as [Hlen Hle].
  { assert (quote_line (w :: ws) = 32 :: quote_word w ++ quote_line ws) as -> by done. unfold quote_word. cbn.
    rewrite !length_app. cbn. rewrite ?length_app. cbn. pose proof (escape_length w). lia. }
  destruct (quoted_start skipped w ws (S fuel) p b [0] H ltac:(lia)) as (p1 & Hz & -> & Hp1 & H1).
  destruct (Z.eqb_spec (b p) 0); [done|]. cbn [mbind option_bind].
  rewrite (holds_quote _ _ _ _ H1). cbn [Z.eqb QUOTE SEMI AMP BAR andb].
  change (QUOTE =? 0) with false. change (QUOTE =? SEMI) with false. change (QUOTE =? AMP) with false.
  change (QUOTE =? BAR) with false. cbn [andb].
  assert (∃ after rest, (after = 0 ∨ after = 32) ∧ quote_line ws ++ [0] = after :: rest) as (after & rest & Hafter & Hr).
  { destruct ws as [|w' ws']; cbn; [exists 0, []; split; [by left|done]|]. eexists 32, _. split; [by right|done]. }
  assert (holds b p1 (quote_word w ++ [after])) as Hword.
  { rewrite Hr in H1. apply holds_app in H1 as [Ha Hb]. apply holds_app. split; [done|].
    apply holds_cons in Hb as [? _]. apply holds_cons. split; [done|by intros i y]. }
  destruct (parse_quoted (S fuel) p1 b c w after Hword Hafter Hw) as (b2 & -> & Hw2 & Hd2); [lia|lia|].
  cbn [mbind option_bind].
  set (p2 := p1 + Z.of_nat (length (quote_word w))) in *.
  assert (holds b2 p2 (quoted_from false ws ++ [0])) as H2.
  { apply holds_app in H1 as [_ H1]. eapply holds_differs; [exact H1|exact Hd2|]. left. done. }
  destruct (IH fuel p2 b2 (c <| argv := argv c ++ [p1] |>) false H2 Hn) as (p' & b' & ps & -> & Hp' & Hps & Hb').
  { unfold argc in *. cbn. rewrite length_app. cbn. lia. }
  { lia. }
  exists p', b', (p1 :: ps). split; [cbn; by rewrite <- app_assoc|]. split; [done|]. split.
  - constructor; [|done]. intros i x Hx. pose proof (lookup_lt_Some _ _ _ Hx) as Hl. rewrite length_app in Hl. cbn in Hl.
    rewrite Hb'; [by apply Hw2|]. subst p2. unfold quote_word. cbn. rewrite length_app. cbn. lia.
  - intros j Hj. rewrite Hb' by (subst p2; lia). apply Hd2. lia.
Qed.

Lemma parse_quote_line ws max n :
  ws ≠ [] → Z.of_nat (length ws) ≤ SHELL_MAX_TOKENS - 1 → Forall (Forall (λ x, x ≠ 0)) ws → 1 ≤ max →
  Forall (λ w, length w ≤ n)%nat ws →
  let line := quote_line ws in
  ∃ b' c, shell_parse_line (S (S (length line))) (line_buffer line) max = Some (1, b', [c]) ∧
    map (text_at n b') (argv c) = ws ∧
    next c = SHELL_OP_END ∧ redirect_in c = None ∧ redirect_out c = None.
Proof.
  intros Hne Hlen Hn Hmax Hws line. destruct ws as [|w ws]; [done|].
  assert (holds (line_buffer line) 0 (quoted_from false (w :: ws) ++ [0])) as H.
  { apply holds_app. split.
    - pose proof (holds_line line []) as Hl. by rewrite app_nil_r in Hl.
    - intros [|i] x Hx; cbn in Hx; [|done]. injection Hx as <-. unfold line_buffer. case_match; [|done].
      change (quoted_from false (w :: ws)) with line.
      assert (line !! Z.to_nat (0 + Z.of_nat (length line) + Z.of_nat 0) = None) as -> by (apply lookup_ge_None_2; lia).
      done. }
  assert (1 < S (S (length line)))%nat as Hf by lia.
  unfold shell_parse_line. cbn [line_loop]. set (fuel := S (length line)) in *.
  set (b := line_buffer line) in *.
  assert (line = 32 :: quote_word w ++ quote_line ws) as Hline by done.
  unfold quoted_from in H. change (quote_line (w :: ws)) with (32 :: quote_word w ++ quote_line ws) in H.
  cbn [app] in H. apply holds_cons in H as [Hsp H]. rewrite Hsp. change (32 =? 0) with false. cbv iota.
  rewrite <- app_assoc in H. pose proof (holds_quote _ _ _ _ H) as Hq.
  rewrite skip_space; [|lia|by rewrite Hsp|by rewrite Hq]. cbn [mbind option_bind]. rewrite Hq.
  change (QUOTE =? 0) with false. cbn [length]. destruct (Z.leb_spec max (Z.of_nat 0)); [lia|].
  destruct (command_quoted (w :: ws) (S fuel) (0 + 1) b no_command true) as (p' & b' & ps & -> & Hp' & Hps & _).
  { unfold quoted_from. change (quote_line (w :: ws)) with (32 :: quote_word w ++ quote_line ws). cbn [drop].
    rewrite drop_0, <- app_assoc. exact H. }
  { exact Hn. }
  { exact Hlen. }
  { change (length line + 1 < S fuel)%nat. subst fuel. lia. }
  cbn [mbind option_bind app argv no_command set_field].
  assert (length ps = length (w :: ws)) as Hl by (by eapply Forall2_length).
  destruct ps as [|q ps]; [done|]. cbn [argc].
  destruct (Z.eqb_spec (argc (no_command <| argv := q :: ps |>)) 0) as [E|_]; [unfold argc in E; cbn in E; lia|]. cbn [andb].
  subst fuel. cbn [line_loop]. rewrite Hp'. cbn [Z.eqb].
  eexists b', _. split; [reflexivity|]. split; [|done]. cbn [argv set_field].
  by apply texts_at.
Qed.

(** C32: Quoting and parsing: for any words of at most 31, made of any characters but
    the terminator, the line of the quoted words is parsed as one command whose
    arguments are exactly the words, empty ones included. *)
Theorem shell_quote_parse_roundtrip ws max :
  ws ≠ [] → Z.of_nat (length ws) ≤ SHELL_MAX_TOKENS - 1 → Forall (Forall (λ x, x ≠ 0)) ws → 1 ≤ max →
  let line := quote_line ws in
  ∃ b' c, shell_parse_line (S (S (length line))) (line_buffer line) max = Some (1, b', [c]) ∧
    map (text_at (length line) b') (argv c) = ws ∧
    next c = SHELL_OP_END ∧ redirect_in c = None ∧ redirect_out c = None.
Proof.
  intros Hne Hlen Hn Hmax line. apply parse_quote_line; [done..|].
  apply Forall_forall. intros w Hw. by apply quote_line_length.
Qed.

(** ** Unquoted words *)

(** Characters without a meaning to the parser. *)
Definition simple (x : Z) : Prop :=
  x ∉ [0; 32; 9; SEMI; BAR; AMP; QUOTE; DQUOTE; BACKSLASH; LESS; GREATER].
#[export] Instance simple_dec x : Decision (simple x) := ltac:(unfold simple; apply _).

Lemma word_simple w fuel p b :
  holds b p w → Forall simple w → (length w < fuel)%nat →
  break_char b (p + Z.of_nat (length w)) = true →
  ∃ b', word_loop fuel 0 p p b = Some (0, p + Z.of_nat (length w), p + Z.of_nat (length w), b') ∧ ∀ j, b' j = b j.
Proof.
  revert fuel p b. induction w as [|x w IH]; intros fuel p b H Hs Hf Hbr; (destruct fuel as [|fuel]; [cbn in Hf; lia|]).
  { cbn [length] in *. rewrite Z.add_0_r in *. exists b. split; [|done]. cbn [word_loop]. change (0 =? 0) with true. cbn [negb].
    rewrite Hbr. unfold break_char, space in Hbr.
    destruct (Z.eqb_spec (b p) 0) as [E|_]; [by rewrite E in Hbr|].
    destruct (Z.eqb_spec (b p) QUOTE) as [E|_]; [by rewrite E in Hbr|].
    destruct (Z.eqb_spec (b p) DQUOTE) as [E|_]; [by rewrite E in Hbr|].
    destruct (Z.eqb_spec (b p) BACKSLASH) as [E|_]; [by rewrite E in Hbr|]. done. }
  apply holds_cons in H as [Hx H]. apply Forall_cons_1 in Hs as [Hsx Hs]. cbn [length] in *.
  rewrite Nat2Z.inj_succ in *. replace (p + Z.succ (Z.of_nat (length w))) with (p + 1 + Z.of_nat (length w)) in * by lia.
  unfold simple in Hsx. rewrite !not_elem_of_cons in Hsx. destruct Hsx as (N0 & N1 & N2 & N3 & N4 & N5 & N6 & N7 & N8 & _).
  cbn [word_loop]. change (0 =? 0) with true. cbn [negb]. unfold break_char at 1, space. rewrite Hx.
  rewrite !(proj2 (Z.eqb_neq x _)) by done. cbn [orb andb].
  assert (∀ j, upd b p x j = b j) as Hsame.
  { intros j. destruct (decide (j = p)) as [->|]; [by rewrite upd_eq|by apply upd_ne]. }
  destruct (IH fuel (p + 1) (upd b p x)) as (b' & -> & Hb'); [|done|lia| |].
  - intros i y Hy. rewrite Hsame. by apply H.
  - unfold break_char in *. by rewrite !Hsame.
  - exists b'. split; [done|]. intros j. by rewrite Hb', Hsame.
Qed.

(** What follows the first word of a line without quotes is lost: for a line that
    starts with a word of characters without a special meaning and goes on with a
    space, a tab, a semicolon, a bar or [&&], whatever comes after it, the parser
    reports one command of that word alone.  The terminator it stores behind the
    word overwrites the separator before it has been read. *)
Theorem shell_arguments_lost w d rest max :
  w ≠ [] → Forall simple w → (d ∈ [32; 9; SEMI; BAR] ∨ (d = AMP ∧ head rest = Some AMP)) → 1 ≤ max →
  let line := w ++ d :: rest in
  ∃ b', shell_parse_line (S (length line)) (line_buffer line) max =
      Some (1, b', [mkCommand [0] SHELL_OP_END None None false]) ∧
    text_at (length line) b' 0 = w.
Proof.
  intros Hne Hs Hd Hmax line. set (b := line_buffer line).
  assert (holds b 0 line) as Hl by (pose proof (holds_line line []) as H; by rewrite app_nil_r in H).
  apply holds_app in Hl as [Hw Htail]. rewrite Z.add_0_l in Htail. apply holds_cons in Htail as [Hdv Hrest].
  assert (break_char b (Z.of_nat (length w)) = true) as Hbr.
  { unfold break_char, space. rewrite Hdv. destruct Hd as [Hd|[-> Hh]].
    - repeat (apply elem_of_cons in Hd as [->|Hd]; [done|]). by apply not_elem_of_nil in Hd.
    - destruct rest as [|r rest]; [done|]. injection Hh as ->. apply holds_cons in Hrest as [-> _]. done. }
  assert (length line = length w + S (length rest))%nat as Hlen by (unfold line; by rewrite length_app).
  destruct w as [|x w]; [done|]. apply holds_cons in Hw as Hw0. destruct Hw0 as [Hx _].
  apply Forall_cons_1 in Hs as Hs0. destruct Hs0 as [Hsx _].
  unfold simple in Hsx. rewrite !not_elem_of_cons in Hsx.
  destruct Hsx as (N0 & N1 & N2 & N3 & N4 & N5 & N6 & N7 & N8 & N9 & N10 & _).
  destruct (word_simple (x :: w) (S (length line)) 0 b Hw Hs ltac:(lia) Hbr) as (b1 & Hloop & Hb1).
  assert (space x = false) as Hsp by (unfold space; by rewrite !(proj2 (Z.eqb_neq _ _)) by done).
  unfold shell_parse_line. cbn [line_loop]. rewrite Hx. rewrite (proj2 (Z.eqb_neq x 0)) by done.
  rewrite skip_one; [|lia|rewrite Hx, Hsp; by apply Z.eqb_neq]. cbn [mbind option_bind length].
  rewrite Hx, (proj2 (Z.eqb_neq x 0)) by done. destruct (Z.leb_spec max (Z.of_nat 0)); [lia|].
  assert (∃ f, S (length line) = S (S f)) as [f Hf] by (exists (length line - 1)%nat; lia).
  cbn [command_loop]. rewrite Hx, (proj2 (Z.eqb_neq x 0)) by done.
  rewrite skip_one; [|lia|by rewrite Hx]. cbn [mbind option_bind].
  rewrite Hx, !(proj2 (Z.eqb_neq x _)) by done. cbn [andb].
  unfold parse_word. rewrite Hx, !(proj2 (Z.eqb_neq x _)) by done. cbn [orb].
  change (0 =? 0) with true. cbv iota zeta. cbn [mbind option_bind]. rewrite Hloop. cbn [mbind option_bind].
  change (0 =? 0) with true. cbn [negb].
  change (SHELL_MAX_TOKENS - 1 <=? argc no_command) with false. cbv iota. cbn [mbind option_bind].
  set (e := 0 + Z.of_nat (length (x :: w))) in *. set (b2 := upd b1 e 0).
  assert (b2 e = 0) as He by apply upd_eq.
  assert (length line = S (pred (length line))) as -> by lia. cbn [command_loop]. rewrite He. change (0 =? 0) with true. cbv iota.
  cbn [mbind option_bind]. change (argc _ =? 0) with false. cbn [andb].
  cbn [line_loop]. rewrite He. change (0 =? 0) with true. cbv iota.
  exists b2. split; [reflexivity|]. apply text_at_holds; [|eapply Forall_impl; [exact Hs|]|lia].
  - apply holds_app. split; [|apply holds_cons; split; [exact He|by intros i y]].
    intros i y Hy. pose proof (lookup_lt_Some _ _ _ Hy). subst b2 e. rewrite upd_ne by lia. rewrite Hb1. by apply Hw.
  - intros y Hy E. apply Hy. rewrite E. by left.
Qed.

(** ** Examples *)

Lemma shell_parse_line_safe_witness :
  ∃ code b' out, shell_parse_line 14 (line_buffer (lit "a 'b' | c > d")) 8 = Some (code, b', out) ∧
    Z.of_nat (length out) ≤ 8.
Proof.
  destruct (shell_parse_line_safe (line_buffer (lit "a 'b' | c > d")) 13 8 eq_refl ltac:(lia) ltac:(lia))
    as (code & b' & out & H & _ & _ & Hl & _).
  exists code, b', out. split; [exact H|exact Hl].
Defined.

Lemma shell_quote_parse_roundtrip_witness :
  let line := quote_line [lit "echo"; lit "it's"; []; lit "a;b"] in
  ∃ b' c, shell_parse_line (S (S (length line))) (line_buffer line) 8 = Some (1, b', [c]) ∧
    map (text_at (length line) b') (argv c) = [lit "echo"; lit "it's"; []; lit "a;b"].
Proof.
  destruct (shell_quote_parse_roundtrip [lit "echo"; lit "it's"; []; lit "a;b"] 8) as (b' & c & H1 & H2 & _).
  - discriminate.
  - cbn. unfold SHELL_MAX_TOKENS. lia.
  - apply (bool_decide_unpack _). vm_compute. exact I.
  - lia.
  - exists b', c. split; [exact H1|exact H2].
Defined.

Lemma shell_arguments_lost_witness :
  ∃ b', shell_parse_line 10 (line_buffer (lit "cat a.txt")) 8 =
      Some (1, b', [mkCommand [0] SHELL_OP_END None None false]) ∧ text_at 9 b' 0 = lit "cat".
Proof.
  apply (shell_arguments_lost (lit "cat") 32 (lit "a.txt") 8).
  - discriminate.
  - apply (bool_decide_unpack _). vm_compute. exact I.
  - left. by left.
  - lia.
Defined.

End ParserSpec.
