(* ===== verification/Commands.v ===== *)
(** * The commands of the shell

    [src/shell/commands/utilities/] (text and arithmetic) and
    [src/shell/commands/filesystem/] (files).  A command prints through the
    class [Output], whose instances are the console, the file system with the
    console in its environment, and plain text.  A result [None] stands for a
    loop that has not ended within its fuel, for a store outside a buffer, or for
    the trap of a division.  Overflow of the signed type [long] is taken as
    two's complement. *)

From Stdlib Require Import Lia ZArith Bool.
From stdpp Require Import base list numbers strings.
From S2P Require Import Prelude Mount Vfs Console.

Local Open Scope Z_scope.

(** ** Output *)

(** [console_print], and [console_putchar] as a text of one character. *)
Class Output (W : Type) := out : cstr → W → W.

Class OutputLaws (W : Type) `{Output W} := {
  out_nil (s : W) : out [] s = s;
  out_app (t u : cstr) (s : W) : out u (out t s) = out (t ++ u) s;
}.

#[export] Instance text_output : Output cstr := λ t s, s ++ t.
#[export] Instance console_output : Output Console.console := Console.console_print.
#[export] Instance vfs_output {F} `{Vfs.VfsEnv F} : Output (Vfs.vfs F) := Vfs.print.

Module Commands.
Import Mount Vfs.

Definition putc {W} `{Output W} (c : Z) (s : W) : W := out [c] s.
Definition line (t : string) : cstr := lit t ++ [10].

(** The loop that prints character by character. *)
Definition putcs {W} `{Output W} (t : cstr) (s : W) : W := foldl (λ s c, putc c s) s t.
Definition outs {W} `{Output W} (l : list cstr) (s : W) : W := foldl (λ s t, out t s) s l.

Definition char_in (lo hi c : Z) : bool := (lo <=? c) && (c <=? hi).
Definition digit (c : Z) : bool := char_in 48 57 c.

(** ** Numbers *)

(** The digits as they are stored, the last one first; [cap] is the size of the
    array. *)
Fixpoint digits_loop (cap : nat) (n : Z) : cstr :=
  match cap with
  | O => []
  | S cap => if 0 <? n then (48 + n mod 10) :: digits_loop cap (n / 10) else []
  end.

Definition print_uint {W} `{Output W} (cap : nat) (n : Z) (s : W) : W :=
  if n =? 0 then putc 48 s else putcs (rev (digits_loop cap n)) s.

Definition print_int {W} `{Output W} (n : Z) (s : W) : W :=
  let '(n, s) := if n <? 0 then (i64 (- n), putc 45 s) else (n, s) in
  print_uint 20 n s.

(** The value of the leading digits, the number of them and what follows; [wrap]
    is the reduction of the C type. *)
Fixpoint parse_digits (wrap : Z → Z) (v : Z) (t : cstr) : Z * cstr :=
  match t with
  | c :: t' => if digit c then parse_digits wrap (wrap (v * 10 + (c - 48))) t' else (v, t)
  | [] => (v, [])
  end.

Definition starts_digit (t : cstr) : bool := match t with c :: _ => digit c | [] => false end.

(** [parse_uint]: the value stored and the result. *)
Definition parse_uint (w : Z) (t : cstr) : Z * bool :=
  ((parse_digits (λ x, x mod 2 ^ w) 0 t).1, starts_digit t).

Definition parse_int (t : cstr) : option (Z * cstr) :=
  let '(negative, t) := if bool_decide (head t = Some 45) then (true, tail t) else (false, t) in
  if negb (starts_digit t) then None else
  let '(v, t) := parse_digits i64 0 t in
  Some (if negative then i64 (- v) else v, t).

(** ** Text *)

Section text.
Context {W : Type} `{Output W}.
Implicit Types (s : W) (args : cstr).

Definition echo_run args s : W := putc 10 (out args s).

Definition upper_char (c : Z) : Z := if char_in 97 122 c then c - 97 + 65 else c.
Definition lower_char (c : Z) : Z := if char_in 65 90 c then c - 65 + 97 else c.

Definition upper_run args s : W := putc 10 (foldl (λ s c, putc (upper_char c) s) s args).
Definition lower_run args s : W := putc 10 (foldl (λ s c, putc (lower_char c) s) s args).

Fixpoint title_loop (start_of_word : bool) args s : W :=
  match args with
  | [] => s
  | c :: args =>
    if c =? 32 then title_loop true args (putc c s) else
    let c := if start_of_word && char_in 97 122 c then c - 97 + 65
             else if negb start_of_word && char_in 65 90 c then c - 65 + 97 else c in
    title_loop false args (putc c s)
  end.

Definition title_run args s : W := putc 10 (title_loop true args s).

(** [while (args[len] != '\0' && len < max) len++]. *)
Fixpoint bounded_len (max : nat) args : Z :=
  match max, args with
  | S max, _ :: args => 1 + bounded_len max args
  | _, _ => 0
  end.

Definition REVERSE_MAX_LEN : nat := 255.
Definition LEN_MAX : nat := 255.

Definition reverse_run args s : W :=
  let len := bounded_len REVERSE_MAX_LEN args in
  putc 10 (foldl (λ s i, putc (default 0 (args !! Z.to_nat i)) s) s (rev (seqZ 0 len))).

Definition len_run args s : W := putc 10 (print_uint 10 (bounded_len LEN_MAX args) s).

(** ** Arithmetic *)

Definition calc_run args s : option W :=
  let p := skip 32 args in
  match parse_int p with
  | None => Some (outs [line "calc: expected a number"; line "usage: calc <a> <op> <b>, op is one of + - * /"] s)
  | Some (a, p) =>
    match skip 32 p with
    | [] => Some (out (line "calc: expected operator (+ - * /)") s)
    | op :: p =>
      if negb ((op =? 43) || (op =? 45) || (op =? 42) || (op =? 47))
      then Some (out (line "calc: expected operator (+ - * /)") s) else
      match parse_int (skip 32 p) with
      | None => Some (out (line "calc: expected a second number") s)
      | Some (b, _) =>
        let finish result := Some (putc 10 (print_int result s)) in
        if op =? 43 then finish (i64 (a + b)) else
        if op =? 45 then finish (i64 (a - b)) else
        if op =? 42 then finish (i64 (a * b)) else
        if b =? 0 then Some (out (line "calc: division by zero") s) else
        if (a =? - 2 ^ 63) && (b =? -1) then None else finish (Z.quot a b)
      end
    end
  end.

Fixpoint sum_loop (fuel : nat) (rest : cstr) (total : Z) : option Z :=
  match rest, fuel with
  | [], _ => Some total
  | _, O => None
  | _, S fuel =>
    let '(word, next) := vfs_split_word rest in
    sum_loop fuel next (match parse_int word with Some (v, _) => i64 (total + v) | None => total end)
  end.

Definition sum_run args s : option W :=
  if bool_decide (args = []) then Some (out (line "usage: sum <n1> <n2> ...") s) else
  total ← sum_loop (length args) args 0;
  let '(total, s) := if total <? 0 then (i64 (- total), out [45] s) else (total, s) in
  let uv := u64 total in
  if uv =? 0 then Some (out (line "0") s) else
  Some (out [10] (putcs (rev (digits_loop 24 uv)) s)).

(** [buf] from index [i] on, after the rounds down to [i]. *)
Fixpoint hex_loop (i : nat) (uv : Z) (buf : cstr) : cstr :=
  match i with
  | O => buf
  | S i =>
    if 0 <? uv then hex_loop i (Z.shiftr uv 4) (default 0 (Console.hex_digits !! Z.to_nat (Z.land uv 15)) :: buf)
    else buf
  end.

Definition hex_run args s : W :=
  match parse_int args with
  | None => out (line "usage: hex <decimal number>") s
  | Some (v, _) =>
    let '(uv, s) := if v <? 0 then (u64 (i64 (- v)), out [45] s) else (u64 v, s) in
    let s := out (lit "0x") s in
    if uv =? 0 then out (line "0") s else out [10] (out (hex_loop 16 uv []) s)
  end.

Definition hex_digit (c : Z) : Z :=
  if char_in 48 57 c then c - 48 else if char_in 97 102 c then c - 97 + 10 else
  if char_in 65 70 c then c - 65 + 10 else -1.

Fixpoint hex_value (t : cstr) (v : Z) : option Z :=
  match t with
  | [] => Some v
  | c :: t => let d := hex_digit c in if d <? 0 then None else hex_value t (u64 (v * 16 + d))
  end.

Definition dec_run args s : W :=
  let t := match args with
           | z :: x :: t => if (z =? 48) && ((x =? 120) || (x =? 88)) then t else args
           | _ => args
           end in
  if bool_decide (t = []) then out (line "usage: dec <hex number>") s else
  match hex_value t 0 with
  | None => out (line "dec: invalid hex digit") s
  | Some v => out [10] (print_uint 20 v s)
  end.

(** The loop over the divisors, from [i] on. *)
Fixpoint isprime_loop (fuel : nat) (i n : Z) : option bool :=
  if u64 (i * i) <=? n then
    match fuel with
    | O => None
    | S fuel => if n mod i =? 0 then Some false else isprime_loop fuel (u64 (i + 1)) n
    end
  else Some true.

Definition isprime_run (fuel : nat) args s : option W :=
  let '(n, ok) := parse_uint 64 args in
  if negb ok then Some (out (line "usage: isprime <n>") s) else
  if n <? 2 then Some (out (line "not prime") s) else
  prime ← isprime_loop fuel 2 n;
  Some (out (line (if prime : bool then "prime" else "not prime")) s).

Fixpoint fib_loop (n : nat) (a b : Z) : Z :=
  match n with O => a | S n => fib_loop n b (u64 (a + b)) end.

Definition fib_run args s : W :=
  let '(n, ok) := parse_uint 64 args in
  if negb ok then out (line "usage: fib <n>") s else
  if 90 <? n then out (line "fib: n too large (max 90, would overflow 64 bit)") s else
  out [10] (print_uint 24 (fib_loop (Z.to_nat n) 0 1) s).

End text.

(** ** Files *)

(** [needle] is a prefix of the text. *)
Fixpoint prefix_at (needle hay : cstr) : bool :=
  match needle, hay with
  | [], _ => true
  | d :: needle, c :: hay => (c =? d) && prefix_at needle hay
  | _ :: _, [] => false
  end.

Fixpoint contains_loop (hay needle : cstr) : bool :=
  match hay with
  | [] => false
  | _ :: hay' => prefix_at needle hay || contains_loop hay' needle
  end.

Definition contains (hay needle : cstr) : bool :=
  if bool_decide (needle = []) then true else contains_loop hay needle.

(** The length of the common prefix. *)
Fixpoint diff_loop (c1 c2 : cstr) (i : Z) : Z :=
  match c1, c2 with
  | c :: c1, d :: c2 => if c =? d then diff_loop c1 c2 (u32 (i + 1)) else i
  | _, _ => i
  end.

(** Characters and words. *)
Fixpoint wc_loop (content : cstr) (in_word : bool) (chars words : Z) : Z * Z :=
  match content with
  | [] => (chars, words)
  | c :: content =>
    let chars := u32 (chars + 1) in
    if c =? 32 then wc_loop content false chars words else
    if in_word then wc_loop content true chars words else wc_loop content true chars (u32 (words + 1))
  end.

Section files.
Context {F : Type} `{VfsEnv F}.
Context (uninit : cstr).
Implicit Types (s : vfs F) (args : cstr).

(** A call that fails prints its message. *)
Definition report (r : option (Z * vfs F)) (msg : list cstr) : option (vfs F) :=
  '(rc, s) ← r; Some (if rc =? 0 then s else outs msg s).

Definition ls_run s : vfs F := vfs_ls uninit s.
Definition pwd_run s : vfs F := vfs_pwd s.

Definition cd_run args s : option (vfs F) :=
  let '(args, _) := vfs_split_word args in
  if bool_decide (args = []) then Some (out (line "usage: cd <dir>") s) else
  report (vfs_cd uninit args s) [lit "cd: no such directory: "; args; [10]].

Definition mkdir_run args s : option (vfs F) :=
  let '(args, _) := vfs_split_word args in
  if bool_decide (args = []) then Some (out (line "usage: mkdir <name>") s) else
  report (vfs_mkdir uninit args s) [lit "mkdir: cannot create '"; args; line "' (already exists or out of space)"].

Definition rmdir_run args s : option (vfs F) :=
  let '(args, _) := vfs_split_word args in
  if bool_decide (args = []) then Some (out (line "usage: rmdir <dir>") s) else
  report (Some (vfs_rmdir args s)) [lit "rmdir: cannot remove '"; args; line "' (not a directory, not found, or not empty)"].

Definition touch_run args s : option (vfs F) :=
  let '(args, _) := vfs_split_word args in
  if bool_decide (args = []) then Some (out (line "usage: touch <name>") s) else
  report (vfs_touch uninit args s) [lit "touch: cannot create '"; args; line "' (already exists or out of space)"].

Definition rm_run args s : option (vfs F) :=
  let '(args, _) := vfs_split_word args in
  if bool_decide (args = []) then Some (out (line "usage: rm <name>") s) else
  report (Some (vfs_rm args s)) [lit "rm: cannot remove '"; args; line "' (not found or directory not empty)"].

Definition cp_run args s : option (vfs F) :=
  let '(args, dst) := vfs_split_word args in
  if bool_decide (args = []) || bool_decide (dst = []) then Some (out (line "usage: cp <src> <dst>") s) else
  report (Some (vfs_cp args dst s))
    [lit "cp: cannot copy '"; args; lit "' to '"; dst; line "' (src is not a file, dst exists, or out of space)"].

Definition mv_run args s : option (vfs F) :=
  let '(args, dst) := vfs_split_word args in
  if bool_decide (args = []) || bool_decide (dst = []) then Some (out (line "usage: mv <src> <dst>") s) else
  report (Some (vfs_mv args dst s))
    [lit "mv: cannot rename '"; args; lit "' to '"; dst; line "' (not found or dst already exists)"].

Definition cat_run args s : option (vfs F) :=
  let '(args, _) := vfs_split_word args in
  if bool_decide (args = []) then Some (out (line "usage: cat <file>") s) else vfs_cat uninit args s.

Definition less_run args s : option (vfs F) :=
  let '(args, _) := vfs_split_word args in
  if bool_decide (args = []) then Some (out (line "usage: less <file>") s) else vfs_cat uninit args s.

Definition find_run args s : vfs F :=
  let '(args, _) := vfs_split_word args in
  if bool_decide (args = []) then out (line "usage: find <name>") s else vfs_find args s.

Definition write_run args s : option (vfs F) :=
  let '(args, content) := vfs_split_word args in
  if bool_decide (args = []) then Some (out (line "usage: write <file> <text>") s) else
  report (vfs_write uninit args (Some content) s)
    [lit "write: cannot write '"; args; line "' (out of space or is a directory)"].

Definition append_run args s : option (vfs F) :=
  let '(args, content) := vfs_split_word args in
  if bool_decide (args = []) then Some (out (line "usage: append <file> <text>") s) else
  report (Some (vfs_append args content s))
    [lit "append: cannot append to '"; args; line "' (is a directory or out of space)"].

(** [n] of [head] and [tail]. *)
Definition count_arg (n_str : cstr) : Z := if bool_decide (n_str = []) then 20 else (parse_uint 32 n_str).1.

Definition head_run args s : vfs F :=
  let '(args, n_str) := vfs_split_word args in
  if bool_decide (args = []) then out (line "usage: head <file> [n]") s else
  match vfs_get_content args s with
  | None => outs [lit "head: no such file: "; args; [10]] s
  | Some content => putc 10 (putcs (take (Z.to_nat (count_arg n_str)) content) s)
  end.

Definition tail_run args s : vfs F :=
  let '(args, n_str) := vfs_split_word args in
  if bool_decide (args = []) then out (line "usage: tail <file> [n]") s else
  match vfs_get_content args s with
  | None => outs [lit "tail: no such file: "; args; [10]] s
  | Some content =>
    let len := Z.of_nat (length content) in
    let n := count_arg n_str in
    let start := if n <? len then len - n else 0 in
    putc 10 (foldl (λ s i, putc (default 0 (content !! Z.to_nat i)) s) s (seqZ start (len - start)))
  end.

Definition grep_run args s : vfs F :=
  let '(args, file) := vfs_split_word args in
  if bool_decide (args = []) || bool_decide (file = []) then out (line "usage: grep <word> <file>") s else
  match vfs_get_content file s with
  | None => outs [lit "grep: no such file: "; file; [10]] s
  | Some content => if contains content args then outs [content; [10]] s else out (line "grep: no match") s
  end.

Definition diff_run args s : vfs F :=
  let '(args, file2) := vfs_split_word args in
  if bool_decide (args = []) || bool_decide (file2 = []) then out (line "usage: diff <file1> <file2>") s else
  match vfs_get_content args s, vfs_get_content file2 s with
  | Some c1, Some c2 =>
    let i := diff_loop c1 c2 0 in
    if (i =? Z.of_nat (length c1)) && (i =? Z.of_nat (length c2)) then out (line "files are identical") s else
    out [10] (print_uint 10 i (out (lit "files differ at position ") s))
  | _, _ => out (line "diff: file not found") s
  end.

Definition wc_run args s : vfs F :=
  let '(args, _) := vfs_split_word args in
  if bool_decide (args = []) then out (line "usage: wc <file>") s else
  match vfs_get_content args s with
  | None => outs [lit "wc: no such file: "; args; [10]] s
  | Some content =>
    let '(chars, words) := wc_loop content false 0 0 in
    out (line " words") (print_uint 10 words (out (lit " chars, ") (print_uint 10 chars s)))
  end.

Definition df_run s : vfs F :=
  let '(used, total) := vfs_df s in
  out (line " nodes used") (print_uint 10 total (out (lit " / ") (print_uint 10 used (out (lit "ramfs: ") s)))).

Definition du_run (fuel : nat) s : option (vfs F) :=
  '(bytes, files) ← vfs_du fuel s;
  Some (out (line " file(s)") (print_uint 10 files (out (lit " bytes in ") (print_uint 10 bytes s)))).

(** ** Mounts *)

Definition command_mounts s : vfs F := outs (vfs_mount_list (v_mounts s)) s.

Definition command_mount args s : vfs F :=
  if bool_decide (args = []) then command_mounts s else
  let '(source, rest) := vfs_split_word args in
  let '(target, fstype) := vfs_split_word rest in
  if bool_decide (target = []) || bool_decide (fstype = [])
  then outs [line "mount: missing arguments"; line "usage: mount <source> <target> <fstype>"] s else
  let '(rc, m) := vfs_mount (Some source) (Some target) (Some fstype) 0 (v_mounts s) in
  let s := s <| v_mounts := m |> in
  if rc <? 0 then out (line "mount: failed to create mount point") s else
  outs [lit "mounted "; source; lit " on "; target; lit " ["; fstype; line "]"] s.

Definition command_umount args s : vfs F :=
  if bool_decide (args = []) then out (line "umount: missing target" ++ line "usage: umount <target>") s else
  let '(rc, m) := vfs_umount (Some args) (v_mounts s) in
  let s := s <| v_mounts := m |> in
  if rc <? 0 then out (line "umount: mount point not found or busy") s else
  outs [lit "unmounted "; args; [10]] s.

End files.
End Commands.
