(* ===== verification/CommandSpec.v ===== *)
(** * The commands of the shell: what they print

    Numbers are printed and read back, arithmetic is exact up to the width of the
    type, the text commands act character by character, the searches find what is
    there, and what a file command writes another one prints. *)

From Stdlib Require Import Lia ZArith Bool Znumtheory.
From stdpp Require Import base list numbers strings.
From S2P Require Import Prelude Mount Vfs VfsPath VfsSpec Console ConsoleSpec Commands.

Local Open Scope Z_scope.

(** ** The laws of output *)

#[export] Instance text_laws : OutputLaws cstr.
Proof. split; [intros s; apply app_nil_r|intros t u s; unfold out, text_output; by rewrite app_assoc]. Qed.

#[export] Instance console_laws : OutputLaws Console.console.
Proof. split; [done|]. intros t u s. unfold out, console_output, Console.console_print. by rewrite foldl_app. Qed.

Module CommandSpec.
Import Commands.
Import ConsoleSpec(dec_value, is_digit).
Import Console(dec_text, dec_loop).

Section laws.
Context {W : Type} `{OutputLaws W}.
Implicit Types (s : W) (t : cstr).

Lemma putcs_out t s : putcs t s = out t s.
Proof.
  revert s. induction t as [|c t IH]; intros s; [symmetry; apply out_nil|].
  unfold putcs in *. cbn [foldl]. rewrite IH. unfold putc. by rewrite out_app.
Qed.

Lemma outs_concat l s : outs l s = out (concat l) s.
Proof.
  revert s. induction l as [|t l IH]; intros s; [symmetry; apply out_nil|].
  unfold outs in *. cbn [foldl concat]. by rewrite IH, out_app.
Qed.

Lemma putc_app c t s : putc c (out t s) = out (t ++ [c]) s.
Proof. apply out_app. Qed.

(** ** Printing numbers *)

Lemma digits_loop_rev cap n buf : dec_loop cap n buf = rev (digits_loop cap n) ++ buf.
Proof.
  revert n buf. induction cap as [|cap IH]; intros n buf; cbn [dec_loop digits_loop]; [done|].
  destruct (0 <? n); [|done]. cbn [rev]. rewrite IH, <- app_assoc. done.
Qed.

(** The arrays of the programs are large enough: the digits do not depend on the
    size. *)
Lemma digits_loop_cap cap cap' n :
  0 ≤ n < 10 ^ Z.of_nat cap → (cap ≤ cap')%nat → digits_loop cap' n = digits_loop cap n.
Proof.
  revert cap' n. induction cap as [|cap IH]; intros [|cap'] n Hn Hc; try lia; [done| |].
  - cbn in Hn. cbn [digits_loop]. destruct (Z.ltb_spec 0 n); [lia|done].
  - cbn [digits_loop]. destruct (Z.ltb_spec 0 n); [|done]. f_equal. apply IH; [|lia].
    rewrite Nat2Z.inj_succ, Z.pow_succ_r in Hn by lia. split; [apply Z.div_pos; lia|].
    apply Z.div_lt_upper_bound; lia.
Qed.

Lemma print_uint_text cap n s :
  0 ≤ n < 10 ^ Z.of_nat cap → (cap ≤ 20)%nat → print_uint cap n s = out (dec_text n) s.
Proof.
  intros Hn Hc. unfold print_uint, dec_text. destruct (n =? 0); [done|].
  rewrite putcs_out, digits_loop_rev, app_nil_r. by rewrite (digits_loop_cap cap 20).
Qed.

(** The text of an integer. *)
Definition show_int (z : Z) : cstr := if z <? 0 then 45 :: dec_text (- z) else dec_text z.

Lemma i64_in_range z : - 2 ^ 63 ≤ z < 2 ^ 63 → i64 z = z.
Proof.
  intros Hz. unfold i64, to_signed. change (64 - 1) with 63. cbv zeta.
  destruct (decide (0 ≤ z)).
  - rewrite (Z.mod_small z) by lia. destruct (Z.ltb_spec z (2 ^ 63)); lia.
  - replace (z mod 2 ^ 64) with (z + 2 ^ 64) by (rewrite <- (Z_mod_plus_full z 1), Z.mod_small; lia).
    destruct (Z.ltb_spec (z + 2 ^ 64) (2 ^ 63)); lia.
Qed.

Lemma print_int_text z s : - 2 ^ 63 < z < 2 ^ 63 → print_int z s = out (show_int z) s.
Proof.
  intros Hz. unfold print_int, show_int. destruct (Z.ltb_spec z 0).
  - rewrite i64_in_range by lia. rewrite print_uint_text by lia. unfold putc. by rewrite out_app.
  - apply print_uint_text; lia.
Qed.

End laws.

(** ** Reading numbers *)

(** A reduction that keeps the values from 0 to [M]. *)
Definition keeps (wrap : Z → Z) (M : Z) : Prop := ∀ x, 0 ≤ x ≤ M → wrap x = x.

Lemma parse_digits_app wrap M t rest v :
  keeps wrap M → Forall is_digit t → starts_digit rest = false → 0 ≤ v →
  foldl (λ a c, 10 * a + (c - 48)) v t ≤ M →
  parse_digits wrap v (t ++ rest) = (foldl (λ a c, 10 * a + (c - 48)) v t, rest).
Proof.
  intros Hk Ht Hr. revert v. induction Ht as [|c t Hc Ht IH]; intros v Hv Hm; cbn [app foldl] in *.
  - destruct rest as [|c rest]; [done|]. cbn [parse_digits]. unfold starts_digit in Hr. by rewrite Hr.
  - unfold is_digit in Hc. cbn [parse_digits]. unfold digit, char_in.
    rewrite (proj2 (Z.leb_le 48 c)), (proj2 (Z.leb_le c 57)) by lia. cbn [andb].
    assert (∀ t a, Forall is_digit t → 0 ≤ a → a ≤ foldl (λ a c, 10 * a + (c - 48)) a t) as Hmono.
    { clear. induction t as [|c t IH]; intros a Ht Ha; cbn [foldl]; [lia|].
      apply Forall_cons_1 in Ht as [Hc Ht]. unfold is_digit in Hc.
      pose proof (IH (10 * a + (c - 48)) Ht ltac:(lia)). lia. }
    pose proof (Hmono t (10 * v + (c - 48)) Ht ltac:(lia)).
    replace (v * 10 + (c - 48)) with (10 * v + (c - 48)) by lia.
    rewrite Hk by lia. apply IH; [lia|done].
Qed.

Lemma dec_text_digits v : 0 ≤ v < 2 ^ 64 → starts_digit (dec_text v) = true ∧ Forall is_digit (dec_text v) ∧ dec_value (dec_text v) = v.
Proof.
  intros Hv. destruct (ConsoleSpec.dec_text_spec v Hv) as (H1 & H2 & H3 & _).
  split; [|done]. destruct (dec_text v) as [|c t]; [cbn in H3; lia|].
  apply Forall_cons_1 in H2 as [Hc _]. unfold is_digit in Hc. cbn. unfold digit, char_in.
  apply andb_true_iff. rewrite !Z.leb_le. lia.
Qed.

Lemma parse_dec wrap v rest :
  keeps wrap v → 0 ≤ v < 2 ^ 64 → starts_digit rest = false →
  parse_digits wrap 0 (dec_text v ++ rest) = (v, rest).
Proof.
  intros Hk Hv Hr. destruct (dec_text_digits v Hv) as (_ & Hd & Hval). unfold dec_value in Hval.
  rewrite (parse_digits_app wrap v) by (done || lia). by rewrite Hval.
Qed.

Lemma parse_uint_dec w v rest :
  0 ≤ w ≤ 64 → 0 ≤ v < 2 ^ w → starts_digit rest = false → parse_uint w (dec_text v ++ rest) = (v, true).
Proof.
  intros Hw Hv Hr. assert (2 ^ w ≤ 2 ^ 64) by (apply Z.pow_le_mono_r; lia). unfold parse_uint.
  rewrite parse_dec; [|intros x Hx; apply Z.mod_small; lia|lia|done].
  destruct (dec_text_digits v ltac:(lia)) as (Hs & _). destruct (dec_text v) as [|c t]; [done|].
  cbn in *. by rewrite Hs.
Qed.

Lemma dec_text_head v c t : 0 ≤ v < 2 ^ 64 → dec_text v = c :: t → 48 ≤ c ≤ 57.
Proof. intros Hv E. destruct (dec_text_digits v Hv) as (_ & Hd & _). rewrite E in Hd. by apply Forall_cons_1 in Hd as [? _]. Qed.

Lemma parse_int_show z rest :
  - 2 ^ 63 < z < 2 ^ 63 → starts_digit rest = false → parse_int (show_int z ++ rest) = Some (z, rest).
Proof.
  intros Hz Hr. unfold parse_int, show_int.
  assert (keeps i64 (Z.abs z)) as Hk by (intros x Hx; apply i64_in_range; lia).
  destruct (Z.ltb_spec z 0) as [Hn|Hn].
  - cbn [app]. rewrite bool_decide_true by done. cbn [tail]. destruct (dec_text_digits (- z) ltac:(lia)) as (Hs & _).
    assert (starts_digit (dec_text (- z) ++ rest) = true) as -> by (by destruct (dec_text (- z))).
    cbn [negb]. rewrite parse_dec; [|intros x Hx; apply Hk; lia|lia|done]. f_equal. f_equal.
    rewrite i64_in_range; lia.
  - destruct (dec_text_digits z ltac:(lia)) as (Hs & _).
    destruct (dec_text z) as [|c t] eqn:E; [done|].
    pose proof (dec_text_head z c t ltac:(lia) E) as Hc.
    rewrite bool_decide_false by (intros [=]; lia).
    assert (starts_digit ((c :: t) ++ rest) = true) as -> by done. cbn [negb]. rewrite <- E.
    rewrite parse_dec; [|intros x Hx; apply Hk; lia|lia|done]. done.
Qed.

(** ** Arithmetic *)

Lemma skip_replicate k t : head t ≠ Some 32 → Vfs.skip 32 (replicate k 32 ++ t) = t.
Proof.
  intros Ht. induction k as [|k IH]; cbn; [|done]. destruct t as [|c t]; [done|]. cbn in *.
  destruct (Z.eqb_spec c 32); [congruence|done].
Qed.

Lemma show_int_head z : - 2 ^ 63 < z < 2 ^ 63 → ∃ c t, show_int z = c :: t ∧ c ≠ 32.
Proof.
  intros Hz. unfold show_int. destruct (Z.ltb_spec z 0); [by eexists _, _|].
  destruct (dec_text z) as [|c t] eqn:E.
  - destruct (dec_text_digits z ltac:(lia)) as (Hs & _). by rewrite E in Hs.
  - pose proof (dec_text_head z c t ltac:(lia) E). exists c, t. split; [done|lia].
Qed.

Lemma show_int_no_space z rest : - 2 ^ 63 < z < 2 ^ 63 → head (show_int z ++ rest) ≠ Some 32.
Proof. intros Hz. destruct (show_int_head z Hz) as (c & t & -> & Hc). cbn. congruence. Qed.

(** What [calc] computes, before the reduction to 64 bits: [None] for a division
    by zero. *)
Definition calc_value (op a b : Z) : option Z :=
  if op =? 43 then Some (a + b) else if op =? 45 then Some (a - b) else
  if op =? 42 then Some (a * b) else if b =? 0 then None else Some (Z.quot a b).

Definition calc_line (k1 k2 k3 : nat) (a op b : Z) (rest : cstr) : cstr :=
  replicate k1 32 ++ show_int a ++ replicate k2 32 ++ op :: replicate k3 32 ++ show_int b ++ rest.

Lemma quot_range a b : - 2 ^ 63 < a < 2 ^ 63 → b ≠ 0 → - 2 ^ 63 < Z.quot a b < 2 ^ 63.
Proof.
  intros Ha Hb. pose proof (Z.quot_abs a b Hb) as E.
  assert (Z.abs (Z.quot a b) ≤ Z.abs a) by (rewrite <- E; apply Z.quot_le_upper_bound; nia). lia.
Qed.

Section arithmetic.
Context {W : Type} `{OutputLaws W}.
Implicit Types (s : W).

(** [calc] computes: for two numbers of 64 bits and an operator, with any spaces
    around them, it prints the sum, the difference, the product (reduced to 64
    bits) or the quotient rounded towards zero, and refuses to divide by zero. *)
Theorem calc_computes k1 k2 k3 a op b rest s :
  - 2 ^ 63 < a < 2 ^ 63 → - 2 ^ 63 < b < 2 ^ 63 → op ∈ [43; 45; 42; 47] → starts_digit rest = false →
  (∀ r, calc_value op a b = Some r → i64 r ≠ - 2 ^ 63) →
  calc_run (calc_line k1 k2 k3 a op b rest) s =
    Some (out (match calc_value op a b with
               | Some r => show_int (i64 r) ++ [10]
               | None => line "calc: division by zero"
               end) s).
Proof.
  intros Ha Hb Hop Hr Hmin. unfold calc_run, calc_line.
  rewrite skip_replicate by (by apply show_int_no_space).
  assert (op ≠ 32 ∧ digit op = false) as [Hop32 Hopd].
  { repeat (apply elem_of_cons in Hop as [->|Hop]; [done|]). by apply not_elem_of_nil in Hop. }
  rewrite parse_int_show; [|done|destruct k2; [exact Hopd|done]].
  rewrite (skip_replicate k2) by (cbn; congruence).
  rewrite skip_replicate by (by apply show_int_no_space).
  rewrite parse_int_show by done.
  assert (∀ r, i64 r ≠ - 2 ^ 63 → putc 10 (print_int (i64 r) s) = out (show_int (i64 r) ++ [10]) s) as Hfin.
  { intros r Hr'. rewrite print_int_text; [apply putc_app|].
    unfold i64, to_signed in *. change (64 - 1) with 63 in *. cbv zeta in *.
    pose proof (Z.mod_pos_bound r (2 ^ 64) ltac:(lia)). destruct (_ <? _) eqn:?; lia. }
  unfold calc_value in *.
  repeat (apply elem_of_cons in Hop as [->|Hop];
    [cbn [Z.eqb Pos.eqb orb negb] in *; try (f_equal; apply Hfin; by apply Hmin)|]);
    [|by apply not_elem_of_nil in Hop].
  destruct (Z.eqb_spec b 0); [done|]. rewrite (proj2 (Z.eqb_neq a _)) by lia. cbn [andb].
  pose proof (quot_range a b Ha ltac:(done)). rewrite <- (i64_in_range (Z.quot a b)) at 1 by lia.
  f_equal. apply Hfin. by apply Hmin.
Qed.

(** ** Hexadecimal *)

Lemma hex_digit_of d : 0 ≤ d < 16 → hex_digit (default 0 (Console.hex_digits !! Z.to_nat d)) = d.
Proof.
  intros Hd. assert (forallb (λ d, hex_digit (default 0 (Console.hex_digits !! Z.to_nat d)) =? d) (seqZ 0 16) = true) as H1
    by (vm_compute; reflexivity).
  rewrite forallb_forall in H1. apply Z.eqb_eq, H1, list_elem_of_In, elem_of_seqZ. lia.
Qed.

Lemma hex_value_app t u v :
  hex_value (t ++ u) v = match hex_value t v with Some w => hex_value u w | None => None end.
Proof.
  revert v. induction t as [|c t IH]; intros v; [done|]. cbn [app hex_value]. destruct (_ <? 0); [done|]. apply IH.
Qed.

Lemma hex_loop_spec i uv buf :
  0 ≤ uv < 16 ^ Z.of_nat i → (i ≤ 16)%nat →
  ∃ t, hex_loop i uv buf = t ++ buf ∧ hex_value t 0 = Some uv ∧ (0 < uv → t ≠ []).
Proof.
  revert uv buf. induction i as [|i IH]; intros uv buf Hv Hi; cbn [hex_loop].
  { cbn in Hv. exists []. split; [done|]. split; [cbn; f_equal; lia|lia]. }
  destruct (Z.ltb_spec 0 uv); [|exists []; split; [done|]; split; [cbn; f_equal; lia|lia]].
  rewrite Nat2Z.inj_succ, Z.pow_succ_r in Hv by lia.
  rewrite Z.shiftr_div_pow2 by lia. change (2 ^ 4) with 16.
  assert (Z.land uv 15 = uv mod 16) as -> by (apply (land_low_mask uv 4); lia).
  pose proof (Z.mod_pos_bound uv 16 ltac:(lia)).
  set (d := default 0 (Console.hex_digits !! Z.to_nat (uv mod 16))).
  destruct (IH (uv / 16) (d :: buf)) as (t & -> & Ht & _); [split; [apply Z.div_pos; lia|apply Z.div_lt_upper_bound; lia]|lia|].
  exists (t ++ [d]). rewrite <- app_assoc. split; [done|]. split; [|by intros _; destruct t].
  rewrite hex_value_app, Ht. cbn [hex_value]. subst d. rewrite hex_digit_of by lia.
  destruct (Z.ltb_spec (uv mod 16) 0); [lia|]. f_equal.
  assert (16 ^ Z.of_nat i ≤ 16 ^ 15) by (apply Z.pow_le_mono_r; lia).
  rewrite u64_small; pose proof (Z.div_mod uv 16 ltac:(lia)); lia.
Qed.

(** The text of a number in hexadecimal, as [hex] prints it. *)
Definition hex_text (v : Z) : cstr := lit "0x" ++ (if v =? 0 then [48] else hex_loop 16 v []).

Lemma hex_run_text z rest s :
  - 2 ^ 63 < z < 2 ^ 63 → starts_digit rest = false →
  hex_run (show_int z ++ rest) s = out ((if z <? 0 then [45] else []) ++ hex_text (Z.abs z) ++ [10]) s.
Proof.
  intros Hz Hr. unfold hex_run. rewrite parse_int_show by done. unfold hex_text.
  destruct (Z.ltb_spec z 0).
  - rewrite i64_in_range, u64_small by lia. rewrite (Z.abs_neq z) by lia. rewrite out_app.
    destruct (- z =? 0); rewrite ?out_app; cbn [app]; by rewrite <- ?app_assoc.
  - rewrite u64_small by lia. rewrite (Z.abs_eq z) by lia.
    destruct (z =? 0); rewrite ?out_app; cbn [app]; by rewrite <- ?app_assoc.
Qed.

(** [dec] reads what [hex] prints: for every number of 63 bits the text that
    [hex] prints behind [0x], given to [dec], prints the number again. *)
Theorem hex_dec_roundtrip v s :
  0 ≤ v < 2 ^ 63 →
  ∃ t, hex_run (dec_text v) [] = t ++ [10] ∧ dec_run t s = out (dec_text v ++ [10]) s.
Proof.
  intros Hv. assert (hex_run (dec_text v) [] = hex_text v ++ [10]) as E.
  { unfold hex_run. pose proof (parse_int_show v [] ltac:(lia) eq_refl) as Hp. unfold show_int in Hp.
    rewrite (proj2 (Z.ltb_ge v 0)), app_nil_r in Hp by lia. rewrite Hp.
    rewrite (proj2 (Z.ltb_ge v 0)), u64_small by lia. unfold hex_text. destruct (v =? 0); [done|].
    unfold out, text_output. by rewrite <- app_assoc. }
  exists (hex_text v). split; [done|].
  unfold dec_run, hex_text. change (lit "0x") with [48; 120]. cbn [app Z.eqb Pos.eqb andb orb].
  assert (∃ t, (if v =? 0 then [48] else hex_loop 16 v []) = t ∧ t ≠ [] ∧ hex_value t 0 = Some v) as (t & -> & Hne & Hval).
  { destruct (Z.eqb_spec v 0) as [->|]; [by exists [48]|].
    destruct (hex_loop_spec 16 v []) as (t & Ht & Hv' & Hn); [lia|lia|]. rewrite app_nil_r in Ht.
    exists t. split; [done|]. split; [apply Hn; lia|done]. }
  rewrite bool_decide_false by done. rewrite Hval, print_uint_text by lia. apply out_app.
Qed.

(** ** Sums *)

(** The numbers with a space between them. *)
Fixpoint join_ints (zs : list Z) : cstr :=
  match zs with
  | [] => []
  | [z] => show_int z
  | z :: zs => show_int z ++ 32 :: join_ints zs
  end.

Lemma split_word_app t u : 32 ∉ t → head u ≠ Some 32 → Vfs.vfs_split_word (t ++ 32 :: u) = (t, u).
Proof.
  intros Ht Hu. unfold Vfs.vfs_split_word. rewrite VfsPath.span_spec by done. f_equal. apply (skip_replicate 1 u Hu).
Qed.

Lemma split_word_all t : 32 ∉ t → Vfs.vfs_split_word t = (t, []).
Proof. intros Ht. unfold Vfs.vfs_split_word. by rewrite VfsPath.span_none. Qed.

Lemma show_int_chars z : - 2 ^ 63 < z < 2 ^ 63 → 32 ∉ show_int z.
Proof.
  intros Hz Hin. unfold show_int in Hin.
  assert (∀ v, 0 ≤ v < 2 ^ 64 → 32 ∉ dec_text v) as Hd.
  { intros v Hv H1. destruct (dec_text_digits v Hv) as (_ & H2 & _). rewrite Forall_forall in H2.
    specialize (H2 32 H1). unfold is_digit in H2. lia. }
  destruct (z <? 0) eqn:E; [apply elem_of_cons in Hin as [?|Hin]; [done|]|]; apply Hd in Hin; (done || lia).
Qed.

Lemma i64_add x v : i64 (i64 x + v) = i64 (x + v).
Proof.
  unfold i64, to_signed. change (64 - 1) with 63. cbv zeta.
  assert (((if x mod 2 ^ 64 <? 2 ^ 63 then x mod 2 ^ 64 else x mod 2 ^ 64 - 2 ^ 64) + v) mod 2 ^ 64 = (x + v) mod 2 ^ 64) as ->;
    [|done].
  destruct (_ <? _); [by rewrite Zplus_mod_idemp_l|].
  replace (x mod 2 ^ 64 - 2 ^ 64 + v) with (x mod 2 ^ 64 + v + (-1) * 2 ^ 64) by lia.
  rewrite Z_mod_plus_full. by rewrite Zplus_mod_idemp_l.
Qed.

Definition total (zs : list Z) : Z := foldl Z.add 0 zs.

Lemma sum_loop_spec zs fuel acc :
  Forall (λ z, - 2 ^ 63 < z < 2 ^ 63) zs → (length (join_ints zs) ≤ fuel)%nat →
  sum_loop fuel (join_ints zs) (i64 acc) = Some (i64 (foldl Z.add acc zs)).
Proof.
  intros Hz. revert fuel acc. induction Hz as [|z zs Hz Hzs IH]; intros fuel acc Hf; [by destruct fuel|].
  destruct (show_int_head z Hz) as (c & t & Es & _).
  pose proof (parse_int_show z [] Hz eq_refl) as Hp. rewrite app_nil_r in Hp.
  destruct zs as [|z' zs].
  - cbn [join_ints] in *. rewrite Es in *. cbn in Hf. destruct fuel as [|fuel]; [lia|].
    cbn [sum_loop]. rewrite <- Es, split_word_all by (by apply show_int_chars).
    rewrite Es, Hp, i64_add. by destruct fuel.
  - assert (join_ints (z :: z' :: zs) = show_int z ++ 32 :: join_ints (z' :: zs)) as E by done.
    rewrite E in *. rewrite Es in *. cbn [app length] in Hf. rewrite length_app in Hf. cbn [length] in Hf.
    destruct fuel as [|fuel]; [lia|]. cbn [app sum_loop].
    change (c :: t ++ 32 :: join_ints (z' :: zs)) with ((c :: t) ++ 32 :: join_ints (z' :: zs)).
    rewrite <- Es, split_word_app; [rewrite Es, Hp, i64_add; apply IH; lia|by apply show_int_chars|].
    apply Forall_cons_1 in Hzs as [Hz' _]. destruct zs; [|by apply show_int_no_space].
    cbn [join_ints]. pose proof (show_int_no_space z' [] Hz') as Hh. by rewrite app_nil_r in Hh.
Qed.

Lemma i64_range x : - 2 ^ 63 ≤ i64 x < 2 ^ 63.
Proof.
  unfold i64, to_signed. change (64 - 1) with 63. cbv zeta.
  pose proof (Z.mod_pos_bound x (2 ^ 64) ltac:(lia)). destruct (Z.ltb_spec (x mod 2 ^ 64) (2 ^ 63)); lia.
Qed.

(** [sum] adds: for any numbers of 64 bits with spaces between them it ends and
    prints their sum, reduced to 64 bits. *)
Theorem sum_computes zs s :
  zs ≠ [] → Forall (λ z, - 2 ^ 63 < z < 2 ^ 63) zs →
  sum_run (join_ints zs) s = Some (out (show_int (i64 (total zs)) ++ [10]) s).
Proof.
  intros Hne Hz. unfold sum_run.
  assert (join_ints zs ≠ []) as Hj.
  { destruct zs as [|z zs]; [done|]. apply Forall_cons_1 in Hz as [Hz _].
    destruct (show_int_head z Hz) as (c & t & Es & _). cbn [join_ints]. destruct zs; by rewrite Es. }
  rewrite bool_decide_false by done. pose proof (sum_loop_spec zs (length (join_ints zs)) 0 Hz ltac:(lia)) as Hsum.
  change (i64 0) with 0 in Hsum. rewrite Hsum.
  cbn [mbind option_bind]. fold (total zs). pose proof (i64_range (total zs)) as Hr.
  set (r := i64 (total zs)) in *. clearbody r. unfold show_int.
  assert (∀ n (s' : W), 0 ≤ n < 2 ^ 64 →
    (if u64 n =? 0 then Some (out (line "0") s') else Some (out [10] (putcs (rev (digits_loop 24 (u64 n))) s'))) =
    Some (out (dec_text n ++ [10]) s')) as Hp.
  { intros n s' Hn. rewrite (u64_small n) by lia. unfold dec_text. destruct (Z.eqb_spec n 0); [done|].
    rewrite putcs_out, out_app, digits_loop_rev, app_nil_r, (digits_loop_cap 20 24) by lia. done. }
  destruct (Z.ltb_spec r 0); [|apply Hp; lia].
  assert (u64 (i64 (- r)) = u64 (- r)) as Eu.
  { destruct (decide (r = - 2 ^ 63)) as [->|]; [done|]. rewrite i64_in_range by lia. done. }
  pose proof (Hp (- r) (out [45] s) ltac:(lia)) as Hp'. rewrite <- Eu in Hp'. rewrite Hp'. by rewrite out_app.
Qed.

(** ** Fibonacci numbers *)

Fixpoint fib (n : nat) : Z :=
  match n with
  | O => 0
  | S m => match m with O => 1 | S k => fib m + fib k end
  end.

Lemma fib_SS n : fib (S (S n)) = fib (S n) + fib n.
Proof. done. Qed.

Fixpoint fib_pair (n : nat) : Z * Z :=
  match n with O => (0, 1) | S n => let '(a, b) := fib_pair n in (b, b + a) end.

Lemma fib_pair_fib n : fib_pair n = (fib n, fib (S n)).
Proof. induction n as [|n IH]; [done|]. cbn [fib_pair]. by rewrite IH, <- fib_SS. Qed.

Lemma fib_bound n : (n ≤ 92)%nat → 0 ≤ fib n < 2 ^ 63.
Proof.
  intros Hn. assert (forallb (λ n, (0 <=? (fib_pair n).1) && ((fib_pair n).1 <? 2 ^ 63)) (seq 0 93) = true) as H1
    by (vm_compute; reflexivity).
  rewrite forallb_forall in H1. specialize (H1 n). rewrite fib_pair_fib in H1. cbn [fst] in H1.
  rewrite andb_true_iff, Z.leb_le, Z.ltb_lt in H1. apply H1, list_elem_of_In, elem_of_seq. lia.
Qed.

Lemma fib_loop_spec k m : (m + k ≤ 91)%nat → fib_loop k (fib m) (fib (S m)) = fib (m + k).
Proof.
  revert m. induction k as [|k IH]; intros m Hk; cbn [fib_loop]; [by rewrite Nat.add_0_r|].
  rewrite Z.add_comm, <- fib_SS. rewrite u64_small by (pose proof (fib_bound (S (S m))); lia).
  rewrite IH by lia. f_equal. lia.
Qed.

(** [fib] prints the Fibonacci number of every index it accepts - none of them
    overflows - and refuses the indices above 90. *)
Theorem fib_computes n s :
  0 ≤ n < 2 ^ 64 →
  fib_run (dec_text n) s =
    if 90 <? n then out (line "fib: n too large (max 90, would overflow 64 bit)") s
    else out (dec_text (fib (Z.to_nat n)) ++ [10]) s.
Proof.
  intros Hn. unfold fib_run. pose proof (parse_uint_dec 64 n [] ltac:(lia) Hn eq_refl) as Hp.
  rewrite app_nil_r in Hp. rewrite Hp. cbn [negb]. destruct (Z.ltb_spec 90 n); [done|].
  change 1 with (fib 1). change 0 with (fib 0) at 1. rewrite (fib_loop_spec _ 0) by lia.
  pose proof (fib_bound (Z.to_nat n) ltac:(lia)). unfold print_uint, dec_text. cbn [Nat.add].
  destruct (_ =? 0); [apply out_app|].
  rewrite putcs_out, digits_loop_rev, app_nil_r, (digits_loop_cap 20 24) by lia. apply out_app.
Qed.

(** ** Primes *)

Definition no_divisor (i n : Z) : Prop := ∀ j, 2 ≤ j < i → n mod j ≠ 0.

Lemma isprime_loop_spec fuel i n :
  2 ≤ i → 2 ≤ n < (2 ^ 32 - 1) ^ 2 → no_divisor i n → (i - 1) * (i - 1) ≤ n ∨ i = 2 → Z.sqrt n < i + Z.of_nat fuel →
  ∃ b, isprime_loop fuel i n = Some b ∧ (b = true ↔ prime n).
Proof.
  revert i. induction fuel as [|fuel IH]; intros i Hi Hn Hno Hsq Hf.
  all: assert (i < 2 ^ 32) by nia; assert (i * i < 2 ^ 64) by nia; cbn [isprime_loop];
    rewrite (u64_small (i * i)) by nia; destruct (Z.leb_spec (i * i) n) as [Hle|Hgt].
  1: apply Z.sqrt_le_square in Hle; lia.
  1, 3: (exists true; split; [done|]; split; [intros _|done]; apply prime_alt; split; [lia|];
    intros m Hm [q Hq]; destruct (decide (m < i)) as [Hlt|Hge];
    [apply (Hno m); [lia|subst n; apply Z_mod_mult]|];
    apply (Hno q); [nia|subst n; rewrite Z.mul_comm; apply Z_mod_mult]).
  destruct (Z.eqb_spec (n mod i) 0) as [Hz|Hz].
  - exists false. split; [done|]. split; [done|]. intros Hp. apply prime_alt in Hp as [_ Hp].
    destruct (Hp i); [nia|]. apply Z.mod_divide; lia.
  - rewrite u64_small by lia. apply IH; [lia|done| |left; lia|lia].
    intros j Hj. destruct (decide (j = i)) as [->|]; [done|]. apply Hno. lia.
Qed.

(** [isprime] decides primality: for every number below [(2^32 - 1)^2] the loop
    ends after at most [sqrt n] rounds, without an overflow of the square, and the
    answer is right. *)
Theorem isprime_decides fuel n s :
  0 ≤ n < (2 ^ 32 - 1) ^ 2 → Z.sqrt n ≤ Z.of_nat fuel →
  ∃ b : bool, isprime_run fuel (dec_text n) s = Some (out (line (if b then "prime" else "not prime")) s) ∧
    (b = true ↔ prime n).
Proof.
  intros Hn Hf. unfold isprime_run.
  pose proof (parse_uint_dec 64 n [] ltac:(lia) ltac:(lia) eq_refl) as Hp. rewrite app_nil_r in Hp. rewrite Hp. cbn [negb].
  destruct (Z.ltb_spec n 2).
  { exists false. split; [done|]. split; [done|]. intros [? _]. lia. }
  destruct (isprime_loop_spec fuel 2 n) as (b & -> & Hb); [lia|lia|intros j Hj; lia|by right|lia|].
  by exists b.
Qed.
End arithmetic.

(** [calc] with the smallest number divided by minus one executes a division that
    traps; the difference [-2^63] is printed as a sign without digits. *)
Theorem calc_division_traps {W} `{Output W} (s : W) : calc_run (lit "-9223372036854775808 / -1") s = None.
Proof. vm_compute. reflexivity. Qed.

Theorem calc_min_prints_sign :
  calc_run (lit "-9223372036854775807 - 1") ([] : cstr) = Some (line "-").
Proof. vm_compute. reflexivity. Qed.

(** ** Text *)

Section text_commands.
Context {W : Type} `{OutputLaws W}.
Implicit Types (s : W).

Lemma foldl_putc {A} (f : A → Z) (l : list A) s : foldl (λ s c, putc (f c) s) s l = out (map f l) s.
Proof.
  revert s. induction l as [|c l IH]; intros s; cbn [foldl map]; [symmetry; apply out_nil|].
  rewrite IH. apply out_app.
Qed.

Lemma upper_run_text args s : upper_run args s = out (map upper_char args ++ [10]) s.
Proof. unfold upper_run. rewrite foldl_putc. apply putc_app. Qed.

Lemma lower_run_text args s : lower_run args s = out (map lower_char args ++ [10]) s.
Proof. unfold lower_run. rewrite foldl_putc. apply putc_app. Qed.

Lemma bounded_len_spec max args : bounded_len max args = Z.of_nat (length (take max args)).
Proof. revert args. induction max as [|max IH]; intros [|c args]; cbn [bounded_len take length]; [done..|]. rewrite IH. lia. Qed.

Lemma reverse_run_text args s : reverse_run args s = out (rev (take REVERSE_MAX_LEN args) ++ [10]) s.
Proof.
  unfold reverse_run. rewrite bounded_len_spec. rewrite foldl_putc, putc_app. f_equal. f_equal.
  rewrite map_rev. f_equal. set (t := take REVERSE_MAX_LEN args).
  assert (∀ i, (i < length t)%nat → args !! i = t !! i) as Hl by (intros i Hi; subst t; rewrite lookup_take_lt; [done|rewrite length_take in Hi; lia]).
  clearbody t. apply list_eq. intros i. rewrite list_lookup_fmap.
  destruct (decide (i < length t)%nat) as [Hi|Hi].
  - rewrite lookup_seqZ_lt by lia. cbn. replace (Z.to_nat (0 + Z.of_nat i)) with i by lia.
    rewrite Hl by done. destruct (t !! i) eqn:E; [done|]. apply lookup_ge_None in E. lia.
  - rewrite lookup_seqZ_ge by lia. symmetry. apply lookup_ge_None. lia.
Qed.

End text_commands.

Section text_theorems.
Context {W : Type} `{OutputLaws W}.
Implicit Types (s : W).

(** Reversing twice gives the text back. *)
Theorem reverse_roundtrip args s :
  (length args ≤ 255)%nat →
  ∃ t, reverse_run args [] = t ++ [10] ∧ reverse_run t s = out (args ++ [10]) s.
Proof.
  intros Hl. exists (rev args). rewrite !reverse_run_text. unfold REVERSE_MAX_LEN.
  rewrite !take_ge by (rewrite ?length_rev; done). by rewrite rev_involutive.
Qed.

(** The character at [i] starts a word; [first] is the answer for the start of the
    text. *)
Definition starts_word (first : bool) (t : cstr) (i : nat) : bool :=
  match i with O => first | S i => bool_decide (t !! i = Some 32) end.

Definition title_text (first : bool) (t : cstr) : cstr :=
  imap (λ i c, if starts_word first t i then upper_char c else lower_char c) t.

Lemma title_text_cons first c t : title_text first (c :: t) = (if first then upper_char c else lower_char c) :: title_text (c =? 32) t.
Proof.
  unfold title_text. cbn [imap]. f_equal. apply imap_ext. intros [|i] x _; cbn [starts_word compose]; [|done].
  cbn. destruct (Z.eqb_spec c 32); [by rewrite bool_decide_true by congruence|by rewrite bool_decide_false by congruence].
Qed.

Lemma title_loop_text args first s : title_loop first args s = out (title_text first args) s.
Proof.
  revert first s. induction args as [|c args IH]; intros first s; [symmetry; apply out_nil|].
  cbn [title_loop]. rewrite title_text_cons. destruct (Z.eqb_spec c 32) as [->|Hc]; rewrite IH; unfold putc; rewrite out_app.
  - by destruct first.
  - f_equal. cbn [app]. f_equal. unfold upper_char, lower_char.
    destruct first; cbn [andb negb]; destruct (char_in 97 122 c), (char_in 65 90 c); done.
Qed.

(** The case of letters: [upper] and [lower] print the text with every letter
    changed, [title] changes the first letter of every word to upper case and the
    others to lower case; all other characters stay. *)
Theorem case_commands args s :
  upper_run args s = out (map upper_char args ++ [10]) s ∧
  lower_run args s = out (map lower_char args ++ [10]) s ∧
  title_run args s = out (title_text true args ++ [10]) s.
Proof.
  split; [apply upper_run_text|]. split; [apply lower_run_text|].
  unfold title_run. rewrite title_loop_text. apply putc_app.
Qed.
End text_theorems.

(** ** Searching and counting *)

Lemma prefix_at_spec needle hay : prefix_at needle hay = true ↔ ∃ post, hay = needle ++ post.
Proof.
  revert hay. induction needle as [|d needle IH]; intros hay; cbn [prefix_at].
  { split; [by exists hay|done]. }
  destruct hay as [|c hay]; [split; [done|by intros [? ?]]|].
  rewrite andb_true_iff, Z.eqb_eq, IH. split.
  - intros [-> [post ->]]. by exists post.
  - intros [post E]. cbn in E. injection E as -> ->. split; [done|by exists post].
Qed.

(** [grep] finds a word exactly when it occurs in the text. *)
Theorem contains_correct hay needle : contains hay needle = true ↔ ∃ pre post, hay = pre ++ needle ++ post.
Proof.
  unfold contains. case_bool_decide as Hn; [subst; split; [intros _; by exists [], hay|done]|].
  induction hay as [|c hay IH]; cbn [contains_loop].
  - split; [done|]. intros (pre & post & E). symmetry in E. apply app_eq_nil in E as [_ E]. by apply app_eq_nil in E as [? _].
  - rewrite orb_true_iff, prefix_at_spec, IH. split.
    + intros [[post ->]|(pre & post & ->)]; [by exists [], post|by exists (c :: pre), post].
    + intros (pre & post & E). destruct pre as [|x pre]; [left; by exists post|].
      right. injection E as -> ->. by exists pre, post.
Qed.

(** The places where a space, or the character before the text, is followed by
    another character. *)
Definition word_starts (prev : Z) (t : cstr) : list (Z * Z) :=
  filter (λ p : Z * Z, p.1 = 32 ∧ p.2 ≠ 32) (zip (prev :: t) t).

Lemma word_starts_cons prev c t :
  length (word_starts prev (c :: t)) = ((if ((prev =? 32) && negb (c =? 32))%Z then 1 else 0) + length (word_starts c t))%nat.
Proof.
  assert (word_starts prev (c :: t) = filter (λ p : Z * Z, p.1 = 32 ∧ p.2 ≠ 32) ((prev, c) :: zip (c :: t) t)) as -> by done.
  rewrite filter_cons. cbn [fst snd]. destruct (Z.eqb_spec prev 32), (Z.eqb_spec c 32); cbn [andb negb];
    (rewrite decide_True by done; done) || (rewrite decide_False by tauto; done).
Qed.

Lemma wc_loop_spec t prev chars words :
  0 ≤ chars → 0 ≤ words → chars + Z.of_nat (length t) < 2 ^ 32 → words + Z.of_nat (length t) < 2 ^ 32 →
  wc_loop t (negb (prev =? 32)) chars words =
    (chars + Z.of_nat (length t), words + Z.of_nat (length (word_starts prev t))).
Proof.
  revert prev chars words. induction t as [|c t IH]; intros prev chars words Hc Hw Hlc Hlw.
  { cbn. f_equal; lia. }
  rewrite word_starts_cons. cbn [length] in *. cbn [wc_loop]. rewrite (u32_small (chars + 1)) by lia.
  destruct (Z.eqb_spec c 32) as [->|Hne]; cbn [negb].
  - change false with (negb (32 =? 32)). rewrite IH, andb_false_r by lia. f_equal; lia.
  - assert (true = negb (c =? 32)) as E by (by rewrite (proj2 (Z.eqb_neq c 32))).
    rewrite andb_true_r. destruct (Z.eqb_spec prev 32) as [->|Hp]; cbn [negb].
    + rewrite u32_small by lia. rewrite E, IH by lia. f_equal; lia.
    + rewrite E, IH by lia. f_equal; lia.
Qed.

Lemma diff_loop_spec c1 c2 i :
  0 ≤ i → i + Z.of_nat (length c1) < 2 ^ 32 →
  ∃ k, diff_loop c1 c2 i = i + Z.of_nat k ∧ (k ≤ length c1)%nat ∧ (k ≤ length c2)%nat ∧ take k c1 = take k c2 ∧
    (∀ x y, c1 !! k = Some x → c2 !! k = Some y → x ≠ y).
Proof.
  revert c2 i. induction c1 as [|c c1 IH]; intros [|d c2] i Hi Hl; cbn [diff_loop].
  1-3: (exists 0%nat; split; [lia|]; split; [lia|]; split; [lia|]; split; [done|]; by intros x y Hx Hy).
  cbn [length] in *. destruct (Z.eqb_spec c d) as [->|Hne].
  - rewrite u32_small by lia. destruct (IH c2 (i + 1)) as (k & -> & H1 & H2 & H3 & H4); [lia|lia|].
    exists (S k). cbn. split; [lia|]. split; [lia|]. split; [lia|]. split; [by rewrite H3|done].
  - exists 0%nat. split; [lia|]. split; [lia|]. split; [lia|]. split; [done|].
    intros x y [= <-] [= <-]. done.
Qed.

(** ** File commands *)

Section file_commands.
Context {F : Type} `{Vfs.VfsEnv F, !OutputLaws (Vfs.vfs F)}.
Context (uninit : cstr).
Implicit Types (s : Vfs.vfs F).
Import Mount Vfs VfsSpec.

(** An argument: not empty, without a space. *)
Definition word_ok (w : cstr) : Prop := w ≠ [] ∧ 32 ∉ w.

Lemma split_words w u : word_ok w → head u ≠ Some 32 → vfs_split_word (w ++ 32 :: u) = (w, u).
Proof. intros [_ Hw]. by apply split_word_app. Qed.

Lemma word_head w : word_ok w → head w ≠ Some 32.
Proof. intros [Hn Hw] Hh. destruct w as [|c w]; [done|]. injection Hh as ->. apply Hw. left. Qed.

Lemma span_length c t : (length (Vfs.span c t).1 ≤ length t)%nat.
Proof. induction t as [|x t IH]; cbn; [lia|]. case_match; [cbn; lia|]. destruct (Vfs.span c t). cbn in *. lia. Qed.

Lemma content_length nm s c : vfs_get_content nm s = Some c → (length c ≤ 200)%nat.
Proof.
  unfold vfs_get_content. repeat case_match; try done. intros [= <-]. unfold content_string, until_nul.
  etrans; [apply span_length|]. unfold content_bytes. rewrite length_fmap, length_seqZ. unfold VFS_CONTENT_LEN. lia.
Qed.

Lemma tail_chars content start s :
  0 ≤ start ≤ Z.of_nat (length content) →
  foldl (λ s i, putc (default 0 (content !! Z.to_nat i)) s) s (seqZ start (Z.of_nat (length content) - start)) =
  out (drop (Z.to_nat start) content) s.
Proof.
  intros Hs. rewrite foldl_putc. f_equal. apply list_eq. intros i. rewrite list_lookup_fmap, lookup_drop.
  destruct (decide (Z.of_nat i < Z.of_nat (length content) - start)).
  - rewrite lookup_seqZ_lt by lia. cbn. replace (Z.to_nat (start + Z.of_nat i)) with (Z.to_nat start + i)%nat by lia.
    destruct (content !! (Z.to_nat start + i)%nat) eqn:E; [done|]. apply lookup_ge_None in E. lia.
  - rewrite lookup_seqZ_ge by lia. symmetry. apply lookup_ge_None. lia.
Qed.

(** The commands that look into a file: [wc] counts its characters and words,
    [grep] prints the text exactly when the word occurs in it, [head] and [tail]
    print its first and its last characters. *)
Theorem file_queries nm c s :
  word_ok nm → vfs_get_content nm s = Some c →
  wc_run nm s = out (dec_text (Z.of_nat (length c)) ++ lit " chars, " ++
                     dec_text (Z.of_nat (length (word_starts 32 c))) ++ line " words") s ∧
  (∀ w, word_ok w → ∃ b : bool, grep_run (w ++ 32 :: nm) s = out (if b then c ++ [10] else line "grep: no match") s ∧
     (b = true ↔ ∃ pre post, c = pre ++ w ++ post)) ∧
  (∀ n, 0 ≤ n < 2 ^ 32 →
     head_run (nm ++ 32 :: dec_text n) s = out (take (Z.to_nat n) c ++ [10]) s ∧
     tail_run (nm ++ 32 :: dec_text n) s = out (drop (length c - Z.to_nat n) c ++ [10]) s).
Proof.
  intros Hnm Hc. pose proof (content_length nm s c Hc) as Hl. destruct Hnm as [Hne Hsp]. split_and!.
  - unfold wc_run. rewrite split_word_all by done. rewrite bool_decide_false by done. rewrite Hc.
    pose proof (wc_loop_spec c 32 0 0 ltac:(lia) ltac:(lia) ltac:(lia) ltac:(lia)) as Hw. rewrite Z.eqb_refl in Hw. cbn [negb] in Hw.
    rewrite Hw, !Z.add_0_l. assert (length (word_starts 32 c) ≤ length c)%nat.
    { generalize 32 as p. clear. induction c as [|x c IH]; intros p; [done|]. rewrite word_starts_cons. specialize (IH x).
      cbn [length]. destruct (_ && _); lia. }
    rewrite !print_uint_text by lia. rewrite !out_app. done.
  - intros w Hw. unfold grep_run. rewrite split_words by (done || by apply word_head). destruct Hw as [Hwn _].
    rewrite !bool_decide_false by done. cbn [orb]. rewrite Hc. exists (contains c w). split; [|apply contains_correct].
    destruct (contains c w); [by rewrite outs_concat|done].
  - intros n Hn.
    assert (head (dec_text n) ≠ Some 32) as Hh.
    { destruct (dec_text n) as [|d t] eqn:E; [done|]. pose proof (dec_text_head n d t ltac:(lia) E). intros [=]. lia. }
    assert (count_arg (dec_text n) = n) as Hcount.
    { unfold count_arg. pose proof (parse_uint_dec 32 n [] ltac:(lia) Hn eq_refl) as Hp. rewrite app_nil_r in Hp. rewrite Hp.
      rewrite bool_decide_false; [done|]. intros E. destruct (dec_text_digits n ltac:(lia)) as (Hs & _). by rewrite E in Hs. }
    unfold head_run, tail_run. rewrite split_words by done. rewrite bool_decide_false by done. rewrite Hc, Hcount. cbv zeta.
    split; [rewrite putcs_out; apply putc_app|].
    set (start := if n <? Z.of_nat (length c) then Z.of_nat (length c) - n else 0).
    assert (start = Z.of_nat (length c - Z.to_nat n)) as Es by (subst start; destruct (Z.ltb_spec n (Z.of_nat (length c))); lia).
    rewrite tail_chars by lia. rewrite Es, Nat2Z.id. apply putc_app.
Qed.

(** [diff] reports two files as identical exactly when they are, and otherwise the
    first position at which they differ. *)
Theorem diff_compares nm1 nm2 c1 c2 s :
  word_ok nm1 → word_ok nm2 → vfs_get_content nm1 s = Some c1 → vfs_get_content nm2 s = Some c2 →
  (c1 = c2 ∧ diff_run (nm1 ++ 32 :: nm2) s = out (line "files are identical") s) ∨
  (∃ k, take k c1 = take k c2 ∧ c1 !! k ≠ c2 !! k ∧
     diff_run (nm1 ++ 32 :: nm2) s = out (lit "files differ at position " ++ dec_text (Z.of_nat k) ++ [10]) s).
Proof.
  intros Hw1 Hw2 H1 H2. unfold cstr in *. pose proof (content_length _ _ _ H1) as Hl1. pose proof (content_length _ _ _ H2) as Hl2.
  unfold diff_run. rewrite split_words by (done || by apply word_head).
  rewrite !bool_decide_false by (apply Hw1 || apply Hw2). cbn [orb]. rewrite H1, H2. cbv zeta.
  destruct (diff_loop_spec c1 c2 0 ltac:(lia) ltac:(lia)) as (k & -> & K1 & K2 & Htk & Hd). rewrite Z.add_0_l.
  destruct (Z.eqb_spec (Z.of_nat k) (Z.of_nat (length c1))) as [E1|E1];
    destruct (Z.eqb_spec (Z.of_nat k) (Z.of_nat (length c2))) as [E2|E2]; cbn [andb].
  1: left; split; [rewrite <- (firstn_all c1), <- (firstn_all c2); by replace (length c1) with k by lia; replace (length c2) with k by lia|done].
  all: right; exists k; split; [done|]; split;
    [|rewrite print_uint_text by lia; rewrite !out_app; reflexivity].
  - rewrite (lookup_ge_None_2 c1) by lia. destruct (lookup_lt_is_Some_2 c2 k ltac:(lia)) as [y ->]. done.
  - rewrite (lookup_ge_None_2 c2) by lia. destruct (lookup_lt_is_Some_2 c1 k ltac:(lia)) as [y ->]. done.
  - destruct (lookup_lt_is_Some_2 c1 k ltac:(lia)) as [x Hx]. destruct (lookup_lt_is_Some_2 c2 k ltac:(lia)) as [y Hy].
    unfold cstr in *. rewrite Hx, Hy. intros [= E]. by apply (Hd x y).
Qed.

(** ** Writing and reading *)

(** Node [i] is the file [nm] of the current directory, with the text [t]. *)
Record file_is s (i : nat) (nm t : cstr) : Prop := {
  fi_live : live s i;
  fi_type : type (node s i) = VFS_NODE_FILE;
  fi_parent : parent (node s i) = g_cwd s;
  fi_name : name (node s i) = nm;
  fi_len : content_len (node s i) = Z.of_nat (length t);
  fi_small : (length t ≤ 199)%nat;
  fi_text : ∀ j c, t !! j = Some c → content (node s i) (Z.of_nat j) = c;
  fi_end : content (node s i) (Z.of_nat (length t)) = 0;
}.

Lemma until_nul_app t l : 0 ∉ t → until_nul (t ++ 0 :: l) = t.
Proof. intros Ht. unfold until_nul. by rewrite VfsPath.span_spec. Qed.

Lemma file_content s i nm t : file_is s i nm t → 0 ∉ t → content_string (node s i) = t.
Proof.
  intros Hf Ht. unfold content_string.
  assert (∃ l, content_bytes (node s i) = t ++ 0 :: l) as [l ->]; [|by apply until_nul_app].
  exists (content (node s i) <$> seqZ (Z.of_nat (length t) + 1) (199 - Z.of_nat (length t))).
  pose proof (fi_small _ _ _ _ Hf). unfold content_bytes, VFS_CONTENT_LEN.
  replace 200 with (Z.of_nat (length t) + (1 + (199 - Z.of_nat (length t)))) by lia.
  rewrite seqZ_app, fmap_app by lia. f_equal.
  - apply list_eq. intros j. rewrite list_lookup_fmap. destruct (decide (j < length t)%nat).
    + rewrite lookup_seqZ_lt by lia. cbn. destruct (t !! j) as [z|] eqn:E.
      * etrans; [|symmetry; exact E]. f_equal. exact (fi_text _ _ _ _ Hf j z E).
      * apply lookup_ge_None in E. lia.
    + rewrite lookup_seqZ_ge by lia. symmetry. apply lookup_ge_None. lia.
  - rewrite seqZ_app by lia. rewrite fmap_app. rewrite seqZ_cons, seqZ_nil by lia. cbn [app fmap list_fmap].
    rewrite Z.add_0_l. f_equal. apply (fi_end _ _ _ _ Hf).
Qed.

Lemma file_child s i nm t : fwf s → file_is s i nm t → find_child (g_cwd s) nm s = Some i.
Proof. intros W []. by apply find_child_unique; [apply W|..]. Qed.

Lemma set_content_file s i nm text :
  live s i → type (node s i) = VFS_NODE_FILE → parent (node s i) = g_cwd s → name (node s i) = nm →
  file_is (set_content i text s) i nm (take 199 text).
Proof.
  intros Hl Ht Hp Hn. unfold set_content. set (str := copy_truncate text VFS_CONTENT_LEN).
  assert (str = take 199 text) as <- by done.
  pose proof (trunc_content text) as Hlen. fold str in Hlen. clearbody str.
  set (g := λ n : vfs_node_t, _). pose proof (node_set i g s) as E. pose proof (one_node_set i g s) as O.
  split; try (rewrite E; subst g; cbn).
  - by apply (upd_live i s _ i O); [rewrite E|].
  - done.
  - exact Hp.
  - done.
  - done.
  - done.
  - intros j c Hj. pose proof (lookup_lt_Some _ _ _ Hj). unfold store_string.
    rewrite (proj2 (Z.leb_le 0 _)), (proj2 (Z.ltb_lt _ _)) by lia. cbn [andb]. by rewrite Nat2Z.id, Hj.
  - unfold store_string. rewrite Z.ltb_irrefl, andb_false_r, Z.eqb_refl. done.
Qed.

Lemma write_file nm text s s1 :
  fwf s → fat32_is_mounted (env s) = false → (length nm ≤ 23)%nat → vfs_write uninit nm (Some text) s = Some (0, s1) →
  fwf s1 ∧ env s1 = env s ∧ g_cwd s1 = g_cwd s ∧ g_cwd_path s1 = g_cwd_path s ∧ ∃ i, file_is s1 i nm (take 199 text).
Proof.
  intros W Hm Hn Hw. pose proof (write_fwf uninit nm (Some text) s 0 s1 W Hn Hw) as W1. split; [done|].
  unfold vfs_write in Hw. destruct (path_join _ _) as [cand|]; [|done].
  unfold fat_write_path in Hw. destruct (path_is_mount uninit cand s) as [mi mp].
  assert (∀ (o : option vfs_mount_t), match o with None => None | Some m =>
     if str_eqb (fstype m) (lit "fat32") && fat32_is_mounted (env s) && negb (has_bits (flags m) VFS_MOUNT_RDONLY)
     then fat_relative cand mp else None end = None) as Hnone.
  { intros [m|]; [|done]. by rewrite Hm, andb_false_r. }
  rewrite Hnone in Hw. destruct (Z.ltb_spec (g_cwd s) 0) as [|Hc]; [done|].
  destruct (open_node (g_cwd s) nm (λ _ s, s) s) as [[rc|i] s0] eqn:Ho.
  { injection Hw as -> ->. exfalso. revert Ho. unfold open_node. repeat case_match; done. }
  cbn in Hw. injection Hw as <-. unfold open_node in Ho.
  assert (live s0 i ∧ type (node s0 i) = VFS_NODE_FILE ∧ parent (node s0 i) = g_cwd s0 ∧ name (node s0 i) = nm ∧
    env s0 = env s ∧ g_cwd s0 = g_cwd s ∧ g_cwd_path s0 = g_cwd_path s) as (H1 & H2 & H3 & H4 & H5 & H6 & H7).
  { destruct (find_child (g_cwd s) nm s) as [j|] eqn:Hf.
    - destruct (is_file s j) eqn:Hfile; [|done]. injection Ho as <- <-.
      apply find_child_Some in Hf as (? & ? & ?). by apply is_file_true in Hfile.
    - destruct (find_free_node s) as [j|] eqn:Hfr; [|done]. injection Ho as <- <-.
      apply find_free_Some in Hfr as [Hj _]. pose proof (node_make j VFS_NODE_FILE (g_cwd s) nm s) as E.
      split_and!; rewrite ?E; cbn; try done; [|by apply copy_name].
      split; [lia|]. apply used_type. rewrite E. done. }
  split; [done|]. split; [done|]. split; [done|]. exists i. by apply set_content_file.
Qed.

Lemma append_file nm text t s i :
  fwf s → 0 ≤ g_cwd s → (length nm ≤ 23)%nat → file_is s i nm t →
  let '(rc, s1) := vfs_append nm text s in
  rc = 0 ∧ fwf s1 ∧ env s1 = env s ∧ g_cwd s1 = g_cwd s ∧ g_cwd_path s1 = g_cwd_path s ∧ file_is s1 i nm (take 199 (t ++ text)).
Proof.
  intros W Hc Hn Hf. destruct (vfs_append nm text s) as [rc s1] eqn:Ha.
  pose proof (append_fwf nm text s rc s1 W Hn Ha) as W1. revert Ha. unfold vfs_append.
  destruct (Z.ltb_spec (g_cwd s) 0); [lia|]. unfold open_node. rewrite (file_child s i nm t W Hf).
  assert (is_file s i = true) as -> by (apply is_file_true, Hf). cbn [negb].
  rewrite (fi_len _ _ _ _ Hf). intros [= <- <-]. do 5 (split; [done|]).
  pose proof (fi_small _ _ _ _ Hf) as Hs.
  replace (Z.to_nat (VFS_CONTENT_LEN - 1 - Z.of_nat (length t))) with (199 - length t)%nat by (unfold VFS_CONTENT_LEN; lia).
  rewrite take_app. rewrite (take_ge t) by lia. set (add := take (199 - length t) text) in *.
  assert (length t + length add ≤ 199)%nat as Hadd by (subst add; rewrite length_take; lia).
  set (g := λ n : vfs_node_t, _). pose proof (node_set i g s) as E. pose proof (one_node_set i g s) as O.
  split; try (rewrite E; subst g; cbn; rewrite ?length_app).
  - apply (upd_live i s _ i O); [by rewrite E|apply Hf].
  - apply Hf.
  - apply Hf.
  - apply Hf.
  - lia.
  - rewrite length_app. done.
  - intros j c Hj. pose proof (lookup_lt_Some _ _ _ Hj) as Hlt. rewrite length_app in Hlt.
    unfold cstr in *. destruct (decide (j < length t)%nat).
    + rewrite lookup_app_l in Hj by done. rewrite (proj2 (Z.leb_gt _ _)) by lia. cbn [andb].
      rewrite (proj2 (Z.eqb_neq _ _)) by lia. by apply (fi_text _ _ _ _ Hf).
    + rewrite lookup_app_r in Hj by lia. rewrite (proj2 (Z.leb_le _ _)), (proj2 (Z.ltb_lt _ _)) by lia. cbn [andb].
      replace (Z.to_nat (Z.of_nat j - Z.of_nat (length t))) with (j - length t)%nat by lia. by rewrite Hj.
  - rewrite Nat2Z.inj_add, Z.ltb_irrefl, andb_false_r, Z.eqb_refl. done.
Qed.

Lemma cat_file nm t s i :
  fwf s → fat32_is_mounted (env s) = false → (∃ cand, path_join (g_cwd_path s) nm = Some cand) → 0 ∉ t →
  file_is s i nm t → vfs_cat uninit nm s = Some (outs [t; [10]] s).
Proof.
  intros W Hm [cand Hp] Ht Hf. unfold vfs_cat.
  assert (cat_fat uninit nm s = Some None) as ->.
  { unfold cat_fat. destruct (_ || _); [|done]. rewrite Hp. f_equal. unfold fat_path.
    destruct (path_is_mount uninit cand s). by rewrite Hm, andb_false_r. }
  rewrite (file_child s i nm t W Hf).
  assert (is_file s i = true) as -> by (apply is_file_true, Hf).
  rewrite (file_content s i nm t Hf Ht). done.
Qed.

Lemma take_take_app {A} n (t u : list A) : take n (take n t ++ u) = take n (t ++ u).
Proof.
  rewrite !take_app, take_take, Nat.min_id. f_equal. f_equal. rewrite length_take. lia.
Qed.

Definition text_ok (t : cstr) : Prop := head t ≠ Some 32 ∧ 0 ∉ t.

Lemma take_no_nul n (t : cstr) : 0 ∉ t → 0 ∉ take n t.
Proof. intros Ht Hin. apply Ht. rewrite <- (take_drop n t). apply elem_of_app. by left. Qed.

Lemma appends_file nm more t s i :
  word_ok nm → fwf s → 0 ≤ g_cwd s → (length nm ≤ 23)%nat → file_is s i nm t → Forall text_ok more →
  ∃ s2, foldl (λ r t, r ≫= append_run (nm ++ 32 :: t)) (Some s) more = Some s2 ∧
    fwf s2 ∧ env s2 = env s ∧ g_cwd_path s2 = g_cwd_path s ∧ file_is s2 i nm (take 199 (t ++ concat more)).
Proof.
  intros Hnm W Hc Hn Hf Hmore. revert t s W Hc Hf. induction Hmore as [|u more [Hu _] Hmore IH]; intros t s W Hc Hf.
  { exists s. cbn. rewrite app_nil_r, take_ge by apply (fi_small _ _ _ _ Hf). done. }
  pose proof (append_file nm u t s i W Hc Hn Hf) as Ha. destruct (vfs_append nm u s) as [rc s1] eqn:E.
  destruct Ha as (-> & W1 & E1 & C1 & P1 & Hf1). rewrite <- C1 in Hc.
  destruct (IH _ s1 W1 Hc Hf1) as (s2 & H2 & W2 & E2 & P2 & Hf2).
  exists s2. cbn [foldl concat mbind option_bind]. split.
  - unfold append_run at 2. rewrite split_words by done. destruct Hnm as [Hne _].
    rewrite bool_decide_false by done. rewrite E. exact H2.
  - split; [done|]. split; [congruence|]. split; [congruence|].
    by rewrite take_take_app, <- app_assoc in Hf2.
Qed.

(** C36: What the file commands write is what they print: on a tree without a mounted
    FAT32 disk, for a name of at most 23 bytes without blanks (longer ones are cut
    when they are stored and not found again), a [write] that succeeds, any number
    of [append]s and a [cat] of the same name print the text and what was appended
    to it, up to the 199 bytes of a file. *)
Theorem write_append_cat nm text more s s1 :
  fwf s → fat32_is_mounted (env s) = false → 0 ≤ g_cwd s → word_ok nm → (length nm ≤ 23)%nat →
  text_ok text → Forall text_ok more →
  vfs_write uninit nm (Some text) s = Some (0, s1) →
  write_run uninit (nm ++ 32 :: text) s = Some s1 ∧
  ∃ s2, foldl (λ r t, r ≫= append_run (nm ++ 32 :: t)) (Some s1) more = Some s2 ∧
    cat_run uninit nm s2 = Some (outs [take 199 (text ++ concat more); [10]] s2).
Proof.
  intros W Hm Hc Hnm Hn [Hh Ht] Hmore Hw. split.
  { unfold write_run. rewrite split_words by done. destruct Hnm as [Hne _].
    rewrite bool_decide_false by done. by rewrite Hw. }
  destruct (write_file nm text s s1 W Hm Hn Hw) as (W1 & E1 & C1 & P1 & i & Hf).
  assert (∃ cand, path_join (g_cwd_path s) nm = Some cand) as Hcand.
  { revert Hw. unfold vfs_write. destruct (path_join _ _) as [cand|]; [by exists cand|done]. }
  destruct (appends_file nm more _ s1 i Hnm W1 ltac:(lia) Hn Hf Hmore) as (s2 & H2 & W2 & E2 & P2 & Hf2).
  exists s2. split; [done|]. unfold cat_run. destruct Hnm as [Hne Hsp]. rewrite split_word_all by done.
  rewrite bool_decide_false by done. rewrite take_take_app in Hf2.
  apply (cat_file nm _ s2 i W2); [congruence|by rewrite P2, P1| |done].
  apply take_no_nul. rewrite elem_of_app. intros [|Hin]; [done|].
  apply list_elem_of_In, in_concat in Hin as (u & Hu & Hin). rewrite Forall_forall in Hmore.
  apply list_elem_of_In in Hu, Hin. by destruct (Hmore u Hu).
Qed.
End file_commands.

(** ** The laws for a file system *)

Lemma vfs_laws {F} `{Vfs.VfsEnv F} :
  (∀ e : F, Vfs.console_print [] e = e) →
  (∀ t u (e : F), Vfs.console_print u (Vfs.console_print t e) = Vfs.console_print (t ++ u) e) →
  OutputLaws (Vfs.vfs F).
Proof.
  intros Hnil Happ. split.
  - intros s. unfold out, vfs_output, Vfs.print. rewrite Hnil. by destruct s.
  - intros t u s. unfold out, vfs_output, Vfs.print. cbn. by rewrite Happ.
Qed.

(** ** A machine without a disk *)

(** The environment is the text printed so far. *)
#[export] Instance log_env : Vfs.VfsEnv cstr := {
  Vfs.fat32_is_mounted _ := false;
  Vfs.fat32_is_directory _ _ := false;
  Vfs.fat32_mkdir _ e := (false, e);
  Vfs.fat32_read_file _ _ _ := None;
  Vfs.fat32_write_file _ _ e := (false, e);
  Vfs.fat32_list _ e := e;
  Vfs.console_print t e := e ++ t;
}.

#[export] Instance log_laws : OutputLaws (Vfs.vfs cstr).
Proof. apply vfs_laws; cbn; [apply app_nil_r|intros t u e; symmetry; apply app_assoc]. Qed.

Definition log_fs : Vfs.vfs cstr :=
  Vfs.vfs_init (Vfs.mkVfs (λ _, Vfs.mkNode Vfs.VFS_NODE_FREE [] 0 (λ _, 0) 0) 0 []
    (Mount.vfs_mount_init (λ _, Mount.mkMount false [] [] [] 0)) (λ _, 0) []).

Definition after {A B} (r : option (A * B)) (d : B) : B := match r with Some (_, b) => b | None => d end.

Definition log_fs1 : Vfs.vfs cstr := after (Vfs.vfs_write [] (lit "a.txt") (Some (lit "one two")) log_fs) log_fs.

Lemma write_append_cat_witness :
  ∃ s2, foldl (λ r t, r ≫= append_run (lit "a.txt" ++ 32 :: t)) (Some log_fs1) [lit ", three"] = Some s2 ∧
    cat_run [] (lit "a.txt") s2 = Some (outs [lit "one two, three"; [10]] s2).
Proof.
  refine (proj2 (write_append_cat [] (lit "a.txt") (lit "one two") [lit ", three"] log_fs log_fs1 _ _ _ _ _ _ _ _)).
  - apply VfsSpec.vfs_init_fwf.
  - reflexivity.
  - vm_compute. discriminate.
  - split; [discriminate|]. apply (bool_decide_unpack _). vm_compute. exact I.
  - cbn. lia.
  - split; [discriminate|]. apply (bool_decide_unpack _). vm_compute. exact I.
  - constructor; [|constructor]. split; [discriminate|]. apply (bool_decide_unpack _). vm_compute. exact I.
  - reflexivity.
Defined.

Lemma file_queries_witness :
  ∃ b : bool, grep_run (lit "two" ++ 32 :: lit "a.txt") log_fs1 =
    out (if b then lit "one two" ++ [10] else line "grep: no match") log_fs1 ∧
    (b = true ↔ ∃ pre post, lit "one two" = pre ++ lit "two" ++ post).
Proof.
  refine (proj1 (proj2 (file_queries (lit "a.txt") (lit "one two") log_fs1 _ _)) (lit "two") _).
  - split; [discriminate|]. apply (bool_decide_unpack _). vm_compute. exact I.
  - vm_compute. reflexivity.
  - split; [discriminate|]. apply (bool_decide_unpack _). vm_compute. exact I.
Defined.

Lemma calc_computes_witness :
  calc_line 1 1 1 (-7) 47 2 [] = lit " -7 / 2" ∧
  calc_run (calc_line 1 1 1 (-7) 47 2 []) ([] : cstr) = Some (lit "-3" ++ [10]).
Proof.
  split; [vm_compute; reflexivity|].
  refine (eq_trans (calc_computes 1 1 1 (-7) 47 2 [] ([] : cstr) _ _ _ _ _) _).
  - lia.
  - lia.
  - apply (bool_decide_unpack _). vm_compute. exact I.
  - reflexivity.
  - intros r [= <-]. vm_compute. discriminate.
  - vm_compute. reflexivity.
Defined.

Lemma hex_dec_roundtrip_witness :
  ∃ t, hex_run (dec_text 48879) [] = t ++ [10] ∧ dec_run t ([] : cstr) = out (dec_text 48879 ++ [10]) [].
Proof. apply (hex_dec_roundtrip 48879 ([] : cstr)). lia. Defined.

Lemma sum_computes_witness : sum_run (join_ints [40; -1; 3]) ([] : cstr) = Some (lit "42" ++ [10]).
Proof.
  refine (eq_trans (sum_computes [40; -1; 3] ([] : cstr) _ _) _); [discriminate| |vm_compute; reflexivity].
  repeat constructor; lia.
Defined.

Lemma fib_computes_witness : fib_run (dec_text 20) ([] : cstr) = lit "6765" ++ [10].
Proof. refine (eq_trans (fib_computes 20 ([] : cstr) _) _); [lia|vm_compute; reflexivity]. Defined.

Lemma isprime_decides_witness :
  ∃ b : bool, isprime_run 10 (dec_text 97) ([] : cstr) = Some (out (line (if b then "prime" else "not prime")) []) ∧ (b = true ↔ prime 97).
Proof. apply (isprime_decides 10 97 ([] : cstr)); [lia|]. vm_compute. discriminate. Defined.

Lemma reverse_roundtrip_witness :
  ∃ t, reverse_run (lit "nexus") [] = t ++ [10] ∧ reverse_run t ([] : cstr) = out (lit "nexus" ++ [10]) [].
Proof. apply (reverse_roundtrip (lit "nexus") ([] : cstr)). cbn. lia. Defined.

End CommandSpec.
