(* ===== verification/Shell.v ===== *)
(** * The shell

    [src/shell/core/command_registry.c] and [src/shell/core/shell.c]: the table of
    commands, the line editor with its history, the queue of entered lines and
    their execution with pipes and redirections.  The shell runs over the console
    and the file system; the desktop, the timer, the disk and the commands that
    report on devices are the class [ShellDev].  [shell_input_env] connects the
    keyboard driver. *)

From Stdlib Require Import Lia ZArith Bool.
From stdpp Require Import base list numbers strings.
From S2P Require Import Prelude Mount Vfs Console Input Parser Commands.

Local Open Scope Z_scope.

(** ** The command table *)

Module Registry.

Inductive command_category_t :=
  | CMD_SYSTEM | CMD_HARDWARE | CMD_STORAGE | CMD_FILESYSTEM | CMD_TEXT | CMD_MATH | CMD_SHELL | CMD_POWER.
#[export] Instance category_eq_dec : EqDecision command_category_t.
Proof. solve_decision. Defined.

(** The functions the table points to. *)
Inductive command_fn :=
  | command_neofetch | command_sysinfo | command_meminfo | command_about | command_whoami
  | command_version | command_uname | command_date | command_uptime | command_hardware | command_lspci
  | command_colors | command_modules | command_services | command_fontinfo | command_ps | command_free
  | command_hostname | command_arch | command_gpuinfo | command_inputinfo | command_diskls
  | command_diskcat | command_echo | command_reverse | command_len | command_upper | command_lower
  | command_title | command_calc | command_sum | command_hex | command_dec | command_isprime
  | command_fib | command_ls | command_pwd | command_cd | command_mkdir | command_rmdir | command_touch
  | command_rm | command_cp | command_mv | command_cat | command_less | command_head | command_tail
  | command_grep | command_diff | command_find | command_write | command_append | command_wc
  | command_df | command_du | command_mount | command_umount | command_mounts | command_history
  | command_clear | command_help | command_man | command_desktop_run | command_elf_run | command_beep
  | command_reboot | command_shutdown | command_halt.

Record command_entry_t := mkEntry {
  name : cstr;
  alias : option cstr;
  category : command_category_t;
  usage : cstr;
  description : cstr;
  run : command_fn;
}.

Definition ENTRY (n : string) (a : option string) (c : command_category_t) (u d : string) (fn : command_fn) : command_entry_t :=
  mkEntry (lit n) (lit <$> a) c (lit u) (lit d) fn.

Definition g_commands : list command_entry_t := [
  ENTRY "neofetch" None CMD_SYSTEM "neofetch" "detailed system summary" command_neofetch;
  ENTRY "sysinfo" None CMD_SYSTEM "sysinfo" "show shell and system status" command_sysinfo;
  ENTRY "meminfo" None CMD_SYSTEM "meminfo" "show memory and paging information" command_meminfo;
  ENTRY "about" None CMD_SYSTEM "about" "show NexusOS information" command_about;
  ENTRY "whoami" None CMD_SYSTEM "whoami" "show current user" command_whoami;
  ENTRY "version" None CMD_SYSTEM "version" "show NexusOS version" command_version;
  ENTRY "uname" None CMD_SYSTEM "uname" "show kernel and architecture" command_uname;
  ENTRY "date" None CMD_SYSTEM "date" "show CMOS RTC date and time" command_date;
  ENTRY "uptime" None CMD_SYSTEM "uptime" "show time since boot" command_uptime;
  ENTRY "hardware" None CMD_SYSTEM "hardware" "detect platform hardware" command_hardware;
  ENTRY "lspci" None CMD_SYSTEM "lspci" "list PCI devices" command_lspci;
  ENTRY "colors" None CMD_SYSTEM "colors" "show console color test" command_colors;
  ENTRY "modules" None CMD_SYSTEM "modules" "list driver and service modules" command_modules;
  ENTRY "services" None CMD_SYSTEM "services" "list core services and their state" command_services;
  ENTRY "fontinfo" None CMD_SYSTEM "fontinfo" "show the resident system font" command_fontinfo;
  ENTRY "ps" None CMD_SYSTEM "ps" "list process state and address spaces" command_ps;
  ENTRY "free" None CMD_SYSTEM "free" "show physical memory usage" command_free;
  ENTRY "hostname" None CMD_SYSTEM "hostname" "show motherboard-derived hostname" command_hostname;
  ENTRY "arch" None CMD_SYSTEM "arch" "show kernel architecture" command_arch;
  ENTRY "gpuinfo" None CMD_HARDWARE "gpuinfo" "show detected GPU and PCI details" command_gpuinfo;
  ENTRY "inputinfo" None CMD_HARDWARE "inputinfo" "show keyboard and mouse state" command_inputinfo;
  ENTRY "diskls" None CMD_STORAGE "diskls [path]" "list a directory on FAT32 disk" command_diskls;
  ENTRY "diskcat" None CMD_STORAGE "diskcat <path>" "print a file from FAT32 disk" command_diskcat;
  ENTRY "echo" None CMD_TEXT "echo <text>" "print text" command_echo;
  ENTRY "reverse" None CMD_TEXT "reverse <text>" "reverse text" command_reverse;
  ENTRY "len" None CMD_TEXT "len <text>" "print text length" command_len;
  ENTRY "upper" None CMD_TEXT "upper <text>" "convert text to uppercase" command_upper;
  ENTRY "lower" None CMD_TEXT "lower <text>" "convert text to lowercase" command_lower;
  ENTRY "title" None CMD_TEXT "title <text>" "convert text to title case" command_title;
  ENTRY "calc" None CMD_MATH "calc <a> <op> <b>" "integer calculator: + - * /" command_calc;
  ENTRY "sum" None CMD_MATH "sum <n1> <n2> ..." "sum integers" command_sum;
  ENTRY "hex" None CMD_MATH "hex <n>" "decimal to hexadecimal" command_hex;
  ENTRY "dec" None CMD_MATH "dec <n>" "hexadecimal to decimal" command_dec;
  ENTRY "isprime" None CMD_MATH "isprime <n>" "test whether a number is prime" command_isprime;
  ENTRY "fib" None CMD_MATH "fib <n>" "calculate the n-th Fibonacci number" command_fib;
  ENTRY "ls" (Some "dir") CMD_FILESYSTEM "ls" "list current directory" command_ls;
  ENTRY "pwd" None CMD_FILESYSTEM "pwd" "print current directory" command_pwd;
  ENTRY "cd" None CMD_FILESYSTEM "cd <dir>" "change directory" command_cd;
  ENTRY "mkdir" None CMD_FILESYSTEM "mkdir <name>" "create directory" command_mkdir;
  ENTRY "rmdir" None CMD_FILESYSTEM "rmdir <name>" "remove empty directory" command_rmdir;
  ENTRY "touch" None CMD_FILESYSTEM "touch <name>" "create empty file" command_touch;
  ENTRY "rm" None CMD_FILESYSTEM "rm <name>" "remove file or empty directory" command_rm;
  ENTRY "cp" None CMD_FILESYSTEM "cp <src> <dst>" "copy a file" command_cp;
  ENTRY "mv" None CMD_FILESYSTEM "mv <src> <dst>" "rename or move a file/directory" command_mv;
  ENTRY "cat" None CMD_FILESYSTEM "cat <file>" "print file contents" command_cat;
  ENTRY "less" None CMD_FILESYSTEM "less <file>" "view a file" command_less;
  ENTRY "head" None CMD_FILESYSTEM "head <file> [n]" "show first n characters" command_head;
  ENTRY "tail" None CMD_FILESYSTEM "tail <file> [n]" "show last n characters" command_tail;
  ENTRY "grep" None CMD_FILESYSTEM "grep <word> <file>" "search for text in a file" command_grep;
  ENTRY "diff" None CMD_FILESYSTEM "diff <file1> <file2>" "compare two files" command_diff;
  ENTRY "find" None CMD_FILESYSTEM "find <name>" "search the filesystem" command_find;
  ENTRY "write" None CMD_FILESYSTEM "write <file> <text>" "overwrite a file" command_write;
  ENTRY "append" None CMD_FILESYSTEM "append <file> <text>" "append text to a file" command_append;
  ENTRY "wc" None CMD_FILESYSTEM "wc <file>" "count characters and words" command_wc;
  ENTRY "df" None CMD_FILESYSTEM "df" "show filesystem usage" command_df;
  ENTRY "du" None CMD_FILESYSTEM "du" "show current directory size" command_du;
  ENTRY "mount" None CMD_FILESYSTEM "mount [source target fstype]" "list or create a VFS mount" command_mount;
  ENTRY "umount" None CMD_FILESYSTEM "umount <target>" "remove a VFS mount" command_umount;
  ENTRY "mounts" None CMD_FILESYSTEM "mounts" "list VFS mount points" command_mounts;
  ENTRY "history" None CMD_SHELL "history" "show command history" command_history;
  ENTRY "clear" (Some "cls") CMD_SHELL "clear" "clear the console" command_clear;
  ENTRY "help" (Some "?") CMD_SHELL "help [command|category]" "show command help" command_help;
  ENTRY "man" None CMD_SHELL "man <command>" "show detailed command manual" command_man;
  ENTRY "desktop-run" None CMD_SHELL "desktop-run" "start NexusOS Desktop" command_desktop_run;
  ENTRY "elf-run" None CMD_SHELL "elf-run <path>" "load and enter a user ELF64 executable" command_elf_run;
  ENTRY "beep" None CMD_SHELL "beep" "beep the PC speaker" command_beep;
  ENTRY "reboot" None CMD_POWER "reboot" "restart the machine" command_reboot;
  ENTRY "shutdown" None CMD_POWER "shutdown" "power off the machine" command_shutdown;
  ENTRY "halt" None CMD_POWER "halt" "stop the CPU" command_halt
].

Definition category_name (category : command_category_t) : cstr :=
  match category with
  | CMD_SYSTEM => lit "system"
  | CMD_HARDWARE => lit "hardware"
  | CMD_STORAGE => lit "storage"
  | CMD_FILESYSTEM => lit "filesystem"
  | CMD_TEXT => lit "text"
  | CMD_MATH => lit "math"
  | CMD_SHELL => lit "shell"
  | CMD_POWER => lit "power"
  end.

Definition categories : list command_category_t :=
  [CMD_SYSTEM; CMD_HARDWARE; CMD_STORAGE; CMD_FILESYSTEM; CMD_TEXT; CMD_MATH; CMD_SHELL; CMD_POWER].

Definition is_category (nm : cstr) : option command_category_t :=
  List.find (λ c, str_eqb nm (category_name c)) categories.

Definition find_command (nm : cstr) : option command_entry_t :=
  List.find (λ e, str_eqb nm (name e) || match alias e with Some a => str_eqb nm a | None => false end) g_commands.

(** ** Help *)

Section help.
Import Console.
Definition prints (l : list cstr) (s : console) : console := foldl (λ s t, console_print t s) s l.

Definition shell_command_manual (nm : cstr) (s : console) : console :=
  match find_command nm with
  | None => prints [lit "No manual entry for '"; nm; Commands.line "'. Try 'help' or 'help <category>'."] s
  | Some cmd =>
    let s := console_set_color COLOR_GREEN COLOR_BLACK (console_print [10] s) in
    let s := console_set_color COLOR_WHITE COLOR_BLACK (console_print (usage cmd) s) in
    let s := prints [[10]; lit "  "; description cmd; [10]; lit "  category: "; category_name (category cmd)] s in
    let s := match alias cmd with Some a => prints [10 :: lit "  alias:    "; a] s | None => s end in
    console_print [10; 10] s
  end.

Definition print_entry (with_alias : bool) (s : console) (e : command_entry_t) : console :=
  let s := prints [lit "  "; usage e; lit " - "; description e] s in
  let s := match alias e with Some a => if with_alias then prints [lit " ["; a; lit "]"] s else s | None => s end in
  console_print [10] s.

(** The entries of one category. *)
Definition print_category (with_alias : bool) (c : command_category_t) (s : console) : console :=
  foldl (print_entry with_alias) s (filter (λ e, category e = c) g_commands).

Definition shell_command_help (args : cstr) (s : console) : console :=
  if negb (bool_decide (args = [])) then
    match find_command args, is_category args with
    | Some _, _ => shell_command_manual args s
    | None, Some c =>
      let s := console_set_color COLOR_GREEN COLOR_BLACK (console_print [10] s) in
      let s := prints [category_name c; Commands.line " commands:"] s in
      let s := print_category false c (console_set_color COLOR_WHITE COLOR_BLACK s) in
      console_print [10] s
    | None, None =>
      prints [lit "help: unknown command or category '"; args; Commands.line "'";
              Commands.line "Try: help, help system, help filesystem, help <command>"] s
    end
  else
  let s := console_print (10 :: Commands.line "NexusOS command center") s in
  let s := console_print (Commands.line "Usage: help [command|category]" ++ [10]) s in
  let s := foldl (λ s c,
    let s := console_set_color COLOR_GREEN COLOR_BLACK s in
    let s := prints [lit "[ "; category_name c; Commands.line " ]"] s in
    let s := console_set_color COLOR_WHITE COLOR_BLACK s in
    console_print [10] (print_category true c s)) s categories in
  console_print (Commands.line "Tip: use 'man <command>' or 'help <command>' for details.") s.

Definition man_run (args : cstr) (s : console) : console :=
  if bool_decide (args = []) then console_print (Commands.line "usage: man <command>") s else shell_command_manual args s.
End help.
End Registry.

(** ** The machine the shell runs on *)

(** The desktop, the timer, the baseboard's name, the disk, and the commands
    whose sources are outside this library, by the name of their function. *)
Class ShellDev (D : Type) := {
  sd_gui_is_active : D → bool;
  sd_baseboard_manufacturer : D → cstr;
  sd_ticks : D → Z;
  sd_fat32_is_mounted : D → bool;
  sd_fat32_is_directory : cstr → D → bool;
  sd_fat32_mkdir : cstr → D → bool * D;
  sd_fat32_read_file : cstr → Z → D → option (list Z);
  sd_fat32_write_file : cstr → list Z → D → bool * D;
  sd_fat32_list : cstr → Console.console → D → Console.console * D;
  sd_command : Registry.command_fn → cstr → Console.console → D → Console.console * D;
}.

Record machine {D : Type} := mkMachine { con : Console.console; dev : D }.
Arguments machine : clear implicits.
Arguments mkMachine {D}.
#[export] Instance eta_machine {D} : Eta (machine D) := λ r, mkMachine (con r) (dev r).

(** The file system prints on the console. *)
#[export] Instance machine_vfs_env {D} `{ShellDev D} : Vfs.VfsEnv (machine D) := {
  Vfs.fat32_is_mounted m := sd_fat32_is_mounted (dev m);
  Vfs.fat32_is_directory p m := sd_fat32_is_directory p (dev m);
  Vfs.fat32_mkdir p m := let '(ok, d) := sd_fat32_mkdir p (dev m) in (ok, mkMachine (con m) d);
  Vfs.fat32_read_file p n m := sd_fat32_read_file p n (dev m);
  Vfs.fat32_write_file p b m := let '(ok, d) := sd_fat32_write_file p b (dev m) in (ok, mkMachine (con m) d);
  Vfs.fat32_list p m := let '(c, d) := sd_fat32_list p (con m) (dev m) in mkMachine c d;
  Vfs.console_print t m := mkMachine (Console.console_print t (con m)) (dev m);
}.

Module Shell.
Import Console(COLOR_CYAN, COLOR_WHITE, COLOR_BLACK).
Import Parser.

Definition SHELL_BUF_SIZE : Z := 256.
Definition HISTORY_SIZE : Z := 8.
Definition SHELL_COMMAND_QUEUE_SIZE : Z := 4.
Definition SHELL_IO_BUF_SIZE : Z := 2048.

(** [g_buf] holds bytes, of which the first [g_len] are the line; the other
    buffers hold strings. *)
Record shell {D : Type} := mkShell {
  g_buf : Z → Z;
  g_len : Z;
  g_history : Z → cstr;
  g_history_count : Z;
  g_history_next : Z;
  g_pending_commands : Z → cstr;
  g_pending_head : Z;
  g_pending_tail : Z;
  g_pending_count : Z;
  g_history_pos : Z;
  g_draft_buf : cstr;
  fs : Vfs.vfs (machine D);
}.
Arguments shell : clear implicits.
Arguments mkShell {D}.
#[export] Instance eta_shell {D} : Eta (shell D) := λ r,
  mkShell (g_buf r) (g_len r) (g_history r) (g_history_count r) (g_history_next r) (g_pending_commands r)
    (g_pending_head r) (g_pending_tail r) (g_pending_count r) (g_history_pos r) (g_draft_buf r) (fs r).

#[local] Existing Instance Vfs.eta_vfs.

Section shell.
Context {D : Type} `{ShellDev D}.
(** The rounds allowed to a loop of a command, and the bytes of an uninitialised
    buffer of the file system. *)
Context (fuel : nat) (uninit : cstr).
Implicit Types (sh : shell D) (cmd args : cstr).

Definition console_of sh : Console.console := con (Vfs.env (fs sh)).
Definition dev_of sh : D := dev (Vfs.env (fs sh)).

Definition on_fs (f : Vfs.vfs (machine D) → Vfs.vfs (machine D)) sh : shell D := sh <| fs ::= f |>.
Definition on_machine (f : machine D → machine D) : shell D → shell D := on_fs (λ v, v <| Vfs.env ::= f |>).
Definition on_con (f : Console.console → Console.console) : shell D → shell D := on_machine (λ m, m <| con ::= f |>).

Definition print (t : cstr) : shell D → shell D := on_con (Console.console_print t).
Definition putchar (c : Z) : shell D → shell D := on_con (Console.console_putchar c).

(** The string that starts a buffer. *)
Definition buf_text (b : Z → Z) : cstr := text_at (Z.to_nat SHELL_BUF_SIZE) b 0.

Definition print_prompt sh : shell D :=
  let user := lit "root" in
  let host := sd_baseboard_manufacturer (dev_of sh) in
  let sh := on_con (Console.console_set_color COLOR_CYAN COLOR_BLACK) sh in
  let sh := print host (print (lit "@") (print user sh)) in
  print (lit "> ") (on_con (Console.console_set_color COLOR_WHITE COLOR_BLACK) sh).

(** ** History *)

Definition history_add cmd sh : shell D :=
  if bool_decide (cmd = []) then sh else
  let sh := sh <| g_history := upd (g_history sh) (g_history_next sh) (str_trunc cmd SHELL_BUF_SIZE) |> in
  let sh := sh <| g_history_next := (g_history_next sh + 1) mod HISTORY_SIZE |> in
  if g_history_count sh <? HISTORY_SIZE then sh <| g_history_count := g_history_count sh + 1 |> else sh.

Definition shell_history_print sh : shell D :=
  if g_history_count sh =? 0 then print (Commands.line "(no history)") sh else
  let start := (g_history_next sh - g_history_count sh + HISTORY_SIZE) mod HISTORY_SIZE in
  foldl (λ sh i, print [10] (print (g_history sh ((start + i) mod HISTORY_SIZE)) sh)) sh (seqZ 0 (g_history_count sh)).

(** [None] is the null pointer. *)
Definition history_get (idx_from_recent : Z) sh : option cstr :=
  if (idx_from_recent <? 0) || (g_history_count sh <=? idx_from_recent) then None else
  Some (g_history sh ((g_history_next sh - 1 - idx_from_recent + 2 * HISTORY_SIZE) mod HISTORY_SIZE)).

(** The bytes from index [i] on, echoed. *)
Fixpoint type_loop (t : cstr) (i : Z) sh : shell D :=
  match t with
  | [] => sh
  | c :: t => type_loop t (i + 1) (putchar c (sh <| g_buf := upd (g_buf sh) i c |>))
  end.

Definition redraw_line (new_cmd : cstr) sh : shell D :=
  let sh := on_con Console.console_cursor_hide sh in
  let sh := Nat.iter (Z.to_nat (g_len sh)) (λ sh, putchar 8 (sh <| g_len := g_len sh - 1 |>)) sh in
  let t := str_trunc new_cmd SHELL_BUF_SIZE in
  let sh := type_loop t 0 sh in
  let i := Z.of_nat (length t) in
  let sh := sh <| g_buf := upd (g_buf sh) i 0 |> <| g_len := i |> in
  on_con Console.console_cursor_show sh.

(** [None]: a null pointer is read. *)
Definition shell_history_prev sh : option (shell D) :=
  if g_history_count sh <=? g_history_pos sh + 1 then Some sh else
  let sh := if g_history_pos sh =? -1 then sh <| g_draft_buf := text_at (Z.to_nat (g_len sh)) (g_buf sh) 0 |> else sh in
  let sh := sh <| g_history_pos := g_history_pos sh + 1 |> in
  cmd ← history_get (g_history_pos sh) sh;
  Some (redraw_line cmd sh).

Definition shell_history_next sh : option (shell D) :=
  if g_history_pos sh =? -1 then Some sh else
  let sh := sh <| g_history_pos := g_history_pos sh - 1 |> in
  if g_history_pos sh =? -1 then Some (redraw_line (g_draft_buf sh) sh) else
  cmd ← history_get (g_history_pos sh) sh;
  Some (redraw_line cmd sh).

(** ** The queue of entered lines *)

Definition queue_command cmd sh : bool * shell D :=
  if bool_decide (cmd = []) || (SHELL_COMMAND_QUEUE_SIZE <=? g_pending_count sh) then (false, sh) else
  let sh := sh <| g_pending_commands := upd (g_pending_commands sh) (g_pending_head sh) (str_trunc cmd SHELL_BUF_SIZE) |> in
  let sh := sh <| g_pending_head := u32 (g_pending_head sh + 1) mod SHELL_COMMAND_QUEUE_SIZE |> in
  (true, sh <| g_pending_count := u32 (g_pending_count sh + 1) |>).

Definition dequeue_command sh : option (cstr * shell D) :=
  if g_pending_count sh =? 0 then None else
  let out := str_trunc (g_pending_commands sh (g_pending_tail sh)) SHELL_BUF_SIZE in
  let sh := sh <| g_pending_commands := upd (g_pending_commands sh) (g_pending_tail sh) [] |> in
  let sh := sh <| g_pending_tail := u32 (g_pending_tail sh + 1) mod SHELL_COMMAND_QUEUE_SIZE |> in
  Some (out, sh <| g_pending_count := u32 (g_pending_count sh - 1) |>).

(** ** Commands *)

Definition command_clear : shell D → shell D := on_con Console.console_clear.
Definition command_help args : shell D → shell D := on_con (Registry.shell_command_help args).

(** A command that leaves the desktop, the disk and the devices to the machine. *)
Definition command_device (fn : Registry.command_fn) args : shell D → shell D :=
  on_machine (λ m, let '(c, d) := sd_command fn args (con m) (dev m) in mkMachine c d).

Definition on_fs_opt (f : Vfs.vfs (machine D) → option (Vfs.vfs (machine D))) sh : option (shell D) :=
  v ← f (fs sh); Some (sh <| fs := v |>).

Definition command_run (fn : Registry.command_fn) args sh : option (shell D) :=
  let pure (f : Vfs.vfs (machine D) → Vfs.vfs (machine D)) := Some (on_fs f sh) in
  match fn with
  | Registry.command_echo => pure (Commands.echo_run args)
  | Registry.command_reverse => pure (Commands.reverse_run args)
  | Registry.command_len => pure (Commands.len_run args)
  | Registry.command_upper => pure (Commands.upper_run args)
  | Registry.command_lower => pure (Commands.lower_run args)
  | Registry.command_title => pure (Commands.title_run args)
  | Registry.command_man => Some (on_con (Registry.man_run args) sh)
  | Registry.command_calc => on_fs_opt (Commands.calc_run args) sh
  | Registry.command_sum => on_fs_opt (Commands.sum_run args) sh
  | Registry.command_hex => pure (Commands.hex_run args)
  | Registry.command_dec => pure (Commands.dec_run args)
  | Registry.command_isprime => on_fs_opt (Commands.isprime_run fuel args) sh
  | Registry.command_fib => pure (Commands.fib_run args)
  | Registry.command_ls => pure (Commands.ls_run uninit)
  | Registry.command_pwd => pure Commands.pwd_run
  | Registry.command_cd => on_fs_opt (Commands.cd_run uninit args) sh
  | Registry.command_mkdir => on_fs_opt (Commands.mkdir_run uninit args) sh
  | Registry.command_rmdir => on_fs_opt (Commands.rmdir_run args) sh
  | Registry.command_touch => on_fs_opt (Commands.touch_run uninit args) sh
  | Registry.command_rm => on_fs_opt (Commands.rm_run args) sh
  | Registry.command_cp => on_fs_opt (Commands.cp_run args) sh
  | Registry.command_mv => on_fs_opt (Commands.mv_run args) sh
  | Registry.command_cat => on_fs_opt (Commands.cat_run uninit args) sh
  | Registry.command_less => on_fs_opt (Commands.less_run uninit args) sh
  | Registry.command_head => pure (Commands.head_run args)
  | Registry.command_tail => pure (Commands.tail_run args)
  | Registry.command_grep => pure (Commands.grep_run args)
  | Registry.command_diff => pure (Commands.diff_run args)
  | Registry.command_find => pure (Commands.find_run args)
  | Registry.command_write => on_fs_opt (Commands.write_run uninit args) sh
  | Registry.command_append => on_fs_opt (Commands.append_run args) sh
  | Registry.command_wc => pure (Commands.wc_run args)
  | Registry.command_df => pure Commands.df_run
  | Registry.command_du => on_fs_opt (Commands.du_run fuel) sh
  | Registry.command_mount => pure (Commands.command_mount args)
  | Registry.command_umount => pure (Commands.command_umount args)
  | Registry.command_mounts => pure Commands.command_mounts
  | Registry.command_history => Some (shell_history_print sh)
  | Registry.command_clear => Some (command_clear sh)
  | Registry.command_help => Some (command_help args sh)
  | fn => Some (command_device fn args sh)
  end.

Definition shell_command_execute (nm : cstr) args sh : option (bool * shell D) :=
  match Registry.find_command nm with
  | None => Some (false, sh)
  | Some cmd => sh ← command_run (Registry.run cmd) args sh; Some (true, sh)
  end.

(** ** Execution *)

Definition arg_text (b : buffer) (p : Z) : cstr := text_at (Z.to_nat SHELL_BUF_SIZE) b p.

(** One more word at the end of [args]. *)
Definition add_arg (capacity : Z) (args word : cstr) : cstr :=
  let room (t : cstr) := capacity - 1 - Z.of_nat (length t) in
  let args := if negb (bool_decide (args = [])) && (0 <? room args) then args ++ [32] else args in
  args ++ take (Z.to_nat (room args)) word.

Definition build_args (b : buffer) (c : shell_parsed_command_t) (input : option cstr) (capacity : Z) : cstr :=
  let args := foldl (λ args p, add_arg capacity args (arg_text b p)) [] (tail (argv c)) in
  match input with
  | Some (x :: t) => add_arg capacity args (x :: t)
  | _ => args
  end.

(** The result, the text captured and the new state. *)
Definition execute_one (b : buffer) (c : shell_parsed_command_t) (stdin_text : option cstr) (capture : bool) sh :
    option (bool * cstr * shell D) :=
  match argv c with
  | [] => Some (false, [], sh)
  | name :: _ =>
    let name := arg_text b name in
    let redirected := match redirect_in c with
                      | None => Some stdin_text
                      | Some p => let '(rc, text) := Vfs.vfs_read (arg_text b p) true SHELL_IO_BUF_SIZE (fs sh) in
                                  if rc <? 0 then None else Some text
                      end in
    match redirected with
    | None =>
      let file := arg_text b (default 0 (redirect_in c)) in
      Some (false, [], print [10] (print file (print (lit "shell: input file not found: ") sh)))
    | Some input =>
      let args := build_args b c input SHELL_IO_BUF_SIZE in
      let sh := if capture then on_con (Console.console_capture_begin SHELL_IO_BUF_SIZE) sh else sh in
      '(ok, sh) ← shell_command_execute name args sh;
      let '(_, text, con') := Console.console_capture_end (console_of sh) in
      let '(text, sh) := if capture then (text, on_con (λ _, con') sh) else ([], sh) in
      if negb ok then
        if capture then Some (false, text, sh) else
        let sh := print name (print (lit "command not found: ") sh) in
        Some (false, text, print (10 :: Commands.line "Type 'help' for available commands.") sh)
      else Some (true, text, sh)
    end
  end.

Definition redirect_to (b : buffer) (c : shell_parsed_command_t) (p : Z) (text : cstr) sh : option (Z * shell D) :=
  let file := arg_text b p in
  if append c then let '(rc, v) := Vfs.vfs_append file text (fs sh) in Some (rc, sh <| fs := v |>)
  else '(rc, v) ← Vfs.vfs_write uninit file (Some text) (fs sh); Some (rc, sh <| fs := v |>).

(** The commands from one index to the last of a pipeline; [out] is the text of
    the buffer that the next one writes to. *)
Fixpoint execute_pipeline (b : buffer) (commands : list shell_parsed_command_t) (input : option cstr) sh :
    option (bool * shell D) :=
  match commands with
  | [] => Some (true, sh)
  | c :: commands =>
    let need_capture := negb (bool_decide (commands = [])) || bool_decide (is_Some (redirect_out c)) in
    '(ok, out, sh) ← execute_one b c input need_capture sh;
    if negb ok then Some (false, sh) else
    match redirect_out c with
    | None => execute_pipeline b commands (Some out) sh
    | Some p =>
      '(rc, sh) ← redirect_to b c p out sh;
      if negb (rc =? 0) then
        Some (false, print [10] (print (arg_text b p) (print (lit "shell: cannot redirect output to ") sh)))
      else execute_pipeline b commands (Some out) sh
    end
  end.

(** [while (end < count - 1 && commands[end].next == SHELL_OP_PIPE) end++]: how
    many commands behind the first one belong to the pipeline. *)
Fixpoint pipeline_more (commands : list shell_parsed_command_t) : nat :=
  match commands with
  | c :: ((_ :: _) as rest) => match next c with SHELL_OP_PIPE => S (pipeline_more rest) | _ => 0%nat end
  | _ => 0%nat
  end.

(** The loop over the commands from index [i] on; [prev] is the operator behind
    the command before it. *)
Fixpoint execute_loop (rounds : nat) (b : buffer) (prev : option shell_op_t) (commands : list shell_parsed_command_t)
    (last_status : bool) sh : option (shell D) :=
  match commands, rounds with
  | [], _ => Some sh
  | _, O => None
  | c :: rest, S rounds =>
    match prev, last_status with
    | Some SHELL_OP_AND, false => execute_loop rounds b (Some (next c)) rest last_status sh
    | _, _ =>
      let n := S (pipeline_more commands) in
      '(ok, sh) ← execute_pipeline b (take n commands) None sh;
      execute_loop rounds b (next <$> last (take n commands)) (drop n commands) ok sh
    end
  end.

Definition execute cmd sh : option (shell D) :=
  '(code, b, commands) ← shell_parse_line (S (S (length cmd))) (line_buffer cmd) SHELL_MAX_COMMANDS;
  if code <? 0 then Some (print (Commands.line "shell: syntax error") sh) else
  execute_loop (length commands) b None commands true sh.

Definition shell_process_pending sh : option (shell D) :=
  match dequeue_command sh with
  | None => Some sh
  | Some (command, sh) =>
    sh ← execute command sh;
    Some (if sd_gui_is_active (dev_of sh) then sh
          else on_con Console.console_cursor_show (print_prompt sh))
  end.

(** ** Start and input *)

Definition NEXUS_VERSION_DISPLAY : cstr := lit "0.7 - Enstein".
Definition banner : cstr := lit "NexusOS Command Line — " ++ NEXUS_VERSION_DISPLAY ++ [10].

Definition shell_init sh : shell D :=
  let sh := sh <| g_len := 0 |> <| g_history_count := 0 |> <| g_history_next := 0 |> <| g_history_pos := -1 |>
               <| g_pending_head := 0 |> <| g_pending_tail := 0 |> <| g_pending_count := 0 |> in
  let sh := sh <| g_pending_commands := λ i, if (0 <=? i) && (i <? SHELL_COMMAND_QUEUE_SIZE) then [] else g_pending_commands sh i |> in
  let sh := on_fs Vfs.vfs_init sh in
  let sh := on_fs (λ v, v <| Vfs.v_mounts ::= Mount.vfs_mount_init |>) sh in
  let sh := on_con (Console.console_set_color COLOR_WHITE COLOR_BLACK) (on_con Console.console_clear sh) in
  let sh := print (Commands.line "Type 'help' for available commands." ++ [10]) (print banner sh) in
  let sh := print_prompt sh in
  on_con (Console.console_cursor_enable (sd_ticks (dev_of sh))) sh.

Definition shell_return_from_desktop sh : shell D :=
  let sh := on_con (Console.console_set_color COLOR_WHITE COLOR_BLACK) (on_con Console.console_clear sh) in
  let sh := sh <| g_len := 0 |> <| g_history_pos := -1 |> in
  let sh := print (Commands.line "Returned from NexusOS Desktop." ++ [10]) (print banner sh) in
  let sh := print_prompt sh in
  on_con (Console.console_cursor_enable (sd_ticks (dev_of sh))) sh.

Definition shell_input_char (c : Z) sh : shell D :=
  let sh := on_con Console.console_cursor_hide sh in
  if c =? 10 then
    let sh := putchar 10 sh in
    let sh := sh <| g_buf := upd (g_buf sh) (g_len sh) 0 |> in
    let sh := history_add (buf_text (g_buf sh)) sh in
    let sh := if negb (bool_decide (buf_text (g_buf sh) = [])) then
                let '(ok, sh) := queue_command (buf_text (g_buf sh)) sh in
                if ok then sh else print_prompt (print (Commands.line "shell: command queue is full; try again") sh)
              else print_prompt sh in
    on_con Console.console_cursor_show (sh <| g_len := 0 |> <| g_history_pos := -1 |>)
  else if c =? 8 then
    let sh := if 0 <? g_len sh then putchar 8 (sh <| g_len := g_len sh - 1 |>) else sh in
    on_con Console.console_cursor_show (sh <| g_history_pos := -1 |>)
  else
    let sh := if g_len sh <? SHELL_BUF_SIZE - 1 then
                let sh := sh <| g_buf := upd (g_buf sh) (g_len sh) c |> in
                putchar c (sh <| g_len := g_len sh + 1 |>)
              else sh in
    on_con Console.console_cursor_show (sh <| g_history_pos := -1 |>).

End shell.

(** ** The keyboard's view of the shell *)

(** The ports and the desktop, which the keyboard driver also calls. *)
Class KeyPorts (D : Type) := {
  kp_inb : Z → D → Z * D;
  kp_outb : Z → Z → D → D;
  kp_gui_handle_key : Z → D → D;
}.

Definition on_dev {D} (f : D → D) : shell D → shell D := on_machine (λ m, m <| dev ::= f |>).

(** A null pointer in the history would end the kernel; [ShellSpec] shows that
    none is read. *)
#[export] Instance shell_input_env {D} `{ShellDev D, KeyPorts D} : Input.InputEnv (shell D) := {
  Input.ie_inb p sh := let '(v, d) := kp_inb p (dev_of sh) in (v, on_dev (λ _, d) sh);
  Input.ie_outb p v sh := on_dev (kp_outb p v) sh;
  Input.ie_gui_is_active sh := sd_gui_is_active (dev_of sh);
  Input.ie_gui_handle_key k sh := on_dev (kp_gui_handle_key k) sh;
  Input.ie_console_scroll n sh := on_con (Console.console_scroll n) sh;
  Input.ie_shell_history_prev sh := default sh (shell_history_prev sh);
  Input.ie_shell_history_next sh := default sh (shell_history_next sh);
  Input.ie_shell_input_char c sh := shell_input_char c sh;
  Input.ie_shell_return_from_desktop sh := shell_return_from_desktop sh;
}.

End Shell.
