(* ===== verification/ShellSpec.v ===== *)
(** * The shell: editing, history and execution

    The line editor refines an editor on lists; the table of commands has no
    shadowed entry; a line of quoted words runs its command with its arguments;
    pipes hand on what was printed.  Together with the keyboard driver: what is
    typed is run. *)

From Stdlib Require Import Lia ZArith Bool.
From stdpp Require Import base list numbers strings.
From S2P Require Import Prelude Mount Vfs Console ConsoleSpec Input InputSpec Parser ParserSpec Commands CommandSpec Shell.

Local Open Scope Z_scope.

Module ShellSpec.
Import Shell.
Import ParserSpec(quote_line, quote_word, escape, parse_quote_line, quote_line_length).
#[local] Existing Instances Vfs.eta_vfs Console.eta_console.

(** ** The command table *)

Section registry.
Import Registry.

(** The words a command answers to. *)
Definition keys (e : command_entry_t) : list cstr :=
  name e :: match alias e with Some a => [a] | None => [] end.

Lemma answers_keys k e :
  str_eqb k (name e) || match alias e with Some a => str_eqb k a | None => false end = true ↔ k ∈ keys e.
Proof.
  unfold keys. rewrite orb_true_iff, str_eqb_true, elem_of_cons. destruct (alias e).
  - by rewrite str_eqb_true, list_elem_of_singleton.
  - rewrite elem_of_nil. split; intros [?|?]; (by left) || done.
Qed.

Lemma find_unique {A K} (f : A → list K) (p : K → A → bool) (l : list A) (x : A) (k : K) :
  (∀ k x, p k x = true ↔ k ∈ f x) → NoDup (concat (map f l)) → x ∈ l → k ∈ f x → List.find (p k) l = Some x.
Proof.
  intros Hp. induction l as [|y l IH]; intros Hnd Hx Hk; [by apply elem_of_nil in Hx|].
  cbn [map concat] in Hnd. apply NoDup_app in Hnd as (_ & Hdis & Hnd). cbn [List.find].
  destruct (p k y) eqn:E.
  - apply Hp in E. apply elem_of_cons in Hx as [->|Hx]; [done|]. destruct (Hdis k E).
    apply list_elem_of_In, in_concat. exists (f x). split; [|by apply list_elem_of_In].
    apply in_map, list_elem_of_In, Hx.
  - apply elem_of_cons in Hx as [->|Hx]; [|by apply IH]. apply Hp in Hk. congruence.
Qed.

Lemma keys_distinct : NoDup (concat (map keys g_commands)).
Proof. apply (bool_decide_unpack _). vm_compute. exact I. Qed.

(** No command of the table is hidden by another: every entry is found under its
    name and under its alias. *)
Theorem commands_reachable e k : e ∈ g_commands → k ∈ keys e → find_command k = Some e.
Proof. intros He Hk. exact (find_unique keys _ g_commands e k answers_keys keys_distinct He Hk). Qed.
End registry.

(** ** Console output leaves the rest alone *)

Section shell.
Context {D : Type} `{ShellDev D}.
Implicit Types (sh : shell D) (v : Vfs.vfs (machine D)).

(** The same file system and devices; the console may differ. *)
Definition quiet v v' : Prop := ∃ c, v' = v <| Vfs.env ::= (λ m, m <| con := c |>) |>.

Lemma quiet_refl v : quiet v v.
Proof. exists (con (Vfs.env v)). by destruct v as [? ? ? ? ? []]. Qed.

Lemma quiet_trans v1 v2 v3 : quiet v1 v2 → quiet v2 v3 → quiet v1 v3.
Proof. intros [c1 ->] [c2 ->]. by exists c2. Qed.

Lemma quiet_dev v v' : quiet v v' → dev (Vfs.env v') = dev (Vfs.env v).
Proof. by intros [c ->]. Qed.

Lemma quiet_on_con f sh : quiet (fs sh) (fs (on_con f sh)).
Proof. by eexists. Qed.

Lemma on_con_fs f sh : on_con f sh = sh <| fs := fs (on_con f sh) |>.
Proof. by destruct sh. Qed.

(** ** The editor on lists *)

(** [e_pos] is -1 while no old line is shown; [e_draft] is then of no interest. *)
Record editor := mkEditor {
  e_line : cstr;
  e_hist : list cstr;
  e_queue : list cstr;
  e_pos : Z;
  e_draft : cstr;
}.
#[local] Instance eta_editor : Eta editor := λ r,
  mkEditor (e_line r) (e_hist r) (e_queue r) (e_pos r) (e_draft r).

Inductive key := Char (c : Z) | Backspace | Enter | Up | Down.

Definition editor_key (k : key) (e : editor) : editor :=
  match k with
  | Char c => (if (length (e_line e) <? 255)%nat then e <| e_line := e_line e ++ [c] |> else e) <| e_pos := -1 |>
  | Backspace => e <| e_line := removelast (e_line e) |> <| e_pos := -1 |>
  | Enter =>
    let e := if bool_decide (e_line e = []) then e else
             e <| e_hist := take 8 (e_line e :: e_hist e) |>
               <| e_queue := if (length (e_queue e) <? 4)%nat then e_queue e ++ [e_line e] else e_queue e |> in
    e <| e_line := [] |> <| e_pos := -1 |>
  | Up =>
    match e_hist e !! Z.to_nat (e_pos e + 1) with
    | None => e
    | Some t => e <| e_draft := if e_pos e =? -1 then e_line e else e_draft e |>
                  <| e_pos := e_pos e + 1 |> <| e_line := t |>
    end
  | Down =>
    if e_pos e =? -1 then e else
    e <| e_pos := e_pos e - 1 |>
      <| e_line := if e_pos e =? 0 then e_draft e else default ([] : cstr) (e_hist e !! Z.to_nat (e_pos e - 1)) |>
  end.

(** The program on the same keys; [None] is a null pointer that is read. *)
Definition shell_key (k : key) sh : option (shell D) :=
  match k with
  | Char c => Some (shell_input_char c sh)
  | Backspace => Some (shell_input_char 8 sh)
  | Enter => Some (shell_input_char 10 sh)
  | Up => shell_history_prev sh
  | Down => shell_history_next sh
  end.

Definition key_ok (k : key) : Prop := match k with Char c => c ≠ 0 ∧ c ≠ 8 ∧ c ≠ 10 | _ => True end.

Definition string_ok (t : cstr) : Prop := (length t ≤ 255)%nat ∧ Forall (λ c, c ≠ 0) t.

Definition hist_at (next i : Z) : Z := (next - 1 - i + 2 * HISTORY_SIZE) mod HISTORY_SIZE.

(** The program's state represents the editor's. *)
Record edits sh (e : editor) : Prop := {
  ed_len : g_len sh = Z.of_nat (length (e_line e));
  ed_line : string_ok (e_line e);
  ed_buf : ∀ i c, e_line e !! i = Some c → g_buf sh (Z.of_nat i) = c;
  ed_count : g_history_count sh = Z.of_nat (length (e_hist e));
  ed_count_max : (length (e_hist e) ≤ 8)%nat;
  ed_next : 0 ≤ g_history_next sh < 8;
  ed_hist : ∀ i t, e_hist e !! i = Some t → g_history sh (hist_at (g_history_next sh) (Z.of_nat i)) = t;
  ed_hist_ok : Forall string_ok (e_hist e);
  ed_pcount : g_pending_count sh = Z.of_nat (length (e_queue e));
  ed_pcount_max : (length (e_queue e) ≤ 4)%nat;
  ed_tail : 0 ≤ g_pending_tail sh < 4;
  ed_head : g_pending_head sh = (g_pending_tail sh + g_pending_count sh) mod 4;
  ed_queue : ∀ i t, e_queue e !! i = Some t → g_pending_commands sh ((g_pending_tail sh + Z.of_nat i) mod 4) = t;
  ed_queue_ok : Forall string_ok (e_queue e);
  ed_pos : g_history_pos sh = e_pos e;
  ed_pos_range : -1 ≤ e_pos e < Z.of_nat (length (e_hist e)) ∨ e_pos e = -1;
  ed_draft : e_pos e ≠ -1 → g_draft_buf sh = e_draft e ∧ string_ok (e_draft e);
}.

Lemma edits_fs sh e v : edits sh e → edits (sh <| fs := v |>) e.
Proof. intros []. by split. Qed.

Lemma edits_con sh e f : edits sh e ↔ edits (on_con f sh) e.
Proof. split; intros []; by split. Qed.

(** ** Strings in the buffer *)

Definition stored (b : Z → Z) (t : cstr) : Prop := ∀ i c, t !! i = Some c → b (Z.of_nat i) = c.

Lemma text_at_stored (b : Z → Z) t p n :
  (∀ i c, t !! i = Some c → b (p + Z.of_nat i) = c) → Forall (λ c, c ≠ 0) t →
  n = length t ∨ (length t < n)%nat ∧ b (p + Z.of_nat (length t)) = 0 → Parser.text_at n b p = t.
Proof.
  revert p n. induction t as [|c t IH]; intros p n Hb Hn Hlen.
  - destruct n as [|n]; [done|]. destruct Hlen as [|[_ Hz]]; [done|]. cbn in *. rewrite Z.add_0_r in Hz. by rewrite Hz.
  - apply Forall_cons_1 in Hn as [Hc Hn]. destruct n as [|n]; [cbn in Hlen; lia|]. cbn [Parser.text_at].
    pose proof (Hb 0%nat c eq_refl) as H0. rewrite Z.add_0_r in H0. rewrite H0. rewrite (proj2 (Z.eqb_neq c 0)) by done.
    f_equal. apply IH; [|done|].
    + intros i d Hd. rewrite <- Z.add_assoc. replace (1 + Z.of_nat i) with (Z.of_nat (S i)) by lia. by apply Hb.
    + cbn [length] in Hlen. destruct Hlen as [[= ->]|[Hl Hz]]; [by left|right]. split; [lia|].
      rewrite <- Z.add_assoc. by replace (1 + Z.of_nat (length t)) with (Z.of_nat (S (length t))) by lia.
Qed.

Lemma line_text sh e :
  edits sh e → buf_text (upd (g_buf sh) (g_len sh) 0) = e_line e.
Proof.
  intros [Hl [Hm Hz] Hb]. unfold buf_text. rewrite Hl. apply text_at_stored; [|done|].
  - intros i c Hc. pose proof (lookup_lt_Some _ _ _ Hc). rewrite upd_ne by lia. by apply Hb.
  - right. change (Z.to_nat SHELL_BUF_SIZE) with 256%nat. split; [lia|]. apply upd_eq.
Qed.

(** ** Redrawing *)

Lemma type_loop_spec t i sh :
  ∃ b v, type_loop t i sh = sh <| g_buf := b |> <| fs := v |> ∧ quiet (fs sh) v ∧
    (∀ j c, t !! j = Some c → b (i + Z.of_nat j) = c) ∧ ∀ j, j < i → b j = g_buf sh j.
Proof.
  revert i sh. induction t as [|c t IH]; intros i sh; cbn [type_loop].
  { exists (g_buf sh), (fs sh). split; [by destruct sh|]. split; [apply quiet_refl|]. done. }
  set (sh1 := putchar c (sh <| g_buf := upd (g_buf sh) i c |>)).
  destruct (IH (i + 1) sh1) as (b & v & -> & Hq & Hb & Hlow). exists b, v.
  split; [subst sh1; by destruct sh|]. split; [exact (quiet_trans _ _ _ (quiet_on_con (Console.console_putchar c) (sh <| g_buf := upd (g_buf sh) i c |>)) Hq)|].
  split; [|intros j Hj; rewrite Hlow by lia; subst sh1; cbn; by rewrite upd_ne by lia].
  intros [|j] d Hd.
  - injection Hd as ->. rewrite Z.add_0_r, Hlow by lia. subst sh1. cbn. by rewrite upd_eq.
  - rewrite <- (Hb j d Hd). f_equal. lia.
Qed.

Lemma erase_spec n sh :
  ∃ v, Nat.iter n (λ sh, putchar 8 (sh <| g_len := g_len sh - 1 |>)) sh = sh <| g_len := g_len sh - Z.of_nat n |> <| fs := v |> ∧
    quiet (fs sh) v.
Proof.
  induction n as [|n (v & IH & Hq)].
  { exists (fs sh). split; [destruct sh; cbn; unfold set_field; cbn; by rewrite Z.sub_0_r|apply quiet_refl]. }
  cbn [Nat.iter nat_rect]. change (nat_rect _ sh _ n) with (Nat.iter n (λ sh, putchar 8 (sh <| g_len := g_len sh - 1 |>)) sh).
  rewrite IH. exists (fs (on_con (Console.console_putchar 8) (sh <| fs := v |>))).
  split; [|exact (quiet_trans _ _ _ Hq (quiet_on_con (Console.console_putchar 8) (sh <| fs := v |>)))].
  destruct sh. unfold putchar, on_con, on_machine, on_fs, set_field. cbn. f_equal. lia.
Qed.

Lemma redraw_line_spec t sh :
  string_ok t →
  ∃ b v, redraw_line t sh = sh <| g_buf := b |> <| g_len := Z.of_nat (length t) |> <| fs := v |> ∧ stored b t ∧ quiet (fs sh) v.
Proof.
  intros [Ht _]. unfold redraw_line.
  assert (str_trunc t SHELL_BUF_SIZE = t) as -> by (apply take_ge; change (Z.to_nat (SHELL_BUF_SIZE - 1)) with 255%nat; done).
  set (sh1 := on_con Console.console_cursor_hide sh).
  destruct (erase_spec (Z.to_nat (g_len sh1)) sh1) as (v2 & -> & Q2). set (sh2 := sh1 <| g_len := _ |> <| fs := v2 |>).
  destruct (type_loop_spec t 0 sh2) as (b & v3 & -> & Q3 & Hb & _).
  eexists (upd b (Z.of_nat (length t)) 0), _. split; [subst sh2 sh1; destruct sh; reflexivity|]. split.
  - intros i c Hc. pose proof (lookup_lt_Some _ _ _ Hc). rewrite upd_ne by lia. by apply Hb.
  - eapply quiet_trans; [apply (quiet_on_con Console.console_cursor_hide)|]. fold sh1.
    eapply quiet_trans; [exact Q2|]. eapply quiet_trans; [exact Q3|]. by eexists.
Qed.

(** ** The keys *)

Lemma hist_at_add next i :
  0 ≤ next < 8 → 0 ≤ i < 7 →
  hist_at ((next + 1) mod 8) (i + 1) = hist_at next i ∧ hist_at next i ≠ next.
Proof. unfold hist_at, HISTORY_SIZE. intros Hn Hi. split; Z.to_euclidean_division_equations; lia. Qed.

Lemma hist_at_new next : 0 ≤ next < 8 → hist_at ((next + 1) mod 8) 0 = next.
Proof. unfold hist_at, HISTORY_SIZE. intros Hn. Z.to_euclidean_division_equations; lia. Qed.

Lemma trunc_ok t : string_ok t → str_trunc t SHELL_BUF_SIZE = t.
Proof. intros [Ht _]. apply take_ge. exact Ht. Qed.

#[local] Ltac ed_simpl :=
  cbn [g_len g_history_count g_history_next g_history g_buf g_pending_count g_pending_tail g_pending_head
    g_pending_commands g_history_pos g_draft_buf fs e_line e_hist e_queue e_pos e_draft set_field].

Lemma history_add_edits t sh e :
  edits sh e → string_ok t → t ≠ [] → edits (history_add t sh) (e <| e_hist := take 8 (t :: e_hist e) |>).
Proof.
  intros He Ht Hne. unfold history_add. rewrite bool_decide_false, trunc_ok by done. destruct He.
  match goal with |- context [if ?b then _ else _] => change b with (g_history_count sh <? HISTORY_SIZE) end.
  destruct (Z.ltb_spec (g_history_count sh) HISTORY_SIZE) as [Hlt|Hge]; unfold HISTORY_SIZE in *.
  - assert (take 8 (t :: e_hist e) = t :: e_hist e) as Etk by (apply take_ge; cbn; lia).
    split; ed_simpl; rewrite ?Etk; try done.
    + rewrite ed_count0. cbn. lia.
    + cbn. lia.
    + apply Z.mod_pos_bound. lia.
    + intros [|i] u Hu.
      * injection Hu as ->. rewrite hist_at_new by done. apply upd_eq.
      * pose proof (lookup_lt_Some _ _ _ Hu) as Hi. cbn in Hi.
        replace (Z.of_nat (S i)) with (Z.of_nat i + 1) by lia.
        destruct (hist_at_add (g_history_next sh) (Z.of_nat i)) as [-> Hn]; [done|lia|]. rewrite upd_ne by done. by apply ed_hist0.
    + by constructor.
    + cbn. lia.
  - assert (length (e_hist e) = 8%nat) as El by lia.
    assert (length (take 8 (t :: e_hist e)) = 8%nat) as Etk by (rewrite length_take; change (length (t :: e_hist e)) with (S (length (e_hist e))); lia).
    split; ed_simpl; rewrite ?Etk; try done.
    + lia.
    + apply Z.mod_pos_bound. lia.
    + intros i u Hu. pose proof (lookup_lt_Some _ _ _ Hu) as Hlt. rewrite Etk in Hlt.
      rewrite lookup_take_lt in Hu by done. destruct i as [|i].
      * injection Hu as ->. rewrite hist_at_new by done. apply upd_eq.
      * change ((t :: e_hist e) !! S i) with (e_hist e !! i) in Hu.
        replace (Z.of_nat (S i)) with (Z.of_nat i + 1) by lia.
        destruct (hist_at_add (g_history_next sh) (Z.of_nat i)) as [-> Hn]; [done|lia|]. rewrite upd_ne by done. by apply ed_hist0.
    + apply Forall_take. by constructor.
    + rewrite El in ed_pos_range0. lia.
Qed.

Lemma queue_command_edits t sh e :
  edits sh e → string_ok t → t ≠ [] →
  let '(ok, sh') := queue_command t sh in
  edits sh' (e <| e_queue := if (length (e_queue e) <? 4)%nat then e_queue e ++ [t] else e_queue e |>) ∧
  fs sh' = fs sh ∧ ok = (length (e_queue e) <? 4)%nat.
Proof.
  intros He Ht Hne. unfold queue_command. rewrite bool_decide_false, trunc_ok by done. cbn [orb].
  unfold SHELL_COMMAND_QUEUE_SIZE. pose proof (ed_pcount _ _ He) as Hp.
  destruct (Z.leb_spec 4 (g_pending_count sh)), (Nat.ltb_spec (length (e_queue e)) 4); try lia.
  { split; [|done]. destruct He. by split. }
  split; [|done]. destruct He. ed_simpl. unfold SHELL_COMMAND_QUEUE_SIZE in *.
  rewrite !u32_small by (rewrite ?ed_head0; pose proof (Z.mod_pos_bound (g_pending_tail sh + g_pending_count sh) 4); lia).
  split; ed_simpl; try done.
  - rewrite length_app. cbn. lia.
  - rewrite length_app. cbn. lia.
  - rewrite ed_head0. by rewrite Zplus_mod_idemp_l, Z.add_assoc.
  - intros i u Hu. rewrite ed_head0, ed_pcount0. destruct (decide (i < length (e_queue e))%nat).
    + rewrite lookup_app_l in Hu by done. rewrite upd_ne; [by apply ed_queue0|].
      intros E. apply ring_cell_inj in E; lia.
    + rewrite lookup_app_r in Hu by lia. destruct (i - length (e_queue e))%nat eqn:E; [|done].
      injection Hu as ->. replace i with (length (e_queue e)) by lia. apply upd_eq.
  - apply Forall_app. split; [done|by constructor].
Qed.

Lemma dequeue_edits sh e :
  edits sh e →
  match dequeue_command sh with
  | None => e_queue e = []
  | Some (t, sh') => ∃ q, e_queue e = t :: q ∧ edits sh' (e <| e_queue := q |>) ∧ fs sh' = fs sh
  end.
Proof.
  intros He. unfold dequeue_command. destruct He. destruct (Z.eqb_spec (g_pending_count sh) 0).
  { destruct (e_queue e); [done|cbn in ed_pcount0; lia]. }
  destruct (e_queue e) as [|t q] eqn:Eq; [cbn in ed_pcount0; lia|].
  apply Forall_cons_1 in ed_queue_ok0 as [Ht Hq].
  pose proof (ed_queue0 0%nat t eq_refl) as E0. rewrite Z.add_0_r, Z.mod_small in E0 by lia.
  rewrite E0, trunc_ok by done. exists q. split; [done|]. split; [|done]. cbn [length] in *. ed_simpl.
  unfold SHELL_COMMAND_QUEUE_SIZE. rewrite !u32_small by lia. split; ed_simpl; try done.
  - lia.
  - lia.
  - apply Z.mod_pos_bound. lia.
  - rewrite ed_head0, Zplus_mod_idemp_l. f_equal. lia.
  - intros i u Hu. rewrite Zplus_mod_idemp_l. pose proof (lookup_lt_Some _ _ _ Hu).
    replace (g_pending_tail sh + 1 + Z.of_nat i) with (g_pending_tail sh + Z.of_nat (S i)) by lia.
    rewrite upd_ne; [by apply ed_queue0|]. intros E.
    rewrite <- (Z.mod_small (g_pending_tail sh) 4) in E at 2 by lia.
    rewrite <- (Z.add_0_r (g_pending_tail sh)) in E at 2. apply ring_cell_inj in E; lia.
Qed.

Lemma lookup_snoc_cases (t : cstr) (d c : Z) (i : nat) :
  (t ++ [d]) !! i = Some c → t !! i = Some c ∨ i = length t ∧ c = d.
Proof.
  intros Hi. apply lookup_app_Some in Hi as [Hi|[Hl Hi]]; [by left|right].
  destruct (i - length t)%nat eqn:E; [|done]. injection Hi as <-. split; [lia|done].
Qed.

Lemma char_edits c sh e :
  edits sh e → c ≠ 0 → c ≠ 8 → c ≠ 10 → edits (shell_input_char c sh) (editor_key (Char c) e).
Proof.
  intros He H0 H8 H10. unfold shell_input_char. rewrite (proj2 (Z.eqb_neq c 10)), (proj2 (Z.eqb_neq c 8)) by done.
  apply (proj1 (edits_con _ _ _)). apply (proj1 (edits_con _ _ Console.console_cursor_hide)) in He.
  set (sh1 := on_con Console.console_cursor_hide sh) in *. clearbody sh1. unfold editor_key.
  change (SHELL_BUF_SIZE - 1) with 255. pose proof (ed_len _ _ He) as Hl.
  destruct (Z.ltb_spec (g_len sh1) 255), (Nat.ltb_spec (length (e_line e)) 255); try lia.
  - change (edits (putchar c ((sh1 <| g_buf := upd (g_buf sh1) (g_len sh1) c |> <| g_len := g_len sh1 + 1 |>) <| g_history_pos := -1 |>))
      (e <| e_line := e_line e ++ [c] |> <| e_pos := -1 |>)).
    apply (proj1 (edits_con _ _ _)). destruct He. split; ed_simpl; try done.
    + rewrite length_app. cbn. lia.
    + destruct ed_line0. split; [rewrite length_app; cbn; lia|]. apply Forall_app. split; [done|by constructor].
    + intros i d Hd. rewrite ed_len0. apply lookup_snoc_cases in Hd as [Hd|[-> ->]]; [|apply upd_eq].
      pose proof (lookup_lt_Some _ _ _ Hd). rewrite upd_ne by lia. by apply ed_buf0.
    + by right.
  - destruct He. split; ed_simpl; (done || by right).
Qed.

Lemma removelast_take {A} (l : list A) : removelast l = take (length l - 1) l.
Proof. rewrite removelast_firstn_len. f_equal. lia. Qed.

Lemma backspace_edits sh e : edits sh e → edits (shell_input_char 8 sh) (editor_key Backspace e).
Proof.
  intros He. unfold shell_input_char. cbn [Z.eqb Pos.eqb].
  apply (proj1 (edits_con _ _ _)). apply (proj1 (edits_con _ _ Console.console_cursor_hide)) in He.
  set (sh1 := on_con Console.console_cursor_hide sh) in *. clearbody sh1. unfold editor_key.
  pose proof (ed_len _ _ He) as Hl. rewrite removelast_take.
  destruct (Z.ltb_spec 0 (g_len sh1)).
  - change (edits (putchar 8 (sh1 <| g_len := g_len sh1 - 1 |> <| g_history_pos := -1 |>))
      (e <| e_line := take (length (e_line e) - 1) (e_line e) |> <| e_pos := -1 |>)).
    apply (proj1 (edits_con _ _ _)). destruct He. split; ed_simpl; try done.
    + rewrite length_take. lia.
    + destruct ed_line0. split; [rewrite length_take; lia|by apply Forall_take].
    + intros i c Hc. apply lookup_take_Some in Hc as [Hc _]. by apply ed_buf0.
    + by right.
  - destruct He. destruct (e_line e) eqn:El; [|cbn in Hl; lia]. split; ed_simpl; rewrite ?El; (done || by right).
Qed.

Lemma up_edits sh e :
  edits sh e →
  ∃ sh', shell_history_prev sh = Some sh' ∧ edits sh' (editor_key Up e) ∧ quiet (fs sh) (fs sh').
Proof.
  intros He. unfold shell_history_prev. pose proof (ed_count _ _ He) as Hc. pose proof (ed_pos _ _ He) as Hp.
  pose proof (ed_pos_range _ _ He) as Hr. rewrite Hc, Hp. unfold editor_key.
  destruct (Z.leb_spec (Z.of_nat (length (e_hist e))) (e_pos e + 1)).
  { rewrite lookup_ge_None_2 by lia. exists sh. split; [done|]. split; [done|apply quiet_refl]. }
  destruct (lookup_lt_is_Some_2 (e_hist e) (Z.to_nat (e_pos e + 1)) ltac:(lia)) as [t Ht]. rewrite Ht.
  set (sh1 := if e_pos e =? -1 then _ else sh).
  assert (history_get (g_history_pos (sh1 <| g_history_pos := g_history_pos sh1 + 1 |>)) (sh1 <| g_history_pos := g_history_pos sh1 + 1 |>) = Some t) as Hg.
  { assert (g_history_pos (sh1 <| g_history_pos := g_history_pos sh1 + 1 |>) = e_pos e + 1) as ->
      by (subst sh1; ed_simpl; destruct (_ =? _); cbn; lia).
    unfold history_get. assert (g_history_count (sh1 <| g_history_pos := g_history_pos sh1 + 1 |>) = g_history_count sh) as ->
      by (subst sh1; by destruct (_ =? _)).
    rewrite Hc. destruct (Z.ltb_spec (e_pos e + 1) 0); [lia|].
    destruct (Z.leb_spec (Z.of_nat (length (e_hist e))) (e_pos e + 1)); [lia|]. cbn [orb]. f_equal.
    pose proof (ed_hist _ _ He _ _ Ht) as Hh. rewrite Z2Nat.id in Hh by lia. rewrite <- Hh. unfold hist_at.
    subst sh1. by destruct (_ =? _). }
  rewrite Hg. cbn [mbind option_bind].
  assert (string_ok t) as Hok by (pose proof (ed_hist_ok _ _ He) as Ho; rewrite Forall_lookup in Ho; by eapply Ho).
  destruct (redraw_line_spec t (sh1 <| g_history_pos := g_history_pos sh1 + 1 |>) Hok) as (b & v & -> & Hb & Hq).
  eexists. split; [reflexivity|]. split.
  - assert (e_pos e =? -1 = true → Parser.text_at (Z.to_nat (g_len sh)) (g_buf sh) 0 = e_line e) as Hd.
    { intros _. destruct He. apply text_at_stored; [|apply ed_line0|left; lia]. intros i c Hcc. by apply ed_buf0. }
    destruct He. subst sh1. destruct (Z.eqb_spec (e_pos e) (-1)) as [E1|E1];
      split; ed_simpl; try done; try lia; try (by rewrite Hd); try (intros _; split; [by apply Hd|done]); try (intros _; by apply ed_draft0).
  - subst sh1. by destruct (_ =? _).
Qed.

Lemma down_edits sh e :
  edits sh e →
  ∃ sh', shell_history_next sh = Some sh' ∧ edits sh' (editor_key Down e) ∧ quiet (fs sh) (fs sh').
Proof.
  intros He. unfold shell_history_next. pose proof (ed_pos _ _ He) as Hp. pose proof (ed_pos_range _ _ He) as Hr.
  pose proof (ed_count _ _ He) as Hc. rewrite Hp. unfold editor_key.
  destruct (Z.eqb_spec (e_pos e) (-1)) as [E1|E1].
  { exists sh. split; [done|]. split; [done|apply quiet_refl]. }
  set (sh1 := sh <| g_history_pos := e_pos e - 1 |>).
  change (g_history_pos sh1) with (e_pos e - 1). change (g_draft_buf sh1) with (g_draft_buf sh).
  destruct (ed_draft _ _ He E1) as [Hd Hdok].
  destruct (Z.eqb_spec (e_pos e - 1) (-1)) as [E2|E2].
  - destruct (redraw_line_spec (g_draft_buf sh) sh1) as (b & v & -> & Hb & Hq); [by rewrite Hd|].
    eexists. split; [reflexivity|]. split; [|exact Hq]. subst sh1. destruct He. rewrite Hd in *.
    rewrite (proj2 (Z.eqb_eq (e_pos e) 0)) by lia. split; ed_simpl; (done || lia).
  - destruct (lookup_lt_is_Some_2 (e_hist e) (Z.to_nat (e_pos e - 1)) ltac:(lia)) as [t Ht]. rewrite Ht.
    assert (history_get (e_pos e - 1) sh1 = Some t) as ->.
    { unfold history_get. change (g_history_count sh1) with (g_history_count sh). rewrite Hc.
      destruct (Z.ltb_spec (e_pos e - 1) 0); [lia|].
      destruct (Z.leb_spec (Z.of_nat (length (e_hist e))) (e_pos e - 1)); [lia|]. cbn [orb]. f_equal.
      pose proof (ed_hist _ _ He _ _ Ht) as Hh. rewrite Z2Nat.id in Hh by lia. rewrite <- Hh. done. }
    cbn [mbind option_bind].
    assert (string_ok t) as Hok by (pose proof (ed_hist_ok _ _ He) as Ho; rewrite Forall_lookup in Ho; by eapply Ho).
    destruct (redraw_line_spec t sh1 Hok) as (b & v & -> & Hb & Hq).
    eexists. split; [reflexivity|]. split; [|exact Hq]. subst sh1. destruct He.
    rewrite (proj2 (Z.eqb_neq (e_pos e) 0)) by lia. split; ed_simpl; try done; lia.
Qed.

Lemma edits_prompt sh e : edits sh e → edits (print_prompt sh) e.
Proof. intros []. by split. Qed.

Lemma enter_edits sh e : edits sh e → edits (shell_input_char 10 sh) (editor_key Enter e).
Proof.
  intros He. unfold shell_input_char. change (10 =? 10) with true. cbv iota.
  apply (proj1 (edits_con _ _ _)).
  assert (edits (putchar 10 (on_con Console.console_cursor_hide sh)) e) as He1
    by (apply (proj1 (edits_con _ _ _)), (proj1 (edits_con _ _ _)), He).
  set (sh1 := putchar 10 (on_con Console.console_cursor_hide sh)) in *. clearbody sh1. clear He.
  pose proof (line_text sh1 e He1) as Hline.
  set (b := upd (g_buf sh1) (g_len sh1) 0) in *.
  (* the terminator does not change the line *)
  assert (edits (sh1 <| g_buf := b |>) e) as He2.
  { destruct He1. split; ed_simpl; try done. intros i c Hc. pose proof (lookup_lt_Some _ _ _ Hc).
    subst b. rewrite upd_ne by lia. by apply ed_buf0. }
  set (sh2 := sh1 <| g_buf := b |>) in *. change (g_buf sh2) with b. rewrite Hline.
  assert (g_buf (history_add (e_line e) sh2) = b) as Eb by (unfold history_add; by repeat case_match).
  rewrite Eb, Hline. pose proof (ed_line _ _ He2) as Hok. clearbody sh2 b. clear Eb Hline He1.
  assert (∀ sh e, edits sh e → edits (sh <| g_len := 0 |> <| g_history_pos := -1 |>) (e <| e_line := [] |> <| e_pos := -1 |>)) as Hreset.
  { clear. intros sh e []. split; ed_simpl; try done; try by right. split; [cbn; lia|done]. }
  unfold editor_key. case_bool_decide as Hempty; cbn [negb].
  - rewrite Hempty. change (history_add [] sh2) with sh2. apply Hreset, edits_prompt, He2.
  - pose proof (history_add_edits _ _ _ He2 Hok Hempty) as He3.
    set (e3 := e <| e_hist := take 8 (e_line e :: e_hist e) |>) in *.
    pose proof (queue_command_edits (e_line e) _ _ He3 Hok Hempty) as Hqc.
    destruct (queue_command (e_line e) (history_add (e_line e) sh2)) as [ok sh4]. destruct Hqc as (He4 & _ & ->).
    subst e3. cbn [e_queue set_field] in *. apply (Hreset _ (e <| e_hist := take 8 (e_line e :: e_hist e) |>
      <| e_queue := if (length (e_queue e) <? 4)%nat then e_queue e ++ [e_line e] else e_queue e |>)).
    destruct (length (e_queue e) <? 4)%nat; [exact He4|]. apply edits_prompt. unfold print. by apply (proj1 (edits_con _ _ _)).
Qed.

Lemma input_char_quiet c sh : quiet (fs sh) (fs (shell_input_char c sh)).
Proof.
  unfold shell_input_char, queue_command, history_add, print_prompt.
  repeat (case_match; simplify_eq); eexists; reflexivity.
Qed.

(** Every key acts as the editor says, and touches neither the files nor the
    devices. *)
Lemma key_edits k sh e :
  edits sh e → key_ok k →
  ∃ sh', shell_key k sh = Some sh' ∧ edits sh' (editor_key k e) ∧ quiet (fs sh) (fs sh').
Proof.
  intros He Hk. destruct k as [c| | | |]; cbn [shell_key].
  - destruct Hk as (H0 & H8 & H10). eexists. split; [done|]. split; [by apply char_edits|apply input_char_quiet].
  - eexists. split; [done|]. split; [by apply backspace_edits|apply input_char_quiet].
  - eexists. split; [done|]. split; [by apply enter_edits|apply input_char_quiet].
  - by apply up_edits.
  - by apply down_edits.
Qed.

(** ** Execution leaves the editor alone *)

Context (fuel : nat) (uninit : cstr).

Definition frame sh sh' : Prop := ∃ v, sh' = sh <| fs := v |>.

Lemma frame_refl sh : frame sh sh.
Proof. exists (fs sh). by destruct sh. Qed.

Lemma frame_trans sh1 sh2 sh3 : frame sh1 sh2 → frame sh2 sh3 → frame sh1 sh3.
Proof. intros [v1 ->] [v2 ->]. by exists v2. Qed.

Lemma frame_on_fs f sh : frame sh (on_fs f sh).
Proof. by eexists. Qed.

Lemma frame_opt f sh sh' : on_fs_opt f sh = Some sh' → frame sh sh'.
Proof. unfold on_fs_opt. destruct (f (fs sh)) as [v|]; [|done]. intros [= <-]. by exists v. Qed.

Lemma frame_edits sh sh' e : frame sh sh' → edits sh e → edits sh' e.
Proof. intros [v ->]. apply edits_fs. Qed.

Lemma frame_history_print sh : frame sh (shell_history_print sh).
Proof.
  unfold shell_history_print. case_match; [apply frame_on_fs|].
  set (start := _ mod _). clearbody start. generalize (seqZ 0 (g_history_count sh)). intros l.
  assert (∀ l sh0, frame sh sh0 → frame sh (foldl (λ sh i, print [10] (print (g_history sh ((start + i) mod HISTORY_SIZE)) sh)) sh0 l)) as Hl;
    [|apply Hl, frame_refl].
  clear l. induction l as [|i l IH]; intros sh0 Hs; [done|]. cbn [foldl]. apply IH.
  eapply frame_trans; [exact Hs|]. eapply frame_trans; apply frame_on_fs.
Qed.

Lemma frame_command fn args sh sh' : command_run fuel uninit fn args sh = Some sh' → frame sh sh'.
Proof.
  destruct fn; cbn [command_run]; try apply frame_opt; intros [= <-];
    first [apply frame_history_print|apply frame_on_fs].
Qed.

Lemma frame_command_execute nm args sh ok sh' :
  shell_command_execute fuel uninit nm args sh = Some (ok, sh') → frame sh sh'.
Proof.
  unfold shell_command_execute. destruct (Registry.find_command nm) as [cmd|]; [|intros [= <- <-]; apply frame_refl].
  destruct (command_run _ _ _ _ _) as [sh1|] eqn:E; [|done]. intros [= <- <-]. by eapply frame_command.
Qed.

Lemma frame_execute_one b c input capture sh r text sh' :
  execute_one fuel uninit b c input capture sh = Some (r, text, sh') → frame sh sh'.
Proof.
  unfold execute_one. destruct (Parser.argv c) as [|name rest]; [intros [= <- <- <-]; apply frame_refl|].
  set (redirected := match Parser.redirect_in c with None => _ | Some p => _ end).
  destruct redirected as [text0|]; [|intros [= <- <- <-]; by eexists].
  set (sh1 := if capture then _ else sh).
  assert (frame sh sh1) as H1 by (subst sh1; destruct capture; [apply frame_on_fs|apply frame_refl]).
  destruct (shell_command_execute _ _ _ _ sh1) as [[ok sh2]|] eqn:E; [|done]. cbn [mbind option_bind].
  apply frame_command_execute in E. pose proof (frame_trans _ _ _ H1 E) as H2.
  destruct (Console.console_capture_end (console_of sh2)) as [[n t] con'].
  destruct capture, ok; cbn [negb]; intros [= <- <- <-]; eapply frame_trans; try exact H2;
    first [apply frame_on_fs|apply frame_refl|by eexists].
Qed.

Lemma frame_pipeline b cs input sh r sh' :
  execute_pipeline fuel uninit b cs input sh = Some (r, sh') → frame sh sh'.
Proof.
  revert input sh. induction cs as [|c cs IH]; intros input sh; cbn [execute_pipeline]; [intros [= <- <-]; apply frame_refl|].
  destruct (execute_one _ _ _ _ _ _ _) as [[[ok out] sh1]|] eqn:E; [|done]. cbn [mbind option_bind].
  apply frame_execute_one in E. destruct ok; cbn [negb]; [|intros [= <- <-]; done].
  destruct (Parser.redirect_out c) as [p|]; [|intros Hp; eapply frame_trans; [exact E|by eapply IH]].
  destruct (redirect_to _ _ _ _ _ _) as [[rc sh2]|] eqn:Er; [|done]. cbn [mbind option_bind].
  assert (frame sh1 sh2) as Hr.
  { revert Er. unfold redirect_to. destruct (Parser.append c).
    - destruct (Vfs.vfs_append _ _ _) as [rc0 v]. intros [= <- <-]. by eexists.
    - destruct (Vfs.vfs_write _ _ _ _) as [[rc0 v]|]; [|done]. intros [= <- <-]. by eexists. }
  pose proof (frame_trans _ _ _ E Hr) as H2. destruct (rc =? 0); cbn [negb].
  - intros Hp. eapply frame_trans; [exact H2|by eapply IH].
  - intros [= <- <-]. eapply frame_trans; [exact H2|]. by eexists.
Qed.

Lemma frame_execute_loop n b prev cs ok sh sh' :
  execute_loop fuel uninit n b prev cs ok sh = Some sh' → frame sh sh'.
Proof.
  revert prev cs ok sh. induction n as [|n IH]; intros prev [|c cs] ok sh; cbn [execute_loop];
    try (intros [= <-]; apply frame_refl).
  assert (∀ m, ('(ok, sh0) ← execute_pipeline fuel uninit b (take m (c :: cs)) None sh;
    execute_loop fuel uninit n b (Parser.next <$> last (take m (c :: cs))) (drop m (c :: cs)) ok sh0) = Some sh' → frame sh sh') as Hp.
  { intros m. destruct (execute_pipeline _ _ _ _ _ sh) as [[ok' sh1]|] eqn:E; [|done]. cbn [mbind option_bind].
    intros Hl. eapply frame_trans; [by eapply frame_pipeline|by eapply IH]. }
  destruct prev as [[]|], ok; first [apply IH|apply Hp].
Qed.

Lemma frame_execute cmd sh sh' : execute fuel uninit cmd sh = Some sh' → frame sh sh'.
Proof.
  unfold execute. destruct (Parser.shell_parse_line _ _ _) as [[[code b] cs]|]; [|done]. cbn [mbind option_bind].
  destruct (code <? 0); [intros [= <-]; apply frame_on_fs|apply frame_execute_loop].
Qed.

(** ** The refinement *)

(** What reaches the shell: a key, or a round of the main loop. *)
Inductive event := Key (k : key) | Process.

Definition shell_event (ev : event) sh : option (shell D) :=
  match ev with Key k => shell_key k sh | Process => shell_process_pending fuel uninit sh end.

Definition editor_event (ev : event) (e : editor) : editor :=
  match ev with Key k => editor_key k e | Process => e <| e_queue := tail (e_queue e) |> end.

Definition shell_run (evs : list event) sh : option (shell D) :=
  foldl (λ r ev, r ≫= shell_event ev) (Some sh) evs.

Definition editor_run (evs : list event) (e : editor) : editor := foldl (λ e ev, editor_event ev e) e evs.

Definition event_ok (ev : event) : Prop := match ev with Key k => key_ok k | Process => True end.

Lemma shell_run_cons ev evs sh : shell_run (ev :: evs) sh = shell_event ev sh ≫= shell_run evs.
Proof.
  unfold shell_run. cbn [foldl]. cbn [mbind option_bind]. destruct (shell_event ev sh); [done|].
  cbn. induction evs; [done|]. done.
Qed.

Lemma process_edits sh e sh' :
  edits sh e → shell_process_pending fuel uninit sh = Some sh' → edits sh' (editor_event Process e).
Proof.
  intros He. unfold shell_process_pending. pose proof (dequeue_edits sh e He) as Hd. cbn [editor_event].
  destruct (dequeue_command sh) as [[t sh1]|].
  - destruct Hd as (q & -> & He1 & _). destruct (execute _ _ t sh1) as [sh2|] eqn:E; [|done]. cbn [mbind option_bind].
    apply frame_execute in E. pose proof (frame_edits _ _ _ E He1) as He2. intros [= <-].
    case_match; [exact He2|]. apply (proj1 (edits_con _ _ _)), edits_prompt, He2.
  - rewrite Hd. intros [= <-]. destruct He. split; ed_simpl; rewrite ?Hd in *; done.
Qed.

Lemma run_edits evs sh e :
  edits sh e → Forall event_ok evs →
  (∀ sh', shell_run evs sh = Some sh' → edits sh' (editor_run evs e)) ∧
  (Forall (λ ev, ev ≠ Process) evs → ∃ sh', shell_run evs sh = Some sh').
Proof.
  intros He Hok. revert sh e He. induction Hok as [|ev evs Hev Hok IH]; intros sh e He.
  { split; [by intros ? [= <-]|by eexists]. }
  rewrite shell_run_cons. unfold editor_run. cbn [foldl]. split.
  - intros sh'. destruct (shell_event ev sh) as [sh1|] eqn:E; [|done]. cbn [mbind option_bind]. apply IH.
    destruct ev as [k|]; [|by eapply process_edits].
    destruct (key_edits k sh e He Hev) as (sh2 & E2 & He2 & _). cbn [shell_event] in E. rewrite E2 in E. by injection E as <-.
  - intros Hnp. apply Forall_cons_1 in Hnp as [Hne Hnp]. destruct ev as [k|]; [|done].
    destruct (key_edits k sh e He Hev) as (sh2 & E2 & He2 & _). cbn [shell_event]. rewrite E2. cbn [mbind option_bind].
    by apply (IH sh2 (editor_key k e) He2).
Qed.

(** C33: The shell refines an editor on lists: along any sequence of keys and of rounds
    of the main loop its ring of history lines, its ring of waiting lines, its
    line buffer and its browsing position are those of the editor; keys alone
    never read a null pointer. *)
Theorem shell_refines_editor evs sh e :
  edits sh e → Forall event_ok evs →
  (∀ sh', shell_run evs sh = Some sh' → edits sh' (editor_run evs e)) ∧
  (Forall (λ ev, ev ≠ Process) evs → ∃ sh', shell_run evs sh = Some sh').
Proof. apply run_edits. Qed.

(** ** Browsing *)

Lemma editor_run_app evs evs' e : editor_run (evs ++ evs') e = editor_run evs' (editor_run evs e).
Proof. apply foldl_app. Qed.

Lemma ups n e :
  e_pos e = -1 → (S n ≤ length (e_hist e))%nat →
  editor_run (replicate (S n) (Key Up)) e =
    mkEditor (default ([] : cstr) (e_hist e !! n)) (e_hist e) (e_queue e) (Z.of_nat n) (e_line e).
Proof.
  intros Hp. induction n as [|n IH]; intros Hn.
  - destruct e as [l h q p d]. cbn in Hp, Hn. subst p. destruct h as [|t h]; [cbn in Hn; lia|]. done.
  - rewrite replicate_S_end, editor_run_app, IH by lia. unfold editor_run. cbn [foldl editor_event editor_key e_pos e_hist].
    replace (Z.to_nat (Z.of_nat n + 1)) with (S n) by lia.
    destruct (lookup_lt_is_Some_2 (e_hist e) (S n) ltac:(lia)) as [t ->].
    unfold set_field. cbn. rewrite (proj2 (Z.eqb_neq (Z.of_nat n) (-1))) by lia. f_equal. lia.
Qed.

Lemma downs n l h q d :
  editor_run (replicate (S n) (Key Down)) (mkEditor l h q (Z.of_nat n) d) = mkEditor d h q (-1) d.
Proof.
  revert l. induction n as [|n IH]; intros l; [done|].
  change (replicate (S (S n)) (Key Down)) with (Key Down :: replicate (S n) (Key Down)).
  unfold editor_run. cbn [foldl]. rewrite <- (IH (default ([] : cstr) (h !! n))). unfold editor_run. f_equal.
  cbn [editor_event editor_key e_pos]. rewrite (proj2 (Z.eqb_neq (Z.of_nat (S n)) (-1))) by lia.
  unfold set_field. cbn [e_pos e_line e_hist e_queue e_draft]. rewrite (proj2 (Z.eqb_neq (Z.of_nat (S n)) 0)) by lia.
  replace (Z.to_nat (Z.of_nat (S n) - 1)) with n by lia. f_equal. lia.
Qed.

(** Browsing is undone: from a line that is being typed, [n] steps up show the
    [n]-th line entered before it, and [n] steps down bring the line back. *)
Theorem history_browse_roundtrip n sh e :
  edits sh e → e_pos e = -1 → (1 ≤ n ≤ length (e_hist e))%nat →
  ∃ sh1 sh2, shell_run (replicate n (Key Up)) sh = Some sh1 ∧ shell_run (replicate n (Key Down)) sh1 = Some sh2 ∧
    (∀ t, e_hist e !! (n - 1)%nat = Some t → buf_text (upd (g_buf sh1) (g_len sh1) 0) = t) ∧
    g_history_pos sh2 = -1 ∧ buf_text (upd (g_buf sh2) (g_len sh2) 0) = buf_text (upd (g_buf sh) (g_len sh) 0).
Proof.
  intros He Hp Hn. destruct n as [|n]; [lia|].
  assert (∀ k, key_ok k → Forall event_ok (replicate (S n) (Key k)) ∧ Forall (λ ev, ev ≠ Process) (replicate (S n) (Key k))) as Hok
    by (intros k Hk; split; by apply Forall_replicate).
  destruct (Hok Up I) as [U1 U2]. destruct (Hok Down I) as [D1 D2].
  destruct (run_edits _ sh e He U1) as [Hr1 Hs1]. destruct (Hs1 U2) as [sh1 E1]. specialize (Hr1 sh1 E1).
  rewrite ups in Hr1 by (done || lia).
  destruct (run_edits _ sh1 _ Hr1 D1) as [Hr2 Hs2]. destruct (Hs2 D2) as [sh2 E2]. specialize (Hr2 sh2 E2).
  rewrite downs in Hr2. exists sh1, sh2. split; [done|]. split; [done|]. split.
  - intros t Ht. rewrite (line_text _ _ Hr1). cbn. replace (S n - 1)%nat with n in Ht by lia. by rewrite Ht.
  - split; [apply (ed_pos _ _ Hr2)|]. rewrite (line_text _ _ Hr2), (line_text _ _ He). done.
Qed.

(** ** Running a line *)

(** The argument string a command gets: the words with a space between them. *)
Definition join_args (ws : list cstr) : cstr :=
  foldl (λ a w, if bool_decide (a = []) then w else a ++ 32 :: w) [] ws.

Lemma add_arg_room capacity a w :
  Z.of_nat (length a) + Z.of_nat (length w) + 2 ≤ capacity →
  add_arg capacity a w = if bool_decide (a = []) then w else a ++ 32 :: w.
Proof.
  intros Hc. unfold add_arg. destruct (decide (a = [])) as [->|Ha].
  - rewrite !bool_decide_true by done. cbn in *. apply take_ge. lia.
  - rewrite !bool_decide_false by done. cbn [negb andb]. rewrite (proj2 (Z.ltb_lt 0 _)) by lia. rewrite length_app. cbn. rewrite take_ge by lia. by rewrite <- app_assoc.
Qed.

Lemma join_args_length ws a :
  (length (foldl (λ a w : cstr, if bool_decide (a = []) then w else (a ++ 32%Z :: w)) a ws) ≤ length a + length (concat (map (λ w, 32%Z :: w) ws)))%nat.
Proof.
  revert a. induction ws as [|w ws IH]; intros a; cbn [foldl map concat]; [cbn; lia|].
  etrans; [apply IH|]. case_bool_decide; subst; rewrite ?length_app; cbn; rewrite ?length_app; lia.
Qed.

Lemma build_args_join b c ws capacity :
  map (arg_text b) (tail (Parser.argv c)) = ws → Z.of_nat (length (concat (map (λ w, 32 :: w) ws))) + 2 ≤ capacity →
  build_args b c None capacity = join_args ws.
Proof.
  intros <- Hc. unfold build_args, join_args.
  assert (∀ ps a, Z.of_nat (length a) + Z.of_nat (length (concat (map (λ w, 32 :: w) (map (arg_text b) ps)))) + 2 ≤ capacity →
    foldl (λ args p, add_arg capacity args (arg_text b p)) a ps =
    foldl (λ a w, if bool_decide (a = []) then w else a ++ 32 :: w) a (map (arg_text b) ps)) as Hl; [|apply Hl; exact Hc].
  clear Hc. induction ps as [|p ps IH]; intros a Hc; [done|]. cbn [map concat foldl] in *. rewrite length_app in Hc. cbn [length] in Hc.
  rewrite add_arg_room by lia. apply IH. case_bool_decide; subst; rewrite ?length_app; cbn [length] in *; lia.
Qed.

Lemma quote_word_words w : (length w + 2 ≤ length (quote_word w))%nat.
Proof.
  unfold quote_word. cbn [length]. rewrite length_app. cbn [length].
  assert (length w ≤ length (concat (map escape w)))%nat; [|lia].
  induction w as [|x w IH]; [done|]. cbn [map concat]. rewrite length_app. unfold escape at 1. case_match; cbn [length]; lia.
Qed.

Lemma quote_line_words ws : (length (concat (map (λ w, 32%Z :: w) ws)) + 2 * length ws ≤ length (quote_line ws))%nat.
Proof.
  unfold quote_line. induction ws as [|w ws IH]; [cbn; lia|]. cbn [map concat length]. rewrite !length_app. cbn [length].
  pose proof (quote_word_words w). lia.
Qed.

(** The argument of a command: its words but the first, then the text piped
    into it unless that is empty, separated by spaces and cut to the buffer. *)
Definition piped_words (input : option cstr) : list cstr :=
  match input with Some (x :: t) => [x :: t] | _ => [] end.
Definition whole_args b (c : Parser.shell_parsed_command_t) (input : option cstr) : cstr :=
  take 2047 (join_args (map (arg_text b) (tail (Parser.argv c)) ++ piped_words input)).

Lemma add_arg_take n a w :
  (0 < n)%nat → add_arg (Z.of_nat n + 1) (take n a) w = take n (if bool_decide (a = []) then w else a ++ 32 :: w).
Proof.
  intros Hn. unfold add_arg. destruct (decide (a = [])) as [->|Ha].
  { rewrite take_nil, !bool_decide_true by done. cbn. f_equal. lia. }
  rewrite !bool_decide_false; [|done|destruct a, n; (done || lia)]. cbn [negb andb].
  pose proof (length_take a n) as Hl. destruct (decide (length a < n)%nat) as [Hs|Hs].
  - rewrite (take_ge a n) by lia. rewrite (proj2 (Z.ltb_lt 0 _)) by lia.
    rewrite take_app_ge, length_app by lia. cbn [length]. rewrite <- app_assoc. f_equal.
    assert ((n - length a)%nat = S (n - length a - 1)) as -> by lia. cbn [take app]. do 2 f_equal. lia.
  - rewrite (proj2 (Z.ltb_ge 0 _)) by lia. rewrite take_app_le by lia.
    replace (Z.to_nat _) with 0%nat by lia. by rewrite take_0, app_nil_r.
Qed.

Lemma build_args_whole b c input : build_args b c input SHELL_IO_BUF_SIZE = whole_args b c input.
Proof.
  unfold whole_args, build_args. change SHELL_IO_BUF_SIZE with (2047 + 1).
  assert (∃ n, Z.of_nat n = 2047 ∧ n = 2047%nat) as (n & Hz & <-) by (exists 2047%nat; split; reflexivity). rewrite <- Hz.
  assert (0 < n)%nat as Hn by lia. clear Hz.
  assert (∀ ps a, foldl (λ args p, add_arg (Z.of_nat n + 1) args (arg_text b p)) (take n a) ps =
    take n (foldl (λ a w, if bool_decide (a = []) then w else a ++ 32 :: w) a (map (arg_text b) ps))) as Hf.
  { induction ps as [|q ps IH]; intros a; [done|]. cbn [map foldl]. rewrite add_arg_take by done. apply IH. }
  specialize (Hf (tail (Parser.argv c)) []). rewrite take_nil in Hf. rewrite Hf.
  unfold join_args, piped_words. rewrite foldl_app.
  destruct input as [[|x t]|]; [done| |done]. by rewrite add_arg_take.
Qed.

(** What a line of one command without redirection does. *)
Definition run_words (w : cstr) (ws : list cstr) sh : option (shell D) :=
  '(ok, sh) ← shell_command_execute fuel uninit w (join_args ws) sh;
  Some (if ok : bool then sh else
        print (10 :: Commands.line "Type 'help' for available commands.") (print w (print (lit "command not found: ") sh))).

(** A line of quoted words calls the command that the first word names, with the
    other words, separated by spaces, as its argument; an unknown word is
    reported. *)
Lemma execute_quoted w ws sh :
  (length (quote_line (w :: ws)) ≤ 255)%nat → (length ws < 31)%nat → Forall (Forall (λ x, x ≠ 0)) (w :: ws) →
  execute fuel uninit (quote_line (w :: ws)) sh = run_words w ws sh.
Proof.
  intros Hl Hn Hz. unfold execute. unfold cstr in Hn.
  assert (∃ n, Z.to_nat SHELL_BUF_SIZE = n ∧ n = 256%nat) as (n & En & En') by (by eexists).
  destruct (parse_quote_line (w :: ws) Parser.SHELL_MAX_COMMANDS n) as (b & c & Hp & Ht & Hop & Hin & Hout); [done| |done| | |].
  { unfold Parser.SHELL_MAX_TOKENS. cbn [length]. lia. }
  { unfold Parser.SHELL_MAX_COMMANDS. lia. }
  { apply Forall_forall. intros u Hu. pose proof (quote_line_length _ _ Hu). lia. }
  rewrite Hp. cbn [mbind option_bind length execute_loop pipeline_more take drop last fmap option_fmap option_map].
  change (1 <? 0) with false. cbv iota. cbn [execute_pipeline]. rewrite Hout.
  rewrite bool_decide_true, bool_decide_false by (done || by intros [? ?]). cbn [negb orb].
  unfold execute_one. destruct (Parser.argv c) as [|p ps] eqn:Ea; [done|]. injection Ht as Hw Hws.
  assert (build_args b c None SHELL_IO_BUF_SIZE = join_args ws) as Eargs.
  { apply build_args_join; [rewrite Ea; unfold arg_text; rewrite En; exact Hws|]. pose proof (quote_line_words (w :: ws)) as Hq. cbn [map concat] in Hq.
    rewrite length_app in Hq. unfold SHELL_IO_BUF_SIZE. lia. }
  rewrite Hin, Eargs.
  unfold arg_text. rewrite En, Hw. unfold run_words.
  destruct (shell_command_execute fuel uninit w (join_args ws) sh) as [[ok sh1]|]; [|done]. cbn [mbind option_bind].
  destruct (Console.console_capture_end (console_of sh1)) as [[n0 t] con']. by destruct ok.
Qed.

(** ** From the keys to the command *)

Lemma chars_edits t sh e :
  edits sh e → Forall (λ c, c ≠ 0 ∧ c ≠ 8 ∧ c ≠ 10) t → (length (e_line e) + length t ≤ 255)%nat →
  let sh' := foldl (λ sh c, shell_input_char c sh) sh t in
  edits sh' (e <| e_line := e_line e ++ t |> <| e_pos := if bool_decide (t = []) then e_pos e else -1 |>) ∧
  quiet (fs sh) (fs sh').
Proof.
  intros He Ht. revert sh e He. induction Ht as [|c t (H0 & H8 & H10) Ht IH]; intros sh e He Hl; cbn [foldl].
  { rewrite app_nil_r. rewrite bool_decide_true by done. split; [|apply quiet_refl]. by destruct e. }
  cbn [length] in Hl. pose proof (char_edits c sh e He H0 H8 H10) as He1. unfold editor_key in He1.
  rewrite (proj2 (Nat.ltb_lt _ _)) in He1 by lia.
  destruct (IH _ _ He1) as [He2 Hq]; [cbn; rewrite length_app; cbn; lia|].
  split; [|eapply quiet_trans; [apply input_char_quiet|exact Hq]].
  rewrite (bool_decide_false (c :: t = [])) by done. revert He2. unfold set_field. cbn.
  rewrite <- app_assoc. cbn. by case_bool_decide.
Qed.

Context `{KeyPorts D}.

Lemma shell_keeps_gui : InputSpec.shell_only (E := shell D).
Proof.
  intros c sh Hg. cbn in *. unfold dev_of in *. by rewrite (quiet_dev _ _ (input_char_quiet c sh)).
Qed.

(** Whatever a typed line leaves: the state after the line has been taken from
    the queue. *)
Lemma typed_line t (s : Input.inp (shell D)) e :
  edits (Input.hw s) e → e_line e = [] → e_queue e = [] → InputSpec.at_rest (Input.kb s) →
  sd_gui_is_active (dev_of (Input.hw s)) = false →
  t ≠ [] → (length t ≤ 255)%nat → Forall (λ c, InputSpec.typable c ∧ c ≠ 8 ∧ c ≠ 10) t →
  let s' := InputSpec.type_keys (concat (map InputSpec.key_codes (t ++ [10]))) s in
  ∃ sh1, dequeue_command (Input.hw s') = Some (t, sh1) ∧ quiet (fs (Input.hw s)) (fs sh1) ∧
    edits sh1 (e <| e_hist := take 8 (t :: e_hist e) |> <| e_pos := -1 |>).
Proof.
  intros He Hline Hqueue Hrest Hg Hne Hl Ht s'.
  assert (Input.hw s' = shell_input_char 10 (foldl (λ sh c, shell_input_char c sh) (Input.hw s) t)) as Hs'.
  { destruct (InputSpec.type_text (t ++ [10]) s shell_keeps_gui) as (Hh & _); [|done|done|].
    - apply Forall_app. split; [eapply Forall_impl; [exact Ht|by intros c [? _]]|]. constructor; [|constructor].
      apply (bool_decide_unpack _). vm_compute. exact I.
    - subst s'. rewrite Hh, foldl_app. done. }
  destruct (chars_edits t (Input.hw s) e He) as [He1 Hq1].
  { eapply Forall_impl; [exact Ht|]. intros c (Hc & ? & ?). apply InputSpec.typable_pos in Hc. split_and!; (done || lia). }
  { rewrite Hline. cbn. lia. }
  rewrite Hline, app_nil_l, bool_decide_false in He1 by done.
  pose proof (enter_edits _ _ He1) as He2. unfold editor_key in He2. cbn [e_line e_queue set_field] in He2.
  rewrite bool_decide_false in He2 by done. rewrite Hqueue in He2. cbn [length Nat.ltb Nat.leb app] in He2.
  pose proof (dequeue_edits _ _ He2) as Hd. rewrite Hs'.
  destruct (dequeue_command _) as [[u sh1]|]; [|done]. destruct Hd as (q & Eq & He3 & Ef).
  cbn [e_queue set_field] in Eq. injection Eq as -> <-. exists sh1. split; [done|]. split.
  - rewrite Ef. eapply quiet_trans; [exact Hq1|apply input_char_quiet].
  - destruct e as [l h q p d]. cbn in Hline, Hqueue. subst l q. exact He3.
Qed.

(** C34: What is typed is run: with an empty line and an empty queue, the desktop off
    and the keyboard at rest, the scancodes that a US keyboard sends for a line of
    quoted words (at most 255 bytes and 31 words) and for the enter key, given to
    the keyboard driver, and one round of the main loop call the command that the
    first word names with the other words as its argument, on the files and
    devices as they were, and print the prompt again; the line is the newest of
    the history.  (Of a line without quotes the parser loses the arguments.) *)
Theorem typed_command_runs w ws (s : Input.inp (shell D)) e :
  edits (Input.hw s) e → e_line e = [] → e_queue e = [] → InputSpec.at_rest (Input.kb s) →
  sd_gui_is_active (dev_of (Input.hw s)) = false →
  (length (quote_line (w :: ws)) ≤ 255)%nat → (length ws < 31)%nat → Forall (Forall (λ x, x ≠ 0)) (w :: ws) →
  Forall (λ c, InputSpec.typable c ∧ c ≠ 8 ∧ c ≠ 10) (quote_line (w :: ws)) →
  let s' := InputSpec.type_keys (concat (map InputSpec.key_codes (quote_line (w :: ws) ++ [10]))) s in
  ∃ sh1, quiet (fs (Input.hw s)) (fs sh1) ∧
    edits sh1 (e <| e_hist := take 8 (quote_line (w :: ws) :: e_hist e) |> <| e_pos := -1 |>) ∧
    shell_process_pending fuel uninit (Input.hw s') =
      sh2 ← run_words w ws sh1;
      Some (if sd_gui_is_active (dev_of sh2) then sh2 else on_con Console.console_cursor_show (print_prompt sh2)).
Proof.
  intros He Hline Hqueue Hrest Hg Hl Hn Hz Ht s'.
  destruct (typed_line (quote_line (w :: ws)) s e) as (sh1 & Hd & Hq & He1); [done..|].
  exists sh1. split; [done|]. split; [done|]. subst s'. unfold shell_process_pending. rewrite Hd.
  by rewrite execute_quoted.
Qed.

Lemma init_edits sh : edits (shell_init sh) (mkEditor [] [] [] (-1) []).
Proof. split; cbn; try done; try lia. split; [cbn; lia|done]. Qed.

(** ** Pipes and redirections *)

(** The command does nothing but print [t]. *)
Definition prints_only (fn : Registry.command_fn) (args t : cstr) : Prop :=
  ∀ sh, command_run fuel uninit fn args sh = Some (print t sh).

Lemma echo_prints args : prints_only Registry.command_echo args (args ++ [10]).
Proof.
  intros sh. cbn [command_run]. f_equal. unfold print, on_con, on_machine, on_fs, Commands.echo_run, Commands.putc.
  destruct sh as [? ? ? ? ? ? ? ? ? ? ? v]. destruct v as [? ? ? ? ? [c d]]. cbn.
  unfold set_field, out, vfs_output, Vfs.print. cbn. unfold set_field. cbn. unfold Console.console_print. by rewrite foldl_app.
Qed.

Definition captured_state (n : Z) : Console.console → Console.console := λ c,
  c <| Console.g_capture_buffer := [] |> <| Console.g_capture_capacity := 0 |> <| Console.g_capture_length := n |>.

(** A command whose output is captured: nothing reaches the screen, at most 2047
    bytes are kept. *)
Lemma execute_one_captured b c input sh p cmd args t :
  head (Parser.argv c) = Some p → Parser.redirect_in c = None → build_args b c input SHELL_IO_BUF_SIZE = args →
  Registry.find_command (arg_text b p) = Some cmd → prints_only (Registry.run cmd) args t →
  Console.g_capture_active (console_of sh) = false →
  execute_one fuel uninit b c input true sh =
    Some (true, take 2047 t, on_con (captured_state (Z.of_nat (length (take 2047 t)))) sh).
Proof.
  intros Hp Hin Ha Hcmd Hpr Hcap. unfold execute_one. destruct (Parser.argv c) as [|q ps]; [done|]. injection Hp as ->.
  rewrite Hin, Ha. unfold shell_command_execute. rewrite Hcmd, Hpr. cbn [mbind option_bind].
  pose proof (ConsoleSpec.captured_text SHELL_IO_BUF_SIZE t (console_of sh) ltac:(done) Hcap) as Hc.
  change (console_of (print t (on_con (Console.console_capture_begin SHELL_IO_BUF_SIZE) sh)))
    with (Console.console_print t (Console.console_capture_begin SHELL_IO_BUF_SIZE (console_of sh))).
  rewrite Hc. reflexivity.
Qed.

(** C35: A pipe hands on what the first command prints, here of a command that
    does nothing but print (as [echo]): the first 2047 bytes of its text become
    the input of the rest of the pipeline, and the screen shows nothing of it;
    the second command, when it is the last and its output is not redirected,
    runs with its own words and that text as its argument, cut to 2047 bytes. *)
Theorem pipe_passes_output b c1 c2 cs input sh p cmd t :
  head (Parser.argv c1) = Some p → Parser.redirect_in c1 = None → Parser.redirect_out c1 = None →
  Registry.find_command (arg_text b p) = Some cmd → prints_only (Registry.run cmd) (whole_args b c1 input) t →
  Console.g_capture_active (console_of sh) = false →
  let sh1 := on_con (captured_state (Z.of_nat (length (take 2047 t)))) sh in
  execute_pipeline fuel uninit b (c1 :: c2 :: cs) input sh =
    execute_pipeline fuel uninit b (c2 :: cs) (Some (take 2047 t)) sh1 ∧
  ∀ q cmd2, head (Parser.argv c2) = Some q → Parser.redirect_in c2 = None → Parser.redirect_out c2 = None →
    Registry.find_command (arg_text b q) = Some cmd2 →
    execute_pipeline fuel uninit b [c1; c2] input sh =
      sh2 ← command_run fuel uninit (Registry.run cmd2) (whole_args b c2 (Some (take 2047 t))) sh1; Some (true, sh2).
Proof.
  intros Hp Hin Hout Hcmd Hpr Hcap sh1.
  assert (∀ cs, execute_pipeline fuel uninit b (c1 :: c2 :: cs) input sh =
    execute_pipeline fuel uninit b (c2 :: cs) (Some (take 2047 t)) sh1) as Hfirst.
  { intros cs'. cbn [execute_pipeline]. rewrite Hout, (bool_decide_false (c2 :: cs' = [])) by done. cbn [negb orb].
    rewrite (execute_one_captured b c1 input sh p cmd _ t Hp Hin (build_args_whole b c1 input) Hcmd Hpr Hcap). done. }
  split; [apply Hfirst|]. intros q cmd2 Hq Hin2 Hout2 Hcmd2. rewrite Hfirst. generalize sh1. intros sh'.
  cbn [execute_pipeline]. rewrite Hout2, bool_decide_true, bool_decide_false by (done || by intros [? ?]). cbn [negb orb].
  unfold execute_one. destruct (Parser.argv c2) as [|q' ps] eqn:Ea; [done|]. injection Hq as ->.
  rewrite Hin2, build_args_whole. unfold shell_command_execute. rewrite Hcmd2.
  destruct (command_run fuel uninit _ _ sh') as [sh2|]; [|done]. cbn [mbind option_bind].
  by destruct (Console.console_capture_end (console_of sh2)) as [[n0 u] con'].
Qed.

(** Redirected output goes to the file. *)
Theorem redirect_writes_file b c input sh p q cmd args t :
  head (Parser.argv c) = Some p → Parser.redirect_in c = None → Parser.redirect_out c = Some q → Parser.append c = false →
  build_args b c input SHELL_IO_BUF_SIZE = args →
  Registry.find_command (arg_text b p) = Some cmd → prints_only (Registry.run cmd) args t →
  Console.g_capture_active (console_of sh) = false →
  let sh1 := on_con (captured_state (Z.of_nat (length (take 2047 t)))) sh in
  ∀ v, Vfs.vfs_write uninit (arg_text b q) (Some (take 2047 t)) (fs sh1) = Some (0, v) →
    execute_pipeline fuel uninit b [c] input sh = Some (true, sh1 <| fs := v |>).
Proof.
  intros Hp Hin Hout Happ Ha Hcmd Hpr Hcap sh1 v Hw. cbn [execute_pipeline]. rewrite Hout.
  rewrite (bool_decide_true (is_Some (Some q))) by done. rewrite orb_true_r.
  rewrite (execute_one_captured b c input sh p cmd args t) by done. cbn [mbind option_bind negb].
  unfold redirect_to. rewrite Happ. fold sh1.
  replace (Vfs.vfs_write _ _ _ _) with (Some (0, v)) by (symmetry; exact Hw). reflexivity.
Qed.
End shell.

(** ** A machine *)

(** The device commands that were called, with their arguments; nothing is
    mounted and the desktop is off. *)
Definition log_dev : Type := list (Registry.command_fn * cstr).

#[export] Instance log_dev_shell : ShellDev log_dev := {
  sd_gui_is_active _ := false;
  sd_baseboard_manufacturer _ := lit "Nexus";
  sd_ticks _ := 0;
  sd_fat32_is_mounted _ := false;
  sd_fat32_is_directory _ _ := false;
  sd_fat32_mkdir _ d := (false, d);
  sd_fat32_read_file _ _ _ := None;
  sd_fat32_write_file _ _ d := (false, d);
  sd_fat32_list _ c d := (c, d);
  sd_command fn args c d := (c, d ++ [(fn, args)]);
}.

#[export] Instance log_dev_ports : KeyPorts log_dev := {
  kp_inb _ d := (0, d);
  kp_outb _ _ d := d;
  kp_gui_handle_key _ d := d;
}.

Definition blank_console : Console.console :=
  Console.mkConsole None (λ _, 0) 0xFFFFFF 0 0 0 0 0 0 0 false false 0 [] 0 0 false
    (λ _ _, Console.mkCell 32 0 0) 0 0.

Definition screen : Console.nexus_framebuffer_t := Console.mkFb 640 320 640 0.

Definition empty_fs : Vfs.vfs (machine log_dev) :=
  Vfs.mkVfs (λ _, Vfs.mkNode Vfs.VFS_NODE_FREE [] 0 (λ _, 0) 0) 0 [] (λ _, Mount.mkMount false [] [] [] 0) (λ _, 0)
    (mkMachine (Console.console_init screen blank_console) []).

Definition start : shell log_dev := shell_init (mkShell (λ _, 0) 0 (λ _, []) 0 0 (λ _, []) 0 0 0 (-1) [] empty_fs).

Lemma commands_reachable_witness :
  Registry.find_command (lit "dir") = Registry.find_command (lit "ls").
Proof.
  assert (∃ e, e ∈ Registry.g_commands ∧ lit "ls" ∈ keys e ∧ lit "dir" ∈ keys e) as (e & He & H1 & H2).
  { exists (Registry.ENTRY "ls" (Some "dir"%string) Registry.CMD_FILESYSTEM "ls" "list current directory" Registry.command_ls).
    split; [|split; [left|right; left]]. unfold Registry.g_commands.
    repeat first [apply list_elem_of_here | apply list_elem_of_further]. }
  exact (eq_trans (commands_reachable e (lit "dir") He H2) (eq_sym (commands_reachable e (lit "ls") He H1))).
Defined.

Definition history_keys : list event := Key <$> [Char 108; Char 115; Enter; Char 112; Char 119; Char 100; Enter; Char 120].

Lemma history_keys_ok : Forall event_ok history_keys.
Proof. unfold history_keys. repeat constructor; cbn; lia. Qed.

Lemma shell_refines_editor_witness :
  ∃ sh', shell_run 0 [] history_keys start = Some sh' ∧
    edits sh' (mkEditor (lit "x") [lit "pwd"; lit "ls"] [lit "ls"; lit "pwd"] (-1) []).
Proof.
  destruct (shell_refines_editor 0 [] history_keys start (mkEditor [] [] [] (-1) []) (init_edits _) history_keys_ok) as [Hr Hs].
  destruct (Hs ltac:(unfold history_keys; repeat constructor; discriminate)) as [sh' E].
  exists sh'. split; [exact E|]. exact (Hr sh' E).
Defined.

Lemma history_browse_roundtrip_witness :
  ∃ sh sh1 sh2, edits sh (mkEditor (lit "x") [lit "pwd"; lit "ls"] [lit "ls"; lit "pwd"] (-1) []) ∧
    shell_run 0 [] [Key Up; Key Up] sh = Some sh1 ∧ shell_run 0 [] [Key Down; Key Down] sh1 = Some sh2 ∧
    buf_text (upd (g_buf sh1) (g_len sh1) 0) = lit "ls" ∧
    buf_text (upd (g_buf sh2) (g_len sh2) 0) = buf_text (upd (g_buf sh) (g_len sh) 0).
Proof.
  destruct (run_edits 0 [] history_keys start (mkEditor [] [] [] (-1) []) (init_edits _) history_keys_ok) as [Hr Hs].
  destruct (Hs ltac:(unfold history_keys; repeat constructor; discriminate)) as [sh E]. pose proof (Hr sh E) as He.
  destruct (history_browse_roundtrip 0 [] 2 sh (mkEditor (lit "x") [lit "pwd"; lit "ls"] [lit "ls"; lit "pwd"] (-1) []) He eq_refl ltac:(cbn; lia))
    as (sh1 & sh2 & H1 & H2 & H3 & _ & H5).
  exists sh, sh1, sh2. split; [exact He|]. split; [exact H1|]. split; [exact H2|]. split; [|exact H5]. by apply H3.
Defined.

Definition start_input : Input.inp (shell log_dev) :=
  Input.mkInp (Input.mkCounters (λ _, 0) (λ _, 0) (λ _ _, false)) InputSpec.idle_keyboard InputSpec.idle_mouse start.

(** Typing ['beep' 'loud'] and enter calls [beep] with the argument [loud]. *)
Lemma typed_command_runs_witness :
  ∃ sh1 sh2, quiet (fs start) (fs sh1) ∧
    shell_process_pending 0 [] (Input.hw (InputSpec.type_keys
      (concat (map InputSpec.key_codes (quote_line [lit "beep"; lit "loud"] ++ [10]))) start_input)) = Some sh2 ∧
    dev_of sh2 = dev_of sh1 ++ [(Registry.command_beep, lit "loud")].
Proof.
  destruct (typed_command_runs 0 [] (lit "beep") [lit "loud"] start_input (mkEditor [] [] [] (-1) [])) as (sh1 & Hq & _ & E).
  - apply init_edits.
  - reflexivity.
  - reflexivity.
  - by repeat split.
  - reflexivity.
  - vm_compute. lia.
  - cbn. lia.
  - apply (bool_decide_unpack _). vm_compute. exact I.
  - apply (bool_decide_unpack _). vm_compute. exact I.
  - eexists sh1, _. split; [exact Hq|]. split; [exact E|]. reflexivity.
Defined.

(** The commands of a line and the buffer they point into. *)
Definition parsed (line : string) : (Z → Z) * list Parser.shell_parsed_command_t :=
  match Parser.shell_parse_line 64 (Parser.line_buffer (lit line)) 8 with
  | Some (_, b, cs) => (b, cs)
  | None => (λ _, 0, [])
  end.

Definition nth_command (line : string) (i : nat) : Parser.shell_parsed_command_t :=
  default Parser.no_command ((parsed line).2 !! i).

Definition grep_entry : Registry.command_entry_t :=
  Registry.ENTRY "grep" None Registry.CMD_FILESYSTEM "grep <word> <file>" "search for text in a file" Registry.command_grep.

Definition echo_entry : Registry.command_entry_t :=
  Registry.ENTRY "echo" None Registry.CMD_TEXT "echo <text>" "print text" Registry.command_echo.

(** ['echo' 'hi' | 'grep' 'h'] runs [grep] with the argument [h hi]. *)
Lemma pipe_passes_output_witness :
  let line := "'echo' 'hi' | 'grep' 'h'"%string in
  execute_pipeline 0 [] (parsed line).1 [nth_command line 0; nth_command line 1] None start =
  (sh2 ← command_run 0 [] Registry.command_grep (lit "h hi" ++ [10]) (on_con (captured_state 3) start); Some (true, sh2)).
Proof.
  destruct (pipe_passes_output 0 [] (parsed "'echo' 'hi' | 'grep' 'h'").1 (nth_command "'echo' 'hi' | 'grep' 'h'" 0)
    (nth_command "'echo' 'hi' | 'grep' 'h'" 1) [] None start 0 echo_entry (lit "hi" ++ [10])
    ltac:(vm_compute; reflexivity) ltac:(vm_compute; reflexivity) ltac:(vm_compute; reflexivity) ltac:(vm_compute; reflexivity)
    (echo_prints 0 [] (lit "hi")) eq_refl) as [_ H].
  exact (H 14 grep_entry ltac:(vm_compute; reflexivity) ltac:(vm_compute; reflexivity) ltac:(vm_compute; reflexivity)
    ltac:(vm_compute; reflexivity)).
Defined.

Definition redirect_line : string := "'echo' 'hi' > 'f'".
Definition redirect_target : Z := default 0 (Parser.redirect_out (nth_command redirect_line 0)).
#[local] Notation redirect_write :=
  (Vfs.vfs_write [] (arg_text (parsed redirect_line).1 redirect_target) (Some (take 2047 (lit "hi" ++ [10])))
    (fs (on_con (captured_state (Z.of_nat (length (take 2047 (lit "hi" ++ [10]))))) start))).

Lemma redirect_writes_file_witness :
  ∃ v sh1, redirect_write = Some (0, v) ∧
    execute_pipeline 0 [] (parsed redirect_line).1 [nth_command redirect_line 0] None start = Some (true, sh1 <| fs := v |>).
Proof.
  assert (option_map fst redirect_write = Some 0) as E0 by (vm_compute; reflexivity).
  destruct redirect_write as [[rc v]|] eqn:E; [|discriminate]. injection E0 as ->.
  eexists v, _. split; [reflexivity|].
  exact (redirect_writes_file 0 [] (parsed redirect_line).1 (nth_command redirect_line 0) None start 0 redirect_target
    echo_entry (lit "hi") (lit "hi" ++ [10])
    ltac:(vm_compute; reflexivity) ltac:(vm_compute; reflexivity) ltac:(vm_compute; reflexivity) ltac:(vm_compute; reflexivity)
    ltac:(vm_compute; reflexivity) ltac:(vm_compute; reflexivity) (echo_prints 0 [] (lit "hi")) eq_refl v E).
Defined.

(** ** Defects *)

(** [a && b | c] with a failing [a] skips only [b]: the rest of the pipeline runs,
    without its input. *)
Theorem and_skips_half_a_pipeline :
  option_map dev_of (execute 0 [] (lit "'nosuch' && 'beep' | 'halt'") start) = Some [(Registry.command_halt, [])].
Proof. vm_compute. reflexivity. Qed.

End ShellSpec.
