(* ===== verification/Window.v ===== *)
(** * Window manager

    [src/gui/window/window.c]: eight window slots, the active window and the
    window that is being dragged.  Coordinates are C [int]s of screen size, far
    from overflow. *)

From Stdlib Require Import Lia ZArith Bool.
From stdpp Require Import base list numbers strings.
From S2P Require Import Prelude.

Local Open Scope Z_scope.

Module Window.

Definition GUI_WINDOW_MAX : Z := 8.
Definition GUI_WINDOW_NONE : Z := 0.
Definition GUI_WINDOW_TERMINAL : Z := 1.
Definition GUI_WINDOW_SETTINGS : Z := 2.
Definition GUI_WINDOW_FILES : Z := 3.
Definition GUI_WINDOW_SEARCH : Z := 4.

Record gui_window_t := mkWindow {
  id : Z;
  x : Z;
  y : Z;
  width : Z;
  height : Z;
  visible : bool;
  focused : bool;
  title : cstr;
}.
#[export] Instance eta_window : Eta gui_window_t := λ r,
  mkWindow (id r) (x r) (y r) (width r) (height r) (visible r) (focused r) (title r).

Record wm := mkWm {
  windows : Z → gui_window_t;
  screen_w : Z;
  screen_h : Z;
  active_id : Z;
  drag_id : Z;
  drag_dx : Z;
  drag_dy : Z;
}.
#[export] Instance eta_wm : Eta wm := λ r,
  mkWm (windows r) (screen_w r) (screen_h r) (active_id r) (drag_id r) (drag_dx r) (drag_dy r).
Implicit Types s : wm.
Implicit Types w : gui_window_t.

(** The window number is an unsigned enumeration value. *)
Definition slot (i : Z) : bool := (GUI_WINDOW_NONE <? i) && (i <? GUI_WINDOW_MAX).

Definition set_window (i : Z) (f : gui_window_t → gui_window_t) s : wm :=
  s <| windows ::= λ ws, upd ws i (f (ws i)) |>.

Definition in_slots (i : Z) : bool := (0 <=? i) && (i <? GUI_WINDOW_MAX).

Definition gui_window_manager_init (w h : Z) s : wm :=
  mkWm (λ i, if in_slots i then (windows s i) <| id := GUI_WINDOW_NONE |> else windows s i)
       w h GUI_WINDOW_NONE GUI_WINDOW_NONE (drag_dx s) (drag_dy s).

Definition gui_window_focus (i : Z) s : wm :=
  s <| active_id := i |>
    <| windows ::= λ ws j, if in_slots j then (ws j) <| focused := (j =? i) && visible (ws j) |> else ws j |>.

(** The result is the slot of the window, 0 for the null pointer. *)
Definition gui_window_open (i : Z) (t : cstr) (w h : Z) s : Z * wm :=
  if negb (slot i) then (0, s) else
  let w := if w <? 220 then 220 else w in
  let h := if h <? 120 then 120 else h in
  let w := if screen_w s - 24 <? w then screen_w s - 24 else w in
  let h := if screen_h s - 24 <? h then screen_h s - 24 else h in
  let old := windows s i in
  let s := if negb (visible old) || negb (width old =? w) || negb (height old =? h) then
             set_window i (λ win, win <| x := Z.quot (screen_w s - w) 2 |> <| y := Z.quot (screen_h s - h) 2 |>
                                      <| width := w |> <| height := h |>) s
           else s in
  let s := set_window i (λ win, win <| id := i |> <| title := t |> <| visible := true |>) s in
  (i, gui_window_focus i s).

Definition gui_window_close (i : Z) s : wm :=
  if negb (slot i) then s else
  let s := set_window i (λ win, win <| visible := false |> <| focused := false |>) s in
  let s := if active_id s =? i then s <| active_id := GUI_WINDOW_NONE |> else s in
  if drag_id s =? i then s <| drag_id := GUI_WINDOW_NONE |> else s.

Definition gui_window_get (i : Z) s : option gui_window_t :=
  if slot i && visible (windows s i) then Some (windows s i) else None.

Definition gui_window_active_id s : Z := active_id s.

Definition inside w (px py : Z) : bool :=
  visible w && (x w <=? px) && (y w <=? py) && (px <? x w + width w) && (py <? y w + height w).

(** The press of a button: [Some] for the early return. *)
Definition pointer_press (mx my : Z) s : option Z * wm :=
  let a := active_id s in
  if slot a && inside (windows s a) mx my then
    let w := windows s a in
    let s := gui_window_focus (id w) s in
    if (x w + width w - 34 <=? mx) && (my <? y w + 32) then (Some (- active_id s), s) else
    if my <? y w + 32 then
      (None, s <| drag_id := active_id s |> <| drag_dx := mx - x w |> <| drag_dy := my - y w |>)
    else (None, s)
  else (None, s).

Definition pointer_drag (mx my : Z) s : Z * wm :=
  let d := drag_id s in
  if slot d then
    let w := windows s d in
    let nx := mx - drag_dx s in
    let ny := my - drag_dy s in
    let nx := if nx <? 0 then 0 else nx in
    let ny := if ny <? 0 then 0 else ny in
    let nx := if screen_w s <? nx + width w then screen_w s - width w else nx in
    let ny := if screen_h s <? ny + height w then screen_h s - height w else ny in
    if negb (nx =? x w) || negb (ny =? y w)
    then (active_id s, set_window d (λ win, win <| x := nx |> <| y := ny |>) s)
    else (0, s)
  else (0, s).

Definition gui_window_pointer (mx my buttons pressed : Z) s : Z * wm :=
  let s := if has_bits buttons 1 then s else s <| drag_id := GUI_WINDOW_NONE |> in
  let '(ret, s) := if has_bits pressed 1 && negb (active_id s =? GUI_WINDOW_NONE)
                   then pointer_press mx my s else (None, s) in
  match ret with
  | Some r => (r, s)
  | None =>
    if negb (drag_id s =? GUI_WINDOW_NONE) && has_bits buttons 1 then pointer_drag mx my s else (0, s)
  end.

(** ** The windows stay on the screen

    Every call keeps each visible window whole on the screen, and exactly the
    active window focused. *)
Definition on_screen (i : Z) w s : Prop :=
  id w = i ∧ 0 ≤ x w ∧ x w + width w ≤ screen_w s ∧ 0 ≤ y w ∧ y w + height w ≤ screen_h s ∧
  0 < width w ≤ screen_w s - 24 ∧ 0 < height w ≤ screen_h s - 24.

Record placed s : Prop := {
  pl_screen : 24 < screen_w s ∧ 24 < screen_h s;
  pl_on_screen i : slot i = true → visible (windows s i) = true → on_screen i (windows s i) s;
  pl_drag : slot (drag_id s) = true → visible (windows s (drag_id s)) = true;
}.

Record window_wf s : Prop := {
  wf_placed : placed s;
  wf_focus i : slot i = true → focused (windows s i) = (i =? active_id s) && visible (windows s i);
}.

Inductive window_call :=
  | COpen (i : Z) (t : cstr) (w h : Z)
  | CClose (i : Z)
  | CFocus (i : Z)
  | CPointer (mx my buttons pressed : Z).

Definition window_step (c : window_call) s : wm :=
  match c with
  | COpen i t w h => (gui_window_open i t w h s).2
  | CClose i => gui_window_close i s
  | CFocus i => gui_window_focus i s
  | CPointer mx my b p => (gui_window_pointer mx my b p s).2
  end.

(** The static variables before the first call. *)
Definition boot : wm := mkWm (λ _, mkWindow 0 0 0 0 0 false false []) 0 0 0 0 0 0.

Lemma slot_in_slots i : slot i = true → in_slots i = true.
Proof. unfold slot, in_slots, GUI_WINDOW_NONE, GUI_WINDOW_MAX. lia. Qed.

Lemma wf_init W H : 24 < W → 24 < H → window_wf (gui_window_manager_init W H boot).
Proof.
  intros HW HH. split; [split|]; simpl; try done.
  - intros i _ Hv. by destruct (in_slots i).
  - intros i Hi. rewrite slot_in_slots by done. by rewrite andb_false_r.
Qed.

Lemma wf_focus_step i s : placed s → window_wf (gui_window_focus i s).
Proof.
  intros []. split; [split|]; simpl; try done.
  - intros j Hj. rewrite (slot_in_slots j Hj). simpl. by apply pl_on_screen0.
  - intros Hd. rewrite (slot_in_slots _ Hd). by apply pl_drag0.
  - intros j Hj. by rewrite (slot_in_slots j Hj).
Qed.

(** A window that is moved, resized, shown or hidden. *)
Lemma placed_set i f s :
  placed s → (visible (f (windows s i)) = true → on_screen i (f (windows s i)) s) →
  (drag_id s = i → slot i = true → visible (f (windows s i)) = true) →
  placed (set_window i f s).
Proof.
  intros [] Hv Hd. split; simpl; [done| |].
  - intros j Hj. unfold upd. destruct (Z.eqb_spec j i) as [->|]; [done|]. by apply pl_on_screen0.
  - intros Hs. unfold upd. destruct (Z.eqb_spec (drag_id s) i) as [Hdi|]; [|by apply pl_drag0].
    apply Hd; [done|]. by rewrite <- Hdi.
Qed.

Lemma quot_half a : 0 ≤ a → 0 ≤ Z.quot a 2 ∧ 2 * Z.quot a 2 ≤ a.
Proof. intros Ha. rewrite Z.quot_div_nonneg by lia. pose proof (Z.mul_div_le a 2). split; [apply Z.div_pos; lia|lia]. Qed.

Lemma wf_open i t W0 H0 s : window_wf s → window_wf (gui_window_open i t W0 H0 s).2.
Proof.
  intros [Hp Hf]. unfold gui_window_open. destruct (slot i) eqn:Hi; cbn [negb]; [|by split].
  set (W1 := if W0 <? 220 then 220 else W0). set (H1 := if H0 <? 120 then 120 else H0).
  set (W2 := if screen_w s - 24 <? W1 then _ else W1). set (H2 := if screen_h s - 24 <? H1 then _ else H1).
  assert (Hw : 0 < W2 ≤ screen_w s - 24 ∧ 0 < H2 ≤ screen_h s - 24).
  { pose proof (pl_screen s Hp). subst W1 H1 W2 H2. repeat case_match; lia. }
  clearbody W1 H1 W2 H2. cbv zeta. cbn [snd]. apply wf_focus_step.
  pose proof (quot_half (screen_w s - W2)) as Hx. pose proof (quot_half (screen_h s - H2)) as Hy.
  destruct (negb (visible (windows s i)) || _ || _) eqn:Hnew.
  - assert (Hp1 : placed (set_window i (λ win, win <| visible := true |> <| id := i |> <| x := Z.quot (screen_w s - W2) 2 |>
        <| y := Z.quot (screen_h s - H2) 2 |> <| width := W2 |> <| height := H2 |> <| title := t |>) s)).
    { apply placed_set; [done|intros _; unfold on_screen; simpl; lia|done]. }
    destruct Hp1. split; simpl in *; try done.
    + intros j Hj. unfold upd in *. specialize (pl_on_screen0 j Hj). by destruct (j =? i) eqn:E; [rewrite Z.eqb_refl|].
    + intros Hd. specialize (pl_drag0 Hd). unfold upd in *. by destruct (drag_id s =? i) eqn:E; [rewrite Z.eqb_refl|].
  - rewrite !orb_false_iff, !negb_false_iff in Hnew. destruct Hnew as [[Hv _] _].
    apply placed_set; [done| |done]. intros _. destruct (pl_on_screen s Hp i Hi Hv) as (Hid & Hr).
    split; [done|exact Hr].
Qed.

Lemma wf_close i s : window_wf s → window_wf (gui_window_close i s).
Proof.
  intros [[] Hf]. unfold gui_window_close. destruct (slot i) eqn:Hi; cbn [negb]; [|by split].
  set (s1 := set_window _ _ s). change (active_id s1) with (active_id s).
  set (s2 := if active_id s =? i then _ else s1).
  assert (Hd : drag_id s2 = drag_id s) by (subst s2; by destruct (active_id s =? i)).
  assert (Hw : windows s2 = windows s1) by (subst s2; by destruct (active_id s =? i)).
  assert (Hs : screen_w s2 = screen_w s ∧ screen_h s2 = screen_h s) by (subst s2; by destruct (active_id s =? i)).
  assert (Hf2 : ∀ j, slot j = true → focused (windows s2 j) = (j =? active_id s2) && visible (windows s2 j)).
  { intros j Hj. rewrite Hw. subst s1 s2. simpl. unfold upd. destruct (Z.eqb_spec j i) as [->|Hne].
    - by rewrite andb_false_r.
    - rewrite Hf by done. destruct (Z.eqb_spec (active_id s) i) as [Ha|]; simpl; [|done].
      rewrite Ha. rewrite (proj2 (Z.eqb_neq j i)) by done.
      rewrite (proj2 (Z.eqb_neq j GUI_WINDOW_NONE)); [done|]. intros ->. by vm_compute in Hj. }
  assert (Hon : ∀ j, slot j = true → visible (windows s2 j) = true → on_screen j (windows s2 j) s).
  { intros j Hj. rewrite Hw. subst s1. simpl. unfold upd. destruct (j =? i); [done|by apply pl_on_screen0]. }
  assert (Hv : ∀ j, j ≠ i → windows s2 j = windows s j).
  { intros j Hj. rewrite Hw. subst s1. simpl. by apply upd_ne. }
  clearbody s2. destruct Hs as [Hs1 Hs2].
  assert (Hpl : ∀ d, (slot d = true → visible (windows s2 d) = true) →
    placed (s2 <| drag_id := d |>)).
  { intros d Hdv. split; simpl; [by rewrite Hs1, Hs2| |done]. intros j Hj Hvj. unfold on_screen. simpl. rewrite Hs1, Hs2. by apply Hon. }
  destruct (Z.eqb_spec (drag_id s2) i) as [He|He].
  - split; [by apply Hpl|done].
  - split; [|done]. replace s2 with (s2 <| drag_id := drag_id s2 |>) by by destruct s2.
    apply Hpl. intros Hsl. rewrite Hv by done. rewrite Hd in *. by apply pl_drag0.
Qed.

Lemma wf_press mx my s ret s' : window_wf s → pointer_press mx my s = (ret, s') → window_wf s'.
Proof.
  intros W E. unfold pointer_press in E. destruct (slot (active_id s) && inside _ _ _) eqn:Hin; [|by injection E as <- <-].
  apply andb_prop in Hin as [Hsl Hin]. unfold inside in Hin. rewrite !andb_true_iff in Hin. destruct Hin as [[[[Hv _] _] _] _].
  destruct (pl_on_screen s (wf_placed s W) _ Hsl Hv) as [Hid _]. rewrite Hid in E.
  pose proof (wf_focus_step (active_id s) s (wf_placed s W)) as W'.
  destruct (_ && _) in E; [by injection E as <- <-|]. destruct (my <? _); injection E as <- <-; [|done].
  destruct W' as [[] Hf]. split; [|done]. split; [done|done|]. intros _. simpl.
  by rewrite (slot_in_slots _ Hsl).
Qed.

Lemma wf_pointer mx my b p s : window_wf s → window_wf (gui_window_pointer mx my b p s).2.
Proof.
  intros W. unfold gui_window_pointer.
  set (s1 := if has_bits b 1 then s else _).
  assert (W1 : window_wf s1).
  { subst s1. destruct (has_bits b 1); [done|]. destruct W as [[] Hf]. split; [|done]. by split. }
  clearbody s1. destruct (if _ && _ then pointer_press mx my s1 else (None, s1)) as [ret s2] eqn:E.
  assert (W2 : window_wf s2).
  { destruct (_ && _) in E; [by eapply wf_press|by injection E as <- <-]. }
  clear E. destruct ret as [r|]; [done|]. destruct (_ && _); [|done].
  unfold pointer_drag. destruct (slot (drag_id s2)) eqn:Hsl; [|done].
  set (nx := if screen_w s2 <? _ then _ else _). set (ny := if screen_h s2 <? _ then _ else _).
  destruct (_ || _); [|done]. simpl. destruct W2 as [Hp Hf].
  pose proof (pl_drag s2 Hp Hsl) as Hv. pose proof (pl_on_screen s2 Hp _ Hsl Hv) as (Hid & Hr). 
  split.
  - apply placed_set; [done| |done]. intros _. unfold on_screen. simpl. split; [done|].
    subst nx ny. repeat case_match; lia.
  - intros j Hj. simpl. unfold upd. destruct (Z.eqb_spec j (drag_id s2)) as [->|]; [|by apply Hf]. simpl. by apply Hf.
Qed.

Lemma window_wf_run W H cs :
  24 < W → 24 < H → window_wf (foldl (λ s c, window_step c s) (gui_window_manager_init W H boot) cs).
Proof.
  intros HW HH. induction cs as [|c cs IH] using rev_ind; [by apply wf_init|]. rewrite foldl_snoc.
  destruct c; simpl; [by apply wf_open|by apply wf_close|apply wf_focus_step, IH|by apply wf_pointer].
Qed.

(** Whatever is called after [gui_window_manager_init], in whatever order: every
    visible window lies on the screen, the dragged window is visible, and exactly
    the active window, while it is visible, has the focus. *)
Theorem windows_stay_on_screen W H cs :
  24 < W → 24 < H → window_wf (foldl (λ s c, window_step c s) (gui_window_manager_init W H boot) cs).
Proof. apply window_wf_run. Qed.

Lemma windows_stay_on_screen_witness :
  let s := foldl (λ s c, window_step c s) (gui_window_manager_init 640 480 boot)
    [COpen 1 (lit "Terminal") 5000 10; COpen 3 (lit "Files") 300 300; CPointer 320 100 1 1; CPointer 10000 (-20) 1 0] in
  window_wf s ∧ (x (windows s 3), y (windows s 3)) = (340, 0) ∧ active_id s = 3.
Proof. intros s. split; [by apply (windows_stay_on_screen 640 480)|by vm_compute]. Defined.

(** ** Dragging *)

Definition clamp (hi v : Z) : Z := if hi <? Z.max 0 v then hi else Z.max 0 v.

(** The window [a] is held at the offset [dx], [dy]. *)
Definition dragging (a dx dy : Z) w0 s : Prop :=
  drag_id s = a ∧ drag_dx s = dx ∧ drag_dy s = dy ∧
  width (windows s a) = width w0 ∧ height (windows s a) = height w0.

Definition at_pos (px py : Z) w : Prop := x w = px ∧ y w = py.

Lemma drag_step a dx dy w0 s mx my :
  slot a = true → dragging a dx dy w0 s →
  let s' := (pointer_drag mx my s).2 in
  dragging a dx dy w0 s' ∧ screen_w s' = screen_w s ∧ screen_h s' = screen_h s ∧
  at_pos (clamp (screen_w s - width w0) (mx - dx)) (clamp (screen_h s - height w0) (my - dy)) (windows s' a) ∧
  ∀ j, j ≠ a → windows s' j = windows s j.
Proof.
  intros Ha (Hd & Hx & Hy & Hw & Hh). unfold pointer_drag. rewrite Hd, Ha, Hx, Hy, Hw, Hh.
  assert (Hc : ∀ v n hi, (if hi <? (if v <? 0 then 0 else v) + n then hi - n else if v <? 0 then 0 else v) = clamp (hi - n) v).
  { intros v n hi. unfold clamp. repeat case_match; lia. }
  rewrite !Hc. destruct (negb _ || negb _) eqn:Hmv; simpl.
  - unfold dragging, at_pos. simpl. rewrite !upd_eq. simpl. split_and!; try done. intros j Hj. by apply upd_ne.
  - rewrite orb_false_iff, !negb_false_iff, !Z.eqb_eq in Hmv. destruct Hmv as [Hmx Hmy].
    unfold dragging, at_pos. by rewrite Hmx, Hmy.
Qed.

Lemma drag_moves a dx dy w0 s ps :
  slot a = true → dragging a dx dy w0 s →
  let s' := foldl (λ s p, (gui_window_pointer p.1 p.2 1 0 s).2) s ps in
  dragging a dx dy w0 s' ∧ screen_w s' = screen_w s ∧ screen_h s' = screen_h s ∧
  (∀ p, last ps = Some p →
    at_pos (clamp (screen_w s - width w0) (p.1 - dx)) (clamp (screen_h s - height w0) (p.2 - dy)) (windows s' a)) ∧
  ∀ j, j ≠ a → windows s' j = windows s j.
Proof.
  intros Ha Hd. induction ps as [|p ps IH] using rev_ind; simpl; [done|]. rewrite foldl_snoc.
  destruct IH as (Hd1 & Hsw & Hsh & _ & Hj). set (s1 := foldl _ s ps) in *.
  assert (E : gui_window_pointer p.1 p.2 1 0 s1 = pointer_drag p.1 p.2 s1).
  { unfold gui_window_pointer. change (has_bits 1 1) with true. change (has_bits 0 1) with false. cbn [andb].
    destruct Hd1 as (-> & _). rewrite (proj2 (Z.eqb_neq a GUI_WINDOW_NONE)); [done|]. intros ->. by vm_compute in Ha. }
  rewrite E. destruct (drag_step a dx dy w0 s1 p.1 p.2 Ha Hd1) as (Hd2 & Hsw2 & Hsh2 & Hp & Hj2).
  rewrite Hsw, Hsh in Hp. split_and!; [done|congruence|congruence| |].
  - intros q Hq. rewrite last_snoc in Hq. injection Hq as <-. done.
  - intros j Hne. by rewrite Hj2, Hj.
Qed.

(** The active window after a press on its title bar at [mx], [my]. *)
Definition grabbed (mx my : Z) s : wm :=
  let a := active_id s in
  (gui_window_focus a s) <| drag_id := a |> <| drag_dx := mx - x (windows s a) |> <| drag_dy := my - y (windows s a) |>.

Lemma press_title s mx my :
  window_wf s → slot (active_id s) = true → inside (windows s (active_id s)) mx my = true →
  my < y (windows s (active_id s)) + 32 →
  gui_window_pointer mx my 1 1 s =
  if x (windows s (active_id s)) + width (windows s (active_id s)) - 34 <=? mx
  then (- active_id s, gui_window_focus (active_id s) s)
  else pointer_drag mx my (grabbed mx my s).
Proof.
  intros W Ha Hin Hmy. assert (Hv : visible (windows s (active_id s)) = true).
  { unfold inside in Hin. rewrite !andb_true_iff in Hin. tauto. }
  destruct (pl_on_screen s (wf_placed s W) _ Ha Hv) as (Hid & _).
  assert (Hne : active_id s ≠ GUI_WINDOW_NONE) by (intros E; rewrite E in Ha; by vm_compute in Ha).
  unfold gui_window_pointer. change (has_bits 1 1) with true. cbv iota zeta. cbn [andb].
  rewrite (proj2 (Z.eqb_neq (active_id s) GUI_WINDOW_NONE) Hne). cbn [negb]. unfold pointer_press. rewrite Ha, Hin. cbn [andb]. rewrite Hid.
  rewrite (proj2 (Z.ltb_lt _ _) Hmy), andb_true_r. destruct (_ <=? mx); [done|]. cbv iota beta.
  change (_ <| drag_dy := _ |>) with (grabbed mx my s). change (drag_id (grabbed mx my s)) with (active_id s).
  by rewrite (proj2 (Z.eqb_neq (active_id s) GUI_WINDOW_NONE) Hne).
Qed.

Lemma focus_pos i j s : at_pos (x (windows s j)) (y (windows s j)) (windows (gui_window_focus i s) j).
Proof. unfold at_pos. simpl. by destruct (in_slots j). Qed.

(** A press on the title bar of the active window, beside the close button, followed
    by any movements with the button down: the point that was grabbed follows the
    pointer as far as the screen allows, and no other window moves.  A press on the
    close button reports the window and moves nothing. *)
Theorem window_follows_pointer s mx my ps p :
  window_wf s → slot (active_id s) = true → inside (windows s (active_id s)) mx my = true →
  my < y (windows s (active_id s)) + 32 → last ps = Some p →
  let a := active_id s in let w := windows s a in
  let r := gui_window_pointer mx my 1 1 s in
  let s' := foldl (λ s p, (gui_window_pointer p.1 p.2 1 0 s).2) r.2 ps in
  if x w + width w - 34 <=? mx then r.1 = - a ∧ at_pos (x w) (y w) (windows r.2 a)
  else
    at_pos (clamp (screen_w s - width w) (x w + (p.1 - mx))) (clamp (screen_h s - height w) (y w + (p.2 - my))) (windows s' a) ∧
    ∀ j, j ≠ a → at_pos (x (windows s j)) (y (windows s j)) (windows s' j).
Proof.
  intros W Ha Hin Hmy Hlast. cbv zeta. rewrite (press_title s mx my) by done.
  set (a := active_id s) in *. set (w := windows s a).
  destruct (x w + width w - 34 <=? mx); [split; [done|apply focus_pos]|].
  assert (Hd1 : dragging a (mx - x w) (my - y w) w (grabbed mx my s)).
  { unfold dragging. simpl. by rewrite (slot_in_slots a Ha). }
  destruct (drag_step _ _ _ _ _ mx my Ha Hd1) as (Hd2 & Hsw & Hsh & _ & Hj2).
  destruct (drag_moves _ _ _ _ (pointer_drag mx my (grabbed mx my s)).2 ps Ha Hd2) as (_ & _ & _ & Hpos & Hj).
  specialize (Hpos p Hlast). rewrite Hsw, Hsh in Hpos. split.
  - replace (x w + (p.1 - mx)) with (p.1 - (mx - x w)) by lia.
    by replace (y w + (p.2 - my)) with (p.2 - (my - y w)) by lia.
  - intros j Hne. rewrite Hj, Hj2 by done. apply focus_pos.
Qed.

Lemma window_follows_pointer_witness :
  let s := (gui_window_open 1 (lit "Terminal") 300 200 (gui_window_manager_init 640 480 boot)).2 in
  let s' := foldl (λ s p, (gui_window_pointer p.1 p.2 1 0 s).2) (gui_window_pointer 200 150 1 1 s).2 [(300, 90); (260, 155)] in
  at_pos (clamp (screen_w s - width (windows s 1)) (x (windows s 1) + (260 - 200)))
         (clamp (screen_h s - height (windows s 1)) (y (windows s 1) + (155 - 150))) (windows s' 1).
Proof.
  intros s s'. assert (W : window_wf s) by (apply (window_wf_run 640 480 [COpen 1 (lit "Terminal") 300 200]); lia).
  assert (Ha : active_id s = 1) by (by vm_compute).
  assert (Hin : inside (windows s 1) 200 150 = true) by (by vm_compute).
  assert (Hy : 150 < y (windows s 1) + 32) by (by vm_compute).
  assert (Hb : (x (windows s 1) + width (windows s 1) - 34 <=? 200) = false) by (by vm_compute).
  pose proof (window_follows_pointer s 200 150 [(300, 90); (260, 155)] (260, 155) W) as H.
  rewrite Ha in H. specialize (H eq_refl Hin Hy eq_refl). cbv zeta in H. rewrite Hb in H. exact (proj1 H).
Defined.

End Window.
