(* ===== verification/Apps.v ===== *)
(** * System state and application manager

    [src/system/core/state.c], [src/system/core/system.c],
    [src/system/services/power/power.c] (Module [SystemState]) and
    [src/system/services/app_manager/app_manager.c] (Module [Apps]).  The
    application table keeps pointers to strings of others; what they point to
    when a function runs is its argument [m]. *)

From Stdlib Require Import Lia ZArith Bool.
From stdpp Require Import base list numbers strings.
From S2P Require Import Prelude.

Local Open Scope Z_scope.

Module SystemState.

Inductive nexus_system_state_t :=
  | NEXUS_SYSTEM_BOOTING | NEXUS_SYSTEM_CLI | NEXUS_SYSTEM_DESKTOP
  | NEXUS_SYSTEM_APPLICATION | NEXUS_SYSTEM_SHUTDOWN | NEXUS_SYSTEM_REBOOT.

Definition nexus_system_state_name (s : nexus_system_state_t) : cstr :=
  match s with
  | NEXUS_SYSTEM_BOOTING => lit "booting"
  | NEXUS_SYSTEM_CLI => lit "cli"
  | NEXUS_SYSTEM_DESKTOP => lit "desktop"
  | NEXUS_SYSTEM_APPLICATION => lit "application"
  | NEXUS_SYSTEM_SHUTDOWN => lit "shutdown"
  | NEXUS_SYSTEM_REBOOT => lit "reboot"
  end.

End SystemState.

Module Apps.
Import SystemState.

Definition NEXUS_APP_MAX : Z := 16.

(** The strings the table points to: literals, fields of the package
    manager's manifests, and a local array of a function that has returned. *)
Inductive field := FName | FId | FEntry.
Inductive charptr := NULL | Literal (s : cstr) | ManifestField (slot : Z) (f : field) | StackPath.
#[export] Instance field_eq_dec : EqDecision field.
Proof. solve_decision. Defined.
#[export] Instance charptr_eq_dec : EqDecision charptr.
Proof. solve_decision. Defined.

Definition strings : Type := charptr → cstr.
Implicit Types m : strings.

Inductive nexus_app_source_t := NEXUS_APP_SOURCE_BUILTIN | NEXUS_APP_SOURCE_SYSTEM | NEXUS_APP_SOURCE_USERDATA.
Inductive nexus_app_state_t := NEXUS_APP_STOPPED | NEXUS_APP_RUNNING.

Record nexus_app_t := mkApp {
  id : charptr;
  name : charptr;
  entry : charptr;
  builtin : Z;
  source : nexus_app_source_t;
}.

Record nexus_app_runtime_t := mkRuntime {
  launch_count : Z;
  run_state : nexus_app_state_t;
  run_source : nexus_app_source_t;
}.
#[export] Instance eta_runtime : Eta nexus_app_runtime_t := λ r,
  mkRuntime (launch_count r) (run_state r) (run_source r).

(** The static variables, and [g_state] of [state.c]. *)
Record mgr := mkMgr {
  g_apps : Z → nexus_app_t;
  g_runtime : Z → nexus_app_runtime_t;
  g_count : Z;
  g_active : Z;
  g_state : nexus_system_state_t;
}.
#[export] Instance eta_mgr : Eta mgr := λ r,
  mkMgr (g_apps r) (g_runtime r) (g_count r) (g_active r) (g_state r).
Implicit Types s : mgr.

Definition nexus_system_set_state (st : nexus_system_state_t) s : mgr := s <| g_state := st |>.
Definition nexus_system_enter_cli := nexus_system_set_state NEXUS_SYSTEM_CLI.
Definition nexus_system_enter_desktop := nexus_system_set_state NEXUS_SYSTEM_DESKTOP.
Definition nexus_system_enter_application := nexus_system_set_state NEXUS_SYSTEM_APPLICATION.
Definition nexus_system_request_shutdown := nexus_system_set_state NEXUS_SYSTEM_SHUTDOWN.
Definition nexus_system_request_reboot := nexus_system_set_state NEXUS_SYSTEM_REBOOT.
Definition nexus_power_shutdown := nexus_system_request_shutdown.
Definition nexus_power_reboot := nexus_system_request_reboot.

Definition is_null (p : charptr) : bool := bool_decide (p = NULL).

Definition eq m (a b : charptr) : bool := negb (is_null a || is_null b) && str_eqb (m a) (m b).

Definition index_of m (p : charptr) s : Z :=
  if is_null p then -1 else
  match first_index (λ i, eq m (id (g_apps s (Z.of_nat i))) p) 0 (Z.to_nat (g_count s)) with
  | Some i => Z.of_nat i
  | None => -1
  end.

Definition no_app : nexus_app_t := mkApp NULL NULL NULL 0 NEXUS_APP_SOURCE_BUILTIN.
Definition no_runtime : nexus_app_runtime_t := mkRuntime 0 NEXUS_APP_STOPPED NEXUS_APP_SOURCE_BUILTIN.

Definition nexus_app_manager_init s : Z * mgr :=
  let clear {A} (f : Z → A) v := λ i, if (0 <=? i) && (i <? NEXUS_APP_MAX) then v else f i in
  (1, mkMgr (clear (g_apps s) no_app) (clear (g_runtime s) no_runtime) 0 (-1) (g_state s)).

Definition nexus_app_register m (app : option nexus_app_t) s : Z * mgr :=
  match app with
  | None => (-1, s)
  | Some app =>
    if is_null (id app) || is_null (name app) || is_null (entry app) || (NEXUS_APP_MAX <=? g_count s)
    then (-1, s) else
    if 0 <=? index_of m (id app) s then (-1, s) else
    let i := g_count s in
    (i, s <| g_apps ::= λ f, upd f i app |>
          <| g_runtime ::= λ f, upd f i (mkRuntime 0 NEXUS_APP_STOPPED (source app)) |>
          <| g_count := i + 1 |>)
  end.

Definition nexus_app_register_builtin m (i n e : charptr) s : Z * mgr :=
  nexus_app_register m (Some (mkApp i n e 1 NEXUS_APP_SOURCE_BUILTIN)) s.

Definition nexus_app_count s : Z := g_count s.

Definition nexus_app_at (i : Z) s : option nexus_app_t :=
  if (0 <=? i) && (i <? g_count s) then Some (g_apps s i) else None.

Definition nexus_app_find m (p : charptr) s : option nexus_app_t :=
  let i := index_of m p s in if 0 <=? i then Some (g_apps s i) else None.

Definition nexus_app_runtime m (p : charptr) s : option nexus_app_runtime_t :=
  let i := index_of m p s in if 0 <=? i then Some (g_runtime s i) else None.

Definition set_run_state (i : Z) (st : nexus_app_state_t) s : mgr :=
  s <| g_runtime ::= λ f, upd f i ((f i) <| run_state := st |>) |>.

Definition nexus_app_launch m (p : charptr) s : Z * mgr :=
  let i := index_of m p s in
  if i <? 0 then (0, s) else
  let s := if (0 <=? g_active s) && negb (g_active s =? i) then set_run_state (g_active s) NEXUS_APP_STOPPED s else s in
  let s := s <| g_active := i |> in
  let s := set_run_state i NEXUS_APP_RUNNING s in
  let s := s <| g_runtime ::= λ f, upd f i ((f i) <| launch_count ::= λ n, u32 (n + 1) |>) |> in
  (1, nexus_system_enter_application s).

Definition nexus_app_active s : option nexus_app_t :=
  if 0 <=? g_active s then Some (g_apps s (g_active s)) else None.

Definition nexus_app_stop_id m (p : charptr) s : mgr :=
  let i := index_of m p s in
  if i <? 0 then s else
  let s := set_run_state i NEXUS_APP_STOPPED s in
  if g_active s =? i then nexus_system_enter_desktop (s <| g_active := -1 |>) else s.

Definition nexus_app_stop s : mgr :=
  let s := if 0 <=? g_active s then set_run_state (g_active s) NEXUS_APP_STOPPED s else s in
  nexus_system_enter_desktop (s <| g_active := -1 |>).

(** The built-in applications, as [system.c] and [kernel.c] register them. *)
Definition register_builtins m s : mgr :=
  let s := (nexus_app_register_builtin m (Literal (lit "nexus.files")) (Literal (lit "Files")) (Literal (lit "builtin:files")) s).2 in
  let s := (nexus_app_register_builtin m (Literal (lit "nexus.terminal")) (Literal (lit "Terminal")) (Literal (lit "builtin:terminal")) s).2 in
  (nexus_app_register_builtin m (Literal (lit "nexus.settings")) (Literal (lit "Settings")) (Literal (lit "builtin:settings")) s).2.

(** ** Abstract specification

    A list of registered identifiers with their launch counts, the identifier
    that runs, and the state of the system. *)
Record spec := mkSpec {
  entries : list (cstr * Z);
  running : option cstr;
  phase : nexus_system_state_t;
}.
Implicit Types a : spec.

Definition position (t : cstr) a : option nat := first_index (λ i, str_eqb (default ([] : cstr) ((entries a).*1 !! i)) t) 0 (length (entries a)).

Inductive app_call :=
  | CInit
  | CRegister (app : nexus_app_t)
  | CLaunch (p : charptr)
  | CStop
  | CStopId (p : charptr)
  | CEnter (st : nexus_system_state_t)
  | CFind (p : charptr)
  | CLaunches (p : charptr).

(** A call of the code, with a number that tells its result. *)
Definition run_call m (c : app_call) s : Z * mgr :=
  match c with
  | CInit => nexus_app_manager_init s
  | CRegister app => nexus_app_register m (Some app) s
  | CLaunch p => nexus_app_launch m p s
  | CStop => (0, nexus_app_stop s)
  | CStopId p => (0, nexus_app_stop_id m p s)
  | CEnter st => (0, nexus_system_set_state st s)
  | CFind p => (if nexus_app_find m p s is Some _ then 1 else 0, s)
  | CLaunches p => (if nexus_app_runtime m p s is Some r then launch_count r else -1, s)
  end.

Definition position_of m (p : charptr) a : option nat :=
  if is_null p then None else position (m p) a.

Definition spec_call m (c : app_call) a : Z * spec :=
  match c with
  | CInit => (1, mkSpec [] None (phase a))
  | CRegister app =>
    if is_null (id app) || is_null (name app) || is_null (entry app)
       || (NEXUS_APP_MAX <=? Z.of_nat (length (entries a))) || bool_decide (m (id app) ∈ (entries a).*1) then (-1, a)
    else (Z.of_nat (length (entries a)), mkSpec (entries a ++ [(m (id app), 0)]) (running a) (phase a))
  | CLaunch p =>
    match position_of m p a with
    | None => (0, a)
    | Some i => (1, mkSpec (alter (λ e, (e.1, u32 (e.2 + 1))) i (entries a)) (Some (m p)) NEXUS_SYSTEM_APPLICATION)
    end
  | CStop => (0, mkSpec (entries a) None NEXUS_SYSTEM_DESKTOP)
  | CStopId p =>
    (0, if is_null p then a else
        if bool_decide (running a = Some (m p)) then mkSpec (entries a) None NEXUS_SYSTEM_DESKTOP else a)
  | CEnter st => (0, mkSpec (entries a) (running a) st)
  | CFind p => (if position_of m p a is Some _ then 1 else 0, a)
  | CLaunches p => (if position_of m p a ≫= λ i, entries a !! i is Some e then e.2 else -1, a)
  end.

(** ** The table implements the specification *)
Record refines m s a : Prop := {
  ref_count : g_count s = Z.of_nat (length (entries a));
  ref_max : (length (entries a) ≤ 16)%nat;
  ref_entry i e : entries a !! i = Some e →
    id (g_apps s (Z.of_nat i)) ≠ NULL ∧ m (id (g_apps s (Z.of_nat i))) = e.1 ∧ launch_count (g_runtime s (Z.of_nat i)) = e.2;
  ref_nodup : NoDup (entries a).*1;
  ref_active :
    match running a with
    | None => g_active s = -1
    | Some t => ∃ i, g_active s = Z.of_nat i ∧ (entries a).*1 !! i = Some t
    end;
  ref_running i : 0 ≤ i < g_count s → run_state (g_runtime s i) = NEXUS_APP_RUNNING ↔ i = g_active s;
  ref_phase : g_state s = phase a;
}.

Lemma index_of_position m p s a :
  refines m s a → index_of m p s = match position_of m p a with Some i => Z.of_nat i | None => -1 end.
Proof.
  intros R. unfold index_of, position_of. destruct (is_null p) eqn:Hp; [done|].
  rewrite (ref_count _ _ _ R), Nat2Z.id. unfold position.
  f_equal. rewrite (first_index_ext _ (λ i, str_eqb (default ([] : cstr) ((entries a).*1 !! i)) (m p))); [done|].
  intros i Hi. destruct (lookup_lt_is_Some_2 (entries a) i) as [e He]; [lia|].
  destruct (ref_entry _ _ _ R i e He) as (Hn & Hm & _).
  unfold eq. rewrite Hp, Hm. unfold is_null. rewrite bool_decide_false by done.
  by rewrite list_lookup_fmap, He.
Qed.

Lemma position_Some m p a i :
  position_of m p a = Some i → ∃ e, entries a !! i = Some e ∧ e.1 = m p ∧ is_null p = false.
Proof.
  unfold position_of, position. destruct (is_null p) eqn:Hp; [done|].
  intros (? & H & _)%first_index_Some.
  destruct (lookup_lt_is_Some_2 (entries a) i) as [e He]; [lia|]. exists e.
  cbv beta in H. rewrite list_lookup_fmap, He, str_eqb_true in H. done.
Qed.

Lemma position_None m p a : is_null p = false → position_of m p a = None ↔ m p ∉ (entries a).*1.
Proof.
  intros Hp. unfold position_of. rewrite Hp. unfold position. rewrite first_index_None. split.
  - intros H [i Hi]%list_elem_of_lookup. apply lookup_lt_Some in Hi as Hlt. rewrite length_fmap in Hlt.
    specialize (H i ltac:(lia)). cbv beta in H. rewrite Hi in H. apply not_true_iff_false in H.
    by apply H, str_eqb_true.
  - intros H i Hi. destruct (lookup_lt_is_Some_2 (entries a).*1 i) as [t Ht]; [rewrite length_fmap; lia|].
    rewrite Ht. simpl. apply not_true_iff_false. rewrite str_eqb_true. intros ->.
    apply H, list_elem_of_lookup. by exists i.
Qed.

Lemma refines_init m s : refines m (nexus_app_manager_init s).2 (mkSpec [] None (g_state s)).
Proof. split; simpl; try done; [lia|constructor|lia]. Qed.

Lemma refines_register m app s a :
  refines m s a →
  let r := run_call m (CRegister app) s in let r' := spec_call m (CRegister app) a in
  r.1 = r'.1 ∧ refines m r.2 r'.2.
Proof.
  intros R. simpl. rewrite (ref_count _ _ _ R). 
  destruct (is_null (id app)) eqn:Hid; [done|]. destruct (_ || _ || _ || _) eqn:Hg; simpl; [done|].
  rewrite (index_of_position _ _ _ _ R).
  case_bool_decide as Hin.
  - destruct (position_of m (id app) a) as [i|] eqn:E; [|by apply position_None in E].
    rewrite (proj2 (Z.leb_le _ _)) by lia. done.
  - apply position_None in Hin as E; [|done]. rewrite E. simpl. split; [done|].
    destruct R. split; simpl.
    + rewrite length_app. simpl. lia.
    + unfold NEXUS_APP_MAX in Hg. rewrite length_app. simpl. lia.
    + intros i e [[Hlt He]|[-> He]]%lookup_snoc_Some.
      * rewrite !upd_ne by lia. by apply ref_entry0.
      * subst e. rewrite !upd_eq. simpl. split; [|done]. unfold is_null in Hid. by case_bool_decide.
    + rewrite fmap_app. apply NoDup_app. split; [done|]. split; [|apply NoDup_singleton].
      simpl. intros t Ht ->%list_elem_of_singleton. done.
    + destruct (running a) as [t|]; [|done]. destruct ref_active0 as (i & ? & Hi). exists i. split; [done|].
      rewrite fmap_app. by apply lookup_app_l_Some.
    + intros i Hi. unfold upd. destruct (Z.eqb_spec i (Z.of_nat (length (entries a)))) as [->|]; [|apply ref_running0; lia].
      simpl. split; [done|]. intros Hact.
      destruct (running a) as [t|]; [|lia]. destruct ref_active0 as (i & Ha & Hl).
      apply lookup_lt_Some in Hl. rewrite length_fmap in Hl. lia.
    + done.
Qed.

Lemma refines_step m s a s' a' :
  refines m s a → g_apps s' = g_apps s → g_count s' = g_count s → (entries a').*1 = (entries a).*1 →
  (∀ i e, entries a' !! i = Some e → launch_count (g_runtime s' (Z.of_nat i)) = e.2) →
  match running a' with
  | None => g_active s' = -1
  | Some t => ∃ i, g_active s' = Z.of_nat i ∧ (entries a).*1 !! i = Some t
  end →
  (∀ i, 0 ≤ i < g_count s → run_state (g_runtime s' i) = NEXUS_APP_RUNNING ↔ i = g_active s') →
  g_state s' = phase a' →
  refines m s' a'.
Proof.
  intros [] Ha Hc Hf Hl Hact Hrun Hph.
  assert (Hlen : length (entries a') = length (entries a)) by by rewrite <- (length_fmap fst), Hf, length_fmap.
  split.
  - by rewrite Hc, Hlen.
  - by rewrite Hlen.
  - intros i e He. rewrite Ha. assert (H : (entries a).*1 !! i = Some e.1) by (rewrite <- Hf, list_lookup_fmap, He; done).
    rewrite list_lookup_fmap in H. destruct (entries a !! i) as [e'|] eqn:E; [|done]. injection H as H.
    destruct (ref_entry0 i e' E) as (? & -> & _). auto.
  - by rewrite Hf.
  - rewrite Hf. done.
  - by rewrite Hc.
  - done.
Qed.

(** Only the identifiers of the registered applications matter. *)
Lemma refines_ext m m' s a :
  (∀ i, 0 ≤ i < g_count s → m' (id (g_apps s i)) = m (id (g_apps s i))) → refines m s a → refines m' s a.
Proof.
  intros Hm []. split; try done. intros i e He. apply lookup_lt_Some in He as Hlt.
  rewrite Hm by lia. by apply ref_entry0.
Qed.

Lemma refines_enter m st s a : refines m s a → refines m (nexus_system_set_state st s) (mkSpec (entries a) (running a) st).
Proof. intros R. apply (refines_step _ _ _ _ _ R); destruct R; try done. intros i e He. by apply ref_entry0. Qed.

(** Nothing runs any more. *)
Lemma refines_stopped m s a s' :
  refines m s a → g_apps s' = g_apps s → g_count s' = g_count s → g_active s' = -1 → g_state s' = NEXUS_SYSTEM_DESKTOP →
  (∀ i, launch_count (g_runtime s' i) = launch_count (g_runtime s i)) →
  (∀ i, 0 ≤ i → run_state (g_runtime s' i) = if i =? g_active s then NEXUS_APP_STOPPED else run_state (g_runtime s i)) →
  refines m s' (mkSpec (entries a) None NEXUS_SYSTEM_DESKTOP).
Proof.
  intros R Ha Hc Hact Hst Hl Hr. apply (refines_step _ _ _ _ _ R); try done.
  - intros i e He. rewrite Hl. by apply (ref_entry _ _ _ R).
  - intros i Hi. rewrite Hr, Hact by lia. pose proof (ref_running _ _ _ R i Hi) as H.
    destruct (Z.eqb_spec i (g_active s)) as [->|Hne]; (split; [|lia]); [done|]. intros E%H. lia.
Qed.

Lemma active_range m s a : refines m s a → g_active s = -1 ∨ 0 ≤ g_active s < g_count s.
Proof.
  intros R. pose proof (ref_active _ _ _ R) as H. rewrite (ref_count _ _ _ R).
  destruct (running a); [|by left]. destruct H as (i & -> & Hi%lookup_lt_Some). rewrite length_fmap in Hi. lia.
Qed.

Lemma set_run_state_count i st s j : launch_count (g_runtime (set_run_state i st s) j) = launch_count (g_runtime s j).
Proof. simpl. unfold upd. by destruct (Z.eqb_spec j i) as [->|]. Qed.

Lemma set_run_state_state i st s j :
  run_state (g_runtime (set_run_state i st s) j) = if j =? i then st else run_state (g_runtime s j).
Proof. simpl. unfold upd. by destruct (Z.eqb_spec j i) as [->|]. Qed.

Lemma register_table m app s r s' :
  nexus_app_register m (Some app) s = (r, s') →
  (r = -1 ∧ s' = s) ∨ (r = g_count s ∧ g_apps s' = upd (g_apps s) (g_count s) app ∧ g_count s' = g_count s + 1).
Proof.
  unfold nexus_app_register. destruct (_ || _); [intros [= <- <-]; by left|].
  destruct (0 <=? _); intros [= <- <-]; [by left|by right].
Qed.

Lemma refines_stop m s a : refines m s a → refines m (nexus_app_stop s) (mkSpec (entries a) None NEXUS_SYSTEM_DESKTOP).
Proof.
  intros R. unfold nexus_app_stop. case_match eqn:E; apply (refines_stopped _ _ _ _ R); try done.
  - apply set_run_state_count.
  - intros i _. apply set_run_state_state.
  - intros i Hi. by destruct (Z.eqb_spec i (g_active s)); [lia|].
Qed.

Lemma position_running m p s a i :
  refines m s a → position_of m p a = Some i →
  0 ≤ Z.of_nat i < g_count s ∧ (entries a).*1 !! i = Some (m p) ∧ (g_active s = Z.of_nat i ↔ running a = Some (m p)).
Proof.
  intros R (e & He & Hm & Hp)%position_Some. rewrite (ref_count _ _ _ R).
  assert (Hf : (entries a).*1 !! i = Some (m p)) by (rewrite list_lookup_fmap, He; simpl; by rewrite Hm).
  split; [apply lookup_lt_Some in He; lia|]. split; [done|].
  pose proof (ref_active _ _ _ R) as Ha. destruct (running a) as [t|]; [|split; [lia|done]].
  destruct Ha as (k & Hk & Ht). rewrite Hk. split.
  - intros ->%Nat2Z.inj. by simplify_eq.
  - intros [= ->]. f_equal. by eapply NoDup_lookup; [exact (ref_nodup _ _ _ R)|..].
Qed.

Lemma refines_stop_id m p s a :
  refines m s a → refines m (nexus_app_stop_id m p s) (spec_call m (CStopId p) a).2.
Proof.
  intros R. unfold nexus_app_stop_id. rewrite (index_of_position _ _ _ _ R). simpl.
  destruct (position_of m p a) as [i|] eqn:E; simpl.
  - destruct (position_running _ _ _ _ _ R E) as (Hi & Hf & Hact).
    destruct (position_Some _ _ _ _ E) as (e & He & _ & ->).
    replace (Z.of_nat i <? 0) with false by lia.
    change (g_active (set_run_state (Z.of_nat i) NEXUS_APP_STOPPED s)) with (g_active s).
    case_bool_decide as Hr.
    + apply Hact in Hr as Hk. rewrite (proj2 (Z.eqb_eq _ _) Hk). apply (refines_stopped _ _ _ _ R); try done.
      * apply set_run_state_count.
      * rewrite Hk. intros j _. apply set_run_state_state.
    + destruct (Z.eqb_spec (g_active s) (Z.of_nat i)) as [Hk|Hk]; [by apply Hact in Hk|].
      apply (refines_step _ _ _ _ _ R); try done; [|apply R| |apply R].
      * intros j e' He'. rewrite set_run_state_count. by apply (ref_entry _ _ _ R).
      * intros j Hj. rewrite set_run_state_state. destruct (Z.eqb_spec j (Z.of_nat i)) as [->|]; [|by apply R].
        split; [done|]. intros Hk'. by destruct Hk.
  - destruct (is_null p) eqn:Hp; [done|]. apply position_None in E; [|done].
    case_bool_decide as Hr; [|done]. exfalso. pose proof (ref_active _ _ _ R) as Ha. rewrite Hr in Ha.
    destruct Ha as (k & _ & Hk). apply E, list_elem_of_lookup. by exists k.
Qed.

Lemma refines_launch m p s a :
  refines m s a →
  let r := nexus_app_launch m p s in let r' := spec_call m (CLaunch p) a in
  r.1 = r'.1 ∧ refines m r.2 r'.2.
Proof.
  intros R. unfold nexus_app_launch. rewrite (index_of_position _ _ _ _ R). simpl.
  destruct (position_of m p a) as [i|] eqn:E; simpl; [|done].
  destruct (position_running _ _ _ _ _ R E) as (Hi & Hf & _).
  replace (Z.of_nat i <? 0) with false by lia. split; [done|].
  set (s1 := if _ : bool then set_run_state _ _ _ else s).
  assert (H1 : g_apps s1 = g_apps s ∧ g_count s1 = g_count s ∧ ∀ j, launch_count (g_runtime s1 j) = launch_count (g_runtime s j)).
  { subst s1. case_match; repeat split. apply set_run_state_count. }
  assert (H2 : ∀ j, 0 ≤ j < g_count s → run_state (g_runtime s1 j) = NEXUS_APP_RUNNING → j = Z.of_nat i).
  { intros j Hj. subst s1. pose proof (ref_running _ _ _ R j Hj) as Hr. case_match eqn:Ea.
    - rewrite set_run_state_state. destruct (Z.eqb_spec j (g_active s)); [done|]. intros ?%Hr. done.
    - intros ->%Hr. lia. }
  destruct H1 as (Ha & Hc & Hl). clearbody s1.
  apply (refines_step _ _ _ _ _ R); simpl; try done.
  - apply list_eq. intros j. rewrite !list_lookup_fmap.
    destruct (decide (i = j)) as [->|]; [rewrite list_lookup_alter_eq|rewrite list_lookup_alter_ne by done; done].
    by destruct (entries a !! j).
  - intros j e. unfold upd at 1. destruct (decide (i = j)) as [->|Hne].
    + rewrite list_lookup_alter_eq, Z.eqb_refl. intros (e' & He & ->)%fmap_Some.
      simpl. rewrite upd_eq. simpl. rewrite Hl. destruct (ref_entry _ _ _ R _ _ He) as (_ & _ & ->). done.
    + rewrite list_lookup_alter_ne by done. intros He.
      replace (Z.of_nat j =? Z.of_nat i) with false by lia. rewrite upd_ne by lia. rewrite Hl.
      by apply (ref_entry _ _ _ R).
  - by exists i.
  - intros j Hj. unfold upd at 1. destruct (Z.eqb_spec j (Z.of_nat i)) as [->|Hne].
    + simpl. rewrite upd_eq. done.
    + rewrite upd_ne by done. split; [|done]. by apply H2.
Qed.

Lemma refines_call m c s a :
  refines m s a →
  let r := run_call m c s in let r' := spec_call m c a in r.1 = r'.1 ∧ refines m r.2 r'.2.
Proof.
  intros R. destruct c as [|app|p| |p|st|p|p]; [ | by apply refines_register | by apply refines_launch | | | | | ]; simpl.
  - split; [done|]. rewrite <- (ref_phase _ _ _ R). apply refines_init.
  - split; [done|]. by apply refines_stop.
  - split; [done|]. by apply refines_stop_id.
  - split; [done|]. by apply refines_enter.
  - split; [|done]. unfold nexus_app_find. rewrite (index_of_position _ _ _ _ R).
    destruct (position_of m p a); [|done]. by rewrite (proj2 (Z.leb_le _ _)) by lia.
  - split; [|done]. unfold nexus_app_runtime. rewrite (index_of_position _ _ _ _ R).
    destruct (position_of m p a) as [i|] eqn:E; [|done]. rewrite (proj2 (Z.leb_le _ _)) by lia.
    apply position_Some in E as (e & He & _). simpl. rewrite He. by apply (ref_entry _ _ _ R).
Qed.

Fixpoint run_calls m (cs : list app_call) s : list Z * mgr :=
  match cs with
  | [] => ([], s)
  | c :: cs => let '(z, s) := run_call m c s in let '(zs, s) := run_calls m cs s in (z :: zs, s)
  end.

Fixpoint spec_calls m (cs : list app_call) a : list Z * spec :=
  match cs with
  | [] => ([], a)
  | c :: cs => let '(z, a) := spec_call m c a in let '(zs, a) := spec_calls m cs a in (z :: zs, a)
  end.

Lemma refines_calls m cs s a :
  refines m s a → (run_calls m cs s).1 = (spec_calls m cs a).1 ∧ refines m (run_calls m cs s).2 (spec_calls m cs a).2.
Proof.
  revert s a. induction cs as [|c cs IH]; intros s a R; simpl; [done|].
  destruct (refines_call m c s a R) as [Hz R']. destruct (run_call m c s) as [z s'], (spec_call m c a) as [z' a'].
  simpl in *. subst z'. destruct (IH _ _ R') as [Hzs R'']. 
  destruct (run_calls m cs s') as [zs s''], (spec_calls m cs a') as [zs' a'']. simpl in *. by subst zs'.
Qed.

(** C37: Whatever is called after [nexus_app_manager_init], in whatever order and on
    whatever table was there before: the results are those of the abstract
    specification, the identifiers are distinct and at most sixteen, and the
    running application - one at most - is the active one. *)
Theorem app_manager_refines m cs s :
  let r := run_calls m (CInit :: cs) s in
  let r' := spec_calls m (CInit :: cs) (mkSpec [] None (g_state s)) in
  r.1 = r'.1 ∧ refines m r.2 r'.2.
Proof.
  simpl. pose proof (refines_calls m cs _ _ (refines_init m s)) as [H R].
  destruct (run_calls m cs _) as [zs s'], (spec_calls m cs _) as [zs' a']. simpl in *. by subst zs'.
Qed.

End Apps.
