(* ===== verification/Packages.v ===== *)
(** * Package manager

    [src/system/services/package_manager/]: the manifest parser
    [package_manifest.c] (Module [Manifest]) and [package_loader.c],
    [package_manager.c] (Module [Packages]) over the application manager of
    [Apps].  FAT32 is reached through the class [PackageFs]. *)

From Stdlib Require Import Lia ZArith Bool.
From stdpp Require Import base list numbers strings.
From S2P Require Import Prelude Mount Vfs Apps.

Local Open Scope Z_scope.

(** The calls of [fat32.c] that the package manager makes.  A list of entries
    is [None] for the result -1; a file that is read is the bytes stored in the
    buffer of the given size, [None] for the result 0. *)
Class PackageFs (D : Type) := {
  fat32_is_mounted : D → bool;
  fat32_is_directory : cstr → D → bool;
  fat32_list_entries : cstr → Z → D → option (list (cstr * bool));
  fat32_read_file : cstr → Z → D → option (list Z);
  fat32_write_file : cstr → list Z → D → bool * D;
  fat32_mkdir : cstr → D → bool * D;
  fat32_remove_file : cstr → D → bool * D;
  fat32_remove_empty_dir : cstr → D → bool * D;
}.

Module Manifest.

Record nexus_package_manifest_t := mkManifest {
  name : cstr;
  id : cstr;
  version : cstr;
  author : cstr;
  type : cstr;
  entry : cstr;
  icon : cstr;
  files : cstr;
}.
#[export] Instance eta_manifest : Eta nexus_package_manifest_t := λ r,
  mkManifest (name r) (id r) (version r) (author r) (type r) (entry r) (icon r) (files r).

Definition NL : Z := 10.
Definition CR : Z := 13.
Definition COLON : Z := 58.
Definition EQUALS : Z := 61.

Fixpoint copy_value (max : nat) (v : cstr) {struct v} : cstr :=
  match v with
  | c :: v' =>
    if (c =? CR) || (c =? NL) then [] else
    match max with
    | S (S _ as max') => c :: copy_value max' v'
    | _ => []
    end
  | [] => []
  end.

Fixpoint starts_with (key p : cstr) : bool :=
  match key, p with
  | [], _ => true
  | k :: key, c :: p => (c =? k) && starts_with key p
  | _ :: _, [] => false
  end.

Fixpoint skip_blanks (t : cstr) : cstr :=
  match t with
  | c :: t' => if (c =? 32) || (c =? 9) then skip_blanks t' else t
  | [] => []
  end.

(** The first line [p] that is the key followed by a colon or an equals sign;
    the blanks are skipped inside the line, the value is copied from there. *)
Fixpoint line_loop (fuel : nat) (p key : cstr) (max : nat) : option cstr :=
  match fuel with
  | O => None
  | S fuel =>
    match p with
    | [] => None
    | _ :: _ =>
      let '(l, rest) := Vfs.span NL p in
      let k := length key in
      let sep := default 0 (p !! k) in
      if starts_with key p && ((sep =? COLON) || (sep =? EQUALS))
      then Some (copy_value max (skip_blanks (drop (S k) l) ++ rest))
      else line_loop fuel (match rest with c :: r => r | [] => [] end) key max
    end
  end.

Definition line (text key : cstr) (max : nat) : option cstr := line_loop (S (length text)) text key max.

(** A key without a line leaves the empty string that is stored first. *)
Definition value (text key : cstr) (max : nat) : cstr := default [] (line text key max).

Definition nexus_package_manifest_parse (text : cstr) : bool * nexus_package_manifest_t :=
  let out := mkManifest
    (value text (lit "Name") 64) (value text (lit "ID") 64) (value text (lit "Version") 32)
    (value text (lit "Author") 64) (value text (lit "Type") 32) (value text (lit "Entry") 96)
    (value text (lit "Icon") 96) (value text (lit "Files") 192) in
  (bool_decide (name out ≠ []) && bool_decide (id out ≠ []), out).

End Manifest.

Module Packages.
Import SystemState Apps.

Definition NEXUS_DISCOVERY_MAX : Z := 16.
Definition NEXUS_INSTALL_BUFFER : Z := 65536.
Definition NEXUS_INSTALL_MAX_FILES : Z := 8.

Implicit Types out root leaf t : cstr.

(** ** Paths *)

(** [while ( *s && n < cap - 1) out[n++] = *s++]. *)
Fixpoint append_upto (cap : Z) out (s : cstr) : cstr :=
  match s with
  | [] => out
  | c :: s => if Z.of_nat (length out) <? cap - 1 then append_upto cap (out ++ [c]) s else out
  end.

Definition ends_in_slash out : bool := bool_decide (last out = Some Mount.SLASH).

Definition path_join (cap : Z) root (name leaf : cstr) : cstr :=
  let n out := Z.of_nat (length out) in
  let out := append_upto cap [] root in
  let out := if (0 <? n out) && negb (ends_in_slash out) && (n out <? cap - 1) then out ++ [Mount.SLASH] else out in
  let out := append_upto cap out name in
  if n out <? cap - 1 then
    let out := if (0 <? n out) && negb (ends_in_slash out) then out ++ [Mount.SLASH] else out in
    append_upto cap out leaf
  else out.

Definition package_path_join (cap : Z) root leaf : cstr :=
  let n out := Z.of_nat (length out) in
  let out := append_upto cap [] root in
  let out := if (0 <? n out) && negb (ends_in_slash out) && (n out + 1 <? cap) then out ++ [Mount.SLASH] else out in
  append_upto cap out leaf.

(** ** Names *)

Definition is_space (c : Z) : bool := (c =? 32) || (c =? 9) || (c =? 13) || (c =? 10).

Definition short_char (c : Z) : bool :=
  ((97 <=? c) && (c <=? 122)) || ((65 <=? c) && (c <=? 90)) || ((48 <=? c) && (c <=? 57)) ||
  bool_decide (c ∈ lit "_-$~!#%&'()@^`").

Definition DOT : Z := 46.

(** The first loop: the length and the position of the dot, -1 without one. *)
Fixpoint short_scan (s : cstr) (len dot : Z) : option (Z * Z) :=
  match s with
  | [] => Some (len, dot)
  | c :: s =>
    if c =? Mount.SLASH then None else
    if (c =? DOT) && (0 <=? dot) then None else
    let dot := if c =? DOT then len else dot in
    if 12 <? len + 1 then None else short_scan s (len + 1) dot
  end.

Fixpoint short_chars (s : cstr) (i dot : Z) : bool :=
  match s with
  | [] => true
  | c :: s => ((i =? dot) || short_char c) && short_chars s (i + 1) dot
  end.

Definition valid_short_name (s : cstr) : bool :=
  match s with
  | [] => false
  | c :: _ =>
    match short_scan s 0 (-1) with
    | None => false
    | Some (len, dot) =>
      let base := if dot <? 0 then len else dot in
      let ext := if dot <? 0 then 0 else len - dot - 1 in
      if (base <? 1) || (8 <? base) || (ext <? 0) || (3 <? ext) then false else
      if c =? DOT then false else short_chars s 0 dot
    end
  end.

Definition validate_entry_name := valid_short_name.

Definition separator (c : Z) : bool := is_space c || (c =? 44) || (c =? 59).

Fixpoint skip_separators (s : cstr) : cstr :=
  match s with
  | c :: s' => if separator c then skip_separators s' else s
  | [] => []
  end.

Fixpoint split_name (s : cstr) : cstr * cstr :=
  match s with
  | c :: s' => if separator c then ([], s) else let '(a, b) := split_name s' in (c :: a, b)
  | [] => ([], [])
  end.

(** The names found so far are [out], an array of [max] names.  [n] counts the
    stored characters and stops at 12.  The first character is stored before
    the number of names is tested: [None] is a store behind the array. *)
Fixpoint file_list_loop (fuel : nat) (text : cstr) (max : Z) (out : list cstr) : option (Z * list cstr) :=
  match fuel with
  | O => None
  | S fuel =>
    match skip_separators text with
    | [] => Some (Z.of_nat (length out), out)
    | text =>
      let '(word, rest) := split_name text in
      let count := Z.of_nat (length out) in
      if max <=? count then None else
      let stored := take 12 word in
      let n := Z.of_nat (length stored) in
      if (n =? 0) || (12 <? n) || (max <=? count) then Some (-1, out) else
      if negb (valid_short_name stored) then Some (-1, out) else
      file_list_loop fuel rest max (out ++ [stored])
    end
  end.

Definition parse_file_list (text : cstr) (max : Z) : option (Z * list cstr) :=
  match text with
  | [] => Some (0, [])
  | _ => file_list_loop (S (length text)) text max []
  end.

Definition has_name (names : list cstr) (n : cstr) : bool := existsb (str_eqb n) names.

(** [files[0]] after the entry name has been copied into it: the bytes between
    the name and the terminator at index 12 are those the stack array had. *)
Definition entry_row (junk : list Z) (entry : cstr) : cstr :=
  Vfs.until_nul (take 12 entry ++ drop (length (take 12 entry)) (take 12 junk)).

Definition nexus_package_is_package_path (path : option cstr) : bool :=
  match path with
  | None => false
  | Some path => (3 <=? length path)%nat && str_eqb (drop (length path - 3) path) (lit ".nx")
  end.

(** ** State

    [stale] is the string that lies where the array [manifest_path] of
    [discover_root] was. *)
Record pkg := mkPkg {
  g_initialized : bool;
  g_count : Z;
  g_manifests : Z → Manifest.nexus_package_manifest_t;
  apps : mgr;
  stale : cstr;
}.
#[export] Instance eta_pkg : Eta pkg := λ r,
  mkPkg (g_initialized r) (g_count r) (g_manifests r) (apps r) (stale r).
Implicit Types p : pkg.

Definition pkg_strings p : strings := λ ptr,
  match ptr with
  | NULL => []
  | Literal s => s
  | ManifestField i FName => Manifest.name (g_manifests p i)
  | ManifestField i FId => Manifest.id (g_manifests p i)
  | ManifestField i FEntry => Manifest.entry (g_manifests p i)
  | StackPath => stale p
  end.

Definition nexus_package_manager_init p : pkg := p <| g_initialized := true |> <| g_count := 0 |>.

Definition nexus_package_count p : Z := g_count p.

Section fs.
Context {D : Type} `{PackageFs D}.
Implicit Types d : D.

Definition nexus_package_load_manifest (path : cstr) (size : Z) d : option (list Z) :=
  if size =? 0 then None else fat32_read_file path size d.

(** ** Discovery *)

(** One entry of the root that is a directory. *)
Definition discover_one (root : cstr) (source : nexus_app_source_t) d (n : cstr) p : bool * pkg :=
  match nexus_package_load_manifest (path_join 192 root n (lit "manifest.nxm")) 511 d with
  | None => (false, p)
  | Some data =>
    let '(ok, m) := Manifest.nexus_package_manifest_parse (Vfs.until_nul data) in
    let slot := g_count p in
    let p := p <| g_manifests ::= λ f, upd f slot m |> in
    if negb ok then (false, p) else
    let id := ManifestField slot FId in
    if nexus_app_find (pkg_strings p) id (apps p) is Some _ then (false, p) else
    let entry := if bool_decide (Manifest.entry m ≠ []) then ManifestField slot FEntry else StackPath in
    let app := mkApp id (ManifestField slot FName) entry 0 source in
    let '(r, a) := nexus_app_register (pkg_strings p) (Some app) (apps p) in
    let p := p <| apps := a |> in
    if 0 <=? r then (true, p <| g_count := slot + 1 |>) else (false, p)
  end.

Fixpoint discover_loop (root : cstr) (source : nexus_app_source_t) d (names : list (cstr * bool)) (added : Z) p : Z * pkg :=
  match names with
  | [] => (added, p)
  | (n, is_dir) :: names =>
    if NEXUS_DISCOVERY_MAX <=? g_count p then (added, p) else
    if negb is_dir then discover_loop root source d names added p else
    if str_eqb n (lit ".") || str_eqb n (lit "..") then discover_loop root source d names added p else
    let '(ok, p) := discover_one root source d n p in
    discover_loop root source d names (if ok then added + 1 else added) p
  end.

Definition discover_root (root : cstr) (source : nexus_app_source_t) d p : Z * pkg :=
  match fat32_list_entries root NEXUS_DISCOVERY_MAX d with
  | None => (0, p)
  | Some names => discover_loop root source d names 0 p
  end.

Definition nexus_package_discover (root : option cstr) d p : Z * pkg :=
  let p := if g_initialized p then p else nexus_package_manager_init p in
  match root with
  | None => (0, p)
  | Some root =>
    if negb (fat32_is_mounted d) then (0, p) else
    if str_eqb root (lit "/system/apps") then discover_root root NEXUS_APP_SOURCE_SYSTEM d p else
    if str_eqb root (lit "/userdata/apps") then discover_root root NEXUS_APP_SOURCE_USERDATA d p else
    (0, p)
  end.

(** ** Installation *)

Definition copy_small_file (source destination : cstr) d : bool * D :=
  match fat32_read_file source NEXUS_INSTALL_BUFFER d with
  | None => (false, d)
  | Some data =>
    if Z.of_nat (length data) =? NEXUS_INSTALL_BUFFER then (false, d)
    else fat32_write_file destination data d
  end.

(** The loop that validates the payloads. *)
Fixpoint payloads_ok (source_dir : cstr) (files : list cstr) d : bool :=
  match files with
  | [] => true
  | f :: files =>
    let source_path := package_path_join 256 source_dir f in
    if fat32_is_directory source_path d then false else
    match fat32_read_file source_path NEXUS_INSTALL_BUFFER d with
    | None => false
    | Some data => negb (Z.of_nat (length data) =? NEXUS_INSTALL_BUFFER) && payloads_ok source_dir files d
    end
  end.

(** The loop that copies them; the names copied so far are [written]. *)
Fixpoint copy_files (source_dir destination_dir : cstr) (files written : list cstr) d : bool * list cstr * D :=
  match files with
  | [] => (true, written, d)
  | f :: files =>
    let '(ok, d) := copy_small_file (package_path_join 256 source_dir f) (package_path_join 256 destination_dir f) d in
    if ok then copy_files source_dir destination_dir files (written ++ [f]) d else (false, written, d)
  end.

(** The label [rollback]: the files in reverse order, then the directory. *)
Definition rollback (destination_dir : cstr) (written : list cstr) d : D :=
  let d := foldr (λ f d, (fat32_remove_file (package_path_join 256 destination_dir f) d).2) d written in
  (fat32_remove_empty_dir destination_dir d).2.

(** What is to be installed: the text of the manifest and the payloads, [None]
    for the result 0.  The outer [None] is the store behind the array of names. *)
Definition install_plan (junk : list Z) (m : Manifest.nexus_package_manifest_t) : option (option (list cstr)) :=
  let listed :=
    if bool_decide (Manifest.files m ≠ []) then
      '(count, files) ← parse_file_list (Manifest.files m) NEXUS_INSTALL_MAX_FILES;
      Some (if count <=? 0 then None else Some files)
    else if bool_decide (Manifest.entry m ≠ []) then
      Some (if validate_entry_name (Manifest.entry m) then Some [entry_row junk (Manifest.entry m)] else None)
    else Some (Some []) in
  files ← listed;
  Some (files ← files;
    if bool_decide (Manifest.entry m ≠ []) && negb (validate_entry_name (Manifest.entry m)) then None else
    if bool_decide (Manifest.entry m ≠ []) && negb (has_name files (Manifest.entry m)) then None else
    if has_name files (lit "manifest.nxm") then None else
    Some files).

Definition nexus_package_install (junk : list Z) (source_dir destination_dir : option cstr) d p : option (Z * D * pkg) :=
  let p := if g_initialized p then p else nexus_package_manager_init p in
  let refused := Some (0, d, p) in
  if negb (fat32_is_mounted d) then refused else
  match source_dir, destination_dir with
  | Some source_dir, Some destination_dir =>
    if negb (bool_decide (head source_dir = Some Mount.SLASH)) || negb (bool_decide (head destination_dir = Some Mount.SLASH)) then refused else
    if fat32_is_directory destination_dir d then refused else
    let source_manifest := package_path_join 256 source_dir (lit "manifest.nxm") in
    let destination_manifest := package_path_join 256 destination_dir (lit "manifest.nxm") in
    match nexus_package_load_manifest source_manifest 4095 d with
    | None => refused
    | Some manifest_text =>
      let '(ok, m) := Manifest.nexus_package_manifest_parse (Vfs.until_nul manifest_text) in
      if negb ok then refused else
      if nexus_app_find (pkg_strings p) (Literal (Manifest.id m)) (apps p) is Some _
      then refused else
      plan ← install_plan junk m;
      match plan with
      | None => refused
      | Some files =>
        if negb (payloads_ok source_dir files d) then refused else
        let '(made, d) := fat32_mkdir destination_dir d in
        if negb made then Some (0, d, p) else
        let '(copied, written, d) := copy_files source_dir destination_dir files [] d in
        if negb copied then Some (0, rollback destination_dir written d, p) else
        let '(published, d) := fat32_write_file destination_manifest manifest_text d in
        if negb published then Some (0, rollback destination_dir written d, p) else
        Some (1, d, (nexus_package_discover (Some (lit "/userdata/apps")) d p).2)
      end
    end
  | _, _ => refused
  end.

End fs.

End Packages.
