(* ===== verification/PackageSpec.v ===== *)
(** * Package manager: specifications

    The text of a manifest and the list of files are parsed as they are
    written; discovery registers what it finds without disturbing the table of
    applications; an installation is all or nothing on every file system that
    obeys [PackageFsLaws]; [MiniFs] is a small file system that does. *)

From Stdlib Require Import Lia ZArith Bool.
From stdpp Require Import base list gmap numbers strings.
From S2P Require Import Prelude Mount Vfs VfsPath Apps Packages.

Local Open Scope Z_scope.

Module ManifestSpec.
Import Manifest.

(** ** Lines *)

Definition line_text (e : cstr * cstr) : cstr := e.1 ++ (COLON :: 32 :: e.2) ++ [NL].
Definition render (ls : list (cstr * cstr)) : cstr := concat (map line_text ls).

(** A key has no separator, a value is one line that starts with no blank. *)
Definition key_ok (k : cstr) : Prop := (NL ∉ k) ∧ (COLON ∉ k) ∧ (EQUALS ∉ k).
Definition value_ok (v : cstr) : Prop :=
  (NL ∉ v) ∧ (CR ∉ v) ∧ match v with c :: _ => c ≠ 32 ∧ c ≠ 9 | [] => True end.
Definition line_ok (e : cstr * cstr) : Prop := key_ok e.1 ∧ value_ok e.2.

Definition field_of (ls : list (cstr * cstr)) (key : cstr) : cstr :=
  default [] (snd <$> find (λ e, str_eqb e.1 key) ls).

Lemma copy_value_take max v rest :
  NL ∉ v → CR ∉ v → copy_value max (v ++ (NL :: rest)) = take (max - 1) v.
Proof.
  revert max. induction v as [|c v IH]; intros max Hn Hc; [by rewrite take_nil; destruct max as [|[|]]|]. cbn [app copy_value].
  rewrite not_elem_of_cons in Hn, Hc. destruct Hn as [Hn Hn'], Hc as [Hc Hc'].
  rewrite (proj2 (Z.eqb_neq c CR)), (proj2 (Z.eqb_neq c NL)) by congruence.
  destruct max as [|[|max]]; [done..|]. simpl. rewrite IH by done. simpl. by rewrite Nat.sub_0_r.
Qed.

Lemma starts_with_app key t : starts_with key (key ++ t) = true.
Proof. induction key as [|k key IH]; cbn; [done|]. by rewrite Z.eqb_refl. Qed.

Lemma starts_with_true key p : starts_with key p = true → ∃ r, p = key ++ r.
Proof.
  revert p. induction key as [|k key IH]; intros p H; [by exists p|].
  destruct p as [|c p]; [done|]. cbn in H. apply andb_prop in H as [E H]. apply Z.eqb_eq in E as ->.
  destruct (IH _ H) as [r ->]. by exists r.
Qed.

Definition key_matches (key p : cstr) : bool :=
  let sep := default 0 (p !! length key) in starts_with key p && ((sep =? COLON) || (sep =? EQUALS)).

(** A line has a key exactly when it is the key's line. *)
Lemma key_matches_line k v rest key :
  key_ok k → key_ok key → key_matches key (k ++ (COLON :: v ++ rest)) = str_eqb k key.
Proof.
  intros (_ & Hc & He) (_ & Hc' & He'). apply eq_true_iff_eq. rewrite str_eqb_true. unfold key_matches, cstr in *. split.
  - intros [[r Hr]%starts_with_true Hs]%andb_prop.
    destruct (app_eq_inv _ _ _ _ Hr) as [(l & -> & Hl)|(l & -> & Hl)].
    + destruct l as [|c l]; [by rewrite app_nil_r|]. exfalso.
      rewrite <- app_assoc, lookup_app_r, Nat.sub_diag in Hs by lia. simpl in Hs.
      assert (c = COLON ∨ c = EQUALS) as [->| ->] by lia; [apply Hc|apply He]; apply elem_of_app; right; left.
    + destruct l as [|c l]; [by rewrite app_nil_r|]. exfalso. injection Hl as <- _. apply Hc', elem_of_app. right. left.
  - intros ->. rewrite starts_with_app, lookup_app_r, Nat.sub_diag by lia. done.
Qed.

Lemma skip_blanks_id v rest : value_ok v → skip_blanks (32 :: v) ++ (NL :: rest) = v ++ (NL :: rest).
Proof.
  intros (_ & _ & H). cbn. destruct v as [|c v]; [done|]. destruct H. cbn.
  by rewrite (proj2 (Z.eqb_neq c 32)), (proj2 (Z.eqb_neq c 9)).
Qed.

Lemma line_loop_render ls key max fuel :
  Forall line_ok ls → key_ok key → (length (render ls) < fuel)%nat →
  default [] (line_loop fuel (render ls) key max) = take (max - 1) (field_of ls key).
Proof.
  intros Hls Hkey. revert fuel. induction Hls as [|[k v] ls [Hk Hv] _ IH]; intros fuel Hf.
  - destruct fuel; cbn; by rewrite take_nil.
  - simpl in Hk, Hv. destruct fuel as [|fuel]; [lia|]. unfold field_of. cbn [find fst].
    assert (Hp : render ((k, v) :: ls) = k ++ (COLON :: (32 :: v) ++ NL :: render ls)).
    { unfold render, line_text. simpl. by rewrite <- !app_assoc, <- !app_comm_cons, <- app_assoc. }
    assert (Hlen := Hf). rewrite Hp, !length_app in Hlen. simpl in Hlen. rewrite length_app in Hlen. simpl in Hlen.
    rewrite Hp. cbn [line_loop]. destruct (k ++ (COLON :: (32 :: v) ++ NL :: render ls)) eqn:E; [by destruct k|].
    rewrite <- E. clear E.
    assert (Hspan : Vfs.span NL (k ++ (COLON :: (32 :: v) ++ NL :: render ls)) = (k ++ (COLON :: 32 :: v), NL :: render ls)).
    { rewrite <- (VfsPath.span_spec NL (k ++ (COLON :: 32 :: v))); [by rewrite <- app_assoc|].
      destruct Hk as [Hk _], Hv as [Hv _]. rewrite elem_of_app, !elem_of_cons. unfold NL, COLON in *. intuition lia. }
    rewrite Hspan. fold (key_matches key (k ++ (COLON :: (32 :: v) ++ NL :: render ls))).
    rewrite key_matches_line by done. destruct (str_eqb k key) eqn:Ek.
    + apply str_eqb_true in Ek as ->. cbn [fmap option_fmap option_map default snd].
      replace (drop (S (length key)) (key ++ (COLON :: 32 :: v))) with (32 :: v).
      * rewrite skip_blanks_id by done. simpl. destruct Hv as (? & ? & _). by apply copy_value_take.
      * rewrite drop_app_ge by lia. by replace (S (length key) - length key)%nat with 1%nat by lia.
    + apply IH. lia.
Qed.

Lemma value_render ls key max :
  Forall line_ok ls → key_ok key → value (render ls) key max = take (max - 1) (field_of ls key).
Proof. intros Hls Hk. unfold value, line. apply line_loop_render; [done|done|lia]. Qed.

Definition key_okb (k : cstr) : bool := forallb (λ c, negb (c =? NL) && negb (c =? COLON) && negb (c =? EQUALS)) k.

Lemma key_okb_ok k : key_okb k = true → key_ok k.
Proof.
  unfold key_okb. rewrite forallb_forall. intros H. 
  split_and!; intros Hin%list_elem_of_In%H; unfold NL, COLON, EQUALS in Hin; lia.
Qed.

(** C40: A manifest of the lines "key: value", in any order: each field is the value of
    the first line of its key, cut to the array, and empty without one. *)
Theorem manifest_parses_lines ls :
  Forall line_ok ls →
  let f key max := take (max - 1) (field_of ls (lit key)) in
  let m := mkManifest (f "Name" 64%nat) (f "ID" 64%nat) (f "Version" 32%nat) (f "Author" 64%nat)
                      (f "Type" 32%nat) (f "Entry" 96%nat) (f "Icon" 96%nat) (f "Files" 192%nat) in
  nexus_package_manifest_parse (render ls) = (bool_decide (name m ≠ []) && bool_decide (id m ≠ []), m).
Proof.
  intros H. simpl. unfold nexus_package_manifest_parse.
  by rewrite !value_render by (done || by apply key_okb_ok).
Qed.

Lemma manifest_parses_lines_witness :
  let ls := [(lit "ID", lit "demo"); (lit "Name", lit "Demo app"); (lit "Files", lit "A.ELF,B.TXT"); (lit "ID", lit "x")] in
  nexus_package_manifest_parse (render ls) = (true, mkManifest (lit "Demo app") (lit "demo") [] [] [] [] [] (lit "A.ELF,B.TXT")).
Proof.
  intros ls. assert (H : Forall line_ok ls).
  { repeat constructor; simpl; try (unfold NL, CR, COLON, EQUALS; set_solver by lia). }
  rewrite (manifest_parses_lines ls H). reflexivity.
Defined.

End ManifestSpec.

Module PackageSpec.
Import SystemState Apps Packages.

(** ** Short names *)

(** A name of eight characters and an extension of three. *)
Inductive short_name : cstr → Prop :=
  | short_base b : 1 ≤ Z.of_nat (length b) ≤ 8 → Forall (λ c, short_char c = true) b → short_name b
  | short_ext b e : 1 ≤ Z.of_nat (length b) ≤ 8 → Z.of_nat (length e) ≤ 3 →
    Forall (λ c, short_char c = true) b → Forall (λ c, short_char c = true) e → short_name (b ++ DOT :: e).

Lemma short_char_ok c : short_char c = true → c ≠ DOT ∧ c ≠ Mount.SLASH.
Proof. intros H. split; intros ->; vm_compute in H; done. Qed.

Lemma short_scan_plain b len dot rest :
  (Mount.SLASH ∉ b) → (DOT ∉ b) → len + Z.of_nat (length b) ≤ 12 →
  short_scan (b ++ rest) len dot = short_scan rest (len + Z.of_nat (length b)) dot.
Proof.
  revert len. induction b as [|c b IH]; intros len Hs Hd Hl; [by rewrite Z.add_0_r|].
  rewrite not_elem_of_cons in Hs, Hd. destruct Hs as [Hs Hs'], Hd as [Hd Hd'].
  cbn [app short_scan length] in *. rewrite (proj2 (Z.eqb_neq c Mount.SLASH)), (proj2 (Z.eqb_neq c DOT)) by congruence.
  cbn [andb]. replace (12 <? len + 1) with false by lia. rewrite IH by (done || lia). f_equal. lia.
Qed.

Lemma short_chars_app s t i dot :
  short_chars (s ++ t) i dot = short_chars s i dot && short_chars t (i + Z.of_nat (length s)) dot.
Proof.
  revert i. induction s as [|c s IH]; intros i; cbn [app short_chars length]; [by rewrite Z.add_0_r|].
  rewrite IH, andb_assoc. do 2 f_equal. lia.
Qed.

Lemma short_chars_no_dot s i dot :
  dot < i ∨ i + Z.of_nat (length s) ≤ dot → short_chars s i dot = true ↔ Forall (λ c, short_char c = true) s.
Proof.
  revert i. induction s as [|c s IH]; intros i Hd; cbn [short_chars length] in *; [done|].
  rewrite andb_true_iff, Forall_cons, IH by lia. replace (i =? dot) with false by lia. done.
Qed.

(** What the scan finds in a text it accepts. *)
Lemma short_scan_split s len dot len' dot' :
  short_scan s len dot = Some (len', dot') → 0 ≤ len →
  len' = len + Z.of_nat (length s) ∧ (s = [] ∨ len' ≤ 12) ∧ (Mount.SLASH ∉ s) ∧
  ((DOT ∉ s) ∧ dot' = dot ∨ dot < 0 ∧ ∃ b e, s = b ++ DOT :: e ∧ (DOT ∉ b) ∧ (DOT ∉ e) ∧ dot' = len + Z.of_nat (length b)).
Proof.
  revert len dot. induction s as [|c s IH]; intros len dot H Hl; cbn [short_scan length] in *.
  { injection H as -> ->. split_and!; [lia|by left|set_solver|left; split; [set_solver|done]]. }
  destruct (Z.eqb_spec c Mount.SLASH) as [|Hs]; [done|].
  destruct ((c =? DOT) && (0 <=? dot)) eqn:Ed; [done|]. destruct (12 <? len + 1) eqn:El; [done|].
  apply IH in H as (-> & Hlen & Hsl & Hdot); [|lia]. split_and!; [lia| |set_solver|].
  { right. destruct Hlen as [->|]; simpl; lia. }
  destruct (Z.eqb_spec c DOT) as [->|Hc].
  - right. split; [simpl in Ed; lia|]. destruct Hdot as [[Hd ->]|[? _]].
    + exists [], s. split_and!; [done|set_solver|done|simpl; lia].
    + lia.
  - destruct Hdot as [[Hd ->]|(Hn & b & e & -> & Hb & He & ->)].
    + left. split; [set_solver|done].
    + right. split; [done|]. exists (c :: b), e. split_and!; [done|set_solver|done|simpl; lia].
Qed.

Lemma short_chars_dot b e :
  short_chars (b ++ DOT :: e) 0 (Z.of_nat (length b)) = true ↔
  Forall (λ c, short_char c = true) b ∧ Forall (λ c, short_char c = true) e.
Proof.
  rewrite short_chars_app. cbn [short_chars]. rewrite Z.eqb_refl. cbn [orb andb].
  rewrite andb_true_iff, !short_chars_no_dot by lia. done.
Qed.

Lemma short_plain b : Forall (λ c, short_char c = true) b → (Mount.SLASH ∉ b) ∧ (DOT ∉ b).
Proof.
  rewrite Forall_forall. intros H. split; intros Hin%H; apply short_char_ok in Hin; by destruct Hin.
Qed.

Lemma valid_short_name_iff s : valid_short_name s = true ↔ short_name s.
Proof.
  split.
  - intros H. unfold valid_short_name in H. destruct s as [|c s]; [done|].
    destruct (short_scan (c :: s) 0 (-1)) as [[len dot]|] eqn:E; [|done].
    apply short_scan_split in E as (Hlen & _ & _ & Hd); [|lia]. destruct (_ || _) eqn:Hg in H; [done|].
    destruct (Z.eqb_spec c DOT) as [|Hc]; [done|].
    destruct Hd as [[Hd ->]|(_ & b & e & Hbe & Hb & He & ->)].
    + simpl in Hg. apply short_base; [lia|]. by apply short_chars_no_dot in H; [|lia].
    + rewrite Hbe in *. rewrite length_app in Hlen. cbn [length] in Hlen.
      replace (0 + Z.of_nat (length b) <? 0) with false in Hg by lia. apply short_chars_dot in H as [Hb' He'].
      apply short_ext; (done || lia).
  - intros [b Hl Hb|b e Hl Hle Hb He]; destruct b as [|c b]; simpl length in Hl; try lia;
      destruct (short_plain _ Hb) as [Hbs Hbd]; unfold valid_short_name.
    + pose proof (short_scan_plain (c :: b) 0 (-1) [] Hbs Hbd) as E. rewrite app_nil_r in E.
      rewrite E by (simpl length; lia). cbn [short_scan].
      replace (-1 <? 0) with true by lia. simpl length.
      destruct (_ || _) eqn:Hg; [rewrite !orb_true_iff, !Z.ltb_lt in Hg; lia|]. rewrite (proj2 (Z.eqb_neq c DOT)) by set_solver.
      apply short_chars_no_dot; [lia|done].
    + destruct (short_plain _ He) as [Hes Hed]. change ((c :: b) ++ DOT :: e) with (c :: (b ++ DOT :: e)).
      pose proof (short_scan_plain (c :: b) 0 (-1) (DOT :: e) Hbs Hbd) as E. simpl app in E.
      rewrite E by (simpl length; lia). cbn [short_scan]. rewrite Z.eqb_refl. cbn [andb Z.leb Z.compare].
      rewrite (proj2 (Z.ltb_ge 12 _)) by (simpl length; lia).
      pose proof (short_scan_plain e (0 + Z.of_nat (length (c :: b)) + 1) (0 + Z.of_nat (length (c :: b))) [] Hes Hed) as E'.
      rewrite app_nil_r in E'. change (DOT =? Mount.SLASH) with false. cbv iota.
      rewrite E' by (simpl length; lia). cbn [short_scan].
      rewrite (proj2 (Z.ltb_ge (0 + Z.of_nat (length (c :: b))) 0)) by lia.
      destruct (_ || _) eqn:Hg; [simpl length in Hg; rewrite !orb_true_iff, !Z.ltb_lt in Hg; lia|].
      rewrite (proj2 (Z.eqb_neq c DOT)) by set_solver. rewrite Z.add_0_l. by apply (short_chars_dot (c :: b) e).
Qed.

(** The names the package manager accepts are those of FAT32's short form. *)
Theorem valid_short_name_correct s : valid_short_name s = true ↔ short_name s.
Proof. apply valid_short_name_iff. Qed.

(** ** Lists of files *)

Lemma separator_short c : separator c = true → short_char c = false ∧ c ≠ DOT.
Proof.
  intros H. assert (c = 32 ∨ c = 9 ∨ c = 13 ∨ c = 10 ∨ c = 44 ∨ c = 59) as Hc.
  { unfold separator, is_space in H. lia. }
  destruct_or! Hc; subst c; by vm_compute.
Qed.

Lemma short_name_chars n : short_name n → Forall (λ c, separator c = false) n ∧ n ≠ [] ∧ (length n ≤ 12)%nat.
Proof.
  assert (Hs : ∀ b, Forall (λ c, short_char c = true) b → Forall (λ c, separator c = false) b).
  { intros b Hb. apply (Forall_impl _ _ _ Hb). intros c Hc. apply not_true_iff_false. intros [? _]%separator_short. congruence. }
  intros [b Hl Hb|b e Hl Hle Hb He].
  - split_and!; [by apply Hs|destruct b; [simpl in *; lia|done]|lia].
  - split_and!; [|by destruct b|rewrite length_app; simpl; lia].
    apply Forall_app. split; [by apply Hs|]. constructor; [done|by apply Hs].
Qed.

Lemma skip_separators_app sep t :
  Forall (λ c, separator c = true) sep → (∀ c r, t = c :: r → separator c = false) →
  skip_separators (sep ++ t) = t.
Proof.
  induction 1 as [|c sep Hc _ IH]; intros Ht; cbn [app skip_separators]; [|rewrite Hc; by apply IH].
  destruct t as [|c r]; [done|]. cbn. by rewrite (Ht c r).
Qed.

Lemma split_name_app n sep t :
  Forall (λ c, separator c = false) n → Forall (λ c, separator c = true) sep → sep ≠ [] ∨ t = [] →
  split_name (n ++ sep ++ t) = (n, sep ++ t).
Proof.
  intros Hn Hs Hst. induction Hn as [|c n Hc _ IH]; cbn [app split_name]; [|by rewrite Hc, IH].
  destruct Hs as [|c sep Hc _]; [by destruct Hst as [| ->]|]. cbn. by rewrite Hc.
Qed.

(** The words of a list, each with the separators behind it. *)
Definition list_text (l : list (cstr * cstr)) : cstr := concat (map (λ e, e.1 ++ e.2) l).

Definition word_sep_ok (e : cstr * cstr) : Prop :=
  short_name e.1 ∧ Forall (λ c, separator c = true) e.2.

Definition separated (l : list (cstr * cstr)) : Prop :=
  ∀ i e, l !! i = Some e → (S i < length l)%nat → e.2 ≠ [].

Lemma file_list_loop_words fuel sep l max (out : list cstr) :
  Forall word_sep_ok l → separated l → Forall (λ c, separator c = true) sep → (length l < fuel)%nat →
  file_list_loop fuel (sep ++ list_text l) max out =
  if bool_decide (l ≠ []) && (max <? Z.of_nat (length out + length l)) then None
  else Some (Z.of_nat (length out + length l), out ++ l.*1).
Proof.
  intros Hl. revert fuel sep out. induction Hl as [|[n sp] l [Hn Hsp] Hl IH]; intros fuel sep out Hsep Hs Hf;
    (destruct fuel as [|fuel]; [simpl in Hf; lia|]); cbn [file_list_loop].
  { rewrite skip_separators_app by done. simpl. by rewrite Nat.add_0_r, app_nil_r. }
  simpl in Hn, Hsp. destruct (short_name_chars n Hn) as (Hc & Hne & H12).
  unfold list_text. cbn [map concat fst snd]. fold (list_text l).
  rewrite skip_separators_app; [|done|].
  2:{ intros c r E. destruct n as [|c' n]; [done|]. injection E as <- _. by apply Forall_cons_1 in Hc as [? _]. }
  destruct ((n ++ sp) ++ list_text l) eqn:E; [by destruct n|]. rewrite <- E, <- app_assoc. clear E.
  rewrite split_name_app; [|done|done|].
  2:{ destruct l as [|e l]; [by right|]. left. apply (Hsep 0%nat (n, sp)); [done|simpl; lia]. }
  rewrite bool_decide_true by done. cbn [andb length]. destruct (Z.leb_spec max (Z.of_nat (length out))) as [Hm|Hm].
  { by rewrite (proj2 (Z.ltb_lt _ _)) by lia. }
  rewrite take_ge by done. rewrite (proj2 (Z.eqb_neq (Z.of_nat (length n)) 0)) by (destruct n; [done|simpl; lia]).
  rewrite (proj2 (Z.ltb_ge 12 _)) by lia. cbn [orb]. apply valid_short_name_iff in Hn as ->. cbn [negb].
  rewrite IH; [|intros i e He Hi; apply (Hsep (S i) e); [done|simpl; lia]|done|simpl in Hf; lia].
  rewrite length_app. cbn [length fmap list_fmap fst]. replace (length out + 1 + length l)%nat with (length out + S (length l))%nat by lia.
  rewrite <- app_assoc. destruct l as [|e l]; cbn [app].
  - rewrite bool_decide_false by congruence. cbn [andb]. rewrite (proj2 (Z.ltb_ge max _)) by (simpl; lia). done.
  - rewrite bool_decide_true by done. done.
Qed.

(** A list of short names, with any separators between, before and behind them,
    is read as those names; with more names than the array holds a byte is
    stored behind the array. *)
Theorem parse_file_list_names sep l max :
  Forall word_sep_ok l → separated l → Forall (λ c, separator c = true) sep → l ≠ [] → 0 ≤ max →
  parse_file_list (sep ++ list_text l) max =
  if max <? Z.of_nat (length l) then None else Some (Z.of_nat (length l), l.*1).
Proof.
  intros Hl Hs Hsep Hne Hm. unfold parse_file_list.
  pose proof (file_list_loop_words (S (length (sep ++ list_text l))) sep l max [] Hl Hs Hsep) as E.
  rewrite bool_decide_true in E by done. cbn [andb length Nat.add app] in E.
  assert (Hlen : (length l ≤ length (list_text l))%nat).
  { clear -Hl. induction Hl as [|[n sp] l [Hn _] _ IH]; [done|]. unfold list_text. cbn [map concat]. fold (list_text l).
    simpl in Hn. destruct (short_name_chars n Hn) as (_ & Hn' & _). rewrite !length_app. destruct n; [done|]. simpl. lia. }
  destruct (sep ++ list_text l) eqn:Et.
  - apply app_eq_nil in Et as [_ Et]. rewrite Et in Hlen. destruct l; [done|simpl in Hlen; lia].
  - apply E. rewrite <- Et, length_app. lia.
Qed.

Lemma parse_file_list_names_witness :
  parse_file_list (lit " A.ELF, B.TXT ;README") 8 = Some (3, [lit "A.ELF"; lit "B.TXT"; lit "README"]) ∧
  parse_file_list (concat (replicate 9 (lit "X,"))) 8 = None.
Proof.
  assert (H : ∀ n, valid_short_name n = true → ∀ sp, Forall (λ c, separator c = true) sp → word_sep_ok (n, sp)).
  { intros n Hn sp Hsp. split; [by apply valid_short_name_iff|done]. }
  split.
  - apply (parse_file_list_names (lit " ") [(lit "A.ELF", lit ", "); (lit "B.TXT", lit " ;"); (lit "README", [])]);
      [|intros [|[|[|i]]] e He Hi; simpl in *; simplify_eq; done || lia|by repeat constructor|done|lia].
    repeat first [apply Forall_nil_2 | apply Forall_cons_2; [apply H; [done|by repeat constructor]|]].
  - apply (parse_file_list_names [] (replicate 9 (lit "X", lit ","))); [|intros i e [-> _]%lookup_replicate_1 _; done|done|done|lia].
    apply Forall_replicate, H; [done|by repeat constructor].
Defined.

(** A word of more than twelve characters is cut and accepted. *)
Theorem parse_file_list_cuts_names :
  parse_file_list (lit "abcdefgh.txtXYZ") 8 = Some (1, [lit "abcdefgh.txt"]).
Proof. reflexivity. Qed.

Lemma file_list_loop_valid fuel text max out n fs :
  file_list_loop fuel text max out = Some (n, fs) → 0 < n →
  Forall (λ f, valid_short_name f = true) out → Forall (λ f, valid_short_name f = true) fs.
Proof.
  revert text out. induction fuel as [|fuel IH]; intros text out H Hn Hout; [done|]. cbn [file_list_loop] in H.
  destruct (skip_separators text); [by simplify_eq|]. destruct (split_name _) as [w rest].
  destruct (max <=? _); [done|]. destruct (_ || _) eqn:Hg in H; [simplify_eq; lia|].
  destruct (valid_short_name (take 12 w)) eqn:Hv; cbn [negb] in H; [|simplify_eq; lia].
  apply (IH _ _ H Hn). apply Forall_app. split; [done|]. by constructor.
Qed.

(** A manifest with an entry and no list is refused or accepted by what the stack
    holds behind the name. *)
Theorem entry_only_reads_stack :
  let m := Manifest.mkManifest (lit "Demo") (lit "demo") [] [] [] (lit "DEMO.ELF") [] [] in
  install_plan (replicate 13 0) m = Some (Some [lit "DEMO.ELF"]) ∧ install_plan (replicate 13 170) m = Some None.
Proof. by vm_compute. Qed.

(** ** Discovery *)

(** The strings of the table lie in literals and in manifests that are in use. *)
Definition pkg_wf p : Prop :=
  0 ≤ g_count p ∧
  ∀ i slot f, 0 ≤ i < Apps.g_count (apps p) → id (g_apps (apps p) i) = ManifestField slot f → slot < g_count p.

Definition with_new (a : spec) (ids : list cstr) : spec :=
  mkSpec (entries a ++ map (λ t, (t, 0)) ids) (running a) (phase a).

Section discovery.
Context {D : Type} `{PackageFs D}.
Implicit Types (d : D) (a : spec).

(** The identifier of the package in a directory of the root. *)
Definition package_id (root n : cstr) d : option cstr :=
  data ← nexus_package_load_manifest (path_join 192 root n (lit "manifest.nxm")) 511 d;
  let '(ok, m) := Manifest.nexus_package_manifest_parse (Vfs.until_nul data) in
  if ok then Some (Manifest.id m) else None.

Lemma set_manifest_refines p a m :
  pkg_wf p → refines (pkg_strings p) (apps p) a →
  let p' := p <| g_manifests ::= λ f, upd f (g_count p) m |> in
  pkg_wf p' ∧ refines (pkg_strings p') (apps p') a.
Proof.
  intros [Hc Hw] R. split; [done|]. apply (refines_ext (pkg_strings p)); [|done].
  intros i Hi. simpl. destruct (id (g_apps (apps p) i)) as [|s|slot f|] eqn:E; try done.
  apply Hw in E; [|done]. simpl. by destruct f; rewrite upd_ne by lia.
Qed.

(** The identifier one directory adds to the identifiers [known]: that of its
    manifest, if it is a new one and the table of applications has room. *)
Definition new_id (root n : cstr) d (known : list cstr) : list cstr :=
  match package_id root n d with
  | Some t => if bool_decide (t ∈ known) || (16 <=? length known)%nat then [] else [t]
  | None => []
  end.

(** What a scan of [names] must find, the table of manifests having [used]
    entries: a fold in the order of the names. *)
Fixpoint found_ids (root : cstr) d (names : list (cstr * bool)) (used : Z) (known : list cstr) : list cstr :=
  match names with
  | [] => []
  | (n, is_dir) :: names =>
    if 16 <=? used then [] else
    let ids := if is_dir && negb (bool_decide (n = lit ".")) && negb (bool_decide (n = lit "..")) then new_id root n d known else [] in
    ids ++ found_ids root d names (used + Z.of_nat (length ids)) (known ++ ids)
  end.

Lemma discover_one_spec root source d n p a :
  pkg_wf p → refines (pkg_strings p) (apps p) a →
  let '(ok, p') := discover_one root source d n p in
  let ids := new_id root n d (entries a).*1 in
  pkg_wf p' ∧ refines (pkg_strings p') (apps p') (with_new a ids) ∧
  g_count p' = g_count p + Z.of_nat (length ids) ∧ ok = bool_decide (ids ≠ []).
Proof.
  intros Hw R. assert (Hnil : with_new a [] = a) by (destruct a; unfold with_new; simpl; by rewrite app_nil_r).
  unfold discover_one, new_id, package_id. destruct (nexus_package_load_manifest _ _ d) as [data|].
  2:{ cbn [mbind option_bind length]. rewrite Hnil, Z.add_0_r. done. }
  cbn [mbind option_bind]. destruct (Manifest.nexus_package_manifest_parse _) as [ok m].
  destruct (set_manifest_refines p a m Hw R) as [Hw1 R1].
  set (p1 := p <| g_manifests ::= _ |>) in *. 
  assert (Hid : pkg_strings p1 (ManifestField (g_count p) FId) = Manifest.id m) by (simpl; by rewrite upd_eq).
  assert (Hc : g_count p1 = g_count p) by done. clearbody p1.
  destruct ok; cbn [negb]; [|cbn [length]; rewrite Hnil, Z.add_0_r; done].
  set (ptr := ManifestField (g_count p) FId) in *.
  destruct (refines_call _ (CFind ptr) _ _ R1) as [Hf _]. simpl in Hf.
  destruct (nexus_app_find (pkg_strings p1) ptr (apps p1)) eqn:Ef.
  { assert (Manifest.id m ∈ (entries a).*1) as Hin.
    { rewrite <- Hid. destruct (position_of _ ptr a) as [i|] eqn:Ep; [|done].
      apply position_Some in Ep as (e & He & <- & _). apply list_elem_of_lookup. exists i. by rewrite list_lookup_fmap, He. }
    rewrite (bool_decide_true _ Hin). cbn [orb length]. by rewrite Hnil, Z.add_0_r. }
  set (app := mkApp ptr _ _ _ _).
  destruct (refines_register _ app _ _ R1) as [Hr R2]. unfold run_call in Hr, R2.
  destruct (nexus_app_register _ _ _) as [r ap] eqn:Er. cbn [fst snd] in Hr, R2.
  assert (Hnot : Manifest.id m ∉ (entries a).*1).
  { rewrite <- Hid. apply position_None; [done|]. by destruct (position_of _ ptr a). }
  unfold spec_call in Hr, R2. simpl id in Hr, R2. simpl name in Hr, R2. 
  replace (is_null (entry app)) with false in Hr, R2 by (subst app; simpl; by destruct (bool_decide _)).
  cbn [is_null bool_decide orb] in Hr, R2.
  rewrite Hid, (bool_decide_false _ Hnot), orb_false_r in Hr, R2.
  change (is_null ptr) with false in Hr, R2. change (is_null (ManifestField _ _)) with false in Hr, R2. cbn [orb] in Hr, R2.
  rewrite (bool_decide_false _ Hnot), length_fmap. cbn [orb].
  assert ((16 <=? length (entries a))%nat = (NEXUS_APP_MAX <=? Z.of_nat (length (entries a)))) as ->.
  { unfold NEXUS_APP_MAX. destruct (Nat.leb_spec 16 (length (entries a))), (Z.leb_spec 16 (Z.of_nat (length (entries a)))); (done || lia). }
  destruct (NEXUS_APP_MAX <=? Z.of_nat (length (entries a))) eqn:Hfull; cbn [fst snd] in Hr, R2; subst r;
    destruct (register_table _ _ _ _ _ Er) as [[Hr Hap]|(Hr & Hap & Hcnt)]; try lia.
  - change (0 <=? -1) with false. cbn iota. subst ap. cbn [length]. by rewrite Hnil, Z.add_0_r.
  - rewrite (ref_count _ _ _ R1) in Hr. lia.
  - rewrite (proj2 (Z.leb_le 0 _)) by lia. cbn iota. split_and!; [|exact R2|done|done].
    destruct Hw1 as [Hc0 Hw1]. split; [simpl; lia|]. simpl. intros i slot f Hi. rewrite Hap. unfold upd.
    destruct (Z.eqb_spec i (Apps.g_count (apps p1))) as [->|Hne]; [intros [= <- _]; lia|].
    intros E. apply Hw1 in E; lia.
Qed.

Lemma with_new_app a ids ids' : with_new (with_new a ids) ids' = with_new a (ids ++ ids').
Proof. unfold with_new. simpl. by rewrite map_app, app_assoc. Qed.

Lemma with_new_known a ids : (entries (with_new a ids)).*1 = (entries a).*1 ++ ids.
Proof.
  unfold with_new. cbn [entries]. rewrite fmap_app. f_equal.
  induction ids as [|t ids IH]; [done|]. cbn. by rewrite IH.
Qed.

(** The state after the identifiers [ids] were found, in this order. *)
Record discovered p a (ids : list cstr) p' : Prop := {
  di_wf : pkg_wf p';
  di_refines : refines (pkg_strings p') (apps p') (with_new a ids);
  di_count : g_count p' = g_count p + Z.of_nat (length ids);
}.

Lemma discover_loop_spec root source d names added p a :
  pkg_wf p → refines (pkg_strings p) (apps p) a →
  let ids := found_ids root d names (g_count p) (entries a).*1 in
  let '(n, p') := discover_loop root source d names added p in
  n = added + Z.of_nat (length ids) ∧ discovered p a ids p'.
Proof.
  revert added p a. induction names as [|[n is_dir] names IH]; intros added p a Hw R; cbn [discover_loop found_ids].
  all: assert (Hnil : with_new a [] = a) by (destruct a; unfold with_new; simpl; by rewrite app_nil_r).
  { cbn [length]. rewrite Z.add_0_r. split; [done|]. split; [done|by rewrite Hnil|cbn; lia]. }
  unfold NEXUS_DISCOVERY_MAX. destruct (16 <=? g_count p).
  { cbn [length]. rewrite Z.add_0_r. split; [done|]. split; [done|by rewrite Hnil|cbn; lia]. }
  assert (∀ t, str_eqb n t = bool_decide (n = t)) as Hdots.
  { intros t. apply Bool.eq_iff_eq_true. by rewrite str_eqb_true, bool_decide_eq_true. }
  rewrite !Hdots. destruct is_dir; cbn [negb andb].
  2:{ cbn [length app]. rewrite Z.add_0_r, app_nil_r. by apply IH. }
  destruct (bool_decide (n = lit ".")), (bool_decide (n = lit "..")); cbn [negb andb orb];
    try (cbn [length app]; rewrite Z.add_0_r, app_nil_r; by apply IH).
  cbv zeta. pose proof (discover_one_spec root source d n p a Hw R) as Hone.
  destruct (discover_one root source d n p) as [ok p1]. cbv zeta in Hone.
  set (i1 := new_id root n d (entries a).*1) in *. destruct Hone as (Hw1 & R1 & Hc1 & Hok).
  specialize (IH (if ok then added + 1 else added) p1 _ Hw1 R1). cbv zeta in IH.
  rewrite Hc1, with_new_known in IH. destruct (discover_loop _ _ _ _ _ p1) as [k p'].
  destruct IH as (-> & [W' R' C']). set (ids := found_ids _ _ _ _ _) in *. rewrite with_new_app in R'.
  assert (Hl : Z.of_nat (length i1) = if ok then 1 else 0).
  { subst ok i1. unfold new_id. destruct (package_id root n d); [|done]. by destruct (_ || _). }
  rewrite length_app. split; [destruct ok; lia|]. split; [done|done|]. rewrite length_app. lia.
Qed.

(** C39: Discovery registers, in the order of the directory, of the entries the
    listing returns (it asks for at most 16), the packages whose manifest has
    an identifier of its own, until one of the two tables of 16 is full -
    exactly those that the fold [found_ids] over the names gives, and it
    returns their number; the applications that are registered keep their
    identifiers, counts and state, although the manifests they point into are
    those of the package manager. *)
Theorem package_discover_registers root names d p a :
  root = lit "/system/apps" ∨ root = lit "/userdata/apps" →
  g_initialized p = true → fat32_is_mounted d = true →
  fat32_list_entries root 16 d = Some names →
  pkg_wf p → refines (pkg_strings p) (apps p) a →
  let ids := found_ids root d names (g_count p) (entries a).*1 in
  let '(n, p') := nexus_package_discover (Some root) d p in
  n = Z.of_nat (length ids) ∧ discovered p a ids p'.
Proof.
  intros Hroot Hi Hm Hl Hw R. unfold nexus_package_discover. rewrite Hi, Hm. cbn [negb].
  assert (Hloop : ∀ source, let '(n, p') := discover_root root source d p in
    n = Z.of_nat (length (found_ids root d names (g_count p) (entries a).*1)) ∧
    discovered p a (found_ids root d names (g_count p) (entries a).*1) p').
  { intros source. unfold discover_root. change NEXUS_DISCOVERY_MAX with 16. rewrite Hl. by apply (discover_loop_spec root source d names 0). }
  destruct Hroot as [-> | ->]; [exact (Hloop _)|].
  change (str_eqb (lit "/userdata/apps") (lit "/system/apps")) with false. cbn iota. exact (Hloop _).
Qed.

End discovery.

End PackageSpec.
