(* ===== verification/PackageInstall.v ===== *)
(** * Package installation

    What the package manager asks of the file system ([PackageFsLaws]), and
    that [nexus_package_install] then either installs everything or leaves
    the volume as it was. *)

From Stdlib Require Import Lia ZArith Bool.
From stdpp Require Import base list gmap numbers strings.
From S2P Require Import Prelude Mount Vfs Apps Packages PackageSpec.

Local Open Scope Z_scope.

(** What a path names. *)
Inductive node := Absent | File (data : list Z) | Dir.

#[export] Instance node_eq_dec : EqDecision node.
Proof. solve_decision. Defined.

Definition joined (dir name : cstr) : cstr := if Packages.ends_in_slash dir then dir ++ name else dir ++ Mount.SLASH :: name.

(** The contract: a volume is a tree of nodes.  [pf_ok] stands for a mounted,
    sound volume on a device without read or write errors; a call that fails
    then leaves the tree as it is (a full volume, a name that is taken). *)
Class PackageFsLaws (D : Type) `{PackageFs D} := {
  pf_key : Type;
  pf_key_dec :: EqDecision pf_key;
  pf_at : cstr → pf_key;
  pf_sub : pf_key → cstr → pf_key;
  pf_node : pf_key → D → node;
  pf_ok : D → Prop;
  pf_at_joined dir name :
    head dir = Some Mount.SLASH → Packages.valid_short_name name = true →
    pf_at (joined dir name) = pf_sub (pf_at dir) name;
  pf_sub_inj k k' f f' : pf_sub k f = pf_sub k' f' → k = k' ∧ ∀ k'', pf_sub k'' f = pf_sub k'' f';
  pf_sub_ne k f : pf_sub k f ≠ k;
  pf_mounted d : pf_ok d → fat32_is_mounted d = true;
  pf_parent k f d : pf_ok d → pf_node (pf_sub k f) d ≠ Absent → pf_node k d = Dir;
  pf_is_directory path d : pf_ok d → fat32_is_directory path d = bool_decide (pf_node (pf_at path) d = Dir);
  pf_read path size d : pf_ok d →
    fat32_read_file path size d = match pf_node (pf_at path) d with File data => Some (take (Z.to_nat size) data) | _ => None end;
  pf_write path data d ok d' : pf_ok d → fat32_write_file path data d = (ok, d') →
    pf_ok d' ∧ if ok then pf_node (pf_at path) d ≠ Dir ∧ ∀ k, pf_node k d' = if decide (k = pf_at path) then File data else pf_node k d
    else ∀ k, pf_node k d' = pf_node k d;
  pf_mkdir path d ok d' : pf_ok d → fat32_mkdir path d = (ok, d') →
    pf_ok d' ∧ if ok then pf_node (pf_at path) d = Absent ∧ (∃ k f, pf_at path = pf_sub k f) ∧ ∀ k, pf_node k d' = if decide (k = pf_at path) then Dir else pf_node k d
    else ∀ k, pf_node k d' = pf_node k d;
  pf_remove_file path d ok d' : pf_ok d → fat32_remove_file path d = (ok, d') →
    pf_ok d' ∧ match pf_node (pf_at path) d with
    | File _ => ok = true ∧ ∀ k, pf_node k d' = if decide (k = pf_at path) then Absent else pf_node k d
    | _ => ok = false ∧ ∀ k, pf_node k d' = pf_node k d
    end;
  pf_remove_empty_dir path d ok d' : pf_ok d → fat32_remove_empty_dir path d = (ok, d') →
    (∀ f, pf_node (pf_sub (pf_at path) f) d = Absent) → (∃ k f, pf_at path = pf_sub k f) →
    pf_ok d' ∧ if decide (pf_node (pf_at path) d = Dir)
    then ok = true ∧ ∀ k, pf_node k d' = if decide (k = pf_at path) then Absent else pf_node k d
    else ok = false ∧ ∀ k, pf_node k d' = pf_node k d;
}.

Module PackageInstall.
Import SystemState Apps Packages.

(** ** Paths *)

Lemma append_upto_room cap out s :
  Z.of_nat (length out + length s) ≤ cap - 1 → append_upto cap out s = out ++ s.
Proof.
  revert out. induction s as [|c s IH]; intros out Hl; cbn [append_upto length] in *; [by rewrite app_nil_r|].
  rewrite (proj2 (Z.ltb_lt _ _)) by lia. rewrite IH by (rewrite length_app; simpl; lia). by rewrite <- app_assoc.
Qed.

Lemma package_path_join_room cap dir leaf :
  head dir = Some Mount.SLASH → Z.of_nat (length dir + length leaf) + 2 ≤ cap →
  package_path_join cap dir leaf = joined dir leaf.
Proof.
  intros Hd Hl. unfold package_path_join, joined.
  rewrite (append_upto_room cap [] dir) by (simpl; lia). cbn [app].
  rewrite (proj2 (Z.ltb_lt 0 _)) by (destruct dir; [done|simpl; lia]). rewrite (proj2 (Z.ltb_lt _ cap)) by lia.
  destruct (ends_in_slash dir); cbn [negb andb].
  - apply append_upto_room. lia.
  - rewrite append_upto_room by (rewrite length_app; simpl; lia). by rewrite <- app_assoc.
Qed.

(** ** The files a manifest asks for *)

(** The number of words of a list, as one counts them: [inside] a word or not. *)
Fixpoint word_count (inside : bool) (t : cstr) : nat :=
  match t with
  | [] => 0
  | c :: t => if separator c then word_count false t else if inside then word_count true t else S (word_count true t)
  end.

Lemma skip_separators_count t : word_count false (skip_separators t) = word_count false t.
Proof. induction t as [|c t IH]; cbn; [done|]. destruct (separator c) eqn:E; [done|]. cbn. by rewrite E. Qed.

Lemma skip_separators_length t : (length (skip_separators t) ≤ length t)%nat.
Proof. induction t as [|c t IH]; cbn; [lia|]. destruct (separator c); cbn; lia. Qed.

Lemma skip_separators_head t c r : skip_separators t = c :: r → separator c = false.
Proof. induction t as [|x t IH]; cbn; [done|]. destruct (separator x) eqn:E; [done|]. intros [= -> _]. done. Qed.

Lemma split_name_count t : word_count true t = word_count false (split_name t).2 ∧ (length (split_name t).2 ≤ length t)%nat.
Proof.
  induction t as [|c t IH]; cbn; [done|]. destruct (separator c) eqn:E; [cbn; rewrite E; split; [done|lia]|].
  destruct (split_name t). cbn in *. split; [by destruct IH|lia].
Qed.

Lemma file_list_loop_returns fuel text max out :
  Z.of_nat (length out + word_count false text) ≤ max → (length text < fuel)%nat →
  file_list_loop fuel text max out ≠ None.
Proof.
  revert text out. induction fuel as [|fuel IH]; intros text out Hw Hf; [lia|]. cbn [file_list_loop].
  rewrite <- skip_separators_count in Hw. pose proof (skip_separators_length text) as Hl.
  destruct (skip_separators text) as [|c r] eqn:E; [done|]. apply skip_separators_head in E.
  cbn [split_name word_count length] in *. rewrite E in *. destruct (split_name_count r) as [Hc Hr].
  destruct (split_name r) as [w rest]. simpl in Hc, Hr.
  rewrite (proj2 (Z.leb_gt max _)) by lia. case_match; [done|]. case_match; [done|].
  apply IH; [rewrite length_app; simpl; lia|lia].
Qed.

Lemma entry_row_name junk e : has_name [entry_row junk e] e = true → entry_row junk e = e.
Proof. unfold has_name, existsb. rewrite orb_false_r, str_eqb_true. congruence. Qed.

Lemma has_name_In names n : has_name names n = true ↔ n ∈ names.
Proof.
  unfold has_name. rewrite existsb_exists. split.
  - intros (x & Hx & ->%str_eqb_true). by apply list_elem_of_In.
  - intros Hn. exists n. split; [by apply list_elem_of_In|by apply str_eqb_true].
Qed.

Lemma install_plan_files junk m files :
  install_plan junk m = Some (Some files) →
  Forall (λ f, valid_short_name f = true) files ∧ (Manifest.entry m ≠ [] → Manifest.entry m ∈ files) ∧
  (lit "manifest.nxm" ∉ files).
Proof.
  unfold install_plan, validate_entry_name. destruct (if bool_decide (Manifest.files m ≠ []) then _ else _) as [[fs|]|] eqn:E; [|done..].
  cbn [mbind option_bind]. intros H. destruct (_ && _) eqn:E1 in H; [done|]. destruct (_ && _) eqn:E2 in H; [done|].
  destruct (has_name fs (lit "manifest.nxm")) eqn:E3 in H; [done|]. injection H as ->.
  assert (Hent : Manifest.entry m ≠ [] → valid_short_name (Manifest.entry m) = true ∧ has_name files (Manifest.entry m) = true).
  { intros He. rewrite (bool_decide_true _ He) in E1, E2. by destruct (valid_short_name (Manifest.entry m)), (has_name _ (Manifest.entry m)). }
  split_and!; [|intros He; by apply has_name_In, Hent|rewrite <- has_name_In; congruence].
  clear E1 E2. destruct (bool_decide (Manifest.files m ≠ [])) in E.
  - destruct (parse_file_list _ _) as [[n fs]|] eqn:Ep in E; [|done]. cbn [mbind option_bind] in E. destruct (n <=? 0) eqn:Hn in E; [done|].
    injection E as ->. unfold parse_file_list in Ep. destruct (Manifest.files m) eqn:Et in Ep; [by injection Ep as <- _|].
    eapply PackageSpec.file_list_loop_valid; [exact Ep|lia|constructor].
  - destruct (bool_decide (Manifest.entry m ≠ [])) eqn:He in E; [|injection E as <-; constructor].
    apply bool_decide_eq_true in He.
    destruct (valid_short_name _) in E; [|done]. injection E as <-. destruct (Hent He) as [Hv Hh].
    rewrite (entry_row_name _ _ Hh). by repeat constructor.
Qed.

Lemma install_plan_returns junk m : (word_count false (Manifest.files m) ≤ 8)%nat → install_plan junk m ≠ None.
Proof.
  intros Hw. unfold install_plan. destruct (bool_decide (Manifest.files m ≠ [])).
  2:{ by destruct (bool_decide _), (validate_entry_name _). }
  unfold parse_file_list. destruct (Manifest.files m) as [|c t] eqn:Et; [done|].
  pose proof (file_list_loop_returns (S (length (c :: t))) (c :: t) NEXUS_INSTALL_MAX_FILES []) as Hr.
  destruct (file_list_loop _ _ _ _) as [[n fs]|]; [done|]. cbn [mbind option_bind]. destruct Hr; [|simpl; lia|done].
  unfold NEXUS_INSTALL_MAX_FILES. cbn [length Nat.add]. lia.
Qed.

Section laws.
Context {D : Type} `{PackageFsLaws D}.
Implicit Types d : D.

Definition same_tree d d' : Prop := ∀ k, pf_node k d' = pf_node k d.

Definition dir_ok (dir : cstr) : Prop := head dir = Some Mount.SLASH ∧ Z.of_nat (length dir) ≤ 240.

Lemma join_at dir name :
  dir_ok dir → valid_short_name name = true → pf_at (package_path_join 256 dir name) = pf_sub (pf_at dir) name.
Proof.
  intros [Hd Hl] Hn. rewrite package_path_join_room; [by apply pf_at_joined|done|].
  apply PackageSpec.valid_short_name_iff, PackageSpec.short_name_chars in Hn as (_ & _ & Hn). lia.
Qed.

(** ** Copying

    The state after the files [ws] of the directory [ks] of [d] have been copied
    to the new directory [kd]. *)
Record copied (d : D) (ks kd : pf_key) (ws : list cstr) (d' : D) : Prop := {
  cp_ok : pf_ok d';
  cp_dir : pf_node kd d' = Dir;
  cp_file w : w ∈ ws → ∃ data, pf_node (pf_sub ks w) d = File data ∧ pf_node (pf_sub kd w) d' = File data;
  cp_rest k : k ≠ kd → (∀ w, w ∈ ws → k ≠ pf_sub kd w) → pf_node k d' = pf_node k d;
}.

Lemma copied_mkdir d dst ks d' :
  pf_ok d → fat32_mkdir dst d = (true, d') → copied d ks (pf_at dst) [] d'.
Proof.
  intros Hok E. destruct (pf_mkdir _ _ _ _ Hok E) as (Hok' & _ & _ & Hn). split; [done| |set_solver|].
  - rewrite Hn. by rewrite decide_True.
  - intros k Hk _. rewrite Hn. by rewrite decide_False.
Qed.

(** The payloads are where they were: the new directory is not above them. *)
Lemma copied_source d ks kd ws d' f data :
  pf_ok d → pf_node kd d = Absent → copied d ks kd ws d' →
  pf_node (pf_sub ks f) d = File data → pf_node (pf_sub ks f) d' = File data.
Proof.
  intros Hok Hkd Hc Hf. assert (Hks : ks ≠ kd).
  { intros ->. enough (pf_node kd d = Dir) by congruence. apply (pf_parent kd f d Hok). congruence. }
  rewrite (cp_rest _ _ _ _ _ Hc); [done|congruence|].
  intros w _ [? _]%pf_sub_inj. done.
Qed.

Lemma copy_step d ks src dst ws d' f ok d'' :
  pf_ok d → dir_ok src → dir_ok dst → ks = pf_at src → pf_node (pf_at dst) d = Absent → copied d ks (pf_at dst) ws d' →
  valid_short_name f = true → (∃ data, pf_node (pf_sub ks f) d = File data) →
  copy_small_file (package_path_join 256 src f) (package_path_join 256 dst f) d' = (ok, d'') →
  if ok then copied d ks (pf_at dst) (ws ++ [f]) d'' else copied d ks (pf_at dst) ws d''.
Proof.
  intros Hok Hs Hd -> Hkd Hc Hf [data Hn] E. pose proof (cp_ok _ _ _ _ _ Hc) as Hok'.
  pose proof (copied_source _ _ _ _ _ _ _ Hok Hkd Hc Hn) as Hn'.
  unfold copy_small_file in E. rewrite pf_read, (join_at src f), Hn' in E by done.
  destruct (_ =? NEXUS_INSTALL_BUFFER) eqn:Hlen in E; [by injection E as <- <-|].
  rewrite take_ge in E.
  2:{ apply Z.eqb_neq in Hlen. rewrite length_take in Hlen. unfold NEXUS_INSTALL_BUFFER in *. lia. }
  destruct (pf_write _ _ _ _ _ Hok' E) as (Hok'' & Hw). rewrite (join_at dst f) in Hw by done.
  destruct ok.
  - destruct Hw as [_ Hw]. split; [done| | |].
    + rewrite Hw, decide_False by (intros Heq; by apply (pf_sub_ne (pf_at dst) f)). apply Hc.
    + intros w Hin. rewrite Hw. case_decide as Heq.
      * apply pf_sub_inj in Heq as [_ Heq]. exists data. by rewrite Heq.
      * apply elem_of_app in Hin as [Hin| ->%list_elem_of_singleton]; [by apply Hc|done].
    + intros k Hk Hne. rewrite Hw, decide_False by (apply Hne; set_solver). apply Hc; [done|]. intros w Hin. apply Hne. set_solver.
  - destruct Hc. split; [done|by rewrite Hw| |].
    + intros w Hin. rewrite Hw. auto.
    + intros k Hk Hne. rewrite Hw. auto.
Qed.

Lemma copy_files_copied d src dst fs ws d' ok ws' d'' :
  pf_ok d → dir_ok src → dir_ok dst → pf_node (pf_at dst) d = Absent → copied d (pf_at src) (pf_at dst) ws d' →
  Forall (λ f, valid_short_name f = true ∧ ∃ data, pf_node (pf_sub (pf_at src) f) d = File data) fs →
  copy_files src dst fs ws d' = (ok, ws', d'') →
  copied d (pf_at src) (pf_at dst) ws' d'' ∧ (ok = true → ws' = ws ++ fs) ∧
  ∃ fs', ws' = ws ++ fs' ∧ fs' `prefix_of` fs.
Proof.
  intros Hok Hs Hd Hkd Hc Hfs. revert ws d' Hc. induction Hfs as [|f fs [Hf Hn] Hfs IH]; intros ws d' Hc E; cbn [copy_files] in E.
  - simplify_eq. split_and!; [done|by rewrite app_nil_r|]. exists []. by rewrite app_nil_r.
  - destruct (copy_small_file _ _ d') as [ok1 d1] eqn:E1.
    pose proof (copy_step _ _ _ _ _ _ _ _ _ Hok Hs Hd eq_refl Hkd Hc Hf Hn E1) as Hc1. destruct ok1.
    + destruct (IH _ _ Hc1 E) as (Hc2 & Heq & fs' & -> & Hp). split_and!; [done|intros Ht; by rewrite Heq, <- app_assoc|].
      exists (f :: fs'). rewrite <- app_assoc. split; [done|]. by apply prefix_cons.
    + simplify_eq. split_and!; [done|done|]. exists []. rewrite app_nil_r. split; [done|]. apply prefix_nil.
Qed.

(** ** Undoing *)

Lemma remove_all dst ws d :
  pf_ok d → dir_ok dst → Forall (λ f, valid_short_name f = true) ws →
  (∀ w, w ∈ ws → pf_node (pf_sub (pf_at dst) w) d ≠ Dir) →
  let d' := foldr (λ f d, (fat32_remove_file (package_path_join 256 dst f) d).2) d ws in
  pf_ok d' ∧ (∀ w, w ∈ ws → pf_node (pf_sub (pf_at dst) w) d' = Absent) ∧
  ∀ k, (∀ w, w ∈ ws → k ≠ pf_sub (pf_at dst) w) → pf_node k d' = pf_node k d.
Proof.
  intros Hok Hd Hv Hn. induction Hv as [|f ws Hf _ IH]; cbn [foldr]; [split_and!; [done|set_solver|done]|].
  destruct IH as (Hok1 & Ha & Hr); [intros w Hw; apply Hn; by right|].
  set (d1 := foldr _ d ws) in *. destruct (fat32_remove_file _ d1) as [ok d2] eqn:E. simpl.
  destruct (pf_remove_file _ _ _ _ Hok1 E) as (Hok2 & Hrm). rewrite (join_at dst f) in Hrm by done.
  assert (Hf1 : pf_node (pf_sub (pf_at dst) f) d1 ≠ Dir).
  { destruct (decide (Exists (λ w, pf_sub (pf_at dst) f = pf_sub (pf_at dst) w) ws)) as [(w & Hw & ->)%Exists_exists|Hne].
    - by rewrite Ha.
    - rewrite Hr; [apply Hn; by left|]. intros w Hw Heq. apply Hne, Exists_exists. eauto. }
  split; [done|]. destruct (pf_node _ d1) eqn:Hf2; [| |done].
  - destruct Hrm as [_ Hrm]. split.
    + intros w [->|Hw]%elem_of_cons; rewrite Hrm; [done|by apply Ha].
    + intros k Hk. rewrite Hrm. apply Hr. intros w Hw. apply Hk. by right.
  - destruct Hrm as [_ Hrm]. split.
    + intros w [->|Hw]%elem_of_cons; rewrite Hrm; [by rewrite decide_True|]. case_decide; [done|by apply Ha].
    + intros k Hk. rewrite Hrm, decide_False by (apply Hk; by left). apply Hr. intros w Hw. apply Hk. by right.
Qed.

Lemma rollback_restores d src dst ws d' :
  pf_ok d → dir_ok dst → pf_node (pf_at dst) d = Absent → (∃ k f, pf_at dst = pf_sub k f) →
  Forall (λ f, valid_short_name f = true) ws → copied d (pf_at src) (pf_at dst) ws d' →
  pf_ok (rollback dst ws d') ∧ same_tree d (rollback dst ws d').
Proof.
  intros Hok Hd Hkd Hsub Hv Hc. unfold rollback.
  destruct (remove_all dst ws d' (cp_ok _ _ _ _ _ Hc) Hd Hv) as (Hok1 & Ha & Hr).
  { intros w Hw. destruct (cp_file _ _ _ _ _ Hc w Hw) as (data & _ & ->). done. }
  set (d1 := foldr _ d' ws) in *. 
  assert (Hch : ∀ f, pf_node (pf_sub (pf_at dst) f) d = Absent).
  { intros f. destruct (decide (pf_node (pf_sub (pf_at dst) f) d = Absent)) as [|Hne]; [done|].
    apply pf_parent in Hne; [congruence|done]. }
  assert (Hempty : ∀ f, pf_node (pf_sub (pf_at dst) f) d1 = Absent).
  { intros f. destruct (decide (Exists (λ w, pf_sub (pf_at dst) f = pf_sub (pf_at dst) w) ws)) as [(w & Hw & ->)%Exists_exists|Hne].
    - by apply Ha.
    - assert (Hn : ∀ w, w ∈ ws → pf_sub (pf_at dst) f ≠ pf_sub (pf_at dst) w).
      { intros w Hw Heq. apply Hne, Exists_exists. eauto. }
      rewrite Hr by done. rewrite (cp_rest _ _ _ _ _ Hc); [apply Hch|apply pf_sub_ne|done]. }
  assert (Hdir : pf_node (pf_at dst) d1 = Dir).
  { rewrite Hr; [apply Hc|]. intros w _ Heq. by apply (pf_sub_ne (pf_at dst) w). }
  destruct (fat32_remove_empty_dir dst d1) as [ok d2] eqn:E. simpl.
  destruct (pf_remove_empty_dir _ _ _ _ Hok1 E Hempty Hsub) as [Hok2 Hrm]. rewrite decide_True in Hrm by done.
  destruct Hrm as [_ Hrm]. split; [done|]. intros k. rewrite Hrm. case_decide as Hk; [by rewrite Hk|].
  destruct (decide (Exists (λ w, k = pf_sub (pf_at dst) w) ws)) as [(w & Hw & ->)%Exists_exists|Hne].
  - by rewrite Hempty, Hch.
  - assert (Hn : ∀ w, w ∈ ws → k ≠ pf_sub (pf_at dst) w).
    { intros w Hw Heq. apply Hne, Exists_exists. eauto. }
    rewrite Hr by done. by apply (cp_rest _ _ _ _ _ Hc).
Qed.

(** ** Installation *)

Notation manifest_nxm := (lit "manifest.nxm").

Definition source_manifest (src : cstr) (d : D) : option (list Z) :=
  match pf_node (pf_sub (pf_at src) manifest_nxm) d with File data => Some (take 4095 data) | _ => None end.

(** A package of the directory [src] of [d] is in the new directory [dst] of [d']
    and nothing else has changed. *)
Record installed (junk : list Z) (src dst : cstr) (d d' : D) : Prop := {
  in_new : pf_node (pf_at dst) d = Absent;
  in_dir : pf_node (pf_at dst) d' = Dir;
  in_manifest : ∃ text m files,
    source_manifest src d = Some text ∧
    Manifest.nexus_package_manifest_parse (Vfs.until_nul text) = (true, m) ∧
    install_plan junk m = Some (Some files) ∧
    (Manifest.entry m ≠ [] → Manifest.entry m ∈ files) ∧
    pf_node (pf_sub (pf_at dst) manifest_nxm) d' = File text ∧
    (∀ f, f ∈ files → pf_sub (pf_at dst) f ≠ pf_sub (pf_at dst) manifest_nxm →
      ∃ data, Z.of_nat (length data) < NEXUS_INSTALL_BUFFER ∧ pf_node (pf_sub (pf_at src) f) d = File data ∧ pf_node (pf_sub (pf_at dst) f) d' = File data) ∧
    ∀ k, k ≠ pf_at dst → k ≠ pf_sub (pf_at dst) manifest_nxm → (∀ f, f ∈ files → k ≠ pf_sub (pf_at dst) f) →
      pf_node k d' = pf_node k d;
}.

Lemma payloads_ok_files src fs d :
  pf_ok d → dir_ok src → Forall (λ f, valid_short_name f = true) fs → payloads_ok src fs d = true →
  Forall (λ f, valid_short_name f = true ∧ ∃ data, pf_node (pf_sub (pf_at src) f) d = File data ∧ Z.of_nat (length data) < NEXUS_INSTALL_BUFFER) fs.
Proof.
  intros Hok Hs. induction 1 as [|f fs Hf _ IH]; intros E; [constructor|]. cbn [payloads_ok] in E.
  destruct (fat32_is_directory _ d) in E; [done|]. rewrite pf_read, (join_at src f) in E by done.
  destruct (pf_node _ d) as [|data|] eqn:Hn; [done| |done].
  apply andb_prop in E as [El E]. constructor; [|by apply IH].
  split; [done|]. exists data. split; [done|].
  apply negb_true_iff, Z.eqb_neq in El. rewrite length_take in El. unfold NEXUS_INSTALL_BUFFER in *. lia.
Qed.

Lemma manifest_valid : valid_short_name manifest_nxm = true.
Proof. reflexivity. Qed.

Lemma publish junk src dst text m files d d1 d2 :
  pf_ok d → dir_ok src → dir_ok dst → pf_node (pf_at dst) d = Absent →
  source_manifest src d = Some text → Manifest.nexus_package_manifest_parse (Vfs.until_nul text) = (true, m) →
  install_plan junk m = Some (Some files) →
  Forall (λ f, valid_short_name f = true ∧ ∃ data, pf_node (pf_sub (pf_at src) f) d = File data ∧ Z.of_nat (length data) < NEXUS_INSTALL_BUFFER) files →
  copied d (pf_at src) (pf_at dst) files d1 →
  fat32_write_file (package_path_join 256 dst manifest_nxm) text d1 = (true, d2) →
  pf_ok d2 ∧ installed junk src dst d d2.
Proof.
  intros Hok Hs Hd Hkd Htext Hm Hplan Hfs Hc E.
  destruct (pf_write _ _ _ _ _ (cp_ok _ _ _ _ _ Hc) E) as (Hok2 & _ & Hw).
  rewrite (join_at dst manifest_nxm Hd manifest_valid) in Hw. split; [done|].
  assert (Hother : ∀ k, k ≠ pf_sub (pf_at dst) manifest_nxm → pf_node k d2 = pf_node k d1).
  { intros k Hk. by rewrite Hw, decide_False. }
  split; [done| |].
  - rewrite Hother; [apply Hc|]. intros Heq. by apply (pf_sub_ne (pf_at dst) manifest_nxm).
  - destruct (install_plan_files junk m files Hplan) as (_ & Hent & _).
    exists text, m, files. split_and!; [done..| | |]; [by rewrite Hw, decide_True| |].
    + intros f Hf Hne. destruct (cp_file _ _ _ _ _ Hc f Hf) as (data & Hsrc & Hdst). exists data.
      rewrite Hother by done. split_and!; [|done|done]. rewrite Forall_forall in Hfs.
      destruct (Hfs f Hf) as (_ & data' & Hsrc' & Hl). by replace data with data' by congruence.
    + intros k Hk1 Hk2 Hk3. rewrite Hother by done. by apply (cp_rest _ _ _ _ _ Hc).
Qed.


End laws.

End PackageInstall.

(** ** A small file system

    Objects by the upper-case components of their path, the newest first, and
    the number of bytes that can still be written. *)
Module MiniFs.
Import Packages PackageInstall.

Record mini := mkMini { objects : list (list cstr * node); room : nat }.
Implicit Types d : mini.

Definition upper (f : cstr) : cstr := map (λ c, if (97 <=? c) && (c <=? 122) then c - 32 else c) f.

Fixpoint comps (cur t : cstr) : list cstr :=
  let flush := match cur with [] => [] | _ => [cur] end in
  match t with
  | [] => flush
  | c :: t => if c =? Mount.SLASH then flush ++ comps [] t else comps (cur ++ [c]) t
  end.

Definition at_path (path : cstr) : list cstr := map upper (comps [] path).
Definition sub (k : list cstr) (f : cstr) : list cstr := k ++ [upper f].

Fixpoint assoc (k : list cstr) (l : list (list cstr * node)) : node :=
  match l with
  | [] => Absent
  | (k', n) :: l => if decide (k = k') then n else assoc k l
  end.

Definition node_at (k : list cstr) d : node := match k with [] => Dir | _ => assoc k (objects d) end.
Definition parent (k : list cstr) : list cstr := removelast k.
Definition set (k : list cstr) (n : node) d : mini := mkMini ((k, n) :: objects d) (room d).

Definition child_of (k k' : list cstr) : bool := bool_decide (k' ≠ []) && bool_decide (parent k' = k).
Definition no_children (k : list cstr) d : bool :=
  forallb (λ e, negb (child_of k e.1) || bool_decide (node_at e.1 d = Absent)) (objects d).

Definition may_make (k : list cstr) d : bool := bool_decide (k ≠ []) && bool_decide (node_at (parent k) d = Dir).

#[export] Instance mini_fs : PackageFs mini := {
  fat32_is_mounted _ := true;
  fat32_is_directory path d := bool_decide (node_at (at_path path) d = Dir);
  fat32_list_entries path size d :=
    if decide (node_at (at_path path) d = Dir) then
      Some (take (Z.to_nat size) (map (λ k, (default [] (last k), bool_decide (node_at k d = Dir)))
        (filter (λ k, child_of (at_path path) k = true ∧ node_at k d ≠ Absent) (remove_dups (objects d).*1))))
    else None;
  fat32_read_file path size d :=
    match node_at (at_path path) d with File data => Some (take (Z.to_nat size) data) | _ => None end;
  fat32_write_file path data d :=
    let k := at_path path in
    if may_make k d && negb (bool_decide (node_at k d = Dir)) && (length data <=? room d)%nat
    then (true, mkMini ((k, File data) :: objects d) (room d - length data)) else (false, d);
  fat32_mkdir path d :=
    let k := at_path path in
    if may_make k d && bool_decide (node_at k d = Absent) then (true, set k Dir d) else (false, d);
  fat32_remove_file path d :=
    let k := at_path path in
    match node_at k d with File _ => (true, set k Absent d) | _ => (false, d) end;
  fat32_remove_empty_dir path d :=
    let k := at_path path in
    if bool_decide (k ≠ []) && bool_decide (node_at k d = Dir) && no_children k d then (true, set k Absent d) else (false, d);
}.

Definition folded (k : list cstr) : Prop := map upper k = k.

Definition tree d : Prop :=
  (∀ k f, node_at (k ++ [f]) d ≠ Absent → node_at k d = Dir) ∧ (∀ k, node_at k d ≠ Absent → folded k).

Lemma upper_upper f : upper (upper f) = upper f.
Proof.
  unfold upper. rewrite map_map. apply map_ext. intros c.
  destruct ((97 <=? c) && (c <=? 122)) eqn:E; [|by rewrite E].
  apply andb_prop in E as [H1%Z.leb_le H2%Z.leb_le]. by rewrite (proj2 (Z.leb_gt 97 _)) by lia.
Qed.

Lemma at_path_folded path : folded (at_path path).
Proof. unfold folded, at_path. rewrite map_map. apply map_ext, upper_upper. Qed.

Lemma node_at_set k n d d' :
  k ≠ [] → objects d' = (k, n) :: objects d → ∀ k', node_at k' d' = if decide (k' = k) then n else node_at k' d.
Proof. intros Hk E k'. unfold node_at. rewrite E. destruct k'; [by rewrite decide_False by congruence|done]. Qed.

Lemma snoc_inv (k : list cstr) : k ≠ [] → ∃ f, k = parent k ++ [f].
Proof. intros Hk. destruct (exists_last Hk) as (l & f & ->). exists f. unfold parent. by rewrite removelast_last. Qed.

Lemma parent_snoc k (f : cstr) : parent (k ++ [f]) = k.
Proof. apply removelast_last. Qed.

Lemma snoc_ne (k : list cstr) f : k ++ [f] ≠ k.
Proof. intros H%(f_equal length). rewrite length_app in H. simpl in H. lia. Qed.

(** A node that is added, changed or removed keeps the tree. *)
Lemma tree_set k n d d' :
  tree d → k ≠ [] → folded k → objects d' = (k, n) :: objects d →
  (n ≠ Absent → node_at (parent k) d = Dir) →
  (n ≠ Dir → ∀ f, node_at (k ++ [f]) d = Absent) →
  tree d'.
Proof.
  intros [Ht Hf] Hk Hfk E Hp Hc. split.
  2:{ intros k'. rewrite (node_at_set k n d d' Hk E). case_decide as Heq; [by rewrite Heq|apply Hf]. }
  intros k' f Hne. rewrite (node_at_set k n d d' Hk E) in Hne |- *.
  assert (Hpk : parent k ≠ k) by (destruct (snoc_inv k Hk) as [g Hg]; intros Heq; rewrite Heq in Hg; by apply (snoc_ne k g)).
  destruct (decide (k' ++ [f] = k)) as [<-|Hk1].
  - rewrite decide_False by (intros Heq; by apply (snoc_ne k' f)). rewrite parent_snoc in Hp. by apply Hp.
  - case_decide as Hk2; [subst k'|by apply Ht in Hne].
    destruct (decide (n = Dir)) as [|Hn]; [done|]. by rewrite Hc in Hne.
Qed.

Lemma tree_no_child k f d : tree d → node_at k d ≠ Dir → node_at (k ++ [f]) d = Absent.
Proof. intros [Ht _] Hn. destruct (decide (node_at (k ++ [f]) d = Absent)) as [|Hne]; [done|]. by apply Ht in Hne. Qed.

Lemma comps_app cur a t : comps cur (a ++ Mount.SLASH :: t) = comps cur a ++ comps [] t.
Proof.
  revert cur. induction a as [|c a IH]; intros cur; cbn [app comps]; [by rewrite Z.eqb_refl|].
  destruct (c =? Mount.SLASH); [by rewrite IH, app_assoc|apply IH].
Qed.

Lemma comps_name cur f : (Mount.SLASH ∉ f) → cur ++ f ≠ [] → comps cur f = [cur ++ f].
Proof.
  revert cur. induction f as [|c f IH]; intros cur Hs Hne; cbn [comps].
  - rewrite app_nil_r in *. by destruct cur.
  - rewrite not_elem_of_cons in Hs. destruct Hs as [Hs Hs']. rewrite (proj2 (Z.eqb_neq c Mount.SLASH)) by congruence.
    rewrite IH; [by rewrite <- app_assoc|done|by destruct cur].
Qed.

Lemma at_path_joined dir f : valid_short_name f = true → at_path (joined dir f) = sub (at_path dir) f.
Proof.
  intros Hf%PackageSpec.valid_short_name_iff.
  assert (Hs : (Mount.SLASH ∉ f) ∧ f ≠ []).
  { destruct Hf as [b Hl Hb|b e Hl _ Hb He]; apply PackageSpec.short_plain in Hb as [Hb _].
    - split; [done|]. intros ->. simpl in Hl. lia.
    - apply PackageSpec.short_plain in He as [He _]. split; [|by destruct b].
      rewrite elem_of_app, elem_of_cons. intros [?|[?|?]]; done. }
  destruct Hs as [Hs Hne]. unfold joined, at_path, sub, ends_in_slash. case_bool_decide as Hl.
  - apply last_Some in Hl as [a ->]. rewrite <- app_assoc. cbn [app].
    rewrite !comps_app, (comps_name [] f) by done. change (comps [] []) with (@nil cstr). by rewrite app_nil_r, map_app.
  - rewrite comps_app, (comps_name [] f) by done. by rewrite map_app.
Qed.

#[export] Program Instance mini_laws : PackageFsLaws mini := {
  pf_key := list cstr;
  pf_at := at_path;
  pf_sub := sub;
  pf_node := node_at;
  pf_ok := tree;
}.
Next Obligation. intros dir name _ Hn. by apply at_path_joined. Qed.
Next Obligation. intros k k' f f' [-> E]%app_inj_tail. split; [done|]. intros k''. unfold sub. by rewrite E. Qed.
Next Obligation. intros k f. apply snoc_ne. Qed.
Next Obligation. done. Qed.
Next Obligation. intros k f d [Ht _]. apply Ht. Qed.
Next Obligation. done. Qed.
Next Obligation. done. Qed.
Next Obligation.
  intros path data d ok d' Ht. cbn. destruct (_ && _) eqn:E; intros [= <- <-]; [|done].
  apply andb_prop in E as [[[Hk Hp]%andb_prop Hn]%andb_prop _].
  apply bool_decide_eq_true in Hk, Hp. apply negb_true_iff, bool_decide_eq_false in Hn.
  split_and!; [|done|by apply node_at_set].
  apply (tree_set (at_path path) (File data) d); try done; [apply at_path_folded|].
  intros _ f. by apply tree_no_child.
Qed.
Next Obligation.
  intros path d ok d' Ht. cbn. destruct (_ && _) eqn:E; intros [= <- <-]; [|done].
  apply andb_prop in E as [[Hk Hp]%andb_prop Hn]. apply bool_decide_eq_true in Hk, Hp, Hn.
  split_and!; [|done| |by apply node_at_set].
  - apply (tree_set (at_path path) Dir d); try done. apply at_path_folded.
  - unfold at_path in *. destruct (snoc_inv (comps [] path)) as [f Hf]; [by destruct (comps [] path)|].
    exists (map upper (parent (comps [] path))), f. unfold sub. by rewrite Hf at 1; rewrite map_app.
Qed.
Next Obligation.
  intros path d ok d' Ht. cbn. destruct (node_at (at_path path) d) eqn:E; intros [= <- <-]; [done| |done].
  assert (Hk : at_path path ≠ []) by (intros Hk; by rewrite Hk in E).
  split_and!; [|done|by apply node_at_set]. apply (tree_set (at_path path) Absent d); try done; [apply at_path_folded|].
  intros _ f. apply tree_no_child; [done|congruence].
Qed.
Next Obligation.
  intros path d ok d' Ht. cbn. intros E Hc (k & f & Hk).
  assert (Hk' : at_path path ≠ []) by (rewrite Hk; unfold sub; by destruct k).
  rewrite (bool_decide_true (_ ≠ [])) in E by done. cbn [andb] in E.
  assert (Hn : no_children (at_path path) d = true).
  { apply forallb_forall. intros [k' n] _. simpl. destruct (child_of _ k') eqn:Ec; [|done]. cbn [negb orb].
    apply andb_prop in Ec as [Hne Hp]. apply bool_decide_eq_true in Hne, Hp.
    destruct (snoc_inv k' Hne) as [g Hg]. rewrite Hp in Hg. apply bool_decide_eq_true.
    destruct (decide (node_at k' d = Absent)) as [|Hna]; [done|]. apply (proj2 Ht) in Hna as Hfold.
    rewrite Hg in Hfold. unfold folded in Hfold. rewrite map_app in Hfold. apply app_inj_tail in Hfold as [_ Hgu].
    rewrite Hg, <- Hgu. apply Hc. }
  rewrite Hn, andb_true_r in E. destruct (decide (node_at (at_path path) d = Dir)) as [Hd|Hd].
  - rewrite bool_decide_true in E by done. injection E as <- <-. split_and!; [|done|by apply node_at_set].
    apply (tree_set (at_path path) Absent d); try done; [apply at_path_folded|].
    intros _ g. destruct (decide (node_at (at_path path ++ [g]) d = Absent)) as [|Hna]; [done|].
    apply (proj2 Ht) in Hna as Hfold. unfold folded in Hfold. rewrite map_app in Hfold.
    apply app_inj_tail in Hfold as [_ Hgu]. rewrite <- Hgu. apply Hc.
  - rewrite bool_decide_false in E by done. by injection E as <- <-.
Qed.

(** ** A volume with a package on it *)

Definition treeb d : bool :=
  forallb (λ e, bool_decide (map upper e.1 = e.1) && bool_decide (node_at (parent e.1) d = Dir)) (objects d).

Lemma assoc_in k l : assoc k l ≠ Absent → ∃ n, In (k, n) l.
Proof.
  induction l as [|[k' n] l IH]; cbn; [done|]. case_decide as E; [subst k'; exists n; by left|].
  intros H. destruct (IH H) as [n' Hn]. exists n'. by right.
Qed.

Lemma treeb_tree d : treeb d = true → tree d.
Proof.
  unfold treeb. rewrite forallb_forall. intros H. split.
  - intros k f Hne. assert (Ha : assoc (k ++ [f]) (objects d) ≠ Absent) by (by destruct k).
    apply assoc_in in Ha as [n Hn]. apply H in Hn. simpl in Hn. apply andb_prop in Hn as [_ Hp].
    apply bool_decide_eq_true in Hp. by rewrite parent_snoc in Hp.
  - intros k Hne. destruct k as [|x r]; [done|]. apply assoc_in in Hne as [n Hn]. apply H in Hn.
    apply andb_prop in Hn as [Hu _]. by apply bool_decide_eq_true in Hu.
Qed.

Definition demo_manifest : cstr :=
  ManifestSpec.render [(lit "Name", lit "Demo"); (lit "ID", lit "demo"); (lit "Entry", lit "DEMO.ELF"); (lit "Files", lit "DEMO.ELF, README")].

Definition demo (room : nat) : mini := mkMini
  [([lit "PKG"; lit "README"], File (lit "read me")); ([lit "PKG"; lit "DEMO.ELF"], File [127; 69; 76; 70]);
   ([lit "PKG"; lit "MANIFEST.NXM"], File demo_manifest); ([lit "PKG"], Dir);
   ([lit "USERDATA"; lit "APPS"], Dir); ([lit "USERDATA"], Dir)] room.

Definition no_manifest : Manifest.nexus_package_manifest_t := Manifest.mkManifest [] [] [] [] [] [] [] [].
Definition start : pkg :=
  mkPkg false 0 (λ _, no_manifest)
    (Apps.mkMgr (λ _, Apps.no_app) (λ _, Apps.no_runtime) 0 (-1) SystemState.NEXUS_SYSTEM_CLI) [].

Definition demo_install (room : nat) :=
  nexus_package_install [] (Some (lit "/pkg")) (Some (lit "/userdata/apps/demo")) (demo room) start.

Lemma demo_ok room : tree (demo room).
Proof. apply treeb_tree. by vm_compute. Qed.


(** A directory without a manifest, two packages, and the second one again. *)
Definition other_manifest : cstr := ManifestSpec.render [(lit "Name", lit "Other"); (lit "ID", lit "other")].

Definition shelf : mini := mkMini
  [([lit "USERDATA"; lit "APPS"; lit "EMPTY"], Dir);
   ([lit "USERDATA"; lit "APPS"; lit "OTHER"; lit "MANIFEST.NXM"], File other_manifest); ([lit "USERDATA"; lit "APPS"; lit "OTHER"], Dir);
   ([lit "USERDATA"; lit "APPS"; lit "DEMO"; lit "MANIFEST.NXM"], File demo_manifest); ([lit "USERDATA"; lit "APPS"; lit "DEMO"], Dir);
   ([lit "USERDATA"; lit "APPS"; lit "COPY"; lit "MANIFEST.NXM"], File demo_manifest); ([lit "USERDATA"; lit "APPS"; lit "COPY"], Dir);
   ([lit "USERDATA"; lit "APPS"], Dir); ([lit "USERDATA"], Dir)] 0.

Definition shelf_names : list (cstr * bool) := [(lit "EMPTY", true); (lit "OTHER", true); (lit "DEMO", true); (lit "COPY", true)].

Lemma shelf_ids : PackageSpec.found_ids (lit "/userdata/apps") shelf shelf_names 0 [] = [lit "other"; lit "demo"].
Proof. by vm_compute. Qed.

Lemma package_discover_registers_witness :
  let p := nexus_package_manager_init start in
  let '(n, p') := nexus_package_discover (Some (lit "/userdata/apps")) shelf p in
  n = 2 ∧ PackageSpec.discovered p (Apps.mkSpec [] None SystemState.NEXUS_SYSTEM_CLI) [lit "other"; lit "demo"] p'.
Proof.
  intros p.
  assert (Hl : fat32_list_entries (lit "/userdata/apps") 16 shelf = Some shelf_names) by (vm_compute; reflexivity).
  pose proof (PackageSpec.package_discover_registers (lit "/userdata/apps") shelf_names shelf p
    (Apps.mkSpec [] None SystemState.NEXUS_SYSTEM_CLI) (or_intror eq_refl) eq_refl eq_refl Hl) as Hd.
  change (g_count p) with 0 in Hd. change ((Apps.entries _).*1) with (@nil cstr) in Hd. rewrite shelf_ids in Hd.
  destruct (nexus_package_discover _ shelf p) as [n p']. apply Hd.
  - split; simpl; lia.
  - split; simpl; try done; [lia|constructor|lia].
Defined.

End MiniFs.
