(* ===== verification/Disk.v ===== *)
(** * Block devices

    The interface through which the file-system drivers reach a disk
    ([ahci_is_ready], [ahci_read_sectors], [ahci_write_sectors] of
    [src/drivers/storage/ahci.h]), what they rely on of it, the little-endian
    fields of on-disk structures, and a RAM disk that implements the
    interface. *)

From Stdlib Require Import Lia ZArith Bool.
From stdpp Require Import base list gmap numbers.
From S2P Require Import Prelude.

Local Open Scope Z_scope.

Definition SECTOR : Z := 512.

(** A read gives the bytes the device stored at the start of the caller's
    buffer (also when it reports a failure); a write gets the bytes of the
    caller's buffer that it transfers. *)
Class DiskEnv (D : Type) := {
  ahci_is_ready : D → bool;
  ahci_read_sectors : Z → Z → D → bool * list Z * D;
  ahci_write_sectors : Z → Z → list Z → D → bool * D;
}.

Class ConsoleEnv (D : Type) := {
  console_print : cstr → D → D;
  console_print_dec : Z → D → D;
}.

Definition is_byte (b : Z) : Prop := 0 ≤ b < 256.
#[export] Instance is_byte_dec b : Decision (is_byte b).
Proof. unfold is_byte. apply _. Defined.

(** A device that works: [disk_ok] holds, its sectors are [sector d lba] for
    [lba] below [disk_size d], transfers of 1 to 128 sectors inside it
    succeed, a read changes no sector and a write changes those it names. *)
Class DiskLaws (D : Type) `{DiskEnv D} := {
  disk_ok : D → Prop;
  disk_size : D → Z;
  sector : D → Z → list Z;
  disk_ready d : disk_ok d → ahci_is_ready d = true;
  sector_length d lba : disk_ok d → length (sector d lba) = 512%nat;
  sector_bytes d lba : disk_ok d → Forall is_byte (sector d lba);
  disk_read_law d lba n :
    disk_ok d → 0 ≤ lba → 1 ≤ n ≤ 128 → lba + n ≤ disk_size d →
    ∃ d', ahci_read_sectors lba n d = (true, mjoin (sector d <$> seqZ lba n), d') ∧
      disk_ok d' ∧ disk_size d' = disk_size d ∧ ∀ l, sector d' l = sector d l;
  disk_write_law d lba n bytes :
    disk_ok d → 0 ≤ lba → 1 ≤ n ≤ 128 → lba + n ≤ disk_size d →
    Z.of_nat (length bytes) = 512 * n → Forall is_byte bytes →
    ∃ d', ahci_write_sectors lba n bytes d = (true, d') ∧
      disk_ok d' ∧ disk_size d' = disk_size d ∧
      ∀ l, sector d' l = if bool_decide (lba ≤ l < lba + n)
                         then take 512 (drop (512 * Z.to_nat (l - lba)) bytes) else sector d l;
}.

(** ** Buffers *)

(** Storing bytes at the start of a buffer, and at an offset. *)
Definition buf_fill (bytes buf : list Z) : list Z := bytes ++ drop (length bytes) buf.
Definition buf_store (off : nat) (bytes buf : list Z) : list Z :=
  take off buf ++ bytes ++ drop (off + length bytes) buf.

Definition byte_at (buf : list Z) (off : Z) : Z := default 0 (buf !! Z.to_nat off).

(** [memset (buf, v, n)] on a buffer of at least [n] bytes. *)
Definition buf_set (v : Z) (n : Z) (buf : list Z) : list Z := buf_fill (replicate (Z.to_nat n) v) buf.

(** ** Little-endian fields *)

Definition le16_at (buf : list Z) (off : Z) : Z :=
  Z.lor (byte_at buf off) (Z.shiftl (byte_at buf (off + 1)) 8).
Definition le32_at (buf : list Z) (off : Z) : Z :=
  Z.lor (Z.lor (Z.lor (byte_at buf off) (Z.shiftl (byte_at buf (off + 1)) 8))
               (Z.shiftl (byte_at buf (off + 2)) 16))
        (Z.shiftl (byte_at buf (off + 3)) 24).
Definition le64_at (buf : list Z) (off : Z) : Z :=
  foldl (λ v i, Z.lor v (Z.shiftl (byte_at buf (off + i)) (i * 8))) 0 (seqZ 0 8).

Definition le16_bytes (v : Z) : list Z := [u8 v; u8 (Z.shiftr v 8)].
Definition le32_bytes (v : Z) : list Z :=
  [u8 v; u8 (Z.shiftr v 8); u8 (Z.shiftr v 16); u8 (Z.shiftr v 24)].
Definition le64_bytes (v : Z) : list Z := (λ i, u8 (Z.shiftr v (8 * i))) <$> seqZ 0 8.

Lemma u8_byte v : is_byte (u8 v).
Proof. unfold is_byte, u8. apply Z.mod_pos_bound. lia. Qed.
#[export] Hint Resolve u8_byte : nexus.

Lemma u8_small v : is_byte v → u8 v = v.
Proof. unfold is_byte, u8. intros. by apply Z.mod_small. Qed.

Lemma land_le_mask x m : 0 ≤ m → 0 ≤ Z.land x m ≤ m.
Proof.
  intros Hm. split; [apply Z.land_nonneg; lia|].
  assert (m - Z.land x m = Z.ldiff m (Z.land x m)) as E.
  { apply Z.sub_nocarry_ldiff. apply Z.bits_inj'. intros n Hn.
    rewrite Z.ldiff_spec, Z.land_spec, Z.bits_0. by destruct (Z.testbit x n), (Z.testbit m n). }
  assert (0 ≤ Z.ldiff m (Z.land x m)) by (apply Z.ldiff_nonneg; lia). lia.
Qed.

(** Appending a byte above [k] bits. *)
Lemma lor_shiftl_add a b k : 0 ≤ k → 0 ≤ a < 2 ^ k → Z.lor a (Z.shiftl b k) = a + b * 2 ^ k.
Proof.
  intros Hk Ha. rewrite Z.lor_comm, (lor_add_low _ a k), Z.shiftl_mul_pow2 by
    (done || (rewrite Z.shiftl_mul_pow2 by done; apply Z.mod_mul; lia)). lia.
Qed.

Lemma le16_at_sum buf off :
  is_byte (byte_at buf off) → le16_at buf off = byte_at buf off + 256 * byte_at buf (off + 1).
Proof. unfold le16_at, is_byte. intros. rewrite lor_shiftl_add by lia. lia. Qed.

Lemma le32_at_sum buf off :
  is_byte (byte_at buf off) → is_byte (byte_at buf (off + 1)) → is_byte (byte_at buf (off + 2)) →
  le32_at buf off = byte_at buf off + 2 ^ 8 * byte_at buf (off + 1) + 2 ^ 16 * byte_at buf (off + 2)
                    + 2 ^ 24 * byte_at buf (off + 3).
Proof.
  unfold le32_at, is_byte. intros. rewrite (lor_shiftl_add _ _ 8) by lia.
  rewrite (lor_shiftl_add _ _ 16) by lia. rewrite (lor_shiftl_add _ _ 24) by lia. lia.
Qed.

Lemma le16_sum v : 0 ≤ v < 2 ^ 16 → u8 v + 256 * u8 (Z.shiftr v 8) = v.
Proof.
  intros Hv. unfold u8. rewrite Z.shiftr_div_pow2 by lia.
  change (2 ^ 8) with 256 in *. rewrite (Z.mod_small (v / 256)) by (split; [apply Z.div_pos|apply Z.div_lt_upper_bound]; lia).
  rewrite (Z.div_mod v 256) at 3 by lia. lia.
Qed.

Lemma le32_sum v :
  0 ≤ v < 2 ^ 32 →
  u8 v + 2 ^ 8 * u8 (Z.shiftr v 8) + 2 ^ 16 * u8 (Z.shiftr v 16) + 2 ^ 24 * u8 (Z.shiftr v 24) = v.
Proof.
  intros Hv. unfold u8. rewrite !Z.shiftr_div_pow2 by lia.
  change (2 ^ 16) with (256 * 256). change (2 ^ 24) with (256 * 256 * 256). change (2 ^ 8) with 256.
  rewrite <- !Z.div_div by lia.
  pose proof (Z.div_mod v 256 ltac:(lia)). pose proof (Z.div_mod (v / 256) 256 ltac:(lia)).
  pose proof (Z.div_mod (v / 256 / 256) 256 ltac:(lia)).
  rewrite (Z.mod_small (v / 256 / 256 / 256)); [lia|].
  rewrite !Z.div_div by lia. split; [apply Z.div_pos|apply Z.div_lt_upper_bound]; lia.
Qed.

Lemma byte_at_app pre l off :
  off = Z.of_nat (length pre) → ∀ i, 0 ≤ i → byte_at (pre ++ l) (off + i) = byte_at l i.
Proof.
  intros -> i Hi. unfold byte_at. rewrite lookup_app_r by lia. do 2 f_equal. lia.
Qed.

Lemma byte_at_byte buf off : Forall is_byte buf → is_byte (byte_at buf off).
Proof.
  intros F. unfold byte_at. destruct (buf !! Z.to_nat off) eqn:E; simpl; [|unfold is_byte; lia].
  by eapply Forall_lookup_1.
Qed.

(** Reading back a 32-bit field that was stored at an offset. *)
Lemma byte_range buf off : Forall is_byte buf → 0 ≤ byte_at buf off < 256.
Proof. intros Fb. by apply (byte_at_byte buf off). Qed.

Lemma le16_range buf off : Forall is_byte buf → 0 ≤ le16_at buf off < 2 ^ 16.
Proof.
  intros Fb. rewrite le16_at_sum by (by apply byte_range). pose proof (byte_range buf off Fb).
  pose proof (byte_range buf (off + 1) Fb). lia.
Qed.

Lemma le32_range buf off : Forall is_byte buf → 0 ≤ le32_at buf off < 2 ^ 32.
Proof.
  intros Fb. rewrite le32_at_sum by (by apply byte_range). pose proof (byte_range buf off Fb).
  pose proof (byte_range buf (off + 1) Fb). pose proof (byte_range buf (off + 2) Fb).
  pose proof (byte_range buf (off + 3) Fb). lia.
Qed.

Lemma lor_range n a b : 0 ≤ n → 0 ≤ a < 2 ^ n → 0 ≤ b < 2 ^ n → 0 ≤ Z.lor a b < 2 ^ n.
Proof.
  intros Hn Ha Hb. assert (Z.lor a b = Z.lor a b mod 2 ^ n) as ->; [|apply Z.mod_pos_bound; lia].
  rewrite <- (Z.land_ones (Z.lor a b)), Z.land_lor_distr_l, !Z.land_ones by lia.
  by rewrite (Z.mod_small a), (Z.mod_small b).
Qed.

Lemma le64_range buf off : Forall is_byte buf → 0 ≤ le64_at buf off < 2 ^ 64.
Proof.
  intros Fb. unfold le64_at. change (seqZ 0 8) with [0; 1; 2; 3; 4; 5; 6; 7].
  assert (∀ l v, Forall (λ i, 0 ≤ i < 8) l → 0 ≤ v < 2 ^ 64 →
    0 ≤ foldl (λ v i, Z.lor v (Z.shiftl (byte_at buf (off + i)) (i * 8))) v l < 2 ^ 64) as Hf.
  { intros l. induction l as [|i l IH]; intros v Hl Hv; [done|]. apply Forall_cons_1 in Hl as [Hi Hl].
    cbn [foldl]. apply IH; [done|]. apply lor_range; [lia|done|]. pose proof (byte_range buf (off + i) Fb).
    rewrite Z.shiftl_mul_pow2 by lia. assert (2 ^ (i * 8) ≤ 2 ^ 56) by (apply Z.pow_le_mono_r; lia). nia. }
  apply Hf; [repeat constructor; lia|lia].
Qed.

Lemma le32_at_store buf off v :
  0 ≤ v < 2 ^ 32 → 0 ≤ off → off + 4 ≤ Z.of_nat (length buf) →
  le32_at (buf_store (Z.to_nat off) (le32_bytes v) buf) off = v.
Proof.
  intros Hv Ho Hl.
  assert (∀ i, 0 ≤ i < 4 → byte_at (buf_store (Z.to_nat off) (le32_bytes v) buf) (off + i)
                           = byte_at (le32_bytes v) i) as Hb.
  { intros i Hi. unfold buf_store. rewrite byte_at_app by (rewrite ?length_take; lia).
    unfold byte_at. rewrite lookup_app_l by (simpl; lia). done. }
  pose proof (Hb 0 ltac:(lia)) as H0. rewrite Z.add_0_r in H0.
  rewrite le32_at_sum; rewrite H0 || idtac; rewrite ?(Hb 1), ?(Hb 2), ?(Hb 3) by lia.
  - apply (le32_sum v Hv).
  - apply u8_byte.
  - apply u8_byte.
  - apply u8_byte.
Qed.

(** A store leaves the fields outside it alone. *)
Lemma lookup_buf_store off bytes buf i :
  (off + length bytes ≤ length buf)%nat → (i < off ∨ off + length bytes ≤ i)%nat →
  buf_store off bytes buf !! i = buf !! i.
Proof.
  intros Hl Hi. unfold buf_store. destruct Hi as [Hi|Hi].
  - rewrite lookup_app_l by (rewrite length_take; lia). apply lookup_take_lt. lia.
  - rewrite lookup_app_r by (rewrite length_take; lia).
    rewrite lookup_app_r by (rewrite length_take; lia).
    rewrite lookup_drop, length_take. f_equal. lia.
Qed.

Lemma byte_at_store off bytes buf i :
  (off + length bytes ≤ length buf)%nat → 0 ≤ i → i < Z.of_nat off ∨ Z.of_nat (off + length bytes) ≤ i →
  byte_at (buf_store off bytes buf) i = byte_at buf i.
Proof. intros Hl Hi Ho. unfold byte_at. rewrite lookup_buf_store by lia. done. Qed.

Lemma buf_store_length off bytes buf :
  (off + length bytes ≤ length buf)%nat → length (buf_store off bytes buf) = length buf.
Proof. intros. unfold buf_store. rewrite !length_app, length_take, length_drop. lia. Qed.

Lemma buf_store_bytes off bytes buf :
  Forall is_byte bytes → Forall is_byte buf → Forall is_byte (buf_store off bytes buf).
Proof.
  intros. unfold buf_store. apply Forall_app; split; [by apply Forall_take|].
  apply Forall_app; split; [done|by apply Forall_drop].
Qed.

Lemma le32_bytes_byte v : Forall is_byte (le32_bytes v).
Proof. repeat constructor; apply u8_byte. Qed.

Lemma buf_fill_length bytes buf : (length bytes ≤ length buf)%nat → length (buf_fill bytes buf) = length buf.
Proof. intros. unfold buf_fill. rewrite length_app, length_drop. lia. Qed.

Lemma take_buf_fill n bytes buf : n = length bytes → take n (buf_fill bytes buf) = bytes.
Proof. intros ->. unfold buf_fill. by rewrite take_app_length. Qed.

Lemma disk_read_one {D} `{DiskLaws D} (d : D) lba :
  disk_ok d → 0 ≤ lba < disk_size d →
  ∃ d', ahci_read_sectors lba 1 d = (true, sector d lba, d') ∧ disk_ok d' ∧
    disk_size d' = disk_size d ∧ ∀ l, sector d' l = sector d l.
Proof.
  intros Ok Hl. destruct (disk_read_law d lba 1) as (d' & E & ?); [done|lia..|].
  exists d'. split; [|done]. rewrite E. simpl. by rewrite app_nil_r.
Qed.

(** ** A RAM disk *)

Record ramdisk := mkRamdisk {
  rd_size : Z;
  rd_sectors : gmap Z (list Z);
  rd_console : list cstr;
}.
#[export] Instance eta_ramdisk : Eta ramdisk := λ r, mkRamdisk (rd_size r) (rd_sectors r) (rd_console r).

Definition zero_sector : list Z := replicate 512 0.
Arguments zero_sector : simpl never.
Definition rd_sector (d : ramdisk) (lba : Z) : list Z := default zero_sector (rd_sectors d !! lba).

Definition rd_in_range (d : ramdisk) (lba n : Z) : bool :=
  (0 <=? lba) && (1 <=? n) && (n <=? 128) && (lba + n <=? rd_size d).

Definition rd_read (lba n : Z) (d : ramdisk) : bool * list Z * ramdisk :=
  if rd_in_range d lba n then (true, mjoin (rd_sector d <$> seqZ lba n), d) else (false, [], d).

Fixpoint rd_store (lba : Z) (n : nat) (bytes : list Z) (m : gmap Z (list Z)) : gmap Z (list Z) :=
  match n with
  | O => m
  | S n => rd_store (lba + 1) n (drop 512 bytes) (<[lba := take 512 bytes]> m)
  end.

Definition rd_write (lba n : Z) (bytes : list Z) (d : ramdisk) : bool * ramdisk :=
  if rd_in_range d lba n
  then (true, d <| rd_sectors := rd_store lba (Z.to_nat n) bytes (rd_sectors d) |>) else (false, d).

#[export] Instance ramdisk_env : DiskEnv ramdisk := {|
  ahci_is_ready := λ _, true; ahci_read_sectors := rd_read; ahci_write_sectors := rd_write |}.

(** Numbers are logged as a single code point above the byte range. *)
#[export] Instance ramdisk_console : ConsoleEnv ramdisk := {|
  console_print := λ str d, d <| rd_console ::= λ l, l ++ [str] |>;
  console_print_dec := λ n d, d <| rd_console ::= λ l, l ++ [[256 + n]] |> |}.

Definition ramdisk_ok (d : ramdisk) : Prop :=
  map_Forall (λ _ s, length s = 512%nat ∧ Forall is_byte s) (rd_sectors d).

Lemma rd_sector_ok d lba : ramdisk_ok d → length (rd_sector d lba) = 512%nat ∧ Forall is_byte (rd_sector d lba).
Proof.
  intros Ok. unfold rd_sector. destruct (rd_sectors d !! lba) eqn:E; simpl; [by apply (Ok lba)|].
  split; [reflexivity|]. apply Forall_replicate. unfold is_byte. lia.
Qed.

Lemma rd_store_spec n lba bytes m l :
  rd_store lba n bytes m !! l =
  if bool_decide (lba ≤ l < lba + Z.of_nat n)
  then Some (take 512 (drop (512 * Z.to_nat (l - lba)) bytes)) else m !! l.
Proof.
  revert lba bytes m. induction n as [|n IH]; intros lba bytes m; simpl.
  - case_bool_decide; [lia|done].
  - rewrite IH, drop_drop. destruct (decide (l = lba)) as [->|Hne].
    + rewrite !bool_decide_false by lia. rewrite bool_decide_true by lia.
      rewrite lookup_insert_eq, Z.sub_diag. done.
    + rewrite lookup_insert_ne by done.
      destruct (decide (lba + 1 ≤ l < lba + 1 + Z.of_nat n)).
      * rewrite !bool_decide_true by lia. do 3 f_equal. lia.
      * rewrite !bool_decide_false by lia. done.
Qed.

Lemma rd_store_ok n lba bytes m :
  Forall is_byte bytes → (512 * n ≤ length bytes)%nat →
  map_Forall (λ _ s, length s = 512%nat ∧ Forall is_byte s) m →
  map_Forall (λ _ s, length s = 512%nat ∧ Forall is_byte s) (rd_store lba n bytes m).
Proof.
  revert lba bytes m. induction n as [|n IH]; intros lba bytes m Fb Hl Ok; simpl; [done|].
  apply IH; [by apply Forall_drop|rewrite length_drop; lia|].
  apply map_Forall_insert_2; [|done]. rewrite length_take. split; [lia|by apply Forall_take].
Qed.

#[export] Program Instance ramdisk_laws : DiskLaws ramdisk := {|
  disk_ok := ramdisk_ok; disk_size := rd_size; sector := rd_sector |}.
Next Obligation. done. Qed.
Next Obligation. intros. by apply rd_sector_ok. Qed.
Next Obligation. intros. by apply rd_sector_ok. Qed.
Next Obligation.
  intros d lba n Ok Hl Hn Hs. exists d. unfold ahci_read_sectors, ramdisk_env, rd_read, rd_in_range.
  rewrite !(proj2 (Z.leb_le _ _)) by lia. done.
Qed.
Next Obligation.
  intros d lba n bytes Ok Hl Hn Hs Hb Fb. unfold ahci_write_sectors, ramdisk_env, rd_write, rd_in_range.
  rewrite !(proj2 (Z.leb_le _ _)) by lia. simpl. eexists. split; [done|]. simpl. split; [|split; [done|]].
  - apply rd_store_ok; [done|lia|done].
  - intros l. unfold rd_sector. simpl. rewrite rd_store_spec, Z2Nat.id by lia. by case_bool_decide.
Qed.
