(* ===== verification/Fat32.v ===== *)
(** * The FAT32 driver

    [src/fs/fat32.c]: mounting, directory search, reading, and the writable
    part (cluster allocation, directories, files).  A computation is a function
    [fat D → option (A * fat D)]; the result [None] means that a chain walk has
    not come to an end after [fuel] clusters.  The loops of the code that carry
    a guard of their own need no fuel.  The disk is reached through
    [DiskEnv]. *)

From Stdlib Require Import Lia ZArith Bool.
From stdpp Require Import base list numbers strings.
From S2P Require Import Prelude Disk.

Local Open Scope Z_scope.

Module Fat32.

(** ** On-disk structures *)

Record fat32_bpb_t := mkBpb {
  bytes_per_sector : Z; sectors_per_cluster : Z; reserved_sectors : Z; num_fats : Z;
  root_entries16 : Z; total_sectors16 : Z; media : Z; fat_size16 : Z;
  sectors_per_track : Z; num_heads : Z; hidden_sectors : Z; total_sectors32 : Z;
  fat_size32 : Z; ext_flags : Z; fs_version : Z; root_cluster : Z;
  fs_info_sector : Z; backup_boot_sector : Z;
}.

(** The packed struct laid over the boot sector. *)
Definition bpb_of (vbr : list Z) : fat32_bpb_t := {|
  bytes_per_sector := le16_at vbr 11; sectors_per_cluster := byte_at vbr 13;
  reserved_sectors := le16_at vbr 14; num_fats := byte_at vbr 16;
  root_entries16 := le16_at vbr 17; total_sectors16 := le16_at vbr 19;
  media := byte_at vbr 21; fat_size16 := le16_at vbr 22;
  sectors_per_track := le16_at vbr 24; num_heads := le16_at vbr 26;
  hidden_sectors := le32_at vbr 28; total_sectors32 := le32_at vbr 32;
  fat_size32 := le32_at vbr 36; ext_flags := le16_at vbr 40;
  fs_version := le16_at vbr 42; root_cluster := le32_at vbr 44;
  fs_info_sector := le16_at vbr 48; backup_boot_sector := le16_at vbr 50 |}.

Record fat32_dirent_t := mkDirent {
  name : list Z;
  attr : Z;
  nt_reserved : Z;
  create_time_tenth : Z;
  create_time : Z;
  create_date : Z;
  access_date : Z;
  first_cluster_hi : Z;
  write_time : Z;
  write_date : Z;
  first_cluster_lo : Z;
  file_size : Z;
}.
#[export] Instance eta_dirent : Eta fat32_dirent_t := λ r,
  mkDirent (name r) (attr r) (nt_reserved r) (create_time_tenth r) (create_time r) (create_date r)
    (access_date r) (first_cluster_hi r) (write_time r) (write_date r) (first_cluster_lo r) (file_size r).

Definition DIRENT_SIZE : nat := 32.

Definition dirent_of (b : list Z) : fat32_dirent_t := {|
  name := take 11 b; attr := byte_at b 11; nt_reserved := byte_at b 12;
  create_time_tenth := byte_at b 13; create_time := le16_at b 14; create_date := le16_at b 16;
  access_date := le16_at b 18; first_cluster_hi := le16_at b 20; write_time := le16_at b 22;
  write_date := le16_at b 24; first_cluster_lo := le16_at b 26; file_size := le32_at b 28 |}.

Definition dirent_bytes (e : fat32_dirent_t) : list Z :=
  name e ++ [attr e; nt_reserved e; create_time_tenth e] ++ le16_bytes (create_time e) ++
  le16_bytes (create_date e) ++ le16_bytes (access_date e) ++ le16_bytes (first_cluster_hi e) ++
  le16_bytes (write_time e) ++ le16_bytes (write_date e) ++ le16_bytes (first_cluster_lo e) ++
  le32_bytes (file_size e).

(** [memset (&e, 0, sizeof (e))]. *)
Definition zero_dirent : fat32_dirent_t := mkDirent (replicate 11 0) 0 0 0 0 0 0 0 0 0 0 0.

Definition ATTR_DIRECTORY : Z := 0x10.
Definition ATTR_LFN : Z := 0x0F.
Definition ATTR_VOLUME_ID : Z := 0x08.
Definition MAX_SECTORS_PER_READ : Z := 128.

Definition slash : Z := 47.
Definition dot : Z := 46.
Definition space : Z := 32.

(** ** State: the static variables, and the device *)

Record fat {D : Type} := mkFat {
  g_partition_lba : Z;
  g_bytes_per_sector : Z;
  g_sectors_per_cluster : Z;
  g_root_cluster : Z;
  g_max_cluster : Z;
  g_fat_count : Z;
  g_fat_size_sectors : Z;
  g_fat_start_lba : Z;
  g_cluster_heap_start_lba : Z;
  g_mounted : bool;
  g_cluster_buf : list Z;
  g_fat_buf : list Z;
  vbr : list Z;
  disk : D;
}.
Arguments fat : clear implicits.
Arguments mkFat {D}.
#[export] Instance eta_fat {D} : Eta (fat D) := λ r,
  mkFat (g_partition_lba r) (g_bytes_per_sector r) (g_sectors_per_cluster r) (g_root_cluster r)
    (g_max_cluster r) (g_fat_count r) (g_fat_size_sectors r) (g_fat_start_lba r)
    (g_cluster_heap_start_lba r) (g_mounted r) (g_cluster_buf r) (g_fat_buf r) (vbr r) (disk r).

(** ** Names *)

Definition upcase (c : Z) : Z := if (97 <=? c) && (c <=? 122) then c - 97 + 65 else c.

Fixpoint until (stop : Z) (str : cstr) : cstr :=
  match str with
  | [] => []
  | c :: str => if c =? stop then [] else c :: until stop str
  end.

Definition pad (n : nat) (l : list Z) : list Z := l ++ replicate (n - length l) space.

(** ["kernel.elf"] to ["KERNEL  ELF"]; longer parts are cut off. *)
Definition to_short_name (input : cstr) : list Z :=
  let stem := until dot input in
  let ext := match drop (length stem) input with
             | c :: rest => rest        (* c is the dot *)
             | [] => []
             end in
  pad 8 (upcase <$> take 8 stem) ++ pad 3 (upcase <$> take 3 ext).

(** The strict variant of the writable part. *)
Definition make_component_name (component : cstr) : option (list Z) :=
  match component with
  | [] => None
  | c0 :: _ =>
     if (c0 =? dot) || (c0 =? space) then None
     else if bool_decide (slash ∈ component) then None
     else
       let stem := until dot component in
       let ext := drop (S (length stem)) component in
       if bool_decide (dot ∈ ext) then None
       else if (12 <? length component)%nat then None
       else if (length stem <? 1)%nat || (8 <? length stem)%nat || (3 <? length ext)%nat then None
       else Some (pad 8 (upcase <$> stem) ++ pad 3 (upcase <$> ext))
  end.

(** The name of an entry as it is printed. *)
Definition display_name (nm : list Z) : cstr :=
  let base := until space (take 8 nm) in
  if byte_at nm 8 =? space then base else base ++ [dot] ++ until space (take 3 (drop 8 nm)).

Definition dirent_cluster (e : fat32_dirent_t) : Z :=
  Z.lor (Z.shiftl (first_cluster_hi e) 16) (first_cluster_lo e).

Definition set_dirent_cluster (cluster : Z) (e : fat32_dirent_t) : fat32_dirent_t :=
  e <| first_cluster_hi := u16 (Z.shiftr cluster 16) |> <| first_cluster_lo := u16 (Z.land cluster 0xFFFF) |>.

(** 0x0FFFFFF8 to 0x0FFFFFFF end a chain, 0x0FFFFFF7 is a bad cluster. *)
Definition is_end_of_chain (cluster : Z) : bool := cluster >=? 0x0FFFFFF8.

(** ** Entries of a directory cluster *)

Definition dirent_at (buf : list Z) (i : nat) : fat32_dirent_t :=
  dirent_of (take DIRENT_SIZE (drop (DIRENT_SIZE * i) buf)).

Definition first_byte (e : fat32_dirent_t) : Z := byte_at (name e) 0.

(** Deleted, long-name and volume-label entries are skipped. *)
Definition skipped (e : fat32_dirent_t) : bool :=
  (first_byte e =? 0xE5) || (attr e =? ATTR_LFN) || has_bits (attr e) ATTR_VOLUME_ID.

Inductive scan_result := Found (i : nat) (e : fat32_dirent_t) | EndOfDirectory | NextCluster.

(** The loop over the entries of the cluster in [buf], from entry [i], [n] to go. *)
Fixpoint scan_entries (buf : list Z) (nm : list Z) (i n : nat) : scan_result :=
  match n with
  | O => NextCluster
  | S n =>
     let e := dirent_at buf i in
     if first_byte e =? 0 then EndOfDirectory
     else if skipped e then scan_entries buf nm (S i) n
     else if bool_decide (name e = nm) then Found i e
     else scan_entries buf nm (S i) n
  end.

(** The live entries of the cluster, and whether the end mark was met. *)
Fixpoint live_entries (buf : list Z) (i n : nat) : list fat32_dirent_t * bool :=
  match n with
  | O => ([], false)
  | S n =>
     let e := dirent_at buf i in
     if first_byte e =? 0 then ([], true)
     else if skipped e then live_entries buf (S i) n
     else let '(l, fin) := live_entries buf (S i) n in (e :: l, fin)
  end.

Section driver.
Context {D : Type} `{DiskEnv D, ConsoleEnv D}.
Implicit Types (s : fat D).

Definition M (A : Type) : Type := fat D → option (A * fat D).
#[export] Instance m_ret : MRet M := λ A a s, Some (a, s).
#[export] Instance m_bind : MBind M := λ A B f m s,
  match m s with None => None | Some (a, s) => f a s end.
Definition get : M (fat D) := λ s, Some (s, s).
Definition modify (f : fat D → fat D) : M unit := λ s, Some (tt, f s).
Definition out_of_fuel {A} : M A := λ _, None.

(** A call that returns 0 ends its caller with [failed]. *)
Definition check {A} (m : M bool) (failed k : M A) : M A := ok ← m; if (ok : bool) then k else failed.

(** ** Sectors and clusters *)

Definition cluster_to_lba (cluster : Z) s : Z :=
  u64 (g_cluster_heap_start_lba s + u64 (u32 (cluster - 2) * g_sectors_per_cluster s)).

Definition cluster_bytes s : Z := u32 (g_sectors_per_cluster s * g_bytes_per_sector s).
Definition entries_per_cluster s : nat := Z.to_nat (cluster_bytes s / 32).

Definition read_cluster (cluster : Z) : M bool := λ s,
  let '(ok, bytes, d) := ahci_read_sectors (cluster_to_lba cluster s) (g_sectors_per_cluster s) (disk s) in
  Some (ok, s <| g_cluster_buf ::= buf_fill bytes |> <| disk := d |>).

(** [ahci_write_sectors] of the cluster buffer. *)
Definition write_cluster (cluster : Z) : M bool := λ s,
  let '(ok, d) := ahci_write_sectors (cluster_to_lba cluster s) (g_sectors_per_cluster s)
                    (take (Z.to_nat (512 * g_sectors_per_cluster s)) (g_cluster_buf s)) (disk s) in
  Some (ok, s <| disk := d |>).

(** Reads and writes of one sector through [g_fat_buf]. *)
Definition read_fat_sector (lba : Z) : M bool := λ s,
  let '(ok, bytes, d) := ahci_read_sectors lba 1 (disk s) in
  Some (ok, s <| g_fat_buf ::= buf_fill bytes |> <| disk := d |>).
Definition write_fat_sector (lba : Z) : M bool := λ s,
  let '(ok, d) := ahci_write_sectors lba 1 (take 512 (g_fat_buf s)) (disk s) in
  Some (ok, s <| disk := d |>).

Definition get_next_cluster (cluster : Z) : M Z :=
  s ← get;
  let fat_offset := u32 (cluster * 4) in
  let fat_sector := u64 (g_fat_start_lba s + fat_offset / g_bytes_per_sector s) in
  let ent_offset := fat_offset mod g_bytes_per_sector s in
  ok ← read_fat_sector fat_sector;
  if negb ok then mret 0x0FFFFFFF
  else s ← get; mret (Z.land (le32_at (g_fat_buf s) ent_offset) 0x0FFFFFFF).

Definition fat32_mount (partition_lba : Z) : M bool := λ s,
  let s := s <| g_mounted := false |> in
  let '(ok, bytes, d) := ahci_read_sectors partition_lba 1 (disk s) in
  let s := s <| vbr ::= buf_fill bytes |> <| disk := d |> in
  let bpb := bpb_of (vbr s) in
  let overhead := u32 (reserved_sectors bpb + u32 (num_fats bpb * fat_size32 bpb)) in
  if negb ok then Some (false, s)
  else if negb (byte_at (vbr s) 510 =? 0x55) || negb (byte_at (vbr s) 511 =? 0xAA) then Some (false, s)
  else if negb (fat_size16 bpb =? 0) || (fat_size32 bpb =? 0) then Some (false, s)
  else if negb (bytes_per_sector bpb =? 512) then Some (false, s)
  else if (sectors_per_cluster bpb =? 0) || (sectors_per_cluster bpb >? MAX_SECTORS_PER_READ) then Some (false, s)
  else
    let s := s <| g_partition_lba := partition_lba |>
               <| g_bytes_per_sector := bytes_per_sector bpb |>
               <| g_sectors_per_cluster := sectors_per_cluster bpb |>
               <| g_root_cluster := root_cluster bpb |>
               <| g_fat_count := num_fats bpb |>
               <| g_fat_size_sectors := fat_size32 bpb |>
               <| g_fat_start_lba := u64 (partition_lba + reserved_sectors bpb) |> in
    let s := s <| g_cluster_heap_start_lba := u64 (g_fat_start_lba s + num_fats bpb * fat_size32 bpb) |> in
    if total_sectors32 bpb <? overhead then Some (false, s)
    else
      let cluster_count := (total_sectors32 bpb - overhead) / sectors_per_cluster bpb in
      if (cluster_count <? 1) || (cluster_count >? 0x0FFFFFF5) then Some (false, s)
      else Some (true, s <| g_max_cluster := u32 (u32 cluster_count + 1) |> <| g_mounted := true |>).

Definition fat32_is_mounted s : bool := g_mounted s.

(** ** Searching *)

Fixpoint find_entry (fuel : nat) (cluster : Z) (nm : list Z) : M (option fat32_dirent_t) :=
  match fuel with
  | O => out_of_fuel
  | S fuel =>
     if is_end_of_chain cluster || (cluster <? 2) then mret None
     else
       check (read_cluster cluster) (mret None)
       (s ← get;
        match scan_entries (g_cluster_buf s) nm 0 (entries_per_cluster s) with
        | EndOfDirectory => mret None
        | Found _ e => mret (Some e)
        | NextCluster => next ← get_next_cluster cluster; find_entry fuel next nm
        end)
  end.

(** The virtual entry of the root directory. *)
Definition root_entry s : fat32_dirent_t :=
  set_dirent_cluster (g_root_cluster s) (zero_dirent <| attr := ATTR_DIRECTORY |>).

(** A component has at most 12 bytes; the slashes behind it are skipped. *)
Fixpoint skip_slashes (path : cstr) : cstr :=
  match path with c :: rest => if c =? slash then skip_slashes rest else path | [] => [] end.

Definition next_component (path : cstr) : cstr * cstr :=
  let component := take 12 (until slash path) in
  (component, skip_slashes (drop (length component) path)).

(** The loop of [resolve_path]; [steps] bounds the number of components. *)
Fixpoint resolve_walk (steps fuel : nat) (path : cstr) (current : Z) : M (option fat32_dirent_t) :=
  match steps with
  | O => out_of_fuel
  | S steps =>
     let '(component, rest) := next_component path in
     found ← find_entry fuel current (to_short_name component);
     match found with
     | None => mret None
     | Some e =>
        match rest with
        | [] => mret (Some e)
        | _ => if negb (has_bits (attr e) ATTR_DIRECTORY) then mret None
               else resolve_walk steps fuel rest (dirent_cluster e)
        end
     end
  end.

Definition resolve_path (fuel : nat) (path : cstr) : M (option fat32_dirent_t) :=
  s ← get;
  match path with
  | [] => mret (Some (root_entry s))
  | c :: rest =>
     if c =? slash
     then match rest with
          | [] => mret (Some (root_entry s))
          | _ => resolve_walk (length path) fuel rest (g_root_cluster s)
          end
     else resolve_walk (length path) fuel path (g_root_cluster s)
  end.

Definition fat32_is_directory (fuel : nat) (path : cstr) : M bool :=
  s ← get;
  if negb (g_mounted s) then mret false
  else
    found ← resolve_path fuel path;
    mret (match found with None => false | Some e => has_bits (attr e) ATTR_DIRECTORY end).

Definition print (str : cstr) : M unit := modify (λ s, s <| disk ::= console_print str |>).
Definition print_dec (n : Z) : M unit := modify (λ s, s <| disk ::= console_print_dec n |>).

Definition newline : Z := 10.

Definition list_entry (e : fat32_dirent_t) : M unit :=
  _ ← print (display_name (name e));
  if has_bits (attr e) ATTR_DIRECTORY then print [slash; newline]
  else _ ← print (lit "  ("); _ ← print_dec (file_size e); print (lit " bytes)" ++ [newline]).

Fixpoint print_entries (l : list fat32_dirent_t) : M unit :=
  match l with [] => mret tt | e :: l => _ ← list_entry e; print_entries l end.

Fixpoint list_walk (fuel : nat) (cluster : Z) (any : bool) : M bool :=
  match fuel with
  | O => out_of_fuel
  | S fuel =>
     if is_end_of_chain cluster || (cluster <? 2) then mret any
     else
       check (read_cluster cluster) (mret any)
       (s ← get;
        let '(l, fin) := live_entries (g_cluster_buf s) 0 (entries_per_cluster s) in
        _ ← print_entries l;
        let any := match l with [] => any | _ => true end in
        if (fin : bool) then mret any
        else next ← get_next_cluster cluster; list_walk fuel next any)
  end.

(** [resolve_path] of a directory, with the cluster of the root for 0. *)
Definition directory_cluster (e : fat32_dirent_t) s : Z :=
  if dirent_cluster e =? 0 then g_root_cluster s else dirent_cluster e.

Definition fat32_list (fuel : nat) (path : cstr) : M bool :=
  s ← get;
  if negb (g_mounted s) then _ ← print (lit "fat32: not mounted" ++ [newline]); mret false
  else
    found ← resolve_path fuel path;
    match found with
    | None => _ ← print (lit "fat32: path not found" ++ [newline]); mret false
    | Some e =>
       if negb (has_bits (attr e) ATTR_DIRECTORY)
       then _ ← print (lit "fat32: not a directory" ++ [newline]); mret false
       else
         s ← get;
         any ← list_walk fuel (directory_cluster e s) false;
         _ ← (if (any : bool) then mret tt else print (lit "(empty)" ++ [newline]));
         mret true
    end.

(** The rows that [fat32_list_entries] stores: [names[k]] and [is_dir[k]]. *)
Definition entry_row (e : fat32_dirent_t) : cstr * bool :=
  (display_name (name e), has_bits (attr e) ATTR_DIRECTORY).

Fixpoint list_entries_walk (fuel : nat) (cluster : Z) (max_entries : nat) (rows : list (cstr * bool))
    : M (list (cstr * bool)) :=
  match fuel with
  | O => out_of_fuel
  | S fuel =>
     if is_end_of_chain cluster || (cluster <? 2) || (max_entries <=? length rows)%nat then mret rows
     else
       check (read_cluster cluster) (mret rows)
       (s ← get;
        let '(l, fin) := live_entries (g_cluster_buf s) 0 (entries_per_cluster s) in
        let rows' := take max_entries (rows ++ (entry_row <$> l)) in
        if (fin : bool) && (length rows + length l <? max_entries)%nat then mret rows'
        else next ← get_next_cluster cluster; list_entries_walk fuel next max_entries rows')
  end.

(** [None]: -1.  [ptrs]: neither array pointer is null. *)
Definition fat32_list_entries (fuel : nat) (path : cstr) (ptrs : bool) (max_entries : Z)
    : M (option (list (cstr * bool))) :=
  s ← get;
  if negb (g_mounted s) || negb ptrs || (max_entries <=? 0) then mret None
  else
    found ← resolve_path fuel path;
    match found with
    | None => mret None
    | Some e =>
       if negb (has_bits (attr e) ATTR_DIRECTORY) then mret None
       else s ← get;
            rows ← list_entries_walk fuel (directory_cluster e s) (Z.to_nat max_entries) [];
            mret (Some rows)
    end.

(** ** Reading files *)

(** [out]: the bytes stored in the caller's buffer so far. *)
Fixpoint read_walk (fuel : nat) (cluster remaining buf_size : Z) (out : list Z) : M (list Z) :=
  match fuel with
  | O => out_of_fuel
  | S fuel =>
     let written := Z.of_nat (length out) in
     if is_end_of_chain cluster || (cluster <? 2) || (remaining <=? 0) || (buf_size <=? written) then mret out
     else
       check (read_cluster cluster) (mret out)
       (s ← get;
        let chunk := cluster_bytes s in
        let chunk := if chunk >? remaining then remaining else chunk in
        let chunk := if u32 (written + chunk) >? buf_size then buf_size - written else chunk in
        let out := out ++ take (Z.to_nat chunk) (g_cluster_buf s) in
        next ← get_next_cluster cluster;
        read_walk fuel next (remaining - chunk) buf_size out)
  end.

(** [Some bytes]: 1, with the bytes stored in the buffer, their number being
    the [*out_size]; [None]: 0. *)
Definition fat32_read_file (fuel : nat) (path : cstr) (buf_size : Z) : M (option (list Z)) :=
  s ← get;
  if negb (g_mounted s) then mret None
  else
    found ← resolve_path fuel path;
    match found with
    | None => mret None
    | Some e =>
       if has_bits (attr e) ATTR_DIRECTORY then mret None
       else out ← read_walk fuel (dirent_cluster e) (file_size e) buf_size []; mret (Some out)
    end.

(** ** The file allocation table *)

Definition fat32_read_entry (cluster : Z) : M (option Z) :=
  s ← get;
  if (cluster <? 2) || (cluster >? g_max_cluster s) then mret None
  else
    let fat_offset := u32 (cluster * 4) in
    let sector := u64 (g_fat_start_lba s + fat_offset / g_bytes_per_sector s) in
    let off := fat_offset mod g_bytes_per_sector s in
    if off >? 508 then mret None
    else
      ok ← read_fat_sector sector;
      if negb ok then mret None
      else s ← get; mret (Some (Z.land (le32_at (g_fat_buf s) off) 0x0FFFFFFF)).

Definition fat32_write_entry_one (fat_lba cluster value : Z) : M bool :=
  s ← get;
  let fat_offset := u32 (cluster * 4) in
  let sector := u64 (fat_lba + fat_offset / g_bytes_per_sector s) in
  let off := fat_offset mod g_bytes_per_sector s in
  if off >? 508 then mret false
  else
    check (read_fat_sector sector) (mret false)
    (s ← get;
     let old := le32_at (g_fat_buf s) off in
     let merged := Z.lor (Z.land old 0xF0000000) (Z.land value 0x0FFFFFFF) in
     _ ← modify (λ s, s <| g_fat_buf ::= buf_store (Z.to_nat off) (le32_bytes merged) |>);
     write_fat_sector sector).

(** The copies [i], [i + 1], ... of the table, [n] to go. *)
Fixpoint set_copies (cluster value : Z) (i : Z) (n : nat) : M bool :=
  match n with
  | O => mret true
  | S n =>
     s ← get;
     check (fat32_write_entry_one (u64 (g_fat_start_lba s + i * g_fat_size_sectors s)) cluster value)
       (mret false) (set_copies cluster value (i + 1) n)
  end.

Definition fat32_set_entry (cluster value : Z) : M bool :=
  s ← get;
  check (fat32_write_entry_one (g_fat_start_lba s) cluster value) (mret false)
    (set_copies cluster value 1 (Z.to_nat (g_fat_count s - 1))).

Definition fat32_zero_cluster (cluster : Z) : M bool :=
  _ ← modify (λ s, s <| g_cluster_buf ::= buf_set 0 (cluster_bytes s) |>);
  write_cluster cluster.

(** The loop from cluster [c], [n] to go. *)
Fixpoint alloc_from (c : Z) (n : nat) : M (option Z) :=
  match n with
  | O => mret None
  | S n =>
     v ← fat32_read_entry c;
     match v with
     | None => mret None
     | Some v =>
        if v =? 0 then
          check (fat32_set_entry c 0x0FFFFFFF) (mret None)
          (check (fat32_zero_cluster c) (_ ← fat32_set_entry c 0; mret None) (mret (Some c)))
        else alloc_from (c + 1) n
     end
  end.

Definition fat32_alloc_cluster : M (option Z) := s ← get; alloc_from 2 (Z.to_nat (g_max_cluster s - 1)).

(** [n]: how often the guard of the loop still holds. *)
Fixpoint free_loop (n : nat) (cluster : Z) : M bool :=
  match n with
  | O => mret false
  | S n =>
     s ← get;
     if (cluster <? 2) || (cluster >? g_max_cluster s) then mret false
     else
       v ← fat32_read_entry cluster;
       match v with
       | None => mret false
       | Some next =>
          check (fat32_set_entry cluster 0) (mret false)
          (if is_end_of_chain next || (next <? 2) then mret true else free_loop n next)
       end
  end.

(** The guard [guard++ <= g_max_cluster] lets the body run that often. *)
Definition guard_rounds s : nat := Z.to_nat (g_max_cluster s + 1).

Definition fat32_free_chain (cluster : Z) : M bool := s ← get; free_loop (guard_rounds s) cluster.

(** ** Directories, writable part *)

Fixpoint find_entry_location (fuel : nat) (cluster : Z) (nm : list Z)
    : M (option (Z * nat * fat32_dirent_t)) :=
  match fuel with
  | O => out_of_fuel
  | S fuel =>
     s ← get;
     if is_end_of_chain cluster || (cluster <? 2) || (cluster >? g_max_cluster s) then mret None
     else
       check (read_cluster cluster) (mret None)
       (s ← get;
        match scan_entries (g_cluster_buf s) nm 0 (entries_per_cluster s) with
        | EndOfDirectory => mret None
        | Found i e => mret (Some (cluster, i, e))
        | NextCluster =>
           next ← get_next_cluster cluster;
           if next <? 2 then mret None else find_entry_location fuel next nm
        end)
  end.

(** The length without trailing slashes (at least 1). *)
Fixpoint strip_len (path : cstr) (len : nat) : nat :=
  match len with
  | S (S _ as len') => if bool_decide (path !! len' = Some slash) then strip_len path len' else len
  | _ => len
  end.

(** The last slash in front of position [len]. *)
Fixpoint last_slash (path : cstr) (len : nat) : option nat :=
  match len with
  | O => None
  | S len => if bool_decide (path !! len = Some slash) then Some len else last_slash path len
  end.

(** The parent path and the last component, [None] where the code returns 0. *)
Definition split_path (path : option cstr) : option (cstr * cstr) :=
  match path with
  | None | Some [] => None
  | Some ((c :: _) as path) =>
     if negb (c =? slash) then None
     else
       let len := strip_len path (length path) in
       match last_slash path len with
       | None => None
       | Some sl =>
          if (S sl =? len)%nat || ((0 <? sl)%nat && (256 <=? sl)%nat) then None
          else
            let clen := (len - sl - 1)%nat in
            if (clen =? 0)%nat || (13 <=? clen)%nat then None
            else Some (if (sl =? 0)%nat then [slash] else take sl path, take clen (drop (S sl) path))
       end
  end.

Definition resolve_parent (fuel : nat) (path : option cstr) : M (option (Z * list Z)) :=
  match split_path path with
  | None => mret None
  | Some (parent, component) =>
     found ← resolve_path fuel parent;
     match found with
     | None => mret None
     | Some dir =>
        if negb (has_bits (attr dir) ATTR_DIRECTORY) then mret None
        else s ← get; mret (pair (directory_cluster dir s) <$> make_component_name component)
     end
  end.

Definition write_dirent (cluster : Z) (index : nat) (entry : fat32_dirent_t) : M bool :=
  check (read_cluster cluster) (mret false)
  (s ← get;
   if (entries_per_cluster s <=? index)%nat then mret false
   else
     _ ← modify (λ s, s <| g_cluster_buf ::= buf_store (DIRENT_SIZE * index) (dirent_bytes entry) |>);
     write_cluster cluster).

(** The first free slot of the cluster in [buf]. *)
Definition free_slot (buf : list Z) (n : nat) : option nat :=
  first_index (λ i, let b := first_byte (dirent_at buf i) in (b =? 0) || (b =? 0xE5)) 0 n.

Fixpoint slot_loop (n : nat) (cluster : Z) : M (option (Z * nat)) :=
  match n with
  | O => mret None
  | S n =>
     s ← get;
     if (cluster <? 2) || (cluster >? g_max_cluster s) then mret None
     else
       check (read_cluster cluster) (mret None)
       (s ← get;
        match free_slot (g_cluster_buf s) (entries_per_cluster s) with
        | Some i => mret (Some (cluster, i))
        | None =>
           v ← fat32_read_entry cluster;
           match v with
           | None => mret None
           | Some next =>
              if is_end_of_chain next then
                fresh ← fat32_alloc_cluster;
                match fresh with
                | None => mret None
                | Some fresh =>
                   check (fat32_set_entry cluster fresh) (_ ← fat32_free_chain fresh; mret None)
                     (mret (Some (fresh, O)))
                end
              else slot_loop n next
           end
        end)
  end.

Definition find_free_dir_slot (start : Z) : M (option (Z * nat)) := s ← get; slot_loop (guard_rounds s) start.

(** The entries "." and "..". *)
Definition dot_entry (nm : list Z) (cluster : Z) : fat32_dirent_t :=
  set_dirent_cluster cluster (zero_dirent <| name := pad 11 nm |> <| attr := ATTR_DIRECTORY |>).

(** Give up: release the chain and return 0. *)
Definition free_and_fail (first : Z) : M bool := _ ← fat32_free_chain first; mret false.

Definition fat32_mkdir (fuel : nat) (path : option cstr) : M bool :=
  s ← get;
  if negb (g_mounted s) then mret false
  else
    where_ ← resolve_parent fuel path;
    match where_ with
    | None => mret false
    | Some (parent, nm) =>
       existing ← find_entry fuel parent nm;
       match existing with
       | Some _ => mret false
       | None =>
          fresh ← fat32_alloc_cluster;
          match fresh with
          | None => mret false
          | Some dir_cluster =>
             check (read_cluster dir_cluster) (free_and_fail dir_cluster)
             (_ ← modify (λ s, s <| g_cluster_buf ::= λ buf,
                    buf_store 32 (dirent_bytes (dot_entry [dot; dot] parent))
                      (buf_store 0 (dirent_bytes (dot_entry [dot] dir_cluster))
                         (buf_set 0 (cluster_bytes s) buf)) |>);
              check (write_cluster dir_cluster) (free_and_fail dir_cluster)
              (slot ← find_free_dir_slot parent;
               match slot with
               | None => free_and_fail dir_cluster
               | Some (slot_cluster, slot) =>
                  let e := set_dirent_cluster dir_cluster
                             (zero_dirent <| name := nm |> <| attr := ATTR_DIRECTORY |>) in
                  check (write_dirent slot_cluster slot e) (free_and_fail dir_cluster) (mret true)
               end))
          end
       end
    end.

(** ** Writing files *)

Definition MAX_FILE : Z := 16 * 1024 * 1024.

(** The loop that allocates the chain, [n] clusters to go; [Some first] or
    [None] when it returned 0 after releasing what it had. *)
Fixpoint alloc_chain (n : nat) (first last : Z) : M (option Z) :=
  match n with
  | O => mret (Some first)
  | S n =>
     got ← fat32_alloc_cluster;
     match got with
     | None => _ ← (if first =? 0 then mret true else fat32_free_chain first); mret None
     | Some fresh =>
        let first := if first =? 0 then fresh else first in
        check (if last =? 0 then mret true else fat32_set_entry last fresh)
          (_ ← fat32_free_chain fresh; _ ← (if first =? 0 then mret true else fat32_free_chain first); mret None)
          (alloc_chain n first fresh)
     end
  end.

(** [if (first) fat32_free_chain (first); return 0;] *)
Definition drop_new (first : Z) : M bool :=
  _ ← (if first =? 0 then mret true else fat32_free_chain first); mret false.

(** The loop over the data; [rounds] bounds its iterations. *)
Fixpoint write_data (rounds : nat) (first cluster : Z) (src : list Z) : M bool :=
  match src with
  | [] => mret true
  | _ =>
     match rounds with
     | O => out_of_fuel
     | S rounds =>
        s ← get;
        let chunk := take (Z.to_nat (cluster_bytes s)) src in
        let rest := drop (Z.to_nat (cluster_bytes s)) src in
        _ ← modify (λ s, s <| g_cluster_buf ::= λ buf, buf_fill chunk (buf_set 0 (cluster_bytes s) buf) |>);
        check (write_cluster cluster) (drop_new first)
        (match rest with
         | [] => mret true
         | _ =>
            v ← fat32_read_entry cluster;
            match v with
            | None => free_and_fail first
            | Some next => if is_end_of_chain next then free_and_fail first
                           else write_data rounds first next rest
            end
         end)
     end
  end.

(** The slot of the entry: that of the old entry, or a free one. *)
Definition choose_slot (fuel : nat) (exists_ : bool) (parent : Z) (nm : list Z) : M (option (Z * nat)) :=
  if exists_ then
    loc ← find_entry_location fuel parent nm;
    mret (match loc with None => None | Some (c, i, _) => Some (c, i) end)
  else find_free_dir_slot parent.

Definition file_entry (nm : list Z) (first size : Z) : fat32_dirent_t :=
  (set_dirent_cluster first (zero_dirent <| name := nm |> <| attr := 0x20 |>)) <| file_size := size |>.

(** [buf = None]: a null pointer; [size] is then the size argument. *)
Definition fat32_write_file (fuel : nat) (path : option cstr) (buf : option (list Z)) (size : Z) : M bool :=
  s ← get;
  if negb (g_mounted s) || (bool_decide (buf = None) && negb (size =? 0)) then mret false
  else if size >? MAX_FILE then mret false
  else
    where_ ← resolve_parent fuel path;
    match where_ with
    | None => mret false
    | Some (parent, nm) =>
       old ← find_entry fuel parent nm;
       if match old with Some o => has_bits (attr o) ATTR_DIRECTORY | None => false end then mret false
       else
         s ← get;
         let needed := if size =? 0 then 0 else u32 (size + cluster_bytes s - 1) / cluster_bytes s in
         chain ← alloc_chain (Z.to_nat needed) 0 0;
         match chain with
         | None => mret false
         | Some first =>
            check (write_data (Z.to_nat needed) first first (take (Z.to_nat size) (default [] buf))) (mret false)
            (slot ← choose_slot fuel (bool_decide (is_Some old)) parent nm;
             match slot with
             | None => drop_new first
             | Some (slot_cluster, slot) =>
                check (write_dirent slot_cluster slot (file_entry nm first size)) (drop_new first)
                (_ ← match old with
                     | Some o => if dirent_cluster o >=? 2 then fat32_free_chain (dirent_cluster o) else mret true
                     | None => mret true
                     end;
                 mret true)
             end)
         end
    end.

(** ** Removal *)

(** [entries[slot].name[0] = 0xE5] and its write. *)
Definition tombstone (slot_cluster : Z) (slot : nat) : M bool :=
  check (read_cluster slot_cluster) (mret false)
  (_ ← modify (λ s, s <| g_cluster_buf ::= buf_store (DIRENT_SIZE * slot) [0xE5] |>);
   write_cluster slot_cluster).

Definition fat32_remove_file (fuel : nat) (path : option cstr) : M bool :=
  s ← get;
  if negb (g_mounted s) || bool_decide (path = None) then mret false
  else
    where_ ← resolve_parent fuel path;
    match where_ with
    | None => mret false
    | Some (parent, nm) =>
       loc ← find_entry_location fuel parent nm;
       match loc with
       | None => mret false
       | Some (slot_cluster, slot, entry) =>
          if has_bits (attr entry) ATTR_DIRECTORY then mret false
          else
            check (tombstone slot_cluster slot) (mret false)
            (if dirent_cluster entry >=? 2
             then check (fat32_free_chain (dirent_cluster entry)) (mret false) (mret true)
             else mret true)
       end
    end.

(** The entries that may remain in an empty directory. *)
Definition special (e : fat32_dirent_t) : bool :=
  (byte_at (name e) 0 =? dot) &&
  ((byte_at (name e) 1 =? space) || ((byte_at (name e) 1 =? dot) && (byte_at (name e) 2 =? space))).

Fixpoint empty_loop (n : nat) (cluster : Z) : M bool :=
  match n with
  | O => mret true
  | S n =>
     s ← get;
     if (cluster <? 2) || (cluster >? g_max_cluster s) then mret true
     else
       check (read_cluster cluster) (mret false)
       (s ← get;
        if negb (forallb special (live_entries (g_cluster_buf s) 0 (entries_per_cluster s)).1) then mret false
        else
          v ← fat32_read_entry cluster;
          match v with
          | None => mret false
          | Some next => if is_end_of_chain next then mret true else empty_loop n next
          end)
  end.

Definition fat32_remove_empty_dir (fuel : nat) (path : option cstr) : M bool :=
  s ← get;
  if negb (g_mounted s) || bool_decide (path = None) || bool_decide (path = Some [slash]) then mret false
  else
    where_ ← resolve_parent fuel path;
    match where_ with
    | None => mret false
    | Some (parent, nm) =>
       loc ← find_entry_location fuel parent nm;
       match loc with
       | None => mret false
       | Some (slot_cluster, slot, entry) =>
          if negb (has_bits (attr entry) ATTR_DIRECTORY) then mret false
          else
            s ← get;
            check (empty_loop (guard_rounds s) (dirent_cluster entry)) (mret false)
            (check (tombstone slot_cluster slot) (mret false) (fat32_free_chain (dirent_cluster entry)))
       end
    end.

End driver.
End Fat32.
