(* ===== verification/FatVolume.v ===== *)
(** * FAT32: the volume behind the driver

    The driver of [Fat32] works on sectors; its specification speaks about a
    table [F] (the 28-bit entry of every cluster, the same in all copies) and
    the contents [X] of the clusters.  [vol s F X] relates the two, and the
    lemmas of this file give every primitive of the driver (FAT entries,
    clusters, allocation, release of chains) as an operation on [F] and [X],
    on a device that works. *)

From Stdlib Require Import Lia ZArith Bool.
From stdpp Require Import base list numbers sets.
From S2P Require Import Prelude Disk Fat32.

Local Open Scope Z_scope.
Import Fat32.

Module FatVolume.
Section volume.
Context {D : Type} {DE : DiskEnv D} {DL : DiskLaws D} {CE : ConsoleEnv D}.
Implicit Types (s : fat D) (F : Z → Z) (X : Z → list Z).

(** ** Running computations *)

Definition wp {A} (m : M (D:=D) A) s (Q : A → fat D → Prop) : Prop := ∃ a s', m s = Some (a, s') ∧ Q a s'.

Lemma wp_mono {A} (m : M A) s (Q Q' : A → fat D → Prop) :
  wp m s Q → (∀ a s', Q a s' → Q' a s') → wp m s Q'.
Proof. intros (a & s' & E & HQ) HI. exists a, s'. auto. Qed.

Lemma wp_bind {A B} (m : M A) (f : A → M B) s Q :
  wp m s (λ a s', wp (f a) s' Q) → wp (m ≫= f) s Q.
Proof.
  intros (a & s' & E & b & s'' & E' & HQ). exists b, s''. split; [|done].
  unfold mbind, m_bind. by rewrite E.
Qed.

Lemma wp_ret {A} (a : A) s (Q : A → fat D → Prop) : Q a s → wp (mret a) s Q.
Proof. intros. by exists a, s. Qed.

Lemma wp_get {B} (f : fat D → M B) s Q : wp (f s) s Q → wp (get ≫= f) s Q.
Proof. intros W. apply wp_bind. by exists s, s. Qed.

Lemma wp_modify {B} g (f : unit → M B) s Q : wp (f tt) (g s) Q → wp (modify g ≫= f) s Q.
Proof. intros W. apply wp_bind. by exists tt, (g s). Qed.

Lemma wp_check {A} (m : M bool) (failed k : M A) s Q :
  wp m s (λ ok s', ok = true ∧ wp k s' Q) → wp (check m failed k) s Q.
Proof.
  intros W. apply wp_bind. apply (wp_mono _ _ _ _ W). by intros ok s' [-> ?].
Qed.

Lemma wp_modify_check {A} g (m : M bool) (failed k : M A) s Q :
  wp (_ ← modify g; m) s (λ ok s', ok = true ∧ wp k s' Q) → wp (_ ← modify g; check m failed k) s Q.
Proof.
  intros (ok & s' & E & -> & a & s'' & Ek & HQ). exists a, s''. split; [|done].
  unfold check, mbind, m_bind, modify in *. by rewrite E.
Qed.

Lemma wp_run {A} (m : M A) s (Q : A → fat D → Prop) : wp m s Q → ∃ a s', m s = Some (a, s') ∧ Q a s'.
Proof. done. Qed.

(** ** Geometry *)

(** What [fat32_mount] takes over from the boot sector of a sane volume: the
    table has an entry for every cluster and the device holds the volume. *)
Record geometry s : Prop := {
  geo_bps : g_bytes_per_sector s = 512;
  geo_spc : 1 ≤ g_sectors_per_cluster s ≤ 128;
  geo_max : 2 ≤ g_max_cluster s ≤ 0x0FFFFFF6;
  geo_copies : 1 ≤ g_fat_count s;
  geo_table : 4 * (g_max_cluster s + 1) ≤ 512 * g_fat_size_sectors s;
  geo_start : 0 ≤ g_fat_start_lba s;
  geo_heap : g_cluster_heap_start_lba s = g_fat_start_lba s + g_fat_count s * g_fat_size_sectors s;
  geo_disk : g_cluster_heap_start_lba s + (g_max_cluster s - 1) * g_sectors_per_cluster s ≤ disk_size (disk s);
  geo_addr : disk_size (disk s) ≤ 2 ^ 48;
  geo_root : 2 ≤ g_root_cluster s ≤ g_max_cluster s;
}.

(** The static variables that only [fat32_mount] writes. *)
Definition same_geo s s' : Prop :=
  g_bytes_per_sector s' = g_bytes_per_sector s ∧ g_sectors_per_cluster s' = g_sectors_per_cluster s ∧
  g_max_cluster s' = g_max_cluster s ∧ g_fat_count s' = g_fat_count s ∧
  g_fat_size_sectors s' = g_fat_size_sectors s ∧ g_fat_start_lba s' = g_fat_start_lba s ∧
  g_cluster_heap_start_lba s' = g_cluster_heap_start_lba s ∧ g_root_cluster s' = g_root_cluster s ∧
  g_mounted s' = g_mounted s.

#[export] Instance same_geo_preorder : PreOrder same_geo.
Proof. split; [done|]. unfold same_geo. intros s1 s2 s3. intuition congruence. Qed.

Lemma geometry_same s s' :
  same_geo s s' → disk_size (disk s') = disk_size (disk s) → geometry s → geometry s'.
Proof.
  intros (E1 & E2 & E3 & E4 & E5 & E6 & E7 & E8 & E9) Ed [].
  constructor; rewrite ?E1, ?E2, ?E3, ?E4, ?E5, ?E6, ?E7, ?E8, ?Ed; done.
Qed.

Definition valid s (c : Z) : Prop := 2 ≤ c ≤ g_max_cluster s.

Definition fat_lba s (i c : Z) : Z := g_fat_start_lba s + i * g_fat_size_sectors s + 4 * c / 512.
Definition heap_lba s (c : Z) : Z := g_cluster_heap_start_lba s + (c - 2) * g_sectors_per_cluster s.

(** Entry of cluster [c] in copy [i] of the table; contents of a cluster. *)
Definition fat_entry s (i c : Z) : Z :=
  Z.land (le32_at (sector (disk s) (fat_lba s i c)) ((4 * c) mod 512)) 0x0FFFFFFF.
Definition cluster_data s (c : Z) : list Z :=
  mjoin (sector (disk s) <$> seqZ (heap_lba s c) (g_sectors_per_cluster s)).

(** The buffers have their C sizes and hold bytes; the copies [i] of the table
    have the entries [T i]; the clusters have the contents [X]. *)
Record vol_raw s (T : Z → Z → Z) X : Prop := {
  vol_mounted : g_mounted s = true;
  vol_geo : geometry s;
  vol_disk : disk_ok (disk s);
  vol_fat_buf : length (g_fat_buf s) = 512%nat ∧ Forall is_byte (g_fat_buf s);
  vol_cluster_buf : Z.of_nat (length (g_cluster_buf s)) = 65536 ∧ Forall is_byte (g_cluster_buf s);
  vol_fat i c : 0 ≤ i < g_fat_count s → valid s c → fat_entry s i c = T i c;
  vol_data c : valid s c → cluster_data s c = X c;
}.
Definition vol s F X : Prop := vol_raw s (λ _, F) X.

Lemma vol_raw_ext s T T' X X' :
  (∀ i c, 0 ≤ i < g_fat_count s → valid s c → T i c = T' i c) → (∀ c, valid s c → X c = X' c) →
  vol_raw s T X → vol_raw s T' X'.
Proof.
  intros HT HX []. constructor; try done.
  - intros. rewrite <- HT by done. auto.
  - intros. rewrite <- HX by done. auto.
Qed.

(** ** Joining and cutting sectors *)

Lemma join_length {A} (f : Z → list A) k lba n :
  (∀ l, length (f l) = k) → length (mjoin (f <$> seqZ lba (Z.of_nat n))) = (n * k)%nat.
Proof.
  intros Hf. revert lba. induction n as [|n IH]; intros lba; [done|].
  rewrite seqZ_cons by lia. rewrite fmap_cons. simpl. rewrite length_app, Hf.
  replace (Z.pred (Z.of_nat (S n))) with (Z.of_nat n) by lia. by rewrite IH.
Qed.

Lemma join_cut (bytes : list Z) lba n :
  length bytes = (512 * n)%nat →
  mjoin ((λ l, take 512 (drop (512 * Z.to_nat (l - lba)) bytes)) <$> seqZ lba (Z.of_nat n)) = bytes.
Proof.
  revert lba bytes. induction n as [|n IH]; intros lba bytes Hl.
  - destruct bytes; [done|simpl in Hl; lia].
  - rewrite seqZ_cons by lia. rewrite fmap_cons. change (mjoin (?x :: ?y)) with (x ++ mjoin y).
    rewrite Z.sub_diag, drop_0.
    replace (Z.pred (Z.of_nat (S n))) with (Z.of_nat n) by lia.
    trans (take 512 bytes ++ drop 512 bytes); [f_equal|apply take_drop].
    rewrite <- (IH (Z.succ lba) (drop 512 bytes)) by (rewrite length_drop; lia).
    f_equal. apply list_fmap_ext. intros i x Hx. apply lookup_seqZ in Hx as [-> _].
    rewrite drop_drop. do 2 f_equal. lia.
Qed.

Lemma join_ext {A} (f g : Z → list A) lba n :
  (∀ l, lba ≤ l < lba + n → f l = g l) → mjoin (f <$> seqZ lba n) = mjoin (g <$> seqZ lba n).
Proof.
  intros E. f_equal. apply list_fmap_ext. intros i x Hx. apply lookup_seqZ in Hx as [-> ?]. apply E. lia.
Qed.

Lemma join_bytes d lba n : disk_ok d → Forall is_byte (mjoin (sector d <$> seqZ lba n)).
Proof.
  intros Ok. apply Forall_join. apply Forall_fmap. apply Forall_forall. intros l _. by apply sector_bytes.
Qed.

(** ** Addresses *)

Lemma fat_offset s c : geometry s → valid s c → u32 (c * 4) = 4 * c.
Proof. intros [] ?. unfold valid in *. rewrite u32_small by lia. lia. Qed.

Lemma fat_off_aligned c : (4 * c) mod 512 ≤ 508 ∧ 0 ≤ (4 * c) mod 512.
Proof.
  replace 512 with (4 * 128) by lia. rewrite Z.mul_mod_distr_l by lia.
  pose proof (Z.mod_pos_bound c 128). lia.
Qed.

Lemma fat_lba_range s i c :
  geometry s → 0 ≤ i < g_fat_count s → valid s c →
  g_fat_start_lba s ≤ fat_lba s i c < g_cluster_heap_start_lba s ∧ fat_lba s i c < disk_size (disk s).
Proof.
  intros [] Hi Hc. unfold valid, fat_lba in *.
  assert (0 ≤ 4 * c / 512 < g_fat_size_sectors s) by (split; [apply Z.div_pos|apply Z.div_lt_upper_bound]; lia).
  assert (i * g_fat_size_sectors s + g_fat_size_sectors s ≤ g_fat_count s * g_fat_size_sectors s) by nia.
  assert (0 ≤ i * g_fat_size_sectors s) by nia.
  assert (0 ≤ (g_max_cluster s - 1) * g_sectors_per_cluster s) by nia. lia.
Qed.

Lemma fat_lba_inj s i c i' c' :
  geometry s → 0 ≤ i < g_fat_count s → 0 ≤ i' < g_fat_count s → valid s c → valid s c' →
  fat_lba s i c = fat_lba s i' c' → i = i' ∧ 4 * c / 512 = 4 * c' / 512.
Proof.
  intros [] Hi Hi' Hc Hc' E. unfold valid, fat_lba in *.
  assert (0 ≤ 4 * c / 512 < g_fat_size_sectors s) by (split; [apply Z.div_pos|apply Z.div_lt_upper_bound]; lia).
  assert (0 ≤ 4 * c' / 512 < g_fat_size_sectors s) by (split; [apply Z.div_pos|apply Z.div_lt_upper_bound]; lia).
  assert (i = i') by nia. subst. lia.
Qed.

Lemma fat_offsets_apart c c' :
  4 * c / 512 = 4 * c' / 512 → c ≠ c' →
  (4 * c') mod 512 + 4 ≤ (4 * c) mod 512 ∨ (4 * c) mod 512 + 4 ≤ (4 * c') mod 512.
Proof.
  intros E Hne. replace 512 with (4 * 128) in * by lia. rewrite !Z.mul_mod_distr_l by lia.
  rewrite !Z.div_mul_cancel_l in E by lia.
  pose proof (Z.div_mod c 128 ltac:(lia)). pose proof (Z.div_mod c' 128 ltac:(lia)). lia.
Qed.

Lemma heap_lba_range s c :
  geometry s → valid s c →
  g_cluster_heap_start_lba s ≤ heap_lba s c ∧ 0 ≤ heap_lba s c ∧
  heap_lba s c + g_sectors_per_cluster s ≤ disk_size (disk s).
Proof. intros [] Hc. unfold valid, heap_lba in *. split; [nia|split]; nia. Qed.

Lemma heap_lba_apart s c c' l :
  geometry s → heap_lba s c ≤ l < heap_lba s c + g_sectors_per_cluster s →
  heap_lba s c' ≤ l < heap_lba s c' + g_sectors_per_cluster s → c = c'.
Proof. intros [] Hl Hl'. unfold heap_lba in *. nia. Qed.

Lemma cluster_to_lba_heap s c : geometry s → valid s c → cluster_to_lba c s = heap_lba s c.
Proof.
  intros G Hc. pose proof (heap_lba_range s c G Hc) as (? & ? & ?). destruct G. unfold valid, heap_lba in *.
  assert (0 ≤ (c - 2) * g_sectors_per_cluster s < 2 ^ 64) by nia.
  unfold cluster_to_lba. rewrite (u32_small (c - 2)), (u64_small ((c - 2) * _)), u64_small by lia. done.
Qed.

Lemma cluster_bytes_eq s : geometry s → cluster_bytes s = 512 * g_sectors_per_cluster s.
Proof. intros []. unfold cluster_bytes. rewrite u32_small by lia. lia. Qed.

Lemma entries_eq s : geometry s → entries_per_cluster s = Z.to_nat (16 * g_sectors_per_cluster s).
Proof.
  intros G. unfold entries_per_cluster. rewrite cluster_bytes_eq by done. f_equal.
  replace (512 * g_sectors_per_cluster s) with (16 * g_sectors_per_cluster s * 32) by lia. by rewrite Z.div_mul.
Qed.

(** ** Frames *)

Lemma vol_raw_frame s s' T X :
  same_geo s s' → disk_size (disk s') = disk_size (disk s) → disk_ok (disk s') →
  (∀ l, sector (disk s') l = sector (disk s) l) →
  length (g_fat_buf s') = 512%nat ∧ Forall is_byte (g_fat_buf s') →
  Z.of_nat (length (g_cluster_buf s')) = 65536 ∧ Forall is_byte (g_cluster_buf s') →
  vol_raw s T X → vol_raw s' T X.
Proof.
  intros Sg Ed Ok Es Bf Bc []. pose proof Sg as (E1 & E2 & E3 & E4 & E5 & E6 & E7 & E8 & E9).
  constructor; try done; [congruence|by eapply geometry_same|..].
  - intros i c Hi Hc. unfold fat_entry, fat_lba. rewrite E5, E6, Es. apply vol_fat0; unfold valid in *; lia.
  - intros c Hc. rewrite <- vol_data0 by (unfold valid in *; lia).
    unfold cluster_data, heap_lba. rewrite E2, E7. apply join_ext. auto.
Qed.

Lemma cluster_data_length s T X c :
  vol_raw s T X → length (cluster_data s c) = Z.to_nat (512 * g_sectors_per_cluster s).
Proof.
  intros []. unfold cluster_data. destruct vol_geo0.
  rewrite <- (Z2Nat.id (g_sectors_per_cluster s)) by lia.
  rewrite (join_length _ 512) by (intros; by apply sector_length). lia.
Qed.

Lemma vol_data_length s T X c :
  vol_raw s T X → valid s c → length (X c) = Z.to_nat (512 * g_sectors_per_cluster s).
Proof. intros V Hc. rewrite <- (vol_data _ _ _ V c Hc). by eapply cluster_data_length. Qed.

Lemma vol_data_bytes s T X c : vol_raw s T X → valid s c → Forall is_byte (X c).
Proof. intros V Hc. rewrite <- (vol_data _ _ _ V c Hc). apply join_bytes, V. Qed.

Lemma buf_fill_bytes bytes buf : Forall is_byte bytes → Forall is_byte buf → Forall is_byte (buf_fill bytes buf).
Proof. intros. apply Forall_app. split; [done|by apply Forall_drop]. Qed.

(** ** One sector of the table *)

Lemma read_fat_sector_spec s T X lba :
  vol_raw s T X → 0 ≤ lba < disk_size (disk s) →
  wp (read_fat_sector lba) s (λ ok s', ok = true ∧ vol_raw s' T X ∧ same_geo s s' ∧
    g_fat_buf s' = sector (disk s) lba ∧ g_cluster_buf s' = g_cluster_buf s ∧
    disk_size (disk s') = disk_size (disk s) ∧ ∀ l, sector (disk s') l = sector (disk s) l).
Proof.
  intros V Hl. destruct (disk_read_one (disk s) lba) as (d' & E & Ok & Es & Hs); [apply V|done|].
  pose proof (sector_length (disk s) lba (vol_disk _ _ _ V)) as Ln.
  pose proof (vol_fat_buf _ _ _ V) as [Lf Bf].
  assert (buf_fill (sector (disk s) lba) (g_fat_buf s) = sector (disk s) lba) as Efill.
  { unfold buf_fill. rewrite Ln, drop_ge by lia. apply app_nil_r. }
  unfold wp, read_fat_sector. rewrite E. do 2 eexists. split; [done|]. simpl. rewrite Efill.
  split_and!; try done. apply (vol_raw_frame s); simpl; try done; [|apply V].
  rewrite Efill. split; [done|]. apply sector_bytes, V.
Qed.

(** Where copy [i] of the table keeps the entry of [c], as the code computes it. *)
Lemma fat_sector_eq s i c :
  geometry s → 0 ≤ i < g_fat_count s → valid s c →
  u64 (u64 (g_fat_start_lba s + i * g_fat_size_sectors s) + u32 (c * 4) / g_bytes_per_sector s) = fat_lba s i c ∧
  u32 (c * 4) mod g_bytes_per_sector s = (4 * c) mod 512.
Proof.
  intros G Hi Hc. pose proof (fat_lba_range s i c G Hi Hc) as [R ?].
  rewrite (fat_offset s c G Hc), (geo_bps s G). split; [|done]. unfold fat_lba in *.
  assert (0 ≤ 4 * c / 512) by (unfold valid in Hc; apply Z.div_pos; lia).
  assert (0 ≤ i * g_fat_size_sectors s) by (destruct G; nia).
  destruct G. rewrite (u64_small (_ + i * _)), u64_small by lia. done.
Qed.

Lemma fat_sector_0 s c :
  geometry s → valid s c → u64 (g_fat_start_lba s + u32 (c * 4) / g_bytes_per_sector s) = fat_lba s 0 c.
Proof.
  intros G Hc. destruct (fat_sector_eq s 0 c) as [E _]; [done|destruct G; lia|done|].
  rewrite Z.mul_0_l, Z.add_0_r in E. rewrite <- E. f_equal. rewrite u64_small; [done|].
  pose proof (fat_lba_range s 0 c G ltac:(destruct G; lia) Hc). destruct G. lia.
Qed.

(** The driver only changed its buffers. *)
Definition quiet s s' : Prop := same_geo s s' ∧ g_cluster_buf s' = g_cluster_buf s.

Lemma read_entry_spec s T X c :
  vol_raw s T X → valid s c →
  wp (fat32_read_entry c) s (λ v s', v = Some (T 0 c) ∧ vol_raw s' T X ∧ quiet s s').
Proof.
  intros V Hc. pose proof (vol_geo _ _ _ V) as G. assert (0 ≤ 0 < g_fat_count s) as H0 by (destruct G; lia).
  pose proof (fat_off_aligned c) as Ho. pose proof (fat_lba_range s 0 c G H0 Hc) as R.
  apply wp_get; cbv beta zeta. destruct (Z.ltb_spec c 2); [unfold valid in Hc; lia|].
  destruct (Z.gtb_spec c (g_max_cluster s)); [unfold valid in Hc; lia|]. simpl.
  rewrite (fat_sector_0 s c G Hc), (proj2 (fat_sector_eq s 0 c G H0 Hc)).
  destruct (Z.gtb_spec ((4 * c) mod 512) 508); [lia|].
  apply wp_bind. eapply wp_mono; [apply (read_fat_sector_spec s T X); [done|destruct G; lia]|].
  intros ok s' (-> & V' & Sg & Eb & Ec & _). apply wp_get, wp_ret. split_and!; try done.
  rewrite Eb, <- (vol_fat _ _ _ V 0 c H0 Hc). done.
Qed.

Lemma get_next_cluster_spec s T X c :
  vol_raw s T X → valid s c →
  wp (get_next_cluster c) s (λ v s', v = T 0 c ∧ vol_raw s' T X ∧ quiet s s').
Proof.
  intros V Hc. pose proof (vol_geo _ _ _ V) as G. assert (0 ≤ 0 < g_fat_count s) as H0 by (destruct G; lia).
  pose proof (fat_lba_range s 0 c G H0 Hc) as R.
  apply wp_get; cbv beta zeta. rewrite (fat_sector_0 s c G Hc), (proj2 (fat_sector_eq s 0 c G H0 Hc)).
  apply wp_bind. eapply wp_mono; [apply (read_fat_sector_spec s T X); [done|destruct G; lia]|].
  intros ok s' (-> & V' & Sg & Eb & Ec & _). apply wp_get, wp_ret. split_and!; try done.
  rewrite Eb, <- (vol_fat _ _ _ V 0 c H0 Hc). done.
Qed.

(** The value stored keeps the four upper bits of the old one. *)
Lemma merged_value old v :
  0 ≤ v < 2 ^ 28 →
  let m := Z.lor (Z.land old 0xF0000000) (Z.land v 0x0FFFFFFF) in
  0 ≤ m < 2 ^ 32 ∧ Z.land m 0x0FFFFFFF = v.
Proof.
  intros Hv m. assert (Z.land v 0x0FFFFFFF = v) as Ev.
  { change 0x0FFFFFFF with (2 ^ 28 - 1). rewrite land_low_mask by lia. apply Z.mod_small. lia. }
  assert (0 ≤ Z.land old 0xF0000000 ≤ 0xF0000000) as Ha by (apply land_le_mask; lia).
  assert (Z.land old 0xF0000000 mod 2 ^ 28 = 0) as Hm.
  { rewrite <- land_low_mask, <- Z.land_assoc by lia. apply Z.land_0_r. }
  assert (m = Z.land old 0xF0000000 + v) as Em.
  { unfold m. rewrite Ev. by apply (lor_add_low _ _ 28); [lia| |]. }
  split; [lia|]. change 0x0FFFFFFF with (2 ^ 28 - 1). rewrite land_low_mask, Em by lia.
  rewrite <- Z.add_mod_idemp_l, Hm by lia. apply Z.mod_small. lia.
Qed.

(** The table as one copy of it is rewritten. *)
Definition set_copy (T : Z → Z → Z) (j c v : Z) : Z → Z → Z := λ i, if i =? j then upd (T i) c v else T i.

Lemma vol_raw_store s s' T X j c v off m :
  vol_raw s T X → 0 ≤ j < g_fat_count s → valid s c → 0 ≤ v < 2 ^ 28 →
  off = (4 * c) mod 512 → 0 ≤ m < 2 ^ 32 → Z.land m 0x0FFFFFFF = v →
  same_geo s s' → disk_ok (disk s') → disk_size (disk s') = disk_size (disk s) →
  (∀ l, sector (disk s') l = if bool_decide (l = fat_lba s j c)
        then buf_store (Z.to_nat off) (le32_bytes m) (sector (disk s) l) else sector (disk s) l) →
  length (g_fat_buf s') = 512%nat ∧ Forall is_byte (g_fat_buf s') → g_cluster_buf s' = g_cluster_buf s →
  vol_raw s' (set_copy T j c v) X.
Proof.
  intros V Hj Hc Hv -> Hm Em Sg Ok Ed Es Bf Ec.
  pose proof (vol_geo _ _ _ V) as G. pose proof (fat_off_aligned c) as [Ho Ho'].
  pose proof Sg as (E1 & E2 & E3 & E4 & E5 & E6 & E7 & E8 & E9).
  constructor; [rewrite E9; apply V|by eapply geometry_same|done|done|rewrite Ec; apply V|..].
  - intros i c' Hi Hc'. rewrite E4 in Hi. unfold valid in Hc'. rewrite E3 in Hc'.
    unfold fat_entry, fat_lba. rewrite E5, E6, Es. fold (fat_lba s i c').
    pose proof (vol_fat _ _ _ V i c' Hi Hc') as Ef. unfold fat_entry in Ef. unfold set_copy.
    case_bool_decide as El.
    + apply (fat_lba_inj s i c' j c) in El as [-> Eo]; [|done..]. rewrite Z.eqb_refl.
      destruct (decide (c' = c)) as [->|Hne].
      * rewrite upd_eq, le32_at_store; [done|done|lia|]. rewrite sector_length by apply V. lia.
      * rewrite upd_ne, <- Ef by done. f_equal. pose proof (fat_off_aligned c') as [].
        destruct (fat_offsets_apart c' c Eo Hne); unfold le32_at; rewrite !byte_at_store;
          rewrite ?sector_length by apply V; simpl; lia || done.
    + destruct (Z.eqb_spec i j) as [->|]; [|done]. rewrite upd_ne; [done|]. by intros ->.
  - intros c' Hc'. unfold valid in Hc'. rewrite E3 in Hc'.
    rewrite <- (vol_data _ _ _ V c' Hc'). unfold cluster_data, heap_lba. rewrite E2, E7.
    apply join_ext. intros l Hl. rewrite Es, bool_decide_false; [done|]. intros ->.
    pose proof (fat_lba_range s j c G Hj Hc). pose proof (heap_lba_range s c' G Hc').
    unfold heap_lba in *. lia.
Qed.

Lemma write_entry_one_spec s T X j c v :
  vol_raw s T X → 0 ≤ j < g_fat_count s → valid s c → 0 ≤ v < 2 ^ 28 →
  wp (fat32_write_entry_one (u64 (g_fat_start_lba s + j * g_fat_size_sectors s)) c v) s
    (λ ok s', ok = true ∧ vol_raw s' (set_copy T j c v) X ∧ quiet s s').
Proof.
  intros V Hj Hc Hv. pose proof (vol_geo _ _ _ V) as G.
  pose proof (fat_off_aligned c) as [Ho Ho']. pose proof (fat_lba_range s j c G Hj Hc) as R.
  apply wp_get; cbv beta zeta. destruct (fat_sector_eq s j c G Hj Hc) as [-> ->].
  destruct (Z.gtb_spec ((4 * c) mod 512) 508); [lia|].
  apply wp_check. eapply wp_mono; [apply (read_fat_sector_spec s T X); [done|destruct G; lia]|].
  intros ok s1 (-> & V1 & Sg & Eb & Ec & Ed1 & Es1). split; [done|]. apply wp_get, wp_modify; cbv beta zeta.
  set (m := Z.lor _ _). destruct (merged_value (le32_at (g_fat_buf s1) ((4 * c) mod 512)) v Hv) as [Hm Em].
  fold m in Hm, Em. unfold wp, write_fat_sector. simpl.
  set (buf := buf_store _ _ _).
  assert (length buf = 512%nat ∧ Forall is_byte buf) as [Lb Bb].
  { pose proof (vol_fat_buf _ _ _ V1) as []. split.
    - unfold buf. rewrite buf_store_length; [done|simpl; lia].
    - apply buf_store_bytes; [apply le32_bytes_byte|done]. }
  destruct (disk_write_law (disk s1) (fat_lba s j c) 1 (take 512 buf)) as (d' & -> & Ok & Es & Hs);
    [apply V1|destruct G; lia|lia|lia|rewrite length_take; lia|by apply Forall_take|].
  do 2 eexists. split; [done|]. split_and!; [done| |split; [|done]]; simpl.
  - apply (vol_raw_store s _ T X j c v ((4 * c) mod 512) m); simpl; try done; [congruence|].
    intros l. rewrite Hs. replace (bool_decide (fat_lba s j c ≤ l < fat_lba s j c + 1)) with
      (bool_decide (l = fat_lba s j c)) by (apply bool_decide_ext; lia).
    case_bool_decide as El; [|apply Es1]. subst l. rewrite Z.sub_diag. simpl.
    rewrite drop_0, take_take, take_ge by lia. unfold buf. by rewrite Eb.
  - apply Sg.
Qed.

#[export] Instance quiet_preorder : PreOrder quiet.
Proof.
  split; [done|]. intros s1 s2 s3 [S1 B1] [S2 B2]. split; [by trans s2|congruence].
Qed.

Lemma same_geo_valid s s' c : same_geo s s' → valid s c → valid s' c.
Proof. intros (_ & _ & E & _). unfold valid. by rewrite E. Qed.

(** The copies [i], ..., [i + n - 1] are set, those before are already. *)
Lemma set_copies_spec n s T X c v i :
  vol_raw s T X → 1 ≤ i → i + Z.of_nat n = g_fat_count s → valid s c → 0 ≤ v < 2 ^ 28 →
  wp (set_copies c v i n) s (λ ok s', ok = true ∧ quiet s s' ∧
    vol_raw s' (λ k, if i <=? k then upd (T k) c v else T k) X).
Proof.
  revert s T i. induction n as [|n IH]; intros s T i V Hi Hn Hc Hv; simpl.
  - apply wp_ret. split_and!; [done..|]. apply (vol_raw_ext s T _ X X); [|done..].
    intros k c' Hk _. destruct (Z.leb_spec i k); [lia|done].
  - apply wp_get, wp_check. eapply wp_mono; [apply (write_entry_one_spec s T X i c v); [done|lia|done..]|].
    intros ok s1 (-> & V1 & Q1). split; [done|].
    assert (g_fat_count s1 = g_fat_count s) as Ec by apply Q1.
    eapply wp_mono; [apply (IH s1 _ (i + 1) V1); [lia|lia|by eapply same_geo_valid; [apply Q1|]|done]|].
    intros ok s2 (-> & Q2 & V2). split_and!; [done|by trans s1|].
    refine (vol_raw_ext _ _ _ _ _ _ (λ c _, eq_refl) V2).
    intros k c' Hk _. unfold set_copy.
    destruct (Z.leb_spec (i + 1) k), (Z.leb_spec i k), (Z.eqb_spec k i); try lia; done.
Qed.

Lemma set_entry_spec s F X c v :
  vol s F X → valid s c → 0 ≤ v < 2 ^ 28 →
  wp (fat32_set_entry c v) s (λ ok s', ok = true ∧ vol s' (upd F c v) X ∧ quiet s s').
Proof.
  intros V Hc Hv. pose proof (vol_geo _ _ _ V) as G. apply wp_get, wp_check.
  pose proof (write_entry_one_spec s (λ _, F) X 0 c v V ltac:(destruct G; lia) Hc Hv) as W.
  rewrite Z.mul_0_l, Z.add_0_r, u64_small in W by
    (pose proof (fat_lba_range s 0 c G ltac:(destruct G; lia) Hc); destruct G; lia).
  eapply wp_mono; [apply W|]. intros ok s1 (-> & V1 & Q1). split; [done|].
  assert (g_fat_count s1 = g_fat_count s) as Ec by apply Q1.
  eapply wp_mono; [apply (set_copies_spec _ s1 _ X c v 1 V1)|].
  - lia.
  - rewrite Ec. destruct G. lia.
  - by eapply same_geo_valid; [apply Q1|].
  - done.
  - intros ok s2 (-> & Q2 & V2). split_and!; [done| |by trans s1].
    refine (vol_raw_ext _ _ _ _ _ _ (λ c _, eq_refl) V2).
    intros k c' Hk _. unfold set_copy. simpl.
    destruct (Z.leb_spec 1 k), (Z.eqb_spec k 0); try lia; done.
Qed.

(** ** Clusters *)

Definition csize s : nat := Z.to_nat (512 * g_sectors_per_cluster s).

Lemma same_geo_csize s s' : same_geo s s' → csize s' = csize s.
Proof. intros (_ & E & _). unfold csize. by rewrite E. Qed.

Lemma csize_small s : geometry s → (0 < csize s)%nat ∧ Z.of_nat (csize s) ≤ 65536.
Proof. intros []. unfold csize. lia. Qed.

Lemma read_cluster_spec s T X c :
  vol_raw s T X → valid s c →
  wp (read_cluster c) s (λ ok s', ok = true ∧ vol_raw s' T X ∧ same_geo s s' ∧
    take (csize s) (g_cluster_buf s') = X c).
Proof.
  intros V Hc. pose proof (vol_geo _ _ _ V) as G. pose proof (heap_lba_range s c G Hc) as (? & ? & ?).
  pose proof (csize_small s G). pose proof (vol_cluster_buf _ _ _ V) as [Lb Bb].
  pose proof (vol_data_length _ _ _ c V Hc) as Lx. fold (csize s) in Lx.
  unfold wp, read_cluster. rewrite (cluster_to_lba_heap s c G Hc).
  destruct (disk_read_law (disk s) (heap_lba s c) (g_sectors_per_cluster s)) as (d' & -> & Ok & Ed & Es);
    [apply V|lia|destruct G; lia|lia|].
  fold (cluster_data s c). rewrite (vol_data _ _ _ V c Hc).
  do 2 eexists. split; [done|]. split_and!; [done| |done|simpl; by apply take_buf_fill].
  apply (vol_raw_frame s); simpl; try done; [apply V|].
  rewrite buf_fill_length by lia. split; [done|].
  apply buf_fill_bytes; [by apply (vol_data_bytes s T X)|done].
Qed.

Lemma write_cluster_spec s T X c :
  vol_raw s T X → valid s c →
  wp (write_cluster c) s (λ ok s', ok = true ∧ vol_raw s' T (upd X c (take (csize s) (g_cluster_buf s))) ∧
    quiet s s').
Proof.
  intros V Hc. pose proof (vol_geo _ _ _ V) as G. pose proof (heap_lba_range s c G Hc) as (? & ? & ?).
  pose proof (csize_small s G). pose proof (vol_cluster_buf _ _ _ V) as [Lb Bb].
  unfold wp, write_cluster. rewrite (cluster_to_lba_heap s c G Hc). fold (csize s).
  set (bytes := take (csize s) (g_cluster_buf s)).
  assert (length bytes = csize s) as Ly by (unfold bytes; rewrite length_take; lia).
  destruct (disk_write_law (disk s) (heap_lba s c) (g_sectors_per_cluster s) bytes) as (d' & -> & Ok & Ed & Es);
    [apply V|lia|destruct G; lia|lia|rewrite Ly; unfold csize; destruct G; lia|by apply Forall_take|].
  do 2 eexists. split; [done|]. split_and!; [done| |split; done].
  constructor; simpl; try apply V; try done; [by apply (geometry_same s)|..].
  - intros i c' Hi Hc'. rewrite <- (vol_fat _ _ _ V i c' Hi Hc'). unfold fat_entry, fat_lba. simpl. rewrite Es.
    pose proof (fat_lba_range s i c' G Hi Hc'). rewrite bool_decide_false by (unfold fat_lba in *; lia). done.
  - intros c' Hc'. unfold cluster_data, heap_lba. simpl. fold (heap_lba s c').
    destruct (decide (c' = c)) as [->|Hne].
    + rewrite upd_eq. rewrite <- (join_cut bytes (heap_lba s c) (Z.to_nat (g_sectors_per_cluster s)))
        by (rewrite Ly; unfold csize; lia).
      rewrite Z2Nat.id by (destruct G; lia). apply join_ext. intros l Hl. rewrite Es, bool_decide_true by lia. done.
    + rewrite upd_ne, <- (vol_data _ _ _ V c' Hc') by done. apply join_ext. intros l Hl.
      rewrite Es, bool_decide_false; [done|]. intros Hl'. destruct Hne. by apply (heap_lba_apart s _ _ l G).
Qed.

(** A change of the cluster buffer alone. *)
Lemma vol_set_buf s T X f :
  vol_raw s T X → Z.of_nat (length (f (g_cluster_buf s))) = 65536 → Forall is_byte (f (g_cluster_buf s)) →
  vol_raw (s <| g_cluster_buf ::= f |>) T X.
Proof. intros V Lb Bb. apply (vol_raw_frame s); simpl; try done; apply V. Qed.

Definition zeros s : list Z := replicate (csize s) 0.

Lemma buf_set_zero s T X :
  vol_raw s T X →
  buf_set 0 (cluster_bytes s) (g_cluster_buf s) = zeros s ++ drop (csize s) (g_cluster_buf s).
Proof.
  intros V. unfold buf_set, buf_fill. rewrite cluster_bytes_eq by apply V.
  rewrite length_replicate. done.
Qed.

Lemma zeros_bytes s : Forall is_byte (zeros s).
Proof. apply Forall_replicate. unfold is_byte. lia. Qed.

Lemma zero_cluster_spec s T X c :
  vol_raw s T X → valid s c →
  wp (fat32_zero_cluster c) s (λ ok s', ok = true ∧ vol_raw s' T (upd X c (zeros s)) ∧ same_geo s s').
Proof.
  intros V Hc. pose proof (csize_small s (vol_geo _ _ _ V)). pose proof (vol_cluster_buf _ _ _ V) as [Lb Bb].
  apply wp_modify. pose proof (buf_set_zero s T X V) as Eb.
  set (s1 := s <| g_cluster_buf ::= _ |>).
  assert (vol_raw s1 T X) as V1.
  { apply vol_set_buf; [done|..]; rewrite Eb.
    - rewrite length_app, length_drop. unfold zeros. rewrite length_replicate. lia.
    - apply Forall_app. split; [apply zeros_bytes|by apply Forall_drop]. }
  eapply wp_mono; [apply (write_cluster_spec s1 T X c V1 Hc)|].
  intros ok s2 (-> & V2 & [Q2 _]). split_and!; [done| |done].
  replace (zeros s) with (take (csize s1) (g_cluster_buf s1)); [done|]. simpl. rewrite Eb.
  apply take_app_length'. unfold zeros. by rewrite length_replicate.
Qed.

(** ** Allocation *)

Definition EOC : Z := 0x0FFFFFFF.

Lemma alloc_from_spec n s F X c :
  vol s F X → 2 ≤ c → c + Z.of_nat n = g_max_cluster s + 1 →
  wp (alloc_from c n) s (λ r s', same_geo s s' ∧
    match r with
    | None => (∀ k, c ≤ k ≤ g_max_cluster s → F k ≠ 0) ∧ vol s' F X
    | Some k => c ≤ k ≤ g_max_cluster s ∧ F k = 0 ∧ (∀ j, c ≤ j < k → F j ≠ 0) ∧
                vol s' (upd F k EOC) (upd X k (zeros s))
    end).
Proof.
  revert s c. induction n as [|n IH]; intros s c V Hc Hn; simpl.
  - apply wp_ret. split_and!; [done|intros; lia|done].
  - assert (valid s c) as Hv by (unfold valid; lia).
    apply wp_bind. eapply wp_mono; [apply (read_entry_spec s _ X c V Hv)|].
    intros r s1 (-> & V1 & [Q1 _]). destruct (Z.eqb_spec (F c) 0) as [E0|E0].
    + apply wp_check. eapply wp_mono; [apply (set_entry_spec s1 F X c EOC V1)|].
      * by eapply same_geo_valid.
      * unfold EOC. lia.
      * intros ok s2 (-> & V2 & [Q2 _]). split; [done|]. apply wp_check.
        eapply wp_mono; [apply (zero_cluster_spec s2 _ _ c V2)|].
        { by eapply same_geo_valid; [trans s1|]. }
        intros ok s3 (-> & V3 & Q3). split; [done|]. apply wp_ret.
        assert (same_geo s s2) as S2 by (by trans s1).
        unfold zeros in V3. rewrite (same_geo_csize s s2 S2) in V3.
        split_and!; try done; [by trans s2|lia|intros; lia].
    + assert (g_max_cluster s1 = g_max_cluster s) as Em by apply Q1.
      eapply wp_mono; [apply (IH s1 (c + 1) V1); lia|].
      intros r s2 [Q2 R]. split; [by trans s1|]. destruct r as [k|].
      * destruct R as (Hk & Hz & Hj & V2). unfold zeros in V2. rewrite (same_geo_csize s s1 Q1) in V2.
        split_and!; try done; try lia. intros j Hj'. destruct (decide (j = c)) as [->|]; [done|]. apply Hj. lia.
      * destruct R as [Hk V2]. split; [|done]. intros k Hk'.
        destruct (decide (k = c)) as [->|]; [done|]. apply Hk. lia.
Qed.

(** The lowest free cluster is taken, marked as the end of a chain and
    cleared; 0 is returned only when the table is full. *)
Lemma alloc_cluster_spec s F X :
  vol s F X →
  wp fat32_alloc_cluster s (λ r s', same_geo s s' ∧
    match r with
    | None => (∀ k, valid s k → F k ≠ 0) ∧ vol s' F X
    | Some k => valid s k ∧ F k = 0 ∧ (∀ j, 2 ≤ j < k → F j ≠ 0) ∧
                vol s' (upd F k EOC) (upd X k (zeros s))
    end).
Proof.
  intros V. apply wp_get. apply (alloc_from_spec _ s F X 2 V); [lia|].
  pose proof (vol_geo _ _ _ V) as []. lia.
Qed.

(** ** Chains *)

(** [l] is the chain of clusters that starts with [c], on a volume whose last
    cluster is [m]. *)
Inductive chain (m : Z) F : Z → list Z → Prop :=
  | chain_end c : 2 ≤ c ≤ m → 0x0FFFFFF8 ≤ F c → chain m F c [c]
  | chain_next c l : 2 ≤ c ≤ m → F c < 0x0FFFFFF8 → chain m F (F c) l → chain m F c (c :: l).

Lemma chain_head m F c l : chain m F c l → ∃ l', l = c :: l'.
Proof. inversion 1; eauto. Qed.

Lemma chain_valid m F c l : chain m F c l → Forall (λ k, 2 ≤ k ≤ m) l.
Proof. induction 1; constructor; auto. Qed.

Lemma fat_chain_det m F c l l' : chain m F c l → chain m F c l' → l = l'.
Proof.
  intros C. revert l'. induction C as [c Hc He|c l Hc He C IH]; intros l' C'; inversion C'; subst; try lia; try done.
  f_equal. auto.
Qed.

Lemma chain_suffix m F c l1 x l2 : chain m F c (l1 ++ x :: l2) → chain m F x (x :: l2).
Proof.
  revert c. induction l1 as [|y l1 IH]; intros c C; simpl in C.
  - inversion C; subst; done.
  - inversion C; subst; [by destruct l1|]. eauto.
Qed.

Lemma chain_NoDup m F c l : chain m F c l → NoDup l.
Proof.
  induction 1 as [c Hc He|c l Hc He C IH]; [apply NoDup_singleton|].
  constructor; [|done]. intros Hin. apply list_elem_of_split in Hin as (l1 & l2 & ->).
  pose proof (chain_suffix _ _ _ _ _ _ C) as C2.
  pose proof (fat_chain_det _ _ _ _ _ C2 (chain_next m F c _ Hc He C)) as E.
  apply (f_equal length) in E. simpl in E. rewrite length_app in E. simpl in E. lia.
Qed.

Lemma chain_length m F c l : chain m F c l → Z.of_nat (length l) ≤ m - 1.
Proof.
  intros C. pose proof (chain_NoDup _ _ _ _ C) as N. pose proof (chain_valid _ _ _ _ C) as V.
  assert (l ⊆+ seqZ 2 (m - 1)) as S.
  { apply NoDup_submseteq; [done|]. intros x Hx. apply elem_of_seqZ.
    rewrite Forall_forall in V. apply V in Hx. lia. }
  apply submseteq_length in S. rewrite length_seqZ in S.
  destruct (chain_head _ _ _ _ C) as [? ->]. simpl in *. lia.
Qed.

Lemma chain_ext m F F' c l : (∀ k, k ∈ l → F' k = F k) → chain m F c l → chain m F' c l.
Proof.
  intros E C. induction C as [c Hc He|c l Hc He C IH].
  - constructor; [done|]. rewrite E; [done|]. set_solver.
  - assert (F' c = F c) as Ec by (apply E; set_solver).
    constructor; rewrite ?Ec; [done..|]. apply IH. intros k Hk. apply E. set_solver.
Qed.

(** Every cluster of a chain is in use. *)
Lemma chain_used m F c l k : 0 ≤ m → chain m F c l → k ∈ l → F k ≠ 0.
Proof.
  intros Hm C. induction C as [c Hc He|c l Hc He C IH]; intros Hk.
  - apply list_elem_of_singleton in Hk as ->. lia.
  - apply elem_of_cons in Hk as [->|Hk]; [|auto].
    destruct (chain_head _ _ _ _ C) as [l' ->]. apply chain_valid in C. inversion C; subst. lia.
Qed.

Definition clear F (l : list Z) : Z → Z := λ k, if decide (k ∈ l) then 0 else F k.

(** [fat32_free_chain] marks exactly the clusters of the chain as free. *)
Lemma free_loop_spec n s F X c l :
  vol s F X → chain (g_max_cluster s) F c l → (length l ≤ n)%nat →
  wp (free_loop n c) s (λ ok s', ok = true ∧ vol s' (clear F l) X ∧ quiet s s').
Proof.
  revert s F c l. induction n as [|n IH]; intros s F c l V C Hl.
  { destruct (chain_head _ _ _ _ C) as [? ->]. simpl in Hl. lia. }
  assert (valid s c) as Hv by (inversion C; done). simpl. apply wp_get.
  destruct (Z.ltb_spec c 2); [unfold valid in Hv; lia|].
  destruct (Z.gtb_spec c (g_max_cluster s)); [unfold valid in Hv; lia|]. simpl.
  apply wp_bind. eapply wp_mono; [apply (read_entry_spec s _ X c V Hv)|].
  intros r s1 (-> & V1 & Q1). apply wp_check.
  eapply wp_mono; [apply (set_entry_spec s1 F X c 0 V1); [by eapply same_geo_valid; [apply Q1|]|lia]|].
  intros ok s2 (-> & V2 & Q2). split; [done|]. assert (quiet s s2) as Q by (by trans s1).
  assert (g_max_cluster s2 = g_max_cluster s) as Em by apply Q.
  pose proof (chain_NoDup _ _ _ _ C) as N. unfold is_end_of_chain.
  inversion C as [c' Hc He|c' l' Hc He C']; subst.
  - destruct (Z.geb_spec (F c) 0xFFFFFF8); [|lia]. simpl. apply wp_ret. split_and!; [done| |done].
    apply (vol_raw_ext s2 (λ _, upd F c 0) _ X X); [|done..]. intros _ k _ _. unfold clear, upd.
    destruct (Z.eqb_spec k c); case_decide as Hk; set_solver.
  - assert (2 ≤ F c) by (destruct (chain_head _ _ _ _ C') as [? ->]; apply chain_valid in C'; inversion C'; lia).
    destruct (Z.geb_spec (F c) 0xFFFFFF8); [lia|]. destruct (Z.ltb_spec (F c) 2); [lia|]. simpl.
    apply NoDup_cons in N as [Nc N].
    eapply wp_mono; [apply (IH s2 (upd F c 0) (F c) l' V2)|].
    + rewrite Em. eapply chain_ext; [|done]. intros k Hk. apply upd_ne. set_solver.
    + simpl in Hl. lia.
    + intros ok s3 (-> & V3 & Q3). split_and!; [done| |by trans s2].
      apply (vol_raw_ext s3 (λ _, clear (upd F c 0) l') _ X X); [|done..]. intros _ k _ _. unfold clear, upd.
      destruct (Z.eqb_spec k c); repeat case_decide; set_solver.
Qed.

Lemma free_chain_spec s F X c l :
  vol s F X → chain (g_max_cluster s) F c l →
  wp (fat32_free_chain c) s (λ ok s', ok = true ∧ vol s' (clear F l) X ∧ quiet s s').
Proof.
  intros V C. apply wp_get. apply free_loop_spec; [done..|]. pose proof (chain_length _ _ _ _ C).
  unfold guard_rounds. lia.
Qed.
End volume.
End FatVolume.
