(* ===== verification/FatDir.v ===== *)
(** * FAT32: directories of the volume

    Directory entries as records and as bytes, the search for an entry and for
    a free slot along the chain of a directory, and the effect of storing an
    entry: the driver's loops of [Fat32] against the functions [dir_find] and
    [dir_slot] on the contents of the clusters. *)

From Stdlib Require Import Lia ZArith Bool.
From stdpp Require Import base list numbers sets.
From S2P Require Import Prelude Disk Fat32 FatVolume.

Local Open Scope Z_scope.
Import Fat32 FatVolume.

Module FatDir.

(** ** Entries as bytes *)

Definition is_u16 (v : Z) : Prop := 0 ≤ v < 2 ^ 16.

Record dirent_ok (e : fat32_dirent_t) : Prop := {
  ok_name : length (name e) = 11%nat ∧ Forall is_byte (name e);
  ok_attr : is_byte (attr e) ∧ is_byte (nt_reserved e) ∧ is_byte (create_time_tenth e);
  ok_times : is_u16 (create_time e) ∧ is_u16 (create_date e) ∧ is_u16 (access_date e) ∧
             is_u16 (write_time e) ∧ is_u16 (write_date e);
  ok_cluster : is_u16 (first_cluster_hi e) ∧ is_u16 (first_cluster_lo e);
  ok_size : 0 ≤ file_size e < 2 ^ 32;
}.

Lemma le16_roundtrip v : is_u16 v → Z.lor (u8 v) (Z.shiftl (u8 (Z.shiftr v 8)) 8) = v.
Proof.
  intros Hv. rewrite lor_shiftl_add by (lia || apply u8_byte). rewrite <- (le16_sum v) at 3 by done. lia.
Qed.

Lemma le32_roundtrip v :
  0 ≤ v < 2 ^ 32 →
  Z.lor (Z.lor (Z.lor (u8 v) (Z.shiftl (u8 (Z.shiftr v 8)) 8)) (Z.shiftl (u8 (Z.shiftr v 16)) 16))
        (Z.shiftl (u8 (Z.shiftr v 24)) 24) = v.
Proof.
  intros Hv. pose proof (le32_at_sum (le32_bytes v) 0) as E. unfold le32_at, byte_at in E. simpl in E.
  rewrite E by apply u8_byte. apply (le32_sum v Hv).
Qed.

Lemma dirent_bytes_length e : dirent_ok e → length (dirent_bytes e) = DIRENT_SIZE.
Proof. intros [[Hn _] _ _ _ _]. unfold dirent_bytes. rewrite length_app, Hn. done. Qed.

Lemma dirent_bytes_byte e : dirent_ok e → Forall is_byte (dirent_bytes e).
Proof.
  intros [[_ Hn] (? & ? & ?) _ _ _]. unfold dirent_bytes. apply Forall_app. split; [done|].
  unfold le16_bytes, le32_bytes. cbn [app].
  repeat (apply Forall_cons; split); try done; apply u8_byte.
Qed.

(** The packed struct and its bytes: a round trip. *)
Lemma dirent_roundtrip e : dirent_ok e → dirent_of (dirent_bytes e) = e.
Proof.
  intros [[Hn Bn] (? & ? & ?) (? & ? & ? & ? & ?) [? ?] ?].
  destruct e as [nm a r t ct cd ad hi wt wd lo sz]. simpl in *.
  do 11 (destruct nm as [|? nm]; [done|]). destruct nm; [|done].
  unfold dirent_of, dirent_bytes, le16_at, le32_at, byte_at. simpl.
  rewrite !le16_roundtrip, le32_roundtrip by done. done.
Qed.

(** ** Entries of a buffer *)

Lemma dirent_at_take n buf i : (i < n)%nat → dirent_at (take (32 * n) buf) i = dirent_at buf i.
Proof.
  intros Hi. unfold dirent_at, DIRENT_SIZE. f_equal.
  rewrite !take_drop_commute, take_take. do 2 f_equal. lia.
Qed.

Lemma scan_take n buf nm k j : (k + j ≤ n)%nat → scan_entries (take (32 * n) buf) nm k j = scan_entries buf nm k j.
Proof.
  revert k. induction j as [|j IH]; intros k Hk; cbn [scan_entries live_entries]; cbv zeta; [done|].
  rewrite dirent_at_take, IH by lia. done.
Qed.

Lemma free_slot_take n buf : free_slot (take (32 * n) buf) n = free_slot buf n.
Proof. apply first_index_ext. intros i Hi. by rewrite dirent_at_take by lia. Qed.

Lemma live_take n buf k j : (k + j ≤ n)%nat → live_entries (take (32 * n) buf) k j = live_entries buf k j.
Proof.
  revert k. induction j as [|j IH]; intros k Hk; cbn [scan_entries live_entries]; cbv zeta; [done|].
  rewrite dirent_at_take, IH by lia. done.
Qed.

(** Storing an entry. *)
Definition put_dirent (i : nat) (e : fat32_dirent_t) (buf : list Z) : list Z :=
  buf_store (DIRENT_SIZE * i) (dirent_bytes e) buf.

Lemma dirent_at_put i j e buf :
  dirent_ok e → (32 * (i + 1) ≤ length buf)%nat →
  dirent_at (put_dirent i e buf) j = if decide (j = i) then e else dirent_at buf j.
Proof.
  intros Ok Hl. pose proof (dirent_bytes_length e Ok) as Ln. unfold DIRENT_SIZE in Ln.
  unfold dirent_at, put_dirent, buf_store, DIRENT_SIZE. rewrite Ln. case_decide as Hj.
  - subst j. rewrite drop_app_length' by (rewrite length_take; lia).
    rewrite take_app_length' by done. by apply dirent_roundtrip.
  - f_equal. destruct (decide (j < i)%nat) as [Hlt|Hge].
    + rewrite drop_app_le by (rewrite length_take; lia).
      rewrite take_app_le by (rewrite length_drop, length_take; lia).
      rewrite !take_drop_commute, take_take. do 2 f_equal. lia.
    + rewrite drop_app_ge by (rewrite length_take; lia). rewrite length_take.
      rewrite drop_app_ge by lia. rewrite drop_drop. do 2 f_equal. lia.
Qed.

(** An entry that a search can find. *)
Definition visible (e : fat32_dirent_t) : Prop := first_byte e ≠ 0 ∧ skipped e = false.

Lemma scan_range buf nm k n i e : scan_entries buf nm k n = Found i e → (i < k + n)%nat.
Proof.
  revert k. induction n as [|n IH]; intros k S; cbn [scan_entries] in S; cbv zeta in S; [done|].
  case_match; [done|]. case_match; [apply IH in S; lia|].
  case_bool_decide; [simplify_eq; lia|]. apply IH in S. lia.
Qed.

Lemma scan_put_found buf nm k n i o e :
  scan_entries buf nm k n = Found i o → dirent_ok e → visible e → name e = nm →
  (32 * (k + n) ≤ length buf)%nat → scan_entries (put_dirent i e buf) nm k n = Found i e.
Proof.
  revert k. induction n as [|n IH]; intros k S Ok [Hz Hs] Hn Hl; cbn [scan_entries] in *; cbv zeta in *; [done|].
  assert ((i < k + Datatypes.S n)%nat) as Hi by (apply (scan_range buf nm k (Datatypes.S n) i o S)).
  rewrite dirent_at_put by (done || lia). destruct (decide (k = i)) as [Hk|Hk].
  - subst i. rewrite Hs. destruct (Z.eqb_spec (first_byte e) 0); [done|]. by rewrite bool_decide_true.
  - destruct (first_byte (dirent_at buf k) =? 0); [done|].
    destruct (skipped (dirent_at buf k)); [apply IH; done || lia|].
    case_bool_decide; [simplify_eq|]. apply IH; done || lia.
Qed.

(** The result of a search that finds nothing. *)
Definition missing (r : scan_result) : Prop := match r with Found _ _ => False | _ => True end.

Lemma scan_put_free buf nm k n i e :
  missing (scan_entries buf nm k n) → (k ≤ i < k + n)%nat →
  (∀ j, (k ≤ j < i)%nat → first_byte (dirent_at buf j) ≠ 0) →
  dirent_ok e → visible e → name e = nm → (32 * (k + n) ≤ length buf)%nat →
  scan_entries (put_dirent i e buf) nm k n = Found i e.
Proof.
  revert k. induction n as [|n IH]; intros k S Hi Hj Ok [Hz Hs] Hn Hl; cbn [scan_entries] in *; cbv zeta in *; [lia|].
  rewrite dirent_at_put by (done || lia). destruct (decide (k = i)) as [Hk|Hk].
  - subst i. rewrite Hs. destruct (Z.eqb_spec (first_byte e) 0); [done|]. by rewrite bool_decide_true.
  - pose proof (Hj k ltac:(lia)) as Hkz. destruct (Z.eqb_spec (first_byte (dirent_at buf k)) 0); [done|].
    destruct (skipped (dirent_at buf k)); [|case_bool_decide; [done|]].
    all: apply IH; try done; try lia; intros j ?; apply Hj; lia.
Qed.

(** No free slot means that no end mark stops a search. *)
Lemma scan_full buf nm k n :
  (∀ j, (k ≤ j < k + n)%nat → first_byte (dirent_at buf j) ≠ 0) → scan_entries buf nm k n ≠ EndOfDirectory.
Proof.
  revert k. induction n as [|n IH]; intros k Hj; cbn [scan_entries]; cbv zeta; [done|].
  pose proof (Hj k ltac:(lia)). destruct (Z.eqb_spec (first_byte (dirent_at buf k)) 0); [done|].
  destruct (skipped (dirent_at buf k)); [|case_bool_decide; [done|]].
  all: apply IH; intros j ?; apply Hj; lia.
Qed.

(** ** Directories: a list of clusters *)

Fixpoint dir_find (n : nat) (X : Z → list Z) (l : list Z) (nm : list Z) : option (Z * nat * fat32_dirent_t) :=
  match l with
  | [] => None
  | c :: l =>
     match scan_entries (X c) nm 0 n with
     | Found i e => Some (c, i, e)
     | EndOfDirectory => None
     | NextCluster => dir_find n X l nm
     end
  end.

Fixpoint dir_slot (n : nat) (X : Z → list Z) (l : list Z) : option (Z * nat) :=
  match l with
  | [] => None
  | c :: l => match free_slot (X c) n with Some i => Some (c, i) | None => dir_slot n X l end
  end.

Lemma dir_find_ext n X X' l nm : (∀ c, c ∈ l → X' c = X c) → dir_find n X' l nm = dir_find n X l nm.
Proof.
  induction l as [|c l IH]; intros E; simpl; [done|]. rewrite E by set_solver.
  rewrite IH; [done|]. intros k Hk. apply E. set_solver.
Qed.

Lemma dir_find_in n X l nm c i e : dir_find n X l nm = Some (c, i, e) → c ∈ l.
Proof.
  induction l as [|x l IH]; simpl; [done|]. destruct (scan_entries (X x) nm 0 n); intros; simplify_eq; set_solver.
Qed.

Lemma dir_slot_in n X l c i : dir_slot n X l = Some (c, i) → c ∈ l ∧ (i < n)%nat.
Proof.
  induction l as [|x l IH]; simpl; [done|]. destruct (free_slot (X x) n) as [j|] eqn:Ef.
  - intros; simplify_eq. apply first_index_Some in Ef as (? & ? & ?). split; [set_solver|lia].
  - intros E. apply IH in E as []. set_solver.
Qed.

(** An entry that replaces the one a search finds is found in its place. *)
Lemma dir_find_replace n X l nm c i o e :
  NoDup l → (∀ k, k ∈ l → (32 * n ≤ length (X k))%nat) → dir_find n X l nm = Some (c, i, o) →
  dirent_ok e → visible e → name e = nm →
  dir_find n (upd X c (put_dirent i e (X c))) l nm = Some (c, i, e).
Proof.
  induction l as [|x l IH]; intros N Hl Hf Ok Hv Hn; simpl in *; [done|].
  apply NoDup_cons in N as [Nx N]. destruct (scan_entries (X x) nm 0 n) eqn:Es; [|done|].
  - simplify_eq. rewrite upd_eq.
    erewrite scan_put_found; [done|done..|]. apply Hl. set_solver.
  - assert (x ≠ c) by (intros ->; apply dir_find_in in Hf; done).
    rewrite upd_ne, Es by done. apply IH; [done|set_solver|done..].
Qed.

Lemma free_slot_first buf n i :
  free_slot buf n = Some i → (i < n)%nat ∧ ∀ j, (j < i)%nat → first_byte (dirent_at buf j) ≠ 0.
Proof.
  intros Ef. apply first_index_Some in Ef as (? & _ & Hj). split; [lia|].
  intros j Hlt Hz. specialize (Hj j ltac:(lia)). cbv beta zeta in Hj. rewrite Hz in Hj. done.
Qed.

Lemma free_slot_none buf n nm :
  free_slot buf n = None → scan_entries buf nm 0 n ≠ EndOfDirectory.
Proof.
  intros Ef. apply scan_full. intros j Hj Hz. pose proof (proj1 (first_index_None _ _ _) Ef j Hj) as E.
  cbv beta zeta in E. rewrite Hz in E. done.
Qed.

(** An entry put into the first free slot is found there. *)
Lemma dir_find_insert n X l nm c i e :
  NoDup l → (∀ k, k ∈ l → (32 * n ≤ length (X k))%nat) → dir_find n X l nm = None →
  dir_slot n X l = Some (c, i) → dirent_ok e → visible e → name e = nm →
  dir_find n (upd X c (put_dirent i e (X c))) l nm = Some (c, i, e).
Proof.
  induction l as [|x l IH]; intros N Hl Hf Hs Ok Hv Hn; simpl in *; [done|].
  apply NoDup_cons in N as [Nx N]. destruct (free_slot (X x) n) as [j|] eqn:Ef.
  - simplify_eq. rewrite upd_eq. pose proof (free_slot_first _ _ _ Ef) as [Hi Hj].
    rewrite (scan_put_free (X c) (name e) 0 n i e); [done| |lia|intros; apply Hj; lia|done..|apply Hl; set_solver].
    by destruct (scan_entries (X c) (name e) 0 n).
  - assert (x ≠ c) by (intros ->; apply dir_slot_in in Hs as []; done).
    pose proof (free_slot_none _ _ nm Ef). rewrite upd_ne by done.
    destruct (scan_entries (X x) nm 0 n); [done..|]. apply IH; [done|set_solver|done..].
Qed.

(** An entry of another name does not hide what a search finds ... *)
Lemma scan_put_other buf nm k n i j e o :
  scan_entries buf nm k n = Found j o → i ≠ j → dirent_ok e → visible e → name e ≠ nm →
  (32 * (i + 1) ≤ length buf)%nat → scan_entries (put_dirent i e buf) nm k n = Found j o.
Proof.
  revert k. induction n as [|n IH]; intros k S Hij Ok [Hz Hs] Hn Hl; cbn [scan_entries] in *; cbv zeta in *; [done|].
  rewrite dirent_at_put by done. destruct (decide (k = i)) as [->|Hk].
  - rewrite Hs. destruct (Z.eqb_spec (first_byte e) 0); [done|]. rewrite bool_decide_false by done.
    apply IH; try done. destruct (first_byte (dirent_at buf i) =? 0); [done|].
    destruct (skipped (dirent_at buf i)); [done|]. case_bool_decide; [by simplify_eq|done].
  - destruct (first_byte (dirent_at buf k) =? 0); [done|].
    destruct (skipped (dirent_at buf k)); [by apply IH|].
    case_bool_decide; [done|]. by apply IH.
Qed.

(** ... nor does it end the directory earlier. *)
Lemma scan_put_next buf nm k n i e :
  scan_entries buf nm k n = NextCluster → dirent_ok e → visible e → name e ≠ nm →
  (32 * (i + 1) ≤ length buf)%nat → scan_entries (put_dirent i e buf) nm k n = NextCluster.
Proof.
  revert k. induction n as [|n IH]; intros k S Ok [Hz Hs] Hn Hl; cbn [scan_entries] in *; cbv zeta in *; [done|].
  rewrite dirent_at_put by done. destruct (decide (k = i)) as [->|Hk].
  - rewrite Hs. destruct (Z.eqb_spec (first_byte e) 0); [done|]. rewrite bool_decide_false by done.
    apply IH; try done. destruct (first_byte (dirent_at buf i) =? 0); [done|].
    destruct (skipped (dirent_at buf i)); [done|]. by case_bool_decide.
  - destruct (first_byte (dirent_at buf k) =? 0); [done|].
    destruct (skipped (dirent_at buf k)); [by apply IH|].
    case_bool_decide; [done|]. by apply IH.
Qed.

Lemma dir_find_other n X l nm c i e r :
  dir_find n X l nm = Some r → r.1 ≠ (c, i) → dirent_ok e → visible e → name e ≠ nm →
  (32 * (i + 1) ≤ length (X c))%nat →
  dir_find n (upd X c (put_dirent i e (X c))) l nm = Some r.
Proof.
  induction l as [|x l IH]; intros Hf Hr Ok Hv Hn Hl; simpl in *; [done|].
  destruct (decide (x = c)) as [->|Hne].
  - rewrite upd_eq. destruct (scan_entries (X c) nm 0 n) as [j o| |] eqn:Es; [|done|].
    + simplify_eq. simpl in Hr. by rewrite (scan_put_other _ _ _ _ _ _ _ _ Es) by (done || (intros ->; done)).
    + rewrite (scan_put_next _ _ _ _ _ _ Es) by done. by apply IH.
  - rewrite upd_ne by done. destruct (scan_entries (X x) nm 0 n); [done|done|]. by apply IH.
Qed.

Lemma dir_find_app n X l l' nm r : dir_find n X l nm = Some r → dir_find n X (l ++ l') nm = Some r.
Proof.
  induction l as [|x l IH]; simpl; [done|]. by destruct (scan_entries (X x) nm 0 n).
Qed.

(** What a search finds is a visible entry of that name. *)
Lemma scan_found buf nm k n i e :
  scan_entries buf nm k n = Found i e → e = dirent_at buf i ∧ visible e ∧ name e = nm.
Proof.
  revert k. induction n as [|n IH]; intros k S; cbn [scan_entries] in S; cbv zeta in S; [done|].
  destruct (Z.eqb_spec (first_byte (dirent_at buf k)) 0); [done|].
  destruct (skipped (dirent_at buf k)) eqn:Es; [eauto|].
  case_bool_decide; [|eauto]. by simplify_eq.
Qed.

Lemma dir_find_found n X l nm c i e :
  dir_find n X l nm = Some (c, i, e) → c ∈ l ∧ (i < n)%nat ∧ e = dirent_at (X c) i ∧ visible e ∧ name e = nm.
Proof.
  induction l as [|x l IH]; simpl; [done|]. destruct (scan_entries (X x) nm 0 n) as [j o| |] eqn:Es; [|done|].
  - intros; simplify_eq. pose proof (scan_range _ _ _ _ _ _ Es). apply scan_found in Es as (? & ? & ?).
    split_and!; try done. set_solver.
  - intros Hf. apply IH in Hf as (? & ?). split; [set_solver|done].
Qed.

Lemma dir_slot_free n X l c i :
  dir_slot n X l = Some (c, i) → first_byte (dirent_at (X c) i) = 0 ∨ first_byte (dirent_at (X c) i) = 0xE5.
Proof.
  induction l as [|x l IH]; simpl; [done|]. destruct (free_slot (X x) n) as [j|] eqn:Ef; [|auto].
  intros; simplify_eq. apply first_index_Some in Ef as (_ & Hb & _). cbv beta zeta in Hb.
  apply orb_true_iff in Hb as [?%Z.eqb_eq|?%Z.eqb_eq]; auto.
Qed.

Lemma visible_not_free e : visible e → first_byte e ≠ 0 ∧ first_byte e ≠ 0xE5.
Proof. unfold visible, skipped. destruct (Z.eqb_spec (first_byte e) 229); [intros []; done|]. by intros []. Qed.

(** No free slot: the search goes on behind the directory. *)
Lemma dir_find_append n X l l' nm :
  dir_slot n X l = None → dir_find n X l nm = None → dir_find n X (l ++ l') nm = dir_find n X l' nm.
Proof.
  induction l as [|x l IH]; intros Hs Hf; simpl in *; [done|].
  destruct (free_slot (X x) n) eqn:Ef; [done|]. pose proof (free_slot_none _ _ nm Ef).
  destruct (scan_entries (X x) nm 0 n); [done..|]. auto.
Qed.

(** The first entry of an empty cluster. *)
Lemma find_in_zeros n m nm e :
  (1 ≤ n)%nat → m = (32 * n)%nat → dirent_ok e → visible e → name e = nm →
  scan_entries (put_dirent 0 e (replicate m 0)) nm 0 n = Found 0 e.
Proof.
  intros Hn -> Ok Hv Hm.
  assert (first_byte (dirent_at (replicate (32 * n) 0) 0) = 0) as Hz.
  { by destruct n as [|n]; [lia|]. }
  apply scan_put_free; try done; [|lia|rewrite length_replicate; lia].
  destruct n; [lia|]. cbn [scan_entries]. cbv zeta. by rewrite Hz.
Qed.

(** ** The driver's searches *)

Section search.
Context {D : Type} {DE : DiskEnv D} {DL : DiskLaws D} {CE : ConsoleEnv D}.
Implicit Types (s : fat D) (F : Z → Z) (X : Z → list Z).

Lemma csize_entries s : geometry s → csize s = (32 * entries_per_cluster s)%nat.
Proof. intros G. rewrite entries_eq by done. unfold csize. destruct G. lia. Qed.

Lemma same_geo_entries s s' : same_geo s s' → entries_per_cluster s' = entries_per_cluster s.
Proof. intros (E1 & E2 & _). unfold entries_per_cluster, cluster_bytes. by rewrite E1, E2. Qed.

(** Reading a directory cluster and scanning it. *)
Lemma read_scan_spec s F X c :
  vol s F X → valid s c →
  wp (read_cluster c) s (λ ok s', ok = true ∧ vol s' F X ∧ same_geo s s' ∧
    (∀ nm, scan_entries (g_cluster_buf s') nm 0 (entries_per_cluster s') = scan_entries (X c) nm 0 (entries_per_cluster s)) ∧
    free_slot (g_cluster_buf s') (entries_per_cluster s') = free_slot (X c) (entries_per_cluster s) ∧
    live_entries (g_cluster_buf s') 0 (entries_per_cluster s') = live_entries (X c) 0 (entries_per_cluster s)).
Proof.
  intros V Hc. eapply wp_mono; [by apply (read_cluster_spec s (λ _, F) X c)|].
  intros ok s' (-> & V' & Sg & Eb). rewrite (csize_entries s) in Eb by apply V.
  rewrite (same_geo_entries s s' Sg). split_and!; try done.
  - intros nm. rewrite <- Eb. symmetry. apply scan_take. lia.
  - rewrite <- Eb. symmetry. apply free_slot_take.
  - rewrite <- Eb. symmetry. apply live_take. lia.
Qed.

Lemma not_end c m : 2 ≤ c ≤ m → m ≤ 0x0FFFFFF6 → is_end_of_chain c || (c <? 2) = false.
Proof. intros. unfold is_end_of_chain. destruct (Z.geb_spec c 0xFFFFFF8), (Z.ltb_spec c 2); try lia; done. Qed.

Lemma chain_first m F c l : chain m F c l → 2 ≤ c ≤ m.
Proof. by inversion 1. Qed.

Lemma find_entry_spec fuel s F X c l nm :
  vol s F X → chain (g_max_cluster s) F c l → (length l < fuel)%nat →
  wp (find_entry fuel c nm) s (λ r s',
    r = snd <$> dir_find (entries_per_cluster s) X l nm ∧ vol s' F X ∧ same_geo s s').
Proof.
  revert s c l. induction fuel as [|fuel IH]; intros s c l V C Hl; [lia|].
  pose proof (chain_first _ _ _ _ C) as Hv. cbn [find_entry].
  rewrite (not_end c _ Hv) by (destruct (vol_geo _ _ _ V); lia).
  apply wp_check. eapply wp_mono; [apply (read_scan_spec s F X c V Hv)|].
  intros ok s1 (-> & V1 & S1 & Es & _). split; [done|]. apply wp_get; cbv beta zeta. rewrite Es.
  destruct (chain_head _ _ _ _ C) as [l' ->]. cbn [dir_find].
  destruct (scan_entries (X c) nm 0 _); [by apply wp_ret..|].
  apply wp_bind. eapply wp_mono; [apply (get_next_cluster_spec s1 _ X c V1); by eapply same_geo_valid|].
  intros next s2 (-> & V2 & [S2 _]). assert (same_geo s s2) as S by (by trans s1).
  inversion C as [c' Hc He|c' l'' Hc He C']; subst.
  - destruct fuel as [|fuel]; [simpl in Hl; lia|]. cbn [find_entry dir_find]. unfold is_end_of_chain.
    destruct (Z.geb_spec (F c) 0xFFFFFF8); [|lia]. by apply wp_ret.
  - eapply wp_mono; [apply (IH s2 (F c) l' V2)|].
    + by replace (g_max_cluster s2) with (g_max_cluster s) by (symmetry; apply S).
    + simpl in Hl. lia.
    + intros r s3 (-> & V3 & S3). rewrite (same_geo_entries s s2 S). split_and!; [done..|by trans s2].
Qed.

Lemma find_entry_location_spec fuel s F X c l nm :
  vol s F X → chain (g_max_cluster s) F c l → (length l < fuel)%nat →
  wp (find_entry_location fuel c nm) s (λ r s',
    r = dir_find (entries_per_cluster s) X l nm ∧ vol s' F X ∧ same_geo s s').
Proof.
  revert s c l. induction fuel as [|fuel IH]; intros s c l V C Hl; [lia|].
  pose proof (chain_first _ _ _ _ C) as Hv. cbn [find_entry_location]. apply wp_get; cbv beta.
  rewrite (not_end c _ Hv) by (destruct (vol_geo _ _ _ V); lia).
  destruct (Z.gtb_spec c (g_max_cluster s)); [lia|]. simpl orb.
  apply wp_check. eapply wp_mono; [apply (read_scan_spec s F X c V Hv)|].
  intros ok s1 (-> & V1 & S1 & Es & _). split; [done|]. apply wp_get; cbv beta zeta. rewrite Es.
  destruct (chain_head _ _ _ _ C) as [l' ->]. cbn [dir_find].
  destruct (scan_entries (X c) nm 0 _); [by apply wp_ret..|].
  apply wp_bind. eapply wp_mono; [apply (get_next_cluster_spec s1 _ X c V1); by eapply same_geo_valid|].
  intros next s2 (-> & V2 & [S2 _]). assert (same_geo s s2) as S by (by trans s1).
  assert (g_max_cluster s2 = g_max_cluster s) as Em by apply S.
  inversion C as [c' Hc He|c' l'' Hc He C']; subst.
  - destruct (Z.ltb_spec (F c) 2); [lia|].
    destruct fuel as [|fuel]; [simpl in Hl; lia|]. cbn [find_entry_location dir_find]. apply wp_get; cbv beta.
    unfold is_end_of_chain. destruct (Z.geb_spec (F c) 0xFFFFFF8); [|lia]. by apply wp_ret.
  - pose proof (chain_first _ _ _ _ C'). destruct (Z.ltb_spec (F c) 2); [lia|].
    eapply wp_mono; [apply (IH s2 (F c) l' V2)|].
    + by rewrite Em.
    + simpl in Hl. lia.
    + intros r s3 (-> & V3 & S3). rewrite (same_geo_entries s s2 S). split_and!; [done..|by trans s2].
Qed.

(** A chain grows by one cluster at its end. *)
Lemma chain_extend m F c l k z :
  chain m F c l → last l = Some z → k ∉ l → 2 ≤ k ≤ m → m ≤ 0x0FFFFFF6 →
  chain m (upd (upd F k EOC) z k) c (l ++ [k]).
Proof.
  intros C Hz Hk Hkm Hm. induction C as [c Hc He|c l Hc He C IH]; simpl in *.
  - simplify_eq. apply chain_next; [done|rewrite upd_eq; lia|]. rewrite upd_eq.
    assert (k ≠ z) by set_solver. constructor; [done|].
    rewrite upd_ne, upd_eq by done. unfold EOC. lia.
  - destruct (chain_head _ _ _ _ C) as [l' ->]. simpl in *.
    assert (c ≠ z) as Hcz.
    { intros ->. pose proof (chain_NoDup _ _ _ _ (chain_next m F z _ Hc He C)) as N.
      apply NoDup_cons in N as [N _]. apply N. apply last_Some_elem_of. done. }
    assert (c ≠ k) by set_solver. assert (upd (upd F k EOC) z k c = F c) as Ec by (by rewrite !upd_ne).
    apply chain_next; rewrite ?Ec; [done..|]. apply IH; [done|set_solver].
Qed.

(** The first free slot of a directory; a full directory is extended by a
    cleared cluster, which is linked behind its last one. *)
Lemma slot_loop_spec n s F X c l :
  vol s F X → chain (g_max_cluster s) F c l → (length l ≤ n)%nat →
  wp (slot_loop n c) s (λ r s', same_geo s s' ∧
    match dir_slot (entries_per_cluster s) X l with
    | Some p => r = Some p ∧ vol s' F X
    | None =>
       match r with
       | None => (∀ k, valid s k → F k ≠ 0) ∧ vol s' F X
       | Some (k, i) => i = 0%nat ∧ valid s k ∧ F k = 0 ∧
          ∃ z, last l = Some z ∧ vol s' (upd (upd F k EOC) z k) (upd X k (zeros s))
       end
    end).
Proof.
  revert s c l. induction n as [|n IH]; intros s c l V C Hl.
  { destruct (chain_head _ _ _ _ C) as [? ->]. simpl in Hl. lia. }
  pose proof (chain_first _ _ _ _ C) as Hv. cbn [slot_loop]. apply wp_get; cbv beta.
  destruct (Z.ltb_spec c 2); [lia|]. destruct (Z.gtb_spec c (g_max_cluster s)); [lia|]. simpl orb.
  apply wp_check. eapply wp_mono; [apply (read_scan_spec s F X c V Hv)|].
  intros ok s1 (-> & V1 & S1 & _ & Es & _). split; [done|]. apply wp_get; cbv beta zeta. rewrite Es.
  destruct (chain_head _ _ _ _ C) as [l' ->]. cbn [dir_slot].
  destruct (free_slot (X c) _) as [i|]; [by apply wp_ret|].
  apply wp_bind. eapply wp_mono; [apply (read_entry_spec s1 _ X c V1); by eapply same_geo_valid|].
  intros r s2 (-> & V2 & [S2 _]). assert (same_geo s s2) as S by (by trans s1).
  assert (g_max_cluster s2 = g_max_cluster s) as Em by apply S. unfold is_end_of_chain.
  inversion C as [c' Hc He|c' l'' Hc He C']; subst; cbn [dir_slot].
  - destruct (Z.geb_spec (F c) 0xFFFFFF8); [|lia].
    apply wp_bind. eapply wp_mono; [apply (alloc_cluster_spec s2 F X V2)|].
    intros [k|] s3 [S3 R].
    + destruct R as (Hk & Hz & _ & V3). assert (same_geo s s3) as S' by (by trans s2).
      apply wp_check. eapply wp_mono; [apply (set_entry_spec s3 _ _ c k V3)|].
      * by eapply same_geo_valid.
      * unfold valid in Hk. pose proof (vol_geo _ _ _ V) as []. lia.
      * intros ok s4 (-> & V4 & [S4 _]). split; [done|]. apply wp_ret. split; [by trans s3|].
        unfold zeros in V4. rewrite (same_geo_csize s s2 S) in V4. unfold valid in *. rewrite Em in Hk.
        split_and!; try done; try lia. exists c. done.
    + destruct R as [Hz V3]. apply wp_ret. split; [by trans s2|]. split; [|done].
      intros k Hk. apply Hz. by eapply same_geo_valid.
  - pose proof (chain_first _ _ _ _ C'). destruct (Z.geb_spec (F c) 0xFFFFFF8); [lia|].
    eapply wp_mono; [apply (IH s2 (F c) l' V2); [by rewrite Em|simpl in Hl; lia]|].
    intros r s3 [S3 R]. split; [by trans s2|]. rewrite (same_geo_entries s s2 S) in R.
    destruct (chain_head _ _ _ _ C') as [l2 ->].
    destruct (dir_slot _ X (F c :: l2)); [done|]. destruct r as [[k i]|].
    + destruct R as (Hi & Hk & Hz & z & Hlast & V3). unfold zeros in V3. rewrite (same_geo_csize s s2 S) in V3.
      unfold valid in *. rewrite Em in Hk. split_and!; try done; try lia. exists z. done.
    + destruct R as [Hk V3]. split; [|done]. intros k Hv'. apply Hk. by eapply same_geo_valid.
Qed.

Lemma find_free_dir_slot_spec s F X c l :
  vol s F X → chain (g_max_cluster s) F c l →
  wp (find_free_dir_slot c) s (λ r s', same_geo s s' ∧
    match dir_slot (entries_per_cluster s) X l with
    | Some p => r = Some p ∧ vol s' F X
    | None =>
       match r with
       | None => (∀ k, valid s k → F k ≠ 0) ∧ vol s' F X
       | Some (k, i) => i = 0%nat ∧ valid s k ∧ F k = 0 ∧
          ∃ z, last l = Some z ∧ vol s' (upd (upd F k EOC) z k) (upd X k (zeros s))
       end
    end).
Proof.
  intros V C. apply wp_get. apply slot_loop_spec; [done..|]. pose proof (chain_length _ _ _ _ C).
  unfold guard_rounds. lia.
Qed.

(** Reading a cluster, storing bytes in it and writing it back. *)
Lemma rewrite_cluster_spec s F X c off bytes :
  vol s F X → valid s c → (off + length bytes ≤ csize s)%nat → Forall is_byte bytes →
  wp (check (read_cluster c) (mret false)
       (_ ← modify (λ s, s <| g_cluster_buf ::= buf_store off bytes |>); write_cluster c)) s
    (λ ok s', ok = true ∧ vol s' F (upd X c (buf_store off bytes (X c))) ∧ same_geo s s').
Proof.
  intros V Hc Ho Hb. pose proof (csize_small s (vol_geo _ _ _ V)) as [_ Hcs].
  apply wp_check. eapply wp_mono; [apply (read_cluster_spec s (λ _, F) X c V Hc)|].
  intros ok s1 (-> & V1 & S1 & Eb). split; [done|]. apply wp_modify.
  set (s2 := s1 <| g_cluster_buf ::= _ |>).
  pose proof (vol_cluster_buf _ _ _ V1) as [Lb Bb].
  assert (vol_raw s2 (λ _, F) X) as V2.
  { apply vol_set_buf; [done| |by apply buf_store_bytes]. rewrite buf_store_length; lia. }
  eapply wp_mono; [apply (write_cluster_spec s2 _ X c V2); by eapply same_geo_valid|].
  intros ok s3 (-> & V3 & [S3 _]). split_and!; [done| |by trans s2].
  replace (buf_store off bytes (X c)) with (take (csize s2) (g_cluster_buf s2)); [done|].
  assert (csize s2 = csize s) as -> by (by apply same_geo_csize). rewrite <- Eb. simpl. unfold buf_store.
  rewrite take_app_ge by (rewrite length_take; lia). rewrite length_take.
  rewrite take_app_ge by lia. rewrite take_take.
  replace (off `min` csize s)%nat with off by lia.
  replace (off `min` length (g_cluster_buf s1))%nat with off by lia. do 2 f_equal.
  rewrite take_drop_commute. f_equal. f_equal. lia.
Qed.

Lemma write_dirent_spec s F X c i e :
  vol s F X → valid s c → (i < entries_per_cluster s)%nat → dirent_ok e →
  wp (write_dirent c i e) s
    (λ ok s', ok = true ∧ vol s' F (upd X c (put_dirent i e (X c))) ∧ same_geo s s').
Proof.
  intros V Hc Hi Ok. pose proof (csize_entries s (vol_geo _ _ _ V)) as Ec.
  pose proof (rewrite_cluster_spec s F X c (DIRENT_SIZE * i) (dirent_bytes e) V Hc) as W.
  rewrite dirent_bytes_length, Ec in W by done. unfold DIRENT_SIZE in W at 1 2.
  specialize (W ltac:(lia) (dirent_bytes_byte e Ok)).
  unfold write_dirent. destruct W as (a & s' & E & R). exists a, s'. split; [|done].
  unfold check, mbind, m_bind in *. destruct (read_cluster c s) as [[[] s1]|] eqn:Er; [|done..].
  unfold get. destruct (Nat.leb_spec (entries_per_cluster s1) i) as [Hle|]; [|done].
  destruct (read_cluster_spec s _ X c V Hc) as (? & ? & Er' & _ & _ & S1 & _). rewrite Er in Er'. simplify_eq.
  rewrite (same_geo_entries _ _ S1) in Hle. lia.
Qed.
End search.
End FatDir.
