(* ===== verification/FatSpec.v ===== *)
(** * FAT32: files

    What the operations on files do to the volume: allocation of a chain,
    writing and reading its data, [fat32_write_file] followed by
    [fat32_read_file], and removal.  The theorems hold for a device that works
    ([DiskLaws]) and a mounted volume whose directory chain ends. *)

From Stdlib Require Import Lia ZArith Bool.
From stdpp Require Import base list gmap numbers sets strings.
From S2P Require Import Prelude Disk Fat32 FatVolume FatDir.

Local Open Scope Z_scope.
Import Fat32 FatVolume FatDir.

Module FatSpec.

(** ** Counting free clusters *)

Definition free_list (m : Z) (F : Z → Z) : list Z := filter (λ k, F k = 0) (seqZ 2 (m - 1)).
Definition n_free (m : Z) (F : Z → Z) : nat := length (free_list m F).

Lemma elem_free m F k : k ∈ free_list m F ↔ F k = 0 ∧ 2 ≤ k ≤ m.
Proof. unfold free_list. rewrite list_elem_of_filter, elem_of_seqZ. lia. Qed.

(** When only the clusters of [l] are free, there are at most that many. *)
Lemma n_free_le m F l : (∀ k, 2 ≤ k ≤ m → F k = 0 → k ∈ l) → (n_free m F ≤ length l)%nat.
Proof.
  intros E. apply submseteq_length, NoDup_submseteq.
  - apply NoDup_filter, NoDup_seqZ.
  - intros k Hk. apply elem_free in Hk as []. auto.
Qed.

Section files.
Context {D : Type} {DE : DiskEnv D} {DL : DiskLaws D} {CE : ConsoleEnv D}.
Implicit Types (s : fat D) (F : Z → Z) (X : Z → list Z).

(** ** Allocation of a chain *)

(** [first] and [last] are the ends of the clusters [l] taken so far from the
    table [F0]; [F] is the table now. *)
Record taken (m : Z) (F0 F : Z → Z) (l : list Z) (first lst : Z) : Prop := {
  taken_chain : match l with [] => first = 0 ∧ lst = 0 | _ => chain m F first l ∧ last l = Some lst end;
  taken_new : Forall (λ k, F0 k = 0) l;
  taken_old k : k ∉ l → F k = F0 k;
}.

Lemma taken_snoc m F0 F l first lst k :
  2 ≤ m ≤ 0x0FFFFFF6 → taken m F0 F l first lst → 2 ≤ k ≤ m → F k = 0 →
  let F' := upd F k EOC in
  taken m F0 (if lst =? 0 then F' else upd F' lst k) (l ++ [k]) (if first =? 0 then k else first) k.
Proof.
  intros Hm [Tc Tn To] Hk Hz F'.
  assert (k ∉ l) as Hkl.
  { intros Hin. destruct l as [|x l]; [set_solver|]. destruct Tc as [C _].
    apply (chain_used m F first (x :: l) k); [lia|done..]. }
  assert (F0 k = 0) as Hz0 by (rewrite <- To by done; done).
  destruct l as [|x l].
  - destruct Tc as [-> ->]. simpl. constructor; [|by repeat constructor|].
    + split; [|done]. constructor; [done|]. unfold F'. rewrite upd_eq. unfold EOC. lia.
    + intros j Hj. unfold F'. rewrite upd_ne by set_solver. apply To. set_solver.
  - destruct Tc as [C Hl]. pose proof (chain_first _ _ _ _ C).
    assert (lst ∈ x :: l) as Hin by (by apply last_Some_elem_of).
    pose proof (chain_valid _ _ _ _ C) as Fv. rewrite Forall_forall in Fv. pose proof (Fv _ Hin) as Hlv.
    destruct (Z.eqb_spec lst 0); [simpl in Hlv; lia|]. destruct (Z.eqb_spec first 0); [lia|].
    constructor.
    + simpl app. split; [|by rewrite app_comm_cons, last_snoc].
      apply (chain_extend m F first (x :: l) k lst); done || lia.
    + apply Forall_app. split; [done|]. by repeat constructor.
    + intros j Hj. apply not_elem_of_app in Hj as [Hj Hjk]. unfold F'.
      rewrite !upd_ne by (intros ->; set_solver). by apply To.
Qed.

Lemma taken_free m F0 F l first lst : taken m F0 F l first lst → ∀ k, clear F l k = F0 k.
Proof.
  intros [_ Tn To] k. unfold clear. case_decide as Hk; [|auto].
  rewrite Forall_forall in Tn. symmetry. by apply Tn.
Qed.

(** [if (first) fat32_free_chain (first)] gives back what was taken. *)
Lemma release_spec {A} (r : A) s F0 F X l first lst :
  vol s F X → taken (g_max_cluster s) F0 F l first lst →
  wp (_ ← (if first =? 0 then mret true else fat32_free_chain first); mret r) s
    (λ r' s', r' = r ∧ vol s' F0 X ∧ same_geo s s').
Proof.
  intros V T. apply wp_bind. destruct l as [|x l].
  - destruct (taken_chain _ _ _ _ _ _ T) as [-> _]. simpl. apply wp_ret, wp_ret. split_and!; [done| |done].
    apply (vol_raw_ext s (λ _, F) _ X X); [|done..]. intros _ k _ _. apply (taken_old _ _ _ _ _ _ T). set_solver.
  - destruct (taken_chain _ _ _ _ _ _ T) as [C _]. pose proof (chain_first _ _ _ _ C).
    destruct (Z.eqb_spec first 0); [lia|].
    eapply wp_mono; [apply (free_chain_spec s F X first _ V C)|].
    intros ok s' (-> & V' & [S' _]). apply wp_ret. split_and!; [done| |done].
    apply (vol_raw_ext s' (λ _, clear F (x :: l)) _ X X); [|done..]. intros _ k _ _. by eapply taken_free.
Qed.

(** Either the chain gets its [n] clusters, taken from the free ones, or the
    table is restored because it has too few of them. *)
Lemma alloc_chain_spec n s F0 F X l first lst :
  vol s F X → taken (g_max_cluster s) F0 F l first lst →
  wp (alloc_chain n first lst) s (λ r s', same_geo s s' ∧ ∃ F' X', vol s' F' X' ∧
    (∀ k, F0 k ≠ 0 → X' k = X k) ∧
    match r with
    | Some first' => ∃ l' lst', taken (g_max_cluster s) F0 F' (l ++ l') first' lst' ∧ length l' = n
    | None => (∀ k, F' k = F0 k) ∧ (n_free (g_max_cluster s) F0 < length l + n)%nat
    end).
Proof.
  revert s F X l first lst. induction n as [|n IH]; intros s F X l first lst V T; cbn [alloc_chain].
  { apply wp_ret. split; [done|]. exists F, X. split_and!; [done..|]. exists [], lst. by rewrite app_nil_r. }
  apply wp_bind. eapply wp_mono; [apply (alloc_cluster_spec s F X V)|].
  intros [k|] s1 [S1 R].
  - destruct R as (Hk & Hz & _ & V1). assert (g_max_cluster s1 = g_max_cluster s) as Em by apply S1.
    pose proof (vol_geo _ _ _ V) as G.
    pose proof (taken_snoc _ F0 F l first lst k (geo_max s G) T Hk Hz) as T'. cbv zeta in T'.
    assert (∀ j, F0 j ≠ 0 → upd X k (zeros s) j = X j) as Hx.
    { intros j Hj. apply upd_ne. intros ->. destruct Hj. destruct (decide (k ∈ l)) as [Hkl|Hkl].
      - pose proof (taken_new _ _ _ _ _ _ T) as Tn. rewrite Forall_forall in Tn. auto.
      - by rewrite <- (taken_old _ _ _ _ _ _ T k Hkl). }
    apply wp_check.
    assert (wp (if lst =? 0 then mret true else fat32_set_entry lst k) s1 (λ ok s2, ok = true ∧ same_geo s1 s2 ∧
      vol s2 (if lst =? 0 then upd F k EOC else upd (upd F k EOC) lst k) (upd X k (zeros s)))) as W.
    { destruct (Z.eqb_spec lst 0); [by apply wp_ret|].
      assert (valid s1 lst) as Hlv.
      { destruct l as [|x l]; [by destruct (taken_chain _ _ _ _ _ _ T) as [_ ->]|].
        destruct (taken_chain _ _ _ _ _ _ T) as [C Hl]. apply chain_valid in C. rewrite Forall_forall in C.
        unfold valid. rewrite Em. apply (C lst). by apply last_Some_elem_of. }
      eapply wp_mono; [apply (set_entry_spec s1 _ _ lst k V1 Hlv); unfold valid in Hk; destruct G; lia|].
      intros ok s2 (-> & V2 & [S2 _]). done. }
    eapply wp_mono; [apply W|]. intros ok s2 (-> & S2 & V2). split; [done|].
    assert (same_geo s s2) as S by (by trans s1). assert (g_max_cluster s2 = g_max_cluster s) as Em2 by apply S.
    rewrite <- Em2 in T'.
    eapply wp_mono; [apply (IH s2 _ _ (l ++ [k]) _ k V2 T')|].
    intros r s3 (S3 & F' & X' & V3 & HX & R). split; [by trans s2|]. rewrite Em2 in R.
    exists F', X'. split_and!; [done|intros j Hj; rewrite HX by done; auto|].
    destruct r as [first'|].
    + destruct R as (l' & lst' & T3 & <-). exists (k :: l'), lst'. split; [|done]. by rewrite <- app_assoc in T3.
    + destruct R as [HF Hn]. split; [done|]. rewrite length_app in Hn. simpl in Hn. lia.
  - destruct R as [Hz V1]. assert (g_max_cluster s1 = g_max_cluster s) as Em by apply S1.
    rewrite <- Em in T. eapply wp_mono; [apply (release_spec None s1 F0 F X l first lst V1 T)|].
    intros r s2 (-> & V2 & S2). split; [by trans s1|]. exists F0, X. split_and!; try done.
    assert (n_free (g_max_cluster s) F0 ≤ length l)%nat; [|lia].
    apply n_free_le. intros k Hk Hk0. destruct (decide (k ∈ l)) as [|Hkl]; [done|].
    exfalso. apply (Hz k Hk). by rewrite (taken_old _ _ _ _ _ _ T k Hkl).
Qed.

(** ** The data of a chain *)

Definition contents X (l : list Z) : list Z := mjoin (X <$> l).

Lemma contents_ext X X' l : (∀ k, k ∈ l → X' k = X k) → contents X' l = contents X l.
Proof. intros E. unfold contents. f_equal. apply list_fmap_ext. intros i k Hk. apply E. by eapply list_elem_of_lookup_2. Qed.

(** The clusters that start with [c], none when [c] is not a cluster number. *)
Definition file_chain (m : Z) F (c : Z) (l : list Z) : Prop :=
  match l with [] => is_end_of_chain c || (c <? 2) = true | _ => chain m F c l end.

Lemma file_chain_next m F c l :
  chain m F c l → ∃ l', l = c :: l' ∧ file_chain m F (F c) l'.
Proof.
  inversion 1 as [? ? He|? l' ? He C]; subst.
  - exists []. split; [done|]. simpl. unfold is_end_of_chain. by destruct (Z.geb_spec (F c) 0xFFFFFF8); [|lia].
  - exists l'. split; [done|]. destruct (chain_head _ _ _ _ C) as [? ->]. done.
Qed.

(** One round of writing: the chunk, padded with zeros, is the new cluster. *)
Lemma fill_cluster_spec s F X c chunk :
  vol s F X → valid s c → (length chunk ≤ csize s)%nat → Forall is_byte chunk →
  wp (_ ← modify (λ s, s <| g_cluster_buf ::= λ buf, buf_fill chunk (buf_set 0 (cluster_bytes s) buf) |>);
      write_cluster c) s
    (λ ok s', ok = true ∧ same_geo s s' ∧
       vol s' F (upd X c (chunk ++ replicate (csize s - length chunk) 0))).
Proof.
  intros V Hc Hl Hb. pose proof (csize_small s (vol_geo _ _ _ V)) as [_ Hcs].
  pose proof (vol_cluster_buf _ _ _ V) as [Lb Bb]. apply wp_modify.
  set (f := λ buf, buf_fill chunk (buf_set 0 (cluster_bytes s) buf)).
  set (s1 := s <| g_cluster_buf ::= f |>).
  assert (f (g_cluster_buf s) = chunk ++ replicate (csize s - length chunk) 0 ++ drop (csize s) (g_cluster_buf s)) as Eb.
  { unfold f. rewrite (buf_set_zero s _ X V). unfold buf_fill, zeros. f_equal.
    rewrite drop_app_le by (rewrite length_replicate; lia). by rewrite drop_replicate. }
  assert (vol_raw s1 (λ _, F) X) as V1.
  { apply vol_set_buf; [done|..]; rewrite Eb.
    - rewrite !length_app, length_replicate, length_drop. lia.
    - rewrite !Forall_app. split_and!; [done|apply Forall_replicate; unfold is_byte; lia|by apply Forall_drop]. }
  eapply wp_mono; [apply (write_cluster_spec s1 _ X c V1 Hc)|].
  intros ok s2 (-> & V2 & [S2 _]). split_and!; [done..|].
  replace (chunk ++ _) with (take (csize s1) (g_cluster_buf s1)); [done|].
  change (g_cluster_buf s1) with (f (g_cluster_buf s)).
  rewrite Eb, app_assoc. apply take_app_length'. rewrite length_app, length_replicate.
  assert (csize s1 = csize s) as -> by done. lia.
Qed.

Lemma write_data_spec rounds s F X first c l src :
  vol s F X → chain (g_max_cluster s) F c l → (length l ≤ rounds)%nat → Forall is_byte src →
  ((length l - 1) * csize s < length src ≤ length l * csize s)%nat →
  wp (write_data rounds first c src) s (λ ok s', ok = true ∧ same_geo s s' ∧ ∃ X', vol s' F X' ∧
    (∀ k, k ∉ l → X' k = X k) ∧ take (length src) (contents X' l) = src).
Proof.
  revert s X c l src. induction rounds as [|rounds IH]; intros s X c l src V C Hr Hb Hlen.
  { destruct (chain_head _ _ _ _ C) as [? ->]. simpl in Hr. lia. }
  pose proof (csize_small s (vol_geo _ _ _ V)) as [Hcs0 _]. pose proof (chain_first _ _ _ _ C) as Hv.
  pose proof (chain_NoDup _ _ _ _ C) as N.
  destruct src as [|b src']; [exfalso; destruct Hlen as [Hlt _]; by apply Nat.nlt_0_r in Hlt|]. cbn [write_data].
  remember (b :: src') as src eqn:Hsrc. apply wp_get; cbv beta.
  assert (Z.to_nat (cluster_bytes s) = csize s) as Ecs by (rewrite cluster_bytes_eq by apply V; done).
  rewrite Ecs. set (chunk := take (csize s) src). set (rest := drop (csize s) src).
  assert (chunk ++ rest = src) as Esrc by apply take_drop.
  assert (length chunk = csize s `min` length src)%nat as Lc by apply length_take.
  assert (length rest = length src - csize s)%nat as Lr by apply length_drop.
  assert (Forall is_byte chunk ∧ Forall is_byte rest) as [Hbc Hbr] by (split; [by apply Forall_take|by apply Forall_drop]).
  apply wp_modify_check. eapply wp_mono; [apply (fill_cluster_spec s F X c chunk V Hv ltac:(lia) Hbc)|].
  intros ok s1 (-> & S1 & V1). split; [done|].
  destruct (file_chain_next _ _ _ _ C) as (l' & -> & C'). apply NoDup_cons in N as [Nc N].
  destruct rest as [|b' rest'] eqn:Hrest.
  - simpl in Lr. assert (l' = []) as ->.
    { destruct l' as [|? l']; [done|]. simpl in Hlen. nia. }
    apply wp_ret. split_and!; [done|done|]. eexists. split_and!; [exact V1|intros k Hk; apply upd_ne; set_solver|].
    unfold contents. simpl. rewrite app_nil_r, upd_eq. rewrite app_nil_r in Esrc. rewrite Esrc. by rewrite take_app_length.
  - rewrite <- Hrest in *. assert (length rest ≠ 0%nat) as Hne by (by rewrite Hrest).
    destruct l' as [|c' l']; [simpl in Hlen; nia|]. simpl in C'.
    apply wp_bind. eapply wp_mono; [apply (read_entry_spec s1 _ _ c V1); by eapply same_geo_valid|].
    intros r s2 (-> & V2 & [S2 _]). pose proof (chain_first _ _ _ _ C').
    assert (same_geo s s2) as S by (by trans s1). assert (g_max_cluster s2 = g_max_cluster s) as Em by apply S.
    pose proof (geo_max s (vol_geo _ _ _ V)). unfold is_end_of_chain. destruct (Z.geb_spec (F c) 0xFFFFFF8); [lia|].
    eapply wp_mono; [apply (IH s2 _ (F c) (c' :: l') rest V2)|].
    + by rewrite Em.
    + simpl in *. lia.
    + done.
    + rewrite (same_geo_csize s s2 S). simpl in *. nia.
    + intros ok s3 (-> & S3 & X' & V3 & HX & Ht). split_and!; [done|by trans s2|].
      exists X'. split_and!; [done| |].
      * intros k Hk. rewrite HX by set_solver. apply upd_ne. set_solver.
      * change (contents X' (c :: c' :: l')) with (X' c ++ contents X' (c' :: l')).
        rewrite HX, upd_eq by done. rewrite Lc in *.
        replace (csize s - csize s `min` length src)%nat with 0%nat by lia.
        simpl replicate. rewrite app_nil_r, take_app_ge by lia.
        replace (length src - length chunk)%nat with (length rest) by lia. by rewrite Ht.
Qed.

(** Reading a chain: at most [remaining] bytes of it, at most what fits. *)
Lemma read_walk_spec fuel s F X c l remaining buf_size out :
  vol s F X → file_chain (g_max_cluster s) F c l → (length l < fuel)%nat →
  0 ≤ remaining → buf_size ≤ 2 ^ 31 →
  wp (read_walk fuel c remaining buf_size out) s (λ r s',
    r = out ++ take (Z.to_nat (remaining `min` (buf_size - Z.of_nat (length out)))) (contents X l) ∧
    vol s' F X ∧ same_geo s s').
Proof.
  revert s c l remaining out. induction fuel as [|fuel IH]; intros s c l remaining out V C Hl Hr Hbs; [lia|].
  cbn [read_walk]. destruct l as [|x l].
  { unfold file_chain in C. rewrite C. simpl orb. apply wp_ret. split_and!; [|done..].
    unfold contents. simpl. by rewrite take_nil, app_nil_r. }
  simpl in C. pose proof (chain_first _ _ _ _ C) as Hv.
  destruct (file_chain_next _ _ _ _ C) as (l' & El & C'). simplify_eq.
  rewrite (not_end c _ Hv) by (destruct (vol_geo _ _ _ V); lia). simpl orb.
  destruct (Z.leb_spec remaining 0) as [Hz|Hz].
  { simpl orb. apply wp_ret. split_and!; [|done..].
    replace (Z.to_nat _) with 0%nat by lia. by rewrite take_0, app_nil_r. }
  destruct (Z.leb_spec buf_size (Z.of_nat (length out))) as [Hb|Hb]; simpl orb.
  { apply wp_ret. split_and!; [|done..]. replace (Z.to_nat _) with 0%nat by lia. by rewrite take_0, app_nil_r. }
  apply wp_check. eapply wp_mono; [apply (read_cluster_spec s _ X c V Hv)|].
  intros ok s1 (-> & V1 & S1 & Eb). split; [done|]. apply wp_get; cbv beta zeta.
  pose proof (csize_small s (vol_geo _ _ _ V)) as [_ Hcs].
  assert (cluster_bytes s1 = Z.of_nat (csize s)) as Ecs.
  { rewrite cluster_bytes_eq by apply V1. rewrite <- (same_geo_csize s s1 S1). unfold csize.
    destruct (vol_geo _ _ _ V1). lia. }
  rewrite Ecs. set (ch := if u32 _ >? _ then _ else _).
  assert (ch = (Z.of_nat (csize s) `min` remaining) `min` (buf_size - Z.of_nat (length out))) as Ech.
  { unfold ch. destruct (Z.gtb_spec (Z.of_nat (csize s)) remaining); rewrite u32_small by lia;
      match goal with |- context [?a >? buf_size] => destruct (Z.gtb_spec a buf_size) end; lia. }
  clearbody ch. assert (take (Z.to_nat ch) (g_cluster_buf s1) = take (Z.to_nat ch) (X c)) as Et.
  { rewrite <- Eb, take_take. f_equal. lia. }
  pose proof (vol_data_length _ _ _ c V Hv) as Lx. fold (csize s) in Lx.
  apply wp_bind. eapply wp_mono; [apply (get_next_cluster_spec s1 _ X c V1); by eapply same_geo_valid|].
  intros next s2 (-> & V2 & [S2 _]). assert (same_geo s s2) as S by (by trans s1).
  assert (g_max_cluster s2 = g_max_cluster s) as Em by apply S.
  rewrite Et. simpl in Hl.
  eapply wp_mono; [apply (IH s2 (F c) l' (remaining - ch) (out ++ take (Z.to_nat ch) (X c)) V2)|].
  - by rewrite Em.
  - lia.
  - lia.
  - done.
  - intros r s3 (-> & V3 & S3). split_and!; [|done|by trans s2].
    rewrite <- app_assoc. f_equal. change (contents X (c :: l')) with (X c ++ contents X l').
    rewrite length_app, length_take.
    destruct (Z.le_gt_cases (Z.of_nat (csize s)) (remaining `min` (buf_size - Z.of_nat (length out)))) as [Hbig|Hsmall].
    + rewrite (take_ge (X c)) by lia. rewrite take_app_ge by lia. do 2 f_equal. lia.
    + rewrite take_app_le by lia. replace (Z.to_nat (_ `min` (buf_size - Z.of_nat (length out + _)))) with 0%nat by lia.
      rewrite take_0, app_nil_r. f_equal. lia.
Qed.

(** ** The slot of the new entry *)

(** The entry [nm] of the directory is replaced, or a slot is found for it;
    storing a visible entry of that name there makes it the one a search finds
    and hides no other. *)
Lemma choose_slot_spec fuel s F X lr nm :
  vol s F X → chain (g_max_cluster s) F (g_root_cluster s) lr → (length lr < fuel)%nat →
  (∃ k, valid s k ∧ F k = 0) →
  let n := entries_per_cluster s in
  wp (choose_slot fuel (bool_decide (is_Some (dir_find n X lr nm))) (g_root_cluster s) nm) s
    (λ r s', same_geo s s' ∧ ∃ c i F' X' lr', r = Some (c, i) ∧ vol s' F' X' ∧ c ∈ lr' ∧ (i < n)%nat ∧
      chain (g_max_cluster s) F' (g_root_cluster s) lr' ∧
      (∀ k, k ∈ lr' → k ∈ lr ∨ F k = 0) ∧ (∀ k, k ∉ lr' → F' k = F k ∧ X' k = X k) ∧
      ∀ e, dirent_ok e → visible e → name e = nm →
        let X'' := upd X' c (put_dirent i e (X' c)) in
        dir_find n X'' lr' nm = Some (c, i, e) ∧
        ∀ nm' r', nm' ≠ nm → dir_find n X lr nm' = Some r' → dir_find n X'' lr' nm' = Some r').
Proof.
  intros V C Hl [k0 Hk0] n. unfold choose_slot.
  pose proof (vol_geo _ _ _ V) as G. pose proof (csize_entries s G) as Ecs. fold n in Ecs.
  pose proof (chain_NoDup _ _ _ _ C) as N. pose proof (chain_valid _ _ _ _ C) as Fv. rewrite Forall_forall in Fv.
  assert (∀ k, valid s k → length (X k) = (32 * n)%nat) as Lx.
  { intros k Hk. rewrite (vol_data_length _ _ _ k V Hk). fold (csize s). done. }
  destruct (dir_find n X lr nm) as [[[c i] o]|] eqn:Ef.
  - rewrite bool_decide_true by done. apply wp_bind.
    eapply wp_mono; [apply (find_entry_location_spec fuel s F X _ lr nm V C Hl)|].
    intros r s1 (-> & V1 & S1). fold n. rewrite Ef. apply wp_ret. split; [done|].
    pose proof (dir_find_found _ _ _ _ _ _ _ Ef) as (Hc & Hi & Eo & Ho & Hn).
    exists c, i, F, X, lr. split_and!; try done; [by intros; left|]. intros e Ok Hv Hnm. split.
    + apply (dir_find_replace n X lr nm c i o e); try done. intros k Hk. rewrite Lx by (by apply Fv). lia.
    + intros nm' r' Hne Hf. apply dir_find_other; try done; [|congruence|rewrite Lx by (by apply Fv); lia].
      intros Er. destruct r' as [[c' i'] o']. simpl in Er. simplify_eq.
      apply dir_find_found in Hf as (_ & _ & Eo & _ & Hn). congruence.
  - rewrite bool_decide_false by (by intros []).
    eapply wp_mono; [apply (find_free_dir_slot_spec s F X _ lr V C)|].
    intros r s1 [S1 R]. fold n in R. split; [done|]. destruct (dir_slot n X lr) as [[c i]|] eqn:Es.
    + destruct R as [-> V1]. pose proof (dir_slot_in _ _ _ _ _ Es) as [Hc Hi].
      exists c, i, F, X, lr. split_and!; try done; [by intros; left|]. intros e Ok Hv Hnm. split.
      * apply dir_find_insert; try done. intros k Hk. rewrite Lx by (by apply Fv). lia.
      * intros nm' r' Hne Hf. apply dir_find_other; try done; [|congruence|rewrite Lx by (by apply Fv); lia].
        intros Er. destruct r' as [[c' i'] o']. simpl in Er. simplify_eq.
        apply dir_find_found in Hf as (_ & _ & Eo & Ho & _). apply visible_not_free in Ho as [].
        apply dir_slot_free in Es as []; congruence.
    + destruct r as [[k i]|]; [|destruct R as [Hz _]; exfalso; destruct Hk0 as [Hkv Hkz]; by apply (Hz k0)].
      destruct R as (-> & Hk & Hz & z & Hlast & V1).
      assert (k ∉ lr) as Hkl.
      { intros Hin. pose proof (geo_max s G). apply (chain_used (g_max_cluster s) F (g_root_cluster s) lr k); [lia|done..]. }
      assert (z ∈ lr) as Hzl by (by apply last_Some_elem_of).
      exists k, 0%nat, (upd (upd F k EOC) z k), (upd X k (zeros s)), (lr ++ [k]).
      split_and!; try done.
      * set_solver.
      * unfold n. rewrite entries_eq by done. destruct G. lia.
      * apply chain_extend; try done. destruct G. lia.
      * intros j [Hj| ->%list_elem_of_singleton]%elem_of_app; auto.
      * intros j Hj. apply not_elem_of_app in Hj as [Hj Hjk]. by rewrite !upd_ne by (intros ->; set_solver).
      * intros e Ok Hv Hnm. rewrite upd_eq.
        assert (∀ nm', dir_find n (upd (upd X k (zeros s)) k (put_dirent 0 e (zeros s))) lr nm' =
          dir_find n X lr nm') as Eold.
        { intros nm'. apply dir_find_ext. intros j Hj. by rewrite !upd_ne by (intros ->; done). }
        split; [|intros nm' r' Hne Hf; apply dir_find_app; by rewrite Eold].
        rewrite dir_find_append; [| |by rewrite Eold].
        { simpl. rewrite upd_eq. unfold zeros. rewrite Ecs, find_in_zeros; try done.
          unfold n. rewrite entries_eq by done. destruct G. lia. }
        rewrite <- Es. clear -Hkl. induction lr as [|x lr IH]; simpl; [done|].
        rewrite !upd_ne by (intros ->; set_solver). rewrite IH by set_solver. done.
Qed.

(** ** Names *)

(** The bytes of a C string. *)
Definition cstr_ok (str : cstr) : Prop := Forall (λ b, 0 < b < 256) str.

Lemma until_take stop l : take (length (until stop l)) l = until stop l.
Proof. induction l as [|x l IH]; simpl; [done|]. case_match; simpl; [done|]. by rewrite IH. Qed.

Lemma until_rest stop l : drop (length (until stop l)) l = [] ∨ ∃ rest, drop (length (until stop l)) l = stop :: rest.
Proof.
  induction l as [|x l IH]; simpl; [by left|]. destruct (Z.eqb_spec x stop) as [->|]; simpl; [|done]. right. eauto.
Qed.

(** A name the writable part accepts is the name the search looks for. *)
Lemma short_name_agrees comp nm : make_component_name comp = Some nm → to_short_name comp = nm.
Proof.
  unfold make_component_name, to_short_name. destruct comp as [|c0 comp]; [done|].
  set (full := c0 :: comp). set (stem := until dot full).
  destruct (_ || _); [done|]. case_bool_decide; [done|]. case_bool_decide; [done|].
  destruct (12 <? length full)%nat; [done|].
  destruct ((length stem <? 1)%nat) eqn:E1; [done|]. destruct ((8 <? length stem)%nat) eqn:E8; [done|].
  destruct ((3 <? _)%nat) eqn:E3; [done|]. simpl. intros [= <-].
  apply Nat.ltb_ge in E8, E3. rewrite (take_ge stem) by lia. f_equal.
  assert (drop (S (length stem)) full = drop 1 (drop (length stem) full)) as Ed
    by (rewrite drop_drop; f_equal; lia).
  change (drop (length stem) comp) with (drop (S (length stem)) full). rewrite Ed in *.
  destruct (until_rest dot full) as [E|[rest E]]; fold stem in E; rewrite E in *; [done|].
  simpl in *. rewrite drop_0 in *. by rewrite take_ge by lia.
Qed.

Lemma upcase_byte b : 0 < b < 256 → is_byte (upcase b) ∧ upcase b ≠ 0 ∧ (upcase b = 0xE5 → b = 0xE5).
Proof. unfold upcase, is_byte. destruct (Z.leb_spec 97 b), (Z.leb_spec b 122); simpl; lia. Qed.

Lemma pad_length n l : (length l ≤ n)%nat → length (pad n l) = n.
Proof. intros. unfold pad. rewrite length_app, length_replicate. lia. Qed.

Lemma pad_bytes n l : Forall (λ b, 0 < b < 256) l → Forall is_byte (pad n (upcase <$> l)).
Proof.
  intros Fl. apply Forall_app. split; [|apply Forall_replicate; unfold is_byte, space; lia].
  apply Forall_fmap. eapply Forall_impl; [done|]. intros b Hb. by apply upcase_byte.
Qed.

Lemma component_name_ok comp nm :
  make_component_name comp = Some nm → cstr_ok comp → head comp ≠ Some 0xE5 →
  length nm = 11%nat ∧ Forall is_byte nm ∧ byte_at nm 0 ≠ 0 ∧ byte_at nm 0 ≠ 0xE5.
Proof.
  unfold make_component_name. destruct comp as [|c0 comp]; [done|].
  set (full := c0 :: comp). set (stem := until dot full).
  destruct ((c0 =? dot) || (c0 =? space)) eqn:E0; [done|]. apply orb_false_iff in E0 as [E0 _].
  case_bool_decide; [done|]. case_bool_decide; [done|].
  destruct (12 <? length full)%nat; [done|].
  destruct ((length stem <? 1)%nat) eqn:E1; [done|]. destruct ((8 <? length stem)%nat) eqn:E8; [done|].
  destruct ((3 <? _)%nat) eqn:E3; [done|]. simpl. intros [= <-] Hb Hne. apply Nat.ltb_ge in E8, E3.
  assert (Forall (λ b, 0 < b < 256) stem) as Hs.
  { unfold stem. rewrite <- until_take. by apply Forall_take. }
  split_and!.
  - change (drop (S (length stem)) full) with (drop (length stem) comp) in E3.
    rewrite length_app, !pad_length by (rewrite length_fmap; lia). reflexivity.
  - apply Forall_app. split; apply pad_bytes; [done|]. by apply (Forall_drop _ (S (length stem)) full).
  - unfold stem, full. simpl. rewrite E0. unfold byte_at. simpl.
    apply Forall_cons in Hb as [Hb _]. by apply upcase_byte.
  - unfold stem, full. simpl. rewrite E0. unfold byte_at. simpl.
    apply Forall_cons in Hb as [Hb _]. intros E. apply upcase_byte in E; [|done]. simpl in Hne. congruence.
Qed.

Lemma component_shape comp nm :
  make_component_name comp = Some nm → (comp ≠ []) ∧ (slash ∉ comp) ∧ (length comp ≤ 12)%nat.
Proof.
  unfold make_component_name. destruct comp as [|c0 comp]; [done|]. destruct (_ || _); [done|].
  case_bool_decide; [done|]. case_bool_decide; [done|].
  destruct (12 <? length (c0 :: comp))%nat eqn:E; [done|]. apply Nat.ltb_ge in E. done.
Qed.

Lemma until_none stop l : stop ∉ l → until stop l = l.
Proof.
  induction l as [|x l IH]; intros Hn; simpl; [done|]. destruct (Z.eqb_spec x stop) as [->|]; [set_solver|].
  by rewrite IH by set_solver.
Qed.

(** The path of an entry of the root directory. *)
Definition root_path (comp : cstr) : cstr := slash :: comp.

Lemma split_root_path comp nm :
  make_component_name comp = Some nm → split_path (Some (root_path comp)) = Some ([slash], comp).
Proof.
  intros Hc. destruct (component_shape _ _ Hc) as (Hne & Hs & Hl). unfold split_path, root_path.
  rewrite Z.eqb_refl. cbn [negb].
  assert (∀ i, (i < length comp)%nat → comp !! i ≠ Some slash) as Hi.
  { intros i _ E. apply Hs. by eapply list_elem_of_lookup_2. }
  assert (strip_len (slash :: comp) (length (slash :: comp)) = length (slash :: comp)) as ->.
  { destruct comp as [|c comp]; [done|]. cbn [length strip_len].
    rewrite bool_decide_false; [done|]. apply (Hi (length comp)). simpl. lia. }
  assert (∀ n, (n ≤ length comp)%nat → last_slash (slash :: comp) (S n) = Some 0%nat) as Hsl.
  { induction n as [|n IH]; intros Hn; [done|].
    change (last_slash (slash :: comp) (S (S n))) with
      (if bool_decide ((slash :: comp) !! S n = Some slash) then Some (S n) else last_slash (slash :: comp) (S n)).
    rewrite bool_decide_false; [apply IH; lia|]. apply (Hi n). lia. }
  change (length (slash :: comp)) with (S (length comp)). rewrite (Hsl (length comp)) by lia.
  assert (1 ≤ length comp)%nat by (destruct comp; [done|simpl; lia]).
  replace (1 =? S (length comp))%nat with false by (symmetry; apply Nat.eqb_neq; lia).
  replace (S (length comp) - 0 - 1)%nat with (length comp) by lia.
  replace (length comp =? 0)%nat with false by (symmetry; apply Nat.eqb_neq; lia).
  replace (13 <=? length comp)%nat with false by (symmetry; apply Nat.leb_gt; lia).
  change (drop 1 (slash :: comp)) with comp. by rewrite (take_ge comp) by lia.
Qed.

Lemma dirent_cluster_set c e : 0 ≤ c < 2 ^ 32 → dirent_cluster (set_dirent_cluster c e) = c.
Proof.
  intros Hc. unfold dirent_cluster, set_dirent_cluster. simpl.
  change 0xFFFF with (2 ^ 16 - 1). rewrite land_low_mask, Z.shiftr_div_pow2 by lia. unfold u16.
  rewrite (Z.mod_small (c / 2 ^ 16)) by (split; [apply Z.div_pos|apply Z.div_lt_upper_bound]; lia).
  rewrite Z.mod_mod by lia. rewrite Z.lor_comm, lor_shiftl_add by (lia || apply Z.mod_pos_bound; lia).
  pose proof (Z.div_mod c (2 ^ 16)). lia.
Qed.

Lemma directory_of_root s T X : vol_raw s T X → directory_cluster (root_entry s) s = g_root_cluster s.
Proof.
  intros V. pose proof (vol_geo _ _ _ V) as G. destruct G. unfold directory_cluster, root_entry.
  rewrite dirent_cluster_set by lia. by destruct (Z.eqb_spec (g_root_cluster s) 0); [lia|].
Qed.

Lemma resolve_parent_root fuel s T X comp nm :
  vol_raw s T X → make_component_name comp = Some nm →
  wp (resolve_parent fuel (Some (root_path comp))) s (λ r s', r = Some (g_root_cluster s, nm) ∧ s' = s).
Proof.
  intros V Hc. unfold resolve_parent. rewrite (split_root_path _ _ Hc). apply wp_bind.
  apply wp_get, wp_ret. change (has_bits (attr (root_entry s)) ATTR_DIRECTORY) with true. simpl negb.
  apply wp_get, wp_ret. rewrite (directory_of_root s T X V), Hc. done.
Qed.

Lemma resolve_path_root fuel s F X comp nm lr :
  vol s F X → chain (g_max_cluster s) F (g_root_cluster s) lr → (length lr < fuel)%nat →
  make_component_name comp = Some nm →
  wp (resolve_path fuel (root_path comp)) s (λ r s',
    r = snd <$> dir_find (entries_per_cluster s) X lr nm ∧ vol s' F X ∧ same_geo s s').
Proof.
  intros V C Hl Hc. destruct (component_shape _ _ Hc) as (Hne & Hs & Hlen). apply wp_get.
  unfold root_path. rewrite Z.eqb_refl. destruct comp as [|c comp]; [done|].
  cbn [length]. cbn [resolve_walk]. unfold next_component. rewrite until_none, take_ge by done.
  rewrite drop_all. simpl skip_slashes. apply wp_bind.
  rewrite (short_name_agrees _ _ Hc).
  eapply wp_mono; [apply (find_entry_spec fuel s F X _ lr nm V C Hl)|].
  intros r s' (-> & V' & S'). by destruct (snd <$> _); apply wp_ret.
Qed.

(** ** Files of the root directory *)

Definition is_file (e : fat32_dirent_t) : Prop := has_bits (attr e) ATTR_DIRECTORY = false.

(** The root directory, with the clusters [lr], has a file [nm] with contents
    [data]. *)
Definition holds_file (m : Z) (n : nat) F X lr nm (data : list Z) : Prop :=
  ∃ c i e lf, dir_find n X lr nm = Some (c, i, e) ∧ is_file e ∧ file_size e = Z.of_nat (length data) ∧
    file_chain m F (dirent_cluster e) lf ∧ take (length data) (contents X lf) = data.

Lemma file_chain_length m F c l : 2 ≤ m → file_chain m F c l → Z.of_nat (length l) ≤ m - 1.
Proof. intros Hm. destruct l; [simpl; lia|]. apply chain_length. Qed.

(** [fat32_read_file] gives the contents, or as much of them as the buffer
    takes. *)
Lemma read_file_spec fuel s F X lr comp nm data buf_size :
  vol s F X → chain (g_max_cluster s) F (g_root_cluster s) lr → g_max_cluster s ≤ Z.of_nat fuel →
  make_component_name comp = Some nm → buf_size ≤ 2 ^ 31 →
  holds_file (g_max_cluster s) (entries_per_cluster s) F X lr nm data →
  wp (fat32_read_file fuel (root_path comp) buf_size) s (λ r s',
    r = Some (take (Z.to_nat buf_size) data) ∧ vol s' F X ∧ same_geo s s').
Proof.
  intros V C Hf Hc Hb (c & i & e & lf & Ef & Hfile & Hsz & Clf & Hd).
  pose proof (chain_length _ _ _ _ C). apply wp_get. rewrite (vol_mounted _ _ _ V). simpl negb.
  apply wp_bind. eapply wp_mono; [apply (resolve_path_root fuel s F X comp nm lr V C); [lia|done]|].
  intros r s1 (-> & V1 & S1). rewrite Ef. simpl. rewrite Hfile.
  assert (g_max_cluster s1 = g_max_cluster s) as Em by apply S1.
  pose proof (geo_max s (vol_geo _ _ _ V)).
  pose proof (file_chain_length (g_max_cluster s) _ _ _ ltac:(lia) Clf).
  apply wp_bind. eapply wp_mono; [apply (read_walk_spec fuel s1 F X _ lf _ _ [] V1)|].
  - by rewrite Em.
  - lia.
  - lia.
  - done.
  - intros out s2 (-> & V2 & S2). apply wp_ret. split_and!; [|done|by trans s1]. f_equal. simpl.
    rewrite Hsz, Z.sub_0_r, <- (f_equal (take (Z.to_nat buf_size)) Hd), take_take. f_equal. lia.
Qed.

(** The entry that is written. *)
Lemma file_entry_ok comp nm first size :
  make_component_name comp = Some nm → cstr_ok comp → head comp ≠ Some 0xE5 →
  0 ≤ first < 2 ^ 32 → 0 ≤ size < 2 ^ 32 →
  let e := file_entry nm first size in
  dirent_ok e ∧ visible e ∧ name e = nm ∧ is_file e ∧ file_size e = size ∧ dirent_cluster e = first.
Proof.
  intros Hc Hb Hne Hf Hs. destruct (component_name_ok _ _ Hc Hb Hne) as (Ln & Bn & N0 & NE).
  assert (∀ v, is_u16 (u16 v)) as H16 by (intros v; unfold is_u16, u16; apply Z.mod_pos_bound; lia).
  split_and!; try done.
  - constructor; simpl; try done; unfold is_byte, is_u16; lia.
  - split; [done|]. unfold skipped, first_byte. simpl.
    destruct (Z.eqb_spec (byte_at nm 0) 229); [done|]. done.
  - by apply (dirent_cluster_set first (zero_dirent <| name := nm |> <| attr := 0x20 |>)).
Qed.

(** The chain [lo] of the file that is replaced: empty when there is none. *)
Definition replaced (m : Z) (n : nat) F X lr nm (lo : list Z) : Prop :=
  match dir_find n X lr nm with
  | None => lo = []
  | Some (_, _, o) => is_file o ∧ file_chain m F (dirent_cluster o) lo ∧ (∀ k, k ∈ lo → k ∉ lr)
  end.

Lemma file_chain_used m F c l k : 2 ≤ m → file_chain m F c l → k ∈ l → F k ≠ 0.
Proof. intros Hm C Hk. destruct l; [set_solver|]. apply (chain_used m F c (z :: l) k); [lia|done..]. Qed.

Lemma file_chain_ext m F F' c l : (∀ k, k ∈ l → F' k = F k) → file_chain m F c l → file_chain m F' c l.
Proof. intros E. destruct l; [done|]. by apply chain_ext. Qed.

Lemma free_old_spec s F X c l :
  vol s F X → file_chain (g_max_cluster s) F c l →
  wp (if c >=? 2 then fat32_free_chain c else mret true) s
    (λ _ s', same_geo s s' ∧ vol s' (clear F l) X).
Proof.
  intros V C. assert (clear F [] = F) as E0 by done. destruct l as [|x l].
  - simpl in C. unfold is_end_of_chain in C. pose proof (geo_max s (vol_geo _ _ _ V)).
    destruct (Z.geb_spec c 2); [|by apply wp_ret].
    destruct (Z.ltb_spec c 2); [lia|]. destruct (Z.geb_spec c 0xFFFFFF8); [|done].
    apply wp_get. unfold guard_rounds. destruct (Z.to_nat (g_max_cluster s + 1)) as [|k] eqn:Ek; [lia|].
    cbn [free_loop]. apply wp_get; cbv beta. destruct (Z.gtb_spec c (g_max_cluster s)); [|lia].
    rewrite orb_true_r. by apply wp_ret.
  - simpl in C. pose proof (chain_first _ _ _ _ C). destruct (Z.geb_spec c 2); [|lia].
    eapply wp_mono; [apply (free_chain_spec s F X c _ V C)|]. by intros ok s' (_ & ? & ? & _).
Qed.

(** Clusters for a file of [len] bytes. *)
Definition clusters_for s (len : nat) : nat :=
  Z.to_nat (if Z.of_nat len =? 0 then 0 else u32 (Z.of_nat len + cluster_bytes s - 1) / cluster_bytes s).

Lemma clusters_for_bounds s len :
  geometry s → Z.of_nat len ≤ MAX_FILE →
  let n := clusters_for s len in
  (len = 0 ∧ n = 0 ∨ 0 < len ∧ 0 < n ∧ (n - 1) * csize s < len ≤ n * csize s)%nat.
Proof.
  intros G Hl n. unfold MAX_FILE in Hl. unfold n, clusters_for.
  assert (cluster_bytes s = Z.of_nat (csize s)) as -> by (rewrite cluster_bytes_eq by done; unfold csize; destruct G; lia).
  pose proof (csize_small s G). set (b := csize s) in *.
  destruct (Z.eqb_spec (Z.of_nat len) 0); [left; lia|right].
  rewrite u32_small by lia. set (q := (Z.of_nat len + Z.of_nat b - 1) / Z.of_nat b).
  pose proof (Z.div_mod (Z.of_nat len + Z.of_nat b - 1) (Z.of_nat b) ltac:(lia)) as E. fold q in E.
  pose proof (Z.mod_pos_bound (Z.of_nat len + Z.of_nat b - 1) (Z.of_nat b) ltac:(lia)).
  assert (1 ≤ q) by nia. split_and!; nia.
Qed.

(** The data stage: after the chain [lf] has been taken, it receives the data. *)
Lemma data_stage s F0 F X lf first lst data :
  vol s F X → taken (g_max_cluster s) F0 F lf first lst → Forall is_byte data →
  Z.of_nat (length data) ≤ MAX_FILE → length lf = clusters_for s (length data) →
  wp (write_data (clusters_for s (length data)) first first data) s (λ ok s', ok = true ∧ same_geo s s' ∧
    ∃ X', vol s' F X' ∧ (∀ k, k ∉ lf → X' k = X k) ∧ take (length data) (contents X' lf) = data).
Proof.
  intros V T Hb Hmax Hlf. pose proof (clusters_for_bounds s (length data) (vol_geo _ _ _ V) Hmax) as Hn.
  cbv zeta in Hn. rewrite <- Hlf in *. destruct Hn as [[Hz _]|(Hpos & Hn & Hlen)].
  - destruct data; [|done]. destruct (length lf); apply wp_ret; (split_and!; [done..|]); by exists X.
  - destruct lf as [|x lf]; [simpl in Hn; lia|]. destruct (taken_chain _ _ _ _ _ _ T) as [C _].
    by apply (write_data_spec (length (x :: lf)) s F X first first (x :: lf) data V C).
Qed.

Lemma same_geo_clusters s s' len : same_geo s s' → clusters_for s' len = clusters_for s len.
Proof. intros (E1 & E2 & _). unfold clusters_for, cluster_bytes. by rewrite E1, E2. Qed.

(** The table and the contents after the new data has been stored: [lf] are
    the clusters of the data, everything in use before is unchanged. *)
Record data_stored (m : Z) F X (first : Z) (lf data : list Z) (F1 : Z → Z) (X1 : Z → list Z) : Prop := {
  ds_taken : ∃ lst, taken m F F1 lf first lst;
  ds_old k : F k ≠ 0 → X1 k = X k;
  ds_data : take (length data) (contents X1 lf) = data;
  ds_room : ∃ k, 2 ≤ k ≤ m ∧ F1 k = 0;
}.

(** Taking fewer clusters than are free leaves one. *)
Lemma room_left m F F1 lf first lst :
  taken m F F1 lf first lst → (length lf < n_free m F)%nat → ∃ k, 2 ≤ k ≤ m ∧ F1 k = 0.
Proof.
  intros T Hn. destruct (decide (Exists (λ k, F1 k = 0) (seqZ 2 (m - 1)))) as [Hex|Hno].
  - apply Exists_exists in Hex as (k & Hk & Hz). apply elem_of_seqZ in Hk. exists k. split; [lia|done].
  - exfalso. assert (n_free m F ≤ length lf)%nat; [|lia]. apply n_free_le. intros k Hk Hz.
    destruct (decide (k ∈ lf)) as [|Hkl]; [done|]. exfalso. apply Hno, Exists_exists.
    exists k. split; [apply elem_of_seqZ; lia|]. by rewrite (taken_old _ _ _ _ _ _ T k Hkl).
Qed.

Lemma taken_used m F F1 lf first lst k : taken m F F1 lf first lst → F k ≠ 0 → k ∉ lf ∧ F1 k = F k.
Proof.
  intros T Hk. assert (k ∉ lf) as Hkl.
  { intros Hin. pose proof (taken_new _ _ _ _ _ _ T) as Tn. rewrite Forall_forall in Tn. auto. }
  split; [done|]. by apply (taken_old _ _ _ _ _ _ T).
Qed.

Lemma store_data_spec {A} s F X data (failed : M A) (k : Z → M A) Q :
  vol s F X → Forall is_byte data → Z.of_nat (length data) ≤ MAX_FILE →
  (clusters_for s (length data) < n_free (g_max_cluster s) F)%nat →
  (∀ s' first lf F1 X1, same_geo s s' → vol s' F1 X1 →
     data_stored (g_max_cluster s) F X first lf data F1 X1 → wp (k first) s' Q) →
  wp (chain ← alloc_chain (clusters_for s (length data)) 0 0;
      match chain with
      | None => failed
      | Some first => check (write_data (clusters_for s (length data)) first first data) failed (k first)
      end) s Q.
Proof.
  intros V Hb Hmax Hfree HQ. assert (taken (g_max_cluster s) F F [] 0 0) as T0 by (by constructor).
  apply wp_bind. eapply wp_mono; [apply (alloc_chain_spec (clusters_for s (length data)) s F F X [] 0 0 V T0)|].
  intros r s2 (S2 & F1 & X1 & V2 & HX1 & R).
  destruct r as [first|]; [|destruct R as [_ R]; simpl in R; lia].
  destruct R as (lf & lst & T & Hlf). simpl in T. assert (g_max_cluster s2 = g_max_cluster s) as Em by apply S2.
  rewrite <- (same_geo_clusters s s2 _ S2) in *. pose proof T as T'. rewrite <- Em in T'. apply wp_check.
  eapply wp_mono; [apply (data_stage s2 F F1 X1 lf first lst data V2 T' Hb Hmax Hlf)|].
  intros ok s3 (-> & S3 & X2 & V3 & HX2 & Hdata). split; [done|].
  apply (HQ s3 first lf F1 X2); [by trans s2|done|]. constructor; [eauto| |done|].
  - intros j Hj. rewrite HX2 by (eapply taken_used; eauto). auto.
  - eapply room_left; [exact T|lia].
Qed.

(** The directory after the entry [e] has been stored in it. *)
Record entry_stored (m : Z) (n : nat) (root : Z) F X lr nm (e : fat32_dirent_t) F' X' lr' : Prop := {
  es_chain : chain m F' root lr';
  es_found : ∃ c i, dir_find n X' lr' nm = Some (c, i, e);
  es_others nm' r : nm' ≠ nm → dir_find n X lr nm' = Some r → dir_find n X' lr' nm' = Some r;
  es_in k : k ∈ lr' → k ∈ lr ∨ F k = 0;
  es_out k : k ∉ lr' → F' k = F k ∧ X' k = X k;
}.

Lemma store_entry_spec {A} fuel s F X lr nm e (failed k : M A) Q :
  vol s F X → chain (g_max_cluster s) F (g_root_cluster s) lr → (length lr < fuel)%nat →
  (∃ k, valid s k ∧ F k = 0) → dirent_ok e → visible e → name e = nm →
  (∀ s' F' X' lr', same_geo s s' → vol s' F' X' →
     entry_stored (g_max_cluster s) (entries_per_cluster s) (g_root_cluster s) F X lr nm e F' X' lr' → wp k s' Q) →
  wp (slot ← choose_slot fuel (bool_decide (is_Some (dir_find (entries_per_cluster s) X lr nm))) (g_root_cluster s) nm;
      match slot with None => failed | Some (c, i) => check (write_dirent c i e) failed k end) s Q.
Proof.
  intros V C Hl Hroom Ok Hv Hn HQ.
  pose proof (choose_slot_spec fuel s F X lr nm V C Hl Hroom) as W. cbv zeta in W.
  apply wp_bind. eapply wp_mono; [apply W|].
  intros r s4 (S4 & c & i & F2 & X3 & lr' & -> & V4 & Hcl & Hi & C4 & Hlr' & Hout & Hput).
  assert (g_max_cluster s4 = g_max_cluster s) as Em4 by apply S4.
  apply wp_check. eapply wp_mono; [apply (write_dirent_spec s4 F2 X3 c i e V4)|].
  { pose proof (chain_valid _ _ _ _ C4) as Fv. rewrite Forall_forall in Fv. unfold valid. rewrite Em4. by apply Fv. }
  { by rewrite (same_geo_entries s s4 S4). }
  { done. }
  intros ok s5 (-> & V5 & S5). split; [done|]. destruct (Hput e Ok Hv Hn) as [Hfound Hothers].
  eapply HQ; [by trans s4|exact V5|]. constructor; [done|eauto|done|done|].
  intros j Hj. rewrite upd_ne by (intros ->; done). auto.
Qed.

(** What [fat32_write_file] leaves behind, as one statement: the directory
    holds the file, every other file is found where it was, and every cluster
    that is neither the directory's nor the replaced file's is as it was. *)
Definition file_written (m : Z) (n : nat) (root : Z) F X (lr lo nm data : list Z) F' X' (lr' : list Z) : Prop :=
  chain m F' root lr' ∧ holds_file m n F' X' lr' nm data ∧
  (∀ nm' r, nm' ≠ nm → dir_find n X lr nm' = Some r → dir_find n X' lr' nm' = Some r) ∧
  (∀ k, F k ≠ 0 → k ∉ lr → k ∉ lo → F' k = F k ∧ X' k = X k).

Lemma replaced_used m n F X lr nm lo k :
  2 ≤ m → replaced m n F X lr nm lo → k ∈ lo → F k ≠ 0 ∧ k ∉ lr.
Proof.
  unfold replaced. intros Hm Hrep Hk. destruct (dir_find n X lr nm) as [[[c0 i0] o]|].
  - destruct Hrep as (_ & Co & Hlo). split; [|auto]. by apply (file_chain_used m F (dirent_cluster o) lo k).
  - subst lo. set_solver.
Qed.

(** Storing the data, storing the entry and releasing the old chain. *)
Lemma file_written_intro m n root F X lr lo nm data first lf F1 X1 e F2 X2 lr' :
  2 ≤ m → chain m F root lr → replaced m n F X lr nm lo →
  data_stored m F X first lf data F1 X1 → entry_stored m n root F1 X1 lr nm e F2 X2 lr' →
  is_file e → file_size e = Z.of_nat (length data) → dirent_cluster e = first →
  file_written m n root F X lr lo nm data (clear F2 lo) X2 lr'.
Proof.
  intros Hm C Hrep [[lst T] Hold Hdata _] [C2 (c & i & Hfound) Hothers Hin Hout] Hfi Hsz Hcl.
  assert (∀ k, k ∈ lr → F k ≠ 0) as Hlru by (intros k Hk; apply (chain_used m F root lr k); [lia|done..]).
  assert (∀ nm', dir_find n X1 lr nm' = dir_find n X lr nm') as Efind.
  { intros nm'. apply dir_find_ext. intros k Hk. by apply Hold, Hlru. }
  assert (∀ k, k ∈ lo → k ∉ lr') as Hlo.
  { intros k Hk Hk'. destruct (replaced_used _ _ _ _ _ _ _ k Hm Hrep Hk) as [Hu Hkl].
    destruct (Hin k Hk') as [|Hz]; [done|]. rewrite (proj2 (taken_used _ _ _ _ _ _ k T Hu)) in Hz. done. }
  assert (∀ k, k ∈ lf → clear F2 lo k = F1 k ∧ X2 k = X1 k) as Hlf.
  { intros k Hk. assert (k ∉ lr') as Hkl'.
    { intros Hk'. destruct (Hin k Hk') as [Hl|Hz]; [by apply (taken_used _ _ _ _ _ _ k T (Hlru k Hl))|].
      destruct lf as [|x lf]; [set_solver|]. destruct (taken_chain _ _ _ _ _ _ T) as [Cf _].
      apply (chain_used m F1 first (x :: lf) k); [lia|done..]. }
    destruct (Hout k Hkl') as [E1 E2]. split; [|done]. unfold clear. case_decide as Hkd; [|done]. exfalso.
    destruct (replaced_used _ _ _ _ _ _ _ k Hm Hrep Hkd) as [Hu _]. by apply (taken_used _ _ _ _ _ _ k T Hu). }
  split_and!.
  - eapply chain_ext; [|exact C2]. intros k Hk. unfold clear. case_decide as Hkd; [|done]. exfalso. by apply (Hlo k).
  - exists c, i, e, lf. split_and!; [done..| |].
    + rewrite Hcl. destruct lf as [|x lf]; [by destruct (taken_chain _ _ _ _ _ _ T) as [-> _]|].
      destruct (taken_chain _ _ _ _ _ _ T) as [Cf _]. eapply chain_ext; [|exact Cf]. intros k Hk. by apply Hlf.
    + rewrite (contents_ext X1 X2); [done|]. intros k Hk. by apply Hlf.
  - intros nm' r' Hne' Hr. apply Hothers; [done|]. by rewrite Efind.
  - intros k Hk Hkl Hko. destruct (taken_used _ _ _ _ _ _ k T Hk) as [_ E1].
    assert (k ∉ lr') as Hkl' by (intros Hk'; destruct (Hin k Hk') as [|Hz]; [done|congruence]).
    unfold clear. rewrite decide_False by done. destruct (Hout k Hkl') as [-> ->]. auto.
Qed.

(** Releasing the replaced chain. *)
Lemma release_old_spec s n F F2 X X2 lr nm lo :
  vol s F2 X2 → replaced (g_max_cluster s) n F X lr nm lo → (∀ k, k ∈ lo → F2 k = F k) →
  wp (match snd <$> dir_find n X lr nm with
      | Some o => if dirent_cluster o >=? 2 then fat32_free_chain (dirent_cluster o) else mret true
      | None => mret true end) s (λ _ s', same_geo s s' ∧ vol s' (clear F2 lo) X2).
Proof.
  intros V Hrep E. unfold replaced in Hrep. destruct (dir_find n X lr nm) as [[[c0 i0] o]|]; simpl.
  - destruct Hrep as (_ & Co & _). apply free_old_spec; [done|]. by eapply file_chain_ext.
  - subst lo. apply wp_ret. done.
Qed.

(** [fat32_write_file] in the root directory of a volume with room for it. *)
Lemma write_file_spec fuel s F X lr lo comp nm data :
  vol s F X → chain (g_max_cluster s) F (g_root_cluster s) lr → g_max_cluster s ≤ Z.of_nat fuel →
  make_component_name comp = Some nm → cstr_ok comp → head comp ≠ Some 0xE5 →
  Forall is_byte data → Z.of_nat (length data) ≤ MAX_FILE →
  (clusters_for s (length data) < n_free (g_max_cluster s) F)%nat →
  replaced (g_max_cluster s) (entries_per_cluster s) F X lr nm lo →
  wp (fat32_write_file fuel (Some (root_path comp)) (Some data) (Z.of_nat (length data))) s
    (λ ok s', ok = true ∧ same_geo s s' ∧ ∃ F' X' lr', vol s' F' X' ∧
      file_written (g_max_cluster s) (entries_per_cluster s) (g_root_cluster s) F X lr lo nm data F' X' lr').
Proof.
  intros V C Hf Hc Hs Hne Hb Hmax Hfree Hrep.
  pose proof (geo_max s (vol_geo _ _ _ V)) as Gm. pose proof (chain_length _ _ _ _ C) as Hlr.
  apply wp_get. rewrite (vol_mounted _ _ _ V), bool_decide_false by done. simpl (_ || _).
  destruct (Z.gtb_spec (Z.of_nat (length data)) MAX_FILE); [lia|].
  apply wp_bind. eapply wp_mono; [apply (resolve_parent_root fuel s _ X comp nm V Hc)|].
  intros r s0 (-> & ->). apply wp_bind.
  eapply wp_mono; [apply (find_entry_spec fuel s F X _ lr nm V C); lia|].
  intros old s1 (-> & V1 & S1). set (n := entries_per_cluster s) in *.
  assert (match snd <$> dir_find n X lr nm with Some o => has_bits (attr o) ATTR_DIRECTORY | None => false end = false)
    as ->. { unfold replaced in Hrep. destruct (dir_find n X lr nm) as [[[? ?] o]|]; [apply Hrep|done]. }
  apply wp_get; cbv beta zeta. rewrite Nat2Z.id. simpl default. rewrite (take_ge data) by lia.
  fold (clusters_for s1 (length data)). assert (g_max_cluster s1 = g_max_cluster s) as Em1 by apply S1.
  apply (store_data_spec s1 F X); [done..|by rewrite Em1, (same_geo_clusters s s1)|].
  intros s3 first lf F1 X1 S3 V3 HD. rewrite Em1 in HD. assert (same_geo s s3) as S03 by (by trans s1).
  destruct S03 as (? & ? & Em3 & ? & ? & ? & ? & Er3 & ?) eqn:Eq. clear Eq.
  pose proof HD as [[lst T] Hold _ (k0 & Hk0 & Hz0)].
  assert (∀ k, k ∈ lr → F k ≠ 0) as Hlru
    by (intros k Hk; apply (chain_used (g_max_cluster s) F (g_root_cluster s) lr k); [lia|done..]).
  assert (entries_per_cluster s3 = n) as En3 by (apply same_geo_entries; by trans s1).
  assert (dir_find n X1 lr nm = dir_find n X lr nm) as Efind.
  { apply dir_find_ext. intros k Hk. by apply Hold, Hlru. }
  replace (bool_decide (is_Some (snd <$> dir_find n X lr nm)))
    with (bool_decide (is_Some (dir_find (entries_per_cluster s3) X1 lr nm)))
    by (rewrite En3, Efind; apply bool_decide_ext; by rewrite fmap_is_Some).
  assert (0 ≤ first < 2 ^ 32) as Hfirst.
  { destruct lf as [|x lf]; [destruct (taken_chain _ _ _ _ _ _ T) as [-> _]; lia|].
    destruct (taken_chain _ _ _ _ _ _ T) as [Cf _]. apply chain_first in Cf. lia. }
  unfold MAX_FILE in Hmax.
  destruct (file_entry_ok comp nm first (Z.of_nat (length data)) Hc Hs Hne Hfirst ltac:(lia)) as (Ok & Hv & Hn & Hfi & Hsz & Hcl1).
  rewrite <- Er3. apply (store_entry_spec fuel s3 F1 X1 lr nm); [done| |lia| |done..|].
  { rewrite Em3, Er3. eapply chain_ext; [|done]. intros k Hk. by apply (taken_used _ _ _ _ _ _ k T), Hlru. }
  { exists k0. split; [|done]. unfold valid. lia. }
  intros s5 F2 X2 lr' S5 V5 HE. rewrite Em3, En3, Er3 in HE. assert (same_geo s3 s5) as S5' by done.
  assert (g_max_cluster s5 = g_max_cluster s) as Em5 by (rewrite <- Em3; apply S5).
  apply wp_bind. rewrite <- Em5 in Hrep.
  eapply wp_mono; [apply (release_old_spec s5 n F F2 X X2 lr nm lo V5 Hrep)|].
  { intros k Hk. destruct (replaced_used (g_max_cluster s5) n F X lr nm lo k ltac:(lia) Hrep Hk) as [Hu Hkl].
    destruct (taken_used _ _ _ _ _ _ k T Hu) as [_ <-]. apply (es_out _ _ _ _ _ _ _ _ _ _ _ HE).
    intros Hk'. destruct (es_in _ _ _ _ _ _ _ _ _ _ _ HE k Hk') as [|Hz]; [done|].
    rewrite (proj2 (taken_used _ _ _ _ _ _ k T Hu)) in Hz. done. }
  intros _ s6 [S6 V6]. apply wp_ret. split; [done|]. split; [by trans s5; [trans s3; [by trans s1|]|]|].
  exists (clear F2 lo), X2, lr'. split; [done|]. rewrite Em5 in Hrep. rewrite Er3.
  eapply file_written_intro; eauto with lia.
Qed.
End files.
End FatSpec.
