(* ===== verification/FatMain.v ===== *)
(** * FAT32: theorems about the driver

    The round trip of writing and reading, what a write leaves alone, the
    behaviour on a full volume, removal, and the walk that never ends on a
    cyclic chain; with a small volume on a RAM disk. *)

From Stdlib Require Import Lia ZArith Bool.
From stdpp Require Import base list gmap numbers sets strings.
From S2P Require Import Prelude Disk Fat32 FatVolume FatDir FatSpec.

Local Open Scope Z_scope.
Import Fat32 FatVolume FatDir FatSpec.

Module FatMain.
Section main.
Context {D : Type} {DE : DiskEnv D} {DL : DiskLaws D} {CE : ConsoleEnv D}.
Implicit Types (s : fat D) (F : Z → Z) (X : Z → list Z).

(** A mounted volume whose root directory has the clusters [lr], and fuel for
    every chain it can have. *)
Record root_volume (fuel : nat) s F X (lr : list Z) : Prop := {
  rv_vol : vol s F X;
  rv_chain : chain (g_max_cluster s) F (g_root_cluster s) lr;
  rv_fuel : g_max_cluster s ≤ Z.of_nat fuel;
}.

(** A name the writable part accepts and can find again. *)
Definition good_name (comp : cstr) (nm : list Z) : Prop :=
  make_component_name comp = Some nm ∧ cstr_ok comp ∧ head comp ≠ Some 0xE5.

Lemma read_back fuel s F X lr comp nm data buf_size :
  vol s F X → chain (g_max_cluster s) F (g_root_cluster s) lr → g_max_cluster s ≤ Z.of_nat fuel →
  make_component_name comp = Some nm → buf_size ≤ 2 ^ 31 →
  holds_file (g_max_cluster s) (entries_per_cluster s) F X lr nm data →
  ∃ s', fat32_read_file fuel (root_path comp) buf_size s = Some (Some (take (Z.to_nat buf_size) data), s') ∧
        root_volume fuel s' F X lr.
Proof.
  intros V C Hf Hc Hb Hh.
  destruct (read_file_spec fuel s F X lr comp nm data buf_size V C Hf Hc Hb Hh) as (r & s' & E & -> & V' & S').
  exists s'. split; [done|]. constructor; [done|..]; destruct S' as (_ & _ & -> & _ & _ & _ & _ & Er & _); [by rewrite Er|done].
Qed.

(** What a write leaves behind, on the state after it. *)
Lemma write_done fuel s F X lr lo comp nm data :
  root_volume fuel s F X lr → good_name comp nm → Forall is_byte data → Z.of_nat (length data) ≤ MAX_FILE →
  (clusters_for s (length data) < n_free (g_max_cluster s) F)%nat →
  replaced (g_max_cluster s) (entries_per_cluster s) F X lr nm lo →
  ∃ s' F' X' lr',
    fat32_write_file fuel (Some (root_path comp)) (Some data) (Z.of_nat (length data)) s = Some (true, s') ∧
    same_geo s s' ∧ root_volume fuel s' F' X' lr' ∧
    file_written (g_max_cluster s) (entries_per_cluster s) (g_root_cluster s) F X lr lo nm data F' X' lr'.
Proof.
  intros [V C Hf] (Hc & Hs & Hne) Hb Hmax Hfree Hrep.
  destruct (write_file_spec fuel s F X lr lo comp nm data) as (ok & s' & E & -> & S' & F' & X' & lr' & V' & W); try done.
  exists s', F', X', lr'. split_and!; try done. destruct W as [C' _].
  constructor; [done|..]; destruct S' as (_ & _ & -> & _ & _ & _ & _ & Er & _); [by rewrite Er|done].
Qed.

Lemma holds_same_geo s s' F X lr nm data :
  same_geo s s' → holds_file (g_max_cluster s) (entries_per_cluster s) F X lr nm data →
  holds_file (g_max_cluster s') (entries_per_cluster s') F X lr nm data.
Proof. intros S'. rewrite (same_geo_entries s s' S'). by destruct S' as (_ & _ & -> & _). Qed.

(** C15: writing a file of the root directory of a well-formed mounted volume
    and then reading it gives back the bytes written, or as many of them as
    the reader's buffer takes; both calls return, and after each the volume is
    well formed again, with the file in its root directory. The data must leave
    one cluster free (a new entry may make the directory grow) and be at most
    16 MiB, the reader's buffer at most 2 GiB, the name is an 8.3 name that does not start with byte 0xE5, and a file of that name
    already there is replaced. *)
Theorem fat32_write_read_roundtrip fuel s F X lr lo comp nm data buf_size :
  root_volume fuel s F X lr → good_name comp nm → Forall is_byte data → Z.of_nat (length data) ≤ MAX_FILE →
  (clusters_for s (length data) < n_free (g_max_cluster s) F)%nat →
  replaced (g_max_cluster s) (entries_per_cluster s) F X lr nm lo → buf_size ≤ 2 ^ 31 →
  ∃ s1 s2 F' X' lr',
    fat32_write_file fuel (Some (root_path comp)) (Some data) (Z.of_nat (length data)) s = Some (true, s1) ∧
    root_volume fuel s1 F' X' lr' ∧ same_geo s s1 ∧
    holds_file (g_max_cluster s) (entries_per_cluster s) F' X' lr' nm data ∧
    fat32_read_file fuel (root_path comp) buf_size s1 = Some (Some (take (Z.to_nat buf_size) data), s2) ∧
    root_volume fuel s2 F' X' lr'.
Proof.
  intros RV GN Hb Hmax Hfree Hrep Hbs.
  destruct (write_done fuel s F X lr lo comp nm data) as (s1 & F' & X' & lr' & E & S1 & RV1 & W); try done.
  destruct W as (_ & Hh & _ & _). pose proof (holds_same_geo s s1 _ _ _ _ _ S1 Hh) as Hh1.
  destruct RV1 as [V1 C1 Hf1].
  destruct (read_back fuel s1 F' X' lr' comp nm data buf_size V1 C1 Hf1 (proj1 GN) Hbs Hh1) as (s2 & E2 & RV2).
  exists s1, s2, F', X', lr'. done.
Qed.

(** The other files of the root directory, before (with table [F], clusters
    [X] and directory chain [lr]) and after a write: the entry is in the same
    place with the same bytes, and the cluster chain and its contents are as
    they were when they are disjoint from the directory and from the replaced
    file [lo]. *)
Definition others_kept (m : Z) (n : nat) F X (lr lo nm : list Z) F' X' (lr' : list Z) : Prop :=
  ∀ nm' c i e, nm' ≠ nm → dir_find n X lr nm' = Some (c, i, e) →
    dir_find n X' lr' nm' = Some (c, i, e) ∧
    ∀ lf, file_chain m F (dirent_cluster e) lf → (∀ k, k ∈ lf → k ∉ lr ∧ k ∉ lo) →
      file_chain m F' (dirent_cluster e) lf ∧ contents X' lf = contents X lf.

(** C16: a write of a root-directory file does not disturb the other files of
    the directory: on the volume as it is after the write, which is well formed
    again, the entry of every other name is in the same slot with all its
    fields unchanged, its cluster chain is the same and the clusters of the
    chain hold the same bytes, provided that its clusters are neither the
    directory's nor the replaced file's; so reading it gives what it gave
    before. *)
Theorem fat32_write_keeps_others fuel s F X lr lo comp nm data :
  root_volume fuel s F X lr → good_name comp nm → Forall is_byte data → Z.of_nat (length data) ≤ MAX_FILE →
  (clusters_for s (length data) < n_free (g_max_cluster s) F)%nat →
  replaced (g_max_cluster s) (entries_per_cluster s) F X lr nm lo →
  ∃ s1 F' X' lr',
    fat32_write_file fuel (Some (root_path comp)) (Some data) (Z.of_nat (length data)) s = Some (true, s1) ∧
    same_geo s s1 ∧ root_volume fuel s1 F' X' lr' ∧
    others_kept (g_max_cluster s) (entries_per_cluster s) F X lr lo nm F' X' lr' ∧
    ∀ comp' nm' data' c i e lf buf_size,
      make_component_name comp' = Some nm' → nm' ≠ nm → buf_size ≤ 2 ^ 31 →
      dir_find (entries_per_cluster s) X lr nm' = Some (c, i, e) → is_file e →
      file_size e = Z.of_nat (length data') → file_chain (g_max_cluster s) F (dirent_cluster e) lf →
      take (length data') (contents X lf) = data' → (∀ k, k ∈ lf → k ∉ lr ∧ k ∉ lo) →
      ∃ s2, fat32_read_file fuel (root_path comp') buf_size s1 = Some (Some (take (Z.to_nat buf_size) data'), s2).
Proof.
  intros RV GN Hb Hmax Hfree Hrep.
  pose proof (geo_max s (vol_geo _ _ _ (rv_vol _ _ _ _ _ RV))) as Gm.
  destruct (write_done fuel s F X lr lo comp nm data) as (s1 & F' & X' & lr' & E & S1 & RV1 & W); try done.
  destruct W as (_ & _ & Hothers & Hkeep).
  assert (others_kept (g_max_cluster s) (entries_per_cluster s) F X lr lo nm F' X' lr') as Hok.
  { intros nm' c i e Hne Hfind. split; [by apply Hothers|]. intros lf Hch Hdis.
    assert (∀ k, k ∈ lf → F' k = F k ∧ X' k = X k) as Hlf.
    { intros k Hk. destruct (Hdis k Hk). apply Hkeep; [|done..].
      apply (file_chain_used (g_max_cluster s) F (dirent_cluster e) lf k); [lia|done..]. }
    split; [eapply file_chain_ext; [|done]|apply contents_ext]; intros k Hk; by apply Hlf. }
  exists s1, F', X', lr'. split; [done|]. split; [done|]. split; [done|]. split; [done|].
  intros comp' nm' data' c i e lf buf_size Hc' Hne Hbs Hfind Hfi Hsz Hch Hdata Hdis.
  destruct (Hok nm' c i e Hne Hfind) as [Hf' Hchains]. destruct (Hchains lf Hch Hdis) as [Hch' Hcont].
  assert (holds_file (g_max_cluster s) (entries_per_cluster s) F' X' lr' nm' data') as Hh
    by (exists c, i, e, lf; rewrite Hcont; done).
  apply (holds_same_geo s s1) in Hh; [|done]. destruct RV1 as [V1 C1 Hf1].
  destruct (read_back fuel s1 F' X' lr' comp' nm' data' buf_size V1 C1 Hf1 Hc' Hbs Hh) as (s2 & E2 & _). eauto.
Qed.

(** C25: On a volume with too few free clusters [fat32_write_file] returns 0
    and gives back every cluster it has taken: the table is as before, and so
    are the contents of all clusters in use. *)
Theorem fat32_write_full_restores fuel s F X lr lo comp nm data :
  root_volume fuel s F X lr → good_name comp nm → Z.of_nat (length data) ≤ MAX_FILE →
  (n_free (g_max_cluster s) F < clusters_for s (length data))%nat →
  replaced (g_max_cluster s) (entries_per_cluster s) F X lr nm lo →
  ∃ s' X', fat32_write_file fuel (Some (root_path comp)) (Some data) (Z.of_nat (length data)) s = Some (false, s') ∧
    vol s' F X' ∧ ∀ k, F k ≠ 0 → X' k = X k.
Proof.
  intros [V C Hf] (Hc & Hs & Hne) Hmax Hfull Hrep.
  pose proof (chain_length _ _ _ _ C) as Hlr. pose proof (vol_geo _ _ _ V) as G.
  assert (wp (fat32_write_file fuel (Some (root_path comp)) (Some data) (Z.of_nat (length data))) s
    (λ ok s', ok = false ∧ ∃ X', vol s' F X' ∧ ∀ k, F k ≠ 0 → X' k = X k)) as (ok & s' & E & -> & X' & R);
    [|by exists s', X'].
  apply wp_get. rewrite (vol_mounted _ _ _ V), bool_decide_false by done. simpl (_ || _).
  destruct (Z.gtb_spec (Z.of_nat (length data)) MAX_FILE); [lia|].
  apply wp_bind. eapply wp_mono; [apply (resolve_parent_root fuel s _ X comp nm V Hc)|].
  intros r s0 (-> & ->). apply wp_bind.
  eapply wp_mono; [apply (find_entry_spec fuel s F X _ lr nm V C); lia|].
  intros old s1 (-> & V1 & S1).
  assert (match snd <$> dir_find (entries_per_cluster s) X lr nm with
          | Some o => has_bits (attr o) ATTR_DIRECTORY | None => false end = false) as ->.
  { unfold replaced in Hrep. destruct (dir_find _ X lr nm) as [[[? ?] o]|]; [apply Hrep|done]. }
  apply wp_get; cbv beta zeta. fold (clusters_for s1 (length data)).
  rewrite (same_geo_clusters s s1) by done. assert (g_max_cluster s1 = g_max_cluster s) as Em1 by apply S1.
  assert (taken (g_max_cluster s1) F F [] 0 0) as T0 by (by constructor).
  apply wp_bind. eapply wp_mono; [apply (alloc_chain_spec (clusters_for s (length data)) s1 F F X [] 0 0 V1 T0)|].
  intros r s2 (S2 & F1 & X1 & V2 & HX1 & R). rewrite Em1 in R. destruct r as [first|].
  - exfalso. destruct R as (lf & lst & T & Hlf). simpl in T.
    assert (length lf ≤ n_free (g_max_cluster s) F)%nat; [|lia].
    apply submseteq_length, NoDup_submseteq.
    + destruct lf; [by constructor|]. eapply chain_NoDup, (taken_chain _ _ _ _ _ _ T).
    + intros k Hk. apply elem_free. pose proof (taken_new _ _ _ _ _ _ T) as Tn. rewrite Forall_forall in Tn.
      split; [auto|]. destruct lf as [|x lf]; [set_solver|]. destruct (taken_chain _ _ _ _ _ _ T) as [Cf _].
      apply chain_valid in Cf. rewrite Forall_forall in Cf. by apply Cf.
  - destruct R as [HF _]. apply wp_ret. split; [done|]. exists X1. split; [|done].
    apply (vol_raw_ext s2 (λ _, F1) _ X1 X1); [|done..]. intros _ k _ _. apply HF.
Qed.

(** ** Removal *)

(** No two visible entries of the directory have one name. *)
Definition names_unique (n : nat) X (l : list Z) : Prop := ∀ c i c' i',
  c ∈ l → c' ∈ l → (i < n)%nat → (i' < n)%nat →
  visible (dirent_at (X c) i) → visible (dirent_at (X c') i') →
  name (dirent_at (X c) i) = name (dirent_at (X c') i') → c = c' ∧ i = i'.

Definition tombstoned (i : nat) (buf : list Z) : list Z := buf_store (DIRENT_SIZE * i) [0xE5] buf.

Lemma tombstoned_at i j buf :
  (32 * (i + 1) ≤ length buf)%nat →
  if decide (j = i) then first_byte (dirent_at (tombstoned i buf) j) = 0xE5
  else dirent_at (tombstoned i buf) j = dirent_at buf j.
Proof.
  intros Hl. unfold tombstoned, dirent_at, buf_store, DIRENT_SIZE. simpl length. case_decide as Hj.
  - subst j. rewrite drop_app_length' by (rewrite length_take; lia). done.
  - f_equal. destruct (decide (j < i)%nat) as [Hlt|Hge].
    + rewrite drop_app_le by (rewrite length_take; lia).
      rewrite take_app_le by (rewrite length_drop, length_take; lia).
      rewrite !take_drop_commute, take_take. do 2 f_equal. lia.
    + rewrite drop_app_ge by (rewrite length_take; lia). rewrite length_take.
      rewrite drop_app_ge by (simpl; lia). rewrite drop_drop. do 2 f_equal. simpl. lia.
Qed.

(** The only entry of a name is gone after its slot has been marked. *)
Lemma find_tombstoned n X l nm c i o :
  (∀ k, k ∈ l → (32 * n ≤ length (X k))%nat) → names_unique n X l → dir_find n X l nm = Some (c, i, o) →
  dir_find n (upd X c (tombstoned i (X c))) l nm = None.
Proof.
  intros Hl Hu Hf. pose proof (dir_find_found _ _ _ _ _ _ _ Hf) as (Hc & Hi & -> & Hv & Hn).
  destruct (dir_find n (upd X c (tombstoned i (X c))) l nm) as [[[c' i'] o']|] eqn:Ef; [exfalso|done].
  apply dir_find_found in Ef as (Hc' & Hi' & -> & Hv' & Hn').
  pose proof (tombstoned_at i i' (X c) ltac:(pose proof (Hl c Hc); lia)) as Ht.
  destruct (decide (c' = c)) as [->|Hcc].
  - rewrite upd_eq in *. destruct (decide (i' = i)) as [->|Hii].
    + apply visible_not_free in Hv' as []. done.
    + rewrite Ht in *. destruct (Hu c i c i') as [_ ->]; try done. congruence.
  - rewrite upd_ne in * by done. destruct (Hu c i c' i') as [-> _]; try done. congruence.
Qed.

(** The clusters of a file that is removed. *)
Definition file_clusters (m : Z) F (e : fat32_dirent_t) (lo : list Z) : Prop :=
  (dirent_cluster e < 2 ∧ lo = []) ∨ chain m F (dirent_cluster e) lo.

(** [fat32_remove_file] removes the file: it returns 1, the clusters of
    the file are free again and no other entry of the table changes, only the
    slot of the entry is written, and the name is no longer found. *)
Theorem fat32_remove_file_removes fuel s F X lr lo comp nm c i o buf_size :
  root_volume fuel s F X lr → make_component_name comp = Some nm →
  names_unique (entries_per_cluster s) X lr → dir_find (entries_per_cluster s) X lr nm = Some (c, i, o) →
  is_file o → file_clusters (g_max_cluster s) F o lo → (∀ k, k ∈ lo → k ∉ lr) →
  ∃ s1 s2, fat32_remove_file fuel (Some (root_path comp)) s = Some (true, s1) ∧
    vol s1 (clear F lo) (upd X c (tombstoned i (X c))) ∧
    fat32_read_file fuel (root_path comp) buf_size s1 = Some (None, s2).
Proof.
  intros [V C Hf] Hc Hu Hfind Hfi Hlo Hdis. pose proof (chain_length _ _ _ _ C) as Hlr.
  pose proof (geo_max s (vol_geo _ _ _ V)) as Gm.
  pose proof (dir_find_found _ _ _ _ _ _ _ Hfind) as (Hcl & Hi & _).
  pose proof (chain_valid _ _ _ _ C) as Fv. rewrite Forall_forall in Fv.
  pose proof (csize_entries s (vol_geo _ _ _ V)) as Ecs.
  set (X' := upd X c (tombstoned i (X c))) in *.
  assert (wp (fat32_remove_file fuel (Some (root_path comp))) s (λ ok s', ok = true ∧ same_geo s s' ∧
    vol s' (clear F lo) X')) as (ok & s1 & E & -> & S1 & V1).
  { apply wp_get. rewrite (vol_mounted _ _ _ V), bool_decide_false by done. simpl (_ || _).
    apply wp_bind. eapply wp_mono; [apply (resolve_parent_root fuel s _ X comp nm V Hc)|].
    intros r s0 (-> & ->). apply wp_bind.
    eapply wp_mono; [apply (find_entry_location_spec fuel s F X _ lr nm V C); lia|].
    intros r s1 (-> & V1 & S1). rewrite Hfind, Hfi. apply wp_check.
    eapply wp_mono; [apply (rewrite_cluster_spec s1 F X c (DIRENT_SIZE * i) [0xE5] V1)|].
    { by eapply same_geo_valid; [|apply Fv]. }
    { rewrite (same_geo_csize s s1 S1), Ecs. unfold DIRENT_SIZE. simpl. lia. }
    { repeat constructor; unfold is_byte; lia. }
    intros ok s2 (-> & V2 & S2). split; [done|]. fold (tombstoned i (X c)) in V2. fold X' in V2.
    assert (same_geo s s2) as S02 by (by trans s1).
    destruct Hlo as [[Hlt ->]|Co].
    - destruct (Z.geb_spec (dirent_cluster o) 2); [lia|]. apply wp_ret. done.
    - pose proof (chain_first _ _ _ _ Co). destruct (Z.geb_spec (dirent_cluster o) 2); [|lia].
      apply wp_check. eapply wp_mono; [apply (free_chain_spec s2 F X' (dirent_cluster o) lo V2)|].
      + by replace (g_max_cluster s2) with (g_max_cluster s) by (symmetry; apply S02).
      + intros ok s3 (-> & V3 & [S3 _]). split; [done|]. apply wp_ret. split_and!; [done|by trans s2|done]. }
  assert (chain (g_max_cluster s1) (clear F lo) (g_root_cluster s1) lr) as C1.
  { destruct S1 as (_ & _ & -> & _ & _ & _ & _ & -> & _). eapply chain_ext; [|done].
    intros k Hk. unfold clear. rewrite decide_False; [done|]. intros Hko. by apply (Hdis k). }
  assert (wp (fat32_read_file fuel (root_path comp) buf_size) s1 (λ r _, r = None)) as (r & s2 & E2 & ->).
  { apply wp_get. rewrite (vol_mounted _ _ _ V1). simpl negb. apply wp_bind.
    eapply wp_mono; [apply (resolve_path_root fuel s1 _ X' comp nm lr V1 C1); [lia|done]|].
    intros r s2 (-> & _). rewrite (same_geo_entries s s1 S1). unfold X'.
    rewrite (find_tombstoned _ X lr nm c i o); [by apply wp_ret| |done|done].
    intros k Hk. rewrite (vol_data_length _ _ _ k V (Fv k Hk)). fold (csize s). lia. }
  by exists s1, s2.
Qed.

(** ** Directories *)

(** The first cluster of a new directory: its own entry, that of its parent,
    and an end mark. *)
Definition new_directory s (self parent : Z) : list Z :=
  dirent_bytes (dot_entry [dot] self) ++ dirent_bytes (dot_entry [dot; dot] parent) ++
  replicate (csize s - 64) 0.

Lemma dot_entry_ok nm c :
  (length nm ≤ 11)%nat → Forall is_byte nm → dirent_ok (dot_entry nm c).
Proof.
  intros Hl Hb. assert (∀ v, is_u16 (u16 v)) as H16 by (intros v; unfold is_u16, u16; apply Z.mod_pos_bound; lia).
  unfold dot_entry. constructor; simpl; try done; unfold is_byte, is_u16; try lia.
  split; [by apply pad_length|]. apply Forall_app. split; [done|]. apply Forall_replicate. unfold is_byte, space. lia.
Qed.

(** [fat32_mkdir] fills the new cluster before it is published. *)
Lemma fill_directory_spec s F X c parent :
  vol s F X → valid s c →
  wp (_ ← modify (λ s, s <| g_cluster_buf ::= λ buf,
             buf_store 32 (dirent_bytes (dot_entry [dot; dot] parent))
               (buf_store 0 (dirent_bytes (dot_entry [dot] c)) (buf_set 0 (cluster_bytes s) buf)) |>);
      write_cluster c) s
    (λ ok s', ok = true ∧ same_geo s s' ∧ vol s' F (upd X c (new_directory s c parent))).
Proof.
  intros V Hc. pose proof (csize_small s (vol_geo _ _ _ V)) as [_ Hcs].
  assert (512 ≤ csize s)%nat as Hcs2 by (unfold csize; destruct (vol_geo _ _ _ V); lia).
  pose proof (vol_cluster_buf _ _ _ V) as [Lb Bb]. apply wp_modify.
  assert (dirent_ok (dot_entry [dot] c)) as O1 by (apply dot_entry_ok; [simpl; lia|by repeat constructor]).
  assert (dirent_ok (dot_entry [dot; dot] parent)) as O2 by (apply dot_entry_ok; [simpl; lia|by repeat constructor]).
  pose proof (dirent_bytes_length _ O1) as L1. pose proof (dirent_bytes_length _ O2) as L2. unfold DIRENT_SIZE in *.
  set (f := λ buf, buf_store 32 _ _). set (s1 := s <| g_cluster_buf ::= f |>).
  assert (f (g_cluster_buf s) = new_directory s c parent ++ drop (csize s) (g_cluster_buf s)) as Eb.
  { unfold f. rewrite (buf_set_zero s _ X V). unfold new_directory, buf_store, zeros. rewrite L1, L2.
    change (32 + 32)%nat with 64%nat. rewrite take_0, app_nil_l. simpl (0 + 32)%nat.
    rewrite take_app_length' by done. rewrite drop_app_ge by lia. rewrite L1. rewrite drop_drop.
    change (32 + (64 - 32))%nat with 64%nat.
    rewrite drop_app_le by (rewrite length_replicate; lia). rewrite drop_replicate. by rewrite !app_assoc. }
  assert (length (new_directory s c parent) = csize s) as Ln.
  { unfold new_directory. rewrite !length_app, length_replicate, L1, L2. lia. }
  assert (vol_raw s1 (λ _, F) X) as V1.
  { apply vol_set_buf; [done|..]; rewrite Eb.
    - rewrite length_app, length_drop, Ln. lia.
    - apply Forall_app. split; [|by apply Forall_drop]. unfold new_directory. rewrite !Forall_app.
      split_and!; [by apply dirent_bytes_byte..|]. apply Forall_replicate. unfold is_byte. lia. }
  eapply wp_mono; [apply (write_cluster_spec s1 _ X c V1 Hc)|].
  intros ok s2 (-> & V2 & [S2 _]). split_and!; [done..|].
  replace (new_directory s c parent) with (take (csize s1) (g_cluster_buf s1)); [done|].
  change (g_cluster_buf s1) with (f (g_cluster_buf s)). rewrite Eb. apply take_app_length'. by rewrite Ln.
Qed.

(** The part of [fat32_mkdir] that allocates and fills the new cluster. *)
Lemma make_directory_spec {A} s F X parent (full : M A) (failed k : Z → M A) Q :
  vol s F X → (∃ j, valid s j ∧ F j = 0) →
  (∀ s' d, same_geo s s' → valid s d → F d = 0 →
     vol s' (upd F d EOC) (upd X d (new_directory s d parent)) → wp (k d) s' Q) →
  wp (fresh ← fat32_alloc_cluster;
      match fresh with
      | None => full
      | Some d =>
         check (read_cluster d) (failed d)
         (_ ← modify (λ s, s <| g_cluster_buf ::= λ buf,
                buf_store 32 (dirent_bytes (dot_entry [dot; dot] parent))
                  (buf_store 0 (dirent_bytes (dot_entry [dot] d)) (buf_set 0 (cluster_bytes s) buf)) |>);
          check (write_cluster d) (failed d) (k d))
      end) s Q.
Proof.
  intros V (j & Hj & Hz) HQ. apply wp_bind. eapply wp_mono; [apply (alloc_cluster_spec s F X V)|].
  intros r s2 [S2 R]. destruct r as [d|]; [|exfalso; destruct R as [R _]; by apply (R j)].
  destruct R as (Hd & Hdz & _ & V2). apply wp_check.
  eapply wp_mono; [apply (read_cluster_spec s2 _ _ d V2); by eapply same_geo_valid|].
  intros ok s3 (-> & V3 & S3 & _). split; [done|]. assert (same_geo s s3) as S03 by (by trans s2).
  apply wp_modify_check. eapply wp_mono; [apply (fill_directory_spec s3 _ _ d parent V3); by eapply same_geo_valid|].
  intros ok s4 (-> & S4 & V4). split; [done|]. apply HQ; [by trans s3|done..|].
  unfold new_directory in *. rewrite (same_geo_csize s s3 S03) in V4.
  refine (vol_raw_ext _ _ _ _ _ (λ i c _ _, eq_refl) _ V4).
  intros c _. unfold upd. by destruct (c =? d).
Qed.

Definition dir_entry (nm : list Z) (d : Z) : fat32_dirent_t :=
  set_dirent_cluster d (zero_dirent <| name := nm |> <| attr := ATTR_DIRECTORY |>).

Lemma dir_entry_ok comp nm d :
  good_name comp nm → dirent_ok (dir_entry nm d) ∧ visible (dir_entry nm d) ∧
  has_bits (attr (dir_entry nm d)) ATTR_DIRECTORY = true.
Proof.
  intros (Hc & Hs & Hne). destruct (component_name_ok comp nm) as (Ln & Bn & N0 & NE); [done..|].
  assert (∀ v, is_u16 (u16 v)) as H16 by (intros v; unfold is_u16, u16; apply Z.mod_pos_bound; lia).
  split_and!; [|split; [done|]|done].
  - constructor; simpl; try done; unfold is_byte, is_u16; lia.
  - unfold skipped, first_byte. simpl. by destruct (Z.eqb_spec (byte_at nm 0) 229).
Qed.

(** What [fat32_mkdir] leaves behind: cluster [d] is the new directory, and
    the parent has an entry for it. *)
Definition directory_made s F X lr nm d F' X' lr' : Prop :=
  valid s d ∧ F d = 0 ∧
  ∃ e, has_bits (attr e) ATTR_DIRECTORY = true ∧
    entry_stored (g_max_cluster s) (entries_per_cluster s) (g_root_cluster s) (upd F d EOC)
      (upd X d (new_directory s d (g_root_cluster s))) lr nm e F' X' lr'.

Lemma mkdir_spec fuel s F X lr comp nm :
  root_volume fuel s F X lr → good_name comp nm → (2 ≤ n_free (g_max_cluster s) F)%nat →
  dir_find (entries_per_cluster s) X lr nm = None →
  wp (fat32_mkdir fuel (Some (root_path comp))) s (λ ok s1, ok = true ∧ same_geo s s1 ∧
    ∃ d F' X' lr', vol s1 F' X' ∧ directory_made s F X lr nm d F' X' lr').
Proof.
  intros [V C Hf] GN Hfree Hnone. pose proof GN as (Hc & _). pose proof (chain_length _ _ _ _ C) as Hlr.
  pose proof (geo_max s (vol_geo _ _ _ V)) as Gm. set (n := entries_per_cluster s) in *.
  assert (∀ k, k ∈ lr → F k ≠ 0) as Hlru
    by (intros k Hk; apply (chain_used (g_max_cluster s) F (g_root_cluster s) lr k); [lia|done..]).
  apply wp_get. rewrite (vol_mounted _ _ _ V). simpl negb. apply wp_bind.
  eapply wp_mono; [apply (resolve_parent_root fuel s _ X comp nm V Hc)|].
  intros r s0 (-> & ->). apply wp_bind.
  eapply wp_mono; [apply (find_entry_spec fuel s F X _ lr nm V C); lia|].
  intros r s1 (-> & V1 & S1). fold n. rewrite Hnone.
  destruct (room_left (g_max_cluster s) F F [] 0 0) as (k0 & Hk0 & Hz0); [by constructor|simpl; lia|].
  apply (make_directory_spec s1 F X); [done| |].
  { exists k0. split; [by eapply same_geo_valid|done]. }
  intros s4 d S4 Hd Hz V4. assert (same_geo s s4) as S04 by (by trans s1).
  assert (csize s1 = csize s) as Ecs by (by apply same_geo_csize).
  unfold new_directory in V4. rewrite Ecs in V4. fold (new_directory s d (g_root_cluster s)) in V4.
  set (F1 := upd F d EOC) in *. set (X1 := upd X d (new_directory s d (g_root_cluster s))) in *.
  assert (valid s d) as Hds by (unfold valid in *; by replace (g_max_cluster s) with (g_max_cluster s1) by apply S1).
  assert (∀ k, k ∈ lr → F1 k = F k ∧ X1 k = X k) as Hlr1.
  { intros k Hk. unfold F1, X1. rewrite !upd_ne by (intros ->; by apply (Hlru d)). done. }
  assert (dir_find n X1 lr nm = None) as Hnone1.
  { rewrite <- Hnone. apply dir_find_ext. intros k Hk. by apply Hlr1. }
  assert (entries_per_cluster s4 = n) as En4 by (by apply same_geo_entries).
  assert (g_max_cluster s4 = g_max_cluster s) as Em4 by apply S04.
  assert (g_root_cluster s4 = g_root_cluster s) as Er4 by apply S04.
  destruct (dir_entry_ok comp nm d GN) as (Ok & Hv & Hdir).
  pose proof (store_entry_spec fuel s4 F1 X1 lr nm (dir_entry nm d) (free_and_fail d) (mret true)
    (λ ok s1, ok = true ∧ same_geo s s1 ∧ ∃ d F' X' lr', vol s1 F' X' ∧ directory_made s F X lr nm d F' X' lr') V4) as W.
  rewrite En4, Hnone1, bool_decide_false, Em4, Er4 in W by (by intros []).
  apply W; try done; [|lia| |].
  - eapply chain_ext; [|done]. intros k Hk. by apply Hlr1.
  - destruct (room_left (g_max_cluster s) F F1 [d] d d) as (k & Hk & Hk0'); [|simpl; lia|].
    + constructor; [split; [constructor; [done|unfold F1; rewrite upd_eq; unfold EOC; lia]|done]|by repeat constructor|].
      intros k Hk. unfold F1. apply upd_ne. set_solver.
    + exists k. split; [unfold valid; lia|done].
  - intros s5 F2 X2 lr' S5 V5 HE. apply wp_ret. split_and!; [done|by trans s4|].
    exists d, F2, X2, lr'. split; [done|]. split_and!; try done. exists (dir_entry nm d). done.
Qed.

(** [fat32_mkdir] of a new name in the root directory succeeds when two
    clusters are free; the name is then a directory whose cluster holds exactly
    the entries "." and "..", and the files that were there are still found. *)
Theorem fat32_mkdir_creates fuel s F X lr comp nm :
  root_volume fuel s F X lr → good_name comp nm → (2 ≤ n_free (g_max_cluster s) F)%nat →
  dir_find (entries_per_cluster s) X lr nm = None →
  ∃ s1 s2 F' X' lr' d, fat32_mkdir fuel (Some (root_path comp)) s = Some (true, s1) ∧
    root_volume fuel s1 F' X' lr' ∧ F d = 0 ∧ chain (g_max_cluster s) F' d [d] ∧
    X' d = new_directory s d (g_root_cluster s) ∧
    fat32_is_directory fuel (root_path comp) s1 = Some (true, s2) ∧
    ∀ nm' r, dir_find (entries_per_cluster s) X lr nm' = Some r →
             dir_find (entries_per_cluster s) X' lr' nm' = Some r.
Proof.
  intros RV GN Hfree Hnone. pose proof RV as [V C Hf]. pose proof (geo_max s (vol_geo _ _ _ V)) as Gm.
  destruct (mkdir_spec fuel s F X lr comp nm RV GN Hfree Hnone) as
    (ok & s1 & E & -> & S1 & d & F' & X' & lr' & V1 & Hd & Hz & e & He & [C1 (c & i & Hfound) Hoth Hin Hout]).
  assert (∀ k, k ∈ lr → k ≠ d) as Hlr.
  { intros k Hk ->. by apply (chain_used (g_max_cluster s) F (g_root_cluster s) lr d); [lia|..]. }
  assert (d ∉ lr') as Hdl.
  { intros Hk. destruct (Hin d Hk) as [Hk'|Hk']; [by apply (Hlr d)|]. rewrite upd_eq in Hk'. done. }
  destruct (Hout d Hdl) as [EF EX]. rewrite upd_eq in EF. rewrite upd_eq in EX.
  assert (root_volume fuel s1 F' X' lr') as RV1.
  { destruct S1 as (_ & _ & Em & _ & _ & _ & _ & Er & _). constructor; [done|by rewrite Em, Er|by rewrite Em]. }
  assert (wp (fat32_is_directory fuel (root_path comp)) s1 (λ r _, r = true)) as (r & s2 & E2 & ->).
  { destruct RV1 as [_ C1' Hf1]. pose proof (chain_length _ _ _ _ C1').
    apply wp_get. rewrite (vol_mounted _ _ _ V1). simpl negb. apply wp_bind.
    eapply wp_mono; [apply (resolve_path_root fuel s1 F' X' comp nm lr' V1 C1'); [lia|apply GN]|].
    intros r s2 (-> & _). rewrite (same_geo_entries s s1 S1), Hfound. by apply wp_ret. }
  exists s1, s2, F', X', lr', d. split_and!; try done.
  - constructor; [done|]. rewrite EF. unfold EOC. lia.
  - intros nm' r Hr. apply Hoth; [intros ->; congruence|]. rewrite <- Hr. apply dir_find_ext.
    intros k Hk. apply upd_ne. by apply Hlr.
Qed.

(** ** Chains that do not end *)


(** [P]: clusters of the directory from which the walk never leaves. *)
Lemma find_entry_diverges (P : Z → Prop) fuel s F X c nm :
  vol s F X →
  (∀ k, P k → valid s k ∧ P (F k) ∧ scan_entries (X k) nm 0 (entries_per_cluster s) = NextCluster) →
  P c → find_entry fuel c nm s = None.
Proof.
  revert s c. induction fuel as [|fuel IH]; intros s c V HP Pc; [done|].
  destruct (HP c Pc) as (Hv & Pn & Hs). pose proof (geo_max s (vol_geo _ _ _ V)). cbn [find_entry].
  rewrite (not_end c (g_max_cluster s)) by (done || lia). unfold check, mbind, m_bind.
  destruct (read_scan_spec s F X c V Hv) as (ok & s1 & -> & -> & V1 & S1 & Es & _).
  unfold get. rewrite Es, Hs.
  destruct (get_next_cluster_spec s1 _ X c V1) as (nx & s2 & -> & -> & V2 & [S2 _]);
    [by eapply same_geo_valid|].
  assert (same_geo s s2) as S by (by trans s1). apply IH; [done| |done].
  intros k Pk. destruct (HP k Pk) as (? & ? & ?). rewrite (same_geo_entries s s2 S).
  split_and!; try done. by eapply same_geo_valid.
Qed.

(** C26: The walk of a directory has no guard: on a volume whose root directory
    runs in a circle, without an end mark and without the name, reading any
    file of that name never returns, whatever the fuel. *)
Theorem fat32_cyclic_directory_hangs (P : Z → Prop) fuel s F X comp nm buf_size :
  vol s F X → make_component_name comp = Some nm →
  (∀ k, P k → valid s k ∧ P (F k) ∧ scan_entries (X k) nm 0 (entries_per_cluster s) = NextCluster) →
  P (g_root_cluster s) → fat32_read_file fuel (root_path comp) buf_size s = None.
Proof.
  intros V Hc HP Hr. destruct (component_shape _ _ Hc) as (Hne & Hs & Hlen).
  unfold fat32_read_file, mbind, m_bind, get. rewrite (vol_mounted _ _ _ V). simpl negb.
  unfold resolve_path, mbind, m_bind, get, root_path. rewrite Z.eqb_refl. destruct comp as [|c0 comp]; [done|].
  cbn [length resolve_walk]. unfold next_component. rewrite until_none, take_ge by done. rewrite drop_all.
  simpl skip_slashes. unfold mbind, m_bind. rewrite (short_name_agrees _ _ Hc).
  cbn [negb]. by rewrite (find_entry_diverges P fuel s F X).
Qed.

(** ** Mounting *)

(** What a successful [fat32_mount] guarantees: sectors of 512 bytes, 1 to
    128 of them per cluster (so a cluster fits the static buffer), cluster
    numbers below the reserved values, and every cluster inside the sectors the
    volume declares. *)
Theorem fat32_mount_bounds s lba s' :
  disk_ok (disk s) → length (vbr s) = 512%nat → 0 ≤ lba < disk_size (disk s) →
  fat32_mount lba s = Some (true, s') →
  let bpb := bpb_of (sector (disk s) lba) in
  g_mounted s' = true ∧ g_bytes_per_sector s' = 512 ∧ 1 ≤ g_sectors_per_cluster s' ≤ 128 ∧
  2 ≤ g_max_cluster s' ≤ 0x0FFFFFF6 ∧ g_root_cluster s' = root_cluster bpb ∧
  g_fat_size_sectors s' = fat_size32 bpb ∧ 1 ≤ g_fat_size_sectors s' ∧ g_fat_count s' = num_fats bpb ∧
  (g_max_cluster s' - 1) * g_sectors_per_cluster s' ≤
    total_sectors32 bpb - u32 (reserved_sectors bpb + u32 (num_fats bpb * fat_size32 bpb)).
Proof.
  intros Ok Lv Hl E bpb. unfold fat32_mount in E. cbv zeta in E. simpl in E.
  destruct (disk_read_one (disk s) lba Ok Hl) as (d' & Er & _). rewrite Er in E.
  assert (buf_fill (sector (disk s) lba) (vbr s) = sector (disk s) lba) as Ef.
  { unfold buf_fill. rewrite sector_length, drop_ge by (done || lia). apply app_nil_r. }
  pose proof (sector_bytes (disk s) lba Ok) as Fb. simpl in E. rewrite Ef in E.
  set (v := sector (disk s) lba) in *.
  pose proof (le32_range v 36 Fb). pose proof (byte_range v 13 Fb). pose proof (le32_range v 32 Fb).
  set (ov := u32 (le16_at v 14 + u32 (byte_at v 16 * le32_at v 36))) in *.
  destruct (_ || _); [done|]. destruct (negb (le16_at v 22 =? 0) || _) eqn:E1; [done|].
  destruct (Z.eqb_spec (le16_at v 11) 512) as [E2|]; [|done]. simpl in E.
  destruct (Z.eqb_spec (byte_at v 13) 0); [done|]. destruct (Z.gtb_spec (byte_at v 13) MAX_SECTORS_PER_READ); [done|].
  simpl in E. destruct (Z.ltb_spec (le32_at v 32) ov); [done|].
  set (cc := (le32_at v 32 - ov) / byte_at v 13) in *.
  destruct (Z.ltb_spec cc 1); [done|]. destruct (Z.gtb_spec cc 0xFFFFFF5); [done|]. simpl in E.
  apply orb_false_iff in E1 as [_ E1%Z.eqb_neq]. unfold MAX_SECTORS_PER_READ in *.
  injection E as <-. simpl. rewrite (u32_small cc), u32_small by lia.
  split_and!; try done; try lia.
  unfold bpb, bpb_of. simpl. fold v. fold ov.
  pose proof (Z.mul_div_le (le32_at v 32 - ov) (byte_at v 13) ltac:(lia)) as Hd. fold cc in Hd. lia.
Qed.
End main.

(** ** A volume on a RAM disk

    Eleven sectors: the boot sector, two copies of a table of one sector, eight
    clusters of one sector; the root directory is cluster 2. *)

Definition demo_boot : list Z :=
  buf_store 510 [0x55; 0xAA] (buf_store 44 (le32_bytes 2) (buf_store 36 (le32_bytes 1)
    (buf_store 32 (le32_bytes 11) (buf_store 16 [2] (buf_store 14 (le16_bytes 1)
      (buf_store 13 [1] (buf_store 11 (le16_bytes 512) zero_sector))))))).

(** The table with the entries [vs] (clusters 0, 1, 2, ...). *)
Definition demo_table (vs : list Z) : list Z := buf_store 0 (mjoin (le32_bytes <$> vs)) zero_sector.

Definition small_disk (vs : list Z) (root : list Z) (m : gmap Z (list Z)) : ramdisk :=
  mkRamdisk 11 (<[0 := demo_boot]> (<[1 := demo_table vs]> (<[2 := demo_table vs]> (<[3 := root]> m)))) [].

Definition mounted (d : ramdisk) : fat ramdisk :=
  mkFat 0 512 1 2 9 2 1 1 3 true (replicate (Z.to_nat 65536) 0) zero_sector demo_boot d.

Lemma small_vol d :
  ramdisk_ok d → rd_size d = 11 → rd_sector d 1 = rd_sector d 2 →
  vol (mounted d) (fat_entry (mounted d) 0) (cluster_data (mounted d)).
Proof.
  intros Ok Es Ecopy. constructor.
  - reflexivity.
  - constructor; simpl; rewrite ?Es; vm_compute; intuition discriminate.
  - exact Ok.
  - split; [reflexivity|]. apply (bool_decide_unpack _). vm_compute. exact I.
  - change (g_cluster_buf (mounted d)) with (replicate (Z.to_nat 65536) 0).
    split; [rewrite length_replicate, Z2Nat.id; lia|]. apply Forall_replicate. unfold is_byte. lia.
  - intros i c Hi Hc. simpl in Hi. unfold valid in Hc. simpl in Hc. unfold fat_entry, fat_lba.
    assert (4 * c / 512 = 0) as -> by (apply Z.div_small; lia).
    assert (i = 0 ∨ i = 1) as [->| ->] by lia; [done|].
    change (Z.land (le32_at (rd_sector d 2) ((4 * c) mod 512)) 0x0FFFFFFF =
            Z.land (le32_at (rd_sector d 1) ((4 * c) mod 512)) 0x0FFFFFFF). by rewrite Ecopy.
  - done.
Qed.

Local Abbreviation F_ d := (fat_entry (mounted d) 0).
Local Abbreviation X_ d := (cluster_data (mounted d)).

Lemma small_root d :
  ramdisk_ok d → rd_size d = 11 → rd_sector d 1 = rd_sector d 2 → 0x0FFFFFF8 ≤ F_ d 2 →
  root_volume 9 (mounted d) (F_ d) (X_ d) [2].
Proof.
  intros Ok Es Ec He. constructor; [by apply small_vol| |simpl; lia]. constructor; [simpl; lia|done].
Qed.

(** Decides that the sectors of a concrete disk have 512 bytes. *)
Ltac disk_ok_by_computation :=
  unfold ramdisk_ok; repeat (apply map_Forall_insert_2; [split; [vm_compute; reflexivity|
    apply (bool_decide_unpack _); vm_compute; exact I]|]); apply map_Forall_empty.

(** An empty volume. *)
Definition empty_disk : ramdisk := small_disk [0x0FFFFFF8; EOC; EOC] zero_sector ∅.

Lemma empty_root : root_volume 9 (mounted empty_disk) (F_ empty_disk) (X_ empty_disk) [2].
Proof. apply small_root; [disk_ok_by_computation|done|done|vm_compute; discriminate]. Qed.

Definition unmounted : fat ramdisk :=
  mkFat 0 0 0 0 0 0 0 0 0 false (replicate (Z.to_nat 65536) 0) zero_sector zero_sector empty_disk.

Example demo_mounts :
  (λ r : bool * fat ramdisk, (r.1, g_bytes_per_sector r.2, g_sectors_per_cluster r.2, g_root_cluster r.2,
     g_max_cluster r.2, g_fat_count r.2, g_fat_size_sectors r.2, g_fat_start_lba r.2,
     g_cluster_heap_start_lba r.2, g_mounted r.2)) <$> fat32_mount 0 unmounted
  = Some (true, 512, 1, 2, 9, 2, 1, 1, 3, true).
Proof. vm_compute. reflexivity. Qed.

Definition hello : cstr := lit "hello.txt".
Definition hello_name : list Z := lit "HELLO   TXT".
Definition other : cstr := lit "other".
Definition other_name : list Z := lit "OTHER      ".

Lemma hello_good : good_name hello hello_name.
Proof.
  split; [vm_compute; reflexivity|split]; [|discriminate].
  unfold cstr_ok. repeat (constructor; [vm_compute; done|]). constructor.
Qed.

(** Data of two clusters. *)
Definition demo_data : list Z := replicate 700 7.

Lemma demo_data_bytes : Forall is_byte demo_data.
Proof. apply Forall_replicate. unfold is_byte. lia. Qed.

Lemma fat32_write_read_roundtrip_witness : ∃ s1 s2,
  fat32_write_file 9 (Some (root_path hello)) (Some demo_data) (Z.of_nat (length demo_data)) (mounted empty_disk)
    = Some (true, s1) ∧
  fat32_read_file 9 (root_path hello) 1000 s1 = Some (Some (take (Z.to_nat 1000) demo_data), s2).
Proof.
  destruct (fat32_write_read_roundtrip 9 (mounted empty_disk) (F_ empty_disk) (X_ empty_disk) [2] [] hello hello_name
    demo_data 1000) as (s1 & s2 & F' & X' & lr' & E1 & _ & _ & _ & E2 & _).
  - exact empty_root.
  - exact hello_good.
  - exact demo_data_bytes.
  - vm_compute. discriminate.
  - apply (bool_decide_unpack _). vm_compute. exact I.
  - vm_compute. reflexivity.
  - lia.
  - exists s1, s2. split; [exact E1|exact E2].
Defined.

(** A volume with a file "OTHER" of five bytes in cluster 3. *)
Definition used_disk : ramdisk :=
  small_disk [0x0FFFFFF8; EOC; EOC; EOC] (put_dirent 0 (file_entry other_name 3 5) zero_sector)
    {[4 := buf_store 0 [1; 2; 3; 4; 5] zero_sector]}.

Lemma used_root : root_volume 9 (mounted used_disk) (F_ used_disk) (X_ used_disk) [2].
Proof.
  apply small_root; [|done|done|vm_compute; discriminate].
  unfold used_disk, small_disk. rewrite <- insert_empty. disk_ok_by_computation.
Qed.

Lemma used_chain : chain 9 (F_ used_disk) 3 [3].
Proof. constructor; [lia|]. vm_compute. discriminate. Qed.

Lemma fat32_write_keeps_others_witness : ∃ s1 F' X' lr' s2,
  fat32_write_file 9 (Some (root_path hello)) (Some demo_data) (Z.of_nat (length demo_data)) (mounted used_disk)
    = Some (true, s1) ∧ vol s1 F' X' ∧
  dir_find 16 X' lr' other_name = Some (2, 0%nat, file_entry other_name 3 5) ∧
  file_chain 9 F' 3 [3] ∧
  fat32_read_file 9 (root_path other) 100 s1 = Some (Some (take (Z.to_nat 100) [1; 2; 3; 4; 5]), s2).
Proof.
  destruct (fat32_write_keeps_others 9 (mounted used_disk) (F_ used_disk) (X_ used_disk) [2] [] hello hello_name
    demo_data) as (s1 & F' & X' & lr' & E1 & _ & RV & Hk & Hr).
  - exact used_root.
  - exact hello_good.
  - exact demo_data_bytes.
  - vm_compute. discriminate.
  - apply (bool_decide_unpack _). vm_compute. exact I.
  - vm_compute. reflexivity.
  - assert (other_name ≠ hello_name) as Hne by (vm_compute; discriminate).
    assert (dir_find 16 (X_ used_disk) [2] other_name = Some (2, 0%nat, file_entry other_name 3 5)) as Hf
      by (vm_compute; reflexivity).
    assert (∀ k, k ∈ [3] → k ∉ [2] ∧ k ∉ @nil Z) as Hd
      by (intros k ->%list_elem_of_singleton; split; apply (bool_decide_unpack _); vm_compute; exact I).
    destruct (Hk other_name 2 0%nat (file_entry other_name 3 5) Hne Hf) as [Hf' Hc].
    destruct (Hc [3] used_chain Hd) as [Hc' _].
    destruct (Hr other other_name [1; 2; 3; 4; 5] 2 0%nat (file_entry other_name 3 5) [3] 100) as [s2 E2].
    + vm_compute. reflexivity.
    + exact Hne.
    + lia.
    + exact Hf.
    + vm_compute. reflexivity.
    + reflexivity.
    + exact used_chain.
    + vm_compute. reflexivity.
    + exact Hd.
    + exists s1, F', X', lr', s2. split; [exact E1|]. split; [exact (rv_vol _ _ _ _ _ RV)|].
      split; [exact Hf'|]. split; [exact Hc'|exact E2].
Defined.

Lemma used_unique : names_unique (entries_per_cluster (mounted used_disk)) (X_ used_disk) [2].
Proof.
  assert (Forall (λ i, visible (dirent_at (X_ used_disk 2) i) → i = 0%nat) (seq 0 16)) as Hall.
  { unfold visible. apply (bool_decide_unpack _). vm_compute. exact I. }
  rewrite Forall_forall in Hall. intros c i c' i' ->%list_elem_of_singleton ->%list_elem_of_singleton Hi Hi' V V' _.
  change (entries_per_cluster (mounted used_disk)) with 16%nat in *.
  split; [done|]. rewrite (Hall i), (Hall i'); try done; apply elem_of_seq; lia.
Qed.

Lemma fat32_remove_file_removes_witness : ∃ s1 s2,
  fat32_remove_file 9 (Some (root_path other)) (mounted used_disk) = Some (true, s1) ∧
  vol s1 (clear (F_ used_disk) [3]) (upd (X_ used_disk) 2 (tombstoned 0 (X_ used_disk 2))) ∧
  fat32_read_file 9 (root_path other) 100 s1 = Some (None, s2).
Proof.
  apply (fat32_remove_file_removes 9 (mounted used_disk) (F_ used_disk) (X_ used_disk) [2] [3] other other_name
    2 0 (file_entry other_name 3 5) 100).
  - exact used_root.
  - vm_compute. reflexivity.
  - exact used_unique.
  - vm_compute. reflexivity.
  - vm_compute. reflexivity.
  - right. exact used_chain.
  - intros k ->%list_elem_of_singleton. apply (bool_decide_unpack _). vm_compute. exact I.
Defined.

Lemma fat32_mkdir_creates_witness : ∃ s1 s2 F' X' lr' d,
  fat32_mkdir 9 (Some (root_path hello)) (mounted used_disk) = Some (true, s1) ∧
  root_volume 9 s1 F' X' lr' ∧ F_ used_disk d = 0 ∧ chain 9 F' d [d] ∧
  X' d = new_directory (mounted used_disk) d 2 ∧
  fat32_is_directory 9 (root_path hello) s1 = Some (true, s2) ∧
  ∀ nm' r, dir_find (entries_per_cluster (mounted used_disk)) (X_ used_disk) [2] nm' = Some r →
           dir_find (entries_per_cluster (mounted used_disk)) X' lr' nm' = Some r.
Proof.
  apply (fat32_mkdir_creates 9 (mounted used_disk) (F_ used_disk) (X_ used_disk) [2] hello hello_name).
  - exact used_root.
  - exact hello_good.
  - apply (bool_decide_unpack _). vm_compute. exact I.
  - vm_compute. reflexivity.
Defined.

(** A volume with one free cluster. *)
Definition full_disk : ramdisk :=
  small_disk [0x0FFFFFF8; EOC; EOC; EOC; EOC; EOC; EOC; 0; EOC; EOC] zero_sector ∅.

Lemma full_root : root_volume 9 (mounted full_disk) (F_ full_disk) (X_ full_disk) [2].
Proof. apply small_root; [disk_ok_by_computation|done|done|vm_compute; discriminate]. Qed.

Lemma fat32_write_full_restores_witness : ∃ s' X',
  fat32_write_file 9 (Some (root_path hello)) (Some demo_data) (Z.of_nat (length demo_data)) (mounted full_disk)
    = Some (false, s') ∧
  vol s' (F_ full_disk) X' ∧ ∀ k, F_ full_disk k ≠ 0 → X' k = X_ full_disk k.
Proof.
  apply (fat32_write_full_restores 9 (mounted full_disk) (F_ full_disk) (X_ full_disk) [2] [] hello hello_name demo_data).
  - exact full_root.
  - exact hello_good.
  - vm_compute. discriminate.
  - apply (bool_decide_unpack _). vm_compute. exact I.
  - vm_compute. reflexivity.
Defined.

(** A root directory that is its own successor and holds deleted entries only. *)
Definition cyclic_disk : ramdisk := small_disk [0x0FFFFFF8; EOC; 2] (replicate 512 0xE5) ∅.

Lemma fat32_cyclic_directory_hangs_witness :
  fat32_read_file 1000 (root_path hello) 100 (mounted cyclic_disk) = None.
Proof.
  apply (fat32_cyclic_directory_hangs (λ k, k = 2) 1000 (mounted cyclic_disk) (F_ cyclic_disk) (X_ cyclic_disk)
    hello hello_name 100).
  - apply small_vol; [disk_ok_by_computation|done|done].
  - vm_compute. reflexivity.
  - intros k ->. split; [vm_compute; intuition discriminate|split; vm_compute; reflexivity].
  - reflexivity.
Defined.

Lemma fat32_mount_bounds_witness : ∃ s', fat32_mount 0 unmounted = Some (true, s') ∧ 2 ≤ g_max_cluster s' ≤ 0x0FFFFFF6.
Proof.
  assert (fst <$> fat32_mount 0 unmounted = Some true) as E by (vm_compute; reflexivity).
  destruct (fat32_mount 0 unmounted) as [[ok s']|] eqn:Em; [|discriminate].
  simpl in E. injection E as ->. exists s'. split; [reflexivity|].
  apply (fat32_mount_bounds unmounted 0 s').
  - change (ramdisk_ok empty_disk). apply empty_root.
  - reflexivity.
  - vm_compute. intuition discriminate.
  - exact Em.
Defined.
End FatMain.
