(* ===== verification/Gpt.v ===== *)
(** * The GUID partition table

    [src/fs/gpt/gpt.c]: reading the header and the entries of a partition
    table, the text forms of GUIDs and names, and the lookups; the scan is
    shown to compute the used entries of the table in their order. *)

From Stdlib Require Import Lia ZArith Bool.
From stdpp Require Import base list gmap numbers strings.
From S2P Require Import Prelude Disk.

Local Open Scope Z_scope.

Module Gpt.

Definition NEXUS_GPT_MAX_PARTITIONS : Z := 16.
Definition NEXUS_GPT_NAME_LEN : Z := 40.
Definition GPT_HEADER_LBA : Z := 1.
Definition GPT_SIGNATURE : Z := 0x5452415020494645.
Definition GPT_ENTRY_SIZE : Z := 128.
Definition GPT_HEADER_SIZE : Z := 92.

Record nexus_gpt_partition_t := mkPartition {
  index : Z;
  first_lba : Z;
  last_lba : Z;
  attributes : Z;
  type_guid : cstr;
  name : cstr;
}.

(** [g_parts] is the filled part of the static array, [g_count] elements; the
    rest of the array is zero. *)
Record gpt {D : Type} := mkGpt {
  g_parts : list nexus_gpt_partition_t;
  g_sector : list Z;
  disk : D;
}.
Arguments gpt : clear implicits.
Arguments mkGpt {D}.
#[export] Instance eta_gpt {D} : Eta (gpt D) := λ r, mkGpt (g_parts r) (g_sector r) (disk r).

Definition hex (v : Z) : Z := if v <? 10 then 48 + v else 65 + v - 10.

(** The first three fields of a GUID are little-endian. *)
Definition guid_order : list Z := [3; 2; 1; 0; 5; 4; 7; 6; 8; 9; 10; 11; 12; 13; 14; 15].

Definition guid_to_text (g : list Z) : cstr :=
  mjoin ((λ i, let v := byte_at g i in [hex (Z.shiftr v 4); hex (Z.land v 15)]) <$> guid_order).

Definition guid_zero (g : list Z) : bool := forallb (λ i, byte_at g i =? 0) (seqZ 0 16).

Definition str_eq (a b : cstr) : bool := bool_decide (a = b).

Definition le64 (p : list Z) : Z := le64_at p 0.

(** The loop from byte [i], [room] characters left, [n] steps to go. *)
Fixpoint name_loop (p : list Z) (n : nat) (i room : Z) : cstr :=
  match n with
  | O => []
  | S n =>
     if (i <? 36) && (0 <? room) then
       let c := Z.lor (byte_at p i) (Z.shiftl (byte_at p (i + 1)) 8) in
       if c =? 0 then []
       else (if c <? 128 then c else 63) :: name_loop p n (i + 2) (room - 1)
     else []
  end.

Definition decode_name (p : list Z) (max : Z) : cstr := name_loop p 18 0 (max - 1).

Section scan.
Context {D : Type} `{DiskEnv D}.
Implicit Types (s : gpt D).

Definition g_count s : Z := Z.of_nat (length (g_parts s)).

(** The 128 bytes [e] of entry [i] (from 0). *)
Definition parse_entry (i : Z) (e : list Z) : nexus_gpt_partition_t := {|
  index := u32 (i + 1);
  first_lba := le64 (drop 32 e);
  last_lba := le64 (drop 40 e);
  attributes := le64 (drop 48 e);
  type_guid := guid_to_text e;
  name := decode_name (drop 56 e) NEXUS_GPT_NAME_LEN |}.

Definition entry_lba (entries_lba entry_size i : Z) : Z := u64 (entries_lba + i * entry_size / 512).
Definition entry_off (entry_size i : Z) : Z := (i * entry_size) mod 512.
(** Sectors to read for an entry: two when it crosses a sector boundary. *)
Definition entry_sectors (entry_size i : Z) : Z :=
  if entry_off entry_size i + GPT_ENTRY_SIZE >? 512 then 2 else 1.

(** The loop over the entries from entry [i], [n] to go. *)
Fixpoint scan_loop (n : nat) (i entries_lba entry_size : Z) s : gpt D :=
  match n with
  | O => s
  | S n =>
     if g_count s <? NEXUS_GPT_MAX_PARTITIONS then
       let '(ok, bytes, d) := ahci_read_sectors (entry_lba entries_lba entry_size i) (entry_sectors entry_size i) (disk s) in
       let s := s <| disk := d |> in
       if negb ok then s
       else
         let e := drop (Z.to_nat (entry_off entry_size i)) bytes in
         if guid_zero e then scan_loop n (i + 1) entries_lba entry_size s
         else scan_loop n (i + 1) entries_lba entry_size
                (s <| g_parts ::= λ l, l ++ [parse_entry i e] |>)
     else s
  end.

Definition gpt_scan s : Z * gpt D :=
  let s := s <| g_parts := [] |> in
  if negb (ahci_is_ready (disk s)) then (0, s)
  else
    let '(ok, bytes, d) := ahci_read_sectors GPT_HEADER_LBA 1 (disk s) in
    let s := s <| g_sector ::= buf_fill bytes |> <| disk := d |> in
    if negb ok then (0, s)
    else if negb (le64 (g_sector s) =? GPT_SIGNATURE) then (0, s)
    else
      let header_size := le32_at (g_sector s) 12 in
      if (header_size <? GPT_HEADER_SIZE) || (header_size >? 512) then (0, s)
      else
        let entries_lba := le64 (drop 72 (g_sector s)) in
        let entry_count := le32_at (g_sector s) 80 in
        let entry_size := le32_at (g_sector s) 84 in
        if (entry_count =? 0) || (entry_size <? GPT_ENTRY_SIZE) || (entry_size >? 512) then (0, s)
        else
          let s := scan_loop (Z.to_nat entry_count) 0 entries_lba entry_size s in
          (g_count s, s).

Definition gpt_partition_count s : Z := g_count s.

Definition gpt_partition (i : Z) s : option nexus_gpt_partition_t :=
  if (i <? 0) || (g_count s <=? i) then None else g_parts s !! Z.to_nat i.

Definition find_part (p : nexus_gpt_partition_t → bool) s : option nexus_gpt_partition_t :=
  snd <$> list_find (λ x, p x = true) (g_parts s).

Definition gpt_find_type (guid : cstr) s : option nexus_gpt_partition_t := find_part (λ p, str_eq (type_guid p) guid) s.
Definition gpt_find_name (nm : cstr) s : option nexus_gpt_partition_t := find_part (λ p, str_eq (name p) nm) s.
End scan.

(** ** The table as a list of entries *)

Section spec.
Context {D : Type} {DE : DiskEnv D} {DL : DiskLaws D}.
Implicit Types (s : gpt D).

(** Byte [k] of the disk, and the 128 bytes of entry [i] of the table that
    starts at sector [elba]. *)
Definition disk_byte (d : D) (k : Z) : Z := byte_at (sector d (k / 512)) (k mod 512).
Definition entry_bytes (d : D) (elba esz i : Z) : list Z :=
  (λ k, disk_byte d (512 * elba + i * esz + k)) <$> seqZ 0 128.

(** The used entries among [i], ..., [i + n - 1], in order. *)
Definition used_entries (d : D) (elba esz i : Z) (n : nat) : list nexus_gpt_partition_t :=
  omap (λ k, let e := entry_bytes d elba esz k in
             if guid_zero e then None else Some (parse_entry k e)) (seqZ i (Z.of_nat n)).

Definition table_on_disk (d : D) (elba esz : Z) (n : nat) : Prop :=
  ∀ k, 0 ≤ k < Z.of_nat n → 512 * elba + k * esz + 128 ≤ 512 * disk_size d.

Lemma used_entries_ext d d' elba esz i n :
  (∀ l, sector d' l = sector d l) → used_entries d' elba esz i n = used_entries d elba esz i n.
Proof.
  intros E. unfold used_entries. apply list_omap_ext. apply Forall_Forall2_diag, Forall_true. intros k.
  assert (entry_bytes d' elba esz k = entry_bytes d elba esz k) as ->; [|done].
  apply list_fmap_ext. intros. unfold disk_byte. by rewrite E.
Qed.

(** Parsing looks at the first 128 bytes only. *)
Definition agree128 (e e' : list Z) : Prop := ∀ k, 0 ≤ k < 128 → byte_at e k = byte_at e' k.

Lemma byte_at_drop n e k : 0 ≤ k → byte_at (drop n e) k = byte_at e (Z.of_nat n + k).
Proof. intros. unfold byte_at. rewrite lookup_drop. do 2 f_equal. lia. Qed.

Lemma le64_agree e e' n : agree128 e e' → (n ≤ 120)%nat → le64 (drop n e) = le64 (drop n e').
Proof.
  intros He Hn. unfold le64, le64_at. change (seqZ 0 8) with [0; 1; 2; 3; 4; 5; 6; 7]. cbn [foldl].
  by rewrite !byte_at_drop, !(He (Z.of_nat n + _)) by lia.
Qed.

Lemma name_loop_agree e e' n i room :
  agree128 e e' → 0 ≤ i → name_loop (drop 56 e) n i room = name_loop (drop 56 e') n i room.
Proof.
  intros He. revert i room. induction n as [|n IH]; intros i room Hi; [done|]. cbn [name_loop].
  destruct (Z.ltb_spec i 36); [|done]. rewrite !byte_at_drop, !(He (Z.of_nat 56 + _)) by lia.
  by rewrite (IH (i + 2)) by lia.
Qed.

Lemma guid_agree e e' : agree128 e e' → guid_zero e = guid_zero e' ∧ guid_to_text e = guid_to_text e'.
Proof.
  intros He. unfold guid_zero, guid_to_text, guid_order. change (seqZ 0 16) with [0; 1; 2; 3; 4; 5; 6; 7; 8; 9; 10; 11; 12; 13; 14; 15].
  cbn [forallb fmap list_fmap]. by rewrite !(He _) by lia.
Qed.

Lemma parse_entry_agree i e e' : agree128 e e' → parse_entry i e = parse_entry i e'.
Proof.
  intros He. unfold parse_entry, decode_name. rewrite (name_loop_agree e e'), !(le64_agree e e') by (done || lia).
  by rewrite (proj2 (guid_agree e e' He)).
Qed.

(** What is read for entry [i] are its bytes on the disk. *)
Lemma entry_read d elba esz i :
  disk_ok d → 0 ≤ elba → 128 ≤ esz ≤ 512 → 0 ≤ i →
  agree128 (drop (Z.to_nat (entry_off esz i)) (mjoin (sector d <$> seqZ (elba + i * esz / 512) (entry_sectors esz i))))
    (entry_bytes d elba esz i).
Proof.
  intros Ok He Hs Hi k Hk. set (q := i * esz / 512). unfold entry_bytes.
  assert (0 ≤ entry_off esz i < 512) as Ho by (apply Z.mod_pos_bound; lia).
  assert (i * esz = 512 * q + entry_off esz i) as Ei by (apply Z.div_mod; lia).
  assert (byte_at ((λ k, disk_byte d (512 * elba + i * esz + k)) <$> seqZ 0 128) k = disk_byte d (512 * (elba + q) + (entry_off esz i + k))) as ->.
  { replace (512 * (elba + q) + (entry_off esz i + k)) with (512 * elba + i * esz + k) by lia.
    unfold byte_at at 1. by rewrite list_lookup_fmap, (proj2 (lookup_seqZ 0 128 (Z.to_nat k) k)) by lia. }
  rewrite byte_at_drop, Z2Nat.id by lia. unfold disk_byte. set (o := entry_off esz i + k).
  assert (o < 512 * entry_sectors esz i) as Hb by (unfold o, entry_sectors, GPT_ENTRY_SIZE; destruct (Z.gtb_spec (entry_off esz i + 128) 512); lia).
  assert (length (sector d (elba + q)) = 512%nat) as L1 by by apply sector_length.
  assert (0 ≤ o) by (unfold o; lia). destruct (decide (o < 512)) as [Hlt|Hge].
  - assert ((512 * (elba + q) + o) / 512 = elba + q ∧ (512 * (elba + q) + o) mod 512 = o) as [-> ->]
      by (split; [symmetry; apply (Z.div_unique _ _ _ o); lia|symmetry; apply (Z.mod_unique _ _ (elba + q)); lia]).
    rewrite seqZ_cons by (unfold entry_sectors; case_match; lia). cbn [fmap list_fmap mjoin list_join].
    unfold byte_at. rewrite lookup_app_l by lia. done.
  - assert (entry_sectors esz i = 2) as E2 by (revert Hb; unfold entry_sectors; case_match; lia).
    assert ((512 * (elba + q) + o) / 512 = elba + q + 1 ∧ (512 * (elba + q) + o) mod 512 = o - 512) as [-> ->].
    { split; [symmetry; apply (Z.div_unique _ _ _ (o - 512)); lia|].
      symmetry; apply (Z.mod_unique _ _ (elba + q + 1)); lia. }
    rewrite E2. change 2 with (Z.succ (Z.succ 0)). rewrite !seqZ_cons by lia. cbn [fmap list_fmap mjoin list_join].
    rewrite Z.add_1_r. unfold byte_at. rewrite lookup_app_r, lookup_app_l by (rewrite ?sector_length by done; lia).
    do 2 f_equal. lia.
Qed.

Lemma entry_fits elba esz i size :
  512 * elba + i * esz + 128 ≤ 512 * size → elba + i * esz / 512 + entry_sectors esz i ≤ size.
Proof.
  intros H. assert (i * esz = 512 * (i * esz / 512) + entry_off esz i) as E by (apply Z.div_mod; lia).
  unfold entry_sectors, GPT_ENTRY_SIZE. assert (0 ≤ entry_off esz i < 512) by (apply Z.mod_pos_bound; lia).
  destruct (Z.gtb_spec (entry_off esz i + 128) 512); lia.
Qed.

Lemma scan_loop_spec n i elba esz s m :
  disk_ok (disk s) → disk_size (disk s) ≤ 2 ^ 48 → 0 ≤ elba → 128 ≤ esz ≤ 512 → 0 ≤ i → i + Z.of_nat n ≤ m →
  (∀ k, i ≤ k < m → 512 * elba + k * esz + 128 ≤ 512 * disk_size (disk s)) →
  (length (g_parts s) ≤ 16)%nat →
  g_parts (scan_loop n i elba esz s) = take 16 (g_parts s ++ used_entries (disk s) elba esz i n).
Proof.
  revert i s. induction n as [|n IH]; intros i s Ok Hd He Hs Hi Hm Hk Hl; cbn [scan_loop].
  { unfold used_entries. simpl. by rewrite app_nil_r, take_ge by lia. }
  unfold g_count, NEXUS_GPT_MAX_PARTITIONS. destruct (Z.ltb_spec (Z.of_nat (length (g_parts s))) 16) as [Hlt|Hge].
  2: { rewrite take_app_le, take_ge by lia. done. }
  pose proof (entry_fits elba esz i (disk_size (disk s)) (Hk i ltac:(lia))) as Hr.
  assert (0 ≤ i * esz / 512) by (apply Z.div_pos; nia).
  assert (1 ≤ entry_sectors esz i ≤ 2) as Hn by (unfold entry_sectors; case_match; lia).
  unfold entry_lba. rewrite u64_small by lia.
  destruct (disk_read_law (disk s) (elba + i * esz / 512) (entry_sectors esz i)) as (d' & Er & Ok' & Es & Hsec);
    [done|lia|lia|lia|].
  rewrite Er. cbn [negb]. pose proof (entry_read (disk s) elba esz i Ok He Hs Hi) as Ha.
  rewrite (proj1 (guid_agree _ _ Ha)), (parse_entry_agree i _ _ Ha). clear Ha.
  assert (used_entries (disk s) elba esz i (S n) =
    (if guid_zero (entry_bytes (disk s) elba esz i) then [] else [parse_entry i (entry_bytes (disk s) elba esz i)])
    ++ used_entries (disk s) elba esz (i + 1) n) as Eu.
  { unfold used_entries. rewrite seqZ_cons by lia. cbn [omap list_omap]. cbv zeta.
    replace (Z.pred (Z.of_nat (S n))) with (Z.of_nat n) by lia. rewrite <- Z.add_1_r.
    by destruct (guid_zero (entry_bytes (disk s) elba esz i)). }
  rewrite Eu. set (e := entry_bytes (disk s) elba esz i).
  assert (∀ l, (length l ≤ 16)%nat → g_parts (scan_loop n (i + 1) elba esz (mkGpt l (g_sector s) d')) =
    take 16 (l ++ used_entries (disk s) elba esz (i + 1) n)) as Hrec.
  { intros l Hl'. pose proof (IH (i + 1) (mkGpt l (g_sector s) d') Ok') as Hi'. cbn [g_parts disk] in Hi'.
    rewrite Es, (used_entries_ext (disk s) d') in Hi' by exact Hsec.
    apply Hi'; [lia..| |lia]. intros k Hk'. apply Hk. lia. }
  destruct (guid_zero e).
  - apply (Hrec (g_parts s)). lia.
  - rewrite app_assoc. apply (Hrec (g_parts s ++ [parse_entry i e])). rewrite length_app. cbn [length]. lia.
Qed.

(** C27: [gpt_scan] of a disk with a valid header finds exactly the used entries
    of the table, in their order, up to sixteen of them - also when an entry
    crosses a sector boundary - and returns their number. *)
Theorem gpt_scan_finds_entries s :
  let h := sector (disk s) 1 in
  let elba := le64 (drop 72 h) in let count := le32_at h 80 in let esz := le32_at h 84 in
  disk_ok (disk s) → length (g_sector s) = 512%nat → 1 < disk_size (disk s) ≤ 2 ^ 48 →
  le64 h = GPT_SIGNATURE → 92 ≤ le32_at h 12 ≤ 512 → 0 < count → 128 ≤ esz ≤ 512 → 0 ≤ elba →
  table_on_disk (disk s) elba esz (Z.to_nat count) →
  let found := take 16 (used_entries (disk s) elba esz 0 (Z.to_nat count)) in
  (gpt_scan s).1 = Z.of_nat (length found) ∧ g_parts (gpt_scan s).2 = found.
Proof.
  intros h elba count esz Ok Lg Hd Hsig Hh Hc Hs He Ht found.
  destruct (disk_read_one (disk s) 1) as (d' & Er & Ok' & Es & Hsec); [done|lia|].
  assert (buf_fill h (g_sector s) = h) as Ef.
  { unfold buf_fill, h. rewrite sector_length, drop_ge by (done || lia). apply app_nil_r. }
  assert (gpt_scan s = (Z.of_nat (length found), scan_loop (Z.to_nat count) 0 elba esz (mkGpt [] h d')) ∧
    g_parts (scan_loop (Z.to_nat count) 0 elba esz (mkGpt [] h d')) = found) as [-> E]; [|done].
  assert (g_parts (scan_loop (Z.to_nat count) 0 elba esz (mkGpt [] h d')) = found) as El.
  { pose proof (scan_loop_spec (Z.to_nat count) 0 elba esz (mkGpt [] h d') count Ok') as E.
    cbn [g_parts disk] in E. rewrite Es, (used_entries_ext (disk s) d') in E by exact Hsec. rewrite app_nil_l in E.
    apply E; [lia..| |simpl; lia]. intros k Hk. apply Ht. lia. }
  split; [|exact El]. unfold gpt_scan. cbv zeta.
  change (ahci_is_ready (disk (s <| g_parts := [] |>))) with (ahci_is_ready (disk s)).
  rewrite (disk_ready (disk s) Ok). cbn [negb].
  change (disk (s <| g_parts := [] |>)) with (disk s). unfold GPT_HEADER_LBA. rewrite Er. cbn [negb].
  change (s <| g_parts := [] |> <| g_sector ::= buf_fill (sector (disk s) 1) |> <| disk := d' |>)
    with (mkGpt [] (buf_fill h (g_sector s)) d'). rewrite Ef. cbn [g_sector].
  fold elba count esz. rewrite Hsig, Z.eqb_refl. cbn [negb]. unfold GPT_HEADER_SIZE, GPT_ENTRY_SIZE.
  rewrite (proj2 (Z.ltb_ge (le32_at h 12) 92)), (proj2 (Z.eqb_neq count 0)), (proj2 (Z.ltb_ge esz 128)) by lia.
  destruct (Z.gtb_spec (le32_at h 12) 512); [lia|]. destruct (Z.gtb_spec esz 512); [lia|]. cbn [orb].
  unfold g_count. by rewrite El.
Qed.
End spec.

(** ** One entry: encode and parse *)

(** An entry of the table as another system writes it: the type, an own GUID,
    the numbers and the name in UTF-16, 36 units. *)
Definition encode_entry (guid own : list Z) (first last attrs : Z) (nm : cstr) : list Z :=
  guid ++ own ++ le64_bytes first ++ le64_bytes last ++ le64_bytes attrs ++
  mjoin ((λ c, [c; 0]) <$> nm) ++ replicate (2 * (36 - length nm)) 0.

Lemma le64_roundtrip pre v post :
  0 ≤ v < 2 ^ 64 → le64 (drop (length pre) (pre ++ le64_bytes v ++ post)) = v.
Proof.
  intros Hv. rewrite drop_app_length. unfold le64, le64_at, le64_bytes, byte_at.
  change (seqZ 0 8) with [0; 1; 2; 3; 4; 5; 6; 7]. simpl.
  change (8 * 0) with 0. change (8 * 1) with 8. change (8 * 2) with 16. change (8 * 3) with 24. change (8 * 4) with 32. change (8 * 5) with 40. change (8 * 6) with 48. change (8 * 7) with 56. 
  change (0 * 8) with 0. change (1 * 8) with 8. change (2 * 8) with 16. change (3 * 8) with 24. change (4 * 8) with 32. change (5 * 8) with 40. change (6 * 8) with 48. change (7 * 8) with 56.
  change (Z.shiftr v 0) with v.
  assert (∀ k, 0 ≤ u8 (Z.shiftr v k) < 2 ^ 8) as Hb by (intros; apply u8_byte).
  pose proof (u8_byte v) as H0; unfold is_byte in H0; pose proof (Hb 8); pose proof (Hb 16); pose proof (Hb 24).
  pose proof (Hb 32); pose proof (Hb 40); pose proof (Hb 48). clear Hb.
  rewrite Z.lor_0_l, Z.shiftl_0_r.
  rewrite (lor_shiftl_add _ _ 8), (lor_shiftl_add _ _ 16), (lor_shiftl_add _ _ 24), (lor_shiftl_add _ _ 32),
    (lor_shiftl_add _ _ 40), (lor_shiftl_add _ _ 48), (lor_shiftl_add _ _ 56) by lia. unfold u8.
  rewrite !Z.shiftr_div_pow2 by lia. 
  assert (∀ k, 0 ≤ k → v / 2 ^ k mod 2 ^ 8 * 2 ^ k = (v mod 2 ^ (k + 8)) - v mod 2 ^ k) as E.
  { intros k Hk. rewrite Z.pow_add_r by lia.
    rewrite (Z.rem_mul_r v (2 ^ k) (2 ^ 8)) by lia. lia. }
  rewrite (E 8), (E 16), (E 24), (E 32), (E 40), (E 48), (E 56) by lia.
  change (8 + 8) with 16. change (16 + 8) with 24. change (24 + 8) with 32. change (32 + 8) with 40. change (40 + 8) with 48. change (48 + 8) with 56. change (56 + 8) with 64.
  rewrite (Z.mod_small v (2 ^ 64)) by done. lia.
Qed.

Definition ascii_name (nm : cstr) : Prop := Forall (λ c, 0 < c < 128) nm.

(** The name field: the units of [nm], then zeros. *)
Definition name_field (nm : cstr) : list Z := mjoin ((λ c, [c; 0]) <$> nm) ++ replicate (2 * (36 - length nm)) 0.

Lemma name_units nm k :
  ascii_name nm → (length nm ≤ 36)%nat → (k < 36)%nat →
  byte_at (name_field nm) (2 * Z.of_nat k) = default 0 (nm !! k) ∧ byte_at (name_field nm) (2 * Z.of_nat k + 1) = 0.
Proof.
  unfold name_field. intros Ha. revert k. generalize 36%nat as m. induction nm as [|c nm IH]; intros m k Hl Hk.
  - change (mjoin ((λ c : Z, [c; 0]) <$> []) ++ ?r) with r. unfold byte_at. rewrite !lookup_replicate_2 by (simpl; lia). done.
  - apply Forall_cons in Ha as [Hc Ha]. destruct m as [|m]; [simpl in Hl; lia|].
    assert (mjoin ((λ c : Z, [c; 0]) <$> c :: nm) ++ replicate (2 * (S m - length (c :: nm))) 0 =
      [c; 0] ++ (mjoin ((λ c : Z, [c; 0]) <$> nm) ++ replicate (2 * (m - length nm)) 0)) as -> by done.
    destruct k as [|k]; [done|].
    replace (2 * Z.of_nat (S k)) with (2 + 2 * Z.of_nat k) by lia. rewrite <- Z.add_assoc.
    rewrite !(byte_at_app [c; 0]) by (done || lia). apply (IH Ha m k); simpl in Hl; lia.
Qed.

Lemma name_loop_spec n k nm room :
  ascii_name nm → (length nm ≤ 36)%nat → (k + n = 18)%nat → Z.of_nat n ≤ room →
  name_loop (name_field nm) n (2 * Z.of_nat k) room = take n (drop k nm).
Proof.
  intros Ha Hl. revert k room. induction n as [|n IH]; intros k room Hn Hr; [done|]. cbn [name_loop].
  destruct (Z.ltb_spec (2 * Z.of_nat k) 36); [|lia]. destruct (Z.ltb_spec 0 room); [|lia]. cbn [andb].
  destruct (name_units nm k Ha Hl ltac:(lia)) as [-> ->]. rewrite Z.shiftl_0_l, Z.lor_0_r.
  destruct (nm !! k) as [c|] eqn:Ek; simpl default.
  - pose proof (Forall_lookup_1 _ _ _ _ Ha Ek) as Hc. cbv beta in Hc.
    destruct (Z.eqb_spec c 0); [lia|]. destruct (Z.ltb_spec c 128); [|lia].
    rewrite (drop_S nm c k Ek). simpl take. f_equal.
    replace (2 * Z.of_nat k + 2) with (2 * Z.of_nat (S k)) by lia. apply IH; lia.
  - simpl. apply lookup_ge_None in Ek. by rewrite drop_ge, take_nil.
Qed.

(** Parsing an entry gives back what was encoded: the numbers, the bytes of
    the type GUID in text form, and the first 18 characters of the name (the
    loop counts the bytes of the field, so half of its 36 units are read). *)
Theorem gpt_entry_roundtrip i guid own first last attrs nm :
  length guid = 16%nat → length own = 16%nat →
  0 ≤ first < 2 ^ 64 → 0 ≤ last < 2 ^ 64 → 0 ≤ attrs < 2 ^ 64 → ascii_name nm → (length nm ≤ 36)%nat →
  parse_entry i (encode_entry guid own first last attrs nm) =
    mkPartition (u32 (i + 1)) first last attrs (guid_to_text guid) (take 18 nm).
Proof.
  intros Lg Lo Hf Hl Ha Hn Hlen. unfold parse_entry, encode_entry. fold (name_field nm).
  assert (∀ v, length (le64_bytes v) = 8%nat) as L8 by done. f_equal.
  - pose proof (le64_roundtrip (guid ++ own) first (le64_bytes last ++ le64_bytes attrs ++ name_field nm) Hf) as E.
    rewrite length_app, Lg, Lo, <- app_assoc in E. exact E.
  - pose proof (le64_roundtrip (guid ++ own ++ le64_bytes first) last (le64_bytes attrs ++ name_field nm) Hl) as E.
    rewrite !length_app, Lg, Lo, L8, <- !app_assoc in E. exact E.
  - pose proof (le64_roundtrip (guid ++ own ++ le64_bytes first ++ le64_bytes last) attrs (name_field nm) Ha) as E.
    rewrite !length_app, Lg, Lo, !L8, <- !app_assoc in E. exact E.
  - unfold guid_to_text. f_equal. do 16 (destruct guid as [|? guid]; [done|]). by destruct guid.
  - unfold decode_name.
    assert (drop 56 (guid ++ own ++ le64_bytes first ++ le64_bytes last ++ le64_bytes attrs ++ name_field nm) = name_field nm) as ->.
    { rewrite !app_assoc. apply drop_app_length'. rewrite !length_app, Lg, Lo, !L8. done. }
    rewrite (name_loop_spec 18 0 nm) by (done || lia). by rewrite drop_0.
Qed.

(** ** A table on a RAM disk: two partitions, the second behind an unused entry *)

Definition demo_guid : list Z := [0x28; 0x73; 0x2A; 0xC1; 0x1F; 0xF8; 0xD2; 0x11; 0xBA; 0x4B; 0; 0xA0; 0xC9; 0x3E; 0xC9; 0x3B].
Definition demo_own : list Z := replicate 16 1.
Definition demo_header : list Z :=
  buf_store 84 (le32_bytes 128) (buf_store 80 (le32_bytes 3) (buf_store 72 (le64_bytes 2)
    (buf_store 12 (le32_bytes 92) (buf_store 0 (le64_bytes GPT_SIGNATURE) zero_sector)))).
Definition demo_entries : list Z :=
  take 512 (encode_entry demo_guid demo_own 40 99 0 (lit "EFI") ++ replicate 128 0 ++
            encode_entry demo_guid demo_own 100 199 0 (lit "NexusOS") ++ replicate 128 0).
Definition demo_disk : ramdisk := mkRamdisk 200 (<[1 := demo_header]> (<[2 := demo_entries]> ∅)) [].
Definition demo : gpt ramdisk := mkGpt [] zero_sector demo_disk.

Lemma gpt_scan_finds_entries_witness :
  (gpt_scan demo).1 = 2 ∧ name <$> g_parts (gpt_scan demo).2 = [lit "EFI"; lit "NexusOS"].
Proof.
  assert (disk_ok (disk demo)) as Ok.
  { change (ramdisk_ok demo_disk). unfold ramdisk_ok, demo_disk.
    repeat (apply map_Forall_insert_2; [split; [vm_compute; reflexivity|
      apply (bool_decide_unpack _); vm_compute; exact I]|]). apply map_Forall_empty. }
  destruct (gpt_scan_finds_entries demo) as [-> ->].
  - exact Ok.
  - reflexivity.
  - vm_compute. intuition discriminate.
  - vm_compute. reflexivity.
  - vm_compute. intuition discriminate.
  - vm_compute. reflexivity.
  - vm_compute. intuition discriminate.
  - vm_compute. discriminate.
  - intros k Hk.
    assert (Z.of_nat (Z.to_nat (le32_at (sector (disk demo) 1) 80)) = 3) as E by (vm_compute; reflexivity).
    rewrite E in Hk. assert (k = 0 ∨ k = 1 ∨ k = 2) as [->|[->| ->]] by lia;
      vm_compute; discriminate.
  - split; vm_compute; reflexivity.
Defined.

Lemma gpt_entry_roundtrip_witness :
  parse_entry 4 (encode_entry demo_guid demo_own 40 99 0 (lit "A partition name longer")) =
    mkPartition 5 40 99 0 (lit "C12A7328F81F11D2BA4B00A0C93EC93B") (lit "A partition name l").
Proof.
  apply (gpt_entry_roundtrip 4 demo_guid demo_own 40 99 0 (lit "A partition name longer")); try reflexivity; try lia.
  - apply (bool_decide_unpack _). vm_compute. exact I.
  - apply (bool_decide_unpack _). vm_compute. exact I.
Defined.
End Gpt.
