(* ===== verification/Elf.v ===== *)
(** * The ELF loader

    [src/kernel/core/elf_loader.c]: the checks on the headers of a file, the
    placement of the image, the mapping of its pages and of the user stack
    through the operations of [Process], and the copy of the segments.  The
    file comes through [ElfFiles], which stands for [fat32_read_file]. *)

From Stdlib Require Import Lia ZArith Bool.
From stdpp Require Import base list gmap numbers functions strings.
From S2P Require Import Prelude Pmm Paging ProcTable Ipc Process ProcessSpec ProcMem UserMem Disk.

Local Open Scope Z_scope.

Module Elf.
Import Process.

Definition ELF_BUFFER_SIZE : Z := 65536.
Definition ELFCLASS64 : Z := 2.
Definition ELFDATA2LSB : Z := 1.
Definition ET_EXEC : Z := 2.
Definition ET_DYN : Z := 3.
Definition EM_X86_64 : Z := 62.
Definition PT_LOAD : Z := 1.
Definition PF_X : Z := 1.
Definition PF_W : Z := 2.
Definition ELF_MAX_PHNUM : Z := 32.
Definition ELF_MAX_IMAGE_PAGES : Z := 12.
Definition ELF_STACK_PAGES : Z := 4.
Definition IMAGE_BASE : Z := 0x400000.
Definition STACK_TOP : Z := 0x80000000.
Definition stack_base : Z := STACK_TOP - ELF_STACK_PAGES * PROC_PAGE_SIZE.
Definition PROCESS_FLAG_USER_CONTEXT : Z := 1.

(** ** Headers *)

Record elf64_ehdr_t := mkEhdr {
  ident : list Z;
  eh_type : Z;
  machine : Z;
  version : Z;
  entry : Z;
  phoff : Z;
  shoff : Z;
  eh_flags : Z;
  ehsize : Z;
  phentsize : Z;
  phnum : Z;
  shentsize : Z;
  shnum : Z;
  shstrndx : Z;
}.

Record elf64_phdr_t := mkPhdr {
  ph_type : Z;
  ph_flags : Z;
  offset : Z;
  vaddr : Z;
  paddr : Z;
  filesz : Z;
  memsz : Z;
  align : Z;
}.

Definition sizeof_ehdr : Z := 64.
Definition sizeof_phdr : Z := 56.

(** The pointers [eh] and [&phdrs[i]] into the file buffer. *)
Definition ehdr_of (file : list Z) : elf64_ehdr_t := {|
  ident := take 16 file; eh_type := le16_at file 16; machine := le16_at file 18; version := le32_at file 20;
  entry := le64_at file 24; phoff := le64_at file 32; shoff := le64_at file 40; eh_flags := le32_at file 48;
  ehsize := le16_at file 52; phentsize := le16_at file 54; phnum := le16_at file 56;
  shentsize := le16_at file 58; shnum := le16_at file 60; shstrndx := le16_at file 62 |}.

Definition phdr_at (file : list Z) (off : Z) : elf64_phdr_t := {|
  ph_type := le32_at file off; ph_flags := le32_at file (off + 4); offset := le64_at file (off + 8);
  vaddr := le64_at file (off + 16); paddr := le64_at file (off + 24); filesz := le64_at file (off + 32);
  memsz := le64_at file (off + 40); align := le64_at file (off + 48) |}.

Definition phdrs (file : list Z) : list elf64_phdr_t :=
  let eh := ehdr_of file in (λ i, phdr_at file (phoff eh + sizeof_phdr * i)) <$> seqZ 0 (phnum eh).

(** ** Checks *)

Definition align_down (x : Z) : Z := Z.land x (not64 (PROC_PAGE_SIZE - 1)).
Definition align_up (x : Z) : Z :=
  if x >? UINT64_MAX - (PROC_PAGE_SIZE - 1) then 0
  else Z.land (u64 (x + PROC_PAGE_SIZE - 1)) (not64 (PROC_PAGE_SIZE - 1)).

Definition range_ok (start size limit : Z) : bool := size <=? u64 (limit - start).

Definition phdr_bounds (eh : elf64_ehdr_t) (file_size : Z) : bool :=
  if negb (phentsize eh =? sizeof_phdr) || (phnum eh =? 0) || (phnum eh >? ELF_MAX_PHNUM) then false
  else
    let bytes := u64 (phnum eh * phentsize eh) in
    (phoff eh <=? file_size) && (bytes <=? u64 (file_size - phoff eh)).

Definition ident_ok (eh : elf64_ehdr_t) : bool :=
  bool_decide (take 6 (ident eh) = [0x7F; 69; 76; 70; ELFCLASS64; ELFDATA2LSB]).

Definition ehdr_ok (eh : elf64_ehdr_t) (file_size : Z) : bool :=
  ident_ok eh && (machine eh =? EM_X86_64) && ((eh_type eh =? ET_EXEC) || (eh_type eh =? ET_DYN)) &&
  phdr_bounds eh file_size.

(** The early returns of the loop over the segments. *)
Definition segment_ok (file_size : Z) (p : elf64_phdr_t) : bool :=
  if (memsz p =? 0) || (filesz p >? memsz p) || (offset p >? file_size) ||
     (filesz p >? u64 (file_size - offset p)) then false
  else if (vaddr p <? PROCESS_USER_BASE) || (vaddr p >=? PROCESS_USER_LIMIT) then false
  else if negb (range_ok (vaddr p) (memsz p) PROCESS_USER_LIMIT) then false
  else if u64 (offset p + filesz p) <? offset p then false
  else
    let en := align_up (u64 (vaddr p + memsz p)) in
    negb ((en =? 0) || (en <=? align_down (vaddr p))).

(** The loop: [start], [en] and [count] are [image_start], [image_end] and
    [load_count]. *)
Fixpoint scan_segments (file_size : Z) (ps : list elf64_phdr_t) (start en count : Z) : option (Z * Z * Z) :=
  match ps with
  | [] => Some (start, en, count)
  | p :: ps =>
     if negb (ph_type p =? PT_LOAD) then scan_segments file_size ps start en count
     else if negb (segment_ok file_size p) then None
     else
       let b := align_down (vaddr p) in
       let e := align_up (u64 (vaddr p + memsz p)) in
       scan_segments file_size ps (if b <? start then b else start) (if e >? en then e else en) (count + 1)
  end.

Record image := mkImage { im_start : Z; im_end : Z; im_bias : Z }.

(** Rebasing of an [ET_DYN] image. *)
Definition rebase (eh : elf64_ehdr_t) (start en : Z) : option image :=
  if eh_type eh =? ET_DYN then
    let bias := i64 (i64 IMAGE_BASE - i64 start) in
    if ((bias >? 0) && (en >? UINT64_MAX - u64 bias)) || ((bias <? 0) && (start <? u64 (- bias))) then None
    else Some (mkImage (u64 (i64 start + bias)) (u64 (i64 en + bias)) bias)
  else Some (mkImage start en 0).

Definition image_pages (im : image) : Z := (im_end im - im_start im) / PROC_PAGE_SIZE.

Definition image_ok (im : image) : bool :=
  if (im_start im <? PROCESS_USER_BASE) || (im_end im >? PROCESS_USER_LIMIT) || (im_end im <=? im_start im) then false
  else if (image_pages im =? 0) || (image_pages im >? ELF_MAX_IMAGE_PAGES) ||
          (image_pages im + ELF_STACK_PAGES >? PROCESS_USER_MAX_PAGES) then false
  else negb (im_end im >=? stack_base).

(** Everything between reading the file and the first mapping. *)
Definition elf_check (file : list Z) (file_size : Z) : option image :=
  let eh := ehdr_of file in
  if (file_size <? sizeof_ehdr) || negb (ehdr_ok eh file_size) then None
  else
    match scan_segments file_size (phdrs file) UINT64_MAX 0 0 with
    | None => None
    | Some (start, en, count) =>
       if (count =? 0) || (start =? UINT64_MAX) || (en <=? start) then None
       else
         match rebase eh start en with
         | None => None
         | Some im => if image_ok im then Some im else None
         end
    end.

(** ** Permissions *)

(** Does the segment [p] touch [page]? *)
Definition covers_page (page : Z) (p : elf64_phdr_t) : bool :=
  if negb (ph_type p =? PT_LOAD) || (memsz p =? 0) then false
  else
    let en := align_up (u64 (vaddr p + memsz p)) in
    negb ((en =? 0) || (page <? align_down (vaddr p)) || (page >=? en)).

Definition page_flags_for (ps : list elf64_phdr_t) (va : Z) : Z :=
  let over := filter (λ p, covers_page (align_down va) p = true) ps in
  let writable := existsb (λ p, has_bits (ph_flags p) PF_W) over in
  let executable := existsb (λ p, has_bits (ph_flags p) PF_X) over in
  let flags := if writable then VMM_PAGE_WRITABLE else 0 in
  let flags := if executable then flags else Z.lor flags VMM_PAGE_NX in
  i32 flags.

(** ** Loading *)

Class ElfFiles (E : Type) := {
  (** [fat32_read_file (path, file, size, &file_size)]: the bytes read, at
      most [size]; [None] is the result 0. *)
  ef_read_file : cstr → Z → E → option (list Z) * E;
}.

(** A read gives bytes, and no more than the buffer holds. *)
Class ElfFilesLaws (E : Type) `{ElfFiles E} := {
  ef_read_law path e bytes e' :
    ef_read_file path ELF_BUFFER_SIZE e = (Some bytes, e') →
    Forall is_byte bytes ∧ Z.of_nat (length bytes) ≤ ELF_BUFFER_SIZE;
}.

(** A loop that leaves at the first failure. *)
Fixpoint all_ok {A S} (f : A → S → bool * S) (l : list A) (s : S) : bool * S :=
  match l with
  | [] => (true, s)
  | a :: l => match f a s with (true, s) => all_ok f l s | (false, s) => (false, s) end
  end.

Section load.
Context {E : Type} `{MemEnv E} `{ElfFiles E}.
Implicit Types (t : ptable) (e : E).

Definition map_zeroed (p : Z) (page : Z * Z) (te : ptable * E) : bool * (ptable * E) :=
  let '(va, flags) := page in
  let '(ok, t, e) := process_map_user_page p va flags te.1 te.2 in
  if negb ok then (false, (t, e))
  else let '(ok, e) := process_user_zero p va PROC_PAGE_SIZE t e in (ok, (t, e)).

(** The pages of the image, then those of the stack, with their flags. *)
Definition image_page_list (ps : list elf64_phdr_t) (im : image) : list (Z * Z) :=
  (λ k, let va := im_start im + k * PROC_PAGE_SIZE in
        (va, u64 (page_flags_for ps (u64 (i64 va - im_bias im))))) <$> seqZ 0 (image_pages im).
Definition stack_page_list : list (Z * Z) :=
  (λ k, (stack_base + k * PROC_PAGE_SIZE, Z.lor VMM_PAGE_WRITABLE VMM_PAGE_NX)) <$> seqZ 0 ELF_STACK_PAGES.

Definition copy_segment (p : Z) (file : list Z) (bias : Z) t (ph : elf64_phdr_t) e : bool * E :=
  if negb (ph_type ph =? PT_LOAD) || (filesz ph =? 0) then (true, e)
  else process_user_copy p (u64 (i64 (vaddr ph) + bias)) (Some (λ k, byte_at file (offset ph + k))) (filesz ph) t e.

(** The assignments after the copy. *)
Definition context_set (ent : Z) (r : nexus_process_t) : nexus_process_t :=
  r <| user_entry := ent |> <| user_stack_base := STACK_TOP |>
    <| user_stack_size := ELF_STACK_PAGES * PROC_PAGE_SIZE |>
    <| user_pages_reserved := user_page_count r |> <| p_flags ::= λ f, Z.lor f PROCESS_FLAG_USER_CONTEXT |>.

(** The label [fail]. *)
Definition elf_fail (p : Z) t e : bool * ptable * E :=
  let '(_, t, e) := process_unmap_user_memory p t e in (false, t, e).

(** From the first mapping to the end. *)
Definition elf_install (p : Z) (file : list Z) (im : image) t e : bool * ptable * E :=
  let ps := phdrs file in
  let '(ok, (t, e)) := all_ok (map_zeroed p) (image_page_list ps im) (t, e) in
  if negb ok then elf_fail p t e
  else
    let '(ok, (t, e)) := all_ok (map_zeroed p) stack_page_list (t, e) in
    if negb ok then elf_fail p t e
    else
      let '(ok, e) := all_ok (copy_segment p file (im_bias im) t) ps e in
      if negb ok then elf_fail p t e
      else
        let ent := u64 (i64 (entry (ehdr_of file)) + im_bias im) in
        if (ent <? im_start im) || (ent >=? im_end im) then elf_fail p t e
        else
          match process_get t p with
          | None => elf_fail p t e
          | Some i => (true, set_proc i (context_set ent) t, e)
          end.

(** [file] is the static buffer, whose old bytes stay behind the file read. *)
Definition nexus_elf_load_process (p : Z) (path : option cstr) t e (file : list Z)
    : bool * ptable * E * list Z :=
  match process_get t p, path with
  | Some i, Some path =>
     if bool_decide (p_state (proc t i) = PROCESS_ZOMBIE) || negb (user_page_count (proc t i) =? 0)
     then (false, t, e, file)
     else
       match ef_read_file path ELF_BUFFER_SIZE e with
       | (None, e) => (false, t, e, file)
       | (Some bytes, e) =>
          let file := buf_fill bytes file in
          match elf_check file (Z.of_nat (length bytes)) with
          | None => (false, t, e, file)
          | Some im => let '(ok, t, e) := elf_install p file im t e in (ok, t, e, file)
          end
       end
  | _, _ => (false, t, e, file)
  end.
End load.

Definition nexus_elf_user_stack_top : Z := STACK_TOP.

(** ** What the checks guarantee *)

Definition is_load (p : elf64_phdr_t) : Prop := ph_type p = PT_LOAD.

(** Every field of the headers is in the range of its C type. *)
Record phdr_wf (p : elf64_phdr_t) : Prop := {
  pw_off : 0 ≤ offset p < 2 ^ 64;
  pw_va : 0 ≤ vaddr p < 2 ^ 64;
  pw_fsz : 0 ≤ filesz p < 2 ^ 64;
  pw_msz : 0 ≤ memsz p < 2 ^ 64;
}.

Lemma phdrs_wf file : Forall is_byte file → Forall phdr_wf (phdrs file).
Proof.
  intros Fb. unfold phdrs. apply Forall_fmap, Forall_true. intros k. split; by apply le64_range.
Qed.

Lemma elf_align_down_spec x : 0 ≤ x < 2 ^ 64 → align_down x = x - x mod 4096.
Proof.
  intros Hx. unfold align_down. change (PROC_PAGE_SIZE - 1) with (2 ^ 12 - 1).
  by rewrite land_not64_mask by lia.
Qed.

Lemma elf_align_up_spec x :
  0 ≤ x < 2 ^ 64 - 4096 → x ≤ align_up x < x + 4096 ∧ align_up x mod 4096 = 0.
Proof.
  intros Hx. unfold align_up, UINT64_MAX, PROC_PAGE_SIZE. destruct (Z.gtb_spec x (2 ^ 64 - 1 - (4096 - 1))); [lia|].
  change (4096 - 1) with (2 ^ 12 - 1). rewrite u64_small, land_not64_mask by lia. change (2 ^ 12) with 4096.
  split; [Z.to_euclidean_division_equations; lia|]. Z.to_euclidean_division_equations. lia.
Qed.

(** What an accepted segment satisfies; [b] and [e] are its first page and
    the end of its last one. *)
Record segment_fits (n : Z) (p : elf64_phdr_t) (b e : Z) : Prop := {
  sf_file : offset p + filesz p ≤ n;
  sf_sizes : filesz p ≤ memsz p;
  sf_pos : 0 < memsz p;
  sf_base : PROCESS_USER_BASE ≤ b;
  sf_start : b ≤ vaddr p;
  sf_end : vaddr p + memsz p ≤ e;
  sf_limit : e ≤ PROCESS_USER_LIMIT;
  sf_b : b mod 4096 = 0;
  sf_e : e mod 4096 = 0;
}.

Lemma segment_ok_fits n p :
  0 ≤ n < 2 ^ 32 → phdr_wf p → segment_ok n p = true →
  segment_fits n p (align_down (vaddr p)) (align_up (u64 (vaddr p + memsz p))).
Proof.
  intros Hn [Ho Hv Hf Hm]. unfold segment_ok, range_ok, PROCESS_USER_BASE, PROCESS_USER_LIMIT.
  destruct (Z.eqb_spec (memsz p) 0); [done|]. destruct (Z.gtb_spec (filesz p) (memsz p)); [done|].
  destruct (Z.gtb_spec (offset p) n); [done|]. cbn [orb]. rewrite (u64_small (n - offset p)) by lia.
  destruct (Z.gtb_spec (filesz p) (n - offset p)); [done|].
  destruct (Z.ltb_spec (vaddr p) 0x400000); [done|]. destruct (Z.geb_spec (vaddr p) 0x7FFFFFFFF000); [done|]. cbn [orb].
  rewrite (u64_small (_ - vaddr p)) by lia. destruct (Z.leb_spec (memsz p) (0x7FFFFFFFF000 - vaddr p)); [|done]. cbn [negb].
  intros _. rewrite (u64_small (vaddr p + memsz p)), elf_align_down_spec by lia.
  pose proof (elf_align_up_spec (vaddr p + memsz p) ltac:(lia)) as [Hu Hu'].
  split; unfold PROCESS_USER_BASE, PROCESS_USER_LIMIT; try lia; Z.to_euclidean_division_equations; lia.
Qed.

(** The loop over the segments: all of them fit, and the result is their hull. *)
Lemma scan_segments_spec n ps start en count start' en' count' :
  0 ≤ n < 2 ^ 32 → Forall phdr_wf ps → scan_segments n ps start en count = Some (start', en', count') →
  start' ≤ start ∧ en ≤ en' ∧ count ≤ count' ∧
  (count < count' → Exists is_load ps) ∧
  (start' = start ∨ PROCESS_USER_BASE ≤ start' ∧ start' mod 4096 = 0) ∧
  (en' = en ∨ en' ≤ PROCESS_USER_LIMIT ∧ en' mod 4096 = 0) ∧
  ∀ p, p ∈ ps → is_load p → ∃ b e, segment_fits n p b e ∧ start' ≤ b ∧ e ≤ en'.
Proof.
  intros Hn. revert start en count. induction ps as [|p ps IH]; intros start en count Hwf; cbn [scan_segments].
  { intros [= <- <- <-]. split_and!; try lia. intros p Hp. by apply elem_of_nil in Hp. }
  apply Forall_cons_1 in Hwf as [Hp Hps]. destruct (Z.eqb_spec (ph_type p) PT_LOAD) as [Et|Et]; cbn [negb].
  - destruct (segment_ok n p) eqn:Ek; [|done]. cbn [negb]. intros Hs.
    pose proof (segment_ok_fits n p Hn Hp Ek) as Hfit. set (b := align_down (vaddr p)) in *.
    set (e := align_up (u64 (vaddr p + memsz p))) in *.
    destruct (IH _ _ _ Hps Hs) as (I1 & I2 & I3 & I4 & I5 & I6 & I7). clear IH Hs.
    destruct (Z.ltb_spec b start), (Z.gtb_spec e en); destruct Hfit; (split_and!; [lia|lia|lia|by constructor|..]);
      try (destruct I5 as [->|]; [tauto|tauto]); try (destruct I6 as [->|]; [tauto|tauto]);
      intros q [->|Hq]%elem_of_cons Hq'; try (by apply I7); (exists b, e; split; [by split|lia]).
  - intros Hs. destruct (IH _ _ _ Hps Hs) as (I1 & I2 & I3 & I4 & I5 & I6 & I7).
    split_and!; try done. { intros Hc. constructor 2. by apply I4. }
    intros q [->|Hq]%elem_of_cons Hq'; [done|by apply I7].
Qed.

Lemma i64_small x : 0 ≤ x < 2 ^ 63 → i64 x = x.
Proof.
  intros Hx. unfold i64, to_signed. rewrite Z.mod_small by lia. destruct (Z.ltb_spec x (2 ^ (64 - 1))); lia.
Qed.

Lemma i64_signed x : - 2 ^ 63 ≤ x < 2 ^ 63 → i64 x = x.
Proof.
  intros Hx. destruct (decide (0 ≤ x)); [apply i64_small; lia|]. unfold i64, to_signed.
  rewrite <- (Z.mod_add x 1) by lia. rewrite Z.mod_small by lia. destruct (Z.ltb_spec (x + 1 * 2 ^ 64) (2 ^ (64 - 1))); lia.
Qed.

Lemma rebase_spec eh start en im :
  PROCESS_USER_BASE ≤ start → start < en → en ≤ PROCESS_USER_LIMIT → start mod 4096 = 0 →
  rebase eh start en = Some im →
  im_start im = start + im_bias im ∧ im_end im = en + im_bias im ∧
  im_bias im = (if eh_type eh =? ET_DYN then IMAGE_BASE - start else 0).
Proof.
  unfold PROCESS_USER_BASE, PROCESS_USER_LIMIT, rebase. intros Hb Hlt Hl Hm. destruct (_ =? ET_DYN).
  - rewrite !(i64_small IMAGE_BASE), !(i64_small start) by (unfold IMAGE_BASE; lia).
    rewrite (i64_signed (IMAGE_BASE - start)) by (unfold IMAGE_BASE; lia).
    destruct (_ || _); [done|]. intros [= <-]. cbn [im_start im_end im_bias].
    rewrite !i64_small by lia. rewrite !u64_small by (unfold IMAGE_BASE; lia). lia.
  - intros [= <-]. cbn. lia.
Qed.

(** What the checks establish. *)
Lemma elf_check_facts file n im :
  Forall is_byte file → 0 ≤ n < 2 ^ 32 → elf_check file n = Some im →
  let eh := ehdr_of file in
  64 ≤ n ∧ 1 ≤ phnum eh ≤ 32 ∧ phoff eh + 56 * phnum eh ≤ n ∧ Exists is_load (phdrs file) ∧
  PROCESS_USER_BASE ≤ im_start im ∧ im_start im mod 4096 = 0 ∧
  im_end im = im_start im + 4096 * image_pages im ∧ 1 ≤ image_pages im ≤ 12 ∧ im_end im < stack_base ∧
  (eh_type eh = ET_DYN → im_start im = IMAGE_BASE) ∧ (eh_type eh ≠ ET_DYN → im_bias im = 0) ∧
  ∀ p, p ∈ phdrs file → is_load p →
    offset p + filesz p ≤ n ∧ filesz p ≤ memsz p ∧ 0 < memsz p ∧ PROCESS_USER_BASE ≤ vaddr p ∧
    u64 (i64 (vaddr p) + im_bias im) = vaddr p + im_bias im ∧
    im_start im ≤ vaddr p + im_bias im ∧ vaddr p + im_bias im + memsz p ≤ im_end im.
Proof.
  intros Fb Hn. unfold elf_check, sizeof_ehdr. destruct (Z.ltb_spec n 64); [done|]. cbn [orb].
  destruct (ehdr_ok (ehdr_of file) n) eqn:Ee; [|done]. cbn [negb].
  apply andb_true_iff in Ee as [_ Hpb]. unfold phdr_bounds, sizeof_phdr, ELF_MAX_PHNUM in Hpb.
  destruct (Z.eqb_spec (phentsize (ehdr_of file)) 56) as [E56|]; [|done]. cbn [negb orb] in Hpb.
  destruct (Z.eqb_spec (phnum (ehdr_of file)) 0) as [|Hz]; [done|]. destruct (Z.gtb_spec (phnum (ehdr_of file)) 32); [done|].
  cbn [orb] in Hpb. apply andb_true_iff in Hpb as [H1%Z.leb_le H2%Z.leb_le].
  pose proof (le16_range file 56 Fb : 0 ≤ phnum (ehdr_of file) < _) as Hpn.
  pose proof (le64_range file 32 Fb : 0 ≤ phoff (ehdr_of file) < _) as Hpo.
  rewrite E56, !u64_small in H2 by lia.
  destruct (scan_segments n (phdrs file) UINT64_MAX 0 0) as [[[start en] count]|] eqn:Es; [|done].
  destruct (Z.eqb_spec count 0); [done|]. destruct (Z.eqb_spec start UINT64_MAX) as [|Hst]; [done|].
  destruct (Z.leb_spec en start); [done|]. cbn [orb].
  destruct (scan_segments_spec _ _ _ _ _ _ _ _ Hn (phdrs_wf file Fb) Es) as (I1 & I2 & I3 & I4 & I5 & I6 & I7).
  specialize (I4 ltac:(lia)). destruct I5 as [|[Hs Hsm]]; [done|].
  destruct (rebase (ehdr_of file) start en) as [im'|] eqn:Er; [|done].
  destruct (image_ok im') eqn:Ei; [|done]. intros [= ->].
  destruct I6 as [->|[Hl Hem]]; [unfold PROCESS_USER_BASE in *; lia|].
  destruct (rebase_spec _ start en im Hs ltac:(lia) Hl Hsm Er) as (R1 & R2 & R3).
  assert (im_start im mod 4096 = 0 ∧ im_end im mod 4096 = 0) as [Ms Me].
  { rewrite R1, R2, R3. case_match; unfold IMAGE_BASE; Z.to_euclidean_division_equations; lia. }
  unfold image_ok, ELF_MAX_IMAGE_PAGES, ELF_STACK_PAGES in Ei.
  destruct (Z.ltb_spec (im_start im) PROCESS_USER_BASE); [done|].
  destruct (im_end im >? PROCESS_USER_LIMIT); [done|]. destruct (Z.leb_spec (im_end im) (im_start im)); [done|].
  cbn [orb] in Ei. destruct (Z.eqb_spec (image_pages im) 0); [done|]. destruct (Z.gtb_spec (image_pages im) 12); [done|].
  cbn [orb] in Ei. destruct (_ >? PROCESS_USER_MAX_PAGES); [done|]. destruct (Z.geb_spec (im_end im) stack_base); [done|].
  assert (im_end im = im_start im + 4096 * image_pages im ∧ 0 ≤ image_pages im) as [Ep Ep'].
  { unfold image_pages, PROC_PAGE_SIZE. split; [|apply Z.div_pos; lia]. Z.to_euclidean_division_equations; lia. }
  split_and!; try done; try lia.
  - intros Ed. rewrite R1, R3, Ed. cbn. lia.
  - intros Ed. apply Z.eqb_neq in Ed. by rewrite R3, Ed.
  - intros p Hp Hld. destruct (I7 p Hp Hld) as (b & e & [F1 F2 F3 F4 F5 F6 F7 F8 F9] & Hb & He).
    pose proof (proj1 (List.Forall_forall _ _) (phdrs_wf file Fb) p (proj1 (list_elem_of_In _ _) Hp)) as [_ Hv _ _].
    unfold PROCESS_USER_BASE, PROCESS_USER_LIMIT, stack_base, STACK_TOP, ELF_STACK_PAGES, PROC_PAGE_SIZE in *.
    assert (0 ≤ vaddr p + im_bias im < 2 ^ 63) by lia.
    rewrite i64_small, u64_small by lia. split_and!; lia.
Qed.

(** C17: An image that passes the checks is safe to load, whatever bytes the
    file has: the header table and the data of every loadable segment lie
    inside the file, the segments lie inside the image, which is made of 1 to
    12 whole pages of user space below the stack, and the address a segment is
    copied to is computed without wrapping around. *)
Theorem elf_check_sound file n im :
  Forall is_byte file → 0 ≤ n < 2 ^ 32 → elf_check file n = Some im →
  let eh := ehdr_of file in
  64 ≤ n ∧ 1 ≤ phnum eh ≤ 32 ∧ phoff eh + 56 * phnum eh ≤ n ∧ Exists is_load (phdrs file) ∧
  PROCESS_USER_BASE ≤ im_start im ∧ im_start im mod 4096 = 0 ∧
  im_end im = im_start im + 4096 * image_pages im ∧ 1 ≤ image_pages im ≤ 12 ∧ im_end im < stack_base ∧
  (eh_type eh = ET_DYN → im_start im = IMAGE_BASE) ∧ (eh_type eh ≠ ET_DYN → im_bias im = 0) ∧
  ∀ p, p ∈ phdrs file → is_load p →
    offset p + filesz p ≤ n ∧ filesz p ≤ memsz p ∧ 0 < memsz p ∧ PROCESS_USER_BASE ≤ vaddr p ∧
    u64 (i64 (vaddr p) + im_bias im) = vaddr p + im_bias im ∧
    im_start im ≤ vaddr p + im_bias im ∧ vaddr p + im_bias im + memsz p ≤ im_end im.
Proof. apply elf_check_facts. Qed.

(** ** What loading does to the process *)

Section outcome.
Context {E : Type} {ME : MemEnv E} {EF : ElfFiles E} {EL : ElfFilesLaws E} {ML : MemLaws E}.
Implicit Types (t : ptable) (e : E).
Import ProcessSpec UserMem.

(** The records of the pages of slot [i]: the pages [l] (address and flags)
    from index [k] on. *)
Definition pages_at t (i : nat) (k : Z) (l : list (Z * Z)) : Prop :=
  ∀ j va fl, l !! j = Some (va, fl) →
    user_page_va (proc t i) (k + Z.of_nat j) = va ∧ user_page_flags (proc t i) (k + Z.of_nat j) = fl.

(** [process_map_user_page] when it succeeds: one page more, the others kept. *)
Definition page_added t t' (i : nat) (va fl : Z) : Prop :=
  user_page_count (proc t' i) = user_page_count (proc t i) + 1 ∧
  user_page_va (proc t' i) = upd (user_page_va (proc t i)) (user_page_count (proc t i)) va ∧
  user_page_flags (proc t' i) = upd (user_page_flags (proc t i)) (user_page_count (proc t i)) fl.

Lemma map_page_added p va fl t e t' e' i :
  pwf t → process_get t p = Some i → process_map_user_page p va fl t e = (true, t', e') → page_added t t' i va fl.
Proof.
  intros W Hg. unfold process_map_user_page. destruct (_ || _); [done|]. rewrite Hg. cbv zeta.
  destruct (bool_decide _ || _) eqn:Hc; [done|]. destruct (existsb _ _); [done|].
  destruct (me_alloc_page e) as [phys e1]. destruct (phys =? 0); [done|].
  destruct (me_map_page_in_cr3 _ _ _ _ e1) as [rc e2]. destruct (rc =? 0); [done|].
  generalize (zero_page phys e2). intros e3. intros [= <- <-]. unfold page_added. rewrite !proc_set_eq. cbn.
  apply process_get_Some in Hg as (Hi & _). pose proof (pw_pages _ W i Hi). unfold PROCESS_USER_MAX_PAGES in *.
  by rewrite u64_small by lia.
Qed.

Lemma map_zeroed_op p i va fl t e ok t' e' :
  pwf t → process_get t p = Some i → map_zeroed p (va, fl) (t, e) = (ok, (t', e')) →
  pwf t' ∧ page_op i t t' ∧ (ok = true → page_added t t' i va fl).
Proof.
  intros W Hg. unfold map_zeroed. cbn [fst snd].
  destruct (process_map_user_page p va fl t e) as [[ok1 t1] e1] eqn:Em.
  destruct (process_map_user_page_op _ _ _ _ _ _ _ _ W Em) as (W1 & Hop & Hf). specialize (Hop i Hg).
  destruct ok1; cbn [negb]; [|by intros [= <- <- <-]].
  destruct (process_user_zero p va PROC_PAGE_SIZE t1 e1) as [ok2 e2]. intros [= <- <- <-].
  split_and!; try done. intros _. by apply (map_page_added p va fl t e t1 e1).
Qed.

(** The loop over a list of pages. *)
Lemma map_list_op p i l t e ok t' e' :
  pwf t → process_get t p = Some i → all_ok (map_zeroed p) l (t, e) = (ok, (t', e')) →
  pwf t' ∧ page_op i t t' ∧
  (ok = true → user_page_count (proc t' i) = user_page_count (proc t i) + Z.of_nat (length l) ∧
    pages_at t' i (user_page_count (proc t i)) l ∧
    ∀ k, k < user_page_count (proc t i) → user_page_va (proc t' i) k = user_page_va (proc t i) k ∧
                                           user_page_flags (proc t' i) k = user_page_flags (proc t i) k).
Proof.
  revert t e. induction l as [|[va fl] l IH]; intros t e W Hg; cbn [all_ok].
  { intros [= <- <- <-]. split_and!; [done|done|]. intros _. split_and!; [cbn; lia|by intros ? ? ? ?|done]. }
  destruct (map_zeroed p (va, fl) (t, e)) as [ok1 [t1 e1]] eqn:Em.
  destruct (map_zeroed_op _ _ _ _ _ _ _ _ _ W Hg Em) as (W1 & Hop1 & Ha).
  destruct ok1; [|by intros [= <- <- <-]]. destruct (Ha eq_refl) as (Hc & Hv & Hf). clear Ha.
  intros Hl. rewrite <- (page_op_get i t t1 p Hop1) in Hg.
  destruct (IH t1 e1 W1 Hg Hl) as (W2 & Hop2 & Hok). split_and!; [done|by eapply page_op_trans|].
  intros Ht. destruct (Hok Ht) as (Hc2 & Hp2 & Hk2). clear Hok. rewrite Hc in Hc2, Hp2, Hk2. split_and!.
  - rewrite Hc2. cbn [length]. lia.
  - intros [|j] va' fl' Hj.
    + injection Hj as <- <-. rewrite Z.add_0_r. destruct (Hk2 (user_page_count (proc t i)) ltac:(lia)) as [-> ->].
      rewrite Hv, Hf. by rewrite !upd_eq.
    + destruct (Hp2 j va' fl' Hj). replace (user_page_count (proc t i) + Z.of_nat (S j))
        with (user_page_count (proc t i) + 1 + Z.of_nat j) by lia. done.
  - intros k Hk. destruct (Hk2 k ltac:(lia)) as [-> ->]. rewrite Hv, Hf. by rewrite !upd_ne by lia.
Qed.

Lemma elf_fail_op p i t e ok t' e' :
  pwf t → process_get t p = Some i → elf_fail p t e = (ok, t', e') →
  ok = false ∧ pwf t' ∧ page_op i t t' ∧ user_page_count (proc t' i) = 0.
Proof.
  intros W Hg. unfold elf_fail. destruct (process_unmap_user_memory p t e) as [[ok1 t1] e1] eqn:Eu.
  pose proof (process_unmap_user_memory_wf p t e W) as W1. rewrite Eu in W1. cbn in W1.
  apply process_unmap_user_memory_op in Eu. rewrite Hg in Eu. destruct Eu as (Hop & Hc & _).
  by intros [= <- <- <-].
Qed.

(** *** The bytes of the image *)

(** The byte at [va] once the segment [ph] is loaded over memory that holds
    [b] there. *)
Definition segment_byte (file : list Z) (bias va b : Z) (ph : elf64_phdr_t) : Z :=
  let base := vaddr ph + bias in
  if decide (ph_type ph = PT_LOAD ∧ base ≤ va < base + filesz ph) then byte_at file (offset ph + (va - base)) else b.

(** The process image that the file describes: the data of the loadable
    segments, later ones over earlier ones, on zeros. *)
Definition image_byte (file : list Z) (im : image) (va : Z) : Z :=
  foldl (segment_byte file (im_bias im) va) 0 (phdrs file).

(** The address space of slot [i] translates the pages of its table to the
    frames recorded there, which are distinct. *)
Record frames_mapped t (i : nat) e : Prop := {
  fm_frame j x : 0 ≤ j < user_page_count (proc t i) →
    user_page_va (proc t i) j ≤ x < user_page_va (proc t i) j + PROC_PAGE_SIZE →
    Z.land (me_virt_to_phys_in_cr3 e (address_space_cr3 (proc t i)) x) (not64 (PROC_PAGE_SIZE - 1)) =
      user_page_phys (proc t i) j;
  fm_align j : 0 ≤ j < user_page_count (proc t i) → user_page_phys (proc t i) j mod PROC_PAGE_SIZE = 0;
  fm_distinct j k : 0 ≤ j < user_page_count (proc t i) → 0 ≤ k < user_page_count (proc t i) →
    user_page_phys (proc t i) j = user_page_phys (proc t i) k → j = k;
}.

(** Every page holds its part of the image. *)
Definition contents_loaded t (i : nat) e (file : list Z) (im : image) : Prop :=
  ∀ j k, 0 ≤ j < user_page_count (proc t i) → 0 ≤ k < PROC_PAGE_SIZE →
    me_read8 e (user_page_phys (proc t i) j + k) = image_byte file im (user_page_va (proc t i) j + k).

(** The process after a load that succeeded. *)
Record loaded t t' e' (i : nat) (file : list Z) (im : image) : Prop := {
  ld_only : only_slot i t t';
  ld_id : p_state (proc t' i) = p_state (proc t i) ∧ pid (proc t' i) = pid (proc t i);
  ld_count : user_page_count (proc t' i) = image_pages im + ELF_STACK_PAGES;
  ld_pages : pages_at t' i 0 (image_page_list (phdrs file) im ++ stack_page_list);
  ld_bytes : frames_mapped t' i e' → contents_loaded t' i e' file im;
  ld_entry : im_start im ≤ user_entry (proc t' i) < im_end im;
  ld_value : user_entry (proc t' i) = u64 (i64 (entry (ehdr_of file)) + im_bias im);
  ld_stack : user_stack_base (proc t' i) = STACK_TOP ∧ user_stack_size (proc t' i) = 4 * 4096;
  ld_reserved : user_pages_reserved (proc t' i) = user_page_count (proc t' i);
  ld_context : Z.testbit (p_flags (proc t' i)) 0 = true;
}.

(** Mapping a list of pages leaves only zeros in them. *)
Lemma map_list_zeroed p i l t e t' e' :
  pwf t → process_get t p = Some i → zeroed t i e → all_ok (map_zeroed p) l (t, e) = (true, (t', e')) → zeroed t' i e'.
Proof.
  revert t e. induction l as [|[va fl] l IH]; intros t e W Hg Hz; cbn [all_ok]; [by intros [= <- <-]|].
  destruct (map_zeroed p (va, fl) (t, e)) as [ok1 [t1 e1]] eqn:Em.
  destruct (map_zeroed_op _ _ _ _ _ _ _ _ _ W Hg Em) as (W1 & Hop1 & _). destruct ok1; [|done].
  rewrite <- (page_op_get i t t1 p Hop1) in Hg. apply (IH t1 e1 W1 Hg). revert Em. unfold map_zeroed. cbn [fst snd].
  destruct (process_map_user_page p va fl t e) as [[ok2 t2] e2] eqn:E2. destruct ok2; cbn [negb]; [|done].
  pose proof (user_zero_zeroes p va PROC_PAGE_SIZE t2 e2) as Hw.
  destruct (process_user_zero p va PROC_PAGE_SIZE t2 e2) as [ok3 e3]. intros [= _ <- <-].
  eapply zeroed_zeroes; [|exact Hw]. rewrite (page_op_get i t t2 p Hop1) in Hg.
  exact (map_page_zeroed p i va fl t e t2 e2 W Hg Hz E2).
Qed.

(** Pages whose frames are mapped are [placed]. *)
Definition in_pages t (i : nat) (x : Z) : Prop :=
  ∃ j, 0 ≤ j < user_page_count (proc t i) ∧ user_page_va (proc t i) j ≤ x < user_page_va (proc t i) j + PROC_PAGE_SIZE.

Lemma frames_phys_byte t i e j x :
  frames_mapped t i e → 0 ≤ j < user_page_count (proc t i) →
  user_page_va (proc t i) j ≤ x < user_page_va (proc t i) j + PROC_PAGE_SIZE →
  phys_byte e (address_space_cr3 (proc t i)) x = user_page_phys (proc t i) j + x mod PROC_PAGE_SIZE.
Proof. intros F Hj Hx. unfold phys_byte, byte_addr. by rewrite (fm_frame _ _ _ F j x), page_mask_mod. Qed.

Lemma frames_placed t i e :
  frames_mapped t i e → (∀ j, 0 ≤ j < user_page_count (proc t i) → user_page_va (proc t i) j mod PROC_PAGE_SIZE = 0) →
  placed (phys_byte e (address_space_cr3 (proc t i))) (in_pages t i).
Proof.
  intros F Hal. split.
  - intros x k (j & Hj & Hx) Hk Hp. pose proof (Hal j Hj) as Ha. unfold PROC_PAGE_SIZE in *.
    assert (user_page_va (proc t i) j ≤ x + k < user_page_va (proc t i) j + 4096) as Hxk
      by (Z.to_euclidean_division_equations; lia).
    split; [by exists j|]. rewrite (frames_phys_byte t i e j x), (frames_phys_byte t i e j (x + k)) by done.
    unfold PROC_PAGE_SIZE. Z.to_euclidean_division_equations; lia.
  - intros x y (j & Hj & Hx) (k & Hk & Hy). rewrite (frames_phys_byte t i e j x), (frames_phys_byte t i e k y) by done.
    pose proof (fm_align _ _ _ F j Hj) as A1. pose proof (fm_align _ _ _ F k Hk) as A2. intros Heq.
    assert (j = k) as ->.
    { apply (fm_distinct _ _ _ F); [done..|]. unfold PROC_PAGE_SIZE in *. Z.to_euclidean_division_equations; lia. }
    pose proof (Hal k Hk). unfold PROC_PAGE_SIZE in *. Z.to_euclidean_division_equations; lia.
Qed.

(** What the checks say of a segment that is copied. *)
Definition segment_placed (D : Z → Prop) (bias : Z) (ph : elf64_phdr_t) : Prop :=
  is_load ph → u64 (i64 (vaddr ph) + bias) = vaddr ph + bias ∧ 0 ≤ vaddr ph + bias ∧
    vaddr ph + bias + filesz ph < 2 ^ 64 ∧ ∀ x, vaddr ph + bias ≤ x < vaddr ph + bias + filesz ph → D x.

Lemma copy_segment_virt p file bias t ph e cr3 x :
  me_virt_to_phys_in_cr3 (copy_segment p file bias t ph e).2 cr3 x = me_virt_to_phys_in_cr3 e cr3 x.
Proof.
  unfold copy_segment, process_user_copy. destruct (_ || _); [done|]. destruct (process_get t p); [|done].
  destruct (bad_user_range _ _); [done|]. apply chunk_loop_virt.
Qed.

(** Copying the segments gives the bytes of the image over what was there. *)
Lemma copy_segments_read p i file bias t ps e e' D phi :
  process_get t p = Some i → Forall (segment_placed D bias) ps → placed phi D →
  (∀ x, D x → phys_byte e (address_space_cr3 (proc t i)) x = phi x) →
  Forall (λ ph, 0 ≤ filesz ph) ps →
  all_ok (copy_segment p file bias t) ps e = (true, e') →
  ∀ y, D y → me_read8 e' (phi y) = foldl (segment_byte file bias y) (me_read8 e (phi y)) ps.
Proof.
  intros Hg Hps P Ht Hsz. revert e Ht. induction Hps as [|ph ps Hph _ IH]; intros e Ht; cbn [all_ok foldl]; [by intros [= <-]|].
  apply Forall_cons_1 in Hsz as [Hz Hsz]. specialize (IH Hsz).
  destruct (copy_segment p file bias t ph e) as [[] e1] eqn:Ec; [|done]. intros Ha.
  pose proof (copy_segment_virt p file bias t ph e (address_space_cr3 (proc t i))) as Hv. rewrite Ec in Hv. cbn [snd] in Hv.
  assert (∀ y, D y → me_read8 e1 (phi y) = segment_byte file bias y (me_read8 e (phi y)) ph) as Hr.
  { clear Hv. revert Ec. unfold copy_segment, segment_byte. destruct (Z.eqb_spec (ph_type ph) PT_LOAD) as [Hl|Hl]; cbn [negb orb].
    2: { intros [= <-] y _. by rewrite decide_False by (by intros [? _]). }
    destruct (Z.eqb_spec (filesz ph) 0) as [Hf|Hf].
    { intros [= <-] y _. by rewrite decide_False by lia. }
    destruct (Hph Hl) as (-> & H0 & H1 & HD). unfold process_user_copy. rewrite Hg.
    destruct (bad_user_range _ _); [done|]. intros Ec y Dy.
    rewrite (copy_loop_read _ _ _ _ D phi H0 H1 HD P _ _ _ _ Ec ltac:(lia) Ht y Dy), Z.add_0_r. apply decide_ext. tauto. }
  intros y Dy. rewrite (IH e1) with (y := y); [by rewrite Hr| |done|done].
  intros x Dx. unfold phys_byte. rewrite Hv. by apply Ht.
Qed.

(** The segments of an accepted image lie in the pages mapped for it. *)
Lemma segments_in_pages t i file n im :
  Forall is_byte file → 0 ≤ n < 2 ^ 32 → elf_check file n = Some im →
  user_page_count (proc t i) = image_pages im + ELF_STACK_PAGES →
  pages_at t i 0 (image_page_list (phdrs file) im ++ stack_page_list) →
  Forall (segment_placed (in_pages t i) (im_bias im)) (phdrs file) ∧
  ∀ j, 0 ≤ j < user_page_count (proc t i) → user_page_va (proc t i) j mod PROC_PAGE_SIZE = 0.
Proof.
  intros Fb Hn Hc Hcnt Hp.
  destruct (elf_check_facts file n im Fb Hn Hc) as (_ & _ & _ & _ & Hb & Hm & He & Hpg & Hst & _ & _ & Hseg).
  set (l1 := image_page_list (phdrs file) im) in *.
  assert (∀ j, 0 ≤ j < image_pages im → user_page_va (proc t i) j = im_start im + j * 4096) as Himg.
  { intros j Hj. destruct (Hp (Z.to_nat j) (im_start im + j * 4096)
      (u64 (page_flags_for (phdrs file) (u64 (i64 (im_start im + j * 4096) - im_bias im))))) as [Hva _].
    - apply lookup_app_l_Some. unfold l1, image_page_list. rewrite list_lookup_fmap, lookup_seqZ_lt by lia. cbn.
      by rewrite Z2Nat.id by lia.
    - by rewrite Z.add_0_l, Z2Nat.id in Hva by lia. }
  assert (Z.of_nat (length l1) = image_pages im) as Ll.
  { unfold l1, image_page_list. rewrite length_fmap, length_seqZ. lia. }
  assert (∀ j, 0 ≤ j < 4 → user_page_va (proc t i) (image_pages im + j) = stack_base + j * 4096) as Hstk.
  { intros j Hj. destruct (Hp (length l1 + Z.to_nat j)%nat (stack_base + j * 4096) (Z.lor VMM_PAGE_WRITABLE VMM_PAGE_NX)) as [Hva _].
    - rewrite lookup_app_r by lia. replace (length l1 + Z.to_nat j - length l1)%nat with (Z.to_nat j) by lia.
      unfold stack_page_list. rewrite list_lookup_fmap, lookup_seqZ_lt by (unfold ELF_STACK_PAGES; lia). cbn.
      by rewrite Z2Nat.id by lia.
    - by rewrite Z.add_0_l, Nat2Z.inj_add, Ll, Z2Nat.id in Hva by lia. }
  split.
  - apply Forall_forall. intros ph Hph Hl. destruct (Hseg ph Hph Hl) as (_ & S2 & _ & _ & S5 & S6 & S7).
    unfold PROCESS_USER_BASE, stack_base, STACK_TOP, ELF_STACK_PAGES, PROC_PAGE_SIZE in *.
    split_and!; [done|lia|lia|]. intros x Hx. exists ((x - im_start im) / 4096).
    assert (0 ≤ (x - im_start im) / 4096 < image_pages im) as Hj by (Z.to_euclidean_division_equations; lia).
    rewrite (Himg _ Hj). unfold PROC_PAGE_SIZE. split; [lia|]. Z.to_euclidean_division_equations; lia.
  - intros j Hj. unfold ELF_STACK_PAGES in *. destruct (decide (j < image_pages im)) as [Hi|Hi].
    + rewrite Himg by lia. unfold PROC_PAGE_SIZE. rewrite Z.mod_add by lia. done.
    + replace j with (image_pages im + (j - image_pages im)) by lia. rewrite Hstk by lia.
      unfold PROC_PAGE_SIZE. by rewrite Z.mod_add by lia.
Qed.

Lemma pages_at_app t i k l1 l2 :
  pages_at t i k l1 → pages_at t i (k + Z.of_nat (length l1)) l2 → pages_at t i k (l1 ++ l2).
Proof.
  intros H1 H2 j va fl [Hj|[Hl Hj]]%lookup_app_Some; [by apply H1|].
  replace (k + Z.of_nat j) with (k + Z.of_nat (length l1) + Z.of_nat (j - length l1)) by lia. by apply H2.
Qed.

(** The bytes after the copy. *)
Lemma copied_contents p i file n im t e e' :
  Forall is_byte file → 0 ≤ n < 2 ^ 32 → elf_check file n = Some im → process_get t p = Some i →
  user_page_count (proc t i) = image_pages im + ELF_STACK_PAGES →
  pages_at t i 0 (image_page_list (phdrs file) im ++ stack_page_list) → zeroed t i e →
  all_ok (copy_segment p file (im_bias im) t) (phdrs file) e = (true, e') →
  frames_mapped t i e' → contents_loaded t i e' file im.
Proof.
  intros Fb Hn Hc Hg Hcnt Hp Hz Hcopy F. destruct (segments_in_pages t i file n im Fb Hn Hc Hcnt Hp) as [Hseg Hal].
  assert (Forall (λ ph, 0 ≤ filesz ph) (phdrs file)) as Hsz
    by (eapply Forall_impl; [by apply phdrs_wf|]; intros ph [_ _ Hf _]; lia).
  set (cr3 := address_space_cr3 (proc t i)).
  assert (∀ x, me_virt_to_phys_in_cr3 e' cr3 x = me_virt_to_phys_in_cr3 e cr3 x) as Hv.
  { revert Hcopy. clear - ML. revert e. induction (phdrs file) as [|ph ps IH]; intros e; cbn [all_ok]; [by intros [= <-]|].
    pose proof (copy_segment_virt p file (im_bias im) t ph e cr3) as Hv.
    destruct (copy_segment p file (im_bias im) t ph e) as [[] e1]; [|done]. intros Ha x. by rewrite (IH e1 Ha), Hv. }
  assert (∀ x, in_pages t i x → phys_byte e cr3 x = phys_byte e' cr3 x) as Ht
    by (intros x _; unfold phys_byte; by rewrite Hv).
  pose proof (copy_segments_read p i file (im_bias im) t (phdrs file) e e' (in_pages t i) (phys_byte e' cr3) Hg Hseg
    (frames_placed t i e' F Hal) Ht Hsz Hcopy) as Hr.
  intros j k Hj Hk. pose proof (Hal j Hj) as Ha.
  assert (user_page_va (proc t i) j ≤ user_page_va (proc t i) j + k < user_page_va (proc t i) j + PROC_PAGE_SIZE) as Hx by lia.
  specialize (Hr (user_page_va (proc t i) j + k) (ex_intro _ j (conj Hj Hx))).
  assert (phys_byte e' cr3 (user_page_va (proc t i) j + k) = user_page_phys (proc t i) j + k) as Hphi.
  { unfold cr3. rewrite (frames_phys_byte t i e' j) by done. f_equal. unfold PROC_PAGE_SIZE in *.
    Z.to_euclidean_division_equations; lia. }
  rewrite Hphi in Hr. rewrite Hr, Hz by done. done.
Qed.

Lemma elf_install_op p i file n im t e ok t' e' :
  pwf t → process_get t p = Some i → user_page_count (proc t i) = 0 → Forall is_byte file → 0 ≤ n < 2 ^ 32 →
  elf_check file n = Some im → elf_install p file im t e = (ok, t', e') →
  pwf t' ∧ (if ok then loaded t t' e' i file im else page_op i t t' ∧ user_page_count (proc t' i) = 0).
Proof.
  intros W Hg Hz0 Fb Hn Hck. unfold elf_install.
  assert (0 ≤ image_pages im) as Hpages by (destruct (elf_check_facts file n im Fb Hn Hck) as (_ & _ & _ & _ & _ & _ & _ & ? & _); lia).
  assert (zeroed t i e) as Z0 by (intros j k Hj; lia).
  assert (∀ t1 e1, pwf t1 → page_op i t t1 → elf_fail p t1 e1 = (ok, t', e') →
    pwf t' ∧ (if ok then loaded t t' e' i file im else page_op i t t' ∧ user_page_count (proc t' i) = 0)) as Hfail.
  { intros t1 e1 W1 Hop Hf. rewrite <- (page_op_get i t t1 p Hop) in Hg.
    destruct (elf_fail_op _ _ _ _ _ _ _ W1 Hg Hf) as (-> & W2 & Hop2 & Hz).
    split_and!; [done|by eapply page_op_trans|done]. }
  destruct (all_ok _ (image_page_list _ _) (t, e)) as [ok1 [t1 e1]] eqn:E1.
  destruct (map_list_op _ _ _ _ _ _ _ _ W Hg E1) as (W1 & Hop1 & Hok1).
  destruct ok1; cbn [negb]; [|by apply Hfail]. destruct (Hok1 eq_refl) as (C1 & P1 & _). clear Hok1.
  pose proof (map_list_zeroed _ _ _ _ _ _ _ W Hg Z0 E1) as Z1.
  pose proof (page_op_get i t t1 p Hop1) as G1. rewrite Hg in G1.
  destruct (all_ok _ stack_page_list (t1, e1)) as [ok2 [t2 e2]] eqn:E2.
  destruct (map_list_op _ _ _ _ _ _ _ _ W1 G1 E2) as (W2 & Hop2 & Hok2).
  assert (page_op i t t2) as Hop by (by eapply page_op_trans).
  destruct ok2; cbn [negb]; [|by apply Hfail]. destruct (Hok2 eq_refl) as (C2 & P2 & K2). clear Hok2.
  pose proof (map_list_zeroed _ _ _ _ _ _ _ W1 G1 Z1 E2) as Z2.
  destruct (all_ok _ (phdrs file) e2) as [ok3 e3] eqn:E3. destruct ok3; cbn [negb]; [|by apply Hfail].
  destruct (Z.ltb_spec (u64 (i64 (entry (ehdr_of file)) + im_bias im)) (im_start im)); [by apply Hfail|].
  destruct (Z.geb_spec (u64 (i64 (entry (ehdr_of file)) + im_bias im)) (im_end im)); [by apply Hfail|]. cbn [orb].
  pose proof (page_op_get i t t2 p Hop) as G2. rewrite Hg in G2. rewrite G2.
  intros [= <- <- <-]. destruct Hop as (Ho & Hs & Hp & He).
  assert (Z.of_nat (length (image_page_list (phdrs file) im)) = image_pages im) as Ll.
  { unfold image_page_list. rewrite length_fmap, length_seqZ. lia. }
  rewrite Hz0 in C1, P1. rewrite Ll in C1. rewrite Z.add_0_l in C1. rewrite C1 in C2, P2, K2.
  assert (pages_at t2 i 0 (image_page_list (phdrs file) im ++ stack_page_list)) as Hall.
  { apply pages_at_app; [|by rewrite Ll, Z.add_0_l]. intros j va fl Hj.
    pose proof (lookup_lt_Some _ _ _ Hj). destruct (K2 (0 + Z.of_nat j) ltac:(lia)) as [-> ->]. by apply P1. }
  split.
  - apply (only_slot_wf i t2); [exact W2|apply only_slot_set|..]; rewrite proc_set_eq; [done|done|..]; by apply W2.
  - split; rewrite ?proc_set_eq.
    + eapply only_slot_trans; [exact Ho|apply only_slot_set].
    + done.
    + exact C2.
    + intros j va fl Hj. rewrite proc_set_eq. by apply Hall.
    + intros F. assert (frames_mapped t2 i e3) as F2 by (destruct F as [F1 F2 F3]; rewrite !proc_set_eq in *; by split).
      pose proof (copied_contents p i file n im t2 e2 e3 Fb Hn Hck G2 C2 Hall Z2 E3 F2) as Hc.
      intros j k. rewrite !proc_set_eq. apply Hc.
    + done.
    + done.
    + done.
    + done.
    + change (Z.testbit (Z.lor (p_flags (proc t2 i)) PROCESS_FLAG_USER_CONTEXT) 0 = true).
      by rewrite Z.lor_spec, orb_true_r.
Qed.

(** In any case the process keeps its identity and its rights. *)
Lemma elf_install_page_op p i file im t e :
  pwf t → process_get t p = Some i →
  pwf (elf_install p file im t e).1.2 ∧ page_op i t (elf_install p file im t e).1.2.
Proof.
  intros W Hg. unfold elf_install.
  assert (∀ t1 e1, pwf t1 → page_op i t t1 → pwf (elf_fail p t1 e1).1.2 ∧ page_op i t (elf_fail p t1 e1).1.2) as Hfail.
  { intros t1 e1 W1 Hop. rewrite <- (page_op_get i t t1 p Hop) in Hg.
    destruct (elf_fail p t1 e1) as [[ok t'] e'] eqn:Ef. destruct (elf_fail_op _ _ _ _ _ _ _ W1 Hg Ef) as (_ & W2 & Hop2 & _).
    split; [done|by eapply page_op_trans]. }
  destruct (all_ok _ (image_page_list _ _) (t, e)) as [ok1 [t1 e1]] eqn:E1.
  destruct (map_list_op _ _ _ _ _ _ _ _ W Hg E1) as (W1 & Hop1 & _).
  destruct ok1; cbn [negb]; [|by apply Hfail].
  pose proof (page_op_get i t t1 p Hop1) as G1. rewrite Hg in G1.
  destruct (all_ok _ stack_page_list (t1, e1)) as [ok2 [t2 e2]] eqn:E2.
  destruct (map_list_op _ _ _ _ _ _ _ _ W1 G1 E2) as (W2 & Hop2 & _).
  assert (page_op i t t2) as Hop by (by eapply page_op_trans).
  destruct ok2; cbn [negb]; [|by apply Hfail].
  destruct (all_ok _ (phdrs file) e2) as [ok3 e3]. destruct ok3; cbn [negb]; [|by apply Hfail].
  destruct (_ || _); [by apply Hfail|]. destruct (process_get t2 p) as [i'|] eqn:G2; [|by apply Hfail].
  rewrite (page_op_get i t t2 p Hop), Hg in G2. injection G2 as <-. split.
  - by apply pwf_quiet.
  - eapply page_op_trans; [exact Hop|]. by apply page_op_set.
Qed.

(** C18: [nexus_elf_load_process] either loads the file completely - the
    process then owns exactly the pages of the image and four stack pages, with
    the permissions computed from the segments, each page holds its part of the
    process image (the bytes of the segments, zeros elsewhere, provided that
    the address space maps the pages of the table to the distinct frames
    recorded there), its entry point lies in the image and its context is set -
    or returns 0 and leaves the table as it was, or the process, which had no
    user pages, without any again; no other process changes and the table stays
    well formed. *)
Theorem elf_load_outcome p path t e file ok t' e' file' :
  pwf t → Forall is_byte file →
  nexus_elf_load_process p path t e file = (ok, t', e', file') →
  pwf t' ∧
  (if ok then ∃ i name bytes e1 im, process_get t p = Some i ∧ user_page_count (proc t i) = 0 ∧
                path = Some name ∧ ef_read_file name ELF_BUFFER_SIZE e = (Some bytes, e1) ∧
                file' = buf_fill bytes file ∧ elf_check file' (Z.of_nat (length bytes)) = Some im ∧
                loaded t t' e' i file' im
   else t' = t ∨ ∃ i, process_get t p = Some i ∧ page_op i t t' ∧
                      user_page_count (proc t i) = 0 ∧ user_page_count (proc t' i) = 0).
Proof.
  intros W Fb. unfold nexus_elf_load_process.
  destruct (process_get t p) as [i|] eqn:Hg; [|intros [= <- <- <- <-]; auto].
  destruct path as [path|]; [|intros [= <- <- <- <-]; auto].
  destruct (bool_decide _ || _) eqn:Eg; [intros [= <- <- <- <-]; auto|].
  apply orb_false_iff in Eg as [_ Ec]. apply negb_false_iff, Z.eqb_eq in Ec.
  destruct (ef_read_file path ELF_BUFFER_SIZE e) as [[bytes|] e1] eqn:Er; [|intros [= <- <- <- <-]; auto].
  pose proof Er as [Hb Hl]%ef_read_law. unfold ELF_BUFFER_SIZE in Hl.
  assert (Forall is_byte (buf_fill bytes file)) as Ff by (apply Forall_app; split; [done|by apply Forall_drop]).
  destruct (elf_check (buf_fill bytes file) (Z.of_nat (length bytes))) as [im|] eqn:Ek; [|intros [= <- <- <- <-]; auto].
  destruct (elf_install p (buf_fill bytes file) im t e1) as [[ok1 t1] e2] eqn:Ei. intros [= <- <- <- <-].
  destruct (elf_install_op _ _ _ (Z.of_nat (length bytes)) im _ _ _ _ _ W Hg Ec Ff ltac:(lia) Ek Ei) as [W1 Ho]. split; [done|].
  destruct ok1; [by exists i, path, bytes, e1, im|]. right. exists i. by destruct Ho.
Qed.
End outcome.

(** ** The defects of the loader *)

(** The permission bits of an image page are 0 or "writable": the
    no-execute bit that [page_flags_for] sets is bit 63, and the conversion of
    its result to [int] drops it. *)
Theorem elf_pages_never_nx ps va : page_flags_for ps va = 0 ∨ page_flags_for ps va = VMM_PAGE_WRITABLE.
Proof. unfold page_flags_for. destruct (existsb _ _), (existsb _ _); vm_compute; auto. Qed.

(** A position-independent image with a segment linked below the user base,
    as linkers produce them (the first segment starts at 0), is refused before
    it could be rebased. *)
Theorem elf_low_segment_refused file n p :
  Forall is_byte file → 0 ≤ n < 2 ^ 32 → p ∈ phdrs file → is_load p → vaddr p < PROCESS_USER_BASE →
  elf_check file n = None.
Proof.
  intros Fb Hn Hp Hl Hv. destruct (elf_check file n) as [im|] eqn:Ek; [|done].
  destruct (elf_check_facts file n im Fb Hn Ek) as (_ & _ & _ & _ & _ & _ & _ & _ & _ & _ & _ & Hs).
  destruct (Hs p Hp Hl) as (_ & _ & _ & Hb & _). lia.
Qed.

(** ** A small executable: code at 0x400000, data and zeros at 0x401000 *)

Import ProcMem.

Definition demo_phdr (flags off va fsz msz : Z) : list Z :=
  le32_bytes PT_LOAD ++ le32_bytes flags ++ le64_bytes off ++ le64_bytes va ++ le64_bytes va ++
  le64_bytes fsz ++ le64_bytes msz ++ le64_bytes 4096.
Definition demo_ehdr (ent : Z) (n : Z) : list Z :=
  [0x7F; 69; 76; 70; 2; 1; 1; 0; 0; 0; 0; 0; 0; 0; 0; 0] ++ le16_bytes ET_EXEC ++ le16_bytes EM_X86_64 ++
  le32_bytes 1 ++ le64_bytes ent ++ le64_bytes 64 ++ le64_bytes 0 ++ le32_bytes 0 ++ le16_bytes 64 ++
  le16_bytes 56 ++ le16_bytes n ++ le16_bytes 0 ++ le16_bytes 0 ++ le16_bytes 0.
Definition demo_elf : list Z :=
  demo_ehdr 0x400004 2 ++ demo_phdr 5 176 0x400000 8 8 ++ demo_phdr 6 184 0x401000 4 0x1800 ++
  [144; 144; 144; 144; 144; 144; 235; 254; 1; 2; 3; 4].
Definition demo_buffer : list Z := replicate 65536 0.

(** A memory that hands out frames by counting and maps pages one by one. *)
Record demo_memory := mkMemory { dm_next : Z; dm_map : gmap Z Z; dm_bytes : gmap Z Z }.

#[export] Instance demo_memory_env : MemEnv demo_memory := {
  me_scheduler_ticks _ := 0;
  me_create_address_space e := (0x100000, e);
  me_destroy_address_space _ e := e;
  me_alloc_page e := (0x900000 + dm_next e * 4096, mkMemory (dm_next e + 1) (dm_map e) (dm_bytes e));
  me_free_page _ e := e;
  me_map_page_in_cr3 _ va pa _ e := (1, mkMemory (dm_next e) (<[va := pa]> (dm_map e)) (dm_bytes e));
  me_unmap_page_in_cr3 _ va e := mkMemory (dm_next e) (delete va (dm_map e)) (dm_bytes e);
  me_virt_to_phys_in_cr3 e _ va :=
    match dm_map e !! (va - va mod 4096) with Some p => p + va mod 4096 | None => 0 end;
  me_read8 e a := default 0 (dm_bytes e !! a);
  me_write8 a v e := mkMemory (dm_next e) (dm_map e) (<[a := v]> (dm_bytes e));
}.

#[export] Instance demo_memory_laws : MemLaws demo_memory.
Proof.
  split; [|done..]. intros a v e b. cbn.
  destruct (Z.eqb_spec b a) as [->|Hne]; [by rewrite lookup_insert_eq|by rewrite lookup_insert_ne].
Qed.

#[export] Instance demo_files : ElfFiles demo_memory := {
  ef_read_file path size e := if bool_decide (path = lit "/INIT") then (Some demo_elf, e) else (None, e);
}.

#[export] Instance demo_files_laws : ElfFilesLaws demo_memory.
Proof.
  split. intros path e bytes e'. cbn. case_bool_decide; [|done]. intros [= <- <-]. split.
  - apply (bool_decide_unpack _). vm_compute. exact I.
  - vm_compute. discriminate.
Defined.

Lemma demo_elf_bytes : Forall is_byte demo_elf.
Proof. apply (bool_decide_unpack _). vm_compute. exact I. Qed.

Lemma demo_phdr2 : phdr_at demo_elf 120 ∈ phdrs demo_elf.
Proof.
  assert (phdrs demo_elf = [phdr_at demo_elf 64; phdr_at demo_elf 120]) as -> by (vm_compute; reflexivity).
  by do 2 constructor.
Qed.

Lemma elf_check_sound_witness :
  elf_check demo_elf 188 = Some (mkImage 0x400000 0x403000 0) ∧ 0x401000 + 0x1800 ≤ 0x403000.
Proof.
  assert (elf_check demo_elf 188 = Some (mkImage 0x400000 0x403000 0)) as Ek by (vm_compute; reflexivity).
  split; [exact Ek|].
  destruct (elf_check_sound demo_elf 188 (mkImage 0x400000 0x403000 0) demo_elf_bytes ltac:(lia) Ek)
    as (_ & _ & _ & _ & _ & _ & _ & _ & _ & _ & _ & Hs).
  destruct (Hs (phdr_at demo_elf 120) demo_phdr2 ltac:(vm_compute; reflexivity)) as (_ & _ & _ & _ & _ & _ & Hend).
  cbn in Hend. exact Hend.
Defined.

Lemma demo_tab1_wf : ProcessSpec.pwf ProcMem.demo_tab1.
Proof.
  apply (@ProcessSpec.proc_step_wf Z ProcMem.demo_mem ProcMem.demo_tab0); [exact ProcMem.demo_tab0_wf|].
  apply (@ProcessSpec.ps_create Z ProcMem.demo_mem). vm_compute. reflexivity.
Qed.

(** Loading the file into process 1. *)
Definition demo_load :=
  nexus_elf_load_process 1 (Some (lit "/INIT")) ProcMem.demo_tab1 (mkMemory 0 ∅ ∅) demo_buffer.

Lemma tuple4_eta {A B C D} (x : A * B * C * D) : x = (x.1.1.1, x.1.1.2, x.1.2, x.2).
Proof. by destruct x as [[[? ?] ?] ?]. Qed.

Lemma demo_load_eq :
  nexus_elf_load_process 1 (Some (lit "/INIT")) demo_tab1 (mkMemory 0 ∅ ∅) demo_buffer =
    (demo_load.1.1.1, demo_load.1.1.2, demo_load.1.2, demo_load.2).
Proof. unfold demo_load. apply tuple4_eta. Qed.

Lemma demo_buffer_bytes : Forall is_byte demo_buffer.
Proof. unfold demo_buffer. generalize 65536%nat. intros n. apply Forall_replicate. unfold is_byte. lia. Qed.

Lemma demo_memory_frame e cr3 va pa x :
  dm_map e !! va = Some pa → va mod 4096 = 0 → pa mod 4096 = 0 → 0 ≤ pa < 2 ^ 63 → va ≤ x < va + PROC_PAGE_SIZE →
  Z.land (me_virt_to_phys_in_cr3 e cr3 x) (not64 (PROC_PAGE_SIZE - 1)) = pa.
Proof.
  unfold PROC_PAGE_SIZE. intros Hm Hv Hp Hr Hx. cbn [me_virt_to_phys_in_cr3 demo_memory_env].
  replace (x - x mod 4096) with va by (Z.to_euclidean_division_equations; lia). rewrite Hm.
  change (4096 - 1) with (2 ^ 12 - 1). pose proof (Z.mod_pos_bound x 4096). rewrite land_not64_mask by lia.
  change (2 ^ 12) with 4096. Z.to_euclidean_division_equations. lia.
Qed.

(** The run, evaluated once: seven pages, each mapped to the frame recorded. *)
Definition demo_loaded_check (run : bool * ptable * demo_memory * list Z) : bool :=
  let '(ok, t, e, _) := run in
  let r := proc t 0 in
  ok && (user_page_count r =? 7) && (user_entry r =? 0x400004) && (user_page_va r 1 =? 0x401000) &&
  bool_decide (process_get demo_tab1 1 = Some 0%nat) &&
  forallb (λ j, bool_decide (dm_map e !! user_page_va r j = Some (user_page_phys r j)) &&
                (user_page_va r j mod 4096 =? 0) && (user_page_phys r j =? 0x900000 + j * 4096)) (seqZ 0 7).

Lemma demo_loaded_true : demo_loaded_check demo_load = true.
Proof. vm_compute. reflexivity. Qed.

Lemma demo_checked :
  elf_check (buf_fill demo_elf demo_buffer) (Z.of_nat (length demo_elf)) = Some (mkImage 0x400000 0x403000 0).
Proof. vm_compute. reflexivity. Qed.

(** The frame of page 0x401000 ends the data with the byte 4; zeros follow. *)
Lemma elf_load_outcome_witness :
  let '(ok, t, e, _) := demo_load in
  ok = true ∧ user_entry (proc t 0) = 0x400004 ∧ user_page_count (proc t 0) = 7 ∧
  me_read8 e 0x901003 = 4 ∧ me_read8 e 0x901004 = 0.
Proof.
  pose proof demo_loaded_true as Hc. pose proof demo_load_eq as Heq.
  destruct demo_load as [[[ok t] e] file]. cbn [fst snd] in Heq. unfold demo_loaded_check in Hc.
  destruct (elf_load_outcome 1 (Some (lit "/INIT")) ProcMem.demo_tab1 (mkMemory 0 ∅ ∅) demo_buffer ok t e file
    demo_tab1_wf demo_buffer_bytes Heq) as [_ Ho]. clear Heq.
  rewrite !andb_true_iff, !Z.eqb_eq in Hc. destruct Hc as [[[[[-> Hcnt] He] Hv1] Hg] Hall].
  apply bool_decide_eq_true in Hg.
  destruct Ho as (i & nm & bytes & e1 & im & Hi & _ & [= <-] & Hread & -> & Hk & L).
  rewrite Hg in Hi. injection Hi as <-.
  assert (ef_read_file (lit "/INIT") ELF_BUFFER_SIZE (mkMemory 0 ∅ ∅) = (Some demo_elf, mkMemory 0 ∅ ∅)) as Hr by reflexivity.
  rewrite Hr in Hread. injection Hread as <- <-. rewrite demo_checked in Hk. injection Hk as <-.
  assert (∀ j, 0 ≤ j < 7 → dm_map e !! user_page_va (proc t 0) j = Some (0x900000 + j * 4096) ∧
    user_page_va (proc t 0) j mod 4096 = 0 ∧ user_page_phys (proc t 0) j = 0x900000 + j * 4096) as Hpages.
  { intros j Hj. rewrite forallb_forall in Hall. specialize (Hall j).
    rewrite !andb_true_iff, bool_decide_eq_true, !Z.eqb_eq in Hall.
    destruct Hall as [[H1 H2] H3]; [apply list_elem_of_In, elem_of_seqZ; lia|]. by rewrite <- H3. }
  assert (frames_mapped t 0 e) as F.
  { split; rewrite Hcnt.
    - intros j x Hj Hx. destruct (Hpages j Hj) as (H1 & H2 & ->).
      apply (demo_memory_frame _ _ (user_page_va (proc t 0) j)); [done|done|..|done]; [|lia].
      rewrite Z.mod_add by lia. done.
    - intros j Hj. destruct (Hpages j Hj) as (_ & _ & ->). unfold PROC_PAGE_SIZE. rewrite Z.mod_add by lia. done.
    - intros j k Hj Hk. destruct (Hpages j Hj) as (_ & _ & ->), (Hpages k Hk) as (_ & _ & ->). lia. }
  pose proof (ld_bytes _ _ _ _ _ _ L F 1) as Hb. destruct (Hpages 1 ltac:(lia)) as (_ & _ & Hp1).
  rewrite Hp1, Hcnt, Hv1 in Hb. split_and!; [done|done|done|..].
  - refine (eq_trans (Hb 3 _ _) _); [lia|unfold PROC_PAGE_SIZE; lia|vm_compute; reflexivity].
  - refine (eq_trans (Hb 4 _ _) _); [lia|unfold PROC_PAGE_SIZE; lia|vm_compute; reflexivity].
Defined.

Definition demo_pie : list Z :=
  take 16 demo_elf ++ le16_bytes ET_DYN ++ drop 18 (take 64 demo_elf) ++ demo_phdr 5 176 0 8 8 ++
  drop 120 demo_elf.

Lemma elf_low_segment_refused_witness : elf_check demo_pie 188 = None.
Proof.
  apply (elf_low_segment_refused demo_pie 188 (phdr_at demo_pie 64)).
  - apply (bool_decide_unpack _). vm_compute. exact I.
  - lia.
  - assert (phdrs demo_pie = [phdr_at demo_pie 64; phdr_at demo_pie 120]) as -> by (vm_compute; reflexivity). constructor.
  - vm_compute. reflexivity.
  - vm_compute. reflexivity.
Defined.

End Elf.
