(* ===== verification/Syscall.v ===== *)
(** * System calls

    [src/kernel/core/syscall/syscall.c] over the process table, the channels
    and the ELF loader, with [usermode_prepare] of [usermode.c],
    [nexus_runtime_fill_info] of [runtime.c] and [thread_create_user_process]
    of [scheduler.c] as far as they touch the process table.  Files, console,
    scheduler and page counters are reached through [SysEnv]. *)

From Stdlib Require Import Lia ZArith Bool.
From stdpp Require Import base list gmap numbers functions strings.
From S2P Require Import Prelude ProcTable Ipc Process Disk Elf.

Local Open Scope Z_scope.

Module Syscall.
Import Ipc Process Elf.

(** ** Numbers *)

Inductive nexus_syscall_number :=
| NEXUS_SYS_NOP | NEXUS_SYS_EXIT | NEXUS_SYS_GETPID | NEXUS_SYS_WRITE | NEXUS_SYS_CLOSE | NEXUS_SYS_GETPPID
| NEXUS_SYS_OPEN | NEXUS_SYS_READ | NEXUS_SYS_SEEK | NEXUS_SYS_TELL | NEXUS_SYS_STAT | NEXUS_SYS_MKDIR
| NEXUS_SYS_RMDIR | NEXUS_SYS_UNLINK | NEXUS_SYS_RENAME | NEXUS_SYS_GETCWD | NEXUS_SYS_CHDIR
| NEXUS_SYS_PROCESS_ENUM | NEXUS_SYS_WAITPID | NEXUS_SYS_GETPRIORITY | NEXUS_SYS_SETPRIORITY
| NEXUS_SYS_GETNAME | NEXUS_SYS_SETNAME | NEXUS_SYS_EXEC | NEXUS_SYS_MMAP | NEXUS_SYS_MUNMAP | NEXUS_SYS_BRK
| NEXUS_SYS_GETCPUTICKS | NEXUS_SYS_GETSTARTTICK | NEXUS_SYS_GETUPTIME_MS | NEXUS_SYS_PROCESS_COUNT
| NEXUS_SYS_ZOMBIE_COUNT | NEXUS_SYS_GETENV | NEXUS_SYS_SETENV | NEXUS_SYS_UNSETENV | NEXUS_SYS_FD_COUNT
| NEXUS_SYS_MEMINFO | NEXUS_SYS_GETTID | NEXUS_SYS_GETVERSION | NEXUS_SYS_GETARCH | NEXUS_SYS_GETPAGESIZE
| NEXUS_SYS_GETUSERBASE | NEXUS_SYS_GETUSERLIMIT | NEXUS_SYS_GETSTACKTOP | NEXUS_SYS_GETHEAPBASE
| NEXUS_SYS_GETHEAPEND | NEXUS_SYS_GETFDTYPE | NEXUS_SYS_GETFDOFFSET | NEXUS_SYS_GETFD_FLAGS
| NEXUS_SYS_GETQUANTUM_EXPIRATIONS | NEXUS_SYS_GETCONTEXT_SWITCHES | NEXUS_SYS_GETTIMER_HZ
| NEXUS_SYS_GETQUANTUM_TICKS | NEXUS_SYS_GETTHREAD_COUNT | NEXUS_SYS_GETMAX_THREADS
| NEXUS_SYS_GETREADY_COUNT | NEXUS_SYS_GETSLEEPING_COUNT | NEXUS_SYS_GETTHREAD_SWITCHES
| NEXUS_SYS_GETTHREAD_RUNTIME | NEXUS_SYS_RUNTIME_INFO | NEXUS_SYS_CHANNEL_CREATE | NEXUS_SYS_CHANNEL_CLOSE
| NEXUS_SYS_CHANNEL_SEND | NEXUS_SYS_CHANNEL_RECV | NEXUS_SYS_CHANNEL_POLL | NEXUS_SYS_GETCAPS
| NEXUS_SYS_HAS_CAP | NEXUS_SYS_DROP_CAP.
#[export] Instance syscall_number_eq_dec : EqDecision nexus_syscall_number.
Proof. solve_decision. Defined.

(** The enumerators from 0 on. *)
Definition syscall_numbers : list nexus_syscall_number :=
  [NEXUS_SYS_NOP; NEXUS_SYS_EXIT; NEXUS_SYS_GETPID; NEXUS_SYS_WRITE; NEXUS_SYS_CLOSE; NEXUS_SYS_GETPPID;
   NEXUS_SYS_OPEN; NEXUS_SYS_READ; NEXUS_SYS_SEEK; NEXUS_SYS_TELL; NEXUS_SYS_STAT; NEXUS_SYS_MKDIR;
   NEXUS_SYS_RMDIR; NEXUS_SYS_UNLINK; NEXUS_SYS_RENAME; NEXUS_SYS_GETCWD; NEXUS_SYS_CHDIR;
   NEXUS_SYS_PROCESS_ENUM; NEXUS_SYS_WAITPID; NEXUS_SYS_GETPRIORITY; NEXUS_SYS_SETPRIORITY;
   NEXUS_SYS_GETNAME; NEXUS_SYS_SETNAME; NEXUS_SYS_EXEC; NEXUS_SYS_MMAP; NEXUS_SYS_MUNMAP; NEXUS_SYS_BRK;
   NEXUS_SYS_GETCPUTICKS; NEXUS_SYS_GETSTARTTICK; NEXUS_SYS_GETUPTIME_MS; NEXUS_SYS_PROCESS_COUNT;
   NEXUS_SYS_ZOMBIE_COUNT; NEXUS_SYS_GETENV; NEXUS_SYS_SETENV; NEXUS_SYS_UNSETENV; NEXUS_SYS_FD_COUNT;
   NEXUS_SYS_MEMINFO; NEXUS_SYS_GETTID; NEXUS_SYS_GETVERSION; NEXUS_SYS_GETARCH; NEXUS_SYS_GETPAGESIZE;
   NEXUS_SYS_GETUSERBASE; NEXUS_SYS_GETUSERLIMIT; NEXUS_SYS_GETSTACKTOP; NEXUS_SYS_GETHEAPBASE;
   NEXUS_SYS_GETHEAPEND; NEXUS_SYS_GETFDTYPE; NEXUS_SYS_GETFDOFFSET; NEXUS_SYS_GETFD_FLAGS;
   NEXUS_SYS_GETQUANTUM_EXPIRATIONS; NEXUS_SYS_GETCONTEXT_SWITCHES; NEXUS_SYS_GETTIMER_HZ;
   NEXUS_SYS_GETQUANTUM_TICKS; NEXUS_SYS_GETTHREAD_COUNT; NEXUS_SYS_GETMAX_THREADS;
   NEXUS_SYS_GETREADY_COUNT; NEXUS_SYS_GETSLEEPING_COUNT; NEXUS_SYS_GETTHREAD_SWITCHES;
   NEXUS_SYS_GETTHREAD_RUNTIME; NEXUS_SYS_RUNTIME_INFO; NEXUS_SYS_CHANNEL_CREATE; NEXUS_SYS_CHANNEL_CLOSE;
   NEXUS_SYS_CHANNEL_SEND; NEXUS_SYS_CHANNEL_RECV; NEXUS_SYS_CHANNEL_POLL; NEXUS_SYS_GETCAPS;
   NEXUS_SYS_HAS_CAP; NEXUS_SYS_DROP_CAP].

Definition syscall_of (number : Z) : option nexus_syscall_number :=
  if number <? 0 then None else syscall_numbers !! Z.to_nat number.
Definition NEXUS_SYS_EXIT_NUMBER : Z := 1.

Definition SYSCALL_MAX_RW : Z := 4096.
Definition NEXUS_CAP_RUNTIME : Z := 1.
Definition NEXUS_CAP_IPC : Z := 2.
Definition NEXUS_CAP_FILESYSTEM_READ : Z := 4.
Definition NEXUS_CAP_FILESYSTEM_WRITE : Z := 8.
Definition NEXUS_CAP_PROCESS_SPAWN : Z := 16.
Definition NEXUS_CAP_PROCESS_CONTROL : Z := 32.
Definition NEXUS_CAP_MEMORY : Z := 64.
Definition PROCESS_FLAG_SCHEDULER_OWNED : Z := 4.
Definition NEXUS_VERSION_STRING : cstr := lit "0.7".
Definition NEXUS_RUNTIME_NAME : cstr := lit "Nexus Runtime".
Definition NEXUS_RUNTIME_ABI_VERSION : Z := 1.
Definition NEXUS_SYSCALL_ABI_VERSION : Z := 1.

(** [(uint64_t)-1] *)
Definition FAILED : Z := 2 ^ 64 - 1.

(** ** What the calls use of files, console, scheduler and frame allocator *)

Class SysEnv (E : Type) := {
  sy_is_dir_path : E → cstr → bool;
  sy_mkdir_path : cstr → E → bool * E;                  (* is the result 0? *)
  sy_unlink_path : cstr → E → bool * E;
  sy_rename_path : cstr → cstr → E → bool * E;
  sy_console_putchar : Z → E → E;
  sy_elapsed_ms : E → Z;
  sy_current_thread_id : E → Z;
  sy_quantum_expirations : E → Z;
  sy_context_switches : E → Z;
  sy_timer_hz : E → Z;
  sy_quantum_ticks : E → Z;
  sy_thread_count : E → Z;
  sy_max_threads : E → Z;
  sy_ready_count : E → Z;
  sy_sleeping_count : E → Z;
  sy_thread_switches : E → Z → Z;
  sy_thread_runtime_ticks : E → Z → Z;
  sy_request_reschedule : E → E;
  sy_thread_exit : E → E;
  (** The scheduler's side of [thread_create_user_process]: the thread id and
      the top of the kernel stack of the new thread, [None] for failure. *)
  sy_thread_create : Z → E → option (Z * Z) * E;
  sy_total_pages : E → Z;
  sy_free_pages : E → Z;
  sy_used_pages : E → Z;
}.

(** [stack_bytes]: what the kernel stack holds where a local buffer is not
    initialised. *)
Record sys {E : Type} := mkSys {
  tab : ptable;
  senv : E;
  g_ready : bool;
  um_ready : bool;
  rt_ready : bool;
  elf_file : list Z;
  stack_bytes : Z → Z;
}.
Arguments sys : clear implicits.
Arguments mkSys {E}.
#[export] Instance eta_sys {E} : Eta (sys E) := λ r,
  mkSys (tab r) (senv r) (g_ready r) (um_ready r) (rt_ready r) (elf_file r) (stack_bytes r).

(** The bytes of a buffer up to its first zero, as a string. *)
Fixpoint c_string (l : list Z) : cstr :=
  match l with
  | [] => []
  | c :: l => if c =? 0 then [] else c :: c_string l
  end.

Definition fd_type_code (ty : process_fd_type_t) : Z :=
  match ty with
  | PROCESS_FD_UNUSED => 0 | PROCESS_FD_STDIN_CONSOLE => 1 | PROCESS_FD_STDOUT_CONSOLE => 2
  | PROCESS_FD_STDERR_CONSOLE => 3 | PROCESS_FD_VFS_FILE => 4 | PROCESS_FD_VFS_DIR => 5
  end.
Definition state_code (st : process_state_t) : Z :=
  match st with PROCESS_UNUSED => 0 | PROCESS_READY => 1 | PROCESS_RUNNING => 2 | PROCESS_ZOMBIE => 3 end.

Section calls.
Context {E : Type} `{MemEnv E} `{FileEnv E} `{ElfFiles E} `{SysEnv E}.
Implicit Types (s : sys E).

Definition run_as s (i : nat) : nexus_process_t := proc (tab s) i.
Definition pid_of s (i : nat) : Z := pid (run_as s i).
Definition ok_if (b : bool) : Z := if b then 0 else FAILED.
Definition fail s : Z * sys E := (FAILED, s).

Definition valid s (i : nat) (va size required : Z) : bool :=
  process_user_range_valid (pid_of s i) va size required (tab s).
Definition has_cap s (i : nat) (cap : Z) : bool := process_has_capability (pid_of s i) cap (tab s).

(** [process_user_read] and [process_user_write] of the calling process. *)
Definition fetch s (i : nat) (va size : Z) : option (list Z) :=
  match process_user_read (pid_of s i) va size (tab s) (senv s) with
  | (true, bytes) => Some bytes
  | (false, _) => None
  end.
Definition put (i : nat) (va : Z) (bytes : list Z) (size : Z) s : bool * sys E :=
  let '(ok, e) := process_user_write (pid_of s i) va (Some (byte_at bytes)) size (tab s) (senv s) in
  (ok, s <| senv := e |>).

Definition copy_user_string s (i : nat) (va cap : Z) : option cstr :=
  if (cap <? 2) || negb (valid s i va cap VMM_PAGE_WRITABLE) then None
  else
    match fetch s i va (cap - 1) with
    | None => None
    | Some out => if existsb (λ c, c =? 0) (take (Z.to_nat (cap - 1)) out) then Some (c_string out) else None
    end.

(** The copy of a string to the user: at most [size] bytes, without a
    terminator when it does not fit. *)
Definition put_string (i : nat) (va : Z) (str : cstr) (size : Z) s : Z * sys E :=
  let len := Z.min (Z.of_nat (length str)) (size - 1) in
  let '(ok, s) := put i va (str ++ [0]) (len + 1) s in
  (if ok then len else FAILED, s).

(** ** Names, directories, environment *)

Definition sys_setpriority (i : nat) (a0 : Z) s : Z * sys E :=
  if negb (has_cap s i NEXUS_CAP_PROCESS_CONTROL) then fail s
  else let '(ok, t) := process_set_priority (pid_of s i) (u32 a0) (tab s) in (ok_if ok, s <| tab := t |>).

Definition sys_getname (i : nat) (a0 a1 : Z) s : Z * sys E :=
  if negb (valid s i a0 a1 VMM_PAGE_WRITABLE) || (a1 =? 0) || (a1 >? 256) then fail s
  else
    match process_get_name (pid_of s i) PROCESS_NAME_LEN (tab s) with
    | None => fail s
    | Some n => put_string i a0 n a1 s
    end.

Definition sys_setname (i : nat) (a0 a1 : Z) s : Z * sys E :=
  if (a1 =? 0) || (a1 >=? PROCESS_NAME_LEN) || negb (valid s i a0 a1 VMM_PAGE_WRITABLE) then fail s
  else
    match fetch s i a0 a1 with
    | None => fail s
    | Some n =>
       let '(ok, t) := process_set_name (pid_of s i) (Some (c_string (take (Z.to_nat (a1 - 1)) n))) (tab s) in
       (ok_if ok, s <| tab := t |>)
    end.

Definition sys_getcwd (i : nat) (a0 a1 : Z) s : Z * sys E :=
  if (a1 =? 0) || (a1 >? PROCESS_CWD_LEN) || negb (valid s i a0 a1 VMM_PAGE_WRITABLE) then fail s
  else
    match process_get_cwd (pid_of s i) PROCESS_CWD_LEN (tab s) with
    | None => fail s
    | Some cwd => put_string i a0 cwd a1 s
    end.

Definition sys_chdir (i : nat) (a0 : Z) s : Z * sys E :=
  match copy_user_string s i a0 PROCESS_CWD_LEN with
  | None => fail s
  | Some path =>
     if negb (sy_is_dir_path (senv s) path) then fail s
     else let '(ok, t) := process_set_cwd (pid_of s i) (Some path) (tab s) in (ok_if ok, s <| tab := t |>)
  end.

Definition sys_getenv (i : nat) (a0 a1 a2 : Z) s : Z * sys E :=
  if (a1 =? 0) || (a1 >? PROCESS_ENV_VALUE_LEN) || negb (valid s i a0 PROCESS_ENV_KEY_LEN VMM_PAGE_WRITABLE) ||
     negb (valid s i a2 a1 VMM_PAGE_WRITABLE) then fail s
  else
    match fetch s i a0 PROCESS_ENV_KEY_LEN with
    | None => fail s
    | Some key =>
       match process_get_env (pid_of s i) (Some (c_string (take (Z.to_nat (PROCESS_ENV_KEY_LEN - 1)) key)))
               PROCESS_ENV_VALUE_LEN (tab s) with
       | (true, Some value) => put_string i a2 value a1 s
       | _ => fail s
       end
    end.

Definition sys_setenv (i : nat) (a0 a1 : Z) s : Z * sys E :=
  match copy_user_string s i a0 PROCESS_ENV_KEY_LEN, copy_user_string s i a1 PROCESS_ENV_VALUE_LEN with
  | Some key, Some value =>
     let '(ok, t) := process_set_env (pid_of s i) (Some key) (Some value) (tab s) in (ok_if ok, s <| tab := t |>)
  | _, _ => fail s
  end.

Definition sys_unsetenv (i : nat) (a0 : Z) s : Z * sys E :=
  match copy_user_string s i a0 PROCESS_ENV_KEY_LEN with
  | None => fail s
  | Some key => let '(ok, t) := process_unset_env (pid_of s i) (Some key) (tab s) in (ok_if ok, s <| tab := t |>)
  end.

(** ** Files *)

Definition sys_write (i : nat) (a0 a1 a2 : Z) s : Z * sys E :=
  if (a2 =? 0) || (a2 >? SYSCALL_MAX_RW) || negb (process_fd_is_valid (pid_of s i) a0 (tab s)) ||
     negb (valid s i a1 a2 0) then fail s
  else
    match fetch s i a1 a2 with
    | None => fail s
    | Some b =>
       if process_fd_is_writable (pid_of s i) a0 (tab s)
       then (a2, s <| senv := foldl (λ e c, sy_console_putchar c e) (senv s) (take (Z.to_nat a2) b) |>)
       else
         let '(n, t, e) := process_fd_write (pid_of s i) a0 (Some b) a2 (tab s) (senv s) in
         (if n <? 0 then FAILED else n, s <| tab := t |> <| senv := e |>)
    end.

Definition sys_read (i : nat) (a0 a1 a2 : Z) s : Z * sys E :=
  if (a2 =? 0) || (a2 >? SYSCALL_MAX_RW) || negb (process_fd_is_valid (pid_of s i) a0 (tab s)) ||
     negb (valid s i a1 a2 VMM_PAGE_WRITABLE) then fail s
  else
    let '(n, b, t) := process_fd_read (pid_of s i) a0 a2 (tab s) (senv s) in
    let s := s <| tab := t |> in
    if n <? 0 then fail s
    else let '(ok, s) := put i a1 b n s in (if ok then n else FAILED, s).

Definition sys_open (i : nat) (a0 a1 : Z) s : Z * sys E :=
  if negb (has_cap s i NEXUS_CAP_FILESYSTEM_READ) then fail s
  else
    match copy_user_string s i a0 PROCESS_CWD_LEN with
    | None => fail s
    | Some path =>
       let '(fd, t, e) := process_fd_open (pid_of s i) (Some path) (u32 a1) (tab s) (senv s) in
       (if fd <? 0 then FAILED else fd, s <| tab := t |> <| senv := e |>)
    end.

Definition sys_close (i : nat) (a0 : Z) s : Z * sys E :=
  let '(ok, t) := process_fd_close (pid_of s i) a0 (tab s) in (ok_if ok, s <| tab := t |>).

Definition sys_seek (i : nat) (a0 a1 a2 : Z) s : Z * sys E :=
  let '(pos, t) := process_fd_seek (pid_of s i) a0 (i64 a1) (u32 a2) (tab s) (senv s) in
  (default FAILED pos, s <| tab := t |>).

Definition sys_tell (i : nat) (a0 : Z) s : Z * sys E := (default FAILED (process_fd_tell (pid_of s i) a0 (tab s)), s).

Definition stat_bytes (size type : Z) : list Z := le64_bytes size ++ le64_bytes type ++ le64_bytes 0.

Definition sys_stat (i : nat) (a0 a1 : Z) s : Z * sys E :=
  match copy_user_string s i a0 PROCESS_CWD_LEN with
  | None => fail s
  | Some path =>
     if negb (valid s i a1 24 VMM_PAGE_WRITABLE) then fail s
     else
       match fe_file_size_path (senv s) path with
       | Some sz => let '(ok, s) := put i a1 (stat_bytes sz 1) 24 s in (ok_if ok, s)
       | None =>
          if sy_is_dir_path (senv s) path
          then let '(ok, s) := put i a1 (stat_bytes 0 2) 24 s in (ok_if ok, s)
          else fail s
       end
  end.

(** [MKDIR], [RMDIR] and [UNLINK] differ in the operation only. *)
Definition sys_path_op (op : cstr → E → bool * E) (i : nat) (a0 : Z) s : Z * sys E :=
  if negb (has_cap s i NEXUS_CAP_FILESYSTEM_WRITE) then fail s
  else
    match copy_user_string s i a0 PROCESS_CWD_LEN with
    | None => fail s
    | Some path => let '(ok, e) := op path (senv s) in (ok_if ok, s <| senv := e |>)
    end.

Definition sys_rename (i : nat) (a0 a1 : Z) s : Z * sys E :=
  if negb (has_cap s i NEXUS_CAP_FILESYSTEM_WRITE) then fail s
  else
    match copy_user_string s i a0 PROCESS_CWD_LEN, copy_user_string s i a1 PROCESS_CWD_LEN with
    | Some src, Some dst => let '(ok, e) := sy_rename_path src dst (senv s) in (ok_if ok, s <| senv := e |>)
    | _, _ => fail s
    end.

Definition fd_field (get : process_fd_t → Z) (i : nat) (a0 : Z) s : Z * sys E :=
  if (a0 >=? PROCESS_MAX_FDS) || bool_decide (fd_type (fds (run_as s i) a0) = PROCESS_FD_UNUSED) then fail s
  else (get (fds (run_as s i) a0), s).

Definition sys_fd_count (i : nat) s : Z * sys E :=
  (Z.of_nat (length (filter (λ k, fd_type (fds (run_as s i) k) ≠ PROCESS_FD_UNUSED) (seqZ 0 PROCESS_MAX_FDS))), s).

(** ** Processes *)

Definition info_bytes (r : nexus_process_t) : list Z :=
  le64_bytes (pid r) ++ le64_bytes (parent_pid r) ++ le32_bytes (state_code (p_state r)) ++
  le32_bytes (priority r) ++ le64_bytes (cpu_ticks r) ++ le64_bytes (start_tick r).
Definition sizeof_info : Z := 40.
Definition PID_LIMIT : Z := 4096.

(** The loop over the ids from [q] on, [fuel] to go, [n] entries written. *)
Fixpoint enum_loop (fuel : nat) (i : nat) (a0 cap q n : Z) s : Z * sys E :=
  match fuel with
  | O => (n, s)
  | S fuel =>
     if n <? cap then
       match process_get (tab s) q with
       | None => enum_loop fuel i a0 cap (q + 1) n s
       | Some j =>
          let '(ok, s) := put i (u64 (a0 + n * sizeof_info)) (info_bytes (proc (tab s) j)) sizeof_info s in
          if ok : bool then enum_loop fuel i a0 cap (q + 1) (n + 1) s else fail s
       end
     else (n, s)
  end.

Definition sys_process_enum (i : nat) (a0 a1 a2 : Z) s : Z * sys E :=
  if (a1 =? 0) || (a2 <? sizeof_info) || negb (valid s i a0 a1 VMM_PAGE_WRITABLE) then fail s
  else enum_loop (Z.to_nat (PID_LIMIT - 1)) i a0 (a1 / sizeof_info) 1 0 s.

(** The first process [WAITPID] stops at. *)
Definition wait_match s (i : nat) (wanted q : Z) : bool :=
  match process_get (tab s) q with
  | None => false
  | Some j =>
     (parent_pid (proc (tab s) j) =? pid_of s i) && ((wanted =? 0) || (wanted =? q)) &&
     bool_decide (p_state (proc (tab s) j) = PROCESS_ZOMBIE)
  end.

Definition sys_waitpid (i : nat) (a0 a1 : Z) s : Z * sys E :=
  match list_find (λ q, wait_match s i a0 q = true) (seqZ 1 (PID_LIMIT - 1)) with
  | None => (0, s)
  | Some (_, q) =>
     if negb (a1 =? 0) && valid s i a1 8 VMM_PAGE_WRITABLE then
       match process_get (tab s) q with
       | None => fail s
       | Some j =>
          let '(ok, s) := put i a1 (le64_bytes (exit_code (proc (tab s) j))) 8 s in
          (if ok then q else FAILED, s)
       end
     else (q, s)
  end.

(** [usermode_prepare] *)
Definition usermode_prepare (p ent user_stack kstack : Z) s : bool * sys E :=
  if negb (um_ready s) || (ent =? 0) || (user_stack =? 0) || (kstack =? 0) then (false, s)
  else
    match process_get (tab s) p with
    | None => (false, s)
    | Some j =>
       if bool_decide (p_state (proc (tab s) j) = PROCESS_ZOMBIE) then (false, s)
       else (true, s <| tab ::= set_proc j (λ r, r <| user_entry := ent |> <| user_stack_base := user_stack |>
               <| user_stack_size := 0 |> <| kernel_stack := kstack |>
               <| p_flags ::= λ f, Z.lor f PROCESS_FLAG_USER_CONTEXT |>) |>)
    end.

(** [thread_create_user_process], the part of the process table. *)
Definition thread_create_user_process (p : Z) s : Z * sys E :=
  match process_get (tab s) p with
  | None => (0, s)
  | Some j =>
     let r := proc (tab s) j in
     if bool_decide (p_state r = PROCESS_ZOMBIE) || negb (scheduler_thread_id r =? 0) then (0, s)
     else
       match sy_thread_create p (senv s) with
       | (None, e) => (0, s <| senv := e |>)
       | (Some (tid, top), e) =>
          (tid, s <| senv := e |> <| tab ::= set_proc j (λ r, r <| kernel_stack := top |>
                  <| scheduler_thread_id := tid |>
                  <| p_flags ::= λ f, Z.lor f PROCESS_FLAG_SCHEDULER_OWNED |>) |>)
       end
  end.

Definition drop_child (child : Z) s : Z * sys E :=
  let '(_, t) := process_exit child (tab s) in
  let '(_, t, e) := process_reap child 0 t (senv s) in
  fail (s <| tab := t |> <| senv := e |>).

Definition sys_exec (i : nat) (a0 : Z) s : Z * sys E :=
  if negb (has_cap s i NEXUS_CAP_PROCESS_SPAWN) then fail s
  else
    match copy_user_string s i a0 PROCESS_CWD_LEN with
    | None => fail s
    | Some path =>
       let '(child, t, e) := process_create (pid_of s i) (tab s) (senv s) in
       let s := s <| tab := t |> <| senv := e |> in
       if child =? 0 then fail s
       else
         let '(loaded, t, e, file) := nexus_elf_load_process child (Some path) (tab s) (senv s) (elf_file s) in
         let s := s <| tab := t |> <| senv := e |> <| elf_file := file |> in
         if negb loaded then drop_child child s
         else
           let '(tid, s) := thread_create_user_process child s in
           if tid =? 0 then drop_child child s
           else
             let '(ok, s) :=
               match process_get (tab s) child with
               | None => (false, s)
               | Some j => let r := proc (tab s) j in
                           usermode_prepare child (user_entry r) (user_stack_base r) (kernel_stack r) s
               end in
             if negb ok then let '(_, t) := process_exit child (tab s) in fail (s <| tab := t |>)
             else (child, s <| senv ::= sy_request_reschedule |>)
    end.

(** ** Memory *)

Definition HEAP_FLAGS : Z := Z.lor VMM_PAGE_WRITABLE VMM_PAGE_NX.

Definition sys_mmap (i : nat) (a1 : Z) s : Z * sys E :=
  if negb (has_cap s i NEXUS_CAP_MEMORY) then fail s
  else
    let pages := u64 (a1 + 4095) / 4096 in
    if (a1 =? 0) || (pages =? 0) then fail s
    else
      let '(base, t, e) := process_alloc_user_range (pid_of s i) pages HEAP_FLAGS (tab s) (senv s) in
      (base, s <| tab := t |> <| senv := e |>).

Definition sys_munmap (i : nat) (a0 a1 : Z) s : Z * sys E :=
  if negb (has_cap s i NEXUS_CAP_MEMORY) then fail s
  else
    let '(ok, t, e) := process_unmap_user_range (pid_of s i) a0 a1 (tab s) (senv s) in
    (ok_if ok, s <| tab := t |> <| senv := e |>).

Definition set_heap_end (i : nat) (v : Z) s : sys E := s <| tab ::= set_proc i (λ r, r <| heap_end := v |>) |>.

Definition sys_brk (i : nat) (requested : Z) s : Z * sys E :=
  if negb (has_cap s i NEXUS_CAP_MEMORY) then fail s
  else if requested =? 0 then (heap_end (run_as s i), s)
  else if (requested <? heap_base (run_as s i)) || (requested >=? PROCESS_USER_LIMIT) then fail s
  else
    let old := heap_end (run_as s i) in
    if requested >? old then
      let pages := u64 (requested - old + 4095) / 4096 in
      let '(base, t, e) := process_alloc_user_range (pid_of s i) pages HEAP_FLAGS (tab s) (senv s) in
      let s := s <| tab := t |> <| senv := e |> in
      if (base =? 0) || negb (base =? old) then fail s
      else let s := set_heap_end i (u64 (old + pages * 4096)) s in (heap_end (run_as s i), s)
    else if requested <? old then
      let cut := u64 (old - requested + 4095) / 4096 in
      let base := u64 (old - cut * 4096) in
      let '(ok, t, e) := process_unmap_user_range (pid_of s i) base (u64 (cut * 4096)) (tab s) (senv s) in
      let s := s <| tab := t |> <| senv := e |> in
      if negb ok then fail s
      else let s := set_heap_end i base s in (heap_end (run_as s i), s)
    else (old, s).

Definition sys_meminfo (i : nat) (a0 : Z) s : Z * sys E :=
  if negb (valid s i a0 32 VMM_PAGE_WRITABLE) then fail s
  else
    let e := senv s in
    let info := le64_bytes (u64 (sy_total_pages e * 4096)) ++ le64_bytes (u64 (sy_free_pages e * 4096)) ++
                le64_bytes (u64 (sy_used_pages e * 4096)) ++ le64_bytes (memory_limit_bytes (run_as s i)) in
    let '(ok, s) := put i a0 info 32 s in (ok_if ok, s).

(** A fixed string, at most [max] bytes of it asked for. *)
Definition sys_getstring (str : cstr) (max : Z) (i : nat) (a0 a1 : Z) s : Z * sys E :=
  if (a1 =? 0) || (a1 >? max) || negb (valid s i a0 a1 VMM_PAGE_WRITABLE) then fail s
  else put_string i a0 str a1 s.

(** ** Runtime, channels, capabilities *)

Definition RUNTIME_FEATURES : Z := 31.
Definition sizeof_runtime_info : Z := 80.

(** [nexus_runtime_fill_info]: the bytes of the structure; the name is
    copied up to its terminator and the rest of the field is left as it is. *)
Definition nexus_runtime_fill_info (p : Z) s : option (list Z) :=
  if negb (rt_ready s) then None
  else
    match process_get (tab s) p with
    | None => None
    | Some j =>
       let r := proc (tab s) j in
       if bool_decide (p_state r = PROCESS_ZOMBIE) then None
       else
         let nm := take 31 NEXUS_RUNTIME_NAME ++ [0] in
         Some (le32_bytes NEXUS_RUNTIME_ABI_VERSION ++ le32_bytes NEXUS_SYSCALL_ABI_VERSION ++
               le32_bytes NEXUS_PROCESS_CHANNELS ++ le32_bytes NEXUS_CHANNEL_MESSAGE_MAX ++
               le64_bytes RUNTIME_FEATURES ++ le64_bytes (pid r) ++ le64_bytes (parent_pid r) ++
               le64_bytes (address_space_cr3 r) ++ nm ++
               map (λ k, stack_bytes s (48 + k)) (seqZ (Z.of_nat (length nm)) (32 - Z.of_nat (length nm))))
    end.

Definition sys_runtime_info (i : nat) (a0 a1 : Z) s : Z * sys E :=
  if negb (has_cap s i NEXUS_CAP_RUNTIME) then fail s
  else if negb (a1 =? sizeof_runtime_info) || negb (valid s i a0 sizeof_runtime_info VMM_PAGE_WRITABLE) ||
          negb (rt_ready s) then fail s
  else
    match nexus_runtime_fill_info (pid_of s i) s with
    | None => fail s
    | Some info => let '(ok, s) := put i a0 info sizeof_runtime_info s in (ok_if ok, s)
    end.

Definition sys_channel_create (i : nat) (a0 : Z) s : Z * sys E :=
  if negb (has_cap s i NEXUS_CAP_IPC) then fail s
  else let '(h, t) := nexus_ipc_create (pid_of s i) a0 (tab s) in (default FAILED h, s <| tab := t |>).

Definition sys_channel_close (i : nat) (a0 : Z) s : Z * sys E :=
  if negb (has_cap s i NEXUS_CAP_IPC) then fail s
  else let '(ok, t) := nexus_ipc_close (pid_of s i) (u32 a0) (tab s) in (ok_if ok, s <| tab := t |>).

Definition sys_channel_send (i : nat) (a0 a1 a2 : Z) s : Z * sys E :=
  if negb (has_cap s i NEXUS_CAP_IPC) then fail s
  else if (a2 =? 0) || (a2 >? NEXUS_CHANNEL_MESSAGE_MAX) || negb (valid s i a1 a2 0) then fail s
  else
    match fetch s i a1 a2 with
    | None => fail s
    | Some buffer =>
       let '(sent, t) := nexus_ipc_send (pid_of s i) (u32 a0) (Some (byte_at buffer)) (u32 a2) (tab s) in
       (if sent <? 0 then FAILED else sent, s <| tab := t |>)
    end.

Definition sys_channel_recv (i : nat) (a0 a1 a2 a3 : Z) s : Z * sys E :=
  if negb (has_cap s i NEXUS_CAP_IPC) then fail s
  else if (a2 =? 0) || (a2 >? NEXUS_CHANNEL_MESSAGE_MAX) || negb (valid s i a1 a2 VMM_PAGE_WRITABLE) ||
          negb (valid s i a3 4 VMM_PAGE_WRITABLE) then fail s
  else
    match nexus_ipc_recv (pid_of s i) (u32 a0) (u32 a2) (tab s) with
    | (None, t) => (0, s <| tab := t |>)
    | (Some bytes, t) =>
       let s := s <| tab := t |> in
       let received := Z.of_nat (length bytes) in
       let '(ok, s) := put i a1 bytes received s in
       if negb ok then fail s
       else let '(ok, s) := put i a3 (le32_bytes received) 4 s in (if ok then received else FAILED, s)
    end.

Definition sys_channel_poll (i : nat) (a0 : Z) s : Z * sys E :=
  if negb (has_cap s i NEXUS_CAP_IPC) then fail s
  else (nexus_ipc_poll (pid_of s i) (u32 a0) (tab s), s).

Definition sys_getcaps (i : nat) (a0 : Z) s : Z * sys E :=
  if negb (valid s i a0 8 VMM_PAGE_WRITABLE) then fail s
  else
    let '(ok, s) := put i a0 (le64_bytes (process_get_capabilities (pid_of s i) (tab s))) 8 s in (ok_if ok, s).

Definition sys_drop_cap (i : nat) (a0 : Z) s : Z * sys E :=
  let '(ok, t) := process_drop_capability (pid_of s i) a0 (tab s) in (ok_if ok, s <| tab := t |>).

(** ** The dispatcher *)

Definition call (n : nexus_syscall_number) (i : nat) (a0 a1 a2 a3 : Z) s : Z * sys E :=
  let r := run_as s i in
  let e := senv s in
  match n with
  | NEXUS_SYS_NOP => (0, s)
  | NEXUS_SYS_EXIT => fail s
  | NEXUS_SYS_GETPID => (pid r, s)
  | NEXUS_SYS_GETPPID => (parent_pid r, s)
  | NEXUS_SYS_GETPRIORITY => (priority r, s)
  | NEXUS_SYS_SETPRIORITY => sys_setpriority i a0 s
  | NEXUS_SYS_GETNAME => sys_getname i a0 a1 s
  | NEXUS_SYS_SETNAME => sys_setname i a0 a1 s
  | NEXUS_SYS_GETCWD => sys_getcwd i a0 a1 s
  | NEXUS_SYS_CHDIR => sys_chdir i a0 s
  | NEXUS_SYS_WRITE => sys_write i a0 a1 a2 s
  | NEXUS_SYS_READ => sys_read i a0 a1 a2 s
  | NEXUS_SYS_OPEN => sys_open i a0 a1 s
  | NEXUS_SYS_CLOSE => sys_close i a0 s
  | NEXUS_SYS_SEEK => sys_seek i a0 a1 a2 s
  | NEXUS_SYS_TELL => sys_tell i a0 s
  | NEXUS_SYS_STAT => sys_stat i a0 a1 s
  | NEXUS_SYS_MKDIR => sys_path_op sy_mkdir_path i a0 s
  | NEXUS_SYS_RMDIR => sys_path_op sy_unlink_path i a0 s
  | NEXUS_SYS_UNLINK => sys_path_op sy_unlink_path i a0 s
  | NEXUS_SYS_RENAME => sys_rename i a0 a1 s
  | NEXUS_SYS_PROCESS_ENUM => sys_process_enum i a0 a1 a2 s
  | NEXUS_SYS_WAITPID => sys_waitpid i a0 a1 s
  | NEXUS_SYS_EXEC => sys_exec i a0 s
  | NEXUS_SYS_MMAP => sys_mmap i a1 s
  | NEXUS_SYS_MUNMAP => sys_munmap i a0 a1 s
  | NEXUS_SYS_BRK => sys_brk i a0 s
  | NEXUS_SYS_GETCPUTICKS => (process_cpu_ticks (pid r) (tab s), s)
  | NEXUS_SYS_GETSTARTTICK => (process_start_tick (pid r) (tab s), s)
  | NEXUS_SYS_GETUPTIME_MS => (sy_elapsed_ms e, s)
  | NEXUS_SYS_PROCESS_COUNT => (process_count (tab s), s)
  | NEXUS_SYS_ZOMBIE_COUNT => (process_zombie_count (tab s), s)
  | NEXUS_SYS_GETENV => sys_getenv i a0 a1 a2 s
  | NEXUS_SYS_SETENV => sys_setenv i a0 a1 s
  | NEXUS_SYS_UNSETENV => sys_unsetenv i a0 s
  | NEXUS_SYS_FD_COUNT => sys_fd_count i s
  | NEXUS_SYS_MEMINFO => sys_meminfo i a0 s
  | NEXUS_SYS_GETTID => (sy_current_thread_id e, s)
  | NEXUS_SYS_GETVERSION => sys_getstring NEXUS_VERSION_STRING 64 i a0 a1 s
  | NEXUS_SYS_GETARCH => sys_getstring (lit "x86_64") 32 i a0 a1 s
  | NEXUS_SYS_GETPAGESIZE => (4096, s)
  | NEXUS_SYS_GETUSERBASE => (PROCESS_USER_BASE, s)
  | NEXUS_SYS_GETUSERLIMIT => (PROCESS_USER_LIMIT, s)
  | NEXUS_SYS_GETSTACKTOP => (STACK_TOP, s)
  | NEXUS_SYS_GETHEAPBASE => (heap_base r, s)
  | NEXUS_SYS_GETHEAPEND => (heap_end r, s)
  | NEXUS_SYS_GETFDTYPE => fd_field (λ f, fd_type_code (fd_type f)) i a0 s
  | NEXUS_SYS_GETFDOFFSET => fd_field fd_offset i a0 s
  | NEXUS_SYS_GETFD_FLAGS => fd_field fd_flags i a0 s
  | NEXUS_SYS_GETQUANTUM_EXPIRATIONS => (sy_quantum_expirations e, s)
  | NEXUS_SYS_GETCONTEXT_SWITCHES => (sy_context_switches e, s)
  | NEXUS_SYS_GETTIMER_HZ => (sy_timer_hz e, s)
  | NEXUS_SYS_GETQUANTUM_TICKS => (sy_quantum_ticks e, s)
  | NEXUS_SYS_GETTHREAD_COUNT => (sy_thread_count e, s)
  | NEXUS_SYS_GETMAX_THREADS => (sy_max_threads e, s)
  | NEXUS_SYS_GETREADY_COUNT => (sy_ready_count e, s)
  | NEXUS_SYS_GETSLEEPING_COUNT => (sy_sleeping_count e, s)
  | NEXUS_SYS_GETTHREAD_SWITCHES => (sy_thread_switches e a0, s)
  | NEXUS_SYS_GETTHREAD_RUNTIME => (sy_thread_runtime_ticks e a0, s)
  | NEXUS_SYS_RUNTIME_INFO => sys_runtime_info i a0 a1 s
  | NEXUS_SYS_CHANNEL_CREATE => sys_channel_create i a0 s
  | NEXUS_SYS_CHANNEL_CLOSE => sys_channel_close i a0 s
  | NEXUS_SYS_CHANNEL_SEND => sys_channel_send i a0 a1 a2 s
  | NEXUS_SYS_CHANNEL_RECV => sys_channel_recv i a0 a1 a2 a3 s
  | NEXUS_SYS_CHANNEL_POLL => sys_channel_poll i a0 s
  | NEXUS_SYS_GETCAPS => sys_getcaps i a0 s
  | NEXUS_SYS_HAS_CAP => (if has_cap s i a0 then 1 else 0, s)
  | NEXUS_SYS_DROP_CAP => sys_drop_cap i a0 s
  end.

Definition syscall_init s : sys E := s <| g_ready := true |>.
Definition syscall_ready s : bool := g_ready s.

(** The process a call runs for: it must be RUNNING with a thread of the
    scheduler and a user context. *)
Definition caller s : option nat :=
  match process_current (tab s) with
  | None => None
  | Some i =>
     let r := run_as s i in
     if negb (bool_decide (p_state r = PROCESS_RUNNING)) || (scheduler_thread_id r =? 0) ||
        negb (has_bits (p_flags r) PROCESS_FLAG_USER_CONTEXT) then None
     else Some i
  end.

Definition syscall_dispatch (number a0 a1 a2 a3 : Z) s : Z * sys E :=
  match caller s with
  | None => fail s
  | Some i =>
     if negb (g_ready s) then fail s
     else match syscall_of number with None => fail s | Some n => call n i a0 a1 a2 a3 s end
  end.

(** ** The interrupt gate *)

Record syscall_interrupt_frame_t := mkFrame {
  f_r15 : Z; f_r14 : Z; f_r13 : Z; f_r12 : Z; f_r11 : Z; f_r10 : Z; f_r9 : Z; f_r8 : Z;
  f_rbp : Z; f_rdi : Z; f_rsi : Z; f_rdx : Z; f_rcx : Z; f_rbx : Z; f_rax : Z;
  f_rip : Z; f_cs : Z; f_rflags : Z; f_user_rsp : Z; f_ss : Z;
}.
#[export] Instance eta_frame : Eta syscall_interrupt_frame_t := λ r,
  mkFrame (f_r15 r) (f_r14 r) (f_r13 r) (f_r12 r) (f_r11 r) (f_r10 r) (f_r9 r) (f_r8 r) (f_rbp r) (f_rdi r)
    (f_rsi r) (f_rdx r) (f_rcx r) (f_rbx r) (f_rax r) (f_rip r) (f_cs r) (f_rflags r) (f_user_rsp r) (f_ss r).

Definition syscall_frame_valid (f : syscall_interrupt_frame_t) : bool :=
  if negb (Z.land (f_cs f) 3 =? 3) || negb (Z.land (f_ss f) 3 =? 3) then false
  else if negb (Z.land (f_cs f) (not64 7) =? Z.land 0x23 (not64 7)) ||
          negb (Z.land (f_ss f) (not64 7) =? Z.land 0x1B (not64 7)) then false
  else if negb (has_bits (f_rflags f) 2) || has_bits (f_rflags f) (Z.shiftl 3 12) ||
          has_bits (f_rflags f) (Z.shiftl 1 17) || negb (has_bits (f_rflags f) (Z.shiftl 1 9)) then false
  else negb ((f_rip f <? PROCESS_USER_BASE) || (f_rip f >=? PROCESS_USER_LIMIT) ||
             (f_user_rsp f <? PROCESS_USER_BASE) || (f_user_rsp f >? STACK_TOP)).

Inductive syscall_action := NEXUS_SYSCALL_ACTION_RETURN | NEXUS_SYSCALL_ACTION_EXIT.

Definition syscall_interrupt_handler (f : syscall_interrupt_frame_t) s
    : syscall_action * syscall_interrupt_frame_t * sys E :=
  let refuse := (NEXUS_SYSCALL_ACTION_RETURN, f <| f_rax := FAILED |>, s) in
  if negb (g_ready s) || negb (syscall_frame_valid f) then refuse
  else
    match caller s with
    | None => refuse
    | Some i =>
       if negb (valid s i (f_rip f) 1 0) || negb (valid s i (f_user_rsp f) 1 VMM_PAGE_WRITABLE) then refuse
       else if f_rax f =? NEXUS_SYS_EXIT_NUMBER then
         let '(ok, t) := process_exit_with_code (pid_of s i) (f_rdi f) 1 (tab s) in
         if negb ok then refuse
         else (NEXUS_SYSCALL_ACTION_EXIT, f, s <| tab := t |> <| senv ::= sy_thread_exit |>)
       else
         let '(rax, s) := syscall_dispatch (f_rax f) (f_rdi f) (f_rsi f) (f_rdx f) (f_r10 f) s in
         (NEXUS_SYSCALL_ACTION_RETURN, f <| f_rax := rax |>, s)
    end.
End calls.
End Syscall.
