(* ===== verification/SyscallSpec.v ===== *)
(** * What system calls can do

    The effect of every call but [EXEC] on the kernel as one relation,
    [effect]: which process records change and how, which steps the
    environment (memory, files, console) takes; and what follows from it: the
    process table stays well formed, capabilities are never gained, memory is
    written only on writable pages of the caller. *)

From Stdlib Require Import Lia ZArith Bool.
From stdpp Require Import base list gmap numbers functions strings.
From S2P Require Import Prelude ProcTable Ipc Process ProcessSpec Disk Elf Syscall.

Local Open Scope Z_scope.

Module SyscallSpec.
Create HintDb effects.
Import Ipc Process ProcessSpec Elf Syscall.
#[local] Opaque zero_page.

(** [a] has no bit that [b] has not. *)
Definition submask (a b : Z) : Prop := Z.land a b = a.

Lemma submask_refl a : submask a a.
Proof. apply Z.land_diag. Qed.
Lemma submask_trans a b c : submask a b → submask b c → submask a c.
Proof. unfold submask. intros Hab Hbc. by rewrite <- Hab, <- Z.land_assoc, Hbc. Qed.
Lemma submask_land a b : submask (Z.land a b) a.
Proof. unfold submask. by rewrite (Z.land_comm a b), <- Z.land_assoc, Z.land_diag. Qed.
#[export] Hint Resolve submask_refl submask_land : nexus.

Section effects.
Context {E : Type} {ME : MemEnv E} {FE : FileEnv E} {EF : ElfFiles E} {SY : SysEnv E}.
Implicit Types (s : sys E) (t : ptable) (e : E).

(** The loop that stores [n] bytes at physical address [a]. *)
Definition store_bytes (a : Z) (f : Z → Z) (n : Z) e : E :=
  foldl (λ e k, me_write8 (a + k) (f k) e) e (seqZ 0 n).

(** Page operations in the address space [cr3]: a new page is mapped and
    cleared, or its frame given back; pages are unmapped and frames released. *)
Inductive page_step (cr3 : Z) : E → E → Prop :=
| ps_no_page e : (me_alloc_page e).1 = 0 → page_step cr3 e (me_alloc_page e).2
| ps_page e va fl phys e1 rc e2 :
    me_alloc_page e = (phys, e1) → phys ≠ 0 → me_map_page_in_cr3 cr3 va phys fl e1 = (rc, e2) →
    page_step cr3 e (if rc =? 0 then me_free_page phys e2 else zero_page phys e2)
| ps_unmap e va : page_step cr3 e (me_unmap_page_in_cr3 cr3 va e)
| ps_free e phys : page_step cr3 e (me_free_page phys e).

(** What the environment does during a call of the process [r] that lacks the
    capability [c]: bytes are stored at the translation of an address on one of
    its writable pages, not crossing the page; page operations in its own
    address space, unless [c] is [MEMORY]; contents of files and the console;
    the directory tree, unless [c] is [FILESYSTEM_WRITE]. *)
Inductive step_without (c : Z) (r : nexus_process_t) : E → E → Prop :=
| es_store e v f n :
    page_allowed r VMM_PAGE_WRITABLE v = true → me_virt_to_phys_in_cr3 e (address_space_cr3 r) v ≠ 0 →
    0 ≤ n → page_mask v + n ≤ PROC_PAGE_SIZE →
    step_without c r e (store_bytes (byte_addr (me_virt_to_phys_in_cr3 e (address_space_cr3 r) v) v) f n e)
| es_pages e e' : c ≠ NEXUS_CAP_MEMORY → page_step (address_space_cr3 r) e e' → step_without c r e e'
| es_putchar e ch : step_without c r e (sy_console_putchar ch e)
| es_write e path data size off : step_without c r e (fe_write_path path data size off e).2
| es_mkdir e path : c ≠ NEXUS_CAP_FILESYSTEM_WRITE → step_without c r e (sy_mkdir_path path e).2
| es_unlink e path : c ≠ NEXUS_CAP_FILESYSTEM_WRITE → step_without c r e (sy_unlink_path path e).2
| es_rename e src dst : c ≠ NEXUS_CAP_FILESYSTEM_WRITE → step_without c r e (sy_rename_path src dst e).2.
#[local] Hint Constructors page_step step_without : nexus.

(** ... and of a process that lacks none. *)
Definition env_step : nexus_process_t → E → E → Prop := step_without 0.

Context (c : Z).

(** The fields [step_without] looks at. *)
Definition same_pages (r r' : nexus_process_t) : Prop :=
  address_space_cr3 r' = address_space_cr3 r ∧ user_page_count r' = user_page_count r ∧
  user_page_va r' = user_page_va r ∧ user_page_flags r' = user_page_flags r.

Lemma same_pages_sym r r' : same_pages r r' → same_pages r' r.
Proof. unfold same_pages. intros (? & ? & ? & ?). by split_and!. Qed.

Lemma page_allowed_same r r' req v : same_pages r r' → page_allowed r' req v = page_allowed r req v.
Proof. intros (_ & E1 & E2 & E3). unfold page_allowed, user_page_index. by rewrite E1, E2, E3. Qed.

Lemma env_step_same r r' e e' : same_pages r r' → step_without c r' e e' → step_without c r e e'.
Proof.
  intros Hs He. pose proof (proj1 Hs) as Ec. destruct He as [e v f n Ha Ht Hn Hm|e e' Hm Hp| | | | |]; rewrite ?Ec in *;
    eauto with nexus. constructor; try done. by rewrite <- (page_allowed_same r r').
Qed.

Lemma env_steps_same r r' e e' : same_pages r r' → rtc (step_without c r') e e' → rtc (step_without c r) e e'.
Proof. intros Hs. induction 1; [done|]. eapply rtc_l; [by eapply env_step_same|done]. Qed.

(** ** Writing to user memory *)

(** A loop whose pages have all been checked stores on these pages only. *)
Lemma checked_write_steps r src fuel va size off e :
  (chunk_loop fuel (λ _ v _ (u : unit), (page_allowed r VMM_PAGE_WRITABLE v, u)) va size off tt).1 = true → 0 ≤ off →
  rtc (step_without c r) e (chunk_loop fuel (write_chunk (address_space_cr3 r) src) va size off e).2.
Proof.
  revert off e. induction fuel as [|fuel IH]; intros off e; cbn [chunk_loop]; (destruct (Z.ltb_spec off size); [|intros _ _; apply rtc_refl]); [done|].
  set (v := u64 (va + off)). cbv zeta. destruct (page_allowed r VMM_PAGE_WRITABLE v) eqn:Ea; [|done].
  set (m := if _ >? _ then _ else _). unfold write_chunk at 1.
  assert (0 ≤ page_mask v < 4096) as Hp by (rewrite page_mask_mod; apply Z.mod_pos_bound; unfold PROC_PAGE_SIZE; lia).
  assert (0 ≤ m ∧ page_mask v + m ≤ PROC_PAGE_SIZE) as [Hm Hm'].
  { unfold m, PROC_PAGE_SIZE. destruct (Z.gtb_spec (4096 - page_mask v) (size - off)); lia. }
  destruct (Z.eqb_spec (me_virt_to_phys_in_cr3 e (address_space_cr3 r) v) 0); [intros _ _; cbn; apply rtc_refl|].
  intros Hl Ho. eapply rtc_l; [|apply IH; [exact Hl|lia]].
  by apply (es_store c r e v (λ k, src (off + k)) m).
Qed.

Lemma user_write_steps p i va src size t e :
  process_get t p = Some i → rtc (step_without c (proc t i)) e (process_user_write p va src size t e).2.
Proof.
  intros Hg. unfold process_user_write. rewrite Hg. destruct src as [src|]; [|done].
  destruct (_ || _ || negb _) eqn:Ec; [done|]. apply orb_false_iff in Ec as [_ Ev]. apply negb_false_iff in Ev.
  unfold process_user_range_valid in Ev. rewrite Hg in Ev. destruct (_ || _); [done|].
  by apply checked_write_steps.
Qed.

(** ** Effects *)

(** The user memory of a process. *)
Definition same_space (r r' : nexus_process_t) : Prop :=
  same_pages r r' ∧ user_page_phys r' = user_page_phys r ∧ heap_base r' = heap_base r ∧ heap_end r' = heap_end r.

(** No descriptor is open that was not open, for the same file. *)
Definition no_new_fd (r r' : nexus_process_t) : Prop :=
  ∀ fd, fd_type (fds r' fd) ≠ PROCESS_FD_UNUSED →
    fd_type (fds r fd) ≠ PROCESS_FD_UNUSED ∧ fd_path (fds r' fd) = fd_path (fds r fd).

(** What the missing capability [c] protects in a process record. *)
Definition spared (r r' : nexus_process_t) : Prop :=
  (c = NEXUS_CAP_MEMORY → same_space r r') ∧
  (c = NEXUS_CAP_PROCESS_CONTROL → priority r' = priority r) ∧
  (c = NEXUS_CAP_FILESYSTEM_READ → no_new_fd r r').

(** Channels and the handles on them. *)
Definition same_channels t t' : Prop :=
  g_channels t' = g_channels t ∧ ∀ j, ipc_handles (proc t' j) = ipc_handles (proc t j).

Lemma spared_refl r : spared r r.
Proof. done. Qed.
Lemma spared_trans r1 r2 r3 : spared r1 r2 → spared r2 r3 → spared r1 r3.
Proof.
  intros (A1 & A2 & A3) (B1 & B2 & B3). split; [|split].
  - intros Hc. destruct (A1 Hc) as ((? & ? & ? & ?) & ? & ? & ?), (B1 Hc) as ((? & ? & ? & ?) & ? & ? & ?).
    unfold same_space, same_pages. split_and!; congruence.
  - intros Hc. by rewrite B2, A2.
  - intros Hc fd Hf. destruct (B3 Hc fd Hf) as [H1 E1]. destruct (A3 Hc fd H1) as [H2 E2]. split; [done|congruence].
Qed.
Lemma spared_handles r r' : same_but_handles r r' → spared r r'.
Proof. intros [h ->]. done. Qed.
Lemma same_channels_trans t1 t2 t3 : same_channels t1 t2 → same_channels t2 t3 → same_channels t1 t3.
Proof. intros [A1 A2] [B1 B2]. split; [congruence|]. intros j. by rewrite B2, A2. Qed.

Record effect (i : nat) s s' : Prop := {
  ef_core : same_core (tab s) (tab s');
  ef_others : ∀ j, j ≠ i → same_but_handles (proc (tab s) j) (proc (tab s') j);
  ef_parent : parent_pid (proc (tab s') i) = parent_pid (proc (tab s) i);
  ef_caps : submask (capabilities (proc (tab s') i)) (capabilities (proc (tab s) i));
  ef_wf : pwf (tab s) → pwf (tab s');
  ef_env : rtc (step_without c (run_as s i)) (senv s) (senv s');
  ef_spared : spared (run_as s i) (run_as s' i);
  ef_ipc : c = NEXUS_CAP_IPC → same_channels (tab s) (tab s');
}.

Lemma effect_refl i s : effect i s s.
Proof. split; try done. { intros j _. apply same_but_handles_refl. } apply submask_refl. Qed.

(** Two effects in a row, the first of which leaves the pages alone. *)
Lemma effect_trans i s1 s2 s3 :
  effect i s1 s2 → same_pages (run_as s1 i) (run_as s2 i) → effect i s2 s3 → effect i s1 s3.
Proof.
  intros [A1 A2 A3 A4 A5 A6 A7 A8] Hs [B1 B2 B3 B4 B5 B6 B7 B8]. split.
  - by eapply same_core_trans.
  - intros j Hj. by eapply same_but_handles_trans; [apply A2|apply B2].
  - by rewrite B3.
  - by eapply submask_trans.
  - auto.
  - etrans; [exact A6|]. by eapply env_steps_same.
  - by eapply spared_trans.
  - intros Hc. by eapply same_channels_trans; [apply A8|apply B8].
Qed.

(** The caller's own record. *)
Definition is_self s (i : nat) : Prop := process_get (tab s) (pid_of s i) = Some i.

Lemma effect_self i s s' : effect i s s' → is_self s i → is_self s' i.
Proof.
  intros [Hc _ _ _ _ _ _ _] Hs. unfold is_self, pid_of, run_as. rewrite (same_core_get _ _ _ Hc).
  destruct Hc as [Hc _]. destruct (Hc i) as [_ ->]. exact Hs.
Qed.

(** Only the environment changes. *)
Lemma effect_env i s e : rtc (step_without c (run_as s i)) (senv s) e → effect i s (s <| senv := e |>).
Proof. intros Hr. split; try done. { intros j _. apply same_but_handles_refl. } apply submask_refl. Qed.

(** An update of the own record outside what matters here. *)
Definition tame (f : nexus_process_t → nexus_process_t) : Prop := ∀ r,
  p_state (f r) = p_state r ∧ pid (f r) = pid r ∧ parent_pid (f r) = parent_pid r ∧
  submask (capabilities (f r)) (capabilities r) ∧ same_pages r (f r) ∧ spared r (f r) ∧
  ipc_handles (f r) = ipc_handles r.

Inductive self_update (i : nat) t : ptable → Prop :=
| su_refl : self_update i t t
| su_set f : tame f → (pwf t → pwf (set_proc i f t)) → self_update i t (set_proc i f t).

Lemma effect_tab i s s' :
  self_update i (tab s) (tab s') → senv s' = senv s → effect i s s' ∧ same_pages (run_as s i) (run_as s' i).
Proof.
  intros Hu He. assert (∃ t', tab s' = t') as [t' Et] by eauto. rewrite Et in Hu. unfold run_as. rewrite Et.
  destruct Hu as [|f Hf Hw].
  { split; [|done]. split; unfold run_as; rewrite ?Et, ?He; try done. { intros j _. apply same_but_handles_refl. } apply submask_refl. }
  rewrite !proc_set_eq. destruct (Hf (proc (tab s) i)) as (H1 & H2 & H3 & H4 & H5 & H6 & H7). split; [|done].
  split; unfold run_as; rewrite ?Et, ?proc_set_eq, ?He; try done.
  - apply set_proc_core. intros r. destruct (Hf r) as (? & ? & _). done.
  - intros j Hj. rewrite proc_set_ne by done. apply same_but_handles_refl.
  - intros _. split; [done|]. intros j. destruct (decide (i = j)) as [<-|]; [by rewrite proc_set_eq|by rewrite proc_set_ne].
Qed.

(** ** The operations of process.c that only touch the caller's record *)

Lemma su_quiet i t f : tame f → quiet f → self_update i t (set_proc i f t).
Proof. intros Ht Hq. apply su_set; [done|]. intros W. by apply pwf_quiet. Qed.

(** A descriptor is closed or keeps its file. *)
Lemma su_fd i fd g t :
  (c = NEXUS_CAP_FILESYSTEM_READ → ∀ d, fd_type (g d) = PROCESS_FD_UNUSED ∨
     fd_type (g d) = fd_type d ∧ fd_path (g d) = fd_path d) →
  self_update i t (set_fd i fd g t).
Proof.
  intros Hd. apply su_quiet; [|done]. intros r. split_and!; try done; [apply submask_refl|]. split; [done|]. split; [done|].
  intros Hc k. cbn. destruct (decide (k = fd)) as [->|Hk]; [|by rewrite upd_ne]. rewrite upd_eq.
  destruct (Hd Hc (fds r fd)) as [E0|[E1 E2]]; [by rewrite E0|]. by rewrite E1, E2.
Qed.

Section self.
Context (p : Z) (i : nat) (t : ptable) (Hg : process_get t p = Some i).

Ltac self :=
  rewrite ?Hg; repeat (case_match; simplify_eq; try apply su_refl); cbn;
  try (apply su_quiet; intros ?; unfold same_pages, spared, same_space, no_new_fd; split_and!; cbn; auto with nexus; done).
Ltac descriptor :=
  rewrite ?Hg; repeat (case_match; simplify_eq; try apply su_refl); apply su_fd; intros; solve [done|by left|by right].

Lemma set_priority_self v : c ≠ NEXUS_CAP_PROCESS_CONTROL → self_update i t (process_set_priority p v t).2.
Proof. intros Hc. unfold process_set_priority, live_index. self. Qed.
Lemma set_name_self nm : self_update i t (process_set_name p nm t).2.
Proof. unfold process_set_name, live_index. self. Qed.
Lemma set_cwd_self nm : self_update i t (process_set_cwd p nm t).2.
Proof. unfold process_set_cwd, live_index. self. Qed.
Lemma drop_cap_self q : self_update i t (process_drop_capability p q t).2.
Proof. unfold process_drop_capability. self. Qed.
Lemma fd_close_self fd : self_update i t (process_fd_close p fd t).2.
Proof. unfold process_fd_close. descriptor. Qed.
Lemma fd_open_self path fl e : c ≠ NEXUS_CAP_FILESYSTEM_READ → self_update i t (process_fd_open p path fl t e).1.2.
Proof. intros Hc. unfold process_fd_open. descriptor. Qed.
Lemma fd_read_self fd n e : self_update i t (process_fd_read p fd n t e).2.
Proof. unfold process_fd_read, vfs_fd. descriptor. Qed.
Lemma fd_write_self fd data n e : self_update i t (process_fd_write p fd data n t e).1.2.
Proof. unfold process_fd_write, vfs_fd. descriptor. Qed.
Lemma fd_seek_self fd off wh e : self_update i t (process_fd_seek p fd off wh t e).2.
Proof. unfold process_fd_seek, vfs_fd. descriptor. Qed.

Lemma set_env_self k v : self_update i t (process_set_env p k v t).2.
Proof.
  pose proof (process_set_env_wf p k v t) as W. revert W. unfold process_set_env, live_index. rewrite Hg.
  repeat (case_match; simplify_eq; try (intros; apply su_refl)); cbn; intros W; apply su_set; try exact W; intros r;
    unfold same_pages, spared, same_space, no_new_fd; split_and!; cbn; auto with nexus; done.
Qed.
Lemma unset_env_self k : self_update i t (process_unset_env p k t).2.
Proof.
  pose proof (process_unset_env_wf p k t) as W. revert W. unfold process_unset_env. rewrite Hg.
  repeat (case_match; simplify_eq; try (intros; apply su_refl)); cbn; intros W; apply su_set; try exact W; intros r;
    unfold same_pages, spared, same_space, no_new_fd; split_and!; cbn; auto with nexus; done.
Qed.
End self.

Lemma open_file_steps r path fl e : rtc (step_without c r) e (open_file path fl e).2.
Proof.
  unfold open_file. pose proof (es_write c r e path [0] 0 0) as H1.
  destruct (fe_file_size_path e path) as [sz|]; cbn [negb].
  - destruct (has_bits fl 8); [|apply rtc_refl]. destruct (fe_write_path path [0] 0 0 e) as [[]]; by apply rtc_once.
  - destruct (has_bits fl 4); cbn [negb]; [|apply rtc_refl].
    destruct (fe_write_path path [0] 0 0 e) as [[] e1]; cbn [negb snd]; [|by apply rtc_once].
    destruct (has_bits fl 8); [|by apply rtc_once]. pose proof (es_write c r e1 path [0] 0 0) as H2.
    eapply rtc_l; [exact H1|]. destruct (fe_write_path path [0] 0 0 e1) as [[]]; by apply rtc_once.
Qed.

Lemma fd_open_steps r p path fl t e : rtc (step_without c r) e (process_fd_open p path fl t e).2.
Proof.
  unfold process_fd_open. destruct (process_get t p) as [i|]; [|apply rtc_refl].
  destruct path as [path|]; [|apply rtc_refl]. destruct (_ || _); [apply rtc_refl|].
  destruct (first_index _ _ _); [|apply rtc_refl]. pose proof (open_file_steps r path fl e) as Ho.
  by destruct (open_file path fl e) as [[]].
Qed.

Lemma fd_write_steps r p fd data n t e : rtc (step_without c r) e (process_fd_write p fd data n t e).2.
Proof.
  unfold process_fd_write. destruct (vfs_fd p fd t) as [i|]; [|apply rtc_refl].
  destruct data as [data|]; [|apply rtc_refl]. cbv zeta. destruct (negb _); [apply rtc_refl|].
  pose proof (es_write c r e (fd_path (fd_of t i fd)) data n (fd_offset (fd_of t i fd))) as Hw.
  destruct (fe_write_path _ data n _ e) as [[] e1]; by apply rtc_once.
Qed.

(** ** Page operations *)

(** What page operations leave alone. *)
Definition unpaged (i : nat) t :=
  (g_channels t, address_space_cr3 (proc t i), priority (proc t i), fds (proc t i), ipc_handles (proc t i)).

(** A page operation on the caller: its record and the steps taken. *)
Definition paged (i : nat) t e t' e' : Prop :=
  page_op i t t' ∧ unpaged i t' = unpaged i t ∧ rtc (page_step (address_space_cr3 (proc t i))) e e'.

Lemma paged_refl i t e : paged i t e t e.
Proof. split; [done|]. split; [done|apply rtc_refl]. Qed.

Lemma unpaged_set i f t :
  (∀ r, address_space_cr3 (f r) = address_space_cr3 r ∧ priority (f r) = priority r ∧ fds (f r) = fds r ∧
        ipc_handles (f r) = ipc_handles r) → unpaged i (set_proc i f t) = unpaged i t.
Proof.
  intros Hf. unfold unpaged. rewrite proc_set_eq. destruct (Hf (proc t i)) as (-> & -> & -> & ->). done.
Qed.

Lemma paged_trans i t1 e1 t2 e2 t3 e3 : paged i t1 e1 t2 e2 → paged i t2 e2 t3 e3 → paged i t1 e1 t3 e3.
Proof.
  intros (A1 & A2 & A3) (B1 & B2 & B3). split; [by eapply page_op_trans|]. split; [congruence|].
  assert (address_space_cr3 (proc t2 i) = address_space_cr3 (proc t1 i)) as Ec by (unfold unpaged in A2; congruence).
  rewrite Ec in B3. by etrans.
Qed.

Lemma paged_get i t e t' e' p : paged i t e t' e' → process_get t' p = process_get t p.
Proof. intros (Hop & _). by apply (page_op_get i). Qed.

Lemma map_page_paged p i va fl t e :
  process_get t p = Some i →
  paged i t e (process_map_user_page p va fl t e).1.2 (process_map_user_page p va fl t e).2.
Proof.
  intros Hg. unfold process_map_user_page. destruct (_ || _); [apply paged_refl|]. rewrite Hg. cbv zeta.
  destruct (_ || _); [apply paged_refl|]. destruct (existsb _ _); [apply paged_refl|].
  destruct (me_alloc_page e) as [phys e1] eqn:Ea. destruct (Z.eqb_spec phys 0) as [->|Hp].
  { split; [done|]. split; [done|]. apply rtc_once. pose proof (ps_no_page (address_space_cr3 (proc t i)) e) as Hs.
    rewrite Ea in Hs. by apply Hs. }
  destruct (me_map_page_in_cr3 _ va phys _ e1) as [rc e2] eqn:Em.
  pose proof (ps_page (address_space_cr3 (proc t i)) e va _ phys e1 rc e2 Ea Hp Em) as Hs. destruct (rc =? 0); cbn [fst snd].
  - split; [done|]. split; [done|by apply rtc_once].
  - split; [by apply page_op_set|]. split; [by apply unpaged_set|by apply rtc_once].
Qed.

Lemma map_pages_paged fuel p i base fl k t e :
  process_get t p = Some i →
  paged i t e (map_pages_loop fuel p base fl k t e).1.2 (map_pages_loop fuel p base fl k t e).2.
Proof.
  revert k t e. induction fuel as [|fuel IH]; intros k t e Hg; cbn [map_pages_loop]; [apply paged_refl|].
  pose proof (map_page_paged p i (u64 (base + k * PROC_PAGE_SIZE)) fl t e Hg) as Hp.
  destruct (process_map_user_page p _ fl t e) as [[ok t1] e1]. cbn [fst snd] in Hp.
  destruct ok; [|done]. eapply paged_trans; [exact Hp|]. apply IH. by rewrite (paged_get _ _ _ _ _ _ Hp).
Qed.

Lemma unmap_range_paged fuel i base en k t e :
  paged i t e (unmap_range_loop fuel i base en k t e).1 (unmap_range_loop fuel i base en k t e).2.
Proof.
  revert k t e. induction fuel as [|fuel IH]; intros k t e; cbn [unmap_range_loop]; [apply paged_refl|]. cbv zeta.
  destruct (_ <? _); [|apply paged_refl]. destruct (_ && _); [|apply IH].
  eapply paged_trans; [|apply IH]. split; [by apply page_op_set|]. split; [by apply unpaged_set|].
  set (va := user_page_va (proc t i) k). set (phys := user_page_phys (proc t i) k).
  set (cr3 := address_space_cr3 (proc t i)).
  assert (rtc (page_step cr3) e (if negb (cr3 =? 0) then me_unmap_page_in_cr3 cr3 va e else e)) as H1
    by (destruct (negb _); [apply rtc_once; constructor|apply rtc_refl]).
  etrans; [exact H1|]. destruct (negb (phys =? 0)); [apply rtc_once; constructor|apply rtc_refl].
Qed.

Lemma unmap_user_range_paged p i base size t e :
  process_get t p = Some i →
  paged i t e (process_unmap_user_range p base size t e).1.2 (process_unmap_user_range p base size t e).2.
Proof.
  intros Hg. unfold process_unmap_user_range. rewrite Hg. destruct (_ || _); [apply paged_refl|]. cbv zeta.
  destruct (_ <? _); [apply paged_refl|].
  pose proof (unmap_range_paged (Z.to_nat (user_page_count (proc t i)) + 1) i base (u64 (base + size)) 0 t e) as Hu.
  by destruct (unmap_range_loop _ i base _ 0 t e).
Qed.

Lemma alloc_user_range_paged p i pages fl t e :
  process_get t p = Some i →
  paged i t e (process_alloc_user_range p pages fl t e).1.2 (process_alloc_user_range p pages fl t e).2.
Proof.
  intros Hg. unfold process_alloc_user_range. rewrite Hg. cbv zeta.
  destruct (_ || _); [apply paged_refl|]. destruct (_ >? _); [apply paged_refl|].
  match goal with |- context [if ?b then (0, t, e) else _] => destruct b; [apply paged_refl|] end.
  match goal with |- context [map_pages_loop ?f p ?b fl 0 t e] =>
    set (bs := b); pose proof (map_pages_paged f p i bs fl 0 t e Hg) as Hm;
    destruct (map_pages_loop f p bs fl 0 t e) as [[[ok k] t1] e1] end.
  cbn [fst snd] in Hm. destruct ok; cbn [fst snd].
  - eapply paged_trans; [exact Hm|]. split; [by apply page_op_set|]. split; [by apply unpaged_set|apply rtc_refl].
  - pose proof (unmap_user_range_paged p i bs (u64 (k * PROC_PAGE_SIZE)) t1 e1) as Hu.
    rewrite (paged_get _ _ _ _ _ _ Hm) in Hu. specialize (Hu Hg).
    destruct (process_unmap_user_range p bs _ t1 e1) as [[]]. by eapply paged_trans.
Qed.

Lemma effect_paged i s s' :
  c ≠ NEXUS_CAP_MEMORY → paged i (tab s) (senv s) (tab s') (senv s') → (pwf (tab s) → pwf (tab s')) → effect i s s'.
Proof.
  intros Hm ((Ho & Hs & Hp & He & Hc & Hpa) & Hcr & Hr) W.
  unfold unpaged in Hcr. injection Hcr as Hch _ Hpr Hfd Hhd. split; try done.
  - by eapply only_slot_core.
  - intros j Hj. rewrite (proj1 Ho) by done. apply same_but_handles_refl.
  - rewrite Hc. apply submask_refl.
  - clear -Hm Hr. unfold run_as. induction Hr; [apply rtc_refl|]. eapply rtc_l; [by constructor 2|done].
  - split; [done|]. split; [done|]. intros _ fd. unfold run_as. by rewrite Hfd.
  - intros _. split; [done|]. intros j. destruct (decide (j = i)) as [->|Hj]; [done|by rewrite (proj1 Ho)].
Qed.

Lemma effect_chan i s s' :
  c ≠ NEXUS_CAP_IPC → handles_only (tab s) (tab s') → senv s' = senv s → effect i s s' ∧ same_pages (run_as s i) (run_as s' i).
Proof.
  intros Hm Hh He. pose proof Hh as [Hc Hb]. unfold run_as. destruct (Hb i) as [h Eh]. split.
  - split; try done.
    + by rewrite Eh.
    + rewrite Eh. apply submask_refl.
    + intros W. by eapply handles_only_wf.
    + rewrite He. apply rtc_refl.
    + apply spared_handles. by exists h.
  - by rewrite Eh.
Qed.

(** ** The handlers *)

Section handlers.
Context (i : nat) (s : sys E) (Hi : is_self s i) (Hmiss : c = 0 ∨ has_cap s i c = false).

Lemma not_missing k : has_cap s i k = true → k ≠ 0 → c ≠ k.
Proof. intros Hk H0 ->. destruct Hmiss; congruence. Qed.

Lemma put_effect va bytes n s0 :
  is_self s0 i → effect i s0 (put i va bytes n s0).2 ∧ tab (put i va bytes n s0).2 = tab s0.
Proof.
  intros H0. unfold put. pose proof (user_write_steps (pid_of s0 i) i va (Some (byte_at bytes)) n (tab s0) (senv s0) H0) as Hw.
  destruct (process_user_write _ va _ n _ _) as [ok e]. split; [|done]. by apply effect_env.
Qed.

Lemma put_string_effect va str n s0 : is_self s0 i → effect i s0 (put_string i va str n s0).2.
Proof.
  intros H0. unfold put_string. cbv zeta. pose proof (proj1 (put_effect va (str ++ [0]) (Z.min (Z.of_nat (length str)) (n - 1) + 1) s0 H0)) as Hp.
  by destruct (put i va _ _ s0) as [[] s'].
Qed.

(** Run an operation on the own record that gives a table and a result. *)
Ltac own L :=
  match goal with |- context [let '(_, _) := ?x in _] =>
    let H := fresh in pose proof L as H; destruct x as [? ?]; cbn [fst snd] in *; by apply effect_tab
  end.
Ltac putting :=
  match goal with |- context [put i ?va ?b ?n ?s0] =>
    let H := fresh in pose proof (proj1 (put_effect va b n s0 Hi)) as H; destruct (put i va b n s0) as [[] ?]; exact H
  end.
Ltac stay := apply effect_refl.
Ltac gate Hc :=
  match goal with |- context [negb (has_cap s i ?k)] =>
    destruct (has_cap s i k) eqn:Hc; cbn [negb]; [apply not_missing in Hc; [|done]|stay] end.

Lemma setpriority_effect a0 : effect i s (sys_setpriority i a0 s).2.
Proof. unfold sys_setpriority. gate Hk. own (set_priority_self _ _ _ Hi (u32 a0) Hk). Qed.

Lemma getname_effect a0 a1 : effect i s (sys_getname i a0 a1 s).2.
Proof. unfold sys_getname. destruct (_ || _); [stay|]. case_match; [by apply put_string_effect|stay]. Qed.

Lemma setname_effect a0 a1 : effect i s (sys_setname i a0 a1 s).2.
Proof.
  unfold sys_setname. destruct (_ || _); [stay|]. destruct (fetch s i a0 a1) as [n|]; [|stay].
  own (set_name_self _ _ _ Hi (Some (c_string (take (Z.to_nat (a1 - 1)) n)))).
Qed.

Lemma getcwd_effect a0 a1 : effect i s (sys_getcwd i a0 a1 s).2.
Proof. unfold sys_getcwd. destruct (_ || _); [stay|]. case_match; [by apply put_string_effect|stay]. Qed.

Lemma chdir_effect a0 : effect i s (sys_chdir i a0 s).2.
Proof.
  unfold sys_chdir. destruct (copy_user_string s i a0 _) as [path|]; [|stay]. destruct (negb _); [stay|].
  own (set_cwd_self _ _ _ Hi (Some path)).
Qed.

Lemma getenv_effect a0 a1 a2 : effect i s (sys_getenv i a0 a1 a2 s).2.
Proof.
  unfold sys_getenv. destruct (_ || _); [stay|]. destruct (fetch s i a0 _); [|stay].
  repeat (case_match; try stay). by apply put_string_effect.
Qed.

Lemma setenv_effect a0 a1 : effect i s (sys_setenv i a0 a1 s).2.
Proof.
  unfold sys_setenv. destruct (copy_user_string s i a0 _) as [k|]; [|stay].
  destruct (copy_user_string s i a1 _) as [v|]; [|stay]. own (set_env_self _ _ _ Hi (Some k) (Some v)).
Qed.

Lemma unsetenv_effect a0 : effect i s (sys_unsetenv i a0 s).2.
Proof.
  unfold sys_unsetenv. destruct (copy_user_string s i a0 _) as [k|]; [|stay]. own (unset_env_self _ _ _ Hi (Some k)).
Qed.

Lemma effect_tab_set t :
  self_update i (tab s) t → effect i s (s <| tab := t |>) ∧ same_pages (run_as s i) (run_as (s <| tab := t |>) i).
Proof. intros Ht. by apply effect_tab. Qed.
Lemma effect_chan_set t :
  c ≠ NEXUS_CAP_IPC → handles_only (tab s) t → effect i s (s <| tab := t |>) ∧ same_pages (run_as s i) (run_as (s <| tab := t |>) i).
Proof. intros Hm Ht. by apply effect_chan. Qed.

(** An operation on the own record and then on the environment. *)
Lemma effect_tab_env t e :
  self_update i (tab s) t → rtc (step_without c (run_as s i)) (senv s) e →
  effect i s (s <| tab := t |> <| senv := e |>).
Proof.
  intros Ht He. destruct (effect_tab_set t Ht) as [H1 Hs].
  eapply effect_trans; [exact H1|exact Hs|]. apply (effect_env i (s <| tab := t |>)).
  eapply env_steps_same; [|exact He]. by apply same_pages_sym.
Qed.

Lemma write_effect a0 a1 a2 : effect i s (sys_write i a0 a1 a2 s).2.
Proof.
  unfold sys_write. destruct (_ || _); [stay|]. destruct (fetch s i a1 a2) as [b|]; [|stay].
  destruct (process_fd_is_writable _ _ _).
  - apply effect_env. cbn. generalize (senv s) as e. induction (take (Z.to_nat a2) b) as [|ch l IH]; intros e; [apply rtc_refl|].
    cbn [foldl]. eapply rtc_l; [by constructor|apply IH].
  - pose proof (fd_write_self _ _ _ Hi a0 (Some b) a2 (senv s)) as H1.
    pose proof (fd_write_steps (run_as s i) (pid_of s i) a0 (Some b) a2 (tab s) (senv s)) as H2.
    destruct (process_fd_write _ a0 _ a2 _ _) as [[n t] e]. by apply effect_tab_env.
Qed.

Lemma read_effect a0 a1 a2 : effect i s (sys_read i a0 a1 a2 s).2.
Proof.
  unfold sys_read. destruct (_ || _); [stay|].
  pose proof (fd_read_self _ _ _ Hi a0 a2 (senv s)) as H1.
  destruct (process_fd_read _ a0 a2 _ _) as [[n b] t]. cbn [fst snd] in H1.
  destruct (effect_tab_set t H1) as [H2 Hs]. destruct (n <? 0); [done|].
  pose proof (put_effect a1 b n (s <| tab := t |>) (effect_self _ _ _ H2 Hi)) as [H3 _].
  destruct (put i a1 b n _) as [[] s']; by eapply effect_trans.
Qed.

Lemma open_effect a0 a1 : effect i s (sys_open i a0 a1 s).2.
Proof.
  unfold sys_open. gate Hk. destruct (copy_user_string s i a0 _) as [path|]; [|stay].
  pose proof (fd_open_self _ _ _ Hi (Some path) (u32 a1) (senv s) Hk) as H1.
  pose proof (fd_open_steps (run_as s i) (pid_of s i) (Some path) (u32 a1) (tab s) (senv s)) as H2.
  destruct (process_fd_open _ _ _ _ _) as [[fd t] e]. by apply effect_tab_env.
Qed.

Lemma close_effect a0 : effect i s (sys_close i a0 s).2.
Proof. unfold sys_close. own (fd_close_self _ _ _ Hi a0). Qed.

Lemma seek_effect a0 a1 a2 : effect i s (sys_seek i a0 a1 a2 s).2.
Proof. unfold sys_seek. own (fd_seek_self _ _ _ Hi a0 (i64 a1) (u32 a2) (senv s)). Qed.

Lemma stat_effect a0 a1 : effect i s (sys_stat i a0 a1 s).2.
Proof.
  unfold sys_stat. destruct (copy_user_string s i a0 _); [|stay]. destruct (negb _); [stay|].
  destruct (fe_file_size_path _ _); [putting|]. destruct (sy_is_dir_path _ _); [putting|stay].
Qed.

Lemma path_op_effect op a0 :
  (c ≠ NEXUS_CAP_FILESYSTEM_WRITE → ∀ path e, step_without c (run_as s i) e (op path e).2) → effect i s (sys_path_op op i a0 s).2.
Proof.
  intros Hop. unfold sys_path_op. gate Hk. destruct (copy_user_string s i a0 _) as [path|]; [|stay].
  specialize (Hop Hk path (senv s)). destruct (op path (senv s)) as [ok e]. apply effect_env. by apply rtc_once.
Qed.

Lemma rename_effect a0 a1 : effect i s (sys_rename i a0 a1 s).2.
Proof.
  unfold sys_rename. gate Hk. destruct (copy_user_string s i a0 _) as [src|]; [|stay].
  destruct (copy_user_string s i a1 _) as [dst|]; [|stay]. pose proof (es_rename c (run_as s i) (senv s) src dst Hk) as Hr.
  destruct (sy_rename_path src dst (senv s)) as [ok e]. apply effect_env. by apply rtc_once.
Qed.

Lemma enum_effect fuel a0 cap q n s0 : is_self s0 i → effect i s0 (enum_loop fuel i a0 cap q n s0).2.
Proof.
  revert q n s0. induction fuel as [|fuel IH]; intros q n s0 H0; cbn [enum_loop]; [stay|].
  destruct (n <? cap); [|stay]. destruct (process_get (tab s0) q) as [j|]; [|by apply IH].
  destruct (put_effect (u64 (a0 + n * sizeof_info)) (info_bytes (proc (tab s0) j)) sizeof_info s0 H0) as [H1 Ht].
  destruct (put i _ _ _ s0) as [[] s1]; [|done]. cbn [snd] in *. eapply effect_trans; [exact H1| |].
  - unfold run_as. by rewrite Ht.
  - apply IH. by eapply effect_self.
Qed.

Lemma process_enum_effect a0 a1 a2 : effect i s (sys_process_enum i a0 a1 a2 s).2.
Proof. unfold sys_process_enum. destruct (_ || _); [stay|]. by apply enum_effect. Qed.

Lemma waitpid_effect a0 a1 : effect i s (sys_waitpid i a0 a1 s).2.
Proof.
  unfold sys_waitpid. destruct (list_find _ _) as [[k q]|]; [|stay]. destruct (_ && _); [|stay].
  destruct (process_get (tab s) q); [|stay]. putting.
Qed.

Lemma mmap_effect a1 : effect i s (sys_mmap i a1 s).2.
Proof.
  unfold sys_mmap. gate Hk. cbv zeta. destruct (_ || _); [stay|].
  set (pages := u64 (a1 + 4095) / 4096).
  pose proof (alloc_user_range_paged _ _ pages HEAP_FLAGS _ (senv s) Hi) as Hp.
  pose proof (process_alloc_user_range_wf (pid_of s i) pages HEAP_FLAGS (tab s) (senv s)) as W.
  destruct (process_alloc_user_range _ pages _ _ _) as [[base t] e]. by apply effect_paged.
Qed.

Lemma munmap_effect a0 a1 : effect i s (sys_munmap i a0 a1 s).2.
Proof.
  unfold sys_munmap. gate Hk.
  pose proof (unmap_user_range_paged _ _ a0 a1 _ (senv s) Hi) as Hp.
  pose proof (process_unmap_user_range_wf (pid_of s i) a0 a1 (tab s) (senv s)) as W.
  destruct (process_unmap_user_range _ a0 a1 _ _) as [[ok t] e]. by apply effect_paged.
Qed.

(** Page operations followed by the assignment of the heap end. *)
Lemma paged_heap_end s' v :
  c ≠ NEXUS_CAP_MEMORY → paged i (tab s) (senv s) (tab s') (senv s') → (pwf (tab s) → pwf (tab s')) → effect i s (set_heap_end i v s').
Proof.
  intros Hm Hp W. apply effect_paged; [done| |].
  - eapply paged_trans; [exact Hp|].
    change (tab (set_heap_end i v s')) with (set_proc i (λ r, r <| heap_end := v |>) (tab s')).
    split; [by apply page_op_set|]. split; [by apply unpaged_set|apply rtc_refl].
  - intros W0. apply pwf_quiet; [by apply W|done].
Qed.

Lemma brk_effect a0 : effect i s (sys_brk i a0 s).2.
Proof.
  unfold sys_brk. gate Hk. destruct (a0 =? 0); [stay|]. destruct (_ || _); [stay|]. cbv zeta.
  set (old := heap_end (run_as s i)). destruct (a0 >? old); [|destruct (a0 <? old); [|stay]].
  - set (pages := u64 (a0 - old + 4095) / 4096).
    pose proof (alloc_user_range_paged _ _ pages HEAP_FLAGS _ (senv s) Hi) as Hp.
    pose proof (process_alloc_user_range_wf (pid_of s i) pages HEAP_FLAGS (tab s) (senv s)) as W.
    destruct (process_alloc_user_range _ pages _ _ _) as [[base t] e]. cbn [fst snd] in Hp, W.
    destruct (_ || _); [by apply effect_paged|]. by apply (paged_heap_end (s <| tab := t |> <| senv := e |>)).
  - set (cut := u64 (old - a0 + 4095) / 4096).
    pose proof (unmap_user_range_paged _ _ (u64 (old - cut * 4096)) (u64 (cut * 4096)) _ (senv s) Hi) as Hp.
    pose proof (process_unmap_user_range_wf (pid_of s i) (u64 (old - cut * 4096)) (u64 (cut * 4096)) (tab s) (senv s)) as W.
    destruct (process_unmap_user_range _ _ _ _ _) as [[ok t] e]. cbn [fst snd] in Hp, W.
    destruct (negb ok); [by apply effect_paged|]. by apply (paged_heap_end (s <| tab := t |> <| senv := e |>)).
Qed.

Lemma meminfo_effect a0 : effect i s (sys_meminfo i a0 s).2.
Proof. unfold sys_meminfo. destruct (negb _); [stay|]. cbv zeta. putting. Qed.

Lemma getstring_effect str m a0 a1 : effect i s (sys_getstring str m i a0 a1 s).2.
Proof. unfold sys_getstring. destruct (_ || _); [stay|]. by apply put_string_effect. Qed.

Lemma runtime_info_effect a0 a1 : effect i s (sys_runtime_info i a0 a1 s).2.
Proof.
  unfold sys_runtime_info. gate Hk. destruct (_ || _); [stay|].
  destruct (nexus_runtime_fill_info _ s); [putting|stay].
Qed.

Lemma channel_create_effect a0 : effect i s (sys_channel_create i a0 s).2.
Proof.
  unfold sys_channel_create. gate Hk. pose proof (ipc_create_only (pid_of s i) a0 (tab s)) as Hh.
  destruct (nexus_ipc_create _ a0 _) as [h t]. by apply effect_chan.
Qed.

Lemma channel_close_effect a0 : effect i s (sys_channel_close i a0 s).2.
Proof.
  unfold sys_channel_close. gate Hk. pose proof (ipc_close_only (pid_of s i) (u32 a0) (tab s)) as Hh.
  destruct (nexus_ipc_close _ _ _) as [h t]. by apply effect_chan.
Qed.

Lemma channel_send_effect a0 a1 a2 : effect i s (sys_channel_send i a0 a1 a2 s).2.
Proof.
  unfold sys_channel_send. gate Hk. destruct (_ || _); [stay|].
  destruct (fetch s i a1 a2) as [b|]; [|stay].
  pose proof (ipc_send_only (pid_of s i) (u32 a0) (Some (byte_at b)) (u32 a2) (tab s)) as Hh.
  destruct (nexus_ipc_send _ _ _ _ _) as [h t]. by apply effect_chan.
Qed.

Lemma channel_recv_effect a0 a1 a2 a3 : effect i s (sys_channel_recv i a0 a1 a2 a3 s).2.
Proof.
  unfold sys_channel_recv. gate Hk. destruct (_ || _); [stay|].
  pose proof (ipc_recv_only (pid_of s i) (u32 a0) (u32 a2) (tab s)) as Hh.
  destruct (nexus_ipc_recv _ _ _ _) as [[b|] t]; cbn [snd] in Hh; [|by apply effect_chan].
  destruct (effect_chan_set t Hk Hh) as [H1 Hs]. cbv zeta.
  pose proof (effect_self _ _ _ H1 Hi) as Hi1.
  destruct (put_effect a1 b (Z.of_nat (length b)) (s <| tab := t |>) Hi1) as [H2 Ht].
  destruct (put i a1 b _ _) as [[] s2]; cbn [negb snd] in *; [|by eapply effect_trans].
  destruct (put_effect a3 (le32_bytes (Z.of_nat (length b))) 4 s2 (effect_self _ _ _ H2 Hi1)) as [H3 _].
  assert (effect i s s2) as H12 by (by eapply effect_trans).
  destruct (put i a3 _ _ s2) as [[] s3]; (eapply effect_trans; [exact H12| |exact H3]); unfold run_as in *; by rewrite Ht.
Qed.

Lemma getcaps_effect a0 : effect i s (sys_getcaps i a0 s).2.
Proof. unfold sys_getcaps. destruct (negb _); [stay|]. putting. Qed.

Lemma drop_cap_effect a0 : effect i s (sys_drop_cap i a0 s).2.
Proof. unfold sys_drop_cap. own (drop_cap_self _ _ _ Hi a0). Qed.
Lemma fd_field_effect get a0 : effect i s (fd_field get i a0 s).2.
Proof. unfold fd_field. destruct (_ || _); stay. Qed.

Lemma channel_poll_effect a0 : effect i s (sys_channel_poll i a0 s).2.
Proof. unfold sys_channel_poll. destruct (negb _); stay. Qed.
End handlers.
#[local] Hint Resolve setpriority_effect getname_effect setname_effect getcwd_effect chdir_effect getenv_effect
  setenv_effect unsetenv_effect write_effect read_effect open_effect close_effect seek_effect stat_effect
  rename_effect process_enum_effect waitpid_effect mmap_effect munmap_effect brk_effect meminfo_effect
  getstring_effect runtime_info_effect channel_create_effect channel_close_effect channel_send_effect
  channel_recv_effect channel_poll_effect getcaps_effect drop_cap_effect fd_field_effect : effects.

Lemma call_effect n i a0 a1 a2 a3 s :
  is_self s i → c = 0 ∨ has_cap s i c = false → n ≠ NEXUS_SYS_EXEC → effect i s (call n i a0 a1 a2 a3 s).2.
Proof.
  intros Hi Hm Hn. destruct n; cbn [call]; try apply effect_refl; try done; auto with effects;
    apply path_op_effect; intros; first [by apply es_mkdir|by apply es_unlink|done].
Qed.

End effects.

Section dispatch.
Context {E : Type} {ME : MemEnv E} {FE : FileEnv E} {EF : ElfFiles E} {SY : SysEnv E}.
Implicit Types (s : sys E) (t : ptable) (e : E).

(** ** [EXEC] *)

(** Everything but the process in slot [j] keeps its record up to channel
    handles; [j] keeps capabilities and parent as long as it lives. *)
Definition only_child (j : nat) t t' : Prop :=
  (∀ k, k ≠ j → same_but_handles (proc t k) (proc t' k)) ∧
  (used t' j → used t j ∧ capabilities (proc t' j) = capabilities (proc t j) ∧
               parent_pid (proc t' j) = parent_pid (proc t j) ∧ pid (proc t' j) = pid (proc t j)) ∧
  g_next_pid t' = g_next_pid t.

Lemma only_child_refl j t : only_child j t t.
Proof. split; [|done]. intros. apply same_but_handles_refl. Qed.

Lemma only_child_trans j t1 t2 t3 : only_child j t1 t2 → only_child j t2 t3 → only_child j t1 t3.
Proof.
  intros (A1 & A2 & A3) (B1 & B2 & B3). split; [|split; [|congruence]].
  - intros k Hk. by eapply same_but_handles_trans; [apply A1|apply B1].
  - intros Hu. destruct (B2 Hu) as (Hu2 & C1 & P1 & I1). destruct (A2 Hu2) as (Hu1 & C2 & P2 & I2).
    split; [done|]. split_and!; congruence.
Qed.

Lemma page_op_child j t t' : page_op j t t' → only_child j t t'.
Proof.
  intros ([Ho Hg] & Hs & Hp & He & Hc & Hpa). split; [|split].
  - intros k Hk. rewrite (Ho k Hk). apply same_but_handles_refl.
  - intros [Hj Hu]. unfold used. rewrite Hs in Hu. done.
  - unfold globals in Hg. congruence.
Qed.

Lemma exit_child p code reason j t :
  process_get t p = Some j → only_child j t (process_exit_with_code p code reason t).2.
Proof.
  intros Hg. unfold process_exit_with_code. rewrite Hg. destruct (_ || _) eqn:Es; [apply only_child_refl|].
  apply orb_false_iff in Es as [Eu _]. apply bool_decide_eq_false in Eu.
  pose proof (terminate_only p t) as [Hc Hh]. set (t1 := nexus_ipc_process_terminate p t) in *.
  assert (g_next_pid t1 = g_next_pid t) as Hn by apply Hc. cbv zeta. set (f := λ r, r <| exit_code := code |> <| exit_reason := reason |> <| p_state := PROCESS_ZOMBIE |>).
  cbn [snd]. split; [|split; [|by destruct (negb _)]].
  - intros k Hk. destruct (Hh k) as [h Eh]. exists h. rewrite <- Eh.
    destruct (negb _); change (proc (set_proc j f t1) k = proc t1 k); by rewrite proc_set_ne.
  - intros _. apply process_get_Some in Hg as (Hu & _). split; [done|]. destruct (Hh j) as [h Eh].
    destruct (negb _); change (capabilities (proc (set_proc j f t1) j) = capabilities (proc t j) ∧
      parent_pid (proc (set_proc j f t1) j) = parent_pid (proc t j) ∧ pid (proc (set_proc j f t1) j) = pid (proc t j));
      rewrite proc_set_eq; unfold f; cbn; by rewrite Eh.
Qed.

Lemma exit_get p code reason j t :
  process_get t p = Some j → process_get (process_exit_with_code p code reason t).2 p = Some j.
Proof.
  intros Hg. unfold process_exit_with_code. rewrite Hg.
  destruct (_ || _) eqn:Es; [done|]. apply orb_false_iff in Es as [Eu _]. apply bool_decide_eq_false in Eu.
  pose proof (terminate_only p t) as [Hc _]. rewrite <- (same_core_get t _ p Hc) in *.
  destruct Hc as [Hc _]. destruct (Hc j) as [Hs _]. rewrite <- Hs in Eu. clear Hc Hs.
  set (t1 := nexus_ipc_process_terminate p t) in *. clearbody t1. cbv zeta. cbn [snd].
  set (f := λ r, r <| exit_code := code |> <| exit_reason := reason |> <| p_state := PROCESS_ZOMBIE |>).
  assert (process_get (set_proc j f t1) p = process_get t1 p) as Hx.
  { unfold process_get. change (g_proc_ready (set_proc j f t1)) with (g_proc_ready t1). destruct (_ || _); [done|].
    apply first_index_ext. intros k _. destruct (decide (k = j)) as [->|Hk]; [|by rewrite proc_set_ne].
    rewrite proc_set_eq. unfold f. cbn. by rewrite (bool_decide_false (p_state (proc t1 j) = _)). }
  rewrite <- Hx in Hg. by destruct (negb _).
Qed.

Lemma exit_done p code reason j t t' :
  process_get t p = Some j → process_exit_with_code p code reason t = (true, t') →
  p_state (proc t' j) = PROCESS_ZOMBIE ∧ exit_code (proc t' j) = code ∧ exit_reason (proc t' j) = reason.
Proof.
  intros Hg. unfold process_exit_with_code. rewrite Hg. destruct (_ || _); [done|]. cbv zeta.
  set (t1 := nexus_ipc_process_terminate p t). clearbody t1.
  set (f := λ r, r <| exit_code := code |> <| exit_reason := reason |> <| p_state := PROCESS_ZOMBIE |>).
  intros [= <-]. destruct (negb _);
    change (p_state (proc (set_proc j f t1) j) = PROCESS_ZOMBIE ∧ exit_code (proc (set_proc j f t1) j) = code ∧
      exit_reason (proc (set_proc j f t1) j) = reason); by rewrite proc_set_eq.
Qed.

Lemma reap_child p th j t e : process_get t p = Some j → only_child j t (process_reap p th t e).1.2.
Proof.
  intros Hg. unfold process_reap. destruct (p =? _); [apply only_child_refl|]. rewrite Hg. cbv zeta.
  destruct (_ || _); [apply only_child_refl|].
  destruct (process_unmap_user_memory p t e) as [[ok t1] e1] eqn:E1.
  apply process_unmap_user_memory_op in E1. rewrite Hg in E1. destruct E1 as (Hop & _ & _).
  set (t2 := set_proc j (λ r, r <| address_space_cr3 := 0 |>) t1).
  assert (page_op j t t2) as Hop2 by (eapply page_op_trans; [exact Hop|by apply page_op_set]). clearbody t2.
  assert (process_ipc_reset_handles p t2 = set_proc j (λ r, r <| ipc_handles ::= clear_handles |>) t2) as ->.
  { unfold process_ipc_reset_handles. by rewrite (page_op_get j t), Hg. }
  set (t3 := set_proc j (λ r, r <| ipc_handles ::= clear_handles |>) t2).
  assert (∀ k, k ≠ j → proc (set_proc j reaped t3) k = proc t k) as Hk.
  { intros k Hk. unfold t3. rewrite !proc_set_ne by done. apply Hop2. done. }
  assert (p_state (proc (set_proc j reaped t3) j) = PROCESS_UNUSED) as Hs by (by rewrite proc_set_eq).
  assert (g_next_pid t2 = g_next_pid t) as Hn by (destruct Hop2 as [[_ Hg2] _]; unfold globals in Hg2; congruence).
  cbn [fst snd]. split; [|split; [|by destruct (negb _)]].
  - intros k Hk'. exists (ipc_handles (proc t k)). destruct (negb _);
      (etrans; [exact (Hk k Hk')|by destruct (proc t k)]).
  - intros [_ Hu]. exfalso. apply Hu. destruct (negb _); exact Hs.
Qed.

Lemma elf_load_child p path t e file j :
  pwf t → process_get t p = Some j →
  pwf (nexus_elf_load_process p path t e file).1.1.2 ∧ page_op j t (nexus_elf_load_process p path t e file).1.1.2.
Proof.
  intros W Hg. unfold nexus_elf_load_process. rewrite Hg. destruct path as [path|]; [|done].
  destruct (_ || _); [done|]. destruct (ef_read_file path _ e) as [[bytes|] e1]; [|done].
  destruct (elf_check _ _) as [im|]; [|done]. set (buf := buf_fill bytes file).
  pose proof (elf_install_page_op p j buf im t e1 W Hg) as Ho.
  by destruct (elf_install p buf im t e1) as [[ok t'] e'].
Qed.

Lemma thread_create_child p j s0 :
  pwf (tab s0) → process_get (tab s0) p = Some j →
  pwf (tab (thread_create_user_process p s0).2) ∧ page_op j (tab s0) (tab (thread_create_user_process p s0).2).
Proof.
  intros W Hg. unfold thread_create_user_process. rewrite Hg. cbv zeta. destruct (_ || _); [done|].
  destruct (sy_thread_create p (senv s0)) as [[[tid top]|] e]; [|done]. cbn [snd].
  match goal with |- context [set_proc j ?f] =>
    change (pwf (set_proc j f (tab s0)) ∧ page_op j (tab s0) (set_proc j f (tab s0))) end.
  split; [by apply pwf_quiet|by apply page_op_set].
Qed.

Lemma usermode_prepare_child p j ent us ks s0 :
  pwf (tab s0) → process_get (tab s0) p = Some j →
  pwf (tab (usermode_prepare p ent us ks s0).2) ∧ page_op j (tab s0) (tab (usermode_prepare p ent us ks s0).2).
Proof.
  intros W Hg. unfold usermode_prepare. rewrite Hg. destruct (_ || _); [done|]. case_bool_decide; [done|]. cbn [snd].
  match goal with |- context [set_proc j ?f] =>
    change (pwf (set_proc j f (tab s0)) ∧ page_op j (tab s0) (set_proc j f (tab s0))) end.
  split; [by apply pwf_quiet|by apply page_op_set].
Qed.

Lemma drop_child_child p j s0 :
  pwf (tab s0) → process_get (tab s0) p = Some j →
  pwf (tab (drop_child p s0).2) ∧ only_child j (tab s0) (tab (drop_child p s0).2).
Proof.
  intros W Hg. unfold drop_child. pose proof (process_exit_wf p 0 0 (tab s0) W) as W1.
  pose proof (exit_child p 0 0 j (tab s0) Hg) as H1. unfold process_exit in *.
  destruct (process_exit_with_code p 0 0 (tab s0)) as [ok1 t1] eqn:E1. cbn [snd] in *.
  pose proof (process_reap_wf p 0 t1 (senv s0) W1) as W2. pose proof (reap_child p 0 j t1 (senv s0)) as H2.
  assert (process_get t1 p = Some j) as Hg1.
  { pose proof (exit_get p 0 0 j (tab s0) Hg) as Hx. by rewrite E1 in Hx. }
  specialize (H2 Hg1). destruct (process_reap p 0 t1 (senv s0)) as [[ok2 t2] e2]. cbn [fst snd] in *.
  split; [exact W2|]. by eapply only_child_trans.
Qed.

(** What [EXEC] does to the table: nothing but channel handles, or a new
    process with the caller's rights. *)
Definition exec_outcome (i : nat) t t' : Prop :=
  (∀ k, used t k → same_but_handles (proc t k) (proc t' k)) ∧
  (∀ k, ¬ used t k → used t' k → capabilities (proc t' k) = capabilities (proc t i) ∧
                                 parent_pid (proc t' k) = pid (proc t i) ∧ pid (proc t' k) = g_next_pid t) ∧
  g_next_pid t ≤ g_next_pid t'.

Lemma process_create_next parent t e :
  pwf t → g_next_pid t + 1 < 2 ^ 64 → g_next_pid t ≤ g_next_pid (process_create parent t e).1.2.
Proof.
  intros W Hn. unfold process_create. rewrite (pw_ready _ W). cbn [negb].
  destruct (first_index _ 0 PROCESS_MAX_COUNT) as [j|]; [|cbn; lia].
  pose proof (pw_next _ W) as Hnx. unfold PROCESS_INVALID_PID. rewrite (proj2 (Z.eqb_neq _ 0)) by lia.
  cbv zeta. destruct (me_create_address_space e) as [cr3 e1].
  destruct (cr3 =? 0); cbn [fst snd]; change (g_next_pid t ≤ u64 (g_next_pid t + 1)); rewrite u64_small by lia; lia.
Qed.

Lemma exec_outcome_child i j t t1 t' p :
  process_get t (pid (proc t i)) = Some i → created_process (pid (proc t i)) t p t1 →
  process_get t1 p = Some j → g_next_pid t ≤ g_next_pid t1 → only_child j t1 t' → exec_outcome i t t'.
Proof.
  intros Hi Hc Hj Hnext (Ho & Hu & Hnt). destruct (cp_get _ _ _ _ Hc) as (j' & Hj' & Hn & Hst & Hpar & Hcap & Hoth).
  pose proof (process_get_Some _ _ _ Hj) as (_ & Hpid & _). pose proof (cp_pid _ _ _ _ Hc) as Hp.
  rewrite Hj in Hj'. injection Hj' as <-. rewrite Hi in Hcap. split; [|split; [|by rewrite Hnt]].
  - intros k Hk. assert (k ≠ j) as Hkj by (intros ->; done). rewrite <- (Hoth k Hkj). by apply Ho.
  - intros k Hk Hk'. destruct (decide (k = j)) as [->|Hkj].
    + destruct (Hu Hk') as (_ & -> & -> & ->). split_and!; congruence.
    + exfalso. apply Hk. unfold used in *. destruct (Ho k Hkj) as [h Eh]. rewrite Eh, (Hoth k Hkj) in Hk'. exact Hk'.
Qed.

Lemma process_create_none parent t e t' e' :
  pwf t → g_next_pid t + 1 < 2 ^ 64 → process_create parent t e = (0, t', e') →
  pwf t' ∧ (∀ k, used t k → proc t' k = proc t k) ∧ ∀ k, used t' k → used t k.
Proof.
  intros W Hn Hc. destruct (process_create_spec _ _ _ _ _ _ W Hn Hc) as [W' [(_ & Hu & _)|[Hz _]]]; [|done].
  split; [done|]. split; [intros k Hk; by apply Hu|]. intros k Hk.
  revert Hc. unfold process_create. rewrite (pw_ready _ W). cbn [negb].
  destruct (first_index _ 0 PROCESS_MAX_COUNT) as [j|] eqn:Ef; [|by intros [= <- <-]].
  pose proof (pw_next _ W) as Hnx. unfold PROCESS_INVALID_PID. rewrite (proj2 (Z.eqb_neq _ 0)) by lia.
  cbv zeta. destruct (me_create_address_space e) as [cr3 e1].
  destruct (cr3 =? 0).
  - intros [= <- <-]. destruct Hk as [Hk Hs]. destruct (decide (k = j)) as [->|Hkj].
    + exfalso. apply Hs. by rewrite proc_set_eq.
    + rewrite !proc_set_ne in Hs by done. by split.
  - rewrite !proc_set_eq. intros Hz. apply (f_equal (λ x, x.1.1)) in Hz. cbn [fst] in Hz.
    change (g_next_pid t = 0) in Hz. lia.
Qed.

Lemma exec_effect i a0 s :
  pwf (tab s) → g_next_pid (tab s) + 1 < 2 ^ 64 → is_self s i →
  pwf (tab (sys_exec i a0 s).2) ∧ exec_outcome i (tab s) (tab (sys_exec i a0 s).2).
Proof.
  intros W Hn Hi. assert (exec_outcome i (tab s) (tab s)) as Hrefl.
  { split; [|done]. intros. apply same_but_handles_refl. }
  pose proof (process_create_next (pid_of s i) (tab s) (senv s) W Hn) as Hnext. unfold sys_exec. destruct (negb _); [done|]. destruct (copy_user_string s i a0 _) as [path|]; [|done].
  destruct (process_create (pid_of s i) (tab s) (senv s)) as [[child t1] e1] eqn:Ec. cbv zeta. cbn [fst snd] in Hnext.
  destruct (Z.eqb_spec child 0) as [->|Hz].
  { destruct (process_create_none _ _ _ _ _ W Hn Ec) as [W1 Hu]. split; [done|]. split; [|split; [|exact Hnext]]; cbn [fst snd].
    - intros k Hk. change (same_but_handles (proc (tab s) k) (proc t1 k)).
      rewrite (proj1 Hu k Hk). apply same_but_handles_refl.
    - intros k Hk Hk'. by destruct Hk; apply Hu. }
  destruct (process_create_spec _ _ _ _ _ _ W Hn Ec) as [W1 [(Hz' & _)|[_ Hc]]]; [done|].
  destruct (cp_get _ _ _ _ Hc) as (j & Hj & _).
  assert (∀ t', pwf t' ∧ only_child j t1 t' → pwf t' ∧ exec_outcome i (tab s) t') as Hfin.
  { intros t' [W' Ho]. split; [done|]. by eapply exec_outcome_child. }
  pose proof (elf_load_child child (Some path) t1 e1 (elf_file s) j W1 Hj) as [W2 Hop2].
  change (tab (s <| tab := t1 |> <| senv := e1 |>)) with t1. change (senv (s <| tab := t1 |> <| senv := e1 |>)) with e1.
  change (elf_file (s <| tab := t1 |> <| senv := e1 |>)) with (elf_file s).
  destruct (nexus_elf_load_process child (Some path) t1 e1 (elf_file s)) as [[[ok t2] e2] file2]. cbn [fst snd] in W2, Hop2.
  assert (process_get t2 child = Some j) as Hj2 by (by rewrite (page_op_get j t1)).
  apply page_op_child in Hop2. set (s2 := _ <| elf_file := file2 |>).
  assert (∀ t', pwf t' ∧ only_child j t2 t' → pwf t' ∧ exec_outcome i (tab s) t') as Hfin2.
  { intros t' [W' Ho]. apply Hfin. split; [done|]. by eapply only_child_trans. }
  destruct (negb ok); [by apply Hfin2, (drop_child_child child j s2)|].
  pose proof (thread_create_child child j s2 W2 Hj2) as [W3 Hop3].
  destruct (thread_create_user_process child s2) as [tid s3]. cbn [snd] in W3, Hop3.
  assert (process_get (tab s3) child = Some j) as Hj3 by (by rewrite (page_op_get j (tab s2))).
  apply page_op_child in Hop3.
  assert (∀ t', pwf t' ∧ only_child j (tab s3) t' → pwf t' ∧ exec_outcome i (tab s) t') as Hfin3.
  { intros t' [W' Ho]. apply Hfin2. split; [done|]. by eapply only_child_trans. }
  destruct (tid =? 0); [by apply Hfin3, drop_child_child|]. rewrite Hj3.
  pose proof (usermode_prepare_child child j (user_entry (proc (tab s3) j)) (user_stack_base (proc (tab s3) j))
    (kernel_stack (proc (tab s3) j)) s3 W3 Hj3) as [W4 Hop4].
  destruct (usermode_prepare child _ _ _ s3) as [ok4 s4]. cbn [snd] in W4, Hop4.
  assert (process_get (tab s4) child = Some j) as Hj4 by (by rewrite (page_op_get j (tab s3))).
  apply page_op_child in Hop4. destruct ok4; cbn [negb].
  - apply Hfin3. by split.
  - pose proof (process_exit_wf child 0 0 (tab s4) W4) as W5. pose proof (exit_child child 0 0 j (tab s4) Hj4) as H5.
    unfold process_exit in *. destruct (process_exit_with_code child 0 0 (tab s4)) as [ok5 t5].
    apply Hfin3. split; [exact W5|]. by eapply only_child_trans.
Qed.

(** ** The dispatcher *)

Lemma caller_self s i : caller s = Some i → is_self s i ∧ used (tab s) i ∧ p_state (run_as s i) = PROCESS_RUNNING.
Proof.
  unfold caller, process_current, is_self, pid_of, run_as. destruct (process_get (tab s) (g_current_pid (tab s))) as [j|] eqn:Hg; [|done].
  destruct (_ || _) eqn:Ec; [done|]. intros [= <-]. apply orb_false_iff in Ec as [Ec _]. apply orb_false_iff in Ec as [Ec _].
  apply negb_false_iff, bool_decide_eq_true in Ec.
  pose proof (process_get_Some _ _ _ Hg) as (Hu & Hp & _). by rewrite Hp.
Qed.

(** A call leaves every other process alone, up to its channel handles. *)
Lemma dispatch_others number a0 a1 a2 a3 s k :
  pwf (tab s) → g_next_pid (tab s) + 1 < 2 ^ 64 → used (tab s) k → caller s ≠ Some k →
  same_but_handles (run_as s k) (run_as (syscall_dispatch number a0 a1 a2 a3 s).2 k).
Proof.
  intros W Hn Hk Hne. unfold syscall_dispatch. destruct (caller s) as [i|] eqn:Hc; [|apply same_but_handles_refl].
  destruct (negb (g_ready s)); [apply same_but_handles_refl|].
  destruct (syscall_of number) as [n|]; [|apply same_but_handles_refl]. destruct (caller_self s i Hc) as (Hi & _).
  destruct (decide (n = NEXUS_SYS_EXEC)) as [->|Hx].
  - cbn [call]. destruct (exec_effect i a0 s W Hn Hi) as [_ (H1 & _)]. by apply H1.
  - apply (ef_others 0 _ _ _ (call_effect 0 n i a0 a1 a2 a3 s Hi (or_introl eq_refl) Hx)). congruence.
Qed.

(** What a call does to the process of slot [k]: it is an old one that gained
    nothing, or a new one with the rights of the caller. *)
Definition kept_or_new s s' (k : nat) : Prop :=
  (used (tab s) k ∧ pid (run_as s' k) = pid (run_as s k) ∧ parent_pid (run_as s' k) = parent_pid (run_as s k) ∧
   p_state (run_as s' k) = p_state (run_as s k) ∧
   submask (capabilities (run_as s' k)) (capabilities (run_as s k)) ∧
   (caller s ≠ Some k → same_but_handles (run_as s k) (run_as s' k)))
  ∨ (¬ used (tab s) k ∧ ∃ i, caller s = Some i ∧ capabilities (run_as s' k) = capabilities (run_as s i) ∧
                             parent_pid (run_as s' k) = pid (run_as s i) ∧ pid (run_as s' k) = g_next_pid (tab s)).

Lemma kept_same s s' k : same_but_handles (run_as s k) (run_as s' k) → used (tab s') k → kept_or_new s s' k.
Proof.
  unfold run_as. intros [h Eh] Hk. left. unfold used, run_as in *. rewrite Eh in *.
  split_and!; try done; try apply Hk. { apply submask_refl. } by exists h.
Qed.

Lemma dispatch_kept number a0 a1 a2 a3 s :
  pwf (tab s) → g_next_pid (tab s) + 1 < 2 ^ 64 →
  let s' := (syscall_dispatch number a0 a1 a2 a3 s).2 in
  pwf (tab s') ∧ g_next_pid (tab s) ≤ g_next_pid (tab s') ∧ ∀ k, used (tab s') k → kept_or_new s s' k.
Proof.
  intros W Hn. assert (∀ k, used (tab s) k → kept_or_new s s k) as Hrefl.
  { intros k Hk. apply kept_same; [apply same_but_handles_refl|done]. }
  unfold syscall_dispatch. destruct (caller s) as [i|] eqn:Hc; [|done].
  destruct (negb (g_ready s)); [done|]. destruct (syscall_of number) as [n|]; [|done].
  destruct (caller_self s i Hc) as (Hi & Hu & _). cbv zeta.
  destruct (decide (n = NEXUS_SYS_EXEC)) as [->|Hne].
  - cbn [call]. destruct (exec_effect i a0 s W Hn Hi) as [W' (H1 & H2 & H3)].
    split; [done|]. split; [done|]. intros k Hk. destruct (decide (used (tab s) k)) as [Hk0|Hk0].
    + apply kept_same; [by apply H1|done].
    + right. split; [done|]. exists i. split; [done|]. by apply H2.
  - destruct (call_effect 0 n i a0 a1 a2 a3 s Hi (or_introl eq_refl) Hne) as [E1 E2 E3 E4 E5 _ _ _]. split; [by apply E5|].
    split; [destruct E1 as (_ & -> & _); lia|]. intros k Hk.
    destruct (decide (k = i)) as [->|Hk']; [|apply kept_same; [by apply E2|done]].
    left. destruct (proj1 E1 i) as [Es Ep]. unfold run_as. by split_and!.
Qed.
End dispatch.
End SyscallSpec.
