(* ===== verification/SyscallMain.v ===== *)
(** * System calls: theorems

    Isolation of the caller, capabilities along histories, the interrupt gate,
    exit and wait, and defects of single calls; with a kernel state in which
    they run. *)

From Stdlib Require Import Lia ZArith Bool Btauto.
From stdpp Require Import base list gmap numbers functions strings.
From S2P Require Import Prelude ProcTable Ipc Process ProcessSpec ProcMem Disk Elf Syscall SyscallSpec.

Local Open Scope Z_scope.

Module SyscallMain.
Import Ipc Process ProcessSpec Elf Syscall SyscallSpec.
#[local] Opaque zero_page.

Section main.
Context {E : Type} {ME : MemEnv E} {FE : FileEnv E} {EF : ElfFiles E} {SY : SysEnv E}.
Implicit Types (s : sys E) (t : ptable) (e : E).

(** C9: A system call, whatever its number and arguments, keeps the process
    table well formed and gives nobody rights: every process that exists
    afterwards either existed before with the same id, parent and state and no
    more capabilities than it had - and if it is not the caller, its record is
    unchanged up to channel handles - or it was created by the call, as a child
    of the caller, with a fresh id and the caller's capabilities. *)
Theorem syscall_no_escalation number a0 a1 a2 a3 s r s' :
  pwf (tab s) → g_next_pid (tab s) + 1 < 2 ^ 64 → syscall_dispatch number a0 a1 a2 a3 s = (r, s') →
  pwf (tab s') ∧ ∀ k, used (tab s') k → kept_or_new s s' k.
Proof.
  intros W Hn Hd. pose proof (dispatch_kept number a0 a1 a2 a3 s W Hn) as Hk. rewrite Hd in Hk.
  by destruct Hk as (? & _ & ?).
Qed.

(** C10: Memory isolation of system calls: whatever the number and the
    arguments, a call other than [EXEC] changes the environment only by steps
    that store bytes on pages the caller may write, inside one page and at the
    address its own page tables give, by page operations in its own address
    space, and by file and console operations. *)
Theorem syscall_memory_confined number a0 a1 a2 a3 s r s' i :
  caller s = Some i → syscall_of number ≠ Some NEXUS_SYS_EXEC →
  syscall_dispatch number a0 a1 a2 a3 s = (r, s') → rtc (env_step (run_as s i)) (senv s) (senv s').
Proof.
  intros Hc Hn. unfold syscall_dispatch. rewrite Hc. destruct (negb _); [intros [= <- <-]; apply rtc_refl|].
  destruct (syscall_of number) as [n|]; [|intros [= <- <-]; apply rtc_refl]. intros Hcall.
  pose proof (call_effect 0 n i a0 a1 a2 a3 s (proj1 (caller_self s i Hc)) (or_introl eq_refl) ltac:(congruence)) as He.
  rewrite Hcall in He. apply (ef_env _ _ _ _ He).
Qed.

(** ** Capabilities along histories *)

(** Running user programs: system calls of whichever process is current,
    switches between processes, exits and, of the processes [reapable] allows,
    reaping. *)
Inductive user_step (reapable : Z → Prop) : sys E → sys E → Prop :=
| us_call s number a0 a1 a2 a3 :
    g_next_pid (tab s) + 1 < 2 ^ 64 → user_step reapable s (syscall_dispatch number a0 a1 a2 a3 s).2
| us_switch s p : user_step reapable s (s <| tab := (process_set_current p (tab s)).2 |>)
| us_clear s : user_step reapable s (s <| tab := process_clear_current (tab s) |>)
| us_exit s p code reason : user_step reapable s (s <| tab := (process_exit_with_code p code reason (tab s)).2 |>)
| us_reap s p th e e' :
    reapable p → user_step reapable s (s <| tab := (process_reap p th (tab s) e).1.2 |> <| senv := e' |>)
| us_tick s p : user_step reapable s (s <| tab := process_account_cpu_tick p (tab s) |>).

(** The process with the id [p] lacks the capability [c]. *)
Definition lacks (p c : Z) t : Prop :=
  pwf t ∧ p < g_next_pid t ∧ ∀ k, used t k → pid (proc t k) = p → Z.land (capabilities (proc t k)) c = 0.

(** A change of the table in which used processes come from used ones with
    the same id and capabilities. *)
Lemma lacks_frame p c t t' :
  lacks p c t → pwf t' → g_next_pid t ≤ g_next_pid t' →
  (∀ k, used t' k → used t k ∧ pid (proc t' k) = pid (proc t k) ∧ capabilities (proc t' k) = capabilities (proc t k)) →
  lacks p c t'.
Proof.
  intros (_ & Hp & Hl) W' Hn Hu. split; [done|]. split; [lia|]. intros k Hk. destruct (Hu k Hk) as (Hk' & -> & ->).
  by apply Hl.
Qed.

Lemma set_state_frame i st t k :
  st ≠ PROCESS_UNUSED → used t i → used (set_proc i (λ r, r <| p_state := st |>) t) k →
  used t k ∧ pid (proc (set_proc i (λ r, r <| p_state := st |>) t) k) = pid (proc t k) ∧
  capabilities (proc (set_proc i (λ r, r <| p_state := st |>) t) k) = capabilities (proc t k).
Proof.
  intros Hst Hi Hk. apply used_set_state in Hk; [|done|done]. split; [done|].
  destruct (decide (i = k)) as [<-|]; [by rewrite proc_set_eq|by rewrite proc_set_ne].
Qed.

Lemma set_current_frame p t k :
  used (process_set_current p t).2 k →
  used t k ∧ pid (proc (process_set_current p t).2 k) = pid (proc t k) ∧
  capabilities (proc (process_set_current p t).2 k) = capabilities (proc t k).
Proof.
  unfold process_set_current. destruct (process_get t p) as [nxt|] eqn:Hg; [|done]. destruct (_ && _); [done|].
  pose proof (process_get_Some _ _ _ Hg) as (Hn & _). cbv zeta. cbn [snd].
  match goal with |- context [set_proc nxt _ ?x] => set (t1 := x) end.
  assert (∀ k, used t1 k → used t k ∧ pid (proc t1 k) = pid (proc t k) ∧
    capabilities (proc t1 k) = capabilities (proc t k)) as H1.
  { intros j. unfold t1. destruct (process_get t (g_current_pid t)) as [old|] eqn:Ho; [|done].
    destruct (_ && _); [|done]. apply set_state_frame; [done|]. by apply process_get_Some in Ho as (? & _). }
  assert (used t1 nxt) as Hn1.
  { unfold t1. destruct (process_get t (g_current_pid t)) as [old|] eqn:Ho; [|done]. destruct (_ && _); [|done].
    apply used_set_state; [done|by apply process_get_Some in Ho as (? & _)|done]. }
  intros Hk. change (used (set_proc nxt (λ r, r <| p_state := PROCESS_RUNNING |>) t1) k) in Hk.
  destruct (set_state_frame nxt PROCESS_RUNNING t1 k ltac:(done) Hn1 Hk) as (Hk1 & E1 & E2).
  destruct (H1 k Hk1) as (Hk0 & F1 & F2). split; [done|].
  rewrite F1 in E1. rewrite F2 in E2. by split.
Qed.

Lemma clear_current_frame t k :
  used (process_clear_current t) k →
  used t k ∧ pid (proc (process_clear_current t) k) = pid (proc t k) ∧
  capabilities (proc (process_clear_current t) k) = capabilities (proc t k).
Proof.
  unfold process_clear_current. destruct (process_get t (g_current_pid t)) as [old|] eqn:Ho; [|done].
  case_bool_decide; [|done]. apply process_get_Some in Ho as (Hu & _). by apply (set_state_frame old PROCESS_READY).
Qed.

Lemma only_child_frame j t t' k :
  only_child j t t' → used t' k →
  used t k ∧ pid (proc t' k) = pid (proc t k) ∧ capabilities (proc t' k) = capabilities (proc t k).
Proof.
  intros (Ho & Hu & _) Hk. destruct (decide (k = j)) as [->|Hkj].
  - by destruct (Hu Hk) as (? & ? & ? & ?).
  - destruct (Ho k Hkj) as [h Eh]. unfold used in *. rewrite Eh in *. done.
Qed.

Lemma user_step_lacks R p c s s' : user_step R s s' → lacks p c (tab s) → lacks p c (tab s').
Proof.
  intros Hst Hl. pose proof Hl as (W & Hp & Hn). destruct Hst as [s number a0 a1 a2 a3 Hb|s q|s|s q code reason|s q th e e' _|s q].
  - destruct (dispatch_kept number a0 a1 a2 a3 s W Hb) as (W' & Hnx & Hk). split; [done|]. split; [lia|].
    intros k Hu Hpid. destruct (Hk k Hu) as [(Hu0 & Ep & _ & _ & Hs & _)|(_ & i & _ & _ & _ & Ep)]; unfold run_as in *.
    + rewrite <- Hs, <- Z.land_assoc, Hn, Z.land_0_r; [done|done|]. by rewrite <- Ep.
    + lia.
  - apply (lacks_frame p c (tab s)); [done|by apply process_set_current_wf| |apply set_current_frame].
    unfold process_set_current. cbn. repeat (case_match; try done).
  - apply (lacks_frame p c (tab s)); [done|by apply process_clear_current_wf| |apply clear_current_frame].
    unfold process_clear_current. cbn. repeat (case_match; try done).
  - destruct (process_get (tab s) q) as [j|] eqn:Hg.
    + pose proof (exit_child q code reason j (tab s) Hg) as Ho.
      apply (lacks_frame p c (tab s)); [done|by apply process_exit_wf| |by intros; eapply only_child_frame].
      destruct Ho as (_ & _ & Ho). apply Z.eq_le_incl. symmetry. exact Ho.
    + unfold process_exit_with_code. rewrite Hg. exact Hl.
  - destruct (process_get (tab s) q) as [j|] eqn:Hg.
    + pose proof (reap_child q th j (tab s) e Hg) as Ho.
      apply (lacks_frame p c (tab s)); [done|by apply process_reap_wf| |by intros; eapply only_child_frame].
      destruct Ho as (_ & _ & Ho). apply Z.eq_le_incl. symmetry. exact Ho.
    + unfold process_reap. rewrite Hg. by destruct (_ =? _).
  - unfold process_account_cpu_tick. destruct (process_get (tab s) q) as [j|]; [|exact Hl].
    case_bool_decide; [|exact Hl].
    apply (lacks_frame p c (tab s)); [done|by apply pwf_quiet|done|].
    intros k Hk. change (used (set_proc j (λ r, r <| cpu_ticks := u64 (cpu_ticks r + 1) |>) (tab s)) k) in Hk.
    unfold used in *. change (tab (s <| tab := ?t |>)) with t.
    destruct (decide (j = k)) as [<-|]; [rewrite proc_set_eq in *|rewrite proc_set_ne in * by done]; done.
Qed.

(** Having a capability of one process, as a bit. *)
Lemma has_cap_bit c t j :
  0 ≤ c → nexus_capability_valid c = true → process_get t (pid (proc t j)) = Some j →
  process_has_capability (pid (proc t j)) c t = false ↔ Z.land (capabilities (proc t j)) c = 0.
Proof.
  intros Hc0 Hv Hj. unfold process_has_capability. rewrite Hj, Hv. cbn [andb].
  destruct (proj1 (capability_valid_bit c Hc0) Hv) as (b & Hb & ->). rewrite land_pow2 by lia.
  rewrite <- (has_bits_testbit _ b) by lia. unfold has_bits. rewrite negb_false_iff. apply Z.eqb_eq.
Qed.

Lemma lost_for_good s s' i p c k :
  pwf (tab s) → process_get (tab s) p = Some i → 0 ≤ c → nexus_capability_valid c = true → has_cap s i c = false →
  rtc (user_step (λ _, True)) s s' → caller s' = Some k → pid_of s' k = p → has_cap s' k c = false ∧ pwf (tab s').
Proof.
  intros W Hg Hc0 Hv Hc Hr Hk Hp. pose proof (process_get_Some _ _ _ Hg) as (Hu & Hpid & _).
  assert (lacks p c (tab s)) as Hl.
  { split; [done|]. rewrite <- Hpid in *. split; [by apply (pw_range _ W)|]. intros j Hj Hje.
    assert (j = i) as -> by (by apply (pw_pids _ W)). by apply has_cap_bit. }
  assert (lacks p c (tab s')) as (W' & _ & Hl').
  { clear -Hr Hl. revert Hl. induction Hr as [|s1 s2 s3 H1 H2 IH]; [done|]. intros Hl. apply IH. by eapply user_step_lacks. }
  destruct (caller_self s' k Hk) as (Hi & Hu' & _). split; [|done]. apply has_cap_bit; [done|done|exact Hi|]. by apply Hl'.
Qed.

(** What a call of the process in slot [i] must leave alone when the process
    lacks the capability [c]: stated of the resources the capabilities are
    named after, whatever the call is. *)
Record out_of_reach (c : Z) (i : nat) (number : Z) s s' : Prop := {
  (** [MEMORY], [PROCESS_CONTROL] and [FILESYSTEM_READ]: the address space and
      the heap, the priorities, the set of open files - of every process. *)
  or_records k : used (tab s) k → spared c (run_as s k) (run_as s' k);
  (** [PROCESS_SPAWN]: no new process. *)
  or_spawn : c = NEXUS_CAP_PROCESS_SPAWN → ∀ k, used (tab s') k → used (tab s) k ∧ pid_of s' k = pid_of s k;
  (** [IPC]: all channels and handles; and what the environment still does:
      no page operation without [MEMORY], no directory operation without
      [FILESYSTEM_WRITE]. *)
  or_ipc : syscall_of number ≠ Some NEXUS_SYS_EXEC → c = NEXUS_CAP_IPC → same_channels (tab s) (tab s');
  or_env : syscall_of number ≠ Some NEXUS_SYS_EXEC → rtc (step_without c (run_as s i)) (senv s) (senv s');
}.

(** C19: A capability that a process has not protects its resource for good:
    along every history of system calls, process switches, exits and reaping in
    which the 64-bit process ids do not wrap, no later call of that process,
    whatever its number and arguments, touches the resource: without [MEMORY] address spaces and heaps stay as they are,
    without [PROCESS_CONTROL] all priorities, without [FILESYSTEM_READ] no
    file becomes open, without [PROCESS_SPAWN] no process appears, and, for
    calls other than [EXEC], without [IPC] all channels and handles stay,
    without [FILESYSTEM_WRITE] no directory, removal or renaming operation is
    done, without [MEMORY] no page operation.  (Files already open may be
    written without [FILESYSTEM_WRITE], and files created: see
    [open_creates_without_write_capability].) *)
Theorem missing_capability_useless s s' i p c number a0 a1 a2 a3 :
  pwf (tab s) → process_get (tab s) p = Some i → 0 ≤ c → nexus_capability_valid c = true → has_cap s i c = false →
  rtc (user_step (λ _, True)) s s' →
  ∀ k, caller s' = Some k → pid_of s' k = p → g_next_pid (tab s') + 1 < 2 ^ 64 →
  out_of_reach c k number s' (syscall_dispatch number a0 a1 a2 a3 s').2.
Proof.
  intros W Hg Hc0 Hv Hc Hr k Hk Hp Hn. destruct (lost_for_good s s' i p c k W Hg Hc0 Hv Hc Hr Hk Hp) as [Hno W'].
  clear -W' Hk Hno Hn. destruct (caller_self s' k Hk) as (Hi & _). unfold syscall_dispatch. rewrite Hk.
  assert (∀ r : Z, out_of_reach c k number s' (r, s').2) as Hstay.
  { intros r. split; [intros; apply spared_refl|done|done|]. intros _. apply rtc_refl. }
  destruct (negb _); [apply Hstay|]. destruct (syscall_of number) as [n|] eqn:Hsn; [|apply Hstay].
  destruct (decide (n = NEXUS_SYS_EXEC)) as [->|Hx].
  - destruct (decide (c = NEXUS_CAP_PROCESS_SPAWN)) as [->|Hsp].
    { cbn [call]. unfold sys_exec. rewrite Hno. apply Hstay. }
    cbn [call]. destruct (exec_effect k a0 s' W' Hn Hi) as [_ (H1 & _)]. split; [|done|congruence|congruence].
    intros j Hj. by apply spared_handles, H1.
  - destruct (call_effect c n k a0 a1 a2 a3 s' Hi (or_intror Hno) Hx) as [E1 E2 _ _ _ E6 E7 E8]. split; [|  |by auto|by auto].
    + intros j _. destruct (decide (j = k)) as [->|Hj]; [exact E7|]. by apply spared_handles, E2.
    + intros _ j [Hj Hu]. unfold used, pid_of, run_as. destruct (proj1 E1 j) as [Es Ep]. rewrite Es in Hu. by split.
Qed.

(** [OPEN] asks for [FILESYSTEM_READ] only: with its flag 4 it creates a file
    whether or not the process has [FILESYSTEM_WRITE]. *)
Theorem open_creates_without_write_capability i a0 a1 s path j :
  is_self s i → p_state (run_as s i) ≠ PROCESS_ZOMBIE → has_cap s i NEXUS_CAP_FILESYSTEM_READ = true →
  copy_user_string s i a0 PROCESS_CWD_LEN = Some path → path ≠ [] → fe_file_size_path (senv s) path = None →
  has_bits (u32 a1) 4 = true → has_bits (u32 a1) 8 = false →
  first_index (λ k, bool_decide (fd_type (fd_of (tab s) i (Z.of_nat k)) = PROCESS_FD_UNUSED)) 0
    (Z.to_nat PROCESS_MAX_FDS) = Some j →
  senv (sys_open i a0 a1 s).2 = (fe_write_path path [0] 0 0 (senv s)).2.
Proof.
  unfold is_self, run_as. intros Hi Hz Hcap Hp Hne Hs H4 H8 Hj. unfold sys_open. rewrite Hcap, Hp. cbn [negb].
  unfold process_fd_open. rewrite Hi, !bool_decide_false by done. cbn [orb]. rewrite Hj. unfold open_file.
  rewrite Hs, H4, H8. cbn [negb]. by destruct (fe_write_path path [0] 0 0 (senv s)) as [[] e].
Qed.

(** ** The interrupt gate *)

Lemma has_bits_lor x a b : has_bits x (Z.lor a b) = has_bits x a || has_bits x b.
Proof.
  unfold has_bits. rewrite Z.land_lor_distr_r. destruct (Z.eqb_spec (Z.land x a) 0) as [->|Ha].
  - by rewrite Z.lor_0_l.
  - cbn [negb orb]. apply negb_true_iff, Z.eqb_neq. by rewrite Z.lor_eq_0_iff; intros [? _].
Qed.

Lemma selector_bits x sel :
  0 ≤ x < 2 ^ 64 → sel = 0x20 ∨ sel = 0x18 →
  (Z.land x 3 =? 3) && (Z.land x (not64 7) =? sel) = bool_decide (x = sel + 3 ∨ x = sel + 7).
Proof.
  intros Hx Hs. change 3 with (2 ^ 2 - 1) at 1. change 7 with (2 ^ 3 - 1) at 1.
  rewrite land_low_mask, land_not64_mask by lia. change (2 ^ 2) with 4. change (2 ^ 3) with 8.
  case_bool_decide as Hd; [apply andb_true_iff; rewrite !Z.eqb_eq|apply andb_false_iff; rewrite !Z.eqb_neq];
    Z.to_euclidean_division_equations; lia.
Qed.

Definition user_flags (fl : Z) : Prop :=
  Z.testbit fl 1 = true ∧ Z.testbit fl 9 = true ∧ Z.testbit fl 12 = false ∧ Z.testbit fl 13 = false ∧
  Z.testbit fl 17 = false.

(** The permissions of the user page that holds the address [v]. *)
Definition page_flags_at (r : nexus_process_t) (v : Z) : option Z :=
  (λ k, user_page_flags r (Z.of_nat k)) <$> user_page_index r (page_base v).

(** A frame of user mode: selectors and flags of ring 3 and addresses of user
    space. *)
Definition user_frame (f : syscall_interrupt_frame_t) : Prop :=
  (f_cs f = 0x23 ∨ f_cs f = 0x27) ∧ (f_ss f = 0x1B ∨ f_ss f = 0x1F) ∧ user_flags (f_rflags f) ∧
  PROCESS_USER_BASE ≤ f_rip f < PROCESS_USER_LIMIT ∧ PROCESS_USER_BASE ≤ f_user_rsp f ≤ STACK_TOP.

(** When the gate opens for the process in slot [i]. *)
Definition gate_open (f : syscall_interrupt_frame_t) s (i : nat) : Prop :=
  g_ready s = true ∧ caller s = Some i ∧ user_frame f ∧
  (∃ fl, page_flags_at (run_as s i) (f_rip f) = Some fl ∧ has_bits fl VMM_PAGE_NX = false) ∧
  (∃ fl, page_flags_at (run_as s i) (f_user_rsp f) = Some fl ∧
         has_bits fl VMM_PAGE_WRITABLE = true ∧ has_bits fl VMM_PAGE_NX = false).

Lemma frame_valid_iff f :
  0 ≤ f_cs f < 2 ^ 64 → 0 ≤ f_ss f < 2 ^ 64 → syscall_frame_valid f = true ↔ user_frame f.
Proof.
  intros Hcs Hss. unfold user_frame.
  pose proof (selector_bits (f_cs f) 0x20 Hcs ltac:(auto)) as Ec.
  pose proof (selector_bits (f_ss f) 0x18 Hss ltac:(auto)) as Es.
  assert (syscall_frame_valid f =
    bool_decide (f_cs f = 0x23 ∨ f_cs f = 0x27) && bool_decide (f_ss f = 0x1B ∨ f_ss f = 0x1F) &&
    (Z.testbit (f_rflags f) 1 && Z.testbit (f_rflags f) 9 && negb (Z.testbit (f_rflags f) 12) &&
     negb (Z.testbit (f_rflags f) 13) && negb (Z.testbit (f_rflags f) 17)) &&
    ((PROCESS_USER_BASE <=? f_rip f) && (f_rip f <? PROCESS_USER_LIMIT) &&
     (PROCESS_USER_BASE <=? f_user_rsp f) && (f_user_rsp f <=? STACK_TOP))) as ->.
  { change (0x23) with (0x20 + 3). change (0x27) with (0x20 + 7). change (0x1B) with (0x18 + 3). change (0x1F) with (0x18 + 7).
    rewrite <- Ec, <- Es. unfold syscall_frame_valid.
    change (Z.land 0x23 (not64 7)) with 0x20. change (Z.land 0x1B (not64 7)) with 0x18.
    change (Z.shiftl 3 12) with (Z.lor (2 ^ 12) (2 ^ 13)). change (Z.shiftl 1 17) with (2 ^ 17).
    change (Z.shiftl 1 9) with (2 ^ 9). change (has_bits (f_rflags f) 2) with (has_bits (f_rflags f) (2 ^ 1)).
    rewrite has_bits_lor, !has_bits_testbit by lia.
    rewrite (Z.leb_antisym (f_rip f)), (Z.leb_antisym (f_user_rsp f)), Z.geb_leb, Z.gtb_ltb, (Z.leb_antisym STACK_TOP).
    rewrite (Z.leb_antisym (f_rip f) PROCESS_USER_LIMIT).
    btauto. }
  rewrite !andb_true_iff, !bool_decide_eq_true, !negb_true_iff, !Z.leb_le, Z.ltb_lt. unfold user_flags. tauto.
Qed.

(** The check of a single byte of user space of the running process. *)
Lemma valid_byte s i v req :
  caller s = Some i → PROCESS_USER_BASE ≤ v < PROCESS_USER_LIMIT →
  valid s i v 1 req = page_allowed (run_as s i) req v.
Proof.
  intros Hc Hv. destruct (caller_self s i Hc) as (Hi & _ & Hs). unfold valid, process_user_range_valid, is_self in *.
  rewrite Hi. unfold run_as, PROCESS_USER_BASE, PROCESS_USER_LIMIT in *. rewrite Hs. cbn [orb bool_decide].
  rewrite bool_decide_false by done. cbn [orb]. unfold bad_user_range, PROCESS_USER_BASE, PROCESS_USER_LIMIT.
  cbn [Z.eqb orb]. rewrite (proj2 (Z.ltb_ge v _)) by lia. rewrite u64_small by lia.
  destruct (Z.gtb_spec 1 (0x7FFFFFFFF000 - v)); [lia|]. cbn [orb].
  change (chunk_fuel 1) with 2%nat. cbn [chunk_loop Z.ltb Z.compare]. rewrite Z.add_0_r, u64_small by lia. cbv zeta.
  destruct (page_allowed (proc (tab s) i) req v); [|done].
  assert (∀ c, 1 ≤ c → (if c >? 1 - 0 then 1 - 0 else c) = 1) as ->; [|done|].
  - intros c Hc1. destruct (Z.gtb_spec c (1 - 0)); lia.
  - rewrite page_mask_mod. unfold PROC_PAGE_SIZE. pose proof (Z.mod_pos_bound v 4096). lia.
Qed.

Lemma page_allowed_flags r req v :
  0 ≤ v < 2 ^ 64 → has_bits req VMM_PAGE_NX = false → page_allowed r req v = true ↔
  ∃ fl, page_flags_at r v = Some fl ∧ (has_bits req VMM_PAGE_WRITABLE = true → has_bits fl VMM_PAGE_WRITABLE = true) ∧
        has_bits fl VMM_PAGE_NX = false.
Proof.
  intros Hv Hr. rewrite page_allowed_page by done. unfold page_flags_at, page_allowed.
  assert (Z.land (page_base v) (not64 (PROC_PAGE_SIZE - 1)) = page_base v) as ->.
  { unfold page_base, PROC_PAGE_SIZE. change (4096 - 1) with (2 ^ 12 - 1).
    rewrite land_not64_mask by (Z.to_euclidean_division_equations; lia). change (2 ^ 12) with 4096.
    Z.to_euclidean_division_equations. lia. }
  rewrite Hr. destruct (user_page_index r (page_base v)) as [k|]; cbn; [|split; [done|intros (? & ? & _); done]].
  set (fl := user_page_flags r (Z.of_nat k)). split.
  - intros Ha. exists fl. split; [done|]. destruct (has_bits req VMM_PAGE_WRITABLE), (has_bits fl VMM_PAGE_WRITABLE),
      (has_bits fl VMM_PAGE_NX); done.
  - intros (fl' & [= <-] & Hw & ->). destruct (has_bits req VMM_PAGE_WRITABLE); [by rewrite Hw|done].
Qed.

(** The checks of the handler, in one. *)
Lemma gate_open_iff f s i :
  0 ≤ f_cs f < 2 ^ 64 → 0 ≤ f_ss f < 2 ^ 64 → caller s = Some i →
  gate_open f s i ↔ g_ready s = true ∧ syscall_frame_valid f = true ∧
    valid s i (f_rip f) 1 0 = true ∧ valid s i (f_user_rsp f) 1 VMM_PAGE_WRITABLE = true.
Proof.
  intros Hcs Hss Hc. unfold gate_open. rewrite (frame_valid_iff f Hcs Hss).
  assert (user_frame f → PROCESS_USER_BASE ≤ f_rip f < PROCESS_USER_LIMIT ∧
    PROCESS_USER_BASE ≤ f_user_rsp f < PROCESS_USER_LIMIT) as Hr.
  { unfold user_frame, STACK_TOP, PROCESS_USER_BASE, PROCESS_USER_LIMIT. lia. }
  assert (∀ v, PROCESS_USER_BASE ≤ v < PROCESS_USER_LIMIT → 0 ≤ v < 2 ^ 64) as H64
    by (unfold PROCESS_USER_BASE, PROCESS_USER_LIMIT; lia).
  split.
  - intros (Hg & _ & Hu & (f1 & E1 & X1) & (f2 & E2 & W2 & X2)). destruct (Hr Hu) as [R1 R2]. split; [done|]. split; [done|].
    rewrite !valid_byte by done. split; (apply page_allowed_flags; [by apply H64|done|]); eexists; (split; [done|]); by split.
  - intros (Hg & Hu & V1 & V2). destruct (Hr Hu) as [R1 R2]. rewrite valid_byte in V1, V2 by done.
    apply page_allowed_flags in V1 as (f1 & E1 & _ & X1); [|by apply H64|done].
    apply page_allowed_flags in V2 as (f2 & E2 & W2 & X2); [|by apply H64|done].
    split_and!; [done|done|done|by exists f1|]. exists f2. by split_and!; [|apply W2|].
Qed.

(** C21: the interrupt gate serves exactly the calls of user mode. It opens for
    the running user process when the frame has the user code and data
    selectors (the table indicator bit is not looked at), interrupts are on,
    the I/O privilege level is 0, virtual-8086 mode is off, the instruction
    pointer is on a page of the process and the stack pointer on a writable
    one, neither of them no-execute; then [EXIT] ends the process with the code
    given, and every other number is dispatched with the registers of the
    frame and its result returned in rax. In every other case -1 is returned and
    nothing else changes. *)
Theorem syscall_gate_user_only f s :
  0 ≤ f_cs f < 2 ^ 64 → 0 ≤ f_ss f < 2 ^ 64 →
  (∀ i, gate_open f s i → f_rax f ≠ NEXUS_SYS_EXIT_NUMBER →
     syscall_interrupt_handler f s =
       let r := syscall_dispatch (f_rax f) (f_rdi f) (f_rsi f) (f_rdx f) (f_r10 f) s in
       (NEXUS_SYSCALL_ACTION_RETURN, f <| f_rax := r.1 |>, r.2)) ∧
  (∀ i, gate_open f s i → f_rax f = NEXUS_SYS_EXIT_NUMBER →
     ∃ s', syscall_interrupt_handler f s = (NEXUS_SYSCALL_ACTION_EXIT, f, s') ∧
       p_state (run_as s' i) = PROCESS_ZOMBIE ∧ exit_code (run_as s' i) = f_rdi f) ∧
  ((∀ i, ¬ gate_open f s i) →
     syscall_interrupt_handler f s = (NEXUS_SYSCALL_ACTION_RETURN, f <| f_rax := FAILED |>, s)).
Proof.
  intros Hcs Hss. unfold syscall_interrupt_handler. split_and!.
  - intros i Hg Hx. pose proof Hg as (_ & Hc & _). apply gate_open_iff in Hg as (-> & -> & V1 & V2); [|done..].
    rewrite Hc, V1, V2. cbn [negb orb]. rewrite (proj2 (Z.eqb_neq _ _) Hx). by destruct (syscall_dispatch _ _ _ _ _ s).
  - intros i Hg Hx. pose proof Hg as (_ & Hc & _). apply gate_open_iff in Hg as (-> & -> & V1 & V2); [|done..].
    rewrite Hc, V1, V2. cbn [negb orb]. rewrite (proj2 (Z.eqb_eq _ _) Hx).
    destruct (caller_self s i Hc) as (Hi & _ & Hs).
    destruct (process_exit_with_code (pid_of s i) (f_rdi f) 1 (tab s)) as [ok t1] eqn:Ex. destruct ok; cbn [negb].
    + destruct (exit_done _ _ _ i _ _ Hi Ex) as (Hz & Hcode & _). eexists. split; [reflexivity|]. by split.
    + exfalso. unfold process_exit_with_code in Ex. unfold is_self in Hi. rewrite Hi in Ex. unfold run_as in Hs.
      rewrite Hs in Ex. by rewrite !bool_decide_false in Ex.
  - intros Hno. destruct (negb (g_ready s) || negb (syscall_frame_valid f)) eqn:E1; [done|].
    apply orb_false_iff in E1 as [E1%negb_false_iff E2%negb_false_iff].
    destruct (caller s) as [i|] eqn:Hc; [|done].
    destruct (negb (valid s i (f_rip f) 1 0) || negb (valid s i (f_user_rsp f) 1 VMM_PAGE_WRITABLE)) eqn:E3; [done|].
    apply orb_false_iff in E3 as [E3%negb_false_iff E4%negb_false_iff].
    destruct (Hno i). by apply gate_open_iff.
Qed.

(** ** Exit and wait *)

Lemma list_find_seqZ (P : Z → bool) n q :
  1 ≤ q < 1 + n → P q = true → (∀ k, P k = true → k = q) →
  ∃ j, list_find (λ k, P k = true) (seqZ 1 n) = Some (j, q).
Proof.
  intros Hq Hp Hu. destruct (list_find_elem_of (λ k, P k = true) (seqZ 1 n) q) as [[j k] Hf].
  - apply elem_of_seqZ. lia.
  - exact Hp.
  - exists j. pose proof Hf as Hf'. apply list_find_Some in Hf' as (_ & Hk & _). by rewrite Hf, (Hu k Hk).
Qed.

(** A zombie keeps its record, up to channel handles, until it is reaped. *)
Lemma set_current_zombie p t k :
  p_state (proc t k) = PROCESS_ZOMBIE → proc (process_set_current p t).2 k = proc t k.
Proof.
  intros Hz. unfold process_set_current. destruct (process_get t p) as [nxt|] eqn:Hg; [|done].
  destruct (_ && _) eqn:Es; [done|]. cbv zeta. cbn [snd].
  assert (nxt ≠ k) as Hne.
  { intros ->. rewrite Hz in Es. cbn in Es. done. }
  match goal with |- context [set_proc nxt _ ?x] => set (t1 := x) end.
  change (proc (set_proc nxt (λ r, r <| p_state := PROCESS_RUNNING |>) t1) k = proc t k).
  rewrite proc_set_ne by done. unfold t1. destruct (process_get t (g_current_pid t)) as [old|]; [|done].
  destruct (negb (old =? nxt)%nat && _) eqn:Eo; [|done]. apply andb_true_iff in Eo as [_ Eo].
  apply bool_decide_eq_true in Eo. apply proc_set_ne. intros ->. by rewrite Hz in Eo.
Qed.

Lemma user_step_zombie q k s s' :
  user_step (λ p, p ≠ q) s s' → pwf (tab s) → used (tab s) k → pid (run_as s k) = q →
  p_state (run_as s k) = PROCESS_ZOMBIE → pwf (tab s') ∧ same_but_handles (run_as s k) (run_as s' k).
Proof.
  unfold run_as. intros Hst W Hu Hp Hz. destruct Hst as [s number a0 a1 a2 a3 Hb|s p|s|s p code reason|s p th e e' Hr|s p].
  - split; [by apply (dispatch_kept number a0 a1 a2 a3 s W Hb)|]. apply dispatch_others; [done..|].
    intros (_ & _ & Hc)%caller_self. unfold run_as in Hc. by rewrite Hz in Hc.
  - split; [by apply process_set_current_wf|].
    change (same_but_handles (proc (tab s) k) (proc (process_set_current p (tab s)).2 k)).
    rewrite set_current_zombie by done. apply same_but_handles_refl.
  - split; [by apply process_clear_current_wf|].
    change (same_but_handles (proc (tab s) k) (proc (process_clear_current (tab s)) k)). unfold process_clear_current. cbv zeta.
    destruct (process_get (tab s) (g_current_pid (tab s))) as [old|]; [|apply same_but_handles_refl].
    case_bool_decide as Ho; [|apply same_but_handles_refl].
    change (same_but_handles (proc (tab s) k) (proc (set_proc old (λ r, r <| p_state := PROCESS_READY |>) (tab s)) k)).
    rewrite proc_set_ne by (intros ->; by rewrite Hz in Ho). apply same_but_handles_refl.
  - split; [by apply process_exit_wf|].
    change (same_but_handles (proc (tab s) k) (proc (process_exit_with_code p code reason (tab s)).2 k)). destruct (process_get (tab s) p) as [j|] eqn:Hg.
    + destruct (decide (k = j)) as [<-|Hne]; [|by apply (exit_child p code reason j (tab s) Hg)].
      unfold process_exit_with_code. rewrite Hg, Hz. apply same_but_handles_refl.
    + unfold process_exit_with_code. rewrite Hg. apply same_but_handles_refl.
  - split; [by apply process_reap_wf|].
    change (same_but_handles (proc (tab s) k) (proc (process_reap p th (tab s) e).1.2 k)). destruct (process_get (tab s) p) as [j|] eqn:Hg.
    + apply (reap_child p th j (tab s) e Hg). intros ->. apply process_get_Some in Hg as (_ & Hpid & _). congruence.
    + unfold process_reap. rewrite Hg. destruct (p =? _); apply same_but_handles_refl.
  - unfold process_account_cpu_tick. destruct (process_get (tab s) p) as [j|]; [|split; [done|apply same_but_handles_refl]].
    case_bool_decide as Hj; [|split; [done|apply same_but_handles_refl]]. split; [by apply pwf_quiet|].
    change (same_but_handles (proc (tab s) k) (proc (set_proc j (λ r, r <| cpu_ticks := u64 (cpu_ticks r + 1) |>) (tab s)) k)).
    rewrite proc_set_ne by (intros ->; by rewrite Hz in Hj). apply same_but_handles_refl.
Qed.

Lemma zombie_history q k s1 s2 :
  rtc (user_step (λ p, p ≠ q)) s1 s2 → pwf (tab s1) → used (tab s1) k → pid (run_as s1 k) = q →
  p_state (run_as s1 k) = PROCESS_ZOMBIE →
  pwf (tab s2) ∧ used (tab s2) k ∧ same_but_handles (run_as s1 k) (run_as s2 k).
Proof.
  intros Hr. induction Hr as [s|s1 s2 s3 Hst _ IH]; intros W Hu Hp Hz.
  { split; [done|]. split; [done|]. apply same_but_handles_refl. }
  destruct (user_step_zombie q k s1 s2 Hst W Hu Hp Hz) as [W2 H2].
  assert (used (tab s2) k ∧ pid (run_as s2 k) = q ∧ p_state (run_as s2 k) = PROCESS_ZOMBIE) as (Hu2 & Hp2 & Hz2).
  { destruct H2 as [h Eh]. unfold used. unfold run_as in *. rewrite Eh. split; [exact Hu|]. by split. }
  destruct (IH W2 Hu2 Hp2 Hz2) as (W3 & Hu3 & H3). split; [done|]. split; [done|]. by eapply same_but_handles_trans.
Qed.

Lemma exit_leaves_zombie f s c f' s1 :
  pwf (tab s) → caller s = Some c → syscall_interrupt_handler f s = (NEXUS_SYSCALL_ACTION_EXIT, f', s1) →
  pwf (tab s1) ∧ used (tab s1) c ∧ p_state (run_as s1 c) = PROCESS_ZOMBIE ∧ exit_code (run_as s1 c) = f_rdi f ∧
  parent_pid (run_as s1 c) = parent_pid (run_as s c) ∧ pid (run_as s1 c) = pid_of s c.
Proof.
  intros W Hc. destruct (caller_self s c Hc) as (Hself & Hu & _).
  unfold syscall_interrupt_handler. destruct (_ || _); [done|]. rewrite Hc.
  destruct (_ || _); [done|]. destruct (f_rax f =? NEXUS_SYS_EXIT_NUMBER); [|by destruct (syscall_dispatch _ _ _ _ _ s)].
  pose proof (process_exit_wf (pid_of s c) (f_rdi f) 1 (tab s) W) as W1.
  pose proof (exit_child (pid_of s c) (f_rdi f) 1 c (tab s) Hself) as (_ & Hk & _).
  pose proof (exit_get (pid_of s c) (f_rdi f) 1 c (tab s) Hself) as Hg1.
  destruct (process_exit_with_code (pid_of s c) (f_rdi f) 1 (tab s)) as [ok t1] eqn:Ex. destruct ok; [|done].
  cbn [negb fst snd] in *. intros [= <- <-]. destruct (exit_done _ _ _ c _ _ Hself Ex) as (Hz & Hcode & _).
  pose proof (process_get_Some _ _ _ Hg1) as (Hu1 & _). destruct (Hk Hu1) as (_ & _ & Hp & Hpid).
  unfold run_as. by split_and!.
Qed.

(** What [WAITPID] does when the child it is asked for is a zombie. *)
Lemma waitpid_zombie s i k a1 :
  pwf (tab s) → used (tab s) k → p_state (run_as s k) = PROCESS_ZOMBIE → parent_pid (run_as s k) = pid_of s i →
  1 ≤ pid_of s k < 4096 →
  sys_waitpid i (pid_of s k) a1 s =
    if negb (a1 =? 0) && valid s i a1 8 VMM_PAGE_WRITABLE
    then let '(ok, s') := put i a1 (le64_bytes (exit_code (run_as s k))) 8 s in (if ok : bool then pid_of s k else FAILED, s')
    else (pid_of s k, s).
Proof.
  intros W Hu Hz Hpar Hq. pose proof (get_self (tab s) k W Hu : process_get (tab s) (pid_of s k) = Some k) as Hg.
  destruct (list_find_seqZ (wait_match s i (pid_of s k)) (PID_LIMIT - 1) (pid_of s k)) as [j Hf].
  - unfold PID_LIMIT. lia.
  - unfold wait_match. rewrite Hg. unfold run_as in *. rewrite Hpar, Hz, !Z.eqb_refl, orb_true_r. done.
  - intros m. unfold wait_match. destruct (process_get (tab s) m); [|done].
    rewrite !andb_true_iff. rewrite (proj2 (Z.eqb_neq (pid_of s k) 0)) by lia. cbn [orb].
    intros [[_ Hm] _]. apply Z.eqb_eq in Hm. done.
  - unfold sys_waitpid. rewrite Hf, Hg. done.
Qed.

(** C20: what a process passes to [EXIT] is what its parent gets from
    [WAITPID], whatever runs in between (the parent is switched to, other
    processes call, exit and are reaped; process ids do not wrap), as long as
    the child itself is not reaped - the scheduler does that once it has switched away from the child's
    thread: the zombie still has that code, and a wait of the parent for this
    child returns its id and, given a place for it, stores the code there - as
    often as it is called, since waiting does not reap. The child's id is below
    4096, since the call looks no further. *)
Theorem exit_waitpid_roundtrip f s c f' s1 s2 i :
  pwf (tab s) → caller s = Some c → 1 ≤ pid_of s c < 4096 →
  syscall_interrupt_handler f s = (NEXUS_SYSCALL_ACTION_EXIT, f', s1) →
  rtc (user_step (λ p, p ≠ pid_of s c)) s1 s2 → pid_of s2 i = parent_pid (run_as s c) →
  p_state (run_as s2 c) = PROCESS_ZOMBIE ∧ exit_code (run_as s2 c) = f_rdi f ∧
  (∀ a2 a3, call NEXUS_SYS_WAITPID i (pid_of s c) 0 a2 a3 s2 = (pid_of s c, s2)) ∧
  ∀ a1 a2 a3 s3, valid s2 i a1 8 VMM_PAGE_WRITABLE = true → a1 ≠ 0 →
    put i a1 (le64_bytes (f_rdi f)) 8 s2 = (true, s3) →
    call NEXUS_SYS_WAITPID i (pid_of s c) a1 a2 a3 s2 = (pid_of s c, s3).
Proof.
  intros W Hc Hq Hh Hr Hpar. destruct (exit_leaves_zombie f s c f' s1 W Hc Hh) as (W1 & Hu1 & Hz1 & Hcode1 & Hp1 & Hpid1).
  destruct (zombie_history (pid_of s c) c s1 s2 Hr W1 Hu1 Hpid1 Hz1) as (W2 & Hu2 & [h Eh]).
  assert (p_state (run_as s2 c) = PROCESS_ZOMBIE ∧ exit_code (run_as s2 c) = f_rdi f ∧
          parent_pid (run_as s2 c) = pid_of s2 i ∧ pid_of s2 c = pid_of s c) as (Hz & Hcode & Hp & Hpid)
    by (unfold pid_of; rewrite Eh; split_and!; [done|done|by rewrite <- Hp1 in Hpar|done]).
  split; [done|]. split; [done|].
  pose proof (waitpid_zombie s2 i c) as Hw. rewrite Hpid, Hcode in Hw. split.
  - intros a2 a3. cbn [call]. by rewrite Hw.
  - intros a1 a2 a3 s3 Hv Ha Hput. cbn [call]. rewrite Hw, Hv, (proj2 (Z.eqb_neq a1 0)) by done. cbn [negb andb].
    by rewrite Hput.
Qed.

(** ** Defects of single calls *)

Lemma nx_page_refused t p i k va size req :
  process_get t p = Some i → user_page_index (proc t i) (Z.land va (not64 (PROC_PAGE_SIZE - 1))) = Some k →
  has_bits (user_page_flags (proc t i) (Z.of_nat k)) VMM_PAGE_NX = true → has_bits req VMM_PAGE_NX = false →
  0 ≤ va < 2 ^ 64 → 0 < size → process_user_range_valid p va size req t = false.
Proof.
  intros Hg Hk Hnx Hreq Hva Hs. unfold process_user_range_valid. rewrite Hg. destruct (_ || _); [done|].
  unfold chunk_fuel. assert (∃ n, Z.to_nat (size / PROC_PAGE_SIZE + 2) = S n) as [n ->].
  { exists (Z.to_nat (size / PROC_PAGE_SIZE + 1)). unfold PROC_PAGE_SIZE. pose proof (Z.div_pos size 4096). lia. }
  cbn [chunk_loop]. destruct (Z.ltb_spec 0 size); [|lia]. rewrite Z.add_0_r, u64_small by lia. cbv zeta.
  unfold page_allowed. rewrite Hk, Hnx, Hreq. cbn [andb negb]. by destruct (_ && _).
Qed.

(** A process cannot make a system call while its stack pointer is on a
    no-execute page: the gate checks the stack with the flag "writable" only,
    and [process_user_range_valid] then refuses no-execute pages.  The stack
    pages of the ELF loader and the pages of [MMAP] and [BRK] are no-execute. *)
Theorem syscalls_refused_on_nx_stack f s i k :
  caller s = Some i → 0 ≤ f_user_rsp f < 2 ^ 64 →
  user_page_index (run_as s i) (Z.land (f_user_rsp f) (not64 (PROC_PAGE_SIZE - 1))) = Some k →
  has_bits (user_page_flags (run_as s i) (Z.of_nat k)) VMM_PAGE_NX = true →
  syscall_interrupt_handler f s = (NEXUS_SYSCALL_ACTION_RETURN, f <| f_rax := FAILED |>, s).
Proof.
  intros Hc Hr Hk Hnx. destruct (caller_self s i Hc) as (Hi & _). unfold syscall_interrupt_handler.
  destruct (_ || _); [done|]. rewrite Hc. unfold valid at 2.
  rewrite (nx_page_refused (tab s) (pid_of s i) i k (f_user_rsp f) 1 VMM_PAGE_WRITABLE) by (done || lia).
  by rewrite orb_true_r.
Qed.

(** [READ] at the end of a file returns -1, not 0. *)
Theorem read_at_end_fails i a0 a1 a2 s t :
  process_fd_read (pid_of s i) a0 a2 (tab s) (senv s) = (0, [], t) → (sys_read i a0 a1 a2 s).1 = FAILED.
Proof.
  intros Hr. unfold sys_read. destruct (_ || _); [done|]. rewrite Hr. cbn [Z.ltb Z.compare].
  unfold put, process_user_write. destruct (process_get _ _); [|done].
  unfold bad_user_range. cbn [Z.eqb orb]. by rewrite orb_true_r.
Qed.

(** [BRK] to an address inside the last page frees that page: the heap then
    ends below the address asked for. *)
Theorem brk_frees_page_in_use i requested s :
  let old := heap_end (run_as s i) in
  0 < requested < old → old < 2 ^ 47 → old mod 4096 = 0 → requested mod 4096 ≠ 0 →
  (sys_brk i requested s).1 = FAILED ∨ (sys_brk i requested s).1 < requested.
Proof.
  intros old Hr Ho Hm Hn. unfold sys_brk. destruct (negb _); [by left|].
  rewrite (proj2 (Z.eqb_neq requested 0)) by lia. destruct (_ || _); [by left|]. cbv zeta. fold old.
  destruct (Z.gtb_spec requested old); [lia|]. destruct (Z.ltb_spec requested old); [|lia].
  destruct (process_unmap_user_range _ _ _ _ _) as [[ok t] e]. destruct (negb ok); [by left|]. right.
  match goal with |- (heap_end (run_as (set_heap_end i ?v ?x) i), _).1 < _ => change (heap_end (proc (set_proc i (λ r, r <| heap_end := v |>) (tab x)) i) < requested) end.
  rewrite proc_set_eq. cbn [heap_end]. rewrite (u64_small (old - requested + 4095)) by lia.
  assert (old - (old - requested + 4095) / 4096 * 4096 < requested ∧ 0 ≤ old - (old - requested + 4095) / 4096 * 4096)
    by (Z.to_euclidean_division_equations; lia).
  change (u64 (old - (old - requested + 4095) / 4096 * 4096) < requested). rewrite u64_small by lia. lia.
Qed.

(** [RUNTIME_INFO] copies 18 bytes of the kernel stack to the user: the name
    field behind the terminator is never written. *)
Theorem runtime_info_leaks_stack p s info k :
  nexus_runtime_fill_info p s = Some info → 62 ≤ k < 80 → byte_at info k = stack_bytes s k.
Proof.
  unfold nexus_runtime_fill_info. destruct (negb _); [done|]. destruct (process_get _ p) as [j|]; [|done].
  case_bool_decide; [done|]. cbv zeta. intros Hinfo Hk. apply (inj Some) in Hinfo. subst info.
  match goal with |- byte_at (?a ++ ?b ++ ?c ++ ?d ++ ?e ++ ?f ++ ?g ++ ?h ++ ?n ++ ?l) k = _ =>
    replace (a ++ b ++ c ++ d ++ e ++ f ++ g ++ h ++ n ++ l) with ((a ++ b ++ c ++ d ++ e ++ f ++ g ++ h ++ n) ++ l)
      by (by rewrite <- !app_assoc); set (pre := a ++ b ++ c ++ d ++ e ++ f ++ g ++ h ++ n) end.
  assert (length pre = 62%nat) as Hl by done.
  replace k with (62 + (k - 62)) at 1 by lia. rewrite byte_at_app by (rewrite ?Hl; lia).
  unfold byte_at. rewrite list_lookup_fmap. rewrite (proj2 (lookup_seqZ _ _ (Z.to_nat (k - 62)) (k - 48))).
  - cbn. f_equal. lia.
  - change (Z.of_nat (length (take 31 NEXUS_RUNTIME_NAME ++ [0]))) with 14. lia.
Qed.
End main.
(** ** A kernel in which the calls run *)

(** Memory is a map from addresses to bytes, translated one to one; frames
    are handed out by counting; there are the files [demo_elf] and "/A". *)
Record world := mkWorld { w_next : Z; w_bytes : gmap Z Z }.

#[export] Instance world_mem : MemEnv world := {
  me_scheduler_ticks w := 0;
  me_create_address_space w := (0x100000 + w_next w * 4096, mkWorld (w_next w + 1) (w_bytes w));
  me_destroy_address_space _ w := w;
  me_alloc_page w := (0x900000 + w_next w * 4096, mkWorld (w_next w + 1) (w_bytes w));
  me_free_page _ w := w;
  me_map_page_in_cr3 _ _ _ _ w := (1, w);
  me_unmap_page_in_cr3 _ _ w := w;
  me_virt_to_phys_in_cr3 _ _ va := va;
  me_read8 w a := default 0 (w_bytes w !! a);
  me_write8 a v w := mkWorld (w_next w) (<[a := v]> (w_bytes w));
}.
#[export] Instance world_files : FileEnv world := {
  fe_file_size_path w path := if bool_decide (path = lit "/A") then Some 3 else None;
  fe_read_path w path size off :=
    if bool_decide (path = lit "/A") then Some (take (Z.to_nat size) (drop (Z.to_nat off) [65; 66; 67])) else None;
  fe_write_path _ _ _ _ w := (None, w);
}.
#[export] Instance world_elf : ElfFiles world := {
  ef_read_file path size w := if bool_decide (path = lit "/INIT") then (Some demo_elf, w) else (None, w);
}.
#[export] Instance world_sys : SysEnv world := {
  sy_is_dir_path _ path := bool_decide (path = lit "/");
  sy_mkdir_path _ w := (false, w); sy_unlink_path _ w := (false, w); sy_rename_path _ _ w := (false, w);
  sy_console_putchar _ w := w; sy_elapsed_ms _ := 1000; sy_current_thread_id _ := 3;
  sy_quantum_expirations _ := 0; sy_context_switches _ := 0; sy_timer_hz _ := 100; sy_quantum_ticks _ := 10;
  sy_thread_count _ := 2; sy_max_threads _ := 8; sy_ready_count _ := 1; sy_sleeping_count _ := 0;
  sy_thread_switches _ _ := 0; sy_thread_runtime_ticks _ _ := 0; sy_request_reschedule w := w;
  sy_thread_exit w := w; sy_thread_create _ w := (Some (7, 0x800000), w);
  sy_total_pages _ := 4096; sy_free_pages _ := 4000; sy_used_pages _ := 96;
}.

Definition world0 : world :=
  mkWorld 5 (list_to_map (zip (seqZ 0x400000 6) (lit "/INIT" ++ [0]))).

(** Process 1 runs with a thread, a user context and a writable page. *)
Definition demo_a : ptable := (process_set_current 1 ProcMem.demo_tab1).2.
Definition demo_b : ptable := set_proc 0 (λ r, r <| scheduler_thread_id := 3 |> <| p_flags := 1 |>) demo_a.
Definition demo_c : ptable := (process_map_user_page 1 0x400000 VMM_PAGE_WRITABLE demo_b world0).1.2.
Definition demo_sys : sys world := mkSys demo_c world0 true true true demo_buffer (λ _, 0xAA).

Lemma demo_c_wf : pwf demo_c.
Proof.
  apply (proc_step_wf demo_b); [|apply ps_map_page]. apply (proc_step_wf demo_a); [|by apply ps_quiet].
  apply (proc_step_wf ProcMem.demo_tab1); [exact demo_tab1_wf|apply ps_set_current].
Qed.

Lemma pair_eta {A B} (x : A * B) : x = (x.1, x.2).
Proof. by destruct x. Qed.

(** Process 1 starts [demo_elf] as process 2. *)
Definition demo_exec : Z * sys world := syscall_dispatch 23 0x400000 0 0 0 demo_sys.

Lemma demo_exec_eq : syscall_dispatch 23 0x400000 0 0 0 demo_sys = (demo_exec.1, demo_exec.2).
Proof. unfold demo_exec. apply pair_eta. Qed.

Lemma syscall_no_escalation_witness :
  demo_exec.1 = 2 ∧ pwf (tab demo_exec.2) ∧ parent_pid (run_as demo_exec.2 1) = 1.
Proof.
  destruct (syscall_no_escalation 23 0x400000 0 0 0 demo_sys demo_exec.1 demo_exec.2 demo_c_wf
    ltac:(vm_compute; reflexivity) demo_exec_eq) as [W Hk].
  split; [vm_compute; reflexivity|]. split; [exact W|].
  assert (used (tab demo_exec.2) 1) as Hu by (split; [apply Nat.ltb_lt; vm_compute; reflexivity|vm_compute; discriminate]).
  destruct (Hk 1%nat Hu) as [([_ H0] & _)|(_ & i & Hi & _ & Hp & _)].
  - exfalso. apply H0. vm_compute. reflexivity.
  - rewrite Hp. assert (caller demo_sys = Some 0%nat) as Hc by (vm_compute; reflexivity).
    rewrite Hc in Hi. injection Hi as <-. vm_compute. reflexivity.
Defined.

(** Process 1 asks for its name: the terminator is stored on its page. *)
Definition demo_name : Z * sys world := syscall_dispatch 21 0x400010 8 0 0 demo_sys.
Lemma demo_name_eq : syscall_dispatch 21 0x400010 8 0 0 demo_sys = (demo_name.1, demo_name.2).
Proof. unfold demo_name. apply pair_eta. Qed.

Lemma syscall_memory_confined_witness :
  demo_name.1 = 0 ∧ rtc (env_step (run_as demo_sys 0)) world0 (senv demo_name.2).
Proof.
  split; [vm_compute; reflexivity|].
  apply (syscall_memory_confined 21 0x400010 8 0 0 demo_sys demo_name.1 demo_name.2 0%nat).
  - vm_compute. reflexivity.
  - vm_compute. discriminate.
  - exact demo_name_eq.
Defined.

(** Process 1 drops the capability [MEMORY] and then asks for memory. *)
Definition demo_drop : sys world := (syscall_dispatch 67 64 0 0 0 demo_sys).2.
Definition demo_drop2 : sys world := (syscall_dispatch 20 3 0 0 0 demo_drop).2.

Lemma dispatch_table_wf number a0 a1 a2 a3 (s : sys world) :
  pwf (tab s) → g_next_pid (tab s) + 1 < 2 ^ 64 → pwf (tab (syscall_dispatch number a0 a1 a2 a3 s).2).
Proof. intros W Hn. apply (dispatch_kept number a0 a1 a2 a3 s W Hn). Qed.

Lemma demo_drop_wf : pwf (tab demo_drop).
Proof. unfold demo_drop. apply dispatch_table_wf; [exact demo_c_wf|vm_compute; reflexivity]. Qed.

Lemma missing_capability_useless_witness :
  priority (run_as demo_drop2 0) = 3 ∧
  out_of_reach NEXUS_CAP_MEMORY 0 24 demo_drop2 (syscall_dispatch 24 0 4096 0 0 demo_drop2).2.
Proof.
  split; [vm_compute; reflexivity|].
  apply (missing_capability_useless demo_drop demo_drop2 0%nat 1 NEXUS_CAP_MEMORY 24 0 4096 0 0 demo_drop_wf) with (k := 0%nat).
  - vm_compute. reflexivity.
  - vm_compute. discriminate.
  - vm_compute. reflexivity.
  - vm_compute. reflexivity.
  - apply rtc_once. apply us_call. vm_compute. reflexivity.
  - vm_compute. reflexivity.
  - vm_compute. reflexivity.
  - vm_compute. reflexivity.
Defined.

Definition demo_frame (rax rdi rip rsp : Z) : syscall_interrupt_frame_t :=
  mkFrame 0 0 0 0 0 0 0 0 0 rdi 0 0 0 0 rax rip 0x23 0x202 rsp 0x1B.

(** A frame that comes from the kernel's code segment. *)
Definition bad_frame : syscall_interrupt_frame_t := (demo_frame 2 0 0x400000 0x400800) <| f_cs := 8 |>.
Lemma syscall_gate_user_only_witness :
  syscall_interrupt_handler bad_frame demo_sys =
    (NEXUS_SYSCALL_ACTION_RETURN, bad_frame <| f_rax := FAILED |>, demo_sys) ∧
  gate_open (demo_frame 2 0 0x400000 0x400800) demo_sys 0.
Proof.
  split.
  - apply (syscall_gate_user_only bad_frame demo_sys).
    + vm_compute. split; [discriminate|reflexivity].
    + vm_compute. split; [discriminate|reflexivity].
    + intros i (_ & _ & ([Hc|Hc] & _) & _); vm_compute in Hc; discriminate Hc.
  - apply gate_open_iff.
    + vm_compute. split; [discriminate|reflexivity].
    + vm_compute. split; [discriminate|reflexivity].
    + vm_compute. reflexivity.
    + split; [reflexivity|]. split; [vm_compute; reflexivity|]. split; vm_compute; reflexivity.
Defined.

(** Process 2 runs with its stack pointer on its data page and exits with 42. *)
Definition demo_child : sys world := demo_exec.2 <| tab := (process_set_current 2 (tab demo_exec.2)).2 |>.
Definition demo_exit : syscall_action * syscall_interrupt_frame_t * sys world :=
  syscall_interrupt_handler (demo_frame 1 42 0x400004 0x401800) demo_child.

Lemma demo_child_wf : pwf (tab demo_child).
Proof.
  unfold demo_child, demo_exec. apply process_set_current_wf, dispatch_table_wf; [exact demo_c_wf|vm_compute; reflexivity].
Qed.

Lemma demo_exit_eq :
  syscall_interrupt_handler (demo_frame 1 42 0x400004 0x401800) demo_child =
    (NEXUS_SYSCALL_ACTION_EXIT, demo_exit.1.2, demo_exit.2).
Proof.
  assert (demo_exit.1.1 = NEXUS_SYSCALL_ACTION_EXIT) as <- by (vm_compute; reflexivity).
  unfold demo_exit. by destruct (syscall_interrupt_handler _ demo_child) as [[? ?] ?].
Qed.

(** The parent is switched to before it waits. *)
Definition demo_back : sys world := demo_exit.2 <| tab := (process_set_current 1 (tab demo_exit.2)).2 |>.

Lemma exit_waitpid_roundtrip_witness :
  call NEXUS_SYS_WAITPID 0 2 0 0 0 demo_back = (2, demo_back) ∧ exit_code (run_as demo_back 1) = 42.
Proof.
  destruct (exit_waitpid_roundtrip (demo_frame 1 42 0x400004 0x401800) demo_child 1%nat demo_exit.1.2 demo_exit.2
    demo_back 0%nat demo_child_wf ltac:(vm_compute; reflexivity) ltac:(vm_compute; split; [discriminate|reflexivity])
    demo_exit_eq (rtc_once _ _ (us_switch _ demo_exit.2 1)) ltac:(vm_compute; reflexivity)) as (_ & Hcode & Hw & _).
  split; [exact (Hw 0 0)|exact Hcode].
Defined.
End SyscallMain.
